(* ===== verification/_CoqProject ===== *)
-Q . S2P
Prelude.v
OrderedSet.v
IntervalSet.v
Stream.v
SequencerBuffer.v
StreamSequencer.v
Bytes.v
DataWire.v
StreamSendBuffer.v
FlowController.v
StreamIdManager.v
PacketNumber.v
ReceivedPackets.v
PacketNumberWire.v
PacketNumberIndexedQueue.v
UnackedPacketMap.v
LossDetection.v
LossInterface.v
SentPacketManager.v
QuicStreams.v
IetfFrames.v
GoogleFrames.v
ControlFrameManager.v
HttpDecoder.v
HttpEncoder.v
Versions.v
FrameSizes.v
PacketHeaders.v
CryptoMessages.v
Crypters.v
Packets.v
PacketCreator.v
PacketGenerator.v
