(* ===== verification/Prelude.v ===== *)
(** * A verification of the transport core of google-quiche

    The repository implements QUIC (src/quic), with HTTP/2, HPACK and SPDY framing (src/http2,
    src/spdy) and an epoll server. This development models the parts of src/quic/core that decide whether a
    transport is correct: what arrives is delivered in order, what is sent can be read, what is lost is
    found and sent again, what is acknowledged was received, and the limits both ends agreed on are kept.

    ** The parts and how they interact

    A packet that arrives loses its header protection, is decrypted and parsed frame by frame. Its stream frames go to the sequencer of their
    stream and its buffer, under the control of the flow controllers; its ACK frames go to the sent packet manager, which keeps the
    unacked packet map and through it tells the session, and so the send buffers, what the peer has; its number goes to the received packet manager, which
    writes the ACK frames of the packets sent. Loss detection looks for holes in the unacked packet map for the sent packet
    manager, and the send buffers write the lost data again. The packet generator cuts data into frames,
    as its delegate permits, and the packet creator fills packets with them, by the sizes the framer announces, and gives them to the
    delegate built and encrypted.

    - [Prelude]: machine integers, lists, sorted lists; the tactics and lemmas all files share.
    - [OrderedSet]: [std::set] as the list of its keys.
    - [IntervalSet]: [Interval] (quic_interval.h) and [IntervalSet] (quic_interval_set.h). Used by the sequencer
      buffer, the send buffer and the packet number queue. The specification of a set is its set of points.
    - [Stream]: the bytes of a stream as a function of the offset, the specification of both ends.
    - [SequencerBuffer]: quic_stream_sequencer_buffer.cc, the receive side of a stream: a ring of blocks
      allocated on demand, and the set of offsets received.
    - [StreamSequencer]: quic_stream_sequencer.cc above that buffer, against a stream that reads, blocks and stops.
    - [Bytes], [DataWire]: quic_data_writer.cc and quic_data_reader.cc ([Writer], [Reader]), integers and strings in
      a fixed buffer. [Wire] puts a message of any fields through both.
    - [StreamSendBuffer]: quic_stream_send_buffer.cc, the send side of a stream; it writes with [Writer].
    - [FlowController]: quic_flow_controller.cc; [Link] runs a sender against a receiver.
    - [StreamIdManager]: quic_stream_id_manager.cc, the stream ids of one direction and their limits.
    - [PacketNumber]: quic_packet_number.h, and [PacketNumberQueue] of frames/quic_ack_frame.cc.
    - [ReceivedPackets]: quic_received_packet_manager.cc, with the ACK frame it builds.
    - [PacketNumberWire]: the truncated packet numbers and timestamps of quic_framer.cc and
      quic_packet_creator.cc.
    - [PacketNumberIndexedQueue]: packet_number_indexed_queue.h, for any type of entries.
    - [UnackedPacketMap]: quic_unacked_packet_map.cc, with the frames' way back to the session; the parts of
      quic_sent_packet_manager.cc that mark packets acknowledged and lost.
    - [LossDetection]: congestion_control/general_loss_algorithm.cc and uber_loss_algorithm.cc.
    - [LossInterface]: congestion_control/loss_detection_interface.h as a class of operations with their laws, and the two
      algorithms as its instances.
    - [SentPacketManager]: quic_sent_packet_manager.cc, against any instance of that class: sending, ACK frames, losses,
      retransmission, the timer.
    - [QuicStreams]: quic_stream.cc, a stream with its send buffer and both flow controllers, and the parts of
      quic_session.cc that write for it, reset it and close it.
    - [IetfFrames]: the frames of IETF QUIC in quic_framer.cc, written with [Writer] and parsed with [Reader]; an ACK
      frame is the one of [ReceivedPackets].
    - [GoogleFrames]: the frames of Google QUIC in quic_framer.cc, with ACK frames cut to the room a packet has left.
    - [ControlFrameManager]: quic_control_frame_manager.cc, the frames that are sent until they are acknowledged, with the
      parts of frames/quic_frame.cc it uses.
    - [HttpDecoder], [HttpEncoder]: http/http_frames.h, http/http_decoder.cc and http/http_encoder.cc, the frames of HTTP/3 on a
      stream. [Http3] says what the bytes of a stream mean; [Http3Link] runs an encoder against a decoder.
    - [Versions]: quic_versions.cc, versions and their labels, with quic_tag.cc.
    - [FrameSizes]: the sizes of frames in quic_framer.cc, of both kinds of QUIC, against what the frames take on the wire.
    - [PacketHeaders]: the headers of packets in quic_framer.cc, of Google and IETF QUIC, their sizes in quic_packets.cc,
      version negotiation and probes.
    - [CryptoMessages]: crypto/crypto_handshake_message.cc and crypto/crypto_framer.cc, the messages of the handshake.
    - [Crypters]: crypto/quic_encrypter.h and quic_decrypter.h as classes, with the null and AEAD crypters as instances.
    - [Packets]: packets of quic_framer.cc from end to end, for any crypters: building of headers and frames, encryption, header
      protection, processing, and the two kinds of reset.
    - [PacketCreator]: quic_packet_creator.cc above that framer: frames are added until a packet is full, padded, serialized and
      handed to the delegate; stream and crypto data, retransmissions, probes and settings.
    - [PacketGenerator]: quic_packet_generator.cc above the creator, against any delegate (a class): ACKs that go along with data, crypto
      and stream data in as many packets as they take, the fast path for much data, messages, flushing and padding.

    ** How the code is modelled

    State is a record with the fields of the class, an operation is a function from the state to its result and
    the state it leaves; a method that fails returns the source's [bool] or an [option]. Unsigned integers are
    [Z]s in range with the wrap-around written at each operation that can leave it; times are microseconds. Calls to
    other objects are lists of effects in order ([FlowController], [StreamIdManager], [UnackedPacketMap]), or a
    visitor whose answers the theorem quantifies over ([IetfFrames], [GoogleFrames]), for [HttpDecoder] a function of the calls it got so far; the session of [ControlFrameManager] and the
    stream of [StreamSequencer] are functions from what they were told so far to what they do, and so is the session of
    [QuicStreams] when it writes; closing a stream goes back and forth between the two, and is modelled on both sides. The session of [SentPacketManager] is one of the log of
    all that happened before; that it sends again what it is told is lost is a later operation of the history, and the
    theorems are about connections that leave this to their session, as all recent versions do. What the class reads from elsewhere (the clock,
    the values of [RttStats], runtime flags, the configuration) is an argument. Debug checks of the source are
    hypotheses of the theorems, never behaviour of the model. Code outside the repository's sources is a
    parameter: the byte swaps of the platform ([EndianImpl], with their documented laws [EndianLaws]), the random
    source ([RandBytes]) and the ciphers ([BoringSSL], with the law that what is sealed opens).

    Histories are inductive predicates: the operations of a component from its constructor on, in any order its
    callers may use, with the calls' preconditions. Invariants are proved by induction on them.

    ** What is proved

    - Delivery: the client of the sequencer buffer reads the stream, in order, whatever frames arrive
      ([in_order_delivery]), errors are found and change nothing ([OnStreamData_correct]), and the sequencer leaves no
      readable byte and no end of the stream unannounced ([sequencer_serves_the_stream]); the send buffer writes the stream's
      bytes, acknowledges each once and offers again what was lost ([WriteStreamData_sends_the_stream],
      [OnStreamDataAcked_correct], [retransmissions_correct]).
    - Streams: whatever the application, the session, the peer and the other streams do, a stream sends its data in order, within
      both windows and the end last ([stream_sends_in_order]), closes with its end or a reset told and its data acknowledged or
      reset ([stream_ends_properly]), and sends what it can when it is asked to ([stream_makes_progress]).
    - Wire formats: messages ([write_read_roundtrip], [varint62_correct], [ufloat16_rounds_down]), packet numbers
      ([packet_number_survives_the_wire], [nearest_number_is_recovered]) and the frames of a packet
      ([frames_survive_the_wire], [google_frames_survive_the_wire]); for arbitrary bytes, [any_payload_is_heard_safely] and
      [any_google_payload_is_heard_safely].
    - Packets: what one endpoint builds, encrypts and protects, the other one hears ([packets_are_delivered]), and no state changes
      by what was not opened with a key ([only_authentic_packets_are_heard]); a server without state can end a connection,
      whatever keys the client has, unless one of them opens that packet ([stateless_reset_is_heard]), a client with a new key hears old packets ([alternative_decrypter_takes_over]).
    - Headers: their size is known in advance ([header_size_is_exact]), versions are negotiated
      ([version_negotiation_is_understood], [version_labels_are_unambiguous]), nobody is confused by a probe ([probe_is_answered]).
    - Sending: a frame takes the bytes that were announced for it, or is refused, but for a first ACK, which may be announced though
      it cannot be written ([frame_sizes_are_exact]); the frames a creator accepts leave it once, in order, in packets that say
      truthfully what is in them, until it accepts an ACK larger than a packet, with which it is stuck
      ([accepted_frames_are_sent_once]); and a frame it refuses is accepted by the next packet
      ([refused_frame_fits_the_next_packet]), unless its size is computed wrongly ([crypto_data_is_stuck]). With a delegate whose
      ACKs fit a packet, the generator reports stream data as it was sent ([consumed_data_is_sent]), sends crypto data whole or
      not at all and apart from what else is to be retransmitted ([crypto_data_is_sent_whole]), reports control frames and messages ([control_frame_is_reported],
      [message_is_reported]), and leaves nothing behind ([flushing_leaves_nothing]). Two examples show what it gets wrong
      ([sent_crypto_data_is_not_reported], [fast_path_has_no_check_of_keys]).
    - Crypters: each instance keeps the promise of the class ([crypters_are_paired]), nonces do not repeat ([nonces_are_unique]),
      null encryption is what the peer accepts, no more and no less ([null_decrypts_what_is_encrypted]).
    - Handshake messages: they parse to what was serialized ([handshake_message_roundtrip]), in any pieces
      ([handshake_in_any_pieces]), and what is malformed is refused ([bad_handshakes_are_refused]).
    - HTTP/3: the decoder reports the stream, however it is cut and wherever the visitor pauses
      ([decoder_reports_the_stream]), ends on any input ([ProcessInput_ends]) and hears the frames of the encoder
      ([http3_frames_survive]).
    - Limits: no flow control violation and no deadlock ([no_violation_no_deadlock],
      [AddBytesConsumed_keeps_window_open]), stream limits ([incoming_streams_correct], [outgoing_streams_correct],
      [closing_gives_credit]).
    - Acknowledgements: an ACK frame reports exactly what was received ([ack_frame_reports_received],
      [GetUpdatedAckFrame_correct]) and in time ([MaybeUpdateAckTimeout_in_time]).
    - Accounts of the sender: bytes in flight, crypto packets and links between retransmissions are exact
      ([accounts_are_exact]), loops along them end ([RemoveRetransmittability_ends]), the cleanup drops only what is
      useless ([RemoveObsoletePackets_drops_useless]), aggregated acknowledgements lose nothing
      ([aggregation_reports_acked_data]).
    - Control frames: each is outstanding until it is acknowledged or superseded ([control_frames_are_reliable]) and written
      as soon as the session takes it ([OnCanWrite_sends_what_waits]).
    - Retransmission: no packet sent is forgotten, whatever the losses, timeouts and changes of keys
      ([no_packet_is_forgotten]), and an ACK frame acknowledges exactly what it should ([acks_are_processed_exactly]).
    - Loss detection: the incremental algorithm is a judgement of all packets ([DetectLosses_judges_all_packets],
      [losses_of_all_spaces]) and adapts minimally ([SpuriousRetransmitDetected_widens]).
    - Containers: interval sets, packet number queues and indexed queues refine sets and maps
      ([set_operations_correct], [set_queries_correct], [append_is_add], [packet_number_queue_correct],
      [indexed_queue_is_a_map]).
    - Two theorems state behaviour that differs from what the source means to do ([PeekRegion_correct] gives the
      condition under which the peek is right, [EnsureWindowAtLeast_never_ensures]).

    ** Fuel and bounds

    Loops that consume a list or a range are structural or count down. Where the recursion needs fuel, the model
    gives a number that the loop cannot exceed, and a theorem says so: the parsing loops take as many rounds as there are
    bytes left, since each takes at least one ([any_payload_is_heard_safely], [any_google_payload_is_heard_safely]: the result [OutOfFuel] never occurs); the
    chains of retransmissions are followed for as many steps as the map has packets ([RemoveRetransmittability_ends], and
    the loops of [SentPacketManager] along the same links);
    the shift of the adaptive loss timer decreases ([SpuriousRetransmitDetected_widens]); each round of the HTTP/3 decoder reads a
    byte or finishes a frame, so twice the bytes and two more are enough ([ProcessInput_ends]), and each setting takes a
    round of two bytes or more; the loop of a stream over lost data takes a round for each range and one for the end
    ([stream_makes_progress]), data is cut into packets of a byte or more, so its length and one more round for the end are enough
    ([consumed_data_is_sent], [crypto_data_is_sent_whole]), as the bytes of padding are for the loop that sends it ([flushing_leaves_nothing]), and a stream that closes is called back once ([CloseStreamInner]).
    Sizes are those of the source: blocks of 8192 bytes in the sequencer buffer and at most 10000 intervals
    received (twice kMaxPacketGap), variable-length integers below 2^62, packet numbers below 2^62 on the wire, stream ids of 32 bits.

    ** Not modelled

    - [QuicConnection], the rest of [QuicSession] and the dispatcher: they wire the components above to sockets, alarms and
      each other; what they must respect is in the preconditions of the histories. Of a stream, its priority, [PendingStream]
      and the crypto stream.
    - Of [QuicPacketCreator] and [QuicPacketGenerator], the buffers packets are written to and who owns them, the debug delegate and the
      histogram. Their theorems are of version 99.
    - Of [QuicSentPacketManager]: its configuration, the send algorithm and pacing it tells what happens, the bandwidth
      recorder, statistics and the debug delegate. Its delays are computed without overflow, as for round trips
      below 2^51 microseconds.
    - Congestion control: the senders and [RttStats] compute with floating point.
    - The handshakes above their messages (crypto/, TLS), the key schedule, certificates and cryptography: library calls and protocol data.
    - The sessions and streams of HTTP/3, QPACK, HTTP/2, HPACK and SPDY: other protocols, above or beside the transport.
    - epoll_server, quartc, tools, test tools, platform: I/O, applications and glue.

    ** Plan

    Next: the connection above the generator and the managers, the prefix integers and Huffman codes of HPACK and QPACK. *)

From stdpp Require Export base list sets.
From Stdlib Require Export ZArith Lia Sorting.Sorted.

#[global] Open Scope Z_scope.

(** ** Machine integers

    The source's unsigned integers are [Z]s in range; an operation that can
    leave the range is followed by the matching wrap. *)
Definition two8 : Z := 256.
Definition two16 : Z := 65536.
Definition two32 : Z := 4294967296.
Definition two62 : Z := 4611686018427387904.
Definition two63 : Z := 9223372036854775808.
Definition two64 : Z := 18446744073709551616.

Definition wrap8 (z : Z) : Z := z mod two8.
Definition wrap16 (z : Z) : Z := z mod two16.
Definition wrap32 (z : Z) : Z := z mod two32.
Definition wrap64 (z : Z) : Z := z mod two64.

Abbreviation is_byte z := (0 <= z < 256).
Abbreviation is_u16 z := (0 <= z < two16).
Abbreviation is_u32 z := (0 <= z < two32).
Abbreviation is_u64 z := (0 <= z < two64).

(** [zlen l] is a C++ [size()] as an unbounded integer. *)
Definition zlen {A} (l : list A) : Z := Z.of_nat (length l).

Lemma zlen_nonneg {A} (l : list A) : 0 <= zlen l.
Proof. unfold zlen; lia. Qed.

Lemma zlen_nil {A} : zlen (@nil A) = 0.
Proof. done. Qed.

Lemma zlen_cons {A} (x : A) l : zlen (x :: l) = 1 + zlen l.
Proof. unfold zlen; cbn [length]; lia. Qed.

Lemma zlen_app {A} (l k : list A) : zlen (l ++ k) = zlen l + zlen k.
Proof. unfold zlen; rewrite length_app; lia. Qed.

Create HintDb quiche.
Create Rewrite HintDb zlen.
#[export] Hint Rewrite @zlen_nil @zlen_cons @zlen_app : zlen.

(** [zb] turns the boolean guards of the code found in the context into
    propositions and splits conjunctions; [zcases] case-splits every [if] on
    such a guard in the goal. *)
Ltac zb :=
  repeat match goal with
  | H : _ ∧ _ |- _ => destruct H
  | H : (_ && _) = true |- _ => apply andb_true_iff in H
  | H : (_ || _) = false |- _ => apply orb_false_iff in H
  | H : negb _ = true |- _ => apply negb_true_iff in H
  | H : negb _ = false |- _ => apply negb_false_iff in H
  end.

Ltac zcases :=
  repeat (case_match; zb; simplify_eq/=).

(** ** Lists *)

Lemma last_app_singleton {A} (l : list A) x : last (l ++ [x]) = Some x.
Proof. rewrite last_app. done. Qed.

Lemma last_cons_app {A} (l : list A) x y : last (x :: l ++ [y]) = Some y.
Proof. rewrite app_comm_cons. apply last_app_singleton. Qed.

Lemma list_snoc_cases {A} (l : list A) : l = [] ∨ ∃ k x, l = k ++ [x].
Proof.
  destruct l as [|a l] using rev_ind; [by left|right; eauto].
Qed.

Lemma app_cons_snoc {A} (l k : list A) x : l ++ x :: k = (l ++ [x]) ++ k.
Proof. by rewrite <-app_assoc. Qed.

(** [drop_while p l] and [take_while p l] are the two parts of the scan
    [while (it != end && p(it)) ++it]. *)
Fixpoint drop_while {A} (p : A → bool) (l : list A) : list A :=
  match l with
  | [] => []
  | x :: t => if p x then drop_while p t else l
  end.

Fixpoint take_while {A} (p : A → bool) (l : list A) : list A :=
  match l with
  | [] => []
  | x :: t => if p x then x :: take_while p t else []
  end.

Lemma take_drop_while {A} (p : A → bool) l : take_while p l ++ drop_while p l = l.
Proof. induction l as [|x l IH]; simpl; [done|]. case_match; simpl; congruence. Qed.

Lemma take_while_Forall {A} (p : A → bool) l : Forall (λ x, p x = true) (take_while p l).
Proof. induction l as [|x l IH]; simpl; [done|]. case_match; auto. Qed.

Lemma drop_while_head {A} (p : A → bool) l x t :
  drop_while p l = x :: t → p x = false.
Proof. induction l as [|y l IH]; simpl; [done|]. case_match; naive_solver. Qed.

Lemma drop_while_id {A} (p : A → bool) x t : p x = false → drop_while p (x :: t) = x :: t.
Proof. simpl. by intros ->. Qed.

(** A scan cuts its list in two. *)
Lemma split_while {A} (p : A → bool) l :
  ∃ sk rest, l = sk ++ rest ∧ drop_while p l = rest ∧ take_while p l = sk
    ∧ (∀ x, x ∈ sk → p x = true) ∧ (∀ x t, rest = x :: t → p x = false).
Proof.
  exists (take_while p l), (drop_while p l). split_and!; [by rewrite take_drop_while|done..| |].
  - intros x Hx. pose proof (take_while_Forall p l) as H. rewrite Forall_forall in H. by apply H.
  - intros x t. apply drop_while_head.
Qed.

(** Ordered lists by their parts. *)
Lemma strongly_sorted_app {A} (R : A → A → Prop) l k :
  StronglySorted R (l ++ k) ↔ StronglySorted R l ∧ StronglySorted R k ∧ ∀ x y, x ∈ l → y ∈ k → R x y.
Proof.
  assert (Hc : ∀ x l, StronglySorted R (x :: l) ↔ StronglySorted R l ∧ ∀ y, y ∈ l → R x y).
  { intros x k'. rewrite <-Forall_forall. split; [by inversion 1|]. intros [? ?]. by constructor. }
  induction l as [|x l IH]; cbn [app].
  - split; [intros H|tauto]. split; [constructor|]. split; [done|]. intros x y Hx. by apply elem_of_nil in Hx.
  - rewrite !Hc, IH. setoid_rewrite elem_of_app. setoid_rewrite elem_of_cons. naive_solver.
Qed.

Lemma strongly_sorted_filter {A} (R : A → A → Prop) f l : StronglySorted R l → StronglySorted R (List.filter f l).
Proof.
  induction 1 as [|x l _ IH Hf]; cbn [List.filter]; [constructor|]. destruct (f x); [|done]. constructor; [done|].
  apply Forall_forall. intros y [Hy _]%list_elem_of_In%filter_In. rewrite Forall_forall in Hf. by apply Hf, list_elem_of_In.
Qed.
