(* ===== verification/OrderedSet.v ===== *)
(** The part of [std::set] (and of the key order of [std::map]) that the
    sources use: a container is the list of its keys in the comparator's order,
    and an iterator is the key it points to, [None] for [end()]. That is
    exactly what an iterator of a node-based ordered container is worth: it is
    stable under insertions and erasures of other keys, so stepping and
    erasing through it depend on the key alone. *)

From S2P Require Import Prelude.

(** A comparator that orders its keys strictly and totally, as [std::less] and
    the comparators of the sources do. *)
Class StrictTotal {A} (lt : A → A → bool) : Prop := {
  st_irrefl x : lt x x = false;
  st_trans x y z : lt x y = true → lt y z = true → lt x z = true;
  st_total x y : lt x y = false → lt y x = false → x = y;
}.

#[export] Instance Zltb_strict_total : StrictTotal Z.ltb.
Proof. split; intros; lia. Qed.

Section ordered_set.
Context {A : Type} (lt : A → A → bool).

(** [set::insert]: no change when an equal key is present. *)
Fixpoint set_insert (x : A) (s : list A) : list A :=
  match s with
  | [] => [x]
  | y :: t => if lt x y then x :: s else if lt y x then y :: set_insert x t else s
  end.

(** [set::count]/[find]: whether an equal key is present; the negation is the
    [bool] of the pair [insert] returns. *)
Fixpoint set_mem (x : A) (s : list A) : bool :=
  match s with
  | [] => false
  | y :: t => (negb (lt x y) && negb (lt y x)) || set_mem x t
  end.

(** [set::erase(key)]. *)
Fixpoint set_erase (x : A) (s : list A) : list A :=
  match s with
  | [] => []
  | y :: t => if lt x y || lt y x then y :: set_erase x t else t
  end.

(** [set::upper_bound]: the first key after [x]. *)
Fixpoint upper_bound (x : A) (s : list A) : option A :=
  match s with
  | [] => None
  | y :: t => if lt x y then Some y else upper_bound x t
  end.

(** [set::lower_bound]: the first key not before [x]. *)
Fixpoint lower_bound (x : A) (s : list A) : option A :=
  match s with
  | [] => None
  | y :: t => if negb (lt y x) then Some y else lower_bound x t
  end.

(** [++it], a no-op on [end()] (where the source has no defined behaviour). *)
Definition it_next (it : option A) (s : list A) : option A :=
  match it with Some x => upper_bound x s | None => None end.

(** [--it]. *)
Definition it_prev (it : option A) (s : list A) : option A :=
  match it with
  | Some x => last (take_while (λ y, lt y x) s)
  | None => last s
  end.

(** [set::erase(from, to)]: the keys from [from] up to, not including, [to]. *)
Definition erase_range (from to : option A) (s : list A) : list A :=
  match from with
  | None => s
  | Some f =>
      take_while (λ y, lt y f) s ++
      match to with
      | None => []
      | Some e => drop_while (λ y, lt y e) s
      end
  end.

(** The container's own invariant: strictly increasing keys. *)
Definition sorted (s : list A) : Prop := StronglySorted (λ x y, lt x y = true) s.

Context `{!StrictTotal lt}.

Lemma st_asym x y : lt x y = true → lt y x = false.
Proof.
  intros H. destruct (lt y x) eqn:E; [|done].
  pose proof (st_trans _ _ _ H E) as HH. by rewrite st_irrefl in HH.
Qed.

Lemma sorted_nil : sorted [].
Proof. constructor. Qed.

Lemma sorted_cons x s : sorted (x :: s) ↔ Forall (λ y, lt x y = true) s ∧ sorted s.
Proof. split; [by inversion 1|]. intros [??]; by constructor. Qed.

Lemma sorted_app s t :
  sorted (s ++ t) ↔ sorted s ∧ sorted t ∧ Forall (λ x, Forall (λ y, lt x y = true) t) s.
Proof.
  induction s as [|x s IH]; simpl.
  - split; [|naive_solver]. intros H. split_and!; [constructor|done|constructor].
  - rewrite !sorted_cons, IH, Forall_app, Forall_cons. naive_solver.
Qed.

Lemma sorted_mid s x t :
  sorted (s ++ x :: t) ↔
  sorted s ∧ sorted t ∧ Forall (λ y, lt y x = true) s ∧ Forall (λ y, lt x y = true) t
  ∧ Forall (λ y, Forall (λ z, lt y z = true) t) s.
Proof.
  rewrite sorted_app, sorted_cons. split.
  - intros (?&[??]&HF). split_and!; try done.
    + eapply Forall_impl; [exact HF|]. simpl; intros ? []%Forall_cons; done.
    + eapply Forall_impl; [exact HF|]. simpl; intros ? []%Forall_cons; done.
  - intros (?&?&H1&?&H2). split_and!; try done.
    apply Forall_forall; intros y Hy. rewrite Forall_forall in H1, H2.
    constructor; auto.
Qed.

(** The same facts by membership, the form the automation uses. *)
Lemma sorted_cons_elem x s : sorted (x :: s) ↔ (∀ y, y ∈ s → lt x y = true) ∧ sorted s.
Proof. by rewrite sorted_cons, Forall_forall. Qed.

Lemma sorted_app_elem s t :
  sorted (s ++ t) ↔ sorted s ∧ sorted t ∧ (∀ x y, x ∈ s → y ∈ t → lt x y = true).
Proof.
  rewrite sorted_app, Forall_forall. setoid_rewrite Forall_forall. naive_solver.
Qed.

(** *** Positions in a split container

    In [pre ++ post] with every key of [pre] before [x] and every key of
    [post] after it, the operations act at the split point. *)

Lemma take_while_split (p : A → bool) pre post :
  Forall (λ y, p y = true) pre → (∀ x t, post = x :: t → p x = false) →
  take_while p (pre ++ post) = pre.
Proof.
  intros H1 H2. induction H1 as [|y pre Hy H1 IH]; simpl.
  - destruct post as [|x t]; simpl; [done|]. by rewrite (H2 x t).
  - by rewrite Hy, IH.
Qed.

Lemma drop_while_split (p : A → bool) pre post :
  Forall (λ y, p y = true) pre → (∀ x t, post = x :: t → p x = false) →
  drop_while p (pre ++ post) = post.
Proof.
  intros H1 H2. induction H1 as [|y pre Hy H1 IH]; simpl.
  - destruct post as [|x t]; simpl; [done|]. by rewrite (H2 x t).
  - by rewrite Hy, IH.
Qed.

Lemma set_insert_split x pre post :
  Forall (λ y, lt y x = true) pre → Forall (λ y, lt x y = true) post →
  set_insert x (pre ++ post) = pre ++ x :: post.
Proof.
  intros H1 H2. induction H1 as [|y pre Hy H1 IH]; simpl.
  - destruct H2 as [|y post Hy H2]; simpl; [done|]. by rewrite Hy.
  - rewrite (st_asym _ _ Hy), Hy, IH. done.
Qed.

Lemma set_mem_split x pre post :
  Forall (λ y, lt y x = true) pre → Forall (λ y, lt x y = true) post →
  set_mem x (pre ++ post) = false.
Proof.
  intros H1 H2. induction H1 as [|y pre Hy H1 IH]; simpl.
  - induction H2 as [|y post Hy H2 IH]; simpl; [done|]. by rewrite Hy, IH.
  - by rewrite Hy, IH, andb_false_r.
Qed.

Lemma set_erase_mid x pre post :
  Forall (λ y, lt y x = true) pre → set_erase x (pre ++ x :: post) = pre ++ post.
Proof.
  induction 1 as [|y pre Hy H1 IH]; simpl.
  - by rewrite !(st_irrefl (lt:=lt)).
  - by rewrite Hy, orb_true_r, IH.
Qed.

Lemma upper_bound_split x pre post :
  Forall (λ y, lt x y = false) pre → (∀ y t, post = y :: t → lt x y = true) →
  upper_bound x (pre ++ post) = head post.
Proof.
  intros H1 H2. induction H1 as [|y pre Hy H1 IH]; simpl.
  - destruct post as [|y t]; simpl; [done|]. by rewrite (H2 y t).
  - by rewrite Hy, IH.
Qed.

Lemma lower_bound_split x pre post :
  Forall (λ y, lt y x = true) pre → (∀ y t, post = y :: t → lt y x = false) →
  lower_bound x (pre ++ post) = head post.
Proof.
  intros H1 H2. induction H1 as [|y pre Hy H1 IH]; simpl.
  - destruct post as [|y t]; simpl; [done|]. by rewrite (H2 y t).
  - by rewrite Hy, IH.
Qed.

(** Every sorted container splits at any key. *)
Lemma upper_split x s :
  sorted s → ∃ pre post, s = pre ++ post ∧ Forall (λ y, lt x y = false) pre ∧
    Forall (λ y, lt x y = true) post ∧ upper_bound x s = head post.
Proof.
  induction 1 as [|y s Hs IH Hy]; [by exists [], []|].
  destruct (lt x y) eqn:E.
  - exists [], (y :: s). simpl. rewrite E. split_and!; auto.
    constructor; [done|]. eapply Forall_impl; [done|]. intros z Hz; simpl in *.
    by eapply st_trans.
  - destruct IH as (pre & post & -> & ? & ? & IH). exists (y :: pre), post.
    simpl. rewrite E. auto.
Qed.

Lemma lower_split x s :
  sorted s → ∃ pre post, s = pre ++ post ∧ Forall (λ y, lt y x = true) pre ∧
    Forall (λ y, lt y x = false) post ∧ lower_bound x s = head post.
Proof.
  induction 1 as [|y s Hs IH Hy]; [by exists [], []|].
  destruct (lt y x) eqn:E.
  - destruct IH as (pre & post & -> & ? & ? & IH). exists (y :: pre), post.
    simpl. rewrite E. auto.
  - exists [], (y :: s). simpl. rewrite E. split_and!; auto.
    constructor; [done|]. eapply Forall_impl; [done|]. intros z Hz; simpl in *.
    destruct (lt z x) eqn:E2; [|done]. by rewrite (st_trans _ _ _ Hz E2) in E.
Qed.

Lemma it_next_split pre x post :
  sorted (pre ++ x :: post) → it_next (Some x) (pre ++ x :: post) = head post.
Proof.
  rewrite sorted_mid. intros (_&_&H1&H2&_). simpl.
  rewrite (cons_middle x), app_assoc. apply upper_bound_split.
  - apply Forall_app; split; [|by constructor; [apply st_irrefl|]].
    eapply Forall_impl; [exact H1|]. simpl; intros; by apply st_asym.
  - intros y t ->. by inversion H2.
Qed.

Lemma it_prev_split pre x post :
  sorted (pre ++ x :: post) → it_prev (Some x) (pre ++ x :: post) = last pre.
Proof.
  rewrite sorted_mid. intros (_&_&H1&H2&_). simpl. f_equal.
  apply take_while_split; [done|]. intros ?? [= <- <-]. apply st_irrefl.
Qed.

Lemma it_prev_head pre post :
  sorted (pre ++ post) → it_prev (head post) (pre ++ post) = last pre.
Proof.
  destruct post as [|x post]; simpl.
  - by rewrite app_nil_r.
  - apply it_prev_split.
Qed.

(** Erasing the keys between two positions. *)
Lemma erase_range_split pre mid post :
  sorted (pre ++ mid ++ post) →
  erase_range (head (mid ++ post)) (head post) (pre ++ mid ++ post) = pre ++ post.
Proof.
  intros Hs. destruct (mid ++ post) as [|f t] eqn:E.
  { apply app_nil in E as [-> ->]. done. }
  simpl. apply sorted_mid in Hs as (?&?&H1&H2&H3).
  rewrite take_while_split; [|done|intros ?? [= <- <-]; apply st_irrefl].
  f_equal. destruct post as [|e post]; simpl; [done|].
  rewrite <-E, app_assoc. apply drop_while_split.
  - destruct mid as [|m mid]; simpl in E; simplify_eq; simpl.
    + by rewrite app_nil_r.
    + apply Forall_app; split.
      * eapply Forall_impl; [exact H3|]. simpl. by intros ? [_ []%Forall_cons]%Forall_app.
      * constructor; [by apply Forall_app in H2 as [_ []%Forall_cons]|].
        assert (Hs : sorted (mid ++ e :: post)) by done.
        by apply sorted_mid in Hs as (_&_&?&_).
  - intros ?? [= <- <-]. apply st_irrefl.
Qed.

Lemma set_insert_sorted x s : sorted s → sorted (set_insert x s).
Proof.
  induction 1 as [|y s Hs IH Hy]; simpl; [repeat constructor|].
  destruct (lt x y) eqn:E1.
  - constructor; [by constructor|]. constructor; [done|].
    eapply Forall_impl; [exact Hy|]. simpl; intros; by eapply st_trans.
  - destruct (lt y x) eqn:E2; [|by constructor].
    constructor; [done|]. clear IH Hs. induction s as [|z s IH]; simpl.
    { by constructor. }
    apply Forall_cons in Hy as [??]. repeat case_match; constructor; auto.
Qed.

Lemma set_insert_elem x y s : y ∈ set_insert x s ↔ y = x ∨ y ∈ s.
Proof.
  induction s as [|z s IH]; simpl; [set_solver|].
  repeat case_match; [set_solver| set_solver|].
  assert (x = z) as -> by by apply st_total. set_solver.
Qed.

Lemma set_mem_elem x s : set_mem x s = true ↔ x ∈ s.
Proof.
  induction s as [|z s IH]; simpl; [set_solver|].
  rewrite orb_true_iff, IH, elem_of_cons. split; intros [Hx|?]; auto; left.
  - apply andb_true_iff in Hx as [?%negb_true_iff ?%negb_true_iff]. by apply st_total.
  - subst. by rewrite !(st_irrefl (lt:=lt)).
Qed.

Lemma sorted_split_at x s :
  sorted s → x ∉ s →
  ∃ pre post, s = pre ++ post ∧ Forall (λ y, lt y x = true) pre ∧ Forall (λ y, lt x y = true) post.
Proof.
  intros Hs Hx. destruct (lower_split x s Hs) as (pre & post & -> & H1 & H2 & _).
  exists pre, post. split_and!; try done. apply Forall_forall. intros y Hy.
  rewrite Forall_forall in H2. destruct (lt x y) eqn:E; [done|].
  assert (x = y) as -> by (apply st_total; auto). set_solver.
Qed.
End ordered_set.

(** [sorted_simpl in H] takes a sortedness fact apart; [sorted_goal] does the same
    to a goal and leaves the comparisons between members. *)
Tactic Notation "sorted_simpl" "in" hyp(H) :=
  repeat first [rewrite sorted_app_elem in H | rewrite sorted_cons_elem in H]; destruct_and? H.

Ltac sorted_goal :=
  repeat first [rewrite sorted_app_elem | rewrite sorted_cons_elem];
  split_and?; try done; try (rewrite Forall_forall);
  try match goal with
  | |- sorted _ [] => apply sorted_nil
  | |- ∀ x, x ∈ _ → _ => intros ? ?; set_unfold; naive_solver
  | |- ∀ x y, x ∈ _ → y ∈ _ → _ => intros ? ? ? ?; set_unfold; naive_solver
  end.

Arguments sorted {A} lt s : simpl never.
Arguments it_next {A} lt it s : simpl never.
Arguments it_prev {A} lt it s : simpl never.
Arguments erase_range {A} lt from to s : simpl never.
