(* ===== verification/IntervalSet.v ===== *)
(** [QuicInterval] and [QuicIntervalSet] (quic/core/quic_interval.h,
    quic/core/quic_interval_set.h) at a key type ordered like [Z]: the sets of
    stream offsets and packet numbers that the sequencer buffer, the send
    buffer and the acknowledgement code keep.

    [Interval] has the operations of one half-open interval; [IntervalSet] has
    the set, kept as the source keeps it, in a [std::set] ordered by
    [IntervalLess]. The abstract specification of a set is the predicate
    [den s] on [Z]; the theorems say that every operation keeps the
    representation invariant [Valid] and computes the right point set. *)

From S2P Require Import Prelude OrderedSet.

Module Interval.

Record t := mk { min : Z; max : Z }.

(** A default-constructed interval, [min_() , max_()]. *)
Definition empty : t := mk 0 0.

Definition Empty (i : t) : bool := max i <=? min i.

Definition Length (i : t) : Z := (if Empty i then min i else max i) - min i.

(** [Contains(const T&)]. *)
Definition Contains (i : t) (v : Z) : bool := (min i <=? v) && (v <? max i).

(** [Contains(const QuicInterval&)]. *)
Definition ContainsI (i j : t) : bool :=
  negb (Empty i) && negb (Empty j) && (min i <=? min j) && (max j <=? max i).

Definition Intersects (i j : t) : bool :=
  negb (Empty i) && negb (Empty j) && (min i <? max j) && (min j <? max i).

(** [Intersects(i, out)]: [None] for [false], else the stored intersection. *)
Definition Intersection (i j : t) : option t :=
  if Intersects i j then Some (mk (Z.max (min i) (min j)) (Z.min (max i) (max j)))
  else None.

(** The [bool] is the returned "modified". *)
Definition IntersectWith (this i : t) : t * bool :=
  if Empty this then (this, false) else
  let '(this, modified) :=
    if min this <? min i then (mk (min i) (max this), true) else (this, false) in
  if max i <? max this then (mk (min this) (max i), true) else (this, modified).

Definition SpanningUnion (this i : t) : t * bool :=
  if Empty i then (this, false) else
  if Empty this then (i, true) else
  let '(this, modified) :=
    if min i <? min this then (mk (min i) (max this), true) else (this, false) in
  if max this <? max i then (mk (min this) (max i), true) else (this, modified).

(** [Difference(i, difference)], the intervals appended to the vector and the
    returned "they intersect". *)
Definition Difference_vec (this i : t) : list t * bool :=
  if Empty this then ([], false) else
  if Empty i then ([this], false) else
  if (min this <? max i) && (min i <=? min this) && (max i <? max this)
  then ([mk (max i) (max this)], true) else
  if (min i <? max this) && (max this <=? max i) && (min this <? min i)
  then ([mk (min this) (min i)], true) else
  if (min this <? min i) && (max i <? max this)
  then ([mk (min this) (min i); mk (max i) (max this)], true) else
  if (min i <=? min this) && (max this <=? max i) then ([], true) else
  ([this], false).

(** [Difference(i, lo, hi)]. *)
Definition Difference (this i : t) : t * t * bool :=
  if Empty this then (empty, empty, false) else
  if Empty i then (this, empty, false) else
  if (min this <? max i) && (min i <=? min this) && (max i <? max this)
  then (empty, mk (max i) (max this), true) else
  if (min i <? max this) && (max this <=? max i) && (min this <? min i)
  then (mk (min this) (min i), empty, true) else
  if (min this <? min i) && (max i <? max this)
  then (mk (min this) (min i), mk (max i) (max this), true) else
  if (min i <=? min this) && (max this <=? max i) then (empty, empty, true) else
  (this, empty, false).

(** [operator==]: all empty intervals are equal. *)
Definition eqb (a b : t) : bool :=
  if Empty a && Empty b then true else
  if xorb (Empty a) (Empty b) then false else
  (min a =? min b) && (max a =? max b).

#[global] Instance eq_dec : EqDecision t.
Proof. solve_decision. Defined.

(** The points of an interval. *)
Definition den (i : t) (z : Z) : Prop := min i <= z < max i.

Lemma Contains_spec i z : Contains i z = true ↔ den i z.
Proof. unfold Contains, den. lia. Qed.

Lemma Empty_spec i : Empty i = true ↔ ∀ z, ¬ den i z.
Proof.
  unfold Empty, den. split; [lia|]. intros H. specialize (H (min i)). lia.
Qed.

Lemma Intersects_spec i j : Intersects i j = true ↔ ∃ z, den i z ∧ den j z.
Proof.
  unfold Intersects, Empty, den. split.
  - intros H. exists (Z.max (min i) (min j)). lia.
  - intros [z Hz]. lia.
Qed.

Lemma Intersection_spec i j k :
  Intersection i j = Some k → Empty k = false ∧ ∀ z, den k z ↔ den i z ∧ den j z.
Proof.
  unfold Intersection, Intersects, Empty, den. case_match; [|done]. intros [= <-]. simpl.
  split; [lia|intros z; lia].
Qed.

Lemma Difference_spec i j :
  let '(lo, hi, b) := Difference i j in
  (∀ z, den lo z ∨ den hi z ↔ den i z ∧ ¬ den j z)
  ∧ (b = true ↔ ∃ z, den i z ∧ den j z)
  ∧ (Empty lo = false → Empty hi = false → max lo < min hi).
Proof.
  assert (∀ b, (b = true ↔ ∃ z, den i z ∧ den j z) ↔ b = Intersects i j) as HI.
  { intros b. rewrite <-Intersects_spec. destruct b, (Intersects i j); intuition congruence. }
  destruct (Difference i j) as [[lo hi] b] eqn:E. rewrite HI. clear HI. revert E.
  unfold Difference, Intersects, Empty, den, empty.
  repeat case_match; intros [= <- <- <-]; simpl; (split_and!; [intros z; lia|lia|intros; lia]).
Qed.
End Interval.

Abbreviation interval := Interval.t.
Abbreviation imin := Interval.min.
Abbreviation imax := Interval.max.

Module IntervalSet.

(** [IntervalLess]: ascending [min], then descending [max]. *)
Definition IntervalLess (a b : interval) : bool :=
  (imin a <? imin b) || ((imin a =? imin b) && (imax b <? imax a)).

#[global] Instance IntervalLess_strict_total : StrictTotal IntervalLess.
Proof.
  split; unfold IntervalLess; [lia|lia|].
  intros [a b] [c d]; simpl; intros. f_equal; lia.
Qed.

(** [intervals_] and iterators into it. *)
Abbreviation Set_ := (list interval).
Abbreviation iter := (option interval).

Definition next (it : iter) (s : Set_) : iter := it_next IntervalLess it s.
Definition prev (it : iter) (s : Set_) : iter := it_prev IntervalLess it s.

Definition Clear : Set_ := [].
Definition Empty (s : Set_) : bool := match s with [] => true | _ => false end.
Definition Size (s : Set_) : Z := zlen s.
Definition begin (s : Set_) : iter := head s.
Definition rbegin (s : Set_) : iter := last s.

Definition SpanningInterval (s : Set_) : interval :=
  match head s, last s with
  | Some f, Some l => Interval.mk (imin f) (imax l)
  | _, _ => Interval.empty
  end.

(** [Compact(begin, end)]: the loop keeps [prev], [it] and [next]; an erasure or
    an insertion acts on the set itself. The loop runs once per interval of
    the range, so the size of the set bounds it. *)
Fixpoint Compact_loop (fuel : nat) (s : Set_) (pv it nx en : iter) : Set_ :=
  match fuel with
  | O => s
  | S fuel =>
      if decide (it = en) then s else
      let nx := next nx s in
      match pv, it with
      | Some p, Some i =>
          if imin i <=? imax p then
            let m := Interval.mk (imin p) (Z.max (imax p) (imax i)) in
            let s := set_insert IntervalLess m
                       (set_erase IntervalLess i (set_erase IntervalLess p s)) in
            Compact_loop fuel s (Some m) nx nx en
          else Compact_loop fuel s it nx nx en
      | _, _ => s
      end
  end.

Definition Compact (s : Set_) (bg en : iter) : Set_ :=
  if decide (bg = en) then s else
  Compact_loop (S (length s)) s bg (next bg s) (next bg s) en.

Definition Add (s : Set_) (i : interval) : Set_ :=
  if Interval.Empty i then s else
  if set_mem IntervalLess i s then s else
  let s := set_insert IntervalLess i s in
  let bg := if decide (Some i = begin s) then Some i else prev (Some i) s in
  let en := upper_bound IntervalLess (Interval.mk (imax i) (imax i)) s in
  Compact s bg en.

(** [AddOptimizedForAppend]: the last interval is extended in place. *)
Definition AddOptimizedForAppend (s : Set_) (i : interval) : Set_ :=
  match rbegin s with
  | None => Add s i
  | Some l =>
      if (imin i <? imin l) || (imax l <? imin i) then Add s i else
      if imax i <=? imax l then s else
      removelast s ++ [Interval.mk (imin l) (imax i)]
  end.

(** The interval before the upper bound of [x]: the candidate the lookups test. *)
Definition candidate (s : Set_) (x : interval) : iter :=
  let it := upper_bound IntervalLess x s in
  if decide (it = begin s) then None else prev it s.

Definition Contains (s : Set_) (v : Z) : bool :=
  match candidate s (Interval.mk v v) with
  | None => false
  | Some c => Interval.Contains c v
  end.

Definition ContainsI (s : Set_) (i : interval) : bool :=
  match candidate s i with
  | None => false
  | Some c => Interval.ContainsI c i
  end.

Definition ContainsS (s other : Set_) : bool :=
  if negb (Interval.ContainsI (SpanningInterval s) (SpanningInterval other))
  then false else forallb (ContainsI s) other.

Definition Find (s : Set_) (v : Z) : iter :=
  match candidate s (Interval.mk v v) with
  | None => None
  | Some c => if Interval.Contains c v then Some c else None
  end.

Definition FindI (s : Set_) (probe : interval) : iter :=
  match candidate s probe with
  | None => None
  | Some c => if Interval.ContainsI c probe then Some c else None
  end.

Definition LowerBound (s : Set_) (v : Z) : iter :=
  let it := lower_bound IntervalLess (Interval.mk v v) s in
  if decide (it = begin s) then it else
  match prev it s with
  | None => it
  | Some c => if Interval.Contains c v then Some c else next (Some c) s
  end.

Definition UpperBound (s : Set_) (v : Z) : iter :=
  upper_bound IntervalLess (Interval.mk v v) s.

Definition IsDisjoint (s : Set_) (i : interval) : bool :=
  if Interval.Empty i then true else
  let it := upper_bound IntervalLess (Interval.mk (imin i) (imin i)) s in
  if match it with Some x => imin x <? imax i | None => false end then false else
  if decide (it = begin s) then true else
  match prev it s with Some c => imax c <=? imin i | None => true end.

Definition Union (s other : Set_) : Set_ :=
  let s := fold_left (λ s i, set_insert IntervalLess i s) other s in
  Compact s (begin s) None.

Definition FindIntersectionCandidate (s : Set_) (i : interval) : iter :=
  let mine := upper_bound IntervalLess i s in
  if decide (mine = begin s) then mine else prev mine s.

(** [FindIntersectionCandidate(other)] dereferences [other.begin()]; its callers
    have checked that [other] is not empty. *)
Definition FindIntersectionCandidateS (s other : Set_) : iter :=
  match begin other with
  | Some i => FindIntersectionCandidate s i
  | None => None
  end.

(** The two scans inside [FindNextIntersectingPairImpl]: [while (it != end() &&
    it->max() <= bound) ++it]. At most one step per interval of the set. *)
Fixpoint skip (fuel : nat) (s : Set_) (it : iter) (bound : Z) : iter :=
  match fuel, it with
  | S fuel, Some i => if imax i <=? bound then skip fuel s (next it s) bound else it
  | _, _ => it
  end.

(** [FindNextIntersectingPairImpl]: the state is the set [x] (changed only by
    [on_hole]) and the two iterators; [None] when the fuel runs out. *)
Definition Hole : Type := Set_ → iter → iter → Set_.
Definition keep_hole : Hole := λ x _ _, x.
Definition erase_hole : Hole := λ x from to, erase_range IntervalLess from to x.

Fixpoint FindNextIntersectingPairImpl (on_hole : Hole) (fuel : nat)
    (x y : Set_) (mine theirs : iter) : option (bool * Set_ * iter * iter) :=
  match fuel with
  | O => None
  | S fuel =>
      match mine, theirs with
      | Some m, Some t =>
          if Interval.Intersects m t then Some (true, x, mine, theirs) else
          let mine' := skip (S (length x)) x mine (imin t) in
          let x := on_hole x mine mine' in
          match mine' with
          | None => Some (false, x, mine', theirs)
          | Some m' =>
              let theirs' := skip (S (length y)) y theirs (imin m') in
              match theirs' with
              | None => Some (false, on_hole x mine' None, mine', theirs')
              | Some _ => FindNextIntersectingPairImpl on_hole fuel x y mine' theirs'
              end
          end
      | _, _ => Some (false, x, mine, theirs)
      end
  end.

Definition pair_fuel (x y : Set_) : nat := S (S (length x + length y)).

(** The loop of [Difference(const QuicIntervalSet&)]. *)
Fixpoint Difference_loop (fuel : nat) (s other : Set_) (mine theirs : iter) : option Set_ :=
  match fuel with
  | O => None
  | S fuel =>
      match FindNextIntersectingPairImpl keep_hole (pair_fuel s other) s other mine theirs with
      | None => None
      | Some (true, s, Some i, Some t) =>
          let mine := next (Some i) s in
          let s := set_erase IntervalLess i s in
          let '(lo, hi, _) := Interval.Difference i t in
          let s := if Interval.Empty lo then s else set_insert IntervalLess lo s in
          if Interval.Empty hi then Difference_loop fuel s other mine (Some t) else
          Difference_loop fuel (set_insert IntervalLess hi s) other (Some hi) (Some t)
      | Some (_, s, _, _) => Some s
      end
  end.

Definition loop_fuel (s other : Set_) : nat := S (S (2 * (length s + length other))).

Definition DifferenceS (s other : Set_) : option Set_ :=
  if negb (Interval.Intersects (SpanningInterval s) (SpanningInterval other)) then Some s else
  let mine := FindIntersectionCandidateS s other in
  if decide (mine = None) then Some s else
  let theirs := FindIntersectionCandidateS other s in
  Difference_loop (loop_fuel s other) s other mine theirs.

(** The constructor from one interval. *)
Definition of_interval (i : interval) : Set_ := Add [] i.

Definition Difference (s : Set_) (i : interval) : option Set_ :=
  if negb (Interval.Intersects (SpanningInterval s) i) then Some s else
  DifferenceS s (of_interval i).

Definition Complement (s : Set_) (mn mx : Z) : option Set_ :=
  DifferenceS (of_interval (Interval.mk mn mx)) s.

(** The inner loop of [Intersection]: one interval [i] of this set against the
    intervals of the other from [theirs] on. *)
Fixpoint Intersection_inner (fuel : nat) (s other : Set_) (i : interval) (mine theirs : iter)
    : Set_ * iter * iter :=
  match fuel, theirs with
  | S fuel, Some t =>
      match Interval.Intersection i t with
      | Some x =>
          Intersection_inner fuel (set_insert IntervalLess x s) other i (Some x)
            (next theirs other)
      | None => (s, mine, theirs)
      end
  | _, _ => (s, mine, theirs)
  end.

Fixpoint Intersection_loop (fuel : nat) (s other : Set_) (mine theirs : iter) : option Set_ :=
  match fuel with
  | O => None
  | S fuel =>
      match FindNextIntersectingPairImpl erase_hole (pair_fuel s other) s other mine theirs with
      | None => None
      | Some (true, s, Some i, theirs) =>
          let s := set_erase IntervalLess i s in
          let '(s, mine, theirs) :=
            Intersection_inner (S (length other)) s other i None theirs in
          Intersection_loop fuel s other (next mine s) (prev theirs other)
      | Some (_, s, _, _) => Some s
      end
  end.

Definition Intersection (s other : Set_) : option Set_ :=
  if negb (Interval.Intersects (SpanningInterval s) (SpanningInterval other)) then Some [] else
  let mine := FindIntersectionCandidateS s other in
  let s := erase_range IntervalLess (begin s) mine s in
  let theirs := FindIntersectionCandidateS other s in
  Intersection_loop (loop_fuel s other) s other mine theirs.

Definition IntersectsS (s other : Set_) : option bool :=
  if negb (Interval.Intersects (SpanningInterval s) (SpanningInterval other)) then Some false else
  match FindIntersectionCandidateS s other with
  | None => Some false
  | Some m =>
      let theirs := FindIntersectionCandidate other m in
      match FindNextIntersectingPairImpl keep_hole (pair_fuel s other) s other (Some m) theirs with
      | None => None
      | Some (b, _, _, _) => Some b
      end
  end.

(** [Valid()]. *)
Fixpoint Valid_from (pv : iter) (s : Set_) : bool :=
  match s with
  | [] => true
  | i :: t =>
      if imax i <=? imin i then false else
      if match pv with Some p => imin i <=? imax p | None => false end then false else
      Valid_from (Some i) t
  end.

Definition Valid (s : Set_) : bool := Valid_from None s.

(** [operator==]. *)
Definition eqb (a b : Set_) : bool :=
  (Size a =? Size b)
  && forallb (λ '(x, y), (imin x =? imin y) && (imax x =? imax y)) (zip a b).

(** The points of a set: its abstract value. *)
Definition den (s : Set_) (z : Z) : Prop := Exists (λ i, Interval.den i z) s.

(** ** The invariant

    [valid] is [Valid()] in a form that splits along the list: non-empty
    intervals with a gap between any two. *)

Definition gap (i j : interval) : Prop := imax i < imin j.
Definition valid (s : Set_) : Prop :=
  StronglySorted gap s ∧ Forall (λ i, imin i < imax i) s.

Lemma valid_nil : valid [].
Proof. split; constructor. Qed.

Lemma valid_cons i s : valid (i :: s) ↔ imin i < imax i ∧ Forall (gap i) s ∧ valid s.
Proof.
  unfold valid. rewrite Forall_cons. split.
  - intros [H ?]. inversion H; subst. naive_solver.
  - intros (?&?&?&?). split; [by constructor|done].
Qed.

Lemma valid_app s k :
  valid (s ++ k) ↔ valid s ∧ valid k ∧ Forall (λ i, Forall (gap i) k) s.
Proof.
  induction s as [|i s IH]; simpl.
  - split; [|naive_solver]. intros; split_and!; auto using valid_nil.
  - rewrite !valid_cons, IH, Forall_app, Forall_cons. naive_solver.
Qed.

(** The gaps by membership, the form the proofs use. *)
Lemma valid_app_elem s k :
  valid (s ++ k) ↔ valid s ∧ valid k ∧ (∀ i j, i ∈ s → j ∈ k → imax i < imin j).
Proof.
  rewrite valid_app, Forall_forall. setoid_rewrite Forall_forall. unfold gap. naive_solver.
Qed.

Lemma valid_cons_elem i s :
  valid (i :: s) ↔ imin i < imax i ∧ valid s ∧ (∀ j, j ∈ s → imax i < imin j).
Proof. rewrite valid_cons, Forall_forall. unfold gap. naive_solver. Qed.

Lemma valid_nonempty s i : valid s → i ∈ s → imin i < imax i.
Proof. intros [_ H] Hi. rewrite Forall_forall in H. by apply H. Qed.

Lemma valid_single i : imin i < imax i → valid [i].
Proof. intros. apply valid_cons; auto using valid_nil. Qed.

Lemma valid_sorted s : valid s → sorted IntervalLess s.
Proof.
  induction s as [|i s IH]; [constructor|]. rewrite valid_cons. intros (?&Hg&Hv).
  constructor; [by apply IH|]. destruct Hv as [_ Hn]. rewrite Forall_forall in *.
  intros j Hj. specialize (Hg j Hj). specialize (Hn j Hj). unfold gap in Hg.
  unfold IntervalLess. lia.
Qed.

Lemma Valid_from_spec pv s :
  Valid_from pv s = true ↔
  valid s ∧ match pv with Some p => Forall (gap p) s | None => True end.
Proof.
  revert pv. induction s as [|i s IH]; intros pv; simpl.
  { split; [|done]. intros _. split; [apply valid_nil|]. by destruct pv. }
  rewrite valid_cons. destruct (imax i <=? imin i) eqn:E1.
  { split; [done|]. lia. }
  destruct pv as [p|].
  - destruct (imin i <=? imax p) eqn:E2.
    + split; [done|]. intros (_&Hp). apply Forall_cons in Hp as [Hp _]. unfold gap in Hp. lia.
    + rewrite IH, Forall_cons. split.
      * intros [Hv Hg]. split_and!; try done; [lia|unfold gap; lia|].
        eapply Forall_impl; [exact Hg|]. unfold gap. simpl. lia.
      * naive_solver.
  - rewrite IH. split; [intros []; split_and!; try done; lia|naive_solver].
Qed.

Lemma Valid_spec s : Valid s = true ↔ valid s.
Proof. unfold Valid. rewrite Valid_from_spec. naive_solver. Qed.

(** ** Points *)

Lemma den_nil z : den [] z ↔ False.
Proof. unfold den. by rewrite Exists_nil. Qed.

Lemma den_cons i s z : den (i :: s) z ↔ Interval.den i z ∨ den s z.
Proof. unfold den. by rewrite Exists_cons. Qed.

Lemma den_app s k z : den (s ++ k) z ↔ den s z ∨ den k z.
Proof. unfold den. by rewrite Exists_app. Qed.

#[global] Hint Rewrite den_nil den_cons den_app : iden.

(** Every point of a set is a point of one of its intervals, so a bound on all
    intervals bounds the points. *)
Lemma den_ge s z b : Forall (λ i, b <= imin i) s → den s z → b <= z.
Proof.
  intros H. unfold den. rewrite Exists_exists. intros (i&Hi&Hz).
  rewrite Forall_forall in H. specialize (H i Hi). unfold Interval.den in Hz. simpl in H. lia.
Qed.

Lemma den_lt s z b : Forall (λ i, imax i <= b) s → den s z → z < b.
Proof.
  intros H. unfold den. rewrite Exists_exists. intros (i&Hi&Hz).
  rewrite Forall_forall in H. specialize (H i Hi). unfold Interval.den in Hz. simpl in H. lia.
Qed.

(** Two valid sets with the same points are the same list: the representation
    is canonical. *)
Lemma valid_head_lt i s z : valid (i :: s) → den s z → imax i < z.
Proof.
  rewrite valid_cons. intros (_&Hg&_) Hz.
  cut (imax i + 1 <= z); [lia|]. eapply den_ge; [|done].
  eapply Forall_impl; [done|]. unfold gap. simpl. lia.
Qed.

Lemma valid_canonical s k : valid s → valid k → (∀ z, den s z ↔ den k z) → s = k.
Proof.
  revert k. induction s as [|i s IH]; intros k Hs Hk H.
  - destruct k as [|j k]; [done|]. exfalso. apply valid_cons in Hk as (?&_).
    specialize (H (imin j)). rewrite den_nil, den_cons in H. unfold Interval.den in H. lia.
  - destruct k as [|j k].
    { exfalso. apply valid_cons in Hs as (?&_).
      specialize (H (imin i)). rewrite den_nil, den_cons in H. unfold Interval.den in H. lia. }
    pose proof Hs as (Hi&Hgi&Hvs)%valid_cons. pose proof Hk as (Hj&Hgj&Hvk)%valid_cons.
    assert (Hl : ∀ z, den s z → imax i < z) by eauto using valid_head_lt.
    assert (Hm : ∀ z, den k z → imax j < z) by eauto using valid_head_lt.
    setoid_rewrite den_cons in H. unfold Interval.den in H.
    assert (H1 : ∀ z, imin i <= z < imax i → imin j <= z < imax j ∨ imax j < z).
    { intros z Hz. destruct (proj1 (H z) (or_introl Hz)); auto. }
    assert (H2 : ∀ z, imin j <= z < imax j → imin i <= z < imax i ∨ imax i < z).
    { intros z Hz. destruct (proj2 (H z) (or_introl Hz)); auto. }
    assert (imin i = imin j).
    { pose proof (H1 (imin i)). pose proof (H2 (imin j)). lia. }
    assert (imax i = imax j).
    { destruct (Z.lt_trichotomy (imax i) (imax j)) as [|[|]]; [|done|].
      - destruct (H2 (imax i)); lia.
      - destruct (H1 (imax j)); lia. }
    destruct i as [a b], j as [c d]; simpl in *; subst. f_equal.
    apply IH; [done..|]. intros z. split; intros Hz.
    + destruct (proj1 (H z) (or_intror Hz)); [apply Hl in Hz; lia|done].
    + destruct (proj2 (H z) (or_intror Hz)); [apply Hm in Hz; lia|done].
Qed.

(** ** Compaction *)

(** What [Compact] makes of the range [p :: t]. *)
Fixpoint compacted (p : interval) (t : Set_) : Set_ :=
  match t with
  | [] => [p]
  | i :: t =>
      if imin i <=? imax p
      then compacted (Interval.mk (imin p) (Z.max (imax p) (imax i))) t
      else p :: compacted i t
  end.

Lemma Forall_cons_2' {A} (P : A → Prop) x y l :
  Forall P (x :: y :: l) → P x ∧ P y ∧ Forall P l.
Proof. by intros [? [? ?]%Forall_cons]%Forall_cons. Qed.

Abbreviation nonempty i := (imin i < imax i).

Lemma Compact_loop_spec fuel pre p t post :
  (length t < fuel)%nat → sorted IntervalLess (pre ++ p :: t ++ post) →
  Forall (λ q, imin q < imin p) pre → Forall (λ i, nonempty i) (p :: t) →
  Compact_loop fuel (pre ++ p :: t ++ post) (Some p) (head (t ++ post)) (head (t ++ post))
    (head post) = pre ++ compacted p t ++ post.
Proof.
  revert fuel pre p. induction t as [|i t IH]; intros fuel pre p Hf Hs Hpre Hne.
  { destruct fuel; simpl in *; [lia|]. by rewrite decide_True. }
  destruct fuel as [|fuel]; [simpl in Hf; lia|]. cbn [Compact_loop app head].
  pose proof Hs as Hs0. cbn [app] in Hs0. sorted_simpl in Hs0.
  rewrite decide_False; last first.
  { intros E. destruct post as [|e post]; [done|]. injection E as ->.
    assert (E : IntervalLess e e = true) by set_solver. by rewrite st_irrefl in E. }
  rewrite Forall_forall in Hpre. pose proof Hne as (Hp&Hi&Ht)%Forall_cons_2'.
  assert (Hnx : next (Some i) (pre ++ p :: i :: t ++ post) = head (t ++ post)).
  { rewrite (app_cons_snoc pre). apply (it_next_split IntervalLess). by rewrite <-app_cons_snoc. }
  rewrite Hnx. cbn [compacted]. destruct (imin i <=? imax p) eqn:E.
  - set (m := Interval.mk _ _).
    rewrite (set_erase_mid IntervalLess) by (rewrite Forall_forall; set_solver).
    rewrite (set_erase_mid IntervalLess) by (rewrite Forall_forall; set_solver).
    assert (Hm : ∀ y, y ∈ t ++ post → IntervalLess m y = true).
    { intros y Hy. specialize (H1 y Hy). specialize (H0 i ltac:(set_solver)).
      subst m. unfold IntervalLess in *. simpl. lia. }
    assert (Hmp : ∀ y, y ∈ pre → IntervalLess y m = true).
    { intros y Hy. specialize (Hpre y Hy). subst m. unfold IntervalLess. simpl in *. lia. }
    rewrite (set_insert_split IntervalLess) by (rewrite Forall_forall; set_solver).
    apply IH; [simpl in Hf; lia| |by rewrite Forall_forall|].
    + sorted_goal.
    + constructor; [subst m; simpl; lia|done].
  - cbn [app]. rewrite (app_cons_snoc pre), (app_cons_snoc pre (compacted i t ++ post)).
    apply IH; [simpl in Hf; lia|by rewrite <-app_cons_snoc| |by constructor].
    rewrite Forall_forall. intros q Hq. apply elem_of_app in Hq as [Hq|Hq].
    + specialize (Hpre q Hq). simpl in Hpre. lia.
    + apply list_elem_of_singleton in Hq as ->. lia.
Qed.

Lemma Compact_spec pre p t post :
  sorted IntervalLess (pre ++ p :: t ++ post) →
  Forall (λ q, imin q < imin p) pre → Forall (λ i, nonempty i) (p :: t) →
  Compact (pre ++ p :: t ++ post) (Some p) (head post) = pre ++ compacted p t ++ post.
Proof.
  intros Hs Hpre Hne. unfold Compact. rewrite decide_False; last first.
  { intros E. destruct post as [|e post]; [done|]. injection E as ->.
    sorted_simpl in Hs. assert (E : IntervalLess e e = true) by set_solver.
    by rewrite st_irrefl in E. }
  rewrite (it_next_split IntervalLess) by done.
  apply Compact_loop_spec; try done. rewrite length_app. simpl. rewrite length_app. lia.
Qed.

(** The range only has to be ordered by [min] for the result to be right. *)
Lemma compacted_bound p t hi :
  Forall (λ i, imax i <= hi) (p :: t) → Forall (λ i, imax i <= hi) (compacted p t).
Proof.
  revert p. induction t as [|i t IH]; intros p H; simpl; [done|].
  apply Forall_cons_2' in H as (?&?&?). case_match.
  - apply IH. constructor; [simpl; lia|done].
  - constructor; [done|]. apply IH. by constructor.
Qed.

Lemma compacted_valid p t :
  StronglySorted (λ i j, imin i <= imin j) (p :: t) → Forall (λ i, nonempty i) (p :: t) →
  valid (compacted p t) ∧ (∀ z, den (compacted p t) z ↔ den (p :: t) z)
  ∧ Forall (λ i, imin p <= imin i) (compacted p t).
Proof.
  revert p. induction t as [|i t IH]; intros p Hs Hne; simpl.
  { split_and!; [|done|by repeat constructor]. apply valid_single.
    by apply Forall_cons in Hne as [? _]. }
  apply Forall_cons_2' in Hne as (Hp&Hi&Ht).
  inversion Hs as [|? ? Hs1 Hs2]; subst. apply Forall_cons in Hs2 as [Hpi Hpt].
  inversion Hs1 as [|? ? Hs3 Hs4]; subst. case_match.
  - edestruct (IH (Interval.mk (imin p) (Z.max (imax p) (imax i)))) as (Hv&Hd&Hb).
    { by constructor. }
    { constructor; [simpl; lia|done]. }
    split_and!; [done| |done]. intros z. rewrite Hd, !den_cons. unfold Interval.den. simpl.
    naive_solver lia.
  - destruct (IH i) as (Hv&Hd&Hb); [done|by constructor|].
    split_and!.
    + apply valid_cons. split; [exact Hp|split; [|exact Hv]].
      eapply Forall_impl; [exact Hb|]. unfold gap. simpl. lia.
    + intros z. by rewrite den_cons, Hd, !den_cons.
    + constructor; [done|]. eapply Forall_impl; [exact Hb|]. simpl. lia.
Qed.

Lemma sorted_by_min s : sorted IntervalLess s → StronglySorted (λ i j, imin i <= imin j) s.
Proof.
  induction 1 as [|i s Hs IH Hi]; constructor; [done|].
  eapply Forall_impl; [exact Hi|]. unfold IntervalLess. simpl. lia.
Qed.

Lemma head_is_start i pre post :
  sorted IntervalLess (pre ++ i :: post) → Some i = head (pre ++ i :: post) → pre = [].
Proof.
  intros Hs E. destruct pre as [|q pre]; [done|]. injection E as ->.
  cbn [app] in Hs. sorted_simpl in Hs.
  assert (E : IntervalLess q q = true) by set_solver. by rewrite st_irrefl in E.
Qed.

(** Compacting a range that does not reach the rest of the set restores the
    invariant and keeps the points. *)
Lemma Compact_valid pre p t post :
  sorted IntervalLess (pre ++ p :: t ++ post) → valid pre → valid post →
  Forall (λ q, imax q < imin p) pre → Forall (λ i, nonempty i) (p :: t) →
  (∀ x y, x ∈ p :: t → y ∈ post → imax x < imin y) →
  valid (Compact (pre ++ p :: t ++ post) (Some p) (head post))
  ∧ ∀ z, den (Compact (pre ++ p :: t ++ post) (Some p) (head post)) z
         ↔ den (pre ++ p :: t ++ post) z.
Proof.
  intros Hs Hvpre Hvpost Hpre Hne Hgap. rewrite Compact_spec; [|done| |done]; last first.
  { destruct Hvpre as [_ Hnp]. rewrite Forall_forall in *. intros q Hq.
    specialize (Hpre q Hq). specialize (Hnp q Hq). simpl in *. lia. }
  destruct (compacted_valid p t) as (Hv&Hd&Hb); [|done|].
  { apply sorted_by_min. rewrite app_comm_cons in Hs.
    by apply sorted_app in Hs as (_&[? _]%sorted_app&_). }
  split.
  - rewrite Forall_forall in Hpre, Hne, Hb. apply valid_app_elem.
    split_and!; [done|apply valid_app_elem; split_and!; [done..|]|].
    + intros c y Hc Hy.
      pose proof (compacted_bound p t (imin y - 1)) as HB. rewrite !Forall_forall in HB.
      cut (imax c <= imin y - 1); [lia|]. apply HB; [|done]. intros x Hx.
      specialize (Hgap x y Hx Hy). lia.
    + intros q c Hq [Hc|Hc]%elem_of_app; specialize (Hpre q Hq); simpl in *.
      * specialize (Hb c Hc). simpl in *. lia.
      * specialize (Hgap p c ltac:(set_solver) Hc). specialize (Hne p ltac:(set_solver)).
        simpl in *. lia.
  - intros z. rewrite !den_app, Hd. autorewrite with iden. tauto.
Qed.

(** The intervals a new interval [i] is merged with: all that start no later
    than its end. *)
Lemma upper_bound_end i post :
  valid post → Forall (λ j, IntervalLess i j = true) post →
  ∃ mid post', post = mid ++ post'
    ∧ (∀ pre, Forall (λ j, imin j <= imax i ∧ nonempty j) pre → nonempty i →
       upper_bound IntervalLess (Interval.mk (imax i) (imax i)) (pre ++ i :: post) = head post')
    ∧ Forall (λ j, imin j <= imax i) mid ∧ Forall (λ j, imax i < imin j) post'.
Proof.
  intros Hv Hi.
  destruct (upper_split IntervalLess (Interval.mk (imax i) (imax i)) post)
    as (mid&post'&->&H1&H2&_); [by apply valid_sorted|].
  destruct Hv as [_ Hne]. apply Forall_app in Hne as [_ Hne].
  exists mid, post'. split_and!; [done| | |].
  - intros pre Hpre Hni. rewrite app_comm_cons, app_assoc.
    apply (upper_bound_split IntervalLess).
    + rewrite Forall_app, Forall_cons. split_and!; [|unfold IntervalLess; simpl; lia|done].
      eapply Forall_impl; [exact Hpre|]. unfold IntervalLess. simpl. lia.
    + intros j t ->. by apply Forall_cons in H2 as [? _].
  - eapply Forall_impl; [exact H1|]. unfold IntervalLess. simpl. lia.
  - rewrite Forall_forall in *. intros j Hj. specialize (H2 j Hj). specialize (Hne j Hj).
    unfold IntervalLess in H2. simpl in *. lia.
Qed.

Lemma Add_lemma s i :
  valid s → valid (Add s i) ∧ ∀ z, den (Add s i) z ↔ den s z ∨ Interval.den i z.
Proof.
  intros Hv. unfold Add. destruct (Interval.Empty i) eqn:Ei.
  { split; [done|]. intros z. rewrite Interval.Empty_spec in Ei. naive_solver. }
  assert (Hi : nonempty i) by (unfold Interval.Empty in Ei; lia).
  destruct (set_mem IntervalLess i s) eqn:Em.
  { split; [done|]. intros z. apply (set_mem_elem IntervalLess) in Em.
    apply list_elem_of_split in Em as (l1&l2&->). rewrite den_app, den_cons. tauto. }
  destruct (sorted_split_at IntervalLess i s) as (pre&post&->&Hpre&Hpost).
  { by apply valid_sorted. }
  { intros E%(set_mem_elem IntervalLess). congruence. }
  rewrite (set_insert_split IntervalLess) by done.
  pose proof Hv as (Hvpre&Hvpost&Hgap)%valid_app_elem.
  destruct (upper_bound_end i post) as (mid&post'&->&Hub&Hmid&Hpost'); [done..|].
  rewrite Hub; [| |done]; last first.
  { destruct Hvpre as [_ Hne]. rewrite Forall_forall in *. intros j Hj.
    specialize (Hne j Hj). specialize (Hpre j Hj). unfold IntervalLess in *. simpl in *. lia. }
  assert (Hs : sorted IntervalLess (pre ++ i :: mid ++ post')).
  { apply valid_sorted in Hvpre, Hvpost. apply sorted_mid.
    split_and!; try done. apply valid_sorted in Hv. by apply sorted_app in Hv as (?&?&?). }
  assert (Hnm : Forall (λ j, nonempty j) (i :: mid)).
  { constructor; [done|]. destruct Hvpost as [_ Hne]. by apply Forall_app in Hne as [? _]. }
  apply valid_app_elem in Hvpost as (_&Hvpost'&Hgmp). rewrite Forall_forall in Hpost'.
  destruct (list_snoc_cases pre) as [->|(pre'&q&->)].
  - cbn [app begin head]. rewrite decide_True by done.
    destruct (Compact_valid [] i mid post') as [Hvc Hd]; try done.
    { intros x y [->|Hx]%elem_of_cons Hy; [by apply Hpost'|]. by apply Hgmp. }
    split; [done|]. intros z. cbn [app] in Hd |- *. rewrite Hd, den_cons. tauto.
  - rewrite decide_False; last first.
    { intros E. apply head_is_start in E; [|done]. by destruct pre'. }
    unfold prev. rewrite (it_prev_split IntervalLess), last_app_singleton by done.
    rewrite <-app_cons_snoc in *. apply valid_app_elem in Hvpre as (Hvp'&Hvq&Hgq).
    destruct (Compact_valid pre' q (i :: mid) post') as [Hvc Hd]; try done.
    + rewrite Forall_forall. intros x Hx. apply Hgq; set_solver.
    + constructor; [|done]. by apply valid_cons in Hvq as [? _].
    + intros x y Hx Hy. apply elem_of_cons in Hx as [->|[->|Hx]%elem_of_cons].
      * apply Hgap; set_solver.
      * by apply Hpost'.
      * by apply Hgmp.
    + split; [done|]. intros z. cbn [app] in Hd |- *. rewrite Hd.
      autorewrite with iden. tauto.
Qed.

(** [AddOptimizedForAppend] is [Add]: the in-place extension computes the same
    list. *)
Lemma AddOptimizedForAppend_lemma s i :
  valid s → nonempty i → AddOptimizedForAppend s i = Add s i.
Proof.
  intros Hv Hi. unfold AddOptimizedForAppend, rbegin.
  destruct (list_snoc_cases s) as [->|(pre&l&->)]; [done|].
  rewrite last_app_singleton. case_match; [done|].
  pose proof Hv as (Hvp&Hvl&Hg)%valid_app_elem. apply valid_cons in Hvl as (Hl&_&_).
  destruct (Add_lemma (pre ++ [l]) i Hv) as [HvA HdA].
  case_match; apply valid_canonical; try done.
  - intros z. rewrite HdA, !den_app, den_cons. unfold Interval.den. naive_solver lia.
  - rewrite removelast_last. apply valid_app_elem. split_and!; [done| |].
    + apply valid_single. simpl. lia.
    + intros x y Hx ->%list_elem_of_singleton. simpl. apply Hg; set_solver.
  - intros z. rewrite HdA, removelast_last, !den_app, !den_cons, !den_nil.
    unfold Interval.den. simpl. naive_solver lia.
Qed.

(** ** Lookups *)

(** The candidate of a lookup is the last interval not after the probe. *)
Lemma candidate_split s x :
  valid s → ∃ pre post, s = pre ++ post
    ∧ (∀ y, y ∈ pre → IntervalLess x y = false) ∧ (∀ y, y ∈ post → IntervalLess x y = true)
    ∧ upper_bound IntervalLess x s = head post
    ∧ (upper_bound IntervalLess x s = begin s ↔ pre = [])
    ∧ prev (upper_bound IntervalLess x s) s = last pre
    ∧ candidate s x = last pre.
Proof.
  intros Hv%valid_sorted.
  destruct (upper_split IntervalLess x s Hv) as (pre&post&->&H1&H2&Hub).
  exists pre, post. rewrite Forall_forall in H1, H2. split_and!; try done.
  - rewrite Hub. unfold begin. split; [|by intros ->].
    destruct pre as [|p pre]; [done|]. destruct post as [|q post]; [done|]. intros [= ->].
    specialize (H1 p ltac:(set_solver)). specialize (H2 p ltac:(set_solver)). congruence.
  - rewrite Hub. by apply (it_prev_head IntervalLess).
  - unfold candidate. rewrite Hub. case_decide as E.
    + destruct pre as [|p pre]; [done|]. destruct post as [|q post]; [done|].
      injection E as ->.
      specialize (H1 p ltac:(set_solver)). specialize (H2 p ltac:(set_solver)). congruence.
    + by apply (it_prev_head IntervalLess).
Qed.

(** In a valid set only one interval can reach a given point. *)
Lemma den_snoc_unique pre c post z :
  valid (pre ++ c :: post) → imin c <= z → (∀ y, y ∈ post → z < imin y) →
  (den (pre ++ c :: post) z ↔ Interval.den c z).
Proof.
  intros Hv Hz Hpost. autorewrite with iden.
  apply valid_app_elem in Hv as (_&Hv&Hg). split; [|tauto].
  intros [Hp|[?|Hp]]; [|done|]; unfold den in Hp; rewrite Exists_exists in Hp;
    destruct Hp as (y&Hy&Hd); unfold Interval.den in Hd.
  - specialize (Hg y c Hy ltac:(set_solver)). lia.
  - specialize (Hpost y Hy). lia.
Qed.

Lemma den_elem s z : den s z ↔ ∃ i, i ∈ s ∧ Interval.den i z.
Proof. unfold den. by rewrite Exists_exists. Qed.

Lemma candidate_point s v :
  valid s → match candidate s (Interval.mk v v) with
            | None => ¬ den s v
            | Some c => c ∈ s ∧ (den s v ↔ Interval.den c v)
            end.
Proof.
  intros Hv. destruct (candidate_split s (Interval.mk v v) Hv)
    as (pre&post&->&H1&H2&_&_&_&->).
  assert (Hpost : ∀ y, y ∈ post → v < imin y).
  { intros y Hy. specialize (H2 y Hy). apply valid_nonempty with (i := y) in Hv; [|set_solver].
    unfold IntervalLess in H2. simpl in H2. lia. }
  destruct (list_snoc_cases pre) as [->|(pre'&c&->)].
  - simpl. intros (y&Hy&Hd)%den_elem. specialize (Hpost y Hy). unfold Interval.den in Hd. lia.
  - rewrite last_app_singleton. split; [set_solver|].
    rewrite <-app_cons_snoc in *. apply den_snoc_unique; [done| |done].
    specialize (H1 c ltac:(set_solver)). apply valid_nonempty with (i := c) in Hv; [|set_solver].
    unfold IntervalLess in H1. simpl in H1. lia.
Qed.

Lemma Contains_lemma s v : valid s → (Contains s v = true ↔ den s v).
Proof.
  intros Hv. unfold Contains. pose proof (candidate_point s v Hv) as H.
  destruct (candidate s _) as [c|]; [|naive_solver].
  destruct H as [_ ->]. apply Interval.Contains_spec.
Qed.

Lemma Find_lemma s v c : valid s → (Find s v = Some c ↔ c ∈ s ∧ Interval.den c v).
Proof.
  intros Hv. unfold Find. pose proof (candidate_point s v Hv) as H. split.
  - destruct (candidate s _) as [d|]; [|done]. destruct (Interval.Contains d v) eqn:E; [|done].
    intros [= <-]. destruct H. by apply Interval.Contains_spec in E.
  - intros [Hc Hd]. assert (den s v) as Hs by (apply den_elem; eauto).
    destruct (candidate s _) as [d|]; [|done]. destruct H as [Hin Hdd].
    apply Hdd in Hs. destruct (Interval.Contains d v) eqn:E.
    + f_equal. apply list_elem_of_split in Hc as (l1&l2&->).
      pose proof Hv as (_&Hv2&Hg)%valid_app_elem. apply valid_cons_elem in Hv2 as (_&_&Hg2).
      unfold Interval.den in *. apply elem_of_app in Hin as [Hin|[->|Hin]%elem_of_cons]; [|done|].
      * specialize (Hg d c Hin ltac:(set_solver)). lia.
      * specialize (Hg2 d Hin). lia.
    + apply Interval.Contains_spec in Hs. congruence.
Qed.

Lemma ContainsI_lemma s i :
  valid s → (ContainsI s i = true ↔ nonempty i ∧ ∀ z, Interval.den i z → den s z).
Proof.
  intros Hv. unfold ContainsI.
  destruct (candidate_split s i Hv) as (pre&post&->&H1&H2&_&_&_&->). split.
  - destruct (list_snoc_cases pre) as [->|(pre'&c&->)]; [done|].
    rewrite last_app_singleton. unfold Interval.ContainsI, Interval.Empty. intros Hc.
    split; [lia|]. intros z Hz. unfold Interval.den in Hz. apply den_elem. exists c.
    split; [set_solver|]. unfold Interval.den. lia.
  - intros [Hi Hz]. assert (den (pre ++ post) (imin i)) as (c&Hc&Hd)%den_elem
      by (apply Hz; unfold Interval.den; lia).
    assert (imax i <= imax c) as Hmax.
    { destruct (decide (imax i <= imax c)) as [|Hn]; [done|].
      assert (den (pre ++ post) (imax c)) as (d&Hd1&Hd2)%den_elem.
      { apply Hz. unfold Interval.den in *. lia. }
      unfold Interval.den in *. apply list_elem_of_split in Hc as (l1&l2&E). rewrite E in *.
      pose proof Hv as (_&Hv2&Hg)%valid_app_elem. apply valid_cons_elem in Hv2 as (_&_&Hg2).
      apply elem_of_app in Hd1 as [Hin|[->|Hin]%elem_of_cons].
      - specialize (Hg d c Hin ltac:(set_solver)). lia.
      - lia.
      - specialize (Hg2 d Hin). lia. }
    unfold Interval.den in Hd. apply elem_of_app in Hc as [Hc|Hc]; last first.
    { specialize (H2 c Hc). unfold IntervalLess in H2. lia. }
    destruct (list_snoc_cases pre) as [->|(pre'&q&->)]; [set_solver|].
    rewrite last_app_singleton.
    pose proof Hv as (Hvp&_&_)%valid_app_elem. apply valid_app_elem in Hvp as (_&Hvq&Hg).
    apply valid_cons in Hvq as (Hq&_). specialize (H1 q ltac:(set_solver)).
    apply elem_of_app in Hc as [Hc| ->%list_elem_of_singleton].
    + specialize (Hg c q Hc ltac:(set_solver)). unfold IntervalLess in H1. lia.
    + unfold Interval.ContainsI, Interval.Empty. lia.
Qed.

Lemma IsDisjoint_lemma s i :
  valid s → (IsDisjoint s i = true ↔ ∀ z, Interval.den i z → ¬ den s z).
Proof.
  intros Hv. unfold IsDisjoint. destruct (Interval.Empty i) eqn:Ei.
  { rewrite Interval.Empty_spec in Ei. naive_solver. }
  unfold Interval.Empty in Ei. set (x := Interval.mk (imin i) (imin i)).
  destruct (candidate_split s x Hv) as (pre&post&E&H1&H2&Hub&Hb&Hp&_).
  assert (Hpost : ∀ y, y ∈ post → imin i < imin y).
  { intros y Hy. specialize (H2 y Hy). apply valid_nonempty with (i := y) in Hv; [|set_solver].
    unfold IntervalLess in H2. simpl in H2. lia. }
  assert (Hpre : ∀ y, y ∈ pre → imin y <= imin i).
  { intros y Hy. specialize (H1 y Hy). unfold IntervalLess in H1. simpl in H1. lia. }
  set (near := match upper_bound IntervalLess x s with
               | Some y => imin y <? imax i | None => false end).
  assert (Hnear : near = true ↔ ∃ y, y ∈ post ∧ imin y < imax i).
  { subst near. rewrite Hub. subst s. apply valid_app in Hv as (_&Hv&_).
    destruct post as [|q post]; simpl; [set_solver|].
    apply valid_cons_elem in Hv as (?&_&Hg). split.
    - exists q. split; [set_solver|lia].
    - intros (y&[->|Hy]%elem_of_cons&?); [lia|]. specialize (Hg y Hy). lia. }
  destruct near.
  { split; [done|]. intros Hd. destruct Hnear as [(y&Hy&?) _]; [done|]. exfalso.
    specialize (Hpost y Hy). apply valid_nonempty with (i := y) in Hv; [|set_solver].
    apply (Hd (imin y)); [unfold Interval.den; lia|]. apply den_elem. exists y.
    split; [set_solver|unfold Interval.den; lia]. }
  assert (Hfar : ∀ y, y ∈ post → imax i <= imin y).
  { intros y Hy. destruct (decide (imax i <= imin y)); [done|].
    enough (false = true) by done. apply Hnear. exists y. split; [done|lia]. }
  clear Hnear. case_decide as Hbg.
  - apply Hb in Hbg as ->. split; [|done]. intros _ z Hz Hs. simpl in E. subst post.
    apply den_elem in Hs as (y&Hy&Hd). specialize (Hfar y Hy). unfold Interval.den in *. lia.
  - rewrite Hp. destruct (list_snoc_cases pre) as [->|(pre'&q&->)]; [naive_solver|].
    rewrite last_app_singleton. subst s. clear Hub Hb Hp Hbg H1 H2.
    pose proof Hv as (Hvp&_&_)%valid_app_elem. apply valid_app_elem in Hvp as (_&Hvq&Hg).
    apply valid_cons in Hvq as (Hq&_). specialize (Hpre q ltac:(set_solver)). split.
    + intros Hle z Hz (y&Hy&Hd)%den_elem. unfold Interval.den in *.
      rewrite <-app_assoc in Hy. apply elem_of_app in Hy as [Hy|[->|Hy]%elem_of_cons].
      * specialize (Hg y q Hy ltac:(set_solver)). lia.
      * lia.
      * specialize (Hfar y Hy). lia.
    + intros Hd. destruct (decide (imax q <= imin i)); [lia|]. exfalso.
      apply (Hd (imin i)); [unfold Interval.den; lia|]. apply den_elem. exists q.
      split; [set_solver|unfold Interval.den; lia].
Qed.

(** ** The pairwise scan

    The loops of [Difference] and [Intersection] keep both sets split at the
    iterators: what is before [mine] is finished, what is before [theirs] can no
    longer matter. *)

Lemma skip_spec fuel pre rest bound :
  valid (pre ++ rest) → (length rest < fuel)%nat →
  skip fuel (pre ++ rest) (head rest) bound =
  head (drop_while (λ i, imax i <=? bound) rest).
Proof.
  revert fuel pre. induction rest as [|i rest IH]; intros fuel pre Hv Hf.
  { by destruct fuel. }
  destruct fuel as [|fuel]; [simpl in Hf; lia|]. cbn [head skip drop_while].
  case_match; [|done]. unfold next. rewrite (it_next_split IntervalLess) by by apply valid_sorted.
  rewrite app_cons_snoc. apply IH; [by rewrite <-app_cons_snoc|simpl in Hf; lia].
Qed.

(** The two instances of [on_hole], by one flag. *)
Definition hole (erase : bool) : Hole := if erase then erase_hole else keep_hole.
Definition kept (erase : bool) (sk : Set_) : Set_ := if erase then [] else sk.

Lemma hole_spec e pre sk rest :
  sorted IntervalLess (pre ++ sk ++ rest) →
  hole e (pre ++ sk ++ rest) (head (sk ++ rest)) (head rest) = pre ++ kept e sk ++ rest.
Proof.
  intros Hs. destruct e; simpl; [|done]. by apply (erase_range_split IntervalLess).
Qed.

(** Intervals that end at or before [b] miss a set that starts at [b]. *)
Lemma skipped_disjoint sk other b z :
  (∀ i, i ∈ sk → imax i <= b) → (∀ j, j ∈ other → b <= imin j) →
  den sk z → ¬ den other z.
Proof.
  intros H1 H2 (i&Hi&Hd)%den_elem (j&Hj&He)%den_elem.
  specialize (H1 i Hi). specialize (H2 j Hj). unfold Interval.den in *. lia.
Qed.

Lemma valid_starts i s j : valid (i :: s) → j ∈ i :: s → imin i <= imin j.
Proof.
  intros (?&_&Hg)%valid_cons_elem [->|Hj]%elem_of_cons; [lia|]. specialize (Hg j Hj). lia.
Qed.

Lemma kept_app e sk sk' : kept e (sk ++ sk') = kept e sk ++ kept e sk'.
Proof. by destruct e. Qed.

(** Two heads that neither scan skips intersect. *)
Lemma unskipped_intersect m t :
  nonempty m → nonempty t → (imax m <=? imin t) = false → (imax t <=? imin m) = false →
  Interval.Intersects m t = true.
Proof. unfold Interval.Intersects, Interval.Empty. lia. Qed.

Lemma kept_valid e pre sk rest : valid (pre ++ sk ++ rest) → valid (pre ++ kept e sk ++ rest).
Proof.
  destruct e; [|done]. simpl. rewrite !valid_app_elem. intros (?&(?&?&?)&?).
  split_and!; try done. set_solver.
Qed.

(** What [FindNextIntersectingPairImpl] returns from a split state: either the
    next pair that intersects, everything skipped missing the other set, or
    [false] when no points are shared any more. *)
Lemma FindNext_spec e fuel pre rest opre orest :
  (length rest + length orest < fuel)%nat → valid (pre ++ rest) → valid (opre ++ orest) →
  orest ≠ [] →
  (∃ sk m rest' osk t orest',
     rest = sk ++ m :: rest' ∧ orest = osk ++ t :: orest'
     ∧ FindNextIntersectingPairImpl (hole e) fuel (pre ++ rest) (opre ++ orest)
         (head rest) (head orest)
       = Some (true, pre ++ kept e sk ++ m :: rest', Some m, Some t)
     ∧ Interval.Intersects m t = true
     ∧ (∀ z, den sk z → ¬ den orest z) ∧ (∀ z, den osk z → ¬ den (m :: rest') z))
  ∨ (∃ mine theirs,
     FindNextIntersectingPairImpl (hole e) fuel (pre ++ rest) (opre ++ orest)
       (head rest) (head orest)
     = Some (false, pre ++ kept e rest, mine, theirs)
     ∧ (∀ z, den rest z → ¬ den orest z)).
Proof.
  revert pre rest opre orest. induction fuel as [|fuel IH]; intros pre rest opre orest Hf Hv Ho Hne.
  { lia. }
  destruct rest as [|m rest].
  { right. exists None, (head orest). split; [by destruct e|]. intros z. by rewrite den_nil. }
  destruct orest as [|t orest]; [done|].
  cbn [FindNextIntersectingPairImpl head]. destruct (Interval.Intersects m t) eqn:Ei.
  { left. exists [], m, rest, [], t, orest. split_and!; try done.
    - by destruct e.
    - intros z. by rewrite den_nil.
    - intros z. by rewrite den_nil. }
  cbv zeta. change (Some m) with (head (m :: rest)). change (Some t) with (head (t :: orest)).
  rewrite skip_spec; [|done|rewrite length_app; lia].
  destruct (split_while (λ i, imax i <=? imin t) (m :: rest)) as (sk&rest1&Em&->&_&Hp&Hnp).
  assert (Hm0 : sk = [] → ∃ r, rest1 = m :: r) by (intros ->; simpl in Em; eauto).
  rewrite Em in *. clear rest Em.
  assert (Hsk : ∀ z, den sk z → ¬ den (t :: orest) z).
  { intros z. apply skipped_disjoint with (b := imin t).
    - intros i Hi%Hp. simpl in Hi. lia.
    - intros j Hj. apply valid_app in Ho as (_&Ho&_). by eapply valid_starts. }
  rewrite hole_spec by by apply valid_sorted.
  destruct rest1 as [|m1 rest1].
  { right. eexists _, _. split; [by rewrite !app_nil_r|]. by rewrite app_nil_r. }
  cbn [head]. change (Some m1) with (head (m1 :: rest1)).
  rewrite skip_spec; [|done|rewrite length_app; lia].
  destruct (split_while (λ i, imax i <=? imin m1) (t :: orest)) as (osk&orest1&Eo&->&_&Hop&Hnop).
  assert (Hdec : (length sk + length osk ≠ 0)%nat).
  { destruct sk; [|simpl; lia]. destruct osk; [|simpl; lia]. exfalso.
    destruct (Hm0 eq_refl) as [r [= -> ->]]. simpl in Eo. subst orest1.
    specialize (Hnp m r eq_refl). specialize (Hnop t orest eq_refl).
    rewrite unskipped_intersect in Ei; [done| | |done..].
    - by eapply valid_nonempty; [exact Hv|set_solver].
    - by eapply valid_nonempty; [exact Ho|set_solver]. }
  rewrite Eo in *. clear t orest Eo Hnp Hp Ei Hnop Hne Hm0.
  assert (Hosk : ∀ z, den osk z → ¬ den (m1 :: rest1) z).
  { intros z. apply skipped_disjoint with (b := imin m1).
    - intros i Hi%Hop. simpl in Hi. lia.
    - intros j Hj. apply valid_app in Hv as (_&(_&Hv&_)%valid_app&_). by eapply valid_starts. }
  destruct orest1 as [|t1 orest1].
  { right. eexists _, _. rewrite app_nil_r in *. split.
    - pose proof (hole_spec e (pre ++ kept e sk) (m1 :: rest1) []) as Hh.
      rewrite !app_nil_r, <-!app_assoc in Hh. cbn [head] in Hh |- *. rewrite Hh, kept_app; [done|].
      by apply valid_sorted, kept_valid.
    - intros z. rewrite den_app. intros [?|?] ?; [by eapply Hsk|by eapply Hosk]. }
  cbn [head]. change (Some t1) with (head (t1 :: orest1)).
  rewrite (app_assoc pre), (app_assoc opre). rewrite !length_app in Hf.
  change (Some m1) with (head (m1 :: rest1)).
  destruct (IH (pre ++ kept e sk) (m1 :: rest1) (opre ++ osk) (t1 :: orest1))
    as [(sk'&m'&r'&osk'&t'&o'&Er&Eor&HF&HI&Hd1&Hd2)|(mi&th&HF&Hd)].
  { simpl in *. lia. }
  { rewrite <-app_assoc. by apply kept_valid. }
  { by rewrite <-app_assoc. }
  { done. }
  - left. exists (sk ++ sk'), m', r', (osk ++ osk'), t', o'. rewrite HF, Er, Eor.
    split_and!; [by rewrite <-app_assoc|by rewrite <-app_assoc| |done| |].
    + by rewrite kept_app, <-!app_assoc.
    + intros z. rewrite !den_app. intros [Hz|Hz] Hz'.
      * eapply Hsk; [done|]. rewrite Eor, !den_app. tauto.
      * destruct Hz' as [Hz'|Hz']; [|eapply Hd1; [done|]; rewrite Eor, den_app; tauto].
        eapply Hosk; [done|]. rewrite Er, den_app. tauto.
    + intros z. rewrite den_app. intros [Hz|Hz] Hz'; [|by eapply Hd2].
      eapply Hosk; [done|]. rewrite Er, den_app. tauto.
  - right. exists mi, th. rewrite HF. split.
    + by rewrite kept_app, <-app_assoc.
    + intros z. rewrite !den_app. intros [Hz|Hz] Hz'.
      * eapply Hsk; [done|]. rewrite den_app. tauto.
      * destruct Hz'; [by eapply Hosk|by eapply Hd].
Qed.

(** ** Difference *)

Definition piece (i : interval) : Set_ := if Interval.Empty i then [] else [i].

Lemma den_piece i z : den (piece i) z ↔ Interval.den i z.
Proof.
  unfold piece. destruct (Interval.Empty i) eqn:E.
  - rewrite den_nil. rewrite Interval.Empty_spec in E. naive_solver.
  - rewrite den_cons, den_nil. tauto.
Qed.

Lemma insert_piece i pre post :
  (nonempty i → ∀ x, x ∈ pre → imax x < imin i) →
  (nonempty i → ∀ y, y ∈ post → imax i < imin y) →
  (∀ x, x ∈ pre → nonempty x) →
  (if Interval.Empty i then pre ++ post else set_insert IntervalLess i (pre ++ post))
  = pre ++ piece i ++ post.
Proof.
  intros H1 H2 Hne. unfold piece. destruct (Interval.Empty i) eqn:E; [done|].
  assert (nonempty i) as Hi by (unfold Interval.Empty in E; lia).
  apply (set_insert_split IntervalLess); rewrite Forall_forall.
  - intros x Hx. specialize (H1 Hi x Hx). specialize (Hne x Hx). unfold IntervalLess. lia.
  - intros y Hy. specialize (H2 Hi y Hy). unfold IntervalLess. lia.
Qed.

(** The two remainders of an interval a hole is cut out of. *)
Lemma Difference_pieces m t :
  nonempty m → nonempty t → Interval.Intersects m t = true →
  ∃ lo hi b, Interval.Difference m t = (lo, hi, b)
    ∧ (Interval.Empty lo = true ∨ imin lo = imin m ∧ imax lo = imin t ∧ nonempty lo)
    ∧ (Interval.Empty hi = true ∨ imin hi = imax t ∧ imax hi = imax m ∧ nonempty hi)
    ∧ ∀ z, Interval.den lo z ∨ Interval.den hi z ↔ Interval.den m z ∧ ¬ Interval.den t z.
Proof.
  intros Hm Ht Hi. pose proof (Interval.Difference_spec m t) as Hd.
  destruct (Interval.Difference m t) as [[lo hi] b] eqn:E. destruct Hd as (Hd&_&_).
  exists lo, hi, b. split; [done|]. revert E Hi. clear Hd.
  assert (Hd := Interval.Difference_spec m t). intros E. rewrite E in Hd. destruct Hd as (Hd&_&_).
  intros Hi. split_and!; [| |done]; revert E Hi; clear Hd;
  unfold Interval.Difference, Interval.Intersects, Interval.Empty, Interval.empty;
  repeat case_match; intros [= <- <- <-]; simpl; lia.
Qed.

Lemma piece_valid i pre post :
  (nonempty i → ∀ x, x ∈ pre → imax x < imin i) →
  (nonempty i → ∀ y, y ∈ post → imax i < imin y) →
  valid (pre ++ post) → valid (pre ++ piece i ++ post).
Proof.
  intros H1 H2 Hv. unfold piece. destruct (Interval.Empty i) eqn:E; [done|].
  assert (nonempty i) as Hi by (unfold Interval.Empty in E; lia).
  rewrite !valid_app_elem in *. destruct Hv as (?&?&?). split_and!; try done.
  - by apply valid_single.
  - set_solver.
  - set_solver.
Qed.

(** One step of [Difference]: the pair found, its remainders, and the point sets. *)
Lemma Difference_step_points sk m rest' osk t orest' lo hi z :
  (∀ z, den sk z → ¬ den (osk ++ t :: orest') z) → (∀ z, den osk z → ¬ den (m :: rest') z) →
  (∀ z, Interval.den lo z ∨ Interval.den hi z ↔ Interval.den m z ∧ ¬ Interval.den t z) →
  (∀ z, Interval.den lo z → ¬ den orest' z) →
  den sk z ∨ den (piece lo) z ∨ (den (piece hi ++ rest') z ∧ ¬ den (t :: orest') z) ↔
  den (sk ++ m :: rest') z ∧ ¬ den (osk ++ t :: orest') z.
Proof.
  intros H1 H2 H3 H4. specialize (H1 z). specialize (H2 z). specialize (H3 z). specialize (H4 z).
  rewrite ?den_app, ?den_cons, ?den_piece in *. tauto.
Qed.

Definition heads_flag (rest orest : Set_) : nat :=
  match rest, orest with
  | m :: _, t :: _ => if imax t <=? imin m then 0 else 1
  | _, _ => 0
  end.

Lemma heads_flag_le rest orest : (heads_flag rest orest <= 1)%nat.
Proof. unfold heads_flag. repeat case_match; lia. Qed.

Lemma Difference_loop_spec fuel pre rest opre orest :
  (2 * (length rest + length orest) + heads_flag rest orest < fuel)%nat →
  valid (pre ++ rest) → valid (opre ++ orest) → orest ≠ [] →
  ∃ s, Difference_loop fuel (pre ++ rest) (opre ++ orest) (head rest) (head orest) = Some s
    ∧ valid s ∧ ∀ z, den s z ↔ den pre z ∨ (den rest z ∧ ¬ den orest z).
Proof.
  revert pre rest opre orest. induction fuel as [|fuel IH]; intros pre rest opre orest Hf Hv Ho Hne.
  { lia. }
  cbn [Difference_loop].
  destruct (FindNext_spec false (pair_fuel (pre ++ rest) (opre ++ orest)) pre rest opre orest)
    as [(sk&m&rest'&osk&t&orest'&->&->&HF&HI&Hd1&Hd2)|(mi&th&HF&Hd)]; try done.
  { unfold pair_fuel. rewrite !length_app. lia. }
  2:{ change (hole false) with keep_hole in HF. rewrite HF. exists (pre ++ rest). simpl.
      split_and!; [done|done|]. intros z. rewrite den_app. naive_solver. }
  change (hole false) with keep_hole in HF. rewrite HF. clear HF. cbn [kept].
  assert (Hm : nonempty m) by (eapply valid_nonempty; [exact Hv|set_solver]).
  assert (Ht : nonempty t) by (eapply valid_nonempty; [exact Ho|set_solver]).
  destruct (Difference_pieces m t) as (lo&hi&b&HD&Hlo&Hhi0&Hden); [done..|]. rewrite HD.
  rewrite app_assoc in Hv |- *. pose proof (valid_sorted _ Hv) as Hs.
  unfold next. rewrite (it_next_split IntervalLess) by done.
  rewrite (set_erase_mid IntervalLess); last first.
  { by apply sorted_mid in Hs as (?&?&?&?). }
  pose proof Hv as (Hvp&Hvm&Hg)%valid_app_elem. apply valid_cons_elem in Hvm as (_&Hvr&Hgm).
  assert (HI' : imin m < imax t ∧ imin t < imax m) by (unfold Interval.Intersects in HI; lia).
  assert (Hlo1 : nonempty lo → ∀ x, x ∈ pre ++ sk → imax x < imin lo).
  { intros ? x Hx. specialize (Hg x m Hx ltac:(set_solver)). unfold Interval.Empty in Hlo. lia. }
  assert (Hlo2 : nonempty lo → ∀ y, y ∈ piece hi ++ rest' → imax lo < imin y).
  { intros ? y [Hy|Hy]%elem_of_app.
    - unfold piece in Hy. case_match; [set_solver|]. apply list_elem_of_singleton in Hy as ->.
      unfold Interval.Empty in *. lia.
    - specialize (Hgm y Hy). unfold Interval.Empty in Hlo. lia. }
  assert (Hhi1 : nonempty hi → ∀ x, x ∈ pre ++ sk → imax x < imin hi).
  { intros ? x Hx. specialize (Hg x m Hx ltac:(set_solver)). unfold Interval.Empty in Hhi0. lia. }
  assert (Hhi2 : nonempty hi → ∀ y, y ∈ rest' → imax hi < imin y).
  { intros ? y Hy. specialize (Hgm y Hy). unfold Interval.Empty in Hhi0. lia. }
  assert (Hv0 : valid ((pre ++ sk) ++ rest')) by (apply valid_app_elem; split_and!; set_solver).
  assert (Hne0 : ∀ x, x ∈ pre ++ sk → nonempty x) by (intros x; by apply valid_nonempty).
  assert (HvL : valid ((pre ++ sk) ++ piece lo ++ piece hi ++ rest')).
  { apply piece_valid; [done..|]. by apply piece_valid. }
  assert (Hlo3 : ∀ z, Interval.den lo z → ¬ den orest' z).
  { intros z Hz (j&Hj&Hzj)%den_elem. 
    apply valid_app in Ho as (_&(_&Ho&_)%valid_app&_). apply valid_cons_elem in Ho as (_&_&Hgo).
    specialize (Hgo j Hj). unfold Interval.den, Interval.Empty in *. lia. }
  pose proof (λ z, Difference_step_points sk m rest' osk t orest' lo hi z Hd1 Hd2 Hden Hlo3) as Hstep.
  assert (Hlen : (length rest' < length (sk ++ m :: rest'))%nat) by (rewrite length_app; simpl; lia).
  rewrite insert_piece; [|done| |done]; last first.
  { intros. apply Hlo2; set_solver. }
  rewrite (app_assoc opre). rewrite (app_assoc opre) in Ho.
  change (Some t) with (head (t :: orest')).
  destruct (Interval.Empty hi) eqn:Ehi.
  - unfold piece in HvL, Hstep at 2. rewrite Ehi in HvL, Hstep. cbn [app] in HvL, Hstep.
    rewrite (app_assoc (pre ++ sk)) in HvL |- *.
    destruct (IH ((pre ++ sk) ++ piece lo) rest' (opre ++ osk) (t :: orest')) as (s&HL&Hvs&Hds).
    { pose proof (heads_flag_le rest' (t :: orest')). rewrite !length_app in Hf. simpl in *. lia. }
    { done. }
    { done. }
    { done. }
    exists s. split_and!; [done..|]. intros z. rewrite Hds, <-Hstep, !den_app. tauto.
  - assert (Hhi : nonempty hi) by (unfold Interval.Empty in Ehi; lia).
    unfold piece in HvL, Hstep at 2. rewrite Ehi in HvL, Hstep. cbn [app] in HvL, Hstep.
    rewrite (app_assoc (pre ++ sk)) in HvL |- *.
    rewrite (set_insert_split IntervalLess).
    + destruct (IH ((pre ++ sk) ++ piece lo) (hi :: rest') (opre ++ osk) (t :: orest'))
        as (s&HL&Hvs&Hds).
      { assert (Hflag : heads_flag (hi :: rest') (t :: orest') = O).
        { simpl. unfold Interval.Empty in Hhi0. by destruct (Z.leb_spec (imax t) (imin hi)); [|lia]. }
        assert (Hone : sk = [] → osk = [] → heads_flag (sk ++ m :: rest') (osk ++ t :: orest') = 1%nat).
        { intros -> ->. simpl. by destruct (Z.leb_spec (imax t) (imin m)); [lia|]. }
        rewrite Hflag. rewrite !length_app in Hf.
        destruct sk as [|], osk as [|]; [rewrite Hone in Hf by done|..]; simpl in *; lia. }
      { done. }
      { done. }
      { done. }
      exists s. split_and!; [done..|]. intros z. rewrite Hds, <-Hstep, !den_app. tauto.
    + rewrite Forall_forall. intros x Hx. apply valid_sorted in HvL.
      apply sorted_mid in HvL as (_&_&HvL&_). rewrite Forall_forall in HvL. by apply HvL.
    + rewrite Forall_forall. intros x Hx. apply valid_sorted in HvL.
      apply sorted_mid in HvL as (_&_&_&HvL&_). rewrite Forall_forall in HvL. by apply HvL.
Qed.

(** Every interval, so every point, of a valid set lies in its span. *)
Lemma span_bounds s i :
  valid s → i ∈ s → imin (SpanningInterval s) <= imin i ∧ imax i <= imax (SpanningInterval s).
Proof.
  intros Hv Hi. unfold SpanningInterval.
  destruct s as [|f s]; [set_solver|]. cbn [head].
  destruct (list_snoc_cases (f :: s)) as [?|(pre&l&E)]; [done|].
  rewrite E, last_app_singleton. cbn [Interval.min Interval.max]. split.
  - by eapply valid_starts.
  - rewrite E in *. apply valid_app_elem in Hv as (_&Hl&Hg). apply valid_cons in Hl as (Hl&_).
    apply elem_of_app in Hi as [Hi| ->%list_elem_of_singleton]; [|lia].
    specialize (Hg i l Hi ltac:(set_solver)). lia.
Qed.

Lemma span_den s z : valid s → den s z → Interval.den (SpanningInterval s) z.
Proof.
  intros Hv (i&Hi&Hd)%den_elem. pose proof (span_bounds s i Hv Hi).
  unfold Interval.den in *. lia.
Qed.

Lemma FindIntersectionCandidate_spec s i :
  valid s → s ≠ [] → ∃ pre rest, s = pre ++ rest ∧ rest ≠ []
    ∧ FindIntersectionCandidate s i = head rest ∧ ∀ x, x ∈ pre → imax x < imin i.
Proof.
  intros Hv Hne. unfold FindIntersectionCandidate.
  destruct (candidate_split s i Hv) as (pre&post&E&H1&H2&Hub&Hb&Hp&_). subst s.
  case_decide as Hbg.
  - apply Hb in Hbg as ->. exists [], post. split_and!; try done. set_solver.
  - rewrite Hp. destruct (list_snoc_cases pre) as [->|(pre'&c&->)]; [naive_solver|].
    exists pre', (c :: post). rewrite last_app_singleton, <-app_cons_snoc in *.
    split_and!; try done. intros x Hx.
    apply valid_app_elem in Hv as (_&_&Hg). specialize (Hg x c Hx ltac:(set_solver)).
    specialize (H1 c ltac:(set_solver)). unfold IntervalLess in H1. lia.
Qed.

(** What is before the candidate for a set cannot meet the set. *)
Lemma candidate_prefix s o i :
  valid s → s ≠ [] → begin o = Some i → valid o → ∃ pre rest, s = pre ++ rest ∧ rest ≠ []
    ∧ FindIntersectionCandidateS s o = head rest ∧ ∀ z, den pre z → ¬ den o z.
Proof.
  intros Hv Hne Hi Ho.
  destruct (FindIntersectionCandidate_spec s i Hv Hne) as (pre&rest&->&?&HF&Hpre).
  exists pre, rest. unfold FindIntersectionCandidateS. rewrite Hi. split_and!; try done.
  intros z. apply skipped_disjoint with (b := imin i).
  - intros x Hx. specialize (Hpre x Hx). lia.
  - intros j Hj. destruct o as [|i' o]; [done|]. injection Hi as ->. by eapply valid_starts.
Qed.

Lemma spans_meet s o :
  Interval.Intersects (SpanningInterval s) (SpanningInterval o) = true → s ≠ [] ∧ o ≠ [].
Proof.
  unfold Interval.Intersects, SpanningInterval, Interval.Empty.
  destruct s; [simpl; lia|]. destruct o; [|done]. cbn [head last Interval.empty]. simpl. lia.
Qed.

Lemma spans_miss s o z :
  valid s → valid o →
  Interval.Intersects (SpanningInterval s) (SpanningInterval o) = false →
  den s z → ¬ den o z.
Proof.
  intros Hs Ho E H1%span_den H2%span_den; [|done..].
  assert (false = true) as ?; [|done]. rewrite <-E. apply Interval.Intersects_spec. eauto.
Qed.

Lemma DifferenceS_lemma s o :
  valid s → valid o →
  ∃ s', DifferenceS s o = Some s' ∧ valid s' ∧ ∀ z, den s' z ↔ den s z ∧ ¬ den o z.
Proof.
  intros Hs Ho. unfold DifferenceS. destruct (Interval.Intersects _ _) eqn:E; cbn [negb].
  2:{ exists s. split_and!; try done. intros z. split; [|naive_solver].
      intros Hz. split; [done|]. exact (spans_miss s o z Hs Ho E Hz). }
  apply spans_meet in E as [Hs0 Ho0].
  destruct (begin o) as [oi|] eqn:Eo; [|by destruct o].
  destruct (begin s) as [si|] eqn:Es; [|by destruct s].
  destruct (candidate_prefix s o oi) as (pre&rest&Esplit&Hrest&HF&Hpre); try done.
  destruct (candidate_prefix o s si) as (opre&orest&Eosplit&Horest&HFo&Hopre); try done.
  rewrite HF, HFo. subst s o. rewrite decide_False by (destruct rest; naive_solver).
  destruct (Difference_loop_spec (loop_fuel (pre ++ rest) (opre ++ orest)) pre rest opre orest)
    as (s'&HL&Hv&Hd); try done.
  { unfold loop_fuel. rewrite !length_app. pose proof (heads_flag_le rest orest). lia. }
  exists s'. split_and!; try done. intros z. rewrite Hd. specialize (Hpre z). specialize (Hopre z).
  rewrite !den_app in *. tauto.
Qed.

Lemma of_interval_lemma i :
  valid (of_interval i) ∧ ∀ z, den (of_interval i) z ↔ Interval.den i z.
Proof.
  destruct (Add_lemma [] i valid_nil) as [Hv Hd]. split; [done|]. intros z.
  unfold of_interval. rewrite Hd, den_nil. tauto.
Qed.

Lemma Difference_lemma s i :
  valid s → ∃ s', Difference s i = Some s' ∧ valid s' ∧
  ∀ z, den s' z ↔ den s z ∧ ¬ Interval.den i z.
Proof.
  intros Hs. unfold Difference. destruct (of_interval_lemma i) as [Hvi Hdi].
  destruct (Interval.Intersects _ _) eqn:E; cbn [negb].
  - destruct (DifferenceS_lemma s (of_interval i)) as (s'&?&?&Hd); [done..|].
    exists s'. split_and!; try done. intros z. by rewrite Hd, Hdi.
  - exists s. split_and!; try done. intros z. split; [|tauto]. intros Hz. split; [done|].
    intros Hi. assert (false = true) as ?; [|done]. rewrite <-E. apply Interval.Intersects_spec.
    exists z. auto using span_den.
Qed.

Lemma Complement_lemma s mn mx :
  valid s → ∃ s', Complement s mn mx = Some s' ∧ valid s' ∧
  ∀ z, den s' z ↔ mn <= z < mx ∧ ¬ den s z.
Proof.
  intros Hs. unfold Complement. destruct (of_interval_lemma (Interval.mk mn mx)) as [Hvi Hdi].
  destruct (DifferenceS_lemma (of_interval (Interval.mk mn mx)) s) as (s'&?&?&Hd); [done..|].
  exists s'. split_and!; try done. intros z. by rewrite Hd, Hdi.
Qed.

(** ** Union and intersection *)

Lemma insert_all_sorted s k :
  sorted IntervalLess s → sorted IntervalLess (fold_left (λ s i, set_insert IntervalLess i s) k s)
  ∧ ∀ i, i ∈ fold_left (λ s i, set_insert IntervalLess i s) k s ↔ i ∈ s ∨ i ∈ k.
Proof.
  revert s. induction k as [|j k IH]; intros s Hs; simpl; [set_solver|].
  destruct (IH (set_insert IntervalLess j s)) as [H1 H2]; [by apply (set_insert_sorted IntervalLess)|].
  split; [done|]. intros i. rewrite H2, (set_insert_elem IntervalLess). set_solver.
Qed.

Lemma Union_lemma s o :
  valid s → valid o → valid (Union s o) ∧ ∀ z, den (Union s o) z ↔ den s z ∨ den o z.
Proof.
  intros Hs Ho. unfold Union.
  destruct (insert_all_sorted s o) as [HS HE]; [by apply valid_sorted|].
  set (u := fold_left _ o s) in *.
  assert (Hden : ∀ z, den u z ↔ den s z ∨ den o z).
  { intros z. rewrite !den_elem. setoid_rewrite HE. naive_solver. }
  assert (Hne : Forall (λ i, nonempty i) u).
  { rewrite Forall_forall. intros i [Hi|Hi]%HE; eauto using valid_nonempty. }
  setoid_rewrite <-Hden. clearbody u. destruct u as [|p t].
  { unfold Compact. rewrite decide_True by done. split; [apply valid_nil|done]. }
  pose proof (Compact_valid [] p t []) as H. cbn [app head] in H.
  rewrite !app_nil_r in H. cbn [begin head]. apply H; try done; try apply valid_nil.
  set_solver.
Qed.

(** The intersections of one interval with the intervals that reach it. *)
Fixpoint inter_with (i : interval) (o : Set_) : Set_ * Set_ :=
  match o with
  | [] => ([], [])
  | t :: o' =>
      match Interval.Intersection i t with
      | Some x => let '(xs, o'') := inter_with i o' in (x :: xs, o'')
      | None => ([], o)
      end
  end.

Lemma inter_with_spec i o :
  nonempty i → valid o →
  let '(xs, o') := inter_with i o in
  ∃ used, o = used ++ o' ∧ length xs = length used ∧ valid xs
    ∧ (∀ x, x ∈ xs → imin i <= imin x ∧ imax x <= imax i)
    ∧ (∀ z, den xs z ↔ Interval.den i z ∧ den used z)
    ∧ (∀ t o'', o' = t :: o'' → Interval.Intersects i t = false)
    ∧ (∀ u, u ∈ used → Interval.Intersects i u = true).
Proof.
  intros Hi. induction o as [|t o IH]; intros Hv; simpl.
  { exists []. split; [done|]. split; [done|]. split; [apply valid_nil|]. split; [set_solver|].
    split; [intros z; rewrite den_nil; tauto|]. split; [done|set_solver]. }
  apply valid_cons_elem in Hv as (Ht&Hv&Hg). specialize (IH Hv).
  destruct (Interval.Intersection i t) as [x|] eqn:Ex.
  - destruct (inter_with i o) as [xs o']. destruct IH as (used&->&Hl&Hvx&Hb&Hd&Hs&Hu).
    pose proof (Interval.Intersection_spec _ _ _ Ex) as [Hx Hdx].
    unfold Interval.Intersection in Ex. destruct (Interval.Intersects i t) eqn:EI; [|done].
    injection Ex as <-. cbn [Interval.min Interval.max] in *.
    unfold Interval.Empty in Hx. cbn [Interval.min Interval.max] in Hx.
    exists (t :: used). split_and!; try done.
    + simpl. lia.
    + apply valid_cons_elem. simpl. split_and!; [lia|done|].
      intros y Hy.
      assert (den xs (imin y)) as Hyd.
      { apply den_elem. exists y. split; [done|]. unfold Interval.den.
        pose proof (valid_nonempty _ _ Hvx Hy). lia. }
      apply Hd in Hyd as [_ (u&Hu'&Hud)%den_elem]. specialize (Hg u ltac:(set_solver)).
      unfold Interval.den in Hud. lia.
    + intros y [->|Hy]%elem_of_cons; simpl; [lia|]. by apply Hb.
    + intros z. rewrite !den_cons, Hdx, Hd. tauto.
    + set_solver.
  - exists []. split; [done|]. split; [done|]. split; [apply valid_nil|]. split; [set_solver|].
    split; [intros z; rewrite den_nil; tauto|].
    split; [|set_solver]. intros ?? [= <- <-]. unfold Interval.Intersection in Ex. by destruct (Interval.Intersects i t).
Qed.

Lemma valid_between pre xs post i :
  valid pre → valid xs → valid post →
  (∀ x, x ∈ pre → imax x < imin i) → (∀ y, y ∈ post → imax i < imin y) → nonempty i →
  (∀ x, x ∈ xs → imin i <= imin x ∧ imax x <= imax i) → valid (pre ++ xs ++ post).
Proof.
  intros ??? H1 H2 Hi H3. rewrite !valid_app_elem. split; [done|split; [split; [done|split; [done|]]|]].
  - intros x y Hx Hy. specialize (H3 x Hx). specialize (H2 y Hy). lia.
  - intros x y Hx [Hy|Hy]%elem_of_app; specialize (H1 x Hx).
    + specialize (H3 y Hy). lia.
    + specialize (H2 y Hy). lia.
Qed.

Lemma Intersection_inner_spec fuel pre post opre orest i mine :
  (length orest < fuel)%nat → valid (opre ++ orest) →
  valid (pre ++ fst (inter_with i orest) ++ post) →
  Intersection_inner fuel (pre ++ post) (opre ++ orest) i mine (head orest)
  = (pre ++ fst (inter_with i orest) ++ post,
     match last (fst (inter_with i orest)) with Some x => Some x | None => mine end,
     head (snd (inter_with i orest))).
Proof.
  revert fuel pre opre mine. induction orest as [|t orest IH];
    intros fuel pre opre mine Hf Hvo Hv.
  { destruct fuel; simpl in *; [lia|done]. }
  destruct fuel as [|fuel]; [simpl in Hf; lia|]. cbn [head Intersection_inner].
  cbn [inter_with] in *. destruct (Interval.Intersection i t) as [x|] eqn:Ex; [|done].
  destruct (inter_with i orest) as [xs o'] eqn:Ew. cbn [fst snd] in *.
  unfold next. rewrite (it_next_split IntervalLess) by by apply valid_sorted.
  pose proof (valid_sorted _ Hv) as Hs. cbn [app] in Hs.
  rewrite (set_insert_split IntervalLess).
  - rewrite (app_cons_snoc pre), (app_cons_snoc opre).
    rewrite IH; [|simpl in Hf; lia|by rewrite <-app_cons_snoc|by rewrite <-app_cons_snoc].
    rewrite <-app_cons_snoc. f_equal. f_equal.
    destruct (list_snoc_cases xs) as [->|(ys&y&->)]; [done|].
    by rewrite last_cons_app, last_app_singleton.
  - by apply sorted_mid in Hs as (_&_&?&_).
  - apply sorted_mid in Hs as (_&_&_&Hs&_). by apply Forall_app in Hs as [_ ?].
Qed.

(** The point sets of one step of [Intersection]. *)
Lemma Intersection_step_points sk m rest' osk used tl o' z xs :
  (den sk z → ¬ den (osk ++ used ++ tl :: o') z) → (den osk z → ¬ den (m :: rest') z) →
  (den xs z ↔ Interval.den m z ∧ den (used ++ [tl]) z) →
  (Interval.den m z → ¬ den o' z) → (den used z → ¬ den rest' z) →
  den xs z ∨ (den rest' z ∧ den (tl :: o') z) ↔
  den (sk ++ m :: rest') z ∧ den (osk ++ used ++ tl :: o') z.
Proof. rewrite ?den_app, ?den_cons, ?den_app, ?den_cons, ?den_nil. tauto. Qed.

(** What [inter_with] leaves of the other set is beyond [m]. *)
Lemma inter_with_rest m u tl o' :
  Interval.Intersects m tl = true → valid (u ++ tl :: o') →
  (∀ t o'', o' = t :: o'' → Interval.Intersects m t = false) →
  (∀ z, Interval.den m z → ¬ den o' z)
  ∧ (∀ rest' z, (∀ y, y ∈ rest' → imax m < imin y) → den u z → ¬ den rest' z).
Proof.
  intros HI Hv Hno. assert (HI' := HI). unfold Interval.Intersects in HI'. zb.
  apply valid_app_elem in Hv as (_&Hv&Hg). apply valid_cons_elem in Hv as (Htl&Hv&Hgt). split.
  - intros z Hz (j&Hj&Hzj)%den_elem. destruct o' as [|t o']; [set_solver|].
    specialize (Hno t o' eq_refl). pose proof (valid_starts _ _ _ Hv Hj).
    apply valid_cons_elem in Hv as (Ht&_&_). specialize (Hgt t ltac:(set_solver)).
    unfold Interval.Intersects, Interval.den, Interval.Empty in *. lia.
  - intros rest' z Hr. apply skipped_disjoint with (b := imax m).
    + intros i Hi. specialize (Hg i tl Hi ltac:(set_solver)). lia.
    + intros j Hj. specialize (Hr j Hj). lia.
Qed.

Lemma Intersection_loop_spec fuel pre rest opre orest :
  (length rest + length orest < fuel)%nat →
  valid (pre ++ rest) → valid (opre ++ orest) → orest ≠ [] →
  ∃ s, Intersection_loop fuel (pre ++ rest) (opre ++ orest) (head rest) (head orest) = Some s
    ∧ valid s ∧ ∀ z, den s z ↔ den pre z ∨ (den rest z ∧ den orest z).
Proof.
  revert pre rest opre orest. induction fuel as [|fuel IH]; intros pre rest opre orest Hf Hv Ho Hne.
  { lia. }
  cbn [Intersection_loop].
  destruct (FindNext_spec true (pair_fuel (pre ++ rest) (opre ++ orest)) pre rest opre orest)
    as [(sk&m&rest'&osk&t&orest'&->&->&HF&HI&Hd1&Hd2)|(mi&th&HF&Hd)]; try done.
  { unfold pair_fuel. rewrite !length_app. lia. }
  2:{ change (hole true) with erase_hole in HF. rewrite HF. exists pre. cbn [kept].
      rewrite app_nil_r. apply valid_app in Hv as (Hv&_&_).
      split; [done|]. split; [done|]. intros z. specialize (Hd z). tauto. }
  change (hole true) with erase_hole in HF. rewrite HF. clear HF. cbn [kept app].
  assert (Hm : nonempty m) by (eapply valid_nonempty; [exact Hv|set_solver]).
  assert (Hv2 : valid (pre ++ m :: rest')) by by apply (kept_valid true) in Hv.
  rewrite (set_erase_mid IntervalLess); last first.
  { apply valid_sorted in Hv2. by apply sorted_mid in Hv2 as (?&?&?&?). }
  pose proof Hv2 as (Hvp&Hvm&Hg)%valid_app_elem. apply valid_cons_elem in Hvm as (_&Hvr&Hgm).
  pose proof (inter_with_spec m (t :: orest') Hm) as HW.
  pose proof (Intersection_inner_spec (S (length (opre ++ osk ++ t :: orest'))) pre rest'
    (opre ++ osk) (t :: orest') m None) as HIN.
  destruct (inter_with m (t :: orest')) as [xs o'] eqn:Ew.
  rewrite (app_assoc opre) in Ho |- *. cbn [fst snd] in HIN.
  destruct HW as (used&Eu&Hlen&Hvx&Hbx&Hdx&Hlast&Hused); [by apply valid_app in Ho as (_&?&_)|].
  destruct (list_snoc_cases used) as [->|(u&tl&->)].
  { simpl in Eu. subst o'. by rewrite (Hlast t orest' eq_refl) in HI. }
  destruct (list_snoc_cases xs) as [->|(ys&x&->)].
  { rewrite length_app in Hlen. simpl in Hlen. lia. }
  assert (HvN : valid (pre ++ (ys ++ [x]) ++ rest')).
  { apply (valid_between _ _ _ m); try done. intros y Hy. apply Hg; [done|set_solver]. }
  change (Some t) with (head (t :: orest')). rewrite (app_assoc opre) in HIN.
  rewrite HIN; [clear HIN|rewrite length_app; lia|done|done].
  rewrite last_app_singleton. rewrite Eu in *. unfold prev, next.
  pose proof (inter_with_rest m u tl o') as [Hmo Huo].
  { apply Hused. set_solver. }
  { rewrite <-app_cons_snoc in Ho. by apply valid_app in Ho as (_&?&_). }
  { done. }
  assert (Hpv : it_prev IntervalLess (head o') ((opre ++ osk) ++ (u ++ [tl]) ++ o') = Some tl).
  { rewrite app_assoc. rewrite (it_prev_head IntervalLess).
    - by rewrite app_assoc, last_app_singleton.
    - rewrite <-app_assoc. by apply valid_sorted. }
  assert (Hnx : it_next IntervalLess (Some x) (pre ++ (ys ++ [x]) ++ rest') = head rest').
  { rewrite <-(app_assoc ys) in HvN |- *. cbn [app] in HvN |- *.
    rewrite (app_assoc pre) in HvN |- *. by apply (it_next_split IntervalLess), valid_sorted. }
  rewrite Hpv, Hnx, (app_assoc pre). rewrite <-app_cons_snoc, (app_assoc (opre ++ osk)) in Ho |- *.
  change (Some tl) with (head (tl :: o')).
  destruct (IH (pre ++ ys ++ [x]) rest' ((opre ++ osk) ++ u) (tl :: o')) as (s&HL&Hvs&Hds).
  { rewrite !length_app in Hf. simpl in *. lia. }
  { by rewrite <-app_assoc. }
  { done. }
  { done. }
  exists s. split; [exact HL|]. split; [exact Hvs|]. intros z.
  rewrite Hds, <-(Intersection_step_points sk m rest' osk u tl o' z (ys ++ [x])), !den_app.
  - tauto.
  - rewrite app_cons_snoc. apply Hd1.
  - apply Hd2.
  - apply Hdx.
  - apply Hmo.
  - by apply Huo.
Qed.

Lemma Intersection_lemma s o :
  valid s → valid o →
  ∃ s', Intersection s o = Some s' ∧ valid s' ∧ ∀ z, den s' z ↔ den s z ∧ den o z.
Proof.
  intros Hs Ho. unfold Intersection. destruct (Interval.Intersects _ _) eqn:E; cbn [negb].
  2:{ exists []. split; [done|]. split; [apply valid_nil|]. intros z. rewrite den_nil.
      pose proof (spans_miss s o z Hs Ho E). tauto. }
  apply spans_meet in E as [Hs0 Ho0].
  destruct (begin o) as [oi|] eqn:Eo; [|by destruct o].
  destruct (candidate_prefix s o oi) as (pre&rest&->&Hrest&HF&Hpre); try done.
  rewrite HF. change (begin (pre ++ rest)) with (head (pre ++ rest)).
  pose proof (erase_range_split IntervalLess [] pre rest) as Her. cbn [app] in Her.
  rewrite Her by by apply valid_sorted. clear Her.
  pose proof Hs as (_&Hsr&_)%valid_app.
  destruct (begin rest) as [si|] eqn:Es; [|by destruct rest].
  destruct (candidate_prefix o rest si) as (opre&orest&->&Horest&HFo&Hopre); try done.
  rewrite HFo.
  destruct (Intersection_loop_spec (loop_fuel rest (opre ++ orest)) [] rest opre orest)
    as (s'&HL&Hv&Hd); try done.
  { unfold loop_fuel. rewrite !length_app. lia. }
  exists s'. split; [exact HL|]. split; [exact Hv|]. intros z. rewrite Hd.
  specialize (Hpre z). specialize (Hopre z). rewrite den_nil, !den_app in *. tauto.
Qed.

Lemma IntersectsS_lemma s o :
  valid s → valid o →
  ∃ b, IntersectsS s o = Some b ∧ (b = true ↔ ∃ z, den s z ∧ den o z).
Proof.
  intros Hs Ho. unfold IntersectsS. destruct (Interval.Intersects _ _) eqn:E; cbn [negb].
  2:{ exists false. split; [done|]. split; [done|]. intros (z&H1&H2).
      exfalso. by eapply (spans_miss s o z). }
  apply spans_meet in E as [Hs0 Ho0].
  destruct (begin o) as [oi|] eqn:Eo; [|by destruct o].
  destruct (candidate_prefix s o oi) as (pre&rest&->&Hrest&HF&Hpre); try done.
  rewrite HF. destruct rest as [|m rest]; [done|]. cbn [head].
  destruct (FindIntersectionCandidate_spec o m Ho Ho0) as (opre&orest&->&Horest&HFo&Hopre).
  rewrite HFo. change (Some m) with (head (m :: rest)).
  assert (Hop : ∀ z, den opre z → ¬ den (m :: rest) z).
  { intros z. apply skipped_disjoint with (b := imin m).
    - intros x Hx. specialize (Hopre x Hx). lia.
    - intros j Hj. apply valid_app in Hs as (_&Hs&_). by eapply valid_starts. }
  change keep_hole with (hole false).
  destruct (FindNext_spec false (pair_fuel (pre ++ m :: rest) (opre ++ orest))
              pre (m :: rest) opre orest)
    as [(sk&m'&rest'&osk&t&orest'&Em&Eor&HFN&HI&Hd1&Hd2)|(mi&th&HFN&Hd)]; try done.
  { unfold pair_fuel. rewrite !length_app. lia. }
  - rewrite HFN. exists true. split; [done|]. split; [intros _|done].
    apply Interval.Intersects_spec in HI as (z&?&?). exists z.
    rewrite Em, Eor, !den_app, !den_cons. tauto.
  - rewrite HFN. exists false. split; [done|]. split; [done|]. intros (z&H1&H2).
    specialize (Hpre z). specialize (Hop z). specialize (Hd z).
    rewrite !den_app in *. tauto.
Qed.

(** Two valid sets that answer [Contains] alike are one list. *)
Lemma Contains_canonical s o :
  valid s → valid o → (∀ v, Contains s v = Contains o v) → s = o.
Proof.
  intros Hs Ho H. apply valid_canonical; [done..|]. intros z.
  by rewrite <-!Contains_lemma, H.
Qed.

Lemma Contains_reflect s P :
  valid s → (∀ z, den s z ↔ P z) → ∀ v, Contains s v = true ↔ P v.
Proof. intros Hs H v. by rewrite Contains_lemma, H. Qed.

(** ** Size in points *)

Definition measure (s : Set_) : Z := foldr (λ i acc, imax i - imin i + acc) 0 s.

(** [count f lo n] is the number of points of [[lo, lo + n)] where [f] holds. *)
Fixpoint count (f : Z → bool) (lo : Z) (n : nat) : Z :=
  match n with
  | O => 0
  | S n => (if f lo then 1 else 0) + count f (lo + 1) n
  end.

Lemma count_ext f g lo n : (∀ z, f z = g z) → count f lo n = count g lo n.
Proof. intros H. revert lo. induction n as [|n IH]; intros lo; simpl; [done|]. by rewrite H, IH. Qed.

Lemma count_add f g h lo n :
  (∀ z, h z = f z || g z) → (∀ z, f z = true → g z = false) →
  count h lo n = count f lo n + count g lo n.
Proof.
  intros H1 H2. revert lo. induction n as [|n IH]; intros lo; simpl; [done|].
  rewrite IH, H1. specialize (H2 lo). destruct (f lo), (g lo); simpl; try lia.
Qed.

Lemma count_interval i lo n :
  count (Interval.Contains i) lo n =
  Z.max 0 (Z.min (imax i) (lo + Z.of_nat n) - Z.max (imin i) lo).
Proof.
  revert lo. induction n as [|n IH]; intros lo; cbn [count]; [lia|].
  rewrite IH. unfold Interval.Contains. case_match; lia.
Qed.

(** The size of a valid set is its number of points. *)
Lemma measure_count s lo n :
  valid s → (∀ i, i ∈ s → lo <= imin i ∧ imax i <= lo + Z.of_nat n) →
  measure s = count (λ z, existsb (λ i, Interval.Contains i z) s) lo n.
Proof.
  induction s as [|i s IH]; intros Hv Hb; simpl.
  { clear. revert lo. induction n as [|n IH]; intros lo; simpl; [done|]. by rewrite <-IH. }
  apply valid_cons_elem in Hv as (Hi&Hv&Hg).
  rewrite (count_add (Interval.Contains i) (λ z, existsb (λ i, Interval.Contains i z) s)); [|done|].
  - rewrite count_interval. destruct (Hb i ltac:(set_solver)).
    rewrite <-IH; [lia|done|]. set_solver.
  - intros z Hz. apply not_true_iff_false. intros (j&Hj&Hzj)%existsb_exists.
    apply list_elem_of_In in Hj. specialize (Hg j Hj). unfold Interval.Contains in *. lia.
Qed.

Lemma existsb_den s z : existsb (λ i, Interval.Contains i z) s = true ↔ den s z.
Proof.
  rewrite existsb_exists, den_elem. setoid_rewrite <-list_elem_of_In.
  by setoid_rewrite Interval.Contains_spec.
Qed.

(** Adding points adds their number. *)
Lemma measure_add s k u :
  valid s → valid k → valid u →
  (∀ z, den u z ↔ den s z ∨ den k z) → (∀ z, den s z → ¬ den k z) →
  measure u = measure s + measure k.
Proof.
  intros Hs Hk Hu HD Hdis.
  assert (Hb : ∃ lo n, ∀ i, i ∈ s ++ k ++ u → lo <= imin i ∧ imax i <= lo + Z.of_nat n).
  { clear. induction (s ++ k ++ u) as [|i l (lo&n&IH)]; [by exists 0, O; set_solver|].
    exists (Z.min lo (imin i)), (Z.to_nat (Z.max (lo + Z.of_nat n) (imax i) - Z.min lo (imin i))).
    intros j [->|Hj]%elem_of_cons; [lia|]. specialize (IH j Hj). lia. }
  destruct Hb as (lo&n&Hb).
  rewrite (measure_count s lo n), (measure_count k lo n), (measure_count u lo n); try done;
    try (intros; apply Hb; set_solver).
  apply count_add.
  - intros z. apply eq_true_iff_eq. rewrite orb_true_iff, !existsb_den. apply HD.
  - intros z. rewrite existsb_den. intros Hz. apply not_true_iff_false. rewrite existsb_den. auto.
Qed.

Lemma count_le f lo n : 0 <= count f lo n <= Z.of_nat n.
Proof.
  revert lo. induction n as [|n IH]; intros lo; cbn [count]; [lia|].
  specialize (IH (lo + 1)). case_match; lia.
Qed.

(** A set inside [[lo, lo + n)] has at most [n] values. *)
Lemma measure_bound s lo n :
  valid s → 0 <= n → (∀ z, den s z → lo <= z < lo + n) → 0 <= measure s <= n.
Proof.
  intros Hv Hn Hz. rewrite (measure_count s lo (Z.to_nat n)) by
    (done || intros i Hi; pose proof (valid_nonempty s i Hv Hi);
     pose proof (Hz (imin i) ltac:(apply den_elem; exists i; unfold Interval.den; split; [done|lia]));
     pose proof (Hz (imax i - 1) ltac:(apply den_elem; exists i; unfold Interval.den; split; [done|lia])); lia).
  pose proof (count_le (λ z, existsb (λ i, Interval.Contains i z) s) lo (Z.to_nat n)). lia.
Qed.

(** A superset without more values is the same set. *)
Lemma measure_same s u : valid s → valid u → (∀ z, den s z → den u z) → measure u <= measure s → u = s.
Proof.
  intros Hs Hu Hsub Hm. destruct (DifferenceS_lemma u s Hu Hs) as (k&_&Hk&Hd).
  assert (Hdu : ∀ z, den u z ↔ den s z ∨ den k z).
  { intros z. rewrite Hd. specialize (Hsub z). pose proof (existsb_den s z) as He.
    destruct (existsb _ s); [tauto|]. assert (¬ den s z) by (rewrite <-He; done). tauto. }
  rewrite (measure_add s k u Hs Hk Hu Hdu) in Hm by (intros z Hz Hz2%Hd; tauto).
  assert (k = []) as ->.
  { destruct k as [|i k]; [done|]. pose proof (valid_nonempty _ i Hk ltac:(set_solver)).
    apply valid_cons_elem in Hk as (_&Hk&_).
    assert (0 <= measure k) as Hk0.
    { clear -Hk. induction k as [|j k IH]; [done|]. pose proof (valid_nonempty _ j Hk ltac:(set_solver)).
      apply valid_cons_elem in Hk as (_&Hk&_). specialize (IH Hk). unfold measure in *. cbn. lia. }
    unfold measure in *. cbn in Hm. lia. }
  apply valid_canonical; [done..|]. intros z. rewrite Hdu, den_nil. tauto.
Qed.

(** The test with which buffers take their fast path is exact about sharing. *)
Lemma disjoint_test s off e :
  valid s → off < e →
  match rbegin s with
  | None => true
  | Some l => (imax l <=? off) || IsDisjoint s (Interval.mk off e)
  end = true →
  ∀ z, den s z → ¬ off <= z < e.
Proof.
  intros Hv He. unfold rbegin. destruct (list_snoc_cases s) as [->|(pre&l&->)].
  { intros _ z Hz. by rewrite den_nil in Hz. }
  rewrite last_app_singleton. intros [Hl|Hd]%orb_true_iff z Hz Hr.
  - pose proof Hv as (_&Hvl&Hg)%valid_app_elem. apply valid_cons in Hvl as (Hvl&_).
    assert (Hlt : z < imax l); [|lia].
    rewrite den_app, den_cons, den_nil in Hz.
    destruct Hz as [Hz|[Hz|[]]]; [|unfold Interval.den in Hz; lia].
    apply den_elem in Hz as (i&Hi&Hz). specialize (Hg i l Hi ltac:(set_solver)).
    unfold Interval.den in Hz. lia.
  - rewrite IsDisjoint_lemma in Hd by done. by apply (Hd z).
Qed.

(** ** Properties *)

(** C36. Every operation that builds an interval set ends, keeps [Valid()], and
    contains exactly the right values: [Add], [Union], [Intersection],
    [Difference] (by a set and by one interval) and [Complement] are the set
    operations on the values [Contains] reports. *)
Theorem set_operations_correct s o i mn mx :
  Valid s = true → Valid o = true →
  (Valid (Add s i) = true
   ∧ ∀ v, Contains (Add s i) v = true ↔ Contains s v = true ∨ Interval.Contains i v = true)
  ∧ (Valid (Union s o) = true
     ∧ ∀ v, Contains (Union s o) v = true ↔ Contains s v = true ∨ Contains o v = true)
  ∧ (∃ r, Intersection s o = Some r ∧ Valid r = true
     ∧ ∀ v, Contains r v = true ↔ Contains s v = true ∧ Contains o v = true)
  ∧ (∃ r, DifferenceS s o = Some r ∧ Valid r = true
     ∧ ∀ v, Contains r v = true ↔ Contains s v = true ∧ Contains o v = false)
  ∧ (∃ r, Difference s i = Some r ∧ Valid r = true
     ∧ ∀ v, Contains r v = true ↔ Contains s v = true ∧ Interval.Contains i v = false)
  ∧ (∃ r, Complement s mn mx = Some r ∧ Valid r = true
     ∧ ∀ v, Contains r v = true ↔ mn <= v < mx ∧ Contains s v = false).
Proof.
  rewrite !Valid_spec. intros Hs Ho.
  assert (Hd : ∀ v k, valid k → Contains k v = false ↔ ¬ den k v).
  { intros v k Hk. rewrite <-Contains_lemma by done. by rewrite not_true_iff_false. }
  assert (Hi : ∀ v, Interval.Contains i v = false ↔ ¬ Interval.den i v).
  { intros v. rewrite <-Interval.Contains_spec. by rewrite not_true_iff_false. }
  destruct (Add_lemma s i Hs) as [HA HA'], (Union_lemma s o Hs Ho) as [HU HU'].
  destruct (Intersection_lemma s o Hs Ho) as (r1&E1&H1&H1').
  destruct (DifferenceS_lemma s o Hs Ho) as (r2&E2&H2&H2').
  destruct (Difference_lemma s i Hs) as (r3&E3&H3&H3').
  destruct (Complement_lemma s mn mx Hs) as (r4&E4&H4&H4').
  split; [|split; [|split; [exists r1|split; [exists r2|split; [exists r3|exists r4]]]]];
    rewrite ?Valid_spec;
    repeat match goal with |- _ = Some _ ∧ _ => split; [done|] | |- valid _ ∧ _ => split; [done|] end;
    intros v; rewrite ?Hd, ?Hi, ?Contains_lemma, ?Interval.Contains_spec by done; auto.
Qed.

Definition ex_set : Set_ := [Interval.mk 10 20; Interval.mk 30 40; Interval.mk 50 60].
Definition ex_other : Set_ := [Interval.mk 5 12; Interval.mk 15 17; Interval.mk 36 55].

Lemma set_operations_correct_witness :
  Valid (Add ex_set (Interval.mk 18 31)) = true
  ∧ Add ex_set (Interval.mk 20 31) = [Interval.mk 10 40; Interval.mk 50 60]
  ∧ Intersection ex_set ex_other
    = Some [Interval.mk 10 12; Interval.mk 15 17; Interval.mk 36 40; Interval.mk 50 55].
Proof.
  split; [|split; vm_compute; reflexivity].
  exact (proj1 (proj1 (set_operations_correct ex_set ex_other (Interval.mk 18 31) 0 70
    eq_refl eq_refl))).
Defined.

(** The lookups, which probe one candidate interval through
    [std::set::upper_bound], answer for the whole set: [Contains] of a value or of an
    interval, [Find], [IsDisjoint] and [Intersects]. *)
Theorem set_queries_correct s o i v :
  Valid s = true → Valid o = true →
  (Contains s v = true ↔ ∃ c, c ∈ s ∧ Interval.Contains c v = true)
  ∧ (∀ c, Find s v = Some c ↔ c ∈ s ∧ Interval.Contains c v = true)
  ∧ (ContainsI s i = true ↔
     Interval.Empty i = false ∧ ∀ w, Interval.Contains i w = true → Contains s w = true)
  ∧ (IsDisjoint s i = true ↔ ∀ w, Interval.Contains i w = true → Contains s w = false)
  ∧ (∃ b, IntersectsS s o = Some b
     ∧ (b = true ↔ ∃ w, Contains s w = true ∧ Contains o w = true)).
Proof.
  rewrite !Valid_spec. intros Hs Ho. split; [|split; [|split; [|split]]].
  - rewrite Contains_lemma, den_elem by done. by setoid_rewrite Interval.Contains_spec.
  - intros c. by rewrite Find_lemma, Interval.Contains_spec.
  - rewrite ContainsI_lemma by done. setoid_rewrite Contains_lemma; [|done].
    setoid_rewrite Interval.Contains_spec. unfold Interval.Empty.
    by rewrite Z.leb_gt.
  - rewrite IsDisjoint_lemma by done. setoid_rewrite Interval.Contains_spec.
    setoid_rewrite <-(Contains_lemma s); [|done]. by setoid_rewrite not_true_iff_false.
  - destruct (IntersectsS_lemma s o Hs Ho) as (b&Eb&Hb). exists b. split; [done|].
    rewrite Hb. by setoid_rewrite Contains_lemma.
Qed.

Lemma set_queries_correct_witness :
  IsDisjoint ex_set (Interval.mk 20 30) = true ∧ ContainsI ex_set (Interval.mk 12 20) = true
  ∧ (∃ b, IntersectsS ex_set ex_other = Some b
     ∧ (b = true ↔ ∃ w, Contains ex_set w = true ∧ Contains ex_other w = true)).
Proof.
  split; [vm_compute; reflexivity|split; [vm_compute; reflexivity|]].
  exact (proj2 (proj2 (proj2 (proj2
    (set_queries_correct ex_set ex_other (Interval.mk 0 0) 0 eq_refl eq_refl))))).
Defined.

(** The representation is canonical, two valid sets with the same values
    are the same sequence of intervals, so [AddOptimizedForAppend], which extends
    the last interval in place, is [Add]. *)
Theorem append_is_add s o i :
  Valid s = true → Valid o = true →
  ((∀ v, Contains s v = Contains o v) → s = o)
  ∧ (Interval.Empty i = false → AddOptimizedForAppend s i = Add s i).
Proof.
  rewrite !Valid_spec. intros Hs Ho. split; [by apply Contains_canonical|].
  unfold Interval.Empty. intros Hi. apply AddOptimizedForAppend_lemma; [done|lia].
Qed.

Lemma append_is_add_witness :
  AddOptimizedForAppend ex_set (Interval.mk 55 70) = Add ex_set (Interval.mk 55 70)
  ∧ Add ex_set (Interval.mk 55 70) = [Interval.mk 10 20; Interval.mk 30 40; Interval.mk 50 70].
Proof.
  split; [|vm_compute; reflexivity].
  exact (proj2 (append_is_add ex_set ex_set (Interval.mk 55 70) eq_refl eq_refl) eq_refl).
Defined.
End IntervalSet.
