(* ===== verification/Stream.v ===== *)
(** The bytes of a stream: the specification both ends of a stream are measured against.
    A stream is a function from offsets to bytes; a buffer's contents are slices of it. *)

From S2P Require Import Prelude.

Section stream.
Context (stream : Z → Z).

(** The [n] bytes of the stream from offset [a]. *)
Definition slice (a : Z) (n : Z) : list Z := map stream (seqZ a n).

Lemma slice_split a n m : 0 <= n → 0 <= m → slice a n ++ slice (a + n) m = slice a (n + m).
Proof. intros. unfold slice. rewrite <-map_app. f_equal. by rewrite seqZ_app by lia. Qed.

Lemma slice_0 a : slice a 0 = [].
Proof. done. Qed.

Lemma slice_lookup a n i : 0 <= i < n → slice a n !! Z.to_nat i = Some (stream (a + i)).
Proof.
  intros. unfold slice. rewrite list_lookup_fmap. rewrite lookup_seqZ_lt by lia. simpl.
  do 2 f_equal. lia.
Qed.

Lemma slice_length a n : 0 <= n → zlen (slice a n) = n.
Proof. intros. unfold slice, zlen. rewrite length_fmap, length_seqZ. lia. Qed.

Lemma slice_take a n k : 0 <= k <= n → take (Z.to_nat k) (slice a n) = slice a k.
Proof.
  intros. replace n with (k + (n - k)) by lia. rewrite <-slice_split by lia.
  apply take_app_length'. pose proof (slice_length a k ltac:(lia)) as Hl. unfold zlen in Hl. lia.
Qed.

Lemma slice_drop a n k : 0 <= k <= n → drop (Z.to_nat k) (slice a n) = slice (a + k) (n - k).
Proof.
  intros. replace n with (k + (n - k)) at 1 by lia. rewrite <-slice_split by lia.
  apply drop_app_length'. pose proof (slice_length a k ltac:(lia)) as Hl. unfold zlen in Hl. lia.
Qed.
End stream.

Lemma list_eq_Z {A} (l k : list A) :
  zlen l = zlen k → (∀ i, 0 <= i < zlen l → l !! Z.to_nat i = k !! Z.to_nat i) → l = k.
Proof.
  unfold zlen. intros Hl H. apply list_eq_same_length with (n := length l); [lia|lia|].
  intros i x y Hi Hx Hy. specialize (H (Z.of_nat i) ltac:(lia)). rewrite Nat2Z.id in H. congruence.
Qed.
