(* ===== verification/SequencerBuffer.v ===== *)
(** [QuicStreamSequencerBuffer] (quic/core/quic_stream_sequencer_buffer.cc): the
    receive side of a stream. Frames arrive in any order and overlap; their
    bytes go to a ring of blocks allocated on demand, and the client reads them
    in order.

    The memory is modelled as the source has it: an array of block pointers,
    each null or a block of [kBlockSizeBytes] bytes, addressed through the offset
    modulo the capacity. The specification is an infinite [stream : Z -> Z] of
    which every frame is a piece: [Inv stream st] says that each received and unread
    offset is stored in its cell, and the theorems say that the client reads [stream]. *)

From S2P Require Import Prelude OrderedSet IntervalSet Stream.

Module SequencerBuffer.

Definition kBlockSizeBytes : Z := 8192.
Definition kMaxPacketGap : Z := 5000.
Definition kMaxNumDataIntervalsAllowed : Z := 2 * kMaxPacketGap.

Inductive QuicErrorCode :=
  | QUIC_NO_ERROR
  | QUIC_EMPTY_STREAM_FRAME_NO_FIN
  | QUIC_INTERNAL_ERROR
  | QUIC_TOO_MANY_STREAM_DATA_INTERVALS
  | QUIC_STREAM_SEQUENCER_INVALID_STATE.

(** A [BufferBlock]: its [kBlockSizeBytes] bytes. *)
Abbreviation block := (list Z).
Definition new_block : block := replicate (Z.to_nat kBlockSizeBytes) 0.

Record t := mk {
  max_buffer_capacity_bytes : Z;
  total_bytes_read : Z;
  blocks : option (list (option block));  (* [None] for a null array *)
  num_bytes_buffered : Z;
  bytes_received : list interval;
  total_bytes_prefetched : Z;
}.

Definition CalculateBlockCount (max_capacity_bytes : Z) : Z :=
  (max_capacity_bytes + kBlockSizeBytes - 1) / kBlockSizeBytes.

Definition blocks_count (st : t) : Z := CalculateBlockCount (max_buffer_capacity_bytes st).

(** [blocks_[idx]]; [None] for a null pointer (or a null array). *)
Definition block_at (bs : option (list (option block))) (idx : Z) : option block :=
  match bs with
  | Some l => match l !! Z.to_nat idx with Some (Some b) => Some b | _ => None end
  | None => None
  end.

Definition set_block (bs : option (list (option block))) (idx : Z) (b : option block)
    : option (list (option block)) :=
  match bs with Some l => Some (<[Z.to_nat idx := b]> l) | None => None end.

Definition with_blocks (st : t) bs : t :=
  mk (max_buffer_capacity_bytes st) (total_bytes_read st) bs (num_bytes_buffered st)
     (bytes_received st) (total_bytes_prefetched st).

Definition with_received (st : t) r : t :=
  mk (max_buffer_capacity_bytes st) (total_bytes_read st) (blocks st) (num_bytes_buffered st)
     r (total_bytes_prefetched st).

Definition with_buffered (st : t) n : t :=
  mk (max_buffer_capacity_bytes st) (total_bytes_read st) (blocks st) n
     (bytes_received st) (total_bytes_prefetched st).

Definition with_prefetched (st : t) n : t :=
  mk (max_buffer_capacity_bytes st) (total_bytes_read st) (blocks st) (num_bytes_buffered st)
     (bytes_received st) n.

(** [total_bytes_read_ += n; num_bytes_buffered_ -= n]. *)
Definition advance (st : t) n : t :=
  mk (max_buffer_capacity_bytes st) (total_bytes_read st + n) (blocks st)
     (num_bytes_buffered st - n) (bytes_received st) (total_bytes_prefetched st).

(** [RetireBlock]: [false] when the block is already null. *)
Definition RetireBlock (st : t) (idx : Z) : t * bool :=
  match block_at (blocks st) idx with
  | None => (st, false)
  | Some _ => (with_blocks st (set_block (blocks st) idx None), true)
  end.

(** [Clear] retires every block of the array that is not null. *)
Definition Clear (st : t) : t :=
  mk (max_buffer_capacity_bytes st) (total_bytes_read st)
     (match blocks st with Some l => Some (map (λ _, None) l) | None => None end)
     0 (IntervalSet.Add IntervalSet.Clear (Interval.mk 0 (total_bytes_read st)))
     (total_bytes_read st).

Definition new_buffer (max_capacity_bytes : Z) : t :=
  Clear (mk max_capacity_bytes 0 None 0 [] 0).

Definition GetBlockIndex (st : t) (offset : Z) : Z :=
  (offset mod max_buffer_capacity_bytes st) / kBlockSizeBytes.

Definition GetInBlockOffset (st : t) (offset : Z) : Z :=
  (offset mod max_buffer_capacity_bytes st) mod kBlockSizeBytes.

Definition ReadOffset (st : t) : Z := GetInBlockOffset st (total_bytes_read st).
Definition NextBlockToRead (st : t) : Z := GetBlockIndex st (total_bytes_read st).

Definition GetBlockCapacity (st : t) (block_index : Z) : Z :=
  if block_index + 1 =? blocks_count st then
    let result := max_buffer_capacity_bytes st mod kBlockSizeBytes in
    if result =? 0 then kBlockSizeBytes else result
  else kBlockSizeBytes.

Definition FirstMissingByte (st : t) : Z :=
  match IntervalSet.begin (bytes_received st) with
  | None => 0
  | Some f => if 0 <? imin f then 0 else imax f
  end.

Definition NextExpectedByte (st : t) : Z :=
  match IntervalSet.rbegin (bytes_received st) with
  | None => 0
  | Some l => imax l
  end.

Definition ReadableBytes (st : t) : Z := FirstMissingByte st - total_bytes_read st.
Definition HasBytesToRead (st : t) : bool := 0 <? ReadableBytes st.
Definition BytesConsumed (st : t) : Z := total_bytes_read st.
Definition BytesBuffered (st : t) : Z := num_bytes_buffered st.

Definition Empty (st : t) : bool :=
  match bytes_received st with
  | [] => true
  | [i] => (0 <? total_bytes_read st) && (imax i =? total_bytes_read st)
  | _ => false
  end.

(** [memcpy(block + off, data, size)] and the bytes [block[off, off + n)]. *)
Definition write_block (b : block) (off : Z) (data : list Z) : block :=
  take (Z.to_nat off) b ++ data ++ drop (Z.to_nat off + length data) b.

Definition read_block (b : block) (off n : Z) : list Z :=
  take (Z.to_nat n) (drop (Z.to_nat off) b).

(** [CopyStreamData]: the blocks after the copy, [None] for the error return. The
    loop copies at least one byte per round, so the number of bytes is enough fuel. *)
Fixpoint CopyStreamData (fuel : nat) (st : t) (offset : Z) (source : list Z) : option t :=
  match fuel, source with
  | _, [] => Some st
  | O, _ => None
  | S fuel, _ =>
      let write_block_num := GetBlockIndex st offset in
      let write_block_offset := GetInBlockOffset st offset in
      let block_capacity := GetBlockCapacity st write_block_num in
      let bytes_avail := block_capacity - write_block_offset in
      let limit := total_bytes_read st + max_buffer_capacity_bytes st in
      let bytes_avail := if limit <? offset + bytes_avail then limit - offset else bytes_avail in
      let st :=
        match blocks st with
        | None => with_blocks st (Some (replicate (Z.to_nat (blocks_count st)) None))
        | Some _ => st
        end in
      if blocks_count st <=? write_block_num then None else
      let blk := match block_at (blocks st) write_block_num with
                 | Some b => b | None => new_block end in
      let bytes_to_copy := Z.min bytes_avail (zlen source) in
      let blk := write_block blk write_block_offset (take (Z.to_nat bytes_to_copy) source) in
      let st := with_blocks st (set_block (blocks st) write_block_num (Some blk)) in
      CopyStreamData fuel st (offset + bytes_to_copy) (drop (Z.to_nat bytes_to_copy) source)
  end.

(** The slow path copies each newly received interval. *)
Fixpoint copy_intervals (st : t) (starting_offset : Z) (data : list Z) (new : list interval)
    (bytes_buffered : Z) : option t * Z :=
  match new with
  | [] => (Some st, bytes_buffered)
  | i :: new =>
      let piece := take (Z.to_nat (imax i - imin i)) (drop (Z.to_nat (imin i - starting_offset)) data) in
      match CopyStreamData (length piece) st (imin i) piece with
      | None => (None, bytes_buffered)
      | Some st => copy_intervals st starting_offset data new (bytes_buffered + zlen piece)
      end
  end.

(** [OnStreamData]: the error code, the state and [*bytes_buffered]. *)
Definition OnStreamData (st : t) (starting_offset : Z) (data : list Z) : QuicErrorCode * t * Z :=
  let size := zlen data in
  if size =? 0 then (QUIC_EMPTY_STREAM_FRAME_NO_FIN, st, 0) else
  let frame_end := wrap64 (starting_offset + size) in
  if (wrap64 (total_bytes_read st + max_buffer_capacity_bytes st) <? frame_end)
     || (frame_end <? starting_offset) then (QUIC_INTERNAL_ERROR, st, 0) else
  let frame := Interval.mk starting_offset frame_end in
  if match IntervalSet.rbegin (bytes_received st) with
     | None => true
     | Some l => (imax l <=? starting_offset) || IntervalSet.IsDisjoint (bytes_received st) frame
     end
  then
    let st := with_received st (IntervalSet.AddOptimizedForAppend (bytes_received st) frame) in
    if kMaxNumDataIntervalsAllowed <=? IntervalSet.Size (bytes_received st)
    then (QUIC_TOO_MANY_STREAM_DATA_INTERVALS, st, 0) else
    match CopyStreamData (length data) st starting_offset data with
    | None => (QUIC_STREAM_SEQUENCER_INVALID_STATE, st, 0)
    | Some st => (QUIC_NO_ERROR, with_buffered st (num_bytes_buffered st + size), size)
    end
  else
    match IntervalSet.DifferenceS (IntervalSet.of_interval frame) (bytes_received st) with
    | None => (QUIC_STREAM_SEQUENCER_INVALID_STATE, st, 0)
    | Some newly_received =>
        if IntervalSet.Empty newly_received then (QUIC_NO_ERROR, st, 0) else
        let st := with_received st (IntervalSet.Add (bytes_received st) frame) in
        if kMaxNumDataIntervalsAllowed <=? IntervalSet.Size (bytes_received st)
        then (QUIC_TOO_MANY_STREAM_DATA_INTERVALS, st, 0) else
        match copy_intervals st starting_offset data newly_received 0 with
        | (None, n) => (QUIC_STREAM_SEQUENCER_INVALID_STATE, st, n)
        | (Some st, n) => (QUIC_NO_ERROR, with_buffered st (num_bytes_buffered st + n), n)
        end
    end.

Definition RetireBlockIfEmpty (st : t) (block_index : Z) : t * bool :=
  if Empty st then RetireBlock st block_index else
  if GetBlockIndex st (NextExpectedByte st - 1) =? block_index then (st, true) else
  if NextBlockToRead st =? block_index then
    match bytes_received st with
    | _ :: i :: _ =>
        if GetBlockIndex st (imin i) =? block_index then (st, true)
        else RetireBlock st block_index
    | _ => (st, false)
    end
  else RetireBlock st block_index.

(** The inner loop of [Readv], into one [iovec] of [dest_remaining] bytes: the
    bytes copied so far are in [out]. The [bool] is [false] for the error return. *)
Fixpoint Readv_one (fuel : nat) (st : t) (dest_remaining : Z) (out : list Z)
    : t * list Z * bool :=
  match fuel with
  | O => (st, out, true)
  | S fuel =>
      if (dest_remaining <=? 0) || (ReadableBytes st <=? 0) then (st, out, true) else
      let block_idx := NextBlockToRead st in
      let start_offset_in_block := ReadOffset st in
      let block_capacity := GetBlockCapacity st block_idx in
      let bytes_available_in_block :=
        Z.min (ReadableBytes st) (block_capacity - start_offset_in_block) in
      let bytes_to_copy := Z.min bytes_available_in_block dest_remaining in
      match block_at (blocks st) block_idx with
      | None => (st, out, false)
      | Some b =>
          let out := out ++ read_block b start_offset_in_block bytes_to_copy in
          let st := advance st bytes_to_copy in
          let '(st, ok) :=
            if bytes_to_copy =? bytes_available_in_block
            then RetireBlockIfEmpty st block_idx else (st, true) in
          if ok then Readv_one fuel st (dest_remaining - bytes_to_copy) out
          else (st, out, false)
      end
  end.

(** [Readv] into [iovec]s of the given lengths: the error code, the state, and
    the bytes stored, in order ([*bytes_read] is their number). *)
Fixpoint Readv_all (st : t) (dest_iov : list Z) (out : list Z) : t * list Z * bool :=
  match dest_iov with
  | [] => (st, out, true)
  | len :: dest_iov =>
      if ReadableBytes st <=? 0 then (st, out, true) else
      let '(st, out, ok) := Readv_one (Z.to_nat len) st len out in
      if ok then Readv_all st dest_iov out else (st, out, false)
  end.

Definition Readv (st : t) (dest_iov : list Z) : QuicErrorCode * t * list Z :=
  let '(st, out, ok) := Readv_all st dest_iov [] in
  if ok
  then (QUIC_NO_ERROR,
        with_prefetched st (Z.max (total_bytes_prefetched st) (total_bytes_read st)), out)
  else (QUIC_STREAM_SEQUENCER_INVALID_STATE, st, out).

(** An [iovec] the buffer hands out: [iov_base] points [iov_off] bytes into the
    block [iov_block]. *)
Record iovec := mk_iovec { iov_block : Z; iov_off : Z; iov_len : Z }.

(** The bytes an [iovec] shows, [None] when it is not inside a live block. *)
Definition iov_bytes (st : t) (iov : iovec) : option (list Z) :=
  match block_at (blocks st) (iov_block iov) with
  | None => None
  | Some b =>
      if iov_off iov + iov_len iov <=? zlen b
      then Some (read_block b (iov_off iov) (iov_len iov)) else None
  end.

(** The middle loop of [GetReadableRegions]: whole blocks until the last one or
    until [iov] is full; returns the regions and [iov_used]. *)
Fixpoint middle_regions (fuel : nat) (st : t) (start end_ : Z) (iov_used iov_count : Z)
    : list iovec * Z :=
  match fuel with
  | O => ([], iov_used)
  | S fuel =>
      let block_idx := (start + iov_used) mod blocks_count st in
      if (block_idx =? end_) || (iov_count <=? iov_used) then ([], iov_used) else
      let '(rs, used) := middle_regions fuel st start end_ (iov_used + 1) iov_count in
      (mk_iovec block_idx 0 (GetBlockCapacity st block_idx) :: rs, used)
  end.

(** [GetReadableRegions]: the regions stored in [iov] (none when it returns 0). *)
Definition GetReadableRegions (st : t) (iov_count : Z) : list iovec :=
  if ReadableBytes st =? 0 then [] else
  let start_block_idx := NextBlockToRead st in
  let readable_offset_end := FirstMissingByte st - 1 in
  let end_block_offset := GetInBlockOffset st readable_offset_end in
  let end_block_idx := GetBlockIndex st readable_offset_end in
  if (start_block_idx =? end_block_idx) && (ReadOffset st <=? end_block_offset)
  then [mk_iovec start_block_idx (ReadOffset st) (ReadableBytes st)] else
  let first := mk_iovec start_block_idx (ReadOffset st)
                 (GetBlockCapacity st start_block_idx - ReadOffset st) in
  let '(mid, used) :=
    middle_regions (Z.to_nat (blocks_count st)) st start_block_idx end_block_idx 1 iov_count in
  first :: mid ++
  (if used <? iov_count then [mk_iovec end_block_idx 0 (end_block_offset + 1)] else []).

(** [PeekRegion]: [None] for [false]. The length is a [size_t] subtraction. *)
Definition PeekRegion (st : t) (offset : Z) : option iovec :=
  if offset <? total_bytes_read st then None else
  if FirstMissingByte st <=? offset then None else
  let block_idx := GetBlockIndex st offset in
  let block_offset := GetInBlockOffset st offset in
  let end_block_idx := GetBlockIndex st (FirstMissingByte st) in
  Some (mk_iovec block_idx block_offset
    (if block_idx =? end_block_idx
     then wrap64 (GetInBlockOffset st (FirstMissingByte st) - block_offset)
     else GetBlockCapacity st block_idx - block_offset)).

Definition PrefetchNextRegion (st : t) : t * option iovec :=
  match PeekRegion st (total_bytes_prefetched st) with
  | None => (st, None)
  | Some iov => (with_prefetched st (total_bytes_prefetched st + iov_len iov), Some iov)
  end.

Fixpoint MarkConsumed_loop (fuel : nat) (st : t) (bytes_to_consume : Z) : t :=
  match fuel with
  | O => st
  | S fuel =>
      if bytes_to_consume <=? 0 then st else
      let block_idx := NextBlockToRead st in
      let offset_in_block := ReadOffset st in
      let bytes_available :=
        Z.min (ReadableBytes st) (GetBlockCapacity st block_idx - offset_in_block) in
      let bytes_read := Z.min bytes_to_consume bytes_available in
      let st := advance st bytes_read in
      let st := if bytes_available =? bytes_read
                then fst (RetireBlockIfEmpty st block_idx) else st in
      MarkConsumed_loop fuel st (bytes_to_consume - bytes_read)
  end.

Definition MarkConsumed (st : t) (bytes_used : Z) : t * bool :=
  if ReadableBytes st <? bytes_used then (st, false) else
  let st := MarkConsumed_loop (Z.to_nat bytes_used) st bytes_used in
  (with_prefetched st (Z.max (total_bytes_read st) (total_bytes_prefetched st)), true).

Definition FlushBufferedFrames (st : t) : t * Z :=
  let prev_total_bytes_read := total_bytes_read st in
  let st := mk (max_buffer_capacity_bytes st) (NextExpectedByte st) (blocks st)
              (num_bytes_buffered st) (bytes_received st) (total_bytes_prefetched st) in
  let st := Clear st in
  (st, total_bytes_read st - prev_total_bytes_read).

Definition ReleaseWholeBuffer (st : t) : t := with_blocks (Clear st) None.

(** ** Cells

    The byte at offset [o] is stored at position [o mod capacity] of the ring. *)

Definition cellp (bs : option (list (option block))) (p : Z) : option Z :=
  match block_at bs (p / kBlockSizeBytes) with
  | Some b => b !! Z.to_nat (p mod kBlockSizeBytes)
  | None => None
  end.

Definition cell (st : t) (o : Z) : option Z :=
  cellp (blocks st) (o mod max_buffer_capacity_bytes st).

(** The array has [blocks_count] pointers, each null or to a whole block. *)
Definition wf_blocks (cap : Z) (bs : option (list (option block))) : Prop :=
  match bs with
  | None => True
  | Some l => zlen l = CalculateBlockCount cap
              ∧ ∀ b, Some b ∈ l → zlen b = kBlockSizeBytes
  end.

Lemma write_block_length b off data :
  zlen b = kBlockSizeBytes → 0 <= off → off + zlen data <= kBlockSizeBytes →
  zlen (write_block b off data) = kBlockSizeBytes.
Proof.
  unfold write_block, zlen. intros. rewrite !length_app, length_take, length_drop. lia.
Qed.

Lemma write_block_lookup b off data i :
  zlen b = kBlockSizeBytes → 0 <= off → off + zlen data <= kBlockSizeBytes → 0 <= i ->
  write_block b off data !! Z.to_nat i =
  if (off <=? i) && (i <? off + zlen data) then data !! Z.to_nat (i - off) else b !! Z.to_nat i.
Proof.
  unfold write_block, zlen. intros Hb Ho Hd Hi. case_match; zb.
  - rewrite lookup_app_r; rewrite length_take; [|lia].
    rewrite lookup_app_l; [|lia]. f_equal. lia.
  - destruct (decide (i < off)).
    + rewrite lookup_app_l by (rewrite length_take; lia). by rewrite lookup_take_lt by lia.
    + rewrite lookup_app_r; rewrite length_take; [|lia].
      rewrite lookup_app_r; [|lia]. rewrite lookup_drop. f_equal. lia.
Qed.

Lemma read_block_lookup b off n i :
  0 <= off → 0 <= n → off + n <= zlen b → 0 <= i < n ->
  read_block b off n !! Z.to_nat i = b !! Z.to_nat (off + i).
Proof.
  intros. unfold read_block. rewrite lookup_take_lt by lia. rewrite lookup_drop. f_equal. lia.
Qed.

Lemma read_block_length b off n :
  0 <= off → 0 <= n → off + n <= zlen b → zlen (read_block b off n) = n.
Proof. intros. unfold read_block, zlen in *. rewrite length_take, length_drop. lia. Qed.

Lemma set_block_at l idx b j :
  0 <= idx < zlen l → 0 <= j →
  block_at (set_block (Some l) idx b) j = if j =? idx then b else block_at (Some l) j.
Proof.
  intros Hi Hj. unfold block_at, set_block, zlen in *. destruct (Z.eqb_spec j idx) as [->|].
  - rewrite list_lookup_insert_eq by lia. by destruct b.
  - by rewrite list_lookup_insert_ne by lia.
Qed.

Lemma wf_set_block cap l idx b :
  wf_blocks cap (Some l) → (∀ b', b = Some b' → zlen b' = kBlockSizeBytes) →
  wf_blocks cap (set_block (Some l) idx b).
Proof.
  intros [Hl Hb] Hn. split; [unfold zlen in *; by rewrite length_insert|].
  intros b' Hb'. apply list_elem_of_lookup in Hb' as [i Hi].
  apply list_lookup_insert_Some in Hi as [(?&?&?)|(?&Hi)]; [by apply Hn|].
  apply Hb. by eapply list_elem_of_lookup_2.
Qed.

Lemma wf_block_at cap bs idx b :
  wf_blocks cap bs → block_at bs idx = Some b → zlen b = kBlockSizeBytes.
Proof.
  unfold block_at, wf_blocks. destruct bs as [l|]; [|done]. intros [_ Hb].
  destruct (l !! Z.to_nat idx) as [[b'|]|] eqn:E; [|done..]. intros [= <-].
  apply Hb. by eapply list_elem_of_lookup_2.
Qed.

Lemma GetBlockCapacity_min st idx :
  0 < max_buffer_capacity_bytes st → 0 <= idx < blocks_count st →
  GetBlockCapacity st idx =
  Z.min kBlockSizeBytes (max_buffer_capacity_bytes st - idx * kBlockSizeBytes).
Proof.
  unfold GetBlockCapacity, blocks_count, CalculateBlockCount, kBlockSizeBytes.
  set (cap := max_buffer_capacity_bytes st). intros Hc Hi.
  pose proof (Z.div_mod cap 8192 ltac:(lia)). pose proof (Z.mod_pos_bound cap 8192 ltac:(lia)).
  Z.to_euclidean_division_equations. repeat case_match; lia.
Qed.

Lemma position_bounds cap p :
  0 <= p < cap →
  0 <= p / kBlockSizeBytes < CalculateBlockCount cap
  ∧ 0 <= p mod kBlockSizeBytes < kBlockSizeBytes
  ∧ p = p / kBlockSizeBytes * kBlockSizeBytes + p mod kBlockSizeBytes.
Proof.
  unfold CalculateBlockCount, kBlockSizeBytes. intros.
  Z.to_euclidean_division_equations. lia.
Qed.

(** Two offsets of one window of [cap] bytes have the same position only if they
    are equal, and a run of offsets that does not wrap keeps its order. *)
Lemma window_positions cap total o off n :
  0 < cap → total <= o < total + cap → total <= off → 0 <= n → off + n <= total + cap →
  off mod cap + n <= cap →
  ((off mod cap <= o mod cap < off mod cap + n) ↔ off <= o < off + n)
  ∧ (off <= o < off + n → o mod cap = off mod cap + (o - off)).
Proof.
  intros Hc Ho Hoff Hn Hend Hp.
  pose proof (Z.div_mod o cap ltac:(lia)) as E1. pose proof (Z.div_mod off cap ltac:(lia)) as E2.
  pose proof (Z.mod_pos_bound o cap Hc). pose proof (Z.mod_pos_bound off cap Hc).
  set (qo := o / cap) in *. set (q := off / cap) in *.
  set (ro := o mod cap) in *. set (r := off mod cap) in *.
  assert (Hq : qo = q - 1 ∨ qo = q ∨ qo = q + 1) by nia.
  destruct Hq as [->|[->|Hq]]; [nia|nia|rewrite Hq in *; nia].
Qed.

Lemma mod_step cap a d :
  0 < cap → 0 <= d <= cap →
  (a + d) mod cap = if a mod cap + d <? cap then a mod cap + d else a mod cap + d - cap.
Proof.
  intros Hc Hd. pose proof (Z.div_mod a cap ltac:(lia)). pose proof (Z.mod_pos_bound a cap Hc).
  case_match.
  - symmetry. apply Z.mod_unique with (q := a / cap); lia.
  - symmetry. apply Z.mod_unique with (q := a / cap + 1); lia.
Qed.

(** ** Copying *)

Section copy.
Context (stream : Z → Z).

(** [data] is the piece of the stream at [off]. *)
Definition piece_of (off : Z) (data : list Z) : Prop :=
  ∀ i, 0 <= i < zlen data → data !! Z.to_nat i = Some (stream (off + i)).

Lemma piece_of_take off data n : piece_of off data → piece_of off (take n data).
Proof.
  intros H i Hi. unfold zlen in *. rewrite length_take in Hi.
  rewrite lookup_take_lt by lia. apply H. unfold zlen. lia.
Qed.

Lemma piece_of_drop off data n :
  0 <= n → piece_of off data → piece_of (off + n) (drop (Z.to_nat n) data).
Proof.
  intros Hn H i Hi. unfold zlen in *. rewrite length_drop in Hi. rewrite lookup_drop.
  replace (Z.to_nat n + Z.to_nat i)%nat with (Z.to_nat (n + i)) by lia.
  rewrite H by (unfold zlen; lia). do 2 f_equal. lia.
Qed.

(** [st'] is [st] with the offsets of [D] stored and every stored cell of the
    window kept. *)
Definition copied (st st' : t) (D : Z → Prop) : Prop :=
  st' = with_blocks st (blocks st') ∧ wf_blocks (max_buffer_capacity_bytes st) (blocks st')
  ∧ ∀ o, total_bytes_read st <= o < total_bytes_read st + max_buffer_capacity_bytes st →
      (D o → cell st' o = Some (stream o)) ∧ (¬ D o → ∀ v, cell st o = Some v → cell st' o = Some v).

Lemma copied_trans st st1 st2 (D1 D2 : Z → Prop) :
  copied st st1 D1 → copied st1 st2 D2 → (∀ o, D1 o → ¬ D2 o) →
  copied st st2 (λ o, D1 o ∨ D2 o).
Proof.
  intros (E1&Hw1&H1) (E2&Hw2&H2) HD. rewrite E1 in E2, Hw2, H2. cbn in *.
  split; [by rewrite E2|]. split; [done|]. intros o Ho.
  destruct (H1 o Ho) as [H1a H1b], (H2 o Ho) as [H2a H2b].
  assert (Hc : cell (with_blocks st (blocks st1)) o = cell st1 o) by by rewrite <-E1.
  rewrite Hc in H2b. split.
  - intros [Hd|Hd]; [|by apply H2a]. apply H2b; auto.
  - intros Hn v Hv. apply H2b; [tauto|]. apply H1b; [tauto|done].
Qed.

Lemma wf_allocated st :
  0 < max_buffer_capacity_bytes st →
  wf_blocks (max_buffer_capacity_bytes st) (Some (replicate (Z.to_nat (blocks_count st)) None)).
Proof.
  intros Hc. split.
  - unfold zlen. rewrite length_replicate. unfold blocks_count, CalculateBlockCount, kBlockSizeBytes.
    Z.to_euclidean_division_equations. lia.
  - intros b Hb. by apply elem_of_replicate in Hb as [? _].
Qed.

(** One round of the copy loop stores one run of bytes of one block. *)
Lemma copy_round st l off (data : list Z) :
  let cap := max_buffer_capacity_bytes st in
  0 < cap → wf_blocks cap (Some l) →
  total_bytes_read st <= off → off + zlen data <= total_bytes_read st + cap →
  GetInBlockOffset st off + zlen data <= GetBlockCapacity st (GetBlockIndex st off) →
  piece_of off data →
  ∀ bs0, (bs0 = Some l ∨ (bs0 = None ∧ l = replicate (Z.to_nat (blocks_count st)) None)) →
  let idx := GetBlockIndex st off in
  let blk := match block_at (Some l) idx with Some b => b | None => new_block end in
  let bs := set_block (Some l) idx (Some (write_block blk (GetInBlockOffset st off) data)) in
  blocks st = bs0 →
  copied st (with_blocks st bs) (λ o, off <= o < off + zlen data).
Proof.
  intros cap Hc Hwf Hoff Hend Hroom Hpiece bs0 Hbs0 idx blk bs Hst.
  pose proof (Z.mod_pos_bound off cap Hc) as Hp.
  pose proof (position_bounds cap (off mod cap) Hp) as (Hi&Hr&Hpi).
  unfold GetInBlockOffset, GetBlockIndex in *. fold cap in Hroom, idx, bs. fold idx in Hroom, Hi, Hpi.
  rewrite GetBlockCapacity_min in Hroom by done. fold cap in Hroom.
  set (r := (off mod cap) mod kBlockSizeBytes) in *.
  assert (Hblk : zlen blk = kBlockSizeBytes).
  { unfold blk. destruct (block_at (Some l) idx) eqn:E; [by eapply wf_block_at|].
    unfold new_block, zlen. by rewrite length_replicate. }
  assert (Hl : 0 <= idx < zlen l) by (destruct Hwf as [-> _]; done).
  split; [done|]. split.
  { cbn. apply wf_set_block; [done|]. intros ? [= <-]. apply write_block_length; [done|lia|lia]. }
  cbn [with_blocks total_bytes_read max_buffer_capacity_bytes]. fold cap. intros o Ho.
  pose proof (Z.mod_pos_bound o cap Hc) as Hpo.
  pose proof (position_bounds cap (o mod cap) Hpo) as (Hio&Hro&Hpio).
  pose proof (zlen_nonneg data) as Hn.
  destruct (window_positions cap (total_bytes_read st) o off (zlen data)) as [Hw1 Hw2];
    [done|done|done|done|lia|lia|].
  unfold cell, cellp, bs. cbn [with_blocks blocks max_buffer_capacity_bytes]. fold cap.
  rewrite set_block_at by lia. destruct (Z.eqb_spec (o mod cap / kBlockSizeBytes) idx) as [Ei|Ei].
  - rewrite write_block_lookup by lia. rewrite Ei in Hpio.
    split.
    + intros Hd. specialize (Hw2 Hd). case_match; [|lia].
      replace ((o mod cap) mod kBlockSizeBytes - r) with (o - off) by lia.
      rewrite Hpiece by lia. do 2 f_equal. lia.
    + intros Hd v. destruct ((r <=? _) && _) eqn:Hin.
      { exfalso. apply Hd, Hw1. lia. }
      rewrite Hst. unfold blk. rewrite Ei. destruct Hbs0 as [->|[-> _]]; [|done].
      by destruct (block_at (Some l) idx).
  - split.
    + intros Hd. exfalso. specialize (Hw2 Hd). apply Ei.
      rewrite Hw2. unfold kBlockSizeBytes in *. Z.to_euclidean_division_equations. lia.
    + intros Hd v. rewrite Hst. destruct Hbs0 as [->|[-> _]]; done.
Qed.

Lemma copied_ext st st' (D1 D2 : Z → Prop) :
  (∀ o, D1 o ↔ D2 o) → copied st st' D1 → copied st st' D2.
Proof.
  intros HD (H1&H2&H3). split; [done|]. split; [done|]. intros o Ho.
  destruct (H3 o Ho) as [Ha Hb]. split; [rewrite <-HD; done|]. intros ?. apply Hb. by rewrite HD.
Qed.

Lemma copied_refl st : wf_blocks (max_buffer_capacity_bytes st) (blocks st) →
  copied st st (λ _, False).
Proof. intros Hw. split; [by destruct st|]. split; [done|]. naive_solver. Qed.

(** [CopyStreamData] stores the whole piece when it fits the window. *)
Lemma CopyStreamData_spec fuel st off data :
  0 < max_buffer_capacity_bytes st → wf_blocks (max_buffer_capacity_bytes st) (blocks st) →
  total_bytes_read st <= off →
  off + zlen data <= total_bytes_read st + max_buffer_capacity_bytes st →
  (length data <= fuel)%nat → piece_of off data →
  ∃ st', CopyStreamData fuel st off data = Some st'
    ∧ copied st st' (λ o, off <= o < off + zlen data).
Proof.
  revert st off data. induction fuel as [|fuel IH]; intros st off data Hc Hwf Hoff Hend Hf Hp.
  { destruct data; [|simpl in Hf; lia]. exists st. split; [done|].
    eapply copied_ext; [|by apply copied_refl]. rewrite zlen_nil. lia. }
  destruct data as [|x data0] eqn:Ed.
  { exists st. split; [done|]. eapply copied_ext; [|by apply copied_refl]. rewrite zlen_nil. lia. }
  rewrite <-Ed in *. assert (Hlen : 0 < zlen data) by (subst; rewrite zlen_cons; pose proof (zlen_nonneg data0); lia).
  cbn [CopyStreamData]. rewrite Ed, <-Ed. clear x data0 Ed.
  set (cap := max_buffer_capacity_bytes st) in *.
  set (l := match blocks st with Some l => l | None => replicate (Z.to_nat (blocks_count st)) None end).
  assert (Hl : (match blocks st with
                | None => with_blocks st (Some (replicate (Z.to_nat (blocks_count st)) None))
                | Some _ => st end) = with_blocks st (Some l)).
  { subst l. destruct (blocks st) eqn:E; [|done]. rewrite <-E. by destruct st. }
  rewrite Hl. clear Hl.
  assert (Hwl : wf_blocks cap (Some l)).
  { subst l. destruct (blocks st) eqn:E; [done|]. by apply wf_allocated. }
  assert (Hbs0 : blocks st = Some l ∨ blocks st = None ∧ l = replicate (Z.to_nat (blocks_count st)) None).
  { subst l. destruct (blocks st); auto. }
  clearbody l. 
  pose proof (Z.mod_pos_bound off cap Hc) as Hpb.
  pose proof (position_bounds cap (off mod cap) Hpb) as (Hi&Hr&Hpi).
  assert (Hcount : blocks_count (with_blocks st (Some l)) <=? GetBlockIndex st off = false).
  { unfold blocks_count, GetBlockIndex. cbn. fold cap. lia. }
  change (with_blocks (with_blocks st (Some l)) ?bs) with (with_blocks st bs).
  rewrite Hcount. clear Hcount. cbn [with_blocks blocks total_bytes_read max_buffer_capacity_bytes].
  fold cap. change (GetBlockCapacity (with_blocks st (Some l))) with (GetBlockCapacity st).
  set (n := Z.min _ (zlen data)).
  assert (Hn : 0 < n <= zlen data ∧ off + n <= total_bytes_read st + cap
               ∧ GetInBlockOffset st off + n <= GetBlockCapacity st (GetBlockIndex st off)).
  { subst n. unfold GetInBlockOffset, GetBlockIndex. fold cap.
    rewrite GetBlockCapacity_min by done. fold cap. case_match; lia. }
  destruct Hn as (Hn&Hn2&Hn3).
  assert (Hz : zlen (take (Z.to_nat n) data) = n) by (unfold zlen in *; rewrite length_take; lia).
  pose proof (copy_round st l off (take (Z.to_nat n) data)) as HR. rewrite Hz in HR.
  specialize (HR Hc Hwl Hoff Hn2 Hn3 (piece_of_take _ _ _ Hp) _ Hbs0 eq_refl). cbv zeta in HR.
  set (st1 := with_blocks st _) in *.
  assert (Hwf1 : wf_blocks cap (blocks st1)) by apply HR.
  destruct (IH st1 (off + n) (drop (Z.to_nat n) data)) as (st2&E2&HC2).
  - done.
  - done.
  - cbn. lia.
  - cbn. fold cap. unfold zlen in *. rewrite length_drop. lia.
  - rewrite length_drop. lia.
  - apply piece_of_drop; [lia|done].
  - exists st2. split; [exact E2|]. eapply copied_ext; [|eapply copied_trans; [exact HR|exact HC2|]].
    + unfold zlen in *. rewrite length_drop. lia.
    + cbv beta. lia.
Qed.

(** The slow path stores exactly the newly received intervals. *)
Lemma copy_intervals_spec st starting data new acc :
  0 < max_buffer_capacity_bytes st → wf_blocks (max_buffer_capacity_bytes st) (blocks st) →
  piece_of starting data → 0 <= starting → IntervalSet.valid new →
  (∀ i, i ∈ new → total_bytes_read st <= imin i ∧ starting <= imin i
        ∧ imax i <= starting + zlen data
        ∧ imax i <= total_bytes_read st + max_buffer_capacity_bytes st) →
  ∃ st', copy_intervals st starting data new acc = (Some st', acc + IntervalSet.measure new)
    ∧ copied st st' (IntervalSet.den new).
Proof.
  revert st acc. induction new as [|i new IH]; intros st acc Hc Hwf Hp Hs Hv Hb; cbn [copy_intervals].
  { exists st. split; [unfold IntervalSet.measure; simpl; f_equal; lia|].
    eapply copied_ext; [|by apply copied_refl]. intros o. by rewrite IntervalSet.den_nil. }
  apply IntervalSet.valid_cons_elem in Hv as (Hi&Hv&Hg).
  destruct (Hb i ltac:(set_solver)) as (Hb1&Hb2&Hb3&Hb4).
  set (pc := take _ (drop _ data)).
  assert (Hz : zlen pc = imax i - imin i).
  { subst pc. unfold zlen in *. rewrite length_take, length_drop. lia. }
  assert (Hpc : piece_of (imin i) pc).
  { apply piece_of_take. replace (imin i) with (starting + (imin i - starting)) at 1 by lia.
    apply piece_of_drop; [lia|done]. }
  destruct (CopyStreamData_spec (length pc) st (imin i) pc) as (st1&E1&HC1); try done; try lia.
  rewrite E1. rewrite Hz in HC1. pose proof HC1 as (Est1&Hwf1&_).
  assert (Hcap1 : max_buffer_capacity_bytes st1 = max_buffer_capacity_bytes st) by by rewrite Est1.
  assert (Htot1 : total_bytes_read st1 = total_bytes_read st) by by rewrite Est1.
  destruct (IH st1 (acc + zlen pc)) as (st2&E2&HC2); rewrite ?Hcap1, ?Htot1; try done.
  { intros j Hj. apply Hb. set_solver. }
  exists st2. split.
  - rewrite E2, Hz. f_equal. unfold IntervalSet.measure. simpl. lia.
  - eapply copied_ext; [|eapply copied_trans; [exact HC1|exact HC2|]].
    + intros o. cbv beta. rewrite IntervalSet.den_cons. unfold Interval.den.
      replace (imin i + (imax i - imin i)) with (imax i) by lia. done.
    + intros o Ho (j&Hj&Hd)%IntervalSet.den_elem. specialize (Hg j Hj).
      unfold Interval.den in Hd. cbv beta in Ho. lia.
Qed.

(** ** The invariant *)

Ltac sb_simpl := cbn [max_buffer_capacity_bytes total_bytes_read blocks num_bytes_buffered
  bytes_received total_bytes_prefetched with_blocks with_received with_buffered with_prefetched
  advance] in *.

Record Inv (st : t) : Prop := {
  inv_cap : 0 < max_buffer_capacity_bytes st;
  inv_total : 0 <= total_bytes_read st;
  inv_valid : IntervalSet.valid (bytes_received st);
  inv_wf : wf_blocks (max_buffer_capacity_bytes st) (blocks st);
  inv_range z : IntervalSet.den (bytes_received st) z →
    0 <= z < total_bytes_read st + max_buffer_capacity_bytes st;
  inv_read z : 0 <= z < total_bytes_read st → IntervalSet.den (bytes_received st) z;
  inv_cells z : IntervalSet.den (bytes_received st) z → total_bytes_read st <= z →
    cell st z = Some (stream z);
  inv_buffered :
    num_bytes_buffered st = IntervalSet.measure (bytes_received st) - total_bytes_read st;
}.

Lemma zero_interval n :
  0 <= n →
  let s := IntervalSet.Add IntervalSet.Clear (Interval.mk 0 n) in
  IntervalSet.valid s ∧ (∀ z, IntervalSet.den s z ↔ 0 <= z < n) ∧ IntervalSet.measure s = n.
Proof.
  intros Hn. cbv zeta.
  destruct (IntervalSet.Add_lemma IntervalSet.Clear (Interval.mk 0 n)) as [Hv Hd].
  { apply IntervalSet.valid_nil. }
  assert (Hd' : ∀ z, IntervalSet.den (IntervalSet.Add IntervalSet.Clear (Interval.mk 0 n)) z ↔ 0 <= z < n).
  { intros z. rewrite Hd, IntervalSet.den_nil. unfold Interval.den. simpl. tauto. }
  split; [done|]. split; [done|]. destruct (Z.eq_dec n 0) as [->|Hn0]; [done|].
  rewrite (IntervalSet.valid_canonical _ [Interval.mk 0 n]); [|done| |].
  - unfold IntervalSet.measure. simpl. lia.
  - apply IntervalSet.valid_single. simpl. lia.
  - intros z. rewrite Hd', IntervalSet.den_cons, IntervalSet.den_nil. unfold Interval.den. simpl. tauto.
Qed.

Lemma Clear_inv st :
  0 < max_buffer_capacity_bytes st → 0 <= total_bytes_read st →
  wf_blocks (max_buffer_capacity_bytes st) (blocks st) → Inv (Clear st).
Proof.
  intros Hc Ht Hwf. destruct (zero_interval (total_bytes_read st) Ht) as (Hv&Hd&Hm).
  unfold Clear. split; sb_simpl; try done.
  - destruct (blocks st) as [l|]; [|done]. destruct Hwf as [Hl Hb]. split.
    + unfold zlen in *. by rewrite length_map.
    + intros b (x&?&?)%list_elem_of_fmap. done.
  - intros z Hz%Hd. lia.
  - intros z Hz. by apply Hd.
  - intros z Hz%Hd. lia.
  - rewrite Hm. lia.
Qed.

Lemma new_buffer_inv cap : 0 < cap → Inv (new_buffer cap).
Proof. intros. apply Clear_inv; sb_simpl; [done|lia|exact I]. Qed.

(** What has been received starts with all that has been read. *)
Lemma FirstMissing_spec st :
  Inv st →
  total_bytes_read st <= FirstMissingByte st <= total_bytes_read st + max_buffer_capacity_bytes st
  ∧ (∀ z, 0 <= z < FirstMissingByte st → IntervalSet.den (bytes_received st) z)
  ∧ ¬ IntervalSet.den (bytes_received st) (FirstMissingByte st)
  ∧ (0 < FirstMissingByte st → ∃ rest, bytes_received st = Interval.mk 0 (FirstMissingByte st) :: rest).
Proof.
  intros [Hc Ht Hv _ Hrg Hrd _ _]. unfold FirstMissingByte, IntervalSet.begin.
  destruct (bytes_received st) as [|f rest] eqn:E; cbn [head].
  { assert (total_bytes_read st = 0) as ->.
    { destruct (Z.eq_dec (total_bytes_read st) 0); [done|].
      exfalso. eapply IntervalSet.den_nil, (Hrd 0). lia. }
    split; [lia|]. split; [intros; lia|]. split; [by intros ?%IntervalSet.den_nil|intros; lia]. }
  pose proof Hv as (Hf&Hvr&Hg)%IntervalSet.valid_cons_elem.
  assert (Hf0 : 0 <= imin f).
  { apply (Hrg (imin f)). rewrite IntervalSet.den_cons. left. unfold Interval.den. lia. }
  assert (Hmiss : ∀ z, z < imin f ∨ z = imax f → ¬ IntervalSet.den (f :: rest) z).
  { intros z Hz. rewrite IntervalSet.den_cons. intros [Hd|(j&Hj&Hd)%IntervalSet.den_elem];
      unfold Interval.den in Hd; [lia|]. specialize (Hg j Hj). lia. }
  destruct (Z.ltb_spec 0 (imin f)).
  - assert (total_bytes_read st = 0) as ->.
    { destruct (Z.eq_dec (total_bytes_read st) 0); [done|].
      exfalso. apply (Hmiss 0); [lia|]. apply Hrd. lia. }
    split; [lia|]. split; [intros; lia|]. split; [apply Hmiss; lia|intros; lia].
  - assert (imin f = 0) by lia. assert (imax f <= total_bytes_read st + max_buffer_capacity_bytes st).
    { cut (imax f - 1 < total_bytes_read st + max_buffer_capacity_bytes st); [lia|].
      apply Hrg. rewrite IntervalSet.den_cons. left. unfold Interval.den. lia. }
    split; [split; [|done]|].
    + destruct (Z.le_gt_cases (total_bytes_read st) (imax f)); [done|].
      exfalso. apply (Hmiss (imax f)); [by right|]. apply Hrd. lia.
    + split; [intros z Hz; rewrite IntervalSet.den_cons; left; unfold Interval.den; lia|].
      split; [apply Hmiss; by right|]. intros _. exists rest. f_equal.
      destruct f; simpl in *. by subst.
Qed.

(** The largest received offset. *)
Lemma NextExpected_spec st z :
  IntervalSet.valid (bytes_received st) → IntervalSet.den (bytes_received st) z →
  IntervalSet.den (bytes_received st) (NextExpectedByte st - 1)
  ∧ z <= NextExpectedByte st - 1.
Proof.
  intros Hv Hz. unfold NextExpectedByte, IntervalSet.rbegin.
  destruct (list_snoc_cases (bytes_received st)) as [E|(pre&l&E)]; rewrite E in *.
  { by apply IntervalSet.den_nil in Hz. }
  rewrite last_app_singleton. pose proof Hv as (_&Hl&Hg)%IntervalSet.valid_app_elem.
  apply IntervalSet.valid_cons in Hl as (Hl&_&_). split.
  - rewrite IntervalSet.den_app, IntervalSet.den_cons. right. left. unfold Interval.den. lia.
  - apply IntervalSet.den_elem in Hz as (i&Hi&Hd). unfold Interval.den in Hd.
    apply elem_of_app in Hi as [Hi| ->%list_elem_of_singleton]; [|lia].
    specialize (Hg i l Hi ltac:(set_solver)). pose proof (IntervalSet.valid_nonempty (pre ++ [l]) i Hv ltac:(set_solver)). lia.
Qed.

(** Retiring a block that holds no unread byte keeps the invariant. *)
Lemma RetireBlock_inv st idx :
  Inv st → is_Some (block_at (blocks st) idx) → 0 <= idx →
  (∀ z, IntervalSet.den (bytes_received st) z → total_bytes_read st <= z →
        GetBlockIndex st z ≠ idx) →
  ∃ st', RetireBlock st idx = (st', true) ∧ st' = with_blocks st (blocks st') ∧ Inv st'.
Proof.
  intros HI [b Hb] Hidx Hno. unfold RetireBlock. rewrite Hb.
  eexists. split; [done|]. split; [done|]. destruct HI. 
  assert (exists l, blocks st = Some l) as [l El].
  { unfold block_at in Hb. destruct (blocks st); [eauto|done]. }
  split; sb_simpl; try done; rewrite El in *.
  - by apply wf_set_block.
  - intros z Hz Hle. rewrite <-inv_cells0 by done. specialize (Hno z Hz Hle).
    unfold cell, cellp. sb_simpl. rewrite El. unfold GetBlockIndex in Hno.
    pose proof (Z.mod_pos_bound z _ inv_cap0) as Hp.
    pose proof (position_bounds _ _ Hp) as (Hi&_&_).
    rewrite set_block_at; [|split; [done|]|lia].
    + by destruct (Z.eqb_spec (z mod max_buffer_capacity_bytes st / kBlockSizeBytes) idx).
    + unfold block_at in Hb. destruct (l !! Z.to_nat idx) eqn:E; [|done].
      apply lookup_lt_Some in E. unfold zlen. lia.
Qed.

(** The block index of an offset up to one capacity after the last read byte. *)
Lemma index_after st d :
  0 < max_buffer_capacity_bytes st → 0 <= d <= max_buffer_capacity_bytes st →
  let cap := max_buffer_capacity_bytes st in
  let p0 := (total_bytes_read st - 1) mod cap in
  0 <= p0 < cap ∧
  GetBlockIndex st (total_bytes_read st - 1 + d)
  = (if p0 + d <? cap then p0 + d else p0 + d - cap) / kBlockSizeBytes ∧
  GetInBlockOffset st (total_bytes_read st - 1 + d)
  = (if p0 + d <? cap then p0 + d else p0 + d - cap) mod kBlockSizeBytes.
Proof.
  intros Hc Hd cap p0. unfold GetBlockIndex, GetInBlockOffset. rewrite mod_step by done.
  split; [by apply Z.mod_pos_bound|done].
Qed.

(** If the index of the last read byte holds an unread received byte, the checks
    of [RetireBlockIfEmpty] notice it. *)
Lemma unread_in_block st z :
  Inv st → 0 < total_bytes_read st →
  IntervalSet.den (bytes_received st) z → total_bytes_read st <= z →
  GetBlockIndex st z = GetBlockIndex st (total_bytes_read st - 1) →
  GetBlockIndex st (NextExpectedByte st - 1) = GetBlockIndex st (total_bytes_read st - 1)
  ∨ (GetInBlockOffset st (total_bytes_read st) ≠ 0
     ∧ ∀ y, total_bytes_read st <= y <= z →
       GetBlockIndex st y = GetBlockIndex st (total_bytes_read st - 1)).
Proof.
  intros HI Ht Hz Hle Hidx.
  destruct (NextExpected_spec st z (inv_valid st HI) Hz) as [Hmax Hzm].
  pose proof (inv_range st HI _ Hz). pose proof (inv_range st HI _ Hmax).
  pose proof (inv_cap st HI) as Hc.
  set (T := total_bytes_read st - 1) in *. set (cap := max_buffer_capacity_bytes st) in *.
  destruct (index_after st 0) as (Hp0&E0&_); [lia|lia|].
  destruct (index_after st 1) as (_&_&E1); [lia|lia|].
  destruct (index_after st (z - T)) as (_&Ez&_); [lia|unfold T; lia|].
  destruct (index_after st (NextExpectedByte st - 1 - T)) as (_&Em&_); [lia|unfold T; lia|].
  fold T cap in Hp0, E0, E1, Ez, Em. set (p0 := T mod cap) in *.
  replace (T + 0) with T in E0 by lia. replace (T + 1) with (total_bytes_read st) in E1 by (unfold T; lia).
  replace (T + (z - T)) with z in Ez by lia.
  replace (T + (NextExpectedByte st - 1 - T)) with (NextExpectedByte st - 1) in Em by lia.
  rewrite E0, Ez in Hidx. rewrite E0, Em, E1. clear E0 Em E1 Ez.
  assert (Hy : ∀ y, total_bytes_read st <= y <= z → GetBlockIndex st y =
    (if p0 + (y - T) <? cap then p0 + (y - T) else p0 + (y - T) - cap) / kBlockSizeBytes).
  { intros y Hy. destruct (index_after st (y - T)) as (_&Ey&_); [lia|unfold T; lia|].
    fold T cap p0 in Ey. by replace (T + (y - T)) with y in Ey by lia. }
  destruct (Z.ltb_spec (p0 + (z - T)) cap) as [Hnw|Hw].
  - right. split.
    + unfold kBlockSizeBytes in *. repeat case_match; Z.to_euclidean_division_equations; lia.
    + intros y Hyz. rewrite (Hy y Hyz). clear Hy.
      unfold kBlockSizeBytes in *. repeat case_match; Z.to_euclidean_division_equations; lia.
  - left. clear Hy. unfold kBlockSizeBytes in *. repeat case_match; Z.to_euclidean_division_equations; lia.
Qed.

Lemma RetireBlockIfEmpty_spec st idx :
  Inv st → 0 < total_bytes_read st → idx = GetBlockIndex st (total_bytes_read st - 1) →
  is_Some (block_at (blocks st) idx) →
  ReadableBytes st = 0 ∨ GetInBlockOffset st (total_bytes_read st) = 0 →
  ∃ st', RetireBlockIfEmpty st idx = (st', true) ∧ st' = with_blocks st (blocks st') ∧ Inv st'.
Proof.
  intros HI Ht -> Hb Hstop. unfold RetireBlockIfEmpty.
  set (idx := GetBlockIndex st (total_bytes_read st - 1)) in *.
  assert (Hidx : 0 <= idx).
  { pose proof (Z.mod_pos_bound (total_bytes_read st - 1) _ (inv_cap st HI)) as Hp.
    by pose proof (position_bounds _ _ Hp) as ([? _]&_&_). }
  destruct (FirstMissing_spec st HI) as (HFM&_&HFMn&Hbeg).
  destruct Hbeg as [rest Erec]; [lia|].
  assert (Hkeep : ∃ st' : t, (st, true) = (st', true) ∧ st' = with_blocks st (blocks st') ∧ Inv st').
  { exists st. split; [done|]. split; [by destruct st|done]. }
  destruct (Empty st) eqn:Ee.
  { apply RetireBlock_inv; try done. intros z Hz Hle. exfalso.
    unfold Empty in Ee. rewrite Erec in Ee, Hz. destruct rest; [|done].
    rewrite IntervalSet.den_cons, IntervalSet.den_nil in Hz. unfold Interval.den in Hz.
    simpl in *. lia. }
  destruct (Z.eqb_spec (GetBlockIndex st (NextExpectedByte st - 1)) idx) as [En|En]; [done|].
  assert (Hunread : ∀ z, IntervalSet.den (bytes_received st) z → total_bytes_read st <= z →
    GetBlockIndex st z = idx →
    GetInBlockOffset st (total_bytes_read st) ≠ 0
     ∧ ∀ y, total_bytes_read st <= y <= z → GetBlockIndex st y = idx).
  { intros z Hz Hle Hzi. by destruct (unread_in_block st z HI Ht Hz Hle Hzi). }
  assert (Hgap : ∀ z, IntervalSet.den (bytes_received st) z → total_bytes_read st <= z →
    GetBlockIndex st z = idx → FirstMissingByte st = total_bytes_read st).
  { intros z Hz Hle Hzi. destruct (Hunread z Hz Hle Hzi) as [Hoff _].
    unfold ReadableBytes in Hstop. lia. }
  unfold NextBlockToRead. destruct (Z.eqb_spec (GetBlockIndex st (total_bytes_read st)) idx) as [Er|Er].
  - rewrite Erec. destruct rest as [|i rest].
    + exfalso. unfold Empty in Ee. rewrite Erec in Ee. cbn [Interval.max] in Ee.
      assert (FirstMissingByte st = total_bytes_read st); [|lia].
      apply (Hgap (total_bytes_read st)); [|lia|done].
      rewrite Erec, IntervalSet.den_cons. left. unfold Interval.den. simpl. lia.
    + destruct (Z.eqb_spec (GetBlockIndex st (imin i)) idx) as [Ei|Ei]; [done|].
      apply RetireBlock_inv; try done. intros z Hz Hle Hzi. apply Ei.
      destruct (Hunread z Hz Hle Hzi) as [_ Hy]. apply Hy.
      pose proof (inv_valid st HI) as Hv. rewrite Erec in Hv, Hz.
      apply IntervalSet.valid_cons_elem in Hv as (_&Hv&Hg). simpl in Hg.
      pose proof (Hg i ltac:(set_solver)).
      rewrite IntervalSet.den_cons in Hz. destruct Hz as [Hz|Hz].
      { unfold Interval.den in Hz. simpl in Hz. rewrite (Hgap z) in Hz; [lia| |done..].
        rewrite Erec, IntervalSet.den_cons. by left. }
      split; [lia|]. apply IntervalSet.den_elem in Hz as (j&Hj&Hd).
      pose proof (IntervalSet.valid_starts _ _ _ Hv Hj). unfold Interval.den in Hd. lia.
  - apply RetireBlock_inv; try done. intros z Hz Hle Hzi. apply Er.
    destruct (Hunread z Hz Hle Hzi) as [_ Hy]. apply Hy. lia.
Qed.

(** ** Reading *)

Abbreviation slice := (slice stream).

(** A run of received offsets inside one block reads as the stream. *)
Lemma read_run st off n :
  Inv st → total_bytes_read st <= off → 0 < n →
  GetInBlockOffset st off + n <= GetBlockCapacity st (GetBlockIndex st off) →
  (∀ z, off <= z < off + n → IntervalSet.den (bytes_received st) z) →
  ∃ b, block_at (blocks st) (GetBlockIndex st off) = Some b
    ∧ 0 <= GetInBlockOffset st off ∧ GetInBlockOffset st off + n <= zlen b
    ∧ read_block b (GetInBlockOffset st off) n = slice off n.
Proof.
  intros HI Hoff Hn Hroom Hrec. pose proof (inv_cap st HI) as Hc.
  set (cap := max_buffer_capacity_bytes st) in *.
  pose proof (Z.mod_pos_bound off cap Hc) as Hp.
  pose proof (position_bounds cap (off mod cap) Hp) as (Hi&Hr&Hpi).
  unfold GetInBlockOffset, GetBlockIndex in *. fold cap in Hroom |- *.
  rewrite GetBlockCapacity_min in Hroom by done. fold cap in Hroom.
  set (r := (off mod cap) mod kBlockSizeBytes) in *.
  set (idx := off mod cap / kBlockSizeBytes) in *.
  assert (Hcell : ∀ z, off <= z < off + n → cell st z = Some (stream z)).
  { intros z Hz. apply (inv_cells st HI); [by apply Hrec|lia]. }
  assert (∃ b, block_at (blocks st) idx = Some b) as [b Eb].
  { specialize (Hcell off ltac:(lia)). unfold cell, cellp in Hcell. fold cap idx in Hcell.
    destruct (block_at (blocks st) idx); [eauto|done]. }
  pose proof (wf_block_at _ _ _ _ (inv_wf st HI) Eb) as Hzb.
  exists b. split; [done|]. split; [lia|]. split; [lia|].
  assert (Hlen : zlen (read_block b r n) = n) by (apply read_block_length; lia).
  apply list_eq_Z; [by rewrite Hlen, slice_length by lia|].
  intros i Hib. rewrite Hlen in Hib. rewrite read_block_lookup by lia. rewrite slice_lookup by lia.
  rewrite <-Hcell by lia. unfold cell, cellp. fold cap.
  assert (Hpos : (off + i) mod cap = off mod cap + i).
  { rewrite mod_step by lia. fold cap. case_match; lia. }
  rewrite Hpos.
  assert (Hq : (off mod cap + i) / kBlockSizeBytes = idx ∧ (off mod cap + i) mod kBlockSizeBytes = r + i).
  { unfold kBlockSizeBytes in *. Z.to_euclidean_division_equations. lia. }
  destruct Hq as [-> ->]. by rewrite Eb.
Qed.

(** Where a run that ends inside or at the end of its block leaves the offset. *)
Lemma run_end st off n :
  0 < max_buffer_capacity_bytes st → 0 < n →
  GetInBlockOffset st off + n <= GetBlockCapacity st (GetBlockIndex st off) →
  GetBlockIndex st (off + n - 1) = GetBlockIndex st off
  ∧ (GetInBlockOffset st off + n = GetBlockCapacity st (GetBlockIndex st off) →
     GetInBlockOffset st (off + n) = 0).
Proof.
  intros Hc Hn Hroom. set (cap := max_buffer_capacity_bytes st) in *.
  pose proof (Z.mod_pos_bound off cap Hc) as Hp.
  pose proof (position_bounds cap (off mod cap) Hp) as (Hi&Hr&Hpi).
  unfold GetInBlockOffset, GetBlockIndex in *. fold cap in Hroom |- *.
  rewrite GetBlockCapacity_min in * by done. fold cap in Hroom |- *.
  replace (off + n - 1) with (off + (n - 1)) by lia.
  rewrite !mod_step by lia. set (p := off mod cap) in *. clearbody p cap.
  unfold kBlockSizeBytes in *. split.
  - case_match; Z.to_euclidean_division_equations; lia.
  - intros Hend. case_match; Z.to_euclidean_division_equations; lia.
Qed.

(** One round of the read loops: [n] bytes of the current block, then the block is
    retired when nothing more of it is readable. *)
Lemma consume_round st want :
  Inv st → 0 < want → 0 < ReadableBytes st →
  let idx := NextBlockToRead st in
  let avail := Z.min (ReadableBytes st) (GetBlockCapacity st idx - ReadOffset st) in
  let n := Z.min avail want in
  0 < n <= want ∧ n <= ReadableBytes st ∧
  ∃ b st', block_at (blocks st) idx = Some b
    ∧ read_block b (ReadOffset st) n = slice (total_bytes_read st) n
    ∧ (if n =? avail then RetireBlockIfEmpty (advance st n) idx else (advance st n, true)) = (st', true)
    ∧ Inv st' ∧ st' = with_blocks (advance st n) (blocks st').
Proof.
  intros HI Hw Hr idx avail n. pose proof (inv_cap st HI) as Hc.
  pose proof (Z.mod_pos_bound (total_bytes_read st) _ Hc) as Hp.
  pose proof (position_bounds _ _ Hp) as (Hi&Hro&Hpi).
  assert (Hcapy : 0 < GetBlockCapacity st idx - ReadOffset st).
  { unfold idx, NextBlockToRead, ReadOffset, GetBlockIndex, GetInBlockOffset.
    rewrite GetBlockCapacity_min by done. lia. }
  destruct (FirstMissing_spec st HI) as (HFM&HFMd&_&_).
  assert (Hn : 0 < n <= want ∧ n <= ReadableBytes st ∧ n <= avail) by (unfold n, avail; lia).
  split; [lia|]. split; [lia|].
  destruct (read_run st (total_bytes_read st) n) as (b&Eb&Hb0&Hb1&Hread); try done; try lia.
  { unfold NextBlockToRead, ReadOffset in *. fold idx. unfold avail in *. lia. }
  { intros z Hz. apply HFMd. pose proof (inv_total st HI). unfold ReadableBytes in Hn. lia. }
  exists b. fold (NextBlockToRead st) idx (ReadOffset st) in Eb, Hread, Hb0, Hb1.
  assert (HIa : Inv (advance st n)).
  { destruct HI. unfold ReadableBytes in *. split; sb_simpl; try done; try lia.
    - intros z Hz. specialize (inv_range0 z Hz). lia.
    - intros z Hz. apply HFMd. lia.
    - intros z Hz Hle. apply inv_cells0; [done|lia]. }
  assert (Hroom : GetInBlockOffset st (total_bytes_read st) + n
                  <= GetBlockCapacity st (GetBlockIndex st (total_bytes_read st))).
  { unfold avail, idx, NextBlockToRead, ReadOffset in *. lia. }
  pose proof (run_end st (total_bytes_read st) n Hc ltac:(lia) Hroom) as Hend.
  destruct (Z.eqb_spec n avail) as [En|En].
  - destruct (RetireBlockIfEmpty_spec (advance st n) idx) as (st'&E&Est&HI'); try done.
    + sb_simpl. pose proof (inv_total st HI). lia.
    + exact (eq_sym (proj1 Hend)).
    + sb_simpl. unfold avail in *. unfold ReadableBytes, FirstMissingByte in *. sb_simpl.
      destruct (Z.le_gt_cases (FirstMissingByte st - total_bytes_read st) n).
      * left. unfold FirstMissingByte in *. lia.
      * right. apply (proj2 Hend). unfold FirstMissingByte in *.
        unfold idx, NextBlockToRead, ReadOffset in *. lia.
    + exists st'. done.
  - exists (advance st n). split; [done|]. split; [done|]. split; [done|]. split; [done|]. by destruct st.
Qed.

(** Reading or consuming moves the read offset and nothing else the client sees. *)
Definition consumed (st st' : t) (n : Z) : Prop :=
  Inv st' ∧ total_bytes_read st' = total_bytes_read st + n
  ∧ bytes_received st' = bytes_received st
  ∧ max_buffer_capacity_bytes st' = max_buffer_capacity_bytes st.

Lemma consumed_readable st st' n :
  consumed st st' n → ReadableBytes st' = ReadableBytes st - n.
Proof.
  intros (_&Ht&Hr&_). unfold ReadableBytes, FirstMissingByte. rewrite Hr, Ht. lia.
Qed.

Lemma consumed_trans st st1 st2 n m :
  consumed st st1 n → consumed st1 st2 m → consumed st st2 (n + m).
Proof. intros (?&?&?&?) (?&?&?&?). split_and!; try done; try congruence. lia. Qed.

Lemma consumed_round st st' n :
  Inv st' → st' = with_blocks (advance st n) (blocks st') → consumed st st' n.
Proof. intros HI E. rewrite E in *. split; [done|]. sb_simpl. done. Qed.

Lemma readable_nonneg st : Inv st → 0 <= ReadableBytes st.
Proof. intros HI. destruct (FirstMissing_spec st HI) as (?&_). unfold ReadableBytes. lia. Qed.

Lemma Readv_one_spec fuel st len out :
  Inv st → len <= Z.of_nat fuel →
  let n := Z.max 0 (Z.min len (ReadableBytes st)) in
  ∃ st', Readv_one fuel st len out = (st', out ++ slice (total_bytes_read st) n, true)
    ∧ consumed st st' n.
Proof.
  revert st len out. induction fuel as [|fuel IH]; intros st len out HI Hf n;
    pose proof (readable_nonneg st HI) as Hr0; cbn [Readv_one].
  { assert (n = 0) as -> by lia. exists st. rewrite slice_0, app_nil_r.
    split; [done|]. split_and!; try done. lia. }
  destruct ((len <=? 0) || (ReadableBytes st <=? 0)) eqn:E.
  { assert (n = 0) as -> by lia. exists st. rewrite slice_0, app_nil_r.
    split; [done|]. split_and!; try done. lia. }
  destruct (consume_round st len HI) as (Hn1&Hn2&b&st1&Eb&Hread&Eret&HI1&Est1); [lia|lia|].
  set (n1 := Z.min (Z.min (ReadableBytes st) _) len) in *.
  rewrite Eb, Eret, Hread. clear Eb Eret Hread.
  pose proof (consumed_round _ _ _ HI1 Est1) as Hc1.
  pose proof (consumed_readable _ _ _ Hc1) as Hr1. clear Est1.
  destruct (IH st1 (len - n1) (out ++ slice (total_bytes_read st) n1)) as (st2&E2&Hc2); [done|lia|].
  exists st2. rewrite E2. pose proof Hc1 as (_&Ht1&_&_).
  assert (En : n1 + Z.max 0 (Z.min (len - n1) (ReadableBytes st1)) = n) by (unfold n; lia).
  split.
  - rewrite Ht1, <-app_assoc, slice_split by lia. by rewrite En.
  - rewrite <-En. by eapply consumed_trans.
Qed.

(** [total iov] bytes at most are read. *)
Definition iov_total (dest_iov : list Z) : Z := foldr (λ len acc, Z.max 0 len + acc) 0 dest_iov.

Lemma iov_total_nonneg dest_iov : 0 <= iov_total dest_iov.
Proof. induction dest_iov; simpl; lia. Qed.

Lemma Readv_all_spec st dest_iov out :
  Inv st →
  let n := Z.min (iov_total dest_iov) (ReadableBytes st) in
  ∃ st', Readv_all st dest_iov out = (st', out ++ slice (total_bytes_read st) n, true)
    ∧ consumed st st' n.
Proof.
  revert st out. induction dest_iov as [|len dest_iov IH]; intros st out HI n;
    pose proof (readable_nonneg st HI) as Hr0; cbn [Readv_all].
  { assert (n = 0) as -> by (unfold n; simpl; lia). exists st. rewrite slice_0, app_nil_r.
    split; [done|]. split_and!; try done. lia. }
  pose proof (iov_total_nonneg dest_iov) as Hi.
  destruct (Z.leb_spec (ReadableBytes st) 0).
  { assert (n = 0) as -> by (unfold n; simpl; lia). exists st. rewrite slice_0, app_nil_r.
    split; [done|]. split_and!; try done. lia. }
  destruct (Readv_one_spec (Z.to_nat len) st len out HI) as (st1&E1&Hc1); [lia|].
  rewrite E1. pose proof (consumed_readable _ _ _ Hc1) as Hr1.
  set (n1 := Z.max 0 (Z.min len (ReadableBytes st))) in *.
  destruct (IH st1 (out ++ slice (total_bytes_read st) n1)) as (st2&E2&Hc2); [by destruct Hc1|].
  exists st2. rewrite E2. pose proof Hc1 as (_&Ht1&_&_).
  assert (En : n1 + Z.min (iov_total dest_iov) (ReadableBytes st1) = n) by (unfold n, n1 in *; simpl; lia).
  split.
  - rewrite Ht1, <-app_assoc, slice_split by (unfold n1; lia). by rewrite En.
  - rewrite <-En. by eapply consumed_trans.
Qed.

Lemma MarkConsumed_loop_spec fuel st n :
  Inv st → 0 <= n <= ReadableBytes st → n <= Z.of_nat fuel →
  consumed st (MarkConsumed_loop fuel st n) n.
Proof.
  revert st n. induction fuel as [|fuel IH]; intros st n HI Hn Hf; cbn [MarkConsumed_loop].
  { assert (n = 0) as -> by lia. split_and!; try done. lia. }
  destruct (Z.leb_spec n 0).
  { assert (n = 0) as -> by lia. split_and!; try done. lia. }
  destruct (consume_round st n HI) as (Hn1&Hn2&b&st1&_&_&Eret&HI1&Est1); [lia|lia|].
  rewrite (Z.min_comm n). set (avail := Z.min (ReadableBytes st) _) in *.
  set (n1 := Z.min avail n) in *. rewrite (Z.eqb_sym avail).
  assert (Est : (if n1 =? avail then fst (RetireBlockIfEmpty (advance st n1) (NextBlockToRead st))
                 else advance st n1) = st1).
  { case_match; [by rewrite Eret|]. by injection Eret. }
  rewrite Est. pose proof (consumed_round _ _ _ HI1 Est1) as Hc1.
  pose proof (consumed_readable _ _ _ Hc1) as Hr1.
  pose proof (IH st1 (n - n1) HI1 ltac:(lia) ltac:(lia)) as Hc2.
  replace n with (n1 + (n - n1)) at 2 by lia. by eapply consumed_trans.
Qed.

(** ** Receiving *)

(** Storing newly received intervals and recording them keeps the invariant. *)
Lemma commit_inv st r new st2 :
  Inv st → IntervalSet.valid r → IntervalSet.valid new →
  (∀ z, IntervalSet.den r z ↔ IntervalSet.den (bytes_received st) z ∨ IntervalSet.den new z) →
  (∀ z, IntervalSet.den (bytes_received st) z → ¬ IntervalSet.den new z) →
  (∀ z, IntervalSet.den new z → 0 <= z < total_bytes_read st + max_buffer_capacity_bytes st) →
  copied (with_received st r) st2 (IntervalSet.den new) →
  Inv (with_buffered st2 (num_bytes_buffered st2 + IntervalSet.measure new))
  ∧ bytes_received st2 = r ∧ total_bytes_read st2 = total_bytes_read st
  ∧ max_buffer_capacity_bytes st2 = max_buffer_capacity_bytes st.
Proof.
  intros HI Hvr Hvn Hd Hdis Hrg (E&Hwf&Hcells).
  assert (Hr : bytes_received st2 = r) by by rewrite E.
  assert (Ht : total_bytes_read st2 = total_bytes_read st) by by rewrite E.
  assert (Hcap : max_buffer_capacity_bytes st2 = max_buffer_capacity_bytes st) by by rewrite E.
  assert (Hn : num_bytes_buffered st2 = num_bytes_buffered st) by by rewrite E.
  clear E. sb_simpl. split; [|done].
  destruct HI. split; sb_simpl; rewrite ?Hr, ?Ht, ?Hcap, ?Hn; try done.
  - intros z [Hz|Hz]%Hd; auto.
  - intros z Hz. apply Hd. auto.
  - intros z Hz Hle. assert (Hw : total_bytes_read st <= z < total_bytes_read st + max_buffer_capacity_bytes st).
    { apply Hd in Hz as [Hz|Hz]; [specialize (inv_range0 z Hz)|specialize (Hrg z Hz)]; lia. }
    destruct (Hcells z Hw) as [Ha Hb]. change (cell st2 z = Some (stream z)).
    apply Hd in Hz as [Hz|Hz]; [|by apply Ha]. apply Hb; [by apply Hdis|].
    by apply inv_cells0.
  - rewrite (IntervalSet.measure_add (bytes_received st) new r) by done. lia.
Qed.

(** What [OnStreamData] has done when it accepts a frame. *)
Definition accepted (st st' : t) (off size n : Z) : Prop :=
  Inv st' ∧ total_bytes_read st' = total_bytes_read st
  ∧ max_buffer_capacity_bytes st' = max_buffer_capacity_bytes st
  ∧ (∀ z, IntervalSet.den (bytes_received st') z ↔
      IntervalSet.den (bytes_received st) z ∨ off <= z < off + size)
  ∧ num_bytes_buffered st' = num_bytes_buffered st + n.

Lemma with_buffered_same st : with_buffered st (num_bytes_buffered st + 0) = st.
Proof. destruct st. unfold with_buffered. simpl. f_equal. lia. Qed.

(** A frame that shares nothing with what was received. *)
Lemma fast_path st off data :
  Inv st → piece_of off data → 0 <= off → 0 < zlen data →
  off + zlen data <= total_bytes_read st + max_buffer_capacity_bytes st →
  (∀ z, IntervalSet.den (bytes_received st) z → ¬ off <= z < off + zlen data) →
  let frame := Interval.mk off (off + zlen data) in
  let st1 := with_received st (IntervalSet.AddOptimizedForAppend (bytes_received st) frame) in
  ∃ st2, CopyStreamData (length data) st1 off data = Some st2
    ∧ accepted st (with_buffered st2 (num_bytes_buffered st2 + zlen data)) off (zlen data) (zlen data).
Proof.
  intros HI Hp Ho Hl Hend Hdis frame st1. pose proof HI as [Hc Ht Hv Hwf Hrg Hrd _ _].
  assert (Hoff : total_bytes_read st <= off).
  { destruct (Z.le_gt_cases (total_bytes_read st) off); [done|]. exfalso.
    apply (Hdis off); [apply Hrd; lia|lia]. }
  assert (HA : IntervalSet.AddOptimizedForAppend (bytes_received st) frame
               = IntervalSet.Add (bytes_received st) frame).
  { apply IntervalSet.AddOptimizedForAppend_lemma; [done|]. simpl. lia. }
  destruct (IntervalSet.Add_lemma (bytes_received st) frame Hv) as [HvA HdA].
  assert (Hfr : ∀ z, IntervalSet.den [frame] z ↔ off <= z < off + zlen data).
  { intros z. rewrite IntervalSet.den_cons, IntervalSet.den_nil. unfold Interval.den. simpl. tauto. }
  destruct (CopyStreamData_spec (length data) st1 off data) as (st2&E&HC); try done.
  exists st2. split; [exact E|].
  assert (HvF : IntervalSet.valid [frame]) by (apply IntervalSet.valid_single; simpl; lia).
  assert (Hm : IntervalSet.measure [frame] = zlen data) by (unfold IntervalSet.measure; simpl; lia).
  unfold st1 in HC. rewrite HA in HC.
  destruct (commit_inv st (IntervalSet.Add (bytes_received st) frame) [frame] st2)
    as (HI2&Hr2&Ht2&Hc2); try done.
  - intros z. rewrite HdA, Hfr. done.
  - intros z Hz Hz2%Hfr. by apply (Hdis z).
  - intros z Hz%Hfr. lia.
  - eapply copied_ext; [|exact HC]. intros z. by rewrite Hfr.
  - rewrite Hm in HI2. split; [done|]. sb_simpl. split; [done|]. split; [done|]. split.
    + intros z. rewrite Hr2, HdA. done.
    + destruct HC as (->&_). done.
Qed.

(** A frame that overlaps: only what is new is stored. *)
Lemma slow_path st off data new :
  Inv st → piece_of off data → 0 <= off → 0 < zlen data →
  off + zlen data <= total_bytes_read st + max_buffer_capacity_bytes st →
  let frame := Interval.mk off (off + zlen data) in
  IntervalSet.valid new →
  (∀ z, IntervalSet.den new z ↔
     off <= z < off + zlen data ∧ ¬ IntervalSet.den (bytes_received st) z) →
  let st1 := with_received st (IntervalSet.Add (bytes_received st) frame) in
  ∃ st2 n, copy_intervals st1 off data new 0 = (Some st2, n)
    ∧ accepted st (with_buffered st2 (num_bytes_buffered st2 + n)) off (zlen data) n.
Proof.
  intros HI Hp Ho Hl Hend frame Hvn Hdn st1. pose proof HI as [Hc Ht Hv Hwf Hrg Hrd _ _].
  destruct (IntervalSet.Add_lemma (bytes_received st) frame Hv) as [HvA HdA].
  destruct (copy_intervals_spec st1 off data new 0) as (st2&E&HC); try done.
  { intros i Hi. pose proof (IntervalSet.valid_nonempty _ _ Hvn Hi).
    assert (H1 : IntervalSet.den new (imin i)).
    { apply IntervalSet.den_elem. exists i. split; [done|]. unfold Interval.den. lia. }
    assert (H2 : IntervalSet.den new (imax i - 1)).
    { apply IntervalSet.den_elem. exists i. split; [done|]. unfold Interval.den. lia. }
    apply Hdn in H1 as [H1 H1n]. apply Hdn in H2 as [H2 _]. unfold st1. sb_simpl.
    assert (¬ imin i < total_bytes_read st); [|lia].
    intros Hlt. apply H1n, Hrd. lia. }
  exists st2, (IntervalSet.measure new). split; [rewrite E; f_equal|].
  destruct (commit_inv st (IntervalSet.Add (bytes_received st) frame) new st2)
    as (HI2&Hr2&Ht2&Hc2); try done.
  - intros z. rewrite HdA, Hdn. unfold Interval.den. simpl.
    pose proof (IntervalSet.Contains_lemma (bytes_received st) z Hv) as Hcl.
    destruct (IntervalSet.Contains (bytes_received st) z).
    + assert (IntervalSet.den (bytes_received st) z) by by apply Hcl. tauto.
    + assert (¬ IntervalSet.den (bytes_received st) z) by (rewrite <-Hcl; done). tauto.
  - intros z Hz Hz2%Hdn. tauto.
  - intros z [Hz _]%Hdn. lia.
  - split; [done|]. sb_simpl. split; [done|]. split; [done|]. split.
    + intros z. rewrite Hr2, HdA. done.
    + destruct HC as (->&_). done.
Qed.

(** Nothing new: the frame was received already. *)
Lemma accepted_nothing st off size :
  Inv st → (∀ z, off <= z < off + size → IntervalSet.den (bytes_received st) z) →
  accepted st st off size 0.
Proof. intros HI H. split; [done|]. split; [done|]. split; [done|]. split; [|lia]. naive_solver. Qed.

(** [OnStreamData] on every branch. *)
Lemma OnStreamData_spec st off data :
  Inv st → piece_of off data → is_u64 off → zlen data < two64 →
  total_bytes_read st + max_buffer_capacity_bytes st < two64 →
  let '(code, st', n) := OnStreamData st off data in
  if zlen data =? 0 then code = QUIC_EMPTY_STREAM_FRAME_NO_FIN ∧ st' = st ∧ n = 0 else
  if total_bytes_read st + max_buffer_capacity_bytes st <? off + zlen data
  then code = QUIC_INTERNAL_ERROR ∧ st' = st ∧ n = 0 else
  (code = QUIC_NO_ERROR ∧ accepted st st' off (zlen data) n)
  ∨ (code = QUIC_TOO_MANY_STREAM_DATA_INTERVALS ∧ n = 0
     ∧ kMaxNumDataIntervalsAllowed
       <= IntervalSet.Size (IntervalSet.Add (bytes_received st) (Interval.mk off (off + zlen data)))).
Proof.
  intros HI Hp Ho Hl Hcap. pose proof (zlen_nonneg data) as Hl0.
  pose proof HI as [Hc Ht Hv Hwf Hrg Hrd _ _].
  unfold OnStreamData. destruct (Z.eqb_spec (zlen data) 0); [done|].
  assert (Hw1 : wrap64 (total_bytes_read st + max_buffer_capacity_bytes st)
                = total_bytes_read st + max_buffer_capacity_bytes st).
  { unfold wrap64. apply Z.mod_small. lia. }
  rewrite Hw1. destruct (Z.ltb_spec (total_bytes_read st + max_buffer_capacity_bytes st) (off + zlen data)).
  { assert (Hbad : (total_bytes_read st + max_buffer_capacity_bytes st <? wrap64 (off + zlen data))
            || (wrap64 (off + zlen data) <? off) = true); [|by rewrite Hbad].
    unfold wrap64. destruct (Z.lt_ge_cases (off + zlen data) two64).
    - rewrite Z.mod_small by lia. lia.
    - replace (off + zlen data) with (off + zlen data - two64 + 1 * two64) by lia.
      rewrite Z.mod_add by done. rewrite Z.mod_small by (unfold two64 in *; lia). lia. }
  assert (Hw2 : wrap64 (off + zlen data) = off + zlen data) by (apply Z.mod_small; lia).
  rewrite Hw2. replace ((_ <? _) || (_ <? _)) with false by lia.
  set (frame := Interval.mk off (off + zlen data)).
  assert (HA : IntervalSet.AddOptimizedForAppend (bytes_received st) frame
               = IntervalSet.Add (bytes_received st) frame).
  { apply IntervalSet.AddOptimizedForAppend_lemma; [done|]. simpl. lia. }
  assert (Hsame : ∀ r, total_bytes_read (with_received st r) = total_bytes_read st) by done.
  destruct (match IntervalSet.rbegin (bytes_received st) with Some l => _ | None => true end) eqn:Efast.
  - pose proof (IntervalSet.disjoint_test _ off (off + zlen data) Hv ltac:(lia) Efast) as Hdis.
    sb_simpl. rewrite HA. destruct (Z.leb_spec kMaxNumDataIntervalsAllowed
      (IntervalSet.Size (IntervalSet.Add (bytes_received st) frame))); [by right|].
    destruct (fast_path st off data HI Hp) as (st2&E2&Hacc); try done; [lia..|].
    fold frame in E2. rewrite HA in E2. rewrite E2. by left.
  - clear Efast. destruct (IntervalSet.of_interval_lemma frame) as [Hvf Hdf].
    destruct (IntervalSet.DifferenceS_lemma (IntervalSet.of_interval frame) (bytes_received st))
      as (new&En&Hvn&Hdn); [done..|]. rewrite En.
    assert (Hnew : ∀ z, IntervalSet.den new z ↔
      off <= z < off + zlen data ∧ ¬ IntervalSet.den (bytes_received st) z).
    { intros z. rewrite Hdn, Hdf. unfold Interval.den, frame. simpl. done. }
    destruct new as [|i new]; cbn [IntervalSet.Empty].
    { left. split; [done|]. apply accepted_nothing; [done|]. intros z Hz.
      pose proof (IntervalSet.Contains_lemma (bytes_received st) z Hv) as Hcl.
      destruct (IntervalSet.Contains (bytes_received st) z); [by apply Hcl|].
      exfalso. apply (IntervalSet.den_nil z), Hnew. split; [done|]. rewrite <-Hcl. done. }
    sb_simpl. destruct (Z.leb_spec kMaxNumDataIntervalsAllowed
      (IntervalSet.Size (IntervalSet.Add (bytes_received st) frame))); [by right|].
    destruct (slow_path st off data (i :: new) HI Hp) as (st2&n2&E2&Hacc); try done; [lia..|].
    fold frame in E2. rewrite E2. by left.
Qed.

(** ** Regions *)

(** The bytes a list of regions shows, in order. *)
Fixpoint regions_bytes (st : t) (rs : list iovec) : option (list Z) :=
  match rs with
  | [] => Some []
  | r :: rs =>
      match iov_bytes st r, regions_bytes st rs with
      | Some b, Some bs => Some (b ++ bs)
      | _, _ => None
      end
  end.

Lemma region_run st off n idx r :
  Inv st → total_bytes_read st <= off → 0 < n → off + n <= FirstMissingByte st →
  idx = GetBlockIndex st off → r = GetInBlockOffset st off → r + n <= GetBlockCapacity st idx →
  iov_bytes st (mk_iovec idx r n) = Some (slice off n).
Proof.
  intros HI Ho Hn He -> -> Hroom. destruct (FirstMissing_spec st HI) as (HFM&HFMd&_&_).
  pose proof (inv_total st HI).
  destruct (read_run st off n) as (b&Eb&H1&H2&Hs); try done; [intros; apply HFMd; lia|].
  unfold iov_bytes. cbn [iov_block iov_off iov_len]. rewrite Eb. by case_match; [rewrite Hs|lia].
Qed.

(** The offset at which the [k]-th block after the block being read starts. *)
Definition block_start (st : t) (k : Z) : Z :=
  let cap := max_buffer_capacity_bytes st in
  let sb := NextBlockToRead st in
  total_bytes_read st - total_bytes_read st mod cap +
  (if sb + k <? blocks_count st then (sb + k) * kBlockSizeBytes
   else cap + (sb + k - blocks_count st) * kBlockSizeBytes).

Definition block_after (st : t) (k : Z) : Z := (NextBlockToRead st + k) mod blocks_count st.

Lemma block_after_spec st k :
  0 < max_buffer_capacity_bytes st → 0 <= NextBlockToRead st < blocks_count st →
  1 <= k <= blocks_count st →
  block_after st k = (if NextBlockToRead st + k <? blocks_count st then NextBlockToRead st + k
                      else NextBlockToRead st + k - blocks_count st).
Proof.
  intros Hc Hs Hk. unfold block_after. case_match.
  - apply Z.mod_small. lia.
  - symmetry. apply Z.mod_unique with (q := 1); lia.
Qed.

Lemma next_block_bounds st :
  0 < max_buffer_capacity_bytes st → 0 <= NextBlockToRead st < blocks_count st.
Proof.
  intros Hc. pose proof (Z.mod_pos_bound (total_bytes_read st) _ Hc) as Hp.
  by pose proof (position_bounds _ _ Hp) as (?&_&_).
Qed.

(** Blocks start at multiples of the block size, after the offset being read. *)
Lemma block_start_position st k :
  0 < max_buffer_capacity_bytes st → 1 <= k <= blocks_count st →
  block_start st k mod max_buffer_capacity_bytes st = block_after st k * kBlockSizeBytes
  ∧ total_bytes_read st < block_start st k
  ∧ 0 <= block_after st k < blocks_count st.
Proof.
  intros Hc Hk. pose proof (next_block_bounds st Hc) as Hs.
  rewrite block_after_spec by done. unfold block_start.
  set (cap := max_buffer_capacity_bytes st) in *. set (T := total_bytes_read st) in *.
  pose proof (Z.mod_pos_bound T cap Hc) as Hp. pose proof (Z.div_mod T cap ltac:(lia)) as ET.
  assert (Hpos : NextBlockToRead st * kBlockSizeBytes <= T mod cap
                 < (NextBlockToRead st + 1) * kBlockSizeBytes).
  { unfold NextBlockToRead, GetBlockIndex. fold cap T. unfold kBlockSizeBytes in *.
    Z.to_euclidean_division_equations. lia. }
  assert (Hbc : (blocks_count st - 1) * kBlockSizeBytes < cap <= blocks_count st * kBlockSizeBytes).
  { unfold blocks_count, CalculateBlockCount. fold cap. unfold kBlockSizeBytes in *.
    Z.to_euclidean_division_equations. lia. }
  set (q := T / cap) in *. set (sb := NextBlockToRead st) in *. set (B := blocks_count st) in *.
  clearbody q sb B. unfold kBlockSizeBytes in *.
  case_match; (split; [|lia]).
  - symmetry. apply Z.mod_unique with (q := q); lia.
  - symmetry. apply Z.mod_unique with (q := q + 1); lia.
Qed.

(** An unread offset after the start of a block is inside it or after it, and its
    block index says which. *)
Lemma offset_after_block st k off :
  0 < max_buffer_capacity_bytes st → 1 <= k <= blocks_count st →
  block_start st k <= off < total_bytes_read st + max_buffer_capacity_bytes st →
  if GetBlockIndex st off =? block_after st k
  then GetInBlockOffset st off = off - block_start st k
       ∧ off < block_start st k + GetBlockCapacity st (block_after st k)
  else block_start st k + GetBlockCapacity st (block_after st k) <= off ∧ k < blocks_count st.
Proof.
  intros Hc Hk Ho. destruct (block_start_position st k Hc Hk) as (Hm&Ht&Hb).
  rewrite GetBlockCapacity_min by done. unfold GetBlockIndex, GetInBlockOffset.
  pose proof (mod_step (max_buffer_capacity_bytes st) (block_start st k) (off - block_start st k) Hc
    ltac:(lia)) as E.
  replace (block_start st k + (off - block_start st k)) with off in E by lia.
  rewrite Hm in E.
  assert (HB : block_after st k < blocks_count st → blocks_count st = k →
    total_bytes_read st + max_buffer_capacity_bytes st
    < block_start st k + kBlockSizeBytes
    ∧ block_after st k * kBlockSizeBytes + (total_bytes_read st + max_buffer_capacity_bytes st - block_start st k)
      <= max_buffer_capacity_bytes st).
  { intros _ <-. clear E Ho Hm. pose proof (next_block_bounds st Hc) as Hs.
    rewrite block_after_spec by lia. unfold block_start.
    pose proof (Z.mod_pos_bound (total_bytes_read st) _ Hc) as Hp.
    unfold NextBlockToRead, GetBlockIndex in *. case_match; [lia|].
    unfold kBlockSizeBytes in *. Z.to_euclidean_division_equations. lia. }
  specialize (HB (proj2 Hb)).
  rewrite E. clear E Hm.
  set (S := block_start st k) in *. set (idx := block_after st k) in *.
  set (cap := max_buffer_capacity_bytes st) in *. clearbody S idx cap.
  unfold kBlockSizeBytes in *.
  repeat case_match; Z.to_euclidean_division_equations; lia.
Qed.

Lemma block_start_next st k :
  0 < max_buffer_capacity_bytes st → 1 <= k < blocks_count st →
  block_start st (k + 1) = block_start st k + GetBlockCapacity st (block_after st k).
Proof.
  intros Hc Hk. pose proof (next_block_bounds st Hc) as Hs.
  destruct (block_start_position st k) as (_&_&Hb); [done|lia|].
  rewrite GetBlockCapacity_min, block_after_spec by (done || lia). unfold block_start.
  assert (Hbc : (blocks_count st - 1) * kBlockSizeBytes < max_buffer_capacity_bytes st
                <= blocks_count st * kBlockSizeBytes).
  { unfold blocks_count, CalculateBlockCount, kBlockSizeBytes in *.
    Z.to_euclidean_division_equations. lia. }
  unfold kBlockSizeBytes in *.
  destruct (Z.ltb_spec (NextBlockToRead st + k) (blocks_count st)),
    (Z.ltb_spec (NextBlockToRead st + (k + 1)) (blocks_count st)); lia.
Qed.

(** The middle loop shows whole blocks and stops at the last block or a full [iov]. *)
Lemma middle_regions_spec fuel st k cnt :
  Inv st → 1 <= k <= blocks_count st → blocks_count st <= k + Z.of_nat fuel →
  block_start st k <= FirstMissingByte st - 1 →
  let end_ := GetBlockIndex st (FirstMissingByte st - 1) in
  let '(rs, used) := middle_regions fuel st (NextBlockToRead st) end_ k cnt in
  k <= used <= blocks_count st ∧ used <= Z.max k cnt
  ∧ block_start st k <= block_start st used <= FirstMissingByte st - 1
  ∧ zlen rs = used - k
  ∧ regions_bytes st rs = Some (slice (block_start st k) (block_start st used - block_start st k))
  ∧ (used < cnt → block_after st used = end_).
Proof.
  intros HI Hk Hf Hs end_. revert k Hk Hf Hs.
  pose proof (inv_cap st HI) as Hc. destruct (FirstMissing_spec st HI) as (HFM&_).
  induction fuel as [|fuel IH]; intros k Hk Hf Hs; cbn [middle_regions];
    change ((NextBlockToRead st + k) mod blocks_count st) with (block_after st k);
    pose proof (offset_after_block st k (FirstMissingByte st - 1) Hc Hk ltac:(lia)) as Hend;
    fold end_ in Hend.
  - assert (blocks_count st = k) by lia. destruct (Z.eqb_spec end_ (block_after st k)); [|lia].
    rewrite zlen_nil, !Z.sub_diag, slice_0. split_and!; done || lia.
  - rewrite (Z.eqb_sym (block_after st k)). destruct (Z.eqb_spec end_ (block_after st k)) as [Ee|Ee]; cbn [orb].
    { rewrite zlen_nil, !Z.sub_diag, slice_0. split_and!; done || lia. }
    destruct (Z.leb_spec cnt k).
    { rewrite zlen_nil, !Z.sub_diag, slice_0. split_and!; done || lia. }
    pose proof (block_start_next st k Hc ltac:(lia)) as Hn.
    destruct (block_start_position st k Hc Hk) as (Hm&Ht&Hb).
    specialize (IH (k + 1) ltac:(lia) ltac:(lia) ltac:(lia)).
    destruct (middle_regions fuel st (NextBlockToRead st) end_ (k + 1) cnt) as [rs used].
    destruct IH as (H1&H2&H3&H4&H5&H6).
    assert (Hcapk : 0 < GetBlockCapacity st (block_after st k)).
    { rewrite GetBlockCapacity_min by done. unfold blocks_count, CalculateBlockCount, kBlockSizeBytes in *.
      Z.to_euclidean_division_equations. lia. }
    rewrite zlen_cons. cbn [regions_bytes].
    rewrite (region_run st (block_start st k)), H5; try done; try lia.
    + split; [lia|]. split; [lia|]. split; [lia|]. split; [lia|]. split; [|done].
      rewrite Hn, slice_split by lia. do 2 f_equal. lia.
    + unfold GetBlockIndex. rewrite Hm. unfold kBlockSizeBytes. by rewrite Z.div_mul.
    + unfold GetInBlockOffset. rewrite Hm. unfold kBlockSizeBytes. by rewrite Z.mod_mul.
Qed.

Lemma regions_bytes_app st rs1 rs2 b1 b2 :
  regions_bytes st rs1 = Some b1 → regions_bytes st rs2 = Some b2 →
  regions_bytes st (rs1 ++ rs2) = Some (b1 ++ b2).
Proof.
  revert b1. induction rs1 as [|r rs1 IH]; intros b1; cbn [regions_bytes app].
  - by intros [= <-] ->.
  - destruct (iov_bytes st r); [|done]. destruct (regions_bytes st rs1) as [b|]; [|done].
    intros [= <-] H2. by rewrite (IH _ eq_refl H2), app_assoc.
Qed.

(** The first region, up to the end of the block being read. *)
Lemma first_region st :
  Inv st → 0 < ReadableBytes st →
  let sb := NextBlockToRead st in let E := FirstMissingByte st - 1 in
  if (sb =? GetBlockIndex st E) && (ReadOffset st <=? GetInBlockOffset st E)
  then ReadOffset st + ReadableBytes st <= GetBlockCapacity st sb
  else total_bytes_read st + (GetBlockCapacity st sb - ReadOffset st) = block_start st 1
       ∧ block_start st 1 <= E ∧ 0 < GetBlockCapacity st sb - ReadOffset st.
Proof.
  intros HI Hr sb E. pose proof (inv_cap st HI) as Hc. destruct (FirstMissing_spec st HI) as (HFM&_).
  pose proof (next_block_bounds st Hc) as Hs. fold sb in Hs.
  rewrite GetBlockCapacity_min by done. unfold block_start.
  fold sb. set (cap := max_buffer_capacity_bytes st) in *. set (T := total_bytes_read st) in *.
  pose proof (Z.mod_pos_bound T cap Hc) as Hp.
  pose proof (mod_step cap T (E - T) Hc ltac:(unfold E, ReadableBytes in *; lia)) as HE.
  replace (T + (E - T)) with E in HE by lia.
  assert (Hbc : (blocks_count st - 1) * kBlockSizeBytes < cap <= blocks_count st * kBlockSizeBytes).
  { unfold blocks_count, CalculateBlockCount. fold cap. unfold kBlockSizeBytes in *.
    Z.to_euclidean_division_equations. lia. }
  assert (HR : ReadableBytes st = E + 1 - T) by (unfold ReadableBytes, E, T; lia).
  assert (HET : T <= E < T + cap) by (unfold E; lia).
  unfold ReadOffset, GetInBlockOffset, GetBlockIndex. fold cap T. rewrite HE, HR.
  assert (Hsb : sb = T mod cap / kBlockSizeBytes) by done.
  clearbody sb E T cap. set (B := blocks_count st) in *. clearbody B. set (p := T mod cap) in *.
  clearbody p. clear HE HR HFM Hr HI. unfold kBlockSizeBytes in *.
  destruct (Z.ltb_spec (p + (E - T)) cap), (Z.ltb_spec (sb + 1) B);
    case_match; Z.to_euclidean_division_equations; lia.
Qed.

(** [GetReadableRegions] shows a prefix of the readable bytes, all of them when the
    [iov] is not filled, in at most [iov_count] regions. *)
Lemma GetReadableRegions_spec st cnt :
  Inv st → 0 < cnt →
  let rs := GetReadableRegions st cnt in
  ∃ m, regions_bytes st rs = Some (slice (total_bytes_read st) m)
    ∧ 0 <= m <= ReadableBytes st ∧ zlen rs <= cnt ∧ zlen rs <= blocks_count st + 1
    ∧ (0 < ReadableBytes st → 0 < m) ∧ (zlen rs < cnt → m = ReadableBytes st).
Proof.
  intros HI Hcnt rs. unfold rs, GetReadableRegions. pose proof (readable_nonneg st HI) as Hr0.
  pose proof (inv_cap st HI) as Hc. pose proof (next_block_bounds st Hc) as Hs.
  destruct (Z.eqb_spec (ReadableBytes st) 0) as [E0|E0].
  { exists 0. rewrite (@zlen_nil iovec). split_and!; done || lia. }
  pose proof (first_region st HI ltac:(lia)) as Hf. cbv zeta in Hf |- *.
  destruct (FirstMissing_spec st HI) as (HFM&_).
  assert (HR : ReadableBytes st = FirstMissingByte st - total_bytes_read st) by done.
  destruct ((_ =? _) && _) eqn:Eone.
  { exists (ReadableBytes st). cbn [regions_bytes].
    rewrite (region_run st (total_bytes_read st)); try done; try lia.
    rewrite app_nil_r, zlen_cons, (@zlen_nil iovec). split_and!; done || lia. }
  destruct Hf as (Hf1&Hf2&Hf3). clear Eone.
  pose proof (middle_regions_spec (Z.to_nat (blocks_count st)) st 1 cnt HI ltac:(lia) ltac:(lia) Hf2) as Hm.
  cbv zeta in Hm. destruct (middle_regions _ st _ _ 1 cnt) as [mid used].
  destruct Hm as (H1&H2&H3&H4&H5&H6).
  assert (Hfirst : iov_bytes st (mk_iovec (NextBlockToRead st) (ReadOffset st)
    (GetBlockCapacity st (NextBlockToRead st) - ReadOffset st))
    = Some (slice (total_bytes_read st) (block_start st 1 - total_bytes_read st))).
  { replace (block_start st 1 - total_bytes_read st)
      with (GetBlockCapacity st (NextBlockToRead st) - ReadOffset st) by lia.
    apply region_run; try done; lia. }
  assert (Hmid : regions_bytes st (mk_iovec (NextBlockToRead st) (ReadOffset st)
    (GetBlockCapacity st (NextBlockToRead st) - ReadOffset st) :: mid)
    = Some (slice (total_bytes_read st) (block_start st used - total_bytes_read st))).
  { cbn [regions_bytes]. rewrite Hfirst, H5.
    replace (block_start st 1) with (total_bytes_read st + (block_start st 1 - total_bytes_read st)) at 2 by lia.
    rewrite slice_split by lia. do 2 f_equal. lia. }
  destruct (Z.ltb_spec used cnt) as [Hlt|Hge].
  - exists (ReadableBytes st). specialize (H6 Hlt).
    pose proof (offset_after_block st used (FirstMissingByte st - 1) Hc ltac:(lia) ltac:(lia)) as He.
    destruct (Z.eqb_spec (GetBlockIndex st (FirstMissingByte st - 1)) (block_after st used)); [|done].
    destruct (block_start_position st used Hc ltac:(lia)) as (Hpos&_&_).
    split.
    + rewrite app_comm_cons. erewrite regions_bytes_app; [|exact Hmid|].
      2:{ cbn [regions_bytes]. rewrite (region_run st (block_start st used)); try lia; [done|done| | |].
          - rewrite e. unfold GetBlockIndex. rewrite Hpos. unfold kBlockSizeBytes.
            by rewrite Z.div_mul by done.
          - unfold GetInBlockOffset. rewrite Hpos. unfold kBlockSizeBytes. by rewrite Z.mod_mul.
          - rewrite e. lia. }
      rewrite app_nil_r.
      replace (block_start st used) with (total_bytes_read st + (block_start st used - total_bytes_read st)) at 2 by lia.
      rewrite slice_split by lia. do 2 f_equal. lia.
    + autorewrite with zlen. split_and!; lia.
  - exists (block_start st used - total_bytes_read st). rewrite app_nil_r. split; [exact Hmid|].
    autorewrite with zlen. split_and!; lia.
Qed.

(** ** The operations on every branch *)

Lemma with_prefetched_inv st n : Inv st → Inv (with_prefetched st n).
Proof. intros []. by split. Qed.

Lemma Readv_spec st iov :
  Inv st →
  let n := Z.min (iov_total iov) (ReadableBytes st) in
  ∃ st', Readv st iov = (QUIC_NO_ERROR, st', slice (total_bytes_read st) n) ∧ consumed st st' n.
Proof.
  intros HI n. destruct (Readv_all_spec st iov [] HI) as (st1&E&HI1&?&?&?).
  unfold Readv. rewrite E. eexists. split; [done|]. split; [by apply with_prefetched_inv|done].
Qed.

Lemma MarkConsumed_spec st n :
  Inv st → 0 <= n →
  if ReadableBytes st <? n then MarkConsumed st n = (st, false)
  else ∃ st', MarkConsumed st n = (st', true) ∧ consumed st st' n.
Proof.
  intros HI Hn. unfold MarkConsumed. destruct (Z.ltb_spec (ReadableBytes st) n); [done|].
  destruct (MarkConsumed_loop_spec (Z.to_nat n) st n HI) as (HI1&?&?&?); [lia|lia|].
  eexists. split; [done|]. split; [by apply with_prefetched_inv|done].
Qed.

(** What was received, up to an offset that nothing received reaches. *)
Lemma FlushBufferedFrames_spec st :
  Inv st →
  let '(st', n) := FlushBufferedFrames st in
  Inv st' ∧ total_bytes_read st' = NextExpectedByte st ∧ n = NextExpectedByte st - total_bytes_read st
  ∧ ReadableBytes st' = 0 ∧ max_buffer_capacity_bytes st' = max_buffer_capacity_bytes st.
Proof.
  intros HI. unfold FlushBufferedFrames.
  assert (Hn : 0 <= NextExpectedByte st).
  { unfold NextExpectedByte, IntervalSet.rbegin. destruct (last (bytes_received st)) as [l|] eqn:E; [|done].
    assert (IntervalSet.den (bytes_received st) (imax l - 1)) as Hd.
    { apply IntervalSet.den_elem. exists l. apply last_Some_elem_of in E. split; [done|].
      pose proof (IntervalSet.valid_nonempty _ _ (inv_valid _ HI) E). unfold Interval.den. lia. }
    pose proof (inv_range _ HI _ Hd). lia. }
  set (st1 := mk _ _ _ _ _ _).
  assert (HI' : Inv (Clear st1)) by (apply Clear_inv; [apply (inv_cap _ HI)|exact Hn|apply (inv_wf _ HI)]).
  split; [done|]. split; [done|]. split; [done|]. split; [|done].
  pose proof (readable_nonneg _ HI') as H0. destruct (FirstMissing_spec _ HI') as (_&Hd&_&_).
  unfold ReadableBytes in *.
  destruct (Z.le_gt_cases (FirstMissingByte (Clear st1)) (total_bytes_read (Clear st1))); [lia|].
  exfalso. specialize (Hd (NextExpectedByte st) ltac:(simpl in *; lia)).
  cbn [Clear bytes_received st1 total_bytes_read] in Hd.
  destruct (IntervalSet.Add_lemma [] (Interval.mk 0 (NextExpectedByte st)) IntervalSet.valid_nil) as [_ Hden].
  unfold IntervalSet.Clear in Hd. rewrite Hden, IntervalSet.den_nil in Hd.
  unfold Interval.den in Hd. simpl in Hd. lia.
Qed.
End copy.

(** ** The client's view

    A client feeds frames and takes bytes, through [Readv] or by looking at the
    regions and marking a prefix of them consumed. *)
Inductive op :=
  | OpFrame (off : Z) (data : list Z)
  | OpReadv (iov : list Z)
  | OpConsume (iov_count : Z) (n : Z)
  | OpPrefetch.

Definition exec (st : t) (o : op) : QuicErrorCode * t * list Z :=
  match o with
  | OpFrame off data => let '(code, st, _) := OnStreamData st off data in (code, st, [])
  | OpReadv iov => Readv st iov
  | OpConsume iov_count n =>
      match regions_bytes st (GetReadableRegions st iov_count) with
      | None => (QUIC_STREAM_SEQUENCER_INVALID_STATE, st, [])
      | Some shown =>
          let n := Z.min n (zlen shown) in
          let '(st, ok) := MarkConsumed st n in
          (if ok then QUIC_NO_ERROR else QUIC_INTERNAL_ERROR, st, take (Z.to_nat n) shown)
      end
  | OpPrefetch => (QUIC_NO_ERROR, fst (PrefetchNextRegion st), [])
  end.

(** A run stops at the first error, as the stream does when it closes the connection. *)
Fixpoint run (st : t) (ops : list op) : QuicErrorCode * t * list Z :=
  match ops with
  | [] => (QUIC_NO_ERROR, st, [])
  | o :: ops =>
      match exec st o with
      | (QUIC_NO_ERROR, st, out) => let '(code, st, outs) := run st ops in (code, st, out ++ outs)
      | (code, st, out) => (code, st, out)
      end
  end.

(** The peer's frames are nonempty pieces of one stream of at most [limit] bytes. *)
Definition good_op (stream : Z → Z) (limit : Z) (o : op) : Prop :=
  match o with
  | OpFrame off data => 0 <= off ∧ 0 < zlen data ∧ off + zlen data <= limit ∧ piece_of stream off data
  | OpReadv iov => True
  | OpConsume iov_count n => 0 < iov_count ∧ 0 <= n
  | OpPrefetch => True
  end.

(** The invariant along a run. *)
Definition Live (stream : Z → Z) (limit cap : Z) (st : t) : Prop :=
  Inv stream st ∧ max_buffer_capacity_bytes st = cap
  ∧ ∀ z, IntervalSet.den (bytes_received st) z → z < limit.

Lemma live_total stream limit cap st : 0 <= limit → Live stream limit cap st → total_bytes_read st <= limit.
Proof.
  intros Hl (HI&_&Hz). pose proof (inv_total _ _ HI).
  destruct (Z.eq_dec (total_bytes_read st) 0); [lia|].
  specialize (Hz (total_bytes_read st - 1)). cut (total_bytes_read st - 1 < limit); [lia|].
  apply Hz, (inv_read _ _ HI). lia.
Qed.

(** What an operation leaves: the offset has moved by the bytes handed out, which are
    the next ones of the stream. *)
Definition delivers (stream : Z → Z) (limit cap : Z) (st : t) (r : QuicErrorCode * t * list Z) : Prop :=
  let '(code, st', out) := r in
  (code = QUIC_NO_ERROR ∨ code = QUIC_INTERNAL_ERROR ∨ code = QUIC_TOO_MANY_STREAM_DATA_INTERVALS)
  ∧ (code = QUIC_NO_ERROR → Live stream limit cap st')
  ∧ out = slice stream (total_bytes_read st) (zlen out)
  ∧ total_bytes_read st' = total_bytes_read st + zlen out.

Lemma OnStreamData_total st off data :
  total_bytes_read (OnStreamData st off data).1.2 = total_bytes_read st.
Proof.
  assert (HC : ∀ fuel st off data st', CopyStreamData fuel st off data = Some st' →
    total_bytes_read st' = total_bytes_read st).
  { clear. induction fuel as [|fuel IH]; intros st off data st'; destruct data; simpl; try congruence.
    case_match; [done|]. intros ->%IH. by destruct (blocks st). }
  assert (HI : ∀ new st n, match copy_intervals st off data new n with
    | (Some st', _) => total_bytes_read st' = total_bytes_read st | _ => True end).
  { clear -HC. induction new as [|i new IH]; intros st n; cbn [copy_intervals]; [done|].
    destruct (CopyStreamData _ st _ _) eqn:E; [|done]. specialize (IH t0 (n + zlen (take (Z.to_nat (imax i - imin i)) (drop (Z.to_nat (imin i - off)) data)))).
    destruct (copy_intervals _ _ _ _ _) as [[?|] ?]; [|done]. rewrite IH. by eapply HC. }
  unfold OnStreamData. repeat (case_match; simplify_eq/=; try done).
  all: match goal with
  | E : CopyStreamData _ _ _ _ = Some _ |- _ => by rewrite (HC _ _ _ _ _ E)
  | E : copy_intervals ?s _ _ ?nw 0 = _ |- _ =>
      pose proof (HI nw s 0) as Hi; rewrite E in Hi; by rewrite Hi
  end.
Qed.

Lemma exec_delivers stream limit cap st o :
  0 <= limit → limit + cap < two64 → Live stream limit cap st → good_op stream limit o →
  delivers stream limit cap st (exec st o).
Proof.
  intros Hlim Hcap HL Hg. pose proof (live_total _ _ _ _ Hlim HL) as Htot.
  pose proof HL as (HI&Ec&Hz). pose proof (inv_cap _ _ HI). pose proof (inv_total _ _ HI).
  assert (Hcons : ∀ st' n, consumed stream st st' n → Live stream limit cap st').
  { intros st' n (HI'&_&Hr&Hc). split; [done|]. rewrite Hc, Hr. done. }
  destruct o as [off data|iov|cnt n|]; cbn [exec good_op] in *.
  - destruct Hg as (Ho&Hd&He&Hp).
    pose proof (OnStreamData_spec stream st off data HI Hp ltac:(lia) ltac:(lia) ltac:(lia)) as Hs.
    pose proof (OnStreamData_total st off data) as Ht.
    destruct (OnStreamData st off data) as [[code st'] n] eqn:E. cbn [fst snd] in Ht.
    unfold delivers. rewrite zlen_nil, slice_0.
    destruct (Z.eqb_spec (zlen data) 0); [lia|].
    destruct (_ <? _); [naive_solver lia|].
    split; [naive_solver|]. split; [|split; [done|lia]].
    intros ->. destruct Hs as [(_&HI'&_&Hc'&Hd'&_)|(?&_)]; [|done].
    split; [done|]. split; [congruence|]. intros z [Hr|Hr]%Hd'; [by apply Hz|lia].
  - destruct (Readv_spec stream st iov HI) as (st'&->&Hc). unfold delivers.
    pose proof (iov_total_nonneg iov). pose proof (readable_nonneg _ _ HI).
    rewrite slice_length by lia. split; [by left|]. split; [by intros; eapply Hcons|].
    split; [done|]. by destruct Hc as (_&->&_).
  - destruct (GetReadableRegions_spec stream st cnt HI ltac:(lia)) as (m&->&Hm&_&_&_&_).
    rewrite slice_length by lia. set (k := Z.min n m).
    pose proof (MarkConsumed_spec stream st k HI ltac:(lia)) as Hs.
    destruct (Z.ltb_spec (ReadableBytes st) k); [lia|]. destruct Hs as (st'&->&Hc).
    assert (Hk : take (Z.to_nat k) (slice stream (total_bytes_read st) m) = slice stream (total_bytes_read st) k).
    { replace m with (k + (m - k)) by lia. rewrite <-slice_split by lia.
      rewrite take_app_length'; [done|]. pose proof (slice_length stream (total_bytes_read st) k ltac:(lia)) as Hl.
      unfold zlen in Hl. lia. }
    unfold delivers. rewrite Hk, slice_length by lia. split; [by left|].
    split; [by intros; eapply Hcons|]. split; [done|]. by destruct Hc as (_&->&_).
  - unfold delivers, PrefetchNextRegion. rewrite zlen_nil, slice_0. destruct (PeekRegion st _); cbn [fst];
      (split; [by left|]; split; [|split; [done|simpl; lia]]); [|done].
    intros _. split; [by apply with_prefetched_inv|]. done.
Qed.

Lemma run_delivers stream limit cap ops st :
  0 <= limit → limit + cap < two64 → Live stream limit cap st → Forall (good_op stream limit) ops →
  delivers stream limit cap st (run st ops).
Proof.
  intros Hlim Hcap. revert st. induction ops as [|o ops IH]; intros st HL Hg; cbn [run].
  { unfold delivers. rewrite zlen_nil, slice_0. split; [by left|]. split; [done|]. split; [done|lia]. }
  apply Forall_cons in Hg as [Ho Hg].
  pose proof (exec_delivers _ _ _ _ _ Hlim Hcap HL Ho) as He.
  destruct (exec st o) as [[code st1] out]. destruct code; try exact He.
  destruct He as (_&HL1&Eo&Et). specialize (IH st1 (HL1 eq_refl) Hg).
  destruct (run st1 ops) as [[code st2] outs]. destruct IH as (Hcode&HL2&Eo2&Et2).
  unfold delivers. split; [done|]. split; [done|]. rewrite zlen_app.
  split; [|lia]. rewrite <-slice_split by apply zlen_nonneg. by rewrite <-Eo, <-Et, <-Eo2.
Qed.

Lemma new_buffer_live stream limit cap : 0 < cap → Live stream limit cap (new_buffer cap).
Proof.
  intros. split; [by apply new_buffer_inv|]. split; [done|]. intros z Hz.
  by apply IntervalSet.den_nil in Hz.
Qed.

(** [z] was carried by one of the frames. *)
Definition framed (ops : list op) (z : Z) : Prop :=
  ∃ off data, OpFrame off data ∈ ops ∧ off <= z < off + zlen data.

Lemma exec_received stream limit cap st o st' out :
  0 <= limit → limit + cap < two64 → Live stream limit cap st → good_op stream limit o →
  exec st o = (QUIC_NO_ERROR, st', out) →
  ∀ z, IntervalSet.den (bytes_received st') z ↔ IntervalSet.den (bytes_received st) z ∨ framed [o] z.
Proof.
  intros Hlim Hcap HL Hg He z. pose proof (live_total _ _ _ _ Hlim HL). pose proof HL as (HI&Ec&_).
  pose proof (inv_cap _ _ HI). pose proof (inv_total _ _ HI).
  assert (Hno : (∀ off data, o ≠ OpFrame off data) → bytes_received st' = bytes_received st →
    IntervalSet.den (bytes_received st') z ↔ IntervalSet.den (bytes_received st) z ∨ framed [o] z).
  { intros Hof ->. split; [tauto|]. intros [?|(off&data&Ho&_)]; [done|].
    apply list_elem_of_singleton in Ho. by edestruct Hof. }
  destruct o as [off data|iov|cnt n|]; cbn [exec good_op] in *.
  - destruct Hg as (Ho&Hd&Hend&Hp).
    pose proof (OnStreamData_spec stream st off data HI Hp ltac:(lia) ltac:(lia) ltac:(lia)) as Hs.
    destruct (OnStreamData st off data) as [[code st1] n]. simplify_eq.
    destruct (Z.eqb_spec (zlen data) 0); [lia|]. destruct (_ <? _); [naive_solver|].
    destruct Hs as [(_&_&_&_&Hd'&_)|(?&_)]; [|done]. rewrite Hd'. unfold framed.
    setoid_rewrite list_elem_of_singleton. naive_solver.
  - apply Hno; [done|]. destruct (Readv_spec stream st iov HI) as (st1&E&Hc). rewrite E in He.
    simplify_eq. by destruct Hc as (_&_&->&_).
  - apply Hno; [done|]. destruct (regions_bytes _ _) as [shown|]; [|done].
    pose proof (MarkConsumed_spec stream st (Z.min n (zlen shown)) HI) as Hs.
    pose proof (zlen_nonneg shown). specialize (Hs ltac:(lia)). destruct (_ <? _).
    + rewrite Hs in He. done.
    + destruct Hs as (st1&E&Hc). rewrite E in He. simplify_eq. by destruct Hc as (_&_&->&_).
  - apply Hno; [done|]. unfold PrefetchNextRegion in He. destruct (PeekRegion _ _); by simplify_eq/=.
Qed.

Lemma run_received stream limit cap ops st st' out :
  0 <= limit → limit + cap < two64 → Live stream limit cap st → Forall (good_op stream limit) ops →
  run st ops = (QUIC_NO_ERROR, st', out) →
  ∀ z, IntervalSet.den (bytes_received st') z ↔ IntervalSet.den (bytes_received st) z ∨ framed ops z.
Proof.
  intros Hlim Hcap. revert st out. induction ops as [|o ops IH]; intros st out HL Hg Hr z; cbn [run] in Hr.
  { simplify_eq. unfold framed. setoid_rewrite elem_of_nil. naive_solver. }
  apply Forall_cons in Hg as [Ho Hg].
  pose proof (exec_delivers _ _ _ _ _ Hlim Hcap HL Ho) as He.
  pose proof (exec_received stream limit cap st o) as Hx.
  destruct (exec st o) as [[code st1] out1]. destruct code; try done.
  destruct He as (_&HL1&_&_). destruct (run st1 ops) as [[code st2] outs] eqn:E2. simplify_eq.
  rewrite (IH st1 outs); auto. rewrite (Hx st1 out1); auto.
  unfold framed. setoid_rewrite elem_of_cons. setoid_rewrite elem_of_nil. naive_solver.
Qed.

(** ** Properties *)

(** C1. In-order delivery. Feed a new buffer any sequence of frames of one stream, in any
    order, overlapping and repeated, and take bytes by [Readv] and by regions in between: what
    the client has been handed is always exactly the first bytes of the stream, the internal
    error [QUIC_STREAM_SEQUENCER_INVALID_STATE] never arises, and as long as no frame was
    refused, the next [Readv] hands out the following bytes up to the first offset that no frame
    carried. *)
Theorem in_order_delivery stream limit cap ops :
  0 < cap → 0 <= limit → limit + cap < two64 → Forall (good_op stream limit) ops →
  let '(code, st, out) := run (new_buffer cap) ops in
  (code = QUIC_NO_ERROR ∨ code = QUIC_INTERNAL_ERROR ∨ code = QUIC_TOO_MANY_STREAM_DATA_INTERVALS)
  ∧ out = slice stream 0 (zlen out)
  ∧ BytesConsumed st = zlen out
  ∧ (code = QUIC_NO_ERROR →
      (∀ z, 0 <= z < FirstMissingByte st → framed ops z)
      ∧ ¬ framed ops (FirstMissingByte st)
      ∧ ∀ iov, let n := Z.min (iov_total iov) (FirstMissingByte st - zlen out) in
          ∃ st', Readv st iov = (QUIC_NO_ERROR, st', slice stream (zlen out) n)).
Proof.
  intros Hc Hlim Hcap Hg. pose proof (new_buffer_live stream limit cap Hc) as HL.
  pose proof (run_delivers _ _ _ ops _ Hlim Hcap HL Hg) as Hd.
  pose proof (run_received stream limit cap ops (new_buffer cap)) as Hr.
  destruct (run (new_buffer cap) ops) as [[code st] out]. destruct Hd as (Hcode&HI&Ho&Ht).
  split; [done|]. split; [exact Ho|]. split; [exact Ht|]. intros ->. destruct (HI eq_refl) as (HI'&_).
  destruct (FirstMissing_spec _ _ HI') as (_&Hin&Hout&_).
  assert (Hfr : ∀ z, IntervalSet.den (bytes_received st) z ↔ framed ops z).
  { intros z. rewrite (Hr st out) by done. cbn. rewrite IntervalSet.den_nil. tauto. }
  split; [intros z Hz; by apply Hfr, Hin|]. split; [by rewrite <-Hfr|]. intros iov.
  destruct (Readv_spec _ st iov HI') as (st'&E&_). exists st'. rewrite E. unfold ReadableBytes.
  change (total_bytes_read (new_buffer cap)) with 0 in Ht. by rewrite Ht.
Qed.

(** A stream and frames of it that overlap, leave a gap and close it. *)
Definition demo_ops : list op :=
  [OpFrame 3 [3; 4; 5]; OpFrame 0 [0; 1]; OpReadv [1; 8]; OpFrame 1 [1; 2; 3]; OpPrefetch;
   OpConsume 2 3; OpFrame 6 [6]].

Lemma in_order_delivery_witness :
  let '(code, st, out) := run (new_buffer 10) demo_ops in
  (code = QUIC_NO_ERROR ∨ code = QUIC_INTERNAL_ERROR ∨ code = QUIC_TOO_MANY_STREAM_DATA_INTERVALS)
  ∧ out = slice (λ z, z) 0 (zlen out)
  ∧ BytesConsumed st = zlen out
  ∧ (code = QUIC_NO_ERROR →
      (∀ z, 0 <= z < FirstMissingByte st → framed demo_ops z)
      ∧ ¬ framed demo_ops (FirstMissingByte st)
      ∧ ∀ iov, let n := Z.min (iov_total iov) (FirstMissingByte st - zlen out) in
          ∃ st', Readv st iov = (QUIC_NO_ERROR, st', slice (λ z, z) (zlen out) n)).
Proof.
  apply (in_order_delivery (λ z, z) 100 10 demo_ops); [reflexivity|discriminate|reflexivity|].
  assert (Hp : ∀ off n, piece_of (λ z, z) off (slice (λ z, z) off n)).
  { intros off n i Hi. destruct (Z.le_gt_cases 0 n) as [Hn|Hn].
    - rewrite slice_length in Hi by done. by rewrite slice_lookup.
    - destruct n; [done|done|]. unfold slice, zlen in Hi. simpl in Hi. lia. }
  repeat constructor; try exact I; try discriminate.
  - exact (Hp 3 3).
  - exact (Hp 0 2).
  - exact (Hp 1 3).
  - exact (Hp 6 1).
Defined.

Example demo_run :
  let '(code, st, out) := run (new_buffer 10) demo_ops in
  code = QUIC_NO_ERROR ∧ out = [0; 1; 2; 3; 4] ∧ FirstMissingByte st = 7.
Proof. vm_compute. done. Qed.

(** [OnStreamData] on every branch: an empty frame and a frame past the window are
    refused and change nothing; otherwise the frame is recorded in the received set, its new
    bytes (and only those) are counted, and every received unread byte is stored where a reader
    will look for it; the only other outcome is too many intervals. It never reports
    [QUIC_STREAM_SEQUENCER_INVALID_STATE]. *)
Theorem OnStreamData_correct stream st off data :
  Inv stream st → piece_of stream off data → is_u64 off → zlen data < two64 →
  total_bytes_read st + max_buffer_capacity_bytes st < two64 →
  let '(code, st', n) := OnStreamData st off data in
  if zlen data =? 0 then code = QUIC_EMPTY_STREAM_FRAME_NO_FIN ∧ st' = st ∧ n = 0 else
  if total_bytes_read st + max_buffer_capacity_bytes st <? off + zlen data
  then code = QUIC_INTERNAL_ERROR ∧ st' = st ∧ n = 0 else
  (code = QUIC_NO_ERROR ∧ accepted stream st st' off (zlen data) n
   ∧ n = IntervalSet.measure (bytes_received st') - IntervalSet.measure (bytes_received st))
  ∨ (code = QUIC_TOO_MANY_STREAM_DATA_INTERVALS ∧ n = 0
     ∧ kMaxNumDataIntervalsAllowed
       <= IntervalSet.Size (IntervalSet.Add (bytes_received st) (Interval.mk off (off + zlen data)))).
Proof.
  intros HI Hp Ho Hl Hcap. pose proof (OnStreamData_spec stream st off data HI Hp Ho Hl Hcap) as H.
  destruct (OnStreamData st off data) as [[code st'] n]. repeat case_match; try exact H.
  destruct H as [(->&Ha)|H]; [left|by right]. split; [done|]. split; [done|].
  destruct Ha as (HI'&Ht&_&_&Hb). pose proof (inv_buffered _ _ HI). pose proof (inv_buffered _ _ HI'). lia.
Qed.

Lemma OnStreamData_correct_witness :
  let st := new_buffer 10 in
  let '(code, st', n) := OnStreamData st 2 [12; 13] in
  if zlen [12; 13] =? 0 then code = QUIC_EMPTY_STREAM_FRAME_NO_FIN ∧ st' = st ∧ n = 0 else
  if total_bytes_read st + max_buffer_capacity_bytes st <? 2 + zlen [12; 13]
  then code = QUIC_INTERNAL_ERROR ∧ st' = st ∧ n = 0 else
  (code = QUIC_NO_ERROR ∧ accepted (λ z, z + 10) st st' 2 (zlen [12; 13]) n
   ∧ n = IntervalSet.measure (bytes_received st') - IntervalSet.measure (bytes_received st))
  ∨ (code = QUIC_TOO_MANY_STREAM_DATA_INTERVALS ∧ n = 0
     ∧ kMaxNumDataIntervalsAllowed
       <= IntervalSet.Size (IntervalSet.Add (bytes_received st) (Interval.mk 2 (2 + zlen [12; 13])))).
Proof.
  intros st. apply (OnStreamData_correct (λ z, z + 10) st 2 [12; 13]).
  - by apply new_buffer_inv.
  - intros i Hi. unfold zlen in Hi. simpl in Hi.
    assert (i = 0 ∨ i = 1) as [-> | ->] by lia; reflexivity.
  - done.
  - reflexivity.
  - reflexivity.
Defined.

(** [GetReadableRegions] shows the next bytes of the stream without copying them: a prefix
    of what is readable, never empty when something is, all of it once [iov_count] exceeds the
    number of regions it needs (at most one per block and one more), across the wrap of the
    ring; and [MarkConsumed] of at most the readable bytes moves the read offset by exactly that
    much, while more is refused. *)
Theorem regions_show_the_stream stream st cnt n :
  Inv stream st → 0 < cnt → 0 <= n →
  (∃ m, regions_bytes st (GetReadableRegions st cnt) = Some (slice stream (total_bytes_read st) m)
    ∧ 0 <= m <= ReadableBytes st ∧ zlen (GetReadableRegions st cnt) <= cnt
    ∧ (0 < ReadableBytes st → 0 < m) ∧ (blocks_count st + 1 < cnt → m = ReadableBytes st))
  ∧ (if ReadableBytes st <? n then MarkConsumed st n = (st, false)
     else ∃ st', MarkConsumed st n = (st', true) ∧ consumed stream st st' n).
Proof.
  intros HI Hc Hn. split; [|by apply MarkConsumed_spec].
  destruct (GetReadableRegions_spec stream st cnt HI Hc) as (m&?&?&?&?&?&Hall).
  exists m. split_and!; try done; try lia.
Qed.

Lemma regions_show_the_stream_witness :
  let st := new_buffer 10 in
  (∃ m, regions_bytes st (GetReadableRegions st 4) = Some (slice (λ z, z) (total_bytes_read st) m)
    ∧ 0 <= m <= ReadableBytes st ∧ zlen (GetReadableRegions st 4) <= 4
    ∧ (0 < ReadableBytes st → 0 < m) ∧ (blocks_count st + 1 < 4 → m = ReadableBytes st))
  ∧ (if ReadableBytes st <? 3 then MarkConsumed st 3 = (st, false)
     else ∃ st', MarkConsumed st 3 = (st', true) ∧ consumed (λ z, z) st st' 3).
Proof. intros st. apply (regions_show_the_stream (λ z, z) st 4 3); [by apply new_buffer_inv|reflexivity|discriminate]. Defined.

(** ** A defect of [PeekRegion]

    [PeekRegion] takes the end of the readable data for the end of the region when
    both lie in one block. When the data wraps around the ring into the block of
    [offset], that end is before [offset], and the unsigned subtraction wraps. *)
Definition wraps_into (st : t) (offset : Z) : Prop :=
  GetBlockIndex st offset = GetBlockIndex st (FirstMissingByte st)
  ∧ GetInBlockOffset st (FirstMissingByte st) <= GetInBlockOffset st offset.

(** A ring of two blocks, full of readable bytes from the middle of the first block. *)
Definition wrapped_buffer : t :=
  let st := (OnStreamData (new_buffer 16384) 0 (replicate 16384 7)).1.2 in
  let st := (MarkConsumed st 5000).1 in
  (OnStreamData st 16384 (replicate 1000 8)).1.2.

Lemma peek_length stream st off :
  Inv stream st → total_bytes_read st <= off < FirstMissingByte st → ¬ wraps_into st off →
  let n := if GetBlockIndex st off =? GetBlockIndex st (FirstMissingByte st)
           then GetInBlockOffset st (FirstMissingByte st) - GetInBlockOffset st off
           else GetBlockCapacity st (GetBlockIndex st off) - GetInBlockOffset st off in
  0 < n <= kBlockSizeBytes ∧ off + n <= FirstMissingByte st
  ∧ GetInBlockOffset st off + n <= GetBlockCapacity st (GetBlockIndex st off).
Proof.
  intros HI Ho Hw. pose proof (inv_cap _ _ HI) as Hc. destruct (FirstMissing_spec _ _ HI) as (HFM&_).
  set (cap := max_buffer_capacity_bytes st) in *. set (F := FirstMissingByte st) in *.
  pose proof (Z.mod_pos_bound off cap Hc) as Hp. pose proof (position_bounds cap _ Hp) as (Hi&_&_).
  pose proof (mod_step cap off (F - off) Hc ltac:(lia)) as E.
  replace (off + (F - off)) with F in E by lia.
  unfold wraps_into in Hw. fold F in Hw. unfold GetBlockIndex, GetInBlockOffset in *.
  rewrite GetBlockCapacity_min by done. fold cap in Hw |- *. rewrite E in Hw |- *. clear E.
  clearbody F. set (p := off mod cap) in *. clearbody p cap. unfold kBlockSizeBytes in *.
  destruct (Z.ltb_spec (p + (F - off)) cap); cbv zeta;
    case_match; Z.to_euclidean_division_equations; lia.
Qed.

(** Outside the wrapped case, [PeekRegion] shows the bytes of the stream at an unread
    offset: at least one, none that was not received. In the wrapped case it does not: a full ring
    of two blocks read from offset 5000 gives a region of [2^64 - 4000] bytes at offset 5000,
    which leaves its block. *)
Theorem PeekRegion_correct stream st off :
  Inv stream st →
  (total_bytes_read st <= off < FirstMissingByte st → ¬ wraps_into st off →
    ∃ iov, PeekRegion st off = Some iov ∧ 0 < iov_len iov ∧ off + iov_len iov <= FirstMissingByte st
      ∧ iov_bytes st iov = Some (slice stream off (iov_len iov)))
  ∧ (¬ total_bytes_read st <= off < FirstMissingByte st → PeekRegion st off = None)
  ∧ (PeekRegion wrapped_buffer 5000 = Some (mk_iovec 0 5000 (two64 - 4000))
     ∧ ReadableBytes wrapped_buffer = 12384
     ∧ iov_bytes wrapped_buffer (mk_iovec 0 5000 (two64 - 4000)) = None).
Proof.
  intros HI. split; [|split; [|by vm_compute]].
  - intros Ho Hw. destruct (peek_length stream st off HI Ho Hw) as (H1&H2&H3).
    unfold PeekRegion, wrap64. destruct (Z.ltb_spec off (total_bytes_read st)); [lia|].
    destruct (Z.leb_spec (FirstMissingByte st) off); [lia|]. eexists. split; [done|]. cbn [iov_len].
    destruct (_ =? _); rewrite ?(Z.mod_small _ two64) by (unfold kBlockSizeBytes, two64 in *; lia);
      (split; [lia|]; split; [lia|]; apply region_run; done || lia).
  - intros Ho. unfold PeekRegion. repeat case_match; done || lia.
Qed.

Lemma PeekRegion_correct_witness :
  let st := new_buffer 10 in
  (total_bytes_read st <= 0 < FirstMissingByte st → ¬ wraps_into st 0 →
    ∃ iov, PeekRegion st 0 = Some iov ∧ 0 < iov_len iov ∧ 0 + iov_len iov <= FirstMissingByte st
      ∧ iov_bytes st iov = Some (slice (λ z, z) 0 (iov_len iov)))
  ∧ (¬ total_bytes_read st <= 0 < FirstMissingByte st → PeekRegion st 0 = None)
  ∧ (PeekRegion wrapped_buffer 5000 = Some (mk_iovec 0 5000 (two64 - 4000))
     ∧ ReadableBytes wrapped_buffer = 12384
     ∧ iov_bytes wrapped_buffer (mk_iovec 0 5000 (two64 - 4000)) = None).
Proof. intros st. apply (PeekRegion_correct (λ z, z)). by apply new_buffer_inv. Defined.
End SequencerBuffer.
