(* ===== verification/StreamSequencer.v ===== *)
(** [QuicStreamSequencer] (quic/core/quic_stream_sequencer.cc): the receive side of a stream above its buffer. It
    tells the stream when there is something to read, passes on the bytes consumed to flow control, discards data for a
    stream that has stopped reading, and finds the end of the stream.

    The stream is a function from what has happened to what it does when it is told that data is available: it reads,
    stops reading or blocks the sequencer. Calls to the stream are a log, in which reads also leave
    the bytes they hand out and, after the stream has acted, whether it finds the sequencer closed. *)

From S2P Require Import Prelude OrderedSet IntervalSet Stream SequencerBuffer.

Module QuicStreamSequencer.
Abbreviation buffer := SequencerBuffer.t.
Abbreviation QuicErrorCode := SequencerBuffer.QuicErrorCode.

Definition kStreamReceiveWindowLimit : Z := 16 * 1024 * 1024.
Definition kMaxOffset : Z := two64 - 1.

Inductive QuicRstStreamErrorCode := QUIC_MULTIPLE_TERMINATION_OFFSETS | QUIC_ERROR_PROCESSING_STREAM.

Inductive call :=
  | OnDataAvailable
  | OnFinRead
  | AddBytesConsumed (bytes : Z)
  | Reset (error : QuicRstStreamErrorCode)
  | CloseConnectionWithDetails (error : QuicErrorCode)
  | Read_ (data : list Z)
  | Looked (closed : bool).

Record t := mk {
  buffered_frames : buffer;
  close_offset : Z;
  blocked : bool;
  num_frames_received : Z;
  num_duplicate_frames_received : Z;
  ignore_read_data : bool;
  level_triggered : bool;
  stop_reading_when_level_triggered : bool;
}.
Definition io : Type := t * list call.

Definition with_buffer (st : t) (b : buffer) : t :=
  mk b (close_offset st) (blocked st) (num_frames_received st) (num_duplicate_frames_received st) (ignore_read_data st)
    (level_triggered st) (stop_reading_when_level_triggered st).
Definition with_close (st : t) (o : Z) : t :=
  mk (buffered_frames st) o (blocked st) (num_frames_received st) (num_duplicate_frames_received st) (ignore_read_data st)
    (level_triggered st) (stop_reading_when_level_triggered st).
Definition with_blocked (st : t) (b : bool) : t :=
  mk (buffered_frames st) (close_offset st) b (num_frames_received st) (num_duplicate_frames_received st)
    (ignore_read_data st) (level_triggered st) (stop_reading_when_level_triggered st).
Definition with_ignore (st : t) (b : bool) : t :=
  mk (buffered_frames st) (close_offset st) (blocked st) (num_frames_received st) (num_duplicate_frames_received st)
    b (level_triggered st) (stop_reading_when_level_triggered st).
Definition with_counts (st : t) (frames duplicates : Z) : t :=
  mk (buffered_frames st) (close_offset st) (blocked st) frames duplicates (ignore_read_data st)
    (level_triggered st) (stop_reading_when_level_triggered st).

(** [flag] is quic_stop_reading_when_level_triggered. *)
Definition new (flag : bool) : t :=
  mk (SequencerBuffer.new_buffer kStreamReceiveWindowLimit) kMaxOffset false 0 0 false false flag.

Definition log (s : io) (c : call) : io := (s.1, s.2 ++ [c]).

(** ** Operations *)

Definition HasBytesToRead (st : t) : bool := SequencerBuffer.HasBytesToRead (buffered_frames st).
Definition ReadableBytes (st : t) : Z := SequencerBuffer.ReadableBytes (buffered_frames st).
Definition NumBytesBuffered (st : t) : Z := SequencerBuffer.BytesBuffered (buffered_frames st).
Definition NumBytesConsumed (st : t) : Z := SequencerBuffer.BytesConsumed (buffered_frames st).
Definition IsClosed (st : t) : bool := close_offset st <=? SequencerBuffer.BytesConsumed (buffered_frames st).
Definition set_level_triggered (b : bool) (st : t) : t :=
  mk (buffered_frames st) (close_offset st) (blocked st) (num_frames_received st) (num_duplicate_frames_received st)
    (ignore_read_data st) b (stop_reading_when_level_triggered st).

Definition GetReadableRegions (iov_len : Z) (st : t) : list SequencerBuffer.iovec :=
  SequencerBuffer.GetReadableRegions (buffered_frames st) iov_len.
Definition PeekRegion (offset : Z) (st : t) : option SequencerBuffer.iovec := SequencerBuffer.PeekRegion (buffered_frames st) offset.
Definition PrefetchNextRegion (s : io) : io * option SequencerBuffer.iovec :=
  let '(b, region) := SequencerBuffer.PrefetchNextRegion (buffered_frames s.1) in ((with_buffer s.1 b, s.2), region).

Definition Readv (iov : list Z) (s : io) : io :=
  match SequencerBuffer.Readv (buffered_frames s.1) iov with
  | (SequencerBuffer.QUIC_NO_ERROR, b, data) =>
      (with_buffer s.1 b, s.2 ++ [Read_ data; AddBytesConsumed (zlen data)])
  | (e, b, data) => (with_buffer s.1 b, s.2 ++ [Read_ data; CloseConnectionWithDetails e])
  end.
Definition Read (s : io) : io := Readv [ReadableBytes s.1] s.

Definition MarkConsumed (num_bytes_consumed : Z) (s : io) : io :=
  let '(b, result) := SequencerBuffer.MarkConsumed (buffered_frames s.1) num_bytes_consumed in
  if negb result then log (with_buffer s.1 b, s.2) (Reset QUIC_ERROR_PROCESSING_STREAM)
  else log (with_buffer s.1 b, s.2) (AddBytesConsumed num_bytes_consumed).

Definition SetBlockedUntilFlush (s : io) : io := (with_blocked s.1 true, s.2).

(** [available] is what the stream does in [OnDataAvailable]. *)
Definition MaybeCloseStream (available : io → io) (s : io) : bool * io :=
  if blocked s.1 || negb (IsClosed s.1) then (false, s) else
  let s := if ignore_read_data s.1 then log s OnFinRead else available s in
  (true, (with_buffer s.1 (SequencerBuffer.Clear (buffered_frames s.1)), s.2)).

Definition FlushBufferedFrames (available : io → io) (s : io) : io :=
  let '(b, bytes_flushed) := SequencerBuffer.FlushBufferedFrames (buffered_frames s.1) in
  (MaybeCloseStream available (log (with_buffer s.1 b, s.2) (AddBytesConsumed bytes_flushed))).2.

Definition StopReading (available : io → io) (s : io) : io :=
  if ignore_read_data s.1 then s else FlushBufferedFrames available (with_ignore s.1 true, s.2).

Definition ReleaseBuffer (st : t) : t := with_buffer st (SequencerBuffer.ReleaseWholeBuffer (buffered_frames st)).
Definition ReleaseBufferIfEmpty (st : t) : t :=
  if SequencerBuffer.Empty (buffered_frames st)
  then with_buffer st (SequencerBuffer.ReleaseWholeBuffer (buffered_frames st)) else st.

(** ** The stream *)

(** What the stream may do when it is told that there is data. A region it looks at and marks consumed is bytes
    handed out like those of [Readv]. *)
Inductive action := ActReadv (iov : list Z) | ActConsume (n : Z) | ActPrefetch | ActStopReading | ActBlock.

(** A stream that stops reading is not told of data any more: [MaybeCloseStream] then takes the other branch. *)
Definition act (a : action) (s : io) : io :=
  match a with
  | ActReadv iov => Readv iov s
  | ActConsume n =>
      match SequencerBuffer.regions_bytes (buffered_frames s.1) (GetReadableRegions 1 s.1) with
      | Some shown => let n := Z.min n (zlen shown) in MarkConsumed n (log s (Read_ (take (Z.to_nat n) shown)))
      | None => s
      end
  | ActPrefetch => (PrefetchNextRegion s).1
  | ActStopReading => StopReading (λ s, s) s
  | ActBlock => SetBlockedUntilFlush s
  end.

Section stream.
Context (stream_acts : io → list action).

Definition acts (l : list action) (s : io) : io :=
  let s := fold_left (λ s a, act a s) l s in log s (Looked (IsClosed s.1)).
Definition available (s : io) : io := let s := log s OnDataAvailable in acts (stream_acts s) s.

Definition SetUnblocked (s : io) : io :=
  let s := (with_blocked s.1 false, s.2) in
  if IsClosed s.1 || HasBytesToRead s.1 then available s else s.

Definition CloseStreamAtOffset (offset : Z) (s : io) : io :=
  if negb (close_offset s.1 =? kMaxOffset) && negb (offset =? close_offset s.1)
  then log s (Reset QUIC_MULTIPLE_TERMINATION_OFFSETS)
  else (MaybeCloseStream available (with_close s.1 offset, s.2)).2.

Definition OnFrameData (byte_offset : Z) (data : list Z) (s : io) : io :=
  let st := s.1 in
  let previous_readable_bytes := ReadableBytes st in
  let '(result, b, bytes_written) := SequencerBuffer.OnStreamData (buffered_frames st) byte_offset data in
  let s := (with_buffer st b, s.2) in
  match result with
  | SequencerBuffer.QUIC_NO_ERROR =>
      if bytes_written =? 0
      then (with_counts s.1 (num_frames_received s.1) (num_duplicate_frames_received s.1 + 1), s.2) else
      if blocked s.1 then s else
      if level_triggered s.1 then
        if previous_readable_bytes <? ReadableBytes s.1 then
          if stop_reading_when_level_triggered s.1 && ignore_read_data s.1
          then FlushBufferedFrames available s else available s
        else s
      else
        let stream_unblocked := (previous_readable_bytes =? 0) && (0 <? ReadableBytes s.1) in
        if stream_unblocked then
          if ignore_read_data s.1 then FlushBufferedFrames available s else available s
        else s
  | _ => log s (CloseConnectionWithDetails result)
  end.

Definition OnStreamFrame (offset : Z) (fin : bool) (data : list Z) (s : io) : io :=
  let s := (with_counts s.1 (num_frames_received s.1 + 1) (num_duplicate_frames_received s.1), s.2) in
  if fin then
    let s := CloseStreamAtOffset (wrap64 (offset + zlen data)) s in
    if zlen data =? 0 then s else OnFrameData offset data s
  else OnFrameData offset data s.

Definition OnCryptoFrame (offset : Z) (data : list Z) (s : io) : io :=
  OnFrameData offset data
    (with_counts s.1 (num_frames_received s.1 + 1) (num_duplicate_frames_received s.1), s.2).


(** ** The invariant *)

(** The bytes passed on to flow control, and those handed to the stream. *)
Fixpoint total_consumed (calls : list call) : Z :=
  match calls with
  | [] => 0
  | AddBytesConsumed n :: calls => n + total_consumed calls
  | _ :: calls => total_consumed calls
  end.
Fixpoint read_data (calls : list call) : list Z :=
  match calls with [] => [] | Read_ d :: calls => d ++ read_data calls | _ :: calls => read_data calls end.
Definition is_close (c : call) : bool := match c with CloseConnectionWithDetails _ => true | _ => false end.
Definition end_seen (calls : list call) : Prop := OnFinRead ∈ calls ∨ Looked true ∈ calls.

Lemma total_consumed_app a b : total_consumed (a ++ b) = total_consumed a + total_consumed b.
Proof. induction a as [|c a IH]; [done|]. destruct c; cbn; lia. Qed.
Lemma read_data_app a b : read_data (a ++ b) = read_data a ++ read_data b.
Proof. induction a as [|c a IH]; [done|]. destruct c; cbn; rewrite IH, ?app_assoc; done. Qed.

Context (stream : Z → Z) (limit : Z) (Hlimit : 0 <= limit) (Hroom : limit + kStreamReceiveWindowLimit < kMaxOffset).

Definition allowed (c : call) : Prop :=
  match c with
  | Reset e => e = QUIC_MULTIPLE_TERMINATION_OFFSETS
  | CloseConnectionWithDetails e =>
      e = SequencerBuffer.QUIC_INTERNAL_ERROR ∨ e = SequencerBuffer.QUIC_TOO_MANY_STREAM_DATA_INTERVALS
      ∨ e = SequencerBuffer.QUIC_EMPTY_STREAM_FRAME_NO_FIN
  | _ => True
  end.

Record Good (s : io) : Prop := mk_good {
  good_live : SequencerBuffer.Live stream limit kStreamReceiveWindowLimit (buffered_frames s.1);
  good_consumed : total_consumed s.2 = NumBytesConsumed s.1;
  good_read : ignore_read_data s.1 = false → read_data s.2 = slice stream 0 (NumBytesConsumed s.1);
  good_calls : Forall allowed s.2;
}.

(** What the operations keep: the log grows, and nothing becomes readable. *)
Definition quiet (s s' : io) : Prop := s.2 ⊆ s'.2 ∧ (ReadableBytes s.1 = 0 → ReadableBytes s'.1 = 0).

Lemma quiet_trans s s1 s2 : quiet s s1 → quiet s1 s2 → quiet s s2.
Proof. intros [] []. split; [set_solver|auto]. Qed.

Lemma quiet_log s c : quiet s (log s c).
Proof. split; [cbn; set_solver|done]. Qed.

Lemma end_seen_mono l l' : l ⊆ l' → end_seen l → end_seen l'.
Proof. intros H [?|?]; [left|right]; by apply H. Qed.

Lemma good_total s : Good s → 0 <= NumBytesConsumed s.1 <= limit.
Proof.
  intros HG. pose proof (SequencerBuffer.live_total _ _ _ _ Hlimit (good_live _ HG)).
  destruct (good_live _ HG) as (HI&_). pose proof (SequencerBuffer.inv_total _ _ HI). done.
Qed.

Lemma good_log s c : Good s → allowed c → total_consumed [c] = 0 → read_data [c] = [] → Good (log s c).
Proof.
  intros [HL Hc Hr Ha] Hall E1 E2. split; cbn [log fst snd].
  - done.
  - rewrite total_consumed_app, E1. lia.
  - rewrite read_data_app, E2, app_nil_r. done.
  - apply Forall_app. split; [done|]. by repeat constructor.
Qed.

(** Consuming [n] bytes, which the stream reads. *)
Lemma good_consume s b data :
  Good s → SequencerBuffer.consumed stream (buffered_frames s.1) b (zlen data) →
  data = slice stream (NumBytesConsumed s.1) (zlen data) →
  Good (with_buffer s.1 b, s.2 ++ [Read_ data; AddBytesConsumed (zlen data)])
  ∧ quiet s (with_buffer s.1 b, s.2 ++ [Read_ data; AddBytesConsumed (zlen data)]).
Proof.
  intros HG Hcons Hdata. pose proof (good_total s HG) as Ht. destruct HG as [HL Hc Hr Ha].
  pose proof (SequencerBuffer.consumed_readable _ _ _ _ Hcons) as Hread. destruct Hcons as (HI&Htot&Hrec&Hcap).
  pose proof (SequencerBuffer.readable_nonneg _ _ HI). pose proof (zlen_nonneg data).
  split; [split|split]; cbn [fst snd with_buffer buffered_frames ignore_read_data].
  - destruct HL as (_&Hcap0&Hz). split; [done|]. split; [congruence|]. by rewrite Hrec.
  - rewrite total_consumed_app. cbn. unfold NumBytesConsumed, SequencerBuffer.BytesConsumed in *. cbn. lia.
  - intros Hi. specialize (Hr Hi). rewrite read_data_app. cbn. rewrite app_nil_r, Hr.
    unfold NumBytesConsumed, SequencerBuffer.BytesConsumed in *. cbn. rewrite Htot. pose proof (slice_split stream 0 (SequencerBuffer.total_bytes_read (buffered_frames s.1)) (zlen data) ltac:(lia) ltac:(lia)) as E.
    rewrite Z.add_0_l in E. rewrite <-E. by f_equal.
  - apply Forall_app. split; [done|]. by repeat constructor.
  - intros x Hx. apply elem_of_app. by left.
  - unfold ReadableBytes. cbn. lia.
Qed.

Lemma Readv_good iov s : Good s → Good (Readv iov s) ∧ quiet s (Readv iov s).
Proof.
  intros HG. destruct (good_live _ HG) as (HI&_). unfold Readv.
  destruct (SequencerBuffer.Readv_spec stream _ iov HI) as (b&->&Hc).
  pose proof (SequencerBuffer.iov_total_nonneg iov). pose proof (SequencerBuffer.readable_nonneg _ _ HI).
  set (n := Z.min _ _) in *. assert (Hz : zlen (slice stream (SequencerBuffer.total_bytes_read (buffered_frames s.1)) n) = n)
    by (apply slice_length; lia).
  apply good_consume; [done|by rewrite Hz|by rewrite Hz].
Qed.

Lemma ActConsume_good n s : 0 <= n → Good s → Good (act (ActConsume n) s) ∧ quiet s (act (ActConsume n) s).
Proof.
  intros Hn HG. destruct (good_live _ HG) as (HI&_). cbn [act]. unfold GetReadableRegions.
  destruct (SequencerBuffer.GetReadableRegions_spec stream _ 1 HI ltac:(done)) as (m&->&Hm&_&_&_&_).
  rewrite slice_length by lia. set (k := Z.min n m).
  assert (Hk : take (Z.to_nat k) (slice stream (SequencerBuffer.total_bytes_read (buffered_frames s.1)) m)
               = slice stream (SequencerBuffer.total_bytes_read (buffered_frames s.1)) k).
  { replace m with (k + (m - k)) by lia. rewrite <-slice_split by lia.
    rewrite take_app_length'; [done|]. pose proof (slice_length stream (SequencerBuffer.total_bytes_read (buffered_frames s.1)) k ltac:(lia)) as Hl.
    unfold zlen in Hl. lia. }
  rewrite Hk. unfold MarkConsumed. cbn [log fst snd].
  pose proof (SequencerBuffer.MarkConsumed_spec stream _ k HI ltac:(lia)) as Hs.
  destruct (Z.ltb_spec (SequencerBuffer.ReadableBytes (buffered_frames s.1)) k); [lia|]. destruct Hs as (b&->&Hc). cbn [negb].
  assert (Hz : zlen (slice stream (SequencerBuffer.total_bytes_read (buffered_frames s.1)) k) = k) by (apply slice_length; lia).
  unfold log. cbn [fst snd]. rewrite <-app_assoc. cbn [app].
  pose proof (good_consume s b (slice stream (SequencerBuffer.total_bytes_read (buffered_frames s.1)) k) HG) as Hgo.
  rewrite Hz in Hgo. by apply Hgo.
Qed.

Lemma PrefetchNextRegion_good s : Good s → Good (PrefetchNextRegion s).1 ∧ quiet s (PrefetchNextRegion s).1.
Proof.
  intros HG. unfold PrefetchNextRegion, SequencerBuffer.PrefetchNextRegion. destruct (SequencerBuffer.PeekRegion _ _); cbn [fst].
  - split; [|by split]. destruct HG as [(HI&HL) ? ? ?]. split; try done. split; [by apply SequencerBuffer.with_prefetched_inv|done].
  - destruct HG. split; [by split|by split].
Qed.

Lemma clear_readable b : 0 <= SequencerBuffer.total_bytes_read b → SequencerBuffer.ReadableBytes (SequencerBuffer.Clear b) = 0.
Proof.
  intros H0. destruct (Z.eq_dec (SequencerBuffer.total_bytes_read b) 0) as [E|E].
  - unfold SequencerBuffer.ReadableBytes, SequencerBuffer.FirstMissingByte, SequencerBuffer.Clear. cbn. by rewrite E.
  - assert (IntervalSet.Add IntervalSet.Clear (Interval.mk 0 (SequencerBuffer.total_bytes_read b))
      = [Interval.mk 0 (SequencerBuffer.total_bytes_read b)]) as Ea.
    { destruct (SequencerBuffer.zero_interval stream _ H0) as (Hv&Hd&_). apply IntervalSet.valid_canonical; [done| |].
      - apply IntervalSet.valid_single. cbn. lia.
      - intros z. rewrite Hd, IntervalSet.den_cons, IntervalSet.den_nil. unfold Interval.den. cbn. tauto. }
    unfold SequencerBuffer.ReadableBytes, SequencerBuffer.FirstMissingByte, SequencerBuffer.Clear. cbn. rewrite Ea. cbn. lia.
Qed.

Lemma clear_live b :
  SequencerBuffer.Live stream limit kStreamReceiveWindowLimit b → SequencerBuffer.Live stream limit kStreamReceiveWindowLimit (SequencerBuffer.Clear b).
Proof.
  intros HL. pose proof (SequencerBuffer.live_total _ _ _ _ Hlimit HL) as Ht. destruct HL as (HI&Hc&_).
  pose proof (SequencerBuffer.inv_total _ _ HI) as H0. split; [|split; [done|]].
  - apply SequencerBuffer.Clear_inv; [apply (SequencerBuffer.inv_cap _ _ HI)|done|apply (SequencerBuffer.inv_wf _ _ HI)].
  - intros z. destruct (SequencerBuffer.zero_interval stream _ H0) as (_&Hd&_). cbn. rewrite Hd. lia.
Qed.

(** Dropping what is buffered. *)
Lemma good_clear s :
  Good s → Good (with_buffer s.1 (SequencerBuffer.Clear (buffered_frames s.1)), s.2)
  ∧ ReadableBytes (with_buffer s.1 (SequencerBuffer.Clear (buffered_frames s.1))) = 0.
Proof.
  intros [HL Hc Hr Ha]. split; [split; try done; by apply clear_live|].
  apply clear_readable. destruct HL as (HI&_). apply (SequencerBuffer.inv_total _ _ HI).
Qed.

(** What holds of the reaction of the stream. *)
Definition keeps (av : io → io) : Prop := ∀ s, Good s → Good (av s) ∧ s.2 ⊆ (av s).2.

Lemma MaybeCloseStream_good av s :
  keeps av ∨ ignore_read_data s.1 = true → Good s → let s' := (MaybeCloseStream av s).2 in Good s' ∧ quiet s s'.
Proof.
  intros Hav HG. unfold MaybeCloseStream. destruct (_ || _); [split; [done|by split]|].
  assert (Hs : let s1 := if ignore_read_data s.1 then log s OnFinRead else av s in Good s1 ∧ s.2 ⊆ s1.2).
  { destruct (ignore_read_data s.1) eqn:E.
    - split; [by apply good_log|cbn; set_solver].
    - destruct Hav as [Hav|]; [by apply Hav|done]. }
  destruct Hs as [HG1 Hsub]. set (s1 := if ignore_read_data s.1 then _ else _) in *. destruct (good_clear s1 HG1) as [H1 H2].
  split; [exact H1|]. split; [exact Hsub|]. by intros _.
Qed.

(** Everything up to the end of what has arrived is gone. *)
Lemma good_flush s :
  Good s → ignore_read_data s.1 = true →
  let '(b, n) := SequencerBuffer.FlushBufferedFrames (buffered_frames s.1) in
  let s1 := log (with_buffer s.1 b, s.2) (AddBytesConsumed n) in
  Good s1 ∧ ReadableBytes s1.1 = 0 ∧ s.2 ⊆ s1.2.
Proof.
  intros HG Hi. destruct (good_live _ HG) as (HI&Hcap&Hz).
  pose proof (SequencerBuffer.FlushBufferedFrames_spec stream _ HI) as Hf.
  destruct (SequencerBuffer.FlushBufferedFrames (buffered_frames s.1)) as [b n] eqn:Ef. destruct Hf as (HI'&Ht&Hn&Hr&Hcap').
  destruct HG as [HL Hc Hread Ha]. split; [split|split; [exact Hr|cbn; set_solver]]; cbn [log fst snd with_buffer buffered_frames ignore_read_data].
  - split; [done|]. split; [congruence|]. intros z Hd. pose proof (SequencerBuffer.inv_range _ _ HI' z Hd) as Hrange.
    unfold SequencerBuffer.FlushBufferedFrames in Ef. injection Ef as <- _.
    set (b1 := SequencerBuffer.mk _ _ _ _ _ _) in *.
    assert (H0 : 0 <= SequencerBuffer.total_bytes_read b1) by (pose proof (SequencerBuffer.inv_total _ _ HI'); done).
    destruct (SequencerBuffer.zero_interval stream _ H0) as (_&Hden&_). change (SequencerBuffer.bytes_received (SequencerBuffer.Clear b1)) with (IntervalSet.Add IntervalSet.Clear (Interval.mk 0 (SequencerBuffer.total_bytes_read b1))) in Hd.
    apply Hden in Hd. change (SequencerBuffer.total_bytes_read b1) with (SequencerBuffer.NextExpectedByte (buffered_frames s.1)) in Hd.
    unfold SequencerBuffer.NextExpectedByte, IntervalSet.rbegin in Hd.
    destruct (last (SequencerBuffer.bytes_received (buffered_frames s.1))) as [l|] eqn:El; [|lia].
    apply last_Some_elem_of in El. pose proof (IntervalSet.valid_nonempty _ _ (SequencerBuffer.inv_valid _ _ HI) El).
    assert (IntervalSet.den (SequencerBuffer.bytes_received (buffered_frames s.1)) (imax l - 1)) as Hl.
    { apply IntervalSet.den_elem. exists l. split; [done|]. unfold Interval.den. lia. }
    specialize (Hz _ Hl). lia.
  - rewrite total_consumed_app. cbn. unfold NumBytesConsumed, SequencerBuffer.BytesConsumed in *. cbn. lia.
  - congruence.
  - apply Forall_app. split; [done|]. by repeat constructor.
Qed.

Lemma FlushBufferedFrames_good av s :
  Good s → ignore_read_data s.1 = true → let s' := FlushBufferedFrames av s in
  Good s' ∧ ReadableBytes s'.1 = 0 ∧ s.2 ⊆ s'.2 ∧ ignore_read_data s'.1 = true
  ∧ blocked s'.1 = blocked s.1 ∧ (blocked s.1 = false → IsClosed s'.1 = true → end_seen s'.2).
Proof.
  intros HG Hi. pose proof (good_flush s HG Hi) as Hf. unfold FlushBufferedFrames.
  destruct (SequencerBuffer.FlushBufferedFrames (buffered_frames s.1)) as [b n]. destruct Hf as (HG1&Hr1&Hs1).
  set (s1 := log _ _) in *. destruct (MaybeCloseStream_good av s1 (or_intror Hi) HG1) as (HG2&Hsub&Hr2).
  split; [done|]. split; [by apply Hr2|]. split; [set_solver|]. unfold MaybeCloseStream in *. cbn [s1 log fst snd with_buffer blocked ignore_read_data] in *.
  rewrite Hi. destruct (blocked s.1) eqn:Eb; cbn [orb]; [by split_and!|].
  destruct (IsClosed _) eqn:Ec; cbn [negb].
  - split_and!; [done..|]. intros _ _. left. cbn. apply elem_of_app. right. by left.
  - split_and!; try done. cbn. unfold IsClosed in *. cbn in *. congruence.
Qed.

Definition good_action (a : action) : Prop := match a with ActConsume n => 0 <= n | _ => True end.

Lemma act_good a s : good_action a → Good s → Good (act a s) ∧ quiet s (act a s).
Proof.
  intros Ha HG. destruct a as [iov|n| | |]; cbn [act good_action] in *.
  - by apply Readv_good.
  - by apply ActConsume_good.
  - by apply PrefetchNextRegion_good.
  - unfold StopReading. destruct (ignore_read_data s.1) eqn:E; [split; [done|by split]|].
    assert (HG1 : Good (with_ignore s.1 true, s.2)) by (destruct HG; by split).
    destruct (FlushBufferedFrames_good (λ s, s) (with_ignore s.1 true, s.2) HG1 eq_refl) as (H1&H2&H3&_). split; [done|]. by split.
  - split; [destruct HG; by split|by split].
Qed.

Lemma acts_good l s : Forall good_action l → Good s → Good (acts l s) ∧ quiet s (acts l s) ∧ Looked (IsClosed (acts l s).1) ∈ (acts l s).2.
Proof.
  intros Hl HG. unfold acts. assert (Hf : Good (fold_left (λ s a, act a s) l s) ∧ quiet s (fold_left (λ s a, act a s) l s)).
  { revert s HG. induction Hl as [|a l Ha Hl IH]; intros s HG; cbn [fold_left]; [split; [done|by split]|].
    destruct (act_good a s Ha HG) as [H1 H2]. destruct (IH _ H1) as [H3 H4]. split; [done|]. by eapply quiet_trans. }
  destruct Hf as [H1 H2]. split; [by apply good_log|]. split; [eapply quiet_trans; [done|apply quiet_log]|].
  cbn. apply elem_of_app. right. by left.
Qed.

Context (Hacts : ∀ s, Forall good_action (stream_acts s)).

Lemma available_good s : Good s → Good (available s) ∧ quiet s (available s) ∧ Looked (IsClosed (available s).1) ∈ (available s).2.
Proof.
  intros HG. unfold available. destruct (acts_good (stream_acts (log s OnDataAvailable)) (log s OnDataAvailable)) as (H1&H2&H3);
    [done|by apply good_log|]. split; [done|]. split; [|done]. eapply quiet_trans; [apply quiet_log|done].
Qed.

Lemma available_keeps : keeps available.
Proof. intros s HG. destruct (available_good s HG) as (?&[? _]&_). done. Qed.

(** A stream that takes all there is when it is told, unless it blocks the sequencer. *)
Definition attentive : Prop := ∀ s, Good s → blocked s.1 = false → ReadableBytes (available s).1 = 0 ∨ blocked (available s).1 = true.

(** Nothing is left unread or unnoticed. *)
Definition Served (s : io) : Prop := blocked s.1 = false → ReadableBytes s.1 = 0 ∧ (IsClosed s.1 = true → end_seen s.2).

Lemma available_served s : attentive → Good s → blocked s.1 = false → Served (available s).
Proof.
  intros Hatt HG Hb Hb'. destruct (Hatt s HG Hb) as [Hr|Hr]; [|congruence]. split; [done|]. intros Hc. right.
  destruct (available_good s HG) as (_&_&Hl). by rewrite Hc in Hl.
Qed.

Lemma served_buffer s b :
  Served s → SequencerBuffer.ReadableBytes b = 0 → SequencerBuffer.total_bytes_read b = SequencerBuffer.total_bytes_read (buffered_frames s.1) →
  Served (with_buffer s.1 b, s.2).
Proof.
  intros Hs Hr Ht Hb. destruct (Hs Hb) as [_ Hc]. split; [done|]. unfold IsClosed, SequencerBuffer.BytesConsumed in *. cbn in *.
  by rewrite Ht.
Qed.

(** [MaybeCloseStream] leaves a closed stream served. *)
Lemma MaybeCloseStream_served s :
  attentive → Good s → (blocked s.1 = false → ReadableBytes s.1 = 0) →
  Served (MaybeCloseStream available s).2.
Proof.
  intros Hatt HG Hr. unfold MaybeCloseStream. destruct (blocked s.1) eqn:Eb; cbn [orb].
  { intros Hb. cbn in Hb. congruence. }
  destruct (IsClosed s.1) eqn:Ec; cbn [negb snd].
  2:{ intros _. split; [by apply Hr|]. cbn. congruence. }
  destruct (ignore_read_data s.1) eqn:Ei.
  - assert (HG1 : Good (log s OnFinRead)) by by apply good_log. destruct (good_clear _ HG1) as [_ Hr1]. intros _. split; [done|]. intros _.
    left. cbn. apply elem_of_app. right. by left.
  - destruct (available_good s HG) as (HG1&_). destruct (good_clear _ HG1) as [_ Hr1].
    by apply served_buffer; [apply available_served| |].
Qed.

(** ** Frames *)

Definition good_frame (off : Z) (data : list Z) : Prop :=
  0 <= off ∧ off + zlen data <= limit ∧ SequencerBuffer.piece_of stream off data.

Definition closed_by_error (calls : list call) : Prop := ∃ e, CloseConnectionWithDetails e ∈ calls.

Lemma CloseStreamAtOffset_good off s :
  Good s → let s' := CloseStreamAtOffset off s in Good s' ∧ s.2 ⊆ s'.2 ∧ (attentive → Served s → Served s').
Proof.
  intros HG. unfold CloseStreamAtOffset. destruct (_ && _).
  - split; [by apply good_log|]. split; [apply quiet_log|]. intros _ Hs Hb. destruct (Hs Hb) as [H1 H2]. split; [done|].
    intros Hc. eapply end_seen_mono; [|by apply H2]. cbn. set_solver.
  - assert (HG1 : Good (with_close s.1 off, s.2)) by (destruct HG; by split).
    destruct (MaybeCloseStream_good available (with_close s.1 off, s.2) (or_introl available_keeps) HG1) as (H1&H2&_).
    split; [done|]. split; [done|]. intros Hatt Hs. apply MaybeCloseStream_served; [done..|]. intros Hb. by apply Hs.
Qed.

(** A frame that brings nothing new. *)
Lemma accepted_zero b b' off size :
  SequencerBuffer.Inv stream b → SequencerBuffer.accepted stream b b' off size 0 →
  SequencerBuffer.ReadableBytes b' = SequencerBuffer.ReadableBytes b.
Proof.
  intros HI (HI'&Ht&_&Hd&Hn). pose proof (SequencerBuffer.inv_buffered _ _ HI). pose proof (SequencerBuffer.inv_buffered _ _ HI').
  assert (SequencerBuffer.bytes_received b' = SequencerBuffer.bytes_received b) as E.
  { apply IntervalSet.measure_same; [by eapply SequencerBuffer.inv_valid..| |lia]. intros z Hz. apply Hd. by left. }
  unfold SequencerBuffer.ReadableBytes, SequencerBuffer.FirstMissingByte. by rewrite E, Ht.
Qed.

(** What arrives is told, flushed or left to a blocked sequencer. *)
Lemma OnFrameData_good off data s :
  good_frame off data → Good s → let s' := OnFrameData off data s in
  Forall allowed s'.2 ∧ s.2 ⊆ s'.2 ∧ (closed_by_error s'.2 ∨ Good s' ∧ (attentive → Served s → Served s')).
Proof.
  intros (Hoff&Hend&Hp) HG. destruct (good_live _ HG) as (HI&Hcap&Hz). pose proof (good_total s HG) as Ht. pose proof (zlen_nonneg data).
  pose proof Hroom as Hroom'. unfold kStreamReceiveWindowLimit, kMaxOffset in Hroom'.
  unfold NumBytesConsumed, SequencerBuffer.BytesConsumed in Ht. pose proof Hcap as Hcap1. unfold kStreamReceiveWindowLimit in Hcap1.
  pose proof (SequencerBuffer.OnStreamData_spec stream _ off data HI Hp ltac:(lia) ltac:(lia) ltac:(lia)) as Hs.
  unfold OnFrameData. destruct (SequencerBuffer.OnStreamData (buffered_frames s.1) off data) as [[code b] n].
  assert (Herr : ∀ e, allowed (CloseConnectionWithDetails e) → let s' := log (with_buffer s.1 b, s.2) (CloseConnectionWithDetails e) in
    Forall allowed s'.2 ∧ s.2 ⊆ s'.2 ∧ (closed_by_error s'.2 ∨ Good s' ∧ (attentive → Served s → Served s'))).
  { intros e He. split; [|split; [cbn; set_solver|]]; cbn [log snd].
    - apply Forall_app. split; [apply HG|by apply Forall_singleton].
    - left. exists e. apply elem_of_app. right. by left. }
  destruct (Z.eqb_spec (zlen data) 0) as [E0|E0].
  { destruct Hs as (->&->&->). apply Herr. cbn. tauto. }
  destruct (_ <? off + zlen data).
  { destruct Hs as (->&->&->). apply Herr. cbn. tauto. }
  destruct Hs as [(->&Hacc)|(->&->&_)]; [|apply Herr; cbn; tauto].
  pose proof Hacc as (HI'&Ht'&Hcap'&Hden&_). cbn [fst snd with_buffer blocked level_triggered ignore_read_data stop_reading_when_level_triggered].
  assert (HG1 : Good (with_buffer s.1 b, s.2)).
  { destruct HG as [HL Hc Hr Ha]. split; cbn [fst snd with_buffer buffered_frames ignore_read_data]; try done.
    - split; [done|]. split; [congruence|]. intros z [?|?]%Hden; [by apply Hz|lia].
    - rewrite Hc. unfold NumBytesConsumed, SequencerBuffer.BytesConsumed. cbn. by rewrite Ht'.
    - unfold NumBytesConsumed, SequencerBuffer.BytesConsumed in *. cbn. by rewrite Ht'. }
  set (s1 := (with_buffer s.1 b, s.2)) in *. pose proof (SequencerBuffer.readable_nonneg _ _ HI') as Hr'.
  assert (Hdone : ∀ s2, Good s2 → s.2 ⊆ s2.2 → (attentive → Served s → Served s2) →
    Forall allowed s2.2 ∧ s.2 ⊆ s2.2 ∧ (closed_by_error s2.2 ∨ Good s2 ∧ (attentive → Served s → Served s2))).
  { intros s2 ? ? ?. split; [by destruct s2; apply good_calls|]. split; [done|]. by right. }
  assert (Hkeep : Served s → ReadableBytes s1.1 = 0 ∨ blocked s.1 = true → Served s1).
  { intros Hserved Hr Hb. destruct Hr as [Hr|Hr]; [|cbn in Hb; congruence]. split; [done|]. intros Hc.
    apply (proj2 (Hserved Hb)). unfold IsClosed, SequencerBuffer.BytesConsumed in *. cbn in Hc. by rewrite <-Ht'. }
  destruct (Z.eqb_spec n 0) as [En|En].
  { apply Hdone; [destruct HG1; by split|done|]. intros _ Hserved.
    destruct (blocked s.1) eqn:Eb; [intros Hb; cbn in Hb; congruence|].
    intros Hb. refine (Hkeep Hserved _ Hb). left. rewrite <-(proj1 (Hserved Eb)). unfold ReadableBytes.
    apply (accepted_zero (buffered_frames s.1) b off (zlen data)); [done|]. subst n. exact Hacc. }
  destruct (blocked s.1) eqn:Eb.
  { apply Hdone; [done|done|]. intros _ Hserved. apply Hkeep; [done|by right]. }
  assert (Hav : Good (available s1) ∧ s.2 ⊆ (available s1).2 ∧ (attentive → Served s → Served (available s1))).
  { destruct (available_good s1 HG1) as (H1&[H2 _]&_). split_and!; [done..|]. intros. by apply available_served. }
  assert (Hfl : ignore_read_data s.1 = true → Good (FlushBufferedFrames available s1) ∧ s.2 ⊆ (FlushBufferedFrames available s1).2
            ∧ (attentive → Served s → Served (FlushBufferedFrames available s1))).
  { intros Hi. destruct (FlushBufferedFrames_good available s1 HG1 Hi) as (H1&H2&H3&_&_&H4). split_and!; [done..|].
    intros _ _ _. split; [done|]. by apply H4. }
  assert (Hquiet : ReadableBytes s1.1 <= ReadableBytes s.1 → attentive → Served s → Served s1).
  { intros Hle _ Hserved. apply (Hkeep Hserved). left. destruct (Hserved Eb) as [E _]. unfold ReadableBytes in *. cbn in *. lia. }
  change (ReadableBytes (with_buffer s.1 b)) with (ReadableBytes s1.1).
  assert (Hstay : ReadableBytes s1.1 <= ReadableBytes s.1 ∨ 0 < ReadableBytes s.1 → attentive → Served s → Served s1).
  { intros [Hle|Hgt]; [by apply Hquiet|]. intros _ Hserved. destruct (Hserved Eb) as [E _]. lia. }
  destruct (level_triggered s.1).
  - destruct (Z.ltb_spec (ReadableBytes s.1) (ReadableBytes s1.1)); [|apply Hdone; [done..|]; apply Hstay; by left].
    destruct (_ && _) eqn:E; [|by apply Hdone; apply Hav]. apply andb_true_iff in E as [_ E]. by apply Hdone; apply (Hfl E).
  - destruct (_ && _) eqn:E.
    + destruct (ignore_read_data s.1) eqn:Ei; [by apply Hdone; apply Hfl|by apply Hdone; apply Hav].
    + apply Hdone; [done..|]. pose proof (SequencerBuffer.readable_nonneg _ _ HI).
      assert (0 <= ReadableBytes s.1) by done. assert (0 <= ReadableBytes s1.1) by done. apply Hstay. lia.
Qed.
(** ** A stream's life *)

(** What happens to a sequencer: frames of the stream, and what the stream does on its own. *)
Inductive event :=
  | EvStreamFrame (offset : Z) (fin : bool) (data : list Z)
  | EvCryptoFrame (offset : Z) (data : list Z)
  | EvActs (l : list action)
  | EvSetUnblocked
  | EvSetLevelTriggered (b : bool)
  | EvReleaseBuffer (if_empty : bool).

Definition step (ev : event) (s : io) : io :=
  match ev with
  | EvStreamFrame off fin data => OnStreamFrame off fin data s
  | EvCryptoFrame off data => OnCryptoFrame off data s
  | EvActs l => acts l s
  | EvSetUnblocked => SetUnblocked s
  | EvSetLevelTriggered b => (set_level_triggered b s.1, s.2)
  | EvReleaseBuffer if_empty => (if if_empty then ReleaseBufferIfEmpty s.1 else ReleaseBuffer s.1, s.2)
  end.

Definition good_event (ev : event) : Prop :=
  match ev with
  | EvStreamFrame off _ data | EvCryptoFrame off data => good_frame off data
  | EvActs l => Forall good_action l
  | _ => True
  end.

(** The connection is not used after it was closed. *)
Definition run (evs : list event) (s : io) : io :=
  fold_left (λ s ev, if existsb is_close s.2 then s else step ev s) evs s.

Lemma closed_by_error_iff calls : closed_by_error calls ↔ existsb is_close calls = true.
Proof.
  rewrite existsb_exists. split.
  - intros [e He]. exists (CloseConnectionWithDetails e). split; [by apply list_elem_of_In|done].
  - intros (c&Hc&E). destruct c; try done. eexists. by apply list_elem_of_In.
Qed.

(** What an operation leaves: a closed connection, or the invariant and a served stream. *)
Definition outcome (s s' : io) : Prop :=
  Forall allowed s'.2 ∧ (closed_by_error s'.2 ∨ Good s' ∧ (attentive → Served s → Served s')).

Lemma outcome_good s s' : Good s' → (attentive → Served s → Served s') → outcome s s'.
Proof. intros H1 H2. split; [apply H1|by right]. Qed.

Lemma act_blocked a s : blocked s.1 = true → blocked (act a s).1 = true.
Proof.
  intros Hb. destruct a as [iov|n| | |]; cbn [act].
  - unfold Readv. destruct (SequencerBuffer.Readv _ _) as [[[] ?] ?]; done.
  - case_match; [|done]. unfold MarkConsumed. destruct (SequencerBuffer.MarkConsumed _ _) as [? []]; done.
  - unfold PrefetchNextRegion. by destruct (SequencerBuffer.PrefetchNextRegion _).
  - unfold StopReading, FlushBufferedFrames, MaybeCloseStream. destruct (ignore_read_data s.1); [done|].
    destruct (SequencerBuffer.FlushBufferedFrames _) as [? ?]. cbn. rewrite Hb. done.
  - done.
Qed.

Lemma acts_blocked l s : blocked s.1 = true → blocked (acts l s).1 = true.
Proof.
  unfold acts. cbn. revert s. induction l as [|a l IH]; intros s Hb; cbn; [done|]. by apply IH, act_blocked.
Qed.

(** A stream that acts on its own leaves nothing that it has not left before. *)
Lemma acts_served l s : Forall good_action l → Good s → Served s → Served (acts l s).
Proof.
  intros Hl HG Hs Hb. destruct (acts_good l s Hl HG) as (_&[_ Hq]&Hlook).
  destruct (blocked s.1) eqn:Eb; [pose proof (acts_blocked l s Eb); congruence|]. destruct (Hs Eb) as [Hr _].
  split; [by apply Hq|]. intros Hc. right. by rewrite Hc in Hlook.
Qed.

Lemma release_live b :
  SequencerBuffer.Live stream limit kStreamReceiveWindowLimit b →
  SequencerBuffer.Live stream limit kStreamReceiveWindowLimit (SequencerBuffer.ReleaseWholeBuffer b).
Proof.
  intros HL. destruct (clear_live b HL) as (HI&Hc&Hz). split; [|by split].
  pose proof (SequencerBuffer.zero_interval stream _ (SequencerBuffer.inv_total _ _ HI)) as (_&Hd&_).
  destruct HI. split; try done. intros z H1 H2. apply Hd in H1. cbn in *. lia.
Qed.

Lemma release_good if_empty s : Good s → outcome s (step (EvReleaseBuffer if_empty) s).
Proof.
  intros HG. destruct (good_clear s HG) as [_ Hr].
  assert (H : outcome s (with_buffer s.1 (SequencerBuffer.ReleaseWholeBuffer (buffered_frames s.1)), s.2)).
  { apply outcome_good; [destruct HG; split; try done; by apply release_live|]. intros _ Hs. by apply served_buffer. }
  cbn [step]. destruct if_empty; [|exact H]. unfold ReleaseBufferIfEmpty. destruct (SequencerBuffer.Empty _); [exact H|].
  by apply outcome_good; destruct s.
Qed.

Lemma SetUnblocked_good s : Good s → outcome s (SetUnblocked s).
Proof.
  intros HG. assert (HG1 : Good (with_blocked s.1 false, s.2)) by (destruct HG; by split). unfold SetUnblocked.
  destruct (IsClosed _) eqn:Ec; cbn [orb].
  { apply outcome_good; [by apply available_good|]. intros. by apply available_served. }
  destruct (HasBytesToRead _) eqn:Eh; [apply outcome_good; [by apply available_good|intros; by apply available_served]|].
  apply outcome_good; [done|]. intros _ _ _. split; [|intros; cbn in *; congruence].
  destruct (good_live _ HG1) as (HI&_). pose proof (SequencerBuffer.readable_nonneg _ _ HI).
  unfold HasBytesToRead, SequencerBuffer.HasBytesToRead, ReadableBytes in *. lia.
Qed.

Lemma frame_good off fin data s : good_frame off data → Good s → outcome s (OnStreamFrame off fin data s).
Proof.
  intros Hf HG. assert (HG1 : Good (with_counts s.1 (num_frames_received s.1 + 1) (num_duplicate_frames_received s.1), s.2))
    by (destruct HG; by split). unfold OnStreamFrame. set (s1 := (_, s.2)) in *.
  assert (Hs1 : Served s → Served s1) by done.
  destruct fin.
  - destruct (CloseStreamAtOffset_good (wrap64 (off + zlen data)) s1 HG1) as (H1&_&H2). set (s2 := CloseStreamAtOffset _ s1) in *.
    destruct (zlen data =? 0); [apply outcome_good; [done|intros; by apply H2]|].
    destruct (OnFrameData_good off data s2 Hf H1) as (H3&_&[H4|[H4 H5]]); split; try done; [by left|right].
    split; [done|]. intros. by apply H5; [|apply H2].
  - destruct (OnFrameData_good off data s1 Hf HG1) as (H3&_&[H4|[H4 H5]]); split; try done; [by left|by right].
Qed.

Lemma step_good ev s : good_event ev → Good s → outcome s (step ev s).
Proof.
  intros He HG. destruct ev as [off fin data|off data|l| |b|e]; cbn [step good_event] in *.
  - by apply frame_good.
  - exact (frame_good off false data s He HG).
  - apply outcome_good; [by apply acts_good|]. intros _. by apply acts_served.
  - by apply SetUnblocked_good.
  - apply outcome_good; [destruct HG; by split|done].
  - by apply release_good.
Qed.

Lemma run_outcome evs s : Forall good_event evs → Good s → outcome s (run evs s).
Proof.
  unfold run. intros He. revert s. induction He as [|ev evs Hev He IH]; intros s HG; cbn [fold_left].
  { by apply outcome_good. }
  destruct (existsb is_close s.2) eqn:Ex; [by apply IH|]. destruct (step_good ev s Hev HG) as (Ha&[Hc|[HG1 Hs1]]).
  - split.
    all: rewrite closed_by_error_iff in Hc; assert (Hstop : fold_left (λ s ev, if existsb is_close s.2 then s else step ev s) evs (step ev s) = step ev s)
      by (clear -Hc; induction evs as [|e evs IH]; cbn [fold_left]; [done|]; by rewrite Hc); rewrite Hstop.
    + done.
    + left. by apply closed_by_error_iff.
  - destruct (IH _ HG1) as (H1&[H2|[H2 H3]]); split; try done; [by left|right]. split; [done|]. intros. by apply H3; [|apply Hs1].
Qed.

Lemma new_is_good flag : Good (new flag, []).
Proof. split; try done. by apply SequencerBuffer.new_buffer_live. Qed.

(** C33. Whatever frames of a stream arrive, in any order and any number of times, and whatever the stream does when it is
    told and on its own: only the errors of the buffer close the connection and only contradicting ends reset the
    stream; flow control is told of exactly the bytes consumed, which a stream that has not stopped reading was
    handed, in order and unchanged, from the first on; and a stream that reads what there is whenever it is told is
    never left, unless it is blocked, with something to read or with an end it has not been shown. *)
Theorem sequencer_serves_the_stream flag evs :
  Forall good_event evs →
  let s := run evs (new flag, []) in
  Forall allowed s.2 ∧ (existsb is_close s.2 = false →
    total_consumed s.2 = NumBytesConsumed s.1 ∧ 0 <= NumBytesConsumed s.1 <= limit
    ∧ (ignore_read_data s.1 = false → read_data s.2 = slice stream 0 (NumBytesConsumed s.1))
    ∧ (attentive → blocked s.1 = false → ReadableBytes s.1 = 0 ∧ (IsClosed s.1 = true → OnFinRead ∈ s.2 ∨ Looked true ∈ s.2))).
Proof.
  intros He. cbv zeta. destruct (run_outcome evs _ He (new_is_good flag)) as [Ha Hg]. split; [done|]. intros Hx.
  destruct Hg as [Hg|[HG Hs]]; [apply closed_by_error_iff in Hg; congruence|].
  split; [apply HG|]. split; [by apply good_total|]. split; [apply HG|]. intros Hatt. apply Hs; [done|]. intros _.
  split; [done|]. intros Hc. by vm_compute in Hc.
Qed.
End stream.

(** A stream that reads all there is, and one that reads a byte at a time and so is not [attentive]. *)
Definition reader (s : io) : list action := [ActReadv [ReadableBytes s.1]].
Definition sipper (s : io) : list action := [ActConsume 1].

Lemma reader_attentive stream limit : attentive reader stream limit.
Proof.
  intros s HG _. left. destruct (good_live _ _ _ HG) as (HI&_). unfold available, acts, reader. cbn [fold_left act]. unfold Readv.
  change (buffered_frames (log s OnDataAvailable).1) with (buffered_frames s.1). change (ReadableBytes (log s OnDataAvailable).1) with (ReadableBytes s.1).
  destruct (SequencerBuffer.Readv_spec stream _ [ReadableBytes s.1] HI) as (b&->&Hc). cbn.
  pose proof (SequencerBuffer.consumed_readable _ _ _ _ Hc) as Hr. pose proof (SequencerBuffer.readable_nonneg _ _ HI).
  unfold SequencerBuffer.iov_total in Hr. unfold ReadableBytes in *. cbn in *. lia.
Qed.

(** Frames out of order, the end before the start, and a duplicate. *)
Definition demo_events : list event :=
  [EvStreamFrame 3 true [3; 4]; EvStreamFrame 0 false [0; 1]; EvStreamFrame 0 false [0; 1]; EvStreamFrame 1 false [1; 2; 3]].

Lemma sequencer_serves_the_stream_witness :
  let s := run reader demo_events (new true, []) in
  s.2 = [OnDataAvailable; Read_ [0; 1]; AddBytesConsumed 2; Looked false;
         OnDataAvailable; Read_ [2; 3; 4]; AddBytesConsumed 3; Looked true]
  ∧ NumBytesConsumed s.1 <= 100 ∧ read_data s.2 = slice (λ z, z) 0 (NumBytesConsumed s.1)
  ∧ ReadableBytes s.1 = 0.
Proof.
  assert (He : Forall (good_event (λ z, z) 100) demo_events).
  { assert (Hp : ∀ off n, 0 <= n → SequencerBuffer.piece_of (λ z, z) off (slice (λ z, z) off n)).
    { intros off n Hn i Hi. rewrite slice_length in Hi by done. by rewrite slice_lookup. }
    repeat first [apply Forall_cons_2; [split; [lia|split; [vm_compute; discriminate|]]|]|apply Forall_nil_2].
    - exact (Hp 3 2 ltac:(lia)).
    - exact (Hp 0 2 ltac:(lia)).
    - exact (Hp 0 2 ltac:(lia)).
    - exact (Hp 1 3 ltac:(lia)). }
  destruct (sequencer_serves_the_stream reader (λ z, z) 100 ltac:(lia) ltac:(unfold kStreamReceiveWindowLimit, kMaxOffset, two64; lia)
    ltac:(intros s; repeat constructor) true demo_events He) as [_ H].
  destruct (H ltac:(vm_compute; reflexivity)) as (_&[_ H2]&H3&H4). split; [vm_compute; reflexivity|]. split; [exact H2|].
  split; [apply H3; vm_compute; reflexivity|]. apply H4; [apply reader_attentive|vm_compute; reflexivity].
Defined.

(** A blocked sequencer keeps what arrives until it is unblocked; a stream that stops reading is told of the end. *)
Example blocked_then_read :
  let s := run reader [EvActs [ActBlock]; EvStreamFrame 0 false [0; 1]; EvSetUnblocked; EvActs [ActStopReading]; EvStreamFrame 2 true [2]] (new true, []) in
  s.2 = [Looked false; OnDataAvailable; Read_ [0; 1]; AddBytesConsumed 2; Looked false; AddBytesConsumed 0; Looked false;
         AddBytesConsumed 1; OnFinRead].
Proof. vm_compute. reflexivity. Qed.

(** A stream that has stopped reading is still told of the data that arrived while the sequencer was blocked. *)
Example told_after_StopReading :
  let s := run reader [EvActs [ActStopReading; ActBlock]; EvStreamFrame 0 false [0; 1]; EvSetUnblocked] (new true, []) in
  ignore_read_data s.1 = true ∧ OnDataAvailable ∈ s.2.
Proof. vm_compute. split; [reflexivity|]. repeat (left || right). Qed.

(** A stream that leaves data unread is not told of it again, unless the sequencer is level triggered. *)
Example edge_triggered :
  let evs := [EvStreamFrame 0 false [0; 1; 2]; EvStreamFrame 3 false [3]] in
  ReadableBytes (run sipper evs (new true, [])).1 = 3
  ∧ ReadableBytes (run sipper (EvSetLevelTriggered true :: evs) (new true, [])).1 = 2.
Proof. vm_compute. split; reflexivity. Qed.
End QuicStreamSequencer.
