(* ===== verification/Bytes.v ===== *)
(** Byte strings of integers, shared by the components that put integers on the wire:
    little- and big-endian expansions with their inverses, and the bit masks and shifts
    of the encoders as arithmetic. *)

From S2P Require Import Prelude.

(** [ground_pow] evaluates the powers of numerals. *)
Ltac ground_pow :=
  repeat match goal with
  | |- context [?b ^ ?e] =>
      let p := eval vm_compute in (b ^ e) in
      lazymatch p with Zpos _ => change (b ^ e) with p | Z0 => change (b ^ e) with p end
  | H : context [?b ^ ?e] |- _ =>
      let p := eval vm_compute in (b ^ e) in
      lazymatch p with Zpos _ => change (b ^ e) with p in H | Z0 => change (b ^ e) with p in H end
  end.

(** [le_bytes n v] is the memory of an [n]-byte integer on a little-endian host. *)
Fixpoint le_bytes (n : nat) (v : Z) : list Z :=
  match n with
  | O => []
  | S n => v mod 256 :: le_bytes n (v / 256)
  end.

Fixpoint le_val (l : list Z) : Z :=
  match l with
  | [] => 0
  | b :: l => b + 256 * le_val l
  end.

(** Network byte order: the most significant byte first. *)
Definition be_bytes (n : nat) (v : Z) : list Z := rev (le_bytes n v).
Definition be_val (l : list Z) : Z := le_val (rev l).

Abbreviation bytes l := (Forall (λ b, is_byte b) l).

Definition pow256 (n : nat) : Z := 256 ^ Z.of_nat n.

Lemma pow256_S n : pow256 (S n) = 256 * pow256 n.
Proof. unfold pow256. rewrite Nat2Z.inj_succ, Z.pow_succ_r by lia. done. Qed.

Lemma pow256_pos n : 0 < pow256 n.
Proof. unfold pow256. apply Z.pow_pos_nonneg; lia. Qed.

Lemma le_bytes_length n v : length (le_bytes n v) = n.
Proof. revert v. induction n as [|n IH]; intros v; simpl; [done|]. by rewrite IH. Qed.

Lemma be_bytes_length n v : length (be_bytes n v) = n.
Proof. unfold be_bytes. by rewrite length_rev, le_bytes_length. Qed.

Lemma le_bytes_bytes n v : bytes (le_bytes n v).
Proof.
  revert v. induction n as [|n IH]; intros v; simpl; constructor; [|apply IH].
  apply Z.mod_pos_bound. lia.
Qed.

Lemma be_bytes_bytes n v : bytes (be_bytes n v).
Proof. unfold be_bytes. apply Forall_rev, le_bytes_bytes. Qed.

Lemma le_val_bound l : bytes l → 0 <= le_val l < pow256 (length l).
Proof.
  induction 1 as [|b l Hb Hl IH]; simpl; [by unfold pow256|]. rewrite pow256_S. lia.
Qed.

Lemma be_val_bound l : bytes l → 0 <= be_val l < pow256 (length l).
Proof.
  intros H. unfold be_val. rewrite <-length_rev. apply le_val_bound. by apply Forall_rev.
Qed.

Lemma le_val_bytes n v : 0 <= v < pow256 n → le_val (le_bytes n v) = v.
Proof.
  revert v. induction n as [|n IH]; intros v Hv; simpl.
  - unfold pow256 in Hv. simpl in Hv. lia.
  - rewrite pow256_S in Hv. rewrite IH; [|Z.to_euclidean_division_equations; lia].
    Z.to_euclidean_division_equations; lia.
Qed.

Lemma le_bytes_val l : bytes l → le_bytes (length l) (le_val l) = l.
Proof.
  induction 1 as [|b l Hb Hl IH]; cbn [length le_bytes le_val]; [done|].
  f_equal; [Z.to_euclidean_division_equations; lia|].
  replace ((b + 256 * le_val l) / 256) with (le_val l); [done|].
  Z.to_euclidean_division_equations; lia.
Qed.

Lemma be_val_bytes n v : 0 <= v < pow256 n → be_val (be_bytes n v) = v.
Proof. unfold be_val, be_bytes. rewrite rev_involutive. apply le_val_bytes. Qed.

Lemma be_bytes_val l : bytes l → be_bytes (length l) (be_val l) = l.
Proof.
  intros H. unfold be_val, be_bytes. rewrite <-length_rev, le_bytes_val by by apply Forall_rev.
  apply rev_involutive.
Qed.

(** The low bytes of a wider integer. *)
Lemma le_bytes_take n m v : (n <= m)%nat → take n (le_bytes m v) = le_bytes n v.
Proof.
  revert m v. induction n as [|n IH]; intros m v H; [done|]. destruct m; [lia|].
  simpl. rewrite IH by lia. done.
Qed.

Lemma be_bytes_drop n m v : (n <= m)%nat → drop (m - n) (be_bytes m v) = be_bytes n v.
Proof.
  intros H. unfold be_bytes. rewrite <-(le_bytes_take n m v) by done.
  rewrite <-(take_drop n (le_bytes m v)) at 1. rewrite rev_app_distr.
  rewrite drop_app_length'; [done|]. by rewrite length_rev, length_drop, le_bytes_length.
Qed.

(** Only the value modulo [256^n] counts. *)
Lemma le_bytes_mod n v : le_bytes n (v mod pow256 n) = le_bytes n v.
Proof.
  revert v. induction n as [|n IH]; intros v; cbn [le_bytes]; [done|]. rewrite pow256_S.
  pose proof (pow256_pos n). rewrite Z.rem_mul_r by lia. f_equal.
  - rewrite Z.mul_comm, Z.mod_add by lia. by rewrite Z.mod_mod.
  - replace ((v mod 256 + 256 * ((v / 256) mod pow256 n)) / 256) with ((v / 256) mod pow256 n); [by apply IH|].
    pose proof (Z.mod_pos_bound v 256 ltac:(lia)).
    rewrite Z.mul_comm, Z.div_add by lia. rewrite (Z.div_small (v mod 256)) by lia. lia.
Qed.

Lemma be_bytes_congr n a b : a mod pow256 n = b mod pow256 n → be_bytes n a = be_bytes n b.
Proof. intros H. unfold be_bytes. by rewrite <-(le_bytes_mod n a), H, le_bytes_mod. Qed.

Lemma le_bytes_app n m v : le_bytes (n + m) v = le_bytes n v ++ le_bytes m (v / pow256 n).
Proof.
  revert v. induction n as [|n IH]; intros v; cbn [Nat.add le_bytes app].
  - unfold pow256. by rewrite Z.div_1_r.
  - rewrite IH, Z.div_div by (try lia; apply pow256_pos). by rewrite pow256_S.
Qed.

Lemma be_bytes_app m n v : be_bytes (m + n) v = be_bytes m (v / pow256 n) ++ be_bytes n v.
Proof. unfold be_bytes. rewrite Nat.add_comm, le_bytes_app. apply rev_app_distr. Qed.

Lemma le_val_app a b : le_val (a ++ b) = le_val a + pow256 (length a) * le_val b.
Proof.
  induction a as [|x a IH]; cbn [app le_val length]; [unfold pow256; simpl; lia|].
  rewrite IH, pow256_S. lia.
Qed.

Lemma be_val_app a b : be_val (a ++ b) = be_val a * pow256 (length b) + be_val b.
Proof. unfold be_val. rewrite rev_app_distr, le_val_app, length_rev. lia. Qed.

Lemma le_val_zeros k : le_val (replicate k 0) = 0.
Proof. induction k as [|k IH]; cbn [replicate le_val]; [done|]. by rewrite IH. Qed.

(** Leading zero bytes do not count. *)
Lemma be_val_zeros k l : be_val (replicate k 0 ++ l) = be_val l.
Proof.
  rewrite be_val_app. cut (be_val (replicate k 0) = 0); [lia|].
  induction k as [|k IH]; [done|].
  change (replicate (S k) 0) with ([0] ++ replicate k 0). rewrite be_val_app, IH. done.
Qed.

(** ** Masks and shifts *)

(** A run of [n] one bits from bit [k]: the masks of the encoders. *)
Definition bit_run (k n : Z) : Z := Z.shiftl (Z.ones n) k.

Lemma land_run v k n :
  0 <= v → 0 <= k → 0 <= n → Z.land v (bit_run k n) = (v / 2 ^ k) mod 2 ^ n * 2 ^ k.
Proof.
  intros Hv Hk Hn. unfold bit_run. rewrite <-Z.shiftl_mul_pow2 by done.
  rewrite <-Z.land_ones by done. rewrite <-Z.shiftr_div_pow2 by done.
  apply Z.bits_inj'. intros i Hi. rewrite Z.land_spec, !Z.shiftl_spec, Z.land_spec by done.
  destruct (Z.lt_ge_cases (i - k) 0).
  - rewrite !(Z.testbit_neg_r _ (i - k)) by done. by rewrite andb_false_r.
  - rewrite Z.shiftr_spec by done. do 2 f_equal. lia.
Qed.

(** A value below [2^(k+n)] has a bit in the run exactly when it reaches [2^k]. *)
Lemma land_run_zero v k n :
  0 <= v < 2 ^ (k + n) → 0 <= k → 0 <= n → (Z.land v (bit_run k n) =? 0) = (v <? 2 ^ k).
Proof.
  intros Hv Hk Hn. rewrite land_run by lia. pose proof (Z.pow_pos_nonneg 2 k ltac:(lia) Hk) as Hp.
  rewrite Z.pow_add_r in Hv by done.
  rewrite Z.mod_small by (split; [apply Z.div_pos; lia|apply Z.div_lt_upper_bound; lia]).
  destruct (Z.ltb_spec v (2 ^ k)).
  - rewrite Z.div_small by lia. done.
  - assert (1 <= v / 2 ^ k) by (apply Z.div_le_lower_bound; lia). nia.
Qed.

Lemma land_low v n : 0 <= n → Z.land v (Z.ones n) = v mod 2 ^ n.
Proof. intros. by apply Z.land_ones. Qed.

Lemma shiftr_div v n : 0 <= n → Z.shiftr v n = v / 2 ^ n.
Proof. intros. by apply Z.shiftr_div_pow2. Qed.

Lemma shiftl_mul v n : 0 <= n → Z.shiftl v n = v * 2 ^ n.
Proof. intros. by apply Z.shiftl_mul_pow2. Qed.

(** A decidable fact about the integers below [n], checked on each of them. *)
Lemma below_forall (P : Z → bool) n : forallb P (seqZ 0 n) = true → ∀ z, 0 <= z < n → P z = true.
Proof.
  intros H z Hz. rewrite forallb_forall in H. apply H, list_elem_of_In. apply elem_of_seqZ. lia.
Qed.
