(* ===== verification/DataWire.v ===== *)
(** [QuicDataWriter] and [QuicDataReader] (quic/core/quic_data_writer.cc and
    quic/core/quic_data_reader.cc): integers, floats, strings and connection ids put into a fixed
    buffer and read back, in network or host byte order.

    An operation takes the writer or reader and returns the source's [bool] (or the
    result, [None] for [false]) with the object it leaves. The byte swaps of the
    platform ([QuicEndianImpl], not part of the sources) are the parameter [EndianImpl];
    [EndianLaws] states what quic/platform/api/quic_endian.h documents of them. *)

From S2P Require Import Prelude Bytes.

Inductive Endianness := NETWORK_BYTE_ORDER | HOST_BYTE_ORDER.

#[global] Instance Endianness_eq_dec : EqDecision Endianness.
Proof. solve_decision. Defined.

(** The platform's conversions of [n]-byte integers. *)
Class EndianImpl := { HostToNet : nat → Z → Z; NetToHost : nat → Z → Z }.

(** The memory of a converted integer is big endian, the host is little endian. *)
Class EndianLaws `{EndianImpl} : Prop := {
  host_to_net n v : 0 <= v < pow256 n → le_bytes n (HostToNet n v) = be_bytes n v;
  net_to_host l : bytes l → NetToHost (length l) (le_val l) = be_val l;
}.

(** A platform that swaps bytes. *)
#[global] Instance swap_endian : EndianImpl :=
  {| HostToNet n v := le_val (be_bytes n v); NetToHost n v := be_val (le_bytes n v) |}.

#[global] Instance swap_endian_laws : EndianLaws.
Proof.
  split; cbn [HostToNet NetToHost swap_endian].
  - intros n v Hv. rewrite <-(be_bytes_length n v) at 1. apply le_bytes_val, be_bytes_bytes.
  - intros l Hl. by rewrite le_bytes_val.
Qed.

Definition kVarInt62MaxValue : Z := 4611686018427387903.
Definition kVarInt62ErrorMask : Z := 13835058055282163712.
Definition kVarInt62Mask8Bytes : Z := 4611686017353646080.
Definition kVarInt62Mask4Bytes : Z := 1073725440.
Definition kVarInt62Mask2Bytes : Z := 16320.
Definition kMaxQuicStreamId : Z := 4294967295.
Definition kQuicMaxConnectionIdLength : Z := 18.

Definition kUFloat16ExponentBits : Z := 5.
Definition kUFloat16MaxExponent : Z := 2 ^ kUFloat16ExponentBits - 2.
Definition kUFloat16MantissaBits : Z := 16 - kUFloat16ExponentBits.
Definition kUFloat16MantissaEffectiveBits : Z := kUFloat16MantissaBits + 1.
Definition kUFloat16MaxValue : Z :=
  Z.shiftl (2 ^ kUFloat16MantissaEffectiveBits - 1) kUFloat16MaxExponent.

(** ** The writer *)

Module Writer.

(** [buffer] has [capacity_] bytes, of which the first [length_] are written. *)
Record t := mk { buffer : list Z; length_ : Z; endianness : Endianness }.

Definition capacity (w : t) : Z := zlen (buffer w).
Definition remaining (w : t) : Z := capacity w - length_ w.

Abbreviation action := (t → bool * t).

(** [a && b]: the second is not run when the first fails. *)
Definition andthen (a b : action) : action := λ w,
  let '(ok, w) := a w in if ok then b w else (false, w).

Declare Scope writer_scope.
Notation "a &&& b" := (andthen a b) (at level 40, left associativity) : writer_scope.
#[local] Open Scope writer_scope.

Definition ret (b : bool) : action := λ w, (b, w).

(** Storing bytes at [buffer_ + length_] and moving [length_] past them. *)
Definition put (data : list Z) (w : t) : t :=
  mk (take (Z.to_nat (length_ w)) (buffer w) ++ data
      ++ drop (Z.to_nat (length_ w) + length data) (buffer w))
     (length_ w + zlen data) (endianness w).

(** [BeginWrite] returns a position or null. *)
Definition BeginWrite (len : Z) (w : t) : bool :=
  if capacity w <? length_ w then false else
  if capacity w - length_ w <? len then false else true.

Definition WriteBytes (data : list Z) : action := λ w,
  if BeginWrite (zlen data) w then (true, put data w) else (false, w).

(** An integer of [n] bytes, converted when the writer is in network order. *)
Definition WriteUInt `{EndianImpl} (n : nat) (value : Z) : action := λ w,
  let value := if decide (endianness w = NETWORK_BYTE_ORDER) then HostToNet n value else value in
  WriteBytes (le_bytes n value) w.

Definition WriteUInt8 (value : Z) : action := WriteBytes [value].
Definition WriteUInt16 `{EndianImpl} : Z → action := WriteUInt 2.
Definition WriteUInt32 `{EndianImpl} : Z → action := WriteUInt 4.
Definition WriteUInt64 `{EndianImpl} : Z → action := WriteUInt 8.

Definition WriteBytesToUInt64 `{EndianImpl} (num_bytes : nat) (value : Z) : action := λ w,
  if 8 <? Z.of_nat num_bytes then (false, w) else
  if decide (endianness w = HOST_BYTE_ORDER)
  then WriteBytes (take num_bytes (le_bytes 8 value)) w
  else WriteBytes (drop (8 - num_bytes) (le_bytes 8 (HostToNet 8 value))) w.

(** One round of the binary search for the highest bit. *)
Definition uf16_step (s : Z * Z) (offset : Z) : Z * Z :=
  let '(exponent, value) := s in
  if Z.shiftl 1 (kUFloat16MantissaBits + offset) <=? value
  then (exponent + offset, Z.shiftr value offset) else (exponent, value).

Definition uf16_result (value : Z) : Z :=
  if value <? Z.shiftl 1 kUFloat16MantissaEffectiveBits then value else
  if kUFloat16MaxValue <=? value then 65535 else
  let '(exponent, value) := fold_left uf16_step [16; 8; 4; 2; 1] (0, value) in
  wrap16 (value + Z.shiftl exponent kUFloat16MantissaBits).

Definition WriteUFloat16 `{EndianImpl} (value : Z) : action := λ w,
  let result := uf16_result value in
  let result := if decide (endianness w = NETWORK_BYTE_ORDER) then HostToNet 2 result else result in
  WriteBytes (le_bytes 2 result) w.

Definition WriteStringPiece (val : list Z) : action := WriteBytes val.

Definition WriteStringPiece16 `{EndianImpl} (val : list Z) : action :=
  if 65535 <? zlen val then ret false else WriteUInt16 (zlen val) &&& WriteBytes val.

Definition WriteRepeatedByte (byte : Z) (count : Z) : action := λ w,
  if BeginWrite count w then (true, put (replicate (Z.to_nat count) byte) w) else (false, w).

Definition WritePadding (w : t) : t :=
  if capacity w <? length_ w then w
  else put (replicate (Z.to_nat (capacity w - length_ w)) 0) w.

Definition WritePaddingBytes (count : Z) : action := WriteRepeatedByte 0 count.

Definition WriteConnectionId (connection_id : list Z) : action :=
  match connection_id with [] => ret true | _ => WriteBytes connection_id end.

Definition WriteTag (tag : Z) : action := WriteBytes (le_bytes 4 tag).

(** [RandBytes] is the random source: the bytes it gives for a length. *)
Definition WriteRandomBytes (RandBytes : Z → list Z) (len : Z) : action := λ w,
  if BeginWrite len w then (true, put (RandBytes len) w) else (false, w).

Definition Seek (len : Z) : action := λ w,
  if BeginWrite len w then (true, mk (buffer w) (length_ w + len) (endianness w)) else (false, w).

(** [(value >> n) & 0xff]. *)
Definition byte_at (value n : Z) : Z := Z.land (Z.shiftr value n) 255.

(** The bytes of the four encodings. *)
Definition varint8 (value : Z) : list Z :=
  [Z.land (Z.shiftr value 56) 63 + 192; byte_at value 48; byte_at value 40; byte_at value 32;
   byte_at value 24; byte_at value 16; byte_at value 8; byte_at value 0].
Definition varint4 (value : Z) : list Z :=
  [Z.land (Z.shiftr value 24) 63 + 128; byte_at value 16; byte_at value 8; byte_at value 0].
Definition varint2 (value : Z) : list Z :=
  [Z.land (Z.shiftr value 8) 63 + 64; byte_at value 0].
Definition varint1 (value : Z) : list Z := [Z.land value 63].

Definition WriteVarInt62 (value : Z) : action := λ w,
  let remaining := capacity w - length_ w in
  if Z.land value kVarInt62ErrorMask =? 0 then
    if negb (Z.land value kVarInt62Mask8Bytes =? 0) then
      if 8 <=? remaining then (true, put (varint8 value) w) else (false, w)
    else if negb (Z.land value kVarInt62Mask4Bytes =? 0) then
      if 4 <=? remaining then (true, put (varint4 value) w) else (false, w)
    else if negb (Z.land value kVarInt62Mask2Bytes =? 0) then
      if 2 <=? remaining then (true, put (varint2 value) w) else (false, w)
    else if 1 <=? remaining then (true, put (varint1 value) w) else (false, w)
  else (false, w).

(** [QuicVariableLengthIntegerLength] as its value. *)
Definition GetVarInt62Len (value : Z) : Z :=
  if negb (Z.land value kVarInt62ErrorMask =? 0) then 0 else
  if negb (Z.land value kVarInt62Mask8Bytes =? 0) then 8 else
  if negb (Z.land value kVarInt62Mask4Bytes =? 0) then 4 else
  if negb (Z.land value kVarInt62Mask2Bytes =? 0) then 2 else 1.

(** [WriteVarInt62(value, write_length)]; the arguments of the narrow writes are truncated. *)
Definition WriteVarInt62_len `{EndianImpl} (value write_length : Z) : action := λ w,
  let remaining := capacity w - length_ w in
  if remaining <? write_length then (false, w) else
  let min_length := GetVarInt62Len value in
  if write_length <? min_length then (false, w) else
  if write_length =? min_length then WriteVarInt62 value w else
  if write_length =? 2 then (WriteUInt8 64 &&& WriteUInt8 (wrap8 value)) w else
  if write_length =? 4 then
    (WriteUInt8 128 &&& WriteUInt8 0 &&& WriteUInt16 (wrap16 value)) w else
  if write_length =? 8 then
    (WriteUInt8 192 &&& WriteUInt8 0 &&& WriteUInt16 0 &&& WriteUInt32 (wrap32 value)) w else
  (false, w).

Definition WriteStringPieceVarInt62 (s : list Z) : action :=
  WriteVarInt62 (zlen s) &&& match s with [] => ret true | _ => WriteBytes s end.

Definition new (capacity : nat) (endianness : Endianness) : t :=
  mk (replicate capacity 0) 0 endianness.

End Writer.

(** ** The reader *)

Module Reader.

Record t := mk { data : list Z; len : Z; pos : Z; endianness : Endianness }.

Abbreviation action A := (t → option A * t).

Definition bind {A B} (a : action A) (f : A → action B) : action B := λ r,
  let '(o, r) := a r in match o with Some x => f x r | None => (None, r) end.

Declare Scope reader_scope.
Notation "x <~ a ; b" := (bind a (λ x, b)) (at level 100, a at next level, right associativity)
  : reader_scope.
#[local] Open Scope reader_scope.

Definition ret {A} (x : A) : action A := λ r, (Some x, r).

Definition BytesRemaining (r : t) : Z := len r - pos r.
Definition CanRead (bytes : Z) (r : t) : bool := bytes <=? len r - pos r.
Definition OnFailure (r : t) : t := mk (data r) (len r) (len r) (endianness r).
Definition IsDoneReading (r : t) : bool := len r =? pos r.
Definition skip (n : Z) (r : t) : t := mk (data r) (len r) (pos r + n) (endianness r).

(** The [size] bytes at the current position. *)
Definition at_pos (size : Z) (r : t) : list Z :=
  take (Z.to_nat size) (drop (Z.to_nat (pos r)) (data r)).

Definition ReadBytes (size : Z) : action (list Z) := λ r,
  if CanRead size r then (Some (at_pos size r), skip size r) else (None, OnFailure r).

Definition ReadStringPiece (size : Z) : action (list Z) := λ r,
  if CanRead size r then (Some (at_pos size r), skip size r) else (None, OnFailure r).

Definition ReadUInt `{EndianImpl} (n : nat) : action Z :=
  b <~ ReadBytes (Z.of_nat n);
  λ r, (Some (if decide (endianness r = NETWORK_BYTE_ORDER)
              then NetToHost n (le_val b) else le_val b), r).

Definition ReadUInt8 : action Z := b <~ ReadBytes 1; ret (le_val b).
Definition ReadUInt16 `{EndianImpl} : action Z := ReadUInt 2.
Definition ReadUInt32 `{EndianImpl} : action Z := ReadUInt 4.
Definition ReadUInt64 `{EndianImpl} : action Z := ReadUInt 8.

Definition ReadBytesToUInt64 `{EndianImpl} (num_bytes : nat) : action Z := λ r,
  if 8 <? Z.of_nat num_bytes then (None, r) else
  if decide (endianness r = HOST_BYTE_ORDER)
  then (b <~ ReadBytes (Z.of_nat num_bytes); ret (le_val (b ++ replicate (8 - num_bytes) 0))) r
  else (b <~ ReadBytes (Z.of_nat num_bytes);
        ret (NetToHost 8 (le_val (replicate (8 - num_bytes) 0 ++ b)))) r.

Definition uf16_value (value : Z) : Z :=
  if value <? Z.shiftl 1 kUFloat16MantissaEffectiveBits then value else
  let exponent := wrap16 (Z.shiftr value kUFloat16MantissaBits - 1) in
  wrap64 (Z.shiftl (value - Z.shiftl exponent kUFloat16MantissaBits) exponent).

Definition ReadUFloat16 `{EndianImpl} : action Z := value <~ ReadUInt16; ret (uf16_value value).

Definition ReadStringPiece16 `{EndianImpl} : action (list Z) :=
  result_len <~ ReadUInt16; ReadStringPiece result_len.

(** [use_allocated] is the restart flag [quic_use_allocated_connection_ids]. *)
Definition ReadConnectionId (use_allocated : bool) (length : Z) : action (list Z) := λ r,
  if kQuicMaxConnectionIdLength <? length then (None, r) else
  if length =? 0 then (Some [], r) else
  if negb use_allocated then ReadBytes length r else
  if BytesRemaining r <? length then (None, r) else ReadBytes length r.

Definition ReadTag : action Z := b <~ ReadBytes 4; ret (le_val b).

Definition PeekRemainingPayload (r : t) : list Z := at_pos (len r - pos r) r.

Definition ReadRemainingPayload (r : t) : list Z * t :=
  (PeekRemainingPayload r, mk (data r) (len r) (len r) (endianness r)).

Definition Seek (size : Z) : t → bool * t := λ r,
  if CanRead size r then (true, skip size r) else (false, OnFailure r).

Definition TruncateRemaining (truncation_length : Z) : t → bool * t := λ r,
  if BytesRemaining r <? truncation_length then (false, r)
  else (true, mk (data r) (pos r + truncation_length) (pos r) (endianness r)).

(** [next[i]]. *)
Definition next (r : t) (i : Z) : Z := nth (Z.to_nat (pos r + i)) (data r) 0.

Definition PeekByte (r : t) : Z := if len r <=? pos r then 0 else next r 0.

Definition PeekVarInt62Length (r : t) : Z :=
  if BytesRemaining r =? 0 then 0
  else Z.shiftl 1 (Z.shiftr (Z.land (next r 0) 192) 6).

Definition ReadVarInt62 : action Z := λ r,
  let remaining := BytesRemaining r in
  let next := next r in
  if negb (remaining =? 0) then
    if Z.land (next 0) 192 =? 192 then
      if 8 <=? remaining then
        (Some (Z.shiftl (Z.land (next 0) 63) 56 + Z.shiftl (next 1) 48 + Z.shiftl (next 2) 40
               + Z.shiftl (next 3) 32 + Z.shiftl (next 4) 24 + Z.shiftl (next 5) 16
               + Z.shiftl (next 6) 8 + Z.shiftl (next 7) 0), skip 8 r)
      else (None, r)
    else if Z.land (next 0) 192 =? 128 then
      if 4 <=? remaining then
        (Some (Z.shiftl (Z.land (next 0) 63) 24 + Z.shiftl (next 1) 16 + Z.shiftl (next 2) 8
               + Z.shiftl (next 3) 0), skip 4 r)
      else (None, r)
    else if Z.land (next 0) 192 =? 64 then
      if 2 <=? remaining then
        (Some (Z.shiftl (Z.land (next 0) 63) 8 + next 1), skip 2 r)
      else (None, r)
    else if Z.land (next 0) 192 =? 0 then (Some (Z.land (next 0) 63), skip 1 r)
    else (None, r)
  else (None, r).

Definition ReadVarIntU32 : action Z :=
  temp <~ ReadVarInt62; λ r, if kMaxQuicStreamId <? temp then (None, r) else (Some temp, r).

Definition new (data : list Z) (endianness : Endianness) : t := mk data (zlen data) 0 endianness.

End Reader.

(** ** What an operation puts in the buffer *)

Module WriterSpec.
Import Writer.
#[local] Open Scope writer_scope.

(** [length_] never passes the capacity. *)
Definition wf (w : t) : Prop := 0 <= length_ w <= capacity w.

Definition written (w : t) : list Z := take (Z.to_nat (length_ w)) (buffer w).

Lemma writer_new_wf c e : wf (new c e).
Proof. unfold wf, capacity, new, zlen. simpl. lia. Qed.

Lemma put_spec d w :
  wf w → zlen d <= remaining w →
  wf (put d w) ∧ capacity (put d w) = capacity w ∧ endianness (put d w) = endianness w
  ∧ written (put d w) = written w ++ d ∧ length_ (put d w) = length_ w + zlen d.
Proof.
  unfold wf, remaining, capacity, written, put, zlen. simpl. intros Hw Hd.
  rewrite !length_app, length_take, length_drop. split; [lia|]. split; [lia|]. split; [done|].
  split; [|lia]. rewrite app_assoc. apply take_app_length'.
  rewrite length_app, length_take. lia.
Qed.

(** [emits e a d]: with room for [d], [a] succeeds and appends [d]; otherwise it fails. *)
Definition emits (e : Endianness) (a : action) (d : list Z) : Prop :=
  ∀ w, wf w → endianness w = e →
  let '(ok, w') := a w in
  wf w' ∧ capacity w' = capacity w ∧ endianness w' = e ∧ length_ w <= length_ w'
  ∧ ok = (zlen d <=? remaining w)
  ∧ (ok = true → written w' = written w ++ d ∧ length_ w' = length_ w + zlen d).

Lemma emits_put e d (a : action) :
  (∀ w, wf w → endianness w = e → a w = if zlen d <=? remaining w then (true, put d w) else (false, w)) →
  emits e a d.
Proof.
  intros Ha w Hw He. rewrite Ha by done. destruct (Z.leb_spec (zlen d) (remaining w)) as [H|H].
  - destruct (put_spec d w Hw H) as (?&?&?&?&?). pose proof (zlen_nonneg d).
    split; [done|]. split; [done|]. split; [congruence|]. split; [lia|]. done.
  - split; [done|]. split; [done|]. split; [done|]. split; [lia|]. done.
Qed.

Lemma BeginWrite_spec n w : wf w → BeginWrite n w = (n <=? remaining w).
Proof. unfold wf, BeginWrite, remaining. intros. repeat case_match; lia. Qed.

Lemma emits_WriteBytes e d : emits e (WriteBytes d) d.
Proof. apply emits_put. intros w Hw _. unfold WriteBytes. by rewrite BeginWrite_spec. Qed.

Lemma emits_WriteRepeatedByte e b n : 0 <= n → emits e (WriteRepeatedByte b n) (replicate (Z.to_nat n) b).
Proof.
  intros Hn. apply emits_put. intros w Hw _. unfold WriteRepeatedByte. rewrite BeginWrite_spec by done.
  unfold zlen. rewrite length_replicate. by replace (Z.of_nat (Z.to_nat n)) with n by lia.
Qed.

Lemma emits_ret e : emits e (ret true) [].
Proof.
  intros w Hw He. unfold ret. rewrite zlen_nil, app_nil_r. unfold wf, remaining in *.
  split; [done|]. split; [done|]. split; [done|]. split; [lia|]. split; [lia|]. by rewrite Z.add_0_r.
Qed.

Lemma emits_andthen e a b d1 d2 :
  emits e a d1 → emits e b d2 → emits e (a &&& b) (d1 ++ d2).
Proof.
  intros Ha Hb w Hw He. unfold andthen. specialize (Ha w Hw He). destruct (a w) as [ok w1].
  destruct Ha as (Hw1&Hc1&He1&Hl1&->&Ha). pose proof (zlen_nonneg d2). rewrite zlen_app.
  destruct (Z.leb_spec (zlen d1) (remaining w)).
  - specialize (Hb w1 Hw1 He1). destruct (b w1) as [ok w2]. destruct Hb as (Hw2&Hc2&He2&Hl2&->&Hb).
    destruct (Ha eq_refl) as [Ha1 Ha2]. unfold remaining in *.
    split; [done|]. split; [congruence|]. split; [done|]. split; [lia|]. split; [lia|].
    intros Hok. destruct (Hb Hok) as [Hb1 Hb2]. rewrite Hb1, Ha1, app_assoc. split; [done|lia].
  - split; [done|]. split; [done|]. split; [done|]. split; [lia|]. split; [lia|done].
Qed.

Lemma emits_ext e a b d : (∀ w, endianness w = e → a w = b w) → emits e b d → emits e a d.
Proof. intros H Hb w Hw He. rewrite H by done. by apply Hb. Qed.

Section endian.
Context {EI : EndianImpl} {EL : EndianLaws}.

(** An integer of [n] bytes in the order of the writer. *)
Definition uint_bytes (e : Endianness) (n : nat) (v : Z) : list Z :=
  match e with NETWORK_BYTE_ORDER => be_bytes n v | HOST_BYTE_ORDER => le_bytes n v end.

Lemma emits_WriteUInt e n v : 0 <= v < pow256 n → emits e (WriteUInt n v) (uint_bytes e n v).
Proof.
  intros Hv. eapply (emits_ext _ _ (WriteBytes (uint_bytes e n v))); [|apply emits_WriteBytes].
  intros w <-. unfold WriteUInt, uint_bytes. destruct (endianness w); simpl; [|done].
  by rewrite host_to_net.
Qed.

Lemma emits_WriteUInt8 e v : emits e (WriteUInt8 v) [v].
Proof. apply emits_WriteBytes. Qed.

Lemma emits_WriteBytesToUInt64 e n v :
  (n <= 8)%nat → is_u64 v → emits e (WriteBytesToUInt64 n v) (uint_bytes e n (v mod pow256 n)).
Proof.
  intros Hn Hv.
  eapply (emits_ext _ _ (WriteBytes (uint_bytes e n (v mod pow256 n)))); [|apply emits_WriteBytes].
  intros w <-. unfold WriteBytesToUInt64. destruct (Z.ltb_spec 8 (Z.of_nat n)); [lia|].
  unfold uint_bytes. destruct (endianness w); simpl decide; cbn [decide_rel].
  - destruct (decide _); [done|]. rewrite host_to_net by exact Hv. rewrite be_bytes_drop by done.
    unfold be_bytes. by rewrite le_bytes_mod.
  - destruct (decide _); [|done]. rewrite le_bytes_take by done. by rewrite le_bytes_mod.
Qed.

(** ** Variable-length integers *)

(** The encoding in [len] bytes: the length in the two high bits, then the value in
    network order. *)
Definition varint_prefix (len : Z) : Z :=
  if len =? 1 then 0 else if len =? 2 then 1 else if len =? 4 then 2 else 3.

Definition varint_bytes (len v : Z) : list Z :=
  be_bytes (Z.to_nat len) (varint_prefix len * 2 ^ (8 * len - 2) + v).

(** The largest value of an encoding in [len] bytes. *)
Definition varint_limit (len : Z) : Z := 2 ^ (8 * len - 2).

Definition is_varint_len (len : Z) : Prop := len = 1 ∨ len = 2 ∨ len = 4 ∨ len = 8.

(** The masks test the magnitude. *)
Lemma varint_masks v :
  is_u64 v →
  (Z.land v kVarInt62ErrorMask =? 0) = (v <? 2 ^ 62)
  ∧ (v < 2 ^ 62 → (Z.land v kVarInt62Mask8Bytes =? 0) = (v <? 2 ^ 30))
  ∧ (v < 2 ^ 30 → (Z.land v kVarInt62Mask4Bytes =? 0) = (v <? 2 ^ 14))
  ∧ (v < 2 ^ 14 → (Z.land v kVarInt62Mask2Bytes =? 0) = (v <? 2 ^ 6)).
Proof.
  unfold two64. intros Hv. split; [|split; [|split]].
  - apply (land_run_zero v 62 2); [exact Hv|done..].
  - intros H. apply (land_run_zero v 30 32); [change (2 ^ (30 + 32)) with (2 ^ 62); lia|done..].
  - intros H. apply (land_run_zero v 14 16); [change (2 ^ (14 + 16)) with (2 ^ 30); lia|done..].
  - intros H. apply (land_run_zero v 6 8); [change (2 ^ (6 + 8)) with (2 ^ 14); lia|done..].
Qed.

(** [GetVarInt62Len] is the least sufficient length. *)
Lemma GetVarInt62Len_cases v :
  is_u64 v →
  GetVarInt62Len v =
  if v <? 2 ^ 6 then 1 else if v <? 2 ^ 14 then 2 else if v <? 2 ^ 30 then 4
  else if v <? 2 ^ 62 then 8 else 0.
Proof.
  intros Hv. destruct (varint_masks v Hv) as (H1&H2&H3&H4). unfold GetVarInt62Len. rewrite H1.
  destruct (Z.ltb_spec v (2 ^ 62)); cbn [negb]; [|repeat case_match; lia].
  rewrite H2 by done. destruct (Z.ltb_spec v (2 ^ 30)); cbn [negb]; [|repeat case_match; lia].
  rewrite H3 by done. destruct (Z.ltb_spec v (2 ^ 14)); cbn [negb]; [|repeat case_match; lia].
  rewrite H4 by done. destruct (Z.ltb_spec v (2 ^ 6)); cbn [negb]; repeat case_match; lia.
Qed.

Lemma byte_at_spec v n : 0 <= n → byte_at v n = v / 2 ^ n mod 256.
Proof. intros. unfold byte_at. rewrite shiftr_div by done. by apply (land_low _ 8). Qed.

(** The bytes the encoder stores are the encoding. *)
Lemma varint_bytes_of len v :
  is_varint_len len → 0 <= v < varint_limit len →
  varint_bytes len v =
  if len =? 1 then varint1 v else if len =? 2 then varint2 v
  else if len =? 4 then varint4 v else varint8 v.
Proof.
  unfold varint_limit, varint_bytes, varint_prefix, varint1, varint2, varint4, varint8.
  intros Hl Hv.
  assert (H63 : ∀ x, Z.land x 63 = x mod 64) by (intros x; by apply (land_low x 6)).
  rewrite !byte_at_spec by done. rewrite !shiftr_div by done. rewrite !H63. clear H63.
  destruct Hl as [-> | [-> | [-> | ->]]];
    match goal with |- context [Z.to_nat ?n] =>
      let k := eval vm_compute in (Z.to_nat n) in change (Z.to_nat n) with k;
      let p := eval vm_compute in (2 ^ (8 * n - 2)) in change (2 ^ (8 * n - 2)) with p in Hv |- * end;
    unfold be_bytes; cbn [le_bytes rev app Z.eqb Pos.eqb]; rewrite ?Z.div_div by lia;
    repeat match goal with |- context [2 ^ ?n] =>
      let p := eval vm_compute in (2 ^ n) in change (2 ^ n) with p end;
    repeat (f_equal; [Z.to_euclidean_division_equations; lia|]); try done;
    f_equal; Z.to_euclidean_division_equations; lia.
Qed.

Lemma varint_bytes_length len v : is_varint_len len → zlen (varint_bytes len v) = len.
Proof.
  unfold varint_bytes, zlen. rewrite be_bytes_length. intros [-> | [-> | [-> | ->]]]; done.
Qed.

Lemma GetVarInt62Len_spec v :
  0 <= v < 2 ^ 62 →
  is_varint_len (GetVarInt62Len v) ∧ v < varint_limit (GetVarInt62Len v)
  ∧ ∀ len, is_varint_len len → v < varint_limit len → GetVarInt62Len v <= len.
Proof.
  intros Hv. rewrite GetVarInt62Len_cases by (unfold two64; lia). unfold varint_limit, is_varint_len.
  repeat case_match; (split; [lia|]; split; [lia|]);
    intros len [-> | [-> | [-> | ->]]]; lia.
Qed.

Lemma emits_WriteVarInt62 e v :
  0 <= v < 2 ^ 62 → emits e (WriteVarInt62 v) (varint_bytes (GetVarInt62Len v) v).
Proof.
  intros Hv. destruct (GetVarInt62Len_spec v Hv) as (Hl&Hlim&_).
  apply emits_put. intros w _ _. rewrite varint_bytes_length by done.
  rewrite varint_bytes_of by (done || lia). unfold WriteVarInt62. change (capacity w - length_ w) with (remaining w).
  unfold GetVarInt62Len. destruct (varint_masks v) as (->&_); [unfold two64; lia|].
  destruct (Z.ltb_spec v (2 ^ 62)); [cbn [negb]|lia].
  destruct (Z.land v kVarInt62Mask8Bytes =? 0); cbn [negb Z.eqb Pos.eqb]; [|done].
  destruct (Z.land v kVarInt62Mask4Bytes =? 0); cbn [negb Z.eqb Pos.eqb]; [|done].
  by destruct (Z.land v kVarInt62Mask2Bytes =? 0).
Qed.

Lemma WriteVarInt62_too_large v w :
  is_u64 v → 2 ^ 62 <= v → WriteVarInt62 v w = (false, w).
Proof.
  intros Hv Hl. unfold WriteVarInt62. destruct (varint_masks v Hv) as (->&_).
  by destruct (Z.ltb_spec v (2 ^ 62)); [lia|].
Qed.

(** The forced longer encodings. *)
Lemma emits_WriteVarInt62_len len v :
  is_varint_len len → 0 <= v < varint_limit len →
  emits NETWORK_BYTE_ORDER (WriteVarInt62_len v len) (varint_bytes len v).
Proof.
  intros Hl Hv. assert (Hv62 : 0 <= v < 2 ^ 62).
  { unfold varint_limit in Hv. destruct Hl as [-> | [-> | [-> | ->]]]; lia. }
  destruct (GetVarInt62Len_spec v Hv62) as (Hml&Hmlim&Hmin).
  specialize (Hmin len Hl ltac:(lia)).
  assert (HU : emits NETWORK_BYTE_ORDER
    (if len =? GetVarInt62Len v then WriteVarInt62 v else
     if len =? 2 then WriteUInt8 64 &&& WriteUInt8 (wrap8 v) else
     if len =? 4 then WriteUInt8 128 &&& WriteUInt8 0 &&& WriteUInt16 (wrap16 v) else
     WriteUInt8 192 &&& WriteUInt8 0 &&& WriteUInt16 0 &&& WriteUInt32 (wrap32 v))
    (varint_bytes len v)).
  { destruct (Z.eqb_spec len (GetVarInt62Len v)) as [->|Hne]; [by apply emits_WriteVarInt62|].
    pose proof (GetVarInt62Len_cases v ltac:(unfold two64; lia)) as Hc.
    assert (Hsmall : v < varint_limit (len / 2)).
    { unfold varint_limit, is_varint_len in *. clear Hmlim.
      destruct Hl as [-> | [-> | [-> | ->]]]; ground_pow; repeat case_match; lia. }
    unfold varint_limit in Hsmall. unfold varint_bytes, varint_prefix. clear Hc.
    destruct Hl as [-> | [-> | [-> | ->]]]; cbn [Z.eqb Pos.eqb].
    - exfalso. apply Hne. unfold is_varint_len in Hml. lia.
    - replace (be_bytes _ _) with ([64] ++ [wrap8 v]); [apply emits_andthen; apply emits_WriteUInt8|].
      change (Z.to_nat 2) with (1 + 1)%nat. rewrite be_bytes_app. unfold be_bytes, wrap8, two8, pow256.
      cbn [le_bytes rev app]. ground_pow. f_equal; [|f_equal]; Z.to_euclidean_division_equations; lia.
    - replace (be_bytes _ _) with ([128] ++ [0] ++ be_bytes 2 (wrap16 v)).
      + rewrite app_assoc. apply emits_andthen; [apply emits_andthen; apply emits_WriteUInt8|].
        apply (emits_WriteUInt NETWORK_BYTE_ORDER), Z.mod_pos_bound. done.
      + change (Z.to_nat 4) with (2 + 2)%nat. rewrite be_bytes_app, app_assoc. f_equal.
        * unfold be_bytes, pow256. cbn [le_bytes rev app]. ground_pow. f_equal; [|f_equal]; Z.to_euclidean_division_equations; lia.
        * apply be_bytes_congr. unfold wrap16, two16, pow256. ground_pow. Z.to_euclidean_division_equations; lia.
    - replace (be_bytes _ _) with ([192] ++ [0] ++ be_bytes 2 0 ++ be_bytes 4 (wrap32 v)).
      + rewrite !app_assoc. repeat apply emits_andthen; try apply emits_WriteUInt8;
          apply (emits_WriteUInt NETWORK_BYTE_ORDER); [done|]. apply Z.mod_pos_bound. done.
      + change (Z.to_nat 8) with (2 + 2 + 4)%nat. rewrite !be_bytes_app, <-!app_assoc, app_assoc. f_equal; [|f_equal].
        * unfold be_bytes, pow256. cbn [le_bytes rev app]. ground_pow. f_equal; [|f_equal]; Z.to_euclidean_division_equations; lia.
        * apply be_bytes_congr. unfold pow256. cbn [le_bytes rev app]. ground_pow. Z.to_euclidean_division_equations; lia.
        * apply be_bytes_congr. unfold wrap32, two32, pow256. ground_pow. Z.to_euclidean_division_equations; lia. }
  intros w Hw He. specialize (HU w Hw He). unfold WriteVarInt62_len.
  change (capacity w - length_ w) with (remaining w).
  destruct (Z.ltb_spec (remaining w) len).
  { rewrite varint_bytes_length by done. split; [done|]. split; [done|]. split; [done|].
    split; [lia|]. split; [lia|done]. }
  destruct (Z.ltb_spec len (GetVarInt62Len v)); [lia|].
  destruct (Z.eqb_spec len (GetVarInt62Len v)) as [?|Hne]; [done|].
  destruct Hl as [-> | [-> | [-> | ->]]]; cbn [Z.eqb Pos.eqb] in HU |- *; try exact HU.
  exfalso. unfold is_varint_len in Hml. lia.
Qed.

Lemma WriteVarInt62_len_refused len v w :
  is_varint_len len → varint_limit len <= v < 2 ^ 62 → WriteVarInt62_len v len w = (false, w).
Proof.
  intros Hl Hv. unfold varint_limit in Hv. unfold WriteVarInt62_len.
  destruct (capacity w - length_ w <? len); [done|].
  rewrite GetVarInt62Len_cases by (destruct Hl as [-> | [-> | [-> | ->]]]; unfold two64; lia).
  destruct Hl as [-> | [-> | [-> | ->]]]; ground_pow; repeat case_match; done || lia.
Qed.

(** ** Unsigned 16-bit floats *)

Lemma uf16_step_spec v offset s :
  0 < offset → 0 <= s.1 → s.2 = v / 2 ^ s.1 → 2 ^ 11 <= s.2 < 2 ^ (11 + 2 * offset) →
  let s' := uf16_step s offset in
  s.1 <= s'.1 <= s.1 + offset ∧ s'.2 = v / 2 ^ s'.1 ∧ 2 ^ 11 <= s'.2 < 2 ^ (11 + offset).
Proof.
  destruct s as [x y]. cbn [fst snd]. intros Ho Hx Hy Hb.
  unfold uf16_step, kUFloat16MantissaBits, kUFloat16ExponentBits.
  rewrite shiftl_mul by lia. rewrite Z.mul_1_l. change (16 - 5) with 11.
  replace (11 + 2 * offset) with (11 + offset + offset) in Hb by lia.
  pose proof (Z.pow_add_r 2 11 offset ltac:(lia) ltac:(lia)) as E1.
  pose proof (Z.pow_add_r 2 (11 + offset) offset ltac:(lia) ltac:(lia)) as E2.
  pose proof (Z.pow_pos_nonneg 2 offset ltac:(lia) ltac:(lia)).
  destruct (Z.leb_spec (2 ^ (11 + offset)) y); cbn [fst snd]; [|split; [lia|]; split; [done|lia]].
  rewrite shiftr_div by lia. split; [lia|]. split.
  - rewrite Hy, Z.div_div by (try apply Z.pow_nonzero; lia). by rewrite Z.pow_add_r by lia.
  - split; [apply Z.div_le_lower_bound; lia|apply Z.div_lt_upper_bound; lia].
Qed.

(** The encoder between its clamps: [x] is the exponent, the rest the mantissa. *)
Lemma uf16_result_mid v :
  4096 <= v < kUFloat16MaxValue →
  ∃ x, 1 <= x <= 30 ∧ 2048 * 2 ^ x <= v < 4096 * 2 ^ x ∧ uf16_result v = v / 2 ^ x + 2048 * x.
Proof.
  intros Hv. unfold uf16_result. change (Z.shiftl 1 kUFloat16MantissaEffectiveBits) with 4096.
  change kUFloat16MaxValue with 4396972769280 in *.
  destruct (Z.ltb_spec v 4096); [lia|]. destruct (Z.leb_spec 4396972769280 v); [lia|].
  cbn [fold_left].
  set (s1 := uf16_step (0, v) 16). set (s2 := uf16_step s1 8). set (s3 := uf16_step s2 4).
  set (s4 := uf16_step s3 2). set (r := uf16_step s4 1).
  destruct (uf16_step_spec v 16 (0, v)) as (A1&A2&A3); cbn [fst snd]; [lia|lia|by rewrite Z.div_1_r|ground_pow; lia|].
  fold s1 in A1, A2, A3. cbn [fst] in A1.
  destruct (uf16_step_spec v 8 s1) as (B1&B2&B3); [lia|lia|done|done|]. fold s2 in B1, B2, B3.
  destruct (uf16_step_spec v 4 s2) as (C1&C2&C3); [lia|lia|done|done|]. fold s3 in C1, C2, C3.
  destruct (uf16_step_spec v 2 s3) as (D1&D2&D3); [lia|lia|done|done|]. fold s4 in D1, D2, D3.
  destruct (uf16_step_spec v 1 s4) as (E1&E2&E3); [lia|lia|done|done|]. fold r in E1, E2, E3.
  assert (Hx0 : 0 <= r.1) by lia. clear A1 A2 A3 B1 B2 B3 C1 C2 C3 D1 D2 D3 E1. clearbody r. clear s1 s2 s3 s4.
  destruct r as [x y]. cbn [fst snd] in *.
  pose proof (Z.pow_pos_nonneg 2 x ltac:(lia) Hx0) as Hp.
  pose proof (Z.div_mod v (2 ^ x) ltac:(lia)) as Hdm. pose proof (Z.mod_pos_bound v (2 ^ x) Hp).
  rewrite <-E2 in Hdm. ground_pow.
  assert (Hlo : 2048 * 2 ^ x <= v) by nia. assert (Hhi : v < 4096 * 2 ^ x) by nia.
  assert (x <= 30).
  { destruct (Z.le_gt_cases x 30); [done|]. pose proof (Z.pow_le_mono_r 2 31 x ltac:(lia) ltac:(lia)).
    ground_pow. lia. }
  assert (1 <= x). { destruct (Z.eq_dec x 0) as [->|]; [ground_pow; lia|lia]. }
  exists x. split; [lia|]. split; [done|]. rewrite <-E2. rewrite shiftl_mul by done.
  unfold wrap16, two16, kUFloat16MantissaBits, kUFloat16ExponentBits. ground_pow.
  rewrite Z.mod_small; lia.
Qed.
End endian.
End WriterSpec.

(** ** What an operation takes from the buffer *)

Module ReaderSpec.
Import Reader.
#[local] Open Scope reader_scope.

Definition wf (r : t) : Prop := 0 <= pos r <= len r ∧ len r <= zlen (data r).

(** The bytes left to read. *)
Definition rest (r : t) : list Z := take (Z.to_nat (len r - pos r)) (drop (Z.to_nat (pos r)) (data r)).

Lemma reader_new_wf d e : wf (new d e).
Proof. unfold wf, new. simpl. pose proof (zlen_nonneg d). lia. Qed.

Lemma new_rest d e : rest (new d e) = d.
Proof. unfold rest, new, zlen. simpl. rewrite drop_0. apply take_ge. lia. Qed.

Lemma rest_length r : wf r → zlen (rest r) = BytesRemaining r.
Proof.
  unfold wf, rest, BytesRemaining, zlen. intros H. rewrite length_take, length_drop. lia.
Qed.

(** [reads e a d x]: in front of [d], [a] succeeds with [x] and takes [d]. *)
Definition reads {A} (e : Endianness) (a : action A) (d : list Z) (x : A) : Prop :=
  ∀ r k, wf r → endianness r = e → rest r = d ++ k →
  ∃ r', a r = (Some x, r') ∧ wf r' ∧ rest r' = k ∧ endianness r' = e.

Lemma reads_bind {A B} e (a : action A) (f : A → action B) d1 d2 x y :
  reads e a d1 x → reads e (f x) d2 y → reads e (bind a f) (d1 ++ d2) y.
Proof.
  intros Ha Hf r k Hw He Hr. rewrite <-app_assoc in Hr.
  destruct (Ha r (d2 ++ k) Hw He Hr) as (r1&E1&Hw1&Hr1&He1).
  destruct (Hf r1 k Hw1 He1 Hr1) as (r2&E2&Hr2). exists r2. unfold bind. by rewrite E1.
Qed.

Lemma reads_ret {A} e (x : A) : reads e (ret x) [] x.
Proof. intros r k Hw He Hr. exists r. done. Qed.

Lemma reads_map {A B} e (a : action A) (f : A → B) d x :
  reads e a d x → reads e (y <~ a; ret (f y)) d (f x).
Proof. intros Ha. rewrite <-(app_nil_r d). eapply reads_bind; [done|]. apply reads_ret. Qed.

Lemma reader_skip_spec r d k :
  wf r → rest r = d ++ k →
  zlen d <= BytesRemaining r ∧ at_pos (zlen d) r = d ∧ wf (skip (zlen d) r)
  ∧ rest (skip (zlen d) r) = k ∧ endianness (skip (zlen d) r) = endianness r.
Proof.
  intros Hw Hr. pose proof (rest_length r Hw) as Hl. rewrite Hr, zlen_app in Hl.
  pose proof (zlen_nonneg d). pose proof (zlen_nonneg k). unfold wf, BytesRemaining in *.
  split; [lia|]. split; [|split; [simpl; lia|split; [|done]]].
  - unfold at_pos. apply (f_equal (take (length d))) in Hr. rewrite take_app_length in Hr.
    transitivity (take (length d) (rest r)); [|done]. unfold rest. rewrite take_take.
    f_equal. unfold zlen in *. lia.
  - apply (f_equal (drop (length d))) in Hr. rewrite drop_app_length in Hr.
    transitivity (drop (length d) (rest r)); [|done].
    unfold rest, skip. cbn [pos len data]. unfold zlen in *.
    rewrite skipn_firstn_comm, drop_drop. f_equal; [lia|f_equal; lia].
Qed.

Lemma reads_ReadBytes e d : reads e (ReadBytes (zlen d)) d d.
Proof.
  intros r k Hw He Hr. destruct (reader_skip_spec r d k Hw Hr) as (Hl&Ha&Hs&Hk&Hes).
  exists (skip (zlen d) r). unfold ReadBytes, CanRead. unfold BytesRemaining in Hl.
  destruct (Z.leb_spec (zlen d) (len r - pos r)); [|lia]. rewrite Ha. split; [done|]. by rewrite Hes.
Qed.

Lemma reads_ReadStringPiece e d : reads e (ReadStringPiece (zlen d)) d d.
Proof. apply reads_ReadBytes. Qed.

Lemma next_rest r d k i :
  wf r → rest r = d ++ k → 0 <= i < zlen d → next r i = nth (Z.to_nat i) d 0.
Proof.
  intros Hw Hr Hi. unfold next. pose proof Hw as [? ?]. pose proof (rest_length r Hw) as Hl.
  rewrite Hr, zlen_app in Hl. unfold BytesRemaining, zlen in *.
  rewrite <-(app_nth1 d k) by lia. rewrite <-Hr. unfold rest.
  rewrite !nth_lookup, lookup_take_lt by lia. rewrite lookup_drop. do 2 f_equal. lia.
Qed.

Section endian.
Context {EI : EndianImpl} {EL : EndianLaws}.

Lemma reads_ReadUInt e n v :
  0 <= v < pow256 n → reads e (ReadUInt n) (WriterSpec.uint_bytes e n v) v.
Proof.
  intros Hv. unfold ReadUInt. rewrite <-(app_nil_r (WriterSpec.uint_bytes e n v)).
  assert (Hl : zlen (WriterSpec.uint_bytes e n v) = Z.of_nat n).
  { unfold zlen. destruct e; simpl; by rewrite ?le_bytes_length, ?be_bytes_length. }
  eapply reads_bind; [rewrite <-Hl; apply reads_ReadBytes|].
  intros r k Hw He Hr. exists r. split; [|done]. do 2 f_equal.
  destruct (endianness r); simpl; subst e; cbn [WriterSpec.uint_bytes].
  - rewrite <-(be_bytes_length n v) at 1. rewrite net_to_host by apply be_bytes_bytes.
    by apply be_val_bytes.
  - by apply le_val_bytes.
Qed.

Lemma reads_ReadUInt8 e v : is_byte v → reads e ReadUInt8 [v] v.
Proof.
  intros Hv. replace v with (le_val [v]) at 2 by (simpl; lia).
  apply (reads_map _ _ le_val), (reads_ReadBytes e [v]).
Qed.

Lemma reads_ReadBytesToUInt64 e n v :
  (n <= 8)%nat → 0 <= v < pow256 n →
  reads e (ReadBytesToUInt64 n) (WriterSpec.uint_bytes e n v) v.
Proof.
  intros Hn Hv.
  assert (Hl : zlen (WriterSpec.uint_bytes e n v) = Z.of_nat n).
  { unfold zlen. destruct e; simpl; by rewrite ?le_bytes_length, ?be_bytes_length. }
  assert (HR : reads e (ReadBytes (Z.of_nat n)) (WriterSpec.uint_bytes e n v) (WriterSpec.uint_bytes e n v)).
  { rewrite <-Hl at 1. apply reads_ReadBytes. }
  intros r k Hw He Hr. unfold ReadBytesToUInt64. destruct (Z.ltb_spec 8 (Z.of_nat n)); [lia|].
  rewrite He. destruct e; simpl decide; cbn [WriterSpec.uint_bytes] in *.
  - destruct (decide _) as [|_]; [done|].
    eapply (reads_map _ _ (λ b, NetToHost 8 (le_val (replicate (8 - n) 0 ++ b)))) in HR.
    destruct (HR r k Hw He Hr) as (r'&E'&Hrest). exists r'. rewrite E'. split; [|done].
    do 2 f_equal. set (l := replicate (8 - n) 0 ++ be_bytes n v).
    assert (length l = 8%nat) as <-.
    { unfold l. rewrite length_app, length_replicate, be_bytes_length. lia. }
    rewrite net_to_host.
    + unfold l. by rewrite be_val_zeros, be_val_bytes.
    + unfold l. apply Forall_app. split; [apply Forall_replicate; lia|apply be_bytes_bytes].
  - destruct (decide _) as [_|]; [|done].
    eapply (reads_map _ _ (λ b, le_val (b ++ replicate (8 - n) 0))) in HR.
    destruct (HR r k Hw He Hr) as (r'&E'&Hrest). exists r'. rewrite E'. split; [|done].
    do 2 f_equal. rewrite le_val_app, le_val_bytes, le_val_zeros by done. lia.
Qed.

Lemma reads_ReadStringPiece16 e s :
  zlen s <= 65535 → reads e ReadStringPiece16 (WriterSpec.uint_bytes e 2 (zlen s) ++ s) s.
Proof.
  intros Hs. eapply reads_bind; [|apply reads_ReadStringPiece].
  apply reads_ReadUInt. pose proof (zlen_nonneg s). unfold pow256. ground_pow. lia.
Qed.

Lemma reads_ReadConnectionId e flag id :
  zlen id <= kQuicMaxConnectionIdLength → reads e (ReadConnectionId flag (zlen id)) id id.
Proof.
  intros Hl r k Hw He Hr. unfold ReadConnectionId.
  destruct (Z.ltb_spec kQuicMaxConnectionIdLength (zlen id)); [lia|].
  destruct (Z.eqb_spec (zlen id) 0) as [H0|H0].
  { destruct id; [by exists r|]. rewrite zlen_cons in H0. pose proof (zlen_nonneg id). lia. }
  destruct (reads_ReadBytes e id r k Hw He Hr) as (r'&E'&Hrest). exists r'.
  destruct flag; cbn [negb]; [|done].
  destruct (reader_skip_spec r id k Hw Hr) as (Hb&_). by case_match; [lia|].
Qed.

Lemma reads_ReadTag e v : is_u32 v → reads e ReadTag (le_bytes 4 v) v.
Proof.
  intros Hv. rewrite <-(le_val_bytes 4 v) at 2 by exact Hv.
  apply (reads_map _ _ le_val), (reads_ReadBytes e (le_bytes 4 v)).
Qed.

(** ** Variable-length integers *)

Lemma land_192 b : is_byte b → Z.land b 192 = b / 64 * 64 ∧ Z.land b 63 = b mod 64.
Proof.
  intros Hb. split; [|by apply (land_low b 6)].
  change 192 with (bit_run 6 2). rewrite land_run by lia. ground_pow.
  rewrite (Z.mod_small (b / 64)) by (Z.to_euclidean_division_equations; lia). done.
Qed.

(** The encoding spelled out by bytes. *)
Lemma varint_bytes_prefix len v :
  WriterSpec.is_varint_len len → 0 <= v < WriterSpec.varint_limit len →
  ∃ b l, WriterSpec.varint_bytes len v = b :: l ∧ is_byte b ∧ bytes l ∧ zlen l = len - 1
    ∧ b / 64 = WriterSpec.varint_prefix len
    ∧ be_val (b mod 64 :: l) = v.
Proof.
  intros Hl Hv. pose proof (WriterSpec.varint_bytes_length len v Hl) as Hlen.
  unfold WriterSpec.varint_bytes in *. set (x := _ + v) in *.
  pose proof (be_bytes_bytes (Z.to_nat len) x) as Hb.
  assert (Hx : be_val (be_bytes (Z.to_nat len) x) = x).
  { apply be_val_bytes. unfold x, WriterSpec.varint_limit, WriterSpec.varint_prefix, pow256 in *.
    destruct Hl as [-> | [-> | [-> | ->]]]; cbn [Z.eqb Pos.eqb]; ground_pow; lia. }
  destruct (be_bytes (Z.to_nat len) x) as [|b l] eqn:E.
  { rewrite zlen_nil in Hlen. unfold WriterSpec.is_varint_len in Hl. lia. }
  exists b, l. apply Forall_cons in Hb as [Hb1 Hb2]. rewrite zlen_cons in Hlen.
  pose proof (be_val_bound l Hb2) as Hlb.
  change (b :: l) with ([b] ++ l) in Hx. rewrite be_val_app in Hx.
  change (b mod 64 :: l) with ([b mod 64] ++ l). rewrite be_val_app.
  change (be_val [b]) with (b + 256 * 0) in Hx. change (be_val [b mod 64]) with (b mod 64 + 256 * 0).
  split; [done|]. split; [done|]. split; [done|]. split; [lia|].
  assert (Hn : length l = Z.to_nat (len - 1)) by (unfold zlen in Hlen; lia).
  rewrite Hn in *. unfold x, WriterSpec.varint_limit, WriterSpec.varint_prefix, pow256 in *. clear x E Hn Hlen.
  destruct Hl as [-> | [-> | [-> | ->]]]; cbn [Z.eqb Pos.eqb] in *; ground_pow;
    Z.to_euclidean_division_equations; lia.
Qed.

Lemma reads_ReadVarInt62 e len v :
  WriterSpec.is_varint_len len → 0 <= v < WriterSpec.varint_limit len →
  reads e ReadVarInt62 (WriterSpec.varint_bytes len v) v.
Proof.
  intros Hl Hv r k Hw He Hr.
  destruct (varint_bytes_prefix len v Hl Hv) as (b&l&E&Hb&Hlb&Hll&Hp&Hval).
  pose proof (WriterSpec.varint_bytes_length len v Hl) as Hlen.
  destruct (reader_skip_spec r _ k Hw Hr) as (Hrem&_&Hs&Hk&Hes). rewrite Hlen in *.
  exists (skip len r). split; [|split; [done|split; [done|by rewrite Hes]]].
  assert (Hnext : ∀ i, 0 <= i < len → next r i = nth (Z.to_nat i) (b :: l) 0).
  { intros i Hi. rewrite <-E. eapply next_rest; [done..|]. by rewrite Hlen. }
  assert (Hpos : 0 < len) by (destruct Hl as [-> | [-> | [-> | ->]]]; done).
  assert (H0 : next r 0 = b) by (apply (Hnext 0); lia).
  destruct (land_192 b Hb) as [H192 H63]. rewrite Hp in H192.
  assert (Hlen' : length l = Z.to_nat (len - 1)) by (unfold zlen in Hll; lia).
  unfold ReadVarInt62. destruct (Z.eqb_spec (BytesRemaining r) 0); [lia|]. cbn [negb].
  rewrite H0, H192, H63, <-Hval. clear Hr Hs Hk Hes E Hp H192 H63 Hval Hv H0.
  destruct Hl as [-> | [-> | [-> | ->]]]; unfold WriterSpec.varint_prefix;
    cbn [Z.eqb Pos.eqb Z.mul Pos.mul];
    match type of Hlen' with _ = ?n => let k := eval vm_compute in n in change n with k in Hlen' end;
    repeat (destruct l as [|? l]; try discriminate Hlen');
    repeat match goal with |- context [next r ?i] =>
      let H := fresh in pose proof (Hnext i ltac:(lia)) as H; cbv [nth Z.to_nat Pos.to_nat Pos.iter_op Nat.add] in H; rewrite H; clear H end;
    try (destruct (Z.leb_spec 2 (BytesRemaining r)); [|lia]);
    try (destruct (Z.leb_spec 4 (BytesRemaining r)); [|lia]);
    try (destruct (Z.leb_spec 8 (BytesRemaining r)); [|lia]);
    do 2 f_equal; rewrite ?shiftl_mul by lia; unfold be_val; cbn [rev app le_val]; ground_pow; lia.
Qed.

(** The length announced by the first byte. *)
Lemma first_byte_length b :
  is_byte b →
  let len := Z.shiftl 1 (Z.shiftr (Z.land b 192) 6) in
  WriterSpec.is_varint_len len ∧ WriterSpec.varint_prefix len = b / 64.
Proof.
  intros Hb. destruct (land_192 b Hb) as [-> _]. rewrite shiftr_div by lia. ground_pow.
  rewrite Z.div_mul by lia. assert (Hp : 0 <= b / 64 < 4) by (Z.to_euclidean_division_equations; lia).
  assert (b / 64 = 0 ∨ b / 64 = 1 ∨ b / 64 = 2 ∨ b / 64 = 3) as [-> | [-> | [-> | ->]]] by lia;
    (split; [vm_compute; tauto|done]).
Qed.

(** Every string of that length is an encoding. *)
Lemma varint_bytes_onto d len :
  bytes d → zlen d = len → WriterSpec.is_varint_len len →
  nth 0 d 0 / 64 = WriterSpec.varint_prefix len →
  ∃ v, 0 <= v < WriterSpec.varint_limit len ∧ d = WriterSpec.varint_bytes len v.
Proof.
  intros Hd Hl Hlen Hp. pose proof (be_bytes_val d Hd) as E. pose proof (be_val_bound d Hd) as Hb.
  exists (be_val d - WriterSpec.varint_prefix len * 2 ^ (8 * len - 2)).
  assert (Hn : length d = Z.to_nat len) by (unfold zlen in Hl; lia).
  split.
  - destruct d as [|b l]; [rewrite zlen_nil in Hl; unfold WriterSpec.is_varint_len in Hlen; lia|].
    cbn [nth] in Hp. apply Forall_cons in Hd as [Hb1 Hdl]. pose proof (be_val_bound l Hdl) as Hbl.
    rewrite <-Hp. change (b :: l) with ([b] ++ l) in *. rewrite be_val_app.
    change (be_val [b]) with (b + 256 * 0).
    assert (Hln : length l = Z.to_nat (len - 1)) by (rewrite length_app in Hn; simpl in Hn; lia).
    rewrite Hln in *. unfold WriterSpec.varint_limit, WriterSpec.varint_prefix, pow256 in *.
    clear E Hb Hn Hl Hln. destruct Hlen as [-> | [-> | [-> | ->]]]; cbn [Z.eqb Pos.eqb] in *; ground_pow;
      Z.to_euclidean_division_equations; lia.
  - unfold WriterSpec.varint_bytes. rewrite <-Hn. rewrite <-E at 1. f_equal. lia.
Qed.

Lemma rest_bytes r : bytes (data r) → bytes (rest r).
Proof. intros H. unfold rest. by apply Forall_take, Forall_drop. Qed.

(** [ReadVarInt62] on any input: it takes exactly the encoding [PeekVarInt62Length]
    announces, or leaves the reader alone when that is cut short. *)
Lemma ReadVarInt62_any r :
  wf r → bytes (data r) →
  let len := PeekVarInt62Length r in
  if (len =? 0) || (BytesRemaining r <? len) then ReadVarInt62 r = (None, r) else
  WriterSpec.is_varint_len len
  ∧ ∃ v, 0 <= v < WriterSpec.varint_limit len
    ∧ ReadVarInt62 r = (Some v, skip len r)
    ∧ rest r = WriterSpec.varint_bytes len v ++ rest (skip len r).
Proof.
  intros Hw Hd len. unfold len, PeekVarInt62Length. clear len. pose proof (rest_length r Hw) as Hrl.
  destruct (Z.eqb_spec (BytesRemaining r) 0) as [E0|E0].
  { cbn [Z.eqb orb]. unfold ReadVarInt62. by rewrite E0. }
  pose proof (rest_bytes r Hd) as Hrb. pose proof (zlen_nonneg (rest r)).
  destruct (rest r) as [|b tl] eqn:Er; [rewrite zlen_nil in Hrl; lia|].
  assert (Hb0 : next r 0 = b) by (apply (next_rest r [b] tl 0 Hw Er); done).
  assert (Hb : is_byte b) by by inversion Hrb.
  rewrite Hb0. destruct (first_byte_length b Hb) as [Hlen Hpre]. set (len := Z.shiftl 1 _) in *.
  destruct (Z.eqb_spec len 0); [unfold WriterSpec.is_varint_len in Hlen; lia|]. cbn [orb].
  destruct (Z.ltb_spec (BytesRemaining r) len) as [Hshort|Hlong].
  - unfold ReadVarInt62. rewrite Hb0. destruct (land_192 b Hb) as [-> _]. rewrite <-Hpre.
    destruct (Z.eqb_spec (BytesRemaining r) 0); [done|]. cbn [negb].
    destruct Hlen as [E | [E | [E | E]]]; rewrite E in *; unfold WriterSpec.varint_prefix;
      cbn [Z.eqb Pos.eqb Z.mul Pos.mul]; repeat case_match; try done; exfalso; lia.
  - split; [done|].
    destruct (varint_bytes_onto (take (Z.to_nat len) (b :: tl)) len) as (v&Hv&Ev); [by apply Forall_take| |done| |].
    { unfold zlen in *. rewrite length_take. unfold WriterSpec.is_varint_len in Hlen. lia. }
    { assert (0 < len) by (unfold WriterSpec.is_varint_len in Hlen; lia).
      destruct (Z.to_nat len) eqn:En; [lia|]. done. }
    exists v. split; [done|]. pose proof (take_drop (Z.to_nat len) (b :: tl)) as Etd.
    rewrite Ev, <-Er in Etd.
    destruct (reader_skip_spec r _ _ Hw (eq_sym Etd)) as (_&_&_&Hk&_).
    rewrite WriterSpec.varint_bytes_length in Hk by done.
    destruct (reads_ReadVarInt62 (endianness r) len v Hlen Hv r _ Hw eq_refl (eq_sym Etd)) as (r'&E&_).
    split; [|by rewrite Hk, <-Er, Etd].
    rewrite E. f_equal. revert E. unfold ReadVarInt62. rewrite Hb0. destruct (land_192 b Hb) as [-> _].
    rewrite <-Hpre. destruct (Z.eqb_spec (BytesRemaining r) 0); [done|]. cbn [negb].
    destruct Hlen as [El | [El | [El | El]]]; rewrite El in *; unfold WriterSpec.varint_prefix;
      cbn [Z.eqb Pos.eqb Z.mul Pos.mul]; repeat case_match; naive_solver.
Qed.
End endian.
End ReaderSpec.

(** ** Messages: sequences of writes and the reads that mirror them *)

Module Wire.
Import WriterSpec ReaderSpec.

(** One write, with what the matching read needs to know in its argument. *)
Inductive item :=
  | UInt8 (v : Z) | UInt16 (v : Z) | UInt32 (v : Z) | UInt64 (v : Z)
  | BytesToUInt64 (n : nat) (v : Z)
  | UFloat16 (v : Z)
  | StringPiece16 (s : list Z)
  | StringPiece (s : list Z)
  | ConnectionId (id : list Z)
  | Tag (v : Z)
  | VarInt62 (v : Z)
  | VarInt62_len (v write_length : Z).

Inductive value := Num (v : Z) | Str (s : list Z).

Section endian.
Context {EI : EndianImpl}.

Definition write (i : item) : Writer.action :=
  match i with
  | UInt8 v => Writer.WriteUInt8 v
  | UInt16 v => Writer.WriteUInt16 v
  | UInt32 v => Writer.WriteUInt32 v
  | UInt64 v => Writer.WriteUInt64 v
  | BytesToUInt64 n v => Writer.WriteBytesToUInt64 n v
  | UFloat16 v => Writer.WriteUFloat16 v
  | StringPiece16 s => Writer.WriteStringPiece16 s
  | StringPiece s => Writer.WriteStringPiece s
  | ConnectionId id => Writer.WriteConnectionId id
  | Tag v => Writer.WriteTag v
  | VarInt62 v => Writer.WriteVarInt62 v
  | VarInt62_len v n => Writer.WriteVarInt62_len v n
  end.

(** The matching read sees the kind of the item and, for strings without a length on
    the wire, the length. *)
Definition read (i : item) : Reader.action value :=
  let num (a : Reader.action Z) := Reader.bind a (λ v, Reader.ret (Num v)) in
  let str (a : Reader.action (list Z)) := Reader.bind a (λ s, Reader.ret (Str s)) in
  match i with
  | UInt8 _ => num Reader.ReadUInt8
  | UInt16 _ => num Reader.ReadUInt16
  | UInt32 _ => num Reader.ReadUInt32
  | UInt64 _ => num Reader.ReadUInt64
  | BytesToUInt64 n _ => num (Reader.ReadBytesToUInt64 n)
  | UFloat16 _ => num Reader.ReadUFloat16
  | StringPiece16 _ => str Reader.ReadStringPiece16
  | StringPiece s => str (Reader.ReadStringPiece (zlen s))
  | ConnectionId id => str (Reader.ReadConnectionId false (zlen id))
  | Tag _ => num Reader.ReadTag
  | VarInt62 _ | VarInt62_len _ _ => num Reader.ReadVarInt62
  end.

(** What the reader should see. *)
Definition sent (i : item) : value :=
  match i with
  | UInt8 v | UInt16 v | UInt32 v | UInt64 v | Tag v | VarInt62 v | VarInt62_len v _ => Num v
  | BytesToUInt64 n v => Num (v mod pow256 n)
  | UFloat16 v => Num (Reader.uf16_value (Writer.uf16_result v))
  | StringPiece16 s | StringPiece s | ConnectionId s => Str s
  end.

Definition encoding (e : Endianness) (i : item) : list Z :=
  match i with
  | UInt8 v => [v]
  | UInt16 v => uint_bytes e 2 v
  | UInt32 v => uint_bytes e 4 v
  | UInt64 v => uint_bytes e 8 v
  | BytesToUInt64 n v => uint_bytes e n (v mod pow256 n)
  | UFloat16 v => uint_bytes e 2 (Writer.uf16_result v)
  | StringPiece16 s => uint_bytes e 2 (zlen s) ++ s
  | StringPiece s | ConnectionId s => s
  | Tag v => le_bytes 4 v
  | VarInt62 v => varint_bytes (Writer.GetVarInt62Len v) v
  | VarInt62_len v n => varint_bytes n v
  end.

(** The arguments the C++ types and contracts allow. *)
Definition good (e : Endianness) (i : item) : Prop :=
  match i with
  | UInt8 v => is_byte v
  | UInt16 v => is_u16 v
  | UInt32 v | Tag v => is_u32 v
  | UInt64 v => is_u64 v
  | BytesToUInt64 n v => (n <= 8)%nat ∧ is_u64 v
  | UFloat16 v => is_u64 v
  | StringPiece16 s => zlen s <= 65535
  | StringPiece s => True
  | ConnectionId id => zlen id <= kQuicMaxConnectionIdLength
  | VarInt62 v => 0 <= v < 2 ^ 62 ∧ e = NETWORK_BYTE_ORDER
  | VarInt62_len v n => is_varint_len n ∧ 0 <= v < varint_limit n ∧ e = NETWORK_BYTE_ORDER
  end.

Fixpoint write_all (l : list item) : Writer.action :=
  match l with
  | [] => Writer.ret true
  | i :: l => Writer.andthen (write i) (write_all l)
  end.

Fixpoint read_all (l : list item) : Reader.action (list value) :=
  match l with
  | [] => Reader.ret []
  | i :: l => Reader.bind (read i) (λ v, Reader.bind (read_all l) (λ vs, Reader.ret (v :: vs)))
  end.

Definition encoding_all (e : Endianness) (l : list item) : list Z := concat (map (encoding e) l).

Context {EL : EndianLaws}.

Lemma uf16_result_u16 v : is_u64 v → is_u16 (Writer.uf16_result v).
Proof.
  intros Hv. destruct (Z.lt_ge_cases v 4096) as [Hs|Hs].
  - unfold Writer.uf16_result. change (Z.shiftl 1 kUFloat16MantissaEffectiveBits) with 4096.
    case_match; unfold two16; lia.
  - destruct (Z.lt_ge_cases v kUFloat16MaxValue) as [Hm|Hm].
    + destruct (uf16_result_mid v ltac:(lia)) as (x&Hx&Hb&E). rewrite E. unfold two16.
      pose proof (Z.pow_pos_nonneg 2 x ltac:(lia) ltac:(lia)).
      assert (v / 2 ^ x < 4096) by (apply Z.div_lt_upper_bound; lia).
      assert (2048 <= v / 2 ^ x) by (apply Z.div_le_lower_bound; lia). lia.
    + unfold Writer.uf16_result. change (Z.shiftl 1 kUFloat16MantissaEffectiveBits) with 4096.
      unfold two16. repeat case_match; lia.
Qed.

Lemma emits_WriteUFloat16 e v :
  is_u64 v → emits e (Writer.WriteUFloat16 v) (uint_bytes e 2 (Writer.uf16_result v)).
Proof.
  intros Hv. eapply (emits_ext _ _ (Writer.WriteUInt 2 (Writer.uf16_result v))); [done|].
  apply emits_WriteUInt. exact (uf16_result_u16 v Hv).
Qed.

Lemma emits_write e i : good e i → emits e (write i) (encoding e i).
Proof.
  destruct i; cbn [good write encoding].
  - intros _. apply emits_WriteUInt8.
  - apply (emits_WriteUInt e 2).
  - apply (emits_WriteUInt e 4).
  - apply (emits_WriteUInt e 8).
  - intros [? ?]. by apply emits_WriteBytesToUInt64.
  - apply emits_WriteUFloat16.
  - intros Hs. unfold Writer.WriteStringPiece16. destruct (Z.ltb_spec 65535 (zlen s)); [lia|].
    apply emits_andthen; [|apply emits_WriteBytes]. pose proof (zlen_nonneg s).
    apply (emits_WriteUInt e 2). unfold pow256. ground_pow. lia.
  - intros _. apply emits_WriteBytes.
  - intros _. unfold Writer.WriteConnectionId. destruct id; [apply emits_ret|apply emits_WriteBytes].
  - intros _. apply emits_WriteBytes.
  - intros [? _]. by apply emits_WriteVarInt62.
  - intros (?&?&->). by apply emits_WriteVarInt62_len.
Qed.

Lemma reads_read e i : good e i → ReaderSpec.reads e (read i) (encoding e i) (sent i).
Proof.
  destruct i; cbn [good read encoding sent]; intros Hg.
  1-4: apply (reads_map _ _ Num). 5-6: apply (reads_map _ _ Num). 7-9: apply (reads_map _ _ Str).
  10-12: apply (reads_map _ _ Num).
  - by apply reads_ReadUInt8.
  - by apply reads_ReadUInt.
  - by apply reads_ReadUInt.
  - by apply reads_ReadUInt.
  - destruct Hg as [Hn Hv]. apply reads_ReadBytesToUInt64; [done|].
    apply Z.mod_pos_bound, pow256_pos.
  - apply (reads_map _ _ Reader.uf16_value), reads_ReadUInt. exact (uf16_result_u16 v Hg).
  - by apply reads_ReadStringPiece16.
  - apply reads_ReadStringPiece.
  - by apply reads_ReadConnectionId.
  - by apply reads_ReadTag.
  - destruct Hg as [Hv _]. destruct (GetVarInt62Len_spec v Hv) as (?&?&_).
    apply reads_ReadVarInt62; [done|lia].
  - destruct Hg as (?&?&_). by apply reads_ReadVarInt62.
Qed.

Lemma emits_write_all e l : Forall (good e) l → emits e (write_all l) (encoding_all e l).
Proof.
  induction 1 as [|i l Hi Hl IH]; cbn; [apply emits_ret|].
  apply emits_andthen; [by apply emits_write|done].
Qed.

Lemma reads_read_all e l :
  Forall (good e) l → reads e (read_all l) (encoding_all e l) (map sent l).
Proof.
  induction 1 as [|i l Hi Hl IH]; cbn; [apply reads_ret|].
  eapply reads_bind; [by apply reads_read|]. apply (reads_map _ _ (cons (sent i))), IH.
Qed.

(** C37. Round trip. A message written field by field into a buffer of any size, in either byte
    order, succeeds exactly when the encodings fit, never passes the end of the buffer, and when
    it succeeds the mirroring reads return every field - floats rounded, truncated integers
    truncated, the rest as written - and end exactly at the end. *)
Theorem write_read_roundtrip e capacity l :
  Forall (good e) l →
  let '(ok, w) := write_all l (Writer.new capacity e) in
  (ok = true ↔ zlen (encoding_all e l) <= Z.of_nat capacity)
  ∧ Writer.length_ w <= Writer.capacity w
  ∧ (ok = true →
      written w = encoding_all e l
      ∧ ∃ r, read_all l (Reader.new (written w) e) = (Some (map sent l), r)
         ∧ Reader.IsDoneReading r = true).
Proof.
  intros Hg. pose proof (emits_write_all e l Hg (Writer.new capacity e) (writer_new_wf _ _) eq_refl) as H.
  destruct (write_all l _) as [ok w]. destruct H as ([_ Hc]&Hcap&_&_&->&Hok).
  assert (Hr : Writer.remaining (Writer.new capacity e) = Z.of_nat capacity).
  { unfold Writer.remaining, Writer.capacity, Writer.new, zlen. simpl. rewrite length_replicate. lia. }
  rewrite Hr in *. split; [lia|]. split; [done|]. intros Hfit. destruct (Hok Hfit) as [Hw _].
  split; [exact Hw|].
  destruct (reads_read_all e l Hg (Reader.new (written w) e) []) as (r&E&Hwf&Hrest&_).
  { apply reader_new_wf. }
  { done. }
  { by rewrite new_rest, Hw, app_nil_r. }
  exists r. split; [done|]. apply (f_equal zlen) in Hrest. rewrite rest_length in Hrest by done.
  unfold Reader.BytesRemaining, Reader.IsDoneReading in *. rewrite zlen_nil in Hrest. lia.
Qed.
End endian.

Lemma write_read_roundtrip_witness :
  let l := [UInt8 7; UInt16 515; VarInt62 300; VarInt62_len 5 8; UFloat16 5000;
            StringPiece16 [1; 2; 3]; BytesToUInt64 3 66051; ConnectionId [9; 9]; Tag 1] in
  let '(ok, w) := write_all l (Writer.new 40 NETWORK_BYTE_ORDER) in
  (ok = true ↔ zlen (encoding_all NETWORK_BYTE_ORDER l) <= Z.of_nat 40)
  ∧ Writer.length_ w <= Writer.capacity w
  ∧ (ok = true →
      written w = encoding_all NETWORK_BYTE_ORDER l
      ∧ ∃ r, read_all l (Reader.new (written w) NETWORK_BYTE_ORDER) = (Some (map sent l), r)
         ∧ Reader.IsDoneReading r = true).
Proof.
  intros l. apply write_read_roundtrip.
  repeat apply Forall_cons_2; try apply Forall_nil_2; cbn [good]; unfold is_varint_len, varint_limit, two16, two32, two64;
    cbn; repeat split; try discriminate; try lia; tauto.
Defined.

Example roundtrip_bytes :
  written (write_all [UInt16 515; VarInt62 300; VarInt62_len 5 4; UFloat16 5000; BytesToUInt64 3 66051]
             (Writer.new 40 NETWORK_BYTE_ORDER)).2
  = [2; 3; 65; 44; 128; 0; 0; 5; 17; 196; 1; 2; 3].
Proof. vm_compute. done. Qed.

(** The writer with a forced length does not refuse a value of more than 62 bits:
    [GetVarInt62Len] is 0 for it. *)
Lemma WriteVarInt62_len_too_large {EI : EndianImpl} v w :
  is_u64 v → 2 ^ 62 <= v → WriterSpec.wf w → 2 <= Writer.remaining w →
  (Writer.WriteVarInt62_len v 2 w).1 = true.
Proof.
  intros Hv Hl Hw Hr. unfold Writer.WriteVarInt62_len. change (_ - _) with (Writer.remaining w) at 1.
  rewrite GetVarInt62Len_cases by done. ground_pow.
  destruct (Z.ltb_spec (Writer.remaining w) 2); [lia|].
  destruct (Z.ltb_spec v 64), (Z.ltb_spec v 16384), (Z.ltb_spec v 1073741824),
    (Z.ltb_spec v 4611686018427387904); try lia. cbn [Z.ltb Z.eqb Pos.eqb Z.compare].
  pose proof (emits_andthen _ _ _ _ _ (emits_WriteUInt8 (Writer.endianness w) 64)
    (emits_WriteUInt8 (Writer.endianness w) (wrap8 v)) w Hw eq_refl) as Ha.
  destruct (Writer.andthen _ _ w) as [ok w']. destruct Ha as (_&_&_&_&->&_). cbn [fst app].
  rewrite !zlen_cons, zlen_nil. lia.
Qed.

(** Variable-length integers. [GetVarInt62Len] is the least length that holds the value;
    [WriteVarInt62] refuses what needs more than 62 bits and writes nothing (given a length to
    fill, the writer does not refuse it); and on any received
    bytes [ReadVarInt62] takes exactly as many as [PeekVarInt62Length] announces, giving the one
    value whose encoding they are, or leaves the reader as it was when they are cut short. *)
Theorem varint62_correct {EI : EndianImpl} v r :
  is_u64 v → ReaderSpec.wf r → bytes (Reader.data r) →
  (if v <? 2 ^ 62
   then is_varint_len (Writer.GetVarInt62Len v) ∧ v < varint_limit (Writer.GetVarInt62Len v)
        ∧ ∀ len, is_varint_len len → v < varint_limit len → Writer.GetVarInt62Len v <= len
   else (∀ w, Writer.WriteVarInt62 v w = (false, w))
        ∧ ∀ w, WriterSpec.wf w → 2 <= Writer.remaining w → (Writer.WriteVarInt62_len v 2 w).1 = true)
  ∧ (let len := Reader.PeekVarInt62Length r in
     if (len =? 0) || (Reader.BytesRemaining r <? len) then Reader.ReadVarInt62 r = (None, r) else
     is_varint_len len
     ∧ ∃ x, 0 <= x < varint_limit len
       ∧ Reader.ReadVarInt62 r = (Some x, Reader.skip len r)
       ∧ ReaderSpec.rest r = varint_bytes len x ++ ReaderSpec.rest (Reader.skip len r)).
Proof.
  intros Hv Hw Hd. split; [|by apply ReadVarInt62_any].
  destruct (Z.ltb_spec v (2 ^ 62)).
  - apply GetVarInt62Len_spec. lia.
  - split; intros w; [by apply WriteVarInt62_too_large|]. intros. by apply WriteVarInt62_len_too_large.
Qed.

Lemma varint62_correct_witness :
  let r := Reader.new [64; 37; 1] NETWORK_BYTE_ORDER in
  (if 16384 <? 2 ^ 62
   then is_varint_len (Writer.GetVarInt62Len 16384) ∧ 16384 < varint_limit (Writer.GetVarInt62Len 16384)
        ∧ ∀ len, is_varint_len len → 16384 < varint_limit len → Writer.GetVarInt62Len 16384 <= len
   else (∀ w, Writer.WriteVarInt62 16384 w = (false, w))
        ∧ ∀ w, WriterSpec.wf w → 2 <= Writer.remaining w → (Writer.WriteVarInt62_len 16384 2 w).1 = true)
  ∧ (let len := Reader.PeekVarInt62Length r in
     if (len =? 0) || (Reader.BytesRemaining r <? len) then Reader.ReadVarInt62 r = (None, r) else
     is_varint_len len
     ∧ ∃ x, 0 <= x < varint_limit len
       ∧ Reader.ReadVarInt62 r = (Some x, Reader.skip len r)
       ∧ ReaderSpec.rest r = varint_bytes len x ++ ReaderSpec.rest (Reader.skip len r)).
Proof.
  intros r. apply (varint62_correct 16384 r).
  - split; [discriminate|reflexivity].
  - apply reader_new_wf.
  - repeat constructor; discriminate.
Defined.

Lemma uf16_value_mid x y :
  1 <= x <= 30 → 2048 <= y < 4096 → Reader.uf16_value (y + 2048 * x) = y * 2 ^ x.
Proof.
  intros Hx Hy. unfold Reader.uf16_value. change (Z.shiftl 1 kUFloat16MantissaEffectiveBits) with 4096.
  destruct (Z.ltb_spec (y + 2048 * x) 4096); [lia|].
  assert (E : wrap16 (Z.shiftr (y + 2048 * x) kUFloat16MantissaBits - 1) = x).
  { unfold wrap16, two16, kUFloat16MantissaBits, kUFloat16ExponentBits. change (16 - 5) with 11.
    rewrite shiftr_div by lia. ground_pow. Z.to_euclidean_division_equations; lia. }
  rewrite E, !shiftl_mul by (unfold kUFloat16MantissaBits, kUFloat16ExponentBits; lia).
  change (2 ^ kUFloat16MantissaBits) with 2048.
  replace (y + 2048 * x - x * 2048) with y by lia. unfold wrap64. apply Z.mod_small.
  pose proof (Z.pow_pos_nonneg 2 x ltac:(lia) ltac:(lia)).
  pose proof (Z.pow_le_mono_r 2 x 30 ltac:(lia) ltac:(lia)). ground_pow. unfold two64. nia.
Qed.

(** Every 16-bit float is small, or an exponent and a mantissa. *)
Lemma uf16_shape f :
  is_u16 f → f < 4096 ∨ ∃ x y, 1 <= x <= 30 ∧ 2048 <= y < 4096 ∧ f = y + 2048 * x.
Proof.
  unfold two16. intros Hf. destruct (Z.lt_ge_cases f 4096); [by left|right].
  exists (f / 2048 - 1), (f - (f / 2048 - 1) * 2048).
  Z.to_euclidean_division_equations; lia.
Qed.

Lemma uf16_value_small f : f < 4096 → Reader.uf16_value f = f.
Proof.
  intros Hf. unfold Reader.uf16_value. change (Z.shiftl 1 kUFloat16MantissaEffectiveBits) with 4096.
  by destruct (Z.ltb_spec f 4096); [|lia].
Qed.

Lemma uf16_result_small v : v < 4096 → Writer.uf16_result v = v.
Proof.
  intros Hf. unfold Writer.uf16_result. change (Z.shiftl 1 kUFloat16MantissaEffectiveBits) with 4096.
  by destruct (Z.ltb_spec v 4096); [|lia].
Qed.

Lemma uf16_result_big v : kUFloat16MaxValue <= v → Writer.uf16_result v = 65535.
Proof.
  change kUFloat16MaxValue with 4396972769280.
  intros Hf. unfold Writer.uf16_result. change (Z.shiftl 1 kUFloat16MantissaEffectiveBits) with 4096.
  change kUFloat16MaxValue with 4396972769280. repeat case_match; lia.
Qed.

(** A float above the encoder's choice stands for a value above [v]. *)
Lemma uf16_next v f :
  is_u64 v → is_u16 f → Writer.uf16_result v < f → v < Reader.uf16_value f.
Proof.
  intros Hv Hf Hlt. destruct (Z.lt_ge_cases v 4096) as [Hs|Hs].
  - rewrite uf16_result_small in Hlt by done.
    destruct (uf16_shape f Hf) as [Hsm|(x&y&Hx&Hy&->)]; [by rewrite uf16_value_small|].
    rewrite uf16_value_mid by done. pose proof (Z.pow_le_mono_r 2 1 x ltac:(lia) ltac:(lia)).
    ground_pow. nia.
  - destruct (Z.lt_ge_cases v kUFloat16MaxValue) as [Hm|Hm].
    2:{ rewrite uf16_result_big in Hlt by done. unfold two16 in Hf. lia. }
    destruct (uf16_result_mid v ltac:(lia)) as (x&Hx&Hb&E). rewrite E in Hlt.
    pose proof (Z.pow_pos_nonneg 2 x ltac:(lia) ltac:(lia)).
    pose proof (Z.mul_succ_div_gt v (2 ^ x) ltac:(lia)).
    assert (2048 <= v / 2 ^ x) by (apply Z.div_le_lower_bound; lia).
    destruct (uf16_shape f Hf) as [Hsm|(x'&y&Hx'&Hy&->)]; [lia|].
    rewrite uf16_value_mid by done.
    assert (x' = x ∨ x < x') as [->|Hxx] by lia; [nia|].
    pose proof (Z.pow_le_mono_r 2 (x + 1) x' ltac:(lia) ltac:(lia)) as Hpow.
    rewrite Z.pow_add_r in Hpow by lia. ground_pow. nia.
Qed.

Lemma uf16_value_mono f f' :
  is_u16 f → is_u16 f' → f < f' → Reader.uf16_value f < Reader.uf16_value f'.
Proof.
  intros Hf Hf' Hlt.
  destruct (uf16_shape f' Hf') as [Hsm'|(x'&y'&Hx'&Hy'&->)].
  { rewrite !uf16_value_small by lia. done. }
  rewrite (uf16_value_mid x' y') by done.
  destruct (uf16_shape f Hf) as [Hsm|(x&y&Hx&Hy&->)].
  - rewrite uf16_value_small by done. pose proof (Z.pow_le_mono_r 2 1 x' ltac:(lia) ltac:(lia)).
    ground_pow. nia.
  - rewrite uf16_value_mid by done. pose proof (Z.pow_pos_nonneg 2 x ltac:(lia) ltac:(lia)).
    assert (x' = x ∨ x < x') as [->|Hxx] by lia; [nia|].
    pose proof (Z.pow_le_mono_r 2 (x + 1) x' ltac:(lia) ltac:(lia)) as Hpow.
    rewrite Z.pow_add_r in Hpow by lia. ground_pow. nia.
Qed.

Lemma uf16_value_u64 f : is_u16 f → is_u64 (Reader.uf16_value f).
Proof.
  intros Hf. destruct (uf16_shape f Hf) as [Hsm|(x&y&Hx&Hy&->)].
  - rewrite uf16_value_small by done. unfold two16, two64 in *. lia.
  - rewrite uf16_value_mid by done. pose proof (Z.pow_pos_nonneg 2 x ltac:(lia) ltac:(lia)).
    pose proof (Z.pow_le_mono_r 2 x 30 ltac:(lia) ltac:(lia)). ground_pow. unfold two64. nia.
Qed.

(** The encoder's choice is below the value and close. *)
Lemma uf16_bounds v :
  is_u64 v → let x := Reader.uf16_value (Writer.uf16_result v) in
  0 <= x <= v ∧ (kUFloat16MaxValue <= v → x = kUFloat16MaxValue)
  ∧ (v < 4096 → x = v) ∧ (v <= kUFloat16MaxValue → 2048 * (v - x) <= v).
Proof.
  intros Hv x. unfold x. clear x. destruct (Z.lt_ge_cases v 4096) as [Hs|Hs].
  { rewrite uf16_result_small, uf16_value_small by done. change kUFloat16MaxValue with 4396972769280. lia. }
  destruct (Z.lt_ge_cases v kUFloat16MaxValue) as [Hm|Hm].
  2:{ rewrite uf16_result_big by done. change (Reader.uf16_value 65535) with kUFloat16MaxValue.
      change kUFloat16MaxValue with 4396972769280 in *. lia. }
  destruct (uf16_result_mid v ltac:(lia)) as (e&He&Hb&->).
  pose proof (Z.pow_pos_nonneg 2 e ltac:(lia) ltac:(lia)).
  assert (v / 2 ^ e < 4096) by (apply Z.div_lt_upper_bound; lia).
  assert (2048 <= v / 2 ^ e) by (apply Z.div_le_lower_bound; lia).
  rewrite uf16_value_mid by lia.
  pose proof (Z.div_mod v (2 ^ e) ltac:(lia)). pose proof (Z.mod_pos_bound v (2 ^ e) ltac:(lia)).
  nia.
Qed.

(** 16-bit floats. [WriteUFloat16] clamps to the largest representable value and otherwise
    rounds down to the nearest one: no other float is closer from below, the relative error is
    under 1/2048, values below 4096 are exact, and what [ReadUFloat16] gives encodes to the float
    it came from. *)
Theorem ufloat16_rounds_down v :
  is_u64 v →
  let f := Writer.uf16_result v in
  let x := Reader.uf16_value f in
  is_u16 f ∧ x <= v
  ∧ (kUFloat16MaxValue <= v → x = kUFloat16MaxValue)
  ∧ (v < 4096 → x = v)
  ∧ (v <= kUFloat16MaxValue → 2048 * (v - x) <= v)
  ∧ (∀ f', is_u16 f' → Reader.uf16_value f' <= v → f' <= f ∧ Reader.uf16_value f' <= x)
  ∧ Writer.uf16_result x = f.
Proof.
  intros Hv f x. pose proof (uf16_result_u16 v Hv) as Hf.
  assert (Hbest : ∀ f', is_u16 f' → Reader.uf16_value f' <= v → f' <= f).
  { intros f' Hf' Hle. destruct (Z.le_gt_cases f' f); [done|].
    pose proof (uf16_next v f' Hv Hf' ltac:(unfold f in *; lia)). lia. }
  destruct (uf16_bounds v Hv) as (Hx&Hmax&Hsm&Herr). fold f in Hx, Hmax, Hsm, Herr. fold x in Hx, Hmax, Hsm, Herr.
  split; [done|]. split; [lia|]. split; [done|]. split; [done|]. split; [done|]. split.
  - intros f' Hf' Hle. pose proof (Hbest f' Hf' Hle) as Hff. split; [done|].
    assert (f' = f ∨ f' < f) as [->|Hlt] by lia; [done|].
    pose proof (uf16_value_mono f' f Hf' Hf Hlt). unfold x. lia.
  - pose proof (uf16_value_u64 f Hf) as Hxu. fold x in Hxu.
    pose proof (uf16_result_u16 x Hxu) as Hg. set (g := Writer.uf16_result x) in *.
    destruct (Z.lt_trichotomy g f) as [Hlt|[Heq|Hgt]]; [|done|].
    + pose proof (uf16_next x f Hxu Hf Hlt). unfold x in *. lia.
    + destruct (uf16_bounds x Hxu) as (?&_). pose proof (uf16_value_mono f g Hf Hg Hgt). unfold g, x in *. lia.
Qed.

Lemma ufloat16_rounds_down_witness :
  let f := Writer.uf16_result 1000001 in
  let x := Reader.uf16_value f in
  is_u16 f ∧ x <= 1000001
  ∧ (kUFloat16MaxValue <= 1000001 → x = kUFloat16MaxValue)
  ∧ (1000001 < 4096 → x = 1000001)
  ∧ (1000001 <= kUFloat16MaxValue → 2048 * (1000001 - x) <= 1000001)
  ∧ (∀ f', is_u16 f' → Reader.uf16_value f' <= 1000001 → f' <= f ∧ Reader.uf16_value f' <= x)
  ∧ Writer.uf16_result x = f.
Proof. apply (ufloat16_rounds_down 1000001). split; [discriminate|reflexivity]. Defined.
End Wire.
