(* ===== verification/StreamSendBuffer.v ===== *)
(** [QuicStreamSendBuffer] (quic/core/quic_stream_send_buffer.cc): the send side of a stream. Data
    is saved in slices, written to packets (first in order, then again when lost), and freed when
    acknowledged; slices are freed in any order and dropped from the front.

    A freed slice ([QuicMemSlice::Reset]) has lost its length but keeps its offset. The data of the
    slices is measured against the bytes of the stream, as on the receive side. *)

From S2P Require Import Prelude OrderedSet IntervalSet Stream Bytes DataWire.

Module StreamSendBuffer.

(** [BufferedSlice]: the data is empty once the slice is reset. *)
Record BufferedSlice := mk_slice { offset : Z; slice_data : list Z }.

Definition slice_end (s : BufferedSlice) : Z := offset s + zlen (slice_data s).
Definition slice_empty (s : BufferedSlice) : bool := match slice_data s with [] => true | _ => false end.
Definition reset (s : BufferedSlice) : BufferedSlice := mk_slice (offset s) [].

Record t := mk {
  buffered_slices : list BufferedSlice;
  stream_offset : Z;
  stream_bytes_written : Z;
  stream_bytes_outstanding : Z;
  bytes_acked : list interval;
  pending_retransmissions : list interval;
  write_index : Z;
}.

Definition new : t := mk [] 0 0 0 [] [] (-1).

Definition with_slices (st : t) l i : t :=
  mk l (stream_offset st) (stream_bytes_written st) (stream_bytes_outstanding st)
     (bytes_acked st) (pending_retransmissions st) i.

Definition SaveMemSlice (st : t) (data : list Z) : t :=
  match data with
  | [] => st
  | _ =>
      let l := buffered_slices st ++ [mk_slice (stream_offset st) data] in
      mk l (stream_offset st + zlen data) (stream_bytes_written st) (stream_bytes_outstanding st)
         (bytes_acked st) (pending_retransmissions st)
         (if write_index st =? -1 then zlen l - 1 else write_index st)
  end.

(** [SaveStreamData]: [iov] is the list of the caller's buffers. Each round saves at least one byte
    when the flag [max_data_slice_size] is positive. *)
Fixpoint SaveStreamData_loop (fuel : nat) (max_data_slice_size : Z) (st : t) (source : list Z)
    (iov_offset data_length : Z) : t :=
  match fuel with
  | O => st
  | S fuel =>
      if data_length <=? 0 then st else
      let slice_len := Z.min data_length max_data_slice_size in
      let slice := take (Z.to_nat slice_len) (drop (Z.to_nat iov_offset) source) in
      SaveStreamData_loop fuel max_data_slice_size (SaveMemSlice st slice) source
        (iov_offset + slice_len) (data_length - slice_len)
  end.

Definition SaveStreamData (max_data_slice_size : Z) (st : t) (iov : list (list Z))
    (iov_offset data_length : Z) : t :=
  SaveStreamData_loop (Z.to_nat data_length) max_data_slice_size st (concat iov) iov_offset data_length.

Definition SaveMemSliceSpan (st : t) (span : list (list Z)) : t * Z :=
  (fold_left SaveMemSlice span st, foldr (λ s n, zlen s + n) 0 span).

Definition OnStreamDataConsumed (st : t) (bytes_consumed : Z) : t :=
  mk (buffered_slices st) (stream_offset st) (stream_bytes_written st + bytes_consumed)
     (stream_bytes_outstanding st + bytes_consumed) (bytes_acked st)
     (pending_retransmissions st) (write_index st).

(** The loop of [WriteStreamData] over the slices from [slice_it]: what is left to write, the
    writer and the write index, and [false] when the writer refuses. *)
Fixpoint write_slices (l : list BufferedSlice) (offset_ data_length : Z) (writer : Writer.t)
    (write_index_hit : bool) (write_index_ : Z) : Z * Writer.t * Z * bool :=
  match l with
  | [] => (data_length, writer, write_index_, true)
  | s :: l =>
      if (data_length =? 0) || (offset_ <? offset s) then (data_length, writer, write_index_, true) else
      if slice_end s <=? offset_ then write_slices l offset_ data_length writer write_index_hit write_index_ else
      let slice_offset := offset_ - offset s in
      let available_bytes_in_slice := zlen (slice_data s) - slice_offset in
      let copy_length := Z.min data_length available_bytes_in_slice in
      match Writer.WriteBytes (take (Z.to_nat copy_length) (drop (Z.to_nat slice_offset) (slice_data s))) writer with
      | (false, writer) => (data_length, writer, write_index_, false)
      | (true, writer) =>
          write_slices l (offset_ + copy_length) (data_length - copy_length) writer write_index_hit
            (if write_index_hit && (copy_length =? available_bytes_in_slice)
             then write_index_ + 1 else write_index_)
      end
  end.

(** The loop and what follows it. *)
Definition write_from (st : t) (l : list BufferedSlice) (write_index_hit : bool)
    (offset_ data_length : Z) (writer : Writer.t) : t * Writer.t * bool :=
  let '(rest, writer, i, ok) :=
    write_slices l offset_ data_length writer write_index_hit (write_index st) in
  if ok then
    let i := if write_index_hit && (i =? zlen (buffered_slices st)) then -1 else i in
    (with_slices st (buffered_slices st) i, writer, rest =? 0)
  else (with_slices st (buffered_slices st) i, writer, false).

(** The write index, when it is not -1, is the index of a slice. *)
Definition WriteStreamData (st : t) (offset_ data_length : Z) (writer : Writer.t) : t * Writer.t * bool :=
  if write_index st =? -1 then write_from st (buffered_slices st) false offset_ data_length writer else
  match drop (Z.to_nat (write_index st)) (buffered_slices st) with
  | [] => (st, writer, false)
  | (s :: _) as l =>
      if slice_end s <=? offset_ then (st, writer, false) else
      if offset s <=? offset_ then write_from st l true offset_ data_length writer
      else write_from st (buffered_slices st) false offset_ data_length writer
  end.

(** The freeing loop of [FreeMemSlices]. *)
Fixpoint free_slices (acked : list interval) (end_ : Z) (l : list BufferedSlice) : list BufferedSlice :=
  match l with
  | [] => []
  | s :: l' =>
      if end_ <=? offset s then l else
      (if negb (slice_empty s) && IntervalSet.ContainsI acked (Interval.mk (offset s) (slice_end s))
       then reset s else s) :: free_slices acked end_ l'
  end.

(** [std::lower_bound] with [CompareOffset] on a range its comparison partitions. *)
Definition CompareOffset (o : Z) (s : BufferedSlice) : bool := slice_end s <? o.

Definition FreeMemSlices (st : t) (start end_ : Z) : t * bool :=
  match buffered_slices st with
  | [] => (st, false)
  | s :: _ =>
      if slice_empty s then (st, false) else
      let slow := (slice_end s <=? start) || (start <? offset s) in
      let before := if slow then take_while (CompareOffset start) (buffered_slices st) else [] in
      let it := if slow then drop_while (CompareOffset start) (buffered_slices st)
                else buffered_slices st in
      match it with
      | [] => (st, false)
      | s' :: _ =>
          if slice_empty s' then (st, false)
          else (with_slices st (before ++ free_slices (bytes_acked st) end_ it) (write_index st), true)
      end
  end.

(** [CleanUpBufferedSlices]: the slices left and the write index. *)
Fixpoint clean_up (l : list BufferedSlice) (i : Z) : list BufferedSlice * Z :=
  match l with
  | [] => ([], i)
  | s :: l' => if slice_empty s then clean_up l' (if 0 <? i then i - 1 else i) else (l, i)
  end.

Definition CleanUpBufferedSlices (st : t) : t :=
  let '(l, i) := clean_up (buffered_slices st) (write_index st) in with_slices st l i.

(** [IntervalSet.Difference] is total on well-formed sets. *)
Definition difference (s : list interval) (i : interval) : list interval :=
  default s (IntervalSet.Difference s i).

Definition with_acks (st : t) outstanding acked pending : t :=
  mk (buffered_slices st) (stream_offset st) (stream_bytes_written st) outstanding acked pending
     (write_index st).

Definition interval_sum (l : list interval) : Z := foldr (λ i n, imax i - imin i + n) 0 l.

(** What [OnStreamDataAcked] ends with. *)
Definition free_acked (st : t) (start end_ newly : Z) : t * Z * bool :=
  let '(st, ok) := FreeMemSlices st start end_ in
  if ok then (CleanUpBufferedSlices st, newly, true) else (st, newly, false).

(** [OnStreamDataAcked]: the state, [*newly_acked_length] and the result. *)
Definition OnStreamDataAcked (st : t) (offset_ data_length : Z) : t * Z * bool :=
  if data_length =? 0 then (st, 0, true) else
  let range := Interval.mk offset_ (offset_ + data_length) in
  if match IntervalSet.rbegin (bytes_acked st) with
     | None => true
     | Some l => (imax l <=? offset_) || IntervalSet.IsDisjoint (bytes_acked st) range
     end
  then
    if stream_bytes_outstanding st <? data_length then (st, 0, false) else
    free_acked (with_acks st (stream_bytes_outstanding st - data_length)
                  (IntervalSet.Add (bytes_acked st) range)
                  (difference (pending_retransmissions st) range))
      offset_ (offset_ + data_length) data_length
  else if IntervalSet.ContainsI (bytes_acked st) range then (st, 0, true) else
  let newly_acked := default [] (IntervalSet.DifferenceS (IntervalSet.of_interval range) (bytes_acked st)) in
  let newly := interval_sum newly_acked in
  if stream_bytes_outstanding st <? newly then (st, newly, false) else
  let st := with_acks st (stream_bytes_outstanding st - newly)
              (IntervalSet.Add (bytes_acked st) range)
              (difference (pending_retransmissions st) range) in
  match IntervalSet.begin newly_acked, IntervalSet.rbegin newly_acked with
  | Some b, Some e => free_acked st (imin b) (imax e) newly
  | _, _ => (st, newly, true)
  end.

Definition OnStreamDataLost (st : t) (offset_ data_length : Z) : t :=
  if data_length =? 0 then st else
  let bytes_lost := default [] (IntervalSet.DifferenceS
    (IntervalSet.of_interval (Interval.mk offset_ (offset_ + data_length))) (bytes_acked st)) in
  if IntervalSet.Empty bytes_lost then st else
  with_acks st (stream_bytes_outstanding st) (bytes_acked st)
    (fold_left IntervalSet.Add bytes_lost (pending_retransmissions st)).

Definition OnStreamDataRetransmitted (st : t) (offset_ data_length : Z) : t :=
  if data_length =? 0 then st else
  with_acks st (stream_bytes_outstanding st) (bytes_acked st)
    (difference (pending_retransmissions st) (Interval.mk offset_ (offset_ + data_length))).

Definition HasPendingRetransmission (st : t) : bool :=
  negb (IntervalSet.Empty (pending_retransmissions st)).

(** [NextPendingRetransmission]: offset and length, zeros when there is none. *)
Definition NextPendingRetransmission (st : t) : Z * Z :=
  match IntervalSet.begin (pending_retransmissions st) with
  | Some pending => (imin pending, imax pending - imin pending)
  | None => (0, 0)
  end.

Definition IsStreamDataOutstanding (st : t) (offset_ data_length : Z) : bool :=
  (0 <? data_length)
  && negb (IntervalSet.ContainsI (bytes_acked st) (Interval.mk offset_ (offset_ + data_length))).

Definition size (st : t) : Z := zlen (buffered_slices st).


(** ** The contents of the buffer *)

Ltac ssb_simpl := cbn [buffered_slices stream_offset stream_bytes_written stream_bytes_outstanding
  bytes_acked pending_retransmissions write_index with_slices with_acks] in *.

Section stream.
Context (stream : Z → Z).
Abbreviation slice := (slice stream).

(** Whether a slice is acknowledged as a whole, and how the buffer then keeps it. *)
Definition acked_whole (acked : list interval) (s : BufferedSlice) : bool :=
  IntervalSet.ContainsI acked (Interval.mk (offset s) (slice_end s)).
Definition shown (acked : list interval) (s : BufferedSlice) : BufferedSlice :=
  if acked_whole acked s then reset s else s.

(** [gs] are slices of the stream, one after the other from [b] to [e]. *)
Fixpoint contig (b : Z) (gs : list BufferedSlice) (e : Z) : Prop :=
  match gs with
  | [] => b = e
  | s :: gs => offset s = b ∧ 0 < zlen (slice_data s) ∧ slice_data s = slice b (zlen (slice_data s))
               ∧ contig (slice_end s) gs e
  end.

Lemma contig_le b gs e : contig b gs e → b <= e.
Proof.
  revert b. induction gs as [|s gs IH]; cbn [contig]; intros b; [lia|].
  intros (?&?&_&H). apply IH in H. unfold slice_end in H. lia.
Qed.

Lemma contig_app b gs1 gs2 e : contig b (gs1 ++ gs2) e ↔ ∃ m, contig b gs1 m ∧ contig m gs2 e.
Proof.
  revert b. induction gs1 as [|s gs1 IH]; intros b; cbn [contig app].
  - split; [by exists b|]. by intros (m&->&?).
  - rewrite IH. naive_solver.
Qed.

Lemma acked_whole_spec acked s :
  IntervalSet.valid acked → 0 < zlen (slice_data s) →
  (acked_whole acked s = true ↔ ∀ z, offset s <= z < slice_end s → IntervalSet.den acked z).
Proof.
  intros Hv Hs. unfold acked_whole. rewrite IntervalSet.ContainsI_lemma by done.
  unfold Interval.den, slice_end. cbn [imin imax Interval.min Interval.max].
  split; [by intros [_ ?]|]. intros H. split; [lia|]. intros z Hz. apply H. lia.
Qed.

(** A slice with an unacknowledged byte is kept as it is. *)
Lemma shown_unacked acked s z :
  IntervalSet.valid acked → offset s <= z < slice_end s → ¬ IntervalSet.den acked z → shown acked s = s.
Proof.
  intros Hv Hz Hn. unfold shown. destruct (acked_whole acked s) eqn:E; [|done].
  exfalso. apply Hn. rewrite acked_whole_spec in E; [by apply E|done|unfold slice_end in Hz; lia].
Qed.

Lemma shown_bounds acked s :
  0 < zlen (slice_data s) →
  offset (shown acked s) = offset s ∧ offset s <= slice_end (shown acked s) <= slice_end s
  ∧ (slice_empty (shown acked s) = acked_whole acked s).
Proof.
  intros Hs. unfold shown. destruct (acked_whole acked s).
  - unfold slice_end, reset. cbn [offset slice_data]. rewrite (@zlen_nil Z). split; [done|]. split; [lia|done].
  - unfold slice_end. split; [done|]. split; [lia|]. unfold slice_empty. by destruct (slice_data s).
Qed.

(** Where a write that starts in the first slice stops: [pre] are the slices it finishes. *)
Definition stops_at (gs pre post : list BufferedSlice) (off : Z) : Prop :=
  gs = pre ++ post ∧ match post with [] => True | s :: _ => offset s <= off < slice_end s end.

Lemma remaining_nonneg w : WriterSpec.wf w → 0 <= Writer.remaining w.
Proof. unfold WriterSpec.wf, Writer.remaining. lia. Qed.

(** The writing loop copies the bytes of the stream. *)
Lemma write_slices_spec acked gs b e off len w hit i :
  IntervalSet.valid acked → contig b gs e → b <= off → 0 <= len → off + len <= e →
  (∀ z, off <= z < off + len → ¬ IntervalSet.den acked z) →
  (hit = true → match gs with [] => True | s :: _ => off < slice_end s end) →
  WriterSpec.wf w →
  let '(rest, w', i', ok) := write_slices (map (shown acked) gs) off len w hit i in
  if len <=? Writer.remaining w then
    ok = true ∧ rest = 0 ∧ WriterSpec.wf w'
    ∧ WriterSpec.written w' = WriterSpec.written w ++ slice off len
    ∧ Writer.remaining w' = Writer.remaining w - len
    ∧ (hit = false → i' = i)
    ∧ (hit = true → ∃ pre post, stops_at gs pre post (off + len) ∧ i' = i + zlen pre
         ∧ (post = [] → off + len = e))
  else ok = false.
Proof.
  intros Hv. revert b off len w i.
  induction gs as [|s gs IH]; intros b off len w i Hc Hb Hlen He Hun Hhit Hw; cbn [map write_slices].
  { cbn [contig] in Hc. assert (len = 0) as -> by lia. rewrite slice_0, app_nil_r.
    pose proof (remaining_nonneg w Hw). destruct (Z.leb_spec 0 (Writer.remaining w)); [|lia].
    split; [done|]. split; [done|]. split; [done|]. split; [done|]. split; [lia|]. split; [done|].
    intros _. exists [], []. split; [done|]. split; [symmetry; apply Z.add_0_r|]. intros _. lia. }
  pose proof Hc as (Ho&Hpos&Hdata&Hc').
  destruct (shown_bounds acked s Hpos) as (Eo&Hse&_). rewrite Eo.
  destruct (Z.eqb_spec len 0) as [->|Hne]; cbn [orb].
  { rewrite slice_0, app_nil_r. pose proof (remaining_nonneg w Hw). destruct (Z.leb_spec 0 (Writer.remaining w)); [|lia].
    split; [done|]. split; [done|]. split; [done|]. split; [done|]. split; [lia|]. split; [done|].
    intros ->. exists [], (s :: gs). specialize (Hhit eq_refl). split; [split; [done|lia]|].
    split; [symmetry; apply Z.add_0_r|done]. }
  destruct (Z.ltb_spec off (offset s)); [lia|].
  destruct (Z.leb_spec (slice_end s) off) as [Hskip|Hin].
  { assert (hit = false) as -> by (destruct hit; [specialize (Hhit eq_refl); lia|done]).
    destruct (Z.leb_spec (slice_end (shown acked s)) off); [|lia].
    specialize (IH (slice_end s) off len w i Hc' Hskip Hlen He Hun ltac:(done) Hw).
    destruct (write_slices _ off len w false i) as [[[rest w'] i'] ok].
    destruct (len <=? Writer.remaining w); [|done]. naive_solver. }
  rewrite (shown_unacked acked s off) by (done || (split; lia) || (apply Hun; lia)).
  destruct (Z.leb_spec (slice_end s) off); [lia|].
  set (avail := zlen (slice_data s) - (off - offset s)).
  assert (Hav : avail = slice_end s - off) by (unfold avail, slice_end; lia).
  set (n := Z.min len avail).
  assert (Hchunk : take (Z.to_nat n) (drop (Z.to_nat (off - offset s)) (slice_data s)) = slice off n).
  { rewrite Hdata, slice_drop, slice_take by (unfold slice_end in *; lia). f_equal. lia. }
  rewrite Hchunk. assert (Hn : 0 < n <= len) by lia.
  pose proof (WriterSpec.emits_WriteBytes (Writer.endianness w) (slice off n) w Hw eq_refl) as Hem.
  destruct (Writer.WriteBytes (slice off n) w) as [ok1 w1]. rewrite slice_length in Hem by lia.
  destruct Hem as (Hw1&Hcap&_&_&->&Hok).
  destruct (Z.leb_spec n (Writer.remaining w)).
  2:{ destruct (Z.leb_spec len (Writer.remaining w)); [lia|done]. }
  destruct (Hok eq_refl) as [Hwr Hln].
  assert (Hrem : Writer.remaining w1 = Writer.remaining w - n) by (unfold Writer.remaining; lia).
  destruct (Z.eq_dec n avail) as [Efull|Epart].
  - assert (Hlast : off + n = slice_end s) by lia.
    specialize (IH (slice_end s) (off + n) (len - n) w1
      (if hit && (n =? avail) then i + 1 else i) Hc' ltac:(lia) ltac:(lia) ltac:(lia)).
    specialize (IH ltac:(intros z Hz; apply Hun; lia)).
    assert (Hh : hit = true → match gs with [] => True | s0 :: _ => off + n < slice_end s0 end).
    { intros _. destruct gs as [|s0 gs]; [done|]. destruct Hc' as (Ho0&Hp0&_). unfold slice_end in *. lia. }
    specialize (IH Hh Hw1).
    destruct (write_slices (map (shown acked) gs) (off + n) (len - n) w1 hit _) as [[[rest w'] i'] ok].
    rewrite Hrem in IH. replace (len - n <=? Writer.remaining w - n) with (len <=? Writer.remaining w) in IH by lia.
    destruct (len <=? Writer.remaining w); [|done].
    destruct IH as (->&->&Hw'&Hwr'&Hr'&Hi1&Hi2).
    split; [done|]. split; [done|]. split; [done|].
    split; [rewrite Hwr', Hwr, <-app_assoc, slice_split by lia; do 2 f_equal; lia|].
    split; [lia|]. replace (n =? avail) with true in * by lia. rewrite andb_true_r in *.
    split; [intros ->; by apply Hi1|]. intros ->. destruct (Hi2 eq_refl) as (pre&post&[-> Hst]&->&Hend).
    exists (s :: pre), post. replace (off + len) with (off + n + (len - n)) by lia.
    split; [done|]. split; [rewrite zlen_cons; lia|done].
  - assert (n = len) as En by lia. rewrite En. replace (len =? avail) with false by lia.
    rewrite andb_false_r, Z.sub_diag. rewrite En in *.
    destruct (Z.leb_spec len (Writer.remaining w)); [|lia].
    assert (Hz : write_slices (map (shown acked) gs) (off + len) 0 w1 hit i = (0, w1, i, true)).
    { by destruct gs. }
    rewrite Hz. split; [done|]. split; [done|]. split; [done|]. split; [done|]. split; [done|].
    split; [done|]. intros _. exists [], (s :: gs). split; [split; [done|lia]|]. split; [symmetry; apply Z.add_0_r|done].
Qed.

(** The state: the buffer keeps the slices [gs] of the stream that are not dropped yet; the
    bytes below [next_write] have been written to packets. *)
Record Inv (next_write : Z) (gs : list BufferedSlice) (st : t) : Prop := {
  inv_slices : buffered_slices st = map (shown (bytes_acked st)) gs;
  inv_contig : ∃ b, 0 <= b ∧ contig b gs (stream_offset st)
                    ∧ ∀ z, 0 <= z < b → IntervalSet.den (bytes_acked st) z;
  inv_front : match gs with [] => True | s :: _ => acked_whole (bytes_acked st) s = false end;
  inv_va : IntervalSet.valid (bytes_acked st);
  inv_vp : IntervalSet.valid (pending_retransmissions st);
  inv_acked z : IntervalSet.den (bytes_acked st) z → 0 <= z < stream_bytes_written st;
  inv_pending z : IntervalSet.den (pending_retransmissions st) z →
    0 <= z < stream_bytes_written st ∧ ¬ IntervalSet.den (bytes_acked st) z;
  inv_order : 0 <= stream_bytes_written st <= next_write ∧ next_write <= stream_offset st;
  inv_out : stream_bytes_outstanding st = stream_bytes_written st - IntervalSet.measure (bytes_acked st);
  inv_write : (next_write = stream_offset st ∧ write_index st = -1)
              ∨ ∃ pre s post, gs = pre ++ s :: post ∧ write_index st = zlen pre
                  ∧ offset s <= next_write < slice_end s;
}.

Lemma send_new_inv : Inv 0 [] new.
Proof.
  split; ssb_simpl; try done; try (intros z Hz; by apply IntervalSet.den_nil in Hz).
  - exists 0. split; [done|]. split; [done|]. lia.
  - apply IntervalSet.valid_nil.
  - apply IntervalSet.valid_nil.
  - by left.
Qed.

Lemma drop_map_app {A B} (f : A → B) pre post :
  drop (Z.to_nat (zlen pre)) (map f (pre ++ post)) = map f post.
Proof.
  rewrite map_app. apply drop_app_length'. unfold zlen. rewrite length_map. lia.
Qed.

(** The offsets of a slice list are those of its parts. *)
Lemma contig_mid b pre s post e :
  contig b (pre ++ s :: post) e →
  contig b pre (offset s) ∧ contig (offset s) (s :: post) e ∧ 0 < zlen (slice_data s)
  ∧ contig (slice_end s) post e.
Proof.
  intros (m&H1&H2)%contig_app. pose proof H2 as (<-&?&?&?). done.
Qed.

(** What a successful write leaves of the write index. *)
Lemma write_index_after b gs e nw i pre s post off len pre' post' :
  contig b gs e → gs = pre ++ s :: post → i = zlen pre → offset s <= nw < slice_end s →
  off = nw ∨ off + len <= nw → 0 <= len → offset s <= off → off + len <= e →
  stops_at (s :: post) pre' post' (off + len) → (post' = [] → off + len = e) →
  let i' := if i + zlen pre' =? zlen gs then -1 else i + zlen pre' in
  let nw' := Z.max nw (off + len) in
  (nw' = e ∧ i' = -1) ∨ ∃ pre s post, gs = pre ++ s :: post ∧ i' = zlen pre ∧ offset s <= nw' < slice_end s.
Proof.
  intros Hc -> -> Hnw Hoff Hl Hso He [Esp Hst] Hend i' nw'.
  apply contig_mid in Hc as (Hc1&Hc2&_&_). assert (Hlen : zlen (pre ++ s :: post) = zlen pre + zlen pre' + zlen post').
  { rewrite zlen_app, Esp, zlen_app. lia. }
  unfold i'. rewrite Hlen. pose proof (zlen_nonneg post').
  destruct post' as [|s' post'].
  - specialize (Hend eq_refl). rewrite (@zlen_nil BufferedSlice).
    destruct (Z.eqb_spec (zlen pre + zlen pre') (zlen pre + zlen pre' + 0)); [|lia].
    left. split; [|done]. pose proof Hc2 as (_&_&_&Hc3). apply contig_le in Hc3. lia.
  - rewrite zlen_cons. pose proof (zlen_nonneg post').
    destruct (Z.eqb_spec (zlen pre + zlen pre') (zlen pre + zlen pre' + (1 + zlen post'))); [lia|].
    right. exists (pre ++ pre'), s', post'. split; [by rewrite Esp, <-app_assoc|].
    split; [by rewrite zlen_app|]. destruct Hoff as [->|Hle]; [unfold nw'; lia|].
    unfold nw'. rewrite Z.max_l by lia. destruct pre' as [|s0 pre'].
    + by injection Esp as -> ->.
    + exfalso. injection Esp as <- Ep. rewrite Ep in Hc2.
      destruct Hc2 as (_&_&_&(m&Hc3&(Hm&_))%contig_app). apply contig_le in Hc3. lia.
Qed.

(** What [WriteStreamData] promises for a range it can write. *)
Definition wrote (nw : Z) (gs : list BufferedSlice) (off len : Z) (w : Writer.t)
    (r : t * Writer.t * bool) : Prop :=
  let '(st', w', ok) := r in
  ok = (len <=? Writer.remaining w)
  ∧ (ok = true →
      WriterSpec.written w' = WriterSpec.written w ++ slice off len
      ∧ WriterSpec.wf w' ∧ Writer.remaining w' = Writer.remaining w - len
      ∧ Inv (Z.max nw (off + len)) gs st').

(** The ranges: new data in sequence, or again data that is not acknowledged. *)
Definition writable (nw : Z) (st : t) (off len : Z) : Prop :=
  0 <= off ∧ 0 < len ∧ off + len <= stream_offset st ∧ (off = nw ∨ off + len <= nw)
  ∧ ∀ z, off <= z < off + len → ¬ IntervalSet.den (bytes_acked st) z.

Lemma with_index_inv nw nw' gs st i :
  Inv nw gs st → nw <= nw' <= stream_offset st →
  (nw' = stream_offset st ∧ i = -1)
  ∨ (∃ pre s post, gs = pre ++ s :: post ∧ i = zlen pre ∧ offset s <= nw' < slice_end s) →
  Inv nw' gs (with_slices st (buffered_slices st) i).
Proof. intros [] Hnw Hi. split; ssb_simpl; try done. lia. Qed.

Lemma write_from_missed nw gs st off len w :
  Inv nw gs st → writable nw st off len → off + len <= nw → WriterSpec.wf w →
  wrote nw gs off len w (write_from st (buffered_slices st) false off len w).
Proof.
  intros HI (Ho&Hl&He&Hseq&Hun) Hnw Hw. pose proof HI as [Hs (b&Hb&Hc&Hbase) Hf Hva _ _ _ Hor _ Hwr].
  assert (Hbo : b <= off).
  { destruct (Z.le_gt_cases b off); [done|]. exfalso. apply (Hun off); [lia|]. apply Hbase. lia. }
  unfold write_from. rewrite Hs at 1.
  pose proof (write_slices_spec (bytes_acked st) gs b (stream_offset st) off len w
      false (write_index st) Hva Hc Hbo ltac:(lia) He Hun ltac:(done) Hw) as H.
  destruct (write_slices _ off len w false _) as [[[rest w'] i] ok]. cbn [andb].
  destruct (len <=? Writer.remaining w) eqn:El; unfold wrote; rewrite El; [|by subst].
  destruct H as (->&->&Hw'&Hwr'&Hr'&Hi&_). split; [done|]. intros _. rewrite (Hi eq_refl).
  split; [done|]. split; [done|]. split; [done|].
  eapply with_index_inv; [done|lia|]. by rewrite Z.max_l by lia.
Qed.

Lemma write_from_hit nw gs st off len w pre s post :
  Inv nw gs st → writable nw st off len → WriterSpec.wf w →
  gs = pre ++ s :: post → write_index st = zlen pre → offset s <= nw < slice_end s → offset s <= off →
  wrote nw gs off len w (write_from st (map (shown (bytes_acked st)) (s :: post)) true off len w).
Proof.
  intros HI (Ho&Hl&He&Hseq&Hun) Hw Egs Hwi Hnw Hso.
  pose proof HI as [Hs (b&Hb&Hc&Hbase) Hf Hva _ _ _ Hor _ _].
  pose proof Hc as Hc0. rewrite Egs in Hc0. apply contig_mid in Hc0 as (Hc1&Hc2&_&_).
  unfold write_from.
  pose proof (write_slices_spec (bytes_acked st) (s :: post) (offset s) (stream_offset st) off len w
      true (write_index st) Hva Hc2 Hso ltac:(lia) He Hun ltac:(intros _; cbn beta iota; lia) Hw) as H.
  destruct (write_slices _ off len w true _) as [[[rest w'] i] ok]. cbn [andb].
  destruct (len <=? Writer.remaining w) eqn:El; unfold wrote; rewrite El; [|by subst].
  destruct H as (->&->&Hw'&Hwr'&Hr'&_&Hi). split; [done|]. intros _.
  split; [done|]. split; [done|]. split; [done|].
  destruct (Hi eq_refl) as (pre'&post'&Hst&->&Hend).
  eapply with_index_inv; [done|lia|].
  assert (Hlen : zlen (buffered_slices st) = zlen gs) by (rewrite Hs; unfold zlen; by rewrite length_map).
  rewrite Hlen. eapply write_index_after; done || lia.
Qed.

Lemma WriteStreamData_spec nw gs st off len w :
  Inv nw gs st → writable nw st off len → WriterSpec.wf w →
  wrote nw gs off len w (WriteStreamData st off len w).
Proof.
  intros HI Hwr Hw. pose proof Hwr as (Ho&Hl&He&Hseq&Hun). pose proof HI as [Hs (b&_&Hc&_) _ Hva _ Hac _ Hor _ Hwi].
  unfold WriteStreamData. destruct Hwi as [[Hnw Hi]|(pre&s&post&Egs&Hi&Hnw)].
  - rewrite Hi. cbn [Z.eqb Pos.eqb]. apply write_from_missed; [done|done|lia|done].
  - rewrite Hi. pose proof (zlen_nonneg pre). destruct (Z.eqb_spec (zlen pre) (-1)); [lia|].
    assert (Es : shown (bytes_acked st) s = s).
    { apply (shown_unacked _ _ nw Hva Hnw). intros ?%Hac. lia. }
    assert (Hdrop : drop (Z.to_nat (zlen pre)) (buffered_slices st) = s :: map (shown (bytes_acked st)) post).
    { rewrite Hs, Egs, drop_map_app. cbn [map]. by rewrite Es. }
    rewrite Hdrop. rewrite Egs in Hc. apply contig_mid in Hc as (_&(_&_&_&Hc3)&_&_). apply contig_le in Hc3.
    destruct (Z.leb_spec (slice_end s) off); [lia|].
    destruct (Z.leb_spec (offset s) off).
    + pose proof (write_from_hit nw gs st off len w pre s post HI Hwr Hw Egs Hi Hnw ltac:(lia)) as Hhit.
      cbn [map] in Hhit. by rewrite Es in Hhit.
    + apply write_from_missed; [done|done|lia|done].
Qed.

(** ** Acknowledgements *)

(** The slice that holds an offset. *)
Lemma contig_find b gs e z :
  contig b gs e → b <= z < e → ∃ pre s post, gs = pre ++ s :: post ∧ offset s <= z < slice_end s.
Proof.
  revert b. induction gs as [|s gs IH]; cbn [contig]; intros b; [lia|].
  intros (Ho&Hp&_&Hc) Hz. destruct (Z.lt_ge_cases z (slice_end s)).
  - exists [], s, gs. split; [done|lia].
  - destruct (IH (slice_end s) Hc ltac:(lia)) as (pre&s'&post&->&Hz'). by exists (s :: pre), s', post.
Qed.

Lemma contig_nonempty b gs e s : contig b gs e → s ∈ gs → b <= offset s ∧ 0 < zlen (slice_data s).
Proof.
  revert b. induction gs as [|s0 gs IH]; cbn [contig]; intros b Hc Hs; [by apply elem_of_nil in Hs|].
  destruct Hc as (Ho&Hp&_&Hc). apply elem_of_cons in Hs as [->|Hs]; [lia|].
  destruct (IH _ Hc Hs). unfold slice_end in *. lia.
Qed.

(** The acknowledgement from [a0] to [a1] of new bytes within [start, end). *)
Record grows (a0 a1 : list interval) (start end_ : Z) : Prop := {
  gr_v0 : IntervalSet.valid a0;
  gr_v1 : IntervalSet.valid a1;
  gr_mono z : IntervalSet.den a0 z → IntervalSet.den a1 z;
  gr_new z : IntervalSet.den a1 z → IntervalSet.den a0 z ∨ start <= z < end_;
}.

Lemma shown_same a0 a1 start end_ s :
  grows a0 a1 start end_ → 0 < zlen (slice_data s) →
  slice_end s <= start ∨ end_ <= offset s ∨ acked_whole a0 s = true →
  shown a1 s = shown a0 s.
Proof.
  intros [Hv0 Hv1 Hm Hn] Hp Hout. unfold shown.
  assert (E : acked_whole a1 s = true ↔ acked_whole a0 s = true).
  { rewrite !acked_whole_spec by done. destruct Hout as [?|[?|Ho]].
    - split; intros Hall z Hz; [|by apply Hm, Hall]. destruct (Hn z (Hall z Hz)); [done|lia].
    - split; intros Hall z Hz; [|by apply Hm, Hall]. destruct (Hn z (Hall z Hz)); [done|lia].
    - rewrite acked_whole_spec in Ho by done. split; intros _ z Hz; [by apply Ho|by apply Hm, Ho]. }
  destruct (acked_whole a1 s), (acked_whole a0 s); try done; [by discriminate (proj1 E eq_refl)|by discriminate (proj2 E eq_refl)].
Qed.

Lemma free_slices_spec a0 a1 start end_ b gs e :
  grows a0 a1 start end_ → contig b gs e →
  free_slices a1 end_ (map (shown a0) gs) = map (shown a1) gs.
Proof.
  intros Hgr. revert b. induction gs as [|s gs IH]; intros b Hc; cbn [map free_slices]; [done|].
  pose proof Hc as (Ho&Hp&_&Hc'). destruct (shown_bounds a0 s Hp) as (Eo&_&Ee). rewrite Eo, Ee.
  destruct (Z.leb_spec end_ (offset s)) as [Hend|Hend].
  - change (shown a0 s :: map (shown a0) gs) with (map (shown a0) (s :: gs)).
    change (shown a1 s :: map (shown a1) gs) with (map (shown a1) (s :: gs)).
    apply map_ext_in. intros s' Hs'%list_elem_of_In.
    destruct (contig_nonempty b _ e s' Hc Hs') as [? ?]. symmetry.
    apply (shown_same a0 a1 start end_); [done|done|]. right; left. lia.
  - f_equal; [|by eapply IH]. destruct (acked_whole a0 s) eqn:Ea; cbn [negb andb].
    + symmetry. apply (shown_same a0 a1 start end_); [done|done|by right; right].
    + unfold shown. rewrite Ea. unfold acked_whole. by destruct (IntervalSet.ContainsI a1 _).
Qed.

(** The comparison of [lower_bound] partitions the slices: their ends never decrease, the reset
    ones included. *)
Lemma ends_sorted acked b gs e :
  contig b gs e → Sorted (λ s s', slice_end s <= slice_end s') (map (shown acked) gs).
Proof.
  revert b. induction gs as [|s gs IH]; intros b Hc; [constructor|]. pose proof Hc as (_&Hp&_&Hc').
  cbn [map]. constructor; [by eapply IH|]. destruct gs as [|s' gs]; [constructor|]. constructor.
  pose proof Hc' as (Ho&Hp'&_&_). destruct (shown_bounds acked s Hp) as (_&[_ Hle]&_).
  destruct (shown_bounds acked s' Hp') as (_&[Hge _]&_). lia.
Qed.

(** [lower_bound] finds the slice of [start] or the one that ends there. *)
Lemma scan_split {A} (p : A → bool) l1 c l2 :
  p c = false →
  ∃ l1a l1b, l1 = l1a ++ l1b ∧ take_while p (l1 ++ c :: l2) = l1a
    ∧ drop_while p (l1 ++ c :: l2) = l1b ++ c :: l2 ∧ (∀ x, x ∈ l1a → p x = true)
    ∧ ∀ x l, l1b = x :: l → p x = false.
Proof.
  intros Hc. induction l1 as [|x l1 IH]; cbn [app take_while drop_while].
  { exists [], []. rewrite Hc. split; [done|]. split; [done|]. split; [done|].
    split; [|done]. intros x Hx. by apply elem_of_nil in Hx. }
  destruct (p x) eqn:E.
  - destruct IH as (l1a&l1b&->&->&->&H1&H2). exists (x :: l1a), l1b.
    split; [done|]. split; [done|]. split; [done|]. split; [|done].
    intros y [->|Hy]%elem_of_cons; [done|by apply H1].
  - exists [], (x :: l1). split; [done|]. split; [done|]. split; [done|]. split.
    + intros y Hy. by apply elem_of_nil in Hy.
    + intros y l [= <- _]. done.
Qed.

Lemma FreeMemSlices_spec st gs a0 start end_ b :
  grows a0 (bytes_acked st) start end_ → contig b gs (stream_offset st) →
  buffered_slices st = map (shown a0) gs →
  match gs with [] => True | s :: _ => acked_whole a0 s = false end →
  b <= start < stream_offset st → ¬ IntervalSet.den a0 start →
  FreeMemSlices st start end_
  = (with_slices st (map (shown (bytes_acked st)) gs) (write_index st), true).
Proof.
  intros Hgr Hc Hs Hf Hst Hun. pose proof Hgr as [Hv0 _ _ _].
  destruct (contig_find b gs _ start Hc Hst) as (pre&s&post&Egs&Hso).
  pose proof Hc as Hc0. rewrite Egs in Hc0. apply contig_mid in Hc0 as (Hc1&Hc2&Hp&_).
  pose proof (shown_unacked a0 s start Hv0 Hso Hun) as Ess.
  unfold FreeMemSlices. rewrite Hs.
  destruct gs as [|s0 gs']; [by destruct pre|]. cbn [map].
  pose proof Hc as (Ho0&Hp0&_&_). destruct (shown_bounds a0 s0 Hp0) as (_&_&Ee0).
  rewrite Ee0, Hf. destruct ((slice_end _ <=? start) || _) eqn:Eslow.
  2:{ change (shown a0 s0 :: map (shown a0) gs') with (map (shown a0) (s0 :: gs')).
      rewrite (free_slices_spec a0 (bytes_acked st) start end_ b (s0 :: gs') _ Hgr Hc). by rewrite Ee0, Hf. }
  change (shown a0 s0 :: map (shown a0) gs') with (map (shown a0) (s0 :: gs')). rewrite Egs, map_app. cbn [map].
  destruct (scan_split (CompareOffset start) (map (shown a0) pre) (shown a0 s) (map (shown a0) post))
    as (l1a&l1b&El&Et&Ed&Hta&Hhd).
  { rewrite Ess. unfold CompareOffset. lia. }
  rewrite Et, Ed. apply map_eq_app in El as (pa&pb&Epre&<-&<-).
  rewrite Epre in Hc1. pose proof Hc1 as (m&Hca&Hcb)%contig_app.
  assert (Hfree : free_slices (bytes_acked st) end_ (map (shown a0) (pb ++ s :: post))
                  = map (shown (bytes_acked st)) (pb ++ s :: post)).
  { eapply free_slices_spec; [done|]. apply contig_app. by exists (offset s). }
  rewrite map_app in Hfree. cbn [map] in Hfree. rewrite Hfree.
  assert (Hbefore : map (shown a0) pa = map (shown (bytes_acked st)) pa).
  { apply map_ext_in. intros x Hx%list_elem_of_In. destruct (contig_nonempty _ _ _ _ Hca Hx) as [_ Hpx].
    symmetry. apply (shown_same a0 _ start end_); [done|done|].
    specialize (Hta (shown a0 x) ltac:(apply list_elem_of_fmap; by exists x)).
    unfold CompareOffset in Hta. destruct (acked_whole a0 x) eqn:Ea; [by right; right|left].
    unfold shown in Hta. rewrite Ea in Hta. lia. }
  assert (Hhead : ∀ x l, map (shown a0) pb ++ shown a0 s :: map (shown a0) post = x :: l → slice_empty x = false).
  { intros x l El. destruct pb as [|g pb]; cbn [map app] in El; injection El as <- _.
    - rewrite Ess. unfold slice_empty. by destruct (slice_data s).
    - specialize (Hhd _ _ eq_refl). pose proof Hcb as (Hog&Hpg&_&Hcg).
      destruct (shown_bounds a0 g Hpg) as (Eog&_&->). destruct (acked_whole a0 g) eqn:Ea; [|done].
      exfalso. unfold CompareOffset, shown in Hhd. rewrite Ea in Hhd. unfold reset, slice_end in Hhd. cbn in Hhd.
      apply contig_le in Hcg. unfold slice_end in Hcg. rewrite (@zlen_nil Z) in Hhd. lia. }
  destruct (map (shown a0) pb ++ shown a0 s :: map (shown a0) post) as [|x l] eqn:Ex; [by destruct pb|].
  rewrite (Hhead x l eq_refl). do 2 f_equal.
  change (map (shown a0) pa ++ map (shown (bytes_acked st)) (pb ++ s :: post)
          = map (shown (bytes_acked st)) (s0 :: gs')).
  by rewrite Egs, Epre, Hbefore, <-map_app, <-app_assoc.
Qed.

Lemma clean_up_spec acked gs i :
  ∃ dropped gs', gs = dropped ++ gs' ∧ (∀ s, s ∈ dropped → acked_whole acked s = true)
    ∧ match gs' with [] => True | s :: _ => acked_whole acked s = false end
    ∧ ((∀ s, s ∈ gs → 0 < zlen (slice_data s)) →
       clean_up (map (shown acked) gs) i
       = (map (shown acked) gs', if 0 <? i then Z.max 0 (i - zlen dropped) else i)).
Proof.
  revert i. induction gs as [|s gs IH]; intros i.
  { exists [], []. split; [done|]. split; [intros s Hs; by apply elem_of_nil in Hs|]. split; [done|].
    intros _. cbn. rewrite (@zlen_nil BufferedSlice). case_match; f_equal; lia. }
  destruct (acked_whole acked s) eqn:Ea.
  - destruct (IH (if 0 <? i then i - 1 else i)) as (dropped&gs'&->&Hd&Hh&Hcl).
    exists (s :: dropped), gs'. split; [done|].
    split; [intros x [->|Hx]%elem_of_cons; [done|by apply Hd]|]. split; [done|]. intros Hp.
    cbn [map clean_up]. destruct (shown_bounds acked s (Hp s ltac:(set_solver))) as (_&_&->). rewrite Ea.
    rewrite Hcl by (intros x Hx; apply Hp; set_solver). f_equal. rewrite zlen_cons.
    pose proof (zlen_nonneg dropped). repeat case_match; lia.
  - exists [], (s :: gs). split; [done|]. split; [intros x Hx; by apply elem_of_nil in Hx|].
    split; [done|]. intros Hp. cbn [map clean_up].
    destruct (shown_bounds acked s (Hp s ltac:(set_solver))) as (_&_&->). rewrite Ea.
    rewrite (@zlen_nil BufferedSlice). case_match; f_equal; lia.
Qed.

(** What acknowledging a range does, [n] bytes of it being new. *)
Definition acked_range (nw : Z) (st st' : t) (off len n : Z) : Prop :=
  (∃ gs', Inv nw gs' st')
  ∧ (∀ z, IntervalSet.den (bytes_acked st') z ↔ IntervalSet.den (bytes_acked st) z ∨ off <= z < off + len)
  ∧ (∀ z, IntervalSet.den (pending_retransmissions st') z
      ↔ IntervalSet.den (pending_retransmissions st) z ∧ ¬ off <= z < off + len)
  ∧ n = IntervalSet.measure (bytes_acked st') - IntervalSet.measure (bytes_acked st)
  ∧ stream_bytes_written st' = stream_bytes_written st ∧ stream_offset st' = stream_offset st.

Lemma difference_spec s i :
  IntervalSet.valid s →
  IntervalSet.valid (difference s i)
  ∧ ∀ z, IntervalSet.den (difference s i) z ↔ IntervalSet.den s z ∧ ¬ Interval.den i z.
Proof.
  intros Hv. destruct (IntervalSet.Difference_lemma s i Hv) as (s'&E&H). unfold difference. by rewrite E.
Qed.

(** Dropping the slices acknowledged at the front. *)
Lemma clean_up_inv nw gs st b :
  buffered_slices st = map (shown (bytes_acked st)) gs →
  0 <= b → contig b gs (stream_offset st) → (∀ z, 0 <= z < b → IntervalSet.den (bytes_acked st) z) →
  IntervalSet.valid (bytes_acked st) → IntervalSet.valid (pending_retransmissions st) →
  (∀ z, IntervalSet.den (bytes_acked st) z → 0 <= z < stream_bytes_written st) →
  (∀ z, IntervalSet.den (pending_retransmissions st) z →
    0 <= z < stream_bytes_written st ∧ ¬ IntervalSet.den (bytes_acked st) z) →
  0 <= stream_bytes_written st <= nw ∧ nw <= stream_offset st →
  stream_bytes_outstanding st = stream_bytes_written st - IntervalSet.measure (bytes_acked st) →
  (nw = stream_offset st ∧ write_index st = -1)
    ∨ (∃ pre s post, gs = pre ++ s :: post ∧ write_index st = zlen pre ∧ offset s <= nw < slice_end s) →
  ∃ gs' l i, CleanUpBufferedSlices st = with_slices st l i ∧ Inv nw gs' (CleanUpBufferedSlices st).
Proof.
  intros Hs Hb Hc Hbase Hva Hvp Hac Hpe Hor Hou Hwi.
  destruct (clean_up_spec (bytes_acked st) gs (write_index st)) as (dropped&gs'&Egs&Hd&Hh&Hcl).
  specialize (Hcl ltac:(intros s Hs'; by eapply contig_nonempty)).
  exists gs'. unfold CleanUpBufferedSlices. rewrite Hs, Hcl. eexists _, _. split; [done|].
  rewrite Egs in Hc. apply contig_app in Hc as (m&Hc1&Hc2). pose proof (contig_le _ _ _ Hc1) as Hbm.
  split; ssb_simpl; try done.
  - exists m. split; [lia|]. split; [done|]. intros z Hz. destruct (Z.lt_ge_cases z b); [apply Hbase; lia|].
    destruct (contig_find b dropped m z Hc1 ltac:(lia)) as (p&s&q&Ed&Hz').
    specialize (Hd s ltac:(rewrite Ed; set_solver)).
    rewrite acked_whole_spec in Hd; [by apply Hd|done|unfold slice_end in Hz'; lia].
  - destruct Hwi as [[? ->]|(pre&s&post&Ep&->&Hnw)]; [by left|right].
    assert (Hdp : ∃ pre', pre = dropped ++ pre').
    { rewrite Egs in Ep. apply app_eq_inv in Ep as [(k&E1&E2)|(k&E1&E2)].
      - by exists []; rewrite app_nil_r; destruct k as [|x k]; [rewrite app_nil_r in E1|exfalso;
          injection E2 as <- _; assert (Hs' : s ∈ dropped) by (rewrite E1; set_solver);
          specialize (Hd s Hs'); rewrite acked_whole_spec in Hd by (done || unfold slice_end in Hnw; lia);
          specialize (Hd nw Hnw); apply Hac in Hd; lia].
      - by exists k. }
    destruct Hdp as (pre'&->). rewrite Egs, <-app_assoc in Ep. apply app_inv_head in Ep as ->.
    exists pre', s, post. split; [done|]. split; [|done]. rewrite zlen_app.
    pose proof (zlen_nonneg dropped). pose proof (zlen_nonneg pre'). destruct (Z.ltb_spec 0 (zlen dropped + zlen pre')); lia.
Qed.

(** The bytes [new] of a range are acknowledged. *)
Lemma free_acked_spec nw gs st off len new start end_ :
  Inv nw gs st → 0 <= off → 0 < len → off + len <= stream_bytes_written st →
  IntervalSet.valid new →
  (∀ z, IntervalSet.den new z ↔ off <= z < off + len ∧ ¬ IntervalSet.den (bytes_acked st) z) →
  IntervalSet.den new start → (∀ z, IntervalSet.den new z → start <= z < end_) →
  let n := IntervalSet.measure new in
  let range := Interval.mk off (off + len) in
  n <= stream_bytes_outstanding st
  ∧ ∃ st', free_acked (with_acks st (stream_bytes_outstanding st - n)
      (IntervalSet.Add (bytes_acked st) range) (difference (pending_retransmissions st) range)) start end_ n
    = (st', n, true) ∧ acked_range nw st st' off len n.
Proof.
  intros HI Ho Hl Hw Hvn Hden Hst Hse n range.
  pose proof HI as [Hs (b&Hb&Hc&Hbase) Hf Hva Hvp Hac Hpe Hor Hou Hwi].
  destruct (IntervalSet.Add_lemma (bytes_acked st) range Hva) as [HvA HdA].
  destruct (difference_spec (pending_retransmissions st) range Hvp) as [HvD HdD].
  set (acked := IntervalSet.Add (bytes_acked st) range) in *.
  set (pend := difference (pending_retransmissions st) range) in *.
  assert (HA : ∀ z, IntervalSet.den acked z ↔ IntervalSet.den (bytes_acked st) z ∨ off <= z < off + len) by done.
  assert (HD : ∀ z, IntervalSet.den pend z
    ↔ IntervalSet.den (pending_retransmissions st) z ∧ ¬ off <= z < off + len) by done.
  assert (Hdec : ∀ z, IntervalSet.den (bytes_acked st) z ∨ ¬ IntervalSet.den (bytes_acked st) z).
  { intros z. destruct (IntervalSet.Contains (bytes_acked st) z) eqn:E; [left|right];
      rewrite <-IntervalSet.Contains_lemma by done; by rewrite E. }
  assert (HN : ∀ z, IntervalSet.den acked z ↔ IntervalSet.den (bytes_acked st) z ∨ IntervalSet.den new z).
  { intros z. rewrite HA, Hden. destruct (Hdec z); tauto. }
  assert (Hm : IntervalSet.measure acked = IntervalSet.measure (bytes_acked st) + n).
  { apply IntervalSet.measure_add; try done. intros z Hz [_ Hn]%Hden. done. }
  assert (Hin : ∀ z, IntervalSet.den acked z → 0 <= z < stream_bytes_written st).
  { intros z [Hz|Hz]%HA; [by apply Hac|lia]. }
  pose proof (IntervalSet.measure_bound acked 0 (stream_bytes_written st) HvA ltac:(lia) ltac:(done)) as Hmb.
  split; [lia|].
  set (st1 := with_acks st _ acked pend).
  assert (Hgr : grows (bytes_acked st) (bytes_acked st1) start end_).
  { split; [done|done| |]; unfold st1; ssb_simpl; intros z; rewrite HN; [by left|].
    intros [?|Hz]; [by left|right; by apply Hse]. }
  assert (Hstart : b <= start < stream_offset st ∧ ¬ IntervalSet.den (bytes_acked st) start).
  { apply Hden in Hst as [Hr Hn]. split; [|done]. split; [|lia].
    destruct (Z.le_gt_cases b start); [done|]. exfalso. apply Hn, Hbase. lia. }
  destruct Hstart as [Hstart Hun].
  unfold free_acked. rewrite (FreeMemSlices_spec st1 gs (bytes_acked st) start end_ b) by done.
  set (st2 := with_slices st1 (map (shown (bytes_acked st1)) gs) (write_index st1)).
  assert (Hclean : ∃ gs' l i, CleanUpBufferedSlices st2 = with_slices st2 l i
    ∧ Inv nw gs' (CleanUpBufferedSlices st2)).
  { apply (clean_up_inv nw gs st2 b); unfold st2, st1; ssb_simpl; try done.
    - intros z Hz. apply HA. left. by apply Hbase.
    - intros z [Hz Hnr]%HD. apply Hpe in Hz as [? ?]. split; [done|]. rewrite HA. tauto.
    - lia. }
  destruct Hclean as (gs'&l&i&E&HI'). exists (CleanUpBufferedSlices st2). split; [done|].
  split; [by exists gs'|]. rewrite E. unfold st2, st1. ssb_simpl.
  split; [done|]. split; [done|]. split; [lia|done].
Qed.

Lemma acked_nothing nw gs st off len :
  Inv nw gs st → (∀ z, off <= z < off + len → IntervalSet.den (bytes_acked st) z) →
  acked_range nw st st off len 0.
Proof.
  intros HI Hall. split; [by exists gs|]. split; [naive_solver|]. split; [|split; [lia|done]].
  intros z. split; [|tauto]. intros Hz. split; [done|]. intros Hr%Hall.
  by apply (inv_pending _ _ _ HI) in Hz as [_ ?].
Qed.

(** [OnStreamDataAcked] for data that was sent. *)
Lemma OnStreamDataAcked_spec nw gs st off len :
  Inv nw gs st → 0 <= off → 0 <= len → off + len <= stream_bytes_written st →
  ∃ st' n, OnStreamDataAcked st off len = (st', n, true) ∧ acked_range nw st st' off len n.
Proof.
  intros HI Ho Hl Hw. pose proof (inv_va _ _ _ HI) as Hva. unfold OnStreamDataAcked.
  destruct (Z.eqb_spec len 0) as [->|Hne].
  { exists st, 0. split; [done|]. apply (acked_nothing nw gs); [done|]. lia. }
  set (range := Interval.mk off (off + len)). change (imin range) with off.
  destruct (match IntervalSet.rbegin (bytes_acked st) with Some l => _ | None => true end) eqn:Efast.
  - pose proof (IntervalSet.disjoint_test _ off (off + len) Hva ltac:(lia) Efast) as Hdis.
    assert (Hden : ∀ z, IntervalSet.den [range] z
      ↔ off <= z < off + len ∧ ¬ IntervalSet.den (bytes_acked st) z).
    { intros z. rewrite IntervalSet.den_cons, IntervalSet.den_nil. unfold Interval.den, range. simpl.
      split; [|tauto]. intros [Hz|[]]. split; [done|]. intros Hd. by apply (Hdis z). }
    assert (Hm : IntervalSet.measure [range] = len) by (unfold range; simpl; lia).
    destruct (free_acked_spec nw gs st off len [range] off (off + len)) as (Hout&st'&E&Hr); try done; try lia.
    + apply IntervalSet.valid_single. simpl. lia.
    + apply Hden. split; [lia|]. intros Hd. by apply (Hdis off); [|lia].
    + by intros z [? _]%Hden.
    + rewrite Hm in *. destruct (Z.ltb_spec (stream_bytes_outstanding st) len); [lia|].
      exists st', len. done.
  - clear Efast. destruct (IntervalSet.ContainsI (bytes_acked st) range) eqn:Ec.
    { exists st, 0. split; [done|]. apply (acked_nothing nw gs); [done|].
      apply IntervalSet.ContainsI_lemma in Ec as [_ Hall]; [|done]. intros z Hz. by apply Hall. }
    destruct (IntervalSet.of_interval_lemma range) as [Hvf Hdf].
    destruct (IntervalSet.DifferenceS_lemma (IntervalSet.of_interval range) (bytes_acked st))
      as (new_&En&Hvn&Hdn); [done..|]. rewrite En. cbn [default].
    assert (Hden : ∀ z, IntervalSet.den new_ z ↔ off <= z < off + len ∧ ¬ IntervalSet.den (bytes_acked st) z).
    { intros z. rewrite Hdn, Hdf. done. }
    destruct new_ as [|i0 rest0] eqn:Enew.
    { exfalso. assert (Hall : ∀ z, Interval.den range z → IntervalSet.den (bytes_acked st) z).
      { intros z Hz. destruct (IntervalSet.Contains (bytes_acked st) z) eqn:E;
          [by apply IntervalSet.Contains_lemma|]. exfalso. apply (IntervalSet.den_nil z), Hden.
        split; [done|]. rewrite <-IntervalSet.Contains_lemma by done. by rewrite E. }
      assert (IntervalSet.ContainsI (bytes_acked st) range = true); [|congruence].
      apply IntervalSet.ContainsI_lemma; [done|]. split; [simpl; lia|done]. }
    destruct (list_snoc_cases (i0 :: rest0)) as [?|(pre&l&El)]; [done|].
    assert (Hb : IntervalSet.begin (i0 :: rest0) = Some i0) by done.
    assert (He : IntervalSet.rbegin (i0 :: rest0) = Some l).
    { rewrite El. apply last_app_singleton. }
    assert (Hspan : ∀ z, IntervalSet.den (i0 :: rest0) z → imin i0 <= z < imax l).
    { intros z Hz. pose proof (IntervalSet.span_den _ z Hvn Hz) as Hsp.
      unfold IntervalSet.SpanningInterval in Hsp. unfold IntervalSet.rbegin in He. by rewrite He in Hsp. }
    assert (Hi0 : IntervalSet.den (i0 :: rest0) (imin i0)).
    { apply IntervalSet.den_cons. left. pose proof (IntervalSet.valid_nonempty _ i0 Hvn ltac:(left)).
      unfold Interval.den. lia. }
    destruct (free_acked_spec nw gs st off len (i0 :: rest0) (imin i0) (imax l)) as (Hout&st'&E&Hr);
      try done; try lia.
    unfold id. change (interval_sum (i0 :: rest0)) with (IntervalSet.measure (i0 :: rest0)).
    destruct (Z.ltb_spec (stream_bytes_outstanding st) (IntervalSet.measure (i0 :: rest0))); [lia|].
    unfold id. cbv zeta. unfold IntervalSet.begin. cbn [head]. rewrite He. by exists st', (IntervalSet.measure (i0 :: rest0)).
Qed.

(** ** Losses and retransmissions *)

Lemma add_all_lemma l s :
  IntervalSet.valid s →
  IntervalSet.valid (fold_left IntervalSet.Add l s)
  ∧ ∀ z, IntervalSet.den (fold_left IntervalSet.Add l s) z ↔ IntervalSet.den s z ∨ IntervalSet.den l z.
Proof.
  revert s. induction l as [|i l IH]; intros s Hv; cbn [fold_left].
  - split; [done|]. intros z. rewrite IntervalSet.den_nil. tauto.
  - destruct (IntervalSet.Add_lemma s i Hv) as [Hv1 Hd1]. destruct (IH _ Hv1) as [Hv2 Hd2].
    split; [done|]. intros z. rewrite Hd2, Hd1, IntervalSet.den_cons. tauto.
Qed.

(** Only the pending retransmissions change. *)
Lemma with_pending_inv nw gs st pend :
  Inv nw gs st → IntervalSet.valid pend →
  (∀ z, IntervalSet.den pend z → 0 <= z < stream_bytes_written st ∧ ¬ IntervalSet.den (bytes_acked st) z) →
  Inv nw gs (with_acks st (stream_bytes_outstanding st) (bytes_acked st) pend).
Proof. intros [] Hv Hd. by split; ssb_simpl. Qed.

Lemma OnStreamDataLost_spec nw gs st off len :
  Inv nw gs st → 0 <= off → 0 <= len → off + len <= stream_bytes_written st →
  let st' := OnStreamDataLost st off len in
  Inv nw gs st' ∧ bytes_acked st' = bytes_acked st
  ∧ stream_bytes_outstanding st' = stream_bytes_outstanding st
  ∧ ∀ z, IntervalSet.den (pending_retransmissions st') z
      ↔ IntervalSet.den (pending_retransmissions st) z
        ∨ (off <= z < off + len ∧ ¬ IntervalSet.den (bytes_acked st) z).
Proof.
  intros HI Ho Hl Hw. cbv zeta. unfold OnStreamDataLost.
  destruct (Z.eqb_spec len 0) as [->|Hne].
  { split; [done|]. split; [done|]. split; [done|]. intros z. split; [by left|]. intros [?|[? _]]; [done|lia]. }
  set (range := Interval.mk off (off + len)).
  destruct (IntervalSet.of_interval_lemma range) as [Hvf Hdf].
  destruct (IntervalSet.DifferenceS_lemma (IntervalSet.of_interval range) (bytes_acked st))
    as (lost&->&Hvl&Hdl); [done|apply HI|]. cbn [default]. unfold id.
  assert (Hden : ∀ z, IntervalSet.den lost z ↔ off <= z < off + len ∧ ¬ IntervalSet.den (bytes_acked st) z).
  { intros z. by rewrite Hdl, Hdf. }
  destruct (IntervalSet.Empty lost) eqn:Ee.
  { split; [done|]. split; [done|]. split; [done|]. intros z. split; [by left|].
    intros [?|Hz%Hden]; [done|]. destruct lost; [by apply IntervalSet.den_nil in Hz|done]. }
  destruct (add_all_lemma lost (pending_retransmissions st)) as [Hv Hd]; [apply HI|].
  split; [|by split; [|split; [|intros z; rewrite <-Hden]]].
  apply with_pending_inv; [done|done|]. intros z [Hz|Hz]%Hd; [by apply (inv_pending _ _ _ HI)|].
  apply Hden in Hz as [? ?]. split; [lia|done].
Qed.

Lemma OnStreamDataRetransmitted_spec nw gs st off len :
  Inv nw gs st → 0 <= len →
  let st' := OnStreamDataRetransmitted st off len in
  Inv nw gs st' ∧ bytes_acked st' = bytes_acked st
  ∧ stream_bytes_outstanding st' = stream_bytes_outstanding st
  ∧ ∀ z, IntervalSet.den (pending_retransmissions st') z
      ↔ IntervalSet.den (pending_retransmissions st) z ∧ ¬ off <= z < off + len.
Proof.
  intros HI Hl. cbv zeta. unfold OnStreamDataRetransmitted. destruct (Z.eqb_spec len 0) as [->|Hne].
  { split; [done|]. split; [done|]. split; [done|]. intros z. split; [|tauto]. split; [done|lia]. }
  destruct (difference_spec (pending_retransmissions st) (Interval.mk off (off + len))) as [Hv Hd]; [apply HI|].
  split; [|by split; [|split; [|intros z; rewrite Hd]]].
  apply with_pending_inv; [done|done|]. intros z [Hz _]%Hd. by apply (inv_pending _ _ _ HI).
Qed.

(** The next range to send again: the lowest one of the queue, which can be written. *)
Lemma NextPendingRetransmission_spec nw gs st :
  Inv nw gs st →
  let '(o, l) := NextPendingRetransmission st in
  if HasPendingRetransmission st then
    writable nw st o l ∧ (∀ z, o <= z < o + l → IntervalSet.den (pending_retransmissions st) z)
    ∧ ∀ z, IntervalSet.den (pending_retransmissions st) z → o <= z
  else ∀ z, ¬ IntervalSet.den (pending_retransmissions st) z.
Proof.
  intros [_ _ _ Hva Hvp Hac Hpe Hor _ _].
  unfold NextPendingRetransmission, HasPendingRetransmission, IntervalSet.begin.
  destruct (pending_retransmissions st) as [|i pend] eqn:Ep; cbn [head IntervalSet.Empty negb].
  { intros z Hz. by apply IntervalSet.den_nil in Hz. }
  pose proof (IntervalSet.valid_nonempty _ i Hvp ltac:(left)) as Hi.
  assert (Hin : ∀ z, imin i <= z < imin i + (imax i - imin i) → IntervalSet.den (i :: pend) z).
  { intros z Hz. apply IntervalSet.den_cons. left. unfold Interval.den. lia. }
  split; [|split; [done|]].
  - pose proof (Hpe (imin i) ltac:(apply Hin; lia)). pose proof (Hpe (imax i - 1) ltac:(apply Hin; lia)).
    split; [lia|]. split; [lia|]. split; [lia|]. split; [right; lia|]. intros z Hz%Hin%Hpe. tauto.
  - intros z (j&Hj&Hz)%IntervalSet.den_elem. pose proof (IntervalSet.valid_starts i pend j Hvp Hj).
    unfold Interval.den in Hz. lia.
Qed.

(** Sending the first range of the queue again takes it off the queue. *)
Lemma retransmitted_first nw gs st i pend :
  Inv nw gs st → pending_retransmissions st = i :: pend →
  pending_retransmissions (OnStreamDataRetransmitted st (imin i) (imax i - imin i)) = pend.
Proof.
  intros HI Ep. pose proof (inv_vp _ _ _ HI) as Hv. rewrite Ep in Hv. pose proof Hv as (Hi&_&Hvp)%IntervalSet.valid_cons.
  unfold OnStreamDataRetransmitted. destruct (Z.eqb_spec (imax i - imin i) 0); [lia|]. cbn [pending_retransmissions with_acks].
  rewrite Ep. set (r := Interval.mk _ _). destruct (difference_spec (i :: pend) r Hv) as [Hvd Hd].
  apply IntervalSet.valid_canonical; [done|done|]. intros z. rewrite Hd, IntervalSet.den_cons. unfold r, Interval.den. cbn.
  split; [intros [[?|?] ?]; [lia|done]|]. intros Hz. pose proof (IntervalSet.valid_head_lt i pend z Hv Hz). split; [by right|lia].
Qed.

(** ** Saving data *)

Lemma SaveMemSlice_inv nw gs st len :
  Inv nw gs st → 0 < len →
  let st' := SaveMemSlice st (slice (stream_offset st) len) in
  (∃ gs', Inv nw gs' st') ∧ stream_offset st' = stream_offset st + len
  ∧ stream_bytes_written st' = stream_bytes_written st.
Proof.
  intros HI Hl. pose proof HI as [Hs (b&Hb&Hc&Hbase) Hf Hva Hvp Hac Hpe Hor Hou Hwi]. cbv zeta.
  pose proof (slice_length stream (stream_offset st) len ltac:(lia)) as Hlen.
  unfold SaveMemSlice. destruct (slice (stream_offset st) len) as [|x d] eqn:Ed;
    [rewrite (@zlen_nil Z) in Hlen; lia|]. rewrite <-Ed in *. clear x d Ed. ssb_simpl. rewrite Hlen.
  split; [|done]. set (s := mk_slice (stream_offset st) (slice (stream_offset st) len)).
  assert (Hsl : offset s = stream_offset st ∧ slice_end s = stream_offset st + len).
  { unfold s, slice_end. cbn [offset slice_data]. by rewrite Hlen. }
  destruct Hsl as [Hso Hse].
  assert (Hn : acked_whole (bytes_acked st) s = false).
  { destruct (acked_whole (bytes_acked st) s) eqn:E; [|done].
    rewrite acked_whole_spec in E by (done || (unfold s; cbn [slice_data]; lia)).
    specialize (E (stream_offset st) ltac:(lia)). apply Hac in E. lia. }
  assert (Hsh : shown (bytes_acked st) s = s) by (unfold shown; by rewrite Hn).
  exists (gs ++ [s]). split; ssb_simpl; try done.
  - rewrite map_app, Hs. cbn [map]. by rewrite Hsh.
  - exists b. split; [done|]. split; [|done]. apply contig_app. exists (stream_offset st). split; [done|].
    cbn [contig]. rewrite Hse. unfold s. cbn [offset slice_data]. rewrite Hlen. done.
  - destruct gs; [done|exact Hf].
  - lia.
  - right. destruct Hwi as [[-> ->]|(pre&s1&post&->&->&Hnw)].
    + exists gs, s, []. split; [done|]. split; [|lia]. cbn [Z.eqb Pos.eqb].
      rewrite zlen_app, Hs. unfold zlen. rewrite length_map. cbn [length]. lia.
    + exists pre, s1, (post ++ [s]). split; [by rewrite <-app_assoc|]. split; [|done].
      pose proof (zlen_nonneg pre). destruct (Z.eqb_spec (zlen pre) (-1)); [lia|done].
Qed.

(** The bytes of [source] from [iov_offset] are the next ones of the stream. *)
Lemma SaveStreamData_loop_inv fuel mx nw gs st source o len :
  Inv nw gs st → 0 < mx → 0 <= o → 0 <= len <= Z.of_nat fuel →
  take (Z.to_nat len) (drop (Z.to_nat o) source) = slice (stream_offset st) len →
  let st' := SaveStreamData_loop fuel mx st source o len in
  (∃ gs', Inv nw gs' st') ∧ stream_offset st' = stream_offset st + len
  ∧ stream_bytes_written st' = stream_bytes_written st.
Proof.
  intros HI Hm. revert gs st o len HI. induction fuel as [|fuel IH]; intros gs st o len HI Ho Hl Hd;
    cbn [SaveStreamData_loop]; cbv zeta.
  { split; [by exists gs|]. split; [lia|done]. }
  destruct (Z.leb_spec len 0) as [Hz|Hz]; [split; [by exists gs|split; [lia|done]]|].
  set (n := Z.min len mx). assert (Hn : 0 < n <= len) by lia.
  assert (Hfirst : take (Z.to_nat n) (drop (Z.to_nat o) source) = slice (stream_offset st) n).
  { rewrite <-(slice_take stream (stream_offset st) len n) by lia. rewrite <-Hd, take_take. f_equal. lia. }
  rewrite Hfirst. destruct (SaveMemSlice_inv nw gs st n HI ltac:(lia)) as ([gs1 HI1]&Eo&Ew).
  destruct (IH gs1 _ (o + n) (len - n) HI1 ltac:(lia) ltac:(lia)) as (HI'&Eo'&Ew').
  { rewrite Eo, <-(slice_drop stream (stream_offset st) len n) by lia.
    rewrite <-Hd, skipn_firstn_comm, drop_drop. f_equal; [lia|f_equal; lia]. }
  split; [done|]. split; [rewrite Eo', Eo; lia|by rewrite Ew'].
Qed.

(** ** Runs of the buffer *)

(** The calls a stream makes, in any order: save the next bytes, write data in sequence or again,
    report what was written, acknowledge, lose or retransmit what was sent. [nw] is the end of the
    data written so far. *)
Inductive sends : Z → t → Prop :=
| s_new : sends 0 new
| s_slice nw st len :
    sends nw st → 0 < len → sends nw (SaveMemSlice st (slice (stream_offset st) len))
| s_save nw st mx iov o len :
    sends nw st → 0 < mx → 0 <= o → 0 <= len →
    take (Z.to_nat len) (drop (Z.to_nat o) (concat iov)) = slice (stream_offset st) len →
    sends nw (SaveStreamData mx st iov o len)
| s_write nw st off len w st' w' :
    sends nw st → writable nw st off len → WriterSpec.wf w →
    WriteStreamData st off len w = (st', w', true) → sends (Z.max nw (off + len)) st'
| s_consumed nw st n :
    sends nw st → 0 <= n → stream_bytes_written st + n <= nw → sends nw (OnStreamDataConsumed st n)
| s_acked nw st off len st' n ok :
    sends nw st → 0 <= off → 0 <= len → off + len <= stream_bytes_written st →
    OnStreamDataAcked st off len = (st', n, ok) → sends nw st'
| s_lost nw st off len :
    sends nw st → 0 <= off → 0 <= len → off + len <= stream_bytes_written st →
    sends nw (OnStreamDataLost st off len)
| s_retransmitted nw st off len :
    sends nw st → 0 <= len → sends nw (OnStreamDataRetransmitted st off len).

Lemma OnStreamDataConsumed_inv nw gs st n :
  Inv nw gs st → 0 <= n → stream_bytes_written st + n <= nw → Inv nw gs (OnStreamDataConsumed st n).
Proof.
  intros [] Hn Hw. unfold OnStreamDataConsumed. split; ssb_simpl; try done; try lia.
  - intros z Hz%inv_acked0. lia.
  - intros z Hz%inv_pending0. split; [lia|tauto].
Qed.

Lemma sends_inv nw st : sends nw st → ∃ gs, Inv nw gs st.
Proof.
  induction 1 as [|nw st len _ [gs HI] Hl|nw st mx iov o len _ [gs HI] Hm Ho Hl Hd
    |nw st off len w st' w' _ [gs HI] Hwr Hw E|nw st n _ [gs HI] Hn Hb
    |nw st off len st' n ok _ [gs HI] Ho Hl Hb E|nw st off len _ [gs HI] Ho Hl Hb
    |nw st off len _ [gs HI] Hl].
  - exists []. apply send_new_inv.
  - by destruct (SaveMemSlice_inv nw gs st len HI Hl).
  - unfold SaveStreamData. by destruct (SaveStreamData_loop_inv (Z.to_nat len) mx nw gs st (concat iov) o len
      HI Hm Ho ltac:(lia) Hd).
  - pose proof (WriteStreamData_spec nw gs st off len w HI Hwr Hw) as Hwrote. rewrite E in Hwrote.
    destruct Hwrote as [_ Hok]. exists gs. by apply Hok.
  - exists gs. by apply OnStreamDataConsumed_inv.
  - destruct (OnStreamDataAcked_spec nw gs st off len HI Ho Hl Hb) as (st1&n1&E1&Hgs&_).
    rewrite E1 in E. injection E as <- _ _. done.
  - exists gs. by destruct (OnStreamDataLost_spec nw gs st off len HI Ho Hl Hb).
  - exists gs. by destruct (OnStreamDataRetransmitted_spec nw gs st off len HI Hl).
Qed.

(** What the buffer keeps of the stream: every byte not acknowledged, and of a slice acknowledged
    as a whole nothing. *)
Definition keeps_unacked (st : t) : Prop :=
  (∀ s, s ∈ buffered_slices st → slice_data s = []
        ∨ ∃ z, offset s <= z < slice_end s ∧ ¬ IntervalSet.den (bytes_acked st) z)
  ∧ ∀ z, 0 <= z < stream_offset st → ¬ IntervalSet.den (bytes_acked st) z →
      ∃ s, s ∈ buffered_slices st ∧ offset s <= z < slice_end s
           ∧ slice_data s !! Z.to_nat (z - offset s) = Some (stream z).

Lemma contig_slice b gs e s : contig b gs e → s ∈ gs → slice_data s = slice (offset s) (zlen (slice_data s)).
Proof.
  revert b. induction gs as [|s0 gs IH]; intros b Hc Hs; [by apply elem_of_nil in Hs|].
  destruct Hc as (Ho&_&Hd&Hc). apply elem_of_cons in Hs as [->|Hs]; [by rewrite Ho|by eapply IH].
Qed.

(** A range is not contained in a set when one of its points is missing. *)
Lemma not_all_acked acked off len :
  IntervalSet.valid acked → 0 < len →
  (IntervalSet.ContainsI acked (Interval.mk off (off + len)) = false
   ↔ ∃ z, off <= z < off + len ∧ ¬ IntervalSet.den acked z).
Proof.
  intros Hv Hl. set (range := Interval.mk off (off + len)). split.
  - intros E. destruct (existsb (λ z, negb (IntervalSet.Contains acked z)) (seqZ off len)) eqn:Ex.
    + apply existsb_exists in Ex as (z&Hz%list_elem_of_In%elem_of_seqZ&Hn). exists z. split; [lia|].
      rewrite <-IntervalSet.Contains_lemma by done. by destruct (IntervalSet.Contains acked z).
    + exfalso. assert (IntervalSet.ContainsI acked range = true); [|congruence].
      apply IntervalSet.ContainsI_lemma; [done|]. split; [unfold range; simpl; lia|]. intros z Hz.
      apply IntervalSet.Contains_lemma; [done|]. destruct (IntervalSet.Contains acked z) eqn:Ec; [done|].
      assert (Ht : existsb (λ z, negb (IntervalSet.Contains acked z)) (seqZ off len) = true); [|congruence].
      apply existsb_exists. exists z. rewrite Ec. split; [|done]. by apply list_elem_of_In, elem_of_seqZ.
  - intros (z&Hz&Hn). destruct (IntervalSet.ContainsI acked range) eqn:E; [|done].
    apply IntervalSet.ContainsI_lemma in E as [_ Hall]; [|done]. by destruct (Hn (Hall z Hz)).
Qed.

Lemma inv_keeps_unacked nw gs st : Inv nw gs st → keeps_unacked st.
Proof.
  intros [Hs (b&Hb&Hc&Hbase) _ Hva _ _ _ _ _ _]. split.
  - intros s0 Hin. rewrite Hs in Hin. apply list_elem_of_fmap in Hin as (s&->&Hin).
    destruct (contig_nonempty _ _ _ _ Hc Hin) as [_ Hp].
    unfold shown. destruct (acked_whole (bytes_acked st) s) eqn:E; [by left|right].
    by apply not_all_acked in E.
  - intros z Hz Hn. assert (Hbz : b <= z < stream_offset st).
    { split; [|lia]. destruct (Z.le_gt_cases b z); [done|]. exfalso. apply Hn, Hbase. lia. }
    destruct (contig_find _ _ _ _ Hc Hbz) as (pre&s&post&Eg&Hzs).
    assert (Hin : s ∈ gs) by (rewrite Eg; set_solver).
    exists s. split; [|split; [done|]].
    + rewrite Hs. apply list_elem_of_fmap. exists s. split; [|done]. symmetry. by eapply shown_unacked.
    + rewrite (contig_slice _ _ _ _ Hc Hin). unfold slice_end in Hzs. rewrite slice_lookup by lia.
      do 2 f_equal. lia.
Qed.

Lemma inv_all_acked nw gs st :
  Inv nw gs st → (∀ z, 0 <= z < stream_offset st → IntervalSet.den (bytes_acked st) z) →
  buffered_slices st = [].
Proof.
  intros [Hs (b&Hb&Hc&_) Hf Hva _ _ _ _ _ _] Hall. rewrite Hs. destruct gs as [|s gs]; [done|].
  exfalso. destruct (contig_nonempty _ _ _ s Hc ltac:(left)) as [Hbs Hp].
  assert (acked_whole (bytes_acked st) s = true); [|congruence].
  apply acked_whole_spec; [done|done|]. intros z Hz. apply Hall.
  destruct Hc as (_&_&_&Hc%contig_le). lia.
Qed.

(** [den s] is the set of the offsets in [s]. *)
Lemma outstanding_zero nw gs st :
  Inv nw gs st → stream_bytes_outstanding st = 0 →
  ∀ z, 0 <= z < stream_bytes_written st → IntervalSet.den (bytes_acked st) z.
Proof.
  intros [_ _ _ Hva _ Hac _ Hor Hou _] Ho z Hz.
  destruct (IntervalSet.Contains (bytes_acked st) z) eqn:E; [by apply IntervalSet.Contains_lemma|].
  exfalso. assert (Hn : ¬ IntervalSet.den (bytes_acked st) z).
  { rewrite <-IntervalSet.Contains_lemma by done. by rewrite E. }
  set (one := Interval.mk z (z + 1)).
  destruct (IntervalSet.Add_lemma (bytes_acked st) one Hva) as [Hv1 Hd1].
  assert (Hone : ∀ y, IntervalSet.den [one] y ↔ y = z).
  { intros y. rewrite IntervalSet.den_cons, IntervalSet.den_nil. unfold Interval.den, one. simpl. lia. }
  pose proof (IntervalSet.measure_add (bytes_acked st) [one] (IntervalSet.Add (bytes_acked st) one)) as Hm.
  pose proof (IntervalSet.measure_bound _ 0 (stream_bytes_written st) Hv1 ltac:(lia)
    ltac:(intros y [Hy|Hy]%Hd1; [by apply Hac|unfold Interval.den, one in Hy; simpl in Hy; lia])) as Hb.
  rewrite Hm in Hb; [| |apply IntervalSet.valid_single; unfold one; simpl; lia|done| |].
  - unfold one in Hb. simpl in Hb. lia.
  - done.
  - intros y. rewrite Hd1, Hone. unfold Interval.den, one. simpl. assert (y = z ↔ z <= y < z + 1) by lia. tauto.
  - intros y Hy ->%Hone. done.
Qed.
End stream.

(** ** Properties *)

(** C12. [WriteStreamData] sends the bytes of the stream. In any run, for new data in sequence or
    data written before and not acknowledged (whatever was freed around it), the call succeeds
    exactly when the packet has room, and then appends exactly those bytes of the stream. *)
Theorem WriteStreamData_sends_the_stream stream nw st off len w :
  sends stream nw st → writable nw st off len → WriterSpec.wf w →
  let '(_, w', ok) := WriteStreamData st off len w in
  ok = (len <=? Writer.remaining w)
  ∧ (ok = true → WriterSpec.written w' = WriterSpec.written w ++ slice stream off len
      ∧ Writer.remaining w' = Writer.remaining w - len ∧ WriterSpec.wf w').
Proof.
  intros [gs HI]%sends_inv Hwr Hw. pose proof (WriteStreamData_spec stream nw gs st off len w HI Hwr Hw) as H.
  destruct (WriteStreamData st off len w) as [[st' w'] ok]. destruct H as [-> Hok].
  split; [done|]. intros (?&?&?&_)%Hok. done.
Qed.

(** C27. Acknowledging sent data always succeeds. It marks exactly its bytes as acknowledged and
    no longer to be retransmitted, reports how many were new, leaves as outstanding the bytes sent
    and not acknowledged, and frees memory exactly: every byte not acknowledged stays in the buffer
    with its value, a slice acknowledged as a whole holds nothing, and when all the data of the
    stream is acknowledged the buffer is empty. *)
Theorem OnStreamDataAcked_correct stream nw st off len :
  sends stream nw st → 0 <= off → 0 <= len → off + len <= stream_bytes_written st →
  let '(st', newly, ok) := OnStreamDataAcked st off len in
  ok = true
  ∧ (∀ z, IntervalSet.den (bytes_acked st') z ↔ IntervalSet.den (bytes_acked st) z ∨ off <= z < off + len)
  ∧ (∀ z, IntervalSet.den (pending_retransmissions st') z
      ↔ IntervalSet.den (pending_retransmissions st) z ∧ ¬ off <= z < off + len)
  ∧ newly = IntervalSet.measure (bytes_acked st') - IntervalSet.measure (bytes_acked st)
  ∧ stream_bytes_outstanding st' = stream_bytes_outstanding st - newly
  ∧ keeps_unacked stream st'
  ∧ (stream_bytes_outstanding st' = 0 → ∀ z, 0 <= z < stream_bytes_written st → IntervalSet.den (bytes_acked st') z)
  ∧ (stream_bytes_outstanding st' = 0 → stream_bytes_written st' = stream_offset st' → size st' = 0).
Proof.
  intros [gs HI]%sends_inv Ho Hl Hw.
  destruct (OnStreamDataAcked_spec stream nw gs st off len HI Ho Hl Hw)
    as (st'&n&->&([gs' HI']&Ha&Hp&Hn&Ew&Eo)).
  split; [done|]. split; [done|]. split; [done|]. split; [done|].
  split; [rewrite (inv_out _ _ _ _ HI'), (inv_out _ _ _ _ HI), Ew; lia|].
  split; [by eapply inv_keeps_unacked|]. pose proof (outstanding_zero _ _ _ _ HI') as Hz. rewrite Ew in *.
  split; [done|]. intros H0 Hall. unfold size. by rewrite (inv_all_acked _ _ _ _ HI') by (rewrite <-Hall; auto).
Qed.

(** The retransmission queue. Only bytes sent and not acknowledged are in it; a loss adds
    exactly the lost bytes not acknowledged, a retransmission removes exactly its bytes, neither
    changes what is outstanding; and the next pending retransmission is the lowest range of it, which
    can be written. *)
Theorem retransmissions_correct stream nw st off len :
  sends stream nw st → 0 <= off → 0 <= len → off + len <= stream_bytes_written st →
  (∀ z, IntervalSet.den (pending_retransmissions st) z →
     0 <= z < stream_bytes_written st ∧ ¬ IntervalSet.den (bytes_acked st) z)
  ∧ (∀ z, IntervalSet.den (pending_retransmissions (OnStreamDataLost st off len)) z
      ↔ IntervalSet.den (pending_retransmissions st) z
        ∨ (off <= z < off + len ∧ ¬ IntervalSet.den (bytes_acked st) z))
  ∧ (∀ z, IntervalSet.den (pending_retransmissions (OnStreamDataRetransmitted st off len)) z
      ↔ IntervalSet.den (pending_retransmissions st) z ∧ ¬ off <= z < off + len)
  ∧ stream_bytes_outstanding (OnStreamDataLost st off len) = stream_bytes_outstanding st
  ∧ (IsStreamDataOutstanding st off len = true
      ↔ ∃ z, off <= z < off + len ∧ ¬ IntervalSet.den (bytes_acked st) z)
  ∧ let '(o, l) := NextPendingRetransmission st in
    if HasPendingRetransmission st then
      writable nw st o l ∧ (∀ z, o <= z < o + l → IntervalSet.den (pending_retransmissions st) z)
      ∧ ∀ z, IntervalSet.den (pending_retransmissions st) z → o <= z
    else ∀ z, ¬ IntervalSet.den (pending_retransmissions st) z.
Proof.
  intros [gs HI]%sends_inv Ho Hl Hw.
  destruct (OnStreamDataLost_spec stream nw gs st off len HI Ho Hl Hw) as (_&_&El&Hlost).
  destruct (OnStreamDataRetransmitted_spec stream nw gs st off len HI Hl) as (_&_&_&Hret).
  pose proof HI as [_ _ _ Hva Hvp Hac Hpe Hor _ _].
  split; [done|]. split; [done|]. split; [done|]. split; [done|].
  split; [|by apply (NextPendingRetransmission_spec stream nw gs)].
  unfold IsStreamDataOutstanding. destruct (Z.ltb_spec 0 len) as [Hpos|Hz]; cbn [andb].
  - rewrite negb_true_iff. by apply not_all_acked.
  - split; [done|]. intros (z&?&_). exfalso. lia.
Qed.

(** A run: six bytes saved in slices of three, the first four written and then lost. *)
Definition ex_stream : Z → Z := λ z, 100 + z.
Definition ex_saved : t := SaveStreamData 3 new [[100; 101]; [102; 103; 104; 105]] 0 6.
Definition ex_writer : Writer.t := Writer.new 8 NETWORK_BYTE_ORDER.
Definition ex_sent : t := OnStreamDataConsumed (WriteStreamData ex_saved 0 4 ex_writer).1.1 4.
Definition ex_lost : t := OnStreamDataLost ex_sent 1 3.

Lemma ex_sent_sends : sends ex_stream 4 ex_sent.
Proof.
  apply s_consumed; [|discriminate|discriminate].
  eapply (s_write ex_stream 0 ex_saved 0 4 ex_writer).
  - apply s_save; [apply s_new|reflexivity|discriminate|discriminate|reflexivity].
  - split; [discriminate|]. split; [reflexivity|]. split; [discriminate|]. split; [by left|].
    intros z _ Hz. by apply IntervalSet.den_nil in Hz.
  - split; discriminate.
  - reflexivity.
Qed.

Lemma ex_lost_sends : sends ex_stream 4 ex_lost.
Proof. apply s_lost; [apply ex_sent_sends|discriminate|discriminate|discriminate]. Qed.

Lemma WriteStreamData_sends_the_stream_witness :
  WriterSpec.written (WriteStreamData ex_lost 2 2 ex_writer).1.2 = [102; 103].
Proof.
  assert (Hw : writable 4 ex_lost 2 2).
  { split; [discriminate|]. split; [reflexivity|]. split; [discriminate|]. split; [right; discriminate|].
    intros z _ Hz. by apply IntervalSet.den_nil in Hz. }
  assert (Hwf : WriterSpec.wf ex_writer) by (split; discriminate).
  pose proof (WriteStreamData_sends_the_stream ex_stream 4 ex_lost 2 2 ex_writer ex_lost_sends Hw Hwf) as H.
  vm_compute WriteStreamData in H. destruct H as [_ H]. vm_compute. by destruct (H eq_refl) as [E _].
Defined.

Lemma OnStreamDataAcked_correct_witness :
  let '(st', newly, ok) := OnStreamDataAcked ex_lost 0 3 in
  ok = true ∧ newly = 3 ∧ pending_retransmissions st' = [Interval.mk 3 4]
  ∧ buffered_slices st' = [mk_slice 3 [103; 104; 105]] ∧ stream_bytes_outstanding st' = 1 ∧ keeps_unacked ex_stream st'.
Proof.
  pose proof (OnStreamDataAcked_correct ex_stream 4 ex_lost 0 3 ex_lost_sends
    ltac:(discriminate) ltac:(discriminate) ltac:(discriminate)) as H.
  destruct (OnStreamDataAcked ex_lost 0 3) as [[st' n] ok] eqn:E. destruct H as (->&_&_&_&_&Hk&_).
  vm_compute in E. injection E as <- <-. do 5 (split; [reflexivity|]). exact Hk.
Defined.

Lemma retransmissions_correct_witness :
  NextPendingRetransmission ex_lost = (1, 3)
  ∧ NextPendingRetransmission (OnStreamDataRetransmitted ex_lost 1 2) = (3, 1)
  ∧ (∀ z, 1 <= z < 4 → IntervalSet.den (pending_retransmissions ex_lost) z).
Proof.
  split; [reflexivity|]. split; [reflexivity|].
  destruct (retransmissions_correct ex_stream 4 ex_sent 1 3 ex_sent_sends
    ltac:(discriminate) ltac:(discriminate) ltac:(discriminate)) as (_&Hl&_).
  intros z Hz. apply Hl. right. split; [lia|]. intros Ha. by apply IntervalSet.den_nil in Ha.
Defined.
End StreamSendBuffer.
