(* ===== verification/FlowController.v ===== *)
(** [QuicFlowController] (quic/core/quic_flow_controller.cc): the send and receive windows of
    a stream or of the whole connection, with the auto-tuning of the receive window.

    The clock and the smoothed RTT an operation reads are its argument [env]; what it does
    to the session, the connection and the session's own flow controller is its list of
    [effect]s, in order. [Link] puts a sender and a receiver together over a network that
    delays, reorders and loses window updates. *)

From S2P Require Import Prelude Bytes.

Module FlowController.

Record t := mk {
  bytes_sent : Z;
  send_window_offset : Z;
  bytes_consumed : Z;
  highest_received_byte_offset : Z;
  receive_window_offset : Z;
  receive_window_size : Z;
  receive_window_size_limit : Z;
  auto_tune_receive_window : bool;
  has_session_flow_controller : bool;
  last_blocked_send_window_offset : Z;
  prev_window_update_time : Z;
}.

Record env := mk_env { ApproximateNow : Z; smoothed_rtt : Z }.

Inductive effect :=
  | SendWindowUpdate (receive_window_offset : Z)
  | EnsureSessionWindowAtLeast (window_size : Z)
  | CloseConnection.

Definition new (send_window_offset receive_window_offset receive_window_size_limit : Z)
    (should_auto_tune has_session : bool) : t :=
  mk 0 send_window_offset 0 0 receive_window_offset receive_window_offset
     receive_window_size_limit should_auto_tune has_session 0 0.

Definition set_sent (st : t) v := mk v (send_window_offset st) (bytes_consumed st)
  (highest_received_byte_offset st) (receive_window_offset st) (receive_window_size st)
  (receive_window_size_limit st) (auto_tune_receive_window st) (has_session_flow_controller st)
  (last_blocked_send_window_offset st) (prev_window_update_time st).
Definition set_send_window (st : t) v := mk (bytes_sent st) v (bytes_consumed st)
  (highest_received_byte_offset st) (receive_window_offset st) (receive_window_size st)
  (receive_window_size_limit st) (auto_tune_receive_window st) (has_session_flow_controller st)
  (last_blocked_send_window_offset st) (prev_window_update_time st).
Definition set_consumed (st : t) v := mk (bytes_sent st) (send_window_offset st) v
  (highest_received_byte_offset st) (receive_window_offset st) (receive_window_size st)
  (receive_window_size_limit st) (auto_tune_receive_window st) (has_session_flow_controller st)
  (last_blocked_send_window_offset st) (prev_window_update_time st).
Definition set_highest (st : t) v := mk (bytes_sent st) (send_window_offset st) (bytes_consumed st)
  v (receive_window_offset st) (receive_window_size st)
  (receive_window_size_limit st) (auto_tune_receive_window st) (has_session_flow_controller st)
  (last_blocked_send_window_offset st) (prev_window_update_time st).
Definition set_receive_offset (st : t) v := mk (bytes_sent st) (send_window_offset st) (bytes_consumed st)
  (highest_received_byte_offset st) v (receive_window_size st)
  (receive_window_size_limit st) (auto_tune_receive_window st) (has_session_flow_controller st)
  (last_blocked_send_window_offset st) (prev_window_update_time st).
Definition set_receive_size (st : t) v := mk (bytes_sent st) (send_window_offset st) (bytes_consumed st)
  (highest_received_byte_offset st) (receive_window_offset st) v
  (receive_window_size_limit st) (auto_tune_receive_window st) (has_session_flow_controller st)
  (last_blocked_send_window_offset st) (prev_window_update_time st).
Definition set_blocked (st : t) v := mk (bytes_sent st) (send_window_offset st) (bytes_consumed st)
  (highest_received_byte_offset st) (receive_window_offset st) (receive_window_size st)
  (receive_window_size_limit st) (auto_tune_receive_window st) (has_session_flow_controller st)
  v (prev_window_update_time st).
Definition set_time (st : t) v := mk (bytes_sent st) (send_window_offset st) (bytes_consumed st)
  (highest_received_byte_offset st) (receive_window_offset st) (receive_window_size st)
  (receive_window_size_limit st) (auto_tune_receive_window st) (has_session_flow_controller st)
  (last_blocked_send_window_offset st) v.

(** ** Sending *)

Definition SendWindowSize (st : t) : Z :=
  if send_window_offset st <? bytes_sent st then 0 else send_window_offset st - bytes_sent st.

Definition IsBlocked (st : t) : bool := SendWindowSize st =? 0.

Definition AddBytesSent (st : t) (n : Z) : t * list effect :=
  if send_window_offset st <? wrap64 (bytes_sent st + n)
  then (set_sent st (send_window_offset st), [CloseConnection])
  else (set_sent st (wrap64 (bytes_sent st + n)), []).

Definition ShouldSendBlocked (st : t) : t * bool :=
  if negb (SendWindowSize st =? 0)
     || (send_window_offset st <=? last_blocked_send_window_offset st) then (st, false)
  else (set_blocked st (send_window_offset st), true).

Definition UpdateSendWindowOffset (st : t) (new_send_window_offset : Z) : t * bool :=
  if new_send_window_offset <=? send_window_offset st then (st, false)
  else (set_send_window st new_send_window_offset, IsBlocked st).

(** ** Receiving *)

Definition UpdateHighestReceivedOffset (st : t) (new_offset : Z) : t * bool :=
  if new_offset <=? highest_received_byte_offset st then (st, false)
  else (set_highest st new_offset, true).

Definition FlowControlViolation (st : t) : bool :=
  receive_window_offset st <? highest_received_byte_offset st.

Definition IncreaseWindowSize (st : t) : t :=
  set_receive_size st (Z.min (wrap64 (receive_window_size st * 2)) (receive_window_size_limit st)).

Definition WindowUpdateThreshold (st : t) : Z := receive_window_size st / 2.

(** A positive integer rounded to the 24 significant bits of a [float], ties to even. *)
Definition float_round (z : Z) : Z :=
  if z <? 2 ^ 24 then z else
  let e := Z.log2 z - 23 in
  let q := z / 2 ^ e in let r := z mod 2 ^ e in let half := 2 ^ (e - 1) in
  if (half <? r) || ((r =? half) && Z.odd q) then (q + 1) * 2 ^ e else q * 2 ^ e.

(** [kSessionFlowControlMultiplier * size], a [float] product converted to an integer:
    1.5 times [x] has the significand of [3 * x]. *)
Definition session_window_for (size : Z) : Z := float_round (3 * float_round size) / 2.

Definition UpdateReceiveWindowOffsetAndSendWindowUpdate (st : t) (available_window : Z)
    : t * list effect :=
  let st := set_receive_offset st
    (wrap64 (receive_window_offset st + (receive_window_size st - available_window))) in
  (st, [SendWindowUpdate (receive_window_offset st)]).

Definition MaybeIncreaseMaxWindowSize (e : env) (st : t) : t * list effect :=
  let now := ApproximateNow e in
  let prev := prev_window_update_time st in
  let st := set_time st now in
  if prev =? 0 then (st, []) else
  if negb (auto_tune_receive_window st) then (st, []) else
  if smoothed_rtt e =? 0 then (st, []) else
  if 2 * smoothed_rtt e <=? now - prev then (st, []) else
  let old_window := receive_window_size st in
  let st := IncreaseWindowSize st in
  if old_window <? receive_window_size st
  then (st, if has_session_flow_controller st
            then [EnsureSessionWindowAtLeast (session_window_for (receive_window_size st))] else [])
  else (st, []).

Definition MaybeSendWindowUpdate (e : env) (st : t) : t * list effect :=
  let available_window := receive_window_offset st - bytes_consumed st in
  let threshold := WindowUpdateThreshold st in
  let st := if prev_window_update_time st =? 0 then set_time st (ApproximateNow e) else st in
  if threshold <=? available_window then (st, []) else
  let '(st, eff1) := MaybeIncreaseMaxWindowSize e st in
  let '(st, eff2) := UpdateReceiveWindowOffsetAndSendWindowUpdate st available_window in
  (st, eff1 ++ eff2).

Definition AddBytesConsumed (e : env) (st : t) (n : Z) : t * list effect :=
  MaybeSendWindowUpdate e (set_consumed st (wrap64 (bytes_consumed st + n))).

Definition EnsureWindowAtLeast (st : t) (window_size : Z) : t * list effect :=
  if window_size <=? receive_window_size_limit st then (st, []) else
  let available_window := receive_window_offset st - bytes_consumed st in
  let st := IncreaseWindowSize st in
  UpdateReceiveWindowOffsetAndSendWindowUpdate st available_window.

Definition UpdateReceiveWindowSize (st : t) (size : Z) : t :=
  if negb (receive_window_size st =? receive_window_offset st) then st
  else set_receive_offset (set_receive_size st size) size.

Ltac fc_simpl := cbn [bytes_sent send_window_offset bytes_consumed highest_received_byte_offset
  receive_window_offset receive_window_size receive_window_size_limit auto_tune_receive_window
  has_session_flow_controller last_blocked_send_window_offset prev_window_update_time
  set_sent set_send_window set_consumed set_highest set_receive_offset set_receive_size
  set_blocked set_time new fst snd app] in *.

(** ** The receive window *)

(** What the peer may still send is at most the window size, which is at most its
    limit; [room] keeps the arithmetic inside 64 bits. *)
Definition window_ok (st : t) : Prop :=
  0 <= bytes_consumed st <= receive_window_offset st
  ∧ receive_window_offset st <= bytes_consumed st + receive_window_size st
  ∧ 0 <= receive_window_size st <= receive_window_size_limit st
  ∧ receive_window_size_limit st < two62.

(** An operation of the receive side leaves the send side and the received offset. *)
Definition same_elsewhere (st st' : t) : Prop :=
  bytes_sent st' = bytes_sent st ∧ send_window_offset st' = send_window_offset st
  ∧ highest_received_byte_offset st' = highest_received_byte_offset st
  ∧ receive_window_size_limit st' = receive_window_size_limit st
  ∧ bytes_consumed st' = bytes_consumed st
  ∧ has_session_flow_controller st' = has_session_flow_controller st.

Lemma same_elsewhere_trans st1 st2 st3 :
  same_elsewhere st1 st2 → same_elsewhere st2 st3 → same_elsewhere st1 st3.
Proof. unfold same_elsewhere. intuition congruence. Qed.

Lemma IncreaseWindowSize_spec st :
  0 <= receive_window_size st <= receive_window_size_limit st → receive_window_size_limit st < two62 →
  same_elsewhere st (IncreaseWindowSize st)
  ∧ receive_window_offset (IncreaseWindowSize st) = receive_window_offset st
  ∧ receive_window_size (IncreaseWindowSize st)
    = Z.min (2 * receive_window_size st) (receive_window_size_limit st).
Proof.
  intros H1 H2. unfold IncreaseWindowSize. fc_simpl. split; [done|]. split; [done|].
  unfold wrap64. rewrite Z.mod_small by (unfold two62, two64 in *; lia). f_equal. lia.
Qed.

(** The window only grows, at most doubling, and only up to its limit. *)
Lemma MaybeIncreaseMaxWindowSize_spec e st :
  0 <= receive_window_size st <= receive_window_size_limit st → receive_window_size_limit st < two62 →
  let '(st', eff) := MaybeIncreaseMaxWindowSize e st in
  same_elsewhere st st'
  ∧ receive_window_offset st' = receive_window_offset st
  ∧ (receive_window_size st' = receive_window_size st
     ∨ receive_window_size st' = Z.min (2 * receive_window_size st) (receive_window_size_limit st))
  ∧ eff = (if (receive_window_size st <? receive_window_size st') && has_session_flow_controller st
           then [EnsureSessionWindowAtLeast (session_window_for (receive_window_size st'))] else []).
Proof.
  intros H1 H2. destruct (IncreaseWindowSize_spec (set_time st (ApproximateNow e)) H1 H2) as (Hs&Ho&Hz).
  pose proof (Z.ltb_irrefl (receive_window_size st)) as Hrefl.
  unfold MaybeIncreaseMaxWindowSize. cbv zeta.
  repeat match goal with |- context [if ?b then (set_time _ _, []) else _] =>
    destruct b; [split; [done|]; split; [done|]; split; [by left|]; fc_simpl; by rewrite Hrefl|] end.
  set (st1 := IncreaseWindowSize _) in *. fc_simpl.
  destruct (Z.ltb_spec (receive_window_size st) (receive_window_size st1)).
  - split; [done|]. split; [done|]. split; [by right|].
    destruct (Z.ltb_spec (receive_window_size st) (receive_window_size st1)); [|lia].
    destruct Hs as (_&_&_&_&_&->). fc_simpl. by destruct (has_session_flow_controller st).
  - split; [done|]. split; [done|]. split; [by right|].
    by destruct (Z.ltb_spec (receive_window_size st) (receive_window_size st1)); [lia|].
Qed.

(** The session's effects of a stream's window update come first. *)
Definition tuned (st st' : t) : list effect :=
  if (receive_window_size st <? receive_window_size st') && has_session_flow_controller st
  then [EnsureSessionWindowAtLeast (session_window_for (receive_window_size st'))] else [].

Lemma MaybeSendWindowUpdate_spec e st :
  window_ok st → bytes_consumed st < two62 →
  let '(st', eff) := MaybeSendWindowUpdate e st in
  let available := receive_window_offset st - bytes_consumed st in
  same_elsewhere st st'
  ∧ (if receive_window_size st / 2 <=? available
     then receive_window_offset st' = receive_window_offset st
          ∧ receive_window_size st' = receive_window_size st ∧ eff = []
     else receive_window_offset st' = bytes_consumed st + receive_window_size st'
          ∧ receive_window_size st <= receive_window_size st' <= receive_window_size_limit st
          ∧ receive_window_size st' <= 2 * receive_window_size st
          ∧ eff = tuned st st' ++ [SendWindowUpdate (receive_window_offset st')]).
Proof.
  intros (H1&H2&H3&H4) H5. unfold MaybeSendWindowUpdate, WindowUpdateThreshold.
  set (st0 := if prev_window_update_time st =? 0 then _ else st).
  assert (E0 : same_elsewhere st st0 ∧ receive_window_size st0 = receive_window_size st
    ∧ receive_window_offset st0 = receive_window_offset st) by (unfold st0; by case_match).
  destruct E0 as (Hs0&Ez&Eo). destruct (Z.leb_spec (receive_window_size st / 2)
    (receive_window_offset st - bytes_consumed st)); [done|].
  pose proof (MaybeIncreaseMaxWindowSize_spec e st0) as Hm.
  pose proof Hs0 as (_&_&_&El&_&Eh). rewrite Ez, El, Eo, Eh in Hm.
  specialize (Hm ltac:(lia) ltac:(lia)).
  destruct (MaybeIncreaseMaxWindowSize e st0) as [st1 eff1]. destruct Hm as (Hs1&Ho1&Hz1&Heff).
  cbn [UpdateReceiveWindowOffsetAndSendWindowUpdate]. fc_simpl.
  pose proof (same_elsewhere_trans _ _ _ Hs0 Hs1) as Hs.
  split; [exact Hs|]. rewrite Ho1. unfold wrap64.
  rewrite Z.mod_small by (unfold two62, two64 in *; lia). split; [lia|]. split; [lia|]. split; [lia|].
  unfold tuned. fc_simpl. by rewrite Heff.
Qed.

Lemma AddBytesConsumed_spec e st n :
  window_ok st → 0 <= n → bytes_consumed st + n <= receive_window_offset st →
  bytes_consumed st + n < two62 →
  let '(st', eff) := AddBytesConsumed e st n in
  window_ok st'
  ∧ bytes_consumed st' = bytes_consumed st + n
  ∧ receive_window_offset st <= receive_window_offset st'
  ∧ receive_window_size st <= receive_window_size st'
    <= Z.min (2 * receive_window_size st) (receive_window_size_limit st)
  ∧ receive_window_size st' / 2 <= receive_window_offset st' - bytes_consumed st'
  ∧ same_elsewhere (set_consumed st (bytes_consumed st + n)) st'
  ∧ eff = (if receive_window_offset st - bytes_consumed st - n <? receive_window_size st / 2
           then tuned st st' ++ [SendWindowUpdate (receive_window_offset st')] else [])
  ∧ (if receive_window_offset st - bytes_consumed st - n <? receive_window_size st / 2
     then receive_window_offset st < receive_window_offset st'
     else receive_window_offset st' = receive_window_offset st).
Proof.
  intros (H1&H2&H3&H4) Hn Hc H5. unfold AddBytesConsumed, wrap64.
  rewrite Z.mod_small by (unfold two62, two64 in *; lia).
  set (st1 := set_consumed st (bytes_consumed st + n)).
  assert (Hok : window_ok st1) by (unfold st1, window_ok; fc_simpl; lia).
  pose proof (MaybeSendWindowUpdate_spec e st1 Hok ltac:(unfold st1; fc_simpl; lia)) as Hs.
  destruct (MaybeSendWindowUpdate e st1) as [st' eff]. destruct Hs as (Hsame&Hb).
  pose proof Hsame as (_&_&_&El&Ec&_). unfold st1 in El, Ec, Hb; fc_simpl.
  assert (Hhalf : receive_window_size st / 2 <= receive_window_size st)
    by (Z.to_euclidean_division_equations; lia).
  destruct (Z.leb_spec (receive_window_size st / 2) (receive_window_offset st - (bytes_consumed st + n))).
  - destruct Hb as (Eo&Ez&->). unfold window_ok. rewrite El, Ec, Eo, Ez.
    split; [lia|]. split; [done|]. split; [lia|]. split; [lia|]. split; [lia|]. split; [done|].
    by case_match; [lia|].
  - destruct Hb as (Eo&Hz1&Hz2&Heff). unfold window_ok. rewrite El, Ec, Eo.
    assert (receive_window_size st' / 2 <= receive_window_size st')
      by (Z.to_euclidean_division_equations; lia).
    split; [lia|]. split; [done|]. split; [lia|]. split; [lia|]. split; [lia|]. split; [done|].
    case_match; [|lia]. split; [by rewrite Heff, Eo|lia].
Qed.

Lemma EnsureWindowAtLeast_spec st w :
  window_ok st → bytes_consumed st < two62 →
  let '(st', eff) := EnsureWindowAtLeast st w in
  window_ok st' ∧ same_elsewhere st st'
  ∧ (if w <=? receive_window_size_limit st then st' = st ∧ eff = []
     else receive_window_size st' = Z.min (2 * receive_window_size st) (receive_window_size_limit st)
          ∧ receive_window_offset st' = bytes_consumed st + receive_window_size st'
          ∧ eff = [SendWindowUpdate (receive_window_offset st')]).
Proof.
  intros Hok Hc. pose proof Hok as (H1&H2&H3&H4). unfold EnsureWindowAtLeast.
  destruct (w <=? receive_window_size_limit st); [done|].
  destruct (IncreaseWindowSize_spec st H3 H4) as (Hs&Ho&Hz). set (st1 := IncreaseWindowSize st) in *.
  cbn [UpdateReceiveWindowOffsetAndSendWindowUpdate]. fc_simpl.
  pose proof Hs as (_&_&_&El&Ec&_). rewrite Ho. unfold wrap64.
  rewrite Z.mod_small by (unfold two62, two64 in *; lia).
  split; [unfold window_ok; fc_simpl; rewrite El, Ec; lia|].
  split; [exact Hs|]. split; [done|]. split; [lia|done].
Qed.

(** ** A sender and a receiver

    [updates] holds the window updates the receiver has sent; the network may deliver
    any of them, any number of times, in any order, or none. The sender sends no more
    than [SendWindowSize], as [QuicStream] and [QuicSession] do. *)
Module Link.

Record link := mk_link { sender : t; receiver : t; updates : list Z }.

(** The window updates among the effects. *)
Definition sent_updates (eff : list effect) : list Z :=
  omap (λ x, match x with SendWindowUpdate o => Some o | _ => None end) eff.

Inductive step (total : Z) : link → link → Prop :=
  | step_send l n :
      0 <= n <= SendWindowSize (sender l) → bytes_sent (sender l) + n <= total →
      step total l (mk_link (AddBytesSent (sender l) n).1 (receiver l) (updates l))
  | step_blocked l :
      step total l (mk_link (ShouldSendBlocked (sender l)).1 (receiver l) (updates l))
  | step_receive l off :
      0 <= off <= bytes_sent (sender l) →
      step total l (mk_link (sender l) (UpdateHighestReceivedOffset (receiver l) off).1 (updates l))
  | step_consume l e n :
      0 <= n → bytes_consumed (receiver l) + n <= highest_received_byte_offset (receiver l) →
      step total l
        (let '(r, eff) := AddBytesConsumed e (receiver l) n in
         mk_link (sender l) r (updates l ++ sent_updates eff))
  | step_ensure l w :
      step total l
        (let '(r, eff) := EnsureWindowAtLeast (receiver l) w in
         mk_link (sender l) r (updates l ++ sent_updates eff))
  | step_deliver l o :
      o ∈ updates l →
      step total l (mk_link (UpdateSendWindowOffset (sender l) o).1 (receiver l) (updates l)).

Inductive reachable (total : Z) (l0 : link) : link → Prop :=
  | reachable_refl : reachable total l0 l0
  | reachable_step l l' : reachable total l0 l → step total l l' → reachable total l0 l'.

(** Both ends start with the window of the handshake. *)
Definition start (window limit : Z) (auto_tune : bool) : link :=
  mk_link (new window window limit auto_tune false) (new window window limit auto_tune false) [].

(** The send side is bounded by what the receiver advertised. *)
Record Inv (total : Z) (l : link) : Prop := {
  inv_window : window_ok (receiver l);
  inv_sent : 0 <= bytes_sent (sender l) <= send_window_offset (sender l);
  inv_total : bytes_sent (sender l) <= total;
  inv_advertised : send_window_offset (sender l) <= receive_window_offset (receiver l);
  inv_updates o : o ∈ updates l → o <= receive_window_offset (receiver l);
  inv_latest : receive_window_offset (receiver l) = send_window_offset (sender l)
               ∨ receive_window_offset (receiver l) ∈ updates l;
  inv_received :
    bytes_consumed (receiver l) <= highest_received_byte_offset (receiver l) <= bytes_sent (sender l);
  inv_half : receive_window_size (receiver l) / 2
             <= receive_window_offset (receiver l) - bytes_consumed (receiver l);
}.

Lemma start_inv total window limit at_ :
  0 <= total → 0 <= window <= limit → limit < two62 → Inv total (start window limit at_).
Proof.
  intros. assert (window / 2 <= window) by (Z.to_euclidean_division_equations; lia).
  split; unfold start, window_ok; cbn [sender receiver updates]; fc_simpl; try lia.
  intros o Ho. by apply elem_of_nil in Ho.
Qed.

Lemma sent_updates_tuned st st' o : sent_updates (tuned st st' ++ [SendWindowUpdate o]) = [o].
Proof. unfold tuned. by case_match. Qed.

(** A receive-side operation that advertises its new window. *)
Lemma receiver_step total l r eff :
  Inv total l → window_ok r →
  bytes_consumed (receiver l) <= bytes_consumed r <= highest_received_byte_offset r →
  highest_received_byte_offset r = highest_received_byte_offset (receiver l) →
  receive_window_size r / 2 <= receive_window_offset r - bytes_consumed r →
  (receive_window_offset r = receive_window_offset (receiver l) ∧ sent_updates eff = []
   ∨ receive_window_offset (receiver l) <= receive_window_offset r
     ∧ sent_updates eff = [receive_window_offset r]) →
  Inv total (mk_link (sender l) r (updates l ++ sent_updates eff)).
Proof.
  intros [] Hok Hc Hh Hhalf Ho. split; cbn [sender receiver updates]; try done.
  - lia.
  - intros o [Hin|Hin]%elem_of_app; [specialize (inv_updates0 o Hin); lia|].
    destruct Ho as [[_ Ho2]|[_ Ho2]]; rewrite Ho2 in Hin.
    + by apply elem_of_nil in Hin.
    + apply list_elem_of_singleton in Hin. lia.
  - destruct Ho as [[Ho1 ->]|[Ho1 ->]].
    + rewrite Ho1, app_nil_r. done.
    + right. apply elem_of_app. right. by apply list_elem_of_singleton.
  - lia.
Qed.

Lemma link_step_inv total l l' : total < two62 → step total l l' → Inv total l → Inv total l'.
Proof.
  intros Htot Hstep HI. pose proof HI as []. pose proof inv_window0 as (?&?&?&?).
  destruct Hstep; cbn [sender receiver updates].
  - unfold SendWindowSize in *. unfold AddBytesSent, wrap64.
    rewrite Z.mod_small by (unfold two62, two64 in *; case_match; lia).
    destruct (Z.ltb_spec (send_window_offset (sender l)) (bytes_sent (sender l))); [lia|].
    destruct (Z.ltb_spec (send_window_offset (sender l)) (bytes_sent (sender l) + n)); [lia|].
    split; cbn [sender receiver updates]; fc_simpl; try done; lia.
  - unfold ShouldSendBlocked. destruct (_ || _); split; cbn [sender receiver updates]; fc_simpl; done.
  - unfold UpdateHighestReceivedOffset. case_match; [by split|].
    split; cbn [sender receiver updates]; fc_simpl; try done; lia.
  - pose proof (AddBytesConsumed_spec e (receiver l) n inv_window0) as Hs.
    specialize (Hs ltac:(lia) ltac:(lia) ltac:(lia)).
    destruct (AddBytesConsumed e (receiver l) n) as [r eff].
    destruct Hs as (Hok&Hc&Ho&Hz&Hhalf&(_&_&Hh&_&_&_)&Heff&Hadv). fc_simpl.
    apply receiver_step; try done; try lia. rewrite Heff.
    destruct (Z.ltb_spec (receive_window_offset (receiver l) - bytes_consumed (receiver l) - n)
      (receive_window_size (receiver l) / 2)).
    + right. split; [done|]. apply sent_updates_tuned.
    + by left.
  - pose proof (EnsureWindowAtLeast_spec (receiver l) w inv_window0 ltac:(lia)) as Hs.
    destruct (EnsureWindowAtLeast (receiver l) w) as [r eff]. destruct Hs as (Hok&Hsame&Hb).
    pose proof Hsame as (_&_&Hh&_&Hc&_). destruct (w <=? receive_window_size_limit (receiver l)).
    + destruct Hb as [-> ->]. apply receiver_step; try done; try lia. by left.
    + destruct Hb as (Hz&Ho&->). apply receiver_step; try done; try lia.
      * rewrite Ho, Hc. Z.to_euclidean_division_equations; lia.
      * right. split; [lia|done].
  - unfold UpdateSendWindowOffset. destruct (Z.leb_spec o (send_window_offset (sender l))); [done|].
    specialize (inv_updates0 o ltac:(done)) as Ho.
    split; cbn [sender receiver updates]; fc_simpl; try done; try lia.
    destruct inv_latest0 as [?|?]; [left; lia|by right].
Qed.

Lemma link_reachable_inv total l0 l :
  total < two62 → Inv total l0 → reachable total l0 l → Inv total l.
Proof. intros Ht H0. induction 1 as [|l l' _ IH Hs]; [done|]. by eapply link_step_inv. Qed.
End Link.

(** ** Properties *)

Import Link.

(** C13. Flow control is kept by construction. Whatever the network does with window updates,
    a sender that never exceeds its [SendWindowSize] is never told to close the connection, the
    receiver never sees a violation, and what the peer may still send never exceeds the receive
    window limit; and once the receiver has consumed what was sent and its last window update has
    arrived, the sender is not blocked (windows of at least two bytes). *)
Theorem no_violation_no_deadlock total window limit auto_tune l :
  0 <= total < two62 → 2 <= window <= limit → limit < two62 →
  reachable total (start window limit auto_tune) l →
  FlowControlViolation (receiver l) = false
  ∧ receive_window_offset (receiver l) - bytes_consumed (receiver l)
    <= receive_window_size (receiver l) <= receive_window_size_limit (receiver l)
  ∧ (∀ n, 0 <= n <= SendWindowSize (sender l) → (AddBytesSent (sender l) n).2 = [])
  ∧ (bytes_consumed (receiver l) = bytes_sent (sender l) →
     2 <= receive_window_size (receiver l) →
     let s' := (UpdateSendWindowOffset (sender l) (receive_window_offset (receiver l))).1 in
     IsBlocked s' = false ∧ receive_window_size (receiver l) / 2 <= SendWindowSize s').
Proof.
  intros Ht Hw Hl Hr. pose proof (link_reachable_inv total _ l ltac:(lia)
    (start_inv total window limit auto_tune ltac:(lia) ltac:(lia) Hl) Hr) as [].
  pose proof inv_window0 as (?&?&?&?).
  split; [unfold FlowControlViolation; lia|]. split; [lia|]. split.
  - intros n Hn. unfold AddBytesSent. revert Hn. unfold SendWindowSize, wrap64.
    case_match; [lia|]. intros Hn. rewrite Z.mod_small by (unfold two62, two64 in *; lia).
    by case_match; [lia|].
  - intros Hc Hz. cbv zeta. unfold UpdateSendWindowOffset, IsBlocked, SendWindowSize.
    assert (1 <= receive_window_size (receiver l) / 2) by (apply Z.div_le_lower_bound; lia).
    destruct (Z.leb_spec (receive_window_offset (receiver l)) (send_window_offset (sender l)));
      fc_simpl; case_match; lia.
Qed.

Lemma no_violation_no_deadlock_witness :
  let l0 := start 10 40 true in
  let l := mk_link (AddBytesSent (sender l0) 7).1 (receiver l0) (updates l0) in
  FlowControlViolation (receiver l) = false
  ∧ receive_window_offset (receiver l) - bytes_consumed (receiver l)
    <= receive_window_size (receiver l) <= receive_window_size_limit (receiver l)
  ∧ (∀ n, 0 <= n <= SendWindowSize (sender l) → (AddBytesSent (sender l) n).2 = [])
  ∧ (bytes_consumed (receiver l) = bytes_sent (sender l) →
     2 <= receive_window_size (receiver l) →
     let s' := (UpdateSendWindowOffset (sender l) (receive_window_offset (receiver l))).1 in
     IsBlocked s' = false ∧ receive_window_size (receiver l) / 2 <= SendWindowSize s').
Proof.
  intros l0 l. apply (no_violation_no_deadlock 100 10 40 true).
  - split; [discriminate|reflexivity].
  - split; discriminate.
  - reflexivity.
  - apply (reachable_step 100 l0 l0); [constructor|]. apply step_send; [split|]; discriminate.
Defined.

(** [AddBytesConsumed] keeps at least half of the receive window open: it sends a window
    update exactly when less than half is left, the new offset is then one whole window past what
    was consumed, the window itself at most doubles and stays within its limit, and the session
    is asked to follow exactly when it grew. *)
Theorem AddBytesConsumed_keeps_window_open e st n :
  window_ok st → 0 <= n → bytes_consumed st + n <= receive_window_offset st →
  bytes_consumed st + n < two62 →
  let '(st', eff) := AddBytesConsumed e st n in
  window_ok st'
  ∧ bytes_consumed st' = bytes_consumed st + n
  ∧ receive_window_size st' / 2 <= receive_window_offset st' - bytes_consumed st'
  ∧ receive_window_size st <= receive_window_size st'
    <= Z.min (2 * receive_window_size st) (receive_window_size_limit st)
  ∧ (if receive_window_offset st - bytes_consumed st - n <? receive_window_size st / 2
     then eff = tuned st st' ++ [SendWindowUpdate (receive_window_offset st')]
          ∧ receive_window_offset st < receive_window_offset st'
     else eff = [] ∧ receive_window_offset st' = receive_window_offset st).
Proof.
  intros Hok Hn Hc H62. pose proof (AddBytesConsumed_spec e st n Hok Hn Hc H62) as H.
  destruct (AddBytesConsumed e st n) as [st' eff].
  destruct H as (?&?&?&?&?&_&Heff&Hadv). split; [done|]. split; [done|]. split; [done|].
  split; [done|]. by case_match.
Qed.

Lemma AddBytesConsumed_keeps_window_open_witness :
  let st := new 100 100 400 true true in
  let '(st', eff) := AddBytesConsumed (mk_env 5 1000) st 51 in
  window_ok st'
  ∧ bytes_consumed st' = bytes_consumed st + 51
  ∧ receive_window_size st' / 2 <= receive_window_offset st' - bytes_consumed st'
  ∧ receive_window_size st <= receive_window_size st'
    <= Z.min (2 * receive_window_size st) (receive_window_size_limit st)
  ∧ (if receive_window_offset st - bytes_consumed st - 51 <? receive_window_size st / 2
     then eff = tuned st st' ++ [SendWindowUpdate (receive_window_offset st')]
          ∧ receive_window_offset st < receive_window_offset st'
     else eff = [] ∧ receive_window_offset st' = receive_window_offset st).
Proof.
  intros st. apply (AddBytesConsumed_keeps_window_open (mk_env 5 1000) st 51);
    unfold window_ok, st, two62; cbn; lia.
Defined.

Example auto_tuning_step :
  (AddBytesConsumed (mk_env 5 1000) (new 100 100 400 true true) 51).2
  = [EnsureSessionWindowAtLeast 300; SendWindowUpdate 251].
Proof. vm_compute. done. Qed.

(** [EnsureWindowAtLeast] does not do what its name and comment say: it compares the request
    with the limit instead of the window. A request the limit allows is ignored, whatever the
    window; one past the limit doubles the window up to the limit. So it never raises a smaller
    window to the size asked for. *)
Theorem EnsureWindowAtLeast_never_ensures st w :
  window_ok st → bytes_consumed st < two62 →
  let '(st', eff) := EnsureWindowAtLeast st w in
  (receive_window_size st < w → receive_window_size st' < w)
  ∧ (w <= receive_window_size_limit st → st' = st ∧ eff = [])
  ∧ (receive_window_size_limit st < w →
      receive_window_size st' = Z.min (2 * receive_window_size st) (receive_window_size_limit st)
      ∧ eff = [SendWindowUpdate (receive_window_offset st')]).
Proof.
  intros Hok Hc. pose proof (EnsureWindowAtLeast_spec st w Hok Hc) as H.
  destruct (EnsureWindowAtLeast st w) as [st' eff]. destruct H as (_&_&H).
  destruct (Z.leb_spec w (receive_window_size_limit st)) as [Hle|Hgt].
  - destruct H as [-> ->]. split; [done|]. split; [done|lia].
  - destruct H as (Hz&_&->). split; [lia|]. split; [lia|done].
Qed.

Lemma EnsureWindowAtLeast_never_ensures_witness :
  let st := new 100 100 400 true true in
  let '(st', eff) := EnsureWindowAtLeast st 300 in
  (receive_window_size st < 300 → receive_window_size st' < 300)
  ∧ (300 <= receive_window_size_limit st → st' = st ∧ eff = [])
  ∧ (receive_window_size_limit st < 300 →
      receive_window_size st' = Z.min (2 * receive_window_size st) (receive_window_size_limit st)
      ∧ eff = [SendWindowUpdate (receive_window_offset st')]).
Proof.
  intros st. apply (EnsureWindowAtLeast_never_ensures st 300);
    unfold window_ok, st, two62; cbn; lia.
Defined.
End FlowController.
