(* ===== verification/StreamIdManager.v ===== *)
(** [QuicStreamIdManager] (quic/core/quic_stream_id_manager.cc): the stream ids and stream limits
    of one direction, both the ids this endpoint opens and the ones its peer opens.

    Stream ids and counts are 32-bit, the limits a configuration asks for are [size_t]. The
    calls into the session and the connection are [effect]s in order. The set of ids the
    peer skipped ([available_streams_]) is a [gset]. *)

From stdpp Require Import gmap.
From S2P Require Import Prelude Bytes.

Module StreamIdManager.

Definition kMaxQuicStreamCount : Z := 4294967295.
Definition kMaxStreamsWindowDivisor : Z := 2.

Inductive Perspective := IS_SERVER | IS_CLIENT.

#[global] Instance Perspective_eq_dec : EqDecision Perspective.
Proof. solve_decision. Defined.

Definition InvertPerspective (p : Perspective) : Perspective :=
  match p with IS_SERVER => IS_CLIENT | IS_CLIENT => IS_SERVER end.

(** What the manager asks of the transport version. *)
Record version := mk_version { VersionHasIetfQuicFrames : bool; QuicVersionUsesCryptoFrames : bool }.

Definition GetInvalidStreamId (v : version) : Z :=
  if VersionHasIetfQuicFrames v then two32 - 1 else 0.

Definition StreamIdDelta (v : version) : Z := if VersionHasIetfQuicFrames v then 4 else 2.

Definition GetFirstBidirectionalStreamId (v : version) (p : Perspective) : Z :=
  if VersionHasIetfQuicFrames v then (if decide (p = IS_CLIENT) then 0 else 1) else
  if QuicVersionUsesCryptoFrames v then (if decide (p = IS_CLIENT) then 1 else 2) else
  (if decide (p = IS_CLIENT) then 3 else 2).

Definition GetFirstUnidirectionalStreamId (v : version) (p : Perspective) : Z :=
  if VersionHasIetfQuicFrames v then (if decide (p = IS_CLIENT) then 2 else 3) else
  if QuicVersionUsesCryptoFrames v then (if decide (p = IS_CLIENT) then 1 else 2) else
  (if decide (p = IS_CLIENT) then 3 else 2).

Definition GetMaxStreamCount (unidirectional : bool) (p : Perspective) : Z :=
  if negb unidirectional && (if decide (p = IS_CLIENT) then true else false)
  then Z.shiftr kMaxQuicStreamCount 2 else Z.shiftr kMaxQuicStreamCount 2 + 1.

(** What does not change: the session's perspective and version, and the direction. *)
Record config := mk_config { transport_version : version; perspective : Perspective; unidirectional : bool }.

Record t := mk {
  outgoing_max_streams : Z;
  next_outgoing_stream_id : Z;
  outgoing_stream_count : Z;
  outgoing_static_stream_count : Z;
  using_default_max_streams : bool;
  incoming_actual_max_streams : Z;
  incoming_advertised_max_streams : Z;
  incoming_initial_max_open_streams : Z;
  incoming_static_stream_count : Z;
  incoming_stream_count : Z;
  available_streams : gset Z;
  largest_peer_created_stream_id : Z;
  max_streams_window : Z;
}.

Inductive effect :=
  | CloseConnection
  | SendMaxStreams (stream_count : Z)
  | SendStreamsBlocked (stream_count : Z)
  | OnCanCreateNewOutgoingStream.

Section manager.
Context (c : config).

Definition max_count : Z := GetMaxStreamCount (unidirectional c) (perspective c).
Definition invalid : Z := GetInvalidStreamId (transport_version c).
Definition delta : Z := StreamIdDelta (transport_version c).

Definition GetFirstOutgoingStreamId : Z :=
  if unidirectional c then GetFirstUnidirectionalStreamId (transport_version c) (perspective c)
  else GetFirstBidirectionalStreamId (transport_version c) (perspective c).

Definition GetFirstIncomingStreamId : Z :=
  if unidirectional c
  then GetFirstUnidirectionalStreamId (transport_version c) (InvertPerspective (perspective c))
  else GetFirstBidirectionalStreamId (transport_version c) (InvertPerspective (perspective c)).

(** [CalculateIncomingMaxStreamsWindow]. *)
Definition window_for (actual : Z) : Z :=
  let w := actual / kMaxStreamsWindowDivisor in if w =? 0 then 1 else w.

Definition new (max_allowed_outgoing max_allowed_incoming : Z) : t :=
  mk max_allowed_outgoing GetFirstOutgoingStreamId 0 0 true
     max_allowed_incoming max_allowed_incoming max_allowed_incoming 0 0 ∅ invalid
     (window_for max_allowed_incoming).

Definition set_outgoing (st : t) max_ count next static default : t :=
  mk max_ next count static default (incoming_actual_max_streams st)
     (incoming_advertised_max_streams st) (incoming_initial_max_open_streams st)
     (incoming_static_stream_count st) (incoming_stream_count st) (available_streams st)
     (largest_peer_created_stream_id st) (max_streams_window st).

Definition set_incoming (st : t) actual advertised initial static count : t :=
  mk (outgoing_max_streams st) (next_outgoing_stream_id st) (outgoing_stream_count st)
     (outgoing_static_stream_count st) (using_default_max_streams st) actual advertised initial
     static count (available_streams st) (largest_peer_created_stream_id st) (max_streams_window st).

Definition set_window (st : t) w : t :=
  mk (outgoing_max_streams st) (next_outgoing_stream_id st) (outgoing_stream_count st)
     (outgoing_static_stream_count st) (using_default_max_streams st)
     (incoming_actual_max_streams st) (incoming_advertised_max_streams st)
     (incoming_initial_max_open_streams st) (incoming_static_stream_count st)
     (incoming_stream_count st) (available_streams st) (largest_peer_created_stream_id st) w.

Definition set_created (st : t) count available largest : t :=
  mk (outgoing_max_streams st) (next_outgoing_stream_id st) (outgoing_stream_count st)
     (outgoing_static_stream_count st) (using_default_max_streams st)
     (incoming_actual_max_streams st) (incoming_advertised_max_streams st)
     (incoming_initial_max_open_streams st) (incoming_static_stream_count st)
     count available largest (max_streams_window st).

(** ** Outgoing streams *)

Definition ConfigureMaxOpenOutgoingStreams (st : t) (max_open_streams : Z) : t * list effect * bool :=
  if using_default_max_streams st && (max_open_streams <? outgoing_stream_count st)
  then (st, [CloseConnection], false) else
  if negb (using_default_max_streams st) && (max_open_streams <=? outgoing_max_streams st)
  then (st, [], true) else
  (set_outgoing st (Z.min max_open_streams max_count) (outgoing_stream_count st)
     (next_outgoing_stream_id st) (outgoing_static_stream_count st) false, [], true).

Definition OnMaxStreamsFrame (st : t) (stream_count : Z) : t * list effect * bool :=
  let current_outgoing_max_streams := outgoing_max_streams st in
  match ConfigureMaxOpenOutgoingStreams st stream_count with
  | (st, eff, false) => (st, eff, false)
  | (st, eff, true) =>
      if (outgoing_stream_count st =? current_outgoing_max_streams)
         && (current_outgoing_max_streams <? outgoing_max_streams st)
      then (st, eff ++ [OnCanCreateNewOutgoingStream], true) else (st, eff, true)
  end.

Definition AdjustMaxOpenOutgoingStreams (st : t) (max_open_streams : Z) : t * list effect :=
  let sum := wrap64 (outgoing_static_stream_count st + max_open_streams) in
  if sum <? max_open_streams
  then (ConfigureMaxOpenOutgoingStreams st max_count).1
  else (ConfigureMaxOpenOutgoingStreams st sum).1.

Definition SetMaxOpenOutgoingStreams := AdjustMaxOpenOutgoingStreams.

Definition GetNextOutgoingStreamId (st : t) : t * Z :=
  (set_outgoing st (outgoing_max_streams st) (wrap32 (outgoing_stream_count st + 1))
     (wrap32 (next_outgoing_stream_id st + delta)) (outgoing_static_stream_count st)
     (using_default_max_streams st), next_outgoing_stream_id st).

Definition CanOpenNextOutgoingStream (st : t) : list effect * bool :=
  if outgoing_stream_count st <? outgoing_max_streams st then ([], true)
  else ([SendStreamsBlocked (outgoing_max_streams st)], false).

(** ** Incoming streams *)

Definition IsIncomingStream (st : t) (id : Z) : bool :=
  negb (Z.land id 1 =? Z.land (next_outgoing_stream_id st) 1).

Definition SendMaxStreamsFrame (st : t) : t * list effect :=
  (set_incoming st (incoming_actual_max_streams st) (incoming_actual_max_streams st)
     (incoming_initial_max_open_streams st) (incoming_static_stream_count st)
     (incoming_stream_count st), [SendMaxStreams (incoming_actual_max_streams st)]).

Definition MaybeSendMaxStreamsFrame (st : t) : t * list effect :=
  if max_streams_window st
     <? wrap32 (incoming_advertised_max_streams st - incoming_stream_count st)
  then (st, []) else SendMaxStreamsFrame st.

Definition OnStreamsBlockedFrame (st : t) (stream_count : Z) : t * list effect * bool :=
  if incoming_advertised_max_streams st <? stream_count then (st, [CloseConnection], false) else
  if stream_count <? incoming_actual_max_streams st
  then (SendMaxStreamsFrame st, true) else (st, [], true).

Definition SetMaxOpenIncomingStreams (st : t) (max_open_streams : Z) : t * list effect :=
  let new_max := Z.min max_count (wrap32 (max_open_streams + incoming_static_stream_count st)) in
  let new_max := if new_max <? max_open_streams then max_count else new_max in
  if new_max <? incoming_stream_count st then (st, [CloseConnection]) else
  (set_window (set_incoming st new_max new_max (Z.min max_open_streams max_count)
     (incoming_static_stream_count st) (incoming_stream_count st)) (window_for new_max), []).

Definition OnStreamClosed (st : t) (stream_id : Z) : t * list effect :=
  if negb (IsIncomingStream st stream_id) then (st, []) else
  if incoming_actual_max_streams st =? max_count then (st, []) else
  MaybeSendMaxStreamsFrame
    (set_incoming st (wrap32 (incoming_actual_max_streams st + 1))
       (incoming_advertised_max_streams st) (incoming_initial_max_open_streams st)
       (incoming_static_stream_count st) (incoming_stream_count st)).

Definition RegisterStaticStream (st : t) (stream_id : Z) (stream_already_counted : bool) : t * bool :=
  if IsIncomingStream st stream_id then
    if max_count <=? incoming_stream_count st then (st, false) else
    (set_incoming st
       (if incoming_actual_max_streams st <? max_count
        then incoming_actual_max_streams st + 1 else incoming_actual_max_streams st)
       (if incoming_advertised_max_streams st <? max_count
        then incoming_advertised_max_streams st + 1 else incoming_advertised_max_streams st)
       (incoming_initial_max_open_streams st) (incoming_static_stream_count st + 1)
       (if stream_already_counted then incoming_stream_count st else incoming_stream_count st + 1),
     true)
  else
    if max_count <=? outgoing_max_streams st then (st, false) else
    (set_outgoing st (outgoing_max_streams st + 1) (outgoing_stream_count st)
       (next_outgoing_stream_id st) (outgoing_static_stream_count st + 1)
       (using_default_max_streams st), true).

(** [for (; id < stream_id; id += delta) available_streams_.insert(id)]. *)
Fixpoint insert_available (fuel : nat) (id stream_id : Z) (s : gset Z) : gset Z :=
  match fuel with
  | O => s
  | S fuel => if id <? stream_id
              then insert_available fuel (id + delta) stream_id ({[id]} ∪ s) else s
  end.

Definition MaybeIncreaseLargestPeerStreamId (st : t) (stream_id : Z) : t * list effect * bool :=
  let available := available_streams st ∖ {[stream_id]} in
  let largest := largest_peer_created_stream_id st in
  let st := set_created st (incoming_stream_count st) available largest in
  if negb (largest =? invalid) && (stream_id <=? largest) then (st, [], true) else
  let stream_count_increment :=
    if negb (largest =? invalid) then wrap32 (stream_id - largest) / delta
    else wrap32 (wrap32 (stream_id - GetFirstIncomingStreamId) / delta + 1) in
  let count := wrap32 (incoming_stream_count st + stream_count_increment) in
  if (incoming_advertised_max_streams st <? count) || (count <? incoming_stream_count st)
  then (st, [CloseConnection], false) else
  let id := if negb (largest =? invalid) then largest + delta else GetFirstIncomingStreamId in
  (set_created st count
     (insert_available (Z.to_nat (stream_id - id)) id stream_id available) stream_id, [], true).

Definition IsAvailableStream (st : t) (id : Z) : bool :=
  if negb (IsIncomingStream st id) then next_outgoing_stream_id st <=? id else
  (largest_peer_created_stream_id st =? invalid)
  || (largest_peer_created_stream_id st <? id)
  || bool_decide (id ∈ available_streams st).

Definition available_incoming_streams (st : t) : Z :=
  wrap32 (incoming_advertised_max_streams st - incoming_stream_count st).


(** ** The life of a manager

    [opened] and [closed] are the ids the peer has opened and that were closed since, and
    [ids] the ids this endpoint has allocated, in order. The peer uses its own ids; the
    largest 32-bit number, which the code reserves as the invalid id, is not one. *)
Record world := mk_world { mgr : t; opened : gset Z; closed : gset Z; ids : list Z }.

Definition incoming_id (id : Z) : Prop :=
  0 <= id < two32 - 1 ∧ id mod 4 = GetFirstIncomingStreamId.

Inductive step : world → world → Prop :=
  | step_open w id st eff :
      incoming_id id → MaybeIncreaseLargestPeerStreamId (mgr w) id = (st, eff, true) →
      step w (mk_world st ({[id]} ∪ opened w) (closed w) (ids w))
  | step_close w id st eff :
      id ∈ opened w → id ∉ closed w → OnStreamClosed (mgr w) id = (st, eff) →
      step w (mk_world st (opened w) ({[id]} ∪ closed w) (ids w))
  | step_blocked w n st eff :
      OnStreamsBlockedFrame (mgr w) n = (st, eff, true) →
      step w (mk_world st (opened w) (closed w) (ids w))
  | step_max_streams w n st eff :
      0 <= n < two64 → OnMaxStreamsFrame (mgr w) n = (st, eff, true) →
      step w (mk_world st (opened w) (closed w) (ids w))
  | step_next w eff st id :
      CanOpenNextOutgoingStream (mgr w) = (eff, true) → GetNextOutgoingStreamId (mgr w) = (st, id) →
      step w (mk_world st (opened w) (closed w) (ids w ++ [id])).

Inductive reachable (max_out max_in : Z) : world → Prop :=
  | reachable_new : reachable max_out max_in (mk_world (new max_out max_in) ∅ ∅ [])
  | reachable_step w w' : reachable max_out max_in w → step w w' → reachable max_out max_in w'.

Context (Hietf : VersionHasIetfQuicFrames (transport_version c) = true).

Lemma first_ids :
  0 <= GetFirstIncomingStreamId < 4 ∧ 0 <= GetFirstOutgoingStreamId < 4
  ∧ GetFirstIncomingStreamId mod 2 ≠ GetFirstOutgoingStreamId mod 2.
Proof.
  unfold GetFirstIncomingStreamId, GetFirstOutgoingStreamId, GetFirstBidirectionalStreamId,
    GetFirstUnidirectionalStreamId. rewrite Hietf.
  destruct (unidirectional c), (perspective c); cbn [InvertPerspective];
    repeat case_decide; try done; lia.
Qed.

Lemma invalid_delta : invalid = two32 - 1 ∧ delta = 4.
Proof. unfold invalid, delta, GetInvalidStreamId, StreamIdDelta. by rewrite Hietf. Qed.

Lemma max_count_bounds : 2 ^ 30 - 1 <= max_count <= 2 ^ 30.
Proof.
  unfold max_count, GetMaxStreamCount. case_match; vm_compute; split; discriminate.
Qed.

Lemma land_1 z : Z.land z 1 = z mod 2.
Proof. by apply (Z.land_ones z 1). Qed.

(** An incoming id is number [id / 4] of its kind. *)
Lemma incoming_id_shape id : incoming_id id → id = 4 * (id / 4) + GetFirstIncomingStreamId.
Proof. intros [_ H]. pose proof (Z.div_mod id 4 ltac:(lia)). lia. Qed.

Lemma elem_of_insert_available fuel id stream_id s x :
  stream_id - id <= Z.of_nat fuel →
  x ∈ insert_available fuel id stream_id s
  ↔ x ∈ s ∨ (id <= x < stream_id ∧ (x - id) mod 4 = 0).
Proof.
  destruct invalid_delta as [_ Hd].
  revert id s. induction fuel as [|fuel IH]; intros id s Hf; cbn [insert_available].
  { split; [by left|]. intros [?|[? _]]; [done|lia]. }
  rewrite Hd. destruct (Z.ltb_spec id stream_id).
  - rewrite IH by lia. rewrite elem_of_union, elem_of_singleton.
    assert (Hm : (x - (id + 4)) mod 4 = (x - id) mod 4).
    { replace (x - id) with (x - (id + 4) + 1 * 4) by lia. by rewrite Z.mod_add. }
    rewrite Hm. split.
    + intros [[->|?]|[? ?]]; [|by left|right; lia]. right. rewrite Z.sub_diag. split; [lia|done].
    + intros [?|[Hx Hxm]]; [by left; right|].
      destruct (Z.eq_dec x id) as [->|]; [by left; left|]. right. split; [|done].
      Z.to_euclidean_division_equations. lia.
  - split; [by left|]. intros [?|[? _]]; [done|lia].
Qed.

(** ** The invariant *)

(** Which ids were opened, in the manager's own terms. *)
Definition created (st : t) (op : gset Z) : Prop :=
  (largest_peer_created_stream_id st = invalid ∧ op = ∅ ∧ available_streams st = ∅
   ∧ incoming_stream_count st = 0)
  ∨ (incoming_id (largest_peer_created_stream_id st)
     ∧ largest_peer_created_stream_id st ∈ op
     ∧ incoming_stream_count st = largest_peer_created_stream_id st / 4 + 1
     ∧ (∀ x, x ∈ op → incoming_id x ∧ x <= largest_peer_created_stream_id st)
     ∧ ∀ x, x ∈ available_streams st
         ↔ incoming_id x ∧ x < largest_peer_created_stream_id st ∧ x ∉ op).

Record Inv (max_in : Z) (w : world) : Prop := {
  inv_created : created (mgr w) (opened w);
  inv_closed : closed w ⊆ opened w;
  inv_limits :
    0 <= incoming_stream_count (mgr w) <= incoming_advertised_max_streams (mgr w)
    ∧ incoming_advertised_max_streams (mgr w) <= incoming_actual_max_streams (mgr w)
    ∧ incoming_actual_max_streams (mgr w) <= max_count
    ∧ incoming_actual_max_streams (mgr w) <= max_in + Z.of_nat (size (closed w));
  inv_window : 1 <= max_streams_window (mgr w);
  inv_static : incoming_static_stream_count (mgr w) = 0;
  inv_outgoing :
    outgoing_stream_count (mgr w) = zlen (ids w)
    ∧ zlen (ids w) <= outgoing_max_streams (mgr w) <= max_count
    ∧ next_outgoing_stream_id (mgr w) = wrap32 (GetFirstOutgoingStreamId + 4 * zlen (ids w))
    ∧ ids w = (λ k, GetFirstOutgoingStreamId + 4 * k) <$> seqZ 0 (zlen (ids w));
}.

Lemma next_parity max_in w : Inv max_in w →
  next_outgoing_stream_id (mgr w) mod 2 = GetFirstOutgoingStreamId mod 2.
Proof.
  intros [_ _ _ _ _ (_&_&->&_)]. unfold wrap32, two32. Z.to_euclidean_division_equations. lia.
Qed.

Lemma incoming_is_incoming max_in w id :
  Inv max_in w → incoming_id id → IsIncomingStream (mgr w) id = true.
Proof.
  intros HI [_ Hid]. unfold IsIncomingStream. rewrite !land_1, (next_parity _ _ HI).
  destruct first_ids as (Hf1&Hf2&Hne).
  assert (id mod 2 = GetFirstIncomingStreamId mod 2).
  { rewrite <-Hid. Z.to_euclidean_division_equations. lia. }
  destruct (Z.eqb_spec (id mod 2) (GetFirstOutgoingStreamId mod 2)); [congruence|done].
Qed.

Lemma new_inv max_out max_in :
  0 <= max_out <= max_count → 0 <= max_in <= max_count →
  Inv max_in (mk_world (new max_out max_in) ∅ ∅ []).
Proof.
  intros Ho Hi. split; cbn [mgr opened closed ids new max_streams_window incoming_stream_count
    incoming_advertised_max_streams incoming_actual_max_streams incoming_static_stream_count
    outgoing_stream_count outgoing_max_streams next_outgoing_stream_id].
  - by left.
  - done.
  - rewrite size_empty. lia.
  - unfold window_for, kMaxStreamsWindowDivisor. case_match; [lia|].
    Z.to_euclidean_division_equations. lia.
  - done.
  - change (zlen (@nil Z)) with 0. destruct first_ids as (_&?&_). split; [done|]. split; [lia|]. split; [|done].
    unfold wrap32, two32. rewrite Z.mod_small; lia.
Qed.

Ltac sm_simpl := cbn [outgoing_max_streams next_outgoing_stream_id outgoing_stream_count
  outgoing_static_stream_count using_default_max_streams incoming_actual_max_streams
  incoming_advertised_max_streams incoming_initial_max_open_streams incoming_static_stream_count
  incoming_stream_count available_streams largest_peer_created_stream_id max_streams_window
  set_outgoing set_incoming set_window set_created mgr opened closed ids] in *.

(** The ids between the largest one and a new one. *)
Lemma between_ids lo id x :
  incoming_id id → incoming_id lo ∨ lo = GetFirstIncomingStreamId - 4 →
  lo + 4 <= x < id ∧ (x - (lo + 4)) mod 4 = 0 ↔ incoming_id x ∧ lo < x < id.
Proof.
  intros [Hid1 Hid2] Hlo. destruct first_ids as (Hf&_&_). unfold incoming_id, two32 in *.
  assert (Hm : lo mod 4 = GetFirstIncomingStreamId mod 4).
  { destruct Hlo as [[_ ->]| ->]; Z.to_euclidean_division_equations; lia. }
  assert (lo + 4 >= 0) by (destruct Hlo as [[? _]| ->]; lia).
  split; intros [H1 H2]; (split; [|]); Z.to_euclidean_division_equations; lia.
Qed.

Lemma incoming_id_index id : incoming_id id → 0 <= id / 4 < 2 ^ 30.
Proof. intros [? _]. unfold two32 in *. ground_pow. Z.to_euclidean_division_equations; lia. Qed.

(** [MaybeIncreaseLargestPeerStreamId] accepts exactly the ids the advertised limit allows. *)
Lemma MaybeIncrease_spec max_in w id :
  Inv max_in w → incoming_id id →
  let '(st, eff, ok) := MaybeIncreaseLargestPeerStreamId (mgr w) id in
  ok = (id / 4 <? incoming_advertised_max_streams (mgr w))
  ∧ eff = (if ok then [] else [CloseConnection])
  ∧ (ok = true → ∃ count available largest, st = set_created (mgr w) count available largest
      ∧ created st ({[id]} ∪ opened w)
      ∧ incoming_stream_count (mgr w) <= count <= incoming_advertised_max_streams (mgr w)).
Proof.
  intros HI Hid. pose proof HI as [Hcr _ Hlim _ _ _]. destruct invalid_delta as [Hinv Hd].
  pose proof max_count_bounds as Hmax. pose proof (incoming_id_shape id Hid) as Hsh.
  destruct first_ids as (Hf&_&_). pose proof Hid as [Hid1 _].
  pose proof (incoming_id_index id Hid) as Hq.
  unfold MaybeIncreaseLargestPeerStreamId. rewrite Hd.
  set (avail := available_streams (mgr w) ∖ {[id]}).
  destruct Hcr as [(El&Eop&Eav&Ec)|(Hlv&Hlop&Ec&Hop&Hav)].
  - rewrite El, Z.eqb_refl. cbn [negb andb]. sm_simpl. rewrite Ec.
    assert (E : wrap32 (0 + wrap32 (wrap32 (id - GetFirstIncomingStreamId) / 4 + 1)) = id / 4 + 1).
    { unfold wrap32, two32 in *. rewrite (Z.mod_small (id - _)) by lia.
      replace ((id - GetFirstIncomingStreamId) / 4) with (id / 4).
      - ground_pow. rewrite (Z.mod_small (id / 4 + 1)) by lia. rewrite Z.mod_small; lia.
      - replace (id - GetFirstIncomingStreamId) with (id / 4 * 4) by lia. by rewrite Z.div_mul. }
    rewrite E. replace (id / 4 + 1 <? 0) with false by lia.
    rewrite orb_false_r. destruct (Z.ltb_spec (incoming_advertised_max_streams (mgr w)) (id / 4 + 1)).
    { split; [lia|]. split; done. }
    split; [lia|]. split; [done|]. intros _. eexists _, _, _. split; [done|].
    split; [|lia]. right. sm_simpl.
    split; [done|]. split; [set_solver|]. split; [done|]. split; [set_solver by lia|].
    intros x. rewrite elem_of_insert_available by lia. unfold avail. rewrite Eav, Eop.
    pose proof (between_ids (GetFirstIncomingStreamId - 4) id x Hid (or_intror eq_refl)) as Hb.
    replace (GetFirstIncomingStreamId - 4 + 4) with GetFirstIncomingStreamId in Hb by lia.
    rewrite Hb. split.
    + intros [?|[? ?]]; [set_solver|]. split; [done|]. split; [lia|]. set_solver by lia.
    + intros (Hx&?&_). right. split; [done|]. destruct Hx as [? _]. lia.
  - assert (Hne : largest_peer_created_stream_id (mgr w) =? invalid = false).
    { destruct Hlv as [? _]. lia. }
    rewrite Hne. cbn [negb andb]. sm_simpl. pose proof (incoming_id_shape _ Hlv) as Hlsh.
    set (lg := largest_peer_created_stream_id (mgr w)) in *. rewrite Ec in *.
    pose proof Hlv as [Hlv1 _].
    destruct (Z.leb_spec id lg) as [Hle|Hgt].
    + assert (id / 4 <= lg / 4) by (apply Z.div_le_mono; lia).
      split; [lia|]. split; [done|]. intros _. eexists _, _, _. split; [done|].
      split; [|lia]. right. sm_simpl. fold lg.
      split; [done|]. split; [apply elem_of_union; by right|]. split; [done|].
      split; [intros x; rewrite elem_of_union, elem_of_singleton; intros [->|Hx%Hop]; done|].
      intros x. unfold avail. rewrite elem_of_difference, Hav, elem_of_union, elem_of_singleton.
      tauto.
    + assert (E : wrap32 (lg / 4 + 1 + wrap32 (id - lg) / 4) = id / 4 + 1).
      { unfold wrap32, two32 in *. rewrite (Z.mod_small (id - lg)) by lia.
        replace ((id - lg) / 4) with (id / 4 - lg / 4).
        - pose proof (incoming_id_index lg Hlv). ground_pow. rewrite Z.mod_small; lia.
        - replace (id - lg) with ((id / 4 - lg / 4) * 4) by lia. by rewrite Z.div_mul. }
      rewrite E. assert (lg / 4 <= id / 4) by (apply Z.div_le_mono; lia).
      replace (id / 4 + 1 <? lg / 4 + 1) with false by lia.
      rewrite orb_false_r. destruct (Z.ltb_spec (incoming_advertised_max_streams (mgr w)) (id / 4 + 1)).
      { split; [lia|]. split; done. }
      split; [lia|]. split; [done|]. intros _. eexists _, _, _. split; [done|].
      split; [|lia]. right. sm_simpl.
      split; [done|]. split; [apply elem_of_union; left; by apply elem_of_singleton|]. split; [done|].
      split; [intros x; rewrite elem_of_union, elem_of_singleton; intros [->|[? ?]%Hop]; [done|split; [done|lia]]|].
      intros x. rewrite elem_of_insert_available by lia.
      rewrite (between_ids lg id x Hid (or_introl Hlv)).
      unfold avail. rewrite elem_of_difference, Hav, elem_of_union, !elem_of_singleton.
      split.
      * intros [[(Hx&Hxl&Hxo) Hxid]|[Hx ?]]; [split; [done|]; split; [lia|tauto]|].
        split; [done|]. split; [lia|]. intros [->|[_ ?]%Hop]; lia.
      * intros (Hx&Hxid&Hxo). destruct (Z.lt_trichotomy x lg) as [?|[->|?]]; [left|tauto|right].
        -- split; [|lia]. split; [done|]. split; [done|]. tauto.
        -- split; [done|lia].
Qed.

Lemma OnStreamClosed_spec max_in w id :
  Inv max_in w → incoming_id id →
  let '(st, eff) := OnStreamClosed (mgr w) id in
  ∃ actual advertised,
    st = set_incoming (mgr w) actual advertised (incoming_initial_max_open_streams (mgr w))
           (incoming_static_stream_count (mgr w)) (incoming_stream_count (mgr w))
    ∧ actual = Z.min max_count (incoming_actual_max_streams (mgr w) + 1)
    ∧ incoming_advertised_max_streams (mgr w) <= advertised <= actual
    ∧ (incoming_actual_max_streams (mgr w) < max_count → incoming_stream_count (mgr w) < advertised)
    ∧ eff = (if advertised =? incoming_advertised_max_streams (mgr w) then [] else [SendMaxStreams advertised]).
Proof.
  intros HI Hid. pose proof HI as [_ _ (Hl1&Hl2&Hl3&_) Hw _ _]. pose proof max_count_bounds as Hm.
  unfold OnStreamClosed. rewrite (incoming_is_incoming _ _ _ HI Hid). cbn [negb].
  ground_pow. destruct (Z.eqb_spec (incoming_actual_max_streams (mgr w)) max_count).
  { exists (incoming_actual_max_streams (mgr w)), (incoming_advertised_max_streams (mgr w)).
    split; [by destruct (mgr w)|]. split; [lia|]. split; [lia|]. split; [lia|]. by rewrite Z.eqb_refl. }
  assert (E : wrap32 (incoming_actual_max_streams (mgr w) + 1) = incoming_actual_max_streams (mgr w) + 1).
  { unfold wrap32, two32. rewrite Z.mod_small; lia. }
  rewrite E. unfold MaybeSendMaxStreamsFrame. sm_simpl. unfold wrap32, two32.
  rewrite Z.mod_small by lia.
  destruct (Z.ltb_spec (max_streams_window (mgr w))
    (incoming_advertised_max_streams (mgr w) - incoming_stream_count (mgr w))).
  - exists (incoming_actual_max_streams (mgr w) + 1), (incoming_advertised_max_streams (mgr w)).
    split; [done|]. split; [lia|]. split; [lia|]. split; [lia|]. by rewrite Z.eqb_refl.
  - exists (incoming_actual_max_streams (mgr w) + 1), (incoming_actual_max_streams (mgr w) + 1).
    unfold SendMaxStreamsFrame. sm_simpl. split; [done|]. split; [lia|]. split; [lia|]. split; [lia|].
    by case_match; [lia|].
Qed.

Lemma OnMaxStreamsFrame_spec max_in w n st eff :
  Inv max_in w → 0 <= n < two64 → OnMaxStreamsFrame (mgr w) n = (st, eff, true) →
  ∃ m default, st = set_outgoing (mgr w) m (outgoing_stream_count (mgr w))
      (next_outgoing_stream_id (mgr w)) (outgoing_static_stream_count (mgr w)) default
    ∧ outgoing_stream_count (mgr w) <= m <= max_count
    ∧ (using_default_max_streams (mgr w) = false → outgoing_max_streams (mgr w) <= m)
    ∧ (using_default_max_streams (mgr w) = false → m = Z.max (outgoing_max_streams (mgr w)) (Z.min n max_count))
    ∧ (using_default_max_streams (mgr w) = true → m = Z.min n max_count).
Proof.
  intros [_ _ _ _ _ (Hc&Hm&_)] Hn. unfold OnMaxStreamsFrame, ConfigureMaxOpenOutgoingStreams.
  rewrite <-Hc in Hm.
  assert (Hsame : mgr w = set_outgoing (mgr w) (outgoing_max_streams (mgr w)) (outgoing_stream_count (mgr w))
      (next_outgoing_stream_id (mgr w)) (outgoing_static_stream_count (mgr w)) (using_default_max_streams (mgr w)))
    by by destruct (mgr w).
  destruct (using_default_max_streams (mgr w)) eqn:Ed; cbn [negb andb].
  - destruct (Z.ltb_spec n (outgoing_stream_count (mgr w))); [done|]. sm_simpl. intros Hst.
    exists (Z.min n max_count), false. split; [by case_match; simplify_eq|].
    split; [lia|]. split; [done|]. split; done.
  - destruct (Z.leb_spec n (outgoing_max_streams (mgr w))); sm_simpl; intros Hst.
    + exists (outgoing_max_streams (mgr w)), false.
      split; [case_match; simplify_eq; exact Hsame|]. split; [lia|]. split; [lia|]. split; [lia|done].
    + exists (Z.min n max_count), false. split; [by case_match; simplify_eq|].
      split; [lia|]. split; [lia|]. split; [lia|done].
Qed.

Lemma step_inv max_in w w' : 0 <= max_in <= max_count → step w w' → Inv max_in w → Inv max_in w'.
Proof.
  intros Hmi Hstep HI. pose proof HI as [Hcr Hcl Hlim Hwin Hst Hout].
  destruct Hstep as [w id st eff Hid E|w id st eff Hid Hnc E|w n st eff E|w n st eff Hn E|w eff st id Ecan E].
  - pose proof (MaybeIncrease_spec max_in w id HI Hid) as Hs. rewrite E in Hs.
    destruct Hs as (_&_&Hs). destruct (Hs eq_refl) as (cnt&av&lg&->&Hcr'&Hcnt).
    split; sm_simpl; try done; [set_solver|lia].
  - assert (Hin : incoming_id id) by (destruct Hcr as [(_&E0&_)|(_&_&_&Hop&_)]; [rewrite E0 in Hid; set_solver|by apply Hop]).
    pose proof (OnStreamClosed_spec max_in w id HI Hin) as Hs. rewrite E in Hs.
    destruct Hs as (ac&ad&->&Hac&Had&_&_).
    split; sm_simpl; try done; [set_solver|].
    rewrite size_union by set_solver. rewrite size_singleton. lia.
  - unfold OnStreamsBlockedFrame, SendMaxStreamsFrame in E. repeat case_match; simplify_eq.
    + split; sm_simpl; try done. lia.
    + by split.
  - destruct (OnMaxStreamsFrame_spec max_in w n st eff HI Hn E) as (m&d&->&Hm&_&_&_).
    destruct Hout as (Hc&Hmx&Hnx&Hids). split; sm_simpl; try done. rewrite <-Hc in *.
    split; [done|]. split; [lia|]. done.
  - unfold CanOpenNextOutgoingStream in Ecan. case_match; [|done]. clear Ecan.
    destruct Hout as (Hc&Hmx&Hnx&Hids). destruct first_ids as (_&Hf&_). pose proof max_count_bounds.
    unfold GetNextOutgoingStreamId in E. destruct invalid_delta as [_ Hd]. simplify_eq.
    rewrite Hd. pose proof (zlen_nonneg (ids w)). ground_pow.
    split; sm_simpl; try done. rewrite zlen_app. change (zlen [_]) with 1. rewrite Hc, Hnx.
    unfold wrap32, two32. split; [rewrite Z.mod_small; lia|]. split; [lia|].
    split; [rewrite Zplus_mod_idemp_l; f_equal; lia|].
    rewrite seqZ_app by lia. rewrite fmap_app, <-Hids. f_equal. rewrite Z.mod_small by lia. done.
Qed.

Lemma reachable_inv max_out max_in w :
  0 <= max_out <= max_count → 0 <= max_in <= max_count → reachable max_out max_in w → Inv max_in w.
Proof.
  intros Ho Hi. induction 1 as [|w w' _ IH Hs]; [by apply new_inv|by eapply step_inv].
Qed.

(** No more ids were opened than are counted. *)
Lemma opened_size max_in w : Inv max_in w → Z.of_nat (size (opened w)) <= incoming_stream_count (mgr w).
Proof.
  intros [[(_&->&_&->)|(Hl&_&->&Hop&_)] _ _ _ _ _]; [by rewrite size_empty|].
  set (n := largest_peer_created_stream_id (mgr w) / 4 + 1).
  assert (0 <= n) by (pose proof (incoming_id_index _ Hl); lia).
  assert (Hsub : opened w ⊆ list_to_set ((λ k, 4 * k + GetFirstIncomingStreamId) <$> seqZ 0 n)).
  { intros x Hx. destruct (Hop x Hx) as [Hxi Hxl]. apply elem_of_list_to_set, list_elem_of_fmap.
    exists (x / 4). split; [by apply incoming_id_shape|]. apply elem_of_seqZ.
    pose proof (incoming_id_index x Hxi). pose proof (Z.div_le_mono x _ 4 ltac:(lia) Hxl). lia. }
  apply subseteq_size in Hsub. rewrite size_list_to_set in Hsub.
  - rewrite length_fmap, length_seqZ in Hsub. lia.
  - apply NoDup_fmap_2; [intros ???; lia|apply NoDup_seqZ].
Qed.

Lemma IsAvailableStream_spec max_in w id :
  Inv max_in w → incoming_id id → IsAvailableStream (mgr w) id = negb (bool_decide (id ∈ opened w)).
Proof.
  intros HI Hid. pose proof HI as [Hcr _ _ _ _ _]. unfold IsAvailableStream.
  rewrite (incoming_is_incoming _ _ _ HI Hid). cbn [negb].
  destruct Hcr as [(->&->&_&_)|(Hl&Hlo&_&Hop&Hav)].
  - rewrite Z.eqb_refl. cbn [orb]. rewrite (bool_decide_eq_false_2 (id ∈ (∅ : gset Z))); [done|set_solver].
  - destruct invalid_delta as [Hinv _]. pose proof Hl as [? _].
    destruct (Z.eqb_spec (largest_peer_created_stream_id (mgr w)) invalid); [lia|]. cbn [orb].
    destruct (Z.ltb_spec (largest_peer_created_stream_id (mgr w)) id) as [Hlt|Hle]; cbn [orb].
    { rewrite bool_decide_eq_false_2; [done|]. intros [_ ?]%Hop. lia. }
    destruct (decide (id ∈ opened w)) as [Hin|Hout].
    + rewrite (bool_decide_eq_true_2 (id ∈ opened w)) by done.
      rewrite bool_decide_eq_false_2; [done|]. rewrite Hav. tauto.
    + rewrite (bool_decide_eq_false_2 (id ∈ opened w)) by done.
      rewrite bool_decide_eq_true_2; [done|]. apply Hav. split; [done|]. split; [|done].
      assert (id ≠ largest_peer_created_stream_id (mgr w)) by congruence. lia.
Qed.

(** ** Properties *)

(** C35. Incoming streams. After any history of opens, closes and frames: an id of the peer is
    available exactly when the peer has not opened it, whatever ids it skipped; a new id is
    accepted exactly when its number is below the limit advertised, and otherwise the connection
    is closed; and no more than the configured number of streams are open at once. *)
Theorem incoming_streams_correct max_out max_in w id :
  0 <= max_out <= max_count → 0 <= max_in <= max_count → reachable max_out max_in w → incoming_id id →
  IsAvailableStream (mgr w) id = negb (bool_decide (id ∈ opened w))
  ∧ (let '(_, eff, ok) := MaybeIncreaseLargestPeerStreamId (mgr w) id in
     ok = (id / 4 <? incoming_advertised_max_streams (mgr w))
     ∧ eff = (if ok then [] else [CloseConnection]))
  ∧ Z.of_nat (size (opened w)) - Z.of_nat (size (closed w)) <= max_in
  ∧ incoming_advertised_max_streams (mgr w) <= max_in + Z.of_nat (size (closed w)).
Proof.
  intros Ho Hi Hr Hid. pose proof (reachable_inv _ _ _ Ho Hi Hr) as HI.
  split; [by eapply IsAvailableStream_spec|]. split.
  - pose proof (MaybeIncrease_spec max_in w id HI Hid) as Hs.
    destruct (MaybeIncreaseLargestPeerStreamId (mgr w) id) as [[st eff] ok].
    destruct Hs as (?&?&_). done.
  - pose proof (opened_size max_in w HI). destruct HI as [_ _ Hl _ _ _]. lia.
Qed.

(** Stream credit. When a stream of the peer closes, the limit never shrinks, a MAX_STREAMS
    frame is sent exactly when the advertised limit moves, and unless the implementation's limit
    is reached the peer may open another stream afterwards; a peer that says it is blocked is told
    the actual limit, and one that claims more than it was given has the connection closed. *)
Theorem closing_gives_credit max_out max_in w id n :
  0 <= max_out <= max_count → 0 <= max_in <= max_count → reachable max_out max_in w →
  id ∈ opened w → 0 <= n →
  (let '(st, eff) := OnStreamClosed (mgr w) id in
   incoming_advertised_max_streams (mgr w) <= incoming_advertised_max_streams st
   ∧ eff = (if incoming_advertised_max_streams st =? incoming_advertised_max_streams (mgr w)
            then [] else [SendMaxStreams (incoming_advertised_max_streams st)])
   ∧ (incoming_actual_max_streams (mgr w) < max_count → 0 < available_incoming_streams st))
  ∧ (let '(st, eff, ok) := OnStreamsBlockedFrame (mgr w) n in
     ok = (n <=? incoming_advertised_max_streams (mgr w))
     ∧ eff = (if negb ok then [CloseConnection] else
              if n <? incoming_actual_max_streams (mgr w)
              then [SendMaxStreams (incoming_actual_max_streams (mgr w))] else [])).
Proof.
  intros Ho Hi Hr Hid Hn. pose proof (reachable_inv _ _ _ Ho Hi Hr) as HI.
  pose proof HI as [Hcr _ (?&?&?&_) _ _ _]. pose proof max_count_bounds as Hm. ground_pow. split.
  - assert (Hin : incoming_id id).
    { destruct Hcr as [(_&E0&_)|(_&_&_&Hop&_)]; [rewrite E0 in Hid; set_solver|by apply Hop]. }
    pose proof (OnStreamClosed_spec max_in w id HI Hin) as Hs.
    destruct (OnStreamClosed (mgr w) id) as [st eff]. destruct Hs as (ac&ad&->&Hac&Had&Hcr'&->).
    sm_simpl. split; [lia|]. split; [done|]. intros Hlt. specialize (Hcr' Hlt).
    unfold available_incoming_streams, wrap32, two32. sm_simpl. rewrite Z.mod_small; lia.
  - unfold OnStreamsBlockedFrame, SendMaxStreamsFrame.
    destruct (Z.ltb_spec (incoming_advertised_max_streams (mgr w)) n).
    + split; [lia|done].
    + destruct (n <? incoming_actual_max_streams (mgr w)); (split; [lia|done]).
Qed.

(** Outgoing streams. The ids handed out are exactly the first ids of this endpoint's kind,
    in order and each once, never more than the peer allows (past that, STREAMS_BLOCKED is sent);
    the first MAX_STREAMS sets the limit - unless it is below the streams already open, which
    closes the connection - and later ones only raise it, to at most the implementation's limit. *)
Theorem outgoing_streams_correct max_out max_in w n :
  0 <= max_out <= max_count → 0 <= max_in <= max_count → reachable max_out max_in w → 0 <= n < two64 →
  ids w = (λ k, GetFirstOutgoingStreamId + 4 * k) <$> seqZ 0 (zlen (ids w))
  ∧ zlen (ids w) <= outgoing_max_streams (mgr w) <= max_count
  ∧ CanOpenNextOutgoingStream (mgr w)
    = (if zlen (ids w) <? outgoing_max_streams (mgr w) then ([], true)
       else ([SendStreamsBlocked (outgoing_max_streams (mgr w))], false))
  ∧ (let '(st, eff, ok) := OnMaxStreamsFrame (mgr w) n in
     if using_default_max_streams (mgr w)
     then ok = (zlen (ids w) <=? n) ∧ (ok = true → outgoing_max_streams st = Z.min n max_count)
     else ok = true
          ∧ outgoing_max_streams st = Z.max (outgoing_max_streams (mgr w)) (Z.min n max_count)).
Proof.
  intros Ho Hi Hr Hn. pose proof (reachable_inv _ _ _ Ho Hi Hr) as HI.
  pose proof HI as [_ _ _ _ _ (Hc&Hm&_&Hids)]. split; [exact Hids|]. split; [exact Hm|].
  unfold CanOpenNextOutgoingStream. rewrite Hc. split; [done|].
  assert (Hok : (OnMaxStreamsFrame (mgr w) n).2
    = negb (using_default_max_streams (mgr w)) || (zlen (ids w) <=? n)).
  { unfold OnMaxStreamsFrame, ConfigureMaxOpenOutgoingStreams. rewrite <-Hc.
    destruct (using_default_max_streams (mgr w)); cbn [negb andb orb].
    - destruct (Z.ltb_spec n (outgoing_stream_count (mgr w))), (Z.leb_spec (outgoing_stream_count (mgr w)) n);
        try lia; [done|]. by case_match.
    - by destruct (n <=? _); case_match. }
  destruct (OnMaxStreamsFrame (mgr w) n) as [[st eff] ok] eqn:E. cbn [snd] in Hok.
  pose proof (OnMaxStreamsFrame_spec max_in w n st eff HI Hn) as Hs.
  destruct (using_default_max_streams (mgr w)) eqn:Ed; cbn [negb orb] in Hok.
  - split; [done|]. intros ->. destruct (Hs E) as (m&d&->&_&_&_&Hm'). sm_simpl. by apply Hm'.
  - rewrite Hok in *. split; [done|]. destruct (Hs E) as (m&d&->&_&_&Hm'&_). sm_simpl. by apply Hm'.
Qed.
End manager.

(** A server's manager of client-initiated bidirectional streams. *)
Definition demo_config : config := mk_config (mk_version true true) IS_SERVER false.

(** The peer opens stream number 2, then number 0. *)
Definition demo_world0 : world := mk_world (new demo_config 3 4) ∅ ∅ [].
Definition demo_world1 : world :=
  mk_world (MaybeIncreaseLargestPeerStreamId demo_config (mgr demo_world0) 8).1.1
    ({[8]} ∪ opened demo_world0) ∅ [].
Definition demo_world : world :=
  mk_world (MaybeIncreaseLargestPeerStreamId demo_config (mgr demo_world1) 0).1.1
    ({[0]} ∪ opened demo_world1) ∅ [].

Lemma demo_reachable : reachable demo_config 3 4 demo_world.
Proof.
  apply (reachable_step _ _ _ demo_world1); [apply (reachable_step _ _ _ demo_world0); [constructor|]|].
  - apply (step_open demo_config demo_world0 8 _ []); [|reflexivity].
    split; [split; [discriminate|reflexivity]|reflexivity].
  - apply (step_open demo_config demo_world1 0 _ []); [|reflexivity].
    split; [split; [discriminate|reflexivity]|reflexivity].
Qed.

Example demo_available :
  IsAvailableStream demo_config (mgr demo_world) 4 = true
  ∧ IsAvailableStream demo_config (mgr demo_world) 0 = false
  ∧ incoming_stream_count (mgr demo_world) = 3
  ∧ (OnStreamClosed demo_config (mgr demo_world) 0).2 = [SendMaxStreams 5].
Proof. vm_compute. done. Qed.

Lemma incoming_streams_correct_witness :
  IsAvailableStream demo_config (mgr demo_world) 4 = negb (bool_decide (4 ∈ opened demo_world))
  ∧ (let '(_, eff, ok) := MaybeIncreaseLargestPeerStreamId demo_config (mgr demo_world) 4 in
     ok = (4 / 4 <? incoming_advertised_max_streams (mgr demo_world))
     ∧ eff = (if ok then [] else [CloseConnection]))
  ∧ Z.of_nat (size (opened demo_world)) - Z.of_nat (size (closed demo_world)) <= 4
  ∧ incoming_advertised_max_streams (mgr demo_world) <= 4 + Z.of_nat (size (closed demo_world)).
Proof.
  apply (incoming_streams_correct demo_config eq_refl 3 4 demo_world 4).
  - split; discriminate.
  - split; discriminate.
  - exact demo_reachable.
  - split; [split; [discriminate|reflexivity]|reflexivity].
Defined.

Lemma closing_gives_credit_witness :
  (let '(st, eff) := OnStreamClosed demo_config (mgr demo_world) 8 in
   incoming_advertised_max_streams (mgr demo_world) <= incoming_advertised_max_streams st
   ∧ eff = (if incoming_advertised_max_streams st =? incoming_advertised_max_streams (mgr demo_world)
            then [] else [SendMaxStreams (incoming_advertised_max_streams st)])
   ∧ (incoming_actual_max_streams (mgr demo_world) < max_count demo_config → 0 < available_incoming_streams st))
  ∧ (let '(st, eff, ok) := OnStreamsBlockedFrame (mgr demo_world) 3 in
     ok = (3 <=? incoming_advertised_max_streams (mgr demo_world))
     ∧ eff = (if negb ok then [CloseConnection] else
              if 3 <? incoming_actual_max_streams (mgr demo_world)
              then [SendMaxStreams (incoming_actual_max_streams (mgr demo_world))] else [])).
Proof.
  apply (closing_gives_credit demo_config eq_refl 3 4 demo_world 8 3).
  - split; discriminate.
  - split; discriminate.
  - exact demo_reachable.
  - unfold demo_world, demo_world1. cbn [opened]. set_solver.
  - discriminate.
Defined.

Lemma outgoing_streams_correct_witness :
  ids demo_world = (λ k, GetFirstOutgoingStreamId demo_config + 4 * k) <$> seqZ 0 (zlen (ids demo_world))
  ∧ zlen (ids demo_world) <= outgoing_max_streams (mgr demo_world) <= max_count demo_config
  ∧ CanOpenNextOutgoingStream (mgr demo_world)
    = (if zlen (ids demo_world) <? outgoing_max_streams (mgr demo_world) then ([], true)
       else ([SendStreamsBlocked (outgoing_max_streams (mgr demo_world))], false))
  ∧ (let '(st, eff, ok) := OnMaxStreamsFrame demo_config (mgr demo_world) 10 in
     if using_default_max_streams (mgr demo_world)
     then ok = (zlen (ids demo_world) <=? 10)
          ∧ (ok = true → outgoing_max_streams st = Z.min 10 (max_count demo_config))
     else ok = true
          ∧ outgoing_max_streams st
            = Z.max (outgoing_max_streams (mgr demo_world)) (Z.min 10 (max_count demo_config))).
Proof.
  apply (outgoing_streams_correct demo_config eq_refl 3 4 demo_world 10).
  - split; discriminate.
  - split; discriminate.
  - exact demo_reachable.
  - split; [discriminate|reflexivity].
Defined.
End StreamIdManager.
