(* ===== verification/PacketNumber.v ===== *)
(** Packet numbers (quic/core/quic_packet_number.h) and the sets of them that acknowledgements carry:
    [PacketNumberQueue] (quic/core/frames/quic_ack_frame.cc).

    A packet number is its [uint64_t], the largest one standing for "uninitialized"; the checks of the
    debug build are the bounds of the theorems. A queue is the list of its intervals. *)

From S2P Require Import Prelude OrderedSet IntervalSet.

Module PacketNumber.
Definition UninitializedPacketNumber : Z := two64 - 1.
Definition IsInitialized (p : Z) : bool := negb (p =? UninitializedPacketNumber).
Definition Clear : Z := UninitializedPacketNumber.

Definition UpdateMax (p new_value : Z) : Z :=
  if negb (IsInitialized new_value) then p
  else if negb (IsInitialized p) then new_value
  else Z.max p new_value.

Definition add (p delta : Z) : Z := wrap64 (p + delta).
Definition sub (p delta : Z) : Z := wrap64 (p - delta).

(** The packet numbers that have an initialized successor. *)
Definition ok (p : Z) : Prop := 0 <= p < two64 - 2.

Lemma ok_initialized p : ok p → IsInitialized p = true.
Proof. unfold ok, IsInitialized, UninitializedPacketNumber. lia. Qed.

Lemma add_small p d : 0 <= p + d < two64 → add p d = p + d.
Proof. intros. unfold add, wrap64. by apply Z.mod_small. Qed.

Lemma sub_small p d : 0 <= p - d < two64 → sub p d = p - d.
Proof. intros. unfold sub, wrap64. by apply Z.mod_small. Qed.

Lemma add_1 p : ok p → add p 1 = p + 1.
Proof. unfold ok. intros. apply add_small. lia. Qed.
End PacketNumber.

Module PacketNumberQueue.
Import PacketNumber.

Abbreviation t := (list interval).
Definition new : t := [].
Definition Clear : t := [].
Definition Empty (q : t) : bool := match q with [] => true | _ => false end.

(** [Min] and [Max] are undefined on an empty queue; the values here are never used. *)
Definition Min (q : t) : Z := match head q with Some i => imin i | None => UninitializedPacketNumber end.
Definition Max (q : t) : Z := match last q with Some i => sub (imax i) 1 | None => UninitializedPacketNumber end.

Definition SetMin (i : interval) (m : Z) : interval := Interval.mk m (imax i).
Definition SetMax (i : interval) (m : Z) : interval := Interval.mk (imin i) m.

(** The backward loop of [Add], at the intervals below [i]. *)
Fixpoint Add_loop (i : nat) (q : t) (p : Z) : t :=
  match i with
  | O => q
  | S i =>
      match q !! i with
      | None => q
      | Some itv =>
          if Interval.Contains itv p then q else
          if imax itv =? p then <[i := SetMax itv (add p 1)]> q else
          if imin itv =? add p 1 then
            let q1 := <[i := SetMin itv p]> q in
            match i with
            | S j =>
                match q1 !! j with
                | Some pv =>
                    if p =? imax pv then delete i (<[j := SetMax pv (imax itv)]> q1) else q1
                | None => q1
                end
            | O => q1
            end
          else
          if imax itv <? add p 1 then
            take (S i) q ++ Interval.mk p (add p 1) :: drop (S i) q
          else Add_loop i q p
      end
  end.

Definition Add (q : t) (p : Z) : t :=
  if negb (IsInitialized p) then q else
  match last q, head q with
  | Some back, Some front =>
      if imax back =? p then <[pred (length q) := SetMax back (add p 1)]> q else
      if imax back <? p then q ++ [Interval.mk p (add p 1)] else
      if add p 1 <? imin front then Interval.mk p (add p 1) :: q else
      if imin front =? add p 1 then <[0%nat := SetMin front p]> q else
      Add_loop (length q) q p
  | _, _ => [Interval.mk p (add p 1)]
  end.

(** [AddRange]: the queue, unchanged when the range overlaps it (a QUIC_BUG). *)
Definition AddRange (q : t) (lower higher : Z) : t :=
  if negb (IsInitialized lower) || negb (IsInitialized higher) || (higher <=? lower) then q else
  match last q, head q with
  | Some back, Some front =>
      if imax back =? lower then <[pred (length q) := SetMax back higher]> q else
      if imax back <? lower then q ++ [Interval.mk lower higher] else
      if imin front =? higher then <[0%nat := SetMin front lower]> q else
      if higher <? imin front then Interval.mk lower higher :: q else q
  | _, _ => [Interval.mk lower higher]
  end.

Fixpoint RemoveUpTo_loop (q : t) (higher : Z) : t :=
  match q with
  | [] => []
  | front :: q' =>
      if imax front <? higher then RemoveUpTo_loop q' higher else
      if (imin front <? higher) && (higher <=? imax front) then
        if imax front =? higher then q' else SetMin front higher :: q'
      else q
  end.

Definition RemoveUpTo (q : t) (higher : Z) : t * bool :=
  if negb (IsInitialized higher) || Empty q then (q, false) else
  let q' := RemoveUpTo_loop q higher in
  (q', Empty q' || negb (Min q =? Min q')).

Definition RemoveSmallestInterval (q : t) : t := tail q.

Definition Contains (q : t) (p : Z) : bool :=
  match head q, last q with
  | Some front, Some back =>
      if negb (IsInitialized p) then false else
      if (p <? imin front) || (imax back <=? p) then false else
      existsb (λ i, Interval.Contains i p) q
  | _, _ => false
  end.

Definition PacketNumberIntervalLength (i : interval) : Z :=
  if Interval.Empty i then 0 else sub (imax i) (imin i).

Definition NumPacketsSlow (q : t) : Z :=
  fold_left (λ n i, wrap64 (n + PacketNumberIntervalLength i)) q 0.

Definition NumIntervals (q : t) : Z := zlen q.

Definition LastIntervalLength (q : t) : Z :=
  match last q with Some i => PacketNumberIntervalLength i | None => 0 end.

(** ** Correctness *)

Notation den := IntervalSet.den.
Notation valid := IntervalSet.valid.

(** A well-formed queue: ordered, separate intervals of packet numbers. *)
Definition wf (q : t) : Prop := valid q ∧ ∀ z, den q z → ok z.

Lemma den_mid pre i post z : den (pre ++ i :: post) z ↔ den pre z ∨ Interval.den i z ∨ den post z.
Proof. by rewrite IntervalSet.den_app, IntervalSet.den_cons. Qed.

Lemma valid_mid pre i post :
  valid (pre ++ i :: post) ↔
  valid pre ∧ imin i < imax i ∧ valid post ∧ (∀ j, j ∈ pre → imax j < imin i)
  ∧ (∀ j, j ∈ post → imax i < imin j) ∧ (∀ j k, j ∈ pre → k ∈ post → imax j < imin k).
Proof.
  rewrite IntervalSet.valid_app_elem, IntervalSet.valid_cons_elem. split.
  - intros (?&(?&?&?)&Hx). split; [done|]. split; [done|]. split; [done|].
    split; [intros j Hj; apply Hx; [done|left]|]. split; [done|]. intros j k Hj Hk. apply Hx; [done|by right].
  - intros (?&?&?&H1&?&H2). split; [done|]. split; [done|]. intros j k Hj [->|Hk]%elem_of_cons; [by apply H1|by apply H2].
Qed.

Lemma wf_interval q i : wf q → i ∈ q → 0 <= imin i ∧ imin i < imax i ∧ imax i <= two64 - 2.
Proof.
  intros [Hv Hok] Hi. pose proof (IntervalSet.valid_nonempty q i Hv Hi).
  assert (Hd : ∀ z, imin i <= z < imax i → ok z).
  { intros z Hz. apply Hok, IntervalSet.den_elem. exists i. by unfold Interval.den. }
  pose proof (Hd (imin i) ltac:(lia)). pose proof (Hd (imax i - 1) ltac:(lia)). unfold ok in *. lia.
Qed.

(** A change at one place of a queue. *)
Definition adds (q q' : t) (lo hi : Z) : Prop :=
  valid q' ∧ ∀ z, den q' z ↔ den q z ∨ lo <= z < hi.

Lemma replace_mid pre i post i' lo hi :
  valid (pre ++ i :: post) → imin i' < imax i' →
  (∀ j, j ∈ pre → imax j < imin i') → (∀ j, j ∈ post → imax i' < imin j) →
  (∀ z, Interval.den i' z ↔ Interval.den i z ∨ lo <= z < hi) →
  adds (pre ++ i :: post) (pre ++ i' :: post) lo hi.
Proof.
  intros (?&?&?&?&?&?)%valid_mid Hne Hlo Hhi Hd. split; [by apply valid_mid|].
  intros z. rewrite !den_mid, Hd. tauto.
Qed.

Lemma insert_mid pre post lo hi :
  valid (pre ++ post) → lo < hi → (∀ j, j ∈ pre → imax j < lo) → (∀ j, j ∈ post → hi < imin j) →
  adds (pre ++ post) (pre ++ Interval.mk lo hi :: post) lo hi.
Proof.
  intros (?&?&Hx)%IntervalSet.valid_app_elem Hne Hlo Hhi. split.
  - apply valid_mid. split; [done|]. split; [done|]. split; [done|]. split; [done|]. split; [done|].
    intros j k. apply Hx.
  - intros z. rewrite den_mid, IntervalSet.den_app. unfold Interval.den. cbn [imin imax Interval.min Interval.max]. tauto.
Qed.

(** Two neighbours and the point between them become one interval. *)
Lemma merge_mid pre pv i post p :
  valid (pre ++ pv :: i :: post) → imax pv = p → imin i = p + 1 →
  adds (pre ++ pv :: i :: post) (pre ++ SetMax pv (imax i) :: post) p (p + 1).
Proof.
  intros Hv Hp Hi. pose proof Hv as (Hv1&Hne&Hv2&H1&H2&H3)%valid_mid.
  apply IntervalSet.valid_cons_elem in Hv2 as (Hni&Hv3&H4). split.
  - apply valid_mid. unfold SetMax. cbn [imin imax Interval.min Interval.max].
    split; [done|]. split; [lia|]. split; [done|]. split; [done|]. split; [done|].
    intros j k Hj Hk. apply H3; [done|by right].
  - intros z. rewrite !den_mid, IntervalSet.den_cons. unfold Interval.den, SetMax. cbn [imin imax Interval.min Interval.max].
    destruct (decide (imin pv <= z < imax i)); [|destruct (decide (p <= z < p + 1))]; naive_solver lia.
Qed.

Lemma Add_loop_spec pre post q p :
  wf q → q = pre ++ post → ok p →
  match head q with Some front => imin front <= p | None => False end →
  (∀ j, j ∈ post → p + 1 < imin j) →
  adds q (Add_loop (length pre) q p) p (p + 1).
Proof.
  intros Hwf -> Hp Hfront. pose proof Hwf as [Hv Hok].
  remember (length pre) as n eqn:En. revert pre post En Hwf Hv Hok Hfront.
  induction n as [|n IH]; intros pre post En Hwf Hv Hok Hfront Hpost.
  { destruct pre; [|done]. destruct post as [|i post]; [done|]. cbn in Hfront.
    specialize (Hpost i ltac:(left)). lia. }
  destruct (list_snoc_cases pre) as [->|(pre'&i&->)]; [done|].
  rewrite length_app in En. cbn [length] in En. assert (En' : n = length pre') by lia.
  rewrite <-app_assoc in *. cbn [app] in *. cbn [Add_loop]. rewrite add_1 by done.
  rewrite (list_lookup_middle pre' post i n) by done.
  destruct (Interval.Contains i p) eqn:Ec.
  { split; [done|]. intros z. split; [by left|]. intros [Hz|Hz]; [done|]. assert (z = p) as -> by lia.
    apply den_mid. right; left. by apply Interval.Contains_spec. }
  pose proof Hv as (Hv1&Hne&Hv2&H1&H2&H3)%valid_mid.
  unfold Interval.Contains in Ec.
  destruct (Z.eqb_spec (imax i) p) as [E1|N1].
  { rewrite insert_app_r_alt by lia. rewrite En', Nat.sub_diag. cbn [insert list_insert].
    apply replace_mid; try done; unfold SetMax; cbn [imin imax Interval.min Interval.max]; [lia|].
    intros z. unfold Interval.den. cbn [imin imax Interval.min Interval.max]. lia. }
  destruct (Z.eqb_spec (imin i) (p + 1)) as [E2|N2].
  { rewrite insert_app_r_alt by lia. rewrite En', Nat.sub_diag. cbn [insert list_insert].
    assert (Hext : (∀ j, j ∈ pre' → imax j < p) →
      adds (pre' ++ i :: post) (pre' ++ SetMin i p :: post) p (p + 1)).
    { intros Hlt. apply replace_mid; try done; unfold SetMin; cbn [imin imax Interval.min Interval.max]; [lia|].
      intros z. unfold Interval.den. cbn [imin imax Interval.min Interval.max]. lia. }
    destruct (list_snoc_cases pre') as [->|(pre''&pv&->)].
    { cbn [length app]. apply Hext. intros j Hj. by apply elem_of_nil in Hj. }
    rewrite length_app. cbn [length]. replace (length pre'' + 1)%nat with (S (length pre'')) by lia.
    rewrite <-!app_assoc. cbn [app]. rewrite (list_lookup_middle _ _ pv (length pre'')) by done.
    pose proof (H1 pv ltac:(set_solver)) as Hpv.
    destruct (Z.eqb_spec p (imax pv)) as [E3|N3].
    - rewrite insert_app_r_alt by lia. rewrite Nat.sub_diag. cbn [insert list_insert].
      rewrite (app_cons_snoc pre'' (SetMin i p :: post)). replace (S (length pre'')) with (length (pre'' ++ [SetMax pv (imax i)]))
        by (rewrite length_app; cbn [length]; lia).
      rewrite delete_middle, <-app_cons_snoc.
      rewrite <-app_assoc in Hv. by apply merge_mid.
    - rewrite <-!app_assoc in Hext. apply Hext. rewrite <-app_assoc in Hv.
      pose proof Hv as (_&_&_&H5&_)%valid_mid. intros j [Hj|Hj%list_elem_of_singleton]%elem_of_app.
      + specialize (H5 j Hj). pose proof (IntervalSet.valid_nonempty _ pv Hv ltac:(set_solver)). lia.
      + subst. lia. }
  destruct (Z.ltb_spec (imax i) (p + 1)) as [E4|N4].
  { rewrite app_cons_snoc. rewrite take_app_length', drop_app_length' by (rewrite length_app; cbn [length]; lia).
    rewrite app_cons_snoc in Hv. apply insert_mid; [done|lia| |done].
    intros j [Hj|Hj%list_elem_of_singleton]%elem_of_app; [specialize (H1 j Hj); lia|subst; lia]. }
  apply (IH pre' (i :: post)); [done..|].
  intros j [->|Hj]%elem_of_cons; [lia|by apply Hpost].
Qed.

(** The last interval is replaced in place. *)
Lemma insert_last q (back i : interval) : <[pred (length (q ++ [back])) := i]> (q ++ [back]) = q ++ [i].
Proof. rewrite length_app. cbn [length]. rewrite insert_app_r_alt by lia. by replace (_ - _)%nat with 0%nat by lia. Qed.

Lemma adds_wf q q' lo hi : wf q → adds q q' lo hi → ok lo → hi <= two64 - 2 → wf q'.
Proof.
  intros [_ Hok] [Hv Hd] Hlo Hhi. split; [done|]. intros z [Hz|Hz]%Hd; [by apply Hok|unfold ok in *; lia].
Qed.

Lemma last_above (q : t) back p :
  valid (q ++ [back]) → imax back <= p → ∀ j, j ∈ q ++ [back] → imax j <= p.
Proof.
  intros (_&Hne&_&Hb&_)%valid_mid Hp j [Hj|Hj%list_elem_of_singleton]%elem_of_app; [specialize (Hb j Hj); lia|by subst].
Qed.

Lemma Add_adds q p : wf q → ok p → adds q (Add q p) p (p + 1).
Proof.
  intros Hwf Hp. pose proof Hwf as [Hv Hok]. unfold Add. rewrite ok_initialized by done. cbn [negb].
  rewrite add_1 by done.
  destruct (list_snoc_cases q) as [->|(k&back&Eq)].
  { cbn [last head]. apply (insert_mid [] []); [apply IntervalSet.valid_nil|lia| |];
      intros j Hj; by apply elem_of_nil in Hj. }
  assert (Hlast : last q = Some back) by (rewrite Eq; apply last_app_singleton). rewrite Hlast.
  destruct q as [|front q0] eqn:Eq0; [by destruct k|]. cbn [head]. rewrite <-Eq0 in *.
  pose proof Hv as Hv0. rewrite Eq in Hv0.
  destruct (Z.eqb_spec (imax back) p) as [E1|N1].
  { rewrite Eq, insert_last. apply replace_mid; [done|..]; unfold SetMax; cbn [imin imax Interval.min Interval.max].
    - apply valid_mid in Hv0. lia.
    - by apply valid_mid in Hv0 as (_&_&_&?&_).
    - intros j Hj. by apply elem_of_nil in Hj.
    - intros z. unfold Interval.den. cbn [imin imax Interval.min Interval.max].
      apply valid_mid in Hv0. lia. }
  destruct (Z.ltb_spec (imax back) p) as [E2|N2].
  { rewrite <-(app_nil_r q) at 1. apply insert_mid; [by rewrite app_nil_r|lia| |].
    - rewrite Eq. intros j Hj. pose proof (last_above k back (p - 1) Hv0 ltac:(lia) j Hj). lia.
    - intros j Hj. by apply elem_of_nil in Hj. }
  destruct (Z.ltb_spec (p + 1) (imin front)) as [E3|N3].
  { apply (insert_mid [] q); [done|lia| |].
    - intros j Hj. by apply elem_of_nil in Hj.
    - intros j Hj. rewrite Eq0 in *. pose proof (IntervalSet.valid_starts _ _ _ Hv Hj). lia. }
  destruct (Z.eqb_spec (imin front) (p + 1)) as [E4|N4].
  { rewrite Eq0. cbn [insert list_insert]. rewrite Eq0 in Hv. apply (replace_mid []); [done|..];
      unfold SetMin; cbn [imin imax Interval.min Interval.max];
      apply IntervalSet.valid_cons_elem in Hv as (Hne&_&Hg).
    - lia.
    - intros j Hj. by apply elem_of_nil in Hj.
    - done.
    - intros z. unfold Interval.den. cbn [imin imax Interval.min Interval.max]. lia. }
  apply (Add_loop_spec q []); [done|by rewrite app_nil_r|done| |].
  - rewrite Eq0. cbn [head]. lia.
  - intros j Hj. by apply elem_of_nil in Hj.
Qed.

(** The new ranges are those above or below the queue. *)
Definition outside (q : t) (lo hi : Z) : Prop := (∀ z, den q z → z < lo) ∨ (∀ z, den q z → hi <= z).

Lemma AddRange_adds q lo hi :
  wf q → ok lo → lo < hi → hi < two64 - 1 → outside q lo hi → adds q (AddRange q lo hi) lo hi.
Proof.
  intros Hwf Hlo Hlt Hhi Hout. pose proof Hwf as [Hv Hok]. unfold AddRange.
  replace (IsInitialized lo) with true by (symmetry; by apply ok_initialized).
  replace (IsInitialized hi) with true by (unfold IsInitialized, UninitializedPacketNumber, ok in *; lia).
  cbn [negb orb]. destruct (Z.leb_spec hi lo); [lia|].
  destruct (list_snoc_cases q) as [->|(k&back&Eq)].
  { cbn [last head]. apply (insert_mid [] []); [apply IntervalSet.valid_nil|lia| |];
      intros j Hj; by apply elem_of_nil in Hj. }
  assert (Hlast : last q = Some back) by (rewrite Eq; apply last_app_singleton). rewrite Hlast.
  destruct q as [|front q0] eqn:Eq0; [by destruct k|]. cbn [head]. rewrite <-Eq0 in *.
  pose proof Hv as Hv0. rewrite Eq in Hv0.
  assert (Hbk : back ∈ q) by (rewrite Eq; set_solver). assert (Hfr : front ∈ q) by (rewrite Eq0; left).
  pose proof (wf_interval q back Hwf Hbk) as Hb. pose proof (wf_interval q front Hwf Hfr) as Hf.
  assert (Hside : imax back <= lo ∨ hi <= imin front).
  { destruct Hout as [Ho|Ho]; [left|right].
    - assert (den q (imax back - 1)) as Hd by (apply IntervalSet.den_elem; exists back; unfold Interval.den; split; [done|lia]).
      apply Ho in Hd. lia.
    - apply Ho, IntervalSet.den_elem. exists front. unfold Interval.den. split; [done|lia]. }
  destruct (Z.eqb_spec (imax back) lo) as [E1|N1].
  { rewrite Eq, insert_last. apply valid_mid in Hv0 as Hm. apply replace_mid; [done|..];
      unfold SetMax; cbn [imin imax Interval.min Interval.max]; [lia|apply Hm| |].
    - intros j Hj. by apply elem_of_nil in Hj.
    - intros z. unfold Interval.den. cbn [imin imax Interval.min Interval.max]. lia. }
  destruct (Z.ltb_spec (imax back) lo) as [E2|N2].
  { rewrite <-(app_nil_r q) at 1. apply insert_mid; [by rewrite app_nil_r|lia| |].
    - rewrite Eq. intros j Hj. pose proof (last_above k back (lo - 1) Hv0 ltac:(lia) j Hj). lia.
    - intros j Hj. by apply elem_of_nil in Hj. }
  destruct (Z.eqb_spec (imin front) hi) as [E4|N4].
  { rewrite Eq0. cbn [insert list_insert]. rewrite Eq0 in Hv. apply (replace_mid []); [done|..];
      unfold SetMin; cbn [imin imax Interval.min Interval.max];
      apply IntervalSet.valid_cons_elem in Hv as (Hne&_&Hg).
    - lia.
    - intros j Hj. by apply elem_of_nil in Hj.
    - done.
    - intros z. unfold Interval.den. cbn [imin imax Interval.min Interval.max]. lia. }
  destruct (Z.ltb_spec hi (imin front)) as [E3|N3]; [|lia].
  apply (insert_mid [] q); [done|lia| |].
  - intros j Hj. by apply elem_of_nil in Hj.
  - intros j Hj. rewrite Eq0 in *. pose proof (IntervalSet.valid_starts _ _ _ Hv Hj). lia.
Qed.

Lemma RemoveUpTo_loop_spec q higher :
  valid q →
  valid (RemoveUpTo_loop q higher)
  ∧ (∀ i, i ∈ RemoveUpTo_loop q higher → ∃ j, j ∈ q ∧ imin j <= imin i ∧ imax i = imax j)
  ∧ ∀ z, den (RemoveUpTo_loop q higher) z ↔ den q z ∧ higher <= z.
Proof.
  induction q as [|i q IH]; intros Hv; cbn [RemoveUpTo_loop].
  { split; [done|]. split; [intros i Hi; by apply elem_of_nil in Hi|]. intros z. rewrite IntervalSet.den_nil. tauto. }
  pose proof Hv as (Hne&Hv'&Hg)%IntervalSet.valid_cons_elem.
  assert (Hrest : ∀ z, den q z → imax i < z) by (intros z; by apply IntervalSet.valid_head_lt).
  destruct (Z.ltb_spec (imax i) higher) as [E1|E1].
  { destruct (IH Hv') as (H1&H2&H3). split; [done|]. split.
    - intros j Hj. destruct (H2 j Hj) as (j'&?&?). exists j'. split; [by right|done].
    - intros z. rewrite H3, IntervalSet.den_cons. unfold Interval.den. split; [tauto|]. intros [[?|?] ?]; [lia|done]. }
  destruct (Z.ltb_spec (imin i) higher) as [E2|E2]; cbn [andb].
  - destruct (Z.leb_spec higher (imax i)); [|lia]. destruct (Z.eqb_spec (imax i) higher) as [E3|E3].
    + split; [done|]. split; [intros j Hj; exists j; split; [by right|lia]|].
      intros z. rewrite IntervalSet.den_cons. unfold Interval.den. split.
      * intros Hz. specialize (Hrest z Hz). split; [by right|lia].
      * intros [[?|?] ?]; [lia|done].
    + split; [|split].
      * apply IntervalSet.valid_cons_elem. unfold SetMin. cbn [imin imax Interval.min Interval.max]. split; [lia|done].
      * intros j [->|Hj]%elem_of_cons; [exists i|exists j]; (split; [set_solver|]);
          unfold SetMin; cbn [imin imax Interval.min Interval.max]; lia.
      * intros z. rewrite !IntervalSet.den_cons. unfold Interval.den, SetMin. cbn [imin imax Interval.min Interval.max].
        split; [|intros [[?|?] ?]; [left; lia|by right]].
        intros [?|Hz]; [split; [left|]; lia|]. specialize (Hrest z Hz). split; [by right|lia].
  - split; [done|]. split; [intros j Hj; exists j; split; [done|lia]|].
    intros z. rewrite IntervalSet.den_cons. unfold Interval.den. split; [|tauto].
    intros [?|Hz]; [split; [by left|lia]|]. specialize (Hrest z Hz). split; [by right|lia].
Qed.

Lemma RemoveUpTo_wf q higher : wf q → wf (RemoveUpTo_loop q higher).
Proof.
  intros [Hv Hok]. destruct (RemoveUpTo_loop_spec q higher Hv) as (Hv'&_&Hd).
  split; [done|]. intros z [Hz _]%Hd. by apply Hok.
Qed.

Lemma Min_spec q : valid q → q ≠ [] → den q (Min q) ∧ ∀ z, den q z → Min q <= z.
Proof.
  intros Hv Hne. destruct q as [|i q]; [done|]. unfold Min. cbn [head].
  pose proof (IntervalSet.valid_nonempty _ i Hv ltac:(left)). split.
  - apply IntervalSet.den_cons. left. unfold Interval.den. lia.
  - intros z (j&Hj&Hz)%IntervalSet.den_elem. pose proof (IntervalSet.valid_starts _ _ _ Hv Hj).
    unfold Interval.den in Hz. lia.
Qed.

Lemma Max_spec q : wf q → q ≠ [] → den q (Max q) ∧ ∀ z, den q z → z <= Max q.
Proof.
  intros Hwf Hne. destruct (list_snoc_cases q) as [->|(k&i&Eq)]; [done|].
  assert (Hi : i ∈ q) by (rewrite Eq; set_solver).
  pose proof (wf_interval q i Hwf Hi) as Hb. pose proof Hwf as [Hv _].
  assert (HM : Max q = imax i - 1).
  { unfold Max. rewrite Eq, last_app_singleton. apply sub_small. unfold two64 in *. lia. }
  rewrite HM. split.
  - apply IntervalSet.den_elem. exists i. unfold Interval.den. split; [done|lia].
  - intros z (j&Hj&Hz)%IntervalSet.den_elem. rewrite Eq in Hv, Hj.
    pose proof (last_above k i (imax i) Hv ltac:(lia) j Hj). unfold Interval.den in Hz. lia.
Qed.

Lemma RemoveUpTo_lemma q higher :
  wf q → IsInitialized higher = true →
  let '(q', removed) := RemoveUpTo q higher in
  wf q' ∧ (∀ z, den q' z ↔ den q z ∧ higher <= z) ∧ (removed = true ↔ ∃ z, den q z ∧ z < higher).
Proof.
  intros Hwf Hi. pose proof Hwf as [Hv Hok]. unfold RemoveUpTo. rewrite Hi. cbn [negb orb].
  destruct (Empty q) eqn:Ee.
  { destruct q; [|done]. setoid_rewrite IntervalSet.den_nil. split; [done|]. naive_solver. }
  assert (Hne : q ≠ []) by (intros ->; done).
  pose proof (RemoveUpTo_wf q higher Hwf) as [Hv' Hok'].
  destruct (RemoveUpTo_loop_spec q higher Hv) as (_&_&Hd).
  split; [done|]. split; [done|]. destruct (Min_spec q Hv Hne) as [Hm1 Hm2].
  set (q' := RemoveUpTo_loop q higher) in *.
  rewrite orb_true_iff, negb_true_iff, Z.eqb_neq.
  assert (Hiff : (Empty q' = true ∨ Min q ≠ Min q') ↔ Min q < higher).
  { destruct (Empty q') eqn:Ee'.
    - split; [|by left]. intros _. destruct (Z.lt_ge_cases (Min q) higher) as [?|Hge]; [done|].
      assert (Hin : den q' (Min q)) by (apply Hd; split; [done|lia]).
      destruct q'; [by apply IntervalSet.den_nil in Hin|done].
    - assert (Hne' : q' ≠ []) by (intros E; rewrite E in Ee'; done).
      destruct (Min_spec q' Hv' Hne') as [Hm3 Hm4]. apply Hd in Hm3 as [Hm3 Hm5]. specialize (Hm2 _ Hm3). split.
      + intros [?|Hn]; [done|]. destruct (Z.lt_ge_cases (Min q) higher) as [?|Hge]; [done|].
        assert (Hin : den q' (Min q)) by (apply Hd; split; [done|lia]). specialize (Hm4 _ Hin). lia.
      + intros Hlt. right. lia. }
  rewrite Hiff. split.
  - intros Hlt. by exists (Min q).
  - intros (z&Hz%Hm2&?). lia.
Qed.

Lemma queue_contains_spec q p : wf q → IsInitialized p = true → (Contains q p = true ↔ den q p).
Proof.
  intros Hwf Hi. pose proof Hwf as [Hv _]. unfold Contains.
  destruct (list_snoc_cases q) as [->|(k&back&Eq)]; [cbn; by rewrite IntervalSet.den_nil|].
  assert (Hlast : last q = Some back) by (rewrite Eq; apply last_app_singleton). rewrite Hlast, Hi.
  destruct q as [|front q0] eqn:Eq0; [by destruct k|]. cbn [head negb]. rewrite <-Eq0 in *.
  destruct ((p <? imin front) || (imax back <=? p)) eqn:Eo.
  - split; [done|]. intros (i&Hin&Hz)%IntervalSet.den_elem. exfalso. unfold Interval.den in Hz.
    rewrite Eq in Hv. pose proof (last_above k back (imax back) Hv ltac:(lia) i ltac:(by rewrite <-Eq)).
    rewrite <-Eq, Eq0 in Hv. rewrite Eq0 in Hin. pose proof (IntervalSet.valid_starts _ _ _ Hv Hin). lia.
  - by apply IntervalSet.existsb_den.
Qed.

Lemma RemoveSmallest_spec q :
  wf q → wf (RemoveSmallestInterval q)
  ∧ ∀ z, den (RemoveSmallestInterval q) z ↔
      den q z ∧ match head q with Some i => imax i <= z | None => True end.
Proof.
  intros [Hv Hok]. unfold RemoveSmallestInterval. destruct q as [|i q]; cbn [tail head].
  { split; [done|]. intros z. tauto. }
  pose proof Hv as (Hne&Hv'&_)%IntervalSet.valid_cons_elem.
  assert (Hrest : ∀ z, den q z → imax i < z) by (intros z; by apply IntervalSet.valid_head_lt).
  split; [split; [done|]; intros z Hz; apply Hok; rewrite IntervalSet.den_cons; by right|].
  intros z. rewrite IntervalSet.den_cons. unfold Interval.den. split.
  - intros Hz. specialize (Hrest z Hz). split; [by right|lia].
  - intros [[?|?] ?]; [lia|done].
Qed.

(** The number of packets is the measure of the set; it cannot wrap around. *)
Lemma NumPackets_loop q n :
  wf q → 0 <= n → n + IntervalSet.measure q < two64 →
  fold_left (λ n i, wrap64 (n + PacketNumberIntervalLength i)) q n = n + IntervalSet.measure q.
Proof.
  revert n. induction q as [|i q IH]; intros n Hwf Hn Hlt; cbn [fold_left]; [cbn; lia|].
  pose proof (wf_interval _ i Hwf ltac:(left)) as Hi.
  assert (Hwf' : wf q).
  { destruct Hwf as [Hv Hok]. apply IntervalSet.valid_cons_elem in Hv as (_&?&_). split; [done|].
    intros z Hz. apply Hok, IntervalSet.den_cons. by right. }
  assert (Hm : 0 <= IntervalSet.measure q).
  { destruct Hwf' as [Hv' Hok']. apply (IntervalSet.measure_bound q 0 two64 Hv'); [unfold two64; lia|].
    intros z Hz%Hok'. unfold ok in Hz. lia. }
  assert (Hl : PacketNumberIntervalLength i = imax i - imin i).
  { unfold PacketNumberIntervalLength, Interval.Empty. destruct (Z.leb_spec (imax i) (imin i)); [lia|].
    apply sub_small. lia. }
  change (IntervalSet.measure (i :: q)) with (imax i - imin i + IntervalSet.measure q) in *.
  rewrite Hl. unfold wrap64. rewrite Z.mod_small by lia. rewrite IH by (done || lia). lia.
Qed.

Lemma NumPackets_spec q : wf q → NumPacketsSlow q = IntervalSet.measure q.
Proof.
  intros Hwf. pose proof Hwf as [Hv Hok].
  pose proof (IntervalSet.measure_bound q 0 (two64 - 2) Hv ltac:(unfold two64; lia) Hok).
  unfold NumPacketsSlow. rewrite NumPackets_loop by (done || lia). lia.
Qed.

(** A [PacketNumberQueue] is the set of packet numbers it was given. [Add] adds its packet
    (extending an interval, joining two, or making a new one), [AddRange] a range outside the
    queue, [RemoveUpTo] drops exactly the packets below its bound and says whether there were any;
    all keep the intervals ordered and separate, so that [Contains], [Min], [Max] and [NumPacketsSlow]
    answer for the set; dropping the smallest interval keeps the packets above it. *)
Theorem packet_number_queue_correct q p lo hi :
  wf q → ok p → ok lo → lo < hi → hi <= two64 - 2 → outside q lo hi →
  (wf (Add q p) ∧ ∀ z, den (Add q p) z ↔ den q z ∨ z = p)
  ∧ (wf (AddRange q lo hi) ∧ ∀ z, den (AddRange q lo hi) z ↔ den q z ∨ lo <= z < hi)
  ∧ (let '(q', removed) := RemoveUpTo q p in
     wf q' ∧ (∀ z, den q' z ↔ den q z ∧ p <= z) ∧ (removed = true ↔ ∃ z, den q z ∧ z < p))
  ∧ (wf (RemoveSmallestInterval q)
     ∧ ∀ i, head q = Some i → ∀ z, den (RemoveSmallestInterval q) z ↔ den q z ∧ imax i <= z)
  ∧ (Contains q p = true ↔ den q p)
  ∧ (q ≠ [] → den q (Min q) ∧ den q (Max q) ∧ ∀ z, den q z → Min q <= z <= Max q)
  ∧ NumPacketsSlow q = IntervalSet.measure q.
Proof.
  intros Hwf Hp Hlo Hlt Hhi Hout. pose proof (ok_initialized p Hp) as Hi. split; [|split; [|split; [|split; [|split; [|split]]]]].
  - pose proof (Add_adds q p Hwf Hp) as Hadd. split; [eapply adds_wf; [done|done|done|unfold ok in *; lia]|].
    intros z. destruct Hadd as [_ ->]. assert (p <= z < p + 1 ↔ z = p) by lia. tauto.
  - pose proof (AddRange_adds q lo hi Hwf Hlo Hlt ltac:(lia) Hout) as Hadd.
    split; [by eapply adds_wf|apply Hadd].
  - by apply RemoveUpTo_lemma.
  - destruct (RemoveSmallest_spec q Hwf) as [Hwf' Hd]. split; [done|]. intros i E z. by rewrite Hd, E.
  - by apply queue_contains_spec.
  - intros Hne. destruct (Min_spec q (proj1 Hwf) Hne) as [H1 H2]. destruct (Max_spec q Hwf Hne) as [H3 H4].
    split; [done|]. split; [done|]. intros z Hz. split; [by apply H2|by apply H4].
  - by apply NumPackets_spec.
Qed.

Definition ex_queue : t := [Interval.mk 1 4; Interval.mk 6 8].

Lemma ex_queue_wf : wf ex_queue.
Proof.
  split; [by apply IntervalSet.Valid_spec|].
  intros z (i&Hi&Hz)%IntervalSet.den_elem. unfold ok, Interval.den, two64 in *.
  apply elem_of_cons in Hi as [->|[->|Hi]%elem_of_cons]; [cbn in Hz; lia..|by apply elem_of_nil in Hi].
Qed.

Lemma packet_number_queue_correct_witness :
  Add (Add ex_queue 5) 4 = [Interval.mk 1 8] ∧ (∀ z, den (Add ex_queue 4) z ↔ den ex_queue z ∨ z = 4)
  ∧ wf (AddRange ex_queue 9 12) ∧ RemoveUpTo ex_queue 4 = ([Interval.mk 6 8], true).
Proof.
  assert (Hout : outside ex_queue 9 12).
  { left. intros z (i&Hi&Hz)%IntervalSet.den_elem. unfold Interval.den in Hz.
    apply elem_of_cons in Hi as [->|[->|Hi]%elem_of_cons]; [cbn in Hz; lia..|by apply elem_of_nil in Hi]. }
  destruct (packet_number_queue_correct ex_queue 4 9 12 ex_queue_wf) as ([_ Ha]&[Hr _]&_);
    try (unfold ok, two64; lia); [exact Hout|].
  split; [reflexivity|]. split; [exact Ha|]. split; [exact Hr|reflexivity].
Defined.
End PacketNumberQueue.
