(* ===== verification/ReceivedPackets.v ===== *)
(** [QuicReceivedPacketManager] (quic/core/quic_received_packet_manager.cc): the packets received from
    the peer, the ACK frame that reports them, and the time by which it is to be sent.

    Times are microseconds, 0 an uninitialized time. The round-trip times of [RttStats] and the options
    of the connection are inputs. The two fractions of the minimum RTT (0.25 and 0.125) are represented
    by what they divide by; the product is exact in a double below 2^53, and [llround] rounds it. *)

From S2P Require Import Prelude OrderedSet IntervalSet PacketNumber.

Module ReceivedPacketManager.
Import PacketNumber.
Notation den := IntervalSet.den.

Definition QuicTime_Zero : Z := 0.
Definition Delta_Infinite : Z := two63 - 1.

Record QuicAckFrame := mk_frame {
  largest_acked : Z;
  ack_delay_time : Z;
  received_packet_times : list (Z * Z);
  packets : list interval;
  ecn_counters_populated : bool;
  ect_0_count : Z;
  ect_1_count : Z;
  ecn_ce_count : Z;
}.

Definition QuicAckFrame_new : QuicAckFrame :=
  mk_frame UninitializedPacketNumber Delta_Infinite [] PacketNumberQueue.new false 0 0 0.

Definition LargestAcked (f : QuicAckFrame) : Z := largest_acked f.

Definition IsAwaitingPacket_in (f : QuicAckFrame) (p peer_least_packet_awaiting_ack : Z) : bool :=
  (negb (IsInitialized peer_least_packet_awaiting_ack) || (peer_least_packet_awaiting_ack <=? p))
  && negb (PacketNumberQueue.Contains (packets f) p).

Inductive AckMode := TCP_ACKING | ACK_DECIMATION | ACK_DECIMATION_WITH_REORDERING.
#[global] Instance AckMode_eq_dec : EqDecision AckMode.
Proof. solve_decision. Defined.

(** The counters of [QuicConnectionStats] the manager updates. *)
Record Stats := mk_stats { packets_reordered : Z; max_sequence_reordering : Z; max_time_reordering_us : Z }.

Record t := mk {
  peer_least_packet_awaiting_ack : Z;
  ack_frame : QuicAckFrame;
  ack_frame_updated : bool;
  max_ack_ranges : Z;
  time_largest_observed : Z;
  save_timestamps : bool;
  least_received_packet_number : Z;
  stats : Stats;
  ack_mode : AckMode;
  num_retransmittable_packets_received_since_last_ack_sent : Z;
  min_received_before_ack_decimation : Z;
  ack_frequency_before_ack_decimation : Z;
  ack_decimation_delay : Z;
  unlimited_ack_decimation : bool;
  fast_ack_after_quiescence : bool;
  ack_timeout : Z;
  time_of_previous_received_packet : Z;
  was_last_packet_missing : bool;
  last_sent_largest_acked : Z;
}.

Definition kMaxPacketsAfterNewMissing : Z := 4.
Definition kDefaultRetransmittablePacketsBeforeAck : Z := 2.
Definition kMinReceivedBeforeAckDecimation : Z := 100.
Definition kMaxRetransmittablePacketsBeforeAck : Z := 10.
Definition kAckDecimationDelay : Z := 4.
Definition kShortAckDecimationDelay : Z := 8.

Definition new (quic_enable_ack_decimation : bool) (s : Stats) : t :=
  mk UninitializedPacketNumber QuicAckFrame_new false 0 QuicTime_Zero false UninitializedPacketNumber s
     (if quic_enable_ack_decimation then ACK_DECIMATION else TCP_ACKING) 0
     kMinReceivedBeforeAckDecimation kDefaultRetransmittablePacketsBeforeAck kAckDecimationDelay
     false false QuicTime_Zero QuicTime_Zero false UninitializedPacketNumber.

(** The connection options the manager looks at. *)
Inductive AckOption := kACD0 | kACKD | kAKD2 | kAKD3 | kAKD4 | kAKDU | kACKQ.

(** The fields set by the configuration. *)
Definition with_config (st : t) mode delay unlimited fast : t :=
  mk (peer_least_packet_awaiting_ack st) (ack_frame st) (ack_frame_updated st) (max_ack_ranges st)
     (time_largest_observed st) (save_timestamps st) (least_received_packet_number st) (stats st) mode
     (num_retransmittable_packets_received_since_last_ack_sent st) (min_received_before_ack_decimation st)
     (ack_frequency_before_ack_decimation st) delay unlimited fast (ack_timeout st)
     (time_of_previous_received_packet st) (was_last_packet_missing st) (last_sent_largest_acked st).

Definition SetFromConfig (quic_enable_ack_decimation : bool) (has : AckOption → bool) (st : t) : t :=
  let mode := if quic_enable_ack_decimation && has kACD0 then TCP_ACKING else ack_mode st in
  let mode := if has kACKD then ACK_DECIMATION else mode in
  let mode := if has kAKD2 then ACK_DECIMATION_WITH_REORDERING else mode in
  let mode := if has kAKD3 then ACK_DECIMATION else mode in
  let delay := if has kAKD3 then kShortAckDecimationDelay else ack_decimation_delay st in
  let mode := if has kAKD4 then ACK_DECIMATION_WITH_REORDERING else mode in
  let delay := if has kAKD4 then kShortAckDecimationDelay else delay in
  with_config st mode delay (has kAKDU || unlimited_ack_decimation st)
    (has kACKQ || fast_ack_after_quiescence st).

Definition set_max_ack_ranges (st : t) (n : Z) : t :=
  mk (peer_least_packet_awaiting_ack st) (ack_frame st) (ack_frame_updated st) n
     (time_largest_observed st) (save_timestamps st) (least_received_packet_number st) (stats st) (ack_mode st)
     (num_retransmittable_packets_received_since_last_ack_sent st) (min_received_before_ack_decimation st)
     (ack_frequency_before_ack_decimation st) (ack_decimation_delay st) (unlimited_ack_decimation st)
     (fast_ack_after_quiescence st) (ack_timeout st)
     (time_of_previous_received_packet st) (was_last_packet_missing st) (last_sent_largest_acked st).

Definition set_save_timestamps (st : t) (b : bool) : t :=
  mk (peer_least_packet_awaiting_ack st) (ack_frame st) (ack_frame_updated st) (max_ack_ranges st)
     (time_largest_observed st) b (least_received_packet_number st) (stats st) (ack_mode st)
     (num_retransmittable_packets_received_since_last_ack_sent st) (min_received_before_ack_decimation st)
     (ack_frequency_before_ack_decimation st) (ack_decimation_delay st) (unlimited_ack_decimation st)
     (fast_ack_after_quiescence st) (ack_timeout st)
     (time_of_previous_received_packet st) (was_last_packet_missing st) (last_sent_largest_acked st).

Definition with_thresholds (st : t) min_received frequency : t :=
  mk (peer_least_packet_awaiting_ack st) (ack_frame st) (ack_frame_updated st) (max_ack_ranges st)
     (time_largest_observed st) (save_timestamps st) (least_received_packet_number st) (stats st) (ack_mode st)
     (num_retransmittable_packets_received_since_last_ack_sent st) min_received
     frequency (ack_decimation_delay st) (unlimited_ack_decimation st)
     (fast_ack_after_quiescence st) (ack_timeout st)
     (time_of_previous_received_packet st) (was_last_packet_missing st) (last_sent_largest_acked st).

Definition set_min_received_before_ack_decimation (st : t) (n : Z) : t :=
  with_thresholds st n (ack_frequency_before_ack_decimation st).

Definition set_ack_frequency_before_ack_decimation (st : t) (n : Z) : t :=
  with_thresholds st (min_received_before_ack_decimation st) n.

Definition IsMissing (st : t) (p : Z) : bool :=
  IsInitialized (LargestAcked (ack_frame st)) && (p <? LargestAcked (ack_frame st))
  && negb (PacketNumberQueue.Contains (packets (ack_frame st)) p).

Definition IsAwaitingPacket (st : t) (p : Z) : bool :=
  IsAwaitingPacket_in (ack_frame st) p (peer_least_packet_awaiting_ack st).

(** The statistics of a packet that arrives out of order. *)
Definition record_reordering (s : Stats) (distance time : Z) : Stats :=
  mk_stats (packets_reordered s + 1) (Z.max (max_sequence_reordering s) distance)
           (Z.max (max_time_reordering_us s) time).

Definition with_packets (f : QuicAckFrame) (largest : Z) (times : list (Z * Z)) (q : list interval) : QuicAckFrame :=
  mk_frame largest (ack_delay_time f) times q (ecn_counters_populated f)
           (ect_0_count f) (ect_1_count f) (ecn_ce_count f).

Definition record_time (save : bool) (times : list (Z * Z)) (p receipt_time : Z) : list (Z * Z) :=
  if save then
    match last times with
    | Some (_, back) => if receipt_time <? back then times else times ++ [(p, receipt_time)]
    | None => times ++ [(p, receipt_time)]
    end
  else times.

Definition RecordPacketReceived (st : t) (p receipt_time : Z) : t :=
  let missing := IsMissing st p in
  let f := ack_frame st in
  let times := if ack_frame_updated st then received_packet_times f else [] in
  let reordered := IsInitialized (LargestAcked f) && (p <? LargestAcked f) in
  let s := if reordered
    then record_reordering (stats st) (sub (LargestAcked f) p) (receipt_time - time_largest_observed st)
    else stats st in
  let newest := negb (IsInitialized (LargestAcked f)) || (LargestAcked f <? p) in
  let f := with_packets f (if newest then p else largest_acked f)
             (record_time (save_timestamps st) times p receipt_time)
             (PacketNumberQueue.Add (packets f) p) in
  mk (peer_least_packet_awaiting_ack st) f true (max_ack_ranges st)
     (if newest then receipt_time else time_largest_observed st) (save_timestamps st)
     (if IsInitialized (least_received_packet_number st)
      then Z.min (least_received_packet_number st) p else p)
     s (ack_mode st)
     (num_retransmittable_packets_received_since_last_ack_sent st) (min_received_before_ack_decimation st)
     (ack_frequency_before_ack_decimation st) (ack_decimation_delay st) (unlimited_ack_decimation st)
     (fast_ack_after_quiescence st) (ack_timeout st)
     (time_of_previous_received_packet st) missing (last_sent_largest_acked st).

Definition with_frame (st : t) (f : QuicAckFrame) (least : Z) (updated : bool) : t :=
  mk least f updated (max_ack_ranges st)
     (time_largest_observed st) (save_timestamps st) (least_received_packet_number st) (stats st) (ack_mode st)
     (num_retransmittable_packets_received_since_last_ack_sent st) (min_received_before_ack_decimation st)
     (ack_frequency_before_ack_decimation st) (ack_decimation_delay st) (unlimited_ack_decimation st)
     (fast_ack_after_quiescence st) (ack_timeout st)
     (time_of_previous_received_packet st) (was_last_packet_missing st) (last_sent_largest_acked st).

(** The loop that keeps at most [max] intervals. *)
Fixpoint trim (max : Z) (q : list interval) : list interval :=
  match q with
  | [] => []
  | _ :: q' => if max <? PacketNumberQueue.NumIntervals q then trim max q' else q
  end.

(** [GetUpdatedAckFrame] updates the frame of the manager and returns a pointer to it. *)
Definition GetUpdatedAckFrame (st : t) (approximate_now : Z) : t :=
  let f := ack_frame st in
  let delay :=
    if time_largest_observed st =? QuicTime_Zero then Delta_Infinite
    else if approximate_now <? time_largest_observed st then 0
    else approximate_now - time_largest_observed st in
  let q := if 0 <? max_ack_ranges st then trim (max_ack_ranges st) (packets f) else packets f in
  let times := List.filter (λ x, negb (255 <=? sub (LargestAcked f) x.1)) (received_packet_times f) in
  with_frame st
    (mk_frame (largest_acked f) delay times q (ecn_counters_populated f)
       (ect_0_count f) (ect_1_count f) (ecn_ce_count f))
    (peer_least_packet_awaiting_ack st) (ack_frame_updated st).

Definition DontWaitForPacketsBefore (st : t) (least_unacked : Z) : t :=
  if negb (IsInitialized least_unacked) then st else
  if negb (IsInitialized (peer_least_packet_awaiting_ack st))
     || (peer_least_packet_awaiting_ack st <? least_unacked)
  then
    let f := ack_frame st in
    let '(q, packets_updated) := PacketNumberQueue.RemoveUpTo (packets f) least_unacked in
    with_frame st (with_packets f (largest_acked f) (received_packet_times f) q) least_unacked
      (packets_updated || ack_frame_updated st)
  else st.

Definition HasMissingPackets (st : t) : bool :=
  let q := packets (ack_frame st) in
  if PacketNumberQueue.Empty q then false else
  if 1 <? PacketNumberQueue.NumIntervals q then true else
  IsInitialized (peer_least_packet_awaiting_ack st)
  && (peer_least_packet_awaiting_ack st <? PacketNumberQueue.Min q).

Definition HasNewMissingPackets (st : t) : bool :=
  HasMissingPackets st
  && (PacketNumberQueue.LastIntervalLength (packets (ack_frame st)) <=? kMaxPacketsAfterNewMissing).


Definition PeerFirstSendingPacketNumber (st : t) : Z :=
  if negb (IsInitialized (least_received_packet_number st)) then 1 else least_received_packet_number st.

(** [llround] of a time over a power of two. *)
Definition fraction (d n : Z) : Z :=
  if 0 <=? d then (2 * d + n) / (2 * n) else - ((2 * - d + n) / (2 * n)).

Definition with_timeout (st : t) (num timeout previous : Z) : t :=
  mk (peer_least_packet_awaiting_ack st) (ack_frame st) (ack_frame_updated st) (max_ack_ranges st)
     (time_largest_observed st) (save_timestamps st) (least_received_packet_number st) (stats st) (ack_mode st)
     num (min_received_before_ack_decimation st)
     (ack_frequency_before_ack_decimation st) (ack_decimation_delay st) (unlimited_ack_decimation st)
     (fast_ack_after_quiescence st) timeout previous (was_last_packet_missing st) (last_sent_largest_acked st).

Definition MaybeUpdateAckTimeoutTo (timeout time : Z) : Z :=
  if (timeout =? 0) || (time <? timeout) then time else timeout.

Definition MaybeUpdateAckTimeout (st : t) (should_last_packet_instigate_acks : bool)
    (last_received_packet_number time_of_last_received_packet now min_rtt SmoothedOrInitialRtt
     local_max_ack_delay : Z) : t :=
  let prev := time_of_previous_received_packet st in
  let count := num_retransmittable_packets_received_since_last_ack_sent st in
  if negb (ack_frame_updated st) then st else
  if was_last_packet_missing st && IsInitialized (last_sent_largest_acked st)
     && (last_received_packet_number <? last_sent_largest_acked st)
  then with_timeout st count now prev else
  if negb should_last_packet_instigate_acks then st else
  let num := count + 1 in
  let quiescent := fast_ack_after_quiescence st && (SmoothedOrInitialRtt <? now - prev) in
  let decimate := bool_decide (ack_mode st ≠ TCP_ACKING)
    && (add (PeerFirstSendingPacketNumber st) (min_received_before_ack_decimation st)
        <=? last_received_packet_number) in
  if decimate && negb (unlimited_ack_decimation st) && (kMaxRetransmittablePacketsBeforeAck <=? num)
  then with_timeout st num now prev else
  let timeout :=
    if decimate then
      let ack_delay := Z.min local_max_ack_delay (fraction min_rtt (ack_decimation_delay st)) in
      let ack_delay := if quiescent then 1000 else ack_delay in
      MaybeUpdateAckTimeoutTo (ack_timeout st) (now + ack_delay)
    else if ack_frequency_before_ack_decimation st <=? num then now
    else if quiescent then MaybeUpdateAckTimeoutTo (ack_timeout st) (now + 1000)
    else MaybeUpdateAckTimeoutTo (ack_timeout st) (now + local_max_ack_delay) in
  let timeout :=
    if HasNewMissingPackets st then
      if bool_decide (ack_mode st = ACK_DECIMATION_WITH_REORDERING)
      then MaybeUpdateAckTimeoutTo timeout (now + fraction min_rtt kShortAckDecimationDelay)
      else now
    else timeout in
  with_timeout st num timeout
    (if fast_ack_after_quiescence st then time_of_last_received_packet else prev).

Definition ResetAckStates (st : t) : t :=
  mk (peer_least_packet_awaiting_ack st) (ack_frame st) false (max_ack_ranges st)
     (time_largest_observed st) (save_timestamps st) (least_received_packet_number st) (stats st) (ack_mode st)
     0 (min_received_before_ack_decimation st)
     (ack_frequency_before_ack_decimation st) (ack_decimation_delay st) (unlimited_ack_decimation st)
     (fast_ack_after_quiescence st) QuicTime_Zero
     (time_of_previous_received_packet st) (was_last_packet_missing st) (LargestAcked (ack_frame st)).

(** ** The frame reports what was received *)

Ltac rpm_simpl := unfold LargestAcked in *; cbn [peer_least_packet_awaiting_ack ack_frame ack_frame_updated max_ack_ranges
  time_largest_observed save_timestamps least_received_packet_number stats ack_mode
  num_retransmittable_packets_received_since_last_ack_sent min_received_before_ack_decimation
  ack_frequency_before_ack_decimation ack_decimation_delay unlimited_ack_decimation
  fast_ack_after_quiescence ack_timeout time_of_previous_received_packet was_last_packet_missing
  last_sent_largest_acked with_config with_frame with_packets with_timeout set_max_ack_ranges
  set_save_timestamps largest_acked received_packet_times packets
  new QuicAckFrame_new SetFromConfig ResetAckStates] in *.

(** The packets below which the peer no longer waits for an acknowledgement. *)
Definition floor (st : t) : Z :=
  if IsInitialized (peer_least_packet_awaiting_ack st) then peer_least_packet_awaiting_ack st else 0.

(** The packets the limit on the ranges has dropped are below this bound. *)
Definition dropped_below (d : Z) (st st' : t) : Z :=
  if PacketNumberQueue.NumIntervals (packets (ack_frame st')) <? PacketNumberQueue.NumIntervals (packets (ack_frame st))
  then Z.max d (PacketNumberQueue.Min (packets (ack_frame st'))) else d.

(** The runs of a connection: [rs] are the packets received, [d] bounds those dropped. Only packets
    awaited are recorded; the other calls come in any order. *)
Inductive receives : list Z → Z → t → Prop :=
| v_new flag s has : receives [] 0 (SetFromConfig flag has (new flag s))
| v_packet rs d st p time :
    receives rs d st → ok p → IsAwaitingPacket st p = true →
    receives (p :: rs) d (RecordPacketReceived st p time)
| v_least rs d st least : receives rs d st → ok least → receives rs d (DontWaitForPacketsBefore st least)
| v_frame rs d st now :
    receives rs d st →
    receives rs (dropped_below d st (GetUpdatedAckFrame st now)) (GetUpdatedAckFrame st now)
| v_timeout rs d st b p time now min_rtt srtt delay :
    receives rs d st → receives rs d (MaybeUpdateAckTimeout st b p time now min_rtt srtt delay)
| v_reset rs d st : receives rs d st → receives rs d (ResetAckStates st)
| v_ranges rs d st n : receives rs d st → 0 <= n → receives rs d (set_max_ack_ranges st n)
| v_timestamps rs d st b : receives rs d st → receives rs d (set_save_timestamps st b)
| v_thresholds rs d st m n : receives rs d st → receives rs d (with_thresholds st m n).

(** What the calls keep true, of the parts of the state it is about. *)
Record sound (rs : list Z) (d least largest : Z) (times : list (Z * Z)) (q : list interval) : Prop := {
  sd_wf : PacketNumberQueue.wf q;
  sd_recv z : z ∈ rs → ok z;
  sd_honest z : den q z → z ∈ rs ∧ least <= z;
  sd_all z : z ∈ rs → least <= z → d <= z → den q z;
  sd_largest : (rs = [] ∧ largest = UninitializedPacketNumber) ∨ (largest ∈ rs ∧ ∀ z, z ∈ rs → z <= largest);
  sd_max : rs ≠ [] → den q largest ∨ (q = [] ∧ largest < least);
  sd_times : StronglySorted (λ a b, a.2 <= b.2) times ∧ ∀ x, x ∈ times → x.1 ∈ rs;
}.

Definition Sound (rs : list Z) (d : Z) (st : t) : Prop :=
  (peer_least_packet_awaiting_ack st = UninitializedPacketNumber ∨ ok (peer_least_packet_awaiting_ack st))
  ∧ sound rs d (floor st) (largest_acked (ack_frame st)) (received_packet_times (ack_frame st)) (packets (ack_frame st)).

Lemma uninitialized_not_init : IsInitialized UninitializedPacketNumber = false.
Proof. done. Qed.

(** Whether a packet is awaited. *)
Lemma IsAwaiting_spec rs d st p :
  Sound rs d st → ok p → (IsAwaitingPacket st p = true ↔ floor st <= p ∧ ¬ den (packets (ack_frame st)) p).
Proof.
  intros [Hl Hs] Hp. unfold IsAwaitingPacket, IsAwaitingPacket_in, floor.
  pose proof (PacketNumberQueue.queue_contains_spec _ p (sd_wf _ _ _ _ _ _ Hs) (ok_initialized p Hp)) as Hc.
  rewrite andb_true_iff, orb_true_iff, !negb_true_iff, Z.leb_le, <-Hc, not_true_iff_false.
  destruct (IsInitialized (peer_least_packet_awaiting_ack st)); unfold ok in Hp; naive_solver lia.
Qed.


Lemma record_time_spec save times p time :
  StronglySorted (λ a b : Z * Z, a.2 <= b.2) times →
  StronglySorted (λ a b : Z * Z, a.2 <= b.2) (record_time save times p time)
  ∧ ∀ x, x ∈ record_time save times p time → x ∈ times ∨ x.1 = p.
Proof.
  intros Hs. unfold record_time. destruct save; [|split; [done|by left]].
  assert (Hsnoc : ∀ x, x ∈ times ++ [(p, time)] → x ∈ times ∨ x.1 = p).
  { intros x [Hx|Hx%list_elem_of_singleton]%elem_of_app; [by left|right; by subst]. }
  destruct (list_snoc_cases times) as [->|(k&[b back]&->)].
  { cbn. split; [by repeat constructor|done]. }
  rewrite last_app_singleton. destruct (Z.ltb_spec time back); [split; [done|by left]|].
  split; [|done]. apply strongly_sorted_app in Hs as (Hs1&Hs2&Hx). apply strongly_sorted_app.
  split; [by apply strongly_sorted_app|]. split; [by repeat constructor|].
  intros x y Hxin ->%list_elem_of_singleton. cbn [snd].
  apply elem_of_app in Hxin as [Hxin| ->%list_elem_of_singleton]; [|done].
  specialize (Hx x (b, back) Hxin ltac:(left)). cbn [snd] in Hx. lia.
Qed.

Lemma sound_packet rs d st p time :
  Sound rs d st → ok p → IsAwaitingPacket st p = true →
  Sound (p :: rs) d (RecordPacketReceived st p time).
Proof.
  intros HS Hp Ha. pose proof HS as [Hl [Hwf Hrecv Hhon Hall Hlar Hmax [Hts Htr]]].
  apply (IsAwaiting_spec _ _ _ _ HS Hp) in Ha as [Hge Hnew].
  pose proof (PacketNumberQueue.Add_adds _ p Hwf Hp) as Hadd.
  assert (Hwf' : PacketNumberQueue.wf (PacketNumberQueue.Add (packets (ack_frame st)) p)).
  { eapply PacketNumberQueue.adds_wf; [done|done|done|unfold ok in Hp; lia]. }
  destruct Hadd as [_ Hadd].
  assert (Hd : ∀ z, den (PacketNumberQueue.Add (packets (ack_frame st)) p) z ↔ den (packets (ack_frame st)) z ∨ z = p).
  { intros z. rewrite Hadd. assert (p <= z < p + 1 ↔ z = p) by lia. tauto. }
  set (times := if ack_frame_updated st then received_packet_times (ack_frame st) else []).
  assert (Ht : StronglySorted (λ a b : Z * Z, a.2 <= b.2) times ∧ ∀ x, x ∈ times → x.1 ∈ rs).
  { unfold times. destruct (ack_frame_updated st); [done|]. split; [constructor|].
    intros x Hx. by apply elem_of_nil in Hx. }
  destruct Ht as [Hts' Htr'].
  destruct (record_time_spec (save_timestamps st) times p time Hts') as [Hrs Hrt].
  split; [done|]. change (floor (RecordPacketReceived st p time)) with (floor st).
  unfold RecordPacketReceived. fold times. rpm_simpl.
  split; [done|..].
  - intros z [->|Hz]%elem_of_cons; [done|by apply Hrecv].
  - intros z [Hz| ->]%Hd; [|split; [left|done]]. apply Hhon in Hz as [? ?]. split; [by right|done].
  - intros z [->|Hz]%elem_of_cons Hlz Hdz; apply Hd; [by right|left; by apply Hall].
  - right. destruct Hlar as [[-> ->]|[Hin Hle]].
    { rewrite uninitialized_not_init. cbn [negb orb]. split; [left|].
      intros z [->|Hz]%elem_of_cons; [done|by apply elem_of_nil in Hz]. }
    rewrite ok_initialized by (by apply Hrecv). cbn [negb orb].
    destruct (Z.ltb_spec (largest_acked (ack_frame st)) p).
    + split; [left|]. intros z [->|Hz]%elem_of_cons; [done|]. specialize (Hle z Hz). lia.
    + split; [by right|]. intros z [->|Hz]%elem_of_cons; [done|by apply Hle].
  - intros _. left. apply Hd. destruct Hlar as [[-> ->]|[Hin Hle]].
    { rewrite uninitialized_not_init. by right. }
    rewrite ok_initialized by (by apply Hrecv). cbn [negb orb].
    destruct (Z.ltb_spec (largest_acked (ack_frame st)) p); [by right|left].
    assert (Hne : rs ≠ []) by (intros E; rewrite E in Hin; by apply elem_of_nil in Hin).
    destruct (Hmax Hne) as [?|[_ ?]]; [done|lia].
  - split; [done|]. intros x [Hx|Hx]%Hrt; [right; by apply Htr'|rewrite Hx; left].
Qed.

Lemma sound_least rs d st least :
  Sound rs d st → ok least → Sound rs d (DontWaitForPacketsBefore st least).
Proof.
  intros HS Hk. unfold DontWaitForPacketsBefore. rewrite ok_initialized by done. cbn [negb].
  destruct (negb _ || _) eqn:Eup; [|done].
  pose proof HS as [Hl [Hwf Hrecv Hhon Hall Hlar Hmax Htimes]].
  pose proof (PacketNumberQueue.RemoveUpTo_lemma _ least Hwf (ok_initialized least Hk)) as Hrem.
  destruct (PacketNumberQueue.RemoveUpTo _ least) as [q up]. destruct Hrem as (Hwf'&Hd&_).
  assert (Hfl : floor st <= least).
  { unfold floor. destruct (IsInitialized (peer_least_packet_awaiting_ack st)); [|unfold ok in Hk; lia].
    cbn [negb orb] in Eup. lia. }
  split; [by right|]. unfold floor at 1. rpm_simpl. rewrite ok_initialized by done.
  split; [done|done|..].
  - intros z [Hz ?]%Hd. apply Hhon in Hz as [? _]. done.
  - intros z Hz ? ?. apply Hd. split; [|done]. apply Hall; [done|lia|done].
  - done.
  - intros Hne. destruct (Z.le_gt_cases least (largest_acked (ack_frame st))) as [Hle|Hgt].
    + left. apply Hd. split; [|done]. destruct (Hmax Hne) as [?|[_ ?]]; [done|lia].
    + right. split; [|done]. destruct q as [|i q]; [done|]. exfalso.
      assert (Hi : den (i :: q) (imin i)).
      { apply IntervalSet.den_cons. left.
        pose proof (IntervalSet.valid_nonempty _ i (proj1 Hwf') ltac:(left)). unfold Interval.den. lia. }
      apply Hd in Hi as [Hi ?]. apply Hhon in Hi as [Hi _].
      destruct Hlar as [[-> _]|[_ Hle]]; [done|]. specialize (Hle _ Hi). lia.
  - done.
Qed.

(** The limit keeps the highest ranges. *)
Lemma trim_spec max q :
  0 < max →
  ∃ pre, q = pre ++ trim max q ∧ zlen (trim max q) <= max ∧ (pre = [] ∨ zlen (trim max q) = max).
Proof.
  intros Hm. induction q as [|i q IH]; cbn [trim].
  - exists []. split; [done|]. split; [rewrite (@zlen_nil interval); lia|by left].
  - unfold PacketNumberQueue.NumIntervals. destruct (Z.ltb_spec max (zlen (i :: q))) as [Hlt|Hge].
    + destruct IH as (pre&E&Hle&Hor). exists (i :: pre). split; [by rewrite E at 1|]. split; [done|]. right.
      destruct Hor as [-> | ?]; [|done]. cbn [app] in E. rewrite <-E in *. rewrite zlen_cons in Hlt. lia.
    + exists []. split; [done|]. split; [done|by left].
Qed.

(** The ranges of the frame that is sent. *)
Definition sent_ranges (st : t) : list interval :=
  if 0 <? max_ack_ranges st then trim (max_ack_ranges st) (packets (ack_frame st)) else packets (ack_frame st).

Lemma sent_ranges_spec st :
  ∃ pre, packets (ack_frame st) = pre ++ sent_ranges st
    ∧ (0 < max_ack_ranges st → zlen (sent_ranges st) <= max_ack_ranges st)
    ∧ (pre = [] ∨ (0 < max_ack_ranges st ∧ zlen (sent_ranges st) = max_ack_ranges st)).
Proof.
  unfold sent_ranges. destruct (Z.ltb_spec 0 (max_ack_ranges st)) as [Hm|Hm].
  - destruct (trim_spec (max_ack_ranges st) (packets (ack_frame st)) Hm) as (pre&E&Hle&Hor).
    exists pre. split; [done|]. split; [done|]. destruct Hor; [by left|by right].
  - exists []. split; [done|]. split; [lia|by left].
Qed.

(** A suffix of a queue has the packets from its least one on. *)
Lemma suffix_spec pre q :
  PacketNumberQueue.wf (pre ++ q) → q ≠ [] →
  PacketNumberQueue.wf q
  ∧ ∀ z, den q z ↔ den (pre ++ q) z ∧ PacketNumberQueue.Min q <= z.
Proof.
  intros [Hv Hok] Hne. apply IntervalSet.valid_app_elem in Hv as (Hv1&Hv2&Hg).
  assert (Hwf : PacketNumberQueue.wf q).
  { split; [done|]. intros z Hz. apply Hok, IntervalSet.den_app. by right. }
  split; [done|]. destruct (PacketNumberQueue.Min_spec q Hv2 Hne) as [Hm1 Hm2]. intros z.
  rewrite IntervalSet.den_app. split; [intros Hz; split; [by right|by apply Hm2]|].
  intros [[(i&Hi&Hz)%IntervalSet.den_elem|?] Hge]; [|done]. exfalso.
  apply IntervalSet.den_elem in Hm1 as (j&Hj&Hmj). specialize (Hg i j Hi Hj).
  unfold Interval.den in *. destruct q as [|k q]; [done|]. unfold PacketNumberQueue.Min in *. cbn [head] in *.
  pose proof (IntervalSet.valid_nonempty _ k Hv2 ltac:(left)).
  assert (Hgk := Hg). destruct (decide (k = j)) as [->|Hkj]; [lia|].
  apply IntervalSet.valid_cons_elem in Hv2 as (_&_&Hgt). apply elem_of_cons in Hj as [->|Hj]; [lia|].
  specialize (Hgt j Hj). lia.
Qed.

Lemma sound_frame rs d st now :
  Sound rs d st → Sound rs (dropped_below d st (GetUpdatedAckFrame st now)) (GetUpdatedAckFrame st now).
Proof.
  intros HS. pose proof HS as [Hl [Hwf Hrecv Hhon Hall Hlar Hmax [Hts Htr]]].
  split; [done|]. change (floor (GetUpdatedAckFrame st now)) with (floor st).
  destruct (sent_ranges_spec st) as (pre&E&_&Hor).
  assert (Eq : packets (ack_frame (GetUpdatedAckFrame st now)) = sent_ranges st) by done.
  assert (Hlen : zlen (packets (ack_frame st)) = zlen pre + zlen (sent_ranges st)) by (rewrite E at 1; apply zlen_app).
  assert (Hnil : pre = [] ∨ sent_ranges st ≠ []).
  { destruct Hor as [->|[Hm Hz]]; [by left|right]. intros En. rewrite En, (@zlen_nil interval) in Hz. lia. }
  assert (Hd' : dropped_below d st (GetUpdatedAckFrame st now)
    = if decide (pre = []) then d else Z.max d (PacketNumberQueue.Min (sent_ranges st))).
  { unfold dropped_below. rewrite Eq. unfold PacketNumberQueue.NumIntervals. rewrite Hlen.
    destruct (decide (pre = [])) as [->|Hne]; [rewrite (@zlen_nil interval)|].
    - by destruct (Z.ltb_spec (zlen (sent_ranges st)) (0 + zlen (sent_ranges st))); [lia|].
    - destruct pre as [|i pre]; [done|]. rewrite zlen_cons. pose proof (zlen_nonneg pre).
      by destruct (Z.ltb_spec (zlen (sent_ranges st)) (1 + zlen pre + zlen (sent_ranges st))); [|lia]. }
  rewrite Hd', Eq. unfold GetUpdatedAckFrame. rpm_simpl.
  assert (Htimes : ∀ f, StronglySorted (λ a b : Z * Z, a.2 <= b.2) (List.filter f (received_packet_times (ack_frame st)))
    ∧ ∀ x, x ∈ List.filter f (received_packet_times (ack_frame st)) → x.1 ∈ rs).
  { intros f. split; [by apply strongly_sorted_filter|].
    intros x [Hx _]%list_elem_of_In%filter_In. by apply Htr, list_elem_of_In. }
  destruct (decide (pre = [])) as [->|Hne].
  { cbn [app] in E. rewrite <-E. by split. }
  destruct Hnil as [?|Hnn]; [done|].
  rewrite E in Hwf. destruct (suffix_spec pre (sent_ranges st) Hwf Hnn) as [Hwf' Hd].
  split; [done|done|..].
  - intros z [Hz _]%Hd. apply Hhon. by rewrite E.
  - intros z Hz ? ?. apply Hd. split; [rewrite <-E; apply Hall; [done|done|lia]|lia].
  - done.
  - intros Hr. left. destruct (Hmax Hr) as [Hin|[En _]]; [|rewrite E in En; by destruct pre].
    apply Hd. split; [by rewrite <-E|].
    destruct (PacketNumberQueue.Min_spec _ (proj1 Hwf') Hnn) as [Hm _].
    apply Hd in Hm as [Hm _]. rewrite <-E in Hm. apply Hhon in Hm as [Hm _].
    destruct Hlar as [[-> _]|[_ Hle]]; [done|]. by apply Hle.
  - apply Htimes.
Qed.

Lemma MaybeUpdateAckTimeout_frame st b p time now min_rtt srtt delay :
  let st' := MaybeUpdateAckTimeout st b p time now min_rtt srtt delay in
  ack_frame st' = ack_frame st ∧ peer_least_packet_awaiting_ack st' = peer_least_packet_awaiting_ack st.
Proof.
  cbv zeta. unfold MaybeUpdateAckTimeout. destruct (negb (ack_frame_updated st)); [done|].
  destruct (_ && (p <? _)); [done|]. destruct (negb b); [done|]. destruct (_ && (_ <=? _)); done.
Qed.

Lemma receives_sound rs d st : receives rs d st → Sound rs d st.
Proof.
  induction 1 as [flag s has|rs d st p time _ IH Hp Ha|rs d st least _ IH Hk|rs d st now _ IH
    |rs d st b p time now min_rtt srtt delay _ IH|rs d st _ IH|rs d st n _ IH Hn|rs d st b _ IH|rs d st m n _ IH].
  - split; [by left|]. unfold floor. rpm_simpl. split.
    + split; [apply IntervalSet.valid_nil|]. intros z Hz. by apply IntervalSet.den_nil in Hz.
    + intros z Hz. by apply elem_of_nil in Hz.
    + intros z Hz. by apply IntervalSet.den_nil in Hz.
    + intros z Hz. by apply elem_of_nil in Hz.
    + by left.
    + done.
    + split; [constructor|]. intros x Hx. by apply elem_of_nil in Hx.
  - by apply sound_packet.
  - by apply sound_least.
  - by apply sound_frame.
  - destruct (MaybeUpdateAckTimeout_frame st b p time now min_rtt srtt delay) as [Ef El].
    unfold Sound, floor. by rewrite Ef, El.
  - exact IH.
  - exact IH.
  - exact IH.
  - exact IH.
Qed.

Lemma fraction_bounds d n : 0 <= d → 0 < n → 0 <= fraction d n.
Proof. intros Hd Hn. unfold fraction. destruct (Z.leb_spec 0 d); [|lia]. apply Z.div_pos; lia. Qed.

(** Moving a timeout never delays one that is set. *)
Lemma MaybeUpdateAckTimeoutTo_spec timeout time bound :
  0 <= timeout → 0 < time → time <= bound →
  0 < MaybeUpdateAckTimeoutTo timeout time <= bound
  ∧ (timeout ≠ 0 → MaybeUpdateAckTimeoutTo timeout time <= timeout).
Proof. unfold MaybeUpdateAckTimeoutTo. intros. destruct (Z.eqb_spec timeout 0), (Z.ltb_spec time timeout); cbn [orb]; lia. Qed.

(** ** Properties *)


(** The frame that is sent. Its ranges are the highest ones the limit allows, all of them when
    there is no limit; the delay is the time since the largest packet arrived, never negative, and
    infinite when none did; the arrival times are of packets received, in order of arrival, and
    close enough to the largest for a one-byte difference. *)
Theorem GetUpdatedAckFrame_correct rs d st now :
  receives rs d st →
  let st' := GetUpdatedAckFrame st now in
  let f := ack_frame st' in
  (∃ pre, packets (ack_frame st) = pre ++ packets f
     ∧ (0 < max_ack_ranges st → PacketNumberQueue.NumIntervals (packets f) <= max_ack_ranges st)
     ∧ (pre = [] ∨ (0 < max_ack_ranges st ∧ PacketNumberQueue.NumIntervals (packets f) = max_ack_ranges st)))
  ∧ largest_acked f = largest_acked (ack_frame st)
  ∧ (ack_delay_time f = if time_largest_observed st =? 0 then Delta_Infinite
                        else Z.max 0 (now - time_largest_observed st))
  ∧ StronglySorted (λ a b, a.2 <= b.2) (received_packet_times f)
  ∧ ∀ p time, (p, time) ∈ received_packet_times f → p ∈ rs ∧ 0 <= largest_acked f - p < 255.
Proof.
  intros HS%receives_sound. pose proof HS as [_ [_ Hrecv _ _ Hlar _ [Hts Htr]]]. cbv zeta.
  split; [exact (sent_ranges_spec st)|]. split; [done|]. unfold GetUpdatedAckFrame. rpm_simpl.
  cbn [ack_delay_time]. split; [|split].
  - unfold QuicTime_Zero. destruct (Z.eqb_spec (time_largest_observed st) 0); [done|].
    destruct (Z.ltb_spec now (time_largest_observed st)); lia.
  - by apply strongly_sorted_filter.
  - intros p time [Hx Hf]%list_elem_of_In%filter_In. apply list_elem_of_In, Htr in Hx. cbn [fst] in *.
    split; [done|]. destruct Hlar as [[-> _]|[Hin Hle]]; [by apply elem_of_nil in Hx|].
    specialize (Hle p Hx). pose proof (Hrecv _ Hin). pose proof (Hrecv _ Hx). unfold ok in *.
    rewrite sub_small in Hf by lia. lia.
Qed.

(** An acknowledgement is never late. When a packet that asks for one has been recorded, a
    timeout is set, no later than the maximum delay from now, and one already set is not moved past
    its time (or now); it is now when a packet reported missing arrives, when enough packets wait
    for an acknowledgement (two by default, ten with decimation unless it is unlimited), and when a
    new gap appears, except that decimation with reordering may wait an eighth of the minimum RTT. *)
Theorem MaybeUpdateAckTimeout_in_time st p time now min_rtt srtt delay :
  ack_frame_updated st = true → 0 < now → 0 <= ack_timeout st → 1000 <= delay → 0 <= min_rtt →
  0 < ack_decimation_delay st →
  let st' := MaybeUpdateAckTimeout st true p time now min_rtt srtt delay in
  let num := num_retransmittable_packets_received_since_last_ack_sent st + 1 in
  let decimate := bool_decide (ack_mode st ≠ TCP_ACKING)
    && (add (PeerFirstSendingPacketNumber st) (min_received_before_ack_decimation st) <=? p) in
  0 < ack_timeout st'
  ∧ ack_timeout st' <= now + delay
  ∧ (ack_timeout st ≠ 0 → ack_timeout st' <= Z.max now (ack_timeout st))
  ∧ (was_last_packet_missing st = true → IsInitialized (last_sent_largest_acked st) = true →
     p < last_sent_largest_acked st → ack_timeout st' = now)
  ∧ (decimate = false → ack_frequency_before_ack_decimation st <= num → ack_timeout st' <= now)
  ∧ (decimate = true → unlimited_ack_decimation st = false → kMaxRetransmittablePacketsBeforeAck <= num →
     ack_timeout st' = now)
  ∧ (HasNewMissingPackets st = true → ack_mode st ≠ ACK_DECIMATION_WITH_REORDERING → ack_timeout st' = now).
Proof.
  intros Hup Hnow Ht Hdelay Hrtt Hdec. cbv zeta. unfold MaybeUpdateAckTimeout. rewrite Hup. cbn [negb].
  set (num := num_retransmittable_packets_received_since_last_ack_sent st + 1).
  set (decimate := bool_decide (ack_mode st ≠ TCP_ACKING) && _).
  pose proof (fraction_bounds min_rtt (ack_decimation_delay st) Hrtt Hdec) as Hf1.
  pose proof (fraction_bounds min_rtt kShortAckDecimationDelay Hrtt ltac:(done)) as Hf2.
  destruct (was_last_packet_missing st && _ && _) eqn:Emiss; rpm_simpl.
  { repeat (split; [lia|]). lia. }
  assert (Hmiss : was_last_packet_missing st = true → IsInitialized (last_sent_largest_acked st) = true →
    p < last_sent_largest_acked st → False).
  { intros E1 E2 E3. rewrite E1, E2 in Emiss. cbn [andb] in Emiss. lia. }
  destruct (decimate && _ && _) eqn:Ecap; rpm_simpl.
  { repeat (split; [lia|]). lia. }
  assert (Hcap : decimate = true → unlimited_ack_decimation st = false →
    kMaxRetransmittablePacketsBeforeAck <= num → False).
  { intros E1 E2 E3. rewrite E1, E2 in Ecap. cbn [andb negb] in Ecap. lia. }
  set (quiescent := fast_ack_after_quiescence st && _).
  set (ack_delay := if quiescent then 1000 else Z.min delay (fraction min_rtt (ack_decimation_delay st))).
  assert (Hd : 0 <= ack_delay <= delay) by (unfold ack_delay; destruct quiescent; lia).
  set (timeout := if decimate then _ else _).
  assert (Hto : 0 < timeout <= now + delay ∧ (ack_timeout st ≠ 0 → timeout <= Z.max now (ack_timeout st))
    ∧ (decimate = false → ack_frequency_before_ack_decimation st <= num → timeout <= now)).
  { pose proof (MaybeUpdateAckTimeoutTo_spec (ack_timeout st) (now + ack_delay) (now + delay)) as H1.
    pose proof (MaybeUpdateAckTimeoutTo_spec (ack_timeout st) (now + 1000) (now + delay)) as H2.
    pose proof (MaybeUpdateAckTimeoutTo_spec (ack_timeout st) (now + delay) (now + delay)) as H3.
    unfold timeout. destruct decimate; [naive_solver lia|].
    destruct (Z.leb_spec (ack_frequency_before_ack_decimation st) num); [naive_solver lia|].
    destruct quiescent; naive_solver lia. }
  destruct Hto as (Hto1&Hto2&Hto3).
  assert (Hfinal : ∀ final, (final = timeout ∨ final = now ∨ (0 < final <= timeout)) →
    0 < final ∧ final <= now + delay ∧ (ack_timeout st ≠ 0 → final <= Z.max now (ack_timeout st))
    ∧ (decimate = false → ack_frequency_before_ack_decimation st <= num → final <= now)).
  { intros final Hfinal. naive_solver lia. }
  pose proof (MaybeUpdateAckTimeoutTo_spec timeout (now + fraction min_rtt kShortAckDecimationDelay)
    (now + fraction min_rtt kShortAckDecimationDelay) ltac:(lia) ltac:(lia) ltac:(lia)) as [Hr1 Hr2].
  destruct (HasNewMissingPackets st); [case_bool_decide as Em|].
  - destruct (Hfinal (MaybeUpdateAckTimeoutTo timeout (now + fraction min_rtt kShortAckDecimationDelay))) as (?&?&?&?);
      [lia|]. repeat (split; [done || (intros; exfalso; naive_solver)|]). done.
  - destruct (Hfinal now) as (?&?&?&?); [lia|]. repeat (split; [done|]). done.
  - destruct (Hfinal timeout) as (?&?&?&?); [lia|]. repeat (split; [done || (intros; exfalso; naive_solver)|]). done.
Qed.

(** A run: packets 1, 2 and 5 arrive, with times saved and at most one range. *)
Definition ex_new : t :=
  set_max_ack_ranges (set_save_timestamps (SetFromConfig false (λ _, false) (new false (mk_stats 0 0 0))) true) 1.
Definition ex_run : t :=
  RecordPacketReceived (RecordPacketReceived (RecordPacketReceived ex_new 1 100) 2 110) 5 130.

Lemma ex_run_receives : receives [5; 2; 1] 0 ex_run.
Proof.
  do 3 (apply v_packet; [|split; [discriminate|reflexivity]|reflexivity]).
  apply v_ranges; [|discriminate]. apply v_timestamps, v_new.
Qed.


Lemma GetUpdatedAckFrame_correct_witness :
  packets (ack_frame (GetUpdatedAckFrame ex_run 150)) = [Interval.mk 5 6]
  ∧ ack_delay_time (ack_frame (GetUpdatedAckFrame ex_run 150)) = 20
  ∧ StronglySorted (λ a b, a.2 <= b.2) (received_packet_times (ack_frame (GetUpdatedAckFrame ex_run 150))).
Proof.
  destruct (GetUpdatedAckFrame_correct [5; 2; 1] 0 ex_run 150 ex_run_receives) as (_&_&Hd&Hs&_).
  split; [reflexivity|]. split; [exact Hd|exact Hs].
Defined.

Lemma MaybeUpdateAckTimeout_in_time_witness :
  HasNewMissingPackets ex_run = true
  ∧ ack_timeout (MaybeUpdateAckTimeout ex_run true 5 130 130 8000 10000 25000) = 130.
Proof.
  destruct (MaybeUpdateAckTimeout_in_time ex_run 5 130 130 8000 10000 25000) as (_&_&_&_&_&_&Hn);
    try (reflexivity || discriminate).
  split; [reflexivity|]. apply Hn; [reflexivity|discriminate].
Defined.
End ReceivedPacketManager.
