(* ===== verification/PacketNumberWire.v ===== *)
(** The packet number and timestamp codecs of [QuicFramer] (quic/core/quic_framer.cc): only the low
    bytes of a number are sent, and the receiver takes the number nearest to the one it expects. The
    number of bytes is chosen by [QuicPacketCreator::UpdatePacketNumberLength]
    (quic/core/quic_packet_creator.cc). *)

From S2P Require Import Prelude Bytes OrderedSet IntervalSet DataWire PacketNumber.

Module PacketNumberWire.
Import PacketNumber.

(** [QuicPacketNumberLength]: its number of bytes. *)
Inductive QuicPacketNumberLength :=
  PACKET_1BYTE_PACKET_NUMBER | PACKET_2BYTE_PACKET_NUMBER | PACKET_3BYTE_PACKET_NUMBER
| PACKET_4BYTE_PACKET_NUMBER | PACKET_6BYTE_PACKET_NUMBER | PACKET_8BYTE_PACKET_NUMBER.

Definition length_of (l : QuicPacketNumberLength) : nat :=
  match l with
  | PACKET_1BYTE_PACKET_NUMBER => 1 | PACKET_2BYTE_PACKET_NUMBER => 2 | PACKET_3BYTE_PACKET_NUMBER => 3
  | PACKET_4BYTE_PACKET_NUMBER => 4 | PACKET_6BYTE_PACKET_NUMBER => 6 | PACKET_8BYTE_PACKET_NUMBER => 8
  end.

Definition PACKET_FLAGS_1BYTE_PACKET : Z := 0.
Definition PACKET_FLAGS_2BYTE_PACKET : Z := 1.
Definition PACKET_FLAGS_4BYTE_PACKET : Z := 2.
Definition PACKET_FLAGS_8BYTE_PACKET : Z := 3.

Definition ReadSequenceNumberLength (flags : Z) : QuicPacketNumberLength :=
  let f := Z.land flags PACKET_FLAGS_8BYTE_PACKET in
  if f =? PACKET_FLAGS_8BYTE_PACKET then PACKET_6BYTE_PACKET_NUMBER
  else if f =? PACKET_FLAGS_4BYTE_PACKET then PACKET_4BYTE_PACKET_NUMBER
  else if f =? PACKET_FLAGS_2BYTE_PACKET then PACKET_2BYTE_PACKET_NUMBER
  else if f =? PACKET_FLAGS_1BYTE_PACKET then PACKET_1BYTE_PACKET_NUMBER
  else PACKET_6BYTE_PACKET_NUMBER.

Definition GetPacketNumberFlags (l : QuicPacketNumberLength) : Z :=
  match l with
  | PACKET_1BYTE_PACKET_NUMBER => PACKET_FLAGS_1BYTE_PACKET
  | PACKET_2BYTE_PACKET_NUMBER => PACKET_FLAGS_2BYTE_PACKET
  | PACKET_4BYTE_PACKET_NUMBER => PACKET_FLAGS_4BYTE_PACKET
  | PACKET_6BYTE_PACKET_NUMBER => PACKET_FLAGS_8BYTE_PACKET
  | PACKET_8BYTE_PACKET_NUMBER => PACKET_FLAGS_8BYTE_PACKET
  | PACKET_3BYTE_PACKET_NUMBER => PACKET_FLAGS_8BYTE_PACKET
  end.

Definition Delta (a b : Z) : Z := if a <? b then wrap64 (b - a) else wrap64 (a - b).
Definition ClosestTo (target a b : Z) : Z := if Delta target a <? Delta target b then a else b.

(** The candidates: the epoch of [last], the one before and the one after, all modulo 2^64. *)
Definition CalculateTimestampFromWire (last_timestamp time_delta_us : Z) : Z :=
  let epoch_delta := Z.shiftl 1 32 in
  let epoch := Z.land last_timestamp (Z.lxor (epoch_delta - 1) (two64 - 1)) in
  let prev_epoch := wrap64 (epoch - epoch_delta) in
  let next_epoch := wrap64 (epoch + epoch_delta) in
  ClosestTo last_timestamp (wrap64 (epoch + time_delta_us))
    (ClosestTo last_timestamp (wrap64 (prev_epoch + time_delta_us)) (wrap64 (next_epoch + time_delta_us))).

(** The shift by 64 of an 8-byte length is undefined in C++; here it gives 0 as an unbounded shift. *)
Definition CalculatePacketNumberFromWire (packet_number_length : QuicPacketNumberLength)
    (base_packet_number packet_number : Z) : Z :=
  if negb (IsInitialized base_packet_number) then packet_number else
  let epoch_delta := wrap64 (Z.shiftl 1 (8 * Z.of_nat (length_of packet_number_length))) in
  let next_packet_number := wrap64 (base_packet_number + 1) in
  let epoch := Z.land base_packet_number (Z.lxor (wrap64 (epoch_delta - 1)) (two64 - 1)) in
  let prev_epoch := wrap64 (epoch - epoch_delta) in
  let next_epoch := wrap64 (epoch + epoch_delta) in
  ClosestTo next_packet_number (wrap64 (epoch + packet_number))
    (ClosestTo next_packet_number (wrap64 (prev_epoch + packet_number)) (wrap64 (next_epoch + packet_number))).

Definition GetMinPacketNumberLength (packet_number : Z) : QuicPacketNumberLength :=
  if packet_number <? Z.shiftl 1 8 then PACKET_1BYTE_PACKET_NUMBER
  else if packet_number <? Z.shiftl 1 16 then PACKET_2BYTE_PACKET_NUMBER
  else if packet_number <? Z.shiftl 1 32 then PACKET_4BYTE_PACKET_NUMBER
  else PACKET_6BYTE_PACKET_NUMBER.

Definition IsValidPacketNumberLength (l : QuicPacketNumberLength) : bool :=
  let length := length_of l in
  (length =? 1)%nat || (length =? 2)%nat || (length =? 4)%nat || (length =? 6)%nat || (length =? 8)%nat.

(** The length for the next packet, from the last one sent. *)
Definition UpdatePacketNumberLength (queued_frames_empty : bool) (length : QuicPacketNumberLength)
    (packet_number least_packet_awaited_by_peer max_packets_in_flight : Z) : QuicPacketNumberLength :=
  if negb queued_frames_empty then length else
  let current_delta := wrap64 (add packet_number 1 - least_packet_awaited_by_peer) in
  let delta := Z.max current_delta max_packets_in_flight in
  GetMinPacketNumberLength (wrap64 (delta * 4)).

Section endian.
Context `{EndianImpl}.

Definition AppendPacketNumber (l : QuicPacketNumberLength) (packet_number : Z) : Writer.action := λ w,
  if negb (IsValidPacketNumberLength l) then (false, w)
  else Writer.WriteBytesToUInt64 (length_of l) packet_number w.

Definition ProcessAndCalculatePacketNumber (l : QuicPacketNumberLength) (base_packet_number : Z)
    : Reader.action Z := λ r,
  match Reader.ReadBytesToUInt64 (length_of l) r with
  | (Some wire_packet_number, r) =>
      (Some (CalculatePacketNumberFromWire l base_packet_number wire_packet_number), r)
  | (None, r) => (None, r)
  end.
End endian.

(** ** Correctness *)

Lemma Delta_abs a b : is_u64 a → is_u64 b → Delta a b = Z.abs (a - b).
Proof.
  intros Ha Hb. unfold Delta, wrap64. destruct (Z.ltb_spec a b); rewrite Z.mod_small by (unfold two64 in *; lia); lia.
Qed.

(** Clearing the low bits. *)
Lemma epoch_spec z n :
  is_u64 z → 0 <= n <= 63 →
  Z.land z (Z.lxor (2 ^ n - 1) (two64 - 1)) = z - z mod 2 ^ n.
Proof.
  intros Hz Hn.
  assert (Ediv : z - z mod 2 ^ n = Z.shiftl (Z.shiftr z n) n).
  { rewrite Z.shiftl_mul_pow2, Z.shiftr_div_pow2 by lia.
    pose proof (Z.div_mod z (2 ^ n) ltac:(pose proof (Z.pow_pos_nonneg 2 n); lia)). lia. }
  rewrite Ediv. apply Z.bits_inj'. intros k Hk.
  rewrite Z.land_spec, Z.lxor_spec. replace (2 ^ n - 1) with (Z.ones n) by (rewrite Z.ones_equiv; lia).
  replace (two64 - 1) with (Z.ones 64) by reflexivity.
  rewrite !Z.testbit_ones by lia. rewrite Z.shiftl_spec by lia.
  destruct (Z.ltb_spec k n).
  - rewrite (Z.testbit_neg_r _ (k - n)) by lia. destruct (Z.leb_spec 0 k), (Z.ltb_spec k 64); cbn; try lia.
  - rewrite Z.shiftr_spec by lia. replace (k - n + n) with k by lia.
    destruct (Z.leb_spec 0 k); [|lia]. cbn [andb xorb]. destruct (Z.ltb_spec k 64); [by rewrite andb_true_r|].
    rewrite andb_false_r. symmetry. rewrite <-(Z.mod_small z (2 ^ 64)) by (unfold two64 in Hz; lia).
    by apply Z.mod_pow2_bits_high; lia.
Qed.

(** The three candidates, at [E] from each other except for a wrap around 0. *)
Lemma nearest_of_three E target p epoch w k :
  0 < E <= 281474976710656 → 0 <= target <= two62 → 0 <= p < two62 → 2 * Z.abs (p - target) < E →
  0 <= epoch < two62 → 0 <= w < E → p = epoch + k * E + w → k = -1 ∨ k = 0 ∨ k = 1 →
  ClosestTo target (wrap64 (epoch + w))
    (ClosestTo target (wrap64 (wrap64 (epoch - E) + w)) (wrap64 (wrap64 (epoch + E) + w))) = p.
Proof.
  unfold two62. intros HE Ht Hp Hclose He Hw Hpe Hk.
  assert (Hcur : wrap64 (epoch + w) = epoch + w) by (apply Z.mod_small; unfold two64; lia).
  assert (Hnext : wrap64 (wrap64 (epoch + E) + w) = epoch + E + w).
  { unfold wrap64. rewrite (Z.mod_small (epoch + E)) by (unfold two64; lia). apply Z.mod_small. unfold two64. lia. }
  assert (Hprev : ∃ prev, wrap64 (wrap64 (epoch - E) + w) = prev ∧ 0 <= prev < two64
    ∧ (prev = epoch - E + w ∨ (prev = epoch - E + w + two64 ∧ epoch - E + w < 0))).
  { unfold wrap64. rewrite Z.add_mod_idemp_l by (unfold two64; lia). eexists. split; [done|].
    split; [apply Z.mod_pos_bound; reflexivity|]. destruct (Z.lt_ge_cases (epoch - E + w) 0).
    - right. rewrite <-(Z.mod_add _ 1) by (unfold two64; lia). rewrite Z.mod_small by (unfold two64; lia). lia.
    - left. apply Z.mod_small. unfold two64. lia. }
  destruct Hprev as (prev&->&Hpr&Hpv). rewrite Hcur, Hnext. unfold ClosestTo.
  rewrite (Delta_abs target prev), (Delta_abs target (epoch + E + w)), (Delta_abs target (epoch + w))
    by (unfold two64 in *; lia).
  assert (Hp3 : (k = -1 ∧ p = epoch - E + w ∧ prev = p) ∨ (k = 0 ∧ p = epoch + w) ∨ (k = 1 ∧ p = epoch + E + w)).
  { destruct Hk as [->|[->| ->]]; lia. }
  clear Hpe Hk Hcur Hnext. unfold two64 in *.
  destruct (Z.ltb_spec (Z.abs (target - prev)) (Z.abs (target - (epoch + E + w)))).
  - rewrite Delta_abs by (unfold two64; lia).
    destruct (Z.ltb_spec (Z.abs (target - (epoch + w))) (Z.abs (target - prev))); lia.
  - rewrite Delta_abs by (unfold two64; lia).
    destruct (Z.ltb_spec (Z.abs (target - (epoch + w))) (Z.abs (target - (epoch + E + w)))); lia.
Qed.

(** The nearest of the three candidates is the number that was sent. *)
Lemma nearest_epoch E base target p :
  0 < E <= 281474976710656 → 0 <= base < two62 → base <= target <= base + 1 → 0 <= p < two62 →
  2 * Z.abs (p - target) < E →
  let epoch := base - base mod E in
  ClosestTo target (wrap64 (epoch + p mod E))
    (ClosestTo target (wrap64 (wrap64 (epoch - E) + p mod E)) (wrap64 (wrap64 (epoch + E) + p mod E))) = p.
Proof.
  intros HE Hb Ht Hp Hclose epoch.
  pose proof (Z.mod_pos_bound base E ltac:(lia)) as Hbm. pose proof (Z.mod_pos_bound p E ltac:(lia)) as Hpm.
  assert (Hbe : base mod E <= base) by (apply Z.mod_le; lia).
  assert (Hq : base / E - 1 <= p / E <= base / E + 1).
  { split.
    - apply Z.le_sub_le_add_r. rewrite <-(Z.div_add p 1 E) by lia. apply Z.div_le_mono; lia.
    - rewrite <-(Z.div_add base 1 E) by lia. apply Z.div_le_mono; lia. }
  assert (Hpe : p = epoch + (p / E - base / E) * E + p mod E).
  { unfold epoch. rewrite (Z.div_mod p E) at 1 by lia. rewrite (Z.div_mod base E) at 1 by lia. ring. }
  apply (nearest_of_three E target p epoch (p mod E) (p / E - base / E)); try done; unfold epoch, two62 in *; lia.
Qed.

(** The width of the numbers of a length. *)
Definition width (l : QuicPacketNumberLength) : Z := pow256 (length_of l).

Lemma width_pow l : width l = 2 ^ (8 * Z.of_nat (length_of l)) ∧ (l ≠ PACKET_8BYTE_PACKET_NUMBER → width l <= 281474976710656).
Proof. destruct l; (split; [reflexivity|intros; try done]); vm_compute; discriminate. Qed.

Lemma CalculatePacketNumberFromWire_spec l base p :
  l ≠ PACKET_8BYTE_PACKET_NUMBER → 0 <= base < two62 → 0 <= p < two62 →
  2 * Z.abs (p - (base + 1)) < width l →
  CalculatePacketNumberFromWire l base (p mod width l) = p.
Proof.
  intros Hl Hb Hp Hclose. destruct (width_pow l) as [Hw Hle]. specialize (Hle Hl).
  unfold CalculatePacketNumberFromWire. unfold two62 in *.
  replace (IsInitialized base) with true by (unfold IsInitialized, UninitializedPacketNumber, two64; lia).
  cbn [negb]. rewrite Z.shiftl_1_l, <-Hw.
  assert (Hpos : 0 < width l) by (destruct l; reflexivity).
  assert (Ew : wrap64 (width l) = width l) by (apply Z.mod_small; unfold two64; lia).
  assert (Ew1 : wrap64 (width l - 1) = width l - 1) by (apply Z.mod_small; unfold two64; lia).
  assert (Eb : wrap64 (base + 1) = base + 1) by (apply Z.mod_small; unfold two64; lia).
  rewrite Ew, Ew1, Eb. replace (width l - 1) with (2 ^ (8 * Z.of_nat (length_of l)) - 1) by lia.
  rewrite epoch_spec by (unfold two64; lia || (destruct l; cbn [length_of]; lia || done)). rewrite <-Hw.
  apply nearest_epoch; unfold two62; lia.
Qed.

Lemma GetMinPacketNumberLength_spec z :
  0 <= z < 281474976710656 →
  z < width (GetMinPacketNumberLength z) ∧ GetMinPacketNumberLength z ≠ PACKET_8BYTE_PACKET_NUMBER
  ∧ IsValidPacketNumberLength (GetMinPacketNumberLength z) = true
  ∧ ReadSequenceNumberLength (GetPacketNumberFlags (GetMinPacketNumberLength z)) = GetMinPacketNumberLength z.
Proof.
  intros Hz. unfold GetMinPacketNumberLength.
  change (Z.shiftl 1 8) with 256. change (Z.shiftl 1 16) with 65536. change (Z.shiftl 1 32) with 4294967296.
  destruct (Z.ltb_spec z 256); [|destruct (Z.ltb_spec z 65536); [|destruct (Z.ltb_spec z 4294967296)]];
    (split; [match goal with |- _ < ?x => let v := eval vm_compute in x in change (z < v) end; lia|]); (split; [done|]); split; reflexivity.
Qed.

Lemma width_min l : 256 <= width l.
Proof. destruct l; vm_compute; discriminate. Qed.

Lemma length_of_le l : (length_of l <= 8)%nat.
Proof. destruct l; cbn; lia. Qed.

(** C38. The packet number codec is lossless. Let [p] be the next packet, [least] the least packet
    the peer waits for, and [delta] the larger of their distance and the packets that may be in
    flight (with [4 delta] below 2^48). The length the creator chooses is one the flags of the header
    carry; the writer emits the low bytes of [p] in it when there is room; and a receiver whose
    largest packet is anywhere from [least - 1] to [p + delta] reads back [p]. *)
Theorem packet_number_survives_the_wire `{EI : EndianImpl} `{EL : !EndianLaws} last_sent least in_flight base e w r k len0 :
  let p := last_sent + 1 in
  let delta := Z.max (p - least) in_flight in
  let len := UpdatePacketNumberLength true len0 last_sent least in_flight in
  0 <= last_sent → p < two62 → 0 <= least <= p → 0 <= in_flight → 4 * delta < 281474976710656 →
  0 <= base < two62 → least - 1 <= base <= p + delta →
  WriterSpec.wf w → Writer.endianness w = e → Z.of_nat (length_of len) <= Writer.remaining w →
  ReaderSpec.wf r → Reader.endianness r = e → ReaderSpec.rest r = WriterSpec.uint_bytes e (length_of len) (p mod width len) ++ k →
  ReadSequenceNumberLength (GetPacketNumberFlags len) = len
  ∧ (let '(ok, w') := AppendPacketNumber len p w in
     ok = true ∧ WriterSpec.written w' = WriterSpec.written w ++ WriterSpec.uint_bytes e (length_of len) (p mod width len))
  ∧ ∃ r', ProcessAndCalculatePacketNumber len base r = (Some p, r') ∧ ReaderSpec.rest r' = k.
Proof.
  intros p delta len Hls Hp Hleast Hfl Hdelta Hb Hbase Hw Hew Hroom Hr Her Hrest. unfold two62 in *.
  assert (Hadd : wrap64 (add last_sent 1 - least) = p - least).
  { rewrite add_small by (unfold two64; lia). apply Z.mod_small. unfold two64. lia. }
  assert (Elen : len = GetMinPacketNumberLength (delta * 4)).
  { unfold len, UpdatePacketNumberLength. cbn [negb]. rewrite Hadd. fold delta. f_equal.
    apply Z.mod_small. unfold two64. lia. }
  destruct (GetMinPacketNumberLength_spec (delta * 4) ltac:(lia)) as (Hwd&Hn8&Hval&Hflags).
  rewrite <-Elen in *. pose proof (width_min len). split; [done|]. split.
  - unfold AppendPacketNumber. rewrite Hval. cbn [negb].
    pose proof (WriterSpec.emits_WriteBytesToUInt64 e (length_of len) p (length_of_le len)
      ltac:(unfold two64; lia) w Hw Hew) as Hem.
    destruct (Writer.WriteBytesToUInt64 (length_of len) p w) as [ok w']. destruct Hem as (_&_&_&_&->&Hok).
    assert (Hz : zlen (WriterSpec.uint_bytes e (length_of len) (p mod pow256 (length_of len))) = Z.of_nat (length_of len)).
    { unfold zlen. destruct e; cbn; by rewrite ?le_bytes_length, ?be_bytes_length. }
    rewrite Hz in *. split; [lia|]. apply Hok. lia.
  - unfold ProcessAndCalculatePacketNumber.
    destruct (ReaderSpec.reads_ReadBytesToUInt64 e (length_of len) (p mod width len)
      (length_of_le len) ltac:(apply (Z.mod_pos_bound p (width len)); lia) r k Hr Her Hrest) as (r'&->&_&Hk&_).
    exists r'. split; [|done]. rewrite CalculatePacketNumberFromWire_spec; [done|done|done|unfold two62; lia|lia].
Qed.

(** A packet number is recovered from any length when it is less than half the width of the
    length away from the one expected, and a timestamp from its low 32 bits when it is less than
    2^31 microseconds away from the last one. *)
Theorem nearest_number_is_recovered l base p last time :
  l ≠ PACKET_8BYTE_PACKET_NUMBER → 0 <= base < two62 → 0 <= p < two62 →
  2 * Z.abs (p - (base + 1)) < width l →
  0 <= last < two62 → 0 <= time < two62 → Z.abs (time - last) < 2147483648 →
  CalculatePacketNumberFromWire l base (p mod width l) = p
  ∧ CalculateTimestampFromWire last (wrap32 time) = time.
Proof.
  intros Hl Hb Hp Hclose Hlast Htime Hct. split; [by apply CalculatePacketNumberFromWire_spec|].
  unfold CalculateTimestampFromWire. change (Z.shiftl 1 32 - 1) with (2 ^ 32 - 1).
  rewrite epoch_spec by (unfold two62, two64 in *; lia). change (Z.shiftl 1 32) with 4294967296.
  apply (nearest_epoch 4294967296); lia.
Qed.

Lemma packet_number_survives_the_wire_witness :
  ∃ r', ProcessAndCalculatePacketNumber PACKET_2BYTE_PACKET_NUMBER 69990
          (Reader.new [17; 113; 255] NETWORK_BYTE_ORDER) = (Some 70001, r')
        ∧ ReaderSpec.rest r' = [255].
Proof.
  apply (packet_number_survives_the_wire (EL := swap_endian_laws) 70000 69900 40 69990 NETWORK_BYTE_ORDER
    (Writer.new 4 NETWORK_BYTE_ORDER) (Reader.new [17; 113; 255] NETWORK_BYTE_ORDER) [255]
    PACKET_1BYTE_PACKET_NUMBER); try (split; discriminate) || discriminate || reflexivity.
  - split; [discriminate|reflexivity].
  - apply ReaderSpec.reader_new_wf.
Defined.

Lemma nearest_number_is_recovered_witness :
  CalculatePacketNumberFromWire PACKET_1BYTE_PACKET_NUMBER 255 (260 mod width PACKET_1BYTE_PACKET_NUMBER) = 260
  ∧ CalculateTimestampFromWire 4294967290 (wrap32 4294967300) = 4294967300.
Proof.
  apply (nearest_number_is_recovered PACKET_1BYTE_PACKET_NUMBER 255 260 4294967290 4294967300);
    try discriminate; try (split; [discriminate|reflexivity]); reflexivity.
Defined.
End PacketNumberWire.
