(* ===== verification/PacketNumberIndexedQueue.v ===== *)
(** [PacketNumberIndexedQueue] (quic/core/packet_number_indexed_queue.h): a deque of entries by packet
    number, with marks for the absent ones; the deque starts at the lowest present number. It is shown
    to be a finite map whose keys are added in increasing order. *)

From stdpp Require Import gmap.
From S2P Require Import Prelude OrderedSet IntervalSet PacketNumber.

Module PacketNumberIndexedQueue.
Import PacketNumber.

Section queue.
Context {T : Type} (T_default : T).

(** An entry keeps its value when it is marked absent. *)
Record EntryWrapper := mk_entry { value : T; present : bool }.

Record t := mk {
  entries : list EntryWrapper;
  number_of_present_entries : Z;
  first_packet : Z;
}.

Definition new : t := mk [] 0 UninitializedPacketNumber.
Definition absent : EntryWrapper := mk_entry T_default false.

Definition IsEmpty (q : t) : bool := number_of_present_entries q =? 0.
Definition entry_slots_used (q : t) : Z := zlen (entries q).

Definition last_packet (q : t) : Z :=
  if IsEmpty q then UninitializedPacketNumber else sub (add (first_packet q) (zlen (entries q))) 1.

(** The index of the entry of a packet, and the entry. *)
Definition GetEntryWrapper (q : t) (p : Z) : option (nat * EntryWrapper) :=
  if negb (IsInitialized p) || IsEmpty q || (p <? first_packet q) then None else
  let offset := sub p (first_packet q) in
  if zlen (entries q) <=? offset then None else
  match entries q !! Z.to_nat offset with
  | Some e => if negb (present e) then None else Some (Z.to_nat offset, e)
  | None => None
  end.

Definition GetEntry (q : t) (p : Z) : option T :=
  match GetEntryWrapper q p with
  | None => None
  | Some (_, e) => Some (value e)
  end.

Definition Emplace (q : t) (p : Z) (v : T) : t * bool :=
  if negb (IsInitialized p) then (q, false) else
  if IsEmpty q then (mk (entries q ++ [mk_entry v true]) 1 p, true) else
  if p <=? last_packet q then (q, false) else
  let offset := sub p (first_packet q) in
  let l := if zlen (entries q) <? offset
           then entries q ++ replicate (Z.to_nat offset - length (entries q)) absent else entries q in
  (mk (l ++ [mk_entry v true]) (number_of_present_entries q + 1) (first_packet q), true).

(** The loop of [Cleanup]. *)
Fixpoint Cleanup_loop (l : list EntryWrapper) (first : Z) : list EntryWrapper * Z :=
  match l with
  | e :: l' => if negb (present e) then Cleanup_loop l' (add first 1) else (l, first)
  | [] => ([], first)
  end.

Definition Cleanup (q : t) : t :=
  let '(l, first) := Cleanup_loop (entries q) (first_packet q) in
  mk l (number_of_present_entries q) (match l with [] => PacketNumber.Clear | _ => first end).

(** [Remove] with a callback: the queue, the entry the callback is given, and the result. *)
Definition Remove (q : t) (p : Z) : t * option T * bool :=
  match GetEntryWrapper q p with
  | None => (q, None, false)
  | Some (i, e) =>
      let q1 := mk (<[i := mk_entry (value e) false]> (entries q)) (number_of_present_entries q - 1)
                   (first_packet q) in
      (if p =? first_packet q then Cleanup q1 else q1, Some (value e), true)
  end.

(** ** Correctness *)

Ltac iq_simpl := cbn [entries number_of_present_entries first_packet value present] in *.

(** What a list of entries that starts at [first] says of a packet. *)
Definition slot (l : list EntryWrapper) (first p : Z) : option T :=
  if p <? first then None else
  match l !! Z.to_nat (p - first) with
  | Some e => if present e then Some (value e) else None
  | None => None
  end.

(** The queue represents the map [m]: it is in its initial state when [m] is empty, and otherwise
    starts at a present entry. *)
Record Rep (q : t) (m : gmap Z T) : Prop := {
  rep_size : number_of_present_entries q = Z.of_nat (size m);
  rep_empty : m = ∅ → entries q = [] ∧ first_packet q = UninitializedPacketNumber;
  rep_head : m ≠ ∅ → match entries q with e :: _ => present e = true | [] => False end
                     ∧ 0 <= first_packet q ∧ first_packet q + zlen (entries q) <= two64 - 2;
  rep_slot p : m ≠ ∅ → m !! p = slot (entries q) (first_packet q) p;
}.

Lemma new_rep : Rep new ∅.
Proof. by split. Qed.

Lemma IsEmpty_spec q m : Rep q m → (IsEmpty q = true ↔ m = ∅).
Proof.
  intros [Hs _ _ _]. unfold IsEmpty. rewrite Hs, Z.eqb_eq, <-map_size_empty_iff. lia.
Qed.

Lemma IsEmpty_false q m : Rep q m → m ≠ ∅ → IsEmpty q = false.
Proof. intros Hr Hm. apply not_true_iff_false. by rewrite IsEmpty_spec. Qed.

Lemma last_packet_spec q m :
  Rep q m → m ≠ ∅ → last_packet q = first_packet q + zlen (entries q) - 1.
Proof.
  intros Hr Hm. unfold last_packet. rewrite (IsEmpty_false q m Hr Hm).
  destruct (rep_head _ _ Hr Hm) as (Hh&?&?). destruct (entries q) as [|e l]; [done|].
  rewrite zlen_cons in *. pose proof (zlen_nonneg l). unfold two64 in *.
  rewrite add_small by (unfold two64; lia). apply sub_small. unfold two64. lia.
Qed.

Lemma slot_bounds l first p v : slot l first p = Some v → first <= p < first + zlen l.
Proof.
  unfold slot. destruct (Z.ltb_spec p first); [done|]. destruct (l !! Z.to_nat (p - first)) eqn:E; [|done].
  apply lookup_lt_Some in E. unfold zlen. lia.
Qed.

(** Finding the entry of a packet. *)
Lemma GetEntryWrapper_spec q m p :
  Rep q m → ok p →
  match GetEntryWrapper q p with
  | Some (i, e) => m !! p = Some (value e) ∧ present e = true ∧ first_packet q <= p
                   ∧ i = Z.to_nat (p - first_packet q) ∧ entries q !! i = Some e
  | None => m !! p = None
  end.
Proof.
  intros Hr Hp. unfold GetEntryWrapper. rewrite ok_initialized by done. cbn [negb orb].
  destruct (decide (m = ∅)) as [->|Hm].
  { rewrite (proj2 (IsEmpty_spec q ∅ Hr) eq_refl). cbn [orb]. apply lookup_empty. }
  rewrite (IsEmpty_false q m Hr Hm). cbn [orb]. rewrite (rep_slot _ _ Hr p Hm). unfold slot.
  destruct (Z.ltb_spec p (first_packet q)); [done|].
  destruct (rep_head _ _ Hr Hm) as (_&?&?). rewrite sub_small by (unfold ok, two64 in *; lia).
  destruct (Z.leb_spec (zlen (entries q)) (p - first_packet q)).
  { rewrite lookup_ge_None_2; [done|unfold zlen in *; lia]. }
  destruct (entries q !! Z.to_nat (p - first_packet q)) as [e|] eqn:E; [|done].
  destruct (present e) eqn:Ep; cbn [negb]; [|done]. rewrite Ep. split; [done|]. split; [done|]. split; [done|].
  split; done.
Qed.

Lemma GetEntry_spec q m p : Rep q m → ok p → GetEntry q p = m !! p.
Proof.
  intros Hr Hp. pose proof (GetEntryWrapper_spec q m p Hr Hp) as H. unfold GetEntry.
  destruct (GetEntryWrapper q p) as [[i e]|]; [|done]. by destruct H as [-> _].
Qed.

Lemma Emplace_rep q m p v :
  Rep q m → ok p → p < two64 - 3 →
  let '(q', okay) := Emplace q p v in
  okay = bool_decide (m = ∅ ∨ last_packet q < p)
  ∧ Rep q' (if okay then <[p := v]> m else m).
Proof.
  intros Hr Hp Hmax. unfold Emplace. rewrite ok_initialized by done. cbn [negb].
  destruct (decide (m = ∅)) as [->|Hm].
  { rewrite (proj2 (IsEmpty_spec q ∅ Hr) eq_refl). rewrite bool_decide_eq_true_2 by by left. split; [done|].
    destruct (rep_empty _ _ Hr eq_refl) as [-> _]. rewrite insert_empty. cbn [app]. split; iq_simpl.
    - by rewrite map_size_singleton.
    - intros E. exfalso. by apply (map_non_empty_singleton (M:=gmap Z) p v).
    - intros _. split; [done|]. unfold ok, zlen, two64 in *. cbn. lia.
    - intros p' _. unfold slot. destruct (decide (p' = p)) as [->|Hne].
      + rewrite lookup_singleton_eq, Z.sub_diag. destruct (Z.ltb_spec p p); [lia|done].
      + rewrite lookup_singleton_ne by done. destruct (Z.ltb_spec p' p); [done|].
        by rewrite lookup_ge_None_2 by (cbn; lia). }
  rewrite (IsEmpty_false q m Hr Hm). rewrite (last_packet_spec q m Hr Hm).
  destruct (rep_head _ _ Hr Hm) as (Hh&Hf&Hb).
  destruct (Z.leb_spec p (first_packet q + zlen (entries q) - 1)) as [Hle|Hgt].
  { rewrite bool_decide_eq_false_2 by naive_solver lia. done. }
  rewrite bool_decide_eq_true_2 by (right; lia). split; [done|].
  assert (Hpos : 0 < zlen (entries q)).
  { destruct (entries q) as [|e0 l0]; [done|]. rewrite zlen_cons. pose proof (zlen_nonneg l0). lia. }
  rewrite sub_small by (unfold ok, two64 in *; lia).
  set (l := if zlen (entries q) <? p - first_packet q then entries q ++ replicate _ absent else entries q).
  assert (Hl : ∃ k, l = entries q ++ replicate k absent ∧ zlen l = p - first_packet q).
  { unfold l. unfold zlen in *. destruct (Z.ltb_spec (Z.of_nat (length (entries q))) (p - first_packet q)).
    - eexists. split; [done|]. rewrite length_app, length_replicate. lia.
    - exists 0%nat. cbn [replicate]. rewrite app_nil_r. split; [done|lia]. }
  destruct Hl as (k&El&Hlen). clearbody l.
  assert (Hnew : m !! p = None).
  { rewrite (rep_slot _ _ Hr p Hm). destruct (slot _ _ p) eqn:E; [|done]. apply slot_bounds in E. lia. }
  split; iq_simpl.
  - rewrite map_size_insert_None by done. rewrite (rep_size _ _ Hr). lia.
  - intros E. exfalso. by apply (insert_non_empty m p v).
  - intros _. split; [rewrite El; by destruct (entries q)|]. rewrite zlen_app, Hlen. unfold ok, zlen, two64 in *. cbn. lia.
  - intros p' _. unfold slot. destruct (decide (p' = p)) as [->|Hne].
    + rewrite lookup_insert_eq. destruct (Z.ltb_spec p (first_packet q)); [pose proof (zlen_nonneg l); lia|].
      unfold zlen in Hlen. rewrite list_lookup_middle by lia. done.
    + rewrite lookup_insert_ne by done. rewrite (rep_slot _ _ Hr p' Hm). unfold slot.
      destruct (Z.ltb_spec p' (first_packet q)); [done|]. rewrite El, <-app_assoc.
      destruct (decide (p' < first_packet q + zlen (entries q))) as [Hin|Hout].
      * by rewrite lookup_app_l by (unfold zlen in Hin; lia).
      * rewrite (lookup_ge_None_2 (entries q)) by (unfold zlen in Hout; lia).
        rewrite lookup_app_r by (unfold zlen in Hout; lia).
        destruct ((replicate k absent ++ [mk_entry v true]) !! _) as [e|] eqn:E; [|done].
        apply lookup_app_Some in E as [E|[Hge E]].
        -- apply lookup_replicate in E as [-> _]. done.
        -- apply lookup_lt_Some in E. cbn in E. rewrite El, zlen_app in Hlen. unfold zlen in *.
           rewrite length_replicate in *. lia.
Qed.

(** Dropping absent entries at the front moves no packet. *)
Lemma Cleanup_loop_spec l first :
  0 <= first → first + zlen l <= two64 - 2 →
  let '(l', first') := Cleanup_loop l first in
  first <= first' ∧ first' + zlen l' = first + zlen l
  ∧ (match l' with e :: _ => present e = true | [] => True end)
  ∧ ∀ p, slot l' first' p = slot l first p.
Proof.
  revert first. induction l as [|e l IH]; intros first Hf Hb; cbn [Cleanup_loop]; [done|].
  destruct (present e) eqn:Ep; cbn [negb]; [split; [lia|done]|]. rewrite zlen_cons in *.
  pose proof (zlen_nonneg l). rewrite add_1 by (unfold ok, two64 in *; lia).
  specialize (IH (first + 1) ltac:(lia) ltac:(lia)). destruct (Cleanup_loop l (first + 1)) as [l' first'].
  destruct IH as (?&?&?&Hs). split; [lia|]. split; [lia|]. split; [done|]. intros p. rewrite Hs. unfold slot.
  destruct (Z.ltb_spec p (first + 1)), (Z.ltb_spec p first); try lia; [done|..].
  - replace (Z.to_nat (p - first)) with 0%nat by lia. cbn [lookup list_lookup]. by rewrite Ep.
  - replace (Z.to_nat (p - first)) with (S (Z.to_nat (p - (first + 1)))) by lia. done.
Qed.

Lemma slot_insert l first i e p :
  l !! i = Some e →
  slot (<[i := mk_entry (value e) false]> l) first p
  = if decide (p = first + Z.of_nat i) then None else slot l first p.
Proof.
  intros Hi. unfold slot. apply lookup_lt_Some in Hi as Hlt. destruct (Z.ltb_spec p first).
  { by destruct (decide _). }
  destruct (decide (p = first + Z.of_nat i)) as [->|Hne].
  - replace (Z.to_nat _) with i by lia. rewrite list_lookup_insert_eq by done. done.
  - by rewrite list_lookup_insert_ne by lia.
Qed.

Lemma Remove_rep q m p :
  Rep q m → ok p →
  let '(q', given, okay) := Remove q p in
  given = m !! p ∧ okay = bool_decide (is_Some (m !! p)) ∧ Rep q' (delete p m).
Proof.
  intros Hr Hp. pose proof (GetEntryWrapper_spec q m p Hr Hp) as H. unfold Remove.
  destruct (GetEntryWrapper q p) as [[i e]|].
  2:{ rewrite H. split; [done|]. split; [done|]. by rewrite delete_id. }
  destruct H as (Hmp&Hpe&Hfp&Hi&He). split; [done|]. rewrite Hmp. split; [done|].
  assert (Hm : m ≠ ∅) by (intros ->; by rewrite lookup_empty in Hmp).
  destruct (rep_head _ _ Hr Hm) as (Hh&Hf&Hb).
  set (l := <[i := mk_entry (value e) false]> (entries q)).
  assert (Hll : zlen l = zlen (entries q)) by (unfold l, zlen; by rewrite length_insert).
  assert (Hsize : number_of_present_entries q - 1 = Z.of_nat (size (delete p m))).
  { rewrite map_size_delete, Hmp, (rep_size _ _ Hr).
    assert (size m ≠ 0%nat) by (rewrite map_size_empty_iff; done). lia. }
  assert (Hslot : ∀ p', delete p m !! p' = slot l (first_packet q) p').
  { intros p'. unfold l. rewrite slot_insert by done. rewrite lookup_delete.
    destruct (decide (p = p')) as [->|Hne], (decide (p' = first_packet q + Z.of_nat i)); try done; try lia.
    by apply (rep_slot _ _ Hr). }
  destruct (Z.eqb_spec p (first_packet q)) as [Ef|Nf].
  - unfold Cleanup. iq_simpl. pose proof (Cleanup_loop_spec l (first_packet q) Hf ltac:(lia)) as Hc.
    destruct (Cleanup_loop l (first_packet q)) as [l' first']. destruct Hc as (H1&H2&H3&H4).
    split; iq_simpl; [done|..].
    + intros Em. destruct l' as [|e' l']; [done|]. exfalso.
      assert (Hs : slot (e' :: l') first' first' = Some (value e')).
      { unfold slot. rewrite Z.sub_diag. destruct (Z.ltb_spec first' first'); [lia|]. change (Z.to_nat 0) with 0%nat. cbn [lookup list_lookup]. by rewrite H3. }
      rewrite H4, <-Hslot, Em, lookup_empty in Hs. done.
    + intros Hne. destruct l' as [|e' l'].
      * exfalso. apply Hne, map_eq. intros p'. rewrite Hslot, <-H4, lookup_empty. unfold slot. by destruct (_ <? _).
      * split; [done|lia].
    + intros p' Hne. rewrite Hslot, <-H4. destruct l' as [|e' l']; [|done]. unfold slot.
      cbn. by destruct (_ <? _), (_ <? _).
  - assert (Hin : is_Some (delete p m !! first_packet q)).
    { rewrite lookup_delete_ne by done. rewrite (rep_slot _ _ Hr _ Hm). unfold slot. rewrite Z.sub_diag.
      destruct (Z.ltb_spec (first_packet q) (first_packet q)); [lia|]. destruct (entries q) as [|e0 l0]; [done|].
      change (Z.to_nat 0) with 0%nat. cbn [lookup list_lookup]. rewrite Hh. by eexists. }
    split; iq_simpl; [done|..].
    + intros Em. rewrite Em, lookup_empty in Hin. by destruct Hin.
    + intros _. split; [|lia]. unfold l. destruct i as [|i]; [lia|]. by destruct (entries q).
    + intros p' _. apply Hslot.
Qed.
End queue.
Arguments mk_entry {T}.
Arguments mk {T}.
Arguments new {T}.

(** C39. The queue is a finite map whose keys grow. Whatever map a queue represents, the lookup of
    a packet is the map's; adding a packet succeeds exactly above the last one added (or in an empty
    queue) and then inserts it, and otherwise changes nothing; removing one deletes it, gives its entry
    to the callback and says whether it was there; the count is the size of the map; the first
    packet is its least key, so that no slot is wasted in front; and an emptied queue is as new. *)
Theorem indexed_queue_is_a_map {T} (dflt : T) (q : t (T := T)) (m : gmap Z T) p v :
  Rep q m → ok p → p < two64 - 3 →
  GetEntry q p = m !! p
  ∧ (let '(q', okay) := Emplace dflt q p v in
     okay = bool_decide (m = ∅ ∨ last_packet q < p) ∧ Rep q' (if okay then <[p := v]> m else m))
  ∧ (let '(q', given, okay) := Remove q p in
     given = m !! p ∧ okay = bool_decide (is_Some (m !! p)) ∧ Rep q' (delete p m))
  ∧ number_of_present_entries q = Z.of_nat (size m)
  ∧ (IsEmpty q = true ↔ m = ∅)
  ∧ (m = ∅ → q = new)
  ∧ (m ≠ ∅ → is_Some (m !! first_packet q)
             ∧ (∀ k, is_Some (m !! k) → first_packet q <= k <= last_packet q)
             ∧ entry_slots_used q = last_packet q - first_packet q + 1).
Proof.
  intros Hr Hp Hmax. split; [by apply GetEntry_spec|]. split; [by apply Emplace_rep|].
  split; [by apply Remove_rep|]. split; [apply Hr|]. split; [by apply IsEmpty_spec|]. split.
  - intros Hm. destruct (rep_empty _ _ Hr Hm) as [E1 E2]. pose proof (rep_size _ _ Hr) as E3.
    destruct q as [l n f]. cbn [entries number_of_present_entries first_packet] in *. subst. rewrite map_size_empty. done.
  - intros Hm. rewrite (last_packet_spec q m Hr Hm). unfold entry_slots_used.
    destruct (rep_head _ _ Hr Hm) as (Hh&_). split; [|split; [|lia]].
    + rewrite (rep_slot _ _ Hr _ Hm). unfold slot. rewrite Z.sub_diag.
      destruct (Z.ltb_spec (first_packet q) (first_packet q)); [lia|].
      destruct (entries q) as [|e0 l0]; [done|]. change (Z.to_nat 0) with 0%nat. cbn [lookup list_lookup].
      rewrite Hh. by eexists.
    + intros k [x Hk]. rewrite (rep_slot _ _ Hr _ Hm) in Hk. apply slot_bounds in Hk. lia.
Qed.

(** Three packets, the first one removed: its slot and the gap after it are gone. *)
Definition ex_queue : t (T := Z) :=
  (Remove (Emplace 0 (Emplace 0 (Emplace 0 new 5 50).1 7 70).1 8 80).1 5).1.1.

Lemma ex_queue_rep : Rep ex_queue {[ 7 := 70; 8 := 80 ]}.
Proof.
  split; [reflexivity|discriminate|intros _; repeat split; discriminate|].
  intros p _. unfold slot. change (first_packet ex_queue) with 7.
  change (entries ex_queue) with [mk_entry 70 true; mk_entry 80 true]. destruct (decide (p = 7)) as [->|N7]; [reflexivity|].
  destruct (decide (p = 8)) as [->|N8]; [reflexivity|].
  rewrite lookup_insert_ne by done. rewrite lookup_singleton_ne by done.
  destruct (Z.ltb_spec p 7); [done|]. by rewrite lookup_ge_None_2 by (cbn [length]; lia).
Qed.

Lemma indexed_queue_is_a_map_witness :
  first_packet ex_queue = 7 ∧ GetEntry ex_queue 8 = Some 80 ∧ (Emplace 0 ex_queue 8 81).2 = false
  ∧ Rep (Emplace 0 ex_queue 10 100).1 (<[10 := 100]> {[ 7 := 70; 8 := 80 ]}).
Proof.
  destruct (indexed_queue_is_a_map 0 ex_queue {[ 7 := 70; 8 := 80 ]} 10 100 ex_queue_rep) as (_&He&_);
    [split; [discriminate|reflexivity]|reflexivity|].
  split; [reflexivity|]. split; [reflexivity|]. split; [reflexivity|].
  destruct (Emplace 0 ex_queue 10 100) as [q' okay] eqn:E. destruct He as [Hok Hr].
  vm_compute in E. injection E as E1 E2. rewrite <-E2 in Hr. exact Hr.
Defined.
End PacketNumberIndexedQueue.
