(* ===== verification/UnackedPacketMap.v ===== *)
(** [QuicUnackedPacketMap] (quic/core/quic_unacked_packet_map.cc): what a connection remembers of the
    packets it sent, in a deque that starts at the least packet still useful. Packets are kept for their
    data (which moves to the retransmission of a packet), for congestion control (bytes in flight) and to
    measure the RTT.

    A frame is a stream frame or any other frame, by an identity. What the session is told is the list
    of [call]s of an operation; what it answers about a frame is a parameter of the queries that ask. *)

From S2P Require Import Prelude OrderedSet IntervalSet PacketNumber.

Module UnackedPacketMap.
Import PacketNumber.

Inductive Perspective := IS_SERVER | IS_CLIENT.
Inductive EncryptionLevel :=
  ENCRYPTION_INITIAL | ENCRYPTION_HANDSHAKE | ENCRYPTION_ZERO_RTT | ENCRYPTION_FORWARD_SECURE.
Inductive PacketNumberSpace := INITIAL_DATA | HANDSHAKE_DATA | APPLICATION_DATA | NUM_PACKET_NUMBER_SPACES.
Inductive TransmissionType :=
  NOT_RETRANSMISSION | HANDSHAKE_RETRANSMISSION | ALL_UNACKED_RETRANSMISSION | ALL_INITIAL_RETRANSMISSION
| LOSS_RETRANSMISSION | RTO_RETRANSMISSION | TLP_RETRANSMISSION | PROBING_RETRANSMISSION.
Inductive SentPacketState :=
  OUTSTANDING | NEVER_SENT | ACKED | UNACKABLE | HANDSHAKE_RETRANSMITTED | LOST | TLP_RETRANSMITTED
| RTO_RETRANSMITTED | PROBE_RETRANSMITTED.

#[global] Instance EncryptionLevel_eq_dec : EqDecision EncryptionLevel.
Proof. solve_decision. Defined.
#[global] Instance PacketNumberSpace_eq_dec : EqDecision PacketNumberSpace.
Proof. solve_decision. Defined.
#[global] Instance TransmissionType_eq_dec : EqDecision TransmissionType.
Proof. solve_decision. Defined.
#[global] Instance SentPacketState_eq_dec : EqDecision SentPacketState.
Proof. solve_decision. Defined.

Record QuicStreamFrame := mk_stream_frame { stream_id : Z; fin : bool; offset : Z; data_length : Z }.
Inductive QuicFrame := StreamFrame (f : QuicStreamFrame) | OtherFrame (id : Z).

(** The calls to the session notifier. *)
Inductive call :=
  | OnFrameAcked (frame : QuicFrame) (ack_delay receive_timestamp : Z)
  | OnStreamFrameRetransmitted (frame : QuicStreamFrame)
  | OnFrameLost (frame : QuicFrame)
  | RetransmitFramesCall (frames : list QuicFrame) (type : TransmissionType).

Record QuicTransmissionInfo := mk_info {
  retransmittable_frames : list QuicFrame;
  encryption_level : EncryptionLevel;
  packet_number_length : Z;
  bytes_sent : Z;
  sent_time : Z;
  transmission_type : TransmissionType;
  in_flight : bool;
  state : SentPacketState;
  has_crypto_handshake : bool;
  num_padding_bytes : Z;
  retransmission : Z;
  info_largest_acked : Z;
}.

Definition QuicTransmissionInfo_default : QuicTransmissionInfo :=
  mk_info [] ENCRYPTION_INITIAL 1 0 0 NOT_RETRANSMISSION false OUTSTANDING false 0
    UninitializedPacketNumber UninitializedPacketNumber.

Definition QuicTransmissionInfo_new (level : EncryptionLevel) (packet_number_length : Z)
    (transmission_type : TransmissionType) (sent_time bytes_sent : Z) (has_crypto_handshake : bool)
    (num_padding_bytes : Z) : QuicTransmissionInfo :=
  mk_info [] level packet_number_length bytes_sent sent_time transmission_type false OUTSTANDING
    has_crypto_handshake num_padding_bytes UninitializedPacketNumber UninitializedPacketNumber.

(** Changes of one packet's information. *)
Definition set_frames (i : QuicTransmissionInfo) fs : QuicTransmissionInfo :=
  mk_info fs (encryption_level i) (packet_number_length i) (bytes_sent i) (sent_time i)
    (transmission_type i) (in_flight i) (state i) (has_crypto_handshake i) (num_padding_bytes i)
    (retransmission i) (info_largest_acked i).
Definition set_in_flight (i : QuicTransmissionInfo) b : QuicTransmissionInfo :=
  mk_info (retransmittable_frames i) (encryption_level i) (packet_number_length i) (bytes_sent i)
    (sent_time i) (transmission_type i) b (state i) (has_crypto_handshake i) (num_padding_bytes i)
    (retransmission i) (info_largest_acked i).
Definition set_state (i : QuicTransmissionInfo) s : QuicTransmissionInfo :=
  mk_info (retransmittable_frames i) (encryption_level i) (packet_number_length i) (bytes_sent i)
    (sent_time i) (transmission_type i) (in_flight i) s (has_crypto_handshake i) (num_padding_bytes i)
    (retransmission i) (info_largest_acked i).
Definition set_crypto (i : QuicTransmissionInfo) b : QuicTransmissionInfo :=
  mk_info (retransmittable_frames i) (encryption_level i) (packet_number_length i) (bytes_sent i)
    (sent_time i) (transmission_type i) (in_flight i) (state i) b (num_padding_bytes i)
    (retransmission i) (info_largest_acked i).
Definition set_padding (i : QuicTransmissionInfo) n : QuicTransmissionInfo :=
  mk_info (retransmittable_frames i) (encryption_level i) (packet_number_length i) (bytes_sent i)
    (sent_time i) (transmission_type i) (in_flight i) (state i) (has_crypto_handshake i) n
    (retransmission i) (info_largest_acked i).
Definition set_retransmission (i : QuicTransmissionInfo) p : QuicTransmissionInfo :=
  mk_info (retransmittable_frames i) (encryption_level i) (packet_number_length i) (bytes_sent i)
    (sent_time i) (transmission_type i) (in_flight i) (state i) (has_crypto_handshake i)
    (num_padding_bytes i) p (info_largest_acked i).
Definition set_info_largest_acked (i : QuicTransmissionInfo) p : QuicTransmissionInfo :=
  mk_info (retransmittable_frames i) (encryption_level i) (packet_number_length i) (bytes_sent i)
    (sent_time i) (transmission_type i) (in_flight i) (state i) (has_crypto_handshake i)
    (num_padding_bytes i) (retransmission i) p.

(** The fields of a [SerializedPacket] the map reads. *)
Record SerializedPacket := mk_packet {
  packet_number : Z;
  encrypted_length : Z;
  packet_has_crypto_handshake : bool;
  packet_encryption_level : EncryptionLevel;
  packet_packet_number_length : Z;
  packet_num_padding_bytes : Z;
  packet_largest_acked : Z;
  packet_retransmittable_frames : list QuicFrame;
}.

(** An array indexed by packet number space. *)
Record spaces := mk_spaces { at_initial : Z; at_handshake : Z; at_application : Z }.
Definition no_packets : spaces :=
  mk_spaces UninitializedPacketNumber UninitializedPacketNumber UninitializedPacketNumber.
Definition get_space (a : spaces) (s : PacketNumberSpace) : Z :=
  match s with
  | INITIAL_DATA => at_initial a | HANDSHAKE_DATA => at_handshake a | APPLICATION_DATA => at_application a
  | NUM_PACKET_NUMBER_SPACES => UninitializedPacketNumber
  end.
Definition set_space (a : spaces) (s : PacketNumberSpace) (p : Z) : spaces :=
  match s with
  | INITIAL_DATA => mk_spaces p (at_handshake a) (at_application a)
  | HANDSHAKE_DATA => mk_spaces (at_initial a) p (at_application a)
  | APPLICATION_DATA => mk_spaces (at_initial a) (at_handshake a) p
  | NUM_PACKET_NUMBER_SPACES => a
  end.

Record t := mk {
  perspective : Perspective;
  largest_sent_packet : Z;
  largest_sent_packets : spaces;
  largest_sent_retransmittable_packets : spaces;
  largest_sent_largest_acked : Z;
  largest_acked : Z;
  largest_acked_packets : spaces;
  unacked_packets : list QuicTransmissionInfo;
  least_unacked : Z;
  bytes_in_flight : Z;
  pending_crypto_packet_count : Z;
  last_crypto_packet_sent_time : Z;
  aggregated_stream_frame : QuicStreamFrame;
  has_session_notifier : bool;
  session_decides_what_to_write : bool;
  supports_multiple_packet_number_spaces : bool;
}.

Definition FirstSendingPacketNumber : Z := 1.
Definition no_stream : Z := two32 - 1.

Definition new (p : Perspective) : t :=
  mk p UninitializedPacketNumber no_packets no_packets UninitializedPacketNumber
    UninitializedPacketNumber no_packets [] FirstSendingPacketNumber 0 0 0
    (mk_stream_frame no_stream false 0 0) false false false.

(** The packets, their accounts and the least unacked packet. *)
Definition with_packets (st : t) l least bytes crypto : t :=
  mk (perspective st) (largest_sent_packet st) (largest_sent_packets st)
    (largest_sent_retransmittable_packets st) (largest_sent_largest_acked st) (largest_acked st)
    (largest_acked_packets st) l least bytes crypto (last_crypto_packet_sent_time st)
    (aggregated_stream_frame st) (has_session_notifier st) (session_decides_what_to_write st)
    (supports_multiple_packet_number_spaces st).
Definition with_list (st : t) l : t :=
  with_packets st l (least_unacked st) (bytes_in_flight st) (pending_crypto_packet_count st).
Definition with_largest_acked (st : t) p a : t :=
  mk (perspective st) (largest_sent_packet st) (largest_sent_packets st)
    (largest_sent_retransmittable_packets st) (largest_sent_largest_acked st) p
    a (unacked_packets st) (least_unacked st) (bytes_in_flight st)
    (pending_crypto_packet_count st) (last_crypto_packet_sent_time st)
    (aggregated_stream_frame st) (has_session_notifier st) (session_decides_what_to_write st)
    (supports_multiple_packet_number_spaces st).
Definition with_aggregated (st : t) f : t :=
  mk (perspective st) (largest_sent_packet st) (largest_sent_packets st)
    (largest_sent_retransmittable_packets st) (largest_sent_largest_acked st) (largest_acked st)
    (largest_acked_packets st) (unacked_packets st) (least_unacked st) (bytes_in_flight st)
    (pending_crypto_packet_count st) (last_crypto_packet_sent_time st)
    f (has_session_notifier st) (session_decides_what_to_write st)
    (supports_multiple_packet_number_spaces st).
Definition with_modes (st : t) notifier decides spaces : t :=
  mk (perspective st) (largest_sent_packet st) (largest_sent_packets st)
    (largest_sent_retransmittable_packets st) (largest_sent_largest_acked st) (largest_acked st)
    (largest_acked_packets st) (unacked_packets st) (least_unacked st) (bytes_in_flight st)
    (pending_crypto_packet_count st) (last_crypto_packet_sent_time st)
    (aggregated_stream_frame st) notifier decides spaces.

(** The index of a packet in the deque, and the packet after the last one. *)
Definition index (st : t) (p : Z) : nat := Z.to_nat (p - least_unacked st).
Definition next_packet (st : t) : Z := least_unacked st + zlen (unacked_packets st).
Definition GetTransmissionInfo (st : t) (p : Z) : option QuicTransmissionInfo :=
  unacked_packets st !! index st p.
Definition GetLeastUnacked (st : t) : Z := least_unacked st.

(** ** Packet number spaces and modes *)

Definition QuicUtils_GetPacketNumberSpace (level : EncryptionLevel) : PacketNumberSpace :=
  match level with
  | ENCRYPTION_INITIAL => INITIAL_DATA
  | ENCRYPTION_HANDSHAKE => HANDSHAKE_DATA
  | ENCRYPTION_ZERO_RTT | ENCRYPTION_FORWARD_SECURE => APPLICATION_DATA
  end.

Definition GetPacketNumberSpace (st : t) (level : EncryptionLevel) : PacketNumberSpace :=
  if supports_multiple_packet_number_spaces st then QuicUtils_GetPacketNumberSpace level else
  match perspective st with
  | IS_CLIENT => if decide (level = ENCRYPTION_INITIAL) then HANDSHAKE_DATA else APPLICATION_DATA
  | IS_SERVER => if decide (level = ENCRYPTION_FORWARD_SECURE) then APPLICATION_DATA else HANDSHAKE_DATA
  end.

Definition GetLargestAckedOfPacketNumberSpace (st : t) (s : PacketNumberSpace) : Z :=
  get_space (largest_acked_packets st) s.
Definition GetLargestSentRetransmittableOfPacketNumberSpace (st : t) (s : PacketNumberSpace) : Z :=
  get_space (largest_sent_retransmittable_packets st) s.
Definition GetLargestSentPacketOfPacketNumberSpace (st : t) (level : EncryptionLevel) : Z :=
  get_space (largest_sent_packets st) (GetPacketNumberSpace st level).

Definition SetSessionDecideWhatToWrite (st : t) (b : bool) : t :=
  if IsInitialized (largest_sent_packet st) then st
  else with_modes st (has_session_notifier st) b (supports_multiple_packet_number_spaces st).
Definition SetSessionNotifier (st : t) (b : bool) : t :=
  with_modes st b (session_decides_what_to_write st) (supports_multiple_packet_number_spaces st).
Definition EnableMultiplePacketNumberSpacesSupport (st : t) : t :=
  if supports_multiple_packet_number_spaces st then st else
  if IsInitialized (largest_sent_packet st) then st else
  with_modes st (has_session_notifier st) (session_decides_what_to_write st) true.

(** ** Usefulness *)

Definition IsAckable (s : SentPacketState) : bool :=
  bool_decide (s ≠ NEVER_SENT) && bool_decide (s ≠ ACKED) && bool_decide (s ≠ UNACKABLE).

Definition no_frames (i : QuicTransmissionInfo) : bool :=
  match retransmittable_frames i with [] => true | _ => false end.

Definition IsPacketUsefulForMeasuringRtt (st : t) (p : Z) (i : QuicTransmissionInfo) : bool :=
  IsAckable (state i) && (negb (IsInitialized (largest_acked st)) || (largest_acked st <? p)).
Definition IsPacketUsefulForCongestionControl (i : QuicTransmissionInfo) : bool := in_flight i.

(** [IsFrameOutstanding] is the session's answer about a frame. *)
Definition HasRetransmittableFrames (IsFrameOutstanding : QuicFrame → bool) (st : t)
    (i : QuicTransmissionInfo) : bool :=
  if negb (session_decides_what_to_write st) then negb (no_frames i) else
  if negb (IsAckable (state i)) then false else
  existsb IsFrameOutstanding (retransmittable_frames i).

(** Without the session's decisions [HasRetransmittableFrames] does not ask the session. *)
Definition IsPacketUsefulForRetransmittableData (st : t) (i : QuicTransmissionInfo) : bool :=
  let linked := IsInitialized (retransmission i)
    && (negb (IsInitialized (largest_acked st)) || (largest_acked st <? retransmission i)) in
  if negb (session_decides_what_to_write st)
  then linked || HasRetransmittableFrames (λ _, false) st i
  else linked.

Definition IsPacketUseless (st : t) (p : Z) (i : QuicTransmissionInfo) : bool :=
  negb (IsPacketUsefulForMeasuringRtt st p i) && negb (IsPacketUsefulForCongestionControl i)
  && negb (IsPacketUsefulForRetransmittableData st i).

Definition IsUnacked (st : t) (p : Z) : bool :=
  if (p <? least_unacked st) || (next_packet st <=? p) then false else
  match GetTransmissionInfo st p with Some i => negb (IsPacketUseless st p i) | None => false end.

(** [RemoveObsoletePackets]: the deque and its first packet number. *)
Fixpoint drop_useless (st : t) (l : list QuicTransmissionInfo) (least : Z) : list QuicTransmissionInfo * Z :=
  match l with
  | [] => ([], least)
  | i :: l' => if negb (IsPacketUseless st least i) then (l, least) else drop_useless st l' (add least 1)
  end.

Definition RemoveObsoletePackets (st : t) : t :=
  let '(l, least) := drop_useless st (unacked_packets st) (least_unacked st) in
  with_packets st l least (bytes_in_flight st) (pending_crypto_packet_count st).

(** ** Sending *)

Definition stream_frames (fs : list QuicFrame) : list QuicStreamFrame :=
  omap (λ f, match f with StreamFrame s => Some s | OtherFrame _ => None end) fs.

(** [TransferRetransmissionInfo]: the new packet's information is returned with the state. *)
Definition TransferRetransmissionInfo (st : t) (old_packet_number new_packet_number : Z)
    (type : TransmissionType) (info : QuicTransmissionInfo) : t * QuicTransmissionInfo * list call :=
  if old_packet_number <? least_unacked st then (st, info, []) else
  if largest_sent_packet st <? old_packet_number then (st, info, []) else
  match GetTransmissionInfo st old_packet_number with
  | None => (st, info, [])
  | Some old =>
      let calls := if has_session_notifier st
        then map OnStreamFrameRetransmitted (stream_frames (retransmittable_frames old)) else [] in
      let info' := set_padding (set_crypto (set_frames info (retransmittable_frames old))
                     (has_crypto_handshake old)) (num_padding_bytes old) in
      let old := set_crypto (set_frames old (retransmittable_frames info)) false in
      let old := if bool_decide (type = ALL_INITIAL_RETRANSMISSION) || bool_decide (type = ALL_UNACKED_RETRANSMISSION)
        then set_state old UNACKABLE else set_retransmission old new_packet_number in
      (RemoveObsoletePackets (with_list st (<[index st old_packet_number := old]> (unacked_packets st))),
       info', calls)
  end.

(** The packets skipped before the new one. *)
Definition never_sent : QuicTransmissionInfo := set_state QuicTransmissionInfo_default NEVER_SENT.
Definition fill (st : t) (p : Z) : t :=
  with_list st (unacked_packets st ++ replicate (Z.to_nat (p - next_packet st)) never_sent).

(** [AddSentPacket]: the state, the frames left in the serialized packet and the calls. *)
Definition AddSentPacket (st : t) (packet : SerializedPacket) (old_packet_number : Z)
    (type : TransmissionType) (time : Z) (in_flight : bool) : t * list QuicFrame * list call :=
  let p := packet_number packet in
  let st := fill st p in
  let info := set_info_largest_acked
    (QuicTransmissionInfo_new (packet_encryption_level packet) (packet_packet_number_length packet) type
       time (encrypted_length packet) (packet_has_crypto_handshake packet) (packet_num_padding_bytes packet))
    (packet_largest_acked packet) in
  let '(st, info, calls) :=
    if IsInitialized old_packet_number
    then TransferRetransmissionInfo st old_packet_number p type info else (st, info, []) in
  let space := GetPacketNumberSpace st (packet_encryption_level packet) in
  let fresh := negb (IsInitialized old_packet_number) in
  let crypto := fresh && packet_has_crypto_handshake packet in
  let info := if in_flight then set_in_flight info true else info in
  let swapped := if fresh then set_frames info (packet_retransmittable_frames packet) else info in
  (mk (perspective st) p
     (if supports_multiple_packet_number_spaces st then set_space (largest_sent_packets st) space p
      else largest_sent_packets st)
     (if in_flight
      then set_space (largest_sent_retransmittable_packets st) (GetPacketNumberSpace st (encryption_level info)) p
      else largest_sent_retransmittable_packets st)
     (UpdateMax (largest_sent_largest_acked st) (packet_largest_acked packet))
     (largest_acked st) (largest_acked_packets st)
     (unacked_packets st ++ [swapped]) (least_unacked st)
     (if in_flight then wrap64 (bytes_in_flight st + encrypted_length packet) else bytes_in_flight st)
     (if crypto then wrap64 (pending_crypto_packet_count st + 1) else pending_crypto_packet_count st)
     (if crypto then time else last_crypto_packet_sent_time st)
     (aggregated_stream_frame st) (has_session_notifier st) (session_decides_what_to_write st)
     (supports_multiple_packet_number_spaces st),
   if fresh then retransmittable_frames info else packet_retransmittable_frames packet,
   calls).

(** ** Acknowledgement, loss and cancellation *)

(** The loop of [RemoveRetransmittability] along the retransmissions of a packet: the deque with the
    links cleared and the index of the last transmission. The links lead to later packets, so the
    length of the deque is enough fuel. *)
Fixpoint follow (fuel : nat) (least : Z) (l : list QuicTransmissionInfo) (i : nat)
    : list QuicTransmissionInfo * nat :=
  match fuel with
  | O => (l, i)
  | S fuel =>
      match l !! i with
      | None => (l, i)
      | Some info =>
          if IsInitialized (retransmission info)
          then follow fuel least (<[i := set_retransmission info PacketNumber.Clear]> l)
                 (Z.to_nat (retransmission info - least))
          else (l, i)
      end
  end.

Definition RemoveRetransmittability (st : t) (p : Z) : t :=
  let i := index st p in
  if session_decides_what_to_write st then
    with_list st (alter (λ info, set_retransmission (set_frames info []) PacketNumber.Clear) i (unacked_packets st))
  else
    let '(l, j) := follow (S (length (unacked_packets st))) (least_unacked st) (unacked_packets st) i in
    let crypto := match l !! j with Some info => has_crypto_handshake info | None => false end in
    with_packets st (alter (λ info, set_frames (set_crypto info false) []) j l) (least_unacked st)
      (bytes_in_flight st)
      (if crypto then wrap64 (pending_crypto_packet_count st - 1) else pending_crypto_packet_count st).

Definition RemoveFromInFlight (st : t) (p : Z) : t :=
  match GetTransmissionInfo st p with
  | None => st
  | Some info =>
      if in_flight info
      then with_packets st (<[index st p := set_in_flight info false]> (unacked_packets st))
             (least_unacked st) (wrap64 (bytes_in_flight st - bytes_sent info)) (pending_crypto_packet_count st)
      else st
  end.

Definition RemoveFramesForStream (fs : list QuicFrame) (id : Z) : list QuicFrame :=
  List.filter (λ f, match f with StreamFrame s => negb (stream_id s =? id) | OtherFrame _ => true end) fs.

(** One round of [CancelRetransmissionsForStream], at the packet of index [i]. *)
Definition cancel_at (id : Z) (st : t) (i : nat) : t :=
  match unacked_packets st !! i with
  | None => st
  | Some info =>
      if no_frames info then st else
      let info := set_frames info (RemoveFramesForStream (retransmittable_frames info) id) in
      let st := with_list st (<[i := info]> (unacked_packets st)) in
      if no_frames info then RemoveRetransmittability st (least_unacked st + Z.of_nat i) else st
  end.

Definition CancelRetransmissionsForStream (st : t) (id : Z) : t :=
  fold_left (cancel_at id) (seq 0 (length (unacked_packets st))) st.

Definition IncreaseLargestAcked (st : t) (p : Z) : t := with_largest_acked st p (largest_acked_packets st).
Definition MaybeUpdateLargestAckedOfPacketNumberSpace (st : t) (s : PacketNumberSpace) (p : Z) : t :=
  with_largest_acked st (largest_acked st)
    (set_space (largest_acked_packets st) s (UpdateMax (get_space (largest_acked_packets st) s) p)).

(** Writes through [GetMutableTransmissionInfo] to the state of a packet. *)
Definition SetPacketState (st : t) (p : Z) (s : SentPacketState) : t :=
  with_list st (alter (λ info, set_state info s) (index st p) (unacked_packets st)).

(** ** Queries *)

Definition HasInFlightPackets (st : t) : bool := 0 <? bytes_in_flight st.
Definition kDefaultTCPMSS : Z := 1460.

Definition GetLastPacketSentTime (st : t) : Z :=
  match List.find in_flight (rev (unacked_packets st)) with Some i => sent_time i | None => 0 end.
Definition GetLastCryptoPacketSentTime (st : t) : Z := last_crypto_packet_sent_time st.

Fixpoint count_in_flight (l : list QuicTransmissionInfo) (n : Z) : bool :=
  match l with
  | [] => false
  | i :: l => let n := if in_flight i then n + 1 else n in if 1 <? n then true else count_in_flight l n
  end.
Definition HasMultipleInFlightPackets (st : t) : bool :=
  if kDefaultTCPMSS <? bytes_in_flight st then true else count_in_flight (rev (unacked_packets st)) 0.

Definition HasPendingCryptoPackets (HasUnackedCryptoData : bool) (st : t) : bool :=
  if negb (session_decides_what_to_write st) then 0 <? pending_crypto_packet_count st
  else HasUnackedCryptoData.

Definition HasUnackedRetransmittableFrames (IsFrameOutstanding : QuicFrame → bool) (st : t) : bool :=
  existsb (λ i, in_flight i && HasRetransmittableFrames IsFrameOutstanding st i) (rev (unacked_packets st)).

Fixpoint count_useful (st : t) (l : list QuicTransmissionInfo) (p : Z) : Z :=
  match l with
  | [] => 0
  | i :: l => (if negb (IsPacketUseless st p i) then 1 else 0) + count_useful st l (p + 1)
  end.
Definition GetNumUnackedPacketsDebugOnly (st : t) : Z := count_useful st (unacked_packets st) (least_unacked st).

(** ** Notifications *)

(** [acks_new_data] is the session's answer to [OnFrameAcked], given what it was told before. *)
Fixpoint notify_acked (acks_new_data : list call → QuicFrame → bool) (ack_delay receive_timestamp : Z)
    (fs : list QuicFrame) (told : list call) (new_data_acked : bool) : bool * list call :=
  match fs with
  | [] => (new_data_acked, told)
  | f :: fs =>
      notify_acked acks_new_data ack_delay receive_timestamp fs
        (told ++ [OnFrameAcked f ack_delay receive_timestamp])
        (if acks_new_data told f then true else new_data_acked)
  end.
Definition NotifyFramesAcked (acks_new_data : list call → QuicFrame → bool) (st : t)
    (i : QuicTransmissionInfo) (ack_delay receive_timestamp : Z) : bool * list call :=
  if negb (has_session_notifier st) then (false, [])
  else notify_acked acks_new_data ack_delay receive_timestamp (retransmittable_frames i) [] false.

Definition NotifyFramesLost (i : QuicTransmissionInfo) : list call :=
  map OnFrameLost (retransmittable_frames i).
Definition RetransmitFrames (i : QuicTransmissionInfo) (type : TransmissionType) : list call :=
  [RetransmitFramesCall (retransmittable_frames i) type].

Definition NotifyAggregatedStreamFrameAcked (st : t) (ack_delay : Z) : t * list call :=
  let f := aggregated_stream_frame st in
  if (stream_id f =? no_stream) || negb (has_session_notifier st) then (st, [])
  else (with_aggregated st (mk_stream_frame no_stream (fin f) (offset f) (data_length f)),
        [OnFrameAcked (StreamFrame f) ack_delay 0]).

Definition WillStreamFrameLengthSumWrapAround (lhs rhs : Z) : bool := two16 - 1 - lhs <? rhs.

Definition can_aggregate (agg f : QuicStreamFrame) : bool :=
  (stream_id f =? stream_id agg) && (offset f =? wrap64 (offset agg + data_length agg))
  && negb (WillStreamFrameLengthSumWrapAround (data_length agg) (data_length f)).

(** One round of the loop of [MaybeAggregateAckedStreamFrame]. *)
Definition aggregate_frame (ack_delay receive_timestamp : Z) (st : t) (f : QuicFrame) : t * list call :=
  let agg := aggregated_stream_frame st in
  let not_aggregated :=
    let '(st, calls) := NotifyAggregatedStreamFrameAcked st ack_delay in
    match f with
    | StreamFrame s =>
        if fin s then (st, calls ++ [OnFrameAcked f ack_delay receive_timestamp])
        else (with_aggregated st s, calls)
    | OtherFrame _ => (st, calls ++ [OnFrameAcked f ack_delay receive_timestamp])
    end in
  match f with
  | StreamFrame s =>
      if can_aggregate agg s then
        let st := with_aggregated st
          (mk_stream_frame (stream_id agg) (fin s) (offset agg) (wrap16 (data_length agg + data_length s))) in
        if fin s then NotifyAggregatedStreamFrameAcked st ack_delay else (st, [])
      else not_aggregated
  | OtherFrame _ => not_aggregated
  end.

Fixpoint aggregate_frames (ack_delay receive_timestamp : Z) (st : t) (fs : list QuicFrame) : t * list call :=
  match fs with
  | [] => (st, [])
  | f :: fs =>
      let '(st, c1) := aggregate_frame ack_delay receive_timestamp st f in
      let '(st, c2) := aggregate_frames ack_delay receive_timestamp st fs in
      (st, c1 ++ c2)
  end.

Definition MaybeAggregateAckedStreamFrame (st : t) (i : QuicTransmissionInfo)
    (ack_delay receive_timestamp : Z) : t * list call :=
  if negb (has_session_notifier st) then (st, [])
  else aggregate_frames ack_delay receive_timestamp st (retransmittable_frames i).

(** ** The accounts of the map *)

Ltac upm_simpl := cbn [perspective largest_sent_packet largest_sent_packets
  largest_sent_retransmittable_packets largest_sent_largest_acked largest_acked largest_acked_packets
  unacked_packets least_unacked bytes_in_flight pending_crypto_packet_count last_crypto_packet_sent_time
  aggregated_stream_frame has_session_notifier session_decides_what_to_write
  supports_multiple_packet_number_spaces with_packets with_list with_largest_acked with_aggregated
  with_modes retransmittable_frames bytes_sent in_flight has_crypto_handshake retransmission state
  set_frames set_in_flight set_state set_crypto set_padding set_retransmission set_info_largest_acked
  QuicTransmissionInfo_new QuicTransmissionInfo_default never_sent encryption_level sent_time] in *.

(** A quantity summed over the packets. *)
Definition total (f : QuicTransmissionInfo → Z) (l : list QuicTransmissionInfo) : Z :=
  foldr (λ i n, f i + n) 0 l.
Definition flight_bytes (i : QuicTransmissionInfo) : Z := if in_flight i then bytes_sent i else 0.
Definition crypto_one (i : QuicTransmissionInfo) : Z := if has_crypto_handshake i then 1 else 0.

Lemma total_app f l k : total f (l ++ k) = total f l + total f k.
Proof. unfold total. induction l as [|i l IH]; cbn [app foldr]; [lia|]. rewrite IH. lia. Qed.

Lemma total_insert f l n i i' : l !! n = Some i → total f (<[n := i']> l) = total f l - f i + f i'.
Proof.
  revert n. induction l as [|x l IH]; intros [|n] Hn; try done; cbn in Hn.
  - injection Hn as ->. change (total f (i' :: l) = total f (i :: l) - f i + f i'). unfold total. cbn [foldr]. lia.
  - change (total f (x :: <[n := i']> l) = total f (x :: l) - f i + f i').
    unfold total in *. cbn [foldr]. rewrite (IH n Hn). lia.
Qed.

Lemma total_same f l n i i' : l !! n = Some i → f i' = f i → total f (<[n := i']> l) = total f l.
Proof. intros Hn E. rewrite (total_insert _ _ _ _ _ Hn), E. lia. Qed.

Lemma total_replicate f i n : f i = 0 → total f (replicate n i) = 0.
Proof. intros E. unfold total. induction n as [|n IH]; cbn [replicate foldr]; lia. Qed.

Lemma total_nonneg f l : (∀ i, i ∈ l → 0 <= f i) → 0 <= total f l.
Proof.
  intros H. induction l as [|i l IH]; cbn; [lia|]. pose proof (H i ltac:(left)).
  unfold total in IH. specialize (IH ltac:(intros j Hj; apply H; by right)). lia.
Qed.

Lemma alter_insert {A} (f : A → A) (l : list A) n :
  alter f n l = match l !! n with Some x => <[n := f x]> l | None => l end.
Proof.
  revert n. induction l as [|y l IH]; intros [|n]; try done.
  change (y :: alter f n l = match l !! n with Some x => y :: <[n := f x]> l | None => y :: l end).
  rewrite IH. by destruct (l !! n).
Qed.

(** The invariant. [nx] bounds the links and [d] counts the crypto packets on their way to the map. *)
Record InvG (nx d : Z) (st : t) : Prop := {
  ig_least : 1 <= least_unacked st;
  ig_next : next_packet st <= nx;
  ig_small : nx <= two62;
  ig_bytes : bytes_in_flight st = wrap64 (total flight_bytes (unacked_packets st));
  ig_u16 i : i ∈ unacked_packets st → is_u16 (bytes_sent i);
  ig_links n i : session_decides_what_to_write st = false → unacked_packets st !! n = Some i →
    IsInitialized (retransmission i) = true →
    least_unacked st + Z.of_nat n < retransmission i < nx
    ∧ retransmittable_frames i = [] ∧ has_crypto_handshake i = false;
  ig_crypto : session_decides_what_to_write st = false →
    pending_crypto_packet_count st = wrap64 (total crypto_one (unacked_packets st) + d);
  ig_data i : session_decides_what_to_write st = false → i ∈ unacked_packets st →
    has_crypto_handshake i = true → retransmittable_frames i ≠ [];
}.

Definition Inv (st : t) : Prop :=
  InvG (next_packet st) 0 st
  ∧ next_packet st = (if IsInitialized (largest_sent_packet st) then largest_sent_packet st + 1 else 1).

(** Replacing one packet's information. *)
Lemma replace_inv nx d d' st n i i' bytes crypto :
  InvG nx d st → unacked_packets st !! n = Some i →
  bytes_sent i' = bytes_sent i →
  bytes = wrap64 (total flight_bytes (unacked_packets st) - flight_bytes i + flight_bytes i') →
  (session_decides_what_to_write st = false →
     crypto = wrap64 (total crypto_one (unacked_packets st) - crypto_one i + crypto_one i' + d')
     ∧ (IsInitialized (retransmission i') = true →
          least_unacked st + Z.of_nat n < retransmission i' < nx
          ∧ retransmittable_frames i' = [] ∧ has_crypto_handshake i' = false)
     ∧ (has_crypto_handshake i' = true → retransmittable_frames i' ≠ [])) →
  InvG nx d' (with_packets st (<[n := i']> (unacked_packets st)) (least_unacked st) bytes crypto).
Proof.
  intros [H1 H2 H3 H4 H5 H6 H7 H8] Hn Hb Eb Hl. pose proof (list_elem_of_lookup_2 _ _ _ Hn) as Hin.
  assert (Hother : ∀ j, j ∈ <[n := i']> (unacked_packets st) → j = i' ∨ j ∈ unacked_packets st).
  { intros j [m Hm]%list_elem_of_lookup_1. destruct (decide (m = n)) as [->|Hne].
    - rewrite list_lookup_insert_eq in Hm by (by eapply lookup_lt_Some). injection Hm as <-. by left.
    - rewrite list_lookup_insert_ne in Hm by done. right. by eapply list_elem_of_lookup_2. }
  split; unfold next_packet in *; upm_simpl.
  - done.
  - unfold zlen in *. by rewrite length_insert.
  - done.
  - rewrite Eb. f_equal. symmetry. by apply total_insert.
  - intros j [->|Hj]%Hother; [rewrite Hb; by apply H5|by apply H5].
  - intros m j Hs Hm Hr. destruct (decide (m = n)) as [->|Hne].
    + rewrite list_lookup_insert_eq in Hm by (by eapply lookup_lt_Some). injection Hm as <-. by apply Hl.
    + rewrite list_lookup_insert_ne in Hm by done. by apply H6.
  - intros Hs. rewrite (total_insert _ _ _ _ _ Hn). by apply Hl.
  - intros j Hs [->|Hj]%Hother; [by apply Hl|by apply H8].
Qed.

(** Dropping the packets that are not useful any more. *)
Lemma drop_useless_spec st l least :
  0 <= least → least + zlen l < two64 →
  let '(l', least') := drop_useless st l least in
  ∃ dropped, l = dropped ++ l' ∧ least' = least + zlen dropped
    ∧ (∀ n i, dropped !! n = Some i → IsPacketUseless st (least + Z.of_nat n) i = true)
    ∧ match l' with [] => True | i :: _ => IsPacketUseless st least' i = false end.
Proof.
  revert least. induction l as [|i l IH]; intros least Hl Hb; cbn [drop_useless].
  { exists []. split; [done|]. rewrite (@zlen_nil QuicTransmissionInfo). split; [lia|]. done. }
  destruct (IsPacketUseless st least i) eqn:Eu; cbn [negb].
  - rewrite zlen_cons in Hb. pose proof (zlen_nonneg l). rewrite add_small by (unfold two64 in *; lia).
    specialize (IH (least + 1) ltac:(lia) ltac:(lia)). destruct (drop_useless st l (least + 1)) as [l' least'].
    destruct IH as (dropped&->&->&Hd&Hh). exists (i :: dropped). split; [done|].
    rewrite zlen_cons. split; [lia|]. split; [|done]. intros [|n] j Hj.
    + cbn in Hj. injection Hj as <-. by rewrite Z.add_0_r.
    + cbn in Hj. specialize (Hd n j Hj). by replace (least + Z.of_nat (S n)) with (least + 1 + Z.of_nat n) by lia.
  - exists []. split; [done|]. rewrite (@zlen_nil QuicTransmissionInfo). split; [lia|]. done.
Qed.

Lemma useless_holds_nothing st p i :
  IsPacketUseless st p i = true →
  in_flight i = false ∧ (session_decides_what_to_write st = false → retransmittable_frames i = []).
Proof.
  unfold IsPacketUseless, IsPacketUsefulForCongestionControl, IsPacketUsefulForRetransmittableData,
    HasRetransmittableFrames, no_frames.
  intros [[_ Hf]%andb_true_iff Hd]%andb_true_iff. split; [by destruct (in_flight i)|]. intros Hs.
  rewrite Hs in Hd. cbn [negb] in Hd. destruct (retransmittable_frames i); [done|].
  cbn [negb] in Hd. by rewrite orb_true_r in Hd.
Qed.

Lemma RemoveObsoletePackets_inv nx d st :
  InvG nx d st →
  InvG nx d (RemoveObsoletePackets st) ∧ next_packet (RemoveObsoletePackets st) = next_packet st
  ∧ largest_sent_packet (RemoveObsoletePackets st) = largest_sent_packet st
  ∧ session_decides_what_to_write (RemoveObsoletePackets st) = session_decides_what_to_write st.
Proof.
  intros [H1 H2 H3 H4 H5 H6 H7 H8]. unfold RemoveObsoletePackets, next_packet in *.
  pose proof (drop_useless_spec st (unacked_packets st) (least_unacked st) ltac:(lia)
    ltac:(unfold two62, two64 in *; lia)) as Hd.
  destruct (drop_useless st _ _) as [l least]. destruct Hd as (dropped&El&->&Hu&_).
  assert (Hempty : ∀ i, i ∈ dropped → flight_bytes i = 0 ∧ (session_decides_what_to_write st = false → crypto_one i = 0)).
  { intros i [n Hn]%list_elem_of_lookup_1. destruct (useless_holds_nothing _ _ _ (Hu n i Hn)) as [Hf Hs].
    unfold flight_bytes, crypto_one. rewrite Hf. split; [done|]. intros Hl. specialize (Hs Hl).
    destruct (has_crypto_handshake i) eqn:Ec; [|done]. exfalso. apply (H8 i Hl); [|done|done].
    rewrite El. apply elem_of_app. left. by eapply list_elem_of_lookup_2. }
  assert (Htot : ∀ f, (∀ i, i ∈ dropped → f i = 0) → total f (unacked_packets st) = total f l).
  { intros f Hf. rewrite El, total_app. clear -Hf. induction dropped as [|i k IH]; cbn; [lia|].
    rewrite (Hf i) by left. specialize (IH ltac:(intros j Hj; apply Hf; by right)). unfold total in *. lia. }
  pose proof (zlen_nonneg dropped) as Hz.
  assert (Hlen : zlen (unacked_packets st) = zlen dropped + zlen l) by (by rewrite El, zlen_app).
  assert (Hin : ∀ i, i ∈ l → i ∈ unacked_packets st).
  { intros i Hi. rewrite El. apply elem_of_app. by right. }
  split; [|split; [upm_simpl; lia|done]]. split; unfold next_packet in *; upm_simpl.
  - lia.
  - lia.
  - done.
  - rewrite H4, (Htot flight_bytes); [done|]. intros i Hi. by apply Hempty.
  - intros i Hi. by apply H5, Hin.
  - intros n i Hs Hn Hr. destruct (H6 (length dropped + n)%nat i Hs) as [Hlk Hrest]; [|done|].
    + rewrite El, lookup_app_r by lia. by replace (_ + n - _)%nat with n by lia.
    + split; [|done]. unfold zlen. lia.
  - intros Hs. rewrite H7, (Htot crypto_one); [done| |done]. intros i Hi. by apply Hempty.
  - intros i Hs Hi. by apply H8, Hin.
Qed.

Lemma InvG_weaken nx nx' d st : InvG nx d st → nx <= nx' <= two62 → InvG nx' d st.
Proof.
  intros [H1 H2 H3 H4 H5 H6 H7 H8] Hn. split; [done|lia|lia|done|done| |done|done].
  intros n i Hs Hi Hr. destruct (H6 n i Hs Hi Hr) as [Hl Hrest]. split; [lia|done].
Qed.

(** Adding a packet at the end; the crypto packets on their way may be what it carries. *)
Lemma push_inv nx d d' st i bytes crypto :
  InvG nx d st → next_packet st + 1 <= nx → is_u16 (bytes_sent i) →
  IsInitialized (retransmission i) = false →
  bytes = wrap64 (bytes_in_flight st + flight_bytes i) →
  (session_decides_what_to_write st = false →
     crypto = wrap64 (total crypto_one (unacked_packets st) + crypto_one i + d')
     ∧ (has_crypto_handshake i = true → retransmittable_frames i ≠ [])) →
  InvG nx d' (with_packets st (unacked_packets st ++ [i]) (least_unacked st) bytes crypto).
Proof.
  intros [H1 H2 H3 H4 H5 H6 H7 H8] Hn Hu Hr Eb Hl.
  assert (Hone : ∀ f, total f [i] = f i) by (intros f; cbn; lia).
  split; unfold next_packet in *; upm_simpl; try done.
  - rewrite zlen_app, (@zlen_cons QuicTransmissionInfo), (@zlen_nil QuicTransmissionInfo). lia.
  - rewrite Eb, H4, total_app, Hone. unfold wrap64. by rewrite Zplus_mod_idemp_l.
  - intros j [Hj| ->%list_elem_of_singleton]%elem_of_app; [by apply H5|done].
  - intros n j Hs [Hj|[_ Hj]]%lookup_app_Some Hrj; [by apply H6|].
    apply list_lookup_singleton_Some in Hj as [_ <-]. congruence.
  - intros Hs. rewrite total_app, Hone. by apply Hl.
  - intros j Hs [Hj| ->%list_elem_of_singleton]%elem_of_app; [by apply H8|by apply Hl].
Qed.

Lemma fill_inv nx d st p :
  InvG nx d st → next_packet st <= p <= nx → InvG nx d (fill st p) ∧ next_packet (fill st p) = p.
Proof.
  intros [H1 H2 H3 H4 H5 H6 H7 H8] Hp. unfold fill, next_packet in *.
  assert (Hlen : zlen (replicate (Z.to_nat (p - (least_unacked st + zlen (unacked_packets st)))) never_sent)
                 = p - (least_unacked st + zlen (unacked_packets st))).
  { unfold zlen at 1. rewrite length_replicate. lia. }
  set (k := Z.to_nat _) in *. split; [|upm_simpl; rewrite zlen_app; lia].
  split; unfold next_packet; upm_simpl; try done.
  - rewrite zlen_app. lia.
  - rewrite total_app, total_replicate by done. by rewrite Z.add_0_r.
  - intros i [Hi|[-> _]%elem_of_replicate]%elem_of_app; [by apply H5|done].
  - intros n i Hs [Hi|[_ Hi]]%lookup_app_Some Hr; [by apply H6|].
    apply lookup_replicate in Hi as [-> _]. done.
  - intros Hs. rewrite total_app, total_replicate by done. rewrite Z.add_0_r. by apply H7.
  - intros i Hs [Hi|[-> _]%elem_of_replicate]%elem_of_app; [by apply H8|done].
Qed.

(** Moving the data of a packet to its retransmission. *)
Lemma transfer_inv nx d st old p type info :
  InvG nx d st → next_packet st <= p < nx →
  retransmittable_frames info = [] → IsInitialized (retransmission info) = false →
  let '(st', info', _) := TransferRetransmissionInfo st old p type info in
  next_packet st' = next_packet st ∧ largest_sent_packet st' = largest_sent_packet st
  ∧ session_decides_what_to_write st' = session_decides_what_to_write st
  ∧ bytes_sent info' = bytes_sent info ∧ in_flight info' = in_flight info
  ∧ IsInitialized (retransmission info') = false
  ∧ if (least_unacked st <=? old) && (old <=? largest_sent_packet st)
       && (old <? next_packet st)
    then InvG nx (d + crypto_one info') st'
         ∧ (session_decides_what_to_write st = false → has_crypto_handshake info' = true →
            retransmittable_frames info' ≠ [])
    else InvG nx d st' ∧ info' = info.
Proof.
  intros HI Hp Hf Hr. pose proof HI as [H1 H2 H3 _ _ H6 H7 H8]. unfold TransferRetransmissionInfo.
  destruct (Z.ltb_spec old (least_unacked st)).
  { rewrite (proj2 (Z.leb_gt _ _)) by lia. done. }
  rewrite (proj2 (Z.leb_le _ _)) by lia. cbn [andb].
  destruct (Z.ltb_spec (largest_sent_packet st) old).
  { rewrite (proj2 (Z.leb_gt _ _)) by lia. done. }
  rewrite (proj2 (Z.leb_le old _)) by lia. cbn [andb]. unfold GetTransmissionInfo, index.
  destruct (unacked_packets st !! _) as [i|] eqn:Hi.
  2:{ apply lookup_ge_None in Hi. unfold next_packet, zlen in *. by rewrite (proj2 (Z.ltb_ge _ _)) by lia. }
  pose proof (lookup_lt_Some _ _ _ Hi) as Hlt.
  rewrite (proj2 (Z.ltb_lt old _)) by (unfold next_packet, zlen; lia).
  assert (Ei : ∀ b, crypto_one (set_crypto i b) = if b then 1 else 0) by done.
  set (o := if (_ || _)%bool then _ else _).
  assert (Eo : retransmittable_frames o = [] ∧ has_crypto_handshake o = false ∧ bytes_sent o = bytes_sent i
     ∧ in_flight o = in_flight i ∧ (retransmission o = p ∨ retransmission o = retransmission i)).
  { subst o. destruct (_ || _); cbn; rewrite Hf; eauto 10. }
  destruct Eo as (Ef&Ec&Eb&Efl&Er).
  assert (HI' : InvG nx (d + crypto_one i) (with_list st (<[Z.to_nat (old - least_unacked st):=o]> (unacked_packets st)))).
  { apply (replace_inv nx d (d + crypto_one i) st _ i o); [done..| | ].
    - assert (Ez : flight_bytes o = flight_bytes i) by (unfold flight_bytes; by rewrite Eb, Efl).
      upm_simpl. rewrite Ez, (ig_bytes _ _ _ HI). f_equal. lia.
    - intros Hs. split; [|split].
      + assert (Ez : crypto_one o = 0) by (unfold crypto_one; by rewrite Ec).
        rewrite H7, Ez by done. f_equal. lia.
      + intros Hro. split; [|done]. destruct Er as [->| ->] in Hro |- *; [unfold next_packet, zlen in *; lia|]. by apply (H6 _ i).
      + congruence. }
  destruct (RemoveObsoletePackets_inv _ _ _ HI') as (HI''&En&El&Es).
  rewrite En, El, Es. unfold next_packet, zlen. upm_simpl. rewrite length_insert.
  split; [done|]. split; [done|]. split; [done|]. split; [done|]. split; [done|]. split; [done|].
  split; [exact HI''|]. intros Hs. apply H8; [done|]. by eapply list_elem_of_lookup_2.
Qed.

(** What the caller of [AddSentPacket] ensures. *)
Definition sendable (st : t) (packet : SerializedPacket) (old : Z) : Prop :=
  next_packet st <= packet_number packet < two62 ∧ is_u16 (encrypted_length packet)
  ∧ (session_decides_what_to_write st = false → packet_has_crypto_handshake packet = true →
     if IsInitialized old then least_unacked st <= old < next_packet st
     else packet_retransmittable_frames packet ≠ []).

(** The map and the new packet after the transfer of the data, if any. *)
Lemma sent_transfer_inv st packet old type info :
  Inv st → sendable st packet old →
  retransmittable_frames info = [] → IsInitialized (retransmission info) = false →
  bytes_sent info = encrypted_length packet → in_flight info = false →
  has_crypto_handshake info = packet_has_crypto_handshake packet →
  ∃ s2 info2 calls,
    (if IsInitialized old
     then TransferRetransmissionInfo (fill st (packet_number packet)) old (packet_number packet) type info
     else (fill st (packet_number packet), info, [])) = (s2, info2, calls)
    ∧ next_packet s2 = packet_number packet ∧ session_decides_what_to_write s2 = session_decides_what_to_write st
    ∧ bytes_sent info2 = encrypted_length packet ∧ in_flight info2 = false ∧ IsInitialized (retransmission info2) = false
    ∧ ∃ d, InvG (packet_number packet + 1) d s2
      ∧ (session_decides_what_to_write st = false →
          d = (if IsInitialized old then crypto_one info2 else 0)
          ∧ (IsInitialized old = true → has_crypto_handshake info2 = true → retransmittable_frames info2 ≠ []))
      ∧ (IsInitialized old = false → info2 = info).
Proof.
  intros [HI Hnx] (Hp&Hu&Hc) Hif Hir Hib Hil Hic.
  destruct (fill_inv (packet_number packet + 1) 0 st (packet_number packet)) as [HF En].
  { apply (InvG_weaken (next_packet st)); [done|lia]. }
  { lia. }
  set (s1 := fill st (packet_number packet)) in *.
  assert (Hl1 : largest_sent_packet s1 = largest_sent_packet st ∧ least_unacked s1 = least_unacked st
    ∧ session_decides_what_to_write s1 = session_decides_what_to_write st) by done.
  clearbody s1. destruct (IsInitialized old) eqn:Eo; [|destruct Hl1 as (_&_&?); eauto 20].
  pose proof (transfer_inv _ _ s1 old (packet_number packet) type info HF ltac:(lia) Hif Hir) as HT.
  destruct (TransferRetransmissionInfo _ _ _ _ _) as [[s2 info2] calls].
  destruct HT as (E1&E2&E3&E4&E5&E6&E7), Hl1 as (Els&Ell&Eld).
  exists s2, info2, calls. split; [done|]. do 4 (split; [congruence|]). split; [done|].
  rewrite Els, Ell in E7. destruct (_ && _) eqn:Eb in E7.
  - destruct E7 as [E7 E8]. exists (0 + crypto_one info2). split; [done|]. split; [|done].
    intros Hs. split; [lia|]. intros _. apply E8. congruence.
  - destruct E7 as [E7 ->]. exists 0. split; [done|]. split; [|done]. intros Hs.
    assert (Hno : packet_has_crypto_handshake packet = false).
    { destruct (packet_has_crypto_handshake packet); [|done]. specialize (Hc Hs eq_refl).
      destruct (Z.leb_spec (least_unacked st) old), (Z.leb_spec old (largest_sent_packet st)),
        (Z.ltb_spec old (next_packet s1)); cbn in Eb; try done; try lia.
      destruct (IsInitialized (largest_sent_packet st)) eqn:Ei in Hnx; [lia|].
      pose proof (ig_least _ _ _ HI). lia. }
    unfold crypto_one. rewrite Hic, Hno. done.
Qed.

Lemma AddSentPacket_inv st packet old type time fl :
  Inv st → sendable st packet old →
  Inv (AddSentPacket st packet old type time fl).1.1
  ∧ largest_sent_packet (AddSentPacket st packet old type time fl).1.1 = packet_number packet
  ∧ session_decides_what_to_write (AddSentPacket st packet old type time fl).1.1 = session_decides_what_to_write st.
Proof.
  intros HI Hsend. unfold AddSentPacket. set (info := set_info_largest_acked _ _).
  destruct (sent_transfer_inv st packet old type info HI Hsend) as (s2&info2&calls&->&E1&E2&E3&E4&E5&d&HG&Hd&Hsame);
    [done..|].
  assert (Hic : has_crypto_handshake info = packet_has_crypto_handshake packet) by done.
  clearbody info. destruct HI as [HI _], Hsend as (Hp&Hu&Hc).
  cbn [fst snd]. set (i2 := if fl then set_in_flight info2 true else info2).
  set (i3 := if negb (IsInitialized old) then set_frames i2 (packet_retransmittable_frames packet) else i2).
  assert (Hi3 : bytes_sent i3 = encrypted_length packet ∧ IsInitialized (retransmission i3) = false
    ∧ flight_bytes i3 = (if fl then encrypted_length packet else 0)
    ∧ has_crypto_handshake i3 = has_crypto_handshake info2
    ∧ retransmittable_frames i3 = if IsInitialized old then retransmittable_frames info2
                                   else packet_retransmittable_frames packet).
  { subst i3 i2. unfold flight_bytes. destruct fl, (IsInitialized old); cbn; rewrite ?E3, ?E4; done. }
  destruct Hi3 as (F1&F2&F3&F4&F5).
  split; [|done]. set (res := mk _ _ _ _ _ _ _ _ _ _ _ _ _ _ _ _).
  assert (Hres : next_packet res = packet_number packet + 1).
  { unfold next_packet in *. subst res. upm_simpl.
    rewrite zlen_app, (@zlen_cons QuicTransmissionInfo), (@zlen_nil QuicTransmissionInfo). lia. }
  split.
  2:{ rewrite Hres. subst res. upm_simpl. unfold IsInitialized, UninitializedPacketNumber.
      rewrite (proj2 (Z.eqb_neq _ _)) by (unfold two62, two64 in *; lia). done. }
  rewrite Hres.
  destruct (push_inv (packet_number packet + 1) d 0 s2 i3 (bytes_in_flight res) (pending_crypto_packet_count res)
    HG ltac:(lia)) as [G1 G2 G3 G4 G5 G6 G7 G8]; [congruence|done| | |by split].
  - subst res. upm_simpl. rewrite F3. destruct fl; [done|]. rewrite Z.add_0_r, (ig_bytes _ _ _ HG).
    unfold wrap64. by rewrite Zmod_mod.
  - intros Hs. rewrite E2 in Hs. destruct (Hd Hs) as [Ed Hdf]. specialize (Hc Hs). subst res. upm_simpl.
    pose proof (ig_crypto _ _ _ HG ltac:(congruence)) as Hct.
    assert (Ec : crypto_one i3 = crypto_one info2) by (unfold crypto_one; by rewrite F4).
    rewrite F4, F5, Ec, Ed in *. destruct (IsInitialized old); cbn [negb andb].
    + split; [rewrite Hct; f_equal; lia|]. by apply Hdf.
    + rewrite (Hsame eq_refl) in *. unfold crypto_one at 2. rewrite Hic.
      destruct (packet_has_crypto_handshake packet).
      * split; [rewrite Hct; unfold wrap64; rewrite Zplus_mod_idemp_l; f_equal; lia|]. by intros _; apply Hc.
      * split; [rewrite Hct; f_equal; lia|done].
Qed.

(** [InvG] reads only the packets, their accounts and the mode. *)
Lemma InvG_same nx d st st' :
  InvG nx d st → unacked_packets st' = unacked_packets st → least_unacked st' = least_unacked st →
  bytes_in_flight st' = bytes_in_flight st → pending_crypto_packet_count st' = pending_crypto_packet_count st →
  session_decides_what_to_write st' = session_decides_what_to_write st → InvG nx d st'.
Proof.
  intros [] E1 E2 E3 E4 E5. split; unfold next_packet in *; rewrite ?E1, ?E2, ?E3, ?E4, ?E5; done.
Qed.

(** Packets reachable through the links, from a packet to its last transmission. *)
Inductive transmissions (least : Z) (l : list QuicTransmissionInfo) : nat → list nat → nat → Prop :=
| last_transmission i info :
    l !! i = Some info → IsInitialized (retransmission info) = false → transmissions least l i [] i
| retransmitted i info ks j :
    l !! i = Some info → IsInitialized (retransmission info) = true →
    transmissions least l (Z.to_nat (retransmission info - least)) ks j →
    transmissions least l i (i :: ks) j.

Definition cleared (info : QuicTransmissionInfo) : QuicTransmissionInfo := set_retransmission info PacketNumber.Clear.

Lemma transmissions_insert least l n info i ks j :
  transmissions least (<[n := info]> l) i ks j → (n < i)%nat →
  (∀ m x, l !! m = Some x → IsInitialized (retransmission x) = true →
     (m < Z.to_nat (retransmission x - least))%nat) →
  transmissions least l i ks j ∧ (∀ k, k ∈ ks → (i <= k < j)%nat) ∧ (i <= j)%nat.
Proof.
  intros H Hni Hl. induction H as [i x Hx Hr|i x ks j Hx Hr _ IH];
    rewrite list_lookup_insert_ne in Hx by lia.
  - split; [by econstructor|]. split; [|lia]. intros k Hk. by apply elem_of_nil in Hk.
  - pose proof (Hl i x Hx Hr). destruct IH as (IH1&IH2&IH3); [lia|].
    split; [by econstructor|]. split; [|lia]. intros k [->|Hk]%elem_of_cons; [lia|]. specialize (IH2 k Hk). lia.
Qed.

(** Clearing the links of some packets. *)
Definition clear_links (ks : list nat) (l : list QuicTransmissionInfo) : list QuicTransmissionInfo :=
  fold_left (λ l k, alter cleared k l) ks l.

Lemma clear_links_lookup ks l k :
  clear_links ks l !! k = (if bool_decide (k ∈ ks) then cleared <$> l !! k else l !! k).
Proof.
  unfold clear_links. revert l. induction ks as [|n ks IH]; intros l; cbn [fold_left]; [done|]. rewrite IH.
  destruct (decide (n = k)) as [->|Hne].
  - rewrite list_lookup_alter_eq, (bool_decide_eq_true_2 (k ∈ k :: ks)) by left.
    case_bool_decide; [|done]. by destruct (l !! k).
  - rewrite list_lookup_alter_ne by done.
    by rewrite (bool_decide_ext (k ∈ n :: ks) (k ∈ ks)) by (rewrite elem_of_cons; naive_solver).
Qed.

Lemma clear_links_length ks l : length (clear_links ks l) = length l.
Proof. unfold clear_links. revert l. induction ks as [|n ks IH]; intros l; cbn; [done|]. by rewrite IH, length_alter. Qed.

Definition links_ok (least : Z) (l : list QuicTransmissionInfo) : Prop :=
  ∀ m x, l !! m = Some x → IsInitialized (retransmission x) = true →
    (m < Z.to_nat (retransmission x - least) < length l)%nat.

(** The loop of [RemoveRetransmittability] ends at the last transmission. *)
Lemma follow_spec fuel least l i :
  (i < length l)%nat → (length l <= i + fuel)%nat → links_ok least l →
  ∃ ks j, transmissions least l i ks j ∧ (∀ k, k ∈ ks → (i <= k < j)%nat) ∧ (i <= j < length l)%nat
    ∧ follow fuel least l i = (clear_links ks l, j).
Proof.
  revert l i. induction fuel as [|fuel IH]; intros l i Hi Hf Hl; [lia|]. cbn [follow].
  destruct (lookup_lt_is_Some_2 l i Hi) as [x Hx]. rewrite Hx.
  destruct (IsInitialized (retransmission x)) eqn:Er.
  2:{ exists [], i. split; [by econstructor|]. split; [|by split; [lia|]]. intros k Hk. by apply elem_of_nil in Hk. }
  pose proof (Hl i x Hx Er) as Hj. set (i' := Z.to_nat _) in *.
  assert (Ea : <[i := cleared x]> l = alter cleared i l) by (by rewrite alter_insert, Hx).
  destruct (IH (<[i := cleared x]> l) i') as (ks&j&Ht&Hks&Hij&Ef).
  - rewrite length_insert. lia.
  - rewrite length_insert. lia.
  - intros m y Hm Hr. rewrite length_insert. destruct (decide (m = i)) as [->|Hne].
    + rewrite list_lookup_insert_eq in Hm by done. injection Hm as <-. done.
    + rewrite list_lookup_insert_ne in Hm by done. by apply Hl.
  - rewrite length_insert in Hij.
    destruct (transmissions_insert _ _ _ _ _ _ _ Ht (proj1 Hj)) as [Ht' _].
    { intros m y Hm Hr. by apply Hl. }
    exists (i :: ks), j. split; [by econstructor|]. split.
    { intros k [->|Hk]%elem_of_cons; [lia|]. specialize (Hks k Hk). lia. }
    split; [lia|]. unfold cleared in Ea, Ef. rewrite Ef. cbn [clear_links fold_left]. unfold clear_links.
    by rewrite Ea.
Qed.

Lemma clear_links_inv nx d st ks : InvG nx d st → InvG nx d (with_list st (clear_links ks (unacked_packets st))).
Proof.
  revert st. induction ks as [|k ks IH]; intros st HI; cbn [clear_links fold_left].
  { by apply (InvG_same nx d st). }
  assert (H1 : InvG nx d (with_list st (alter cleared k (unacked_packets st)))); [|by apply (InvG_same _ _ _ _ (IH _ H1))].
  rewrite alter_insert.
  destruct (unacked_packets st !! k) as [x|] eqn:Hx; [|by apply (InvG_same nx d st)].
  apply (replace_inv nx d d st k x); [done..| | ].
  - rewrite (ig_bytes _ _ _ HI). f_equal. change (flight_bytes (cleared x)) with (flight_bytes x). lia.
  - intros Hs. split; [|split; [done|]].
    + rewrite (ig_crypto _ _ _ HI Hs). f_equal. change (crypto_one (cleared x)) with (crypto_one x). lia.
    + apply (ig_data _ _ _ HI x Hs). by eapply list_elem_of_lookup_2.
Qed.

(** What the session, the sent packet manager or the loss detection do to a packet's frames. *)
Definition emptied (info : QuicTransmissionInfo) : QuicTransmissionInfo := set_frames (set_crypto info false) [].

Lemma empty_packet_inv st n info crypto :
  InvG (next_packet st) 0 st → unacked_packets st !! n = Some info → IsInitialized (retransmission info) = false →
  (session_decides_what_to_write st = false →
     crypto = wrap64 (pending_crypto_packet_count st - crypto_one info)) →
  InvG (next_packet st) 0
    (with_packets st (<[n := emptied info]> (unacked_packets st)) (least_unacked st) (bytes_in_flight st) crypto).
Proof.
  intros HI Hn Hr Hc. apply (replace_inv _ 0 0 st n info); [done..| | ].
  - rewrite (ig_bytes _ _ _ HI). f_equal. change (flight_bytes (emptied info)) with (flight_bytes info). lia.
  - intros Hs. split; [|split; [|done]].
    + rewrite (Hc Hs), (ig_crypto _ _ _ HI Hs). change (crypto_one (emptied info)) with 0.
      unfold wrap64. rewrite Zminus_mod_idemp_l. f_equal. lia.
    + change (retransmission (emptied info)) with (retransmission info). congruence.
Qed.

Lemma crypto_count_small nx d st :
  InvG nx d st → 0 <= total crypto_one (unacked_packets st) <= zlen (unacked_packets st)
  ∧ zlen (unacked_packets st) < two62.
Proof.
  intros HI. pose proof (ig_next _ _ _ HI). pose proof (ig_small _ _ _ HI). pose proof (ig_least _ _ _ HI).
  unfold next_packet in *. split; [|lia]. clear. induction (unacked_packets st) as [|i l IH]; [done|].
  rewrite zlen_cons. change (total crypto_one (i :: l)) with (crypto_one i + total crypto_one l).
  unfold crypto_one at 1 3. destruct (has_crypto_handshake i); lia.
Qed.

Lemma total_lookup_le f l n i : (∀ i, 0 <= f i) → l !! n = Some i → f i <= total f l.
Proof.
  intros Hf. revert n. induction l as [|x l IH]; intros [|n] Hn; try done; cbn in Hn;
    change (total f (x :: l)) with (f x + total f l);
    pose proof (total_nonneg f l (λ i _, Hf i)); pose proof (Hf x).
  - injection Hn as ->. lia.
  - specialize (IH n Hn). lia.
Qed.

Lemma crypto_one_nonneg i : 0 <= crypto_one i.
Proof. unfold crypto_one. by destruct (has_crypto_handshake i). Qed.

(** The count of pending crypto packets is exact, and does not wrap when one of them is taken away. *)
Lemma crypto_count_exact nx st n i :
  InvG nx 0 st → session_decides_what_to_write st = false → unacked_packets st !! n = Some i →
  pending_crypto_packet_count st = total crypto_one (unacked_packets st)
  ∧ wrap64 (pending_crypto_packet_count st - crypto_one i) = pending_crypto_packet_count st - crypto_one i.
Proof.
  intros HI Hs Hn. pose proof (crypto_count_small _ _ _ HI). pose proof (ig_crypto _ _ _ HI Hs) as E.
  unfold wrap64 in E. rewrite Z.add_0_r, Z.mod_small in E by (unfold two62, two64 in *; lia). split; [done|].
  rewrite E. pose proof (total_lookup_le crypto_one _ _ _ crypto_one_nonneg Hn). pose proof (crypto_one_nonneg i).
  unfold wrap64. apply Z.mod_small. unfold two62, two64 in *. lia.
Qed.

(** [RemoveRetransmittability] in the terms of the chain it follows. *)
Lemma RemoveRetransmittability_chain st n :
  InvG (next_packet st) 0 st → session_decides_what_to_write st = false → (n < length (unacked_packets st))%nat →
  ∃ ks j info, transmissions (least_unacked st) (unacked_packets st) n ks j
    ∧ (∀ k, k ∈ ks → (n <= k < j)%nat) ∧ (n <= j)%nat
    ∧ unacked_packets st !! j = Some info ∧ IsInitialized (retransmission info) = false
    ∧ RemoveRetransmittability st (least_unacked st + Z.of_nat n) =
        with_packets st (<[j := emptied info]> (clear_links ks (unacked_packets st))) (least_unacked st)
          (bytes_in_flight st) (wrap64 (pending_crypto_packet_count st - crypto_one info)).
Proof.
  intros HI Hs Hn. set (l := unacked_packets st).
  destruct (follow_spec (S (length l)) (least_unacked st) l n) as (ks&j&Ht&Hks&Hij&Ef); [done|lia| |].
  { intros m x Hm Hr. destruct (ig_links _ _ _ HI m x Hs Hm Hr) as [Hb _]. unfold next_packet, zlen in Hb.
    fold l in Hb. lia. }
  destruct (lookup_lt_is_Some_2 l j ltac:(lia)) as [info Hi]. exists ks, j, info.
  assert (Hr : IsInitialized (retransmission info) = false).
  { clear -Ht Hi. induction Ht; [congruence|auto]. }
  split; [done|]. split; [done|]. split; [lia|]. split; [done|]. split; [done|].
  unfold RemoveRetransmittability, index. rewrite Hs.
  replace (Z.to_nat (least_unacked st + Z.of_nat n - least_unacked st)) with n by lia. fold l. rewrite Ef.
  rewrite alter_insert.
  assert (Hj : clear_links ks l !! j = Some info).
  { rewrite clear_links_lookup, bool_decide_eq_false_2; [done|]. intros Hk. specialize (Hks j Hk). lia. }
  rewrite Hj. fold (emptied info). destruct (crypto_count_exact _ st j info HI Hs Hi) as [_ Ew].
  unfold crypto_one in *. destruct (has_crypto_handshake info); [done|]. rewrite Ew. by rewrite Z.sub_0_r.
Qed.

Lemma with_packets_next st l bytes crypto :
  length l = length (unacked_packets st) → next_packet (with_packets st l (least_unacked st) bytes crypto) = next_packet st.
Proof. unfold next_packet, zlen. upm_simpl. by intros ->. Qed.

(** An operation that keeps the largest packet sent, the packets' span and the mode keeps [Inv]. *)
Lemma Inv_step st st' :
  Inv st → InvG (next_packet st) 0 st' → next_packet st' = next_packet st →
  largest_sent_packet st' = largest_sent_packet st → Inv st'.
Proof. intros [_ Hn] HI E1 E2. split; [by rewrite E1|by rewrite E1, E2]. Qed.

Lemma RemoveRetransmittability_inv st n :
  Inv st → (n < length (unacked_packets st))%nat → Inv (RemoveRetransmittability st (least_unacked st + Z.of_nat n)).
Proof.
  intros HI Hn. pose proof HI as [HG _].
  destruct (session_decides_what_to_write st) eqn:Hs.
  - unfold RemoveRetransmittability, index. rewrite Hs.
    replace (Z.to_nat (least_unacked st + Z.of_nat n - least_unacked st)) with n by lia.
    apply (Inv_step st); [done| |apply with_packets_next, length_alter|done].
    rewrite alter_insert. destruct (lookup_lt_is_Some_2 _ _ Hn) as [x Hx]. rewrite Hx.
    apply (replace_inv _ 0 0 st n x); [done..| |congruence].
    rewrite (ig_bytes _ _ _ HG). f_equal.
    change (flight_bytes (set_retransmission _ _)) with (flight_bytes x). lia.
  - destruct (RemoveRetransmittability_chain st n HG Hs Hn) as (ks&j&info&_&Hks&_&Hi&Hr&->).
    apply (Inv_step st); [done| | |done].
    2:{ apply with_packets_next. by rewrite length_insert, clear_links_length. }
    pose proof (empty_packet_inv (with_list st (clear_links ks (unacked_packets st))) j info
      (wrap64 (pending_crypto_packet_count st - crypto_one info))) as HE.
    assert (En : next_packet (with_list st (clear_links ks (unacked_packets st))) = next_packet st).
    { apply with_packets_next, clear_links_length. }
    rewrite En in HE. refine (InvG_same _ _ _ _ (HE _ _ Hr (λ _, eq_refl)) _ _ _ _ _); try done.
    + by apply clear_links_inv.
    + upm_simpl. rewrite clear_links_lookup, bool_decide_eq_false_2; [done|]. intros Hk. specialize (Hks j Hk). lia.
Qed.

Lemma RemoveFromInFlight_inv st p : Inv st → Inv (RemoveFromInFlight st p).
Proof.
  intros HI. pose proof HI as [HG _]. unfold RemoveFromInFlight, GetTransmissionInfo.
  destruct (unacked_packets st !! index st p) as [x|] eqn:Hx; [|done]. destruct (in_flight x) eqn:Hf; [|done].
  apply (Inv_step st); [done| |apply with_packets_next, length_insert|done].
  apply (replace_inv _ 0 0 st _ x); [done..| | ].
  - rewrite (ig_bytes _ _ _ HG). unfold wrap64. rewrite Zminus_mod_idemp_l. f_equal.
    change (flight_bytes (set_in_flight x false)) with 0.
    assert (E : flight_bytes x = bytes_sent x) by (unfold flight_bytes; by rewrite Hf). lia.
  - intros Hs. split; [|split].
    + rewrite (ig_crypto _ _ _ HG Hs). f_equal. change (crypto_one (set_in_flight x false)) with (crypto_one x). lia.
    + exact (ig_links _ _ _ HG _ x Hs Hx).
    + apply (ig_data _ _ _ HG x Hs). by eapply list_elem_of_lookup_2.
Qed.

Lemma SetPacketState_inv st p s : Inv st → Inv (SetPacketState st p s).
Proof.
  intros HI. pose proof HI as [HG _]. unfold SetPacketState.
  apply (Inv_step st); [done| |apply with_packets_next, length_alter|done]. rewrite alter_insert.
  destruct (unacked_packets st !! index st p) as [x|] eqn:Hx; [|by apply (InvG_same _ 0 st)].
  apply (replace_inv _ 0 0 st _ x); [done..| | ].
  - rewrite (ig_bytes _ _ _ HG). f_equal. change (flight_bytes (set_state x s)) with (flight_bytes x). lia.
  - intros Hs. split; [|split].
    + rewrite (ig_crypto _ _ _ HG Hs). f_equal. change (crypto_one (set_state x s)) with (crypto_one x). lia.
    + exact (ig_links _ _ _ HG _ x Hs Hx).
    + apply (ig_data _ _ _ HG x Hs). by eapply list_elem_of_lookup_2.
Qed.

Lemma set_frames_id_inv st n x fs :
  Inv st → session_decides_what_to_write st = false → unacked_packets st !! n = Some x →
  retransmittable_frames x ≠ [] → fs ≠ [] → Inv (with_list st (<[n := set_frames x fs]> (unacked_packets st))).
Proof.
  intros HI Hs Hn Hx Hfs. pose proof HI as [HG _].
  apply (Inv_step st); [done| |apply with_packets_next, length_insert|done].
  apply (replace_inv _ 0 0 st n x); [done..| | ].
  - rewrite (ig_bytes _ _ _ HG). f_equal. change (flight_bytes (set_frames x fs)) with (flight_bytes x). lia.
  - intros _. split; [|split; [|done]].
    + rewrite (ig_crypto _ _ _ HG Hs). f_equal. change (crypto_one (set_frames x fs)) with (crypto_one x). lia.
    + intros Hr. destruct (ig_links _ _ _ HG n x Hs Hn Hr) as (_&Hno&_). congruence.
Qed.

Lemma cancel_at_inv id st n :
  Inv st → session_decides_what_to_write st = false →
  Inv (cancel_at id st n) ∧ length (unacked_packets (cancel_at id st n)) = length (unacked_packets st)
  ∧ session_decides_what_to_write (cancel_at id st n) = false.
Proof.
  intros HI Hs. pose proof HI as [HG _]. unfold cancel_at.
  destruct (unacked_packets st !! n) as [x|] eqn:Hn; [|done].
  pose proof (lookup_lt_Some _ _ _ Hn) as Hlt.
  destruct (no_frames x) eqn:Hx; [done|].
  assert (Hne : retransmittable_frames x ≠ []) by (intros E; unfold no_frames in Hx; by rewrite E in Hx).
  destruct (RemoveFramesForStream (retransmittable_frames x) id) as [|f fs] eqn:Ef; cbn [no_frames set_frames retransmittable_frames].
  2:{ split; [by apply set_frames_id_inv|]. split; [apply length_insert|done]. }
  set (s1 := with_list st _).
  assert (Hr : IsInitialized (retransmission x) = false).
  { destruct (IsInitialized (retransmission x)) eqn:Hr; [|done]. by destruct (ig_links _ _ _ HG n x Hs Hn Hr) as (_&Hno&_). }
  assert (Hup : unacked_packets s1 !! n = Some (set_frames x [])) by (by apply list_lookup_insert_eq).
  unfold RemoveRetransmittability, index.
  replace (session_decides_what_to_write s1) with false by (by rewrite <-Hs).
  replace (Z.to_nat (least_unacked s1 + Z.of_nat n - least_unacked s1)) with n by lia.
  cbn [follow]. rewrite Hup. cbn [retransmission set_frames]. rewrite Hr, Hup.
  rewrite alter_insert, Hup. split; [|split; [by cbn; rewrite !length_insert|done]].
  destruct (crypto_count_exact _ st n x HG Hs Hn) as [_ Ew].
  assert (Ec : (if has_crypto_handshake (set_frames x []) then wrap64 (pending_crypto_packet_count s1 - 1)
                else pending_crypto_packet_count s1) = wrap64 (pending_crypto_packet_count st - crypto_one x)).
  { unfold crypto_one in *. upm_simpl. destruct (has_crypto_handshake x); [done|]. rewrite Ew. cbn. lia. }
  rewrite Ec. subst s1. upm_simpl. rewrite list_insert_insert_eq.
  change (Inv (with_packets st (<[n := emptied x]> (unacked_packets st)) (least_unacked st) (bytes_in_flight st)
    (wrap64 (pending_crypto_packet_count st - crypto_one x)))).
  apply (Inv_step st); [done| |apply with_packets_next, length_insert|done].
  by apply empty_packet_inv.
Qed.

Lemma CancelRetransmissionsForStream_inv id st :
  Inv st → session_decides_what_to_write st = false → Inv (CancelRetransmissionsForStream st id).
Proof.
  unfold CancelRetransmissionsForStream. generalize (seq 0 (length (unacked_packets st))). intros ns. revert st.
  induction ns as [|n ns IH]; intros st HI Hs; cbn [fold_left]; [done|].
  destruct (cancel_at_inv id st n HI Hs) as (HI'&_&Hs'). by apply IH.
Qed.

Lemma Inv_same st st' :
  Inv st → unacked_packets st' = unacked_packets st → least_unacked st' = least_unacked st →
  bytes_in_flight st' = bytes_in_flight st → pending_crypto_packet_count st' = pending_crypto_packet_count st →
  session_decides_what_to_write st' = session_decides_what_to_write st →
  largest_sent_packet st' = largest_sent_packet st → Inv st'.
Proof.
  intros HI E1 E2 E3 E4 E5 E6. pose proof HI as [HG _].
  apply (Inv_step st); [done| |unfold next_packet; congruence|done]. by apply (InvG_same _ _ st).
Qed.

Lemma empty_map_inv p d : Inv (SetSessionDecideWhatToWrite (new p) d).
Proof. split; [|done]. split; intros; cbn in *; try done;
    match goal with H : _ ∈ _ |- _ => by apply elem_of_nil in H end. Qed.

(** The operations as steps, and the runs of the map. *)
Inductive map_step (st : t) : t → Prop :=
| step_notifier b : map_step st (SetSessionNotifier st b)
| step_spaces : map_step st (EnableMultiplePacketNumberSpacesSupport st)
| step_sent packet old type time fl :
    sendable st packet old → map_step st (AddSentPacket st packet old type time fl).1.1
| step_obsolete : map_step st (RemoveObsoletePackets st)
| step_retransmittability p :
    least_unacked st <= p < next_packet st → map_step st (RemoveRetransmittability st p)
| step_in_flight p : least_unacked st <= p < next_packet st → map_step st (RemoveFromInFlight st p)
| step_state p s : least_unacked st <= p < next_packet st → map_step st (SetPacketState st p s)
| step_cancel id : session_decides_what_to_write st = false → map_step st (CancelRetransmissionsForStream st id)
| step_largest_acked p : map_step st (IncreaseLargestAcked st p)
| step_space_acked s p : map_step st (MaybeUpdateLargestAckedOfPacketNumberSpace st s p)
| step_aggregate i d r : map_step st (MaybeAggregateAckedStreamFrame st i d r).1
| step_notify d : map_step st (NotifyAggregatedStreamFrameAcked st d).1.

Inductive tracked : t → Prop :=
| tracked_new p decides : tracked (SetSessionDecideWhatToWrite (new p) decides)
| tracked_step st st' : tracked st → map_step st st' → tracked st'.

Lemma Notify_keeps st d : ∃ f, (NotifyAggregatedStreamFrameAcked st d).1 = with_aggregated st f.
Proof.
  unfold NotifyAggregatedStreamFrameAcked. destruct (_ || _); [|by eexists].
  exists (aggregated_stream_frame st). by destruct st.
Qed.

Lemma aggregate_keeps d r fs st : ∃ f, (aggregate_frames d r st fs).1 = with_aggregated st f.
Proof.
  revert st. induction fs as [|f fs IH]; intros st; cbn [aggregate_frames].
  { exists (aggregated_stream_frame st). by destruct st. }
  assert (H1 : ∃ g, (aggregate_frame d r st f).1 = with_aggregated st g).
  { unfold aggregate_frame. destruct f as [s|n].
    - destruct (can_aggregate _ s).
      + destruct (fin s); [|by eexists].
        destruct (Notify_keeps (with_aggregated st (mk_stream_frame (stream_id (aggregated_stream_frame st)) true
          (offset (aggregated_stream_frame st)) (wrap16 (data_length (aggregated_stream_frame st) + data_length s)))) d)
          as [g Eg]. by exists g.
      + destruct (Notify_keeps st d) as [g Eg]. destruct (NotifyAggregatedStreamFrameAcked st d) as [st' c].
        cbn in Eg. subst st'. by destruct (fin s); eexists.
    - destruct (Notify_keeps st d) as [g Eg]. destruct (NotifyAggregatedStreamFrameAcked st d) as [st' c].
      cbn in Eg. subst st'. by eexists. }
  destruct H1 as [g Eg]. destruct (aggregate_frame d r st f) as [st1 c1]. cbn in Eg. subst st1.
  destruct (IH (with_aggregated st g)) as [g' Eg'].
  destruct (aggregate_frames d r (with_aggregated st g) fs) as [st2 c2]. cbn in *. exists g'. by rewrite Eg'.
Qed.

Lemma map_step_inv st st' : Inv st → map_step st st' → Inv st'.
Proof.
  intros IH.
  assert (Hrange : ∀ st p, least_unacked st <= p < next_packet st →
    ∃ n, p = least_unacked st + Z.of_nat n ∧ (n < length (unacked_packets st))%nat).
  { intros s p Hp. exists (Z.to_nat (p - least_unacked s)). unfold next_packet, zlen in Hp. lia. }
  intros Hstep. destruct Hstep as [b| |packet old type time fl Hs| |p Hp|p Hp|p s Hp|id Hs|p|s p|i d r|d].
  - by apply (Inv_same st).
  - unfold EnableMultiplePacketNumberSpacesSupport. repeat case_match; try done. by apply (Inv_same st).
  - by apply AddSentPacket_inv.
  - destruct IH as [HG Hn]. destruct (RemoveObsoletePackets_inv _ _ _ HG) as (HG'&En&El&_).
    split; [by rewrite En|by rewrite En, El].
  - destruct (Hrange st p Hp) as (n&->&Hn). by apply RemoveRetransmittability_inv.
  - by apply RemoveFromInFlight_inv.
  - by apply SetPacketState_inv.
  - by apply CancelRetransmissionsForStream_inv.
  - by apply (Inv_same st).
  - by apply (Inv_same st).
  - unfold MaybeAggregateAckedStreamFrame. destruct (negb _); [done|].
    destruct (aggregate_keeps d r (retransmittable_frames i) st) as [f ->]. by apply (Inv_same st).
  - destruct (Notify_keeps st d) as [f ->]. by apply (Inv_same st).
Qed.

Lemma tracked_inv st : tracked st → Inv st.
Proof. induction 1 as [p d|st st' _ IH Hstep]; [apply empty_map_inv|by eapply map_step_inv]. Qed.

(** ** Theorems *)

Lemma crypto_exists l : (0 <? total crypto_one l) = existsb has_crypto_handshake l.
Proof.
  induction l as [|i l IH]; cbn [existsb]; [done|].
  change (total crypto_one (i :: l)) with (crypto_one i + total crypto_one l). rewrite <-IH.
  pose proof (total_nonneg crypto_one l (λ i _, crypto_one_nonneg i)). unfold crypto_one at 1.
  destruct (has_crypto_handshake i); cbn [orb]; [by apply Z.ltb_lt; lia|done].
Qed.

(** C17. The accounts of the map are exact in every run. The bytes in flight are the bytes of the packets
    marked in flight (modulo 2^64). When the connection decides what to write, the count of pending
    crypto packets is the number of packets that carry crypto handshake data, so that
    [HasPendingCryptoPackets] tells whether there is one; a packet that was retransmitted points to a
    later packet of the deque, to which all its data moved. The deque ends at the largest packet sent. *)
Theorem accounts_are_exact st :
  tracked st →
  bytes_in_flight st = wrap64 (total flight_bytes (unacked_packets st))
  ∧ (IsInitialized (largest_sent_packet st) = true → next_packet st = largest_sent_packet st + 1)
  ∧ (session_decides_what_to_write st = false →
       pending_crypto_packet_count st = total crypto_one (unacked_packets st)
       ∧ (∀ b, HasPendingCryptoPackets b st = existsb has_crypto_handshake (unacked_packets st))
       ∧ ∀ p i, least_unacked st <= p → GetTransmissionInfo st p = Some i → IsInitialized (retransmission i) = true →
           p < retransmission i < next_packet st ∧ retransmittable_frames i = [] ∧ has_crypto_handshake i = false).
Proof.
  intros [HI Hn]%tracked_inv. split; [apply HI|]. split; [intros E; by rewrite E in Hn|]. intros Hs.
  assert (Ec : pending_crypto_packet_count st = total crypto_one (unacked_packets st)).
  { rewrite (ig_crypto _ _ _ HI Hs), Z.add_0_r. apply Z.mod_small.
    pose proof (crypto_count_small _ _ _ HI). unfold two62, two64 in *. lia. }
  split; [done|]. split.
  - intros b. unfold HasPendingCryptoPackets. rewrite Hs, Ec. apply crypto_exists.
  - intros p i Hp Hi Hr. destruct (ig_links _ _ _ HI _ i Hs Hi Hr) as (Hl&?&?). unfold index in Hl. split; [lia|done].
Qed.

(** With the connection deciding what to write, [RemoveRetransmittability] of any tracked packet
    terminates: the links lead to one last transmission, through packets with larger and larger
    numbers. Afterwards no packet of the chain is linked or holds frames or crypto data, the count of
    pending crypto packets drops by one exactly when the last transmission carried crypto data
    (without wrapping around), and nothing else of the map changes. *)
Theorem RemoveRetransmittability_ends st p :
  tracked st → session_decides_what_to_write st = false → least_unacked st <= p < next_packet st →
  ∃ ks j last, transmissions (least_unacked st) (unacked_packets st) (index st p) ks j
    ∧ (∀ k, k ∈ ks → (index st p <= k < j)%nat)
    ∧ unacked_packets st !! j = Some last
    ∧ let st' := RemoveRetransmittability st p in
      (∀ k i, unacked_packets st' !! k = Some i → k ∈ ks ∨ k = j →
         IsInitialized (retransmission i) = false ∧ retransmittable_frames i = [] ∧ has_crypto_handshake i = false)
      ∧ (∀ k, k ∉ ks → k ≠ j → unacked_packets st' !! k = unacked_packets st !! k)
      ∧ length (unacked_packets st') = length (unacked_packets st)
      ∧ pending_crypto_packet_count st' = pending_crypto_packet_count st - (if has_crypto_handshake last then 1 else 0)
      ∧ least_unacked st' = least_unacked st ∧ bytes_in_flight st' = bytes_in_flight st.
Proof.
  intros [HI _]%tracked_inv Hs Hp. set (n := index st p).
  assert (En : p = least_unacked st + Z.of_nat n) by (unfold n, index; lia).
  assert (Hn : (n < length (unacked_packets st))%nat) by (unfold n, index, next_packet, zlen in *; lia).
  destruct (RemoveRetransmittability_chain st n HI Hs Hn) as (ks&j&info&Ht&Hks&Hj&Hi&Hr&E).
  exists ks, j, info. rewrite En, E. clear E. split; [done|]. split; [intros k Hk; specialize (Hks k Hk); lia|].
  split; [done|]. upm_simpl.
  assert (Hjl : (j < length (unacked_packets st))%nat) by (by eapply lookup_lt_Some).
  split; [|split; [|split; [by rewrite length_insert, clear_links_length|split; [|done]]]].
  - intros k i Hk [Hin| ->].
    + specialize (Hks k Hin). rewrite list_lookup_insert_ne in Hk by lia.
      rewrite clear_links_lookup, bool_decide_eq_true_2 in Hk by done.
      apply fmap_Some in Hk as (x&Hx&->).
      assert (Hl : IsInitialized (retransmission x) = true).
      { clear -Ht Hin Hx. induction Ht as [|m y ks j Hy Hr' _ IH]; [by apply elem_of_nil in Hin|].
        apply elem_of_cons in Hin as [->|Hin]; [congruence|by apply IH]. }
      by destruct (ig_links _ _ _ HI k x Hs Hx Hl) as (_&?&?).
    + rewrite list_lookup_insert_eq in Hk by (by rewrite clear_links_length). injection Hk as <-. done.
  - intros k Hk Hkj. rewrite list_lookup_insert_ne by done. by rewrite clear_links_lookup, bool_decide_eq_false_2.
  - by apply (crypto_count_exact (next_packet st) st j info).
Qed.

(** [RemoveObsoletePackets] drops exactly the useless packets at the front of the deque: the first
    packet left is useful, and no packet number changes between unacked and not unacked. Neither the
    bytes in flight nor, with the connection deciding what to write, retransmittable data is dropped. *)
Theorem RemoveObsoletePackets_drops_useless st p :
  tracked st → 0 <= p →
  let st' := RemoveObsoletePackets st in
  (∃ dropped, unacked_packets st = dropped ++ unacked_packets st'
     ∧ least_unacked st' = least_unacked st + zlen dropped
     ∧ (∀ i, i ∈ dropped → in_flight i = false
          ∧ (session_decides_what_to_write st = false → retransmittable_frames i = [])))
  ∧ (unacked_packets st' ≠ [] → IsUnacked st' (least_unacked st') = true)
  ∧ IsUnacked st' p = IsUnacked st p.
Proof.
  intros [HI _]%tracked_inv Hp. pose proof HI as [H1 H2 H3 _ _ _ _ _]. unfold RemoveObsoletePackets.
  pose proof (drop_useless_spec st (unacked_packets st) (least_unacked st) ltac:(lia)
    ltac:(unfold next_packet, two62, two64 in *; lia)) as Hd.
  destruct (drop_useless st _ _) as [l least]. destruct Hd as (dropped&El&->&Hu&Hh). cbn zeta. split; [|split].
  - exists dropped. split; [done|]. split; [done|]. intros i [n Hn]%list_elem_of_lookup_1.
    by apply (useless_holds_nothing _ _ _ (Hu n i Hn)).
  - upm_simpl. intros Hne. destruct l as [|i l]; [done|]. unfold IsUnacked, GetTransmissionInfo, index, next_packet.
    upm_simpl. rewrite zlen_cons. pose proof (zlen_nonneg l). rewrite Z.ltb_irrefl, (proj2 (Z.leb_gt _ _)) by lia.
    cbn [orb]. rewrite Z.sub_diag. change (Z.to_nat 0) with 0%nat. cbn [lookup list_lookup]. by apply negb_true_iff.
  - unfold IsUnacked, GetTransmissionInfo, index, next_packet. upm_simpl. rewrite El, zlen_app.
    pose proof (zlen_nonneg dropped). pose proof (zlen_nonneg l). unfold zlen in *.
    destruct (Z.ltb_spec p (least_unacked st)); cbn [orb].
    { by rewrite (proj2 (Z.ltb_lt _ _)) by lia. }
    destruct (Z.ltb_spec p (least_unacked st + Z.of_nat (length dropped))); cbn [orb].
    + rewrite (proj2 (Z.leb_gt _ _)) by lia. rewrite lookup_app_l by lia.
      destruct (lookup_lt_is_Some_2 dropped (Z.to_nat (p - least_unacked st)) ltac:(lia)) as [i Hi].
      rewrite Hi. specialize (Hu _ i Hi). by replace (least_unacked st + _) with p in Hu by lia; rewrite Hu.
    + replace (least_unacked st + (Z.of_nat (length dropped) + Z.of_nat (length l)))
        with (least_unacked st + Z.of_nat (length dropped) + Z.of_nat (length l)) by lia.
      destruct (_ <=? p); [done|]. rewrite lookup_app_r by lia.
      by replace (Z.to_nat (p - (least_unacked st + Z.of_nat (length dropped))))
        with (Z.to_nat (p - least_unacked st) - length dropped)%nat by lia.
Qed.

(** What the sent packet manager does for each acked packet when the session decides what to write
    (in [MarkPacketHandled]): frames sent for the first time are aggregated, those of a retransmission
    are reported at once. *)
Definition ack_packet (acks_new_data : list call → QuicFrame → bool) (st : t) (i : QuicTransmissionInfo)
    (ack_delay receive_timestamp : Z) : t * list call :=
  if bool_decide (transmission_type i = NOT_RETRANSMISSION)
  then MaybeAggregateAckedStreamFrame st i ack_delay receive_timestamp
  else
    let '(st, c1) := NotifyAggregatedStreamFrameAcked st ack_delay in
    (st, c1 ++ (NotifyFramesAcked acks_new_data st i ack_delay receive_timestamp).2).

(** The packets of an ACK frame, each with its receive timestamp, then the notification of what is
    still aggregated. *)
Fixpoint ack_packets (acks_new_data : list call → QuicFrame → bool) (ack_delay : Z) (st : t)
    (acked : list (QuicTransmissionInfo * Z)) : t * list call :=
  match acked with
  | [] => NotifyAggregatedStreamFrameAcked st ack_delay
  | (i, receive_timestamp) :: acked =>
      let '(st, c1) := ack_packet acks_new_data st i ack_delay receive_timestamp in
      let '(st, c2) := ack_packets acks_new_data ack_delay st acked in
      (st, c1 ++ c2)
  end.

(** What the frames of the calls measure, what the frames of packets measure. *)
Definition measure_frame (m : QuicStreamFrame → Z) (f : QuicFrame) : Z :=
  match f with StreamFrame s => m s | OtherFrame _ => 0 end.
Definition measure_frames (m : QuicStreamFrame → Z) (fs : list QuicFrame) : Z :=
  foldr (λ f n, measure_frame m f + n) 0 fs.
Definition acked_frames (calls : list call) : list QuicFrame :=
  omap (λ c, match c with OnFrameAcked f _ _ => Some f | _ => None end) calls.
Definition other_frames (fs : list QuicFrame) : list Z :=
  omap (λ f, match f with StreamFrame _ => None | OtherFrame id => Some id end) fs.

(** How often a byte of a stream, or the end of a stream, is in a frame. *)
Definition covers (id x : Z) (s : QuicStreamFrame) : Z :=
  if (stream_id s =? id) && (offset s <=? x) && (x <? offset s + data_length s) then 1 else 0.
Definition ends_at (id x : Z) (s : QuicStreamFrame) : Z :=
  if (stream_id s =? id) && fin s && (offset s + data_length s =? x) then 1 else 0.

Definition frame_ok (s : QuicStreamFrame) : Prop :=
  0 <= stream_id s < no_stream ∧ 0 <= offset s ∧ is_u16 (data_length s) ∧ offset s + data_length s < two64.
Definition frames_ok (fs : list QuicFrame) : Prop := ∀ s, StreamFrame s ∈ fs → frame_ok s.

(** A measure that adds up over adjacent frames. *)
Definition additive (m : QuicStreamFrame → Z) : Prop :=
  ∀ a s, stream_id s = stream_id a → offset s = offset a + data_length a → fin a = false →
    0 <= data_length a → 0 <= data_length s →
    m (mk_stream_frame (stream_id a) (fin s) (offset a) (data_length a + data_length s)) = m a + m s.

Definition pending (m : QuicStreamFrame → Z) (st : t) : Z :=
  if stream_id (aggregated_stream_frame st) =? no_stream then 0 else m (aggregated_stream_frame st).
(** The aggregated frame is empty, or a frame without the end of its stream. *)
Definition agg_ok (st : t) : Prop :=
  has_session_notifier st = true
  ∧ (stream_id (aggregated_stream_frame st) ≠ no_stream →
     frame_ok (aggregated_stream_frame st) ∧ fin (aggregated_stream_frame st) = false).

Lemma measure_app m fs gs : measure_frames m (fs ++ gs) = measure_frames m fs + measure_frames m gs.
Proof.
  induction fs as [|f fs IH]; [done|].
  change (measure_frame m f + measure_frames m (fs ++ gs) = measure_frame m f + measure_frames m fs + measure_frames m gs).
  lia.
Qed.

Lemma measure_one m f : measure_frames m [f] = measure_frame m f.
Proof. cbn. lia. Qed.

Lemma acked_app c1 c2 : acked_frames (c1 ++ c2) = acked_frames c1 ++ acked_frames c2.
Proof. apply omap_app. Qed.

Lemma covers_additive id x : additive (covers id x).
Proof.
  intros a s E1 E2 Hf Ha Hs. unfold covers. cbn. rewrite E1, E2. destruct (stream_id a =? id); cbn [andb]; [|done].
  destruct (Z.leb_spec (offset a) x), (Z.leb_spec (offset a + data_length a) x),
    (Z.ltb_spec x (offset a + data_length a)), (Z.ltb_spec x (offset a + (data_length a + data_length s))),
    (Z.ltb_spec x (offset a + data_length a + data_length s)); cbn; lia.
Qed.

Lemma ends_at_additive id x : additive (ends_at id x).
Proof.
  intros a s E1 E2 Hf Ha Hs. unfold ends_at. cbn. rewrite E1, E2, Hf, andb_false_r. cbn [andb].
  by rewrite Z.add_assoc, Z.add_0_l.
Qed.

(** Notifying moves what is pending into the calls. *)
Lemma Notify_measure st d :
  has_session_notifier st = true →
  let '(st', calls) := NotifyAggregatedStreamFrameAcked st d in
  (∀ m, measure_frames m (acked_frames calls) = pending m st)
  ∧ other_frames (acked_frames calls) = []
  ∧ stream_id (aggregated_stream_frame st') = no_stream ∧ has_session_notifier st' = true.
Proof.
  intros Hn. unfold NotifyAggregatedStreamFrameAcked, pending. rewrite Hn.
  destruct (Z.eqb_spec (stream_id (aggregated_stream_frame st)) no_stream); cbn; [done|].
  split; [intros m; lia|done].
Qed.

Lemma aggregate_frame_measure d r st f :
  agg_ok st → frames_ok [f] →
  let '(st', calls) := aggregate_frame d r st f in
  agg_ok st' ∧ other_frames (acked_frames calls) = other_frames [f]
  ∧ ∀ m, additive m → measure_frames m (acked_frames calls) + pending m st' = pending m st + measure_frame m f.
Proof.
  intros [Hn Ha] Hf. unfold aggregate_frame.
  assert (Hother : let '(st', calls) := NotifyAggregatedStreamFrameAcked st d in
    let '(st', calls) := match f with
      | StreamFrame s => if fin s then (st', calls ++ [OnFrameAcked f d r]) else (with_aggregated st' s, calls)
      | OtherFrame _ => (st', calls ++ [OnFrameAcked f d r]) end in
    agg_ok st' ∧ other_frames (acked_frames calls) = other_frames [f]
    ∧ ∀ m, additive m → measure_frames m (acked_frames calls) + pending m st' = pending m st + measure_frame m f).
  { pose proof (Notify_measure st d Hn) as HN. destruct (NotifyAggregatedStreamFrameAcked st d) as [st' calls].
    destruct HN as (Hm&Ho&Hs&Hn'). destruct f as [s|n].
    - pose proof (Hf s ltac:(left)) as Hs'. destruct (fin s) eqn:Ef.
      + split; [by split|]. rewrite acked_app. unfold other_frames in *. rewrite omap_app, Ho. split; [done|].
        intros m _. rewrite measure_app, Hm. unfold pending. rewrite Hs, Z.eqb_refl. cbn. lia.
      + split; [by split|]. split; [done|]. intros m _. rewrite Hm. unfold pending. cbn.
        rewrite (proj2 (Z.eqb_neq (stream_id s) _)) by (unfold frame_ok in Hs'; lia). done.
    - split; [by split|]. rewrite acked_app. unfold other_frames in *. rewrite omap_app, Ho. split; [done|].
      intros m _. rewrite measure_app, Hm. unfold pending. rewrite Hs, Z.eqb_refl. cbn. lia. }
  destruct f as [s|n].
  2:{ by destruct (NotifyAggregatedStreamFrameAcked st d). }
  destruct (can_aggregate (aggregated_stream_frame st) s) eqn:Ec.
  2:{ by destruct (NotifyAggregatedStreamFrameAcked st d). }
  clear Hother. unfold can_aggregate, WillStreamFrameLengthSumWrapAround in Ec. zb.
  pose proof (Hf s ltac:(left)) as (Hid&Hoff&Hlen&Hend).
  assert (E1 : stream_id s = stream_id (aggregated_stream_frame st)) by lia.
  destruct (Ha ltac:(lia)) as [(Hid'&Hoff'&Hlen'&Hend') Hfin].
  assert (E2 : offset s = offset (aggregated_stream_frame st) + data_length (aggregated_stream_frame st)).
  { unfold wrap64 in *. rewrite Z.mod_small in * by (unfold two16 in *; lia). lia. }
  assert (Ew : wrap16 (data_length (aggregated_stream_frame st) + data_length s)
    = data_length (aggregated_stream_frame st) + data_length s) by (apply Z.mod_small; lia).
  rewrite Ew. set (g := mk_stream_frame _ _ _ _).
  assert (Hg : ∀ m, additive m → m g = m (aggregated_stream_frame st) + m s).
  { intros m Hm. apply Hm; [done|done|done|lia|lia]. }
  assert (Hgok : frame_ok g) by (split; [cbn; lia|split; [cbn; lia|cbn; lia]]).
  assert (Hp : ∀ m, additive m → pending m (with_aggregated st g) = pending m st + m s).
  { intros m Hm. unfold pending. upm_simpl. rewrite (Hg m Hm). subst g. cbn.
    rewrite (proj2 (Z.eqb_neq _ _)) by lia. done. }
  destruct (fin s) eqn:Ef.
  - pose proof (Notify_measure (with_aggregated st g) d Hn) as HN.
    destruct (NotifyAggregatedStreamFrameAcked _ d) as [st' calls]. destruct HN as (Hm&Ho&Hs&Hn').
    split; [by split|]. split; [done|]. intros m Hadd. rewrite Hm, Hp by done. unfold pending. rewrite Hs, Z.eqb_refl. cbn. lia.
  - split; [split; [done|]|]. { intros _. split; [done|]. subst g. cbn. done. }
    split; [done|]. intros m Hadd. rewrite Hp by done. cbn. lia.
Qed.

Lemma aggregate_frames_measure d r fs st :
  agg_ok st → frames_ok fs →
  let '(st', calls) := aggregate_frames d r st fs in
  agg_ok st' ∧ other_frames (acked_frames calls) = other_frames fs
  ∧ ∀ m, additive m → measure_frames m (acked_frames calls) + pending m st' = pending m st + measure_frames m fs.
Proof.
  revert st. induction fs as [|f fs IH]; intros st Ha Hf; cbn [aggregate_frames].
  { split; [done|]. split; [done|]. intros m _. cbn. lia. }
  pose proof (aggregate_frame_measure d r st f Ha) as H1.
  destruct (aggregate_frame d r st f) as [st1 c1]. destruct H1 as (Ha1&Ho1&Hm1).
  { intros s Hs. apply list_elem_of_singleton in Hs. apply Hf. rewrite Hs. left. }
  specialize (IH st1 Ha1 ltac:(intros s Hs; apply Hf; by right)).
  destruct (aggregate_frames d r st1 fs) as [st2 c2]. destruct IH as (Ha2&Ho2&Hm2).
  split; [done|]. rewrite acked_app. split.
  - unfold other_frames in *. rewrite omap_app, Ho1, Ho2. by rewrite <-omap_app.
  - intros m Hadd. rewrite measure_app. specialize (Hm1 m Hadd). specialize (Hm2 m Hadd). cbn [measure_frames foldr].
    unfold measure_frames in *. lia.
Qed.

Lemma notify_acked_frames g d r fs told b :
  acked_frames (notify_acked g d r fs told b).2 = acked_frames told ++ fs.
Proof.
  revert told b. induction fs as [|f fs IH]; intros told b; cbn [notify_acked]; [by rewrite app_nil_r|].
  rewrite IH, acked_app, <-app_assoc. done.
Qed.

Lemma ack_packet_measure g d r st i :
  agg_ok st → frames_ok (retransmittable_frames i) →
  let '(st', calls) := ack_packet g st i d r in
  agg_ok st' ∧ other_frames (acked_frames calls) = other_frames (retransmittable_frames i)
  ∧ ∀ m, additive m →
      measure_frames m (acked_frames calls) + pending m st' = pending m st + measure_frames m (retransmittable_frames i).
Proof.
  intros [Hn Ha] Hf. unfold ack_packet. case_bool_decide as Ht.
  { unfold MaybeAggregateAckedStreamFrame. rewrite Hn. by apply aggregate_frames_measure. }
  pose proof (Notify_measure st d Hn) as HN. destruct (NotifyAggregatedStreamFrameAcked st d) as [st' calls].
  destruct HN as (Hm&Ho&Hs&Hn'). split; [by split|]. unfold NotifyFramesAcked. rewrite Hn'. cbn [negb].
  rewrite acked_app, notify_acked_frames. unfold other_frames in *. rewrite omap_app, Ho. split; [done|].
  intros m _. rewrite measure_app, Hm. unfold pending. rewrite Hs, Z.eqb_refl.
  change (acked_frames [] ++ retransmittable_frames i) with (retransmittable_frames i). lia.
Qed.

Definition packets_frames (acked : list (QuicTransmissionInfo * Z)) : list QuicFrame :=
  concat (map (λ a, retransmittable_frames a.1) acked).

Lemma ack_packets_measure g d acked st :
  agg_ok st → frames_ok (packets_frames acked) →
  let '(st', calls) := ack_packets g d st acked in
  stream_id (aggregated_stream_frame st') = no_stream
  ∧ (∀ m, additive m → measure_frames m (acked_frames calls) = pending m st + measure_frames m (packets_frames acked))
  ∧ other_frames (acked_frames calls) = other_frames (packets_frames acked).
Proof.
  revert st. induction acked as [|[i r] acked IH]; intros st Ha Hf; cbn [ack_packets].
  - destruct Ha as [Hn _]. pose proof (Notify_measure st d Hn) as HN.
    destruct (NotifyAggregatedStreamFrameAcked st d) as [st' calls]. destruct HN as (Hm&Ho&Hs&_).
    split; [done|]. split; [|done]. intros m _. rewrite Hm. cbn. lia.
  - change (packets_frames ((i, r) :: acked)) with (retransmittable_frames i ++ packets_frames acked) in *.
    pose proof (ack_packet_measure g d r st i Ha) as H1.
    destruct (ack_packet g st i d r) as [st1 c1]. destruct H1 as (Ha1&Ho1&Hm1).
    { intros s Hs. apply Hf, elem_of_app. by left. }
    specialize (IH st1 Ha1 ltac:(intros s Hs; apply Hf, elem_of_app; by right)).
    destruct (ack_packets g d st1 acked) as [st2 c2]. destruct IH as (Hs2&Hm2&Ho2).
    split; [done|]. rewrite acked_app. split.
    + intros m Hadd. rewrite !measure_app. specialize (Hm1 m Hadd). specialize (Hm2 m Hadd). lia.
    + unfold other_frames in *. by rewrite !omap_app, Ho1, Ho2.
Qed.

(** Aggregating acked stream frames loses and invents nothing. However the frames of the acked
    packets are merged, split over packets and interleaved with other frames and with retransmissions,
    when the ACK frame has been processed the session was told of every byte of every stream, and of
    the end of every stream, exactly as often as they were in the acked packets, and of the other
    frames in their order; nothing remains aggregated. *)
Theorem aggregation_reports_acked_data acks_new_data d st acked :
  has_session_notifier st = true → stream_id (aggregated_stream_frame st) = no_stream →
  frames_ok (packets_frames acked) →
  let '(st', calls) := ack_packets acks_new_data d st acked in
  stream_id (aggregated_stream_frame st') = no_stream
  ∧ (∀ id x, measure_frames (covers id x) (acked_frames calls) = measure_frames (covers id x) (packets_frames acked))
  ∧ (∀ id x, measure_frames (ends_at id x) (acked_frames calls) = measure_frames (ends_at id x) (packets_frames acked))
  ∧ other_frames (acked_frames calls) = other_frames (packets_frames acked).
Proof.
  intros Hn Hs Hf.
  pose proof (ack_packets_measure acks_new_data d acked st ltac:(split; [done|by intros ?]) Hf) as Hgen.
  destruct (ack_packets acks_new_data d st acked) as [st' calls]. destruct Hgen as (H1&H2&H3).
  assert (Hp : ∀ m, pending m st = 0) by (intros m; unfold pending; by rewrite Hs, Z.eqb_refl).
  split; [done|]. split; [|split; [|done]]; intros id x; rewrite H2, Hp; try lia.
  - apply covers_additive.
  - apply ends_at_additive.
Qed.

(** *** Witnesses *)

Definition w_frame (id o n : Z) (f : bool) : QuicFrame := StreamFrame (mk_stream_frame id f o n).
Definition w_packet (p n : Z) (crypto : bool) (fs : list QuicFrame) : SerializedPacket :=
  mk_packet p n crypto ENCRYPTION_INITIAL 1 0 UninitializedPacketNumber fs.
(** Packets 1 and 2 are sent, 1 carries crypto data and is retransmitted as 4. *)
Definition w_start : t := SetSessionDecideWhatToWrite (new IS_CLIENT) false.
Definition w_one : t :=
  (AddSentPacket w_start (w_packet 1 100 true [w_frame 5 0 10 false]) UninitializedPacketNumber
     NOT_RETRANSMISSION 7 true).1.1.
Definition w_two : t :=
  (AddSentPacket w_one (w_packet 2 50 false [OtherFrame 9]) UninitializedPacketNumber NOT_RETRANSMISSION 8 true).1.1.
Definition w_map : t :=
  (AddSentPacket w_two (w_packet 4 100 false []) 1 HANDSHAKE_RETRANSMISSION 9 true).1.1.

Lemma w_tracked : tracked w_map.
Proof.
  apply (tracked_step w_two); [apply (tracked_step w_one); [apply (tracked_step w_start); [apply tracked_new|]|]|];
    apply step_sent; (split; [by vm_compute|]; split; [by vm_compute|]); by vm_compute.
Defined.

Lemma accounts_are_exact_witness :
  bytes_in_flight w_map = 250 ∧ pending_crypto_packet_count w_map = 1
  ∧ IsInitialized (largest_sent_packet w_map) = true ∧ session_decides_what_to_write w_map = false
  ∧ bytes_in_flight w_map = wrap64 (total flight_bytes (unacked_packets w_map)).
Proof.
  split; [by vm_compute|]. split; [by vm_compute|]. split; [by vm_compute|]. split; [by vm_compute|].
  apply (accounts_are_exact w_map w_tracked).
Defined.

Lemma RemoveRetransmittability_ends_witness :
  least_unacked w_map <= 1 < next_packet w_map
  ∧ ∃ ks j last, transmissions (least_unacked w_map) (unacked_packets w_map) (index w_map 1) ks j
      ∧ unacked_packets w_map !! j = Some last
      ∧ length (unacked_packets (RemoveRetransmittability w_map 1)) = 4%nat.
Proof.
  split; [by vm_compute|].
  destruct (RemoveRetransmittability_ends w_map 1 w_tracked eq_refl ltac:(by vm_compute))
    as (ks&j&last&H1&_&H2&_&_&H3&_). exists ks, j, last. split; [exact H1|]. split; [exact H2|]. exact H3.
Defined.

(** Packet 2 is acked and done with, packet 1 waits for its retransmission. *)
Definition w_dropped : t := RemoveRetransmittability w_one 1.
Definition w_done : t := RemoveFromInFlight (SetPacketState w_dropped 1 ACKED) 1.

Lemma RemoveObsoletePackets_drops_useless_witness :
  least_unacked (RemoveObsoletePackets w_done) = 2 ∧ tracked w_done
  ∧ IsUnacked (RemoveObsoletePackets w_done) 1 = IsUnacked w_done 1.
Proof.
  split; [by vm_compute|].
  assert (Ht : tracked w_done).
  { apply (tracked_step (SetPacketState w_dropped 1 ACKED)); [apply (tracked_step w_dropped);
      [apply (tracked_step w_one); [apply (tracked_step w_start); [apply tracked_new|]|]|]|].
    - apply step_sent. split; [by vm_compute|]. split; by vm_compute.
    - apply step_retransmittability. by vm_compute.
    - apply step_state. by vm_compute.
    - apply step_in_flight. by vm_compute. }
  split; [exact Ht|]. apply (RemoveObsoletePackets_drops_useless w_done 1 Ht). by vm_compute.
Defined.

Definition w_info (ty : TransmissionType) (fs : list QuicFrame) : QuicTransmissionInfo :=
  set_frames (QuicTransmissionInfo_new ENCRYPTION_FORWARD_SECURE 1 ty 0 100 false 0) fs.
Definition w_acked : list (QuicTransmissionInfo * Z) :=
  [(w_info NOT_RETRANSMISSION [w_frame 5 0 10 false; w_frame 5 10 10 false; OtherFrame 3], 0);
   (w_info NOT_RETRANSMISSION [w_frame 5 20 10 false], 0); (w_info LOSS_RETRANSMISSION [w_frame 7 0 4 true], 0)].
Definition w_notified : t := SetSessionNotifier (new IS_SERVER) true.

Lemma aggregation_reports_acked_data_witness :
  acked_frames (ack_packets (λ _ _, true) 1 w_notified w_acked).2
    = [w_frame 5 0 20 false; OtherFrame 3; w_frame 5 20 10 false; w_frame 7 0 4 true]
  ∧ let '(st', calls) := ack_packets (λ _ _, true) 1 w_notified w_acked in
    measure_frames (covers 5 12) (acked_frames calls) = measure_frames (covers 5 12) (packets_frames w_acked).
Proof.
  split; [by vm_compute|].
  pose proof (aggregation_reports_acked_data (λ _ _, true) 1 w_notified w_acked eq_refl eq_refl) as H.
  assert (Hf : frames_ok (packets_frames w_acked)).
  { intros s Hs. cbn in Hs. repeat (apply elem_of_cons in Hs as [Hs|Hs]);
      try (injection Hs as ->; by vm_compute); try done. by apply elem_of_nil in Hs. }
  specialize (H Hf). destruct (ack_packets _ _ _ _) as [st' calls]. apply (proj1 (proj2 H)).
Defined.

End UnackedPacketMap.
