(* ===== verification/LossDetection.v ===== *)
(** Loss detection: [GeneralLossAlgorithm] (quic/core/congestion_control/general_loss_algorithm.cc) for one
    packet number space, [UberLossAlgorithm] (uber_loss_algorithm.cc) for all of them, and what
    [QuicSentPacketManager::InvokeLossDetection] does with the packets found lost.

    The algorithm reads the unacked packet map and three values of [RttStats], which are inputs, and
    keeps the least packet that may still be in flight so that it need not look at the whole map.
    Times are microseconds. *)

From S2P Require Import Prelude OrderedSet IntervalSet PacketNumber UnackedPacketMap.

Module GeneralLossAlgorithm.
Import PacketNumber.
Import UnackedPacketMap.
Abbreviation map_t := UnackedPacketMap.t.

(** The runtime flags the code reads. *)
Record flags := mk_flags {
  quic_fix_packets_acked : bool;
  quic_eighth_rtt_loss_detection : bool;
  quic_fix_adaptive_time_loss : bool;
}.

Inductive LossDetectionType := kNack | kTime | kAdaptiveTime | kLazyFack.
#[global] Instance LossDetectionType_eq_dec : EqDecision LossDetectionType.
Proof. solve_decision. Defined.

Record RttStats := mk_rtt { latest_rtt : Z; previous_srtt : Z; smoothed_rtt : Z }.
Record AckedPacket := mk_acked { acked_packet_number : Z; bytes_acked : Z; receive_timestamp : Z }.
Record LostPacket := mk_lost { lost_packet_number : Z; bytes_lost : Z }.

Definition kMinLossDelayMs : Z := 5.
Definition kDefaultLossDelayShift : Z := 2.
Definition kDefaultAdaptiveLossDelayShift : Z := 4.
Definition kNumberOfNacksBeforeRetransmission : Z := 3.

Record t := mk {
  loss_detection_timeout : Z;
  largest_sent_on_spurious_retransmit : Z;
  loss_type : LossDetectionType;
  reordering_shift : Z;
  largest_previously_acked : Z;
  least_in_flight : Z;
  packet_number_space : PacketNumberSpace;
}.

Definition SetLossDetectionType (fl : flags) (a : t) (ty : LossDetectionType) : t :=
  let shift := if bool_decide (ty = kAdaptiveTime) then kDefaultAdaptiveLossDelayShift else kDefaultLossDelayShift in
  let shift := if quic_eighth_rtt_loss_detection fl && bool_decide (ty = kTime) then 3 else shift in
  mk 0 UninitializedPacketNumber ty shift UninitializedPacketNumber (least_in_flight a) (packet_number_space a).

Definition new (fl : flags) (ty : LossDetectionType) : t :=
  SetLossDetectionType fl
    (mk 0 UninitializedPacketNumber ty 0 UninitializedPacketNumber 1 NUM_PACKET_NUMBER_SPACES) ty.

Definition SetPacketNumberSpace (a : t) (s : PacketNumberSpace) : t :=
  match packet_number_space a with
  | NUM_PACKET_NUMBER_SPACES =>
      mk (loss_detection_timeout a) (largest_sent_on_spurious_retransmit a) (loss_type a) (reordering_shift a)
        (largest_previously_acked a) (least_in_flight a) s
  | _ => a
  end.

Definition GetLossTimeout (a : t) : Z := loss_detection_timeout a.

(** ** Detection *)

(** The loop over the acked packets at the start of [DetectLosses]. *)
Fixpoint skip_acked (acked : list AckedPacket) (least : Z) : Z :=
  match acked with
  | [] => least
  | p :: acked => if negb (acked_packet_number p =? least) then least else skip_acked acked (add least 1)
  end.

Definition max_rtt (r : RttStats) : Z := Z.max (previous_srtt r) (latest_rtt r).
Definition loss_delay (r : RttStats) (shift : Z) : Z :=
  Z.max (kMinLossDelayMs * 1000) (max_rtt r + Z.shiftr (max_rtt r) shift).

(** What one round of the loop of [DetectLosses] does with a packet. *)
Inductive verdict := Skip | Lost | Wait (when_lost : Z) | Keep.

Definition nacked (a : t) (largest_newly_acked p : Z) : bool :=
  match loss_type a with
  | kNack => kNumberOfNacksBeforeRetransmission <=? wrap64 (largest_newly_acked - p)
  | kLazyFack =>
      IsInitialized (largest_previously_acked a) && (largest_previously_acked a <? largest_newly_acked)
      && (p <? largest_previously_acked a)
      && (kNumberOfNacksBeforeRetransmission - 1 <=? wrap64 (largest_previously_acked a - p))
  | _ => false
  end.

Definition use_timer (m : map_t) (a : t) (largest_newly_acked : Z) : bool :=
  (GetLargestSentRetransmittableOfPacketNumberSpace m (packet_number_space a) <=? largest_newly_acked)
  || bool_decide (loss_type a = kTime) || bool_decide (loss_type a = kAdaptiveTime).

(** The time the largest newly acked packet was sent (which the map holds when the loop asks). *)
Definition sent_time_of (m : map_t) (p : Z) : Z :=
  match GetTransmissionInfo m p with Some i => sent_time i | None => 0 end.

Definition judge (m : map_t) (a : t) (time delay : Z) (r : RttStats) (largest_newly_acked p : Z)
    (i : QuicTransmissionInfo) : verdict :=
  if negb (bool_decide (GetPacketNumberSpace m (encryption_level i) = packet_number_space a)) then Skip else
  if negb (in_flight i) then Skip else
  if nacked a largest_newly_acked p then Lost else
  if use_timer m a largest_newly_acked then
    let when_lost := sent_time i + delay in
    if time <? when_lost then Wait when_lost else Lost
  else if sent_time i + smoothed_rtt r <? sent_time_of m largest_newly_acked then Lost
  else Keep.

(** The loop: the packets lost, the least packet in flight not lost and the timeout. *)
Fixpoint scan (f : Z → QuicTransmissionInfo → verdict) (largest_newly_acked : Z)
    (l : list QuicTransmissionInfo) (p least timeout : Z) : list LostPacket * Z * Z :=
  match l with
  | [] => ([], least, timeout)
  | i :: l =>
      if largest_newly_acked <? p then ([], least, timeout) else
      let least' := if IsInitialized least then least else p in
      match f p i with
      | Skip => scan f largest_newly_acked l (add p 1) least timeout
      | Lost =>
          let '(lost, least, timeout) := scan f largest_newly_acked l (add p 1) least timeout in
          (mk_lost p (bytes_sent i) :: lost, least, timeout)
      | Wait when_lost => ([], least', when_lost)
      | Keep => scan f largest_newly_acked l (add p 1) least' timeout
      end
  end.

Definition finish (a : t) (least timeout largest_newly_acked : Z) : t :=
  mk timeout (largest_sent_on_spurious_retransmit a) (loss_type a) (reordering_shift a) largest_newly_acked
    least (packet_number_space a).

Definition DetectLosses (fl : flags) (a : t) (m : map_t) (time : Z) (r : RttStats) (largest_newly_acked : Z)
    (acked : list AckedPacket) : t * list LostPacket :=
  let least := least_in_flight a in
  let first := match acked with p :: _ => acked_packet_number p =? least | [] => false end in
  let back := match last acked with Some p => acked_packet_number p =? largest_newly_acked | None => false end in
  if first && (negb (quic_fix_packets_acked fl) || back)
     && (sub (add least (zlen acked)) 1 =? largest_newly_acked)
  then (finish a (add largest_newly_acked 1) 0 largest_newly_acked, []) else
  let least := if first then skip_acked acked least else least in
  let delay := loss_delay r (reordering_shift a) in
  let start := if IsInitialized least && (GetLeastUnacked m <=? least)
                  && negb (add (largest_sent_packet m) 1 <? least)
               then least else GetLeastUnacked m in
  let '(lost, least, timeout) :=
    scan (judge m a time delay r largest_newly_acked) largest_newly_acked
      (drop (Z.to_nat (start - GetLeastUnacked m)) (unacked_packets m)) start UninitializedPacketNumber 0 in
  (finish a (if negb (IsInitialized least) then add largest_newly_acked 1 else least) timeout largest_newly_acked, lost).

(** [InvokeLossDetection]: lost packets leave the flight. *)
Definition lose (m : map_t) (lost : list LostPacket) : map_t :=
  fold_left (λ m p, RemoveFromInFlight m (lost_packet_number p)) lost m.

(** ** Spurious retransmissions *)

Fixpoint widen (fuel : nat) (max_rtt extra_time_needed shift : Z) : Z :=
  match fuel with
  | O => shift
  | S fuel =>
      if (Z.shiftr max_rtt shift <=? extra_time_needed) && (0 <? shift)
      then widen fuel max_rtt extra_time_needed (shift - 1) else shift
  end.

Fixpoint widen_old (fuel : nat) (max_rtt extra_time_needed shift : Z) : Z :=
  match fuel with
  | O => shift
  | S fuel =>
      let proposed_extra_time := Z.shiftr max_rtt shift in
      let shift := shift - 1 in
      if (proposed_extra_time <? extra_time_needed) && (0 <? shift)
      then widen_old fuel max_rtt extra_time_needed shift else shift
  end.

Definition with_shift (a : t) (p shift : Z) : t :=
  mk (loss_detection_timeout a) p (loss_type a) shift (largest_previously_acked a) (least_in_flight a)
    (packet_number_space a).

Definition SpuriousRetransmitDetected (fl : flags) (a : t) (m : map_t) (time : Z) (r : RttStats)
    (spurious_retransmission : Z) : t :=
  let shift := reordering_shift a in
  if negb (bool_decide (loss_type a = kAdaptiveTime)) || (shift =? 0) then a else
  let extra_time_needed := time - sent_time_of m spurious_retransmission in
  if quic_fix_adaptive_time_loss fl
  then with_shift a (largest_sent_on_spurious_retransmit a)
         (widen (Z.to_nat shift) (max_rtt r) extra_time_needed shift)
  else if IsInitialized (largest_sent_on_spurious_retransmit a)
          && (spurious_retransmission <=? largest_sent_on_spurious_retransmit a) then a
  else with_shift a (largest_sent_packet m) (widen_old (Z.to_nat shift) (max_rtt r) extra_time_needed shift).

(** ** Packets enter the flight only at the end of the map *)

Definition like (l l' : list QuicTransmissionInfo) : Prop :=
  length l' = length l ∧ ∀ n i', l' !! n = Some i' → ∃ i, l !! n = Some i
    ∧ encryption_level i' = encryption_level i ∧ (in_flight i' = true → in_flight i = true).

(** From [m] to [m'] the packets of [m] that are left keep their space, and none enters the flight. *)
Definition quieter (m m' : map_t) : Prop :=
  least_unacked m <= least_unacked m' ∧ next_packet m <= next_packet m'
  ∧ ∀ p i', least_unacked m' <= p < next_packet m → GetTransmissionInfo m' p = Some i' →
      ∃ i, GetTransmissionInfo m p = Some i
        ∧ GetPacketNumberSpace m' (encryption_level i') = GetPacketNumberSpace m (encryption_level i)
        ∧ (in_flight i' = true → in_flight i = true).

Lemma like_refl l : like l l.
Proof. split; [done|]. eauto. Qed.

Lemma like_insert l k n x x' :
  like l k → k !! n = Some x → encryption_level x' = encryption_level x →
  (in_flight x' = true → in_flight x = true) → like l (<[n := x']> k).
Proof.
  intros [Hlen Hl] Hn E1 E2. split; [by rewrite length_insert|]. intros m i' Hm.
  destruct (decide (m = n)) as [->|Hne].
  - rewrite list_lookup_insert_eq in Hm by (by eapply lookup_lt_Some). injection Hm as <-.
    destruct (Hl n x Hn) as (i&Hi&E3&E4). exists i. rewrite E1, E3. auto.
  - rewrite list_lookup_insert_ne in Hm by done. by apply Hl.
Qed.

Lemma like_alter l k n (f : QuicTransmissionInfo → QuicTransmissionInfo) :
  like l k → (∀ x, encryption_level (f x) = encryption_level x ∧ in_flight (f x) = in_flight x) → like l (alter f n k).
Proof.
  intros Hl Hf. rewrite alter_insert. destruct (k !! n) as [x|] eqn:Hx; [|done]. destruct (Hf x) as [E1 E2].
  apply (like_insert l k n x); [done..|by rewrite E2].
Qed.

Lemma like_follow l fuel least k n : like l k → like l (follow fuel least k n).1.
Proof.
  revert k n. induction fuel as [|fuel IH]; intros k n Hl; cbn [follow]; [done|].
  destruct (k !! n) as [x|] eqn:Hx; [|done]. destruct (IsInitialized (retransmission x)); [|done].
  by apply IH, (like_insert l k n x).
Qed.

Lemma quieter_list m m' k extra :
  least_unacked m' = least_unacked m → perspective m' = perspective m →
  supports_multiple_packet_number_spaces m' = supports_multiple_packet_number_spaces m →
  unacked_packets m' = k ++ extra → like (unacked_packets m) k → quieter m m'.
Proof.
  intros El Ep Es Eu [Hlen Hl]. unfold quieter, next_packet, GetTransmissionInfo, index. rewrite El, Eu, zlen_app.
  pose proof (zlen_nonneg extra). split; [lia|]. split; [unfold zlen in *; lia|]. intros p i' Hp Hi.
  rewrite lookup_app_l in Hi by (unfold zlen in Hp; lia). destruct (Hl _ _ Hi) as (i&Hi'&E1&E2).
  exists i. split; [done|]. split; [|done]. unfold GetPacketNumberSpace. by rewrite Ep, Es, E1.
Qed.

Lemma quieter_same m m' :
  least_unacked m' = least_unacked m → perspective m' = perspective m →
  supports_multiple_packet_number_spaces m' = supports_multiple_packet_number_spaces m →
  like (unacked_packets m) (unacked_packets m') → quieter m m'.
Proof.
  intros E1 E2 E3 Hl. apply (quieter_list m m' (unacked_packets m') []); try done. by rewrite app_nil_r.
Qed.

Lemma quieter_trans m1 m2 m3 : quieter m1 m2 → quieter m2 m3 → quieter m1 m3.
Proof.
  intros (A1&A2&A3) (B1&B2&B3). split; [lia|]. split; [lia|]. intros p i' Hp Hi.
  destruct (B3 p i' ltac:(lia) Hi) as (j&Hj&E1&E2). destruct (A3 p j ltac:(lia) Hj) as (i&Hi'&E3&E4).
  exists i. split; [done|]. split; [congruence|auto].
Qed.

Lemma quieter_refl m m' :
  unacked_packets m' = unacked_packets m → least_unacked m' = least_unacked m → perspective m' = perspective m →
  supports_multiple_packet_number_spaces m' = supports_multiple_packet_number_spaces m → quieter m m'.
Proof. intros E1 E2 E3 E4. apply quieter_same; [done..|]. rewrite E1. apply like_refl. Qed.

Lemma obsolete_quieter m : 1 <= least_unacked m → next_packet m <= two62 → quieter m (RemoveObsoletePackets m).
Proof.
  intros H1 H2. unfold quieter, RemoveObsoletePackets, GetTransmissionInfo, index, next_packet in *.
  pose proof (drop_useless_spec m (unacked_packets m) (least_unacked m) ltac:(lia)
    ltac:(unfold two62, two64 in *; lia)) as Hd.
  destruct (drop_useless m _ _) as [l least]. destruct Hd as (dropped&El&->&_). upm_simpl.
  pose proof (zlen_nonneg dropped). rewrite El, zlen_app. split; [lia|]. split; [lia|].
  intros p i' Hp Hi. exists i'. split; [|done].
  unfold zlen in *. rewrite lookup_app_r by lia.
  by replace (Z.to_nat (p - least_unacked m) - length dropped)%nat
    with (Z.to_nat (p - (least_unacked m + Z.of_nat (length dropped)))) by lia.
Qed.

Lemma transfer_quieter m old p ty info :
  1 <= least_unacked m → next_packet m <= two62 → quieter m (TransferRetransmissionInfo m old p ty info).1.1.
Proof.
  intros H1 H2. unfold TransferRetransmissionInfo.
  destruct (old <? least_unacked m); [by apply quieter_refl|].
  destruct (largest_sent_packet m <? old); [by apply quieter_refl|].
  destruct (GetTransmissionInfo m old) as [i|] eqn:Hi; [|by apply quieter_refl].
  cbn [fst]. set (o := if (_ || _)%bool then _ else _).
  assert (Eo : encryption_level o = encryption_level i ∧ in_flight o = in_flight i).
  { subst o. by destruct (_ || _). }
  destruct Eo as [E1 E2].
  apply (quieter_trans _ (with_list m (<[index m old := o]> (unacked_packets m)))).
  - apply quieter_same; [done..|]. apply (like_insert _ _ _ i); [apply like_refl|done|done|by rewrite E2].
  - apply obsolete_quieter; [done|]. unfold next_packet, zlen in *. upm_simpl. by rewrite length_insert.
Qed.

Lemma sent_quieter m packet old ty time fl :
  Inv m → sendable m packet old → quieter m (AddSentPacket m packet old ty time fl).1.1.
Proof.
  intros [HI _] [Hp _]. pose proof (ig_least _ _ _ HI) as Hl. unfold AddSentPacket.
  assert (Hfill : quieter m (fill m (packet_number packet))).
  { eapply quieter_list; [done..|apply like_refl]. }
  set (s1 := fill m (packet_number packet)) in *. set (info := set_info_largest_acked _ _).
  assert (Hs1 : least_unacked s1 = least_unacked m ∧ next_packet s1 <= two62).
  { split; [done|]. destruct (fill_inv (packet_number packet + 1) 0 m (packet_number packet)) as [_ En].
    - apply (InvG_weaken (next_packet m)); [done|lia].
    - lia.
    - fold s1 in En. lia. }
  set (step := if IsInitialized old then _ else _).
  assert (Hstep : quieter s1 step.1.1).
  { subst step. destruct (IsInitialized old); [apply transfer_quieter; lia|by apply quieter_refl]. }
  clearbody step. destruct step as [[s2 info2] calls]. cbn [fst snd] in *.
  apply (quieter_trans _ _ _ (quieter_trans _ _ _ Hfill Hstep)).
  eapply quieter_list; [done..|apply like_refl].
Qed.

Lemma retransmittability_like m p :
  quieter m (RemoveRetransmittability m p) ∧ least_unacked (RemoveRetransmittability m p) = least_unacked m.
Proof.
  unfold RemoveRetransmittability. destruct (session_decides_what_to_write m).
  - split; [|done]. apply quieter_same; [done..|]. apply like_alter; [apply like_refl|done].
  - pose proof (like_follow (unacked_packets m) (S (length (unacked_packets m))) (least_unacked m) _ (index m p)
      (like_refl _)) as Hl.
    destruct (follow _ _ _ _) as [l j]. split; [|done]. apply quieter_same; [done..|]. by apply like_alter.
Qed.

Lemma cancel_at_like id m n : quieter m (cancel_at id m n) ∧ least_unacked (cancel_at id m n) = least_unacked m.
Proof.
  unfold cancel_at. destruct (unacked_packets m !! n) as [x|] eqn:Hx; [|split; [by apply quieter_refl|done]].
  destruct (no_frames x); [split; [by apply quieter_refl|done]|].
  set (m1 := with_list m _). assert (H1 : quieter m m1).
  { apply quieter_same; [done..|]. apply (like_insert _ _ _ x); [apply like_refl|done..]. }
  destruct (no_frames _); [|done]. destruct (retransmittability_like m1 (least_unacked m1 + Z.of_nat n)) as [H2 E2].
  split; [by eapply quieter_trans|by rewrite E2].
Qed.

Lemma map_step_quieter m m' : Inv m → map_step m m' → quieter m m'.
Proof.
  intros HI Hs. pose proof HI as [HG Hn].
  pose proof (ig_least _ _ _ HG). pose proof (ig_small _ _ _ HG).
  destruct Hs as [b| |packet old type time fl Hs| |p Hp|p Hp|p s Hp|id Hs|p|s p|i d r|d].
  - by apply quieter_refl.
  - unfold EnableMultiplePacketNumberSpacesSupport.
    destruct (supports_multiple_packet_number_spaces m); [by apply quieter_refl|].
    destruct (IsInitialized (largest_sent_packet m)) eqn:El; [by apply quieter_refl|].
    unfold quieter, next_packet in *. upm_simpl. pose proof (zlen_nonneg (unacked_packets m)).
    split; [lia|]. split; [lia|]. intros p i' Hp. lia.
  - by apply sent_quieter.
  - by apply obsolete_quieter.
  - apply retransmittability_like.
  - unfold RemoveFromInFlight. destruct (GetTransmissionInfo m p) as [x|] eqn:Hx; [|by apply quieter_refl].
    destruct (in_flight x) eqn:Hf; [|by apply quieter_refl].
    apply quieter_same; [done..|]. by apply (like_insert _ _ _ x); [apply like_refl|..].
  - apply quieter_same; [done..|]. apply like_alter; [apply like_refl|done].
  - unfold CancelRetransmissionsForStream. generalize (seq 0 (length (unacked_packets m))). clear.
    intros ns. revert m. induction ns as [|n ns IH]; intros m; cbn [fold_left]; [by apply quieter_refl|].
    eapply quieter_trans; [apply cancel_at_like|apply IH].
  - by apply quieter_refl.
  - by apply quieter_refl.
  - unfold MaybeAggregateAckedStreamFrame. destruct (negb _); [by apply quieter_refl|].
    destruct (aggregate_keeps d r (retransmittable_frames i) m) as [f ->]. by apply quieter_refl.
  - destruct (Notify_keeps m d) as [f ->]. by apply quieter_refl.
Qed.

(** ** The specification of a detection *)

(** Enough later packets were acked. *)
Definition reordered (a : t) (largest_newly_acked p : Z) : Prop :=
  match loss_type a with
  | kNack => p + 3 <= largest_newly_acked
  | kLazyFack =>
      IsInitialized (largest_previously_acked a) = true ∧ p + 2 <= largest_previously_acked a < largest_newly_acked
  | _ => False
  end.

(** Enough time passed: on the timer, or more than one RTT before the largest acked was sent. *)
Definition late (m : map_t) (a : t) (time : Z) (r : RttStats) (largest_newly_acked : Z)
    (i : QuicTransmissionInfo) : Prop :=
  if use_timer m a largest_newly_acked
  then sent_time i + loss_delay r (reordering_shift a) <= time
  else sent_time i + smoothed_rtt r < sent_time_of m largest_newly_acked.

(** The packets of the space in flight up to the largest acked. *)
Definition considered (m : map_t) (a : t) (largest_newly_acked p : Z) (i : QuicTransmissionInfo) : Prop :=
  least_unacked m <= p <= largest_newly_acked ∧ GetTransmissionInfo m p = Some i
  ∧ GetPacketNumberSpace m (encryption_level i) = packet_number_space a ∧ in_flight i = true.

Definition overdue (m : map_t) (a : t) (time : Z) (r : RttStats) (largest_newly_acked p : Z)
    (i : QuicTransmissionInfo) : Prop :=
  considered m a largest_newly_acked p i
  ∧ (reordered a largest_newly_acked p ∨ late m a time r largest_newly_acked i).

(** Packets were sent in the order of time. *)
Definition times_ordered (m : map_t) : Prop :=
  ∀ p q i j, least_unacked m <= p <= q → GetTransmissionInfo m p = Some i → GetTransmissionInfo m q = Some j →
    in_flight i = true → in_flight j = true → sent_time i <= sent_time j.

(** What the sent packet manager passes: the packets acked, in order, none of them in flight any more. *)
Definition newly_acked (fl : flags) (m : map_t) (largest_newly_acked : Z) (acked : list AckedPacket) : Prop :=
  1 <= largest_newly_acked < next_packet m
  ∧ StronglySorted Z.lt (map acked_packet_number acked)
  ∧ ∀ q, q ∈ map acked_packet_number acked → q < next_packet m
      ∧ (quic_fix_packets_acked fl = false → q <= largest_newly_acked)
      ∧ (least_unacked m <= q → ∀ i, GetTransmissionInfo m q = Some i → in_flight i = false).

(** No packet of the space below [bound] is in flight. *)
Definition behind (m : map_t) (s : PacketNumberSpace) (bound : Z) : Prop :=
  ∀ p i, least_unacked m <= p < bound → GetTransmissionInfo m p = Some i →
    GetPacketNumberSpace m (encryption_level i) = s → in_flight i = false.

(** ** The verdict on a packet *)

Lemma nacked_iff a largest p : 0 <= p <= largest → largest < two62 →
  nacked a largest p = true ↔ reordered a largest p.
Proof.
  intros Hp Hl. unfold nacked, reordered, kNumberOfNacksBeforeRetransmission, wrap64.
  destruct (loss_type a); [|done..|].
  - rewrite Z.mod_small by (unfold two62, two64 in *; lia). lia.
  - destruct (IsInitialized (largest_previously_acked a)); cbn [andb]; [|naive_solver].
    destruct (Z.ltb_spec (largest_previously_acked a) largest); cbn [andb]; [|naive_solver lia].
    destruct (Z.ltb_spec p (largest_previously_acked a)); cbn [andb]; [|naive_solver lia].
    rewrite Z.mod_small by (unfold two62, two64 in *; lia). naive_solver lia.
Qed.

Lemma reordered_antitone a largest p q : p <= q → reordered a largest q → reordered a largest p.
Proof. unfold reordered. destruct (loss_type a); naive_solver lia. Qed.

Section judged.
Context (m : map_t) (a : t) (time : Z) (r : RttStats) (largest : Z).
Context (Hlargest : largest < two62) (Hleast : 1 <= least_unacked m).
Let f := judge m a time (loss_delay r (reordering_shift a)) r largest.

Lemma judge_cases p i :
  least_unacked m <= p <= largest → GetTransmissionInfo m p = Some i →
  match f p i with
  | Skip => ¬ considered m a largest p i
  | Lost => overdue m a time r largest p i
  | Wait w => considered m a largest p i ∧ ¬ overdue m a time r largest p i
      ∧ use_timer m a largest = true ∧ w = sent_time i + loss_delay r (reordering_shift a) ∧ time < w
  | Keep => considered m a largest p i ∧ ¬ overdue m a time r largest p i ∧ use_timer m a largest = false
  end.
Proof.
  intros Hp Hi. subst f. unfold judge.
  destruct (decide (GetPacketNumberSpace m (encryption_level i) = packet_number_space a)) as [Es|Es].
  2:{ rewrite bool_decide_eq_false_2 by done. cbn. intros (_&_&?&_). congruence. }
  rewrite bool_decide_eq_true_2 by done. cbn [negb].
  destruct (in_flight i) eqn:Ef; cbn [negb]; [|intros (_&_&_&?); congruence].
  assert (Hc : considered m a largest p i) by done.
  pose proof (nacked_iff a largest p ltac:(lia) Hlargest) as Hn.
  destruct (nacked a largest p); [split; [done|left; by apply Hn]|].
  assert (Hno : ¬ reordered a largest p) by (intros H; by apply Hn in H).
  unfold overdue, late. destruct (use_timer m a largest).
  - destruct (Z.ltb_spec time (sent_time i + loss_delay r (reordering_shift a))).
    + split; [done|]. split; [|done]. intros [_ [?|?]]; [done|lia].
    + split; [done|]. by right.
  - destruct (Z.ltb_spec (sent_time i + smoothed_rtt r) (sent_time_of m largest)).
    + split; [done|]. by right.
    + split; [done|]. split; [|done]. intros [_ [?|?]]; [done|lia].
Qed.

Lemma judge_lost p i :
  least_unacked m <= p <= largest → GetTransmissionInfo m p = Some i →
  f p i = Lost ↔ overdue m a time r largest p i.
Proof.
  intros Hp Hi. pose proof (judge_cases p i Hp Hi) as H. destruct (f p i); [| |naive_solver..].
  - split; [done|]. intros [? _]. done.
  - done.
Qed.

(** After a packet that waits for the timer no packet is lost. *)
Lemma judge_wait p q i j w :
  times_ordered m → least_unacked m <= p <= q → q <= largest →
  GetTransmissionInfo m p = Some i → GetTransmissionInfo m q = Some j →
  f p i = Wait w → f q j ≠ Lost.
Proof.
  intros Ht Hpq Hq Hi Hj Hw Hlost.
  pose proof (judge_cases p i ltac:(lia) Hi) as H. rewrite Hw in H. destruct H as (Hc&Hno&Hu&->&Hlt).
  apply judge_lost in Hlost as [Hc' [Hr|Hl]]; [| |lia|done].
  - apply Hno. split; [done|]. left. by apply (reordered_antitone _ _ p q); [lia|].
  - unfold late in Hl. rewrite Hu in Hl.
    pose proof (Ht p q i j ltac:(lia) Hi Hj ltac:(apply Hc) ltac:(apply Hc')). lia.
Qed.
End judged.

(** ** The loop *)

(** The packet [q] of a list that starts with packet [p]. *)
Definition at_number (l : list QuicTransmissionInfo) (p q : Z) (i : QuicTransmissionInfo) : Prop :=
  p <= q ∧ l !! Z.to_nat (q - p) = Some i.

Lemma at_number_cons x l p q i : at_number (x :: l) p q i ↔ (q = p ∧ i = x) ∨ at_number l (p + 1) q i.
Proof.
  unfold at_number. destruct (Z.eq_dec q p) as [->|Hne].
  - rewrite Z.sub_diag. change (Z.to_nat 0) with 0%nat. cbn [lookup list_lookup]. naive_solver lia.
  - split.
    + intros [Hle Hi]. right. split; [lia|]. replace (Z.to_nat (q - p)) with (S (Z.to_nat (q - (p + 1)))) in Hi by lia.
      done.
    + intros [[? _]|[Hle Hi]]; [done|]. split; [lia|].
      by replace (Z.to_nat (q - p)) with (S (Z.to_nat (q - (p + 1)))) by lia.
Qed.

Lemma at_number_nil p q i : ¬ at_number [] p q i.
Proof. by intros [_ H]. Qed.

Definition survives (v : verdict) : Prop := match v with Wait _ | Keep => True | _ => False end.

Section scanning.
Context (f : Z → QuicTransmissionInfo → verdict) (largest : Z).

Definition in_scan (l : list QuicTransmissionInfo) (p q : Z) (i : QuicTransmissionInfo) : Prop :=
  at_number l p q i ∧ q <= largest.

Lemma in_scan_cons x l p q i : p <= largest → in_scan (x :: l) p q i ↔ (q = p ∧ i = x) ∨ in_scan l (p + 1) q i.
Proof. unfold in_scan. rewrite at_number_cons. naive_solver lia. Qed.

Lemma in_scan_none l p q i : largest < p ∨ l = [] → ¬ in_scan l p q i.
Proof. intros [?| ->] [Ha ?]; [destruct Ha; lia|by apply at_number_nil in Ha]. Qed.

(** The packets lost. *)
Lemma scan_lost l p least timeout :
  0 <= p → p + zlen l < two64 →
  (∀ q i w q' j, in_scan l p q i → in_scan l p q' j → q <= q' → f q i = Wait w → f q' j ≠ Lost) →
  let lost := (scan f largest l p least timeout).1.1 in
  (∀ x, x ∈ lost ↔ ∃ i, in_scan l p (lost_packet_number x) i ∧ f (lost_packet_number x) i = Lost
                        ∧ bytes_lost x = bytes_sent i)
  ∧ StronglySorted (λ x y, lost_packet_number x < lost_packet_number y) lost.
Proof.
  revert p least timeout. induction l as [|i l IH]; intros p least timeout Hp Hb Hw; cbn [scan].
  { cbn. split; [|constructor]. intros x. rewrite elem_of_nil.
    split; [done|]. intros (i&Hi&_). by apply in_scan_none in Hi; [|right]. }
  rewrite zlen_cons in Hb. pose proof (zlen_nonneg l).
  destruct (Z.ltb_spec largest p) as [Hlt|Hle].
  { cbn. split; [|constructor]. intros x. rewrite elem_of_nil.
    split; [done|]. intros (j&Hj&_). by apply in_scan_none in Hj; [|left]. }
  rewrite !add_small by (unfold two64 in *; lia).
  assert (Hnext : ∀ least timeout, let lost := (scan f largest l (p + 1) least timeout).1.1 in
    (∀ x, x ∈ lost ↔ ∃ i, in_scan l (p + 1) (lost_packet_number x) i ∧ f (lost_packet_number x) i = Lost
                          ∧ bytes_lost x = bytes_sent i)
    ∧ StronglySorted (λ x y, lost_packet_number x < lost_packet_number y) lost).
  { intros least' timeout'. apply IH; [lia|lia|]. intros q j w q' j' Hq Hq'. apply Hw; apply in_scan_cons; auto. }
  assert (Hskip : f p i ≠ Lost → ∀ x,
    (∃ j, in_scan (i :: l) p (lost_packet_number x) j ∧ f (lost_packet_number x) j = Lost ∧ bytes_lost x = bytes_sent j)
    ↔ ∃ j, in_scan l (p + 1) (lost_packet_number x) j ∧ f (lost_packet_number x) j = Lost ∧ bytes_lost x = bytes_sent j).
  { intros Hn x. setoid_rewrite (in_scan_cons i l p _ _ Hle). split; [|naive_solver].
    intros (j&[[Eq ->]|?]&Hl&?); [|eauto]. rewrite Eq in Hl. done. }
  destruct (f p i) as [| |w|] eqn:Ef; cbn zeta.
  - specialize (Hnext least timeout). cbn zeta in Hnext. split; [|apply Hnext].
    intros x. rewrite (Hskip ltac:(done)). apply Hnext.
  - specialize (Hnext least timeout). destruct (scan f largest l (p + 1) least timeout) as [[lost least'] timeout'].
    cbn [fst] in *. destruct Hnext as [Hin Hsort]. split.
    + intros x. rewrite elem_of_cons, Hin. setoid_rewrite (in_scan_cons i l p _ _ Hle). split.
      * intros [->|(j&?)]; [|naive_solver]. exists i. cbn. auto.
      * intros (j&[[Eq ->]|?]&?&Hbytes); [|eauto]. left. destruct x as [n k]. cbn in *. by subst.
    + constructor; [done|]. apply Forall_forall. intros x Hx. apply Hin in Hx as (j&[[Hx _] _]&_). cbn. lia.
  - cbn. split; [|constructor]. intros x. rewrite elem_of_nil. split; [done|].
    intros (j&Hj&Hl&_). eapply (Hw p i w _ j); [|exact Hj|by destruct Hj as [[? _] _]|done|done].
    apply in_scan_cons; [done|]. by left.
  - specialize (Hnext (if IsInitialized least then least else p) timeout). cbn zeta in Hnext. split; [|apply Hnext].
    intros x. rewrite (Hskip ltac:(done)). apply Hnext.
Qed.

(** The first packet that is kept or waits. *)
Lemma scan_least l p least timeout :
  0 <= p → p + zlen l <= two62 →
  let least' := (scan f largest l p least timeout).1.2 in
  if IsInitialized least then least' = least
  else (least' = least ∧ ∀ q i, in_scan l p q i → ¬ survives (f q i))
       ∨ ((∃ i, in_scan l p least' i) ∧ ∀ q i, in_scan l p q i → q < least' → ¬ survives (f q i)).
Proof.
  revert p least timeout. induction l as [|i l IH]; intros p least timeout Hp Hb; cbn [scan].
  { destruct (IsInitialized least); [done|]. left. split; [done|]. intros q i Hi. by apply in_scan_none in Hi; [|right]. }
  rewrite zlen_cons in Hb. pose proof (zlen_nonneg l).
  destruct (Z.ltb_spec largest p) as [Hlt|Hle].
  { destruct (IsInitialized least); [done|]. left. split; [done|]. intros q j Hj. by apply in_scan_none in Hj; [|left]. }
  rewrite !add_small by (unfold two62, two64 in *; lia).
  assert (Hgo : ∀ timeout, ¬ survives (f p i) →
    let least' := (scan f largest l (p + 1) least timeout).1.2 in
    if IsInitialized least then least' = least
    else (least' = least ∧ ∀ q j, in_scan (i :: l) p q j → ¬ survives (f q j))
         ∨ ((∃ j, in_scan (i :: l) p least' j) ∧ ∀ q j, in_scan (i :: l) p q j → q < least' → ¬ survives (f q j))).
  { intros timeout' Hns. specialize (IH (p + 1) least timeout' ltac:(lia) ltac:(lia)). cbn zeta in *.
    destruct (IsInitialized least); [done|].
    destruct IH as [[-> Hno]|[[j Hj] Hno]]; [left|right].
    - split; [done|]. intros q j' [[-> ->]|Hq]%in_scan_cons; [done|by apply Hno|done].
    - split; [exists j; apply in_scan_cons; auto|].
      intros q j' [[-> ->]|Hq]%in_scan_cons Hlt; [done|by apply (Hno q)|done]. }
  assert (Hstop : ∀ least', least' = (if IsInitialized least then least else p) →
    if IsInitialized least then least' = least
    else (least' = least ∧ ∀ q j, in_scan (i :: l) p q j → ¬ survives (f q j))
         ∨ ((∃ j, in_scan (i :: l) p least' j) ∧ ∀ q j, in_scan (i :: l) p q j → q < least' → ¬ survives (f q j))).
  { intros least' ->. destruct (IsInitialized least); [done|]. right. split.
    - exists i. apply in_scan_cons; auto.
    - intros q j [[Hq _] _] Hlt. lia. }
  destruct (f p i) as [| |w|] eqn:Ef.
  - apply Hgo. by intros [].
  - specialize (Hgo timeout ltac:(by intros [])). by destruct (scan f largest l (p + 1) least timeout) as [[lost least'] timeout'].
  - by apply Hstop.
  - specialize (IH (p + 1) (if IsInitialized least then least else p) timeout ltac:(lia) ltac:(lia)). cbn zeta in *.
    destruct (IsInitialized least) eqn:Ei; [by rewrite Ei in IH|].
    assert (Ep : IsInitialized p = true).
    { unfold IsInitialized, UninitializedPacketNumber. rewrite (proj2 (Z.eqb_neq _ _)); [done|]. unfold two62, two64 in *. lia. }
    rewrite Ep in IH. rewrite IH. by apply Hstop.
Qed.

(** The timeout is the one of the first packet that waits. *)
Lemma scan_timeout l p least timeout :
  0 <= p → p + zlen l < two64 →
  let timeout' := (scan f largest l p least timeout).2 in
  (timeout' = timeout ∧ ∀ q i w, in_scan l p q i → f q i ≠ Wait w)
  ∨ ∃ q i, in_scan l p q i ∧ f q i = Wait timeout' ∧ ∀ q' j w, in_scan l p q' j → f q' j = Wait w → q <= q'.
Proof.
  revert p least. induction l as [|i l IH]; intros p least Hp Hb; cbn [scan].
  { left. split; [done|]. intros q i w Hi. by apply in_scan_none in Hi; [|right]. }
  rewrite zlen_cons in Hb. pose proof (zlen_nonneg l).
  destruct (Z.ltb_spec largest p) as [Hlt|Hle].
  { left. split; [done|]. intros q j w Hj. by apply in_scan_none in Hj; [|left]. }
  rewrite !add_small by (unfold two64 in *; lia).
  assert (Hgo : ∀ least, (∀ w, f p i ≠ Wait w) →
    let timeout' := (scan f largest l (p + 1) least timeout).2 in
    (timeout' = timeout ∧ ∀ q j w, in_scan (i :: l) p q j → f q j ≠ Wait w)
    ∨ ∃ q j, in_scan (i :: l) p q j ∧ f q j = Wait timeout'
        ∧ ∀ q' j' w, in_scan (i :: l) p q' j' → f q' j' = Wait w → q <= q').
  { intros least' Hn. specialize (IH (p + 1) least' ltac:(lia) ltac:(lia)). cbn zeta in *.
    destruct IH as [[-> Hno]|(q&j&Hq&Hw&Hmin)]; [left|right].
    - split; [done|]. intros q j w [[-> ->]|Hq]%in_scan_cons; [done|by apply Hno|done].
    - exists q, j. split; [apply in_scan_cons; auto|]. split; [done|].
      intros q' j' w [[-> ->]|Hq']%in_scan_cons; [intros E; by apply Hn in E|by apply Hmin|done]. }
  destruct (f p i) as [| |w|] eqn:Ef.
  - by apply Hgo.
  - specialize (Hgo least ltac:(done)). by destruct (scan f largest l (p + 1) least timeout) as [[lost least'] timeout'].
  - right. exists p, i. split; [apply in_scan_cons; auto|]. split; [done|]. by intros q' j w' [[? _] _] _.
  - by apply Hgo.
Qed.
End scanning.

(** ** The least packet in flight *)

Definition watching (m : map_t) (a : t) : Prop :=
  Inv m ∧ behind m (packet_number_space a) (least_in_flight a) ∧ 1 <= least_in_flight a <= next_packet m.

Lemma behind_quieter m m' s bound :
  quieter m m' → bound <= next_packet m → behind m s bound → behind m' s bound.
Proof.
  intros (H1&H2&H3) Hb Hbe p i' Hp Hi Hs. destruct (H3 p i' ltac:(lia) Hi) as (i&Hi'&E1&E2).
  destruct (in_flight i') eqn:Ef; [|done]. rewrite (Hbe p i) in E2; [by specialize (E2 eq_refl)|lia|done|congruence].
Qed.

(** An increasing run of as many numbers as its range holds has them all. *)
Lemma run_is_full (l : list Z) c :
  StronglySorted Z.lt l → (∀ x, x ∈ l → c <= x < c + zlen l) → ∀ y, c <= y < c + zlen l → y ∈ l.
Proof.
  intros Hs. revert c. induction Hs as [|x l Hs IH Hx]; intros c Hl y Hy.
  { rewrite (@zlen_nil Z) in Hy. lia. }
  rewrite zlen_cons in *. rewrite Forall_forall in Hx. pose proof (Hl x ltac:(left)) as Hcx.
  assert (Htail : ∀ z, z ∈ l → c + 1 <= z < c + 1 + zlen l).
  { intros z Hz. specialize (Hx z Hz). specialize (Hl z ltac:(by right)). lia. }
  assert (Ex : x = c).
  { destruct l as [|x' l']; [rewrite (@zlen_nil Z) in *; lia|].
    assert (Hin : c + 1 ∈ x' :: l') by (apply (IH (c + 1) Htail); rewrite zlen_cons; pose proof (zlen_nonneg l'); lia).
    specialize (Hx _ Hin). lia. }
  destruct (Z.eq_dec y c) as [->|Hne]; [subst; left|right]. apply (IH (c + 1) Htail). lia.
Qed.

Lemma skip_acked_spec acked least bound :
  0 <= least → bound < two64 → least <= bound → (∀ q, q ∈ map acked_packet_number acked → q < bound) →
  least <= skip_acked acked least <= bound
  ∧ ∀ q, least <= q < skip_acked acked least → q ∈ map acked_packet_number acked.
Proof.
  revert least. induction acked as [|p acked IH]; intros least Hl Hb Hlb Hq; cbn [skip_acked map].
  { split; [lia|]. intros q Hq'. lia. }
  destruct (Z.eqb_spec (acked_packet_number p) least) as [Ep|]; cbn [negb]; [|split; [lia|intros q ?; lia]].
  pose proof (Hq (acked_packet_number p) ltac:(left)). rewrite add_small by lia.
  destruct (IH (least + 1) ltac:(lia) Hb ltac:(lia) ltac:(intros q ?; apply Hq; by right)) as [IH1 IH2].
  split; [lia|]. intros q Hq'. rewrite elem_of_cons. destruct (Z.eq_dec q least) as [->|]; [left; congruence|].
  right. apply IH2. lia.
Qed.

Lemma behind_acked fl m s bound bound' largest acked :
  behind m s bound → newly_acked fl m largest acked →
  (∀ q, bound <= q < bound' → q ∈ map acked_packet_number acked) → behind m s bound'.
Proof.
  intros Hb (_&_&Ha) Hq p i Hp Hi Hs. destruct (Z.lt_ge_cases p bound); [by apply (Hb p i); [lia|..]|].
  apply (Ha p); [apply Hq; lia|lia|done].
Qed.

(** The part of the map that is scanned. *)
Lemma scanned_part m start largest p i :
  least_unacked m <= start →
  in_scan largest (drop (Z.to_nat (start - least_unacked m)) (unacked_packets m)) start p i
  ↔ start <= p <= largest ∧ GetTransmissionInfo m p = Some i.
Proof.
  intros Hs. unfold in_scan, at_number, GetTransmissionInfo, index. rewrite lookup_drop.
  split.
  - intros [[H1 H2] H3]. split; [lia|]. by replace (Z.to_nat (p - least_unacked m))
      with (Z.to_nat (start - least_unacked m) + Z.to_nat (p - start))%nat by lia.
  - intros [H1 H2]. split; [|lia]. split; [lia|]. by replace (Z.to_nat (start - least_unacked m) + Z.to_nat (p - start))%nat
      with (Z.to_nat (p - least_unacked m)) by lia.
Qed.

(** What a detection has to return. *)
Definition detection_ok (m : map_t) (a : t) (time : Z) (r : RttStats) (largest : Z) (res : t * list LostPacket) : Prop :=
  let '(a', lost) := res in
  (∀ p b, mk_lost p b ∈ lost ↔ ∃ i, overdue m a time r largest p i ∧ b = bytes_sent i)
  ∧ StronglySorted (λ x y, lost_packet_number x < lost_packet_number y) lost
  ∧ (∀ p i, considered m a largest p i → ¬ overdue m a time r largest p i →
       least_in_flight a' <= p
       ∧ (use_timer m a largest = true → time < GetLossTimeout a' <= sent_time i + loss_delay r (reordering_shift a)))
  ∧ (GetLossTimeout a' = 0 ∨ ∃ p i, considered m a largest p i ∧ ¬ overdue m a time r largest p i
       ∧ GetLossTimeout a' = sent_time i + loss_delay r (reordering_shift a))
  ∧ 1 <= least_in_flight a' <= largest + 1
  ∧ packet_number_space a' = packet_number_space a.

(** Nothing in flight up to the largest acked: nothing is found. *)
Lemma detection_nothing m a time r largest least :
  1 <= least <= largest + 1 → behind m (packet_number_space a) (largest + 1) →
  detection_ok m a time r largest (finish a least 0 largest, []).
Proof.
  intros Hl Hb. assert (Hno : ∀ p i, ¬ considered m a largest p i).
  { intros p i (Hp&Hi&Hs&Hf). rewrite (Hb p i) in Hf; [done|lia|done|done]. }
  split; [|split; [constructor|split; [|split; [by left|split; [cbn; lia|done]]]]].
  - intros p b. rewrite elem_of_nil. split; [done|]. intros (i&[Hc _]&_). by apply Hno in Hc.
  - intros p i Hc. by apply Hno in Hc.
Qed.

(** The scan from a packet behind which nothing is in flight. *)
Lemma detection_scan m a time r largest start :
  Inv m → times_ordered m → 1 <= largest < next_packet m →
  least_unacked m <= start <= next_packet m → behind m (packet_number_space a) start →
  let '(lost, least, timeout) :=
    scan (judge m a time (loss_delay r (reordering_shift a)) r largest) largest
      (drop (Z.to_nat (start - least_unacked m)) (unacked_packets m)) start UninitializedPacketNumber 0 in
  detection_ok m a time r largest
    (finish a (if negb (IsInitialized least) then add largest 1 else least) timeout largest, lost).
Proof.
  intros [HG _] Ht Hlg Hst Hb. pose proof (ig_least _ _ _ HG) as H1. pose proof (ig_next _ _ _ HG) as Hnx.
  pose proof (ig_small _ _ _ HG) as Hsm.
  set (f := judge _ _ _ _ _ _). set (l := drop _ _).
  assert (Hlen : start + zlen l = next_packet m).
  { unfold l, zlen, next_packet, zlen in *. rewrite length_drop. lia. }
  assert (Hcons : ∀ p i, considered m a largest p i → in_scan largest l start p i).
  { intros p i (Hp&Hi&Hs&Hf). apply scanned_part; [lia|]. split; [|done].
    destruct (Z.lt_ge_cases p start); [|lia]. rewrite (Hb p i) in Hf; [done|lia|done|done]. }
  assert (Hscan : ∀ p i, in_scan largest l start p i → least_unacked m <= p <= largest ∧ GetTransmissionInfo m p = Some i).
  { intros p i Hp. apply scanned_part in Hp; [|lia]. split; [lia|apply Hp]. }
  assert (Hsurv : ∀ p i, considered m a largest p i → ¬ overdue m a time r largest p i → survives (f p i)).
  { intros p i Hc Hn. pose proof (judge_cases m a time r largest ltac:(lia) H1 p i) as Hj.
    specialize (Hj ltac:(apply Hc) ltac:(apply Hc)). fold f in Hj. destruct (f p i); cbn; done. }
  assert (Hlost : ∀ p i, in_scan largest l start p i → f p i = Lost ↔ overdue m a time r largest p i).
  { intros p i Hp. destruct (Hscan p i Hp). apply judge_lost; [lia|done..]. }
  pose proof (scan_lost f largest l start UninitializedPacketNumber 0 ltac:(lia) ltac:(unfold two62, two64 in *; lia)) as SL.
  pose proof (scan_least f largest l start UninitializedPacketNumber 0 ltac:(lia) ltac:(lia)) as SM.
  pose proof (scan_timeout f largest l start UninitializedPacketNumber 0 ltac:(lia) ltac:(unfold two62, two64 in *; lia)) as ST.
  destruct (scan f largest l start UninitializedPacketNumber 0) as [[lost least] timeout]. cbn [fst snd] in *.
  destruct SL as [SL1 SL2].
  { intros q i w q' j Hq Hq' Hle. destruct (Hscan q i Hq), (Hscan q' j Hq').
    apply (judge_wait m a time r largest ltac:(lia) H1 q q' i j w Ht); [lia|lia|done|done]. }
  change (IsInitialized UninitializedPacketNumber) with false in SM. cbn iota in SM.
  rewrite add_small by (unfold two62, two64 in *; lia).
  set (least' := if negb (IsInitialized least) then largest + 1 else least).
  assert (Hleast : 1 <= least' <= largest + 1 ∧ ∀ p i, considered m a largest p i → ¬ overdue m a time r largest p i → least' <= p).
  { unfold least'. destruct SM as [[-> Hno]|[[i Hi] Hno]].
    - change (IsInitialized UninitializedPacketNumber) with false. cbn [negb]. split; [lia|].
      intros p i Hc Hn. by destruct (Hno p i (Hcons p i Hc)); apply Hsurv.
    - destruct (Hscan _ _ Hi) as [Hr _].
      assert (Ei : IsInitialized least = true).
      { unfold IsInitialized, UninitializedPacketNumber. rewrite (proj2 (Z.eqb_neq _ _)); [done|]. unfold two62, two64 in *. lia. }
      rewrite Ei. cbn [negb]. split; [lia|]. intros p j Hc Hn. destruct (Z.lt_ge_cases p least); [|lia].
      by destruct (Hno p j (Hcons p j Hc)); [|apply Hsurv]. }
  assert (Hjw : ∀ p i w, in_scan largest l start p i → f p i = Wait w →
    considered m a largest p i ∧ ¬ overdue m a time r largest p i
    ∧ w = sent_time i + loss_delay r (reordering_shift a) ∧ time < w).
  { intros p i w Hp Hw. destruct (Hscan p i Hp) as [Hr Hi]. pose proof (judge_cases m a time r largest ltac:(lia) H1 p i Hr Hi) as Hj.
    fold f in Hj. rewrite Hw in Hj. naive_solver. }
  split; [|split; [exact SL2|split; [|split; [|by split; [apply Hleast|]]]]].
  - intros p b. rewrite SL1. cbn. split.
    + intros (i&Hi&Hl&->). exists i. split; [|done]. by apply Hlost.
    + intros (i&Ho&->). exists i. assert (Hp : in_scan largest l start p i) by (apply Hcons; apply Ho).
      split; [done|]. split; [by apply Hlost|done].
  - intros p i Hc Hn. split; [exact (proj2 Hleast p i Hc Hn)|]. intros Hu. cbn.
    pose proof (Hcons p i Hc) as Hp. destruct (Hscan p i Hp) as [Hr Hi].
    pose proof (judge_cases m a time r largest ltac:(lia) H1 p i Hr Hi) as Hj. fold f in Hj.
    destruct (f p i) as [| |w|] eqn:Ef; [done|by destruct (Hn Hj)| |destruct Hj as (_&_&?); congruence].
    destruct Hj as (_&_&_&->&Hlt). destruct ST as [[_ Hno]|(q&j&Hq&Hw&Hmin)]; [by apply Hno in Ef|].
    destruct (Hjw q j _ Hq Hw) as (Hcq&_&Et&Htq). split; [done|]. specialize (Hmin p i _ Hp Ef).
    pose proof (Ht q p j i ltac:(destruct Hcq; lia) ltac:(apply Hcq) Hi ltac:(apply Hcq) ltac:(apply Hc)). cbn in *. lia.
  - cbn. destruct ST as [[-> _]|(q&j&Hq&Hw&_)]; [by left|right]. destruct (Hjw q j _ Hq Hw) as (?&?&?&_). eauto.
Qed.

Lemma ascending_length (l : list Z) c d :
  StronglySorted Z.lt l → (∀ x, x ∈ l → c <= x <= d) → c <= d + 1 → zlen l <= d - c + 1.
Proof.
  intros Hs. revert c. induction Hs as [|x l Hs IH Hx]; intros c Hl Hcd.
  { rewrite (@zlen_nil Z). lia. }
  rewrite zlen_cons. rewrite Forall_forall in Hx. pose proof (Hl x ltac:(left)).
  specialize (IH (c + 1)). enough (zlen l <= d - (c + 1) + 1) by lia. apply IH; [|lia].
  intros y Hy. specialize (Hx y Hy). specialize (Hl y ltac:(by right)). lia.
Qed.

(** The fast path: every packet from the least in flight to the largest acked was acked. *)
Lemma fast_path_full fl m a largest acked p :
  watching m a → newly_acked fl m largest (p :: acked) →
  acked_packet_number p = least_in_flight a →
  negb (quic_fix_packets_acked fl)
    || match last (p :: acked) with Some p => acked_packet_number p =? largest | None => false end = true →
  sub (add (least_in_flight a) (zlen (p :: acked))) 1 = largest →
  behind m (packet_number_space a) (largest + 1).
Proof.
  intros (HI&Hb&Hl) Ha Hp Hflag Hfull. pose proof HI as [HG _]. pose proof (ig_least _ _ _ HG) as H1.
  pose proof (ig_small _ _ _ HG) as H2. pose proof Ha as (Hlg&Hsort&Hq).
  assert (Hmax : ∀ q, q ∈ map acked_packet_number (p :: acked) → least_in_flight a <= q <= largest).
  { intros q Hin. split.
    - rewrite <-Hp. cbn [map] in Hin, Hsort. apply elem_of_cons in Hin as [->|Hin]; [lia|].
      inversion Hsort as [|? ? _ Hall]; subst. rewrite Forall_forall in Hall. specialize (Hall q Hin). lia.
    - destruct (quic_fix_packets_acked fl) eqn:Ef; cbn [negb orb] in Hflag; [|by apply (Hq q Hin)].
      destruct (list_snoc_cases (p :: acked)) as [?|(k&x&Ek)]; [done|]. rewrite Ek in *.
      rewrite last_app_singleton in Hflag. apply Z.eqb_eq in Hflag. rewrite map_app in Hin, Hsort. cbn [map] in Hin, Hsort.
      apply strongly_sorted_app in Hsort as (_&_&Hs). apply elem_of_app in Hin as [Hin|Hin].
      + specialize (Hs q (acked_packet_number x) Hin ltac:(left)). lia.
      + apply list_elem_of_singleton in Hin as ->. lia. }
  assert (Hlen : zlen (map acked_packet_number (p :: acked)) = zlen (p :: acked)) by (unfold zlen; by rewrite length_map).
  assert (Hz : 0 <= zlen acked) by apply zlen_nonneg.
  assert (Hsz : zlen (p :: acked) <= largest - least_in_flight a + 1).
  { rewrite <-Hlen. apply ascending_length; [done|done|]. pose proof (Hmax (acked_packet_number p) ltac:(left)). lia. }
  rewrite zlen_cons in *. rewrite add_small, sub_small in Hfull by (unfold two62, two64 in *; lia).
  apply (behind_acked fl m _ (least_in_flight a) _ largest (p :: acked)); [done..|].
  intros q Hrange. apply (run_is_full _ (least_in_flight a) Hsort); rewrite Hlen; [|lia].
  intros x Hx. specialize (Hmax x Hx). lia.
Qed.

Lemma DetectLosses_ok fl m a time r largest acked :
  watching m a → times_ordered m → newly_acked fl m largest acked →
  detection_ok m a time r largest (DetectLosses fl a m time r largest acked).
Proof.
  intros Hw Ht Ha. pose proof Hw as ([HG Hn]&Hb&Hl). pose proof (ig_least _ _ _ HG) as H1.
  pose proof (ig_small _ _ _ HG) as H2. pose proof Ha as (Hlg&Hsort&Hq).
  assert (Hnext : next_packet m = largest_sent_packet m + 1).
  { destruct (IsInitialized (largest_sent_packet m)); lia. }
  unfold DetectLosses.
  destruct (_ && _ && _) eqn:Efast.
  - apply andb_true_iff in Efast as [[Ef Eb]%andb_true_iff Es].
    destruct acked as [|p acked]; [done|]. apply Z.eqb_eq in Ef, Es.
    rewrite add_small by (unfold two62, two64 in *; lia).
    apply detection_nothing; [lia|]. by apply (fast_path_full fl m a largest acked p).
  - clear Efast. set (least := if _ : bool then skip_acked _ _ else _).
    assert (Hleast : behind m (packet_number_space a) least ∧ 1 <= least <= next_packet m).
    { subst least. destruct (match acked with [] => false | (p :: _)%list => acked_packet_number p =? least_in_flight a end); [|done].
      destruct (skip_acked_spec acked (least_in_flight a) (next_packet m)) as [S1 S2]; [lia|unfold two62, two64 in *; lia|lia| |].
      { intros q Hin. by apply (Hq q Hin). }
      split; [|lia]. by apply (behind_acked fl m _ (least_in_flight a) _ largest acked). }
    clearbody least. destruct Hleast as [Hbl Hll].
    assert (Ei : IsInitialized least = true).
    { unfold IsInitialized, UninitializedPacketNumber. rewrite (proj2 (Z.eqb_neq _ _)); [done|]. unfold two62, two64 in *. lia. }
    rewrite Ei. cbn [andb]. rewrite add_small by (unfold two62, two64 in *; lia).
    rewrite (proj2 (Z.ltb_ge _ least)) by lia. cbn [negb]. rewrite andb_true_r. unfold GetLeastUnacked.
    set (start := if least_unacked m <=? least then _ else _).
    assert (Hstart : least_unacked m <= start <= next_packet m ∧ behind m (packet_number_space a) start).
    { subst start. pose proof (zlen_nonneg (unacked_packets m)).
      destruct (Z.leb_spec (least_unacked m) least); [split; [lia|done]|].
      split; [unfold next_packet; lia|]. intros p i Hp. lia. }
    clearbody start. pose proof (detection_scan m a time r largest start (conj HG Hn) Ht Hlg (proj1 Hstart) (proj2 Hstart)) as Hd.
    by destruct (scan _ _ _ _ _ _) as [[lost least'] timeout].
Qed.

(** The lost packets leave the flight. *)
Lemma lose_spec m lost :
  Inv m → (∀ x, x ∈ lost → least_unacked m <= lost_packet_number x) →
  Inv (lose m lost) ∧ quieter m (lose m lost) ∧ least_unacked (lose m lost) = least_unacked m
  ∧ next_packet (lose m lost) = next_packet m
  ∧ ∀ x i, x ∈ lost → GetTransmissionInfo (lose m lost) (lost_packet_number x) = Some i → in_flight i = false.
Proof.
  revert m. induction lost as [|x lost IH]; intros m HI Hr; cbn [lose fold_left].
  { split; [done|]. split; [by apply quieter_refl|]. split; [done|]. split; [done|]. intros x i Hx. by apply elem_of_nil in Hx. }
  set (m1 := RemoveFromInFlight m (lost_packet_number x)).
  assert (H1 : Inv m1 ∧ quieter m m1 ∧ least_unacked m1 = least_unacked m ∧ next_packet m1 = next_packet m
    ∧ ∀ i, GetTransmissionInfo m1 (lost_packet_number x) = Some i → in_flight i = false).
  { split; [by apply RemoveFromInFlight_inv|]. subst m1. unfold RemoveFromInFlight.
    destruct (GetTransmissionInfo m (lost_packet_number x)) as [y|] eqn:Hy.
    2:{ split; [by apply quieter_refl|]. split; [done|]. split; [done|]. intros i Hi. congruence. }
    destruct (in_flight y) eqn:Hf.
    2:{ split; [by apply quieter_refl|]. split; [done|]. split; [done|]. intros i Hi. congruence. }
    split; [apply quieter_same; [done..|]; by apply (like_insert _ _ _ y); [apply like_refl|..]|].
    split; [done|]. split; [apply with_packets_next, length_insert|].
    unfold GetTransmissionInfo, index in *. upm_simpl. intros i Hi.
    rewrite list_lookup_insert_eq in Hi by (by eapply lookup_lt_Some). by injection Hi as <-. }
  destruct H1 as (A1&A2&A3&A4&A5).
  destruct (IH m1 A1) as (B1&B2&B3&B4&B5).
  { intros y Hy. rewrite A3. apply Hr. by right. }
  unfold lose in *. split; [done|]. split; [by eapply quieter_trans|]. split; [congruence|]. split; [congruence|].
  intros y i [->|Hy]%elem_of_cons Hi; [|by apply (B5 y)].
  destruct (Z.lt_ge_cases (lost_packet_number x) (next_packet m1)) as [Hlt|Hge].
  - destruct B2 as (_&_&B2). destruct (B2 (lost_packet_number x) i) as (j&Hj&_&Ej); [|done|].
    { rewrite B3, A3. specialize (Hr x ltac:(left)). lia. }
    destruct (in_flight i); [|done]. specialize (Ej eq_refl). by rewrite (A5 j) in Ej.
  - apply lookup_lt_Some in Hi. unfold next_packet, zlen, index in *. lia.
Qed.

(** Whatever else leaves the flight with the packets found lost. *)
Lemma detect_keeps_watching fl m a time r largest acked others :
  watching m a → times_ordered m → newly_acked fl m largest acked →
  let '(a', lost) := DetectLosses fl a m time r largest acked in
  (∀ x, x ∈ lost → x ∈ others) → (∀ x, x ∈ others → least_unacked m <= lost_packet_number x) →
  watching (lose m others) a'.
Proof.
  intros Hw Ht Ha. pose proof (DetectLosses_ok fl m a time r largest acked Hw Ht Ha) as Hd.
  destruct (DetectLosses fl a m time r largest acked) as [a' lost]. destruct Hd as (Hin&_&Hsv&_&Hl&Es).
  destruct Hw as (HI&Hb&Hl0), Ha as (Hlg&_). intros Hsub Hr.
  destruct (lose_spec m others HI Hr) as (B1&B2&B3&B4&B5). split; [done|]. split; [|rewrite B4; lia].
  intros p i' Hp Hi Hs. destruct B2 as (_&_&B2).
  destruct (B2 p i' ltac:(lia) Hi) as (i&Hi'&E1&E2). destruct (in_flight i') eqn:Ef; [|done]. specialize (E2 eq_refl).
  rewrite Es, E1 in Hs.
  assert (Hc : considered m a largest p i) by (split; [lia|split; [done|split; done]]).
  assert (Hdec : overdue m a time r largest p i ∨ ¬ overdue m a time r largest p i).
  { pose proof (ig_least _ _ _ (proj1 HI)). pose proof (ig_small _ _ _ (proj1 HI)).
    pose proof (judge_cases m a time r largest ltac:(lia) ltac:(lia) p i ltac:(apply Hc) Hi') as Hj.
    destruct (judge _ _ _ _ _ _ _ _); [done|by left|right; apply Hj..]. }
  destruct Hdec as [Ho|Ho].
  - specialize (B5 (mk_lost p (bytes_sent i)) i'). cbn in B5. rewrite B5 in Ef; [done| |done]. apply Hsub, Hin. eauto.
  - destruct (Hsv p i Hc Ho). lia.
Qed.

Lemma lose_keeps_watching m a others :
  watching m a → (∀ x, x ∈ others → least_unacked m <= lost_packet_number x) → watching (lose m others) a.
Proof.
  intros (HI&Hb&Hl) Hr. destruct (lose_spec m others HI Hr) as (B1&B2&B3&B4&B5). split; [done|].
  split; [|by rewrite B4]. by apply (behind_quieter m); [|lia|].
Qed.

Lemma lost_in_map fl m a time r largest acked :
  watching m a → times_ordered m → newly_acked fl m largest acked →
  ∀ x, x ∈ (DetectLosses fl a m time r largest acked).2 → least_unacked m <= lost_packet_number x.
Proof.
  intros Hw Ht Ha. pose proof (DetectLosses_ok fl m a time r largest acked Hw Ht Ha) as Hd.
  destruct (DetectLosses fl a m time r largest acked) as [a' lost]. destruct Hd as (Hin&_).
  intros [p b] Hx. apply Hin in Hx as (i&[[Hp _] _]&_). cbn. lia.
Qed.

Lemma watching_step m m' a : watching m a → map_step m m' → watching m' a.
Proof.
  intros (HI&Hb&Hl) Hs. pose proof (map_step_quieter m m' HI Hs) as Hq. split.
  - by apply (map_step_inv m).
  - split; [by apply (behind_quieter m); [|lia|]|]. destruct Hq as (_&?&_). lia.
Qed.

Lemma watching_start m a : Inv m → least_in_flight a = 1 → watching m a.
Proof.
  intros HI El. pose proof (ig_least _ _ _ (proj1 HI)). unfold watching. rewrite El. split; [done|]. split.
  - intros p i Hp. lia.
  - unfold next_packet. pose proof (zlen_nonneg (unacked_packets m)). lia.
Qed.

(** The runs of the algorithm beside its map: the map changes between detections, and the packets
    found lost leave the flight after each. *)
Inductive watched (fl : flags) : map_t → t → Prop :=
| watched_start m ty s : tracked m → watched fl m (SetPacketNumberSpace (new fl ty) s)
| watched_map m m' a : watched fl m a → map_step m m' → watched fl m' a
| watched_type m a ty : watched fl m a → watched fl m (SetLossDetectionType fl a ty)
| watched_spurious m a time r p : watched fl m a → watched fl m (SpuriousRetransmitDetected fl a m time r p)
| watched_detect m a time r largest acked :
    watched fl m a → times_ordered m → newly_acked fl m largest acked →
    watched fl (lose m (DetectLosses fl a m time r largest acked).2) (DetectLosses fl a m time r largest acked).1.

Lemma watching_same m a a' :
  watching m a → least_in_flight a' = least_in_flight a → packet_number_space a' = packet_number_space a → watching m a'.
Proof. unfold watching. by intros ? -> ->. Qed.

Lemma spurious_keeps fl a m time r p :
  least_in_flight (SpuriousRetransmitDetected fl a m time r p) = least_in_flight a
  ∧ packet_number_space (SpuriousRetransmitDetected fl a m time r p) = packet_number_space a.
Proof. unfold SpuriousRetransmitDetected. by repeat case_match. Qed.

Lemma watched_watching fl m a : watched fl m a → watching m a.
Proof.
  induction 1 as [m ty s Hm|m m' a _ IH Hs|m a ty _ IH|m a time r p _ IH|m a time r largest acked _ IH Ht Ha].
  - apply watching_start; [by apply tracked_inv|done].
  - by apply (watching_step m).
  - by apply (watching_same m a).
  - by apply (watching_same m a); [|apply spurious_keeps..].
  - pose proof (lost_in_map fl m a time r largest acked IH Ht Ha) as Hl.
    pose proof (detect_keeps_watching fl m a time r largest acked (DetectLosses fl a m time r largest acked).2 IH Ht Ha) as Hd.
    destruct (DetectLosses fl a m time r largest acked) as [a' lost]. by apply Hd.
Qed.

(** ** Theorems *)

(** C20. In every run, [DetectLosses] gives the same result as a judgement of all packets of the map,
    although it starts at the least packet in flight, stops at the first packet that waits for the
    timer, and returns at once when no packet is missing. The packets found lost are exactly those of
    the space in flight up to the largest acked one that are overdue: three later packets acked (two
    in the lazy mode, not counting the last one), or too old. Each is found once, in order. The
    timeout is the deadline of the oldest packet of the space that is left, when the timer is used. *)
Theorem DetectLosses_judges_all_packets fl m a time r largest acked :
  watched fl m a → times_ordered m → newly_acked fl m largest acked →
  let '(a', lost) := DetectLosses fl a m time r largest acked in
  (∀ p b, mk_lost p b ∈ lost ↔ ∃ i, overdue m a time r largest p i ∧ b = bytes_sent i)
  ∧ StronglySorted (λ x y, lost_packet_number x < lost_packet_number y) lost
  ∧ (use_timer m a largest = true → ∀ p i, considered m a largest p i → ¬ overdue m a time r largest p i →
       time < GetLossTimeout a' <= sent_time i + loss_delay r (reordering_shift a))
  ∧ (GetLossTimeout a' = 0 ∨ ∃ p i, considered m a largest p i ∧ ¬ overdue m a time r largest p i
       ∧ GetLossTimeout a' = sent_time i + loss_delay r (reordering_shift a)).
Proof.
  intros Hw%watched_watching Ht Ha. pose proof (DetectLosses_ok fl m a time r largest acked Hw Ht Ha) as Hd.
  destruct (DetectLosses fl a m time r largest acked) as [a' lost]. destruct Hd as (H1&H2&H3&H4&_).
  split; [done|]. split; [done|]. split; [|done]. intros Hu p i Hc Hn. exact (proj2 (H3 p i Hc Hn) Hu).
Qed.

Lemma widen_spec fuel max extra shift :
  0 <= shift → (Z.to_nat shift <= fuel)%nat →
  let s := widen fuel max extra shift in
  0 <= s <= shift ∧ (s = 0 ∨ extra < Z.shiftr max s) ∧ ∀ k, s < k <= shift → Z.shiftr max k <= extra.
Proof.
  revert shift. induction fuel as [|fuel IH]; intros shift Hs Hf; cbn [widen].
  { assert (shift = 0) by lia. split; [lia|]. split; [by left|]. intros k Hk. lia. }
  destruct (Z.leb_spec (Z.shiftr max shift) extra) as [Hle|Hlt]; cbn [andb].
  2:{ split; [lia|]. split; [by right|]. intros k Hk. lia. }
  destruct (Z.ltb_spec 0 shift).
  2:{ split; [lia|]. split; [left; lia|]. intros k Hk. lia. }
  specialize (IH (shift - 1) ltac:(lia) ltac:(lia)). cbn zeta in *. destruct IH as (I1&I2&I3).
  split; [lia|]. split; [done|]. intros k Hk. destruct (Z.eq_dec k shift) as [->|]; [done|]. apply I3. lia.
Qed.

Lemma widen_old_spec fuel max extra shift :
  0 < shift → (Z.to_nat shift <= fuel)%nat →
  let s := widen_old fuel max extra shift in
  0 <= s < shift ∧ (s = 0 ∨ extra <= Z.shiftr max (s + 1)) ∧ ∀ k, s + 1 < k <= shift → Z.shiftr max k < extra.
Proof.
  revert shift. induction fuel as [|fuel IH]; intros shift Hs Hf; cbn [widen_old]; [lia|].
  destruct (Z.ltb_spec (Z.shiftr max shift) extra) as [Hlt|Hge]; cbn [andb].
  2:{ split; [lia|]. split; [right; by replace (shift - 1 + 1) with shift by lia|]. intros k Hk. lia. }
  destruct (Z.ltb_spec 0 (shift - 1)).
  2:{ split; [lia|]. split; [left; lia|]. intros k Hk. by replace k with shift by lia. }
  specialize (IH (shift - 1) ltac:(lia) ltac:(lia)). cbn zeta in *. destruct IH as (I1&I2&I3).
  split; [lia|]. split; [done|]. intros k Hk. destruct (Z.eq_dec k shift) as [->|]; [done|]. apply I3. lia.
Qed.

(** The loops of [SpuriousRetransmitDetected] terminate, and in the adaptive mode they widen the
    time a packet is given by as little as needed: the shift falls to the largest one that allows
    for the extra time after which the spurious retransmission was detected, or to zero, so that the
    loss delay then exceeds one RTT and that time. Without [quic_fix_adaptive_time_loss] the shift
    falls one further, at most once per retransmission sent. In the other modes nothing changes. *)
Theorem SpuriousRetransmitDetected_widens fl a m time r p :
  0 <= reordering_shift a →
  let a' := SpuriousRetransmitDetected fl a m time r p in
  let extra := time - sent_time_of m p in
  let s := reordering_shift a in let s' := reordering_shift a' in
  (loss_type a ≠ kAdaptiveTime ∨ s = 0 → a' = a)
  ∧ (loss_type a = kAdaptiveTime → 0 < s →
       (quic_fix_adaptive_time_loss fl = true →
          0 <= s' <= s ∧ (s' = 0 ∨ max_rtt r + extra < loss_delay r s')
          ∧ ∀ k, s' < k <= s → Z.shiftr (max_rtt r) k <= extra)
       ∧ (quic_fix_adaptive_time_loss fl = false →
            if IsInitialized (largest_sent_on_spurious_retransmit a) && (p <=? largest_sent_on_spurious_retransmit a)
            then a' = a
            else 0 <= s' < s ∧ (s' = 0 ∨ extra <= Z.shiftr (max_rtt r) (s' + 1))
              ∧ (∀ k, s' + 1 < k <= s → Z.shiftr (max_rtt r) k < extra)
              ∧ largest_sent_on_spurious_retransmit a' = largest_sent_packet m)).
Proof.
  intros Hs. cbn zeta. unfold SpuriousRetransmitDetected. split.
  - intros [Hn|Hz].
    + by rewrite bool_decide_eq_false_2.
    + rewrite Hz. cbn. by rewrite orb_true_r.
  - intros Hty Hpos. rewrite (bool_decide_eq_true_2 _ Hty). rewrite (proj2 (Z.eqb_neq _ _)) by lia. cbn [negb orb].
    destruct (quic_fix_adaptive_time_loss fl).
    + split; [intros _|done]. cbn [with_shift reordering_shift].
      destruct (widen_spec (Z.to_nat (reordering_shift a)) (max_rtt r) (time - sent_time_of m p) (reordering_shift a)
        Hs ltac:(lia)) as (H1&H2&H3).
      split; [done|]. split; [|done]. destruct H2 as [H2|H2]; [by left|right]. unfold loss_delay. lia.
    + split; [done|intros _]. destruct (_ && _); [done|].
      cbn [with_shift reordering_shift largest_sent_on_spurious_retransmit].
      destruct (widen_old_spec (Z.to_nat (reordering_shift a)) (max_rtt r) (time - sent_time_of m p) (reordering_shift a)
        ltac:(lia) ltac:(lia)) as (H1&H2&H3). done.
Qed.

(** *** Witnesses *)

(** Packets 1 to 5 are sent and packet 4 is acked: packet 1 is lost. *)
Definition w_flags : flags := mk_flags true false true.
Definition w_send (m : map_t) (p time : Z) : map_t :=
  (AddSentPacket m (w_packet p 100 false [OtherFrame p]) UninitializedPacketNumber NOT_RETRANSMISSION time true).1.1.
Definition w_five : map_t :=
  w_send (w_send (w_send (w_send (w_send w_start 1 100) 2 101) 3 102) 4 103) 5 104.
Definition w_acked : map_t := IncreaseLargestAcked (RemoveFromInFlight w_five 4) 4.
Definition w_rtt : RttStats := mk_rtt 30 20 1000.
Definition w_alg : t := SetPacketNumberSpace (new w_flags kNack) HANDSHAKE_DATA.

Lemma w_send_tracked m p time :
  tracked m → next_packet m <= p < two62 → tracked (w_send m p time).
Proof. intros Hm Hp. apply (tracked_step m); [done|]. apply step_sent. split; [done|]. split; [done|]. by cbn. Defined.

Lemma w_acked_tracked : tracked w_acked.
Proof.
  apply (tracked_step (RemoveFromInFlight w_five 4)); [|apply step_largest_acked].
  apply (tracked_step w_five); [|apply step_in_flight; by vm_compute].
  apply w_send_tracked; [|by vm_compute]. apply w_send_tracked; [|by vm_compute].
  apply w_send_tracked; [|by vm_compute]. apply w_send_tracked; [|by vm_compute].
  apply w_send_tracked; [|by vm_compute]. apply tracked_new.
Defined.

(** Times in order, decided on the list. *)
Definition times_sorted (l : list QuicTransmissionInfo) : bool :=
  forallb (λ n, forallb (λ k,
    match l !! n, l !! k with
    | Some i, Some j => implb (in_flight i && in_flight j) (sent_time i <=? sent_time j)
    | _, _ => true
    end) (seq n (length l - n))) (seq 0 (length l)).

Lemma times_sorted_ordered m : times_sorted (unacked_packets m) = true → times_ordered m.
Proof.
  unfold times_sorted, times_ordered, GetTransmissionInfo, index. intros H p q i j Hpq Hi Hj Hfi Hfj.
  rewrite forallb_forall in H. pose proof (lookup_lt_Some _ _ _ Hi). pose proof (lookup_lt_Some _ _ _ Hj).
  specialize (H (Z.to_nat (p - least_unacked m)) ltac:(apply in_seq; lia)). rewrite forallb_forall in H.
  specialize (H (Z.to_nat (q - least_unacked m)) ltac:(apply in_seq; lia)). rewrite Hi, Hj, Hfi, Hfj in H. cbn in H. lia.
Qed.

Lemma w_newly_acked : newly_acked w_flags w_acked 4 [mk_acked 4 100 0].
Proof.
  split; [by vm_compute|]. split; [repeat constructor|].
  intros q Hq. apply list_elem_of_singleton in Hq as ->. split; [by vm_compute|]. split; [by vm_compute|].
  intros _ i Hi. revert Hi. vm_compute. by intros [= <-].
Defined.

Lemma DetectLosses_judges_all_packets_witness :
  (DetectLosses w_flags w_alg w_acked 200 w_rtt 4 [mk_acked 4 100 0]).2 = [mk_lost 1 100]
  ∧ watched w_flags w_acked w_alg
  ∧ let '(_, lost) := DetectLosses w_flags w_alg w_acked 200 w_rtt 4 [mk_acked 4 100 0] in
    ∀ p b, mk_lost p b ∈ lost ↔ ∃ i, overdue w_acked w_alg 200 w_rtt 4 p i ∧ b = bytes_sent i.
Proof.
  split; [by vm_compute|].
  assert (Hw : watched w_flags w_acked w_alg) by (apply watched_start, w_acked_tracked). split; [exact Hw|].
  pose proof (DetectLosses_judges_all_packets w_flags w_acked w_alg 200 w_rtt 4 [mk_acked 4 100 0] Hw
    (times_sorted_ordered w_acked eq_refl) w_newly_acked) as H.
  destruct (DetectLosses _ _ _ _ _ _ _) as [a' lost]. apply H.
Defined.

Lemma SpuriousRetransmitDetected_widens_witness :
  let a := SetPacketNumberSpace (new w_flags kAdaptiveTime) HANDSHAKE_DATA in
  let r := mk_rtt 1000 800 900 in
  reordering_shift (SpuriousRetransmitDetected w_flags a w_acked 305 r 4) = 2
  ∧ 0 <= reordering_shift (SpuriousRetransmitDetected w_flags a w_acked 305 r 4) <= 4.
Proof.
  cbn zeta. split; [by vm_compute|].
  apply (SpuriousRetransmitDetected_widens w_flags
    (SetPacketNumberSpace (new w_flags kAdaptiveTime) HANDSHAKE_DATA) w_acked 305 (mk_rtt 1000 800 900) 4); by vm_compute.
Defined.

End GeneralLossAlgorithm.

(** One algorithm per packet number space. *)
Module UberLossAlgorithm.
Import PacketNumber.
Import UnackedPacketMap.
Import GeneralLossAlgorithm.
Abbreviation map_t := UnackedPacketMap.t.

Record t := mk {
  uber_loss_type : LossDetectionType;
  initial_algorithm : GeneralLossAlgorithm.t;
  handshake_algorithm : GeneralLossAlgorithm.t;
  application_algorithm : GeneralLossAlgorithm.t;
}.

Definition SetLossDetectionType (fl : flags) (u : t) (ty : LossDetectionType) : t :=
  mk ty (GeneralLossAlgorithm.SetLossDetectionType fl (initial_algorithm u) ty)
    (GeneralLossAlgorithm.SetLossDetectionType fl (handshake_algorithm u) ty)
    (GeneralLossAlgorithm.SetLossDetectionType fl (application_algorithm u) ty).

Definition new (fl : flags) (ty : LossDetectionType) : t :=
  let a := GeneralLossAlgorithm.new fl kNack in
  let u := SetLossDetectionType fl (mk ty a a a) ty in
  mk ty (SetPacketNumberSpace (initial_algorithm u) INITIAL_DATA)
    (SetPacketNumberSpace (handshake_algorithm u) HANDSHAKE_DATA)
    (SetPacketNumberSpace (application_algorithm u) APPLICATION_DATA).

Definition algorithm (u : t) (s : PacketNumberSpace) : GeneralLossAlgorithm.t :=
  match s with
  | INITIAL_DATA => initial_algorithm u
  | HANDSHAKE_DATA => handshake_algorithm u
  | _ => application_algorithm u
  end.

(** One round of the loop of [DetectLosses]. *)
Definition detect_space (fl : flags) (m : map_t) (time : Z) (r : RttStats) (acked : list AckedPacket)
    (s : PacketNumberSpace) (a : GeneralLossAlgorithm.t) : GeneralLossAlgorithm.t * list LostPacket :=
  let largest_acked := GetLargestAckedOfPacketNumberSpace m s in
  if negb (IsInitialized largest_acked) || (largest_acked <? GetLeastUnacked m) then (a, [])
  else GeneralLossAlgorithm.DetectLosses fl a m time r largest_acked acked.

Definition DetectLosses (fl : flags) (u : t) (m : map_t) (time : Z) (r : RttStats) (acked : list AckedPacket)
    : t * list LostPacket :=
  let '(a1, l1) := detect_space fl m time r acked INITIAL_DATA (initial_algorithm u) in
  let '(a2, l2) := detect_space fl m time r acked HANDSHAKE_DATA (handshake_algorithm u) in
  let '(a3, l3) := detect_space fl m time r acked APPLICATION_DATA (application_algorithm u) in
  (mk (uber_loss_type u) a1 a2 a3, l1 ++ l2 ++ l3).

Definition set_algorithm (u : t) (s : PacketNumberSpace) (a : GeneralLossAlgorithm.t) : t :=
  match s with
  | INITIAL_DATA => mk (uber_loss_type u) a (handshake_algorithm u) (application_algorithm u)
  | HANDSHAKE_DATA => mk (uber_loss_type u) (initial_algorithm u) a (application_algorithm u)
  | APPLICATION_DATA => mk (uber_loss_type u) (initial_algorithm u) (handshake_algorithm u) a
  | NUM_PACKET_NUMBER_SPACES => u
  end.

Definition SpuriousRetransmitDetected (fl : flags) (u : t) (m : map_t) (time : Z) (r : RttStats)
    (spurious_retransmission : Z) : t :=
  match GetTransmissionInfo m spurious_retransmission with
  | None => u
  | Some i =>
      let s := GetPacketNumberSpace m (encryption_level i) in
      set_algorithm u s
        (GeneralLossAlgorithm.SpuriousRetransmitDetected fl (algorithm u s) m time r spurious_retransmission)
  end.

Definition earlier_timeout (loss_timeout timeout : Z) : Z :=
  if loss_timeout =? 0 then timeout else if timeout =? 0 then loss_timeout else Z.min loss_timeout timeout.

Definition GetLossTimeout (u : t) : Z :=
  fold_left (λ n a, earlier_timeout n (GeneralLossAlgorithm.GetLossTimeout a))
    [initial_algorithm u; handshake_algorithm u; application_algorithm u] 0.

Definition spaces : list PacketNumberSpace := [INITIAL_DATA; HANDSHAKE_DATA; APPLICATION_DATA].

(** Whether losses are looked for in a space. *)
Definition active (m : map_t) (s : PacketNumberSpace) : Prop :=
  IsInitialized (GetLargestAckedOfPacketNumberSpace m s) = true
  ∧ least_unacked m <= GetLargestAckedOfPacketNumberSpace m s.

(** The runs: as for one space, with the packets lost in all spaces leaving the flight together. *)
Inductive watched_all (fl : flags) : map_t → t → Prop :=
| watched_all_start m ty : tracked m → watched_all fl m (new fl ty)
| watched_all_map m m' u : watched_all fl m u → map_step m m' → watched_all fl m' u
| watched_all_type m u ty : watched_all fl m u → watched_all fl m (SetLossDetectionType fl u ty)
| watched_all_spurious m u time r p : watched_all fl m u → watched_all fl m (SpuriousRetransmitDetected fl u m time r p)
| watched_all_detect m u time r acked :
    watched_all fl m u → times_ordered m →
    (∀ s, s ∈ spaces → active m s → newly_acked fl m (GetLargestAckedOfPacketNumberSpace m s) acked) →
    watched_all fl (lose m (DetectLosses fl u m time r acked).2) (DetectLosses fl u m time r acked).1.

Definition all_watching (m : map_t) (u : t) : Prop :=
  ∀ s, s ∈ spaces → watching m (algorithm u s) ∧ packet_number_space (algorithm u s) = s.

Lemma in_spaces s : s ∈ spaces ↔ s = INITIAL_DATA ∨ s = HANDSHAKE_DATA ∨ s = APPLICATION_DATA.
Proof. unfold spaces. rewrite !elem_of_cons, elem_of_nil. naive_solver. Qed.

Lemma detect_space_lost fl m a time r acked s :
  watching m a → times_ordered m →
  (active m s → newly_acked fl m (GetLargestAckedOfPacketNumberSpace m s) acked) →
  let '(a', lost) := detect_space fl m time r acked s a in
  (∀ p b, mk_lost p b ∈ lost ↔ ∃ i, active m s
     ∧ overdue m a time r (GetLargestAckedOfPacketNumberSpace m s) p i ∧ b = bytes_sent i)
  ∧ packet_number_space a' = packet_number_space a
  ∧ ∀ others, (∀ x, x ∈ lost → x ∈ others) → (∀ x, x ∈ others → least_unacked m <= lost_packet_number x) →
      watching (lose m others) a'.
Proof.
  intros Hw Ht Ha. unfold detect_space, GetLeastUnacked. set (largest := GetLargestAckedOfPacketNumberSpace m s) in *.
  assert (Hno : ¬ active m s →
    (∀ p b, mk_lost p b ∈ [] ↔ ∃ i, active m s ∧ overdue m a time r largest p i ∧ b = bytes_sent i)
    ∧ packet_number_space a = packet_number_space a
    ∧ ∀ others, (∀ x, x ∈ [] → x ∈ others) → (∀ x, x ∈ others → least_unacked m <= lost_packet_number x) →
        watching (lose m others) a).
  { intros Hna. split; [|split; [done|intros others _; by apply lose_keeps_watching]].
    intros p b. rewrite elem_of_nil. naive_solver. }
  destruct (IsInitialized largest) eqn:Ei; cbn [negb orb].
  2:{ apply Hno. intros [H _]. fold largest in H. congruence. }
  destruct (Z.ltb_spec largest (least_unacked m)).
  { apply Hno. intros [_ H']. fold largest in H'. lia. }
  assert (Hact : active m s) by done. specialize (Ha Hact).
  pose proof (DetectLosses_ok fl m a time r largest acked Hw Ht Ha) as Hd.
  pose proof (λ others, detect_keeps_watching fl m a time r largest acked others Hw Ht Ha) as Hk.
  destruct (GeneralLossAlgorithm.DetectLosses fl a m time r largest acked) as [a' lost].
  destruct Hd as (H1&_&_&_&_&H6). split; [|done]. intros p b. rewrite H1. naive_solver.
Qed.

Lemma detect_all fl m u time r acked :
  all_watching m u → times_ordered m →
  (∀ s, s ∈ spaces → active m s → newly_acked fl m (GetLargestAckedOfPacketNumberSpace m s) acked) →
  let '(u', lost) := DetectLosses fl u m time r acked in
  (∀ p b, mk_lost p b ∈ lost ↔ ∃ s i, s ∈ spaces ∧ active m s
     ∧ overdue m (algorithm u s) time r (GetLargestAckedOfPacketNumberSpace m s) p i ∧ b = bytes_sent i)
  ∧ all_watching (lose m lost) u'.
Proof.
  intros Hu Ht Ha. unfold DetectLosses.
  destruct (Hu INITIAL_DATA ltac:(apply in_spaces; auto)) as [W1 S1], (Hu HANDSHAKE_DATA ltac:(apply in_spaces; auto)) as [W2 S2],
    (Hu APPLICATION_DATA ltac:(apply in_spaces; auto)) as [W3 S3]. cbn [algorithm] in *.
  pose proof (detect_space_lost fl m _ time r acked INITIAL_DATA W1 Ht (Ha INITIAL_DATA ltac:(apply in_spaces; auto))) as D1.
  pose proof (detect_space_lost fl m _ time r acked HANDSHAKE_DATA W2 Ht (Ha HANDSHAKE_DATA ltac:(apply in_spaces; auto))) as D2.
  pose proof (detect_space_lost fl m _ time r acked APPLICATION_DATA W3 Ht (Ha APPLICATION_DATA ltac:(apply in_spaces; auto))) as D3.
  destruct (detect_space _ _ _ _ _ _ (initial_algorithm u)) as [a1 l1], (detect_space _ _ _ _ _ _ (handshake_algorithm u)) as [a2 l2],
    (detect_space _ _ _ _ _ _ (application_algorithm u)) as [a3 l3].
  destruct D1 as (L1&P1&K1), D2 as (L2&P2&K2), D3 as (L3&P3&K3).
  assert (Hin : ∀ p b, mk_lost p b ∈ l1 ++ l2 ++ l3 ↔ ∃ s i, s ∈ spaces ∧ active m s
    ∧ overdue m (algorithm u s) time r (GetLargestAckedOfPacketNumberSpace m s) p i ∧ b = bytes_sent i).
  { intros p b. rewrite !elem_of_app, L1, L2, L3. setoid_rewrite in_spaces. split.
    - intros [(i&?)|[(i&?)|(i&?)]]; [exists INITIAL_DATA, i|exists HANDSHAKE_DATA, i|exists APPLICATION_DATA, i]; auto.
    - intros (s&i&[->|[->| ->]]&?); eauto. }
  split; [done|].
  assert (Hr : ∀ x, x ∈ l1 ++ l2 ++ l3 → least_unacked m <= lost_packet_number x).
  { intros [p b] Hx. apply Hin in Hx as (s&i&_&_&[[Hp _] _]&_). cbn. lia. }
  intros s [->|[->| ->]]%in_spaces;
    cbn [algorithm initial_algorithm handshake_algorithm application_algorithm]; (split; [|congruence]).
  - apply K1; [|done]. intros x Hx. rewrite !elem_of_app. auto.
  - apply K2; [|done]. intros x Hx. rewrite !elem_of_app. auto.
  - apply K3; [|done]. intros x Hx. rewrite !elem_of_app. auto.
Qed.

Lemma watched_all_watching fl m u : watched_all fl m u → all_watching m u.
Proof.
  induction 1 as [m ty Hm|m m' u _ IH Hs|m u ty _ IH|m u time r p _ IH|m u time r acked _ IH Ht Ha].
  - intros s [->|[->| ->]]%in_spaces; (split; [|done]); (apply watching_start; [by apply tracked_inv|done]).
  - intros s Hin. destruct (IH s Hin). split; [by apply (watching_step m)|done].
  - intros s Hin. destruct (IH s Hin) as [Hw Hs]. apply in_spaces in Hin as [->|[->| ->]];
      (split; [by apply (watching_same m _ _ Hw)|done]).
  - unfold SpuriousRetransmitDetected. destruct (GetTransmissionInfo m p) as [i|]; [|done].
    set (s0 := GetPacketNumberSpace m _).
    intros s Hin. destruct (IH s Hin) as [Hw Hs].
    pose proof (spurious_keeps fl (algorithm u s) m time r p) as [K1 K2].
    apply in_spaces in Hin as [->|[->| ->]]; destruct s0; cbn [set_algorithm algorithm initial_algorithm handshake_algorithm application_algorithm] in *;
      (split; [first [done|by apply (watching_same m _ _ Hw)]|congruence]).
  - pose proof (detect_all fl m u time r acked IH Ht Ha) as Hd.
    destruct (DetectLosses fl u m time r acked) as [u' lost]. apply Hd.
Qed.

(** Detection in all packet number spaces: in every run the packets found lost are, for each space
    in which a packet that is still tracked was acked, the packets of this space in flight that are
    overdue by the largest packet acked in it; packets acked in other spaces do not disturb. The
    timeout is the earliest one set for a space, and none is set only if no space has one. *)
Theorem losses_of_all_spaces fl m u time r acked :
  watched_all fl m u → times_ordered m →
  (∀ s, s ∈ spaces → active m s → newly_acked fl m (GetLargestAckedOfPacketNumberSpace m s) acked) →
  let '(u', lost) := DetectLosses fl u m time r acked in
  (∀ p b, mk_lost p b ∈ lost ↔ ∃ s i, s ∈ spaces ∧ active m s
     ∧ overdue m (algorithm u s) time r (GetLargestAckedOfPacketNumberSpace m s) p i ∧ b = bytes_sent i)
  ∧ (∀ s, s ∈ spaces → packet_number_space (algorithm u s) = s)
  ∧ (GetLossTimeout u' = 0 ↔ ∀ s, s ∈ spaces → GeneralLossAlgorithm.GetLossTimeout (algorithm u' s) = 0)
  ∧ (∀ s, s ∈ spaces → GeneralLossAlgorithm.GetLossTimeout (algorithm u' s) ≠ 0 →
       GetLossTimeout u' <= GeneralLossAlgorithm.GetLossTimeout (algorithm u' s)).
Proof.
  intros Hw%watched_all_watching Ht Ha. pose proof (detect_all fl m u time r acked Hw Ht Ha) as Hd.
  destruct (DetectLosses fl u m time r acked) as [u' lost]. destruct Hd as [Hl _]. split; [done|].
  split; [intros s Hs; by apply Hw|].
  unfold GetLossTimeout, earlier_timeout. cbn [fold_left].
  destruct (Z.eqb_spec 0 0) as [_|]; [|done].
  setoid_rewrite in_spaces.
  set (x := GeneralLossAlgorithm.GetLossTimeout (initial_algorithm u')).
  set (y := GeneralLossAlgorithm.GetLossTimeout (handshake_algorithm u')).
  set (z := GeneralLossAlgorithm.GetLossTimeout (application_algorithm u')).
  split; [split|].
  - intros E s [->|[->| ->]]; cbn [algorithm]; fold x y z; repeat case_match; lia.
  - intros H. pose proof (H INITIAL_DATA ltac:(auto)) as Hx. pose proof (H HANDSHAKE_DATA ltac:(auto)) as Hy.
    pose proof (H APPLICATION_DATA ltac:(auto)) as Hz. cbn [algorithm] in *. fold x in Hx. fold y in Hy. fold z in Hz.
    by rewrite Hx, Hy, Hz.
  - intros s [->|[->| ->]]; cbn [algorithm]; fold x y z; repeat case_match; lia.
Qed.

Definition w_space_acked : map_t := MaybeUpdateLargestAckedOfPacketNumberSpace w_acked HANDSHAKE_DATA 4.

Lemma losses_of_all_spaces_witness :
  (DetectLosses w_flags (new w_flags kNack) w_space_acked 200 w_rtt [mk_acked 4 100 0]).2 = [mk_lost 1 100]
  ∧ let '(_, lost) := DetectLosses w_flags (new w_flags kNack) w_space_acked 200 w_rtt [mk_acked 4 100 0] in
    ∀ p b, mk_lost p b ∈ lost ↔ ∃ s i, s ∈ spaces ∧ active w_space_acked s
     ∧ overdue w_space_acked (algorithm (new w_flags kNack) s) 200 w_rtt
         (GetLargestAckedOfPacketNumberSpace w_space_acked s) p i ∧ b = bytes_sent i.
Proof.
  split; [by vm_compute|].
  assert (Hw : watched_all w_flags w_space_acked (new w_flags kNack)).
  { apply watched_all_start. apply (tracked_step w_acked); [apply w_acked_tracked|apply step_space_acked]. }
  assert (Ha : ∀ s, s ∈ spaces → active w_space_acked s →
    newly_acked w_flags w_space_acked (GetLargestAckedOfPacketNumberSpace w_space_acked s) [mk_acked 4 100 0]).
  { intros s [->|[->| ->]]%in_spaces [Hact _]; try (by vm_compute in Hact). exact w_newly_acked. }
  pose proof (losses_of_all_spaces w_flags w_space_acked (new w_flags kNack) 200 w_rtt [mk_acked 4 100 0] Hw
    (times_sorted_ordered w_space_acked eq_refl) Ha) as H.
  destruct (DetectLosses _ _ _ _ _ _) as [u' lost]. apply H.
Defined.

End UberLossAlgorithm.
