(* ===== verification/LossInterface.v ===== *)
(** [LossDetectionInterface] (quic/core/congestion_control/loss_detection_interface.h): what the sent packet manager
    asks of loss detection, with the laws it relies on, and the two algorithms that implement it. *)

From S2P Require Import Prelude OrderedSet IntervalSet PacketNumber UnackedPacketMap LossDetection.

Module LossDetectionInterface.
Import PacketNumber.
Import UnackedPacketMap.
Import GeneralLossAlgorithm.

Class ops (A : Type) := {
  GetLossDetectionType : A → LossDetectionType;
  DetectLosses : A → map_t → Z → RttStats → Z → list AckedPacket → A * list LostPacket;
  GetLossTimeout : A → Z;
  SpuriousRetransmitDetected : A → map_t → Z → RttStats → Z → A;
}.

(** The packets reported lost are in flight, and each is reported once. *)
Class laws (A : Type) `{ops A} := {
  sane : A → Prop;
  sane_detect a m time r largest acked : sane a → sane (DetectLosses a m time r largest acked).1;
  sane_spurious a m time r p : sane a → sane (SpuriousRetransmitDetected a m time r p);
  lost_in_flight a m time r largest acked x :
    Inv m → sane a → x ∈ (DetectLosses a m time r largest acked).2 →
    least_unacked m <= lost_packet_number x
    ∧ ∃ i, GetTransmissionInfo m (lost_packet_number x) = Some i ∧ in_flight i = true ∧ bytes_lost x = bytes_sent i;
  lost_once a m time r largest acked :
    Inv m → sane a → NoDup (map lost_packet_number (DetectLosses a m time r largest acked).2);
}.

#[global] Instance general_ops (fl : flags) : ops GeneralLossAlgorithm.t := {|
  GetLossDetectionType := loss_type;
  DetectLosses := GeneralLossAlgorithm.DetectLosses fl;
  GetLossTimeout := GeneralLossAlgorithm.GetLossTimeout;
  SpuriousRetransmitDetected := GeneralLossAlgorithm.SpuriousRetransmitDetected fl;
|}.

#[global] Instance uber_ops (fl : flags) : ops UberLossAlgorithm.t := {|
  GetLossDetectionType := UberLossAlgorithm.uber_loss_type;
  DetectLosses u m time r largest acked := UberLossAlgorithm.DetectLosses fl u m time r acked;
  GetLossTimeout := UberLossAlgorithm.GetLossTimeout;
  SpuriousRetransmitDetected := UberLossAlgorithm.SpuriousRetransmitDetected fl;
|}.

(** ** The scan reports only packets judged lost *)

Lemma scan_sound f largest l p least timeout x :
  0 <= p → p + zlen l < two64 → x ∈ (scan f largest l p least timeout).1.1 →
  p <= lost_packet_number x ∧ ∃ i, l !! Z.to_nat (lost_packet_number x - p) = Some i
    ∧ f (lost_packet_number x) i = Lost ∧ bytes_lost x = bytes_sent i.
Proof.
  revert p least timeout. induction l as [|i l IH]; intros p least timeout Hp Hb Hx; cbn [scan] in Hx.
  { by apply elem_of_nil in Hx. }
  rewrite zlen_cons in Hb. pose proof (zlen_nonneg l).
  assert (Hnext : ∀ least timeout, x ∈ (scan f largest l (p + 1) least timeout).1.1 →
    p <= lost_packet_number x ∧ ∃ j, (i :: l) !! Z.to_nat (lost_packet_number x - p) = Some j
      ∧ f (lost_packet_number x) j = Lost ∧ bytes_lost x = bytes_sent j).
  { intros least' timeout' Hin. destruct (IH (p + 1) least' timeout' ltac:(lia) ltac:(lia) Hin) as (H1&j&Hj&H2).
    split; [lia|]. exists j. split; [|done].
    by replace (Z.to_nat (lost_packet_number x - p)) with (S (Z.to_nat (lost_packet_number x - (p + 1)))) by lia. }
  rewrite !add_small in Hx by (unfold two64 in *; lia).
  destruct (largest <? p); [by apply elem_of_nil in Hx|]. destruct (f p i) eqn:Ef.
  - by eapply Hnext.
  - specialize (Hnext least timeout). destruct (scan f largest l (p + 1) least timeout) as [[lost least'] timeout'].
    apply elem_of_cons in Hx as [->|Hx]; [|by apply Hnext]. cbn. rewrite Z.sub_diag. split; [lia|]. exists i. done.
  - by apply elem_of_nil in Hx.
  - by eapply Hnext.
Qed.

Lemma scan_once f largest l p least timeout :
  0 <= p → p + zlen l < two64 → NoDup (map lost_packet_number (scan f largest l p least timeout).1.1).
Proof.
  revert p least timeout. induction l as [|i l IH]; intros p least timeout Hp Hb; cbn [scan].
  { constructor. }
  rewrite zlen_cons in Hb. pose proof (zlen_nonneg l). rewrite !add_small by (unfold two64 in *; lia).
  assert (Hnext : ∀ least timeout, NoDup (map lost_packet_number (scan f largest l (p + 1) least timeout).1.1))
    by (intros; apply IH; lia).
  destruct (largest <? p); [constructor|]. destruct (f p i); [done| |constructor|done].
  specialize (Hnext least timeout). pose proof (λ x, scan_sound f largest l (p + 1) least timeout x ltac:(lia) ltac:(lia)) as Hs.
  destruct (scan f largest l (p + 1) least timeout) as [[lost least'] timeout']. cbn [fst map] in *.
  constructor; [|done]. intros (x&E&Hx)%list_elem_of_fmap. destruct (Hs x Hx) as [Hlt _]. cbn in E. lia.
Qed.

Lemma judge_lost_in_flight m a time delay r largest p i :
  judge m a time delay r largest p i = Lost →
  GetPacketNumberSpace m (encryption_level i) = packet_number_space a ∧ in_flight i = true.
Proof.
  unfold judge. destruct (bool_decide _) eqn:Eb; [|done]. apply bool_decide_eq_true_1 in Eb.
  destruct (in_flight i); done.
Qed.

(** What one algorithm reports. *)
Lemma detect_sound fl a m time r largest acked :
  Inv m → let lost := (GeneralLossAlgorithm.DetectLosses fl a m time r largest acked).2 in
  (∀ x, x ∈ lost → least_unacked m <= lost_packet_number x
    ∧ ∃ i, GetTransmissionInfo m (lost_packet_number x) = Some i ∧ in_flight i = true ∧ bytes_lost x = bytes_sent i
        ∧ GetPacketNumberSpace m (encryption_level i) = packet_number_space a)
  ∧ NoDup (map lost_packet_number lost).
Proof.
  intros [HG _]. pose proof (ig_least _ _ _ HG) as H1. pose proof (ig_small _ _ _ HG) as H2. cbv zeta.
  unfold GeneralLossAlgorithm.DetectLosses. destruct (_ && _ && _); cbn [snd].
  { split; [intros x Hx; by apply elem_of_nil in Hx|constructor]. }
  set (least := if _ : bool then skip_acked _ _ else _). clearbody least. unfold GetLeastUnacked.
  set (start := if _ : bool then least else _).
  assert (Hstart : least_unacked m <= start ∧ (start <= next_packet m ∨ start = least)).
  { subst start. destruct (_ && _ && _) eqn:E; [|unfold next_packet; pose proof (zlen_nonneg (unacked_packets m)); lia].
    apply andb_true_iff in E as [[_ E]%andb_true_iff _]. apply Z.leb_le in E. lia. }
  set (l := drop _ (unacked_packets m)).
  destruct (decide (l = [])) as [->|Hl].
  { cbn [scan]. split; [intros x Hx; by apply elem_of_nil in Hx|constructor]. }
  assert (Hlen : zlen l = next_packet m - start ∧ start < next_packet m).
  { unfold l, next_packet, zlen in *. rewrite length_drop in *.
    destruct (Nat.le_gt_cases (length (unacked_packets m)) (Z.to_nat (start - least_unacked m))) as [Hge|Hlt].
    - destruct Hl. by apply drop_ge.
    - lia. }
  pose proof (λ f x, scan_sound f largest l start UninitializedPacketNumber 0 x
    ltac:(lia) ltac:(unfold two62, two64 in *; lia)) as Hs.
  pose proof (λ f, scan_once f largest l start UninitializedPacketNumber 0 ltac:(lia) ltac:(unfold two62, two64 in *; lia)) as Ho.
  specialize (Hs (judge m a time (loss_delay r (reordering_shift a)) r largest)).
  specialize (Ho (judge m a time (loss_delay r (reordering_shift a)) r largest)).
  destruct (scan _ _ _ _ _ _) as [[lost least'] timeout]. cbn [fst snd] in *. split; [|done].
  intros x Hx. destruct (Hs x Hx) as (H3&i&Hi&[Esp Ef]%judge_lost_in_flight&Eb). split; [lia|]. exists i. split; [|done].
  unfold l in Hi. rewrite lookup_drop in Hi. unfold GetTransmissionInfo, index.
  by replace (Z.to_nat (lost_packet_number x - least_unacked m))
    with (Z.to_nat (start - least_unacked m) + Z.to_nat (lost_packet_number x - start))%nat by lia.
Qed.

#[global] Instance general_laws (fl : flags) : @laws GeneralLossAlgorithm.t (general_ops fl).
Proof.
  refine {| sane := λ _, True |}; [done|done| |].
  - intros a m time r largest acked x HI _ Hx. cbn in Hx. destruct (detect_sound fl a m time r largest acked HI) as [H _].
    destruct (H x Hx) as (?&i&?&?&?&_). eauto.
  - intros a m time r largest acked HI _. apply (detect_sound fl a m time r largest acked HI).
Defined.

Lemma detect_keeps_space fl a m time r largest acked :
  packet_number_space (GeneralLossAlgorithm.DetectLosses fl a m time r largest acked).1 = packet_number_space a.
Proof.
  unfold GeneralLossAlgorithm.DetectLosses. destruct (_ && _ && _); [done|].
  by destruct (scan _ _ _ _ _ _) as [[? ?] ?].
Qed.

Lemma detect_space_sound fl m time r acked s a :
  Inv m → let '(a', lost) := UberLossAlgorithm.detect_space fl m time r acked s a in
  packet_number_space a' = packet_number_space a
  ∧ (∀ x, x ∈ lost → least_unacked m <= lost_packet_number x
    ∧ ∃ i, GetTransmissionInfo m (lost_packet_number x) = Some i ∧ in_flight i = true ∧ bytes_lost x = bytes_sent i
        ∧ GetPacketNumberSpace m (encryption_level i) = packet_number_space a)
  ∧ NoDup (map lost_packet_number lost).
Proof.
  intros HI. unfold UberLossAlgorithm.detect_space. destruct (_ || _).
  { split; [done|]. split; [intros x Hx; by apply elem_of_nil in Hx|constructor]. }
  set (largest := GetLargestAckedOfPacketNumberSpace m s).
  pose proof (detect_sound fl a m time r largest acked HI) as Hd. pose proof (detect_keeps_space fl a m time r largest acked) as Hk.
  destruct (GeneralLossAlgorithm.DetectLosses fl a m time r largest acked) as [a' lost]. by split.
Qed.

(** Each algorithm looks at its own space. *)
Definition uber_sane (u : UberLossAlgorithm.t) : Prop :=
  packet_number_space (UberLossAlgorithm.initial_algorithm u) = INITIAL_DATA
  ∧ packet_number_space (UberLossAlgorithm.handshake_algorithm u) = HANDSHAKE_DATA
  ∧ packet_number_space (UberLossAlgorithm.application_algorithm u) = APPLICATION_DATA.

Lemma uber_detect fl u m time r acked :
  uber_sane u → uber_sane (UberLossAlgorithm.DetectLosses fl u m time r acked).1
  ∧ (Inv m → let lost := (UberLossAlgorithm.DetectLosses fl u m time r acked).2 in
     (∀ x, x ∈ lost → least_unacked m <= lost_packet_number x
       ∧ ∃ i, GetTransmissionInfo m (lost_packet_number x) = Some i ∧ in_flight i = true ∧ bytes_lost x = bytes_sent i)
     ∧ NoDup (map lost_packet_number lost)).
Proof.
  intros (S1&S2&S3). split.
  - unfold UberLossAlgorithm.DetectLosses, UberLossAlgorithm.detect_space, uber_sane.
    repeat match goal with |- context [if ?b then _ else _] => destruct b end;
      repeat match goal with |- context [GeneralLossAlgorithm.DetectLosses fl ?a m time r ?l acked] =>
        let Hk := fresh in pose proof (detect_keeps_space fl a m time r l acked) as Hk;
        destruct (GeneralLossAlgorithm.DetectLosses fl a m time r l acked); cbn [fst] in Hk end;
      cbn; split_and!; congruence.
  - intros HI. unfold UberLossAlgorithm.DetectLosses.
    pose proof (detect_space_sound fl m time r acked INITIAL_DATA (UberLossAlgorithm.initial_algorithm u) HI) as D1.
    pose proof (detect_space_sound fl m time r acked HANDSHAKE_DATA (UberLossAlgorithm.handshake_algorithm u) HI) as D2.
    pose proof (detect_space_sound fl m time r acked APPLICATION_DATA (UberLossAlgorithm.application_algorithm u) HI) as D3.
    destruct (UberLossAlgorithm.detect_space _ _ _ _ _ INITIAL_DATA _) as [a1 l1],
      (UberLossAlgorithm.detect_space _ _ _ _ _ HANDSHAKE_DATA _) as [a2 l2],
      (UberLossAlgorithm.detect_space _ _ _ _ _ APPLICATION_DATA _) as [a3 l3].
    destruct D1 as (_&L1&N1), D2 as (_&L2&N2), D3 as (_&L3&N3). cbn [snd]. split.
    + intros x. rewrite !elem_of_app. intros [Hx|[Hx|Hx]];
        [destruct (L1 x Hx) as (?&i&?&?&?&_)|destruct (L2 x Hx) as (?&i&?&?&?&_)|destruct (L3 x Hx) as (?&i&?&?&?&_)]; eauto.
    + assert (Hsep : ∀ k1 k2 s1 s2, s1 ≠ s2 →
        (∀ x, x ∈ k1 → ∃ i, GetTransmissionInfo m (lost_packet_number x) = Some i ∧ GetPacketNumberSpace m (encryption_level i) = s1) →
        (∀ x, x ∈ k2 → ∃ i, GetTransmissionInfo m (lost_packet_number x) = Some i ∧ GetPacketNumberSpace m (encryption_level i) = s2) →
        ∀ p, p ∈ map lost_packet_number k1 → p ∉ map lost_packet_number k2).
      { intros k1 k2 s1 s2 Hne H1 H2 p (x&->&Hx)%list_elem_of_fmap (y&E&Hy)%list_elem_of_fmap.
        destruct (H1 x Hx) as (i&Hi&<-), (H2 y Hy) as (j&Hj&<-). rewrite E in Hi. congruence. }
      assert (W1 : ∀ x, x ∈ l1 → ∃ i, GetTransmissionInfo m (lost_packet_number x) = Some i ∧ GetPacketNumberSpace m (encryption_level i) = INITIAL_DATA)
        by (intros x Hx; destruct (L1 x Hx) as (_&i&?&_&_&?); exists i; split; [done|congruence]).
      assert (W2 : ∀ x, x ∈ l2 → ∃ i, GetTransmissionInfo m (lost_packet_number x) = Some i ∧ GetPacketNumberSpace m (encryption_level i) = HANDSHAKE_DATA)
        by (intros x Hx; destruct (L2 x Hx) as (_&i&?&_&_&?); exists i; split; [done|congruence]).
      assert (W3 : ∀ x, x ∈ l3 → ∃ i, GetTransmissionInfo m (lost_packet_number x) = Some i ∧ GetPacketNumberSpace m (encryption_level i) = APPLICATION_DATA)
        by (intros x Hx; destruct (L3 x Hx) as (_&i&?&_&_&?); exists i; split; [done|congruence]).
      rewrite !map_app. apply NoDup_app. split; [done|]. split; [|apply NoDup_app; split; [done|]; split; [|done]].
      * intros p Hp. rewrite elem_of_app. intros [H|H]; [exact (Hsep l1 l2 INITIAL_DATA HANDSHAKE_DATA ltac:(done) W1 W2 p Hp H)|exact (Hsep l1 l3 INITIAL_DATA APPLICATION_DATA ltac:(done) W1 W3 p Hp H)].
      * intros p Hp. exact (Hsep l2 l3 HANDSHAKE_DATA APPLICATION_DATA ltac:(done) W2 W3 p Hp).
Qed.

#[global] Instance uber_laws (fl : flags) : @laws UberLossAlgorithm.t (uber_ops fl).
Proof.
  refine {| sane := uber_sane |}.
  - intros a m time r largest acked Hs. by apply (uber_detect fl a m time r acked).
  - intros a m time r p Hs. cbn. unfold UberLossAlgorithm.SpuriousRetransmitDetected.
    destruct (GetTransmissionInfo m p) as [i|]; [|done]. destruct Hs as (S1&S2&S3).
    destruct (GetPacketNumberSpace m _); (split; [|split]); cbn; rewrite ?(proj2 (spurious_keeps _ _ _ _ _ _)); done.
  - intros a m time r largest acked x HI Hs Hx. exact (proj1 (proj2 (uber_detect fl a m time r acked Hs) HI) x Hx).
  - intros a m time r largest acked HI Hs. exact (proj2 (proj2 (uber_detect fl a m time r acked Hs) HI)).
Defined.

Lemma new_uber_sane fl ty : uber_sane (UberLossAlgorithm.new fl ty).
Proof. done. Qed.
End LossDetectionInterface.
