(* ===== verification/SentPacketManager.v ===== *)
(** [QuicSentPacketManager] (quic/core/quic_sent_packet_manager.cc): which of the packets sent are acknowledged, lost or
    sent again. It drives the unacked packet map, the loss detection (through its interface) and the session, and keeps
    the retransmission timer.

    What the session answers is a function of all that happened before, the log of [effect]s. The clock
    and the values of [RttStats] are an input [env] of the operations; the send algorithm is only told, through the log.
    What the session does in reply (sending again what was lost) are later operations. *)

From S2P Require Import Prelude OrderedSet IntervalSet PacketNumber UnackedPacketMap LossDetection LossInterface.

Module QuicSentPacketManager.
Import PacketNumber.
Import UnackedPacketMap.
Import GeneralLossAlgorithm.

Definition kDefaultRetransmissionTimeMs : Z := 500.
Definition kMaxRetransmissionTimeMs : Z := 60000.
Definition kMaxRetransmissions : Z := 10.
Definition kNumRetransmissionDelaysForPathDegradingDelay : Z := 2.
Definition kMinHandshakeTimeoutMs : Z := 10.

Inductive AckResult :=
  PACKETS_NEWLY_ACKED | NO_PACKETS_NEWLY_ACKED | UNSENT_PACKETS_ACKED | UNACKABLE_PACKETS_ACKED
| PACKETS_ACKED_IN_WRONG_PACKET_NUMBER_SPACE.
Inductive RetransmissionTimeoutMode := RTO_MODE | TLP_MODE | HANDSHAKE_MODE | LOSS_MODE.

(** What the configuration and the flags fix. *)
Record config := mk_config {
  max_tail_loss_probes : Z;
  max_rto_packets : Z;
  enable_half_rtt_tail_loss_probe : bool;
  use_new_rto : bool;
  conservative_handshake_retransmits : bool;
  min_tlp_timeout : Z;
  min_rto_timeout : Z;
  ietf_style_tlp : bool;
  ietf_style_2x_tlp : bool;
  peer_max_ack_delay : Z;
  has_network_change_visitor : bool;
  loss_removes_from_inflight : bool;
  ignore_tlpr_if_no_pending_stream_data : bool;
  quic_optimize_inflight_check : bool;
}.

Record env := mk_env {
  now : Z;
  approximate_now : Z;
  rtt : RttStats;
  mean_deviation : Z;
  SmoothedOrInitialRtt : Z;
  max_ack_delay : Z;
}.

(** What happens outside of the manager. Calls to the session are grouped by the packet they are about; a packet that leaves
    the flight without being acknowledged or marked leaves an entry too. *)
Inductive effect :=
  | PacketSent (packet : SerializedPacket) (time bytes_in_flight : Z) (has_retransmittable_data : bool)
  | PacketAcked (p : Z) (i : QuicTransmissionInfo) (calls : list call)
  | PacketMarked (p : Z) (type : TransmissionType) (i : QuicTransmissionInfo) (calls : list call)
  | Neutered (p : Z)
  | LeftFlight (p : Z)
  | SessionCalls (calls : list call)
  | SpuriousRetransmission (bytes : Z)
  | OnCongestionEvent (rtt_updated : bool) (prior_in_flight event_time : Z) (acked : list AckedPacket)
      (lost : list LostPacket)
  | OnCongestionChange
  | OnPathMtuIncreased (n : Z)
  | UpdateRtt (send_delta ack_delay receive_time : Z)
  | ExpireSmoothedMetrics
  | OnRetransmissionTimeoutReverted
  | OnConnectionMigrationReset
  | AckedTwice (p : Z)
  | UnackableAcked (p : Z).

Record timers := mk_timers {
  first_rto_transmission : Z;
  consecutive_rto_count : Z;
  consecutive_tlp_count : Z;
  consecutive_crypto_retransmission_count : Z;
  pending_timer_transmission_count : Z;
}.

(** The last ACK frame and the processing of one. [acked_packets_iter] is what the reverse iterator has ahead. *)
Record acks := mk_acks {
  packets_acked : list AckedPacket;
  largest_newly_acked : Z;
  rtt_updated : bool;
  last_ack_delay : Z;
  last_largest_acked : Z;
  last_ack_packets : PacketNumberQueue.t;
  acked_packets_iter : list interval;
}.

Section manager.
Context {A : Type} `{LossDetectionInterface.ops A}.

Record t := mk {
  unacked : map_t;
  pending_retransmissions : list (Z * TransmissionType);
  loss_algorithm : A;
  counts : timers;
  ack : acks;
  packets_lost : list LostPacket;
  largest_mtu_acked : Z;
  largest_packet_peer_knows_is_acked : Z;
  largest_packets_peer_knows_is_acked : spaces;
  handshake_confirmed : bool;
}.
Definition io : Type := t * list effect.

Definition new (p : Perspective) (a : A) : t :=
  mk (UnackedPacketMap.new p) [] a (mk_timers UninitializedPacketNumber 0 0 0 0)
    (mk_acks [] UninitializedPacketNumber false 0 UninitializedPacketNumber [] []) [] 0 UninitializedPacketNumber no_packets
    false.

Definition with_map (st : t) m : t :=
  mk m (pending_retransmissions st) (loss_algorithm st) (counts st) (ack st) (packets_lost st) (largest_mtu_acked st)
    (largest_packet_peer_knows_is_acked st) (largest_packets_peer_knows_is_acked st) (handshake_confirmed st).
Definition with_pending (st : t) l : t :=
  mk (unacked st) l (loss_algorithm st) (counts st) (ack st) (packets_lost st) (largest_mtu_acked st)
    (largest_packet_peer_knows_is_acked st) (largest_packets_peer_knows_is_acked st) (handshake_confirmed st).
Definition with_loss (st : t) a lost : t :=
  mk (unacked st) (pending_retransmissions st) a (counts st) (ack st) lost (largest_mtu_acked st)
    (largest_packet_peer_knows_is_acked st) (largest_packets_peer_knows_is_acked st) (handshake_confirmed st).
Definition with_counts (st : t) c : t :=
  mk (unacked st) (pending_retransmissions st) (loss_algorithm st) c (ack st) (packets_lost st) (largest_mtu_acked st)
    (largest_packet_peer_knows_is_acked st) (largest_packets_peer_knows_is_acked st) (handshake_confirmed st).
Definition with_ack (st : t) a : t :=
  mk (unacked st) (pending_retransmissions st) (loss_algorithm st) (counts st) a (packets_lost st) (largest_mtu_acked st)
    (largest_packet_peer_knows_is_acked st) (largest_packets_peer_knows_is_acked st) (handshake_confirmed st).
Definition with_mtu (st : t) n : t :=
  mk (unacked st) (pending_retransmissions st) (loss_algorithm st) (counts st) (ack st) (packets_lost st) n
    (largest_packet_peer_knows_is_acked st) (largest_packets_peer_knows_is_acked st) (handshake_confirmed st).
Definition with_peer_knows (st : t) p a : t :=
  mk (unacked st) (pending_retransmissions st) (loss_algorithm st) (counts st) (ack st) (packets_lost st)
    (largest_mtu_acked st) p a (handshake_confirmed st).
Definition with_confirmed (st : t) b : t :=
  mk (unacked st) (pending_retransmissions st) (loss_algorithm st) (counts st) (ack st) (packets_lost st)
    (largest_mtu_acked st) (largest_packet_peer_knows_is_acked st) (largest_packets_peer_knows_is_acked st) b.

Definition log (s : io) (l : list effect) : io := (s.1, s.2 ++ l).
Definition on_map (f : map_t → map_t) (s : io) : io := (with_map s.1 (f (unacked s.1)), s.2).
Definition decides (s : io) : bool := session_decides_what_to_write (unacked s.1).

(** The parts of the acknowledgement state. *)
Definition set_acked (a : acks) l : acks :=
  mk_acks l (largest_newly_acked a) (rtt_updated a) (last_ack_delay a) (last_largest_acked a) (last_ack_packets a)
    (acked_packets_iter a).
Definition set_newly (a : acks) p : acks :=
  mk_acks (packets_acked a) p (rtt_updated a) (last_ack_delay a) (last_largest_acked a) (last_ack_packets a)
    (acked_packets_iter a).
Definition set_last (a : acks) p q : acks :=
  mk_acks (packets_acked a) (largest_newly_acked a) (rtt_updated a) (last_ack_delay a) p q (acked_packets_iter a).
Definition set_iter (a : acks) l it : acks :=
  mk_acks l (largest_newly_acked a) (rtt_updated a) (last_ack_delay a) (last_largest_acked a) (last_ack_packets a) it.

(** The parts of the counters. *)
Definition set_rto (c : timers) first n : timers :=
  mk_timers first n (consecutive_tlp_count c) (consecutive_crypto_retransmission_count c)
    (pending_timer_transmission_count c).
Definition set_tlp (c : timers) n : timers :=
  mk_timers (first_rto_transmission c) (consecutive_rto_count c) n (consecutive_crypto_retransmission_count c)
    (pending_timer_transmission_count c).
Definition set_crypto_count (c : timers) n : timers :=
  mk_timers (first_rto_transmission c) (consecutive_rto_count c) (consecutive_tlp_count c) n
    (pending_timer_transmission_count c).
Definition set_pending_timer (c : timers) n : timers :=
  mk_timers (first_rto_transmission c) (consecutive_rto_count c) (consecutive_tlp_count c)
    (consecutive_crypto_retransmission_count c) n.

Context (cfg : config).
(** The session's answers, given all that happened before. *)
Context (acks_new_data : list effect → list call → QuicFrame → bool) (IsFrameOutstanding : list effect → QuicFrame → bool).
Context (HasUnackedCryptoData : list effect → bool).

Definition frames_outstanding (s : io) (i : QuicTransmissionInfo) : bool :=
  HasRetransmittableFrames (IsFrameOutstanding s.2) (unacked s.1) i.

(** ** Marking packets *)

(** A linked hash map of pending retransmissions, oldest first. *)
Definition erase (p : Z) (l : list (Z * TransmissionType)) : list (Z * TransmissionType) :=
  List.filter (λ x, negb (x.1 =? p)) l.
Definition contains (p : Z) (l : list (Z * TransmissionType)) : bool := existsb (λ x, x.1 =? p) l.

Definition RetransmissionLeavesBytesInFlight (type : TransmissionType) : bool :=
  bool_decide (type = TLP_RETRANSMISSION) || bool_decide (type = PROBING_RETRANSMISSION)
  || bool_decide (type = RTO_RETRANSMISSION).
Definition ShouldForceRetransmission (type : TransmissionType) : bool :=
  bool_decide (type = HANDSHAKE_RETRANSMISSION) || bool_decide (type = TLP_RETRANSMISSION)
  || bool_decide (type = PROBING_RETRANSMISSION) || bool_decide (type = RTO_RETRANSMISSION).
Definition RetransmissionTypeToPacketState (type : TransmissionType) : SentPacketState :=
  match type with
  | ALL_UNACKED_RETRANSMISSION | ALL_INITIAL_RETRANSMISSION => UNACKABLE
  | HANDSHAKE_RETRANSMISSION => HANDSHAKE_RETRANSMITTED
  | LOSS_RETRANSMISSION => LOST
  | TLP_RETRANSMISSION => TLP_RETRANSMITTED
  | RTO_RETRANSMISSION => RTO_RETRANSMITTED
  | PROBING_RETRANSMISSION => PROBE_RETRANSMITTED
  | NOT_RETRANSMISSION => UNACKABLE
  end.

(** A write to the information of one packet. *)
Definition write_info (f : QuicTransmissionInfo → QuicTransmissionInfo) (p : Z) (m : map_t) : map_t :=
  with_list m (alter f (index m p) (unacked_packets m)).

Definition HandleRetransmission (type : TransmissionType) (p : Z) (i : QuicTransmissionInfo) (s : io) : io :=
  if ShouldForceRetransmission type then log s [PacketMarked p type i (RetransmitFrames i type)] else
  let s := log s [PacketMarked p type i (NotifyFramesLost i)] in
  if no_frames i then s else
  on_map (λ m, write_info (λ i, set_retransmission i
    (if bool_decide (type = LOSS_RETRANSMISSION) then add (largest_sent_packet m) 1 else PacketNumber.Clear)) p m) s.

Definition MarkForRetransmission (p : Z) (type : TransmissionType) (s : io) : io :=
  match GetTransmissionInfo (unacked s.1) p with
  | None => s
  | Some i =>
      let s := if negb (loss_removes_from_inflight cfg) && negb (RetransmissionLeavesBytesInFlight type)
               then on_map (λ m, RemoveFromInFlight m p) s else s in
      if negb (decides s) then
        if negb (frames_outstanding s i) then s else
        if contains p (pending_retransmissions s.1) then s
        else (with_pending s.1 (pending_retransmissions s.1 ++ [(p, type)]), s.2)
      else
        on_map (λ m, SetPacketState m p (RetransmissionTypeToPacketState type)) (HandleRetransmission type p i s)
  end.

(** The last transmission of a packet, along the links of the map. *)
Fixpoint newest (fuel : nat) (m : map_t) (p retransmission : Z) : Z :=
  match fuel with
  | O => p
  | S fuel =>
      if negb (IsInitialized retransmission) then p else
      match GetTransmissionInfo m retransmission with
      | Some i => newest fuel m retransmission (UnackedPacketMap.retransmission i)
      | None => retransmission
      end
  end.
Definition GetNewestRetransmission (m : map_t) (p : Z) (i : QuicTransmissionInfo) : Z :=
  if session_decides_what_to_write m then p
  else newest (S (length (unacked_packets m))) m p (UnackedPacketMap.retransmission i).

Definition RecordOneSpuriousRetransmission (i : QuicTransmissionInfo) (s : io) : io :=
  log s [SpuriousRetransmission (bytes_sent i)].
Definition tell_loss_algorithm (e : env) (p : Z) (s : io) : io :=
  (with_loss s.1 (LossDetectionInterface.SpuriousRetransmitDetected (loss_algorithm s.1) (unacked s.1) (now e) (rtt e) p)
     (packets_lost s.1), s.2).

Fixpoint record_chain (fuel : nat) (m : map_t) (retransmission : Z) (s : io) : io :=
  match fuel with
  | O => s
  | S fuel =>
      if negb (IsInitialized retransmission) then s else
      match GetTransmissionInfo m retransmission with
      | Some i => record_chain fuel m (UnackedPacketMap.retransmission i) (RecordOneSpuriousRetransmission i s)
      | None => s
      end
  end.

Definition RecordSpuriousRetransmissions (e : env) (i : QuicTransmissionInfo) (acked_packet_number : Z) (s : io) : io :=
  let m := unacked s.1 in
  if decides s then
    let s := RecordOneSpuriousRetransmission i s in
    if bool_decide (transmission_type i = LOSS_RETRANSMISSION) then tell_loss_algorithm e acked_packet_number s else s
  else
    let s := record_chain (S (length (unacked_packets m))) m (UnackedPacketMap.retransmission i) s in
    match GetTransmissionInfo m (UnackedPacketMap.retransmission i) with
    | Some r =>
        if bool_decide (transmission_type r = LOSS_RETRANSMISSION)
        then tell_loss_algorithm e (UnackedPacketMap.retransmission i) s else s
    | None => s
    end.

(** What is told of the frames of an acknowledged packet that was not sent again since. *)
Definition tell_acked (e : env) (p : Z) (i : QuicTransmissionInfo) (ack_delay receive_timestamp : Z) (s : io) : io :=
  let m := unacked s.1 in
  if decides s && bool_decide (transmission_type i = NOT_RETRANSMISSION) then
    let '(m, calls) := MaybeAggregateAckedStreamFrame m i ack_delay receive_timestamp in
    log (with_map s.1 m, s.2) [PacketAcked p i calls]
  else
    let '(m, c1) := if decides s then NotifyAggregatedStreamFrameAcked m ack_delay else (m, []) in
    let '(new_data_acked, c2) := NotifyFramesAcked (acks_new_data s.2) m i ack_delay receive_timestamp in
    let s := log (with_map s.1 m, s.2) [PacketAcked p i (c1 ++ c2)] in
    if decides s && negb new_data_acked && negb (bool_decide (transmission_type i = NOT_RETRANSMISSION))
    then RecordSpuriousRetransmissions e i p s else s.

Definition MarkPacketHandled (e : env) (p : Z) (i : QuicTransmissionInfo) (ack_delay receive_timestamp : Z) (s : io) : io :=
  let newest_transmission := GetNewestRetransmission (unacked s.1) p i in
  let s := (with_pending s.1 (erase newest_transmission (pending_retransmissions s.1)), s.2) in
  let s :=
    if newest_transmission =? p then tell_acked e p i ack_delay receive_timestamp s else
    let s := RecordSpuriousRetransmissions e i p s in
    match GetTransmissionInfo (unacked s.1) newest_transmission with
    | None => s
    | Some newest_info =>
        let '(_, calls) := NotifyFramesAcked (acks_new_data s.2) (unacked s.1) newest_info ack_delay receive_timestamp in
        let s := log s [PacketAcked p i calls] in
        if has_crypto_handshake newest_info then on_map (λ m, RemoveFromInFlight m newest_transmission) s else s
    end in
  let s := if has_network_change_visitor cfg && (largest_mtu_acked s.1 <? bytes_sent i)
           then log (with_mtu s.1 (bytes_sent i), s.2) [OnPathMtuIncreased (bytes_sent i)] else s in
  on_map (λ m, SetPacketState (RemoveRetransmittability (RemoveFromInFlight m p) p) p ACKED) s.

(** ** Sending *)

Definition OnPacketSent (packet : SerializedPacket) (original_packet_number sent_time : Z) (type : TransmissionType)
    (has_retransmittable_data : bool) (s : io) : bool * io :=
  let s := if IsInitialized original_packet_number
           then (with_pending s.1 (erase original_packet_number (pending_retransmissions s.1)), s.2) else s in
  let pending := pending_timer_transmission_count (counts s.1) in
  let s := if 0 <? pending then (with_counts s.1 (set_pending_timer (counts s.1) (pending - 1)), s.2) else s in
  let s := log s [PacketSent packet sent_time (bytes_in_flight (unacked s.1)) has_retransmittable_data] in
  let '(m, _, calls) := AddSentPacket (unacked s.1) packet original_packet_number type sent_time has_retransmittable_data in
  (has_retransmittable_data, log (with_map s.1 m, s.2) (match calls with [] => [] | _ => [SessionCalls calls] end)).

(** ** Acknowledgements *)

Definition MaybeUpdateRTT (largest_acked ack_delay_time ack_receive_time : Z) (s : io) : bool * io :=
  let m := unacked s.1 in
  if negb (IsUnacked m largest_acked) then (false, s) else
  match GetTransmissionInfo m largest_acked with
  | None => (false, s)
  | Some i =>
      if sent_time i =? 0 then (false, s)
      else (true, log s [UpdateRtt (ack_receive_time - sent_time i) ack_delay_time ack_receive_time])
  end.

Definition OnAckFrameStart (largest_acked ack_delay_time ack_receive_time : Z) (s : io) : io :=
  let '(updated, s) := MaybeUpdateRTT largest_acked ack_delay_time ack_receive_time s in
  let a := ack s.1 in
  (with_ack s.1 (mk_acks (packets_acked a) (largest_newly_acked a) updated ack_delay_time (last_largest_acked a)
     (last_ack_packets a) (rev (last_ack_packets a))), s.2).

(** The packets from [acked] down, at most [n]. *)
Fixpoint descend (n : nat) (acked newly_acked_start : Z) : list Z :=
  match n with
  | O => []
  | S n =>
      if newly_acked_start <=? acked
      then acked :: (if acked =? FirstSendingPacketNumber then [] else descend n (acked - 1) newly_acked_start) else []
  end.

Fixpoint ack_range (iter : list interval) (start end_ : Z) : list Z * list interval :=
  let newly_acked_start := match iter with i :: _ => Z.max start (imax i) | [] => start end in
  let new := descend (Z.to_nat (end_ - newly_acked_start)) (end_ - 1) newly_acked_start in
  match iter with
  | [] => (new, [])
  | i :: rest =>
      if imin i <? start then (new, iter) else
      let end_ := Z.min end_ (imin i) in
      if start <? end_ then let '(l, it) := ack_range rest start end_ in (new ++ l, it) else (new, rest)
  end.

Definition OnAckRange (start end_ : Z) (s : io) : io :=
  let a := ack s.1 in
  let s := if negb (IsInitialized (last_largest_acked a)) || (add (last_largest_acked a) 1 <? end_)
           then (with_ack (with_map s.1 (IncreaseLargestAcked (unacked s.1) (end_ - 1))) (set_last a (end_ - 1) (last_ack_packets a)), s.2)
           else s in
  let least_unacked := GetLeastUnacked (unacked s.1) in
  if IsInitialized least_unacked && (end_ <=? least_unacked) then s else
  let start := Z.max start least_unacked in
  let '(new, it) := ack_range (acked_packets_iter (ack s.1)) start end_ in
  (with_ack s.1 (set_iter (ack s.1) (packets_acked (ack s.1) ++ map (λ p, mk_acked p 0 0) new) it), s.2).

Fixpoint set_timestamp (p timestamp : Z) (l : list AckedPacket) : list AckedPacket :=
  match l with
  | [] => []
  | x :: l =>
      if acked_packet_number x =? p then mk_acked p (bytes_acked x) timestamp :: l else x :: set_timestamp p timestamp l
  end.
Definition OnAckTimestamp (p timestamp : Z) (s : io) : io :=
  (with_ack s.1 (set_acked (ack s.1) (set_timestamp p timestamp (packets_acked (ack s.1)))), s.2).

(** One round of the loop of [InvokeLossDetection]. *)
Definition lose_packet (s : io) (x : LostPacket) : io :=
  let p := lost_packet_number x in
  let s := if loss_removes_from_inflight cfg then on_map (λ m, RemoveFromInFlight m p) s else s in
  MarkForRetransmission p LOSS_RETRANSMISSION s.

Definition InvokeLossDetection (e : env) (time : Z) (s : io) : io :=
  let s := match last (packets_acked (ack s.1)) with
           | Some x => (with_ack s.1 (set_newly (ack s.1) (acked_packet_number x)), s.2)
           | None => s
           end in
  let '(a, lost) := LossDetectionInterface.DetectLosses (loss_algorithm s.1) (unacked s.1) time (rtt e)
                      (largest_newly_acked (ack s.1)) (packets_acked (ack s.1)) in
  let s := (with_loss s.1 a (packets_lost s.1 ++ lost), s.2) in
  fold_left lose_packet (packets_lost s.1) s.

Definition MaybeInvokeCongestionEvent (rtt_updated : bool) (prior_in_flight event_time : Z) (s : io) : io :=
  let acked := packets_acked (ack s.1) in let lost := packets_lost s.1 in
  if negb rtt_updated && (zlen acked =? 0) && (zlen lost =? 0) then s else
  log (with_loss (with_ack s.1 (set_acked (ack s.1) [])) (loss_algorithm s.1) [], s.2)
    (OnCongestionEvent rtt_updated prior_in_flight event_time acked lost
     :: if has_network_change_visitor cfg then [OnCongestionChange] else []).

(** The end of [PostProcessNewlyAckedPackets] when there is a new RTT estimate. *)
Definition reset_backoff (s : io) : io :=
  let c := counts s.1 in
  let s := if 0 <? consecutive_rto_count c then
             if last_largest_acked (ack s.1) <? first_rto_transmission c then log s [ExpireSmoothedMetrics]
             else if negb (use_new_rto cfg) then log s [OnRetransmissionTimeoutReverted] else s
           else s in
  (with_counts s.1 (set_crypto_count (set_tlp (set_rto c (first_rto_transmission c) 0) 0) 0), s.2).

Definition PostProcessNewlyAckedPackets (e : env) (ack_receive_time prior_bytes_in_flight : Z) (s : io) : io :=
  let updated := rtt_updated (ack s.1) in
  let s :=
    if decides s then
      let '(m, calls) := NotifyAggregatedStreamFrameAcked (unacked s.1) (last_ack_delay (ack s.1)) in
      log (with_map s.1 m, s.2) [SessionCalls calls]
    else s in
  let s := InvokeLossDetection e ack_receive_time s in
  let s := if (0 <? consecutive_rto_count (counts s.1)) && negb (use_new_rto cfg)
           then (with_loss s.1 (loss_algorithm s.1) [], s.2) else s in
  let s := MaybeInvokeCongestionEvent updated prior_bytes_in_flight ack_receive_time s in
  let s := on_map RemoveObsoletePackets s in
  let s := if updated then reset_backoff s else s in
  (with_ack s.1 (set_last (ack s.1) (last_largest_acked (ack s.1))
     (PacketNumberQueue.RemoveUpTo (last_ack_packets (ack s.1)) (GetLeastUnacked (unacked s.1))).1), s.2).

(** What one round of the loop of [OnAckFrameEnd] does with an acknowledged packet. *)
Definition handle_acked (e : env) (ack_decrypted_level : EncryptionLevel) (x : AckedPacket) (s : io)
    : option AckResult * AckedPacket * io :=
  let p := acked_packet_number x in
  match GetTransmissionInfo (unacked s.1) p with
  | None => (None, x, s)
  | Some i =>
      let spaces := supports_multiple_packet_number_spaces (unacked s.1) in
      if negb (IsAckable (state i)) then
        if bool_decide (state i = ACKED) then (None, x, log s [AckedTwice p]) else
        let s := log s [UnackableAcked p] in
        if spaces
        then (Some (if bool_decide (state i = NEVER_SENT) then UNSENT_PACKETS_ACKED else UNACKABLE_PACKETS_ACKED), x, s)
        else (None, x, s)
      else
        let space := GetPacketNumberSpace (unacked s.1) (encryption_level i) in
        if spaces && negb (bool_decide (QuicUtils_GetPacketNumberSpace ack_decrypted_level = space))
        then (Some PACKETS_ACKED_IN_WRONG_PACKET_NUMBER_SPACE, x, s) else
        let a := ack s.1 in
        let a := set_last a (last_largest_acked a) (PacketNumberQueue.Add (last_ack_packets a) p) in
        let known := largest_packets_peer_knows_is_acked s.1 in
        let s := (with_peer_knows s.1 (UpdateMax (largest_packet_peer_knows_is_acked s.1) (info_largest_acked i))
                    (if spaces then set_space known space (UpdateMax (get_space known space) (info_largest_acked i))
                     else known), s.2) in
        let x := if in_flight i then mk_acked p (bytes_sent i) (receive_timestamp x) else x in
        let s := (with_ack s.1 (if in_flight i then a else set_newly a p), s.2) in
        let s := on_map (λ m, MaybeUpdateLargestAckedOfPacketNumberSpace m space p) s in
        (None, x, MarkPacketHandled e p i (last_ack_delay (ack s.1)) (receive_timestamp x) s)
  end.

(** The loop: an error ends it, with the packets as far as they were handled. *)
Fixpoint handle_all (e : env) (level : EncryptionLevel) (todo handled : list AckedPacket) (s : io)
    : option AckResult * list AckedPacket * io :=
  match todo with
  | [] => (None, handled, s)
  | x :: todo =>
      match handle_acked e level x s with
      | (Some error, x, s) => (Some error, handled ++ x :: todo, s)
      | (None, x, s) => handle_all e level todo (handled ++ [x]) s
      end
  end.

Definition OnAckFrameEnd (e : env) (ack_receive_time : Z) (ack_decrypted_level : EncryptionLevel) (s : io) : AckResult * io :=
  let prior_bytes_in_flight := bytes_in_flight (unacked s.1) in
  let '(error, acked, s) := handle_all e ack_decrypted_level (rev (packets_acked (ack s.1))) [] s in
  let s := (with_ack s.1 (set_acked (ack s.1) acked), s.2) in
  match error with
  | Some error => (error, s)
  | None =>
      let acked_new_packet := negb (zlen acked =? 0) in
      let s := PostProcessNewlyAckedPackets e ack_receive_time prior_bytes_in_flight s in
      (if acked_new_packet then PACKETS_NEWLY_ACKED else NO_PACKETS_NEWLY_ACKED, s)
  end.

(** ** Giving up packets *)

(** The loops over the packets of the map: the body reads each packet when it gets there. *)
Definition each_packet {B} (body : Z → QuicTransmissionInfo → B * io → B * io) (b : B) (s : io) : B * io :=
  let least := GetLeastUnacked (unacked s.1) in
  fold_left (λ bs n, match unacked_packets (unacked bs.2.1) !! n with
                     | Some i => body (least + Z.of_nat n) i bs | None => bs end)
    (seq 0 (length (unacked_packets (unacked s.1)))) (b, s).

Definition leave_flight (why : effect) (p : Z) (s : io) : io := log (on_map (λ m, RemoveFromInFlight m p) s) [why].

Definition RetransmitUnackedPackets (type : TransmissionType) (s : io) : io :=
  (each_packet (λ p i bs,
    let s := bs.2 in
    if bool_decide (type = ALL_UNACKED_RETRANSMISSION) || bool_decide (encryption_level i = ENCRYPTION_ZERO_RTT) then
      let has_frames := frames_outstanding s i in
      let s := if loss_removes_from_inflight cfg && in_flight i then leave_flight (LeftFlight p) p s else s in
      (tt, if has_frames then MarkForRetransmission p type s else s)
    else bs) tt s).2.

Definition neuter (p : Z) (s : io) : io :=
  let s := (with_pending s.1 (erase p (pending_retransmissions s.1)), s.2) in
  on_map (λ m, RemoveRetransmittability m p) (leave_flight (Neutered p) p s).

Definition NeuterUnencryptedPackets (s : io) : io :=
  (each_packet (λ p i bs,
    let s := bs.2 in
    if decides s then
      if negb (no_frames i) && bool_decide (encryption_level i = ENCRYPTION_INITIAL) then (tt, leave_flight (Neutered p) p s) else bs
    else if bool_decide (encryption_level i = ENCRYPTION_INITIAL)
            && (loss_removes_from_inflight cfg || frames_outstanding s i) then (tt, neuter p s) else bs) tt s).2.

Definition NeuterHandshakePackets (s : io) : io :=
  (each_packet (λ p i bs,
    let s := bs.2 in
    let handshake := bool_decide (GetPacketNumberSpace (unacked s.1) (encryption_level i) = HANDSHAKE_DATA) in
    if decides s then if negb (no_frames i) && handshake then (tt, leave_flight (Neutered p) p s) else bs
    else if handshake && frames_outstanding s i then (tt, neuter p s) else bs) tt s).2.

Definition SetHandshakeConfirmed (s : io) : io := NeuterHandshakePackets (with_confirmed s.1 true, s.2).

Definition CancelRetransmissionsForStream (stream_id : Z) (s : io) : io :=
  if decides s then s else
  let s := on_map (λ m, UnackedPacketMap.CancelRetransmissionsForStream m stream_id) s in
  (with_pending s.1 (List.filter (λ x, match GetTransmissionInfo (unacked s.1) x.1 with
                                       | Some i => frames_outstanding s i | None => false end)
                       (pending_retransmissions s.1)), s.2).

Inductive AddressChangeType := PORT_CHANGE | IPV4_SUBNET_CHANGE | OTHER_CHANGE.
Definition OnConnectionMigration (type : AddressChangeType) (s : io) : io :=
  match type with
  | PORT_CHANGE | IPV4_SUBNET_CHANGE => s
  | OTHER_CHANGE =>
      let c := counts s.1 in
      log (with_counts s.1 (set_tlp (set_rto c (first_rto_transmission c) 0) 0), s.2) [OnConnectionMigrationReset]
  end.

(** ** The retransmission timer *)

Definition ToMilliseconds (delta : Z) : Z := Z.quot delta 1000.
Definition FromMilliseconds (ms : Z) : Z := ms * 1000.

(** [llround] of half an integer. The source multiplies times by 0.5 and 1.5 in floating point, exactly for times below
    2^51 microseconds. *)
Definition llround_half (n : Z) : Z := if 0 <=? n then (n + 1) / 2 else - ((- n + 1) / 2).

Definition GetCryptoRetransmissionDelay (e : env) (s : io) : Z :=
  let srtt := ToMilliseconds (SmoothedOrInitialRtt e) in
  let delay_ms := if conservative_handshake_retransmits cfg
                  then Z.max (ToMilliseconds (peer_max_ack_delay cfg)) (2 * srtt)
                  else Z.max kMinHandshakeTimeoutMs (Z.quot (3 * srtt) 2) in
  FromMilliseconds (Z.shiftl delay_ms (consecutive_crypto_retransmission_count (counts s.1))).

Section delays.
Context (HasUnackedStreamData : list effect → bool).

Definition GetTailLossProbeDelay (e : env) (consecutive_tlp_count : Z) (s : io) : Z :=
  let srtt := SmoothedOrInitialRtt e in
  if enable_half_rtt_tail_loss_probe cfg && (consecutive_tlp_count =? 0)
     && (negb (ignore_tlpr_if_no_pending_stream_data cfg) || negb (decides s) || HasUnackedStreamData s.2)
  then Z.max (min_tlp_timeout cfg) (llround_half srtt) else
  if ietf_style_tlp cfg then Z.max (min_tlp_timeout cfg) (llround_half (3 * srtt) + max_ack_delay e) else
  if ietf_style_2x_tlp cfg then Z.max (min_tlp_timeout cfg) (2 * srtt + max_ack_delay e) else
  if negb (HasMultipleInFlightPackets (unacked s.1))
  then Z.max (2 * srtt) (llround_half (3 * srtt) + llround_half (min_rto_timeout cfg))
  else Z.max (min_tlp_timeout cfg) (2 * srtt).

Definition GetRetransmissionDelay (e : env) (consecutive_rto_count : Z) : Z :=
  let delay := if smoothed_rtt (rtt e) =? 0 then FromMilliseconds kDefaultRetransmissionTimeMs
               else Z.max (smoothed_rtt (rtt e) + 4 * mean_deviation e) (min_rto_timeout cfg) in
  let delay := delay * Z.shiftl 1 (Z.min consecutive_rto_count kMaxRetransmissions) in
  if kMaxRetransmissionTimeMs <? ToMilliseconds delay then FromMilliseconds kMaxRetransmissionTimeMs else delay.

Definition GetPathDegradingDelay (e : env) (s : io) : Z :=
  fold_left (λ delay n, delay + GetTailLossProbeDelay e (Z.of_nat n) s) (seq 0 (Z.to_nat (max_tail_loss_probes cfg))) 0
  + fold_left (λ delay n, delay + GetRetransmissionDelay e (Z.of_nat n))
      (seq 0 (Z.to_nat kNumRetransmissionDelaysForPathDegradingDelay)) 0.

Definition crypto_pending (s : io) : bool := HasPendingCryptoPackets (HasUnackedCryptoData s.2) (unacked s.1).
Definition unacked_frames (s : io) : bool := HasUnackedRetransmittableFrames (IsFrameOutstanding s.2) (unacked s.1).

Definition GetRetransmissionMode (s : io) : RetransmissionTimeoutMode :=
  if negb (handshake_confirmed s.1) && crypto_pending s then HANDSHAKE_MODE else
  if negb (LossDetectionInterface.GetLossTimeout (loss_algorithm s.1) =? 0) then LOSS_MODE else
  if (consecutive_tlp_count (counts s.1) <? max_tail_loss_probes cfg)
     && (quic_optimize_inflight_check cfg || unacked_frames s) then TLP_MODE
  else RTO_MODE.

Definition GetRetransmissionTime (e : env) (s : io) : Z :=
  let c := counts s.1 in
  if negb (HasInFlightPackets (unacked s.1)) || (0 <? pending_timer_transmission_count c) then 0 else
  if negb (quic_optimize_inflight_check cfg) && negb (unacked_frames s) then 0 else
  let tlp_time := GetLastPacketSentTime (unacked s.1) + GetTailLossProbeDelay e (consecutive_tlp_count c) s in
  match GetRetransmissionMode s with
  | HANDSHAKE_MODE => GetLastCryptoPacketSentTime (unacked s.1) + GetCryptoRetransmissionDelay e s
  | LOSS_MODE => LossDetectionInterface.GetLossTimeout (loss_algorithm s.1)
  | TLP_MODE => Z.max (approximate_now e) tlp_time
  | RTO_MODE =>
      Z.max tlp_time (GetLastPacketSentTime (unacked s.1) + GetRetransmissionDelay e (consecutive_rto_count c))
  end.

End delays.

Definition count_timer (s : io) : io :=
  (with_counts s.1 (set_pending_timer (counts s.1) (wrap64 (pending_timer_transmission_count (counts s.1) + 1))), s.2).
Definition mark_all (type : TransmissionType) (packets : list Z) (s : io) : io :=
  fold_left (λ s p, MarkForRetransmission p type s) packets s.

Definition RetransmitCryptoPackets (s : io) : io :=
  let c := counts s.1 in
  let s := (with_counts s.1 (set_crypto_count c (wrap64 (consecutive_crypto_retransmission_count c + 1))), s.2) in
  let '(crypto_retransmissions, s) :=
    each_packet (λ p i bs,
      let '(l, s) := bs in
      if negb (in_flight i) || (decides s && negb (bool_decide (state i = OUTSTANDING))) || negb (has_crypto_handshake i)
         || negb (frames_outstanding s i) then bs else
      let '(l, s) := if decides s then (l ++ [p], s) else (l, MarkForRetransmission p HANDSHAKE_RETRANSMISSION s) in
      (l, count_timer s)) [] s in
  if decides s then mark_all HANDSHAKE_RETRANSMISSION crypto_retransmissions s else s.

Definition oldest_packet (s : io) : option Z :=
  List.find (λ p, match GetTransmissionInfo (unacked s.1) p with
                  | Some i => in_flight i && (negb (decides s) || bool_decide (state i = OUTSTANDING)) && frames_outstanding s i
                  | None => false
                  end)
    (map (λ n, GetLeastUnacked (unacked s.1) + Z.of_nat n) (seq 0 (length (unacked_packets (unacked s.1))))).
Definition MaybeRetransmitOldestPacket (type : TransmissionType) (s : io) : bool * io :=
  match oldest_packet s with Some p => (true, MarkForRetransmission p type s) | None => (false, s) end.

Definition RetransmitRtoPackets (s : io) : io :=
  let '(retransmissions, s) :=
    each_packet (λ p i bs,
      let '(l, s) := bs in
      let has_frames := frames_outstanding s i in
      let '(l, s) :=
        if (negb (decides s) || bool_decide (state i = OUTSTANDING)) && has_frames
           && (pending_timer_transmission_count (counts s.1) <? max_rto_packets cfg) then
          let '(l, s) := if decides s then (l ++ [p], s) else (l, MarkForRetransmission p RTO_RETRANSMISSION s) in
          (l, count_timer s)
        else (l, s) in
      let has_retransmissions := if decides s then negb (bool_decide (state i = OUTSTANDING))
                                 else IsInitialized (retransmission i) in
      if in_flight i && negb has_retransmissions && negb has_frames then (l, leave_flight (LeftFlight p) p s) else (l, s)) [] s in
  let c := counts s.1 in
  let s :=
    if 0 <? pending_timer_transmission_count c then
      (with_counts s.1 (set_rto c
         (if consecutive_rto_count c =? 0 then add (largest_sent_packet (unacked s.1)) 1 else first_rto_transmission c)
         (wrap64 (consecutive_rto_count c + 1))), s.2)
    else s in
  if decides s then mark_all RTO_RETRANSMISSION retransmissions s else s.

Definition MaybeRetransmitTailLossProbe (s : io) : bool * io :=
  if pending_timer_transmission_count (counts s.1) =? 0 then (false, s) else
  match MaybeRetransmitOldestPacket TLP_RETRANSMISSION s with
  | (true, s) => (true, s)
  | (false, s) =>
      (false, if quic_optimize_inflight_check cfg
              then RetransmitRtoPackets (with_counts s.1 (set_pending_timer (counts s.1) 0), s.2) else s)
  end.

Definition OnRetransmissionTimeout (e : env) (s : io) : io :=
  match GetRetransmissionMode s with
  | HANDSHAKE_MODE => RetransmitCryptoPackets s
  | LOSS_MODE =>
      let prior_in_flight := bytes_in_flight (unacked s.1) in
      MaybeInvokeCongestionEvent false prior_in_flight (now e) (InvokeLossDetection e (now e) s)
  | TLP_MODE =>
      let c := counts s.1 in
      (with_counts s.1 (set_pending_timer (set_tlp c (wrap64 (consecutive_tlp_count c + 1))) 1), s.2)
  | RTO_MODE => RetransmitRtoPackets s
  end.

(** ** Queries *)

Definition HasPendingRetransmissions (st : t) : bool :=
  match pending_retransmissions st with [] => false | _ => true end.

(** The packet to send again and why: crypto packets first. *)
Definition NextPendingRetransmission (s : io) : option (Z * TransmissionType) :=
  match pending_retransmissions s.1 with
  | [] => None
  | first :: _ =>
      if crypto_pending s then
        match List.find (λ x, match GetTransmissionInfo (unacked s.1) x.1 with
                              | Some i => has_crypto_handshake i | None => false end) (pending_retransmissions s.1) with
        | Some x => Some x
        | None => Some first
        end
      else Some first
  end.

Definition GetLargestAckedPacket (level : EncryptionLevel) (st : t) : Z :=
  GetLargestAckedOfPacketNumberSpace (unacked st) (QuicUtils_GetPacketNumberSpace level).
Definition GetLargestSentPacket (level : EncryptionLevel) (st : t) : Z :=
  GetLargestSentPacketOfPacketNumberSpace (unacked st) level.
Definition GetLargestPacketPeerKnowsIsAcked (level : EncryptionLevel) (st : t) : Z :=
  get_space (largest_packets_peer_knows_is_acked st) (QuicUtils_GetPacketNumberSpace level).

(** ** What is known of the packets *)

Definition get (m : map_t) (p : Z) : option QuicTransmissionInfo :=
  if p <? least_unacked m then None else GetTransmissionInfo m p.

Lemma get_some m p i : get m p = Some i ↔ least_unacked m <= p ∧ GetTransmissionInfo m p = Some i.
Proof. unfold get. destruct (Z.ltb_spec p (least_unacked m)); split; [done|lia|done|tauto]. Qed.

Lemma get_range m p i : get m p = Some i → least_unacked m <= p < next_packet m.
Proof.
  intros [H1 H2]%get_some. apply lookup_lt_Some in H2. unfold next_packet, zlen, index in *. lia.
Qed.

Lemma get_in m p : least_unacked m <= p < next_packet m → ∃ i, get m p = Some i.
Proof.
  intros Hp. destruct (lookup_lt_is_Some_2 (unacked_packets m) (index m p)) as [i Hi].
  { unfold next_packet, zlen, index in *. lia. }
  exists i. apply get_some. by split; [lia|].
Qed.

Lemma get_insert m m' p i' :
  get m p ≠ None → unacked_packets m' = <[index m p := i']> (unacked_packets m) → least_unacked m' = least_unacked m →
  ∀ q, get m' q = if decide (q = p) then Some i' else get m q.
Proof.
  intros Hp El Ell q. destruct (get m p) as [i|] eqn:Hi; [|done]. pose proof (get_range _ _ _ Hi). apply get_some in Hi as [_ Hi].
  unfold get, GetTransmissionInfo, index in *. rewrite Ell, El. destruct (decide (q = p)) as [->|Hne].
  - rewrite (proj2 (Z.ltb_ge _ _)) by lia. apply list_lookup_insert_eq. by eapply lookup_lt_Some.
  - destruct (Z.ltb_spec q (least_unacked m)); [done|]. apply list_lookup_insert_ne. lia.
Qed.

Lemma get_alter m m' p f i :
  get m p = Some i → unacked_packets m' = alter f (index m p) (unacked_packets m) → least_unacked m' = least_unacked m →
  ∀ q, get m' q = if decide (q = p) then Some (f i) else get m q.
Proof.
  intros Hi El Ell. apply get_insert; [congruence| |done]. rewrite El, alter_insert.
  apply get_some in Hi as [_ Hi]. unfold GetTransmissionInfo in Hi. by rewrite Hi.
Qed.

(** The packets acknowledged in a log. *)
Definition acked_numbers (l : list effect) : list Z :=
  omap (λ x, match x with PacketAcked p _ _ => Some p | _ => None end) l.

(** Those reported lost. *)
Definition lost_numbers (l : list effect) : list Z :=
  omap (λ x, match x with PacketMarked p LOSS_RETRANSMISSION _ _ => Some p | _ => None end) l.

Definition told (type : TransmissionType) (i : QuicTransmissionInfo) : list call :=
  if ShouldForceRetransmission type then RetransmitFrames i type else NotifyFramesLost i.

(** Nothing needs to be done any more for the frames [fs] of packet [p]. *)
Definition settled (l : list effect) (p : Z) (fs : list QuicFrame) : Prop :=
  (∃ i calls, PacketAcked p i calls ∈ l ∧ retransmittable_frames i = fs)
  ∨ (∃ type i, PacketMarked p type i (told type i) ∈ l ∧ retransmittable_frames i = fs)
  ∨ Neutered p ∈ l
  ∨ (∃ before after, l = before ++ LeftFlight p :: after ∧ existsb (IsFrameOutstanding before) fs = false).

Definition accounted (g : Z → option QuicTransmissionInfo) (l : list effect) (p : Z) (fs : list QuicFrame) : Prop :=
  (∃ i, g p = Some i ∧ retransmittable_frames i = fs ∧ state i = OUTSTANDING ∧ in_flight i = true) ∨ settled l p fs.

Lemma settled_app l k p fs : settled l p fs → settled (l ++ k) p fs.
Proof.
  intros [(i&c&?&?)|[(ty&i&?&?)|[?|(b&a&->&?)]]].
  - left. exists i, c. rewrite elem_of_app. auto.
  - right. left. exists ty, i. rewrite elem_of_app. auto.
  - do 2 right. left. rewrite elem_of_app. auto.
  - do 3 right. exists b, (a ++ k). by rewrite <-app_assoc.
Qed.

Record View (g : Z → option QuicTransmissionInfo) (nx : Z) (q : PacketNumberQueue.t) (l : list effect) : Prop := mk_view {
  v_acked p i : g p = Some i → state i = ACKED ↔ IntervalSet.den q p;
  v_bound p : IntervalSet.den q p → p < nx;
  v_idle p i : g p = Some i → state i = ACKED ∨ state i = NEVER_SENT → in_flight i = false ∧ retransmittable_frames i = [];
  v_sent packet time bytes : PacketSent packet time bytes true ∈ l →
    packet_number packet < nx
    ∧ (packet_retransmittable_frames packet ≠ [] → accounted g l (packet_number packet) (packet_retransmittable_frames packet));
  v_once : NoDup (acked_numbers l);
  v_done p : p ∈ acked_numbers l → p < nx ∧ ∀ i, g p = Some i → state i = ACKED;
  v_twice p : AckedTwice p ∉ l;
  v_lost_once : NoDup (lost_numbers l);
  v_lost p : p ∈ lost_numbers l → p < nx ∧ ∀ i, g p = Some i → in_flight i = false;
}.

Definition neutral (x : effect) : Prop :=
  match x with PacketSent _ _ _ _ | PacketAcked _ _ _ | AckedTwice _ => False | _ => True end.

Lemma neutral_acked l : Forall neutral l → acked_numbers l = [].
Proof. induction 1 as [|x l Hx _ IH]; [done|]. by destruct x. Qed.

Lemma acked_numbers_app l k : acked_numbers (l ++ k) = acked_numbers l ++ acked_numbers k.
Proof. apply omap_app. Qed.

Lemma lost_numbers_app l k : lost_numbers (l ++ k) = lost_numbers l ++ lost_numbers k.
Proof. apply omap_app. Qed.

(** One packet changes its state, not to or from acknowledged, or leaves the flight. *)
Lemma view_change g g' nx q l p i i' k :
  View g nx q l → g p = Some i → p < nx → (∀ r, g' r = if decide (r = p) then Some i' else g r) → Forall neutral k →
  (lost_numbers k = [] ∨ lost_numbers k = [p] ∧ in_flight i = true ∧ in_flight i' = false) →
  retransmittable_frames i' = retransmittable_frames i → (state i' = ACKED ↔ state i = ACKED) →
  (state i' = NEVER_SENT → state i = NEVER_SENT) → (in_flight i' = true → in_flight i = true) →
  (state i' = state i ∧ in_flight i' = in_flight i)
  ∨ (state i = OUTSTANDING → in_flight i = true → settled (l ++ k) p (retransmittable_frames i)) →
  View g' nx q (l ++ k).
Proof.
  intros HV Hp Hpn Hg Hk Hlost Hf Ha Hn Hfl Hs.
  assert (Hneu : ∀ x, x ∈ k → neutral x) by (by apply Forall_forall).
  assert (Hacc : ∀ r fs, accounted g l r fs → accounted g' (l ++ k) r fs).
  { intros r fs [(j&Hj&Ef&Es&Efl)|Hset]; [|right; by apply settled_app]. destruct (decide (r = p)) as [->|Hne].
    - rewrite Hp in Hj. injection Hj as ->. destruct Hs as [[E1 E2]|Hs].
      + left. exists i'. rewrite Hg, decide_True by done. by rewrite Hf, E1, E2.
      + right. rewrite <-Ef. auto.
    - left. exists j. by rewrite Hg, decide_False. }
  split.
  - intros r j. rewrite Hg. destruct (decide (r = p)) as [->|]; [|by apply (v_acked _ _ _ _ HV)].
    intros [= <-]. rewrite Ha. by apply (v_acked _ _ _ _ HV).
  - apply (v_bound _ _ _ _ HV).
  - intros r j. rewrite Hg. destruct (decide (r = p)) as [->|]; [|by apply (v_idle _ _ _ _ HV)].
    intros [= <-] Hst. destruct (v_idle _ _ _ _ HV p i Hp) as [H1 H2]; [tauto|]. rewrite Hf. split; [|done].
    destruct (in_flight i'); [|done]. by rewrite Hfl in H1.
  - intros packet time bytes [Hin|Hin]%elem_of_app; [|by apply Hneu in Hin].
    destruct (v_sent _ _ _ _ HV packet time bytes Hin) as [H1 H2]. split; [done|]. intros Hne. by apply Hacc, H2.
  - rewrite acked_numbers_app, (neutral_acked k Hk), app_nil_r. apply (v_once _ _ _ _ HV).
  - intros r. rewrite acked_numbers_app, (neutral_acked k Hk), app_nil_r. intros Hr.
    destruct (v_done _ _ _ _ HV r Hr) as [H1 H2]. split; [done|]. intros j. rewrite Hg.
    destruct (decide (r = p)) as [->|]; [|by apply H2]. intros [= <-]. apply Ha, H2, Hp.
  - intros r [Hin|Hin]%elem_of_app; [by eapply v_twice|by apply Hneu in Hin].
  - rewrite lost_numbers_app. destruct Hlost as [->|(->&E1&_)]; [rewrite app_nil_r; apply (v_lost_once _ _ _ _ HV)|].
    apply NoDup_app. split; [apply (v_lost_once _ _ _ _ HV)|]. split; [|apply NoDup_singleton].
    intros r Hr ->%list_elem_of_singleton. destruct (v_lost _ _ _ _ HV p Hr) as [_ H2]. specialize (H2 i Hp). congruence.
  - intros r. rewrite lost_numbers_app, elem_of_app. intros Hr.
    assert (Hr' : r ∈ lost_numbers l ∨ r = p ∧ in_flight i' = false).
    { destruct Hr as [Hr|Hr]; [by left|right]. destruct Hlost as [E|(E&_&E2)]; rewrite E in Hr; [by apply elem_of_nil in Hr|].
      by apply list_elem_of_singleton in Hr. }
    assert (Hi : in_flight i' = false ∨ r ≠ p → ∀ j, g' r = Some j → in_flight j = false ∨ g r = Some j).
    { intros Hc j. rewrite Hg. destruct (decide (r = p)) as [->|]; [intros [= <-]; left; tauto|tauto]. }
    destruct Hr' as [Hr'|[-> E]]; [|split; [done|]; intros j; rewrite Hg, decide_True by done; by intros [= <-]].
    destruct (v_lost _ _ _ _ HV r Hr') as [H1 H2]. split; [done|]. intros j. rewrite Hg.
    destruct (decide (r = p)) as [->|]; [|by apply H2]. intros [= <-]. specialize (H2 i Hp).
    destruct (in_flight i'); [|done]. by rewrite Hfl in H2.
Qed.

Lemma view_log g g' nx q l k :
  View g nx q l → (∀ r, g' r = g r) → Forall neutral k → lost_numbers k = [] → View g' nx q (l ++ k).
Proof.
  intros HV Hg Hk Hlost. assert (Hneu : ∀ x, x ∈ k → neutral x) by (by apply Forall_forall). split.
  - intros r j. rewrite Hg. by apply (v_acked _ _ _ _ HV).
  - apply (v_bound _ _ _ _ HV).
  - intros r j. rewrite Hg. by apply (v_idle _ _ _ _ HV).
  - intros packet time bytes [Hin|Hin]%elem_of_app; [|by apply Hneu in Hin].
    destruct (v_sent _ _ _ _ HV packet time bytes Hin) as [H1 H2]. split; [done|]. intros Hne.
    destruct (H2 Hne) as [(j&?)|?]; [left; exists j; by rewrite Hg|right; by apply settled_app].
  - rewrite acked_numbers_app, (neutral_acked k Hk), app_nil_r. apply (v_once _ _ _ _ HV).
  - intros r. rewrite acked_numbers_app, (neutral_acked k Hk), app_nil_r. intros Hr.
    destruct (v_done _ _ _ _ HV r Hr) as [H1 H2]. split; [done|]. intros j. rewrite Hg. apply H2.
  - intros r [Hin|Hin]%elem_of_app; [by eapply v_twice|by apply Hneu in Hin].
  - rewrite lost_numbers_app, Hlost, app_nil_r. apply (v_lost_once _ _ _ _ HV).
  - intros r. rewrite lost_numbers_app, Hlost, app_nil_r. intros Hr.
    destruct (v_lost _ _ _ _ HV r Hr) as [H1 H2]. split; [done|]. intros j. rewrite Hg. apply H2.
Qed.

(** *** Changes of one packet of the map *)

Definition kind (m : map_t) := (largest_sent_packet m, supports_multiple_packet_number_spaces m, perspective m).
Definition keep (m m' : map_t) : Prop :=
  least_unacked m' = least_unacked m ∧ next_packet m' = next_packet m
  ∧ session_decides_what_to_write m' = session_decides_what_to_write m
  ∧ kind m' = kind m.

Record Upd (m m' : map_t) (p : Z) (i' : QuicTransmissionInfo) : Prop := mk_upd {
  u_inv : Inv m';
  u_keep : keep m m';
  u_get q : get m' q = if decide (q = p) then Some i' else get m q;
}.

Lemma upd_trans m m1 m2 p i1 i2 : Upd m m1 p i1 → Upd m1 m2 p i2 → Upd m m2 p i2.
Proof.
  intros [A1 (A2&A3&A4&A5) A6] [B1 (B2&B3&B4&B5) B6]. split; [done|split_and!; congruence|]. intros q. rewrite B6, A6.
  by destruct (decide (q = p)).
Qed.

Lemma upd_at m m' p i' : Upd m m' p i' → get m' p = Some i'.
Proof. intros HU. rewrite (u_get _ _ _ _ HU). by rewrite decide_True. Qed.

Lemma upd_flight m p i : Inv m → get m p = Some i → Upd m (RemoveFromInFlight m p) p (set_in_flight i false).
Proof.
  intros HI Hi. pose proof Hi as [_ Hi']%get_some. split; [by apply RemoveFromInFlight_inv| |].
  - unfold RemoveFromInFlight. rewrite Hi'. destruct (in_flight i); [|done].
    split; [done|]. split; [apply with_packets_next, length_insert|done].
  - unfold RemoveFromInFlight. rewrite Hi'. destruct (in_flight i) eqn:Ef.
    + apply get_insert; [congruence|done..].
    + intros q. destruct (decide (q = p)) as [->|]; [|done]. rewrite Hi. f_equal. rewrite <-Ef. by destruct i.
Qed.

Lemma upd_state m p i x : Inv m → get m p = Some i → Upd m (SetPacketState m p x) p (set_state i x).
Proof.
  intros HI Hi. split; [by apply SetPacketState_inv| |].
  - split; [done|]. split; [apply with_packets_next, length_alter|done].
  - by apply (get_alter _ _ _ (λ i, set_state i x) i).
Qed.

Lemma upd_retransmission m p i r :
  Inv m → session_decides_what_to_write m = true → get m p = Some i →
  Upd m (write_info (λ i, set_retransmission i r) p m) p (set_retransmission i r).
Proof.
  intros HI Hs Hi. pose proof Hi as [_ Hx]%get_some. unfold GetTransmissionInfo in Hx. pose proof HI as [HG _]. split.
  - unfold write_info. apply (Inv_step m); [done| |apply with_packets_next, length_alter|done].
    rewrite alter_insert, Hx. apply (replace_inv _ 0 0 m _ i); [done..| |congruence].
    rewrite (ig_bytes _ _ _ HG). f_equal. change (flight_bytes (set_retransmission i r)) with (flight_bytes i). lia.
  - split; [done|]. split; [apply with_packets_next, length_alter|done].
  - by apply (get_alter _ _ _ (λ i, set_retransmission i r) i).
Qed.

Lemma upd_forget m p i :
  Inv m → session_decides_what_to_write m = true → get m p = Some i →
  Upd m (RemoveRetransmittability m p) p (set_retransmission (set_frames i []) PacketNumber.Clear).
Proof.
  intros HI Hs Hi. pose proof (get_range _ _ _ Hi) as Hr. split.
  - replace p with (least_unacked m + Z.of_nat (Z.to_nat (p - least_unacked m))) by lia.
    apply RemoveRetransmittability_inv; [done|]. unfold next_packet, zlen in Hr. lia.
  - unfold RemoveRetransmittability. rewrite Hs. split; [done|]. split; [apply with_packets_next, length_alter|done].
  - unfold RemoveRetransmittability. rewrite Hs.
    by apply (get_alter _ _ _ (λ i, set_retransmission (set_frames i []) PacketNumber.Clear) i).
Qed.

Context `{L : !LossDetectionInterface.laws A}.

(** *** The invariant when the session decides what to write *)

Definition state_view (s : io) : list effect → Prop :=
  View (get (unacked s.1)) (next_packet (unacked s.1)) (last_ack_packets (ack s.1)).

Record Core (s : io) : Prop := mk_core {
  c_map : Inv (unacked s.1);
  c_decides : decides s = true;
  c_pending : pending_retransmissions s.1 = [];
  c_sane : LossDetectionInterface.sane (loss_algorithm s.1);
  c_queue : PacketNumberQueue.wf (last_ack_packets (ack s.1));
  c_view : state_view s s.2;
}.

(** What the operations on single packets leave alone. *)
Definition only_map (s s' : io) : Prop := s'.1 = with_map s.1 (unacked s'.1).

Lemma only_map_trans s s1 s2 : only_map s s1 → only_map s1 s2 → only_map s s2.
Proof. unfold only_map. intros H1 H2. rewrite H2, H1. done. Qed.

Lemma with_map_same (st : t) : with_map st (unacked st) = st.
Proof. by destruct st. Qed.

Lemma core_map s m k :
  Core s → Inv m → session_decides_what_to_write m = true →
  View (get m) (next_packet m) (last_ack_packets (ack s.1)) (s.2 ++ k) → Core (with_map s.1 m, s.2 ++ k).
Proof. intros [] HI Hs HV. by split. Qed.

(** A packet that can still be acknowledged is marked. *)
Lemma Mark_upd s p i type :
  Inv (unacked s.1) → decides s = true → get (unacked s.1) p = Some i →
  ∃ m' i', MarkForRetransmission p type s = (with_map s.1 m', s.2 ++ [PacketMarked p type i (told type i)])
    ∧ Upd (unacked s.1) m' p i' ∧ retransmittable_frames i' = retransmittable_frames i
    ∧ state i' = RetransmissionTypeToPacketState type
    ∧ (in_flight i' = true → in_flight i = true
       ∧ negb (loss_removes_from_inflight cfg) && negb (RetransmissionLeavesBytesInFlight type) = false).
Proof.
  intros HI Hs Hi. pose proof Hi as [_ Hx]%get_some. unfold MarkForRetransmission. rewrite Hx.
  assert (H0 : ∃ m1 i1, (if negb (loss_removes_from_inflight cfg) && negb (RetransmissionLeavesBytesInFlight type)
      then on_map (λ m, RemoveFromInFlight m p) s else s) = (with_map s.1 m1, s.2) ∧ Upd (unacked s.1) m1 p i1
      ∧ retransmittable_frames i1 = retransmittable_frames i ∧ (in_flight i1 = true → in_flight i = true
         ∧ negb (loss_removes_from_inflight cfg) && negb (RetransmissionLeavesBytesInFlight type) = false)).
  { destruct (_ && _) eqn:Eb.
    - exists (RemoveFromInFlight (unacked s.1) p), (set_in_flight i false). split; [done|]. split; [by apply upd_flight|done].
    - exists (unacked s.1), i. split; [rewrite with_map_same; by destruct s|]. split; [|done]. split; [done|done|].
      intros q. destruct (decide (q = p)) as [->|]; done. }
  destruct H0 as (m1&i1&->&H1&Ef1&Efl1). set (s1 := (with_map s.1 m1, s.2)).
  assert (Hs1 : decides s1 = true) by (destruct (u_keep _ _ _ _ H1) as (_&_&E&_); unfold decides in *; cbn; congruence).
  rewrite Hs1. cbn [negb].
  assert (H2 : ∃ m2 i2, HandleRetransmission type p i s1 = (with_map s.1 m2, s.2 ++ [PacketMarked p type i (told type i)])
      ∧ Upd (unacked s.1) m2 p i2 ∧ retransmittable_frames i2 = retransmittable_frames i ∧ (in_flight i2 = true → in_flight i = true
         ∧ negb (loss_removes_from_inflight cfg) && negb (RetransmissionLeavesBytesInFlight type) = false)).
  { unfold HandleRetransmission, told. destruct (ShouldForceRetransmission type).
    - exists m1, i1. done.
    - destruct (no_frames i); [by exists m1, i1|]. eexists _, _. split; [reflexivity|].
      split; [eapply upd_trans; [exact H1|]; apply upd_retransmission; [by eapply u_inv|done|by eapply upd_at]|done]. }
  destruct H2 as (m2&i2&->&H2&Ef2&Efl2).
  exists (SetPacketState m2 p (RetransmissionTypeToPacketState type)), (set_state i2 (RetransmissionTypeToPacketState type)).
  split; [done|]. split; [|done]. eapply upd_trans; [exact H2|]. apply upd_state; [by eapply u_inv|by eapply upd_at].
Qed.

Lemma marked_state type :
  RetransmissionTypeToPacketState type ≠ ACKED ∧ RetransmissionTypeToPacketState type ≠ NEVER_SENT
  ∧ RetransmissionTypeToPacketState type ≠ OUTSTANDING.
Proof. by destruct type. Qed.

(** A packet that is tracked and was not acknowledged. *)
Definition alive (s : io) (p : Z) : Prop :=
  least_unacked (unacked s.1) <= p < next_packet (unacked s.1) ∧ ¬ IntervalSet.den (last_ack_packets (ack s.1)) p.

Lemma alive_get s p : Core s → alive s p → ∃ i, get (unacked s.1) p = Some i ∧ state i ≠ ACKED.
Proof.
  intros HC [Hr Hn]. destruct (get_in _ _ Hr) as [i Hi]. exists i. split; [done|]. intros E.
  by apply Hn, (v_acked _ _ _ _ (c_view _ HC) p i Hi).
Qed.

Lemma in_flight_alive s p i : Core s → get (unacked s.1) p = Some i → in_flight i = true → alive s p.
Proof.
  intros HC Hi Hf. split; [by eapply get_range|]. intros Hd. apply (v_acked _ _ _ _ (c_view _ HC) p i Hi) in Hd.
  destruct (v_idle _ _ _ _ (c_view _ HC) p i Hi (or_introl Hd)). congruence.
Qed.

(** The operations that only change packets of the map. *)
Definition quiet_step (s s' : io) : Prop :=
  Core s' ∧ only_map s s' ∧ keep (unacked s.1) (unacked s'.1).

Lemma keep_refl m : keep m m.
Proof. done. Qed.

Lemma quiet_refl s : Core s → quiet_step s s.
Proof. intros HC. split; [done|]. split; [|done]. unfold only_map. by rewrite with_map_same. Qed.

Lemma quietly_trans s s1 s2 : quiet_step s s1 → quiet_step s1 s2 → quiet_step s s2.
Proof.
  intros (A1&A2&A3&A4&A5&A6) (B1&B2&B3&B4&B5&B6). split; [done|]. split; [by eapply only_map_trans|]. split_and!; congruence.
Qed.

Lemma quiet_alive s s' p : quiet_step s s' → alive s p → alive s' p.
Proof. intros (_&Ho&K1&K2&_). unfold alive. rewrite K1, K2, Ho. done. Qed.

(** A packet leaves the flight or is marked, or both. *)
Lemma change_core s m' p i i' k :
  Core s → get (unacked s.1) p = Some i → Upd (unacked s.1) m' p i' → Forall neutral k →
  (lost_numbers k = [] ∨ lost_numbers k = [p] ∧ in_flight i = true ∧ in_flight i' = false) →
  retransmittable_frames i' = retransmittable_frames i → (state i' = ACKED ↔ state i = ACKED) →
  (state i' = NEVER_SENT → state i = NEVER_SENT) → (in_flight i' = true → in_flight i = true) →
  (state i = OUTSTANDING → in_flight i = true → settled (s.2 ++ k) p (retransmittable_frames i)) →
  quiet_step s (with_map s.1 m', s.2 ++ k).
Proof.
  intros HC Hi HU Hk Hl Hf Ha Hn Hfl Hs. pose proof (u_keep _ _ _ _ HU) as (K1&K2&K3&K4). split; [|split; [done|by split]].
  apply core_map; [done|by eapply u_inv|rewrite K3; apply (c_decides _ HC)|]. rewrite K2.
  apply (view_change (get (unacked s.1)) _ _ _ _ p i i' k (c_view _ HC) Hi); try done; [|by apply (u_get _ _ _ _ HU)|by right].
  by eapply get_range.
Qed.

Definition not_loss (type : TransmissionType) : Prop := type ≠ LOSS_RETRANSMISSION.

Lemma not_loss_numbers p type i calls : not_loss type → lost_numbers [PacketMarked p type i calls] = [].
Proof. by destruct type. Qed.

Lemma Mark_core s p type : Core s → alive s p → not_loss type → quiet_step s (MarkForRetransmission p type s).
Proof.
  intros HC Hal Hnl. destruct (alive_get s p HC Hal) as (i&Hi&Ha).
  destruct (Mark_upd s p i type (c_map _ HC) (c_decides _ HC) Hi) as (m'&i'&->&HU&Ef&Es&Efl).
  pose proof (marked_state type) as (M1&M2&_).
  apply (change_core s m' p i i' _ HC Hi HU); try done.
  - by repeat constructor.
  - left. by apply not_loss_numbers.
  - rewrite Es. split; [intros; congruence|done].
  - rewrite Es. intros; congruence.
  - intros Hf. by apply Efl.
  - intros _ _. right. left. exists type, i. split; [|done]. apply elem_of_app. right. by left.
Qed.

(** [leave_flight] for a reason. *)
Lemma leave_core s p i why :
  Core s → get (unacked s.1) p = Some i →
  why = Neutered p ∨ why = LeftFlight p ∧ existsb (IsFrameOutstanding s.2) (retransmittable_frames i) = false →
  quiet_step s (leave_flight why p s).
Proof.
  intros HC Hi Hwhy. pose proof (upd_flight _ _ _ (c_map _ HC) Hi) as HU.
  apply (change_core s _ p i _ [why] HC Hi HU); try done.
  - destruct Hwhy as [->|[-> _]]; by repeat constructor.
  - left. by destruct Hwhy as [->|[-> _]].
  - intros _ _. destruct Hwhy as [->|[-> Hno]]; do 2 right.
    + left. apply elem_of_app. right. by left.
    + right. by exists s.2, [].
Qed.

(** A packet leaves the flight and is marked. *)
Lemma leave_Mark_core s p i type k :
  Core s → get (unacked s.1) p = Some i → state i ≠ ACKED → Forall neutral k → lost_numbers k = [] →
  not_loss type ∨ in_flight i = true →
  let s1 := (with_map s.1 (RemoveFromInFlight (unacked s.1) p), s.2 ++ k) in
  quiet_step s (MarkForRetransmission p type s1).
Proof.
  intros HC Hi Ha Hk Hl Hin s1. pose proof (upd_flight _ _ _ (c_map _ HC) Hi) as HU.
  destruct (Mark_upd s1 p (set_in_flight i false) type (u_inv _ _ _ _ HU)) as (m'&i'&->&HU2&Ef&Es&Efl).
  { unfold decides. cbn. destruct (u_keep _ _ _ _ HU) as (_&_&E&_). rewrite E. apply (c_decides _ HC). }
  { by eapply upd_at. }
  pose proof (marked_state type) as (M1&M2&_). unfold s1. cbn [fst snd]. rewrite <-app_assoc.
  assert (Efl' : in_flight i' = false) by (destruct (in_flight i'); [by destruct (Efl eq_refl)|done]).
  apply (change_core s m' p i i' _ HC Hi); try done.
  - eapply upd_trans; [exact HU|exact HU2].
  - apply Forall_app. split; [done|]. by repeat constructor.
  - rewrite lost_numbers_app, Hl. cbn [app]. destruct (decide (type = LOSS_RETRANSMISSION)) as [->|Hne].
    + right. destruct Hin; done.
    + left. by apply not_loss_numbers.
  - rewrite Es. split; [intros; congruence|done].
  - rewrite Es. intros; congruence.
  - congruence.
  - intros _ _. right. left. exists type, (set_in_flight i false). split; [|done]. rewrite !elem_of_app. do 2 right. by left.
Qed.

Lemma lose_core s x i :
  Core s → get (unacked s.1) (lost_packet_number x) = Some i → in_flight i = true →
  let s' := lose_packet s x in
  quiet_step s s' ∧ ∀ q, q ≠ lost_packet_number x → get (unacked s'.1) q = get (unacked s.1) q.
Proof.
  intros HC Hi Hf. set (p := lost_packet_number x) in *. cbv zeta. unfold lose_packet. fold p.
  destruct (alive_get s p HC (in_flight_alive s p i HC Hi Hf)) as (i0&Hi0&Ha). rewrite Hi in Hi0. injection Hi0 as <-.
  destruct (loss_removes_from_inflight cfg) eqn:Efl.
  - change (on_map (λ m, RemoveFromInFlight m p) s) with (with_map s.1 (RemoveFromInFlight (unacked s.1) p), s.2).
    assert (Enil : s.2 = s.2 ++ []) by by rewrite app_nil_r. rewrite Enil at 1.
    split; [apply (leave_Mark_core s p i LOSS_RETRANSMISSION [] HC Hi Ha); [done..|by right]|].
    pose proof (upd_flight _ _ _ (c_map _ HC) Hi) as HU.
    destruct (Mark_upd (with_map s.1 (RemoveFromInFlight (unacked s.1) p), s.2) p (set_in_flight i false) LOSS_RETRANSMISSION (u_inv _ _ _ _ HU))
      as (m'&i'&->&HU2&_).
    { unfold decides. cbn. destruct (u_keep _ _ _ _ HU) as (_&_&E&_). rewrite E. apply (c_decides _ HC). }
    { by eapply upd_at. }
    intros q Hq. cbn. rewrite (u_get _ _ _ _ HU2), decide_False by done. cbn. by rewrite (u_get _ _ _ _ HU), decide_False.
  - destruct (Mark_upd s p i LOSS_RETRANSMISSION (c_map _ HC) (c_decides _ HC) Hi) as (m'&i'&->&HU&Ef&Es&Eflt).
    split; [|intros q Hq; cbn; by rewrite (u_get _ _ _ _ HU), decide_False].
    assert (Efl' : in_flight i' = false).
    { destruct (in_flight i'); [|done]. destruct (Eflt eq_refl) as [_ E]. rewrite Efl in E. done. }
    apply (change_core s m' p i i' _ HC Hi HU); try done.
    + by repeat constructor.
    + by right.
    + rewrite Es. split; [intros E; done|done].
    + by rewrite Es.
    + intros _ _. right. left. exists LOSS_RETRANSMISSION, i. split; [|done]. apply elem_of_app. right. by left.
Qed.

(** Losing the packets of a detection, in any order. *)
Lemma lose_all_core lost s :
  Core s → NoDup (map lost_packet_number lost) →
  (∀ x, x ∈ lost → ∃ i, get (unacked s.1) (lost_packet_number x) = Some i ∧ in_flight i = true) →
  quiet_step s (fold_left lose_packet lost s).
Proof.
  revert s. induction lost as [|x lost IH]; intros s HC Hnd Hl; cbn [fold_left]; [by apply quiet_refl|].
  cbn [map] in Hnd. apply NoDup_cons in Hnd as [Hx Hnd]. destruct (Hl x ltac:(left)) as (i&Hi&Hf).
  destruct (lose_core s x i HC Hi Hf) as [Hq Hg]. eapply quietly_trans; [exact Hq|]. apply IH; [apply Hq|done|].
  intros y Hy. rewrite Hg; [apply Hl; by right|]. intros E. apply Hx. rewrite <-E. by apply list_elem_of_fmap_2.
Qed.

(** What the detection changes besides. *)
Definition quiet_loss (s s' : io) : Prop :=
  Core s' ∧ keep (unacked s.1) (unacked s'.1) ∧ counts s'.1 = counts s.1 ∧ ∃ p, ack s'.1 = set_newly (ack s.1) p.

Lemma core_same s s' k :
  Core s → unacked s'.1 = unacked s.1 → pending_retransmissions s'.1 = pending_retransmissions s.1 →
  LossDetectionInterface.sane (loss_algorithm s'.1) → last_ack_packets (ack s'.1) = last_ack_packets (ack s.1) →
  s'.2 = s.2 ++ k → Forall neutral k → lost_numbers k = [] → Core s'.
Proof.
  intros [] E1 E2 Hs E3 E4 Hk Hl. split; rewrite ?E1, ?E2, ?E3; try done.
  - unfold decides in *. by rewrite E1.
  - unfold state_view in *. rewrite E1, E3, E4. by apply (view_log (get (unacked s.1))).
Qed.

Lemma core_same_state s s' :
  Core s → unacked s'.1 = unacked s.1 → pending_retransmissions s'.1 = pending_retransmissions s.1 →
  LossDetectionInterface.sane (loss_algorithm s'.1) → last_ack_packets (ack s'.1) = last_ack_packets (ack s.1) →
  s'.2 = s.2 → Core s'.
Proof. intros HC E1 E2 Hs E3 E4. apply (core_same s s' [] HC); try done. by rewrite app_nil_r. Qed.

Lemma InvokeLossDetection_core e time s :
  Core s → packets_lost s.1 = [] → quiet_loss s (InvokeLossDetection e time s).
Proof.
  intros HC Hl0. unfold InvokeLossDetection.
  set (s1 := match last (packets_acked (ack s.1)) with
             | Some x => (with_ack s.1 (set_newly (ack s.1) (acked_packet_number x)), s.2) | None => s end).
  assert (H1 : Core s1 ∧ (∃ p, ack s1.1 = set_newly (ack s.1) p) ∧ unacked s1.1 = unacked s.1 ∧ counts s1.1 = counts s.1
    ∧ packets_lost s1.1 = []).
  { subst s1. destruct (last _) as [x|]; [|split; [done|]; split; [exists (largest_newly_acked (ack s.1)); by destruct (ack s.1)|done]].
    split; [apply (core_same_state s); [done..|apply (c_sane _ HC)|done|done]|]. split; [by eexists|done]. }
  clearbody s1. destruct H1 as (HC1&(p&Ea)&Eu&Ec&El).
  pose proof (LossDetectionInterface.lost_in_flight (loss_algorithm s1.1) (unacked s1.1) time (rtt e) (largest_newly_acked (ack s1.1))
    (packets_acked (ack s1.1))) as Hin.
  pose proof (LossDetectionInterface.lost_once (loss_algorithm s1.1) (unacked s1.1) time (rtt e) (largest_newly_acked (ack s1.1))
    (packets_acked (ack s1.1)) (c_map _ HC1) (c_sane _ HC1)) as Hnd.
  pose proof (LossDetectionInterface.sane_detect (loss_algorithm s1.1) (unacked s1.1) time (rtt e) (largest_newly_acked (ack s1.1))
    (packets_acked (ack s1.1)) (c_sane _ HC1)) as Hsane.
  destruct (LossDetectionInterface.DetectLosses _ _ _ _ _ _) as [a lost]. cbn [fst snd] in *.
  set (s2 := (with_loss s1.1 a (packets_lost s1.1 ++ lost), s1.2)).
  assert (HC2 : Core s2) by (by apply (core_same_state s1)).
  assert (E2 : packets_lost s2.1 = lost) by (cbn; by rewrite El).
  change (quiet_loss s (fold_left lose_packet (packets_lost s2.1) s2)). rewrite E2.
  assert (Hlost : ∀ x, x ∈ lost → ∃ i, get (unacked s2.1) (lost_packet_number x) = Some i ∧ in_flight i = true).
  { intros x Hx. destruct (Hin x (c_map _ HC1) (c_sane _ HC1) Hx) as (Hle&i&Hi&Hf&_). exists i. split; [|done]. by apply get_some. }
  destruct (lose_all_core lost s2 HC2 Hnd Hlost) as (Q1&Q2&Q3). split; [done|].
  unfold only_map in Q2. split; [by rewrite <-Eu|]. rewrite Q2. split; [done|]. by exists p.
Qed.

(** *** Acknowledged packets *)

Lemma view_weaken g g' nx q q' l :
  View g nx q l → (∀ r j, g' r = Some j → g r = Some j) → (∀ r j, g r = Some j → in_flight j = true → g' r = Some j) →
  (∀ r j, g' r = Some j → IntervalSet.den q' r ↔ IntervalSet.den q r) → (∀ r, IntervalSet.den q' r → IntervalSet.den q r) →
  View g' nx q' l.
Proof.
  intros HV Hsub Hfl Hq Hsubq. split.
  - intros p i Hi. rewrite (Hq p i Hi). by apply (v_acked _ _ _ _ HV), Hsub.
  - intros p Hp. by apply (v_bound _ _ _ _ HV), Hsubq.
  - intros p i Hi. by apply (v_idle _ _ _ _ HV p), Hsub.
  - intros packet time bytes Hin. destruct (v_sent _ _ _ _ HV packet time bytes Hin) as [H1 H2]. split; [done|]. intros Hne.
    destruct (H2 Hne) as [(j&Hj&?&?&Hf)|?]; [left|by right]. exists j. split; [by apply Hfl|done].
  - apply (v_once _ _ _ _ HV).
  - intros p Hp. destruct (v_done _ _ _ _ HV p Hp) as [H1 H2]. split; [done|]. intros j Hj. by apply H2, Hsub.
  - apply (v_twice _ _ _ _ HV).
  - apply (v_lost_once _ _ _ _ HV).
  - intros p Hp. destruct (v_lost _ _ _ _ HV p Hp) as [H1 H2]. split; [done|]. intros j Hj. by apply H2, Hsub.
Qed.

(** A packet that was not acknowledged is. *)
Lemma view_ack g g' nx q q' l p i i' calls k :
  View g nx q l → g p = Some i → p < nx → state i ≠ ACKED → (∀ r, g' r = if decide (r = p) then Some i' else g r) →
  state i' = ACKED → in_flight i' = false → retransmittable_frames i' = [] →
  (∀ r, IntervalSet.den q' r ↔ IntervalSet.den q r ∨ r = p) → Forall neutral k → lost_numbers k = [] →
  View g' nx q' (l ++ PacketAcked p i calls :: k).
Proof.
  intros HV Hp Hpn Hna Hg Hs' Hf' Hfr' Hq Hk Hl.
  assert (Hneu : ∀ x, x ∈ k → neutral x) by (by apply Forall_forall).
  assert (En : acked_numbers (l ++ PacketAcked p i calls :: k) = acked_numbers l ++ [p]).
  { rewrite acked_numbers_app. cbn. change (omap _ k) with (acked_numbers k). by rewrite (neutral_acked k Hk). }
  assert (El : lost_numbers (l ++ PacketAcked p i calls :: k) = lost_numbers l).
  { rewrite lost_numbers_app. cbn. change (omap _ k) with (lost_numbers k). by rewrite Hl, app_nil_r. }
  assert (Hnew : ∀ r j, g' r = Some j → r = p ∧ j = i' ∨ r ≠ p ∧ g r = Some j).
  { intros r j. rewrite Hg. destruct (decide (r = p)); [intros [= <-]; by left|by right]. }
  split; rewrite ?En, ?El.
  - intros r j [[-> ->]|[Hne Hj]]%Hnew; rewrite Hq; [split; [by right|done]|]. rewrite (v_acked _ _ _ _ HV r j Hj). tauto.
  - intros r [Hr| ->]%Hq; [by apply (v_bound _ _ _ _ HV)|done].
  - intros r j [[-> ->]|[Hne Hj]]%Hnew; [done|by apply (v_idle _ _ _ _ HV r)].
  - intros packet time bytes [Hin|[Hin|Hin]%elem_of_cons]%elem_of_app; [|done|by apply Hneu in Hin].
    destruct (v_sent _ _ _ _ HV packet time bytes Hin) as [H1 H2]. split; [done|]. intros Hne.
    destruct (H2 Hne) as [(j&Hj&Ef&Es&Efl)|Hset]; [|right; by apply settled_app].
    destruct (decide (packet_number packet = p)) as [E|Hne2].
    + right. left. rewrite E in *. exists i, calls. split; [apply elem_of_app; right; by left|]. congruence.
    + left. exists j. by rewrite Hg, decide_False.
  - apply NoDup_app. split; [apply (v_once _ _ _ _ HV)|]. split; [|apply NoDup_singleton].
    intros r Hr ->%list_elem_of_singleton. destruct (v_done _ _ _ _ HV p Hr) as [_ H2]. by apply Hna, H2.
  - intros r [Hr| ->%list_elem_of_singleton]%elem_of_app.
    + destruct (v_done _ _ _ _ HV r Hr) as [H1 H2]. split; [done|]. intros j [[-> ->]|[_ Hj]]%Hnew; [done|by apply H2].
    + split; [done|]. intros j [[_ ->]|[? _]]%Hnew; [done|congruence].
  - intros r [Hin|[Hin|Hin]%elem_of_cons]%elem_of_app; [by eapply v_twice|done|by apply Hneu in Hin].
  - apply (v_lost_once _ _ _ _ HV).
  - intros r Hr. destruct (v_lost _ _ _ _ HV r Hr) as [H1 H2]. split; [done|]. intros j [[-> ->]|[_ Hj]]%Hnew; [done|by apply H2].
Qed.

Lemma upd_same m m' p i :
  get m p = Some i → Inv m' → keep m m' → (∀ q, get m' q = get m q) → Upd m m' p i.
Proof. intros Hi HI HK Hg. split; [done..|]. intros q. rewrite Hg. destruct (decide (q = p)) as [->|]; [done|done]. Qed.

Lemma upd_aggregated m p i f : Inv m → get m p = Some i → Upd m (with_aggregated m f) p i.
Proof. intros HI Hi. apply upd_same; [done|by apply (Inv_same m)|done|done]. Qed.

(** The rest of a state, which acknowledging a packet does not touch. *)
Definition same_rest (s s' : io) : Prop :=
  pending_retransmissions s'.1 = [] ∧ ack s'.1 = ack s.1 ∧ packets_lost s'.1 = packets_lost s.1 ∧ counts s'.1 = counts s.1
  ∧ (LossDetectionInterface.sane (loss_algorithm s.1) → LossDetectionInterface.sane (loss_algorithm s'.1)).

Lemma tell_acked_spec e p i d r s :
  decides s = true → pending_retransmissions s.1 = [] → let s' := tell_acked e p i d r s in
  ∃ f calls k, unacked s'.1 = with_aggregated (unacked s.1) f ∧ s'.2 = s.2 ++ PacketAcked p i calls :: k
    ∧ Forall neutral k ∧ lost_numbers k = [] ∧ same_rest s s'.
Proof.
  intros Hs Hp. cbv zeta. unfold tell_acked. rewrite Hs. cbn [andb].
  destruct (bool_decide (transmission_type i = NOT_RETRANSMISSION)) eqn:Et; cbn [negb].
  - assert (Hf : ∃ f, (MaybeAggregateAckedStreamFrame (unacked s.1) i d r).1 = with_aggregated (unacked s.1) f).
    { unfold MaybeAggregateAckedStreamFrame. destruct (negb _); [|apply aggregate_keeps].
      exists (aggregated_stream_frame (unacked s.1)). by destruct (unacked s.1). }
    destruct Hf as [f Ef]. destruct (MaybeAggregateAckedStreamFrame _ _ _ _) as [m calls]. cbn in Ef. subst m.
    exists f, calls, []. done.
  - destruct (Notify_keeps (unacked s.1) d) as [f Ef]. destruct (NotifyAggregatedStreamFrameAcked _ _) as [m c1]. cbn in Ef. subst m.
    destruct (NotifyFramesAcked _ _ _ _ _) as [fresh c2].
    set (s1 := log _ _). assert (Hs1 : decides s1 = true) by done.
    rewrite andb_true_r. destruct (negb fresh); rewrite ?andb_false_r, ?andb_true_r; cbn [andb].
    + unfold RecordSpuriousRetransmissions. rewrite Hs1. exists f, (c1 ++ c2), [SpuriousRetransmission (bytes_sent i)].
      assert (E : s1.2 ++ [SpuriousRetransmission (bytes_sent i)]
                  = s.2 ++ PacketAcked p i (c1 ++ c2) :: [SpuriousRetransmission (bytes_sent i)])
        by (unfold s1; cbn; by rewrite <-app_assoc).
      destruct (bool_decide (transmission_type i = LOSS_RETRANSMISSION)).
      * split; [done|]. split; [exact E|]. split; [by repeat constructor|]. split; [done|].
        split_and!; try done. cbn. intros. by apply LossDetectionInterface.sane_spurious.
      * split; [done|]. split; [exact E|]. split; [by repeat constructor|]. done.
    + exists f, (c1 ++ c2), []. done.
Qed.

Lemma MarkPacketHandled_spec e p i d r s :
  Inv (unacked s.1) → decides s = true → pending_retransmissions s.1 = [] → get (unacked s.1) p = Some i →
  let s' := MarkPacketHandled e p i d r s in
  ∃ i' calls k, Upd (unacked s.1) (unacked s'.1) p i' ∧ state i' = ACKED ∧ in_flight i' = false
    ∧ retransmittable_frames i' = [] ∧ s'.2 = s.2 ++ PacketAcked p i calls :: k ∧ Forall neutral k ∧ lost_numbers k = []
    ∧ same_rest s s'.
Proof.
  intros HI Hs Hp Hi. cbv zeta. unfold MarkPacketHandled, GetNewestRetransmission.
  unfold decides in Hs. rewrite Hs, Z.eqb_refl. rewrite Hp. cbn [erase List.filter].
  set (s1 := (with_pending s.1 [], s.2)).
  destruct (tell_acked_spec e p i d r s1 Hs eq_refl) as (f&calls&k&Eu&El&Hk&Hl&Hrest). set (s2 := tell_acked _ _ _ _ _ s1) in *.
  set (s3 := if _ : bool then _ else s2).
  assert (H3 : unacked s3.1 = with_aggregated (unacked s.1) f ∧ ∃ k', s3.2 = s.2 ++ PacketAcked p i calls :: k'
    ∧ Forall neutral k' ∧ lost_numbers k' = [] ∧ same_rest s s3).
  { subst s3. destruct (_ && _); [|split; [done|]; by exists k]. split; [done|]. exists (k ++ [OnPathMtuIncreased (bytes_sent i)]).
    split; [change (s2.2 ++ [OnPathMtuIncreased (bytes_sent i)] = s.2 ++ PacketAcked p i calls :: k ++ [OnPathMtuIncreased (bytes_sent i)]);
      rewrite El, <-app_assoc; done|]. split; [apply Forall_app; split; [done|by repeat constructor]|].
    split; [by rewrite lost_numbers_app, Hl|]. destruct Hrest as (?&?&?&?&?). by split_and!. }
  clearbody s3. destruct H3 as (E3&k'&El3&Hk3&Hl3&Hrest3).
  pose proof (upd_aggregated _ _ _ f HI Hi) as U0. rewrite <-E3 in U0.
  pose proof (upd_flight _ _ _ (u_inv _ _ _ _ U0) (upd_at _ _ _ _ U0)) as U1. pose proof (upd_trans _ _ _ _ _ _ U0 U1) as U01.
  destruct (u_keep _ _ _ _ U01) as (_&_&Ed&_).
  pose proof (upd_forget _ _ _ (u_inv _ _ _ _ U01) ltac:(by rewrite Ed) (upd_at _ _ _ _ U01)) as U2.
  pose proof (upd_state _ _ _ ACKED (u_inv _ _ _ _ U2) (upd_at _ _ _ _ U2)) as U3.
  pose proof (upd_trans _ _ _ _ _ _ (upd_trans _ _ _ _ _ _ U01 U2) U3) as U.
  eexists _, calls, k'. split; [exact U|]. by split_and!.
Qed.

(** An error names a packet that was never sent, cannot be acknowledged or belongs to another space. *)
Definition error_justified (m : map_t) (level : EncryptionLevel) (error : AckResult) (i : QuicTransmissionInfo) : Prop :=
  match error with
  | UNSENT_PACKETS_ACKED => state i = NEVER_SENT
  | UNACKABLE_PACKETS_ACKED => state i = UNACKABLE
  | PACKETS_ACKED_IN_WRONG_PACKET_NUMBER_SPACE =>
      QuicUtils_GetPacketNumberSpace level ≠ GetPacketNumberSpace m (encryption_level i)
  | _ => False
  end.

Lemma error_justified_kind m m' level error i :
  supports_multiple_packet_number_spaces m = supports_multiple_packet_number_spaces m' → perspective m = perspective m' →
  error_justified m level error i → error_justified m' level error i.
Proof. intros E1 E2. destruct error; cbn; try done. unfold GetPacketNumberSpace. by rewrite E1, E2. Qed.

(** What the handling of one acknowledged packet leaves alone. *)
Definition handled_one (s s' : io) (p : Z) : Prop :=
  Core s' ∧ keep (unacked s.1) (unacked s'.1) ∧ (∀ q, q ≠ p → get (unacked s'.1) q = get (unacked s.1) q)
  ∧ (∀ q, IntervalSet.den (last_ack_packets (ack s'.1)) q → IntervalSet.den (last_ack_packets (ack s.1)) q ∨ q = p)
  ∧ packets_acked (ack s'.1) = packets_acked (ack s.1) ∧ packets_lost s'.1 = packets_lost s.1 ∧ counts s'.1 = counts s.1
  ∧ s.2 ⊆ s'.2.

Lemma handled_none s k p : Core s → Forall neutral k → lost_numbers k = [] → handled_one s (log s k) p.
Proof.
  intros HC Hk Hl. split; [by apply (core_same s _ k); [done|done|done|apply (c_sane _ HC)|..]|].
  split; [done|]. split; [done|]. split; [by left|]. do 3 (split; [done|]). intros x Hx. apply elem_of_app. by left.
Qed.

Lemma IsAckable_cases x : IsAckable x = true ↔ x ≠ NEVER_SENT ∧ x ≠ ACKED ∧ x ≠ UNACKABLE.
Proof. destruct x; unfold IsAckable; repeat (rewrite ?bool_decide_eq_true_2, ?bool_decide_eq_false_2 by done); naive_solver. Qed.

Lemma handle_acked_spec e level x s i :
  Core s → alive s (acked_packet_number x) → get (unacked s.1) (acked_packet_number x) = Some i →
  let p := acked_packet_number x in
  let '(r, x', s') := handle_acked e level x s in
  handled_one s s' p ∧ acked_packet_number x' = p
  ∧ (r = None → IsAckable (state i) = true → ∃ calls, PacketAcked p i calls ∈ s'.2)
  ∧ (∀ error, r = Some error → supports_multiple_packet_number_spaces (unacked s.1) = true
       ∧ error_justified (unacked s.1) level error i).
Proof.
  intros HC Hal Hi p. fold p in Hal, Hi. unfold handle_acked. fold p. pose proof Hi as [_ ->]%get_some.
  destruct (alive_get s p HC Hal) as (i0&Hi0&Hna). rewrite Hi in Hi0. injection Hi0 as <-.
  destruct (IsAckable (state i)) eqn:Ea; cbn [negb].
  2:{ rewrite (bool_decide_eq_false_2 _ Hna).
      assert (Hone : handled_one s (log s [UnackableAcked p]) p) by (apply handled_none; [done|by repeat constructor|done]).
      destruct (supports_multiple_packet_number_spaces (unacked s.1)) eqn:Esp; [|by split_and!].
      split; [done|]. split; [done|]. split; [done|]. intros error [= <-]. split; [done|].
      destruct (state i) eqn:Est; first [done|exact Est|exfalso; revert Ea; vm_compute; done]. }
  set (space := GetPacketNumberSpace _ _).
  destruct (_ && negb _) eqn:Espace.
  { split; [|split; [done|]; split; [done|]].
    - replace s with (log s []) at 2 by (unfold log; rewrite app_nil_r; by destruct s). by apply handled_none.
    - intros error [= <-]. apply andb_true_iff in Espace as [E1 E2]. split; [done|]. cbn. fold space.
      by apply negb_true_iff, bool_decide_eq_false in E2. }
  clear Espace. set (a := set_last _ _ _).
  set (s1 := on_map _ _). set (d := last_ack_delay (ack s1.1)). set (x1 := if in_flight i then _ else x).
  assert (H1 : Inv (unacked s1.1)) by (apply (Inv_same (unacked s.1)); [apply (c_map _ HC)|done..]).
  destruct (MarkPacketHandled_spec e p i d (receive_timestamp x1) s1 H1 (c_decides _ HC) (c_pending _ HC) Hi)
    as (i'&calls&k&HU&Es&Ef&Er&El&Hk&Hl&R1&R2&R3&R4&R5).
  set (s2 := MarkPacketHandled _ _ _ _ _ s1) in *.
  assert (HK : keep (unacked s.1) (unacked s2.1)) by exact (u_keep _ _ _ _ HU).
  assert (Hq : last_ack_packets (ack s2.1) = PacketNumberQueue.Add (last_ack_packets (ack s.1)) p).
  { rewrite R2. cbn. destruct (in_flight i); done. }
  assert (Hpk : PacketNumber.ok p).
  { pose proof (ig_small _ _ _ (proj1 (c_map _ HC))). pose proof (ig_least _ _ _ (proj1 (c_map _ HC))).
    destruct Hal as [Hr _]. unfold PacketNumber.ok, two62, two64 in *. lia. }
  pose proof (PacketNumberQueue.Add_adds _ p (c_queue _ HC) Hpk) as Hadd.
  assert (Hden : ∀ r, IntervalSet.den (last_ack_packets (ack s2.1)) r ↔ IntervalSet.den (last_ack_packets (ack s.1)) r ∨ r = p).
  { intros r. rewrite Hq. destruct Hadd as [_ ->]. assert (p <= r < p + 1 ↔ r = p) by lia. tauto. }
  assert (Hx1 : acked_packet_number x1 = p) by (unfold x1; by destruct (in_flight i)).
  split; [|split; [done|split]].
  - split; [|split; [done|split; [|split; [|split; [|split; [|split]]]]]].
    + split.
      * by eapply u_inv.
      * destruct HK as (_&_&E&_). unfold decides. rewrite E. apply (c_decides _ HC).
      * done.
      * apply R5. apply (c_sane _ HC).
      * rewrite Hq. apply (PacketNumberQueue.adds_wf _ _ p (p + 1) (c_queue _ HC) Hadd); [done|unfold PacketNumber.ok in Hpk; lia].
      * unfold state_view. rewrite El. destruct HK as (_&->&_).
        by apply (view_ack (get (unacked s.1)) _ _ (last_ack_packets (ack s.1)) _ _ p i i' calls k (c_view _ HC) Hi (proj2 (get_range _ _ _ Hi)) Hna (u_get _ _ _ _ HU)).
    + intros q Hne. rewrite (u_get _ _ _ _ HU), decide_False by done. done.
    + intros q. rewrite Hden. tauto.
    + rewrite R2. cbn. by destruct (in_flight i).
    + by rewrite R3.
    + by rewrite R4.
    + rewrite El. intros y Hy. apply elem_of_app. by left.
  - intros _ _. exists calls. rewrite El. apply elem_of_app. right. by left.
  - done.
Qed.

Lemma handle_all_spec e level todo handled s :
  Core s → NoDup (map acked_packet_number todo) → (∀ x, x ∈ todo → alive s (acked_packet_number x)) →
  let '(r, acked, s') := handle_all e level todo handled s in
  Core s' ∧ keep (unacked s.1) (unacked s'.1) ∧ length acked = length (handled ++ todo) ∧ packets_lost s'.1 = packets_lost s.1
  ∧ s.2 ⊆ s'.2
  ∧ (r = None → ∀ x i, x ∈ todo → get (unacked s.1) (acked_packet_number x) = Some i → IsAckable (state i) = true →
       ∃ calls, PacketAcked (acked_packet_number x) i calls ∈ s'.2)
  ∧ (∀ error, r = Some error → ∃ x i, x ∈ todo ∧ get (unacked s.1) (acked_packet_number x) = Some i
       ∧ supports_multiple_packet_number_spaces (unacked s.1) = true ∧ error_justified (unacked s.1) level error i).
Proof.
  revert handled s. induction todo as [|x todo IH]; intros handled s HC Hnd Hal; cbn [handle_all].
  { rewrite app_nil_r. split_and!; try done. intros _ x i Hx. by apply elem_of_nil in Hx. }
  cbn [map] in Hnd. apply NoDup_cons in Hnd as [Hx Hnd]. pose proof (Hal x ltac:(left)) as Hax.
  destruct (alive_get s _ HC Hax) as (i&Hi&_).
  pose proof (handle_acked_spec e level x s i HC Hax Hi) as Hone. cbv zeta in Hone.
  destruct (handle_acked e level x s) as [[r x'] s1]. destruct Hone as ((H1&H2&H3&H4&H5&H6&H7&H8)&Ex&Hack&Herr).
  destruct r as [error|].
  - split; [done|]. split; [done|]. split; [rewrite !length_app; done|]. split; [done|]. split; [done|]. split; [done|].
    intros e0 [= <-]. destruct (Herr error eq_refl). exists x, i. split; [left|done].
  - assert (Hne : ∀ y, y ∈ todo → acked_packet_number y ≠ acked_packet_number x).
    { intros y Hy E. apply Hx. rewrite <-E. by apply list_elem_of_fmap_2. }
    specialize (IH (handled ++ [x']) s1 H1 Hnd). destruct H2 as (K1&K2&K3&K4).
    destruct (handle_all e level todo (handled ++ [x']) s1) as [[r acked] s2]. destruct IH as (I1&I2&I3&I4&I5&I6&I7).
    { intros y Hy. destruct (Hal y ltac:(by right)) as [Hr Hn]. split; [by rewrite K1, K2|]. intros [Hd|Hd]%H4; [done|by apply (Hne y)]. }
    split; [done|]. split; [destruct I2 as (?&?&?&?); split_and!; congruence|].
    split; [rewrite I3, !length_app; cbn; lia|]. split; [congruence|]. split; [by etrans|]. split.
    + intros -> y j [->|Hy]%elem_of_cons Hj Ha.
      * rewrite Hi in Hj. injection Hj as <-. destruct (Hack eq_refl Ha) as [calls Hc]. exists calls. by apply I5.
      * apply (I6 eq_refl y j Hy); [|done]. rewrite H3; [done|by apply Hne].
    + intros error E. destruct (I7 error E) as (y&j&Hy&Hj&Hsp&Hje). exists y, j. split; [by right|].
      split; [rewrite <-H3; [done|by apply Hne]|]. unfold kind in K4. injection K4 as K5 K6 K7. split; [congruence|].
      by apply (error_justified_kind (unacked s1.1)).
Qed.

(** Between ACK frames nothing is left to tell the congestion control. *)
Definition rested (s : io) : Prop := packets_acked (ack s.1) = [] ∧ packets_lost s.1 = [].

Lemma congestion_core b prior time s :
  Core s → let s' := MaybeInvokeCongestionEvent b prior time s in
  Core s' ∧ rested s' ∧ keep (unacked s.1) (unacked s'.1) ∧ s.2 ⊆ s'.2
  ∧ last_ack_packets (ack s'.1) = last_ack_packets (ack s.1) ∧ unacked s'.1 = unacked s.1.
Proof.
  intros HC. cbv zeta. unfold MaybeInvokeCongestionEvent.
  destruct (negb b && (zlen (packets_acked (ack s.1)) =? 0) && (zlen (packets_lost s.1) =? 0)) eqn:E.
  - split; [done|]. apply andb_true_iff in E as [[_ E1]%andb_true_iff E2]. split; [|done].
    unfold rested, zlen in *. destruct (packets_acked _), (packets_lost _); done.
  - set (k := _ :: _). split; [|split; [done|split; [done|split; [|done]]]].
    + apply (core_same s _ k HC); [done|done|apply (c_sane _ HC)|done|done|subst k; destruct (has_network_change_visitor cfg); by repeat constructor|].
      subst k. by destruct (has_network_change_visitor cfg).
    + intros x Hx. apply elem_of_app. by left.
Qed.

Lemma obsolete_get m :
  Inv m → session_decides_what_to_write m = true → let m' := RemoveObsoletePackets m in
  Inv m' ∧ next_packet m' = next_packet m ∧ session_decides_what_to_write m' = true
  ∧ (∀ r j, get m' r = Some j ↔ get m r = Some j ∧ least_unacked m' <= r)
  ∧ (∀ r j, get m r = Some j → in_flight j = true → get m' r = Some j)
  ∧ least_unacked m <= least_unacked m' <= next_packet m.
Proof.
  intros HI Hs. cbv zeta. pose proof HI as [HG Hn]. destruct (RemoveObsoletePackets_inv _ _ _ HG) as (HG'&En&El&Es).
  assert (HI' : Inv (RemoveObsoletePackets m)) by (split; [by rewrite En|by rewrite En, El]).
  assert (Hiff : ∃ dropped, unacked_packets m = dropped ++ unacked_packets (RemoveObsoletePackets m)
    ∧ least_unacked (RemoveObsoletePackets m) = least_unacked m + zlen dropped
    ∧ ∀ i, i ∈ dropped → in_flight i = false).
  { unfold RemoveObsoletePackets.
    pose proof (drop_useless_spec m (unacked_packets m) (least_unacked m) ltac:(pose proof (ig_least _ _ _ HG); lia)
      ltac:(pose proof (ig_small _ _ _ HG); unfold next_packet, two62, two64 in *; lia)) as Hd.
    destruct (drop_useless m _ _) as [l least]. destruct Hd as (dropped&E&->&Hu&_). exists dropped. split; [done|]. split; [done|].
    intros i [n Hi]%list_elem_of_lookup_1. by destruct (useless_holds_nothing _ _ _ (Hu n i Hi)). }
  destruct Hiff as (dropped&E&Ell&Hdr). pose proof (zlen_nonneg dropped) as Hz.
  assert (Hge : ∀ r, least_unacked (RemoveObsoletePackets m) <= r → get (RemoveObsoletePackets m) r = get m r).
  { intros r Hr. unfold get, GetTransmissionInfo, index. rewrite !(proj2 (Z.ltb_ge _ _)) by lia. rewrite E, Ell.
    rewrite lookup_app_r by (unfold zlen in *; lia). f_equal. unfold zlen in *. lia. }
  split; [done|]. split; [done|]. split; [congruence|]. split; [|split].
  - intros r j. split.
    + intros Hj. pose proof (get_range _ _ _ Hj). rewrite <-Hge by lia. split; [done|lia].
    + intros [Hj Hr]. by rewrite Hge.
  - intros r j Hj Hf. destruct (Z.lt_ge_cases r (least_unacked (RemoveObsoletePackets m))) as [Hlt|Hle]; [|by rewrite Hge].
    exfalso. pose proof (get_range _ _ _ Hj). apply get_some in Hj as [_ Hj]. unfold GetTransmissionInfo, index in Hj.
    rewrite E, lookup_app_l in Hj by (unfold zlen in *; lia). specialize (Hdr j ltac:(by eapply list_elem_of_lookup_2)). congruence.
  - pose proof (zlen_nonneg (unacked_packets (RemoveObsoletePackets m))). unfold next_packet. rewrite E, zlen_app. lia.
Qed.

Lemma obsolete_core s : Core s → Core (on_map RemoveObsoletePackets s).
Proof.
  intros HC. destruct (obsolete_get _ (c_map _ HC) (c_decides _ HC)) as (HI&En&Es&Hg&Hf&_). destruct HC as [? ? ? ? ? HV].
  split; [done..|]. unfold state_view in *. cbn. rewrite En.
  apply (view_weaken (get (unacked s.1)) _ _ (last_ack_packets (ack s.1)) _ _ HV); try done. intros r j Hj. by apply Hg.
Qed.

Lemma reset_core s :
  Core s → Core (reset_backoff s) ∧ ack (reset_backoff s).1 = ack s.1 ∧ packets_lost (reset_backoff s).1 = packets_lost s.1.
Proof.
  intros HC. unfold reset_backoff. cbv zeta.
  assert (H0 : ∀ k, Forall neutral k → lost_numbers k = [] →
    Core (with_counts s.1 (set_crypto_count (set_tlp (set_rto (counts s.1) (first_rto_transmission (counts s.1)) 0) 0) 0), s.2 ++ k)).
  { intros k Hk Hl. by apply (core_same s _ k); [done|done|done|apply (c_sane _ HC)|..]. }
  pose proof (H0 [] ltac:(done) eq_refl) as Hn. rewrite app_nil_r in Hn.
  destruct (0 <? _); [destruct (_ <? _); [|destruct (negb _)]|]; (split; [|done]); cbn [log fst snd]; try exact Hn;
    apply H0; by repeat constructor.
Qed.

Lemma PostProcess_core e time prior s :
  Core s → packets_lost s.1 = [] → let s' := PostProcessNewlyAckedPackets e time prior s in Core s' ∧ rested s'.
Proof.
  intros HC Hl. cbv zeta. unfold PostProcessNewlyAckedPackets. rewrite (c_decides _ HC).
  destruct (Notify_keeps (unacked s.1) (last_ack_delay (ack s.1))) as [f Ef].
  destruct (NotifyAggregatedStreamFrameAcked _ _) as [m calls]. cbn in Ef. subst m.
  set (s1 := log _ _). assert (HC1 : Core s1).
  { apply (core_map s _ [SessionCalls calls]); [done|apply (Inv_same (unacked s.1)); [apply (c_map _ HC)|done..]|apply (c_decides _ HC)|].
    apply (view_log (get (unacked s.1)) _ _ _ _ _ (c_view _ HC)); [done|by repeat constructor|done]. }
  destruct (InvokeLossDetection_core e time s1 HC1 Hl) as (HC2&_). set (s2 := InvokeLossDetection e time s1) in *. clearbody s2.
  set (s3 := if _ : bool then (with_loss s2.1 _ _, s2.2) else s2).
  assert (HC3 : Core s3) by (subst s3; destruct (_ && _); [by apply (core_same_state s2); [done|done|done|apply (c_sane _ HC2)|done|done]|done]).
  clearbody s3. destruct (congestion_core (rtt_updated (ack s.1)) prior time s3 HC3) as (HC4&Hr4&_).
  set (s4 := MaybeInvokeCongestionEvent _ _ _ s3) in *. clearbody s4.
  pose proof (obsolete_core s4 HC4) as HC5. set (s5 := on_map RemoveObsoletePackets s4) in *.
  assert (Hr5 : rested s5) by done. clearbody s5.
  set (s6 := if rtt_updated (ack s.1) then reset_backoff s5 else s5).
  assert (H6 : Core s6 ∧ rested s6).
  { subst s6. destruct (rtt_updated (ack s.1)); [|done]. destruct (reset_core s5 HC5) as (H1&H2&H3). split; [done|].
    unfold rested. by rewrite H2, H3. }
  destruct H6 as [HC6 Hr6]. clearbody s6. split; [|done].
  pose proof (ig_least _ _ _ (proj1 (c_map _ HC6))) as G1. pose proof (ig_small _ _ _ (proj1 (c_map _ HC6))) as G2.
  assert (Hi : IsInitialized (least_unacked (unacked s6.1)) = true).
  { apply ok_initialized. unfold ok, next_packet in *. pose proof (zlen_nonneg (unacked_packets (unacked s6.1))).
    unfold two62, two64 in *. lia. }
  pose proof (PacketNumberQueue.RemoveUpTo_lemma (last_ack_packets (ack s6.1)) _ (c_queue _ HC6) Hi) as Hrm. unfold GetLeastUnacked.
  destruct (PacketNumberQueue.RemoveUpTo _ _) as [q removed]. destruct Hrm as (Hwf&Hd&_). destruct HC6 as [? ? ? ? ? HV]. split; [done..|].
  unfold state_view in *. cbn. apply (view_weaken (get (unacked s6.1)) _ _ (last_ack_packets (ack s6.1)) _ _ HV); try done.
  - intros r j Hj. pose proof (get_range _ _ _ Hj). rewrite Hd. split; [tauto|]. split; [done|lia].
  - intros r Hr. by apply Hd.
Qed.

(** *** The ranges of an ACK frame *)

Lemma descend_spec n hi lo :
  1 <= lo → (Z.to_nat (hi + 1 - lo) <= n)%nat →
  (∀ z, z ∈ descend n hi lo ↔ lo <= z <= hi) ∧ StronglySorted (λ x y, y < x) (descend n hi lo).
Proof.
  revert hi. induction n as [|n IH]; intros hi Hlo Hn; cbn [descend].
  { split; [|constructor]. intros z. rewrite elem_of_nil. lia. }
  destruct (Z.leb_spec lo hi) as [Hle|Hgt]; [|split; [intros z; rewrite elem_of_nil; lia|constructor]].
  destruct (Z.eqb_spec hi FirstSendingPacketNumber) as [E|E]; unfold FirstSendingPacketNumber in E.
  - split; [|by repeat constructor]. intros z. rewrite list_elem_of_singleton. lia.
  - destruct (IH (hi - 1) Hlo ltac:(lia)) as [H1 H2]. split.
    + intros z. rewrite elem_of_cons, H1. lia.
    + constructor; [done|]. apply Forall_forall. intros z Hz. apply H1 in Hz. lia.
Qed.

(** Intervals from the largest down. *)
Definition descending (l : list interval) : Prop := IntervalSet.valid (rev l).

Lemma descending_cons i l :
  descending (i :: l) ↔ descending l ∧ imin i < imax i ∧ ∀ j, j ∈ l → imax j < imin i.
Proof.
  unfold descending. cbn [rev]. rewrite IntervalSet.valid_app_elem, IntervalSet.valid_cons_elem. setoid_rewrite list_elem_of_singleton.
  split.
  - intros (H1&(H2&_)&H3). split; [done|]. split; [done|]. intros j Hj. apply H3; [|done]. by rewrite list_elem_of_In, <-in_rev, <-list_elem_of_In.
  - intros (H1&H2&H3). split; [done|]. split.
    + split; [done|]. split; [apply IntervalSet.valid_nil|]. intros j Hj. by apply elem_of_nil in Hj.
    + intros j k Hj ->. apply H3. by rewrite list_elem_of_In, in_rev, <-list_elem_of_In.
Qed.

Lemma den_below l lo z : (∀ j, j ∈ l → imax j < lo) → lo <= z → ¬ IntervalSet.den l z.
Proof. intros Hl Hz (j&Hj&Hd)%IntervalSet.den_elem. specialize (Hl j Hj). unfold Interval.den in Hd. lia. Qed.

Lemma numbers_sorted_app (l k : list Z) :
  StronglySorted (λ x y, y < x) l → StronglySorted (λ x y, y < x) k → (∀ x y, x ∈ l → y ∈ k → y < x) →
  StronglySorted (λ x y, y < x) (l ++ k).
Proof.
  intros Hl Hk Hx. induction Hl as [|x l Hl IH Hf]; [done|]. cbn. constructor.
  - apply IH. intros a b Ha Hb. apply Hx; [by right|done].
  - apply Forall_app. split; [done|]. apply Forall_forall. intros y Hy. apply Hx; [by left|done].
Qed.

Lemma ack_range_spec iter lo hi :
  descending iter → 1 <= lo < hi →
  let '(l, it) := ack_range iter lo hi in
  (∀ z, z ∈ l ↔ lo <= z < hi ∧ ¬ IntervalSet.den iter z) ∧ StronglySorted (λ x y, y < x) l
  ∧ ∃ skipped, iter = skipped ++ it ∧ ∀ i, i ∈ skipped → lo <= imin i.
Proof.
  revert hi. induction iter as [|i rest IH]; intros hi Hd Hr; cbn [ack_range].
  { destruct (descend_spec (Z.to_nat (hi - lo)) (hi - 1) lo ltac:(lia) ltac:(lia)) as [H1 H2].
    split; [|split; [done|exists []; split; [done|intros j Hj; by apply elem_of_nil in Hj]]].
    intros z. rewrite H1, IntervalSet.den_nil. lia. }
  apply descending_cons in Hd as (Hd&Hi&Hbelow).
  destruct (descend_spec (Z.to_nat (hi - Z.max lo (imax i))) (hi - 1) (Z.max lo (imax i)) ltac:(lia) ltac:(lia)) as [H1 H2].
  assert (Hnew : ∀ z, z ∈ descend (Z.to_nat (hi - Z.max lo (imax i))) (hi - 1) (Z.max lo (imax i)) ↔
    lo <= z < hi ∧ imax i <= z) by (intros z; rewrite H1; lia).
  assert (Hden : ∀ z, ¬ IntervalSet.den (i :: rest) z ↔ (z < imin i ∨ imax i <= z) ∧ ¬ IntervalSet.den rest z).
  { intros z. rewrite IntervalSet.den_cons. unfold Interval.den.
    assert ((z < imin i ∨ imax i <= z) ↔ ¬ imin i <= z < imax i) by lia. tauto. }
  assert (Hrest : ∀ z, imin i <= z → ¬ IntervalSet.den rest z) by (intros z; by apply den_below).
  destruct (Z.ltb_spec (imin i) lo) as [Hlt|Hge].
  { split; [|split; [done|exists []; split; [done|intros j Hj; by apply elem_of_nil in Hj]]].
    intros z. rewrite Hnew, Hden. split; [intros [? ?]; split; [done|]; split; [lia|apply Hrest; lia]|]. intros (?&[?|?]&_); lia. }
  destruct (Z.ltb_spec lo (Z.min hi (imin i))) as [Hgo|Hstop].
  - specialize (IH (Z.min hi (imin i)) Hd ltac:(lia)). destruct (ack_range rest lo (Z.min hi (imin i))) as [l it].
    destruct IH as (I1&I2&(skipped&->&I3)). split; [|split].
    + intros z. rewrite elem_of_app, Hnew, I1, Hden. split.
      * intros [[? ?]|[? ?]]; (split; [lia|]); (split; [lia|]); [apply Hrest; lia|done].
      * intros (?&[?|?]&?); [right; split; [lia|done]|left; lia].
    + apply numbers_sorted_app; [done..|]. intros x y Hx%Hnew Hy%I1. lia.
    + exists (i :: skipped). split; [done|]. intros j [->|Hj]%elem_of_cons; [done|by apply I3].
  - split; [|split; [done|exists [i]; split; [done|intros j ->%list_elem_of_singleton; done]]].
    intros z. rewrite Hnew, Hden. split; [intros [? ?]; split; [done|]; split; [lia|apply Hrest; lia]|]. intros (?&[?|?]&_); lia.
Qed.

(** The ranges of an ACK frame come from the largest down, without touching. *)
Fixpoint ranges_below (bound : Z) (ranges : list (Z * Z)) : Prop :=
  match ranges with
  | [] => True
  | (lo, hi) :: ranges => 1 <= lo < hi ∧ hi <= bound ∧ ranges_below lo ranges
  end.
Definition in_ranges (ranges : list (Z * Z)) (z : Z) : Prop := ∃ lo hi, (lo, hi) ∈ ranges ∧ lo <= z < hi.

Definition OnAckRanges (ranges : list (Z * Z)) (s : io) : io := fold_left (λ s r, OnAckRange r.1 r.2 s) ranges s.

Lemma ranges_above bound ranges z : ranges_below bound ranges → in_ranges ranges z → 1 <= z < bound.
Proof.
  revert bound. induction ranges as [|[lo hi] ranges IH]; intros bound Hb (l&h&Hin&Hz); [by apply elem_of_nil in Hin|].
  destruct Hb as (H1&H2&H3). apply elem_of_cons in Hin as [[= -> ->]|Hin]; [lia|].
  assert (1 <= z < lo); [|lia]. apply IH; [done|]. by exists l, h.
Qed.

Lemma in_ranges_cons lo hi ranges z : in_ranges ((lo, hi) :: ranges) z ↔ lo <= z < hi ∨ in_ranges ranges z.
Proof.
  split.
  - intros (l&h&[[= -> ->]|Hin]%elem_of_cons&Hz); [by left|right; by exists l, h].
  - intros [Hz|(l&h&Hin&Hz)]; [exists lo, hi; split; [left|done]|exists l, h; split; [by right|done]].
Qed.

(** The queue of the last ACK frame above what the iterator has ahead is above [bound]. *)
Definition ahead (q : PacketNumberQueue.t) (iter : list interval) (bound : Z) : Prop :=
  ∃ skipped, rev q = skipped ++ iter ∧ ∀ i, i ∈ skipped → bound <= imin i.

Lemma ahead_den q iter bound z : ahead q iter bound → z < bound → IntervalSet.den q z ↔ IntervalSet.den iter z.
Proof.
  intros (skipped&E&Hs) Hz. rewrite <-(rev_involutive q), E. rewrite rev_app_distr, IntervalSet.den_app.
  assert (Hrev : ∀ l : list interval, IntervalSet.den (rev l) z ↔ IntervalSet.den l z).
  { intros l. rewrite !IntervalSet.den_elem. setoid_rewrite list_elem_of_In. by setoid_rewrite <-in_rev. }
  rewrite !Hrev. split; [|by left]. intros [?|(i&Hi&Hd)%IntervalSet.den_elem]; [done|]. specialize (Hs i Hi). unfold Interval.den in Hd. lia.
Qed.

Lemma ahead_descending q iter bound : IntervalSet.valid q → ahead q iter bound → descending iter.
Proof.
  intros Hv (skipped&E&_). unfold descending. rewrite <-(rev_involutive q), E, rev_app_distr in Hv.
  by apply IntervalSet.valid_app_elem in Hv as (?&_).
Qed.

(** What reading an ACK frame leaves alone. *)
Definition reading (s s' : io) : Prop :=
  Core s' ∧ s'.2 = s.2 ∧ keep (unacked s.1) (unacked s'.1) ∧ (∀ r, get (unacked s'.1) r = get (unacked s.1) r)
  ∧ supports_multiple_packet_number_spaces (unacked s'.1) = supports_multiple_packet_number_spaces (unacked s.1)
  ∧ last_ack_packets (ack s'.1) = last_ack_packets (ack s.1) ∧ packets_lost s'.1 = packets_lost s.1.

Lemma reading_trans s s1 s2 : reading s s1 → reading s1 s2 → reading s s2.
Proof.
  intros (A1&A2&(K1&K2&K3&K4)&A4&A5&A6&A7) (B1&B2&(L1&L2&L3&L4)&B4&B5&B6&B7). unfold reading, keep.
  split; [done|]. split; [congruence|]. split; [split_and!; congruence|]. split; [intros r; by rewrite B4, A4|]. split_and!; congruence.
Qed.

Definition numbers (s : io) : list Z := map acked_packet_number (packets_acked (ack s.1)).

Lemma OnAckRange_spec lo hi bound s :
  Core s → ahead (last_ack_packets (ack s.1)) (acked_packets_iter (ack s.1)) bound → 1 <= lo < hi → hi <= bound →
  let s' := OnAckRange lo hi s in
  reading s s' ∧ ahead (last_ack_packets (ack s'.1)) (acked_packets_iter (ack s'.1)) lo
  ∧ ∃ new, numbers s' = numbers s ++ new ∧ StronglySorted (λ x y, y < x) new
    ∧ ∀ z, z ∈ new ↔ lo <= z < hi ∧ least_unacked (unacked s.1) <= z ∧ ¬ IntervalSet.den (last_ack_packets (ack s.1)) z.
Proof.
  intros HC Hah Hr Hb. cbv zeta. unfold OnAckRange. set (s1 := if _ : bool then (_, s.2) else s).
  assert (H1 : reading s s1 ∧ acked_packets_iter (ack s1.1) = acked_packets_iter (ack s.1)
    ∧ packets_acked (ack s1.1) = packets_acked (ack s.1) ∧ least_unacked (unacked s1.1) = least_unacked (unacked s.1)).
  { subst s1. destruct (_ || _).
    2:{ split; [|done]. split; [done|]. done. }
    split; [|done]. split; [|done]. destruct HC as [HI ? ? ? ? ?]. split; try done. cbn. by apply (Inv_same (unacked s.1)). }
  clearbody s1. destruct H1 as (H1&Ei&Ea&Ell). pose proof H1 as (HC1&_&_&_&_&Eq&_). unfold GetLeastUnacked.
  pose proof (ig_least _ _ _ (proj1 (c_map _ HC1))) as G1. pose proof (ig_small _ _ _ (proj1 (c_map _ HC1))) as G2.
  rewrite ok_initialized by (unfold ok, next_packet in *; pose proof (zlen_nonneg (unacked_packets (unacked s1.1))); unfold two62, two64 in *; lia).
  cbn [andb]. assert (Hah1 : ∀ lo', lo' <= bound → ahead (last_ack_packets (ack s1.1)) (acked_packets_iter (ack s1.1)) lo').
  { intros lo' Hlo'. rewrite Eq, Ei. destruct Hah as (sk&E&Hsk). exists sk. split; [done|]. intros i Hi. specialize (Hsk i Hi). lia. }
  destruct (Z.leb_spec hi (least_unacked (unacked s1.1))) as [Hle|Hgt].
  { split; [done|]. split; [apply Hah1; lia|]. exists []. rewrite app_nil_r. split; [unfold numbers; by rewrite Ea|]. split; [constructor|].
    intros z. rewrite elem_of_nil, <-Ell. lia. }
  pose proof (ack_range_spec (acked_packets_iter (ack s1.1)) (Z.max lo (least_unacked (unacked s1.1))) hi) as Hspec.
  destruct (ack_range _ _ _) as [l it]. destruct Hspec as (L1&L2&(sk2&E2&Hsk2)).
  { rewrite Ei. eapply ahead_descending; [apply (c_queue _ HC)|done]. }
  { lia. }
  split; [|split].
  - eapply reading_trans; [exact H1|]. destruct HC1 as [? ? ? ? ? ?]. split; [by split|]. done.
  - cbn. destruct (Hah1 bound ltac:(lia)) as (sk&E&Hsk). exists (sk ++ sk2). split; [by rewrite E, E2, app_assoc|].
    intros i [Hi|Hi]%elem_of_app; [specialize (Hsk i Hi); lia|specialize (Hsk2 i Hi); lia].
  - exists l. split; [|split; [done|]].
    + unfold numbers. cbn. rewrite Ea, map_app, map_map. cbn. by rewrite map_id.
    + intros z. rewrite L1, Ell. split.
      * intros [? Hn]. split; [lia|]. split; [lia|]. rewrite <-Eq. by rewrite (ahead_den _ (acked_packets_iter (ack s1.1)) bound) by (lia || by apply Hah1; lia).
      * intros (?&?&Hn). split; [lia|]. rewrite <-(ahead_den (last_ack_packets (ack s1.1)) (acked_packets_iter (ack s1.1)) bound) by (lia || by apply Hah1; lia). by rewrite Eq.
Qed.

Lemma OnAckRanges_spec ranges bound s :
  Core s → ahead (last_ack_packets (ack s.1)) (acked_packets_iter (ack s.1)) bound → ranges_below bound ranges →
  let s' := OnAckRanges ranges s in
  reading s s'
  ∧ ∃ new, numbers s' = numbers s ++ new ∧ StronglySorted (λ x y, y < x) new
    ∧ ∀ z, z ∈ new ↔ in_ranges ranges z ∧ least_unacked (unacked s.1) <= z
                     ∧ ¬ IntervalSet.den (last_ack_packets (ack s.1)) z.
Proof.
  revert bound s. induction ranges as [|[lo hi] ranges IH]; intros bound s HC Hah Hb; cbv zeta; unfold OnAckRanges; cbn [fold_left].
  { split; [by split|]. exists []. rewrite app_nil_r. split; [done|]. split; [constructor|].
    intros z. rewrite elem_of_nil. split; [done|]. intros ((l&h&Hin&_)&_). by apply elem_of_nil in Hin. }
  destruct Hb as (H1&H2&H3). destruct (OnAckRange_spec lo hi bound s HC Hah H1 H2) as (R1&A1&(new1&N1&S1&M1)). cbn [fst snd].
  pose proof R1 as (HC1&_&(Ell&_)&_&_&Eq&_). destruct (IH lo (OnAckRange lo hi s) HC1 A1 H3) as (R2&(new2&N2&S2&M2)).
  unfold OnAckRanges in *. split; [by eapply reading_trans|]. exists (new1 ++ new2). split; [by rewrite N2, N1, app_assoc|]. split.
  - apply numbers_sorted_app; [done..|]. intros x y (Hx&_)%M1 (Hy&_)%M2. apply (ranges_above lo) in Hy; [|done]. lia.
  - intros z. rewrite elem_of_app, M1, M2, in_ranges_cons, Ell, Eq. tauto.
Qed.

Lemma OnAckFrameStart_spec largest delay time s :
  Core s → rested s → let s' := OnAckFrameStart largest delay time s in
  Core s' ∧ (∃ k, s'.2 = s.2 ++ k ∧ Forall neutral k) ∧ unacked s'.1 = unacked s.1 ∧ last_ack_packets (ack s'.1) = last_ack_packets (ack s.1)
  ∧ packets_lost s'.1 = [] ∧ numbers s' = []
  ∧ ∀ bound, ahead (last_ack_packets (ack s'.1)) (acked_packets_iter (ack s'.1)) bound.
Proof.
  intros HC [Ea El]. cbv zeta. unfold OnAckFrameStart.
  assert (Hrtt : ∃ b k, MaybeUpdateRTT largest delay time s = (b, log s k) ∧ Forall neutral k ∧ lost_numbers k = []).
  { assert (H0 : ∀ b : bool, ∃ (b' : bool) k, (b, s) = (b', log s k) ∧ Forall neutral k ∧ lost_numbers k = []).
    { intros b. exists b, []. split; [f_equal; unfold log; rewrite app_nil_r; by destruct s|done]. }
    unfold MaybeUpdateRTT. destruct (negb _); [apply H0|]. destruct (GetTransmissionInfo _ _) as [i|]; [|apply H0].
    destruct (sent_time i =? 0); [apply H0|]. eexists true, [_]. split; [done|]. by repeat constructor. }
  destruct Hrtt as (b&k&->&Hk&Hl). cbn [log fst snd].
  split; [by apply (core_same s _ k); [done|done|done|apply (c_sane _ HC)|..]|].
  split; [by exists k|]. split; [done|]. split; [done|]. split; [done|]. split; [unfold numbers; cbn; by rewrite Ea|].
  intros bound. exists []. split; [done|]. intros i Hi. by apply elem_of_nil in Hi.
Qed.

(** Reading an ACK frame: the packets it acknowledges for the first time, from the largest down. *)
Definition read_ack (largest delay time : Z) (ranges : list (Z * Z)) (s : io) : io :=
  OnAckRanges ranges (OnAckFrameStart largest delay time s).

Lemma read_ack_spec largest delay time ranges bound s :
  Core s → rested s → ranges_below bound ranges → let s' := read_ack largest delay time ranges s in
  Core s' ∧ (∃ k, s'.2 = s.2 ++ k ∧ Forall neutral k) ∧ (∀ r, get (unacked s'.1) r = get (unacked s.1) r)
  ∧ keep (unacked s.1) (unacked s'.1)
  ∧ supports_multiple_packet_number_spaces (unacked s'.1) = supports_multiple_packet_number_spaces (unacked s.1)
  ∧ last_ack_packets (ack s'.1) = last_ack_packets (ack s.1) ∧ packets_lost s'.1 = []
  ∧ StronglySorted (λ x y, y < x) (numbers s')
  ∧ ∀ z, z ∈ numbers s' ↔ in_ranges ranges z ∧ least_unacked (unacked s.1) <= z ∧ ¬ IntervalSet.den (last_ack_packets (ack s.1)) z.
Proof.
  intros HC Hrest Hb. cbv zeta. unfold read_ack.
  destruct (OnAckFrameStart_spec largest delay time s HC Hrest) as (C1&(k&E1&Hk)&Eu&Eq&El&En&Hah).
  set (s1 := OnAckFrameStart _ _ _ s) in *.
  destruct (OnAckRanges_spec ranges bound s1 C1 (Hah bound) Hb) as ((C2&E2&K2&G2&Sp2&Q2&L2)&(new&N&S&M)).
  rewrite Eu, Eq in *. rewrite En in N. cbn [app] in N. split; [done|]. split; [exists k; by rewrite E2|]. split; [done|].
  split; [done|]. split; [done|]. split; [done|]. split; [congruence|]. by rewrite N.
Qed.

Definition OnAckTimestamps (ts : list (Z * Z)) (s : io) : io := fold_left (λ s x, OnAckTimestamp x.1 x.2 s) ts s.

Lemma timestamp_numbers p r l : map acked_packet_number (set_timestamp p r l) = map acked_packet_number l.
Proof.
  induction l as [|x l IH]; cbn; [done|]. destruct (Z.eqb_spec (acked_packet_number x) p); cbn; [congruence|by rewrite IH].
Qed.

Lemma OnAckTimestamps_reading ts s : Core s → reading s (OnAckTimestamps ts s) ∧ numbers (OnAckTimestamps ts s) = numbers s.
Proof.
  unfold OnAckTimestamps. revert s. induction ts as [|[p r] ts IH]; intros s HC; cbn [fold_left]; [done|].
  assert (H1 : reading s (OnAckTimestamp p r s)) by (split; [by destruct HC|done]).
  destruct (IH (OnAckTimestamp p r s)) as [I1 I2]; [apply H1|]. cbn [fst snd] in *.
  split; [exact (reading_trans _ _ _ H1 I1)|]. rewrite I2.
  apply timestamp_numbers.
Qed.

Lemma sorted_nodup (l : list Z) : StronglySorted (λ x y, y < x) l → NoDup l.
Proof.
  induction 1 as [|x l _ IH Hf]; constructor; [|done]. intros Hx. rewrite Forall_forall in Hf. specialize (Hf x Hx). lia.
Qed.

(** The log only grows. *)
Definition grows (l l' : list effect) : Prop := ∃ k, l' = l ++ k.
#[local] Instance grows_preorder : PreOrder grows.
Proof.
  split; [intros l; exists []; by rewrite app_nil_r|]. intros a b c [k ->] [k' ->]. exists (k ++ k'). by rewrite app_assoc.
Qed.

Lemma grows_log (s : io) k : grows s.2 (log s k).2.
Proof. by exists k. Qed.

Lemma Mark_grows p type s : grows s.2 (MarkForRetransmission p type s).2.
Proof.
  unfold MarkForRetransmission. destruct (GetTransmissionInfo _ _) as [i|]; [|done].
  set (s1 := if negb (loss_removes_from_inflight cfg) && _ then (_ : io) else s).
  assert (E : s1.2 = s.2) by (unfold s1; by destruct (_ && _)). rewrite <-E. clearbody s1.
  destruct (negb (decides s1)).
  - destruct (negb _); [done|]. by destruct (contains _ _).
  - unfold HandleRetransmission. destruct (ShouldForceRetransmission type); [apply grows_log|].
    destruct (no_frames i); apply grows_log.
Qed.

Lemma lose_grows l s : grows s.2 (fold_left lose_packet l s).2.
Proof.
  revert s. induction l as [|x l IH]; intros s; cbn [fold_left]; [done|]. etrans; [|apply IH]. unfold lose_packet.
  destruct (loss_removes_from_inflight cfg); [|apply Mark_grows].
  exact (Mark_grows _ _ (on_map (λ m, RemoveFromInFlight m (lost_packet_number x)) s)).
Qed.

Lemma Invoke_grows e time s : grows s.2 (InvokeLossDetection e time s).2.
Proof.
  unfold InvokeLossDetection. destruct (last _); destruct (LossDetectionInterface.DetectLosses _ _ _ _ _ _);
    exact (lose_grows _ (_, s.2)).
Qed.

Lemma congestion_grows b prior time s : grows s.2 (MaybeInvokeCongestionEvent b prior time s).2.
Proof. unfold MaybeInvokeCongestionEvent. destruct (_ && _ && _); [done|by eexists]. Qed.

Lemma reset_grows s : grows s.2 (reset_backoff s).2.
Proof.
  unfold reset_backoff. destruct (0 <? _); [destruct (_ <? _); [|destruct (negb _)]|]; cbn [snd]; first [done|apply grows_log].
Qed.

Lemma PostProcess_grows e time prior s : grows s.2 (PostProcessNewlyAckedPackets e time prior s).2.
Proof.
  unfold PostProcessNewlyAckedPackets. set (s1 := if decides s then (_ : io) else s).
  trans s1.2.
  { subst s1. destruct (decides s); [|done]. destruct (NotifyAggregatedStreamFrameAcked _ _). by eexists. }
  clearbody s1. set (s2 := InvokeLossDetection e time s1). trans s2.2; [apply Invoke_grows|]. clearbody s2.
  set (s3 := if _ : bool then (with_loss s2.1 _ _, s2.2) else s2). assert (E3 : s3.2 = s2.2) by (subst s3; by destruct (_ && _)).
  rewrite <-E3. clearbody s3. set (s4 := MaybeInvokeCongestionEvent _ _ _ s3). trans s4.2; [apply congestion_grows|]. clearbody s4.
  destruct (rtt_updated (ack s.1)); [|done]. exact (reset_grows (on_map RemoveObsoletePackets s4)).
Qed.

(** A whole ACK frame. *)
Lemma OnAckFrameEnd_spec e time level s :
  Core s → packets_lost s.1 = [] → StronglySorted (λ x y, y < x) (numbers s) → (∀ p, p ∈ numbers s → alive s p) →
  let '(r, s') := OnAckFrameEnd e time level s in
  Core s' ∧ s.2 ⊆ s'.2
  ∧ (r = PACKETS_NEWLY_ACKED ∧ numbers s ≠ [] ∨ r = NO_PACKETS_NEWLY_ACKED ∧ numbers s = [] →
      rested s' ∧ ∀ p i, p ∈ numbers s → get (unacked s.1) p = Some i → IsAckable (state i) = true → ∃ calls, PacketAcked p i calls ∈ s'.2)
  ∧ (r = PACKETS_NEWLY_ACKED ∧ numbers s ≠ [] ∨ r = NO_PACKETS_NEWLY_ACKED ∧ numbers s = []
     ∨ ∃ p i, p ∈ numbers s ∧ get (unacked s.1) p = Some i
         ∧ supports_multiple_packet_number_spaces (unacked s.1) = true ∧ error_justified (unacked s.1) level r i).
Proof.
  intros HC Hl Hs Hal. unfold OnAckFrameEnd.
  assert (Hrev : ∀ x, x ∈ rev (packets_acked (ack s.1)) ↔ x ∈ packets_acked (ack s.1)).
  { intros x. rewrite !list_elem_of_In. symmetry. apply in_rev. }
  pose proof (handle_all_spec e level (rev (packets_acked (ack s.1))) [] s HC) as Hall.
  destruct (handle_all _ _ _ _ _) as [[error acked] s1]. destruct Hall as (C1&K1&Len&L1&Sub&Hok&Herr).
  { rewrite map_rev. apply NoDup_ListNoDup, NoDup_rev, NoDup_ListNoDup. by apply sorted_nodup. }
  { intros x Hx%Hrev. apply Hal. by apply list_elem_of_fmap_2. }
  cbn [app] in Len. rewrite length_rev in Len. set (s2 := (with_ack s1.1 _, s1.2)).
  assert (C2 : Core s2) by (by apply (core_same_state s1); [done|done|done|apply (c_sane _ C1)|done|done]).
  destruct error as [error|].
  - destruct (Herr error eq_refl) as (x&i&Hx%Hrev&Hi&Hsp&Hj). split; [done|]. split; [done|]. split.
    + intros [[-> _]|[-> _]]; done.
    + right. right. exists (acked_packet_number x), i. split; [by apply list_elem_of_fmap_2|done].
  - destruct (PostProcess_core e time (bytes_in_flight (unacked s.1)) s2 C2) as [C3 R3]; [cbn; congruence|].
    destruct (PostProcess_grows e time (bytes_in_flight (unacked s.1)) s2) as [k Ek].
    set (s3 := PostProcessNewlyAckedPackets _ _ _ s2) in *. clearbody s3.
    assert (Hsub : s.2 ⊆ s3.2) by (rewrite Ek; intros y Hy; apply elem_of_app; left; by apply Sub).
    split; [done|]. split; [done|].
    assert (Hn : numbers s = [] ↔ zlen acked = 0).
    { unfold numbers, zlen. rewrite Len. destruct (packets_acked (ack s.1)); cbn; [done|]. split; [done|lia]. }
    split.
    + intros _. split; [done|]. intros p i (x&->&Hx)%list_elem_of_fmap Hi Ha.
      destruct (Hok eq_refl x i ltac:(by apply Hrev) Hi Ha) as [calls Hc]. exists calls. rewrite Ek. apply elem_of_app. by left.
    + destruct (Z.eqb_spec (zlen acked) 0) as [E|E]; cbn [negb]; [right; left|left]; (split; [done|]); tauto.
Qed.

(** *** Sending *)

Lemma sent_get m packet type time fl :
  Inv m → sendable m packet UninitializedPacketNumber →
  let '(m', _, calls) := AddSentPacket m packet UninitializedPacketNumber type time fl in
  let p := packet_number packet in
  calls = [] ∧ Inv m' ∧ next_packet m' = p + 1
  ∧ session_decides_what_to_write m' = session_decides_what_to_write m
  ∧ (∀ r j, get m r = Some j → get m' r = Some j)
  ∧ (∃ i, get m' p = Some i ∧ retransmittable_frames i = packet_retransmittable_frames packet
       ∧ state i = OUTSTANDING ∧ in_flight i = fl)
  ∧ ∀ r j, get m' r = Some j → get m r = Some j ∨ r = p ∨ j = never_sent ∧ next_packet m <= r.
Proof.
  intros HI Hsend. pose proof (AddSentPacket_inv m packet UninitializedPacketNumber type time fl HI Hsend) as (HI'&_&Hs').
  pose proof Hsend as [Hp _]. pose proof HI as [HG _]. pose proof (ig_least _ _ _ HG) as G1.
  unfold AddSentPacket in *. change (IsInitialized UninitializedPacketNumber) with false in *. cbn [negb fst] in *.
  set (i2 := set_frames _ (packet_retransmittable_frames packet)) in *. set (m' := UnackedPacketMap.mk _ _ _ _ _ _ _ _ _ _ _ _ _ _ _ _) in *.
  assert (Hi2 : retransmittable_frames i2 = packet_retransmittable_frames packet ∧ state i2 = OUTSTANDING ∧ in_flight i2 = fl)
    by (subst i2; by destruct fl).
  clearbody i2. set (pad := replicate (Z.to_nat (packet_number packet - next_packet m)) never_sent) in *.
  assert (El : unacked_packets m' = unacked_packets m ++ pad ++ [i2]) by (cbn; by rewrite app_assoc).
  assert (Ell : least_unacked m' = least_unacked m) by done.
  assert (Hpad : zlen pad = packet_number packet - next_packet m) by (unfold zlen, pad; rewrite length_replicate; lia).
  assert (En : next_packet m' = packet_number packet + 1).
  { unfold next_packet at 1. rewrite Ell, El, !zlen_app, zlen_cons, (@zlen_nil QuicTransmissionInfo). unfold next_packet in *. lia. }
  assert (Hold : ∀ r j, get m r = Some j → get m' r = Some j).
  { intros r j Hj. pose proof (get_range _ _ _ Hj) as Hr. apply get_some in Hj as [_ Hj]. apply get_some. split; [lia|].
    unfold GetTransmissionInfo, index in *. rewrite El, Ell. by apply lookup_app_l_Some. }
  split; [done|]. split; [done|]. split; [done|]. split; [done|]. split; [done|]. split.
  - exists i2. split; [|done]. apply get_some. unfold next_packet in *. pose proof (zlen_nonneg (unacked_packets m)). split; [lia|].
    unfold GetTransmissionInfo, index. rewrite El, Ell, !lookup_app_r by (unfold zlen in *; lia).
    replace (_ - length pad)%nat with 0%nat by (unfold zlen in *; lia). done.
  - intros r j Hj. pose proof (get_range _ _ _ Hj) as Hr. destruct (Z.lt_ge_cases r (next_packet m)) as [Hlt|Hge].
    { left. destruct (get_in m r) as [k Hk]; [lia|]. rewrite (Hold r k Hk) in Hj. by injection Hj as <-. }
    destruct (Z.eq_dec r (packet_number packet)) as [->|Hne]; [by right; left|]. right. right.
    apply get_some in Hj as [_ Hj]. unfold GetTransmissionInfo, index, next_packet in *. rewrite El, Ell in Hj.
    rewrite lookup_app_r in Hj by (unfold zlen in *; lia). rewrite lookup_app_l in Hj by (unfold zlen in *; lia).
    by apply lookup_replicate in Hj as [-> _].
Qed.

(** The new packet is the only one whose data are outstanding for the first time. *)
Lemma view_send g g' nx nx' q l packet time bytes fl :
  View g nx q l → nx <= packet_number packet → nx' = packet_number packet + 1 →
  (∀ r j, g r = Some j → r < nx ∧ g' r = Some j) →
  (∃ i, g' (packet_number packet) = Some i ∧ retransmittable_frames i = packet_retransmittable_frames packet
     ∧ state i = OUTSTANDING ∧ in_flight i = fl) →
  (∀ r j, g' r = Some j → g r = Some j ∨ r = packet_number packet ∨ j = never_sent ∧ nx <= r) →
  View g' nx' q (l ++ [PacketSent packet time bytes fl]).
Proof.
  intros HV Hp Hnx Hold (i&Hi&Ef&Es&Efl) Hnew. set (p := packet_number packet) in *.
  assert (Hcase : ∀ r j, g' r = Some j → g r = Some j ∨ r = p ∧ j = i ∨ j = never_sent ∧ nx <= r).
  { intros r j Hj. destruct (Hnew r j Hj) as [?|[->|?]]; [by left|right; left; split; [done|congruence]|by right; right]. }
  assert (En : acked_numbers (l ++ [PacketSent packet time bytes fl]) = acked_numbers l) by (rewrite acked_numbers_app; apply app_nil_r).
  assert (El : lost_numbers (l ++ [PacketSent packet time bytes fl]) = lost_numbers l) by (rewrite lost_numbers_app; apply app_nil_r).
  assert (Hout : ∀ r j, r < nx → g' r = Some j → g r = Some j).
  { intros r j Hr Hj. destruct (Hcase r j Hj) as [?|[[-> _]|[_ ?]]]; [done|lia|lia]. }
  split; rewrite ?En, ?El.
  - intros r j Hj. destruct (Hcase r j Hj) as [Hg|[[-> ->]|[-> Hr]]].
    + by apply (v_acked _ _ _ _ HV).
    + rewrite Es. split; [done|]. intros Hd%(v_bound _ _ _ _ HV). lia.
    + split; [done|]. intros Hd%(v_bound _ _ _ _ HV). lia.
  - intros r Hd%(v_bound _ _ _ _ HV). lia.
  - intros r j Hj Hst. destruct (Hcase r j Hj) as [Hg|[[-> ->]|[-> Hr]]]; [by apply (v_idle _ _ _ _ HV r)| |done].
    rewrite Es in Hst. destruct Hst; done.
  - intros packet' time' bytes' [Hin|Hin]%elem_of_app.
    + destruct (v_sent _ _ _ _ HV packet' time' bytes' Hin) as [H1 H2]. split; [lia|]. intros Hne.
      destruct (H2 Hne) as [(j&Hj&?)|?]; [left; exists j; split; [by apply Hold|done]|right; by apply settled_app].
    + apply list_elem_of_singleton in Hin as [= -> -> -> Hfl]. split; [lia|]. intros _. left. exists i. by rewrite Efl, <-Hfl.
  - apply (v_once _ _ _ _ HV).
  - intros r Hr. destruct (v_done _ _ _ _ HV r Hr) as [H1 H2]. split; [lia|]. intros j Hj. apply H2. by apply Hout.
  - intros r [Hin|Hin]%elem_of_app; [by eapply v_twice|by apply list_elem_of_singleton in Hin].
  - apply (v_lost_once _ _ _ _ HV).
  - intros r Hr. destruct (v_lost _ _ _ _ HV r Hr) as [H1 H2]. split; [lia|]. intros j Hj. apply H2. by apply Hout.
Qed.

Lemma OnPacketSent_core packet time type fl s :
  Core s → sendable (unacked s.1) packet UninitializedPacketNumber →
  let s' := (OnPacketSent packet UninitializedPacketNumber time type fl s).2 in
  Core s' ∧ ack s'.1 = ack s.1 ∧ packets_lost s'.1 = packets_lost s.1.
Proof.
  intros HC Hsend. cbv zeta. unfold OnPacketSent. change (IsInitialized UninitializedPacketNumber) with false. cbv iota.
  set (s1 := if 0 <? _ then (with_counts s.1 _, s.2) else s).
  assert (H1 : Core s1 ∧ ack s1.1 = ack s.1 ∧ packets_lost s1.1 = packets_lost s.1 ∧ unacked s1.1 = unacked s.1).
  { subst s1. destruct (0 <? _); [|done]. split; [|done]. by apply (core_same_state s); [done|done|done|apply (c_sane _ HC)|done|done]. }
  clearbody s1. destruct H1 as (HC1&E1&E2&E3). rewrite <-E3 in Hsend.
  pose proof (sent_get (unacked s1.1) packet type time fl (c_map _ HC1) Hsend) as Hg.
  change (unacked (log s1 _).1) with (unacked s1.1).
  destruct (AddSentPacket _ _ _ _ _ _) as [[m' fs] calls]. destruct Hg as (->&HI&En&Es&Hold&Hnew&Hcase). cbn [fst snd log].
  split; [|done]. change (Core (with_map s1.1 m', (s1.2 ++ [PacketSent packet time (bytes_in_flight (unacked s1.1)) fl]) ++ [])).
  rewrite app_nil_r. apply core_map; [done|done|rewrite Es; apply (c_decides _ HC1)|].
  apply (view_send (get (unacked s1.1)) _ (next_packet (unacked s1.1)) _ _ _ _ _ _ _ (c_view _ HC1)); [apply Hsend|done| |done|done].
  intros r j Hj. split; [by eapply get_range|by apply Hold].
Qed.

(** *** Giving up packets, and the timer *)

Definition calm (s s' : io) : Prop :=
  Core s' ∧ ack s'.1 = ack s.1 ∧ packets_lost s'.1 = packets_lost s.1 ∧ keep (unacked s.1) (unacked s'.1).

Lemma calm_refl s : Core s → calm s s.
Proof. by intros. Qed.

Lemma calm_trans s s1 s2 : calm s s1 → calm s1 s2 → calm s s2.
Proof. intros (A1&A2&A3&A4&A5&A6&A7) (B1&B2&B3&B4&B5&B6&B7). unfold calm, keep. split; [done|]. split_and!; congruence. Qed.

Lemma quiet_calm s s' : quiet_step s s' → calm s s'.
Proof. intros (H1&H2&H3). unfold only_map in H2. split; [done|]. split; [by rewrite H2|]. split; [by rewrite H2|done]. Qed.

Lemma calm_alive s s' p : calm s s' → alive s p → alive s' p.
Proof. intros (_&E&_&K1&K2&_). unfold alive. by rewrite K1, K2, E. Qed.

Lemma calm_rested s s' : calm s s' → rested s → rested s'.
Proof. intros (_&E1&E2&_). unfold rested. by rewrite E1, E2. Qed.

Lemma counts_calm s c : Core s → calm s (with_counts s.1 c, s.2).
Proof. intros HC. split; [|done]. by apply (core_same_state s); [done|done|done|apply (c_sane _ HC)|done|done]. Qed.

(** A loop over the packets keeps what its body keeps. *)
Lemma each_packet_ind {B} (I : B * io → Prop) (body : Z → QuicTransmissionInfo → B * io → B * io) b s :
  I (b, s) → (∀ bs, I bs → least_unacked (unacked bs.2.1) = least_unacked (unacked s.1)) →
  (∀ p i bs, I bs → get (unacked bs.2.1) p = Some i → I (body p i bs)) → I (each_packet body b s).
Proof.
  intros H0 Hl Hb. unfold each_packet, GetLeastUnacked. generalize (seq 0 (length (unacked_packets (unacked s.1)))). intros ns.
  revert H0. generalize (b, s). intros bs. revert bs. induction ns as [|n ns IH]; intros bs H0; cbn [fold_left]; [done|]. apply IH.
  case_match eqn:Hi; [|done]. apply Hb; [done|]. apply get_some.
  rewrite (Hl bs H0). split; [lia|]. unfold GetTransmissionInfo, index. rewrite (Hl bs H0).
  by replace (Z.to_nat (least_unacked (unacked s.1) + Z.of_nat n - least_unacked (unacked s.1))) with n by lia.
Qed.

Lemma outstanding_alive s p i :
  Core s → get (unacked s.1) p = Some i → frames_outstanding s i = true → alive s p ∧ state i ≠ ACKED.
Proof.
  intros HC Hi Hf. unfold frames_outstanding, HasRetransmittableFrames in Hf.
  pose proof (c_decides _ HC) as Hd. unfold decides in Hd. rewrite Hd in Hf. cbn [negb] in Hf.
  destruct (IsAckable (state i)) eqn:Ea; [|done]. apply IsAckable_cases in Ea as (_&Ha&_). split; [|done].
  split; [by eapply get_range|]. intros Hden. by apply Ha, (v_acked _ _ _ _ (c_view _ HC) p i Hi).
Qed.

Lemma not_outstanding s i :
  Core s → state i = OUTSTANDING → frames_outstanding s i = false → existsb (IsFrameOutstanding s.2) (retransmittable_frames i) = false.
Proof.
  intros HC Es Hf. unfold frames_outstanding, HasRetransmittableFrames in Hf. pose proof (c_decides _ HC) as Hd. unfold decides in Hd.
  by rewrite Hd, Es in Hf.
Qed.

Lemma loop_calm (body : Z → QuicTransmissionInfo → unit * io → unit * io) s :
  Core s → (∀ p i s', calm s s' → get (unacked s'.1) p = Some i → calm s' (body p i (tt, s')).2) →
  calm s (each_packet body tt s).2.
Proof.
  intros HC Hb. apply (each_packet_ind (λ bs, calm s bs.2)); [by apply calm_refl|by intros bs (_&_&_&E&_)|].
  intros p i [[] s'] Hc Hi. eapply calm_trans; [exact Hc|]. by apply Hb.
Qed.

(** A packet that is not outstanding can leave the flight without a reason. *)
Lemma leave_other_core s p i :
  Core s → get (unacked s.1) p = Some i → state i ≠ OUTSTANDING ∨ existsb (IsFrameOutstanding s.2) (retransmittable_frames i) = false →
  quiet_step s (leave_flight (LeftFlight p) p s).
Proof.
  intros HC Hi [Hs|Hs]; [|by eapply leave_core; [| |right]]. pose proof (upd_flight _ _ _ (c_map _ HC) Hi) as HU.
  apply (change_core s _ p i _ [LeftFlight p] HC Hi HU); try done; [by repeat constructor|by left].
Qed.

Lemma RetransmitUnackedPackets_calm type s : Core s → not_loss type → calm s (RetransmitUnackedPackets type s).
Proof.
  intros HC Hnl. apply loop_calm; [done|]. intros p i s' (HC'&_) Hi. cbn [snd].
  destruct (_ || _); [|by apply calm_refl]. cbn [snd].
  destruct (frames_outstanding s' i) eqn:Eo.
  - destruct (outstanding_alive s' p i HC' Hi Eo) as [Hal Ha]. destruct (_ && _).
    + apply quiet_calm. apply (leave_Mark_core s' p i type [LeftFlight p] HC' Hi Ha); [by repeat constructor|done|by left].
    + by apply quiet_calm, Mark_core.
  - destruct (_ && _); [|by apply calm_refl]. apply quiet_calm. apply (leave_other_core s' p i HC' Hi).
    destruct (decide (state i = OUTSTANDING)); [right; by apply not_outstanding|by left].
Qed.

Lemma neuter_calm s p i : Core s → get (unacked s.1) p = Some i → calm s (leave_flight (Neutered p) p s).
Proof. intros HC Hi. apply quiet_calm. by apply (leave_core s p i); [..|left]. Qed.

Lemma NeuterUnencryptedPackets_calm s : Core s → calm s (NeuterUnencryptedPackets s).
Proof.
  intros HC. apply loop_calm; [done|]. intros p i s' (HC'&_) Hi. cbn [snd]. rewrite (c_decides _ HC').
  destruct (_ && _); [by apply (neuter_calm s' p i)|by apply calm_refl].
Qed.

Lemma NeuterHandshakePackets_calm s : Core s → calm s (NeuterHandshakePackets s).
Proof.
  intros HC. apply loop_calm; [done|]. intros p i s' (HC'&_) Hi. cbn [snd]. rewrite (c_decides _ HC').
  destruct (_ && _); [by apply (neuter_calm s' p i)|by apply calm_refl].
Qed.

Lemma SetHandshakeConfirmed_calm s : Core s → calm s (SetHandshakeConfirmed s).
Proof.
  intros HC. assert (HC1 : Core (with_confirmed s.1 true, s.2)).
  { by apply (core_same_state s); [done|done|done|apply (c_sane _ HC)|done|done]. }
  exact (NeuterHandshakePackets_calm _ HC1).
Qed.

Lemma mark_all_calm type l s : Core s → not_loss type → (∀ p, p ∈ l → alive s p) → calm s (mark_all type l s).
Proof.
  intros HC Hnl. unfold mark_all. revert s HC. induction l as [|p l IH]; intros s HC Hl; cbn [fold_left]; [by apply calm_refl|].
  pose proof (quiet_calm _ _ (Mark_core s p type HC (Hl p ltac:(left)) Hnl)) as Hc. eapply calm_trans; [exact Hc|].
  apply IH; [apply Hc|]. intros q Hq. eapply calm_alive; [exact Hc|]. apply Hl. by right.
Qed.

(** The loops that first collect the packets to mark. *)
Definition collected (s : io) (ls : list Z * io) : Prop := calm s ls.2 ∧ ∀ p, p ∈ ls.1 → alive s p.

Lemma collect_more s l s' s'' p :
  collected s (l, s') → calm s' s'' → alive s' p → collected s (l ++ [p], s'').
Proof.
  intros [Hc Hl] Hc2 Hp. split; [by eapply calm_trans|]. intros q [Hq| ->%list_elem_of_singleton]%elem_of_app; [by apply Hl|].
  destruct Hc as (_&E&_&K1&K2&_). unfold alive in *. by rewrite <-K1, <-K2, <-E.
Qed.

Lemma RetransmitCryptoPackets_calm s : Core s → calm s (RetransmitCryptoPackets s).
Proof.
  intros HC. unfold RetransmitCryptoPackets. set (s1 := (with_counts s.1 _, s.2)).
  assert (H1 : calm s s1) by by apply counts_calm. pose proof H1 as [HC1 _]. clearbody s1. set (body := λ p i bs, _).
  assert (Hcol : collected s1 (each_packet body [] s1)).
  { apply each_packet_ind; [split; [by apply calm_refl|intros p Hp; by apply elem_of_nil in Hp]|by intros bs [(_&_&_&E&_) _]|].
    intros p i [l s'] Hcol Hi. unfold body. pose proof Hcol as [(HC'&_) _]. cbn [snd] in HC', Hi. rewrite (c_decides _ HC').
    destruct (_ || negb (frames_outstanding s' i)) eqn:Ec; [done|]. apply orb_false_iff in Ec as [_ Ho%negb_false_iff].
    destruct (outstanding_alive s' p i HC' Hi Ho) as [Hal _]. apply (collect_more _ _ s'); [done|by apply counts_calm|done]. }
  destruct (each_packet body [] s1) as [l s2]. destruct Hcol as [Hc2 Hl]. cbn [fst snd] in *.
  rewrite (c_decides s2) by apply Hc2. eapply calm_trans; [exact H1|]. eapply calm_trans; [exact Hc2|].
  apply mark_all_calm; [apply Hc2|done|]. intros p Hp. eapply calm_alive; [exact Hc2|]. by apply Hl.
Qed.

Lemma RetransmitRtoPackets_calm s : Core s → calm s (RetransmitRtoPackets s).
Proof.
  intros HC. unfold RetransmitRtoPackets. set (body := λ p i bs, _).
  assert (Hcol : collected s (each_packet body [] s)).
  { apply each_packet_ind; [split; [by apply calm_refl|intros p Hp; by apply elem_of_nil in Hp]|by intros bs [(_&_&_&E&_) _]|].
    intros p i [l s'] Hcol Hi. unfold body. pose proof Hcol as [(HC'&_) _]. cbn [snd] in HC', Hi. rewrite (c_decides _ HC').
    destruct (frames_outstanding s' i) eqn:Ho; cbn [negb andb]; rewrite ?andb_true_r, ?andb_false_r.
    - destruct (outstanding_alive s' p i HC' Hi Ho) as [Hal _]. destruct (_ && _); rewrite ?andb_false_r; [|done].
      apply (collect_more _ _ s'); [done|by apply counts_calm|done].
    - cbn [andb]. destruct (_ && negb _) eqn:Ec; [|done]. apply andb_true_iff in Ec as [_ Ec].
      rewrite ?(c_decides _ HC'), ?andb_true_r, negb_involutive in Ec. apply bool_decide_eq_true in Ec. destruct Hcol as [Hc Hl]. split; [|done].
      eapply calm_trans; [exact Hc|]. apply quiet_calm. apply (leave_core s' p i); [done|done|]. right. split; [done|]. by apply not_outstanding. }
  destruct (each_packet body [] s) as [l s1]. destruct Hcol as [Hc Hl]. cbn [fst snd] in *. pose proof Hc as [HC1 _].
  set (s2 := if _ : bool then (with_counts s1.1 _, s1.2) else s1).
  assert (H2 : calm s1 s2) by (subst s2; destruct (0 <? _); [by apply counts_calm|by apply calm_refl]). clearbody s2.
  rewrite (c_decides s2) by apply H2. pose proof (calm_trans _ _ _ Hc H2) as H12. eapply calm_trans; [exact H12|].
  apply mark_all_calm; [apply H2|done|]. intros p Hp. eapply calm_alive; [exact H12|]. by apply Hl.
Qed.

Lemma MaybeRetransmitOldestPacket_calm type s :
  Core s → not_loss type → calm s (MaybeRetransmitOldestPacket type s).2.
Proof.
  intros HC Hnl. unfold MaybeRetransmitOldestPacket, oldest_packet. destruct (List.find _ _) as [p|] eqn:Ef; [|by apply calm_refl].
  apply find_some in Ef as [Hin Hp]. apply quiet_calm, Mark_core; [done| |done].
  apply list_elem_of_In, list_elem_of_fmap in Hin as (n&->&_).
  destruct (GetTransmissionInfo _ _) as [i|] eqn:Hi; [|done]. apply andb_true_iff in Hp as [_ Ho].
  apply (outstanding_alive s _ i); [done| |done]. apply get_some. unfold GetLeastUnacked in *. split; [lia|done].
Qed.

Lemma MaybeRetransmitTailLossProbe_calm s : Core s → calm s (MaybeRetransmitTailLossProbe s).2.
Proof.
  intros HC. unfold MaybeRetransmitTailLossProbe. destruct (_ =? 0); [by apply calm_refl|].
  pose proof (MaybeRetransmitOldestPacket_calm TLP_RETRANSMISSION s HC ltac:(done)) as Hc.
  destruct (MaybeRetransmitOldestPacket _ _) as [[] s1]; cbn [snd] in *; [done|]. destruct (quic_optimize_inflight_check cfg); [|done].
  pose proof (counts_calm s1 (set_pending_timer (counts s1.1) 0) ltac:(apply Hc)) as H1.
  eapply calm_trans; [exact Hc|]. eapply calm_trans; [exact H1|]. apply RetransmitRtoPackets_calm. apply H1.
Qed.

Lemma OnRetransmissionTimeout_core e s :
  Core s → rested s → Core (OnRetransmissionTimeout e s) ∧ rested (OnRetransmissionTimeout e s).
Proof.
  intros HC Hr. assert (Hcalm : ∀ s', calm s s' → Core s' ∧ rested s') by (intros s' Hc; split; [apply Hc|by eapply calm_rested]).
  unfold OnRetransmissionTimeout. destruct (GetRetransmissionMode s).
  - by apply Hcalm, RetransmitRtoPackets_calm.
  - by apply Hcalm, counts_calm.
  - by apply Hcalm, RetransmitCryptoPackets_calm.
  - destruct (InvokeLossDetection_core e (now e) s HC) as (HC1&_); [apply Hr|].
    destruct (congestion_core false (bytes_in_flight (unacked s.1)) (now e) _ HC1) as (H1&H2&_). by split.
Qed.

(** *** Runs *)

Definition start_map (p : Perspective) (notifier spaces : bool) : map_t :=
  let m := SetSessionNotifier (SetSessionDecideWhatToWrite (UnackedPacketMap.new p) true) notifier in
  if spaces then EnableMultiplePacketNumberSpacesSupport m else m.

(** All that happens to the manager of a connection that leaves the retransmissions to its session. A connection is closed
    when an ACK frame is refused. *)
Inductive reachable : io → Prop :=
| reach_start p a notifier spaces :
    LossDetectionInterface.sane a → reachable (with_map (new p a) (start_map p notifier spaces), [])
| reach_sent packet time type fl s :
    reachable s → sendable (unacked s.1) packet UninitializedPacketNumber →
    reachable (OnPacketSent packet UninitializedPacketNumber time type fl s).2
| reach_ack largest delay time ranges ts e end_time level r s s' :
    reachable s → ranges_below (next_packet (unacked s.1)) ranges →
    OnAckFrameEnd e end_time level (OnAckTimestamps ts (read_ack largest delay time ranges s)) = (r, s') →
    r = PACKETS_NEWLY_ACKED ∨ r = NO_PACKETS_NEWLY_ACKED → reachable s'
| reach_timeout e s : reachable s → reachable (OnRetransmissionTimeout e s)
| reach_tlp s : reachable s → reachable (MaybeRetransmitTailLossProbe s).2
| reach_oldest s : reachable s → reachable (MaybeRetransmitOldestPacket PROBING_RETRANSMISSION s).2
| reach_unacked type s :
    reachable s → type = ALL_UNACKED_RETRANSMISSION ∨ type = ALL_INITIAL_RETRANSMISSION →
    reachable (RetransmitUnackedPackets type s)
| reach_neuter s : reachable s → reachable (NeuterUnencryptedPackets s)
| reach_confirmed s : reachable s → reachable (SetHandshakeConfirmed s)
| reach_cancel id s : reachable s → reachable (CancelRetransmissionsForStream id s)
| reach_migration type s : reachable s → reachable (OnConnectionMigration type s).

Lemma start_core p a notifier spaces :
  LossDetectionInterface.sane a →
  Core (with_map (new p a) (start_map p notifier spaces), []) ∧ rested (with_map (new p a) (start_map p notifier spaces), []).
Proof.
  intros Hs. split; [|done].
  assert (Hm : Inv (start_map p notifier spaces)).
  { unfold start_map. destruct spaces; [apply (map_step_inv (SetSessionNotifier (SetSessionDecideWhatToWrite (UnackedPacketMap.new p) true) notifier)); [|constructor]|];
      (apply (map_step_inv (SetSessionDecideWhatToWrite (UnackedPacketMap.new p) true)); [apply empty_map_inv|constructor]). }
  assert (Hg : ∀ r, get (start_map p notifier spaces) r = None).
  { intros r. unfold get. destruct (r <? _); [done|]. unfold GetTransmissionInfo.
    assert (E : unacked_packets (start_map p notifier spaces) = []) by by destruct spaces. by rewrite E. }
  split; [done|by destruct spaces|done|done|split; [apply IntervalSet.valid_nil|intros z Hz; by apply IntervalSet.den_nil in Hz]|].
  split; cbn.
  - intros r i Hi. by rewrite Hg in Hi.
  - intros r Hd. by apply IntervalSet.den_nil in Hd.
  - intros r i Hi. by rewrite Hg in Hi.
  - intros packet time bytes Hin. by apply elem_of_nil in Hin.
  - constructor.
  - intros r Hin. by apply elem_of_nil in Hin.
  - intros r Hin. by apply elem_of_nil in Hin.
  - constructor.
  - intros r Hin. by apply elem_of_nil in Hin.
Qed.

(** The packets of an ACK frame are tracked and were not acknowledged. *)
Lemma numbers_alive largest delay time ranges ts s :
  Core s → rested s → ranges_below (next_packet (unacked s.1)) ranges →
  let s1 := OnAckTimestamps ts (read_ack largest delay time ranges s) in
  Core s1 ∧ packets_lost s1.1 = [] ∧ StronglySorted (λ x y, y < x) (numbers s1) ∧ (∀ p, p ∈ numbers s1 → alive s1 p)
  ∧ kind (unacked s1.1) = kind (unacked s.1) ∧ (∀ r, get (unacked s1.1) r = get (unacked s.1) r)
  ∧ ∀ z, z ∈ numbers s1 ↔ in_ranges ranges z ∧ ∃ i, get (unacked s.1) z = Some i ∧ state i ≠ ACKED.
Proof.
  intros HC Hr Hb. cbv zeta.
  destruct (read_ack_spec largest delay time ranges _ s HC Hr Hb) as (C1&_&G1&(K1&K2&_&K4)&_&Q1&L1&S1&M1).
  destruct (OnAckTimestamps_reading ts (read_ack largest delay time ranges s) C1) as [(C2&E2&(J1&J2&_&J4)&G2&_&Q2&L2) N2].
  set (s1 := read_ack _ _ _ _ s) in *. set (s2 := OnAckTimestamps ts s1) in *. rewrite N2.
  split; [done|]. split; [congruence|]. split; [done|]. split; [|split; [congruence|split; [intros r; by rewrite G2|]]].
  - intros p Hp. apply M1 in Hp as (Hin&Hle&Hn). pose proof (ranges_above _ _ _ Hb Hin). unfold alive. rewrite J1, J2, K1, K2, Q2, Q1.
    split; [lia|done].
  - intros z. rewrite M1. split; intros [Hin Hz]; (split; [done|]).
    + pose proof (ranges_above _ _ _ Hb Hin). apply (alive_get s z HC). destruct Hz. split; [lia|done].
    + destruct Hz as (i&Hi&Ha). pose proof (get_range _ _ _ Hi). split; [lia|].
      intros Hd. by apply Ha, (v_acked _ _ _ _ (c_view _ HC) z i Hi).
Qed.

Lemma reachable_core s : reachable s → Core s ∧ rested s.
Proof.
  induction 1 as [p a notifier spaces Hs|packet time type fl s _ [HC Hr] Hsend|largest delay time ranges ts e end_time level r s s' _ [HC Hr] Hb He Hok
    |e s _ [HC Hr]|s _ [HC Hr]|s _ [HC Hr]|type s _ [HC Hr] Hty|s _ [HC Hr]|s _ [HC Hr]|id s _ [HC Hr]|type s _ [HC Hr]].
  all: try (assert (Hcalm : ∀ s', calm s s' → Core s' ∧ rested s') by (intros s' Hc; split; [apply Hc|by eapply calm_rested])).
  - by apply start_core.
  - destruct (OnPacketSent_core packet time type fl s HC Hsend) as (H1&H2&H3). split; [done|]. unfold rested. by rewrite H2, H3.
  - destruct (numbers_alive largest delay time ranges ts s HC Hr Hb) as (C1&L1&S1&A1&_).
    pose proof (OnAckFrameEnd_spec e end_time level _ C1 L1 S1 A1) as Hend. rewrite He in Hend. destruct Hend as (C2&_&Hrest&Hres).
    split; [done|]. destruct Hres as [Hn|[Hn|(p&i&_&_&_&Hj)]]; [apply Hrest; by left|apply Hrest; by right|].
    destruct Hok as [->| ->]; by destruct Hj.
  - by apply OnRetransmissionTimeout_core.
  - by apply Hcalm, MaybeRetransmitTailLossProbe_calm.
  - by apply Hcalm, MaybeRetransmitOldestPacket_calm.
  - apply Hcalm, RetransmitUnackedPackets_calm; [done|]. by destruct Hty as [->| ->].
  - by apply Hcalm, NeuterUnencryptedPackets_calm.
  - by apply Hcalm, SetHandshakeConfirmed_calm.
  - unfold CancelRetransmissionsForStream. by rewrite (c_decides _ HC).
  - unfold OnConnectionMigration. destruct type; [done|done|]. split; [|done].
    by apply (core_same s _ [OnConnectionMigrationReset]); [done|done|done|apply (c_sane _ HC)|done|done|repeat constructor|done].
Qed.

(** C16. No packet is forgotten, when the session decides what to write: in every run of sends, ACK frames, timeouts, probes and
    changes of keys, a packet that was sent with frames is still in flight with all of them, or it was acknowledged, or
    all its frames were handed back to the session as lost or to send again, or it was given up with its
    encryption level, or it left the flight at a moment when the session needed none of its frames. A packet is
    handled as acknowledged at most once and reported lost at most once. *)
Theorem no_packet_is_forgotten s :
  reachable s →
  (∀ packet time bytes, PacketSent packet time bytes true ∈ s.2 → packet_retransmittable_frames packet ≠ [] →
    let p := packet_number packet in let fs := packet_retransmittable_frames packet in
    (∃ i, least_unacked (unacked s.1) <= p ∧ GetTransmissionInfo (unacked s.1) p = Some i
       ∧ retransmittable_frames i = fs ∧ state i = OUTSTANDING ∧ in_flight i = true)
    ∨ (∃ i calls, PacketAcked p i calls ∈ s.2 ∧ retransmittable_frames i = fs)
    ∨ (∃ type i calls, PacketMarked p type i calls ∈ s.2
         ∧ (calls = map OnFrameLost fs ∨ calls = [RetransmitFramesCall fs type]))
    ∨ Neutered p ∈ s.2
    ∨ (∃ before after, s.2 = before ++ LeftFlight p :: after ∧ ∀ f, f ∈ fs → IsFrameOutstanding before f = false))
  ∧ NoDup (acked_numbers s.2) ∧ NoDup (lost_numbers s.2).
Proof.
  intros [HC _]%reachable_core. split; [|split; [apply (v_once _ _ _ _ (c_view _ HC))|apply (v_lost_once _ _ _ _ (c_view _ HC))]].
  intros packet time bytes Hin Hne. cbv zeta. destruct (v_sent _ _ _ _ (c_view _ HC) packet time bytes Hin) as [_ Hacc].
  destruct (Hacc Hne) as [(i&[? ?]%get_some&?&?&?)|[Hk|[(type&i&Hk&Ef)|[Hk|(before&after&E&Hk)]]]].
  - left. by exists i.
  - right. by left.
  - do 2 right. left. exists type, i, (told type i). split; [done|]. rewrite <-Ef. unfold told.
    destruct (ShouldForceRetransmission type); [by right|by left].
  - do 3 right. by left.
  - do 4 right. exists before, after. split; [done|]. intros f Hf. apply not_true_iff_false. intros Ht.
    apply not_true_iff_false in Hk. apply Hk, existsb_exists. exists f. split; [by apply list_elem_of_In|done].
Qed.

(** C18. An ACK frame is processed exactly, when the session decides what to write. In every run, reading the ranges of a frame collects
    exactly the packets of the ranges that are tracked and not acknowledged yet, from the largest down, although it
    only walks along the packets acknowledged before. At the end of the frame each of them that can be acknowledged is
    handled, and the answer says whether there was one; the frame is refused only for a packet that was never sent, cannot
    be acknowledged or belongs to another packet number space. No packet is ever found to be acknowledged
    twice. *)
Theorem acks_are_processed_exactly largest delay time ranges ts e end_time level s :
  reachable s → ranges_below (next_packet (unacked s.1)) ranges →
  let s1 := OnAckTimestamps ts (read_ack largest delay time ranges s) in
  let new := map acked_packet_number (packets_acked (ack s1.1)) in
  let '(r, s2) := OnAckFrameEnd e end_time level s1 in
  (∀ p, p ∈ new ↔ in_ranges ranges p ∧ ∃ i, least_unacked (unacked s.1) <= p ∧ GetTransmissionInfo (unacked s.1) p = Some i
                                            ∧ state i ≠ ACKED)
  ∧ StronglySorted (λ x y, y < x) new
  ∧ (∀ p, AckedTwice p ∉ s2.2)
  ∧ (r = PACKETS_NEWLY_ACKED ∧ new ≠ [] ∨ r = NO_PACKETS_NEWLY_ACKED ∧ new = [] →
       ∀ p i, p ∈ new → GetTransmissionInfo (unacked s.1) p = Some i → IsAckable (state i) = true →
         ∃ calls, PacketAcked p i calls ∈ s2.2)
  ∧ (r = PACKETS_NEWLY_ACKED ∧ new ≠ [] ∨ r = NO_PACKETS_NEWLY_ACKED ∧ new = []
     ∨ ∃ p i, p ∈ new ∧ GetTransmissionInfo (unacked s.1) p = Some i
         ∧ supports_multiple_packet_number_spaces (unacked s.1) = true ∧ error_justified (unacked s.1) level r i).
Proof.
  intros [HC Hr]%reachable_core Hb. cbv zeta.
  destruct (numbers_alive largest delay time ranges ts s HC Hr Hb) as (C1&L1&S1&A1&K1&G1&M1).
  set (s1 := OnAckTimestamps ts _) in *. fold (numbers s1).
  pose proof (OnAckFrameEnd_spec e end_time level s1 C1 L1 S1 A1) as Hend.
  destruct (OnAckFrameEnd e end_time level s1) as [r s2]. destruct Hend as (C2&_&Hok&Hres).
  split; [|split; [done|split; [apply (v_twice _ _ _ _ (c_view _ C2))|split]]].
  - intros p. rewrite M1. setoid_rewrite get_some. naive_solver.
  - intros Hn p i Hp Hi Ha. apply (proj2 (Hok Hn) p i Hp); [|done]. rewrite G1. apply get_some. split; [|done].
    apply M1 in Hp as (_&j&Hj&_). by eapply get_range.
  - destruct Hres as [Hn|[Hn|(p&i&Hp&Hi&Hsp&Hj)]]; [by left|by right; left|]. right. right. exists p, i.
    rewrite G1 in Hi. apply get_some in Hi as [_ Hi]. unfold kind in K1. injection K1 as K2 K3 K4.
    split; [done|]. split; [done|]. split; [congruence|]. by apply (error_justified_kind (unacked s1.1)).
Qed.
End manager.
#[global] Arguments t : clear implicits.
#[global] Arguments io : clear implicits.

(** *** Witnesses *)

(** Packets 1 to 5 are sent with a frame each, and packets 3 to 5 are acknowledged: packets 1 and 2 are lost. *)
#[local] Instance w_ops : LossDetectionInterface.ops UberLossAlgorithm.t := LossDetectionInterface.uber_ops w_flags.
#[local] Instance w_laws : LossDetectionInterface.laws UberLossAlgorithm.t := LossDetectionInterface.uber_laws w_flags.
Definition w_cfg : config :=
  mk_config 2 2 false false false 10000 200000 false false 25000 false true false false.
Definition w_env (time : Z) : env := mk_env time time w_rtt 5 30 25.
Definition w_new (_ : list effect) (_ : list call) (_ : QuicFrame) : bool := true.
Definition w_needed (_ : list effect) (_ : QuicFrame) : bool := true.
Definition w_no_crypto (_ : list effect) : bool := false.

Definition w_manager : io UberLossAlgorithm.t :=
  (with_map (new IS_CLIENT (UberLossAlgorithm.new w_flags kNack)) (start_map IS_CLIENT true false), []).
Definition w_step (s : io UberLossAlgorithm.t) (p : Z) : io UberLossAlgorithm.t :=
  (OnPacketSent (w_packet p 100 false [w_frame 5 (10 * p) 10 false]) UninitializedPacketNumber (100 + p)
     NOT_RETRANSMISSION true s).2.
Definition w_sent : io UberLossAlgorithm.t := w_step (w_step (w_step (w_step (w_step w_manager 1) 2) 3) 4) 5.
Definition w_read : io UberLossAlgorithm.t := OnAckTimestamps [] (read_ack 5 0 150 [(3, 6)] w_sent).
Definition w_done : AckResult * io UberLossAlgorithm.t :=
  OnAckFrameEnd w_cfg w_new w_needed (w_env 150) 150 ENCRYPTION_INITIAL w_read.

Notation w_reachable := (reachable w_cfg w_new w_needed w_no_crypto).

Lemma w_sent_reachable : w_reachable w_sent.
Proof.
  unfold w_sent, w_step, w_manager.
  repeat (apply reach_sent; [|by split; [by vm_compute|split; [by vm_compute|by vm_compute]]]).
  apply reach_start, LossDetectionInterface.new_uber_sane.
Qed.

Lemma no_packet_is_forgotten_witness :
  w_reachable w_done.2
  ∧ lost_numbers w_done.2.2 = [1; 2] ∧ acked_numbers w_done.2.2 = [3; 4; 5]
  ∧ NoDup (acked_numbers w_done.2.2) ∧ NoDup (lost_numbers w_done.2.2).
Proof.
  assert (Hr : w_reachable w_done.2).
  { apply (reach_ack w_cfg w_new w_needed w_no_crypto 5 0 150 [(3, 6)] [] (w_env 150) 150 ENCRYPTION_INITIAL w_done.1 w_sent);
      [exact w_sent_reachable|by vm_compute|by vm_compute|left; by vm_compute]. }
  split; [exact Hr|]. split; [by vm_compute|]. split; [by vm_compute|].
  exact (proj2 (no_packet_is_forgotten w_cfg w_new w_needed w_no_crypto w_done.2 Hr)).
Defined.

Lemma acks_are_processed_exactly_witness :
  w_reachable w_sent ∧ ranges_below (next_packet (unacked w_sent.1)) [(3, 6)] ∧ w_done.1 = PACKETS_NEWLY_ACKED
  ∧ map acked_packet_number (packets_acked (ack w_read.1)) = [5; 4; 3]
  ∧ ∀ p, AckedTwice p ∉ w_done.2.2.
Proof.
  split; [exact w_sent_reachable|]. split; [by vm_compute|]. split; [by vm_compute|]. split; [by vm_compute|].
  pose proof (acks_are_processed_exactly w_cfg w_new w_needed w_no_crypto 5 0 150 [(3, 6)] [] (w_env 150) 150 ENCRYPTION_INITIAL
    w_sent w_sent_reachable ltac:(by vm_compute)) as Hx.
  cbv zeta in Hx. revert Hx. unfold w_done, w_read. generalize (OnAckFrameEnd w_cfg w_new w_needed (w_env 150) 150 ENCRYPTION_INITIAL
    (OnAckTimestamps [] (read_ack 5 0 150 [(3, 6)] w_sent))).
  intros [r s2] Hx. exact (proj1 (proj2 (proj2 Hx))).
Defined.
End QuicSentPacketManager.
