(* ===== verification/QuicStreams.v ===== *)
(** [QuicStream] (quic/core/quic_stream.cc): a stream puts the send buffer, its own flow controller and that of the
    connection together, and keeps the state of both directions: what is buffered, what is sent, what is lost, which side
    is closed and whether the peer has been told the end.

    The session is an argument: a function from what has happened so far to how much of a write it takes, in which packets,
    and whether the connection closes in the write. What it does to a stream that closes is modelled with it
    ([CloseStreamInner], [SendRstStreamInner], [OnConnectionClosed] of quic/core/quic_session.cc), because it calls the stream
    back. Everything else the stream calls is a log: the sequencer is told of frames last in an operation, so what it calls is
    an operation of its own. *)

From S2P Require Import Prelude OrderedSet IntervalSet Stream Bytes DataWire StreamSendBuffer FlowController.

Module QuicStream.

Definition kMaxStreamLength : Z := 2 ^ 62 - 1.

Inductive StreamType := BIDIRECTIONAL | WRITE_UNIDIRECTIONAL | READ_UNIDIRECTIONAL | CRYPTO.
#[export] Instance StreamType_eq_dec : EqDecision StreamType.
Proof. solve_decision. Defined.
Inductive StreamSendingState := NO_FIN | FIN | FIN_AND_PADDING.

(** [QuicRstStreamErrorCode] and [QuicErrorCode]: numbers, since some come from the peer. *)
Definition QUIC_STREAM_NO_ERROR : Z := 0.
Definition QUIC_STREAM_CONNECTION_ERROR : Z := 4.
Definition QUIC_RST_ACKNOWLEDGEMENT : Z := 7.
Definition QUIC_STREAM_TTL_EXPIRED : Z := 16.
Definition QUIC_NO_ERROR : Z := 0.
Definition QUIC_INTERNAL_ERROR : Z := 1.
Definition QUIC_INVALID_STREAM_ID : Z := 17.
Definition QUIC_FLOW_CONTROL_RECEIVED_TOO_MUCH_DATA : Z := 59.
Definition QUIC_FLOW_CONTROL_SENT_TOO_MUCH_DATA : Z := 63.
Definition QUIC_STREAM_LENGTH_OVERFLOW : Z := 98.
Definition QUIC_DATA_RECEIVED_ON_WRITE_UNIDIRECTIONAL_STREAM : Z := 115.
Definition QUIC_TRY_TO_WRITE_DATA_ON_READ_UNIDIRECTIONAL_STREAM : Z := 116.
Definition QUIC_WINDOW_UPDATE_RECEIVED_ON_READ_UNIDIRECTIONAL_STREAM : Z := 123.

Record t := mk {
  stream_bytes_read : Z;
  stream_error : Z;
  connection_error : Z;
  read_side_closed : bool;
  write_side_closed : bool;
  fin_buffered : bool;
  fin_sent : bool;
  fin_outstanding : bool;
  fin_lost : bool;
  fin_received : bool;
  rst_sent : bool;
  rst_received : bool;
  flow_controller : FlowController.t;
  busy_counter : Z;
  add_random_padding_after_fin : bool;
  send_buffer : StreamSendBuffer.t;
  deadline : Z;
}.
(** What is fixed: the type, the flags, the version, [session_decides_what_to_write]. *)
Record config := mk_config {
  type_ : StreamType;
  is_static : bool;
  stream_contributes_to_connection_flow_control : bool;
  buffered_data_threshold : Z;
  max_data_slice_size : Z;
  ietf_frames : bool;
  session_decides_what_to_write : bool;
  quic_no_window_update_on_read_only_stream : bool;
}.

(** Where the session keeps the stream: [stream_map_], [zombie_streams_] or [closed_streams_]. *)
Inductive place := Open | Zombie | Closed.
#[export] Instance place_eq_dec : EqDecision place.
Proof. solve_decision. Defined.

Inductive call :=
  | SendStreamData (offset write_length : Z) (state : StreamSendingState) (consumed : Z) (fin_consumed : bool)
  | PacketData (offset : Z) (data : option (list Z))
  | SetTransmissionType
  | RstStreamFrame (error : Z) (bytes_written : Z)
  | StopSendingFrame (error : Z)
  | SendStopSending_ (code : Z)
  | SendBlocked (stream : bool)
  | SendWindowUpdate (stream : bool) (byte_offset : Z)
  | MarkConnectionLevelWriteBlocked
  | StreamDraining
  | OnStreamWaitingForAcks
  | OnStreamDoneWaitingForAcks_
  | InsertLocallyClosedStreamsHighestOffset (offset : Z)
  | CloseConnection_ (error : Z)
  | OnCanWriteNewData
  | SequencerOnStreamFrame (offset : Z) (fin : bool) (data : list Z)
  | SequencerReleaseBuffer
  | SequencerStopReading.

(** The stream, the flow controller of the connection, whether the connection is up, and the calls so far. *)
Record io := mk_io {
  stream_ : t;
  connection_flow_controller : FlowController.t;
  connected : bool;
  where_ : place;
  calls : list call;
}.

Definition upd (f : t → t) (s : io) : io := mk_io (f (stream_ s)) (connection_flow_controller s) (connected s) (where_ s) (calls s).
Definition with_connection (c : FlowController.t) (s : io) : io := mk_io (stream_ s) c (connected s) (where_ s) (calls s).
Definition with_connected (b : bool) (s : io) : io := mk_io (stream_ s) (connection_flow_controller s) b (where_ s) (calls s).
Definition with_place (p : place) (s : io) : io := mk_io (stream_ s) (connection_flow_controller s) (connected s) p (calls s).
Definition log (c : call) (s : io) : io := mk_io (stream_ s) (connection_flow_controller s) (connected s) (where_ s) (calls s ++ [c]).

Definition set_bytes_read v (st : t) : t :=
  mk v (stream_error st) (connection_error st) (read_side_closed st) (write_side_closed st) (fin_buffered st)
    (fin_sent st) (fin_outstanding st) (fin_lost st) (fin_received st) (rst_sent st) (rst_received st)
    (flow_controller st) (busy_counter st) (add_random_padding_after_fin st) (send_buffer st) (deadline st).
Definition set_error v w (st : t) : t :=
  mk (stream_bytes_read st) v w (read_side_closed st) (write_side_closed st) (fin_buffered st) (fin_sent st)
    (fin_outstanding st) (fin_lost st) (fin_received st) (rst_sent st) (rst_received st) (flow_controller st)
    (busy_counter st) (add_random_padding_after_fin st) (send_buffer st) (deadline st).
Definition set_read_closed v (st : t) : t :=
  mk (stream_bytes_read st) (stream_error st) (connection_error st) v (write_side_closed st) (fin_buffered st)
    (fin_sent st) (fin_outstanding st) (fin_lost st) (fin_received st) (rst_sent st) (rst_received st)
    (flow_controller st) (busy_counter st) (add_random_padding_after_fin st) (send_buffer st) (deadline st).
Definition set_write_closed v (st : t) : t :=
  mk (stream_bytes_read st) (stream_error st) (connection_error st) (read_side_closed st) v (fin_buffered st)
    (fin_sent st) (fin_outstanding st) (fin_lost st) (fin_received st) (rst_sent st) (rst_received st)
    (flow_controller st) (busy_counter st) (add_random_padding_after_fin st) (send_buffer st) (deadline st).
Definition set_fin_buffered v (st : t) : t :=
  mk (stream_bytes_read st) (stream_error st) (connection_error st) (read_side_closed st) (write_side_closed st) v
    (fin_sent st) (fin_outstanding st) (fin_lost st) (fin_received st) (rst_sent st) (rst_received st)
    (flow_controller st) (busy_counter st) (add_random_padding_after_fin st) (send_buffer st) (deadline st).
Definition set_fin_sent v (st : t) : t :=
  mk (stream_bytes_read st) (stream_error st) (connection_error st) (read_side_closed st) (write_side_closed st)
    (fin_buffered st) v (fin_outstanding st) (fin_lost st) (fin_received st) (rst_sent st) (rst_received st)
    (flow_controller st) (busy_counter st) (add_random_padding_after_fin st) (send_buffer st) (deadline st).
Definition set_fin_outstanding v (st : t) : t :=
  mk (stream_bytes_read st) (stream_error st) (connection_error st) (read_side_closed st) (write_side_closed st)
    (fin_buffered st) (fin_sent st) v (fin_lost st) (fin_received st) (rst_sent st) (rst_received st) (flow_controller
    st) (busy_counter st) (add_random_padding_after_fin st) (send_buffer st) (deadline st).
Definition set_fin_lost v (st : t) : t :=
  mk (stream_bytes_read st) (stream_error st) (connection_error st) (read_side_closed st) (write_side_closed st)
    (fin_buffered st) (fin_sent st) (fin_outstanding st) v (fin_received st) (rst_sent st) (rst_received st)
    (flow_controller st) (busy_counter st) (add_random_padding_after_fin st) (send_buffer st) (deadline st).
Definition set_fin_received v (st : t) : t :=
  mk (stream_bytes_read st) (stream_error st) (connection_error st) (read_side_closed st) (write_side_closed st)
    (fin_buffered st) (fin_sent st) (fin_outstanding st) (fin_lost st) v (rst_sent st) (rst_received st)
    (flow_controller st) (busy_counter st) (add_random_padding_after_fin st) (send_buffer st) (deadline st).
Definition set_rst_sent v (st : t) : t :=
  mk (stream_bytes_read st) (stream_error st) (connection_error st) (read_side_closed st) (write_side_closed st)
    (fin_buffered st) (fin_sent st) (fin_outstanding st) (fin_lost st) (fin_received st) v (rst_received st)
    (flow_controller st) (busy_counter st) (add_random_padding_after_fin st) (send_buffer st) (deadline st).
Definition set_rst_received v (st : t) : t :=
  mk (stream_bytes_read st) (stream_error st) (connection_error st) (read_side_closed st) (write_side_closed st)
    (fin_buffered st) (fin_sent st) (fin_outstanding st) (fin_lost st) (fin_received st) (rst_sent st) v
    (flow_controller st) (busy_counter st) (add_random_padding_after_fin st) (send_buffer st) (deadline st).
Definition set_flow_controller v (st : t) : t :=
  mk (stream_bytes_read st) (stream_error st) (connection_error st) (read_side_closed st) (write_side_closed st)
    (fin_buffered st) (fin_sent st) (fin_outstanding st) (fin_lost st) (fin_received st) (rst_sent st) (rst_received
    st) v (busy_counter st) (add_random_padding_after_fin st) (send_buffer st) (deadline st).
Definition set_busy_counter v (st : t) : t :=
  mk (stream_bytes_read st) (stream_error st) (connection_error st) (read_side_closed st) (write_side_closed st)
    (fin_buffered st) (fin_sent st) (fin_outstanding st) (fin_lost st) (fin_received st) (rst_sent st) (rst_received
    st) (flow_controller st) v (add_random_padding_after_fin st) (send_buffer st) (deadline st).
Definition set_padding v (st : t) : t :=
  mk (stream_bytes_read st) (stream_error st) (connection_error st) (read_side_closed st) (write_side_closed st)
    (fin_buffered st) (fin_sent st) (fin_outstanding st) (fin_lost st) (fin_received st) (rst_sent st) (rst_received
    st) (flow_controller st) (busy_counter st) v (send_buffer st) (deadline st).
Definition set_send_buffer v (st : t) : t :=
  mk (stream_bytes_read st) (stream_error st) (connection_error st) (read_side_closed st) (write_side_closed st)
    (fin_buffered st) (fin_sent st) (fin_outstanding st) (fin_lost st) (fin_received st) (rst_sent st) (rst_received
    st) (flow_controller st) (busy_counter st) (add_random_padding_after_fin st) v (deadline st).
Definition set_deadline v (st : t) : t :=
  mk (stream_bytes_read st) (stream_error st) (connection_error st) (read_side_closed st) (write_side_closed st)
    (fin_buffered st) (fin_sent st) (fin_outstanding st) (fin_lost st) (fin_received st) (rst_sent st) (rst_received
    st) (flow_controller st) (busy_counter st) (add_random_padding_after_fin st) (send_buffer st) v.

#[local] Notation "s |> f" := (f s) (at level 50, left associativity, only parsing).

(** What the session answers to a write: the packets it fills with the data, whether it takes the end of the stream,
    and the error with which the connection closes in the write, if it does. *)
Record answer := mk_answer { packets : list Z; fin_consumed : bool; closes : option Z }.
(** [QuicConsumedData] *)
Record QuicConsumedData := mk_consumed { bytes_consumed : Z; fin_was_consumed : bool }.

Section stream.
Context (c : config).

Definition contributes : bool := stream_contributes_to_connection_flow_control c.

(** ** Queries *)

Definition stream_bytes_written (st : t) : Z := StreamSendBuffer.stream_bytes_written (send_buffer st).
Definition HasBufferedData (st : t) : bool := stream_bytes_written st <? StreamSendBuffer.stream_offset (send_buffer st).
Definition BufferedDataBytes (st : t) : Z := wrap64 (StreamSendBuffer.stream_offset (send_buffer st) - stream_bytes_written st).
Definition CanWriteNewData (st : t) : bool := BufferedDataBytes st <? buffered_data_threshold c.
Definition CanWriteNewDataAfterData (length : Z) (st : t) : bool := wrap64 (BufferedDataBytes st + length) <? buffered_data_threshold c.
Definition HasPendingRetransmission (st : t) : bool := StreamSendBuffer.HasPendingRetransmission (send_buffer st) || fin_lost st.
Definition IsStreamFrameOutstanding (offset data_length : Z) (fin : bool) (st : t) : bool :=
  StreamSendBuffer.IsStreamDataOutstanding (send_buffer st) offset data_length || (fin && fin_outstanding st).
Definition IsWaitingForAcks (st : t) : bool :=
  (negb (rst_sent st) || (stream_error st =? QUIC_STREAM_NO_ERROR))
  && (negb (StreamSendBuffer.stream_bytes_outstanding (send_buffer st) =? 0) || fin_outstanding st).
Definition HasFinalReceivedByteOffset (st : t) : bool := fin_received st || rst_received st.

(** ** Closing *)

Definition set_write_state (f : StreamSendBuffer.t → StreamSendBuffer.t) (st : t) : t := set_send_buffer (f (send_buffer st)) st.

(** What a flow controller asks for; [stream] tells which of the two it is. A stream's may widen the window of the
    connection's, which has none above it. *)
Definition run_effect (stream : bool) (s : io) (e : FlowController.effect) : io :=
  match e with
  | FlowController.SendWindowUpdate o => log (SendWindowUpdate stream o) s
  | FlowController.EnsureSessionWindowAtLeast n =>
      let '(f, effects) := FlowController.EnsureWindowAtLeast (connection_flow_controller s) n in
      fold_left (λ s e, match e with FlowController.SendWindowUpdate o => log (SendWindowUpdate false o) s | _ => s end)
        effects (with_connection f s)
  | FlowController.CloseConnection => s
  end.

Section clock.
Context (e : FlowController.env).

Definition stream_consumes (bytes : Z) (s : io) : io :=
  let '(f, effects) := FlowController.AddBytesConsumed e (flow_controller (stream_ s)) bytes in
  fold_left (run_effect true) effects (upd (set_flow_controller f) s).
Definition connection_consumes (bytes : Z) (s : io) : io :=
  let '(f, effects) := FlowController.AddBytesConsumed e (connection_flow_controller s) bytes in
  fold_left (run_effect false) effects (with_connection f s).

Definition AddBytesConsumed (bytes : Z) (s : io) : io :=
  if bool_decide (type_ c = CRYPTO) then s else
  let s := if negb (read_side_closed (stream_ s)) then stream_consumes bytes s else s in
  if contributes then connection_consumes bytes s else s.

Definition OnStreamDoneWaitingForAcks (s : io) : io :=
  let s := log OnStreamDoneWaitingForAcks_ s in
  if bool_decide (where_ s = Zombie) then with_place Closed s else s.

(** The functions of the stream that the session calls when it closes it; [close] is [CloseStreamInner]. *)
Section close.
Context (close : bool → io → io).

Definition CloseReadSide_ (s : io) : io :=
  if read_side_closed (stream_ s) then s else
  let s := log SequencerReleaseBuffer (upd (set_read_closed true) s) in
  if write_side_closed (stream_ s) then close false s else s.
Definition CloseWriteSide_ (s : io) : io :=
  if write_side_closed (stream_ s) then s else
  let s := upd (set_write_closed true) s in
  if read_side_closed (stream_ s) then close false s else s.

(** The RST_STREAM frame of [SendRstStreamInner]. *)
Definition reset_frames (error bytes_written : Z) (close_write_side_only : bool) (s : io) : io :=
  if connected s then
    let s := log (RstStreamFrame error bytes_written) s in
    if negb close_write_side_only && ietf_frames c then log (StopSendingFrame error) s else s
  else s.
Definition SendRstStream_ (error bytes_written : Z) (s : io) : io :=
  let s := reset_frames error bytes_written false s in
  if negb (error =? QUIC_STREAM_NO_ERROR) && bool_decide (where_ s = Zombie) then OnStreamDoneWaitingForAcks s
  else close true s.

Definition OnClose (s : io) : io :=
  let s := s |> CloseReadSide_ |> CloseWriteSide_ in
  let s :=
    if negb (fin_sent (stream_ s)) && negb (rst_sent (stream_ s)) then
      s |> SendRstStream_ QUIC_RST_ACKNOWLEDGEMENT (stream_bytes_written (stream_ s))
        |> OnStreamDoneWaitingForAcks |> upd (set_rst_sent true)
    else s in
  if FlowController.FlowControlViolation (flow_controller (stream_ s))
     || FlowController.FlowControlViolation (connection_flow_controller s) then s else
  AddBytesConsumed (wrap64 (FlowController.highest_received_byte_offset (flow_controller (stream_ s))
                            - FlowController.bytes_consumed (flow_controller (stream_ s)))) s.
End close.

(** [CloseConnection] for a stream that is not told of it: a static one. *)
Definition CloseConnection_untold (error : Z) (s : io) : io :=
  if connected s then log (CloseConnection_ error) (with_connected false s) else s.

(** [CloseStreamInner], as far as the stream is concerned: the session's counters of streams and its ids are not. A stream that
    is called back has left the map, so that what it calls finds it closed: a depth of one is enough. *)
Fixpoint CloseStreamInner_ (depth : nat) (locally_reset : bool) (s : io) : io :=
  if negb (bool_decide (where_ s = Open)) then s else
  match depth with
  | O => s
  | S depth =>
      if is_static c then CloseConnection_untold QUIC_INVALID_STREAM_ID s else
      let s := if locally_reset then upd (set_rst_sent true) s else s in
      let s := with_place (if IsWaitingForAcks (stream_ s) then Zombie else Closed) s in
      let s := if negb (HasFinalReceivedByteOffset (stream_ s))
               then log (InsertLocallyClosedStreamsHighestOffset
                           (FlowController.highest_received_byte_offset (flow_controller (stream_ s)))) s
               else s in
      OnClose (CloseStreamInner_ depth) s
  end.
Definition CloseStreamInner : bool → io → io := CloseStreamInner_ 1.
Definition CloseStream : io → io := CloseStreamInner false.

Definition CloseReadSide : io → io := CloseReadSide_ CloseStreamInner.
Definition CloseWriteSide : io → io := CloseWriteSide_ CloseStreamInner.
Definition SendRstStream : Z → Z → io → io := SendRstStream_ CloseStreamInner.

Definition OnConnectionClosed (error : Z) (s : io) : io :=
  if read_side_closed (stream_ s) && write_side_closed (stream_ s) then s else
  let s := if negb (error =? QUIC_NO_ERROR) then upd (set_error QUIC_STREAM_CONNECTION_ERROR error) s else s in
  s |> CloseWriteSide |> CloseReadSide.

(** What the session does for the stream when the connection closes. *)
Definition session_OnConnectionClosed (error : Z) (s : io) : io :=
  let s :=
    if bool_decide (where_ s = Open) && negb (is_static c) then
      let s := OnConnectionClosed error s in
      if bool_decide (where_ s = Open) then CloseStream s else s
    else s in
  if bool_decide (where_ s = Zombie) then with_place Closed s else s.
Definition CloseConnection (error : Z) (s : io) : io :=
  if connected s then session_OnConnectionClosed error (log (CloseConnection_ error) (with_connected false s)) else s.

Definition Reset (error : Z) (s : io) : io :=
  s |> upd (set_error error (connection_error (stream_ s)))
    |> (λ s, SendRstStream error (stream_bytes_written (stream_ s)) s) |> upd (set_rst_sent true).

(** ** Receiving *)

Definition MaybeIncreaseHighestReceivedOffset (new_offset : Z) (s : io) : bool * io :=
  let increment := wrap64 (new_offset - FlowController.highest_received_byte_offset (flow_controller (stream_ s))) in
  let '(f, increased) := FlowController.UpdateHighestReceivedOffset (flow_controller (stream_ s)) new_offset in
  if negb increased then (false, s) else
  let s := upd (set_flow_controller f) s in
  (true,
   if contributes then
     with_connection (FlowController.UpdateHighestReceivedOffset (connection_flow_controller s)
       (wrap64 (FlowController.highest_received_byte_offset (connection_flow_controller s) + increment))).1 s
   else s).

Definition violation (s : io) : bool :=
  FlowController.FlowControlViolation (flow_controller (stream_ s))
  || FlowController.FlowControlViolation (connection_flow_controller s).

Definition OnStreamFrame (offset : Z) (fin : bool) (data : list Z) (s : io) : io :=
  if bool_decide (type_ c = WRITE_UNIDIRECTIONAL) then CloseConnection QUIC_DATA_RECEIVED_ON_WRITE_UNIDIRECTIONAL_STREAM s else
  let is_stream_too_long := (kMaxStreamLength <? offset) || (wrap64 (kMaxStreamLength - offset) <? zlen data) in
  if is_stream_too_long then CloseConnection QUIC_STREAM_LENGTH_OVERFLOW s else
  let s :=
    if fin then
      let s := upd (set_fin_received true) s in if fin_sent (stream_ s) then log StreamDraining s else s
    else s in
  if read_side_closed (stream_ s) then s else
  let s := upd (set_bytes_read (wrap64 (stream_bytes_read (stream_ s) + zlen data))) s in
  let '(increased, s) :=
    if 0 <? zlen data then MaybeIncreaseHighestReceivedOffset (wrap64 (offset + zlen data)) s else (false, s) in
  if increased && violation s then CloseConnection QUIC_FLOW_CONTROL_RECEIVED_TOO_MUCH_DATA s else
  log (SequencerOnStreamFrame offset fin data) s.

Definition OnStreamReset (error_code byte_offset : Z) (s : io) : io :=
  let s := upd (set_rst_received true) s in
  if kMaxStreamLength <? byte_offset then CloseConnection QUIC_STREAM_LENGTH_OVERFLOW s else
  let s := (MaybeIncreaseHighestReceivedOffset byte_offset s).2 in
  if violation s then CloseConnection QUIC_FLOW_CONTROL_RECEIVED_TOO_MUCH_DATA s else
  let s := upd (set_error error_code (connection_error (stream_ s))) s in
  let s := if negb (ietf_frames c) then CloseWriteSide s else s in
  CloseReadSide s.

Definition OnFinRead (s : io) : io := CloseReadSide (upd (set_fin_received true) s).
Definition StopReading (s : io) : io := log SequencerStopReading s.

Definition UpdateSendWindowOffset (new_window : Z) (s : io) : io :=
  let '(f, unblocked) := FlowController.UpdateSendWindowOffset (flow_controller (stream_ s)) new_window in
  let s := upd (set_flow_controller f) s in if unblocked then log MarkConnectionLevelWriteBlocked s else s.
Definition OnWindowUpdateFrame (byte_offset : Z) (s : io) : io :=
  if quic_no_window_update_on_read_only_stream c && bool_decide (type_ c = READ_UNIDIRECTIONAL)
  then CloseConnection QUIC_WINDOW_UPDATE_RECEIVED_ON_READ_UNIDIRECTIONAL_STREAM s
  else UpdateSendWindowOffset byte_offset s.

(** The end of [QuicSession::OnStopSendingFrame] for a stream in the map that is not static, with the rest of
    [SendRstStreamInner]. *)
Definition OnStopSendingFrame (application_error_code : Z) (s : io) : io :=
  let s := upd (set_error application_error_code (connection_error (stream_ s))) s in
  let s := reset_frames application_error_code (stream_bytes_written (stream_ s)) true s in
  if negb (application_error_code =? QUIC_STREAM_NO_ERROR) && bool_decide (where_ s = Zombie) then OnStreamDoneWaitingForAcks s else
  if bool_decide (where_ s = Open) then
    if is_static c then CloseConnection_untold QUIC_INVALID_STREAM_ID s
    else CloseWriteSide (upd (set_rst_sent true) s)
  else s.

Definition SendStopSending (code : Z) (s : io) : io := if negb (ietf_frames c) then s else log (SendStopSending_ code) s.

(** ** Writing *)

Section session.
Context (session_writes : io → Z → Z → StreamSendingState → answer) (should_yield : io → bool).

(** [QuicSession::WriteStreamData]: the data of a packet, from the send buffer; a session that does not know the stream any more
    writes none. *)
Definition write_packet (offset data_length : Z) (s : io) : io :=
  if bool_decide (where_ s = Closed) then log (PacketData offset None) s else
  let '(b, w, ok) :=
    StreamSendBuffer.WriteStreamData (send_buffer (stream_ s)) offset data_length (Writer.new (Z.to_nat data_length) NETWORK_BYTE_ORDER) in
  log (PacketData offset (if ok then Some (WriterSpec.written w) else None)) (upd (set_send_buffer b) s).
Fixpoint write_packets (lengths : list Z) (offset : Z) (s : io) : io :=
  match lengths with
  | [] => s
  | n :: lengths => write_packets lengths (offset + n) (write_packet offset n s)
  end.

Definition total (l : list Z) : Z := foldr Z.add 0 l.
(** [QuicSession::WritevData] *)
Definition WritevData_ (write_length offset : Z) (state : StreamSendingState) (s : io) : QuicConsumedData * io :=
  let a := session_writes s write_length offset state in
  let s := write_packets (packets a) offset s in
  let s := log (SendStreamData offset write_length state (total (packets a)) (fin_consumed a)) s in
  let s := match closes a with Some error => CloseConnection error s | None => s end in
  (mk_consumed (total (packets a)) (fin_consumed a), s).

Definition AddBytesSent (bytes : Z) (s : io) : io :=
  let '(f, effects) := FlowController.AddBytesSent (flow_controller (stream_ s)) bytes in
  let s := upd (set_flow_controller f) s in
  let s := if negb (bool_decide (effects = [])) then CloseConnection QUIC_FLOW_CONTROL_SENT_TOO_MUCH_DATA s else s in
  if contributes then
    let '(f, effects) := FlowController.AddBytesSent (connection_flow_controller s) bytes in
    let s := with_connection f s in
    if negb (bool_decide (effects = [])) then CloseConnection QUIC_FLOW_CONTROL_SENT_TOO_MUCH_DATA s else s
  else s.

Definition MaybeSendBlocked (s : io) : io :=
  let '(f, blocked) := FlowController.ShouldSendBlocked (flow_controller (stream_ s)) in
  let s := upd (set_flow_controller f) s in
  let s := if blocked then log (SendBlocked true) s else s in
  if negb contributes then s else
  let '(f, blocked) := FlowController.ShouldSendBlocked (connection_flow_controller s) in
  let s := with_connection f s in
  let s := if blocked then log (SendBlocked false) s else s in
  if FlowController.IsBlocked (connection_flow_controller s) && negb (FlowController.IsBlocked (flow_controller (stream_ s)))
  then log MarkConnectionLevelWriteBlocked s else s.

Definition OnStreamDataConsumed (bytes : Z) (s : io) : io :=
  upd (set_write_state (λ b, StreamSendBuffer.OnStreamDataConsumed b bytes)) s.

(** What follows the write in [WriteBufferedData]. *)
Definition after_write (write_length : Z) (fin fin_with_zero_data : bool) (consumed : QuicConsumedData) (s : io) : io :=
  if write_side_closed (stream_ s) then s else
  let s :=
    if bytes_consumed consumed =? write_length then
      let s := if negb fin_with_zero_data then MaybeSendBlocked s else s in
      if fin && fin_was_consumed consumed then
        let s := s |> upd (set_fin_sent true) |> upd (set_fin_outstanding true) in
        let s := if fin_received (stream_ s) then log StreamDraining s else s in
        CloseWriteSide s
      else if fin && negb (fin_was_consumed consumed) then log MarkConnectionLevelWriteBlocked s else s
    else log MarkConnectionLevelWriteBlocked s in
  let s := if (0 <? bytes_consumed consumed) || fin_was_consumed consumed then upd (set_busy_counter 0) s else s in
  if IsWaitingForAcks (stream_ s) then log OnStreamWaitingForAcks s else s.

Definition send_window (s : io) : Z :=
  let w := FlowController.SendWindowSize (flow_controller (stream_ s)) in
  if contributes then Z.min w (FlowController.SendWindowSize (connection_flow_controller s)) else w.

Definition WriteBufferedData (s : io) : io :=
  if should_yield s then log MarkConnectionLevelWriteBlocked s else
  let write_length := BufferedDataBytes (stream_ s) in
  let fin_with_zero_data := fin_buffered (stream_ s) && (write_length =? 0) in
  let fin := fin_buffered (stream_ s) in
  let window := send_window s in
  if (window =? 0) && negb fin_with_zero_data then MaybeSendBlocked s else
  let '(fin, write_length) := if window <? write_length then (false, window) else (fin, write_length) in
  let s := if session_decides_what_to_write c then log SetTransmissionType s else s in
  let state := if fin then if add_random_padding_after_fin (stream_ s) then FIN_AND_PADDING else FIN else NO_FIN in
  let '(consumed, s) := WritevData_ write_length (stream_bytes_written (stream_ s)) state s in
  s |> OnStreamDataConsumed (bytes_consumed consumed) |> AddBytesSent (bytes_consumed consumed)
    |> after_write write_length fin fin_with_zero_data consumed.

(** The last step of the three ways to write: nothing was waiting before. *)
Definition write_if_new (had_buffered_data : bool) (s : io) : io :=
  if negb had_buffered_data && (HasBufferedData (stream_ s) || fin_buffered (stream_ s)) then WriteBufferedData s else s.

Definition refuse_write (s : io) : io :=
  if bool_decide (type_ c = READ_UNIDIRECTIONAL)
  then CloseConnection QUIC_TRY_TO_WRITE_DATA_ON_READ_UNIDIRECTIONAL_STREAM s else s.
Definition save (iov : list (list Z)) (s : io) : io :=
  upd (set_write_state (λ b, StreamSendBuffer.SaveStreamData (max_data_slice_size c) b iov 0 (zlen (concat iov)))) s.
Definition room_for (length : Z) (s : io) : bool :=
  negb (wrap64 (kMaxStreamLength - StreamSendBuffer.stream_offset (send_buffer (stream_ s))) <? length).

Definition WriteOrBufferData (data : list Z) (fin : bool) (s : io) : io :=
  if bool_decide (data = []) && negb fin then s else
  if fin_buffered (stream_ s) then s else
  if write_side_closed (stream_ s) then refuse_write s else
  let s := upd (set_fin_buffered fin) s in
  let had_buffered_data := HasBufferedData (stream_ s) in
  if 0 <? zlen data then
    if negb (room_for (zlen data) s) then CloseConnection QUIC_STREAM_LENGTH_OVERFLOW s
    else write_if_new had_buffered_data (save [data] s)
  else write_if_new had_buffered_data s.

Definition WritevData (iov : list (list Z)) (fin : bool) (s : io) : QuicConsumedData * io :=
  if write_side_closed (stream_ s) then (mk_consumed 0 false, refuse_write s) else
  let write_length := zlen (concat iov) in
  if fin_buffered (stream_ s) then (mk_consumed 0 false, s) else
  if negb (room_for write_length s) then (mk_consumed 0 false, CloseConnection QUIC_STREAM_LENGTH_OVERFLOW s) else
  let had_buffered_data := HasBufferedData (stream_ s) in
  let '(consumed, s) :=
    if CanWriteNewData (stream_ s) then (write_length, if 0 <? write_length then save iov s else s) else (0, s) in
  let fin_taken := (consumed =? write_length) && fin in
  (mk_consumed consumed fin_taken, write_if_new had_buffered_data (upd (set_fin_buffered fin_taken) s)).

(** The slices of the span are not empty; none is [span.empty()]. *)
Definition WriteMemSlices (span : list (list Z)) (fin : bool) (s : io) : QuicConsumedData * io :=
  let nothing := mk_consumed 0 false in
  if bool_decide (span = []) && negb fin then (nothing, s) else
  if fin_buffered (stream_ s) then (nothing, s) else
  if write_side_closed (stream_ s) then (nothing, refuse_write s) else
  let had_buffered_data := HasBufferedData (stream_ s) in
  if CanWriteNewData (stream_ s) || bool_decide (span = []) then
    let offset := StreamSendBuffer.stream_offset (send_buffer (stream_ s)) in
    let '(b, consumed) := StreamSendBuffer.SaveMemSliceSpan (send_buffer (stream_ s)) span in
    let s := upd (set_send_buffer b) s in
    if negb (bool_decide (span = []))
       && ((StreamSendBuffer.stream_offset b <? offset) || (kMaxStreamLength <? StreamSendBuffer.stream_offset b))
    then (mk_consumed consumed fin, CloseConnection QUIC_STREAM_LENGTH_OVERFLOW s)
    else (mk_consumed consumed fin, write_if_new had_buffered_data (upd (set_fin_buffered fin) s))
  else (nothing, write_if_new had_buffered_data (upd (set_fin_buffered false) s)).

(** ** Acknowledgements, losses and retransmissions *)

Definition OnStreamFrameAcked (offset data_length : Z) (fin_acked : bool) (s : io) : bool * Z * io :=
  let '(b, newly_acked_length, ok) := StreamSendBuffer.OnStreamDataAcked (send_buffer (stream_ s)) offset data_length in
  let s := upd (set_send_buffer b) s in
  if negb ok then (false, newly_acked_length, CloseConnection QUIC_INTERNAL_ERROR s) else
  if negb (fin_sent (stream_ s)) && fin_acked then (false, newly_acked_length, CloseConnection QUIC_INTERNAL_ERROR s) else
  let new_data_acked := (0 <? newly_acked_length) || (fin_acked && fin_outstanding (stream_ s)) in
  let s := if fin_acked then s |> upd (set_fin_outstanding false) |> upd (set_fin_lost false) else s in
  (new_data_acked, newly_acked_length, if negb (IsWaitingForAcks (stream_ s)) then OnStreamDoneWaitingForAcks s else s).

Definition OnStreamFrameRetransmitted (offset data_length : Z) (fin_retransmitted : bool) (s : io) : io :=
  let s := upd (set_write_state (λ b, StreamSendBuffer.OnStreamDataRetransmitted b offset data_length)) s in
  if fin_retransmitted then upd (set_fin_lost false) s else s.

Definition OnStreamFrameLost (offset data_length : Z) (fin : bool) (s : io) : io :=
  let s := if 0 <? data_length
           then upd (set_write_state (λ b, StreamSendBuffer.OnStreamDataLost b offset data_length)) s else s in
  if fin && fin_outstanding (stream_ s) then upd (set_fin_lost true) s else s.

(** Lost data, from the lowest offset; the result tells whether the loop has come to its end. *)
Fixpoint write_pending (fuel : nat) (s : io) : bool * io :=
  if negb (HasPendingRetransmission (stream_ s)) then (true, s) else
  match fuel with
  | O => (false, s)
  | S fuel =>
      if negb (StreamSendBuffer.HasPendingRetransmission (send_buffer (stream_ s))) then
        let '(consumed, s) := WritevData_ 0 (stream_bytes_written (stream_ s)) FIN s in
        let s := upd (set_fin_lost (negb (fin_was_consumed consumed))) s in
        if fin_lost (stream_ s) then (true, s) else write_pending fuel s
      else
        let '(offset, length) := StreamSendBuffer.NextPendingRetransmission (send_buffer (stream_ s)) in
        let can_bundle_fin := fin_lost (stream_ s) && (offset + length =? stream_bytes_written (stream_ s)) in
        let '(consumed, s) := WritevData_ length offset (if can_bundle_fin then FIN else NO_FIN) s in
        let s := OnStreamFrameRetransmitted offset (bytes_consumed consumed) (fin_was_consumed consumed) s in
        if (bytes_consumed consumed <? length) || (can_bundle_fin && negb (fin_was_consumed consumed)) then (true, s)
        else write_pending fuel s
  end.
Definition WritePendingRetransmission (s : io) : io :=
  (write_pending (length (StreamSendBuffer.pending_retransmissions (send_buffer (stream_ s))) + 1) s).2.

(** The deadline of a stream, and the time; a time of 0 is not initialized. *)
Definition MaybeSetTtl (ttl : Z) (s : io) : bool * io :=
  if is_static c then (false, s) else
  if negb (deadline (stream_ s) =? 0) then (false, s) else
  if negb (session_decides_what_to_write c) then (false, s) else
  (true, upd (set_deadline (FlowController.ApproximateNow e + ttl)) s).
Definition HasDeadlinePassed (st : t) : bool :=
  if deadline st =? 0 then false else negb (FlowController.ApproximateNow e <? deadline st).
Definition OnDeadlinePassed (s : io) : io := Reset QUIC_STREAM_TTL_EXPIRED s.

(** The ranges of [RetransmitStreamData]: what is left of the end of the stream to send again, or none when the write is
    blocked. *)
Fixpoint retransmit_ranges (retransmission : list interval) (retransmit_fin : bool) (s : io) : option bool * io :=
  match retransmission with
  | [] => (Some retransmit_fin, s)
  | i :: retransmission =>
      let length := imax i - imin i in
      let can_bundle_fin := retransmit_fin && (imin i + length =? stream_bytes_written (stream_ s)) in
      let '(consumed, s) := WritevData_ length (imin i) (if can_bundle_fin then FIN else NO_FIN) s in
      let s := OnStreamFrameRetransmitted (imin i) (bytes_consumed consumed) (fin_was_consumed consumed) s in
      let retransmit_fin := if can_bundle_fin then negb (fin_was_consumed consumed) else retransmit_fin in
      if (bytes_consumed consumed <? length) || (can_bundle_fin && negb (fin_was_consumed consumed)) then (None, s)
      else retransmit_ranges retransmission retransmit_fin s
  end.
Definition RetransmitStreamData (offset data_length : Z) (fin : bool) (s : io) : bool * io :=
  if HasDeadlinePassed (stream_ s) then (true, OnDeadlinePassed s) else
  let retransmission :=
    default [] (IntervalSet.DifferenceS (IntervalSet.of_interval (Interval.mk offset (offset + data_length)))
                  (StreamSendBuffer.bytes_acked (send_buffer (stream_ s)))) in
  let retransmit_fin := fin && fin_outstanding (stream_ s) in
  if IntervalSet.Empty retransmission && negb retransmit_fin then (true, s) else
  match retransmit_ranges retransmission retransmit_fin s with
  | (None, s) => (false, s)
  | (Some true, s) =>
      let '(consumed, s) := WritevData_ 0 (stream_bytes_written (stream_ s)) FIN s in (fin_was_consumed consumed, s)
  | (Some false, s) => (true, s)
  end.

Definition OnCanWrite (s : io) : io :=
  if HasDeadlinePassed (stream_ s) then OnDeadlinePassed s else
  if HasPendingRetransmission (stream_ s) then WritePendingRetransmission s else
  if write_side_closed (stream_ s) then s else
  let s := if HasBufferedData (stream_ s) || (fin_buffered (stream_ s) && negb (fin_sent (stream_ s))) then WriteBufferedData s else s in
  if negb (fin_buffered (stream_ s)) && negb (fin_sent (stream_ s)) && CanWriteNewData (stream_ s) then log OnCanWriteNewData s else s.
End session.

(** ** A new stream *)

Definition fresh (f : FlowController.t) : t :=
  mk 0 QUIC_STREAM_NO_ERROR QUIC_NO_ERROR false false false false false false false false false f 0 false StreamSendBuffer.new 0.
(** The stream is made before the session has it in its map. *)
Definition new (f connection : FlowController.t) : io :=
  let s := mk_io (fresh f) connection true Open [] in
  match type_ c with
  | WRITE_UNIDIRECTIONAL => CloseReadSide (upd (set_fin_received true) s)
  | READ_UNIDIRECTIONAL => CloseWriteSide (upd (set_fin_sent true) s)
  | _ => s
  end.
End clock.
End stream.

(** ** What an operation leaves alone *)

(** The sending state, and the state of the two sides. *)
Definition sending (s : io) :=
  (send_buffer (stream_ s), fin_buffered (stream_ s), fin_sent (stream_ s), fin_outstanding (stream_ s), fin_lost (stream_ s),
   FlowController.bytes_sent (flow_controller (stream_ s)), FlowController.send_window_offset (flow_controller (stream_ s)),
   FlowController.bytes_sent (connection_flow_controller s), FlowController.send_window_offset (connection_flow_controller s)).
Definition shape (s : io) :=
  (read_side_closed (stream_ s), write_side_closed (stream_ s), rst_sent (stream_ s), stream_error (stream_ s), where_ s, connected s).

Definition quiet (x : call) : bool := match x with SendStreamData _ _ _ _ _ | PacketData _ _ => false | _ => true end.
Definition harmless (x : call) : bool := quiet x && match x with RstStreamFrame _ _ => false | _ => true end.
Definition grows (P : call → bool) (s s' : io) : Prop := ∃ l, calls s' = calls s ++ l ∧ Forall (λ x, P x = true) l.

(** [calm]: nothing is sent. [still]: moreover neither side is closed or reset. *)
Definition calm (s s' : io) : Prop := sending s' = sending s ∧ grows quiet s s'.
Definition still (s s' : io) : Prop := sending s' = sending s ∧ shape s' = shape s ∧ grows harmless s s'.

Lemma grows_refl P s s' : calls s' = calls s → grows P s s'.
Proof. intros E. exists []. by rewrite E, app_nil_r. Qed.
Lemma grows_trans P s1 s2 s3 : grows P s1 s2 → grows P s2 s3 → grows P s1 s3.
Proof. intros (l&E1&H1) (k&E2&H2). exists (l ++ k). rewrite E2, E1, app_assoc. split; [done|]. by apply Forall_app. Qed.
Lemma grows_mono (P Q : call → bool) s s' : (∀ x, P x = true → Q x = true) → grows P s s' → grows Q s s'.
Proof. intros HPQ (l&E&H). exists l. split; [done|]. eapply Forall_impl; [exact H|]. intros x. apply HPQ. Qed.
Lemma harmless_quiet x : harmless x = true → quiet x = true.
Proof. unfold harmless. by destruct (quiet x). Qed.

Lemma stream_calm_refl s : calm s s.
Proof. split; [done|by apply grows_refl]. Qed.
Lemma stream_calm_trans s1 s2 s3 : calm s1 s2 → calm s2 s3 → calm s1 s3.
Proof. intros [E1 G1] [E2 G2]. split; [by rewrite E2|by eapply grows_trans]. Qed.
Lemma still_refl s : still s s.
Proof. split; [done|]. split; [done|by apply grows_refl]. Qed.
Lemma still_trans s1 s2 s3 : still s1 s2 → still s2 s3 → still s1 s3.
Proof. intros (E1&F1&G1) (E2&F2&G2). split; [by rewrite E2|]. split; [by rewrite F2|by eapply grows_trans]. Qed.
Lemma still_calm s s' : still s s' → calm s s'.
Proof. intros (?&_&?). split; [done|]. eapply grows_mono; [apply harmless_quiet|done]. Qed.
Lemma still_log x s : harmless x = true → still s (log x s).
Proof. intros. split; [done|]. split; [done|]. exists [x]. split; [done|by constructor]. Qed.

(** Consuming leaves the sending side of a flow controller. *)
Lemma MaybeSendWindowUpdate_sender e f :
  let f' := (FlowController.MaybeSendWindowUpdate e f).1 in
  FlowController.bytes_sent f' = FlowController.bytes_sent f
  ∧ FlowController.send_window_offset f' = FlowController.send_window_offset f.
Proof.
  unfold FlowController.MaybeSendWindowUpdate, FlowController.MaybeIncreaseMaxWindowSize, FlowController.IncreaseWindowSize,
    FlowController.UpdateReceiveWindowOffsetAndSendWindowUpdate. cbv zeta. repeat case_match; simplify_eq/=; done.
Qed.
Lemma EnsureWindowAtLeast_sender f n :
  let f' := (FlowController.EnsureWindowAtLeast f n).1 in
  FlowController.bytes_sent f' = FlowController.bytes_sent f
  ∧ FlowController.send_window_offset f' = FlowController.send_window_offset f.
Proof. unfold FlowController.EnsureWindowAtLeast. by destruct (_ <=? _). Qed.

Lemma run_effect_still stream s x : still s (run_effect stream s x).
Proof.
  destruct x as [o|n|]; cbn [run_effect]; [by apply still_log| |apply still_refl].
  pose proof (EnsureWindowAtLeast_sender (connection_flow_controller s) n) as [E1 E2].
  destruct (FlowController.EnsureWindowAtLeast _ n) as [f effects]. cbn [fst] in E1, E2.
  apply (still_trans _ (with_connection f s)).
  { split; [by unfold sending; cbn; rewrite E1, E2|]. split; [done|by apply grows_refl]. }
  generalize (with_connection f s). induction effects as [|x l IH]; intros s'; cbn [fold_left]; [apply still_refl|].
  eapply still_trans; [|apply IH]. destruct x; [by apply still_log|apply still_refl..].
Qed.
Lemma run_effects_still stream l s : still s (fold_left (run_effect stream) l s).
Proof.
  revert s. induction l as [|x l IH]; intros s; cbn [fold_left]; [apply still_refl|].
  eapply still_trans; [apply run_effect_still|apply IH].
Qed.
Lemma stream_consumes_still e n s : still s (stream_consumes e n s).
Proof.
  unfold stream_consumes, FlowController.AddBytesConsumed.
  match goal with |- context [FlowController.MaybeSendWindowUpdate e ?f] =>
    pose proof (MaybeSendWindowUpdate_sender e f) as [E1 E2]; destruct (FlowController.MaybeSendWindowUpdate e f) as [f' l] end.
  cbn [fst] in E1, E2. eapply still_trans; [|apply run_effects_still].
  split; [unfold sending; cbn; by rewrite E1, E2|]. split; [done|by apply grows_refl].
Qed.
Lemma connection_consumes_still e n s : still s (connection_consumes e n s).
Proof.
  unfold connection_consumes, FlowController.AddBytesConsumed.
  match goal with |- context [FlowController.MaybeSendWindowUpdate e ?f] =>
    pose proof (MaybeSendWindowUpdate_sender e f) as [E1 E2]; destruct (FlowController.MaybeSendWindowUpdate e f) as [f' l] end.
  cbn [fst] in E1, E2. eapply still_trans; [|apply run_effects_still].
  split; [unfold sending; cbn; by rewrite E1, E2|]. split; [done|by apply grows_refl].
Qed.

Section proofs.
Context (c : config).

Lemma AddBytesConsumed_still e n s : still s (AddBytesConsumed c e n s).
Proof.
  unfold AddBytesConsumed. case_bool_decide; [apply still_refl|].
  apply (still_trans _ (if negb (read_side_closed (stream_ s)) then stream_consumes e n s else s)).
  { destruct (negb _); [apply stream_consumes_still|apply still_refl]. }
  destruct (contributes c); [apply connection_consumes_still|apply still_refl].
Qed.

(** ** Closing *)

(** What [CloseStreamInner] makes of a stream in the map that is not static. *)
Definition closed_as (locally_reset : bool) (s s' : io) : Prop :=
  let waiting := (negb (rst_sent (stream_ s) || locally_reset) || (stream_error (stream_ s) =? QUIC_STREAM_NO_ERROR))
     && (negb (StreamSendBuffer.stream_bytes_outstanding (send_buffer (stream_ s)) =? 0) || fin_outstanding (stream_ s)) in
  let told := fin_sent (stream_ s) || rst_sent (stream_ s) || locally_reset in
  sending s' = sending s
  ∧ shape s' = (true, true, rst_sent (stream_ s) || locally_reset || negb told, stream_error (stream_ s),
                if told && waiting then Zombie else Closed, connected s)
  ∧ ∃ l, calls s' = calls s ++ l
      ∧ Forall (λ x, harmless x = true ∨ x = RstStreamFrame QUIC_RST_ACKNOWLEDGEMENT (stream_bytes_written (stream_ s))) l
      ∧ (told = false → connected s = true → RstStreamFrame QUIC_RST_ACKNOWLEDGEMENT (stream_bytes_written (stream_ s)) ∈ l).

Lemma close_gone depth e b s : where_ s ≠ Open → CloseStreamInner_ c e depth b s = s.
Proof. intros. destruct depth; cbn [CloseStreamInner_]; by rewrite bool_decide_eq_false_2. Qed.

Lemma done_waiting_spec s :
  let s' := OnStreamDoneWaitingForAcks s in
  sending s' = sending s
  ∧ shape s' = (read_side_closed (stream_ s), write_side_closed (stream_ s), rst_sent (stream_ s), stream_error (stream_ s),
                if bool_decide (where_ s = Zombie) then Closed else where_ s, connected s)
  ∧ grows harmless s s'.
Proof.
  unfold OnStreamDoneWaitingForAcks, log. cbn. case_bool_decide; (split; [done|]; split; [done|]; by eexists [_]; split; [|repeat constructor]).
Qed.

Section gone.
Context (e : FlowController.env) (close : bool → io → io) (Hclose : ∀ b s, where_ s ≠ Open → close b s = s).

(** Both sides are closed. *)
Lemma close_both s :
  where_ s ≠ Open →
  let s' := CloseWriteSide_ close (CloseReadSide_ close s) in
  sending s' = sending s
  ∧ shape s' = (true, true, rst_sent (stream_ s), stream_error (stream_ s), where_ s, connected s)
  ∧ grows harmless s s'.
Proof.
  intros Hw. unfold CloseReadSide_, CloseWriteSide_, upd, log.
  destruct s as [st cc conn w l]. destruct st as [a1 a2 a3 rc wc]. cbn in Hw. unfold sending, shape.
  destruct rc; cbn; destruct wc; cbn; rewrite ?Hclose by done; cbn;
    (split; [done|]; split; [done|]); first [by apply grows_refl|by exists [SequencerReleaseBuffer]; split; [|constructor]].
Qed.

Lemma OnClose_gone s :
  where_ s ≠ Open →
  let s' := OnClose c e close s in
  let told := fin_sent (stream_ s) || rst_sent (stream_ s) in
  sending s' = sending s
  ∧ shape s' = (true, true, rst_sent (stream_ s) || negb told, stream_error (stream_ s), if told then where_ s else Closed, connected s)
  ∧ ∃ l, calls s' = calls s ++ l
      ∧ Forall (λ x, harmless x = true ∨ x = RstStreamFrame QUIC_RST_ACKNOWLEDGEMENT (stream_bytes_written (stream_ s))) l
      ∧ (told = false → connected s = true → RstStreamFrame QUIC_RST_ACKNOWLEDGEMENT (stream_bytes_written (stream_ s)) ∈ l).
Proof.
  intros Hw. unfold OnClose. destruct (close_both s Hw) as (Es&Eh&Hg). set (s1 := CloseWriteSide_ close (CloseReadSide_ close s)) in *.
  cbv zeta. pose proof Es as Es'. unfold sending in Es'. injection Es' as Eb _ Ef _ _ _ _ _ _.
  pose proof Eh as Eh'. unfold shape in Eh'. injection Eh' as Erc Ewc Er Ee Ep Ec.
  set (s2 := if negb (fin_sent (stream_ s1)) && negb (rst_sent (stream_ s1)) then _ else s1).
  assert (H2 : sending s2 = sending s
    ∧ shape s2 = (true, true, rst_sent (stream_ s) || negb (fin_sent (stream_ s) || rst_sent (stream_ s)), stream_error (stream_ s),
        if fin_sent (stream_ s) || rst_sent (stream_ s) then where_ s else Closed, connected s)
    ∧ ∃ l, calls s2 = calls s ++ l
      ∧ Forall (λ x, harmless x = true ∨ x = RstStreamFrame QUIC_RST_ACKNOWLEDGEMENT (stream_bytes_written (stream_ s))) l
      ∧ (fin_sent (stream_ s) || rst_sent (stream_ s) = false → connected s = true →
         RstStreamFrame QUIC_RST_ACKNOWLEDGEMENT (stream_bytes_written (stream_ s)) ∈ l)).
  { destruct Hg as (l&El&Hl). unfold s2. rewrite Ef, Er. destruct (fin_sent (stream_ s) || rst_sent (stream_ s)) eqn:Et.
    - assert (negb (fin_sent (stream_ s)) && negb (rst_sent (stream_ s)) = false) as -> by (rewrite <-negb_orb, Et; done).
      split; [done|]. split; [rewrite Eh, orb_false_r; done|]. exists l. split; [done|].
      split; [|done]. eapply Forall_impl; [exact Hl|]. by left.
    - assert (negb (fin_sent (stream_ s)) && negb (rst_sent (stream_ s)) = true) as -> by (rewrite <-negb_orb, Et; done).
      apply orb_false_iff in Et as [Ef0 Er0].
      assert (Hrest : ∀ s3, sending s3 = sending s → shape s3 = shape s1 → 
        let s4 := upd (set_rst_sent true) (OnStreamDoneWaitingForAcks
          (if negb (QUIC_RST_ACKNOWLEDGEMENT =? QUIC_STREAM_NO_ERROR) && bool_decide (where_ s3 = Zombie)
           then OnStreamDoneWaitingForAcks s3 else close true s3)) in
        sending s4 = sending s ∧ shape s4 = (true, true, true, stream_error (stream_ s), Closed, connected s)
        ∧ ∃ k, calls s4 = calls s3 ++ k ∧ Forall (λ x, harmless x = true) k).
      { intros s3 Es3 Eh3. pose proof Eh3 as Eh3'. rewrite Eh in Eh3'. unfold shape in Eh3'. injection Eh3' as Hrc3 Hwc3 Hr3 He3 Hp3 Hc3.
        change (negb (QUIC_RST_ACKNOWLEDGEMENT =? QUIC_STREAM_NO_ERROR)) with true. cbn [andb].
        set (x := if bool_decide (where_ s3 = Zombie) then _ else _).
        assert (Hx : sending x = sending s3 ∧ shape x = (true, true, rst_sent (stream_ s), stream_error (stream_ s), if bool_decide (where_ s = Zombie) then Closed else where_ s, connected s)
          ∧ grows harmless s3 x).
        { unfold x. rewrite Hp3. case_bool_decide as Hz.
          - destruct (done_waiting_spec s3) as (H1&H2&H3). split; [done|]. split; [|done]. rewrite H2, Hp3, Hz. cbn. by rewrite Hrc3, Hwc3, Hr3, He3, Hc3.
          - rewrite Hclose by congruence. split; [done|]. split; [|by apply grows_refl]. unfold shape. by rewrite Hrc3, Hwc3, Hr3, He3, Hc3, Hp3. }
        clearbody x. destruct Hx as (H1&H2&H3). destruct (done_waiting_spec x) as (H4&H5&H6). unfold shape in H2. injection H2 as F1 F2 F3 F4 F5 F6.
        split; [unfold sending in *; cbn; congruence|]. split; [|by eapply grows_trans; [|exact H6]].
        unfold shape in *. injection H5 as F7 F8 F9 F10 F11 F12. cbn. rewrite F7, F8, F10, F11, F12, F1, F2, F4, F5, F6.
        destruct (where_ s); done. }
      unfold SendRstStream_, reset_frames. rewrite Er0. cbn [orb negb].
      assert (Ew : stream_bytes_written (stream_ s1) = stream_bytes_written (stream_ s)) by (unfold stream_bytes_written; by rewrite Eb).
      rewrite Ew, Ec. destruct (connected s) eqn:Econn; cbn [negb andb].
      + set (s3 := if ietf_frames c then _ else _).
        destruct (Hrest s3) as (H1&H2&k&Hk1&Hk2); [unfold s3; by destruct (ietf_frames c)|unfold s3; by destruct (ietf_frames c)|].
        split; [exact H1|]. split; [exact H2|].
        assert (H3 : ∃ m, calls s3 = calls s1 ++ RstStreamFrame QUIC_RST_ACKNOWLEDGEMENT (stream_bytes_written (stream_ s)) :: m ∧ Forall (λ x, harmless x = true) m).
        { unfold s3. destruct (ietf_frames c); cbn; [eexists [_]; split; [by rewrite <-app_assoc|by repeat constructor]|by exists []]. }
        destruct H3 as (m&Em&Hm). eexists. split; [rewrite Hk1, Em, El, <-!app_assoc; reflexivity|].
        split; [|intros _ _; set_solver].
        apply Forall_app. split; [eapply Forall_impl; [exact Hl|by left]|]. constructor; [by right|].
        apply Forall_app. split; (eapply Forall_impl; [eassumption|by left]).
      + destruct (Hrest s1 Es eq_refl) as (H1&H2&k&Hk1&Hk2). split; [exact H1|]. split; [exact H2|].
        exists (l ++ k). split; [by rewrite Hk1, El, app_assoc|]. split; [|done].
        apply Forall_app. split; (eapply Forall_impl; [eassumption|by left]). }
  clearbody s2. match goal with |- context [if ?b then s2 else _] => destruct b end; [exact H2|]. destruct H2 as (H2a&H2b&l&H2c&H2d&H2e).
  match goal with |- context [AddBytesConsumed c e ?n s2] => destruct (AddBytesConsumed_still e n s2) as (H1&H3&k&Hk1&Hk2) end.
  split; [by rewrite H1|]. split; [by rewrite H3|]. exists (l ++ k). split; [by rewrite Hk1, H2c, app_assoc|].
  split; [apply Forall_app; split; [done|eapply Forall_impl; [exact Hk2|by left]]|]. intros. apply elem_of_app. left. by apply H2e.
Qed.
End gone.

Lemma CloseStreamInner_spec e b s :
  where_ s = Open → is_static c = false → closed_as b s (CloseStreamInner c e b s).
Proof.
  intros Hw Hst. unfold CloseStreamInner. cbn [CloseStreamInner_].
  change (λ (_ : bool) (s0 : io), if negb (bool_decide (where_ s0 = Open)) then s0 else s0) with (CloseStreamInner_ c e 0).
  rewrite bool_decide_eq_true_2 by done. cbn [negb]. rewrite Hst.
  set (s1 := if b then upd (set_rst_sent true) s else s).
  set (s2 := with_place _ s1). set (s3 := if negb _ then _ else s2).
  assert (H3 : sending s3 = sending s
    ∧ (rst_sent (stream_ s3), stream_error (stream_ s3), where_ s3, connected s3)
      = (rst_sent (stream_ s) || b, stream_error (stream_ s), if IsWaitingForAcks (stream_ s1) then Zombie else Closed, connected s)
    ∧ grows harmless s s3).
  { unfold s3, s2, s1. destruct s as [st cc conn w l]. destruct b; cbn; rewrite ?orb_true_r, ?orb_false_r;
      (destruct (HasFinalReceivedByteOffset _); cbn; (split; [done|]; split; [done|]);
       first [by apply grows_refl|by eexists [_]; split; [|repeat constructor]]). }
  destruct H3 as (E3&F3&l&G3&G4). injection F3 as Fr Fe Fp Fc.
  destruct (OnClose_gone e (CloseStreamInner_ c e 0) (close_gone 0 e) s3) as (H1&H2&k&Hk1&Hk2&Hk3).
  { rewrite Fp. by destruct (IsWaitingForAcks _). }
  pose proof E3 as E3'. unfold sending in E3'. injection E3' as Eb _ Ef Eo _ _ _ _ _.
  assert (Ew : stream_bytes_written (stream_ s3) = stream_bytes_written (stream_ s)) by (unfold stream_bytes_written; by rewrite Eb).
  rewrite Ew in *. rewrite Ef, Fr, Fe, Fp, Fc, orb_assoc in *. unfold closed_as. split; [by rewrite H1|]. split.
  - rewrite H2. assert (IsWaitingForAcks (stream_ s1) =
      (negb (rst_sent (stream_ s) || b) || (stream_error (stream_ s) =? QUIC_STREAM_NO_ERROR))
      && (negb (StreamSendBuffer.stream_bytes_outstanding (send_buffer (stream_ s)) =? 0) || fin_outstanding (stream_ s))) as ->.
    { unfold s1, IsWaitingForAcks. destruct b; cbn; rewrite ?orb_true_r, ?orb_false_r; done. }
    destruct (fin_sent (stream_ s) || rst_sent (stream_ s) || b); [|done]. done.
  - exists (l ++ k). split; [by rewrite Hk1, G3, app_assoc|].
    split; [apply Forall_app; split; [eapply Forall_impl; [exact G4|by left]|done]|].
    intros. apply elem_of_app. right. by apply Hk3.
Qed.

(** ** What the stream sends *)

Section data.
Context (data : Z → Z).

(** The data in packets is that of the stream: the first [n] bytes of it in order, and some of them again. *)
Inductive well_sent : list call → Z → Prop :=
  | ws_nil : well_sent [] 0
  | ws_new l n len : well_sent l n → 0 < len → well_sent (l ++ [PacketData n (Some (slice data n len))]) (n + len)
  | ws_again l n off len :
      well_sent l n → 0 <= off → 0 < len → off + len <= n → well_sent (l ++ [PacketData off (Some (slice data off len))]) n
  | ws_other l n x : well_sent l n → (∀ off d, x ≠ PacketData off d) → well_sent (l ++ [x]) n.

Lemma well_sent_quiet l k n : well_sent l n → Forall (λ x, quiet x = true) k → well_sent (l ++ k) n.
Proof.
  intros Hl Hk. revert l Hl. induction Hk as [|x k Hx _ IH]; intros l Hl; [by rewrite app_nil_r|].
  rewrite app_cons_snoc. apply IH, ws_other; [done|]. intros off d ->. done.
Qed.

Abbreviation buffer s := (send_buffer (stream_ s)).
Abbreviation written s := (stream_bytes_written (stream_ s)).
Abbreviation saved s := (StreamSendBuffer.stream_offset (send_buffer (stream_ s))).

(** The sending side: the data in the buffer and in packets is the stream's; new data goes out in order and within both send
    windows; the end of the stream is taken only after all of it, and then nothing more is saved. *)
Record Sending (s : io) : Prop := {
  snd_buffer : StreamSendBuffer.sends data (written s) (buffer s);
  snd_stream : FlowController.bytes_sent (flow_controller (stream_ s)) = written s
    ∧ written s <= FlowController.send_window_offset (flow_controller (stream_ s)) < two64;
  snd_connection : contributes c = true →
    0 <= FlowController.bytes_sent (connection_flow_controller s) <= FlowController.send_window_offset (connection_flow_controller s)
    ∧ FlowController.send_window_offset (connection_flow_controller s) < two64;
  snd_size : saved s < two64;
  snd_lost : fin_lost (stream_ s) = true → fin_outstanding (stream_ s) = true;
  snd_outstanding : fin_outstanding (stream_ s) = true → type_ c ≠ READ_UNIDIRECTIONAL ∧ fin_sent (stream_ s) = true;
  snd_fin : fin_sent (stream_ s) = true → type_ c = READ_UNIDIRECTIONAL ∨ (fin_buffered (stream_ s) = true ∧ written s = saved s);
  snd_none : type_ c = READ_UNIDIRECTIONAL → saved s = 0 ∧ fin_buffered (stream_ s) = false ∧ fin_sent (stream_ s) = true;
  snd_packets : well_sent (calls s) (written s);
  snd_end off len st n : SendStreamData off len st n true ∈ calls s → fin_buffered (stream_ s) = true ∧ off + n = saved s;
  snd_told : fin_sent (stream_ s) = true → type_ c ≠ READ_UNIDIRECTIONAL → ∃ off len st n, SendStreamData off len st n true ∈ calls s;
}.

Lemma sending_bounds s : Sending s → 0 <= written s <= saved s.
Proof. intros [Hb _ _ _ _ _ _ _ _ _ _]. apply StreamSendBuffer.sends_inv in Hb as [gs [_ _ _ _ _ _ _ Ho _ _]]. unfold stream_bytes_written. lia. Qed.

Lemma calm_Sending s s' : Sending s → calm s s' → Sending s'.
Proof.
  intros HS [E (l&Ec&Hl)]. unfold sending in E. injection E as E1 E2 E3 E4 E5 E6 E7 E8 E9.
  destruct HS as [H1 H2 H3 H4 H5 H6 H7 H8 H9 H10 H11]. unfold stream_bytes_written in *.
  assert (Hin : ∀ off len st n f, SendStreamData off len st n f ∈ l → False).
  { intros off len st n f Hi. rewrite Forall_forall in Hl. by apply Hl in Hi. }
  split; unfold stream_bytes_written; rewrite ?E1, ?E2, ?E3, ?E4, ?E5, ?E6, ?E7, ?E8, ?E9; try done.
  - rewrite Ec. by apply well_sent_quiet.
  - intros off len st n. rewrite Ec. intros [Hi|Hi]%elem_of_app; [by eapply H10|by apply Hin in Hi].
  - intros Hf Ht. destruct (H11 Hf Ht) as (off&len&st&n&Hi). exists off, len, st, n. rewrite Ec. apply elem_of_app. by left.
Qed.

(** ** Both sides *)

(** The two sides and the session: a stream leaves the map when both sides are closed, with the end of the stream or a reset
    told to the peer; it is kept while something is unacknowledged that is not reset. *)
Record Core (s : io) : Prop := {
  cr_both : where_ s ≠ Open → read_side_closed (stream_ s) = true ∧ write_side_closed (stream_ s) = true;
  cr_open : where_ s = Open → is_static c = false → read_side_closed (stream_ s) && write_side_closed (stream_ s) = false;
  cr_told : where_ s ≠ Open → fin_sent (stream_ s) || rst_sent (stream_ s) = true;
  cr_rst : rst_sent (stream_ s) = true → connected s = true → ∃ e n, RstStreamFrame e n ∈ calls s;
  cr_zombie : where_ s = Zombie → IsWaitingForAcks (stream_ s) = true;
  cr_closed : where_ s = Closed → connected s = true →
    rst_sent (stream_ s) = true
    ∨ (StreamSendBuffer.stream_bytes_outstanding (buffer s) = 0 ∧ fin_outstanding (stream_ s) = false);
  cr_size e n : connected s = true → RstStreamFrame e n ∈ calls s → n = written s;
  cr_static : is_static c = true → where_ s = Open;
}.
(** After the end of the stream or a reset the write side is closed. *)
Definition shut (s : io) : Prop :=
  (fin_sent (stream_ s) = true → write_side_closed (stream_ s) = true)
  ∧ (connected s = true → ∀ e n, RstStreamFrame e n ∈ calls s → write_side_closed (stream_ s) = true).
(** When the connection is down no stream is left but static ones. *)
Definition gone_down (s : io) : Prop := connected s = false → is_static c = true ∨ where_ s = Closed.
Definition Sides (s : io) : Prop := Core s ∧ shut s ∧ gone_down s.
Definition Good (s : io) : Prop := Sending s ∧ Sides s.

Lemma rst_in_still e n l k : Forall (λ x, harmless x = true) k → RstStreamFrame e n ∈ l ++ k → RstStreamFrame e n ∈ l.
Proof. intros Hk [Hi|Hi]%elem_of_app; [done|]. rewrite Forall_forall in Hk. by apply Hk in Hi. Qed.

(** What the sides look at of the sending state. *)
Definition account (s : io) :=
  (written s, StreamSendBuffer.stream_bytes_outstanding (buffer s), fin_sent (stream_ s), fin_outstanding (stream_ s)).
Definition steady (s s' : io) : Prop := account s' = account s ∧ shape s' = shape s ∧ grows harmless s s'.
Lemma still_steady s s' : still s s' → steady s s'.
Proof.
  intros (E&F&G). split; [|done]. unfold sending in E. injection E as E1 _ E3 E4 _ _ _ _ _.
  unfold account, stream_bytes_written. by rewrite E1, E3, E4.
Qed.
Lemma steady_Core s s' : Core s → steady s s' → Core s'.
Proof.
  intros HC (E&F&l&Ec&Hl). unfold account in E. injection E as E1 E2 E3 E4. unfold shape in F. injection F as F1 F2 F3 F4 F5 F6.
  destruct HC as [H1 H2 H3 H4 H5 H6 H7 H8]. unfold IsWaitingForAcks in *.
  split; unfold IsWaitingForAcks; rewrite ?E1, ?E2, ?E3, ?E4, ?F1, ?F2, ?F3, ?F4, ?F5, ?F6; try done.
  - intros Hr Hc. destruct (H4 Hr Hc) as (e&n&Hi). exists e, n. rewrite Ec. apply elem_of_app. by left.
  - intros e n Hc Hi. rewrite Ec in Hi. eapply H7; [done|]. by eapply rst_in_still.
Qed.
Lemma steady_shut s s' : shut s → steady s s' → shut s'.
Proof.
  intros [H1 H2] (E&F&l&Ec&Hl). unfold account in E. injection E as E1 E2 E3 E4. unfold shape in F. injection F as F1 F2 F3 F4 F5 F6.
  split; rewrite ?E3, ?F2, ?F6; [done|]. intros Hc e n Hi. rewrite Ec in Hi. eapply H2; [done|]. by eapply rst_in_still.
Qed.
Lemma steady_Sides s s' : Sides s → steady s s' → Sides s'.
Proof.
  intros (HC&Hs&Hd) H. split; [by eapply steady_Core|]. split; [by eapply steady_shut|].
  destruct H as (_&F&_). unfold shape in F. injection F as F1 F2 F3 F4 F5 F6. unfold gone_down. by rewrite F5, F6.
Qed.
Definition still_Core s s' (HC : Core s) (H : still s s') : Core s' := steady_Core s s' HC (still_steady s s' H).
Definition still_shut s s' (Hs : shut s) (H : still s s') : shut s' := steady_shut s s' Hs (still_steady s s' H).
Definition still_Sides s s' (Hs : Sides s) (H : still s s') : Sides s' := steady_Sides s s' Hs (still_steady s s' H).
Lemma still_Good s s' : Good s → still s s' → Good s'.
Proof. intros [H1 H2] H. split; [eapply calm_Sending; [done|by apply still_calm]|by eapply still_Sides]. Qed.

(** What a close needs of the state before it. *)
Definition resets_ok (s : io) : Prop := ∀ e n, connected s = true → RstStreamFrame e n ∈ calls s → n = written s.

Lemma closed_Core b s s' :
  closed_as b s s' → is_static c = false → resets_ok s →
  (rst_sent (stream_ s) || b = true → connected s = true → ∃ e n, RstStreamFrame e n ∈ calls s) →
  Core s' ∧ shut s' ∧ calm s s' ∧ connected s' = connected s ∧ where_ s' ≠ Open.
Proof.
  intros (E&F&l&Ec&Hl&Hin) Hst Hsize Hrst. pose proof E as E'. unfold sending in E'. injection E' as E1 _ E3 E4 _ _ _ _ _.
  unfold shape in F. injection F as F1 F2 F3 F4 F5 F6.
  assert (Hq : Forall (λ x, quiet x = true) l).
  { eapply Forall_impl; [exact Hl|]. intros x [Hx| ->]; [by apply harmless_quiet|done]. }
  assert (Hw : where_ s' ≠ Open) by (rewrite F5; by destruct (_ && _)).
  split; [|split; [split; intros; rewrite F2; done|split; [split; [done|by exists l]|done]]].
  unfold stream_bytes_written, IsWaitingForAcks, resets_ok in *.
  set (told := fin_sent (stream_ s) || rst_sent (stream_ s) || b) in *.
  split; unfold stream_bytes_written, IsWaitingForAcks; rewrite ?E1, ?E3, ?E4, ?F1, ?F2, ?F3, ?F4, ?F6; try done; try congruence.
  - intros _. unfold told. by destruct (fin_sent (stream_ s)), (rst_sent (stream_ s)), b.
  - intros Hr Hc. destruct told eqn:Et.
    + rewrite orb_false_r in Hr. destruct (Hrst Hr Hc) as (e&n&Hi). exists e, n. rewrite Ec. apply elem_of_app. by left.
    + eexists _, _. rewrite Ec. apply elem_of_app. right. by apply Hin.
  - rewrite F5. destruct told; [|done]. rewrite orb_false_r. by destruct (_ && _) eqn:Ea.
  - rewrite F5. destruct told; [|intros _ _; left; apply orb_true_r]. rewrite orb_false_r. destruct (rst_sent (stream_ s) || b); [by left|].
    cbn [negb orb andb]. destruct (negb (_ =? 0) || _) eqn:Ea; [done|]. intros _ _. right.
    apply orb_false_iff in Ea as [Ea Eo]. apply negb_false_iff, Z.eqb_eq in Ea. done.
  - intros e n Hc Hi. rewrite Ec in Hi. apply elem_of_app in Hi as [Hi|Hi]; [by eapply Hsize|].
    rewrite Forall_forall in Hl. apply Hl in Hi as [Hi|Hi]; [done|by injection Hi].
Qed.

Lemma untold_spec error s :
  let s' := CloseConnection_untold error s in
  sending s' = sending s ∧ connected s' = false
  ∧ shape s' = (read_side_closed (stream_ s), write_side_closed (stream_ s), rst_sent (stream_ s), stream_error (stream_ s), where_ s, false)
  ∧ grows harmless s s'.
Proof.
  unfold CloseConnection_untold. destruct (connected s) eqn:E.
  - split; [done|]. split; [done|]. split; [done|]. exists [CloseConnection_ error]. split; [done|by repeat constructor].
  - split; [done|]. split; [done|]. split; [unfold shape; by rewrite E|by apply grows_refl].
Qed.


Lemma sending_eq s s' :
  sending s' = sending s →
  (send_buffer (stream_ s') = send_buffer (stream_ s) ∧ fin_buffered (stream_ s') = fin_buffered (stream_ s)
   ∧ fin_sent (stream_ s') = fin_sent (stream_ s))
  ∧ fin_outstanding (stream_ s') = fin_outstanding (stream_ s) ∧ fin_lost (stream_ s') = fin_lost (stream_ s).
Proof. unfold sending. intros H. injection H. naive_solver. Qed.

(** A change of a stream in the map that leaves the sides, the log and what is sent. *)
Lemma open_Core s s' :
  Core s → where_ s = Open → where_ s' = Open → sending s' = sending s → calls s' = calls s →
  (read_side_closed (stream_ s') && write_side_closed (stream_ s') = false ∨ is_static c = true) →
  rst_sent (stream_ s') = rst_sent (stream_ s) → (connected s' = true → connected s = true) → Core s'.
Proof.
  intros HC Ho Ho' E Ec Hs Hr Hcc. apply sending_eq in E as ((Eb&_&Ef)&Eo&_). destruct HC as [H1 H2 H3 H4 H5 H6 H7 H8].
  unfold stream_bytes_written in *. split; unfold stream_bytes_written; try congruence.
  - intros _ Hst. destruct Hs as [->|]; [done|congruence].
  - rewrite Hr, Ec. intros Hr1 Hc. eauto.
  - intros e n Hc. rewrite Ec. intros Hi. rewrite (H7 e n (Hcc Hc) Hi). congruence.
Qed.

Lemma untold_Core error s :
  Core s → let s' := CloseConnection_untold error s in Core s' ∧ calm s s' ∧ (shut s → shut s').
Proof.
  intros HC. destruct (untold_spec error s) as (E&Ec&F&G). set (s' := CloseConnection_untold error s) in *. clearbody s'. cbv zeta.
  unfold shape in F. injection F as F1 F2 F3 F4 F5 _. pose proof E as E'. apply sending_eq in E' as ((Eb&_&Ef)&Eo&_).
  destruct HC as [H1 H2 H3 H4 H5 H6 H7 H8]. unfold IsWaitingForAcks, stream_bytes_written in *.
  split; [split; unfold IsWaitingForAcks, stream_bytes_written; rewrite ?F1, ?F2, ?F3, ?F4, ?F5, ?Ef, ?Eb, ?Eo; try congruence; done|].
  split; [split; [done|]; eapply grows_mono; [apply harmless_quiet|done]|].
  intros [Hs1 Hs2]. split; [rewrite F2, Ef; done|congruence].
Qed.

(** What closing promises. *)
Definition closes_side (s s' : io) : Prop :=
  Core s' ∧ calm s s' ∧ (is_static c = false → connected s' = connected s) ∧ (gone_down s → gone_down s')
  ∧ (connected s' = true → connected s = true).

Lemma closes_side_same s s' :
  Core s' → sending s' = sending s → calls s' = calls s → connected s' = connected s → where_ s' = where_ s → closes_side s s'.
Proof.
  intros HC E Ec Hc Hw. split; [done|]. split; [split; [done|by apply grows_refl]|]. unfold gone_down. rewrite Hc, Hw. done.
Qed.
Lemma closes_side_trans s1 s2 s3 : closes_side s1 s2 → closes_side s2 s3 → closes_side s1 s3.
Proof.
  intros (_&C1&N1&G1&D1) (HC&C2&N2&G2&D2). split; [done|]. split; [by eapply stream_calm_trans|].
  split; [intros Hst; rewrite N2, N1; done|]. split; auto.
Qed.

(** [CloseStreamInner] on a stream in the map. *)
Lemma CloseStream_Core b e s :
  where_ s = Open → resets_ok s → (is_static c = true → Core s) →
  (rst_sent (stream_ s) || b = true → connected s = true → ∃ e n, RstStreamFrame e n ∈ calls s) →
  let s' := CloseStreamInner c e b s in
  closes_side s s' ∧ (is_static c = true → s' = CloseConnection_untold QUIC_INVALID_STREAM_ID s)
  ∧ (is_static c = false → shut s' ∧ where_ s' ≠ Open).
Proof.
  intros Ho Hs HC Hr. cbv zeta. destruct (is_static c) eqn:Est.
  - assert (E : CloseStreamInner c e b s = CloseConnection_untold QUIC_INVALID_STREAM_ID s).
    { unfold CloseStreamInner. cbn [CloseStreamInner_]. rewrite bool_decide_eq_true_2 by done. cbn [negb]. by rewrite Est. }
    rewrite E. split; [|done]. destruct (untold_Core QUIC_INVALID_STREAM_ID s (HC eq_refl)) as (H1&H2&_).
    destruct (untold_spec QUIC_INVALID_STREAM_ID s) as (_&Ec&_&_). split; [done|]. split; [done|]. split; [congruence|].
    split; [intros _ _; by left|congruence].
  - destruct (closed_Core b s (CloseStreamInner c e b s)) as (H1&H2&H3&H4&H5); [by apply CloseStreamInner_spec|done..|].
    split; [|done]. split; [done|]. split; [done|]. split; [done|]. split; [|congruence].
    intros Hd Hc. rewrite H4 in Hc. destruct (Hd Hc) as [|]; congruence.
Qed.

Lemma Core_open_wc s : Core s → write_side_closed (stream_ s) = false ∨ read_side_closed (stream_ s) = false → where_ s = Open.
Proof.
  intros HC Hc. destruct (decide (where_ s = Open)) as [|Hn]; [done|]. destruct (cr_both _ HC Hn). destruct Hc; congruence.
Qed.

Lemma CloseWriteSide_spec e s :
  Core s → let s' := CloseWriteSide c e s in
  closes_side s s' ∧ shut s' ∧ write_side_closed (stream_ s') = true
  ∧ (read_side_closed (stream_ s) = true → read_side_closed (stream_ s') = true).
Proof.
  intros HC. unfold CloseWriteSide, CloseWriteSide_. destruct (write_side_closed (stream_ s)) eqn:Ewc.
  { split; [by apply closes_side_same|]. split; [split; done|done]. }
  pose proof (Core_open_wc s HC (or_introl Ewc)) as Ho. set (s1 := upd (set_write_closed true) s).
  assert (Hsame : Core s1 → closes_side s s1) by (intros; by apply closes_side_same).
  change (read_side_closed (stream_ s1)) with (read_side_closed (stream_ s)). destruct (read_side_closed (stream_ s)) eqn:Erc.
  - assert (HC1 : is_static c = true → Core s1) by (intros; eapply open_Core; try done; by right).
    destruct (CloseStream_Core false e s1 Ho) as (H1&H2&H3).
    { intros e' n. apply (cr_size _ HC). } { done. } { rewrite orb_false_r. apply (cr_rst _ HC). }
    destruct (is_static c) eqn:Est.
    + specialize (H2 eq_refl). destruct (untold_spec QUIC_INVALID_STREAM_ID s1) as (_&_&F&_). rewrite <-H2 in F. unfold shape in F. injection F as F1 F2 _ _ _ _.
      split; [eapply closes_side_trans; [by apply Hsame, HC1|exact H1]|]. split; [|by rewrite F1, F2].
      split; intros; by rewrite F2.
    + destruct (H3 eq_refl) as [Hs Hw]. destruct (cr_both _ (proj1 H1) Hw) as [-> ->]. split; [|done].
      destruct H1 as (K1&K2&K3&K4&K5). by split.
  - assert (HC1 : Core s1) by (eapply open_Core; try done; left; cbn; by rewrite Erc).
    split; [by apply Hsame|]. by split.
Qed.

Lemma CloseReadSide_spec e s :
  Core s → let s' := CloseReadSide c e s in
  closes_side s s' ∧ (shut s → shut s') ∧ read_side_closed (stream_ s') = true
  ∧ (write_side_closed (stream_ s) = true → write_side_closed (stream_ s') = true).
Proof.
  intros HC. unfold CloseReadSide, CloseReadSide_. destruct (read_side_closed (stream_ s)) eqn:Erc.
  { split; [by apply closes_side_same|done]. }
  pose proof (Core_open_wc s HC (or_intror Erc)) as Ho. set (s0 := upd (set_read_closed true) s). set (s1 := log SequencerReleaseBuffer s0).
  assert (Hl : still s0 s1) by by apply still_log.
  assert (Hsame : Core s1 → closes_side s s1).
  { intros. split; [done|]. split; [|done]. split; [done|]. exists [SequencerReleaseBuffer]. split; [done|by repeat constructor]. }
  change (write_side_closed (stream_ s1)) with (write_side_closed (stream_ s)). destruct (write_side_closed (stream_ s)) eqn:Ewc.
  - assert (HC1 : is_static c = true → Core s1).
    { intros. apply (still_Core s0); [|done]. eapply open_Core; try done; by right. }
    destruct (CloseStream_Core false e s1 Ho) as (H1&H2&H3).
    { intros e' n Hc Hi. eapply (cr_size _ HC); [done|]. by apply (rst_in_still e' n (calls s) [SequencerReleaseBuffer] ltac:(by repeat constructor)). }
    { done. }
    { rewrite orb_false_r. intros Hr Hc. destruct (cr_rst _ HC Hr Hc) as (e'&n&Hi). exists e', n. apply elem_of_app. by left. }
    destruct (is_static c) eqn:Est.
    + specialize (H2 eq_refl). destruct (untold_spec QUIC_INVALID_STREAM_ID s1) as (_&_&F&_). rewrite <-H2 in F. unfold shape in F. injection F as F1 F2 _ _ _ _.
      split; [eapply closes_side_trans; [by apply Hsame, HC1|exact H1]|]. split; [|by rewrite F1, F2].
      intros _. split; intros; rewrite F2; done.
    + destruct (H3 eq_refl) as [Hs Hw]. destruct (cr_both _ (proj1 H1) Hw) as [-> ->]. split; [|done].
      destruct H1 as (K1&K2&K3&K4&K5). split; [done|]. split; [|by split]. eapply stream_calm_trans; [|exact K2]. by apply still_calm in Hl.
  - assert (HC1 : Core s1).
    { apply (still_Core s0); [|done]. eapply open_Core; try done. left. cbn. by rewrite Ewc. }
    split; [by apply Hsame|]. split; [|done]. intros Hs. apply (still_shut s0); [|done]. destruct Hs. by split.
Qed.

(** ** The connection closes *)

Lemma down_Core s x : harmless x = true → Core s → Core (log x (with_connected false s)).
Proof. intros Hx [H1 H2 H3 H4 H5 H6 H7 H8]. by split. Qed.

Lemma not_both s : Core s → is_static c = false → read_side_closed (stream_ s) && write_side_closed (stream_ s) = true → where_ s ≠ Open.
Proof. intros HC Hst Hb Ho. rewrite (cr_open _ HC Ho Hst) in Hb. done. Qed.

(** Of a stream in the map, when the connection is down. *)
Lemma OnConnectionClosed_spec e error s :
  Core s → shut s → where_ s = Open → is_static c = false → connected s = false →
  let s' := OnConnectionClosed c e error s in
  Core s' ∧ shut s' ∧ calm s s' ∧ connected s' = false ∧ where_ s' ≠ Open.
Proof.
  intros HC Hs Ho Hst Hc. unfold OnConnectionClosed. rewrite (cr_open _ HC Ho Hst).
  set (s1 := if negb _ then _ else s).
  assert (H1 : sending s1 = sending s ∧ calls s1 = calls s ∧ connected s1 = false ∧ where_ s1 = Open
    ∧ read_side_closed (stream_ s1) = read_side_closed (stream_ s) ∧ write_side_closed (stream_ s1) = write_side_closed (stream_ s)
    ∧ rst_sent (stream_ s1) = rst_sent (stream_ s)) by (unfold s1; by destruct (negb _)).
  clearbody s1. destruct H1 as (E1&Ec1&Hc1&Ho1&Er1&Ew1&Ers1).
  assert (HC1 : Core s1) by (eapply open_Core; try done; [left; rewrite Er1, Ew1; by apply (cr_open _ HC)|congruence]).
  destruct (CloseWriteSide_spec e s1 HC1) as ((HC2&Hm2&Hn2&_&_)&Hs2&Hw2&_). cbv zeta.
  destruct (CloseReadSide_spec e _ HC2) as ((HC3&Hm3&Hn3&_&_)&Hs3&Hr3&Hw3).
  split; [done|]. split; [by apply Hs3|].
  split; [eapply (stream_calm_trans s s1); [split; [done|by apply grows_refl]|]; eapply stream_calm_trans; [exact Hm2|exact Hm3]|].
  split; [rewrite Hn3, Hn2 by done; done|]. apply not_both; [done|done|]. rewrite Hr3, (Hw3 Hw2). done.
Qed.

Lemma session_OnConnectionClosed_spec e error s :
  Core s → shut s → connected s = false →
  let s' := session_OnConnectionClosed c e error s in
  Sides s' ∧ calm s s' ∧ connected s' = false.
Proof.
  intros HC Hs Hc. unfold session_OnConnectionClosed. set (s1 := if bool_decide _ && _ then _ else s).
  assert (H1 : Core s1 ∧ shut s1 ∧ calm s s1 ∧ connected s1 = false ∧ (is_static c = false → where_ s1 ≠ Open)).
  { unfold s1. case_bool_decide as Ho; cbn [andb]; [|split_and!; try done; apply stream_calm_refl].
    destruct (is_static c) eqn:Est; cbn [negb]; [split_and!; try done; apply stream_calm_refl|].
    destruct (OnConnectionClosed_spec e error s) as (H1&H2&H3&H4&H5); [done..|]. rewrite bool_decide_eq_false_2 by done. done. }
  clearbody s1. destruct H1 as (HC1&Hs1&Hm1&Hc1&Ho1). cbv zeta. case_bool_decide as Hz.
  - assert (Hm : calm s (with_place Closed s1)) by (eapply stream_calm_trans; [exact Hm1|]; split; [done|by apply grows_refl]).
    split; [|done]. destruct HC1 as [H1 H2 H3 H4 H5 H6 H7 H8]. assert (Hn : where_ s1 ≠ Open) by congruence.
    split; [split; cbn; try done; try congruence; intros; [by apply H1|by apply H3|]|split; [done|by right]].
    by apply H8 in H.
  - split; [|done]. split; [done|]. split; [done|]. intros _. destruct (is_static c) eqn:Est; [by left|right].
    specialize (Ho1 eq_refl). by destruct (where_ s1).
Qed.

Lemma CloseConnection_spec e error s :
  Sides s → let s' := CloseConnection c e error s in Sides s' ∧ calm s s' ∧ connected s' = false.
Proof.
  intros (HC&Hs&Hd). unfold CloseConnection. destruct (connected s) eqn:Ec; [|split; [done|split; [apply stream_calm_refl|done]]].
  destruct (session_OnConnectionClosed_spec e error (log (CloseConnection_ error) (with_connected false s))) as (H1&H2&H3);
    [by apply down_Core|destruct Hs as [Hs1 Hs2]; by split|done|].
  split; [done|]. split; [|done]. eapply stream_calm_trans; [|exact H2]. split; [done|]. exists [CloseConnection_ error].
  split; [done|by repeat constructor].
Qed.
Lemma CloseConnection_Good e error s : Good s → Good (CloseConnection c e error s).
Proof. intros [H1 H2]. destruct (CloseConnection_spec e error s H2) as (H3&H4&_). split; [by eapply calm_Sending|done]. Qed.

(** ** The receiving operations *)

Lemma UpdateHighestReceivedOffset_sender f o :
  let f' := (FlowController.UpdateHighestReceivedOffset f o).1 in
  FlowController.bytes_sent f' = FlowController.bytes_sent f ∧ FlowController.send_window_offset f' = FlowController.send_window_offset f.
Proof. unfold FlowController.UpdateHighestReceivedOffset. by destruct (_ <=? _). Qed.

Lemma MaybeIncrease_still o s : still s (MaybeIncreaseHighestReceivedOffset c o s).2.
Proof.
  unfold MaybeIncreaseHighestReceivedOffset. pose proof (UpdateHighestReceivedOffset_sender (flow_controller (stream_ s)) o) as [E1 E2].
  destruct (FlowController.UpdateHighestReceivedOffset _ o) as [f []]; cbn [negb]; [|apply still_refl]. cbn [fst snd] in *.
  destruct (contributes c).
  - match goal with |- context [FlowController.UpdateHighestReceivedOffset ?g ?n] =>
      pose proof (UpdateHighestReceivedOffset_sender g n) as [E3 E4]; destruct (FlowController.UpdateHighestReceivedOffset g n) as [g' b] end.
    cbn [fst] in *. split; [unfold sending; cbn in *; by rewrite E1, E2, E3, E4|]. split; [done|by apply grows_refl].
  - split; [unfold sending; cbn; by rewrite E1, E2|]. split; [done|by apply grows_refl].
Qed.

Lemma upd_still f s :
  (∀ st, sending (mk_io (f st) (connection_flow_controller s) true Open []) = sending (mk_io st (connection_flow_controller s) true Open [])) →
  (∀ st, shape (mk_io (f st) (connection_flow_controller s) true Open []) = shape (mk_io st (connection_flow_controller s) true Open [])) →
  still s (upd f s).
Proof.
  intros H1 H2. specialize (H1 (stream_ s)). specialize (H2 (stream_ s)). unfold sending, shape in *. cbn in *.
  split; [exact H1|]. split; [unfold shape; cbn; congruence|by apply grows_refl].
Qed.

Lemma OnStreamFrame_Good e o fin d s : Good s → Good (OnStreamFrame c e o fin d s).
Proof.
  intros HG. unfold OnStreamFrame. case_bool_decide; [by apply CloseConnection_Good|].
  destruct (_ || _); [by apply CloseConnection_Good|]. set (s1 := if fin then _ else s).
  assert (H1 : still s s1).
  { unfold s1. destruct fin; [|apply still_refl]. eapply still_trans; [by apply (upd_still (set_fin_received true))|].
    match goal with |- still _ (if ?b then _ else _) => destruct b end; [by apply still_log|apply still_refl]. }
  clearbody s1. destruct (read_side_closed (stream_ s1)); [by eapply still_Good|].
  set (s2 := upd _ s1). assert (H2 : still s s2) by (eapply still_trans; [exact H1|]; by apply upd_still). clearbody s2.
  match goal with |- context [let '(_, _) := ?x in _] => set (y := x) end.
  assert (H3 : still s y.2) by (eapply still_trans; [exact H2|]; unfold y; destruct (0 <? _); [apply MaybeIncrease_still|apply still_refl]).
  destruct y as [b s3]. cbn [snd] in H3. destruct (b && _); [apply CloseConnection_Good; by eapply still_Good|].
  eapply still_Good; [exact HG|]. eapply still_trans; [exact H3|]. by apply still_log.
Qed.

Lemma CloseReadSide_Good e s : Good s → Good (CloseReadSide c e s).
Proof.
  intros [HS (HC&Hs&Hd)]. destruct (CloseReadSide_spec e s HC) as ((H1&H2&_&H4&_)&H5&_).
  split; [by eapply calm_Sending|]. split; [done|]. split; [by apply H5|by apply H4].
Qed.
Lemma CloseWriteSide_Good e s : Sending s → Core s → gone_down s → Good (CloseWriteSide c e s).
Proof.
  intros HS HC Hd. destruct (CloseWriteSide_spec e s HC) as ((H1&H2&_&H4&_)&H5&_).
  split; [by eapply calm_Sending|]. split; [done|]. split; [done|by apply H4].
Qed.

(** A new error of a stream in the map. *)
Lemma set_error_Good v w s : Good s → where_ s = Open → Good (upd (set_error v w) s).
Proof.
  intros [HS (HC&Hs&Hd)] Ho. split; [apply (calm_Sending s); [done|split; [done|by apply grows_refl]]|].
  split; [|done]. eapply open_Core; try done. destruct (is_static c) eqn:Est; [by right|left]. by apply (cr_open _ HC).
Qed.

Lemma OnStreamReset_Good e code o s : Good s → where_ s = Open → Good (OnStreamReset c e code o s).
Proof.
  intros HG Ho. unfold OnStreamReset. set (s1 := upd _ s). assert (H1 : still s s1) by by apply upd_still.
  assert (Ho1 : where_ s1 = Open) by done. clearbody s1. destruct (_ <? _); [apply CloseConnection_Good; by eapply still_Good|].
  pose proof (MaybeIncrease_still o s1) as H2. set (s2 := (MaybeIncreaseHighestReceivedOffset c o s1).2) in *. clearbody s2.
  assert (HG2 : Good s2) by (eapply still_Good; [exact HG|]; by eapply still_trans).
  destruct (violation s2); [by apply CloseConnection_Good|]. apply CloseReadSide_Good.
  assert (Ho2 : where_ s2 = Open) by (destruct H2 as (_&F&_); unfold shape in F; injection F; congruence).
  pose proof (set_error_Good code (connection_error (stream_ s2)) s2 HG2 Ho2) as HG3.
  destruct (negb (ietf_frames c)); [|done]. destruct HG3 as [HS3 (HC3&_&Hd3)]. by apply CloseWriteSide_Good.
Qed.

Lemma OnFinRead_Good e s : Good s → Good (OnFinRead c e s).
Proof. intros HG. apply CloseReadSide_Good. eapply still_Good; [exact HG|]. by apply upd_still. Qed.

(** ** Resets *)

Lemma reset_frames_spec error n only s :
  let s' := reset_frames c error n only s in
  stream_ s' = stream_ s ∧ connection_flow_controller s' = connection_flow_controller s ∧ connected s' = connected s ∧ where_ s' = where_ s
  ∧ (∃ l, calls s' = calls s ++ l ∧ Forall (λ x, harmless x = true ∨ x = RstStreamFrame error n) l)
  ∧ (connected s = true → RstStreamFrame error n ∈ calls s').
Proof.
  unfold reset_frames. destruct (connected s) eqn:Ec.
  - destruct (_ && _); cbn; (split; [done|]; split; [done|]; split; [done|]; split; [done|]; split; [|set_solver]).
    + eexists [_; _]. split; [by rewrite <-app_assoc|]. constructor; [by right|]. constructor; [by left|done].
    + eexists [_]. split; [done|]. constructor; [by right|done].
  - do 4 (split; [done|]). split; [|done]. exists []. by rewrite app_nil_r.
Qed.

Lemma reset_frames_calm error n only s : calm s (reset_frames c error n only s).
Proof.
  destruct (reset_frames_spec error n only s) as (E1&E2&_&_&(l&E3&Hl)&_). split; [unfold sending; by rewrite E1, E2|].
  exists l. split; [done|]. eapply Forall_impl; [exact Hl|]. intros x [Hx| ->]; [by apply harmless_quiet|done].
Qed.

Lemma reset_frames_Core error only s :
  Core s → let s' := reset_frames c error (written s) only s in Core s' ∧ (gone_down s → gone_down s').
Proof.
  intros HC. destruct (reset_frames_spec error (written s) only s) as (E1&E2&E3&E4&(l&E5&Hl)&Hin).
  set (s' := reset_frames _ _ _ _ _) in *. clearbody s'. split; [|unfold gone_down; by rewrite E3, E4].
  destruct HC as [H1 H2 H3 H4 H5 H6 H7 H8]. split; rewrite ?E1, ?E3, ?E4; try done.
  - intros Hr Hc. destruct (H4 Hr Hc) as (e&n&Hi). exists e, n. rewrite E5. apply elem_of_app. by left.
  - intros e n Hc. rewrite E5. intros [Hi|Hi]%elem_of_app; [by eapply H7|]. rewrite Forall_forall in Hl.
    apply Hl in Hi as [Hi|Hi]; [done|by injection Hi].
Qed.

(** A reset that was told to the peer, of a stream that is not kept only for its data. *)
Lemma set_rst_Core s :
  Core s → (connected s = true → ∃ e n, RstStreamFrame e n ∈ calls s) →
  (where_ s = Zombie → rst_sent (stream_ s) = true ∨ stream_error (stream_ s) = QUIC_STREAM_NO_ERROR) →
  Core (upd (set_rst_sent true) s).
Proof.
  intros [H1 H2 H3 H4 H5 H6 H7 H8] Hr Hz. split; cbn; try done.
  - intros _. apply orb_true_r.
  - intros Hw. specialize (H5 Hw). unfold IsWaitingForAcks in *. cbn. apply andb_true_iff in H5 as [Ha Hb]. rewrite Hb, andb_true_r.
    destruct (Hz Hw) as [E|E]; [rewrite E in Ha; exact Ha|by rewrite E].
  - intros _ _. by left.
Qed.

Lemma Reset_Good e error s : Good s → Good (Reset c e error s).
Proof.
  intros HG. pose proof HG as [HS (HC&Hs&Hd)]. unfold Reset. set (s1 := upd (set_error error _) s).
  destruct (decide (where_ s = Open)) as [Ho|Hn].
  - destruct (set_error_Good error (connection_error (stream_ s)) s HG Ho) as [HS1 (HC1&Hs1&Hd1)]. fold s1 in HS1, HC1, Hs1, Hd1.
    unfold SendRstStream, SendRstStream_. destruct (reset_frames_Core error false s1 HC1) as [HC2 Hd2].
    pose proof (reset_frames_spec error (written s1) false s1) as (E1&E2&E3&E4&(l&E5&Hl)&Hin). pose proof (reset_frames_calm error (written s1) false s1) as Hm2.
    set (s2 := reset_frames c error (written s1) false s1) in *. clearbody s2. specialize (Hd2 Hd1).
    assert (Ho2 : where_ s2 = Open) by (rewrite E4; done). rewrite (bool_decide_eq_false_2 (where_ s2 = Zombie)) by congruence. rewrite andb_false_r.
    destruct (CloseStream_Core true e s2 Ho2 (λ e n, cr_size _ HC2 e n) (λ _, HC2)) as ((HC3&Hm3&Hn3&Hd3&_)&H1&H2).
    { rewrite E3. intros _ Hc. eauto. }
    set (s3 := CloseStreamInner c e true s2) in *.
    split.
    { apply (calm_Sending s1); [done|]. eapply stream_calm_trans; [exact Hm2|]. eapply stream_calm_trans; [exact Hm3|]. split; [done|by apply grows_refl]. }
    destruct (is_static c) eqn:Est.
    + destruct (untold_spec QUIC_INVALID_STREAM_ID s2) as (_&Ec&F&_). specialize (H1 eq_refl). rewrite <-H1 in *. clearbody s3. unfold shape in F. injection F as F1 F2 F3 F4 F5 _.
      split; [apply set_rst_Core; [done|congruence|congruence]|]. split; [|by left].
      split; [|cbn; congruence]. cbn. destruct Hm3 as [E _]. apply sending_eq in E as ((_&_&Ef)&_). rewrite Ef, F2, E1. apply Hs1.
    + destruct (H2 eq_refl) as [Hs3 Hw3].
      destruct (CloseStreamInner_spec e true s2 Ho2 Est) as (_&F&_). fold s3 in F. unfold shape in F. injection F as _ _ F3 _ _ _.
      rewrite orb_true_r in F3. split; [|split; [done|by apply Hd3]].
      apply set_rst_Core; [done| |by left]. intros Hc. destruct (cr_rst _ HC3 F3 Hc) as (e'&n&Hi). eauto.
  - unfold SendRstStream, SendRstStream_.
    pose proof (reset_frames_spec error (written s1) false s1) as (E1&E2&E3&E4&(l&E5&Hl)&Hin). pose proof (reset_frames_calm error (written s1) false s1) as Hm2.
    set (s2 := reset_frames c error (written s1) false s1) in *. clearbody s2.
    set (s3 := if _ && _ then OnStreamDoneWaitingForAcks s2 else _).
    assert (H3 : sending s3 = sending s2 ∧ stream_ s3 = stream_ s2 ∧ connected s3 = connected s2 ∧ where_ s3 ≠ Open
       ∧ (where_ s3 = Zombie → error = QUIC_STREAM_NO_ERROR ∧ where_ s = Zombie) ∧ grows harmless s2 s3 ∧ (where_ s = Closed → where_ s3 = Closed)).
    { unfold s3. assert (Hw2 : where_ s2 = where_ s) by done. destruct (Z.eqb_spec error QUIC_STREAM_NO_ERROR) as [He|He]; cbn [negb andb].
      - unfold CloseStreamInner. rewrite close_gone by congruence.
        split_and!; first [done|congruence|by apply grows_refl|by intros; split; congruence].
      - case_bool_decide as Hz.
        + destruct (done_waiting_spec s2) as (_&_&G). unfold OnStreamDoneWaitingForAcks in *. cbn in *. rewrite bool_decide_eq_true_2 in * by done. cbn in *. by split_and!.
        + unfold CloseStreamInner. rewrite close_gone by congruence.
        split_and!; first [done|congruence|by apply grows_refl|by intros; split; congruence]. }
    clearbody s3. destruct H3 as (G1&G2&G3&G4&G5&G6&G7).
    split.
    { apply (calm_Sending s); [done|].
      eapply (stream_calm_trans _ s1); [split; [done|by apply grows_refl]|]. eapply stream_calm_trans; [exact Hm2|].
      split; [exact G1|]. eapply grows_mono; [apply harmless_quiet|exact G6]. }
    destruct (cr_both _ HC Hn) as [Hrc Hwc].
    assert (Hst : is_static c = false) by (destruct (is_static c) eqn:Est; [by destruct Hn; apply (cr_static _ HC)|done]).
    assert (Hrst : connected s3 = true → ∃ e' n, RstStreamFrame e' n ∈ calls s3).
    { rewrite G3, E3. intros Hc. exists error, (written s1). destruct G6 as (k&->&_). apply elem_of_app. left. by apply Hin. }
    split; [|split].
    + split; cbn; rewrite ?G2, ?E1; cbn; try done; try congruence.
      * intros _. apply orb_true_r.
      * intros Hz. destruct (G5 Hz) as [-> Hz0]. unfold IsWaitingForAcks. cbn.
        pose proof (cr_zombie _ HC Hz0) as Hwait. unfold IsWaitingForAcks in Hwait. by apply andb_true_iff in Hwait as [_ ?].
      * intros _ _. by left.
      * intros e' n Hc Hi. rewrite G3, E3 in Hc. destruct G6 as (k&Ek&Hk). rewrite Ek in Hi. apply rst_in_still in Hi; [|done].
        rewrite E5 in Hi. apply elem_of_app in Hi as [Hi|Hi]; [by eapply (cr_size _ HC)|].
        rewrite Forall_forall in Hl. apply Hl in Hi as [Hi|Hi]; [done|by injection Hi].
    + split; cbn; rewrite G2, E1; done.
    + intros Hc. cbn in Hc. rewrite G3, E3 in Hc. destruct (Hd Hc) as [|Hw]; [by left|right]. cbn. by apply G7.
Qed.

Lemma OnStopSendingFrame_Good e code s : Good s → where_ s = Open → is_static c = false → Good (OnStopSendingFrame c e code s).
Proof.
  intros HG Ho Hst. unfold OnStopSendingFrame. destruct (set_error_Good code (connection_error (stream_ s)) s HG Ho) as [HS1 (HC1&Hs1&Hd1)].
  set (s1 := upd (set_error code _) s) in *. assert (Ho1 : where_ s1 = Open) by done. clearbody s1.
  destruct (reset_frames_Core code true s1 HC1) as [HC2 Hd2]. pose proof (reset_frames_calm code (written s1) true s1) as Hm2.
  pose proof (reset_frames_spec code (written s1) true s1) as (E1&E2&E3&E4&_&Hin).
  set (s2 := reset_frames c code (written s1) true s1) in *. clearbody s2.
  rewrite (bool_decide_eq_false_2 (where_ s2 = Zombie)), andb_false_r, bool_decide_eq_true_2, Hst by congruence.
  apply CloseWriteSide_Good.
  - apply (calm_Sending s1); [done|]. eapply stream_calm_trans; [exact Hm2|]. split; [done|by apply grows_refl].
  - apply set_rst_Core; [done| |congruence]. rewrite E3. intros Hc. eauto.
  - by apply Hd2.
Qed.

Lemma AddBytesConsumed_Good e n s : Good s → Good (AddBytesConsumed c e n s).
Proof. intros HG. eapply still_Good; [exact HG|apply AddBytesConsumed_still]. Qed.

(** What changes a window, or takes a note. *)
Lemma steady_Good s s' : Sending s' → Sides s → steady s s' → Good s'.
Proof. intros H1 H2 H3. split; [done|by eapply steady_Sides]. Qed.

Lemma UpdateSendWindowOffset_Good o s : Good s → o < two64 → Good (UpdateSendWindowOffset o s).
Proof.
  intros [HS HD] Ho. unfold UpdateSendWindowOffset. destruct (FlowController.UpdateSendWindowOffset _ o) as [f b] eqn:E.
  assert (Hf : FlowController.bytes_sent f = FlowController.bytes_sent (flow_controller (stream_ s))
    ∧ FlowController.send_window_offset (flow_controller (stream_ s)) <= FlowController.send_window_offset f < two64).
  { destruct (snd_stream _ HS) as [_ ?]. unfold FlowController.UpdateSendWindowOffset in E. destruct (Z.leb_spec o (FlowController.send_window_offset (flow_controller (stream_ s))));
      injection E as <- <-; cbn; [split; [done|lia]|split; [done|lia]]. }
  set (s1 := upd _ s). assert (HG1 : Good s1).
  { apply (steady_Good s); [|done|by split; [|split; [|apply grows_refl]]]. destruct HS as [H1 [H2 H3] H4 H5 H6 H7 H8 H9 H10 H11 H12].
    split; try done. cbn. split; [by rewrite (proj1 Hf)|]. unfold s1, stream_bytes_written in *. cbn in *. lia. }
  destruct b; [|done]. eapply still_Good; [exact HG1|by apply still_log].
Qed.

Lemma OnWindowUpdateFrame_Good e o s : Good s → o < two64 → Good (OnWindowUpdateFrame c e o s).
Proof. intros HG Ho. unfold OnWindowUpdateFrame. destruct (_ && _); [by apply CloseConnection_Good|by apply UpdateSendWindowOffset_Good]. Qed.

(** ** Blocked frames *)

Lemma ShouldSendBlocked_sender f :
  let f' := (FlowController.ShouldSendBlocked f).1 in
  FlowController.bytes_sent f' = FlowController.bytes_sent f ∧ FlowController.send_window_offset f' = FlowController.send_window_offset f.
Proof. unfold FlowController.ShouldSendBlocked. by destruct (_ || _). Qed.

Lemma MaybeSendBlocked_still s : still s (MaybeSendBlocked c s).
Proof.
  unfold MaybeSendBlocked. pose proof (ShouldSendBlocked_sender (flow_controller (stream_ s))) as [E1 E2].
  destruct (FlowController.ShouldSendBlocked (flow_controller (stream_ s))) as [f b]. cbn [fst] in *.
  set (s1 := upd (set_flow_controller f) s). assert (H1 : still s s1).
  { split; [unfold sending; cbn; by rewrite E1, E2|]. split; [done|by apply grows_refl]. }
  set (s2 := if b then _ else s1). assert (H2 : still s s2).
  { unfold s2. destruct b; [|done]. eapply still_trans; [exact H1|by apply still_log]. }
  clearbody s2. destruct (negb (contributes c)); [done|].
  pose proof (ShouldSendBlocked_sender (connection_flow_controller s2)) as [E3 E4].
  destruct (FlowController.ShouldSendBlocked (connection_flow_controller s2)) as [g b']. cbn [fst] in *.
  set (s3 := with_connection g s2). assert (H3 : still s s3).
  { eapply still_trans; [exact H2|]. split; [unfold sending; cbn; by rewrite E3, E4|]. split; [done|by apply grows_refl]. }
  set (s4 := if b' then _ else s3). assert (H4 : still s s4).
  { unfold s4. destruct b'; [|done]. eapply still_trans; [exact H3|by apply still_log]. }
  clearbody s4. destruct (_ && _); [|done]. eapply still_trans; [exact H4|by apply still_log].
Qed.

(** ** Writing *)

Section session.
Context (session_writes : io → Z → Z → StreamSendingState → answer) (should_yield : io → bool).

(** What the session promises: packets that are not empty and no more than was offered; the end of the stream only with all of
    it, when it is offered; and nothing when the connection is down. *)
Definition good_session : Prop :=
  ∀ s len off st, 0 <= len → let a := session_writes s len off st in
  Forall (λ n, 0 < n) (packets a) ∧ total (packets a) <= len
  ∧ (fin_consumed a = true → total (packets a) = len ∧ st ≠ NO_FIN)
  ∧ (connected s = false → packets a = [] ∧ fin_consumed a = false).

Lemma packets_total_nonneg l : Forall (λ n, 0 < n) l → 0 <= total l.
Proof. induction 1; cbn; [done|]. unfold total in *. lia. Qed.

(** A write to a packet leaves all of the buffer but its slices. *)
Definition kept (b : StreamSendBuffer.t) :=
  (StreamSendBuffer.stream_offset b, StreamSendBuffer.stream_bytes_written b, StreamSendBuffer.stream_bytes_outstanding b,
   StreamSendBuffer.bytes_acked b, StreamSendBuffer.pending_retransmissions b).
Lemma WriteStreamData_kept b off len w : kept (StreamSendBuffer.WriteStreamData b off len w).1.1 = kept b.
Proof.
  unfold StreamSendBuffer.WriteStreamData, StreamSendBuffer.write_from. repeat case_match; simplify_eq/=; done.
Qed.

Abbreviation sends := (StreamSendBuffer.sends data).
Abbreviation acked b := (IntervalSet.den (StreamSendBuffer.bytes_acked b)).
Abbreviation pending b := (StreamSendBuffer.pending_retransmissions b).

(** The data of a range: new, or sent before and not acknowledged. *)
Definition may_write (nw : Z) (b : StreamSendBuffer.t) (off len : Z) : Prop :=
  0 <= off ∧ off + len <= StreamSendBuffer.stream_offset b ∧ (off = nw ∨ off + len <= nw)
  ∧ ∀ z, off <= z < off + len → ¬ acked b z.

Lemma write_packet_spec nw s off n :
  sends nw (buffer s) → well_sent (calls s) nw → may_write nw (buffer s) off n → 0 < n → where_ s ≠ Closed →
  let s' := write_packet off n s in
  sends (Z.max nw (off + n)) (buffer s') ∧ well_sent (calls s') (Z.max nw (off + n)) ∧ kept (buffer s') = kept (buffer s)
  ∧ (∃ b l, s' = upd (set_send_buffer b) (mk_io (stream_ s) (connection_flow_controller s) (connected s) (where_ s) (calls s ++ l)) 
       ∧ Forall (λ x, harmless x = true ∨ ∃ o d, x = PacketData o d) l).
Proof.
  intros Hb Hl (H1&H2&H3&H4) Hn Hw. unfold write_packet. rewrite bool_decide_eq_false_2 by done.
  set (w := Writer.new (Z.to_nat n) NETWORK_BYTE_ORDER).
  assert (Hrem : Writer.remaining w = n ∧ WriterSpec.written w = []).
  { unfold w, Writer.remaining, Writer.capacity, Writer.new, zlen, WriterSpec.written. cbn. rewrite length_replicate. split; [lia|done]. }
  assert (Hwr : StreamSendBuffer.writable nw (buffer s) off n) by by split_and!.
  pose proof Hb as [gs HI]%StreamSendBuffer.sends_inv. pose proof (WriterSpec.writer_new_wf (Z.to_nat n) NETWORK_BYTE_ORDER) as Hwf. fold w in Hwf.
  pose proof (StreamSendBuffer.WriteStreamData_spec data nw gs (buffer s) off n w HI Hwr Hwf) as Hspec.
  pose proof (WriteStreamData_kept (buffer s) off n w) as Hk.
  destruct (StreamSendBuffer.WriteStreamData (buffer s) off n w) as [[b w'] ok] eqn:E. cbn [fst] in Hk.
  destruct Hspec as [Hok Hd]. rewrite (proj1 Hrem) in Hok. rewrite Z.leb_refl in Hok. subst ok.
  destruct (Hd eq_refl) as (Hdata&_). rewrite (proj2 Hrem) in Hdata. cbn [app] in Hdata. rewrite Hdata.
  split; [|split; [|split; [done|]]].
  - cbn. eapply StreamSendBuffer.s_write; [exact Hb|exact Hwr|exact Hwf|exact E].
  - cbn. destruct H3 as [->|H3].
    + rewrite Z.max_r by lia. by apply ws_new.
    + rewrite Z.max_l by lia. by apply ws_again.
  - exists b, [PacketData off (Some (slice data off n))]. split; [done|]. constructor; [|done]. right. eauto.
Qed.

(** Only the buffer and the log are touched. *)
Definition only_writes (s s' : io) : Prop :=
  ∃ b l, s' = upd (set_send_buffer b) (mk_io (stream_ s) (connection_flow_controller s) (connected s) (where_ s) (calls s ++ l))
    ∧ Forall (λ x, harmless x = true ∨ ∃ o d, x = PacketData o d) l.
Lemma only_writes_refl s : only_writes s s.
Proof. exists (buffer s), []. rewrite app_nil_r. split; [|done]. destruct s as [[] ? ? ? ?]. done. Qed.
Lemma only_writes_trans s1 s2 s3 : only_writes s1 s2 → only_writes s2 s3 → only_writes s1 s3.
Proof.
  intros (b1&l1&->&H1) (b2&l2&->&H2). exists b2, (l1 ++ l2). split; [cbn; by rewrite app_assoc|]. by apply Forall_app.
Qed.

Lemma write_packets_spec lens : ∀ nw off s,
  Forall (λ n, 0 < n) lens → sends nw (buffer s) → well_sent (calls s) nw → may_write nw (buffer s) off (total lens) → where_ s ≠ Closed →
  let s' := write_packets lens off s in
  let nw' := Z.max nw (off + total lens) in
  sends nw' (buffer s') ∧ well_sent (calls s') nw' ∧ kept (buffer s') = kept (buffer s) ∧ only_writes s s'.
Proof.
  induction lens as [|n lens IH]; intros nw off s Hp Hb Hl Hm Hw; cbn [write_packets total foldr].
  { destruct Hm as (?&?&?&_). cbn in *. rewrite Z.max_l by lia. split; [done|]. split; [done|]. split; [done|apply only_writes_refl]. }
  inversion Hp as [|? ? Hn Hp']; subst. pose proof (packets_total_nonneg lens Hp') as Ht. change (foldr Z.add 0 lens) with (total lens).
  destruct Hm as (M1&M2&M3&M4). cbn [total foldr] in *. change (foldr Z.add 0 lens) with (total lens) in *.
  assert (Hm1 : may_write nw (buffer s) off n).
  { split; [done|]. split; [lia|]. split; [lia|]. intros z Hz. apply M4. lia. }
  destruct (write_packet_spec nw s off n Hb Hl Hm1 Hn Hw) as (Hb1&Hl1&Hk1&Ho1).
  set (s1 := write_packet off n s) in *. cbv zeta.
  assert (Hs1 : where_ s1 = where_ s) by (destruct Ho1 as (?&?&->&_); done).
  pose proof Hk1 as Hk1'. unfold kept in Hk1'. injection Hk1' as K1 K2 K3 K4 K5.
  assert (Hm2 : may_write (Z.max nw (off + n)) (buffer s1) (off + n) (total lens)).
  { unfold may_write. rewrite K1, K4. split; [lia|]. split; [lia|]. split; [lia|]. intros z Hz. apply M4. lia. }
  destruct (IH _ _ s1 Hp' Hb1 Hl1 Hm2 ltac:(congruence)) as (H1&H2&H3&H4).
  replace (Z.max nw (off + (n + total lens))) with (Z.max (Z.max nw (off + n)) (off + n + total lens)) by lia.
  split; [done|]. split; [done|]. split; [by rewrite H3|]. by eapply only_writes_trans.
Qed.

Lemma only_writes_steady s s' : only_writes s s' → kept (buffer s') = kept (buffer s) →
  account s' = account s ∧ shape s' = shape s ∧ (∀ e n, RstStreamFrame e n ∈ calls s' ↔ RstStreamFrame e n ∈ calls s).
Proof.
  intros (b&l&->&Hl) Hk. unfold kept in Hk. cbn in Hk. injection Hk as K1 K2 K3 K4 K5. split; [|split; [done|]].
  - unfold account, stream_bytes_written. cbn. by rewrite K2, K3.
  - intros e n. cbn. rewrite elem_of_app. split; [|by left]. intros [|Hi]; [done|]. rewrite Forall_forall in Hl.
    apply Hl in Hi as [Hi|(?&?&?)]; done.
Qed.

(** The same for changes with these entries of the log. *)
Lemma like_Sides s s' :
  Sides s → account s' = account s → shape s' = shape s → (∀ e n, RstStreamFrame e n ∈ calls s' ↔ RstStreamFrame e n ∈ calls s) → Sides s'.
Proof.
  intros (HC&Hs&Hd) E F Hr. unfold account in E. injection E as E1 E2 E3 E4. unfold shape in F. injection F as F1 F2 F3 F4 F5 F6.
  destruct HC as [H1 H2 H3 H4 H5 H6 H7 H8]. destruct Hs as [Hs1 Hs2]. unfold IsWaitingForAcks, gone_down in *.
  split; [split|split; [split|]]; unfold IsWaitingForAcks, gone_down; rewrite ?E1, ?E2, ?E3, ?E4, ?F1, ?F2, ?F3, ?F4, ?F5, ?F6; try done.
  - setoid_rewrite Hr. done.
  - setoid_rewrite Hr. done.
  - setoid_rewrite Hr. done.
Qed.

(** All of the sending state but the buffer. *)
Definition beside (s : io) :=
  (fin_buffered (stream_ s), fin_sent (stream_ s), fin_outstanding (stream_ s), fin_lost (stream_ s),
   FlowController.bytes_sent (flow_controller (stream_ s)), FlowController.send_window_offset (flow_controller (stream_ s)),
   FlowController.bytes_sent (connection_flow_controller s), FlowController.send_window_offset (connection_flow_controller s)).

(** A write through the session. *)
Record written_as (nw len off : Z) (st : StreamSendingState) (s : io) (r : QuicConsumedData) (s' : io) : Prop := {
  wr_bounds : 0 <= bytes_consumed r <= len;
  wr_fin : fin_was_consumed r = true → bytes_consumed r = len ∧ st ≠ NO_FIN;
  wr_buffer : sends (Z.max nw (off + bytes_consumed r)) (buffer s');
  wr_packets : well_sent (calls s') (Z.max nw (off + bytes_consumed r));
  wr_kept : kept (buffer s') = kept (buffer s);
  wr_beside : beside s' = beside s;
  wr_sides : Sides s';
  wr_calls o l t m f : SendStreamData o l t m f ∈ calls s'
    ↔ SendStreamData o l t m f ∈ calls s ∨ (o = off ∧ l = len ∧ t = st ∧ m = bytes_consumed r ∧ f = fin_was_consumed r);
  wr_grows : ∃ l, calls s' = calls s ++ l ∧ SendStreamData off len st (bytes_consumed r) (fin_was_consumed r) ∈ l;
  wr_shape : shape s' = shape s ∨ connected s' = false;
  wr_down : connected s = false → bytes_consumed r = 0 ∧ fin_was_consumed r = false ∧ connected s' = false;
}.

Hypothesis Hsession : good_session.

Lemma WritevData__spec e nw len off st s :
  0 <= len → sends nw (buffer s) → well_sent (calls s) nw → may_write nw (buffer s) off len →
  (connected s = true → where_ s ≠ Closed) → Sides s →
  let '(r, s') := WritevData_ c e session_writes len off st s in written_as nw len off st s r s'.
Proof.
  intros Hlen Hb Hl Hm Hw HD. unfold WritevData_. destruct (Hsession s len off st Hlen) as (Hp&Ht&Hf&Hd).
  set (a := session_writes s len off st) in *. clearbody a. pose proof (packets_total_nonneg _ Hp) as Ht0.
  assert (H1 : let s1 := write_packets (packets a) off s in
    sends (Z.max nw (off + total (packets a))) (buffer s1) ∧ well_sent (calls s1) (Z.max nw (off + total (packets a)))
    ∧ kept (buffer s1) = kept (buffer s) ∧ only_writes s s1).
  { destruct (connected s) eqn:Ec.
    - apply write_packets_spec; try done; [|by apply Hw]. destruct Hm as (M1&M2&M3&M4). split; [done|]. split; [lia|]. split; [lia|].
      intros z Hz. apply M4. lia.
    - destruct (Hd eq_refl) as [-> _]. cbn. destruct Hm as (M1&M2&M3&M4). rewrite Z.max_l by lia. split_and!; try done. apply only_writes_refl. }
  cbv zeta in H1. set (s1 := write_packets (packets a) off s) in *. clearbody s1. destruct H1 as (Hb1&Hl1&Hk1&Ho1).
  set (s2 := log (SendStreamData off len st (total (packets a)) (fin_consumed a)) s1).
  destruct (only_writes_steady s s1 Ho1 Hk1) as (E1&F1&R1).
  assert (HD2 : Sides s2).
  { apply (like_Sides s); [done|done|done|]. intros e' n. cbn. rewrite elem_of_app, R1. split; [intros [|Hi]; [done|]|by left].
    apply list_elem_of_singleton in Hi. done. }
  set (s3 := match closes a with Some error => CloseConnection c e error s2 | None => s2 end).
  assert (H3 : Sides s3 ∧ calm s2 s3 ∧ (shape s3 = shape s2 ∨ connected s3 = false)).
  { unfold s3. destruct (closes a) as [error|]; [|split; [done|split; [apply stream_calm_refl|by left]]].
    destruct (CloseConnection_spec e error s2 HD2) as (H1&H2&H3). split; [done|]. split; [done|by right]. }
  assert (Hdown : connected s = false → connected s3 = false).
  { intros Hc. destruct H3 as (_&_&[Hsh|Hsh]); [|done]. unfold shape in Hsh, F1. injection Hsh as _ _ _ _ _ ->. injection F1 as _ _ _ _ _ F6. cbn. congruence. }
  clearbody s3. destruct H3 as (HD3&[E3 (k&Ek&Hk)]&Hsh). pose proof E3 as E3'. apply sending_eq in E3' as ((Eb&_&_)&_&_).
  assert (Hkq : ∀ x, x ∈ k → quiet x = true) by (by rewrite <-Forall_forall).
  split; cbn [bytes_consumed fin_was_consumed].
  - lia.
  - done.
  - by rewrite Eb.
  - rewrite Ek. apply well_sent_quiet; [|done]. cbn. by apply ws_other.
  - by rewrite Eb.
  - unfold beside. unfold sending in E3. cbn in E3. injection E3 as _ -> -> -> -> -> -> -> ->. destruct Ho1 as (b&l&->&_). done.
  - done.
  - intros o l t m f. rewrite Ek. unfold s2, log. cbn. destruct Ho1 as (b&l1&->&Hl1'). cbn. rewrite !elem_of_app, list_elem_of_singleton. split.
    + intros [[[Hi|Hi]|Hi]|Hi]; [by left|rewrite Forall_forall in Hl1'; apply Hl1' in Hi as [Hi|(?&?&?)]; done|right; by simplify_eq|].
      by apply Hkq in Hi.
    + intros [Hi|(->&->&->&->&->)]; [by left; left; left|left; by right].
  - rewrite Ek. unfold s2, log. cbn. destruct Ho1 as (b&l1&->&_). cbn. eexists. rewrite <-!app_assoc. split; [reflexivity|].
    rewrite !elem_of_app, list_elem_of_singleton. tauto.
  - destruct Hsh as [Hsh|]; [left|by right]. rewrite Hsh. exact F1.
  - intros Hc. destruct (Hd Hc) as [-> ->]. split; [done|]. split; [done|by apply Hdown].
Qed.

(** ** New data *)

(** What is written of a stream that can be written to is in the map, not reset, and its account can change. *)
Lemma write_open_Sides s s' :
  Sides s → shape s' = shape s → (∀ e n, RstStreamFrame e n ∈ calls s' ↔ RstStreamFrame e n ∈ calls s) →
  write_side_closed (stream_ s) = false → fin_sent (stream_ s') = fin_sent (stream_ s) → Sides s'.
Proof.
  intros (HC&Hs&Hd) F Hr Hw Ef. pose proof (Core_open_wc s HC (or_introl Hw)) as Ho. unfold shape in F. injection F as F1 F2 F3 F4 F5 F6.
  destruct HC as [H1 H2 H3 H4 H5 H6 H7 H8]. destruct Hs as [Hs1 Hs2]. unfold gone_down in *.
  split; [split|split; [split|]]; unfold gone_down; rewrite ?Ef, ?F1, ?F2, ?F3, ?F5, ?F6; try done; try congruence.
  - setoid_rewrite Hr. done.
  - intros e n Hc Hi%Hr. rewrite (Hs2 Hc _ _ Hi) in Hw. done.
  - intros Hc e n Hi%Hr. by eapply Hs2.
Qed.

Lemma AddBytesSent_plain e n s :
  0 <= n → FlowController.bytes_sent (flow_controller (stream_ s)) + n <= FlowController.send_window_offset (flow_controller (stream_ s)) < two64 →
  0 <= FlowController.bytes_sent (flow_controller (stream_ s)) →
  (contributes c = true → 0 <= FlowController.bytes_sent (connection_flow_controller s)
    ∧ FlowController.bytes_sent (connection_flow_controller s) + n <= FlowController.send_window_offset (connection_flow_controller s) < two64) →
  AddBytesSent c e n s =
    (let s1 := upd (set_flow_controller (FlowController.set_sent (flow_controller (stream_ s)) (FlowController.bytes_sent (flow_controller (stream_ s)) + n))) s in
     if contributes c then with_connection (FlowController.set_sent (connection_flow_controller s) (FlowController.bytes_sent (connection_flow_controller s) + n)) s1
     else s1).
Proof.
  intros Hn H1 H0 H2. unfold AddBytesSent, FlowController.AddBytesSent.
  assert (∀ a w, 0 <= a → a + n <= w → w < two64 → wrap64 (a + n) = a + n ∧ (w <? a + n) = false) as Hw.
  { intros a w Ha Hb Hc. unfold wrap64. rewrite Z.mod_small by (unfold two64 in *; lia). split; [done|]. apply Z.ltb_ge. lia. }
  destruct (Hw _ _ H0 (proj1 H1) (proj2 H1)) as [-> ->]. cbn [negb]. rewrite bool_decide_eq_true_2 by done. cbn [negb].
  destruct (contributes c) eqn:Ec; [|done]. destruct (H2 eq_refl) as (K1&K2&K3). cbn [connection_flow_controller upd].
  destruct (Hw _ _ K1 K2 K3) as [-> ->]. rewrite bool_decide_eq_true_2 by done. done.
Qed.

(** Whether the stream still has data to send does not matter to the state. *)
Lemma note_waiting_Good s : Good s → Good (if IsWaitingForAcks (stream_ s) then log OnStreamWaitingForAcks s else s).
Proof. intros HG. destruct (IsWaitingForAcks _); [|done]. eapply still_Good; [exact HG|by apply still_log]. Qed.
Lemma note_progress_Good (b : bool) s : Good s → Good (if b then upd (set_busy_counter 0) s else s).
Proof. intros HG. destruct b; [|done]. eapply still_Good; [exact HG|by apply upd_still]. Qed.
Lemma log_Good x s : harmless x = true → Good s → Good (log x s).
Proof. intros Hx HG. eapply still_Good; [exact HG|by apply still_log]. Qed.

(** The end of the stream has gone out. *)
Lemma fin_out_Good e s off len st n :
  Good s → write_side_closed (stream_ s) = false → fin_buffered (stream_ s) = true → written s = saved s →
  SendStreamData off len st n true ∈ calls s →
  Good (CloseWriteSide c e (let s := s |> upd (set_fin_sent true) |> upd (set_fin_outstanding true) in
                            if fin_received (stream_ s) then log StreamDraining s else s)).
Proof.
  intros [HS (HC&Hs&Hd)] Hw Hb Hall Hi. pose proof (Core_open_wc s HC (or_introl Hw)) as Ho.
  set (s1 := upd (set_fin_outstanding true) (upd (set_fin_sent true) s)).
  assert (HS1 : Sending s1).
  { destruct HS as [H1 H2 H3 H4 H5 H6 H7 H8 H9 H10 H11].
    assert (Ht : type_ c ≠ READ_UNIDIRECTIONAL) by (intros Ht; destruct (H8 Ht) as (_&?&_); congruence).
    split; try done. { intros _. by right. } intros _ _. by eexists _, _, _, _. }
  assert (HC1 : Core s1).
  { destruct HC as [H1 H2 H3 H4 H5 H6 H7 H8]. split; try done; cbn; congruence. }
  assert (Hd1 : gone_down s1) by done. clearbody s1. cbv zeta. destruct (fin_received (stream_ s1)); [|by apply CloseWriteSide_Good].
  pose proof (still_log StreamDraining s1 eq_refl) as Hl.
  apply CloseWriteSide_Good; [eapply calm_Sending; [exact HS1|by apply still_calm]|by eapply still_Core|done].
Qed.

(** What the loop of a write needs to know of its result. *)
Lemma after_write_Good e len fin zero r s off st :
  Good s → write_side_closed (stream_ s) = false →
  (fin && fin_was_consumed r = true → fin_buffered (stream_ s) = true ∧ written s = saved s ∧ ∃ n, SendStreamData off len st n true ∈ calls s) →
  Good (after_write c e len fin zero r s).
Proof.
  intros HG Hw Hf. unfold after_write. rewrite Hw. apply note_waiting_Good, note_progress_Good.
  destruct (bytes_consumed r =? len); [|by apply log_Good]. set (s1 := if negb zero then _ else s).
  assert (H1 : still s s1) by (unfold s1; destruct zero; cbn [negb]; [apply still_refl|apply MaybeSendBlocked_still]).
  assert (HG1 : Good s1) by by eapply still_Good. clearbody s1.
  destruct fin; cbn [andb] in *; [|done]. destruct (fin_was_consumed r) eqn:Er; cbn [negb]; [|by apply log_Good].
  destruct (Hf eq_refl) as (Hb&Hall&n&Hi). destruct H1 as (E&F&k&Ek&_). unfold shape in F. injection F as _ F2 _ _ _ _.
  pose proof (sending_eq _ _ E) as ((Eb&Efb&_)&_).
  apply (fin_out_Good e s1 off len st n HG1); unfold stream_bytes_written in *; rewrite ?F2, ?Efb, ?Eb; try done.
  rewrite Ek. apply elem_of_app. by left.
Qed.

(** The data the session took is accounted for, in the buffer and in both windows. *)
Lemma consumed_Good e len st s r s2 :
  Good s → write_side_closed (stream_ s) = false → len <= send_window c s → 
  (st ≠ NO_FIN → fin_buffered (stream_ s) = true ∧ written s + len = saved s) →
  written_as (written s) len (written s) st s r s2 →
  let s4 := AddBytesSent c e (bytes_consumed r) (OnStreamDataConsumed (bytes_consumed r) s2) in
  Good s4 ∧ shape s4 = shape s2 ∧ fin_buffered (stream_ s4) = fin_buffered (stream_ s)
  ∧ written s4 = written s + bytes_consumed r ∧ saved s4 = saved s ∧ calls s4 = calls s2.
Proof.
  intros [HS HD] Hw Hlen Hst [W1 W2 W3 W4 W5 W6 W7 W8 _ W9 W10]. set (n := bytes_consumed r) in *. pose proof (sending_bounds s HS) as Hbd.
  pose proof HS as [H1 [H2 H2'] H3 H4 H5 H6 H7 H8 H9 H10 H11].
  unfold beside in W6. injection W6 as B1 B2 B3 B4 B5 B6 B7 B8. unfold kept in W5. injection W5 as K1 K2 K3 K4 K5.
  assert (Hwin : written s + n <= FlowController.send_window_offset (flow_controller (stream_ s)) < two64
    ∧ (contributes c = true → FlowController.bytes_sent (connection_flow_controller s) + n <= FlowController.send_window_offset (connection_flow_controller s) < two64)).
  { assert (Hsw : ∀ f, FlowController.bytes_sent f <= FlowController.send_window_offset f → n <= FlowController.SendWindowSize f →
      FlowController.bytes_sent f + n <= FlowController.send_window_offset f).
    { intros f Hf. unfold FlowController.SendWindowSize. destruct (Z.ltb_spec (FlowController.send_window_offset f) (FlowController.bytes_sent f)); lia. }
    unfold send_window in Hlen. split.
    - split; [|lia]. rewrite <-H2. apply Hsw; [lia|]. destruct (contributes c); lia.
    - intros Hc. rewrite Hc in Hlen. destruct (H3 Hc). split; [|lia]. apply Hsw; [lia|]. lia. }
  destruct Hwin as [Hwin1 Hwin2]. set (s3 := OnStreamDataConsumed n s2).
  rewrite (AddBytesSent_plain e n s3); [| |unfold s3; cbn; rewrite ?B5, ?B6; lia|unfold s3; cbn; rewrite ?B5, ?B6; lia|].
  2: lia. 2: { intros Hc. specialize (H3 Hc). specialize (Hwin2 Hc). unfold s3. cbn. rewrite B7, B8. lia. }
  set (s4 := if contributes c then _ else _).
  assert (E : send_buffer (stream_ s4) = StreamSendBuffer.OnStreamDataConsumed (buffer s2) n
    ∧ (fin_buffered (stream_ s4), fin_sent (stream_ s4), fin_outstanding (stream_ s4), fin_lost (stream_ s4))
       = (fin_buffered (stream_ s), fin_sent (stream_ s), fin_outstanding (stream_ s), fin_lost (stream_ s))
    ∧ FlowController.bytes_sent (flow_controller (stream_ s4)) = written s + n
    ∧ FlowController.send_window_offset (flow_controller (stream_ s4)) = FlowController.send_window_offset (flow_controller (stream_ s))
    ∧ (contributes c = true → FlowController.bytes_sent (connection_flow_controller s4) = FlowController.bytes_sent (connection_flow_controller s) + n)
    ∧ FlowController.send_window_offset (connection_flow_controller s4) = FlowController.send_window_offset (connection_flow_controller s)
    ∧ shape s4 = shape s2 ∧ calls s4 = calls s2).
  { unfold s4, s3. destruct (contributes c); cbn; rewrite ?B1, ?B2, ?B3, ?B4, ?B5, ?B6, ?B7, ?B8, ?H2; done. }
  clearbody s4. clear s3. destruct E as (E1&E2&E3&E4&E5&E6&E7&E8). injection E2 as F1 F2 F3 F4.
  assert (Ew : written s4 = written s + n) by (unfold stream_bytes_written; rewrite E1; cbn; by rewrite K2).
  assert (Es : saved s4 = saved s) by (rewrite E1; cbn; by rewrite K1).
  assert (Hn : written s + n <= saved s).
  { pose proof (StreamSendBuffer.sends_inv data _ _ W3) as [gs HI]. pose proof (StreamSendBuffer.inv_order _ _ _ _ HI) as Ho. rewrite K1 in Ho. lia. }
  assert (HS4 : Sending s4).
  { split; rewrite ?E3, ?E4, ?E6, ?E8, ?F1, ?F2, ?F3, ?F4, ?Es, ?Ew; try done.
    - rewrite E1. rewrite Z.max_r in W3 by lia. apply StreamSendBuffer.s_consumed; [done|lia|]. rewrite K2. unfold stream_bytes_written. lia.
    - intros Hc. specialize (H3 Hc). specialize (Hwin2 Hc). rewrite E5 by done. lia.
    - intros Hf. destruct (H7 Hf) as [Ht|[Hb He]]; [by left|right]. split; [done|lia].
    - rewrite Z.max_r in W4 by lia. exact W4.
    - intros o l t m Hi. apply W8 in Hi as [Hi|(->&->&->&->&Hf)]; [by eapply H10|]. symmetry in Hf. destruct (W2 Hf) as [-> Hne].
      destruct (Hst Hne) as [Hb Hall]. split; [done|]. unfold stream_bytes_written in *. lia.
    - intros Hf Ht. destruct (H11 Hf Ht) as (o&l&t&m&Hi). exists o, l, t, m. apply W8. by left. }
  split; [split; [done|]|done]. destruct W9 as [F|Hc].
  - apply (write_open_Sides s2); [done|done| |unfold shape in F; injection F; congruence|by rewrite F2, B2]. intros; by rewrite E8.
  - destruct (decide (is_static c = true)) as [Hstat|Hstat].
    + destruct W7 as (HC2&[Hs2 _]&Hd2). destruct HC2 as [C1 C2 C3 C4 C5 C6 C7 C8]. unfold shape in E7. injection E7 as G1 G2 G3 G4 G5 G6.
      specialize (C8 Hstat). split; [split|split; [split|]]; rewrite ?G1, ?G2, ?G3, ?G5, ?G6; try congruence; try done.
      * rewrite F2, <-B2. exact Hs2.
      * by left.
    + destruct W7 as (HC2&[Hs2 Hs2']&Hd2). destruct (Hd2 Hc) as [|Hz]; [done|]. destruct HC2 as [C1 C2 C3 C4 C5 C6 C7 C8].
      unfold shape in E7. injection E7 as G1 G2 G3 G4 G5 G6.
      split; [split|split; [split|]]; rewrite ?G1, ?G2, ?G3, ?G5, ?G6; try congruence; try done.
      * rewrite F2, <-B2. exact C3.
      * rewrite F2, <-B2. exact Hs2.
      * intros _. right. by rewrite G5.
Qed.

Lemma send_window_nonneg s : 0 <= send_window c s.
Proof. unfold send_window, FlowController.SendWindowSize. destruct (contributes c); repeat case_match; lia. Qed.

Lemma BufferedDataBytes_eq s : Sending s → BufferedDataBytes (stream_ s) = saved s - written s.
Proof.
  intros HS. pose proof (sending_bounds s HS). pose proof (snd_size _ HS). unfold BufferedDataBytes, wrap64.
  apply Z.mod_small. unfold stream_bytes_written in *. lia.
Qed.

(** New data starts where the written data ends, and is not acknowledged. *)
Lemma may_write_new s len : Sending s → 0 <= len <= saved s - written s → may_write (written s) (buffer s) (written s) len.
Proof.
  intros HS Hl. pose proof (sending_bounds s HS). split; [lia|]. split; [lia|]. split; [by left|].
  pose proof (StreamSendBuffer.sends_inv data _ _ (snd_buffer _ HS)) as [gs HI]. intros z Hz Ha.
  apply (StreamSendBuffer.inv_acked _ _ _ _ HI) in Ha. unfold stream_bytes_written in *. lia.
Qed.

Lemma WriteBufferedData_Good e s : Good s → write_side_closed (stream_ s) = false → Good (WriteBufferedData c e session_writes should_yield s).
Proof.
  intros HG Hw. unfold WriteBufferedData. destruct (should_yield s); [by apply log_Good|].
  set (zero := fin_buffered (stream_ s) && _). destruct (_ && negb zero); [eapply still_Good; [exact HG|apply MaybeSendBlocked_still]|].
  rewrite BufferedDataBytes_eq by apply HG. set (w := send_window c s).
  set (p := if w <? _ then _ else _).
  assert (Hp : let '(fin, len) := p in 0 <= len <= saved s - written s ∧ len <= w
    ∧ (fin = true → fin_buffered (stream_ s) = true ∧ written s + len = saved s)).
  { pose proof (sending_bounds s (proj1 HG)). pose proof (send_window_nonneg s). fold w in H0. unfold p.
    destruct (Z.ltb_spec w (saved s - written s)); (split; [lia|]; split; [lia|]); [done|]. intros ->. split; [done|lia]. }
  destruct p as [fin len]. destruct Hp as (Hl&Hlw&Hfin). set (s1 := if session_decides_what_to_write c then _ else s).
  assert (H1 : still s s1) by (unfold s1; destruct (session_decides_what_to_write c); [by apply still_log|apply still_refl]).
  assert (Hsw : send_window c s1 = w) by (unfold s1; by destruct (session_decides_what_to_write c)).
  assert (HG1 : Good s1) by by eapply still_Good. destruct H1 as (E&F&_). pose proof (sending_eq _ _ E) as ((Eb&Efb&_)&_).
  assert (Ew : written s1 = written s) by (unfold stream_bytes_written; by rewrite Eb).
  assert (Hw1 : write_side_closed (stream_ s1) = false) by (unfold shape in F; injection F; congruence).
  rewrite <-Eb, <-Ew, <-Efb in *. clearbody s1 zero w. clear s HG Hw E F Eb Ew Efb.
  set (st := if fin then _ else NO_FIN).
  assert (Hst : st ≠ NO_FIN → fin_buffered (stream_ s1) = true ∧ written s1 + len = saved s1) by (unfold st; destruct fin; [intros _; by apply Hfin|done]).
  assert (Hst' : fin = true → st ≠ NO_FIN) by (intros ->; unfold st; by destruct (add_random_padding_after_fin _)). clearbody st.
  pose proof HG1 as [HS HD]. pose proof (Core_open_wc s1 (proj1 HD) (or_introl Hw1)) as Ho.
  pose proof (WritevData__spec e (written s1) len (written s1) st s1 ltac:(lia) (snd_buffer _ HS) (snd_packets _ HS)
    (may_write_new s1 len HS Hl) ltac:(congruence) HD) as Hr. destruct (WritevData_ _ _ _ _ _ _ _) as [r s2].
  destruct (consumed_Good e len st s1 r s2 HG1 Hw1 ltac:(lia) Hst Hr) as (HG4&F4&Eb4&Ew4&Es4&Ec4).
  set (s4 := AddBytesSent _ _ _ _) in *. clearbody s4.
  destruct (write_side_closed (stream_ s4)) eqn:Ew4c; [unfold after_write; by rewrite Ew4c|].
  apply (after_write_Good e len fin _ r s4 (written s1) st HG4 Ew4c).
  intros [-> Hr1]%andb_true_iff. destruct (Hst (Hst' eq_refl)) as [Hb Hall]. destruct (wr_fin _ _ _ _ _ _ _ Hr Hr1) as [En _].
  rewrite Eb4, Ew4, Es4, En. split; [done|]. split; [lia|]. exists len. rewrite Ec4. apply (wr_calls _ _ _ _ _ _ _ Hr). right. by rewrite En, Hr1.
Qed.

(** ** Saving data *)

(** More of the stream is saved, and perhaps its end. *)
Lemma saved_Good s b fin :
  Good s → write_side_closed (stream_ s) = false → fin_buffered (stream_ s) = false → sends (written s) b →
  StreamSendBuffer.stream_bytes_written b = written s → StreamSendBuffer.stream_offset b < two64 →
  Good (upd (set_fin_buffered fin) (upd (set_send_buffer b) s)).
Proof.
  intros [HS HD] Hw Hf Hb Ew Eo. pose proof HD as (_&[Hs _]&_).
  assert (Hns : fin_sent (stream_ s) = false) by (destruct (fin_sent (stream_ s)); [rewrite Hs in Hw by done|]; done).
  destruct HS as [H1 H2 H3 H4 H5 H6 H7 H8 H9 H10 H11]. split.
  - unfold stream_bytes_written in *.
    split; unfold stream_bytes_written; cbn; rewrite ?Ew; try done; try congruence.
    + intros Ht. destruct (H8 Ht) as (_&_&?). congruence.
    + intros off len st n Hi. destruct (H10 _ _ _ _ Hi). congruence.
  - by apply (write_open_Sides s).
Qed.
Lemma set_fin_same s : fin_buffered (stream_ s) = false → upd (set_fin_buffered false) s = s.
Proof. destruct s as [[] ? ? ? ?]. cbn. by intros ->. Qed.

(** The data of a write is what comes next in the stream. *)
Definition comes_next (s : io) (d : list Z) : Prop := d = slice data (saved s) (zlen d) ∧ saved s + zlen d < two64.

Lemma save_sends nw b mx iov :
  sends nw b → 0 < mx → concat iov = slice data (StreamSendBuffer.stream_offset b) (zlen (concat iov)) →
  let b' := StreamSendBuffer.SaveStreamData mx b iov 0 (zlen (concat iov)) in
  sends nw b' ∧ StreamSendBuffer.stream_offset b' = StreamSendBuffer.stream_offset b + zlen (concat iov)
  ∧ StreamSendBuffer.stream_bytes_written b' = StreamSendBuffer.stream_bytes_written b.
Proof.
  intros Hb Hm Hd. pose proof (zlen_nonneg (concat iov)). cbv zeta.
  assert (Ht : take (Z.to_nat (zlen (concat iov))) (drop (Z.to_nat 0) (concat iov)) = slice data (StreamSendBuffer.stream_offset b) (zlen (concat iov))).
  { change (Z.to_nat 0) with 0%nat. rewrite drop_0. rewrite take_ge by (unfold zlen; lia). done. }
  split; [by apply StreamSendBuffer.s_save|]. pose proof (StreamSendBuffer.sends_inv data _ _ Hb) as [gs HI]. unfold StreamSendBuffer.SaveStreamData.
  by destruct (StreamSendBuffer.SaveStreamData_loop_inv data (Z.to_nat (zlen (concat iov))) mx nw gs b (concat iov) 0 (zlen (concat iov)) HI Hm ltac:(lia) ltac:(lia) Ht).
Qed.

Lemma span_sends nw span : ∀ b,
  sends nw b → concat span = slice data (StreamSendBuffer.stream_offset b) (zlen (concat span)) →
  let b' := fold_left StreamSendBuffer.SaveMemSlice span b in
  sends nw b' ∧ StreamSendBuffer.stream_offset b' = StreamSendBuffer.stream_offset b + zlen (concat span)
  ∧ StreamSendBuffer.stream_bytes_written b' = StreamSendBuffer.stream_bytes_written b.
Proof.
  induction span as [|d span IH]; intros b Hb Hd; cbn [fold_left concat] in *.
  { rewrite (@zlen_nil Z), Z.add_0_r. done. }
  rewrite zlen_app in *. pose proof (zlen_nonneg d). pose proof (zlen_nonneg (concat span)).
  rewrite <-slice_split in Hd by lia. apply app_inj_1 in Hd as [Hd1 Hd2].
  2: { pose proof (slice_length data (StreamSendBuffer.stream_offset b) (zlen d) ltac:(lia)) as Hl. unfold zlen in *. lia. }
  assert (H1 : sends nw (StreamSendBuffer.SaveMemSlice b d)
    ∧ StreamSendBuffer.stream_offset (StreamSendBuffer.SaveMemSlice b d) = StreamSendBuffer.stream_offset b + zlen d
    ∧ StreamSendBuffer.stream_bytes_written (StreamSendBuffer.SaveMemSlice b d) = StreamSendBuffer.stream_bytes_written b).
  { destruct (decide (d = [])) as [->|Hne]; [cbn [StreamSendBuffer.SaveMemSlice]; rewrite (@zlen_nil Z), Z.add_0_r; done|].
    assert (0 < zlen d) by (destruct d; [done|]; rewrite zlen_cons; pose proof (zlen_nonneg d); lia).
    pose proof (StreamSendBuffer.sends_inv data _ _ Hb) as [gs HI].
    destruct (StreamSendBuffer.SaveMemSlice_inv data nw gs b (zlen d) HI) as (_&E1&E2); [done|].
    pose proof (StreamSendBuffer.s_slice data nw b (zlen d) Hb ltac:(done)) as E0. rewrite <-Hd1 in E0, E1, E2. by split_and!. }
  destruct H1 as (K1&K2&K3). destruct (IH (StreamSendBuffer.SaveMemSlice b d) K1) as (G1&G2&G3); [by rewrite K2|].
  split; [done|]. split; [rewrite G2, K2; lia|by rewrite G3].
Qed.

Lemma write_if_new_Good e had s : Good s → write_side_closed (stream_ s) = false → Good (write_if_new c e session_writes should_yield had s).
Proof. intros HG Hw. unfold write_if_new. destruct (_ && _); [by apply WriteBufferedData_Good|done]. Qed.
Lemma refuse_write_Good e s : Good s → Good (refuse_write c e s).
Proof. intros HG. unfold refuse_write. case_bool_decide; [by apply CloseConnection_Good|done]. Qed.

Lemma WriteOrBufferData_Good e d fin s :
  0 < max_data_slice_size c → Good s → comes_next s d → Good (WriteOrBufferData c e session_writes should_yield d fin s).
Proof.
  intros Hm HG [Hd Hsz]. unfold WriteOrBufferData. destruct (_ && _); [done|]. destruct (fin_buffered (stream_ s)) eqn:Ef; [done|].
  destruct (write_side_closed (stream_ s)) eqn:Hw; [by apply refuse_write_Good|]. cbv zeta.
  assert (HG0 : Good (upd (set_fin_buffered fin) s)).
  { pose proof (saved_Good s (buffer s) fin HG Hw Ef (snd_buffer _ (proj1 HG)) eq_refl (snd_size _ (proj1 HG))) as H.
    destruct s as [[] ? ? ? ?]. exact H. }
  destruct (0 <? zlen d) eqn:Ep; [|by apply write_if_new_Good]. destruct (negb _); [by apply CloseConnection_Good|].
  apply write_if_new_Good; [|done]. unfold save.
  destruct (save_sends (written s) (buffer s) (max_data_slice_size c) [d] (snd_buffer _ (proj1 HG)) Hm) as (H1&H2&H3).
  { cbn [concat]. rewrite app_nil_r. done. }
  apply (saved_Good s _ fin HG Hw Ef H1 H3). rewrite H2. cbn [concat]. by rewrite app_nil_r.
Qed.

Lemma WritevData_Good e iov fin s :
  0 < max_data_slice_size c → Good s → comes_next s (concat iov) → Good (WritevData c e session_writes should_yield iov fin s).2.
Proof.
  intros Hm HG [Hd Hsz]. unfold WritevData. destruct (write_side_closed (stream_ s)) eqn:Hw; [by apply refuse_write_Good|].
  destruct (fin_buffered (stream_ s)) eqn:Ef; [done|]. destruct (negb _); [by apply CloseConnection_Good|]. cbv zeta.
  assert (H0 : ∀ f, Good (upd (set_fin_buffered f) s)).
  { intros f. pose proof (saved_Good s (buffer s) f HG Hw Ef (snd_buffer _ (proj1 HG)) eq_refl (snd_size _ (proj1 HG))) as H.
    destruct s as [[] ? ? ? ?]. exact H. }
  destruct (CanWriteNewData c (stream_ s)); [|cbn [snd]; by apply write_if_new_Good].
  destruct (0 <? _); cbn [snd]; [|by apply write_if_new_Good].
  apply write_if_new_Good; [|done]. unfold save.
  destruct (save_sends (written s) (buffer s) (max_data_slice_size c) iov (snd_buffer _ (proj1 HG)) Hm Hd) as (H1&H2&H3).
  apply (saved_Good s _ _ HG Hw Ef H1 H3). by rewrite H2.
Qed.

Lemma WriteMemSlices_Good e span fin s :
  Good s → comes_next s (concat span) → Good (WriteMemSlices c e session_writes should_yield span fin s).2.
Proof.
  intros HG [Hd Hsz]. unfold WriteMemSlices. destruct (_ && _); [done|]. destruct (fin_buffered (stream_ s)) eqn:Ef; [done|].
  destruct (write_side_closed (stream_ s)) eqn:Hw; [by apply refuse_write_Good|]. cbv zeta.
  destruct (_ || _).
  - unfold StreamSendBuffer.SaveMemSliceSpan.
    destruct (span_sends (written s) span (buffer s) (snd_buffer _ (proj1 HG)) Hd) as (H1&H2&H3).
    set (b := fold_left _ span _) in *. assert (Hsv : ∀ f, Good (upd (set_fin_buffered f) (upd (set_send_buffer b) s))).
    { intros f. apply (saved_Good s b f HG Hw Ef H1 H3). by rewrite H2. }
    destruct (_ && _); cbn [snd].
    + apply CloseConnection_Good. rewrite <-(set_fin_same (upd (set_send_buffer b) s)); [apply Hsv|done].
    + apply write_if_new_Good; [apply Hsv|done].
  - cbn [snd]. apply write_if_new_Good; [|done]. by rewrite set_fin_same.
Qed.

(** ** Acknowledgements and losses *)

(** Less is outstanding. *)
Lemma settle_Good s s1 :
  Sides s → where_ s ≠ Closed → Sending s1 → shape s1 = shape s → calls s1 = calls s → written s1 = written s →
  fin_sent (stream_ s1) = fin_sent (stream_ s) →
  Good (if negb (IsWaitingForAcks (stream_ s1)) then OnStreamDoneWaitingForAcks s1 else s1).
Proof.
  intros (HC&[Hs1 Hs2]&Hd) Hw HS F Ec Ew Ef. unfold shape in F. injection F as F1 F2 F3 F4 F5 F6. unfold gone_down in Hd.
  destruct HC as [H1 H2 H3 H4 H5 H6 H7 H8]. destruct (IsWaitingForAcks (stream_ s1)) eqn:Ewait; cbn [negb].
  - split; [done|]. split; [split|split; [split|]]; unfold gone_down; rewrite ?Ew, ?Ef, ?Ec, ?F1, ?F2, ?F3, ?F5, ?F6; try done.
  - set (s2 := OnStreamDoneWaitingForAcks s1). assert (E2 : sending s2 = sending s1 ∧ calls s2 = calls s1 ++ [OnStreamDoneWaitingForAcks_]
      ∧ stream_ s2 = stream_ s1 ∧ connected s2 = connected s1 ∧ where_ s2 = if decide (where_ s = Open) then Open else Closed).
    { unfold s2, OnStreamDoneWaitingForAcks. cbn. rewrite F5. by destruct (where_ s). }
    clearbody s2. destruct E2 as (E2&Ec2&Es2&Ed2&Ep2).
    assert (Hin : ∀ e n, RstStreamFrame e n ∈ calls s2 ↔ RstStreamFrame e n ∈ calls s).
    { intros e n. rewrite Ec2, Ec, elem_of_app, list_elem_of_singleton. split; [by intros [|]|by left]. }
    split. { eapply calm_Sending; [exact HS|]. split; [done|]. exists [OnStreamDoneWaitingForAcks_]. split; [done|by repeat constructor]. }
    split; [split|split; [split|]]; unfold gone_down; rewrite ?Es2, ?Ew, ?Ef, ?F1, ?F2, ?F3, ?Ed2, ?F6; try done.
    + intros Hn. apply H1. intros Ho. by rewrite Ep2, Ho in Hn.
    + intros Ho. apply H2. rewrite Ep2 in Ho. by destruct (decide _).
    + intros Hn. apply H3. intros Ho. by rewrite Ep2, Ho in Hn.
    + setoid_rewrite Hin. done.
    + intros Hz. rewrite Ep2 in Hz. by destruct (decide _).
    + intros _ _. unfold IsWaitingForAcks in Ewait. apply andb_false_iff in Ewait as [Ewait|Ewait].
      * apply orb_false_iff in Ewait as [Ewait _]. rewrite F3 in Ewait. left. by apply negb_false_iff.
      * right. apply orb_false_iff in Ewait as [Ea Eo]. by apply negb_false_iff, Z.eqb_eq in Ea.
    + setoid_rewrite Hin. done.
    + intros Hst. rewrite Ep2, H8 by done. done.
    + setoid_rewrite Hin. done.
    + intros Hc. destruct (Hd Hc) as [|]; [by left|done].
Qed.

(** A step of the buffer that sends nothing. *)
Lemma buffer_Sending s b :
  Sending s → sends (written s) b → StreamSendBuffer.stream_bytes_written b = written s → StreamSendBuffer.stream_offset b = saved s →
  Sending (upd (set_send_buffer b) s).
Proof.
  intros [H1 H2 H3 H4 H5 H6 H7 H8 H9 H10 H11] Hb Ew Eo. unfold stream_bytes_written in *.
  split; unfold stream_bytes_written; cbn; rewrite ?Ew, ?Eo; done.
Qed.

Lemma OnStreamFrameAcked_Good e off len fin s :
  Good s → where_ s ≠ Closed → 0 <= off → 0 <= len → off + len <= written s → (fin = true → fin_sent (stream_ s) = true) →
  Good (OnStreamFrameAcked c e off len fin s).2.
Proof.
  intros [HS HD] Hw Ho Hl Hb Hf. unfold OnStreamFrameAcked. pose proof (snd_buffer _ HS) as Hbuf.
  pose proof (StreamSendBuffer.sends_inv data _ _ Hbuf) as [gs HI].
  destruct (StreamSendBuffer.OnStreamDataAcked_spec data _ gs _ off len HI Ho Hl Hb) as (b&n&E&_&_&_&_&Ewb&Eob).
  pose proof (StreamSendBuffer.s_acked data _ _ _ _ _ _ _ Hbuf Ho Hl Hb E) as Hbuf'. rewrite E. cbn [negb].
  assert (HS1 : Sending (upd (set_send_buffer b) s)) by by apply buffer_Sending.
  set (s1 := upd (set_send_buffer b) s) in *. assert (Ew1 : written s1 = written s) by done.
  assert (negb (fin_sent (stream_ s1)) && fin = false) as -> by (destruct fin; [cbn; by rewrite Hf|apply andb_false_r]).
  cbn [snd]. set (s2 := if fin then _ else s1).
  assert (H2 : Sending s2 ∧ shape s2 = shape s1 ∧ calls s2 = calls s1 ∧ written s2 = written s1 ∧ fin_sent (stream_ s2) = fin_sent (stream_ s1)).
  { unfold s2. destruct fin; [|done]. split; [|done]. destruct HS1 as [H1 H2 H3 H4 H5 H6 H7 H8 H9 H10 H11]. by split. }
  clearbody s2. destruct H2 as (HS2&F2&Ec2&Ew2&Ef2). apply (settle_Good s); [done|done|done|by rewrite F2|by rewrite Ec2|by rewrite Ew2|by rewrite Ef2].
Qed.

Lemma OnStreamFrameLost_Good off len fin s :
  Good s → 0 <= off → 0 <= len → off + len <= written s → Good (OnStreamFrameLost off len fin s).
Proof.
  intros [HS HD] Ho Hl Hb. unfold OnStreamFrameLost. set (s1 := if 0 <? len then _ else s).
  assert (H1 : Sending s1 ∧ steady s s1).
  { unfold s1. destruct (0 <? len); [|split; [done|by split; [|split; [|apply grows_refl]]]].
    pose proof (StreamSendBuffer.s_lost data _ _ off len (snd_buffer _ HS) Ho Hl Hb) as Hbuf. unfold set_write_state.
    assert (E : StreamSendBuffer.stream_bytes_written (StreamSendBuffer.OnStreamDataLost (buffer s) off len) = written s
      ∧ StreamSendBuffer.stream_offset (StreamSendBuffer.OnStreamDataLost (buffer s) off len) = saved s
      ∧ StreamSendBuffer.stream_bytes_outstanding (StreamSendBuffer.OnStreamDataLost (buffer s) off len) = StreamSendBuffer.stream_bytes_outstanding (buffer s)).
    { unfold StreamSendBuffer.OnStreamDataLost. destruct (len =? 0); [done|]. by destruct (IntervalSet.Empty _). }
    destruct E as (E1&E2&E3). split; [by apply (buffer_Sending s)|]. split; [|by split; [|apply grows_refl]].
    unfold account, stream_bytes_written in *. cbn. by rewrite E1, E3. }
  clearbody s1. destruct H1 as [HS1 Hst]. destruct (fin && fin_outstanding (stream_ s1)) eqn:Ef; [|by apply (steady_Good s)].
  apply andb_true_iff in Ef as [_ Ef]. apply (steady_Good s); [|done|].
  - destruct HS1 as [H1 H2 H3 H4 H5 H6 H7 H8 H9 H10 H11]. by split.
  - destruct Hst as (E&F&G). by split.
Qed.

Lemma OnStreamFrameRetransmitted_Good off len fin s : Good s → 0 <= len → Good (OnStreamFrameRetransmitted off len fin s).
Proof.
  intros [HS HD] Hl. unfold OnStreamFrameRetransmitted, set_write_state.
  pose proof (StreamSendBuffer.s_retransmitted data _ _ off len (snd_buffer _ HS) Hl) as Hbuf.
  set (b := StreamSendBuffer.OnStreamDataRetransmitted (buffer s) off len) in *.
  assert (E : StreamSendBuffer.stream_bytes_written b = written s ∧ StreamSendBuffer.stream_offset b = saved s
    ∧ StreamSendBuffer.stream_bytes_outstanding b = StreamSendBuffer.stream_bytes_outstanding (buffer s)).
  { unfold b, StreamSendBuffer.OnStreamDataRetransmitted. by destruct (len =? 0). }
  destruct E as (E1&E2&E3). assert (HS1 : Sending (upd (set_send_buffer b) s)) by by apply (buffer_Sending s).
  assert (Hst : steady s (upd (set_send_buffer b) s)).
  { split; [|by split; [|apply grows_refl]]. unfold account, stream_bytes_written in *. cbn. by rewrite E1, E3. }
  change (upd (λ st, set_send_buffer (StreamSendBuffer.OnStreamDataRetransmitted (send_buffer st) off len) st) s) with (upd (set_send_buffer b) s).
  destruct fin; [|by apply (steady_Good s)]. apply (steady_Good s); [|done|].
  - destruct HS1 as [H1 H2 H3 H4 H5 H6 H7 H8 H9 H10 H11]. by split.
  - destruct Hst as (E&F&G). by split.
Qed.

(** ** Sending again *)

(** A write of data that was sent before, or of the end alone; [again] is what such writes leave. *)
Definition again (s s' : io) : Prop :=
  Good s' ∧ written s' = written s ∧ saved s' = saved s
  ∧ StreamSendBuffer.bytes_acked (buffer s') = StreamSendBuffer.bytes_acked (buffer s)
  ∧ fin_outstanding (stream_ s') = fin_outstanding (stream_ s)
  ∧ (connected s' = true → connected s = true ∧ where_ s' = where_ s).
Lemma again_refl s : Good s → again s s.
Proof. by intros. Qed.
Lemma again_trans s1 s2 s3 : again s1 s2 → again s2 s3 → again s1 s3.
Proof.
  intros (A1&A2&A3&A4&A5&A6) (B1&B2&B3&B4&B5&B6). split; [done|]. split; [congruence|]. split; [congruence|]. split; [congruence|].
  split; [congruence|]. intros Hc. destruct (B6 Hc) as [Hc1 E1]. destruct (A6 Hc1). split; congruence.
Qed.

(** The end can be offered with what reaches it once it was sent. *)
Lemma end_is_known s : Sending s → fin_outstanding (stream_ s) = true → fin_buffered (stream_ s) = true ∧ written s = saved s.
Proof. intros HS Ho. destruct (snd_outstanding _ HS Ho) as [Ht Hf]. by destruct (snd_fin _ HS Hf). Qed.

Lemma write_again_spec e len off st s :
  Good s → 0 <= len → off + len <= written s → may_write (written s) (buffer s) off len →
  (connected s = true → where_ s ≠ Closed) → (st ≠ NO_FIN → fin_outstanding (stream_ s) = true ∧ off + len = written s) →
  let '(r, s') := WritevData_ c e session_writes len off st s in
  again s s' ∧ 0 <= bytes_consumed r <= len ∧ pending (buffer s') = pending (buffer s)
  ∧ fin_lost (stream_ s') = fin_lost (stream_ s)
  ∧ ∃ l, calls s' = calls s ++ l ∧ SendStreamData off len st (bytes_consumed r) (fin_was_consumed r) ∈ l.
Proof.
  intros [HS HD] Hl Hb Hm Hw Hst.
  pose proof (WritevData__spec e (written s) len off st s Hl (snd_buffer _ HS) (snd_packets _ HS) Hm Hw HD) as Hr.
  destruct (WritevData_ _ _ _ _ _ _ _) as [r s']. destruct Hr as [W1 W2 W3 W4 W5 W6 W7 W8 W11 W9 W10].
  unfold kept in W5. injection W5 as K1 K2 K3 K4 K5. unfold beside in W6. injection W6 as B1 B2 B3 B4 B5 B6 B7 B8.
  assert (Ew : written s' = written s) by (unfold stream_bytes_written; by rewrite K2).
  rewrite Z.max_l in W3, W4 by lia.
  assert (HS' : Sending s').
  { pose proof HS as [H1 H2 H3 H4 H5 H6 H7 H8 H9 H10 H11].
    split; rewrite ?Ew, ?K1, ?B1, ?B2, ?B3, ?B4, ?B5, ?B6, ?B7, ?B8; try done.
    - intros o l t m Hi. apply W8 in Hi as [Hi|(->&->&->&->&Hf)]; [by eapply H10|]. symmetry in Hf. destruct (W2 Hf) as [-> Hne].
      destruct (Hst Hne) as [Ho Hall]. destruct (end_is_known s HS Ho) as [Hfb Hws]. split; [done|]. lia.
    - intros Hf Ht. destruct (H11 Hf Ht) as (o&l&t&m&Hi). exists o, l, t, m. apply W8. by left. }
  split; [|split; [done|split; [done|split; [done|done]]]].
  split; [done|]. split; [done|]. split; [done|]. split; [done|]. split; [done|]. intros Hc. destruct W9 as [F|F]; [|congruence].
  unfold shape in F. injection F as F1 F2 F3 F4 F5 F6. split; congruence.
Qed.

Lemma retransmitted_again off len fin s : Good s → 0 <= len → again s (OnStreamFrameRetransmitted off len fin s).
Proof.
  intros HG Hl. pose proof (OnStreamFrameRetransmitted_Good off len fin s HG Hl) as HG'. split; [done|].
  unfold OnStreamFrameRetransmitted, set_write_state, StreamSendBuffer.OnStreamDataRetransmitted, stream_bytes_written.
  destruct fin; cbn; by destruct (len =? 0).
Qed.

(** The end can be offered alone: a write of no data. *)
Lemma may_write_end s : Sending s → may_write (written s) (buffer s) (written s) 0.
Proof. intros HS. apply may_write_new; [done|]. pose proof (sending_bounds s HS). lia. Qed.
Lemma fin_lost_again v s : Good s → (v = true → fin_lost (stream_ s) = true) → again s (upd (set_fin_lost v) s).
Proof.
  intros [HS HD] Hv. split; [|done]. apply (steady_Good s); [|done|by split; [|split; [|apply grows_refl]]].
  destruct HS as [H1 H2 H3 H4 H5 H6 H7 H8 H9 H10 H11]. split; try done. intros Hl. apply H5. by apply Hv.
Qed.

Lemma write_pending_again e fuel : ∀ s,
  Good s → (connected s = true → where_ s ≠ Closed) → again s (write_pending c e session_writes fuel s).2.
Proof.
  induction fuel as [|fuel IH]; intros s HG Hw; cbn [write_pending].
  { destruct (negb _); by apply again_refl. }
  destruct (HasPendingRetransmission (stream_ s)) eqn:Ep; cbn [negb]; [|by apply again_refl].
  destruct (StreamSendBuffer.HasPendingRetransmission (buffer s)) eqn:Epb; cbn [negb].
  - pose proof (StreamSendBuffer.sends_inv data _ _ (snd_buffer _ (proj1 HG))) as [gs HI].
    pose proof (StreamSendBuffer.NextPendingRetransmission_spec data _ _ _ HI) as Hn. rewrite Epb in Hn.
    destruct (StreamSendBuffer.NextPendingRetransmission (buffer s)) as [off len]. destruct Hn as ((N1&N2&N3&N4&N5)&Hin&_).
    assert (Hle : off + len <= written s).
    { destruct (StreamSendBuffer.inv_pending _ _ _ _ HI (off + len - 1)) as [? _]; [apply Hin; lia|]. unfold stream_bytes_written. lia. }
    set (bundle := fin_lost (stream_ s) && _).
    assert (Hst : (if bundle then FIN else NO_FIN) ≠ NO_FIN → fin_outstanding (stream_ s) = true ∧ off + len = written s).
    { unfold bundle. destruct (fin_lost (stream_ s)) eqn:El; [|done]. destruct (Z.eqb_spec (off + len) (written s)); [|done].
      intros _. split; [by apply (snd_lost _ (proj1 HG))|done]. }
    pose proof (write_again_spec e len off _ s HG ltac:(lia) Hle ltac:(by split_and!) Hw Hst) as Hr.
    destruct (WritevData_ _ _ _ _ _ _ _) as [r s1]. destruct Hr as (HA1&Hc1&_&_&_).
    pose proof (retransmitted_again off (bytes_consumed r) (fin_was_consumed r) s1 (proj1 HA1) ltac:(lia)) as HA2.
    set (s2 := OnStreamFrameRetransmitted _ _ _ s1) in *. clearbody s2. pose proof (again_trans _ _ _ HA1 HA2) as HA.
    destruct (_ || _); [done|]. eapply again_trans; [exact HA|]. apply IH; [apply HA|].
    destruct HA as (_&_&_&_&_&Hcc). intros Hc. destruct (Hcc Hc) as [Hc0 ->]. by apply Hw.
  - assert (Hlost : fin_lost (stream_ s) = true) by (unfold HasPendingRetransmission in Ep; rewrite Epb in Ep; done).
    pose proof (write_again_spec e 0 (written s) FIN s HG ltac:(lia) ltac:(lia) (may_write_end s (proj1 HG)) Hw) as Hr.
    destruct (WritevData_ _ _ _ _ _ _ _) as [r s1].
    destruct Hr as (HA1&_&_&Hl1&_). { intros _. split; [by apply (snd_lost _ (proj1 HG))|lia]. }
    assert (HA2 : again s1 (upd (set_fin_lost (negb (fin_was_consumed r))) s1)) by (apply fin_lost_again; [apply HA1|congruence]).
    set (s2 := upd _ s1) in *. pose proof (again_trans _ _ _ HA1 HA2) as HA. clearbody s2. destruct (fin_lost (stream_ s2)); [done|].
    eapply again_trans; [exact HA|]. apply IH; [apply HA|].
    destruct HA as (_&_&_&_&_&Hcc). intros Hc. destruct (Hcc Hc) as [Hc0 ->]. by apply Hw.
Qed.
Lemma WritePendingRetransmission_Good e s :
  Good s → (connected s = true → where_ s ≠ Closed) → Good (WritePendingRetransmission c e session_writes s).
Proof. intros HG Hw. by apply write_pending_again. Qed.

(** Ranges that were sent and are not acknowledged. *)
Definition resendable (s : io) (i : interval) : Prop :=
  0 <= imin i <= imax i ∧ imax i <= written s ∧ ∀ z, imin i <= z < imax i → ¬ acked (buffer s) z.
Lemma again_resendable s s' i : again s s' → resendable s i → resendable s' i.
Proof. intros (_&Ew&_&Ea&_) (H1&H2&H3). split; [done|]. rewrite Ew, Ea. done. Qed.

Lemma retransmit_ranges_again e ranges : ∀ fin s,
  Good s → (connected s = true → where_ s ≠ Closed) → Forall (resendable s) ranges → (fin = true → fin_outstanding (stream_ s) = true) →
  let '(fin', s') := retransmit_ranges c e session_writes ranges fin s in
  again s s' ∧ (fin' = Some true → fin = true).
Proof.
  induction ranges as [|i ranges IH]; intros fin s HG Hw Hr Hf; cbn [retransmit_ranges].
  { split; [by apply again_refl|congruence]. }
  inversion Hr as [|? ? (R1&R2&R3) Hr']; subst.
  set (bundle := fin && _).
  assert (Hst : (if bundle then FIN else NO_FIN) ≠ NO_FIN → fin_outstanding (stream_ s) = true ∧ imin i + (imax i - imin i) = written s).
  { unfold bundle. destruct fin; [|done]. destruct (Z.eqb_spec (imin i + (imax i - imin i)) (written s)); [|done]. intros _. split; [by apply Hf|done]. }
  assert (Hm : may_write (written s) (buffer s) (imin i) (imax i - imin i)).
  { pose proof (sending_bounds s (proj1 HG)). split; [lia|]. split; [lia|]. split; [lia|]. intros z Hz. apply R3. lia. }
  pose proof (write_again_spec e (imax i - imin i) (imin i) _ s HG ltac:(lia) ltac:(lia) Hm Hw Hst) as Hwr.
  destruct (WritevData_ _ _ _ _ _ _ _) as [r s1]. destruct Hwr as (HA1&Hc1&_&_&_).
  pose proof (retransmitted_again (imin i) (bytes_consumed r) (fin_was_consumed r) s1 (proj1 HA1) ltac:(lia)) as HA2.
  set (s2 := OnStreamFrameRetransmitted _ _ _ s1) in *. clearbody s2. pose proof (again_trans _ _ _ HA1 HA2) as HA.
  set (fin2 := if bundle then _ else fin). assert (Hf2 : fin2 = true → fin = true).
  { unfold fin2, bundle. destruct fin; [done|]. done. }
  destruct (_ || _); [split; [done|congruence]|].
  specialize (IH fin2 s2 (proj1 HA)). destruct (retransmit_ranges c e session_writes ranges fin2 s2) as [fin' s3].
  pose proof HA as (_&_&_&_&Eo&Hcc). destruct IH as [HB Hf3].
  - intros Hc. destruct (Hcc Hc) as [Hc0 ->]. by apply Hw.
  - eapply Forall_impl; [exact Hr'|]. intros j. by apply again_resendable.
  - intros Ht. rewrite Eo. auto.
  - split; [by eapply again_trans|auto].
Qed.

Lemma RetransmitStreamData_Good e off len fin s :
  Good s → (connected s = true → where_ s ≠ Closed) → 0 <= off → 0 <= len → off + len <= written s →
  Good (RetransmitStreamData c e session_writes off len fin s).2.
Proof.
  intros HG Hw Ho Hl Hb. unfold RetransmitStreamData. destruct (HasDeadlinePassed e (stream_ s)); [by apply Reset_Good|].
  set (ranges := default [] _). set (rfin := fin && _). destruct (IntervalSet.Empty ranges && negb rfin); [done|].
  assert (Hr : Forall (resendable s) ranges).
  { pose proof (StreamSendBuffer.sends_inv data _ _ (snd_buffer _ (proj1 HG))) as [gs HI].
    destruct (IntervalSet.of_interval_lemma (Interval.mk off (off + len))) as [Hv Hd].
    destruct (IntervalSet.DifferenceS_lemma (IntervalSet.of_interval (Interval.mk off (off + len))) (StreamSendBuffer.bytes_acked (buffer s)))
      as (d&E&Hvd&Hdd); [done|apply HI|]. unfold ranges. rewrite E. cbn [default]. apply Forall_forall. intros i Hi.
    pose proof (IntervalSet.valid_nonempty _ i Hvd Hi) as Hne.
    assert (Hin : ∀ z, imin i <= z < imax i → off <= z < off + len ∧ ¬ acked (buffer s) z).
    { intros z Hz. assert (IntervalSet.den d z) as Hdz by (apply IntervalSet.den_elem; exists i; split; [done|unfold Interval.den; lia]).
      apply Hdd in Hdz as [Hdz Hn]. split; [|done]. apply Hd in Hdz. unfold Interval.den in Hdz. cbn in Hdz. lia. }
    pose proof (Hin (imin i) ltac:(lia)). pose proof (Hin (imax i - 1) ltac:(lia)). unfold id.
    split; [lia|]. split; [lia|]. intros z Hz. by apply Hin. }
  pose proof (retransmit_ranges_again e ranges rfin s HG Hw Hr) as Hs.
  destruct (retransmit_ranges c e session_writes ranges rfin s) as [fin' s1]. destruct Hs as [HA Hf'].
  { unfold rfin. by intros [_ ?]%andb_true_iff. }
  destruct fin' as [[]|]; [|apply HA|apply HA]. pose proof HA as (HG1&Ew1&_&_&Eo1&Hcc).
  pose proof (write_again_spec e 0 (written s1) FIN s1 HG1 ltac:(lia) ltac:(lia) (may_write_end s1 (proj1 HG1))) as Hr1.
  destruct (WritevData_ _ _ _ _ _ _ _) as [r s2]. apply Hr1.
  - intros Hc. destruct (Hcc Hc) as [Hc0 ->]. by apply Hw.
  - intros _. split; [|lia]. rewrite Eo1. specialize (Hf' eq_refl). unfold rfin in Hf'. by apply andb_true_iff in Hf' as [_ ?].
Qed.

Lemma OnCanWrite_Good e s : Good s → (connected s = true → where_ s ≠ Closed) → Good (OnCanWrite c e session_writes should_yield s).
Proof.
  intros HG Hw. unfold OnCanWrite. destruct (HasDeadlinePassed e (stream_ s)); [by apply Reset_Good|].
  destruct (HasPendingRetransmission (stream_ s)); [by apply WritePendingRetransmission_Good|].
  destruct (write_side_closed (stream_ s)) eqn:Ew; [done|]. set (s1 := if _ || _ then _ else s).
  assert (HG1 : Good s1) by (unfold s1; destruct (_ || _); [by apply WriteBufferedData_Good|done]).
  clearbody s1. destruct (_ && _); [by apply log_Good|done].
Qed.

(** ** Progress *)

Definition offers_end (st : StreamSendingState) : bool := match st with NO_FIN => false | _ => true end.
(** A session that takes all it is offered while the connection is up. *)
Definition takes_all : Prop :=
  ∀ s len off st, 0 <= len → connected s = true → let a := session_writes s len off st in
  total (packets a) = len ∧ fin_consumed a = offers_end st ∧ closes a = None.
(** An offset was in a write that the session took. *)
Definition taken (l : list call) (z : Z) : Prop :=
  ∃ off len st n f, SendStreamData off len st n f ∈ l ∧ off <= z < off + n.
Definition end_taken (l : list call) : Prop := ∃ off len st n, SendStreamData off len st n true ∈ l.

Lemma write_packets_connected lens : ∀ off s, connected (write_packets lens off s) = connected s.
Proof.
  induction lens as [|n lens IH]; intros off s; cbn [write_packets]; [done|]. rewrite IH. unfold write_packet.
  case_bool_decide; [done|]. by destruct (StreamSendBuffer.WriteStreamData _ _ _ _) as [[? ?] ?].
Qed.
Lemma takes_all_spec e len off st s :
  takes_all → 0 <= len → connected s = true →
  let '(r, s') := WritevData_ c e session_writes len off st s in
  r = mk_consumed len (offers_end st) ∧ connected s' = true.
Proof.
  intros Ht Hl Hc. unfold WritevData_. destruct (Ht s len off st Hl Hc) as (->&->&->). split; [done|]. cbn. by rewrite write_packets_connected.
Qed.

Lemma lost_after off n fin s : fin_lost (stream_ (OnStreamFrameRetransmitted off n fin s)) = if fin then false else fin_lost (stream_ s).
Proof. by destruct fin. Qed.
Lemma after_first off n fin s i pend :
  Sending s → pending (buffer s) = i :: pend → off = imin i → n = imax i - imin i →
  pending (buffer (OnStreamFrameRetransmitted off n fin s)) = pend.
Proof.
  intros HS Ep -> ->. pose proof (StreamSendBuffer.sends_inv data _ _ (snd_buffer _ HS)) as [gs HI].
  pose proof (StreamSendBuffer.retransmitted_first data _ _ _ i pend HI Ep) as H. by destruct fin.
Qed.

Definition to_send_again (s : io) : nat := length (pending (buffer s)) + (if fin_lost (stream_ s) then 1 else 0).
(** What is left of a round: nothing that was waiting. *)
Definition all_sent_again (s s' : io) : Prop :=
  HasPendingRetransmission (stream_ s') = false ∧ connected s' = true
  ∧ ∃ l, calls s' = calls s ++ l ∧ (∀ z, IntervalSet.den (pending (buffer s)) z → taken l z) ∧ (fin_lost (stream_ s) = true → end_taken l).

(** A round that sent the first range, and the end if [f], and what the rest of the loop sends. *)
Lemma all_sent_first s s1 s' i pend off len st n (f : bool) :
  pending (buffer s) = i :: pend → pending (buffer s1) = pend → off = imin i → n = imax i - imin i →
  fin_lost (stream_ s1) = (if f then false else fin_lost (stream_ s)) →
  (∃ l, calls s1 = calls s ++ l ∧ SendStreamData off len st n f ∈ l) →
  all_sent_again s1 s' → all_sent_again s s'.
Proof.
  intros Ep Ep1 -> -> Ef (l&El&Hi) (H1&Hc&k&Ek&Hk1&Hk2). split; [done|]. split; [done|]. exists (l ++ k). split; [by rewrite Ek, El, app_assoc|].
  unfold taken, end_taken. setoid_rewrite elem_of_app. split.
  - intros z. rewrite Ep, IntervalSet.den_cons. intros [Hz|Hz].
    + unfold Interval.den in Hz. do 5 eexists. split; [by left|]. lia.
    + rewrite <-Ep1 in Hz. destruct (Hk1 z Hz) as (a1&a2&a3&a4&a5&Hin&Hr). do 5 eexists. split; [by right|done].
  - intros Hl. destruct f; [by do 4 eexists; left|]. rewrite <-Ef in Hl. destruct (Hk2 Hl) as (a1&a2&a3&a4&Hin). do 4 eexists. by right.
Qed.

(** The fuel is enough; and all goes out when the session takes it. *)
Lemma write_pending_ends e fuel : ∀ s,
  Good s → (connected s = true → where_ s ≠ Closed) → (to_send_again s <= fuel)%nat →
  let '(ended, s') := write_pending c e session_writes fuel s in
  ended = true ∧ (takes_all → connected s = true → all_sent_again s s').
Proof.
  induction fuel as [|fuel IH]; intros s HG Hw Hfuel; cbn [write_pending];
    (destruct (HasPendingRetransmission (stream_ s)) eqn:Ep; cbn [negb];
     [|split; [done|]; intros _ Hc; split; [done|]; split; [done|]; exists []; rewrite app_nil_r; split; [done|];
       unfold HasPendingRetransmission, StreamSendBuffer.HasPendingRetransmission in Ep; apply orb_false_iff in Ep as [Ep El];
       split; [intros z Hz; destruct (pending (buffer s)); [by apply IntervalSet.den_nil in Hz|done]|congruence]]).
  { exfalso. unfold HasPendingRetransmission, StreamSendBuffer.HasPendingRetransmission, to_send_again in *.
    destruct (pending (buffer s)); cbn in *; [|lia]. rewrite Ep in Hfuel. lia. }
  destruct (StreamSendBuffer.HasPendingRetransmission (buffer s)) eqn:Epb; cbn [negb].
  - pose proof (StreamSendBuffer.sends_inv data _ _ (snd_buffer _ (proj1 HG))) as [gs HI].
    pose proof (StreamSendBuffer.NextPendingRetransmission_spec data _ _ _ HI) as Hn. rewrite Epb in Hn.
    assert (Hp : ∃ i pend, pending (buffer s) = i :: pend) by (unfold StreamSendBuffer.HasPendingRetransmission in Epb; destruct (pending (buffer s)); [done|eauto]).
    destruct Hp as (i&pend&Epend).
    assert (Enext : StreamSendBuffer.NextPendingRetransmission (buffer s) = (imin i, imax i - imin i)) by (unfold StreamSendBuffer.NextPendingRetransmission; by rewrite Epend).
    rewrite Enext in *. set (len := imax i - imin i) in *. set (off := imin i) in *. destruct Hn as ((N1&N2&N3&N4&N5)&Hin&_).
    assert (Hle : off + len <= written s).
    { destruct (StreamSendBuffer.inv_pending _ _ _ _ HI (off + len - 1)) as [? _]; [apply Hin; lia|]. unfold stream_bytes_written. lia. }
    set (bundle := fin_lost (stream_ s) && _). set (st := if bundle then FIN else NO_FIN).
    assert (Hst : st ≠ NO_FIN → fin_outstanding (stream_ s) = true ∧ off + len = written s).
    { unfold st, bundle. destruct (fin_lost (stream_ s)) eqn:El; [|done]. destruct (Z.eqb_spec (off + len) (written s)); [|done].
      intros _. split; [by apply (snd_lost _ (proj1 HG))|done]. }
    assert (Est : offers_end st = bundle) by (unfold st; by destruct bundle).
    pose proof (write_again_spec e len off st s HG ltac:(lia) Hle ltac:(by split_and!) Hw Hst) as Hr.
    pose proof (takes_all_spec e len off st s) as Hall.
    destruct (WritevData_ _ _ _ _ _ _ _) as [r s1]. destruct Hr as (HA1&Hc1&Ep1&Ef1&Hg1).
    pose proof (retransmitted_again off (bytes_consumed r) (fin_was_consumed r) s1 (proj1 HA1) ltac:(lia)) as HA2.
    pose proof (lost_after off (bytes_consumed r) (fin_was_consumed r) s1) as Ef2. rewrite Ef1 in Ef2.
    pose proof (λ E1 : bytes_consumed r = len, after_first off (bytes_consumed r) (fin_was_consumed r) s1 i pend (proj1 (proj1 HA1)) (eq_trans Ep1 Epend) eq_refl E1) as Hfirst.
    assert (Ec2 : calls (OnStreamFrameRetransmitted off (bytes_consumed r) (fin_was_consumed r) s1) = calls s1
      ∧ connected (OnStreamFrameRetransmitted off (bytes_consumed r) (fin_was_consumed r) s1) = connected s1)
      by (by destruct (fin_was_consumed r)). destruct Ec2 as [Ec2 Ecc2].
    set (s2 := OnStreamFrameRetransmitted _ _ _ s1) in *. clearbody s2. pose proof (again_trans _ _ _ HA1 HA2) as HA.
    destruct ((bytes_consumed r <? len) || _) eqn:Estop.
    { split; [done|]. intros Ht Hc. destruct (Hall Ht ltac:(lia) Hc) as [-> _]. cbn in Estop. rewrite Z.ltb_irrefl, Est in Estop. by destruct bundle. }
    apply orb_false_iff in Estop as [Elen _]. apply Z.ltb_ge in Elen. assert (En : bytes_consumed r = len) by lia.
    specialize (Hfirst En). specialize (IH s2 (proj1 HA)).
    destruct (write_pending c e session_writes fuel s2) as [ended s3]. destruct IH as [He Hrest].
    + destruct HA as (_&_&_&_&_&Hcc). intros Hc. destruct (Hcc Hc) as [Hc0 ->]. by apply Hw.
    + unfold to_send_again in *. rewrite Hfirst, Ef2. rewrite Epend in Hfuel. cbn in Hfuel. destruct (fin_was_consumed r), (fin_lost (stream_ s)); lia.
    + split; [done|]. intros Ht Hc. destruct (Hall Ht ltac:(lia) Hc) as [_ Hc1']. rewrite <-Ec2 in Hg1.
      eapply (all_sent_first s s2 s3 i pend off len st (bytes_consumed r) (fin_was_consumed r)); try done. apply Hrest; [done|congruence].
  - assert (Hlost : fin_lost (stream_ s) = true) by (unfold HasPendingRetransmission in Ep; rewrite Epb in Ep; done).
    assert (Epend : pending (buffer s) = []) by (unfold StreamSendBuffer.HasPendingRetransmission in Epb; by destruct (pending (buffer s))).
    pose proof (write_again_spec e 0 (written s) FIN s HG ltac:(lia) ltac:(lia) (may_write_end s (proj1 HG)) Hw) as Hr.
    pose proof (takes_all_spec e 0 (written s) FIN s) as Hall.
    destruct (WritevData_ _ _ _ _ _ _ _) as [r s1].
    destruct Hr as (HA1&_&Ep1&Hl1&(l&El&Hi)). { intros _. split; [by apply (snd_lost _ (proj1 HG))|lia]. }
    cbn [upd stream_ fin_lost set_fin_lost]. destruct (fin_was_consumed r) eqn:Er; cbn [negb].
    + set (s2 := upd (set_fin_lost false) s1).
      assert (Edone : HasPendingRetransmission (stream_ s2) = false).
      { unfold HasPendingRetransmission, StreamSendBuffer.HasPendingRetransmission, s2. cbn. by rewrite Ep1, Epend. }
      assert (Estop : write_pending c e session_writes fuel s2 = (true, s2)) by (destruct fuel; cbn [write_pending]; by rewrite Edone).
      rewrite Estop. split; [done|]. intros Ht Hc. destruct (Hall Ht ltac:(lia) Hc) as [_ Hc1]. split; [done|]. split; [done|]. exists l. split; [done|].
      rewrite Epend. split; [intros z Hz; by apply IntervalSet.den_nil in Hz|]. intros _. by do 4 eexists.
    + split; [done|]. intros Ht Hc. destruct (Hall Ht ltac:(lia) Hc) as [-> _]. done.
Qed.

Lemma calm_account s s' : calm s s' → written s' = written s ∧ saved s' = saved s ∧ fin_sent (stream_ s') = fin_sent (stream_ s).
Proof. intros [E _]. apply sending_eq in E as ((Eb&_&Ef)&_). unfold stream_bytes_written. by rewrite Eb, Ef. Qed.

Lemma after_write_account e len fin zero r s :
  Core s → write_side_closed (stream_ s) = false →
  let s' := after_write c e len fin zero r s in
  written s' = written s ∧ saved s' = saved s
  ∧ (fin = true → fin_was_consumed r = true → bytes_consumed r = len → fin_sent (stream_ s') = true).
Proof.
  intros HC Hw. unfold after_write. rewrite Hw. set (s1 := if bytes_consumed r =? len then _ else _).
  assert (H1 : written s1 = written s ∧ saved s1 = saved s
    ∧ (fin = true → fin_was_consumed r = true → bytes_consumed r = len → fin_sent (stream_ s1) = true)).
  { unfold s1. destruct (Z.eqb_spec (bytes_consumed r) len) as [El|]; [|done]. set (s0 := if negb zero then _ else s).
    assert (H0 : still s s0) by (unfold s0; destruct zero; cbn [negb]; [apply still_refl|apply MaybeSendBlocked_still]).
    destruct (calm_account _ _ (still_calm _ _ H0)) as (E1&E2&_). pose proof (still_Core _ _ HC H0) as HC0.
    destruct H0 as (_&F&_). unfold shape in F. injection F as _ F2 _ _ F5 _. clearbody s0.
    destruct (fin && fin_was_consumed r) eqn:Ef.
    - set (s2 := upd (set_fin_outstanding true) _). set (s3 := if fin_received (stream_ s2) then _ else s2).
      assert (HC2 : Core s2).
      { rewrite Hw in F2. pose proof (Core_open_wc s0 HC0 (or_introl F2)) as Ho. destruct HC0 as [K1 K2 K3 K4 K5 K6 K7 K8]. split; try done; cbn; congruence. }
      assert (H3 : still s2 s3) by (unfold s3; destruct (fin_received (stream_ s2)); [by apply still_log|apply still_refl]).
      destruct (CloseWriteSide_spec e s3 (still_Core _ _ HC2 H3)) as ((_&Hm&_)&_).
      destruct (calm_account _ _ (stream_calm_trans _ _ _ (still_calm _ _ H3) Hm)) as (G1&G2&G3). cbv zeta. rewrite G1, G2, G3. done.
    - destruct (fin && negb (fin_was_consumed r)); (split; [exact E1|]; split; [exact E2|]); intros Hf Hr; rewrite Hf, Hr in Ef; done. }
  clearbody s1. destruct H1 as (E1&E2&E3). cbv zeta.
  set (s2 := if _ || _ then upd _ s1 else s1).
  assert (H2 : written s2 = written s1 ∧ saved s2 = saved s1 ∧ fin_sent (stream_ s2) = fin_sent (stream_ s1)) by (unfold s2; by destruct (_ || _)).
  clearbody s2. destruct H2 as (G1&G2&G3). destruct (IsWaitingForAcks (stream_ s2)); unfold stream_bytes_written in *; cbn; rewrite G1, G2, G3; done.
Qed.

(** All that the windows allow goes out. *)
Lemma WriteBufferedData_takes e s :
  Good s → write_side_closed (stream_ s) = false → connected s = true → should_yield s = false → takes_all →
  let s' := WriteBufferedData c e session_writes should_yield s in
  written s' = written s + Z.min (saved s - written s) (send_window c s) ∧ saved s' = saved s
  ∧ (fin_buffered (stream_ s) = true → saved s - written s <= send_window c s → fin_sent (stream_ s') = true).
Proof.
  intros HG Hw Hc Hy Hall. unfold WriteBufferedData. rewrite Hy. pose proof (sending_bounds s (proj1 HG)) as Hbd. pose proof (send_window_nonneg s) as Hw0.
  rewrite BufferedDataBytes_eq by apply HG. set (w := send_window c s) in *. set (n := saved s - written s) in *.
  destruct ((w =? 0) && negb _) eqn:Eblk.
  { destruct (calm_account _ _ (still_calm _ _ (MaybeSendBlocked_still s))) as (E1&E2&_). cbv zeta. rewrite E1, E2.
    apply andb_true_iff in Eblk as [Ew0%Z.eqb_eq Ez]. split; [lia|]. split; [done|]. intros Hf Hle. rewrite Hf in Ez. cbn in Ez.
    assert (n =? 0 = true) as Hn by (apply Z.eqb_eq; lia). by rewrite Hn in Ez. }
  set (p := if w <? n then _ else _).
  assert (Hp : let '(fin, len) := p in len = Z.min n w ∧ fin = fin_buffered (stream_ s) && (n <=? w)).
  { unfold p. destruct (Z.ltb_spec w n); (split; [lia|]); destruct (Z.leb_spec n w); try lia; by rewrite ?andb_true_r, ?andb_false_r. }
  destruct p as [fin len]. destruct Hp as [El Efin]. set (s1 := if session_decides_what_to_write c then _ else s).
  assert (H1 : still s s1) by (unfold s1; destruct (session_decides_what_to_write c); [by apply still_log|apply still_refl]).
  assert (Hsw : send_window c s1 = w) by (unfold s1; by destruct (session_decides_what_to_write c)).
  assert (HG1 : Good s1) by by eapply still_Good. destruct H1 as (E&F&_). pose proof (sending_eq _ _ E) as ((Eb&Efb&_)&_).
  unfold shape in F. injection F as _ Hw1 _ _ _ Hc1. rewrite Hw in Hw1. rewrite Hc in Hc1.
  assert (Ew : written s1 = written s) by (unfold stream_bytes_written; by rewrite Eb). clearbody s1 w.
  set (st := if fin then _ else NO_FIN). assert (Est : offers_end st = fin) by (unfold st; destruct fin; [by destruct (add_random_padding_after_fin _)|done]).
  clearbody st. pose proof HG1 as [HS HD]. pose proof (Core_open_wc s1 (proj1 HD) (or_introl Hw1)) as Ho.
  rewrite <-Ew. pose proof (may_write_new s1 len HS ltac:(rewrite Eb, Ew; lia)) as Hm.
  pose proof (WritevData__spec e (written s1) len (written s1) st s1 ltac:(lia) (snd_buffer _ HS) (snd_packets _ HS) Hm ltac:(congruence) HD) as Hr.
  pose proof (takes_all_spec e len (written s1) st s1 Hall ltac:(lia) Hc1) as Htake. destruct (WritevData_ _ _ _ _ _ _ _) as [r s2]. destruct Htake as [Er Hc2].
  destruct (consumed_Good e len st s1 r s2 HG1 Hw1 ltac:(lia)) as (HG4&F4&Eb4&Ew4&Es4&Ec4).
  { intros Hne. assert (fin = true) as Hf by (rewrite <-Est; by destruct st). rewrite Efin in Hf. apply andb_true_iff in Hf as [Hf Hle].
    rewrite Efb, Eb, Ew. split; [done|]. apply Z.leb_le in Hle. lia. }
  { exact Hr. }
  set (s4 := AddBytesSent _ _ _ _) in *. clearbody s4.
  assert (Hw4 : write_side_closed (stream_ s4) = false).
  { destruct (wr_shape _ _ _ _ _ _ _ Hr) as [F2|]; [|congruence]. rewrite F2 in F4. unfold shape in F4. injection F4 as _ G _ _ _ _. congruence. }
  pose proof (after_write_account e len fin) as Haw.
  match goal with |- context [after_write c e len fin ?z r s4] => destruct (Haw z r s4 (proj1 (proj2 HG4)) Hw4) as (A1&A2&A3); set (s5 := after_write c e len fin z r s4) in * end.
  clearbody s5. cbv zeta. rewrite A1, A2, Ew4, Es4, Er, Eb, Ew. cbn [bytes_consumed]. split; [lia|]. split; [done|].
  intros Hf Hle. rewrite Hf in Efin. apply Z.leb_le in Hle. assert (fin = true) as Hfin by (rewrite Efin; exact Hle).
  apply A3; [done| |by rewrite Er]. rewrite Er. cbn. by rewrite Est.
Qed.

Lemma OnCanWrite_progress e s :
  Good s → connected s = true → where_ s ≠ Closed → HasDeadlinePassed e (stream_ s) = false → should_yield s = false → takes_all →
  let s' := OnCanWrite c e session_writes should_yield s in
  if HasPendingRetransmission (stream_ s) then all_sent_again s s'
  else if write_side_closed (stream_ s) then s' = s
  else written s' = written s + Z.min (saved s - written s) (send_window c s) ∧ saved s' = saved s
    ∧ (fin_buffered (stream_ s) = true → saved s - written s <= send_window c s → fin_sent (stream_ s') = true).
Proof.
  intros HG Hc Hw Hd Hy Ht. unfold OnCanWrite. rewrite Hd. destruct (HasPendingRetransmission (stream_ s)).
  { unfold WritePendingRetransmission. pose proof (write_pending_ends e (length (pending (buffer s)) + 1) s HG (λ _, Hw)) as H.
    destruct (write_pending _ _ _ _ _) as [b s']. apply H; [|done|done]. unfold to_send_again. destruct (fin_lost _); lia. }
  destruct (write_side_closed (stream_ s)) eqn:Ew; [done|].
  assert (Hns : fin_sent (stream_ s) = false).
  { destruct HG as [_ (_&[Hs _]&_)]. destruct (fin_sent (stream_ s)); [rewrite Hs in Ew by done|]; done. }
  rewrite Hns. cbn [negb]. rewrite andb_true_r. set (s1 := if _ || _ then _ else s).
  assert (H1 : written s1 = written s + Z.min (saved s - written s) (send_window c s) ∧ saved s1 = saved s
    ∧ (fin_buffered (stream_ s) = true → saved s - written s <= send_window c s → fin_sent (stream_ s1) = true)).
  { unfold s1. destruct (HasBufferedData (stream_ s) || fin_buffered (stream_ s)) eqn:Eb; [by apply WriteBufferedData_takes|].
    apply orb_false_iff in Eb as [Eb Ef]. unfold HasBufferedData in Eb. apply Z.ltb_ge in Eb.
    pose proof (sending_bounds s (proj1 HG)). pose proof (send_window_nonneg s). split; [lia|]. split; [done|congruence]. }
  clearbody s1. cbv zeta. destruct (negb _ && _ && _); exact H1.
Qed.

(** ** Histories *)

Lemma CloseStream_Good e s : Good s → Good (CloseStream c e s).
Proof.
  intros HG. unfold CloseStream. destruct (decide (where_ s = Open)) as [Ho|Hn].
  - pose proof HG as [HS (HC&[Hs1 Hs2]&Hd)].
    destruct (CloseStream_Core false e s Ho (λ e n, cr_size _ HC e n) (λ _, HC)) as ((H1&H2&_&H4&_)&H5&H6).
    { rewrite orb_false_r. apply (cr_rst _ HC). }
    split; [by eapply calm_Sending|]. split; [done|]. split; [|by apply H4]. destruct (is_static c) eqn:Est; [|by apply H6].
    rewrite (H5 eq_refl). by apply (untold_Core _ s HC).
  - unfold CloseStreamInner. by rewrite close_gone.
Qed.

(** The other streams of the connection share its flow controller. *)
Definition connection_ok (f : FlowController.t) : Prop :=
  contributes c = true →
  0 <= FlowController.bytes_sent f <= FlowController.send_window_offset f ∧ FlowController.send_window_offset f < two64.
Lemma with_connection_Good f s : Good s → connection_ok f → Good (with_connection f s).
Proof. intros [[H1 H2 H3 H4 H5 H6 H7 H8 H9 H10 H11] HD] Hf. split; [by split|]. by apply (like_Sides s). Qed.

Lemma new_Good e f connection :
  FlowController.bytes_sent f = 0 → 0 <= FlowController.send_window_offset f < two64 → connection_ok connection →
  Good (new c e f connection).
Proof.
  intros Hb Hw Hc. unfold new. set (s := mk_io (fresh f) connection true Open []).
  assert (HS : type_ c ≠ READ_UNIDIRECTIONAL → Sending s).
  { intros Ht. split; cbn; try done; try (by intros ? ? ? ? ?%elem_of_nil); [apply StreamSendBuffer.s_new|constructor]. }
  assert (HC : Core s).
  { split; cbn; try done. by intros ? ? _ ?%elem_of_nil. }
  assert (Hs : shut s) by (split; [done|by intros _ ? ? ?%elem_of_nil]).
  destruct (type_ c) eqn:Et; [by split; [apply HS|]|..|by split; [apply HS|]].
  - apply CloseReadSide_Good. apply (still_Good s); [by split; [apply HS|]|by apply upd_still].
  - apply CloseWriteSide_Good; [| |done].
    + split; cbn; try done; try (by intros ? ? ? ? ?%elem_of_nil); [apply StreamSendBuffer.s_new|by left|constructor].
    + split; cbn; try done. by intros ? ? _ ?%elem_of_nil.
Qed.

(** What happens to a stream, in any order: what the application, the session, the peer and the other streams do, with what each
    operation may rely on. Data is written in order; what is acknowledged or lost was sent; frames of the peer reach a stream in
    the map; the times [e] are any. *)
Inductive history : io → Prop :=
  | h_new e f connection : FlowController.bytes_sent f = 0 → 0 <= FlowController.send_window_offset f < two64 → connection_ok connection →
      history (new c e f connection)
  | h_WriteOrBufferData e d fin s : history s → comes_next s d → history (WriteOrBufferData c e session_writes should_yield d fin s)
  | h_WritevData e iov fin s : history s → comes_next s (concat iov) → history (WritevData c e session_writes should_yield iov fin s).2
  | h_WriteMemSlices e span fin s : history s → comes_next s (concat span) → history (WriteMemSlices c e session_writes should_yield span fin s).2
  | h_OnCanWrite e s : history s → (connected s = true → where_ s ≠ Closed) → history (OnCanWrite c e session_writes should_yield s)
  | h_OnStreamFrame e off fin d s : history s → where_ s = Open → history (OnStreamFrame c e off fin d s)
  | h_OnStreamReset e error off s : history s → where_ s = Open → history (OnStreamReset c e error off s)
  | h_OnWindowUpdateFrame e off s : history s → where_ s = Open → off < two64 → history (OnWindowUpdateFrame c e off s)
  | h_OnStopSendingFrame e code s : history s → where_ s = Open → is_static c = false → history (OnStopSendingFrame c e code s)
  | h_SendStopSending code s : history s → history (SendStopSending c code s)
  | h_OnFinRead e s : history s → history (OnFinRead c e s)
  | h_StopReading s : history s → history (StopReading s)
  | h_AddBytesConsumed e n s : history s → history (AddBytesConsumed c e n s)
  | h_Acked e off len fin s : history s → where_ s ≠ Closed → 0 <= off → 0 <= len → off + len <= written s →
      (fin = true → fin_sent (stream_ s) = true) → history (OnStreamFrameAcked c e off len fin s).2
  | h_Lost off len fin s : history s → 0 <= off → 0 <= len → off + len <= written s → history (OnStreamFrameLost off len fin s)
  | h_Retransmitted off len fin s : history s → 0 <= len → history (OnStreamFrameRetransmitted off len fin s)
  | h_RetransmitStreamData e off len fin s : history s → (connected s = true → where_ s ≠ Closed) → 0 <= off → 0 <= len → off + len <= written s →
      history (RetransmitStreamData c e session_writes off len fin s).2
  | h_Reset e error s : history s → history (Reset c e error s)
  | h_CloseWriteSide e s : history s → history (CloseWriteSide c e s)
  | h_CloseReadSide e s : history s → history (CloseReadSide c e s)
  | h_CloseStream e s : history s → history (CloseStream c e s)
  | h_CloseConnection e error s : history s → history (CloseConnection c e error s)
  | h_connection f s : history s → connection_ok f → history (with_connection f s)
  | h_MaybeSetTtl e ttl s : history s → history (MaybeSetTtl c e ttl s).2
  | h_padding b s : history s → history (upd (set_padding b) s).

Lemma history_Good s : 0 < max_data_slice_size c → history s → Good s.
Proof.
  intros Hm. induction 1.
  - by apply new_Good.
  - by apply WriteOrBufferData_Good.
  - by apply WritevData_Good.
  - by apply WriteMemSlices_Good.
  - by apply OnCanWrite_Good.
  - by apply OnStreamFrame_Good.
  - by apply OnStreamReset_Good.
  - by apply OnWindowUpdateFrame_Good.
  - by apply OnStopSendingFrame_Good.
  - unfold SendStopSending. destruct (negb _); [done|by apply log_Good].
  - by apply OnFinRead_Good.
  - by apply log_Good.
  - by apply AddBytesConsumed_Good.
  - by apply OnStreamFrameAcked_Good.
  - by apply OnStreamFrameLost_Good.
  - by apply OnStreamFrameRetransmitted_Good.
  - by apply RetransmitStreamData_Good.
  - by apply Reset_Good.
  - destruct IHhistory as [HS (HC&_&Hd)]. by apply CloseWriteSide_Good.
  - by apply CloseReadSide_Good.
  - by apply CloseStream_Good.
  - by apply CloseConnection_Good.
  - by apply with_connection_Good.
  - unfold MaybeSetTtl. destruct (is_static c); [done|]. destruct (negb _); [done|]. destruct (negb _); [done|]. cbn [snd].
    eapply still_Good; [done|by apply upd_still].
  - eapply still_Good; [done|by apply upd_still].
Qed.
End session.
End data.
End proofs.

(** ** Properties *)

(** C14. What a stream sends, in any history, with any session that takes no more than it is offered. The data in packets is the
    stream's, new data in order and without a gap and the rest again; what was written is what the flow controller counts, and is
    within the window of the stream, and of the connection when the stream counts for it; the end of the stream is only ever taken
    with its last byte, after which nothing more is saved, and a stream that says it sent its end has sent it; and whatever is not
    acknowledged is still in the buffer, with its value. *)
Theorem stream_sends_in_order c data session_writes should_yield s :
  good_session session_writes → 0 < max_data_slice_size c → history c data session_writes should_yield s →
  let written := stream_bytes_written (stream_ s) in let saved := StreamSendBuffer.stream_offset (send_buffer (stream_ s)) in
  well_sent data (calls s) written ∧ 0 <= written <= saved
  ∧ FlowController.bytes_sent (flow_controller (stream_ s)) = written
  ∧ written <= FlowController.send_window_offset (flow_controller (stream_ s))
  ∧ (contributes c = true →
      FlowController.bytes_sent (connection_flow_controller s) <= FlowController.send_window_offset (connection_flow_controller s))
  ∧ (∀ off len st n, SendStreamData off len st n true ∈ calls s → fin_buffered (stream_ s) = true ∧ off + n = saved)
  ∧ (fin_sent (stream_ s) = true → type_ c ≠ READ_UNIDIRECTIONAL → written = saved ∧ end_taken (calls s))
  ∧ StreamSendBuffer.keeps_unacked data (send_buffer (stream_ s)).
Proof.
  intros Hg Hm Hh. destruct (history_Good c data session_writes should_yield Hg s Hm Hh) as [HS _]. cbv zeta.
  pose proof (sending_bounds c data s HS) as Hb. destruct HS as [H1 [H2 H2'] H3 H4 H5 H6 H7 H8 H9 H10 H11].
  split; [done|]. split; [done|]. split; [done|]. split; [lia|]. split; [intros Hc; destruct (H3 Hc); lia|]. split; [done|]. split.
  - intros Hf Ht. split; [by destruct (H7 Hf) as [|[_ ?]]|by apply H11].
  - apply StreamSendBuffer.sends_inv in H1 as [gs HI]. by eapply StreamSendBuffer.inv_keeps_unacked.
Qed.

(** C26. How a stream ends, in any history. It leaves the map of the session when both its sides are closed and not before, and then
    the peer was told its end or a reset; sending the end closes the write side. While the connection is up, a reset has gone out
    when the stream says so, its final size is what was written, before it and ever after, and the write side is closed; a stream
    is kept for its acknowledgements only while it waits for some, and dropped only when it was reset or all its data and its end
    are acknowledged. Once the connection is down only static streams are left. *)
Theorem stream_ends_properly c data session_writes should_yield s :
  good_session session_writes → 0 < max_data_slice_size c → history c data session_writes should_yield s →
  let st := stream_ s in
  (where_ s ≠ Open → read_side_closed st = true ∧ write_side_closed st = true ∧ (fin_sent st = true ∨ rst_sent st = true))
  ∧ (read_side_closed st = true → write_side_closed st = true → is_static c = false → where_ s ≠ Open)
  ∧ (fin_sent st = true → write_side_closed st = true)
  ∧ (where_ s = Zombie → IsWaitingForAcks st = true)
  ∧ (connected s = true →
      (rst_sent st = true → ∃ error n, RstStreamFrame error n ∈ calls s)
      ∧ (∀ error n, RstStreamFrame error n ∈ calls s → n = stream_bytes_written st ∧ write_side_closed st = true)
      ∧ (where_ s = Closed → rst_sent st = true
          ∨ fin_outstanding st = false
            ∧ ∀ z, 0 <= z < stream_bytes_written st → IntervalSet.den (StreamSendBuffer.bytes_acked (send_buffer st)) z))
  ∧ (connected s = false → is_static c = true ∨ where_ s = Closed).
Proof.
  intros Hg Hm Hh. destruct (history_Good c data session_writes should_yield Hg s Hm Hh) as [HS (HC&[Hs1 Hs2]&Hd)]. cbv zeta.
  split. { intros Hn. destruct (cr_both _ _ HC Hn) as [-> ->]. split; [done|]. split; [done|]. apply orb_true_iff, (cr_told _ _ HC Hn). }
  split. { intros Hr Hw Hst Ho. pose proof (cr_open _ _ HC Ho Hst) as H. by rewrite Hr, Hw in H. }
  split; [done|]. split; [by apply (cr_zombie _ _ HC)|]. split; [|exact Hd]. intros Hc. split; [intros Hr; by apply (cr_rst _ _ HC)|].
  split. { intros error n Hi. split; [by eapply (cr_size _ _ HC)|by eapply Hs2]. }
  intros Hcl. destruct (cr_closed _ _ HC Hcl Hc) as [|[Ho Hf]]; [by left|right]. split; [done|].
  pose proof (StreamSendBuffer.sends_inv data _ _ (snd_buffer _ _ _ HS)) as [gs HI]. by eapply StreamSendBuffer.outstanding_zero.
Qed.

(** C34. [OnCanWrite] makes progress. The loop over lost data comes to its end, with any session; and with one that takes what it is
    offered, when there is lost data all of it is sent again, and the end of the stream if that was lost, so that nothing is left
    pending; when there is none, all the buffered data that both windows allow is sent, and the end too when that is all of it. *)
Theorem stream_makes_progress c data session_writes should_yield e s :
  good_session session_writes → 0 < max_data_slice_size c → history c data session_writes should_yield s →
  (connected s = true → where_ s ≠ Closed) →
  let pending s := StreamSendBuffer.pending_retransmissions (send_buffer (stream_ s)) in
  let left s := StreamSendBuffer.stream_offset (send_buffer (stream_ s)) - stream_bytes_written (stream_ s) in
  (write_pending c e session_writes (length (pending s) + 1) s).1 = true
  ∧ (takes_all session_writes → connected s = true → should_yield s = false → HasDeadlinePassed e (stream_ s) = false →
     let s' := OnCanWrite c e session_writes should_yield s in
     if HasPendingRetransmission (stream_ s) then
       HasPendingRetransmission (stream_ s') = false
       ∧ ∃ l, calls s' = calls s ++ l ∧ (∀ z, IntervalSet.den (pending s) z → taken l z) ∧ (fin_lost (stream_ s) = true → end_taken l)
     else write_side_closed (stream_ s) = false →
       left s' = Z.max 0 (left s - send_window c s)
       ∧ (fin_buffered (stream_ s) = true → left s' = 0 → fin_sent (stream_ s') = true)).
Proof.
  intros Hg Hm Hh Hw. pose proof (history_Good c data session_writes should_yield Hg s Hm Hh) as HG. cbv zeta. split.
  - pose proof (write_pending_ends c data session_writes should_yield Hg e (length (StreamSendBuffer.pending_retransmissions (send_buffer (stream_ s))) + 1) s HG Hw) as H.
    destruct (write_pending _ _ _ _ _) as [b s']. apply H. unfold to_send_again. destruct (fin_lost _); lia.
  - intros Ht Hc Hy Hd. pose proof (OnCanWrite_progress c data session_writes should_yield Hg e s HG Hc (Hw Hc) Hd Hy Ht) as H. cbv zeta in H.
    destruct (HasPendingRetransmission (stream_ s)); [by destruct H as (?&_&?)|]. intros Hwc. rewrite Hwc in H. destruct H as (E1&E2&E3).
    pose proof (send_window_nonneg c s). pose proof (sending_bounds c data s (proj1 HG)).
    rewrite E1, E2. split; [lia|]. intros Hf Hl. apply E3; [done|lia].
Qed.

(** ** Examples *)

(** Six bytes and the end of a stream through a window of four, a window update, a loss, and the end from the peer. *)
Definition ex_config : config := mk_config BIDIRECTIONAL false true 100 4 true true false.
Definition ex_data : Z → Z := λ z, z + 1.
Definition ex_writes (s : io) (len off : Z) (st : StreamSendingState) : answer :=
  mk_answer (if connected s && (0 <? len) then [len] else []) (connected s && offers_end st) None.
Definition ex_yield (s : io) : bool := false.
Definition ex_env : FlowController.env := FlowController.mk_env 1000 10.
Definition ex_new : io := new ex_config ex_env (FlowController.new 4 100 200 false true) (FlowController.new 50 100 200 false false).
Definition ex_written : io := WriteOrBufferData ex_config ex_env ex_writes ex_yield [1; 2; 3; 4; 5; 6] true ex_new.
Definition ex_window : io := OnWindowUpdateFrame ex_config ex_env 10 ex_written.
Definition ex_all : io := OnCanWrite ex_config ex_env ex_writes ex_yield ex_window.
Definition ex_lost : io := OnStreamFrameLost 1 2 false ex_all.
Definition ex_zombie : io := OnFinRead ex_config ex_env ex_lost.

Lemma ex_good : good_session ex_writes.
Proof.
  intros s len off st Hl. unfold ex_writes. destruct (connected s), (Z.ltb_spec 0 len), st; cbn.
  all: split; [by repeat first [apply List.Forall_nil|apply List.Forall_cons]|].
  all: split; [lia|]. all: split; [|done]. all: intros ?; first [done|split; [lia|done]].
Qed.
Lemma ex_takes_all : takes_all ex_writes.
Proof. intros s len off st Hl Hc. unfold ex_writes. rewrite Hc. destruct (Z.ltb_spec 0 len); cbn; (split; [lia|done]). Qed.
Lemma ex_lost_history : history ex_config ex_data ex_writes ex_yield ex_lost.
Proof.
  assert (Hn : connection_ok ex_config (FlowController.new 50 100 200 false false)) by (intros _; vm_compute; done).
  assert (H0 : history ex_config ex_data ex_writes ex_yield ex_new) by (apply h_new; [done|by vm_compute|done]).
  assert (H1 : history ex_config ex_data ex_writes ex_yield ex_written) by (apply h_WriteOrBufferData; [done|split; vm_compute; done]).
  assert (H2 : history ex_config ex_data ex_writes ex_yield ex_window) by (apply h_OnWindowUpdateFrame; [done|vm_compute; done|done]).
  assert (H3 : history ex_config ex_data ex_writes ex_yield ex_all) by (apply h_OnCanWrite; [done|vm_compute; done]).
  apply h_Lost; [done|done|done|vm_compute; done].
Qed.

Lemma stream_sends_in_order_witness :
  stream_bytes_written (stream_ ex_lost) = 6 ∧ fin_sent (stream_ ex_lost) = true
  ∧ well_sent ex_data (calls ex_lost) 6 ∧ StreamSendBuffer.keeps_unacked ex_data (send_buffer (stream_ ex_lost)).
Proof.
  split; [vm_compute; done|]. split; [vm_compute; done|].
  destruct (stream_sends_in_order ex_config ex_data ex_writes ex_yield ex_lost ex_good ltac:(done) ex_lost_history) as (H1&_&_&_&_&_&_&H2).
  split; [exact H1|exact H2].
Defined.

Lemma stream_ends_properly_witness :
  where_ ex_zombie = Zombie ∧ IsWaitingForAcks (stream_ ex_zombie) = true ∧ write_side_closed (stream_ ex_zombie) = true.
Proof.
  split; [vm_compute; done|].
  destruct (stream_ends_properly ex_config ex_data ex_writes ex_yield ex_zombie ex_good ltac:(done)) as (H1&_&_&H2&_).
  { apply h_OnFinRead, ex_lost_history. }
  split; [apply H2; vm_compute; done|]. apply H1. vm_compute. done.
Defined.

Lemma stream_makes_progress_witness :
  let s' := OnCanWrite ex_config ex_env ex_writes ex_yield ex_lost in
  HasPendingRetransmission (stream_ ex_lost) = true ∧ HasPendingRetransmission (stream_ s') = false
  ∧ ∃ l, calls s' = calls ex_lost ++ l ∧ taken l 1.
Proof.
  split; [vm_compute; done|].
  destruct (stream_makes_progress ex_config ex_data ex_writes ex_yield ex_env ex_lost ex_good ltac:(done) ex_lost_history ltac:(vm_compute; done)) as [_ H].
  specialize (H ex_takes_all ltac:(vm_compute; done) ltac:(done) ltac:(vm_compute; done)). cbv zeta in H.
  change (HasPendingRetransmission (stream_ ex_lost)) with true in H. destruct H as (H1&l&H2&H3&_).
  split; [exact H1|]. exists l. split; [exact H2|]. apply H3.
  assert (StreamSendBuffer.pending_retransmissions (send_buffer (stream_ ex_lost)) = [Interval.mk 1 3]) as -> by (vm_compute; reflexivity).
  apply IntervalSet.den_cons. left. split; done.
Defined.

(** The end alone, lost, and forced out again: it is still pending, and is sent once more. *)
Definition ex_end_lost : io := OnStreamFrameLost 6 0 true ex_all.
Definition ex_end_forced : io := (RetransmitStreamData ex_config ex_env ex_writes 6 0 true ex_end_lost).2.
Example forced_end_stays_lost :
  calls ex_end_forced = calls ex_end_lost ++ [SendStreamData 6 0 FIN 0 true]
  ∧ HasPendingRetransmission (stream_ ex_end_forced) = true
  ∧ calls (OnCanWrite ex_config ex_env ex_writes ex_yield ex_end_forced) = calls ex_end_forced ++ [SendStreamData 6 0 FIN 0 true].
Proof. by vm_compute. Qed.

End QuicStream.
