(* ===== verification/IetfFrames.v ===== *)
(** The frames of IETF QUIC on the wire: writing the frames of a packet and parsing its payload, in
    [QuicFramer] (quic/core/quic_framer.cc: [AppendIetfFrames], [ProcessIetfFrameData] and the functions
    they call for each frame).

    A frame has the fields that are serialized; the identifiers of control frames are not. The data of a
    frame is the bytes its [data_buffer] points to, or none; with a data producer the data comes from
    there. The visitor is a function from the calls made so far and the next one to its answer. The
    texts of [detailed_error] are left out. *)

From S2P Require Import Prelude OrderedSet IntervalSet Stream Bytes DataWire.
From S2P Require Import PacketNumber StreamIdManager ReceivedPackets UnackedPacketMap.

Module IetfFramer.
Import StreamIdManager.
Abbreviation action := Writer.action.
Abbreviation FirstSendingPacketNumber := UnackedPacketMap.FirstSendingPacketNumber.
Abbreviation EncryptionLevel := UnackedPacketMap.EncryptionLevel.
Abbreviation QuicAckFrame := ReceivedPacketManager.QuicAckFrame.
#[local] Notation "a &&& b" := (Writer.andthen a b) (at level 40, left associativity).
#[local] Notation "x <~ a ; b" := (Reader.bind a (λ x, b)) (at level 100, a at next level, right associativity).

(** ** Frames *)

Definition IETF_PADDING : Z := 0.
Definition IETF_PING : Z := 1.
Definition IETF_ACK : Z := 2.
Definition IETF_ACK_ECN : Z := 3.
Definition IETF_RST_STREAM : Z := 4.
Definition IETF_STOP_SENDING : Z := 5.
Definition IETF_CRYPTO : Z := 6.
Definition IETF_NEW_TOKEN : Z := 7.
Definition IETF_STREAM : Z := 8.
Definition IETF_MAX_DATA : Z := 16.
Definition IETF_MAX_STREAM_DATA : Z := 17.
Definition IETF_MAX_STREAMS_BIDIRECTIONAL : Z := 18.
Definition IETF_MAX_STREAMS_UNIDIRECTIONAL : Z := 19.
Definition IETF_BLOCKED : Z := 20.
Definition IETF_STREAM_BLOCKED : Z := 21.
Definition IETF_STREAMS_BLOCKED_BIDIRECTIONAL : Z := 22.
Definition IETF_STREAMS_BLOCKED_UNIDIRECTIONAL : Z := 23.
Definition IETF_NEW_CONNECTION_ID : Z := 24.
Definition IETF_RETIRE_CONNECTION_ID : Z := 25.
Definition IETF_PATH_CHALLENGE : Z := 26.
Definition IETF_PATH_RESPONSE : Z := 27.
Definition IETF_CONNECTION_CLOSE : Z := 28.
Definition IETF_APPLICATION_CLOSE : Z := 29.
Definition IETF_EXTENSION_MESSAGE_NO_LENGTH : Z := 32.
Definition IETF_EXTENSION_MESSAGE : Z := 33.

Definition IETF_STREAM_FRAME_TYPE_MASK : Z := 18446744073709551608.
Definition IS_IETF_STREAM_FRAME (stype : Z) : bool := Z.land stype IETF_STREAM_FRAME_TYPE_MASK =? IETF_STREAM.
Definition IETF_STREAM_FRAME_FIN_BIT : Z := 1.
Definition IETF_STREAM_FRAME_LEN_BIT : Z := 2.
Definition IETF_STREAM_FRAME_OFF_BIT : Z := 4.

Definition kIetfAckTimestampShift : Z := 3.
Definition kMaxErrorStringLength : Z := 256.
Definition kMaxNewTokenTokenLength : Z := 65535.
Definition kQuicDefaultConnectionIdLength : Z := 8.
Definition kQuicPathFrameBufferSize : Z := 8.
Definition stateless_reset_token_size : Z := 16.

Inductive QuicConnectionCloseType :=
  GOOGLE_QUIC_CONNECTION_CLOSE | IETF_QUIC_TRANSPORT_CONNECTION_CLOSE | IETF_QUIC_APPLICATION_CONNECTION_CLOSE.
#[global] Instance QuicConnectionCloseType_eq_dec : EqDecision QuicConnectionCloseType.
Proof. solve_decision. Defined.

Record QuicStreamFrame := mk_stream { stream_id : Z; fin : bool; offset : Z; data_length : Z; data_buffer : option (list Z) }.
Record QuicCryptoFrame := mk_crypto
  { level : EncryptionLevel; crypto_offset : Z; crypto_length : Z; crypto_buffer : option (list Z) }.

Inductive QuicFrame :=
  | PaddingFrame (num_padding_bytes : Z)
  | RstStreamFrame (stream_id ietf_error_code byte_offset : Z)
  | ConnectionCloseFrame (close_type : QuicConnectionCloseType) (error_code : Z) (error_details : list Z)
      (transport_close_frame_type : Z)
  | GoAwayFrame (error_code last_good_stream_id : Z) (reason_phrase : list Z)
  | WindowUpdateFrame (stream_id byte_offset : Z)
  | BlockedFrame (stream_id offset : Z)
  | StopWaitingFrame (least_unacked : Z)
  | PingFrame
  | CryptoFrame (f : QuicCryptoFrame)
  | StreamFrame (f : QuicStreamFrame)
  | AckFrame (f : QuicAckFrame)
  | MtuDiscoveryFrame
  | NewConnectionIdFrame (sequence_number retire_prior_to : Z) (connection_id stateless_reset_token : list Z)
  | MaxStreamsFrame (stream_count : Z) (unidirectional : bool)
  | StreamsBlockedFrame (stream_count : Z) (unidirectional : bool)
  | PathResponseFrame (data : list Z)
  | PathChallengeFrame (data : list Z)
  | StopSendingFrame (stream_id application_error_code : Z)
  | MessageFrame (message_data : list (list Z)) (message_length : Z)
  | NewTokenFrame (token : list Z)
  | RetireConnectionIdFrame (sequence_number : Z).

(** What the framer knows of the connection. *)
Record DataProducer := mk_producer {
  WriteStreamData : Z → Z → Z → action;
  WriteCryptoData : EncryptionLevel → Z → Z → action;
}.
Record framer := mk_framer {
  transport_version : version;
  VariableLengthConnectionIdAllowed : bool;
  quic_use_allocated_connection_ids : bool;
  framer_perspective : Perspective;
  data_producer : option DataProducer;
}.

(** ** Writing *)

Section endian.
Context {EI : EndianImpl}.

Definition fail : action := Writer.ret false.

Definition GetIetfStreamFrameTypeByte (f : QuicStreamFrame) (last_frame_in_packet : bool) : Z :=
  let type_byte := IETF_STREAM in
  let type_byte := if negb last_frame_in_packet then Z.lor type_byte IETF_STREAM_FRAME_LEN_BIT else type_byte in
  let type_byte := if negb (offset f =? 0) then Z.lor type_byte IETF_STREAM_FRAME_OFF_BIT else type_byte in
  if fin f then Z.lor type_byte IETF_STREAM_FRAME_FIN_BIT else type_byte.

Definition AppendIetfTypeByte (c : framer) (f : QuicFrame) (last_frame_in_packet : bool) : action :=
  let no_stream id := id =? GetInvalidStreamId (transport_version c) in
  match f with
  | PaddingFrame _ => Writer.WriteUInt8 IETF_PADDING
  | RstStreamFrame _ _ _ => Writer.WriteUInt8 IETF_RST_STREAM
  | ConnectionCloseFrame close_type _ _ _ =>
      match close_type with
      | IETF_QUIC_APPLICATION_CONNECTION_CLOSE => Writer.WriteUInt8 IETF_APPLICATION_CLOSE
      | IETF_QUIC_TRANSPORT_CONNECTION_CLOSE => Writer.WriteUInt8 IETF_CONNECTION_CLOSE
      | GOOGLE_QUIC_CONNECTION_CLOSE => fail
      end
  | GoAwayFrame _ _ _ => fail
  | WindowUpdateFrame id _ => Writer.WriteUInt8 (if no_stream id then IETF_MAX_DATA else IETF_MAX_STREAM_DATA)
  | BlockedFrame id _ => Writer.WriteUInt8 (if no_stream id then IETF_BLOCKED else IETF_STREAM_BLOCKED)
  | StopWaitingFrame _ => fail
  | PingFrame => Writer.WriteUInt8 IETF_PING
  | StreamFrame f => Writer.WriteUInt8 (GetIetfStreamFrameTypeByte f last_frame_in_packet)
  | AckFrame _ => Writer.ret true
  | MtuDiscoveryFrame => Writer.WriteUInt8 IETF_PING
  | NewConnectionIdFrame _ _ _ _ => Writer.WriteUInt8 IETF_NEW_CONNECTION_ID
  | RetireConnectionIdFrame _ => Writer.WriteUInt8 IETF_RETIRE_CONNECTION_ID
  | NewTokenFrame _ => Writer.WriteUInt8 IETF_NEW_TOKEN
  | MaxStreamsFrame _ unidirectional =>
      Writer.WriteUInt8 (if unidirectional then IETF_MAX_STREAMS_UNIDIRECTIONAL else IETF_MAX_STREAMS_BIDIRECTIONAL)
  | StreamsBlockedFrame _ unidirectional =>
      Writer.WriteUInt8 (if unidirectional then IETF_STREAMS_BLOCKED_UNIDIRECTIONAL else IETF_STREAMS_BLOCKED_BIDIRECTIONAL)
  | PathResponseFrame _ => Writer.WriteUInt8 IETF_PATH_RESPONSE
  | PathChallengeFrame _ => Writer.WriteUInt8 IETF_PATH_CHALLENGE
  | StopSendingFrame _ _ => Writer.WriteUInt8 IETF_STOP_SENDING
  | MessageFrame _ _ => Writer.ret true
  | CryptoFrame _ => Writer.WriteUInt8 IETF_CRYPTO
  end.

Definition AppendPaddingFrame (num_padding_bytes : Z) : action := λ w,
  if num_padding_bytes =? 0 then (false, w) else
  if num_padding_bytes <? 0 then (true, Writer.WritePadding w) else
  Writer.WritePaddingBytes (num_padding_bytes - 1) w.

(** The bytes at a buffer; a null one is never dereferenced. *)
Definition buffer_bytes (b : option (list Z)) (length : Z) : list Z :=
  match b with Some d => take (Z.to_nat length) d | None => [] end.

Definition AppendIetfStreamFrame (c : framer) (f : QuicStreamFrame) (last_frame_in_packet : bool) : action :=
  Writer.WriteVarInt62 (stream_id f)
  &&& (if negb (offset f =? 0) then Writer.WriteVarInt62 (offset f) else Writer.ret true)
  &&& (if negb last_frame_in_packet then Writer.WriteVarInt62 (data_length f) else Writer.ret true)
  &&& (if data_length f =? 0 then Writer.ret true else
       match data_producer c with
       | None => Writer.WriteBytes (buffer_bytes (data_buffer f) (data_length f))
       | Some p => WriteStreamData p (stream_id f) (offset f) (data_length f)
       end).

Definition AppendCryptoFrame (c : framer) (f : QuicCryptoFrame) : action :=
  Writer.WriteVarInt62 (crypto_offset f)
  &&& Writer.WriteVarInt62 (crypto_length f)
  &&& (match data_producer c with
       | None =>
           match crypto_buffer f with
           | None => fail
           | Some _ => Writer.WriteBytes (buffer_bytes (crypto_buffer f) (crypto_length f))
           end
       | Some p => WriteCryptoData p (level f) (crypto_offset f) (crypto_length f)
       end).

Definition AppendNewTokenFrame (token : list Z) : action :=
  Writer.WriteVarInt62 (zlen token) &&& Writer.WriteBytes token.

(** The intervals after the first ack block, from the largest down. *)
Fixpoint append_ack_blocks (ack_block_smallest : Z) (itr : list interval) : action :=
  match itr with
  | [] => Writer.ret true
  | i :: itr =>
      let gap_size := wrap64 (ack_block_smallest - imax i) in
      let block_size := wrap64 (imax i - imin i) in
      Writer.WriteVarInt62 (wrap64 (gap_size - 1)) &&& Writer.WriteVarInt62 (wrap64 (block_size - 1))
      &&& append_ack_blocks (imin i) itr
  end.

Definition ack_frame_type (f : QuicAckFrame) : Z :=
  if ReceivedPacketManager.ecn_counters_populated f
     && (negb (ReceivedPacketManager.ect_0_count f =? 0) || negb (ReceivedPacketManager.ect_1_count f =? 0)
         || negb (ReceivedPacketManager.ecn_ce_count f =? 0))
  then IETF_ACK_ECN else IETF_ACK.

Definition ack_delay_wire (f : QuicAckFrame) : Z :=
  if ReceivedPacketManager.ack_delay_time f =? ReceivedPacketManager.Delta_Infinite then kVarInt62MaxValue
  else Z.shiftr (wrap64 (ReceivedPacketManager.ack_delay_time f)) kIetfAckTimestampShift.

Definition AppendIetfAckFrameAndTypeByte (f : QuicAckFrame) : action :=
  let largest_acked := ReceivedPacketManager.LargestAcked f in
  Writer.WriteUInt8 (ack_frame_type f)
  &&& Writer.WriteVarInt62 largest_acked
  &&& Writer.WriteVarInt62 (ack_delay_wire f)
  &&& (if ack_frame_type f =? IETF_ACK_ECN
       then Writer.WriteVarInt62 (ReceivedPacketManager.ect_0_count f)
            &&& Writer.WriteVarInt62 (ReceivedPacketManager.ect_1_count f)
            &&& Writer.WriteVarInt62 (ReceivedPacketManager.ecn_ce_count f)
       else Writer.ret true)
  &&& match rev (ReceivedPacketManager.packets f) with
      | [] => Writer.WriteVarInt62 0 &&& Writer.WriteVarInt62 0
      | i :: itr =>
          let '(ack_block_smallest, itr) :=
            if PacketNumber.sub (imax i) 1 =? largest_acked then (imin i, itr) else (largest_acked, i :: itr) in
          Writer.WriteVarInt62 (zlen itr)
          &&& Writer.WriteVarInt62 (wrap64 (largest_acked - ack_block_smallest))
          &&& append_ack_blocks ack_block_smallest itr
      end.

Definition TruncateErrorString (error : list Z) : list Z :=
  if zlen error <=? kMaxErrorStringLength then error else take (Z.to_nat kMaxErrorStringLength) error.

Definition AppendIetfConnectionCloseFrame (close_type : QuicConnectionCloseType) (error_code : Z)
    (error_details : list Z) (transport_close_frame_type : Z) : action :=
  match close_type with
  | GOOGLE_QUIC_CONNECTION_CLOSE => fail
  | _ =>
      Writer.WriteUInt16 error_code
      &&& (if decide (close_type = IETF_QUIC_TRANSPORT_CONNECTION_CLOSE)
           then Writer.WriteVarInt62 transport_close_frame_type else Writer.ret true)
      &&& Writer.WriteStringPieceVarInt62 (TruncateErrorString error_details)
  end.

Definition AppendIetfResetStreamFrame (stream_id ietf_error_code byte_offset : Z) : action :=
  Writer.WriteVarInt62 stream_id &&& Writer.WriteUInt16 ietf_error_code &&& Writer.WriteVarInt62 byte_offset.
Definition AppendStopSendingFrame (stream_id application_error_code : Z) : action :=
  Writer.WriteVarInt62 stream_id &&& Writer.WriteUInt16 application_error_code.
Definition AppendMaxDataFrame (byte_offset : Z) : action := Writer.WriteVarInt62 byte_offset.
Definition AppendMaxStreamDataFrame (stream_id byte_offset : Z) : action :=
  Writer.WriteVarInt62 stream_id &&& Writer.WriteVarInt62 byte_offset.
Definition AppendMaxStreamsFrame (stream_count : Z) : action := Writer.WriteVarInt62 stream_count.
Definition AppendIetfBlockedFrame (offset : Z) : action := Writer.WriteVarInt62 offset.
Definition AppendStreamBlockedFrame (stream_id offset : Z) : action :=
  Writer.WriteVarInt62 stream_id &&& Writer.WriteVarInt62 offset.
Definition AppendBlockedFrame (c : framer) (stream_id offset : Z) : action :=
  if stream_id =? GetInvalidStreamId (transport_version c) then AppendIetfBlockedFrame offset
  else AppendStreamBlockedFrame stream_id offset.
Definition AppendStreamsBlockedFrame (stream_count : Z) : action := Writer.WriteVarInt62 stream_count.
Definition AppendNewConnectionIdFrame (sequence_number retire_prior_to : Z) (connection_id token : list Z) : action :=
  Writer.WriteVarInt62 sequence_number &&& Writer.WriteVarInt62 retire_prior_to
  &&& Writer.WriteUInt8 (zlen connection_id) &&& Writer.WriteConnectionId connection_id &&& Writer.WriteBytes token.
Definition AppendRetireConnectionIdFrame (sequence_number : Z) : action := Writer.WriteVarInt62 sequence_number.
Definition AppendPathChallengeFrame (data : list Z) : action := Writer.WriteBytes data.
Definition AppendPathResponseFrame (data : list Z) : action := Writer.WriteBytes data.

Fixpoint append_slices (slices : list (list Z)) : action :=
  match slices with [] => Writer.ret true | s :: slices => Writer.WriteBytes s &&& append_slices slices end.
Definition AppendMessageFrameAndTypeByte (message_data : list (list Z)) (message_length : Z)
    (last_frame_in_packet : bool) : action :=
  Writer.WriteUInt8 (if last_frame_in_packet then IETF_EXTENSION_MESSAGE_NO_LENGTH else IETF_EXTENSION_MESSAGE)
  &&& (if negb last_frame_in_packet then Writer.WriteVarInt62 message_length else Writer.ret true)
  &&& append_slices message_data.

(** The body of the loop of [AppendIetfFrames]. *)
Definition append_frame (c : framer) (f : QuicFrame) (last_frame_in_packet : bool) : action :=
  AppendIetfTypeByte c f last_frame_in_packet
  &&& match f with
      | PaddingFrame n => AppendPaddingFrame n
      | StreamFrame f => AppendIetfStreamFrame c f last_frame_in_packet
      | AckFrame f => AppendIetfAckFrameAndTypeByte f
      | StopWaitingFrame _ | GoAwayFrame _ _ _ => fail
      | MtuDiscoveryFrame | PingFrame => Writer.ret true
      | RstStreamFrame id code off => AppendIetfResetStreamFrame id code off
      | ConnectionCloseFrame ty code details frame_type => AppendIetfConnectionCloseFrame ty code details frame_type
      | WindowUpdateFrame id off =>
          if id =? GetInvalidStreamId (transport_version c) then AppendMaxDataFrame off
          else AppendMaxStreamDataFrame id off
      | BlockedFrame id off => AppendBlockedFrame c id off
      | MaxStreamsFrame n _ => AppendMaxStreamsFrame n
      | StreamsBlockedFrame n _ => AppendStreamsBlockedFrame n
      | NewConnectionIdFrame seq retire id token => AppendNewConnectionIdFrame seq retire id token
      | RetireConnectionIdFrame seq => AppendRetireConnectionIdFrame seq
      | NewTokenFrame token => AppendNewTokenFrame token
      | StopSendingFrame id code => AppendStopSendingFrame id code
      | PathChallengeFrame d => AppendPathChallengeFrame d
      | PathResponseFrame d => AppendPathResponseFrame d
      | MessageFrame d n => AppendMessageFrameAndTypeByte d n last_frame_in_packet
      | CryptoFrame f => AppendCryptoFrame c f
      end.

Definition is_last (fs : list QuicFrame) : bool := match fs with [] => true | _ => false end.

Fixpoint append_frames (c : framer) (fs : list QuicFrame) : action :=
  match fs with
  | [] => Writer.ret true
  | f :: fs => append_frame c f (is_last fs) &&& append_frames c fs
  end.

(** [AppendIetfFrames] returns the length written, or 0. *)
Definition AppendIetfFrames (c : framer) (fs : list QuicFrame) (w : Writer.t) : Z * Writer.t :=
  let '(ok, w) := append_frames c fs w in (if ok then Writer.length_ w else 0, w).

(** ** Parsing *)

(** The calls of the visitor. *)
Inductive event :=
  | OnFrame (f : QuicFrame)
  | OnAckFrameStart (largest_acked ack_delay_time : Z)
  | OnAckRange (start end_ : Z)
  | OnAckFrameEnd (start : Z).
Abbreviation visitor := (list event → event → bool).

Inductive QuicErrorCode :=
  QUIC_MISSING_PAYLOAD | QUIC_INVALID_FRAME_DATA | IETF_QUIC_PROTOCOL_VIOLATION | QUIC_INVALID_STREAM_DATA
| QUIC_INVALID_RST_STREAM_DATA | QUIC_INVALID_CONNECTION_CLOSE_DATA | QUIC_INVALID_MAX_DATA_FRAME_DATA
| QUIC_INVALID_MAX_STREAM_DATA_FRAME_DATA | QUIC_MAX_STREAMS_DATA | QUIC_INVALID_BLOCKED_DATA
| QUIC_INVALID_STREAM_BLOCKED_DATA | QUIC_STREAMS_BLOCKED_DATA | QUIC_INVALID_NEW_CONNECTION_ID_DATA
| QUIC_INVALID_RETIRE_CONNECTION_ID_DATA | QUIC_INVALID_NEW_TOKEN | QUIC_INVALID_STOP_SENDING_FRAME_DATA
| QUIC_INVALID_ACK_DATA | QUIC_INVALID_PATH_CHALLENGE_DATA | QUIC_INVALID_PATH_RESPONSE_DATA
| QUIC_INVALID_MESSAGE_DATA.

Definition fails {A} : Reader.action A := λ r, (None, r).
Definition guard (b : bool) : Reader.action unit := if b then Reader.ret tt else fails.
Definition has_bit (frame_type bit : Z) : bool := negb (Z.land frame_type bit =? 0).

Definition ProcessIetfStreamFrame (frame_type : Z) : Reader.action QuicFrame :=
  id <~ Reader.ReadVarIntU32;
  off <~ (if has_bit frame_type IETF_STREAM_FRAME_OFF_BIT then Reader.ReadVarInt62 else Reader.ret 0);
  len <~ (if has_bit frame_type IETF_STREAM_FRAME_LEN_BIT
          then length <~ Reader.ReadVarInt62; if 65535 <? length then fails else Reader.ret length
          else λ r, (Some (wrap16 (Reader.BytesRemaining r)), r));
  data <~ Reader.ReadStringPiece len;
  Reader.ret (StreamFrame (mk_stream id (has_bit frame_type IETF_STREAM_FRAME_FIN_BIT) off (zlen data) (Some data))).

(** The level of the frame stays the one of the default constructor. *)
Definition ProcessCryptoFrame : Reader.action QuicFrame :=
  off <~ Reader.ReadVarInt62;
  len <~ Reader.ReadVarInt62;
  _ <~ guard (negb (65535 <? len));
  data <~ Reader.ReadStringPiece len;
  Reader.ret (CryptoFrame (mk_crypto UnackedPacketMap.ENCRYPTION_INITIAL off len (Some data))).

Definition ProcessIetfResetStreamFrame : Reader.action QuicFrame :=
  id <~ Reader.ReadVarIntU32;
  code <~ Reader.ReadUInt16;
  off <~ Reader.ReadVarInt62;
  Reader.ret (RstStreamFrame id code off).

Definition ProcessIetfConnectionCloseFrame (type : QuicConnectionCloseType) : Reader.action QuicFrame :=
  code <~ Reader.ReadUInt16;
  frame_type <~ (if decide (type = IETF_QUIC_TRANSPORT_CONNECTION_CLOSE) then Reader.ReadVarInt62 else Reader.ret 0);
  phrase_length <~ Reader.ReadVarInt62;
  phrase <~ Reader.ReadStringPiece phrase_length;
  Reader.ret (ConnectionCloseFrame type code phrase frame_type).

Definition ProcessMaxDataFrame (c : framer) : Reader.action QuicFrame :=
  off <~ Reader.ReadVarInt62;
  Reader.ret (WindowUpdateFrame (GetInvalidStreamId (transport_version c)) off).
Definition ProcessMaxStreamDataFrame : Reader.action QuicFrame :=
  id <~ Reader.ReadVarIntU32;
  off <~ Reader.ReadVarInt62;
  Reader.ret (WindowUpdateFrame id off).
Definition ProcessMaxStreamsFrame (frame_type : Z) : Reader.action QuicFrame :=
  n <~ Reader.ReadVarIntU32;
  Reader.ret (MaxStreamsFrame n (frame_type =? IETF_MAX_STREAMS_UNIDIRECTIONAL)).
Definition ProcessIetfBlockedFrame (c : framer) : Reader.action QuicFrame :=
  off <~ Reader.ReadVarInt62;
  Reader.ret (BlockedFrame (GetInvalidStreamId (transport_version c)) off).
Definition ProcessStreamBlockedFrame : Reader.action QuicFrame :=
  id <~ Reader.ReadVarIntU32;
  off <~ Reader.ReadVarInt62;
  Reader.ret (BlockedFrame id off).
Definition ProcessStreamsBlockedFrame (c : framer) (frame_type : Z) : Reader.action QuicFrame :=
  let unidirectional := frame_type =? IETF_STREAMS_BLOCKED_UNIDIRECTIONAL in
  n <~ Reader.ReadVarIntU32;
  _ <~ guard (negb (GetMaxStreamCount unidirectional (InvertPerspective (framer_perspective c)) <? n));
  Reader.ret (StreamsBlockedFrame n unidirectional).

Definition ProcessNewConnectionIdFrame (c : framer) : Reader.action QuicFrame :=
  seq <~ Reader.ReadVarInt62;
  retire <~ Reader.ReadVarInt62;
  _ <~ guard (negb (seq <? retire));
  len <~ Reader.ReadUInt8;
  _ <~ guard (negb (kQuicMaxConnectionIdLength <? len));
  _ <~ guard (negb (negb (len =? kQuicDefaultConnectionIdLength) && negb (VariableLengthConnectionIdAllowed c)));
  id <~ Reader.ReadConnectionId (quic_use_allocated_connection_ids c) len;
  token <~ Reader.ReadBytes stateless_reset_token_size;
  Reader.ret (NewConnectionIdFrame seq retire id token).
Definition ProcessRetireConnectionIdFrame : Reader.action QuicFrame :=
  seq <~ Reader.ReadVarInt62;
  Reader.ret (RetireConnectionIdFrame seq).
Definition ProcessNewTokenFrame : Reader.action QuicFrame :=
  len <~ Reader.ReadVarInt62;
  _ <~ guard (negb (kMaxNewTokenTokenLength <? len));
  data <~ Reader.ReadStringPiece len;
  Reader.ret (NewTokenFrame data).
Definition ProcessStopSendingFrame : Reader.action QuicFrame :=
  id <~ Reader.ReadVarIntU32;
  code <~ Reader.ReadUInt16;
  Reader.ret (StopSendingFrame id code).
Definition ProcessPathChallengeFrame : Reader.action QuicFrame :=
  data <~ Reader.ReadBytes kQuicPathFrameBufferSize;
  Reader.ret (PathChallengeFrame data).
Definition ProcessPathResponseFrame : Reader.action QuicFrame :=
  data <~ Reader.ReadBytes kQuicPathFrameBufferSize;
  Reader.ret (PathResponseFrame data).
Definition ProcessMessageFrame (no_message_length : bool) : Reader.action QuicFrame :=
  if no_message_length then λ r,
    let '(remaining, r) := Reader.ReadRemainingPayload r in
    (Some (MessageFrame [remaining] (wrap16 (zlen remaining))), r)
  else
    message_length <~ Reader.ReadVarInt62;
    message_piece <~ Reader.ReadStringPiece message_length;
    Reader.ret (MessageFrame [message_piece] (wrap16 message_length)).

(** The loop of [ProcessPaddingFrame]; each round takes a byte. *)
Fixpoint skip_padding (fuel : nat) (n : Z) (r : Reader.t) : Z * Reader.t :=
  match fuel with
  | O => (n, r)
  | S fuel =>
      if negb (Reader.IsDoneReading r) && (Reader.PeekByte r =? 0)
      then skip_padding fuel (n + 1) (Reader.ReadBytes 1 r).2 else (n, r)
  end.
Definition ProcessPaddingFrame : Reader.action QuicFrame := λ r,
  let '(n, r) := skip_padding (Z.to_nat (Reader.BytesRemaining r)) 1 r in (Some (PaddingFrame n), r).

(** *** ACK frames *)

Definition to_int64 (z : Z) : Z := if z <? two63 then z else z - two64.
Definition ack_delay_read (ack_delay_time_in_us : Z) : Z :=
  if ack_delay_time_in_us =? kVarInt62MaxValue then ReceivedPacketManager.Delta_Infinite
  else to_int64 (wrap64 (Z.shiftl ack_delay_time_in_us kIetfAckTimestampShift)).

(** The visitor is asked, and the call recorded. *)
Definition tell (v : visitor) (told : list event) (e : event) : bool * list event := (v told e, told ++ [e]).

(** The loop over the ack blocks: none when the fuel runs out. Each round takes two bytes. *)
Fixpoint read_ack_blocks (v : visitor) (fuel : nat) (ack_block_count block_low : Z) (r : Reader.t)
    (told : list event) : option (bool * Z * Reader.t * list event) :=
  if ack_block_count =? 0 then Some (true, block_low, r, told) else
  match fuel with
  | O => None
  | S fuel =>
      match Reader.ReadVarInt62 r with
      | (None, r) => Some (false, block_low, r, told)
      | (Some gap_block_value, r) =>
          if block_low <? wrap64 (gap_block_value + 2) then Some (false, block_low, r, told) else
          let block_high := wrap64 (block_low - 1 - gap_block_value) in
          match Reader.ReadVarInt62 r with
          | (None, r) => Some (false, block_low, r, told)
          | (Some ack_block_value, r) =>
              if wrap64 (block_high - 1) <? wrap64 (ack_block_value + FirstSendingPacketNumber)
              then Some (false, block_low, r, told) else
              let block_low := wrap64 (block_high - 1 - ack_block_value) in
              let '(ok, told) := tell v told (OnAckRange block_low block_high) in
              if negb ok then Some (false, block_low, r, told)
              else read_ack_blocks v fuel (ack_block_count - 1) block_low r told
          end
      end
  end.

Definition ProcessIetfAckFrame (v : visitor) (frame_type : Z) (r : Reader.t) (told : list event)
    : option (bool * Reader.t * list event) :=
  let header :=
    largest_acked <~ Reader.ReadVarInt62;
    _ <~ guard (negb (largest_acked <? FirstSendingPacketNumber));
    delay <~ Reader.ReadVarInt62;
    _ <~ (if frame_type =? IETF_ACK_ECN
          then _ <~ Reader.ReadVarInt62; _ <~ Reader.ReadVarInt62; _ <~ Reader.ReadVarInt62; Reader.ret tt
          else Reader.ret tt);
    Reader.ret (largest_acked, delay) in
  match header r with
  | (None, r) => Some (false, r, told)
  | (Some (largest_acked, delay), r) =>
      let '(ok, told) := tell v told (OnAckFrameStart largest_acked (ack_delay_read delay)) in
      if negb ok then Some (false, r, told) else
      let blocks := count <~ Reader.ReadVarInt62; first <~ Reader.ReadVarInt62; Reader.ret (count, first) in
      match blocks r with
      | (None, r) => Some (false, r, told)
      | (Some (ack_block_count, ack_block_value), r) =>
          let block_high := wrap64 (largest_acked + 1) in
          let block_low := wrap64 (largest_acked - ack_block_value) in
          if largest_acked <? wrap64 (ack_block_value + FirstSendingPacketNumber) then Some (false, r, told) else
          let '(ok, told) := tell v told (OnAckRange block_low block_high) in
          if negb ok then Some (false, r, told) else
          match read_ack_blocks v (Z.to_nat (Reader.BytesRemaining r) + 1) ack_block_count block_low r told with
          | None => None
          | Some (false, _, r, told) => Some (false, r, told)
          | Some (true, block_low, r, told) =>
              let '(ok, told) := tell v told (OnAckFrameEnd block_low) in Some (ok, r, told)
          end
      end
  end.

(** *** The payload *)

Inductive outcome := Continue | Stop | Raise (e : QuicErrorCode).

(** A frame parsed and given to the visitor. *)
Definition visit (v : visitor) (a : Reader.action QuicFrame) (e : QuicErrorCode) (r : Reader.t) (told : list event)
    : option (outcome * Reader.t * list event) :=
  match a r with
  | (None, r) => Some (Raise e, r, told)
  | (Some f, r) => let '(ok, told) := tell v told (OnFrame f) in Some (if ok then Continue else Stop, r, told)
  end.

(** What the loop of [ProcessIetfFrameData] does after the type. *)
Definition process_frame (c : framer) (v : visitor) (frame_type : Z) (r : Reader.t) (told : list event)
    : option (outcome * Reader.t * list event) :=
  let type_is := λ ty, frame_type =? ty in
  if IS_IETF_STREAM_FRAME frame_type then visit v (ProcessIetfStreamFrame frame_type) QUIC_INVALID_STREAM_DATA r told else
  if type_is IETF_PADDING then visit v ProcessPaddingFrame QUIC_INVALID_FRAME_DATA r told else
  if type_is IETF_RST_STREAM then visit v ProcessIetfResetStreamFrame QUIC_INVALID_RST_STREAM_DATA r told else
  if type_is IETF_APPLICATION_CLOSE || type_is IETF_CONNECTION_CLOSE then
    visit v (ProcessIetfConnectionCloseFrame
               (if type_is IETF_CONNECTION_CLOSE then IETF_QUIC_TRANSPORT_CONNECTION_CLOSE
                else IETF_QUIC_APPLICATION_CONNECTION_CLOSE)) QUIC_INVALID_CONNECTION_CLOSE_DATA r told else
  if type_is IETF_MAX_DATA then visit v (ProcessMaxDataFrame c) QUIC_INVALID_MAX_DATA_FRAME_DATA r told else
  if type_is IETF_MAX_STREAM_DATA
  then visit v ProcessMaxStreamDataFrame QUIC_INVALID_MAX_STREAM_DATA_FRAME_DATA r told else
  if type_is IETF_MAX_STREAMS_BIDIRECTIONAL || type_is IETF_MAX_STREAMS_UNIDIRECTIONAL
  then visit v (ProcessMaxStreamsFrame frame_type) QUIC_MAX_STREAMS_DATA r told else
  if type_is IETF_PING then visit v (Reader.ret PingFrame) QUIC_INVALID_FRAME_DATA r told else
  if type_is IETF_BLOCKED then visit v (ProcessIetfBlockedFrame c) QUIC_INVALID_BLOCKED_DATA r told else
  if type_is IETF_STREAM_BLOCKED then visit v ProcessStreamBlockedFrame QUIC_INVALID_STREAM_BLOCKED_DATA r told else
  if type_is IETF_STREAMS_BLOCKED_UNIDIRECTIONAL || type_is IETF_STREAMS_BLOCKED_BIDIRECTIONAL
  then visit v (ProcessStreamsBlockedFrame c frame_type) QUIC_STREAMS_BLOCKED_DATA r told else
  if type_is IETF_NEW_CONNECTION_ID
  then visit v (ProcessNewConnectionIdFrame c) QUIC_INVALID_NEW_CONNECTION_ID_DATA r told else
  if type_is IETF_RETIRE_CONNECTION_ID
  then visit v ProcessRetireConnectionIdFrame QUIC_INVALID_RETIRE_CONNECTION_ID_DATA r told else
  if type_is IETF_NEW_TOKEN then visit v ProcessNewTokenFrame QUIC_INVALID_NEW_TOKEN r told else
  if type_is IETF_STOP_SENDING then visit v ProcessStopSendingFrame QUIC_INVALID_STOP_SENDING_FRAME_DATA r told else
  if type_is IETF_ACK_ECN || type_is IETF_ACK then
    match ProcessIetfAckFrame v frame_type r told with
    | None => None
    | Some (ok, r, told) => Some (if ok then Continue else Raise QUIC_INVALID_ACK_DATA, r, told)
    end else
  if type_is IETF_PATH_CHALLENGE then visit v ProcessPathChallengeFrame QUIC_INVALID_PATH_CHALLENGE_DATA r told else
  if type_is IETF_PATH_RESPONSE then visit v ProcessPathResponseFrame QUIC_INVALID_PATH_RESPONSE_DATA r told else
  if type_is IETF_EXTENSION_MESSAGE_NO_LENGTH || type_is IETF_EXTENSION_MESSAGE
  then visit v (ProcessMessageFrame (type_is IETF_EXTENSION_MESSAGE_NO_LENGTH)) QUIC_INVALID_MESSAGE_DATA r told else
  if type_is IETF_CRYPTO then visit v ProcessCryptoFrame QUIC_INVALID_FRAME_DATA r told else
  Some (Raise QUIC_INVALID_FRAME_DATA, r, told).

Inductive result := Processed | Raised (e : QuicErrorCode) | OutOfFuel.

(** The loop of [ProcessIetfFrameData]; each round takes a byte. *)
Fixpoint process_frames (c : framer) (v : visitor) (fuel : nat) (r : Reader.t) (told : list event)
    : result * list event :=
  if Reader.IsDoneReading r then (Processed, told) else
  match fuel with
  | O => (OutOfFuel, told)
  | S fuel =>
      let encoded_bytes := Reader.BytesRemaining r in
      match Reader.ReadVarInt62 r with
      | (None, r) => (Raised QUIC_INVALID_FRAME_DATA, told)
      | (Some frame_type, r) =>
          if negb (encoded_bytes - Reader.BytesRemaining r =? Writer.GetVarInt62Len frame_type)
          then (Raised IETF_QUIC_PROTOCOL_VIOLATION, told) else
          match process_frame c v frame_type r told with
          | None => (OutOfFuel, told)
          | Some (Continue, r, told) => process_frames c v fuel r told
          | Some (Stop, _, told) => (Processed, told)
          | Some (Raise e, _, told) => (Raised e, told)
          end
      end
  end.

Definition ProcessIetfFrameData (c : framer) (v : visitor) (r : Reader.t) : result * list event :=
  if Reader.IsDoneReading r then (Raised QUIC_MISSING_PAYLOAD, [])
  else process_frames c v (Z.to_nat (Reader.BytesRemaining r)) r [].

(** ** What a frame is on the wire, and what arrives *)

(** The data behind the producer. *)
Context (stream_data : Z → Z → Z) (crypto_data : EncryptionLevel → Z → Z).
Abbreviation NET := NETWORK_BYTE_ORDER.
Abbreviation emits := (WriterSpec.emits NET).
Abbreviation reads := (ReaderSpec.reads NET).

Definition varint (v : Z) : list Z := WriterSpec.varint_bytes (Writer.GetVarInt62Len v) v.
Definition u16_bytes (v : Z) : list Z := WriterSpec.uint_bytes NET 2 v.
Definition is_varint (v : Z) : Prop := 0 <= v < 2 ^ 62.

Definition stream_content (c : framer) (f : QuicStreamFrame) : list Z :=
  match data_producer c with
  | None => buffer_bytes (data_buffer f) (data_length f)
  | Some _ => slice (stream_data (stream_id f)) (offset f) (data_length f)
  end.
Definition crypto_content (c : framer) (f : QuicCryptoFrame) : list Z :=
  match data_producer c with
  | None => buffer_bytes (crypto_buffer f) (crypto_length f)
  | Some _ => slice (crypto_data (level f)) (crypto_offset f) (crypto_length f)
  end.

Fixpoint ack_blocks_bytes (smallest : Z) (itr : list interval) : list Z :=
  match itr with
  | [] => []
  | i :: itr => varint (smallest - imax i - 1) ++ varint (imax i - imin i - 1) ++ ack_blocks_bytes (imin i) itr
  end.

(** The start of the first ack block, and the intervals of the others from the largest down. *)
Definition ack_first_block (f : QuicAckFrame) : Z * list interval :=
  match rev (ReceivedPacketManager.packets f) with
  | [] => (ReceivedPacketManager.largest_acked f, [])
  | i :: itr =>
      if imax i - 1 =? ReceivedPacketManager.largest_acked f then (imin i, itr)
      else (ReceivedPacketManager.largest_acked f, i :: itr)
  end.

Definition ack_bytes (f : QuicAckFrame) : list Z :=
  let '(smallest, itr) := ack_first_block f in
  varint (ReceivedPacketManager.largest_acked f) ++ varint (ack_delay_wire f)
  ++ (if ack_frame_type f =? IETF_ACK_ECN
      then varint (ReceivedPacketManager.ect_0_count f) ++ varint (ReceivedPacketManager.ect_1_count f)
           ++ varint (ReceivedPacketManager.ecn_ce_count f)
      else [])
  ++ varint (zlen itr) ++ varint (ReceivedPacketManager.largest_acked f - smallest) ++ ack_blocks_bytes smallest itr.

Definition no_stream (c : framer) (id : Z) : bool := id =? GetInvalidStreamId (transport_version c).

Definition frame_type_byte (c : framer) (f : QuicFrame) (last : bool) : Z :=
  match f with
  | PaddingFrame _ | GoAwayFrame _ _ _ | StopWaitingFrame _ => IETF_PADDING
  | RstStreamFrame _ _ _ => IETF_RST_STREAM
  | ConnectionCloseFrame ty _ _ _ =>
      if decide (ty = IETF_QUIC_TRANSPORT_CONNECTION_CLOSE) then IETF_CONNECTION_CLOSE else IETF_APPLICATION_CLOSE
  | WindowUpdateFrame id _ => if no_stream c id then IETF_MAX_DATA else IETF_MAX_STREAM_DATA
  | BlockedFrame id _ => if no_stream c id then IETF_BLOCKED else IETF_STREAM_BLOCKED
  | PingFrame | MtuDiscoveryFrame => IETF_PING
  | StreamFrame f => GetIetfStreamFrameTypeByte f last
  | AckFrame f => ack_frame_type f
  | NewConnectionIdFrame _ _ _ _ => IETF_NEW_CONNECTION_ID
  | RetireConnectionIdFrame _ => IETF_RETIRE_CONNECTION_ID
  | NewTokenFrame _ => IETF_NEW_TOKEN
  | MaxStreamsFrame _ u => if u then IETF_MAX_STREAMS_UNIDIRECTIONAL else IETF_MAX_STREAMS_BIDIRECTIONAL
  | StreamsBlockedFrame _ u => if u then IETF_STREAMS_BLOCKED_UNIDIRECTIONAL else IETF_STREAMS_BLOCKED_BIDIRECTIONAL
  | PathResponseFrame _ => IETF_PATH_RESPONSE
  | PathChallengeFrame _ => IETF_PATH_CHALLENGE
  | StopSendingFrame _ _ => IETF_STOP_SENDING
  | MessageFrame _ _ => if last then IETF_EXTENSION_MESSAGE_NO_LENGTH else IETF_EXTENSION_MESSAGE
  | CryptoFrame _ => IETF_CRYPTO
  end.

Definition body_bytes (c : framer) (f : QuicFrame) (last : bool) : list Z :=
  match f with
  | PaddingFrame n => replicate (Z.to_nat (n - 1)) 0
  | RstStreamFrame id code off => varint id ++ u16_bytes code ++ varint off
  | ConnectionCloseFrame ty code details frame_type =>
      u16_bytes code
      ++ (if decide (ty = IETF_QUIC_TRANSPORT_CONNECTION_CLOSE) then varint frame_type else [])
      ++ varint (zlen (TruncateErrorString details)) ++ TruncateErrorString details
  | WindowUpdateFrame id off | BlockedFrame id off => if no_stream c id then varint off else varint id ++ varint off
  | PingFrame | MtuDiscoveryFrame | GoAwayFrame _ _ _ | StopWaitingFrame _ => []
  | StreamFrame f =>
      varint (stream_id f) ++ (if negb (offset f =? 0) then varint (offset f) else [])
      ++ (if negb last then varint (data_length f) else []) ++ stream_content c f
  | AckFrame f => ack_bytes f
  | NewConnectionIdFrame seq retire id token => varint seq ++ varint retire ++ [zlen id] ++ id ++ token
  | RetireConnectionIdFrame seq => varint seq
  | NewTokenFrame token => varint (zlen token) ++ token
  | MaxStreamsFrame n _ | StreamsBlockedFrame n _ => varint n
  | PathResponseFrame d | PathChallengeFrame d => d
  | StopSendingFrame id code => varint id ++ u16_bytes code
  | MessageFrame d n => (if negb last then varint n else []) ++ concat d
  | CryptoFrame f => varint (crypto_offset f) ++ varint (crypto_length f) ++ crypto_content c f
  end.

Definition frame_bytes (c : framer) (f : QuicFrame) (last : bool) : list Z :=
  frame_type_byte c f last :: body_bytes c f last.

Fixpoint frames_bytes (c : framer) (fs : list QuicFrame) : list Z :=
  match fs with [] => [] | f :: fs => frame_bytes c f (is_last fs) ++ frames_bytes c fs end.

(** What arrives of a frame. *)
Definition received (c : framer) (f : QuicFrame) : QuicFrame :=
  match f with
  | MtuDiscoveryFrame => PingFrame
  | ConnectionCloseFrame ty code details frame_type =>
      ConnectionCloseFrame ty code (TruncateErrorString details)
        (if decide (ty = IETF_QUIC_TRANSPORT_CONNECTION_CLOSE) then frame_type else 0)
  | StreamFrame f => StreamFrame (mk_stream (stream_id f) (fin f) (offset f) (data_length f) (Some (stream_content c f)))
  | CryptoFrame f =>
      CryptoFrame (mk_crypto UnackedPacketMap.ENCRYPTION_INITIAL (crypto_offset f) (crypto_length f)
        (Some (crypto_content c f)))
  | MessageFrame d n => MessageFrame [concat d] n
  | f => f
  end.

Definition ack_ranges (f : QuicAckFrame) : list event :=
  let '(smallest, itr) := ack_first_block f in
  OnAckRange smallest (ReceivedPacketManager.largest_acked f + 1) :: map (λ i, OnAckRange (imin i) (imax i)) itr.
Definition ack_events (f : QuicAckFrame) : list event :=
  let '(smallest, itr) := ack_first_block f in
  OnAckFrameStart (ReceivedPacketManager.largest_acked f) (ack_delay_read (ack_delay_wire f))
  :: ack_ranges f ++ [OnAckFrameEnd (default smallest (imin <$> last itr))].

Definition frame_events (c : framer) (f : QuicFrame) : list event :=
  match f with AckFrame f => ack_events f | f => [OnFrame (received c f)] end.

(** Frames within the limits of the protocol. *)
Definition good_ack (f : QuicAckFrame) : Prop :=
  let largest := ReceivedPacketManager.largest_acked f in
  1 <= largest < 2 ^ 62
  ∧ 0 <= ReceivedPacketManager.ack_delay_time f < two63
  ∧ IntervalSet.valid (ReceivedPacketManager.packets f)
  ∧ zlen (ReceivedPacketManager.packets f) < 2 ^ 62
  ∧ (∀ i, i ∈ ReceivedPacketManager.packets f → 1 <= imin i)
  ∧ (∀ i, i ∈ ReceivedPacketManager.packets f → imax i - 1 = largest ∨ imax i < largest)
  ∧ is_varint (ReceivedPacketManager.ect_0_count f) ∧ is_varint (ReceivedPacketManager.ect_1_count f)
  ∧ is_varint (ReceivedPacketManager.ecn_ce_count f).

Definition good (c : framer) (f : QuicFrame) : Prop :=
  match f with
  | PaddingFrame n => 0 < n
  | RstStreamFrame id code off => is_u32 id ∧ is_u16 code ∧ is_varint off
  | ConnectionCloseFrame ty code details frame_type =>
      ty ≠ GOOGLE_QUIC_CONNECTION_CLOSE ∧ is_u16 code ∧ is_varint frame_type
  | GoAwayFrame _ _ _ | StopWaitingFrame _ => False
  | WindowUpdateFrame id off | BlockedFrame id off => is_u32 id ∧ is_varint off
  | PingFrame | MtuDiscoveryFrame => True
  | StreamFrame f =>
      is_u32 (stream_id f) ∧ is_varint (offset f) ∧ is_u16 (data_length f)
      ∧ zlen (stream_content c f) = data_length f
      ∧ match data_producer c with
        | None => True
        | Some p => emits (WriteStreamData p (stream_id f) (offset f) (data_length f)) (stream_content c f)
        end
  | CryptoFrame f =>
      is_varint (crypto_offset f) ∧ is_u16 (crypto_length f) ∧ zlen (crypto_content c f) = crypto_length f
      ∧ match data_producer c with
        | None => crypto_buffer f ≠ None
        | Some p => emits (WriteCryptoData p (level f) (crypto_offset f) (crypto_length f)) (crypto_content c f)
        end
  | AckFrame f => good_ack f
  | NewConnectionIdFrame seq retire id token =>
      is_varint seq ∧ 0 <= retire <= seq ∧ zlen token = stateless_reset_token_size
      ∧ zlen id <= kQuicMaxConnectionIdLength
      ∧ (zlen id = kQuicDefaultConnectionIdLength ∨ VariableLengthConnectionIdAllowed c = true)
  | RetireConnectionIdFrame seq => is_varint seq
  | NewTokenFrame token => zlen token <= kMaxNewTokenTokenLength
  | MaxStreamsFrame n _ => is_u32 n
  | StreamsBlockedFrame n u =>
      is_u32 n ∧ n <= GetMaxStreamCount u (InvertPerspective (framer_perspective c))
  | PathResponseFrame d | PathChallengeFrame d => zlen d = kQuicPathFrameBufferSize
  | StopSendingFrame id code => is_u32 id ∧ is_u16 code
  | MessageFrame d n => n = zlen (concat d) ∧ is_u16 n
  end.

(** Padding frames in a row arrive as one. *)
Definition is_padding (f : QuicFrame) : bool := match f with PaddingFrame _ => true | _ => false end.
Fixpoint padding_apart (fs : list QuicFrame) : Prop :=
  match fs with
  | f :: ((g :: _) as fs') => ¬ (is_padding f = true ∧ is_padding g = true) ∧ padding_apart fs'
  | _ => True
  end.

(** ** Writing puts these bytes *)

Context {EL : EndianLaws}.

Lemma emits_varint v : is_varint v → emits (Writer.WriteVarInt62 v) (varint v).
Proof. apply WriterSpec.emits_WriteVarInt62. Qed.

Lemma emits_u16 v : is_u16 v → emits (Writer.WriteUInt16 v) (u16_bytes v).
Proof. intros H. apply (WriterSpec.emits_WriteUInt NET 2 v). done. Qed.

Lemma emits_if (b : bool) x y d1 d2 :
  (b = true → emits x d1) → (b = false → emits y d2) → emits (if b then x else y) (if b then d1 else d2).
Proof. destruct b; auto. Qed.

Lemma emits_decide P `{Decision P} x y d1 d2 :
  (P → emits x d1) → (¬ P → emits y d2) → emits (if decide P then x else y) (if decide P then d1 else d2).
Proof. intros. destruct (decide P); auto. Qed.

Lemma emits_ret_nil : emits (Writer.ret true) [].
Proof. apply WriterSpec.emits_ret. Qed.

(** [a &&& b &&& ...] associates to the left. *)
Lemma emits_then x y d1 d2 d : emits x d1 → emits y d2 → d = d1 ++ d2 → emits (x &&& y) d.
Proof. intros H1 H2 ->. by apply WriterSpec.emits_andthen. Qed.

Lemma u32_varint v : is_u32 v → is_varint v.
Proof. unfold is_varint, two32. lia. Qed.

Lemma u16_varint v : is_u16 v → is_varint v.
Proof. unfold is_varint, two16. lia. Qed.

Lemma zlen_u16_varint {A} (l : list A) : zlen l <= 65535 → is_varint (zlen l).
Proof. pose proof (zlen_nonneg l). unfold is_varint. lia. Qed.

Lemma wrap64_sub x y : 0 <= y <= x → x < 2 ^ 62 → wrap64 (x - y) = x - y.
Proof. intros. unfold wrap64. apply Z.mod_small. unfold two64. lia. Qed.

Lemma emits_ack_blocks smallest itr :
  smallest < 2 ^ 62 → (∀ i, i ∈ itr → 1 <= imin i < imax i) →
  StronglySorted (λ i j, imax j < imin i) itr → (∀ i, i ∈ itr → imax i < smallest) →
  emits (append_ack_blocks smallest itr) (ack_blocks_bytes smallest itr).
Proof.
  revert smallest. induction itr as [|i itr IH]; intros smallest Hs Hi Hsort Hlt; cbn [append_ack_blocks ack_blocks_bytes].
  { apply emits_ret_nil. }
  pose proof (Hi i ltac:(left)). pose proof (Hlt i ltac:(left)). inversion Hsort as [|? ? Hsort' Hall]; subst.
  rewrite Forall_forall in Hall. rewrite (wrap64_sub smallest), (wrap64_sub (imax i)), !(wrap64_sub _ 1) by lia.
  eapply emits_then; [apply emits_then with (d1 := varint (smallest - imax i - 1)) (d2 := varint (imax i - imin i - 1))|..].
  { apply emits_varint. unfold is_varint. lia. }
  { apply emits_varint. unfold is_varint. lia. }
  { done. }
  2: by rewrite <-app_assoc.
  apply IH; [lia| |done|].
  - intros j Hj. apply Hi. by right.
  - intros j Hj. by apply Hall.
Qed.

Lemma valid_rev l : IntervalSet.valid l → StronglySorted (λ i j, imax j < imin i) (rev l) ∧ ∀ i, i ∈ rev l → imin i < imax i.
Proof.
  intros [Hs Hf]. split.
  - induction Hs as [|i l Hs IH Hall]; cbn [rev]; [constructor|]. apply strongly_sorted_app.
    inversion Hf; subst. split; [by apply IH|]. split; [repeat constructor|].
    intros x y Hx Hy. apply list_elem_of_singleton in Hy as ->. apply list_elem_of_In, in_rev, list_elem_of_In in Hx.
    rewrite Forall_forall in Hall. by apply Hall.
  - intros i Hi. apply list_elem_of_In, in_rev, list_elem_of_In in Hi. rewrite Forall_forall in Hf. by apply Hf.
Qed.

(** The blocks of a good ACK frame. *)
Lemma good_ack_blocks f :
  good_ack f → let '(smallest, itr) := ack_first_block f in
  1 <= smallest <= ReceivedPacketManager.largest_acked f ∧ zlen itr < 2 ^ 62
  ∧ (∀ i, i ∈ itr → 1 <= imin i < imax i) ∧ StronglySorted (λ i j, imax j < imin i) itr
  ∧ (∀ i, i ∈ itr → imax i < smallest).
Proof.
  intros (Hlg&_&Hv&Hz&H1&Hmax&_). unfold ack_first_block. destruct (valid_rev _ Hv) as [Hs Hne].
  assert (Hin : ∀ i, i ∈ rev (ReceivedPacketManager.packets f) → 1 <= imin i
    ∧ (imax i - 1 = ReceivedPacketManager.largest_acked f ∨ imax i < ReceivedPacketManager.largest_acked f)).
  { intros i Hi. apply list_elem_of_In, in_rev, list_elem_of_In in Hi. auto. }
  assert (Hlen : zlen (rev (ReceivedPacketManager.packets f)) < 2 ^ 62) by (unfold zlen in *; by rewrite length_rev).
  destruct (rev (ReceivedPacketManager.packets f)) as [|i itr].
  { split; [lia|]. split; [done|]. split; [by intros i ?%elem_of_nil|]. split; [constructor|by intros i ?%elem_of_nil]. }
  pose proof (Hin i ltac:(left)) as [Hi Hm]. pose proof (Hne i ltac:(left)).
  inversion Hs as [|? ? Hs' Hall]; subst. rewrite Forall_forall in Hall. rewrite zlen_cons in Hlen.
  destruct (Z.eqb_spec (imax i - 1) (ReceivedPacketManager.largest_acked f)).
  - split; [lia|]. split; [lia|]. split; [|split; [done|exact Hall]].
    intros j Hj. pose proof (Hin j ltac:(by right)). pose proof (Hne j ltac:(by right)). lia.
  - split; [lia|]. split; [rewrite zlen_cons; lia|]. split; [|split; [done|]].
    + intros j Hj. pose proof (Hin j Hj). pose proof (Hne j Hj). lia.
    + intros j [->|Hj]%elem_of_cons; [lia|]. specialize (Hall j Hj). lia.
Qed.

Lemma ack_delay_small f : good_ack f → is_varint (ack_delay_wire f).
Proof.
  intros (_&Hd&_). unfold ack_delay_wire, is_varint, kIetfAckTimestampShift, kVarInt62MaxValue, wrap64.
  destruct (_ =? _); [lia|]. rewrite Z.mod_small by (unfold two63, two64 in *; lia).
  rewrite Z.shiftr_div_pow2 by lia. unfold two63 in *. split; [apply Z.div_pos; lia|]. apply Z.div_lt_upper_bound; lia.
Qed.

Lemma emits_ack f :
  good_ack f → emits (AppendIetfAckFrameAndTypeByte f) (ack_frame_type f :: ack_bytes f).
Proof.
  intros Hg. pose proof (good_ack_blocks f Hg) as Hb. pose proof (ack_delay_small f Hg) as Hd.
  destruct Hg as (Hlg&_&_&_&_&_&E0&E1&E2). unfold AppendIetfAckFrameAndTypeByte, ack_bytes, ReceivedPacketManager.LargestAcked.
  set (ecn := if _ =? IETF_ACK_ECN then _ else Writer.ret true).
  assert (Hecn : emits ecn (if ack_frame_type f =? IETF_ACK_ECN
    then varint (ReceivedPacketManager.ect_0_count f) ++ varint (ReceivedPacketManager.ect_1_count f)
         ++ varint (ReceivedPacketManager.ecn_ce_count f) else [])).
  { apply emits_if; intros _; [|apply emits_ret_nil]. rewrite app_assoc.
    apply WriterSpec.emits_andthen; [apply WriterSpec.emits_andthen|]; by apply emits_varint. }
  clearbody ecn. set (d_ecn := if _ =? IETF_ACK_ECN then _ else []) in *. clearbody d_ecn.
  assert (Htail : emits (match rev (ReceivedPacketManager.packets f) with
      | [] => Writer.WriteVarInt62 0 &&& Writer.WriteVarInt62 0
      | i :: itr =>
          let '(ack_block_smallest, itr) :=
            if PacketNumber.sub (imax i) 1 =? ReceivedPacketManager.largest_acked f then (imin i, itr)
            else (ReceivedPacketManager.largest_acked f, i :: itr) in
          Writer.WriteVarInt62 (zlen itr)
          &&& Writer.WriteVarInt62 (wrap64 (ReceivedPacketManager.largest_acked f - ack_block_smallest))
          &&& append_ack_blocks ack_block_smallest itr
      end)
    (let '(smallest, itr) := ack_first_block f in
     varint (zlen itr) ++ varint (ReceivedPacketManager.largest_acked f - smallest) ++ ack_blocks_bytes smallest itr)).
  { assert (Hgo : ∀ smallest itr, 1 <= smallest <= ReceivedPacketManager.largest_acked f ∧ zlen itr < 2 ^ 62
      ∧ (∀ i, i ∈ itr → 1 <= imin i < imax i) ∧ StronglySorted (λ i j, imax j < imin i) itr
      ∧ (∀ i, i ∈ itr → imax i < smallest) →
      emits (Writer.WriteVarInt62 (zlen itr)
          &&& Writer.WriteVarInt62 (wrap64 (ReceivedPacketManager.largest_acked f - smallest))
          &&& append_ack_blocks smallest itr)
        (varint (zlen itr) ++ varint (ReceivedPacketManager.largest_acked f - smallest) ++ ack_blocks_bytes smallest itr)).
    { intros smallest itr (G1&G2&G3&G4&G5). unfold wrap64. rewrite Z.mod_small by (unfold two64; lia). rewrite app_assoc.
      apply WriterSpec.emits_andthen; [apply WriterSpec.emits_andthen; apply emits_varint|apply emits_ack_blocks; [lia|done..]].
      - pose proof (zlen_nonneg itr). unfold is_varint. lia.
      - unfold is_varint. lia. }
    unfold ack_first_block in *. destruct (rev (ReceivedPacketManager.packets f)) as [|i itr] eqn:Er.
    - rewrite Z.sub_diag. cbn [ack_blocks_bytes]. rewrite app_nil_r. apply WriterSpec.emits_andthen; apply emits_varint; done.
    - assert (Hi : 1 <= imax i < two64).
      { destruct (Z.eqb_spec (imax i - 1) (ReceivedPacketManager.largest_acked f)); [unfold two64; lia|].
        destruct Hb as (_&_&H3&_&H5). pose proof (H3 i ltac:(left)). pose proof (H5 i ltac:(left)). unfold two64. lia. }
      rewrite PacketNumber.sub_small by lia.
      destruct (imax i - 1 =? ReceivedPacketManager.largest_acked f); by apply Hgo. }
  destruct (ack_first_block f) as [smallest itr].
  eapply emits_then; [|exact Htail|].
  - eapply emits_then; [|exact Hecn|reflexivity].
    eapply emits_then; [|by apply emits_varint|reflexivity].
    eapply emits_then; [apply WriterSpec.emits_WriteUInt8|apply emits_varint; unfold is_varint; lia|reflexivity].
  - cbn [app]. by rewrite <-!app_assoc.
Qed.

Lemma emits_slices l : emits (append_slices l) (concat l).
Proof.
  induction l as [|d l IH]; cbn [append_slices concat]; [apply emits_ret_nil|].
  apply WriterSpec.emits_andthen; [apply WriterSpec.emits_WriteBytes|done].
Qed.

Lemma truncated_length d : zlen (TruncateErrorString d) <= kMaxErrorStringLength.
Proof.
  unfold TruncateErrorString. destruct (Z.leb_spec (zlen d) kMaxErrorStringLength); [done|].
  unfold zlen, kMaxErrorStringLength in *. rewrite length_take. lia.
Qed.

Lemma emits_byte v : emits (Writer.WriteUInt8 v) [v].
Proof. apply WriterSpec.emits_WriteUInt8. Qed.

Lemma emits_bytes d : emits (Writer.WriteBytes d) d.
Proof. apply WriterSpec.emits_WriteBytes. Qed.

Lemma emits_StringPieceVarInt62 s :
  is_varint (zlen s) → emits (Writer.WriteStringPieceVarInt62 s) (varint (zlen s) ++ s).
Proof.
  intros Hs. apply WriterSpec.emits_andthen; [by apply emits_varint|].
  destruct s; [apply emits_ret_nil|apply emits_bytes].
Qed.

Lemma emits_connection_id id : emits (Writer.WriteConnectionId id) id.
Proof. destruct id; [apply emits_ret_nil|apply emits_bytes]. Qed.

Lemma emits_padding n : 0 < n → emits (AppendPaddingFrame n) (replicate (Z.to_nat (n - 1)) 0).
Proof.
  intros Hn. eapply WriterSpec.emits_ext; [|apply WriterSpec.emits_WriteRepeatedByte; lia].
  intros w _. unfold AppendPaddingFrame, Writer.WritePaddingBytes.
  destruct (Z.eqb_spec n 0); [lia|]. destruct (Z.ltb_spec n 0); [lia|done].
Qed.

Lemma emits_eq a d d' : emits a d → d = d' → emits a d'.
Proof. by intros H <-. Qed.

(** A sequence of writes, down to the ranges of the values written. *)
Ltac emit_steps :=
  lazymatch goal with
  | |- WriterSpec.emits _ (Writer.ret true) _ => apply emits_ret_nil
  | |- WriterSpec.emits _ (Writer.WriteVarInt62 _) _ => apply emits_varint
  | |- WriterSpec.emits _ (Writer.WriteUInt16 _) _ => apply emits_u16
  | |- WriterSpec.emits _ (Writer.WriteUInt8 _) _ => apply emits_byte
  | |- WriterSpec.emits _ (Writer.WriteBytes _) _ => apply emits_bytes
  | |- WriterSpec.emits _ (Writer.WriteConnectionId _) _ => apply emits_connection_id
  | |- WriterSpec.emits _ (Writer.WriteStringPieceVarInt62 _) _ => apply emits_StringPieceVarInt62
  | |- WriterSpec.emits _ (if _ then _ else _) _ => first [apply emits_if|apply emits_decide]; intros _; emit_steps
  | |- WriterSpec.emits _ (Writer.andthen _ _) _ => apply WriterSpec.emits_andthen; [emit_steps|emit_steps]
  | _ => idtac
  end.
Ltac emit := eapply emits_eq; [emit_steps; auto using u32_varint, u16_varint|rewrite <-?app_assoc; reflexivity].

Lemma emits_type_byte c f last :
  good c f → match f with AckFrame _ | MessageFrame _ _ => True | _ =>
    emits (AppendIetfTypeByte c f last) [frame_type_byte c f last] end.
Proof.
  unfold AppendIetfTypeByte, frame_type_byte. fold (no_stream c).
  destruct f as [| |ty| | | | | | | | | | | | | | | | | |]; cbn [good]; intros Hg; try done; try apply emits_byte.
  destruct Hg as (Hty&_). destruct ty; [done|apply emits_byte..].
Qed.

Lemma emits_stream c f last :
  good c (StreamFrame f) →
  emits (AppendIetfStreamFrame c f last) (body_bytes c (StreamFrame f) last).
Proof.
  intros (Hid&Hoff&Hlen&Hz&Hp). cbn [body_bytes]. unfold AppendIetfStreamFrame.
  rewrite !app_assoc. apply WriterSpec.emits_andthen.
  - rewrite <-!app_assoc. emit.
  - destruct (Z.eqb_spec (data_length f) 0) as [E|E].
    + rewrite E in Hz. destruct (stream_content c f) as [|z l]; [apply emits_ret_nil|].
      rewrite zlen_cons in Hz. pose proof (zlen_nonneg l). lia.
    + unfold stream_content in *. destruct (data_producer c); [done|apply emits_bytes].
Qed.

Lemma emits_frame c f last : good c f → emits (append_frame c f last) (frame_bytes c f last).
Proof.
  intros Hg. pose proof (emits_type_byte c f last Hg) as Ht. unfold append_frame, frame_bytes.
  change (?b :: ?d) with ([b] ++ d).
  destruct f as [n|id code off|ty code details frame_type|? ? ?|id off|id off|?| |f|f|f| |seq retire id token|n u|n u|d|d|id code|d n
    |token|seq]; try (exfalso; exact Hg); try (apply WriterSpec.emits_andthen; [exact Ht|]; clear Ht);
    cbn [good body_bytes frame_type_byte] in *.
  - by apply emits_padding.
  - destruct Hg as (?&?&?). unfold AppendIetfResetStreamFrame. emit.
  - destruct Hg as (Hty&Hc&Hf). unfold AppendIetfConnectionCloseFrame.
    assert (is_varint (zlen (TruncateErrorString details))).
    { pose proof (truncated_length details). apply zlen_u16_varint. unfold kMaxErrorStringLength in *. lia. }
    destruct ty; [done|emit..].
  - destruct Hg as (?&?). unfold AppendMaxDataFrame, AppendMaxStreamDataFrame. fold (no_stream c id). emit.
  - destruct Hg as (?&?). unfold AppendBlockedFrame, AppendIetfBlockedFrame, AppendStreamBlockedFrame.
    fold (no_stream c id). emit.
  - apply emits_ret_nil.
  - destruct Hg as (?&?&?&Hp). unfold AppendCryptoFrame. rewrite app_assoc.
    apply WriterSpec.emits_andthen; [emit|]. unfold crypto_content in *.
    destruct (data_producer c); [done|]. destruct (crypto_buffer f); [emit|done].
  - by apply emits_stream.
  - apply (WriterSpec.emits_andthen _ _ _ []); [apply emits_ret_nil|by apply emits_ack].
  - apply emits_ret_nil.
  - destruct Hg as (?&?&?&?&?). unfold AppendNewConnectionIdFrame.
    assert (is_varint retire) by (unfold is_varint in *; lia). emit.
  - unfold AppendMaxStreamsFrame. emit.
  - destruct Hg as (?&?). unfold AppendStreamsBlockedFrame. emit.
  - unfold AppendPathResponseFrame. emit.
  - unfold AppendPathChallengeFrame. emit.
  - destruct Hg as (?&?). unfold AppendStopSendingFrame. emit.
  - destruct Hg as (?&?). apply (WriterSpec.emits_andthen _ _ _ []); [apply emits_ret_nil|].
    unfold AppendMessageFrameAndTypeByte. change (?b :: ?d) with ([b] ++ d). rewrite app_assoc.
    apply WriterSpec.emits_andthen; [|apply emits_slices].
    apply WriterSpec.emits_andthen; [apply emits_byte|]. emit.
  - unfold AppendNewTokenFrame. assert (is_varint (zlen token)) by by apply zlen_u16_varint. emit.
  - unfold AppendRetireConnectionIdFrame. emit.
Qed.

Lemma emits_frames c fs : Forall (good c) fs → emits (append_frames c fs) (frames_bytes c fs).
Proof.
  induction 1 as [|f fs Hf _ IH]; cbn [append_frames frames_bytes]; [apply emits_ret_nil|].
  apply WriterSpec.emits_andthen; [by apply emits_frame|done].
Qed.

(** ** Parsing takes them back *)

(** [parses last a d x]: like [reads], but the last frame of a packet may take all that is left. *)
Definition parses {A} (last : bool) (a : Reader.action A) (d : list Z) (x : A) : Prop :=
  ∀ r k, ReaderSpec.wf r → Reader.endianness r = NET → ReaderSpec.rest r = d ++ k → (last = true → k = []) →
  ∃ r', a r = (Some x, r') ∧ ReaderSpec.wf r' ∧ ReaderSpec.rest r' = k ∧ Reader.endianness r' = NET.

Lemma parses_reads {A} last (a : Reader.action A) d x : reads a d x → parses last a d x.
Proof. intros H r k Hw He Hr _. by apply H. Qed.

Lemma parses_bind {A B} last (a : Reader.action A) (f : A → Reader.action B) d1 d2 x y :
  reads a d1 x → parses last (f x) d2 y → parses last (Reader.bind a f) (d1 ++ d2) y.
Proof.
  intros Ha Hf r k Hw He Hr Hk. rewrite <-app_assoc in Hr.
  destruct (Ha r (d2 ++ k) Hw He Hr) as (r1&E1&Hw1&Hr1&He1).
  destruct (Hf r1 k Hw1 He1 Hr1 Hk) as (r2&E2&Hr2). exists r2. unfold Reader.bind. by rewrite E1.
Qed.

Lemma parses_nil {A B} last (a : Reader.action A) (f : A → Reader.action B) d x y :
  reads a [] x → parses last (f x) d y → parses last (Reader.bind a f) d y.
Proof. apply (parses_bind last a f []). Qed.

Lemma parses_ret {A} last (x : A) : parses last (Reader.ret x) [] x.
Proof. apply parses_reads, ReaderSpec.reads_ret. Qed.

Lemma reads_varint v : is_varint v → reads Reader.ReadVarInt62 (varint v) v.
Proof.
  intros H. destruct (WriterSpec.GetVarInt62Len_spec v H) as (?&?&_). unfold is_varint in H.
  apply ReaderSpec.reads_ReadVarInt62; [done|lia].
Qed.

Lemma reads_varint_u32 v : is_u32 v → reads Reader.ReadVarIntU32 (varint v) v.
Proof.
  intros H. rewrite <-(app_nil_r (varint v)). eapply ReaderSpec.reads_bind; [by apply reads_varint, u32_varint|].
  intros r k Hw He Hr. exists r. unfold kMaxQuicStreamId, two32 in *. destruct (Z.ltb_spec 4294967295 v); [lia|done].
Qed.

Lemma reads_u16 v : is_u16 v → reads Reader.ReadUInt16 (u16_bytes v) v.
Proof. intros H. by apply (ReaderSpec.reads_ReadUInt NET 2 v). Qed.

Lemma reads_u8 v : is_byte v → reads Reader.ReadUInt8 [v] v.
Proof. apply ReaderSpec.reads_ReadUInt8. Qed.

Lemma reads_guard b : b = true → reads (guard b) [] tt.
Proof. intros ->. apply ReaderSpec.reads_ret. Qed.

Lemma reads_bytes n d : zlen d = n → reads (Reader.ReadBytes n) d d.
Proof. intros <-. apply ReaderSpec.reads_ReadBytes. Qed.

Lemma reads_piece n d : zlen d = n → reads (Reader.ReadStringPiece n) d d.
Proof. intros <-. apply ReaderSpec.reads_ReadStringPiece. Qed.

Lemma parses_map {A B} last (a : Reader.action A) (f : A → B) d x :
  reads a d x → parses last (y <~ a; Reader.ret (f y)) d (f x).
Proof. intros. by apply parses_reads, ReaderSpec.reads_map. Qed.

(** The length of a frame that runs to the end of the packet. *)
Lemma parses_remaining {B} (g : list Z → B) d :
  zlen d < two16 →
  parses true (len <~ (λ r, (Some (wrap16 (Reader.BytesRemaining r)), r)); data <~ Reader.ReadStringPiece len;
               Reader.ret (g data)) d (g d).
Proof.
  intros Hd r k Hw He Hr Hk. specialize (Hk eq_refl) as ->. rewrite app_nil_r in Hr.
  pose proof (ReaderSpec.rest_length r Hw) as Hl. rewrite Hr in Hl. pose proof (zlen_nonneg d).
  unfold Reader.bind at 1. rewrite <-Hl. unfold wrap16. rewrite Z.mod_small by lia.
  apply (parses_map true _ g d d (reads_piece _ d eq_refl) r []); [done|done|by rewrite app_nil_r|done].
Qed.

Lemma parses_remaining_payload d :
  zlen d < two16 →
  parses true (ProcessMessageFrame true) d (MessageFrame [d] (zlen d)).
Proof.
  intros Hd r k Hw He Hr Hk. specialize (Hk eq_refl) as ->. rewrite app_nil_r in Hr.
  pose proof (ReaderSpec.rest_length r Hw) as Hl. rewrite Hr in Hl. pose proof (zlen_nonneg d).
  destruct (ReaderSpec.reader_skip_spec r d [] Hw) as (_&Hat&Hws&Hrs&Hes); [by rewrite app_nil_r|].
  exists (Reader.skip (zlen d) r). rewrite Hes. split; [|done].
  assert (E : Reader.skip (zlen d) r = Reader.mk (Reader.data r) (Reader.len r) (Reader.len r) (Reader.endianness r)).
  { unfold Reader.skip, Reader.BytesRemaining in *. f_equal. lia. }
  rewrite E. unfold ProcessMessageFrame, Reader.ReadRemainingPayload, Reader.PeekRemainingPayload.
  unfold Reader.BytesRemaining in Hl. rewrite <-Hl, Hat. unfold wrap16. by rewrite Z.mod_small by lia.
Qed.

(** The bits of the type of a stream frame. *)
Lemma stream_type_bits f last :
  let ty := GetIetfStreamFrameTypeByte f last in
  IS_IETF_STREAM_FRAME ty = true ∧ has_bit ty IETF_STREAM_FRAME_OFF_BIT = negb (offset f =? 0)
  ∧ has_bit ty IETF_STREAM_FRAME_LEN_BIT = negb last ∧ has_bit ty IETF_STREAM_FRAME_FIN_BIT = fin f
  ∧ 0 <= ty < 64.
Proof. unfold GetIetfStreamFrameTypeByte. destruct last, (offset f =? 0), (fin f); done. Qed.

Lemma parses_stream c f last :
  good c (StreamFrame f) →
  parses last (ProcessIetfStreamFrame (GetIetfStreamFrameTypeByte f last)) (body_bytes c (StreamFrame f) last)
    (received c (StreamFrame f)).
Proof.
  intros (Hid&Hoff&Hlen&Hz&_). destruct (stream_type_bits f last) as (_&Ho&Hl&Hf&_). cbn [body_bytes received].
  unfold ProcessIetfStreamFrame. rewrite Ho, Hl, Hf. eapply parses_bind; [by apply reads_varint_u32|]. rewrite <-Hz.
  apply (parses_bind _ _ _ _ _ (offset f)).
  { destruct (Z.eqb_spec (offset f) 0) as [->|]; cbn [negb]; [apply ReaderSpec.reads_ret|by apply reads_varint]. }
  destruct last; cbn [negb app].
  - apply (parses_remaining (λ d, StreamFrame (mk_stream (stream_id f) (fin f) (offset f) (zlen d) (Some d)))). lia.
  - eapply parses_bind.
    { rewrite <-(app_nil_r (varint _)). eapply ReaderSpec.reads_bind; [apply reads_varint, zlen_u16_varint; unfold two16 in *; lia|].
      destruct (Z.ltb_spec 65535 (zlen (stream_content c f))); [unfold two16 in *; lia|]. apply ReaderSpec.reads_ret. }
    apply (parses_map _ _ (λ d, StreamFrame (mk_stream (stream_id f) (fin f) (offset f) (zlen d) (Some d)))).
    by apply reads_piece.
Qed.

Lemma parses_crypto c f last :
  good c (CryptoFrame f) →
  parses last ProcessCryptoFrame (body_bytes c (CryptoFrame f) last) (received c (CryptoFrame f)).
Proof.
  intros (Hoff&Hlen&Hz&_). cbn [body_bytes received]. unfold ProcessCryptoFrame.
  eapply parses_bind; [by apply reads_varint|]. eapply parses_bind; [by apply reads_varint, u16_varint|].
  eapply parses_nil; [apply reads_guard; unfold two16 in *; lia|].
  apply (parses_map _ _ (λ d, CryptoFrame (mk_crypto _ _ _ (Some d)))). by apply reads_piece.
Qed.

Lemma parses_new_connection_id c seq retire id token last :
  let f := NewConnectionIdFrame seq retire id token in
  good c f → parses last (ProcessNewConnectionIdFrame c) (body_bytes c f last) f.
Proof.
  intros f (Hs&Hr&Ht&Hid&Hv). cbn [body_bytes]. unfold ProcessNewConnectionIdFrame. pose proof (zlen_nonneg id).
  eapply parses_bind; [by apply reads_varint|]. unfold is_varint in Hs.
  eapply parses_bind; [apply reads_varint; unfold is_varint; lia|].
  eapply parses_nil; [apply reads_guard; lia|]. change (?b :: ?d) with ([b] ++ d).
  eapply parses_bind; [apply reads_u8; unfold two8, kQuicMaxConnectionIdLength in *; lia|].
  eapply parses_nil; [apply reads_guard; lia|].
  eapply parses_nil; [apply reads_guard; destruct Hv as [->| ->]; [done|by rewrite andb_false_r]|].
  eapply parses_bind; [by apply ReaderSpec.reads_ReadConnectionId|].
  apply (parses_map _ _ (NewConnectionIdFrame seq retire id)). by apply reads_bytes.
Qed.

(** Every frame but ACKs and padding is parsed by one function, which gives the frame received. *)
Definition parsed_by (c : framer) (f : QuicFrame) (last : bool) (a : Reader.action QuicFrame) (e : QuicErrorCode) : Prop :=
  (∀ v r told, process_frame c v (frame_type_byte c f last) r told = visit v a e r told)
  ∧ parses last a (body_bytes c f last) (received c f).

Lemma parses_frame c f last :
  good c f → match f with AckFrame _ | PaddingFrame _ => True | _ => ∃ a e, parsed_by c f last a e end.
Proof.
  intros Hg. unfold parsed_by.
  destruct f as [n|id code off|ty code details frame_type|? ? ?|id off|id off|?| |f|f|f| |seq retire id token|n u|n u|d|d|id code|d n
    |token|seq]; try (exfalso; exact Hg); try exact I; cbn [frame_type_byte].
  - exists ProcessIetfResetStreamFrame, QUIC_INVALID_RST_STREAM_DATA. split; [done|]. destruct Hg as (?&?&?).
    eapply parses_bind; [by apply reads_varint_u32|]. eapply parses_bind; [by apply reads_u16|].
    by apply (parses_map _ _ (RstStreamFrame id code)), reads_varint.
  - exists (ProcessIetfConnectionCloseFrame ty), QUIC_INVALID_CONNECTION_CLOSE_DATA. destruct Hg as (Hty&Hc&Hf).
    split; [by destruct ty|]. cbn [body_bytes received]. pose proof (truncated_length details) as Hl.
    eapply parses_bind; [by apply reads_u16|].
    eapply (parses_bind _ _ _ _ _ (if decide (ty = IETF_QUIC_TRANSPORT_CONNECTION_CLOSE) then frame_type else 0)).
    { destruct (decide _); [by apply reads_varint|apply ReaderSpec.reads_ret]. }
    eapply parses_bind; [apply reads_varint, zlen_u16_varint; unfold kMaxErrorStringLength in *; lia|].
    by apply (parses_map _ _ (λ d, ConnectionCloseFrame ty code d _)), reads_piece.
  - destruct Hg as [Hid Hoff]. cbn [body_bytes received]. destruct (no_stream c id) eqn:E.
    + exists (ProcessMaxDataFrame c), QUIC_INVALID_MAX_DATA_FRAME_DATA. split; [done|].
      apply Z.eqb_eq in E. rewrite E. by apply (parses_map _ _ (WindowUpdateFrame _)), reads_varint.
    + exists ProcessMaxStreamDataFrame, QUIC_INVALID_MAX_STREAM_DATA_FRAME_DATA. split; [done|].
      eapply parses_bind; [by apply reads_varint_u32|]. by apply (parses_map _ _ (WindowUpdateFrame id)), reads_varint.
  - destruct Hg as [Hid Hoff]. cbn [body_bytes received]. destruct (no_stream c id) eqn:E.
    + exists (ProcessIetfBlockedFrame c), QUIC_INVALID_BLOCKED_DATA. split; [done|].
      apply Z.eqb_eq in E. rewrite E. by apply (parses_map _ _ (BlockedFrame _)), reads_varint.
    + exists ProcessStreamBlockedFrame, QUIC_INVALID_STREAM_BLOCKED_DATA. split; [done|].
      eapply parses_bind; [by apply reads_varint_u32|]. by apply (parses_map _ _ (BlockedFrame id)), reads_varint.
  - exists (Reader.ret PingFrame), QUIC_INVALID_FRAME_DATA. split; [done|]. apply parses_ret.
  - exists ProcessCryptoFrame, QUIC_INVALID_FRAME_DATA. split; [done|]. by apply parses_crypto.
  - exists (ProcessIetfStreamFrame (GetIetfStreamFrameTypeByte f last)), QUIC_INVALID_STREAM_DATA.
    destruct (stream_type_bits f last) as (Hs&_). split; [|by apply parses_stream].
    intros v r told. unfold process_frame. by rewrite Hs.
  - exists (Reader.ret PingFrame), QUIC_INVALID_FRAME_DATA. split; [done|]. apply parses_ret.
  - exists (ProcessNewConnectionIdFrame c), QUIC_INVALID_NEW_CONNECTION_ID_DATA. split; [done|].
    by apply parses_new_connection_id.
  - exists (ProcessMaxStreamsFrame (frame_type_byte c (MaxStreamsFrame n u) last)), QUIC_MAX_STREAMS_DATA.
    split; [by destruct u|]. cbn [body_bytes received].
    destruct u; [by apply (parses_map _ _ (λ n, MaxStreamsFrame n true)), reads_varint_u32|].
    by apply (parses_map _ _ (λ n, MaxStreamsFrame n false)), reads_varint_u32.
  - exists (ProcessStreamsBlockedFrame c (frame_type_byte c (StreamsBlockedFrame n u) last)), QUIC_STREAMS_BLOCKED_DATA.
    split; [by destruct u|]. destruct Hg as [Hn Hmax]. cbn [body_bytes received]. unfold ProcessStreamsBlockedFrame.
    replace (frame_type_byte c (StreamsBlockedFrame n u) last =? IETF_STREAMS_BLOCKED_UNIDIRECTIONAL) with u by by destruct u.
    rewrite <-(app_nil_r (varint n)). eapply parses_bind; [by apply reads_varint_u32|].
    eapply parses_nil; [apply reads_guard; lia|]. apply parses_ret.
  - exists ProcessPathResponseFrame, QUIC_INVALID_PATH_RESPONSE_DATA. split; [done|].
    by apply (parses_map _ _ PathResponseFrame), reads_bytes.
  - exists ProcessPathChallengeFrame, QUIC_INVALID_PATH_CHALLENGE_DATA. split; [done|].
    by apply (parses_map _ _ PathChallengeFrame), reads_bytes.
  - exists ProcessStopSendingFrame, QUIC_INVALID_STOP_SENDING_FRAME_DATA. split; [done|]. destruct Hg.
    eapply parses_bind; [by apply reads_varint_u32|]. by apply (parses_map _ _ (StopSendingFrame id)), reads_u16.
  - exists (ProcessMessageFrame last), QUIC_INVALID_MESSAGE_DATA. split; [by destruct last|]. destruct Hg as [-> Hn].
    cbn [body_bytes received]. destruct last; cbn [negb app].
    + apply parses_remaining_payload. lia.
    + unfold ProcessMessageFrame. eapply parses_bind; [by apply reads_varint, u16_varint|].
      unfold wrap16. rewrite Z.mod_small by lia.
      by apply (parses_map _ _ (λ d, MessageFrame [d] _)), reads_piece.
  - exists ProcessNewTokenFrame, QUIC_INVALID_NEW_TOKEN. split; [done|]. cbn [good] in Hg.
    eapply parses_bind; [by apply reads_varint, zlen_u16_varint|].
    eapply parses_nil; [apply reads_guard; lia|]. by apply (parses_map _ _ NewTokenFrame), reads_piece.
  - exists ProcessRetireConnectionIdFrame, QUIC_INVALID_RETIRE_CONNECTION_ID_DATA. split; [done|].
    by apply (parses_map _ _ RetireConnectionIdFrame), reads_varint.
Qed.

(** What an operation leaves: a reader in front of [k]. *)
Definition left (r : Reader.t) (k : list Z) : Prop :=
  ReaderSpec.wf r ∧ ReaderSpec.rest r = k ∧ Reader.endianness r = NET.

Definition starts_nonzero (k : list Z) : Prop := match k with [] => True | b :: _ => b ≠ 0 end.

Lemma peek_first r b k : ReaderSpec.wf r → ReaderSpec.rest r = b :: k → Reader.IsDoneReading r = false ∧ Reader.PeekByte r = b.
Proof.
  intros Hw Hr. pose proof (ReaderSpec.rest_length r Hw) as Hl. rewrite Hr, zlen_cons in Hl.
  pose proof (zlen_nonneg k). unfold Reader.BytesRemaining, Reader.IsDoneReading, Reader.PeekByte in *.
  split; [lia|]. destruct (Z.leb_spec (Reader.len r) (Reader.pos r)); [lia|].
  by apply (ReaderSpec.next_rest r [b] k 0).
Qed.

Lemma done_reading r : ReaderSpec.wf r → Reader.IsDoneReading r = true ↔ ReaderSpec.rest r = [].
Proof.
  intros Hw. pose proof (ReaderSpec.rest_length r Hw) as Hl. unfold Reader.BytesRemaining, Reader.IsDoneReading in *.
  split; intros H; [|rewrite H, zlen_nil in Hl; lia].
  destruct (ReaderSpec.rest r) as [|b k]; [done|]. rewrite zlen_cons in Hl. pose proof (zlen_nonneg k). lia.
Qed.

Lemma skip_padding_spec m n fuel r k :
  left r (replicate m 0 ++ k) → starts_nonzero k → (m <= fuel)%nat →
  ∃ r', skip_padding fuel n r = (n + Z.of_nat m, r') ∧ left r' k.
Proof.
  revert m n r. induction fuel as [|fuel IH]; intros m n r (Hw&Hr&He) Hk Hm; cbn [skip_padding].
  { destruct m; [|lia]. exists r. by rewrite Z.add_0_r. }
  destruct m as [|m]; cbn [replicate app] in Hr.
  - exists r. rewrite Z.add_0_r. split; [|done]. destruct k as [|b k].
    + by rewrite (proj2 (done_reading r Hw) Hr).
    + destruct (peek_first r b k Hw Hr) as [-> ->]. cbn [starts_nonzero] in Hk. by destruct (Z.eqb_spec b 0).
  - destruct (peek_first r _ _ Hw Hr) as [-> ->]. cbn [negb andb Z.eqb].
    destruct (reads_bytes 1 [0] eq_refl r _ Hw He Hr) as (r'&E&Hw'&Hr'&He'). rewrite E. cbn [snd].
    destruct (IH m (n + 1) r' (conj Hw' (conj Hr' He')) Hk ltac:(lia)) as (r2&E2&H2).
    exists r2. split; [|done]. rewrite E2. f_equal. lia.
Qed.

Lemma left_length r d k : left r (d ++ k) → zlen d <= Reader.BytesRemaining r.
Proof.
  intros (Hw&Hr&_). pose proof (ReaderSpec.rest_length r Hw) as Hl. rewrite Hr, zlen_app in Hl.
  pose proof (zlen_nonneg k). lia.
Qed.

(** Padding runs to the next byte that is not zero. *)
Lemma process_padding n r k :
  0 < n → left r (replicate (Z.to_nat (n - 1)) 0 ++ k) → starts_nonzero k →
  ∃ r', ProcessPaddingFrame r = (Some (PaddingFrame n), r') ∧ left r' k.
Proof.
  intros Hn Hl Hk. unfold ProcessPaddingFrame. pose proof (left_length _ _ _ Hl) as Hz.
  unfold zlen in Hz. rewrite length_replicate in Hz.
  destruct (skip_padding_spec _ 1 (Z.to_nat (Reader.BytesRemaining r)) r k Hl Hk ltac:(lia)) as (r'&->&Hl').
  exists r'. split; [|done]. do 3 f_equal. lia.
Qed.

Definition accepts (v : visitor) : Prop := ∀ told e, v told e = true.

Lemma tell_accepts v told e : accepts v → tell v told e = (true, told ++ [e]).
Proof. intros Hv. unfold tell. by rewrite Hv. Qed.

Lemma wrap64_add x y : 0 <= x + y < two64 → wrap64 (x + y) = x + y.
Proof. apply Z.mod_small. Qed.

Lemma varint_length v : is_varint v → 1 <= zlen (varint v).
Proof.
  intros H. destruct (WriterSpec.GetVarInt62Len_spec v H) as (Hl&_). unfold varint.
  rewrite WriterSpec.varint_bytes_length by done. unfold WriterSpec.is_varint_len in Hl. lia.
Qed.

(** Blocks below [smallest]: what a good ACK frame has after the first one. *)
Definition blocks_below (smallest : Z) (itr : list interval) : Prop :=
  (∀ i, i ∈ itr → 1 <= imin i < imax i) ∧ StronglySorted (λ i j, imax j < imin i) itr ∧ (∀ i, i ∈ itr → imax i < smallest).

Lemma blocks_below_cons smallest i itr :
  blocks_below smallest (i :: itr) → 1 <= imin i < imax i ∧ imax i < smallest ∧ blocks_below (imin i) itr.
Proof.
  intros (H1&H2&H3). inversion H2 as [|? ? Hs Hall]; subst. rewrite Forall_forall in Hall.
  split; [apply H1; left|]. split; [apply H3; left|]. split; [|done]. intros j Hj. apply H1. by right.
Qed.

Lemma ack_blocks_length smallest itr :
  smallest < 2 ^ 62 → blocks_below smallest itr → zlen itr <= zlen (ack_blocks_bytes smallest itr).
Proof.
  revert smallest. induction itr as [|i itr IH]; intros smallest Hs Hb; cbn [ack_blocks_bytes]; [done|].
  destruct (blocks_below_cons _ _ _ Hb) as (Hi&Hlt&Hb'). specialize (IH (imin i) ltac:(lia) Hb').
  rewrite zlen_cons, !zlen_app. pose proof (varint_length (smallest - imax i - 1) ltac:(unfold is_varint; lia)).
  pose proof (zlen_nonneg (varint (imax i - imin i - 1))). lia.
Qed.

Lemma read_ack_blocks_spec v fuel smallest itr r k told :
  accepts v → smallest < 2 ^ 62 → blocks_below smallest itr → zlen itr <= Z.of_nat fuel →
  left r (ack_blocks_bytes smallest itr ++ k) →
  ∃ r', read_ack_blocks v fuel (zlen itr) smallest r told
        = Some (true, default smallest (imin <$> last itr), r', told ++ map (λ i, OnAckRange (imin i) (imax i)) itr)
        ∧ left r' k.
Proof.
  intros Hv. revert fuel smallest r told. induction itr as [|i itr IH]; intros fuel smallest r told Hs Hb Hf Hl.
  { exists r. split; [|done]. destruct fuel; cbn; by rewrite app_nil_r. }
  destruct (blocks_below_cons _ _ _ Hb) as (Hi&Hlt&Hb'). rewrite zlen_cons in *. pose proof (zlen_nonneg itr).
  destruct fuel as [|fuel]; [lia|]. cbn [read_ack_blocks]. destruct (Z.eqb_spec (1 + zlen itr) 0); [lia|].
  destruct Hl as (Hw&Hr&He). cbn [ack_blocks_bytes] in Hr. rewrite <-!app_assoc in Hr.
  destruct (reads_varint (smallest - imax i - 1) ltac:(unfold is_varint; lia) r _ Hw He Hr) as (r1&->&Hw1&Hr1&He1).
  rewrite (wrap64_add (smallest - imax i - 1)) by (unfold two64; lia).
  destruct (Z.ltb_spec smallest (smallest - imax i - 1 + 2)); [lia|].
  replace (smallest - 1 - (smallest - imax i - 1)) with (imax i - 0) by lia.
  rewrite (wrap64_sub (imax i) 0), Z.sub_0_r by lia.
  destruct (reads_varint (imax i - imin i - 1) ltac:(unfold is_varint; lia) r1 _ Hw1 He1 Hr1) as (r2&->&Hw2&Hr2&He2).
  rewrite (wrap64_sub (imax i) 1) by lia. unfold FirstSendingPacketNumber, UnackedPacketMap.FirstSendingPacketNumber.
  rewrite wrap64_add by (unfold two64; lia).
  destruct (Z.ltb_spec (imax i - 1) (imax i - imin i - 1 + 1)); [lia|].
  replace (imax i - 1 - (imax i - imin i - 1)) with (imin i - 0) by lia.
  rewrite (wrap64_sub (imin i) 0), Z.sub_0_r by lia.
  rewrite tell_accepts by done. cbn [negb]. rewrite Z.add_simpl_l.
  destruct (IH fuel (imin i) r2 (told ++ [OnAckRange (imin i) (imax i)]) ltac:(lia) Hb' ltac:(lia) (conj Hw2 (conj Hr2 He2)))
    as (r3&E&Hl3). exists r3. split; [|done]. rewrite E. cbn [map]. rewrite <-app_assoc. cbn [app].
  do 4 f_equal. rewrite last_cons. by destruct (last itr).
Qed.

Lemma reads_nil {A B} (a : Reader.action A) (f : A → Reader.action B) d x y :
  reads a [] x → reads (f x) d y → reads (Reader.bind a f) d y.
Proof. exact (ReaderSpec.reads_bind NET a f [] d x y). Qed.

Lemma reads_ecn f :
  good_ack f →
  reads (if ack_frame_type f =? IETF_ACK_ECN
         then _ <~ Reader.ReadVarInt62; _ <~ Reader.ReadVarInt62; _ <~ Reader.ReadVarInt62; Reader.ret tt
         else Reader.ret tt)
    (if ack_frame_type f =? IETF_ACK_ECN
     then varint (ReceivedPacketManager.ect_0_count f) ++ varint (ReceivedPacketManager.ect_1_count f)
          ++ varint (ReceivedPacketManager.ecn_ce_count f) else []) tt.
Proof.
  intros (_&_&_&_&_&_&E0&E1&E2). destruct (_ =? _); [|apply ReaderSpec.reads_ret].
  eapply ReaderSpec.reads_bind; [by apply reads_varint|]. eapply ReaderSpec.reads_bind; [by apply reads_varint|].
  by apply (ReaderSpec.reads_map NET _ (λ _, tt) _ (ReceivedPacketManager.ecn_ce_count f)), reads_varint.
Qed.

Lemma process_ack v f r k told :
  accepts v → good_ack f → left r (ack_bytes f ++ k) →
  ∃ r', ProcessIetfAckFrame v (ack_frame_type f) r told = Some (true, r', told ++ ack_events f) ∧ left r' k.
Proof.
  intros Hv Hg Hl. pose proof (good_ack_blocks f Hg) as Hb. pose proof (ack_delay_small f Hg) as Hd.
  pose proof (reads_ecn f Hg) as Hecn. destruct Hg as (Hlg&_). unfold ProcessIetfAckFrame, ack_events, ack_ranges.
  set (header := Reader.bind _ _). unfold ack_bytes in Hl. destruct (ack_first_block f) as [smallest itr].
  set (ecn := if _ =? _ then _ else []) in *.
  assert (Hh : reads header (varint (ReceivedPacketManager.largest_acked f) ++ varint (ack_delay_wire f) ++ ecn)
    (ReceivedPacketManager.largest_acked f, ack_delay_wire f)).
  { eapply ReaderSpec.reads_bind; [apply reads_varint; unfold is_varint; lia|].
    eapply reads_nil; [apply reads_guard; unfold FirstSendingPacketNumber, UnackedPacketMap.FirstSendingPacketNumber; lia|].
    eapply ReaderSpec.reads_bind; [by apply reads_varint|].
    by apply (ReaderSpec.reads_map NET _ (λ _, (ReceivedPacketManager.largest_acked f, ack_delay_wire f)) _ tt). }
  clearbody header. destruct Hl as (Hw&Hr&He). rewrite <-!app_assoc in Hr.
  destruct (Hh r _ Hw He ltac:(rewrite <-!app_assoc; exact Hr)) as (r1&->&Hw1&Hr1&He1). clear Hr Hw He Hh Hecn.
  clearbody ecn. rewrite tell_accepts by done. cbn [negb].
  destruct Hb as (Hs&Hz&Hb). pose proof (zlen_nonneg itr).
  assert (Hc : reads (count <~ Reader.ReadVarInt62; first <~ Reader.ReadVarInt62; Reader.ret (count, first))
    (varint (zlen itr) ++ varint (ReceivedPacketManager.largest_acked f - smallest))
    (zlen itr, ReceivedPacketManager.largest_acked f - smallest)).
  { eapply ReaderSpec.reads_bind; [apply reads_varint; unfold is_varint; lia|].
    apply (ReaderSpec.reads_map NET _ (λ first, (_, first))), reads_varint. unfold is_varint. lia. }
  destruct (Hc r1 _ Hw1 He1 ltac:(rewrite <-!app_assoc; exact Hr1)) as (r2&->&Hl2). clear Hc Hr1 Hw1 He1.
  destruct Hl2 as (Hw2&Hr2&He2). unfold FirstSendingPacketNumber, UnackedPacketMap.FirstSendingPacketNumber.
  rewrite (wrap64_add (_ - smallest) 1), (wrap64_add _ 1) by (unfold two64; lia).
  destruct (Z.ltb_spec (ReceivedPacketManager.largest_acked f) (ReceivedPacketManager.largest_acked f - smallest + 1)); [lia|].
  replace (ReceivedPacketManager.largest_acked f - (ReceivedPacketManager.largest_acked f - smallest)) with (smallest - 0) by lia.
  rewrite (wrap64_sub smallest 0), Z.sub_0_r by lia. rewrite tell_accepts by done. cbn [negb].
  pose proof (left_length _ _ _ (conj Hw2 (conj Hr2 He2))) as Hlen.
  pose proof (ack_blocks_length smallest itr ltac:(lia) Hb).
  edestruct (read_ack_blocks_spec v (Z.to_nat (Reader.BytesRemaining r2) + 1) smallest itr r2 k) as (r3&->&Hl3);
    [done|lia|done|lia|done|].
  rewrite tell_accepts by done. exists r3. split; [|done]. by rewrite <-!app_assoc.
Qed.

Lemma frame_type_range c f last : good c f → 0 <= frame_type_byte c f last < 64.
Proof.
  intros Hg. destruct f; try done; cbn [frame_type_byte]; try (by repeat case_match).
  - exact (proj2 (proj2 (proj2 (proj2 (stream_type_bits _ last))))).
  - unfold ack_frame_type. by repeat case_match.
Qed.

Lemma frame_type_nonzero c f last : good c f → is_padding f = false → frame_type_byte c f last ≠ 0.
Proof.
  intros Hg Hp. destruct f; try done; cbn [frame_type_byte]; try (by repeat case_match).
  - unfold GetIetfStreamFrameTypeByte. by destruct last, (offset f =? 0), (fin f).
  - unfold ack_frame_type. by repeat case_match.
Qed.

Lemma varint_small b : 0 <= b < 64 → varint b = [b] ∧ Writer.GetVarInt62Len b = 1.
Proof.
  intros Hb. assert (E : Writer.GetVarInt62Len b = 1).
  { rewrite WriterSpec.GetVarInt62Len_cases by (unfold two64; lia). destruct (Z.ltb_spec b (2 ^ 6)); lia. }
  split; [|done]. unfold varint. rewrite E. unfold WriterSpec.varint_bytes, WriterSpec.varint_prefix.
  change (Z.to_nat 1) with 1%nat. unfold be_bytes. cbn [le_bytes rev app Z.eqb Pos.eqb].
  rewrite Z.mul_0_l, Z.add_0_l. f_equal. apply Z.mod_small. lia.
Qed.

Lemma process_one c v f last r k told :
  accepts v → good c f → left r (body_bytes c f last ++ k) → (last = true → k = []) →
  (is_padding f = true → starts_nonzero k) →
  ∃ r', process_frame c v (frame_type_byte c f last) r told = Some (Continue, r', told ++ frame_events c f) ∧ left r' k.
Proof.
  intros Hv Hg Hl Hk Hp.
  assert (Hparsed : (∃ a e, parsed_by c f last a e) → frame_events c f = [OnFrame (received c f)] →
    ∃ r', process_frame c v (frame_type_byte c f last) r told = Some (Continue, r', told ++ frame_events c f) ∧ left r' k).
  { intros (a&e&Ha&Hb) ->. destruct Hl as (Hw&Hr&He). destruct (Hb r k Hw He Hr Hk) as (r'&E&Hl').
    exists r'. split; [|by destruct Hl' as (?&?&?)]. rewrite Ha. unfold visit. by rewrite E, tell_accepts. }
  pose proof (parses_frame c f last Hg) as Hf. destruct f; try exact (Hparsed Hf eq_refl).
  - destruct (process_padding _ r k Hg Hl (Hp eq_refl)) as (r'&E&Hl'). exists r'. split; [|done].
    cbn [frame_type_byte frame_events received]. unfold process_frame. cbn. unfold visit. by rewrite E, tell_accepts.
  - destruct (process_ack v f r k told Hv Hg Hl) as (r'&E&Hl'). exists r'. split; [|done].
    cbn [frame_type_byte frame_events]. unfold process_frame.
    assert (ack_frame_type f = IETF_ACK_ECN ∨ ack_frame_type f = IETF_ACK) as [Et|Et]
      by (unfold ack_frame_type; destruct (_ && _); auto); rewrite Et in *; cbn; by rewrite E.
Qed.

Lemma frames_after_padding c f fs :
  Forall (good c) fs → padding_apart (f :: fs) → is_padding f = true → starts_nonzero (frames_bytes c fs).
Proof.
  intros Hg Hp Hf. destruct fs as [|g fs]; [done|]. cbn. inversion Hg; subst. apply frame_type_nonzero; [done|].
  destruct Hp as [Hp _]. destruct (is_padding g); [by destruct Hp|done].
Qed.

Lemma process_frames_spec c v fs fuel r told :
  accepts v → Forall (good c) fs → padding_apart fs → left r (frames_bytes c fs) → zlen fs <= Z.of_nat fuel →
  process_frames c v fuel r told = (Processed, told ++ concat (map (frame_events c) fs)).
Proof.
  intros Hv Hg. revert fuel r told. induction Hg as [|f fs Hf Hg IH]; intros fuel r told Hp Hl Hz.
  { destruct Hl as (Hw&Hr&_). cbn in Hr. destruct fuel; cbn [process_frames map concat];
      rewrite (proj2 (done_reading r Hw) Hr), app_nil_r; done. }
  rewrite zlen_cons in Hz. pose proof (zlen_nonneg fs). destruct fuel as [|fuel]; [lia|].
  destruct Hl as (Hw&Hr&He). cbn [frames_bytes] in Hr. unfold frame_bytes in Hr. cbn [app] in Hr.
  pose proof (frame_type_range c f (is_last fs) Hf) as Hb. destruct (varint_small _ Hb) as [Ev El].
  cbn [process_frames]. destruct (peek_first r _ _ Hw Hr) as [-> _].
  destruct (reads_varint (frame_type_byte c f (is_last fs)) ltac:(unfold is_varint; lia) r
    (body_bytes c f (is_last fs) ++ frames_bytes c fs) Hw He ltac:(by rewrite Ev)) as (r1&->&Hw1&Hr1&He1).
  pose proof (ReaderSpec.rest_length r Hw) as L0. pose proof (ReaderSpec.rest_length r1 Hw1) as L1.
  rewrite Hr, zlen_cons in L0. rewrite Hr1 in L1.
  rewrite El. destruct (Z.eqb_spec (Reader.BytesRemaining r - Reader.BytesRemaining r1) 1); [|lia]. cbn [negb].
  destruct (process_one c v f (is_last fs) r1 (frames_bytes c fs) told Hv Hf) as (r2&->&Hl2).
  - done.
  - by destruct fs.
  - by apply frames_after_padding.
  - rewrite IH; [|by destruct fs; [|destruct Hp]|done|lia]. cbn [map concat]. by rewrite <-app_assoc.
Qed.

Lemma frames_bytes_length c fs : zlen fs <= zlen (frames_bytes c fs).
Proof.
  induction fs as [|f fs IH]; [done|]. cbn [frames_bytes]. unfold frame_bytes. rewrite zlen_cons, zlen_app, zlen_cons.
  pose proof (zlen_nonneg (body_bytes c f (is_last fs))). lia.
Qed.

(** C6. Round trip. Frames within the limits of the protocol, no two paddings in a row, written by [AppendIetfFrames]
    into a buffer of any size: it returns their length when they fit and 0 otherwise, and never writes past the end.
    The bytes are the encodings of the frames in order, the last one without its length where its type allows, and
    [ProcessIetfFrameData] on them processes the whole packet and gives the visitor every frame in order, ACK frames as
    their ranges from the largest down. *)
Theorem frames_survive_the_wire c v fs capacity :
  Forall (good c) fs → padding_apart fs → fs ≠ [] → accepts v →
  let '(n, w) := AppendIetfFrames c fs (Writer.new capacity NET) in
  n = (if zlen (frames_bytes c fs) <=? Z.of_nat capacity then zlen (frames_bytes c fs) else 0)
  ∧ Writer.length_ w <= Z.of_nat capacity
  ∧ (n ≠ 0 → WriterSpec.written w = frames_bytes c fs
     ∧ ProcessIetfFrameData c v (Reader.new (WriterSpec.written w) NET)
       = (Processed, concat (map (frame_events c) fs))).
Proof.
  intros Hg Hp Hne Hv. unfold AppendIetfFrames.
  pose proof (emits_frames c fs Hg (Writer.new capacity NET) (WriterSpec.writer_new_wf _ _) eq_refl) as H.
  destruct (append_frames c fs _) as [ok w]. destruct H as ([_ Hc]&Hcap&_&_&->&Hok).
  assert (Hr : Writer.remaining (Writer.new capacity NET) = Z.of_nat capacity ∧ Writer.capacity (Writer.new capacity NET) = Z.of_nat capacity).
  { unfold Writer.remaining, Writer.capacity, Writer.new, zlen. simpl. rewrite length_replicate. lia. }
  destruct Hr as [Hr Hc0]. rewrite Hr in *. rewrite Hcap, Hc0 in Hc.
  destruct (Z.leb_spec (zlen (frames_bytes c fs)) (Z.of_nat capacity)) as [Hfit|]; [|done].
  destruct (Hok eq_refl) as [Hw Hn]. split; [exact Hn|]. split; [done|]. intros _. split; [exact Hw|]. rewrite Hw.
  change (WriterSpec.written (Writer.new capacity NET)) with (@nil Z). cbn [app].
  pose proof (frames_bytes_length c fs) as Hlen. pose proof (ReaderSpec.reader_new_wf (frames_bytes c fs) NET) as Hwf.
  pose proof (ReaderSpec.rest_length _ Hwf) as Hrest. rewrite ReaderSpec.new_rest in Hrest.
  unfold ProcessIetfFrameData. destruct (Reader.IsDoneReading _) eqn:Ed.
  { apply done_reading in Ed; [|done]. rewrite ReaderSpec.new_rest in Ed. rewrite Ed in Hlen. destruct fs; [done|].
    rewrite zlen_cons in Hlen. pose proof (zlen_nonneg fs). change (zlen []) with 0 in Hlen. lia. }
  apply (process_frames_spec c v fs); [done..| |lia]. split; [done|]. by rewrite ReaderSpec.new_rest.
Qed.

End endian.

(** ** Any input *)

Section any_input.
Context {EI : EndianImpl} {EL : EndianLaws}.
Abbreviation visitor := (list event → event → bool).

Definition ok_reader (r : Reader.t) : Prop := ReaderSpec.wf r ∧ bytes (Reader.data r).

(** [safe a P]: [a] stays in the input and gives only values with [P]. *)
Definition safe {A} (a : Reader.action A) (P : A → Prop) : Prop :=
  ∀ r, ok_reader r →
  let '(o, r') := a r in
  ok_reader r' ∧ Reader.BytesRemaining r' <= Reader.BytesRemaining r ∧ (∀ x, o = Some x → P x).

Lemma safe_bind {A B} (a : Reader.action A) (f : A → Reader.action B) P Q :
  safe a P → (∀ x, P x → safe (f x) Q) → safe (Reader.bind a f) Q.
Proof.
  intros Ha Hf r Hr. unfold Reader.bind. specialize (Ha r Hr). destruct (a r) as [[x|] r1].
  - destruct Ha as (Hr1&Hl1&Hx). specialize (Hf x (Hx x eq_refl) r1 Hr1). destruct (f x r1) as [o r2].
    destruct Hf as (?&?&?). split; [done|]. split; [lia|done].
  - by destruct Ha as (?&?&_).
Qed.

Lemma safe_mono {A} (a : Reader.action A) (P Q : A → Prop) : safe a P → (∀ x, P x → Q x) → safe a Q.
Proof. intros Ha HPQ r Hr. specialize (Ha r Hr). destruct (a r). naive_solver. Qed.

Lemma safe_ret {A} (x : A) (P : A → Prop) : P x → safe (Reader.ret x) P.
Proof. intros Hx r Hr. unfold Reader.ret. split; [done|]. split; [done|]. by intros ? [= <-]. Qed.

Lemma safe_fails {A} (P : A → Prop) : safe fails P.
Proof. intros r Hr. unfold fails. by split. Qed.

Lemma safe_guard {A} b (a : Reader.action A) Q : (b = true → safe a Q) → safe (Reader.bind (guard b) (λ _, a)) Q.
Proof.
  intros Ha. destruct b; [|intros r Hr; by apply safe_fails].
  eapply safe_bind; [by apply (safe_ret tt (λ _, True))|]. intros ? _. by apply Ha.
Qed.

Lemma safe_if {A} (b : bool) (x y : Reader.action A) P :
  (b = true → safe x P) → (b = false → safe y P) → safe (if b then x else y) P.
Proof. destruct b; auto. Qed.

(** Reading a varint takes at least a byte. *)
Lemma varint_step r :
  ok_reader r →
  let '(o, r') := Reader.ReadVarInt62 r in
  ok_reader r' ∧ Reader.BytesRemaining r' <= Reader.BytesRemaining r
  ∧ (∀ v, o = Some v → is_varint v ∧ Reader.BytesRemaining r' + 1 <= Reader.BytesRemaining r).
Proof.
  intros [Hw Hb]. pose proof (ReaderSpec.ReadVarInt62_any r Hw Hb) as H. cbv zeta in H.
  destruct (_ || _) eqn:Hc; [by rewrite H|]. apply orb_false_iff in Hc as [_ Hc].
  destruct H as (Hl&v&Hv&->&_). unfold Reader.skip, Reader.BytesRemaining, ok_reader, ReaderSpec.wf in *. cbn.
  assert (1 <= Reader.PeekVarInt62Length r) by (unfold WriterSpec.is_varint_len in Hl; lia).
  assert (WriterSpec.varint_limit (Reader.PeekVarInt62Length r) <= 2 ^ 62) by by destruct Hl as [->|[->|[->| ->]]].
  split; [split; [lia|done]|]. split; [lia|]. intros ? [= <-]. split; [|lia]. unfold is_varint. lia.
Qed.

Lemma safe_varint : safe Reader.ReadVarInt62 is_varint.
Proof.
  intros r Hr. pose proof (varint_step r Hr) as H. destruct (Reader.ReadVarInt62 r) as [o r']. destruct H as (?&?&H).
  split; [done|]. split; [done|]. intros v Hv. by apply H.
Qed.

Lemma safe_varint_u32 : safe Reader.ReadVarIntU32 (λ v, is_u32 v).
Proof.
  eapply safe_bind; [apply safe_varint|]. intros v [Hv _] r Hr. unfold kMaxQuicStreamId.
  destruct (Z.ltb_spec 4294967295 v); (split; [done|]; split; [done|]; intros ? [= <-]; unfold two32; lia).
Qed.

Lemma safe_bytes n : 0 <= n → safe (Reader.ReadBytes n) (λ d, zlen d = n ∧ bytes d).
Proof.
  intros Hn r [Hw Hb]. unfold Reader.ReadBytes, Reader.CanRead, ok_reader, ReaderSpec.wf, Reader.BytesRemaining in *.
  destruct (Z.leb_spec n (Reader.len r - Reader.pos r)); cbn.
  - split; [split; [lia|done]|]. split; [lia|]. intros ? [= <-]. unfold Reader.at_pos.
    split; [unfold zlen in *; rewrite length_take, length_drop; lia|]. by apply Forall_take, Forall_drop.
  - split; [split; [lia|done]|]. split; [lia|done].
Qed.

Lemma safe_piece n : 0 <= n → safe (Reader.ReadStringPiece n) (λ d, zlen d = n ∧ bytes d).
Proof. apply safe_bytes. Qed.

Lemma safe_u16 : safe Reader.ReadUInt16 (λ v, is_u16 v).
Proof.
  eapply safe_bind; [by apply safe_bytes|]. intros d [Hz Hd] r Hr. split; [done|]. split; [done|]. intros ? [= <-].
  assert (Hl : length d = 2%nat) by (unfold zlen in Hz; lia).
  pose proof (le_val_bound d Hd) as H1. pose proof (be_val_bound d Hd) as H2. rewrite Hl in *.
  change (pow256 2) with two16 in *. destruct (decide _); [|done].
  pose proof (net_to_host d Hd) as E. rewrite Hl in E. by rewrite E.
Qed.

Lemma safe_u8 : safe Reader.ReadUInt8 (λ v, is_byte v).
Proof.
  eapply safe_bind; [by apply safe_bytes|]. intros d [Hz Hd]. apply safe_ret.
  pose proof (le_val_bound d Hd) as H1. assert (Hl : length d = 1%nat) by (unfold zlen in Hz; lia). rewrite Hl in *. done.
Qed.

Lemma safe_connection_id flag n :
  0 <= n → safe (Reader.ReadConnectionId flag n) (λ d, zlen d = n ∧ n <= kQuicMaxConnectionIdLength).
Proof.
  intros Hn. assert (Hfail : safe (@fails (list Z)) (λ d, zlen d = n ∧ n <= kQuicMaxConnectionIdLength)) by apply safe_fails.
  intros r Hr. unfold Reader.ReadConnectionId. destruct (Z.ltb_spec kQuicMaxConnectionIdLength n); [by apply Hfail|].
  destruct (Z.eqb_spec n 0) as [->|]; [by apply (safe_ret [])|].
  assert (Hbytes : safe (Reader.ReadBytes n) (λ d, zlen d = n ∧ n <= kQuicMaxConnectionIdLength)).
  { eapply safe_mono; [by apply safe_bytes|]. by intros d [? _]. }
  destruct (negb flag); [by apply Hbytes|]. destruct (_ <? n); [by apply Hfail|by apply Hbytes].
Qed.

(** What may be reported: a frame within the limits of the protocol. The data of a message is all there, but its length
    is kept in 16 bits. *)
Definition sane (c : framer) (f : QuicFrame) : Prop :=
  match f with
  | AckFrame _ | MtuDiscoveryFrame => False
  | MessageFrame d n => ∃ m, d = [m] ∧ n = wrap16 (zlen m)
  | f => good (λ _ _, 0) (λ _ _, 0) (mk_framer (transport_version c) (VariableLengthConnectionIdAllowed c) (quic_use_allocated_connection_ids c)
                 (framer_perspective c) None) f
  end.

Ltac safely :=
  repeat first
    [ apply safe_ret
    | apply safe_if; intros ?
    | apply safe_guard; intros ?
    | eapply safe_bind; [first [apply safe_varint_u32|apply safe_varint|apply safe_u16|apply safe_u8
        |apply safe_piece|apply safe_bytes|apply safe_connection_id]|intros ? ?]
    | apply safe_fails ].

Lemma stream_frame_sane c id b off d : is_u32 id → is_varint off → zlen d < two16 → sane c (StreamFrame (mk_stream id b off (zlen d) (Some d))).
Proof.
  intros Hid Hoff Hd. pose proof (zlen_nonneg d). cbn. split; [done|]. split; [done|]. split; [lia|]. split; [|done].
  unfold zlen, stream_content. cbn. rewrite length_take. lia.
Qed.

Lemma safe_stream c ty : safe (ProcessIetfStreamFrame ty) (sane c).
Proof.
  unfold ProcessIetfStreamFrame. eapply safe_bind; [apply safe_varint_u32|]. intros id Hid.
  eapply (safe_bind _ _ is_varint); [destruct (has_bit _ _); [apply safe_varint|by apply safe_ret]|]. intros off Hoff.
  eapply (safe_bind _ _ (λ v, is_u16 v)).
  { destruct (has_bit _ _).
    - eapply safe_bind; [apply safe_varint|]. intros len [Hl _]. destruct (Z.ltb_spec 65535 len); [apply safe_fails|].
      apply safe_ret. unfold two16. lia.
    - intros r Hr. split; [done|]. split; [done|]. intros ? [= <-]. by apply Z.mod_pos_bound. }
  intros len Hlen. eapply safe_bind; [apply safe_piece; lia|]. intros d [Hd _]. apply safe_ret.
  apply stream_frame_sane; [done..|lia].
Qed.

Lemma safe_crypto c : safe ProcessCryptoFrame (sane c).
Proof.
  unfold ProcessCryptoFrame. eapply safe_bind; [apply safe_varint|]. intros off Hoff.
  eapply safe_bind; [apply safe_varint|]. intros len [Hl _]. apply safe_guard. intros Hg.
  eapply safe_bind; [by apply safe_piece|]. intros d [Hd _]. apply safe_ret. cbn. unfold crypto_content, buffer_bytes. cbn.
  split; [done|]. split; [unfold two16; lia|]. split; [|done].
  rewrite take_ge; [done|]. unfold zlen in Hd. lia.
Qed.

Lemma truncate_short d : zlen d <= kMaxErrorStringLength → TruncateErrorString d = d.
Proof. unfold TruncateErrorString. destruct (Z.leb_spec (zlen d) kMaxErrorStringLength); [done|lia]. Qed.

Lemma safe_close c ty : ty ≠ GOOGLE_QUIC_CONNECTION_CLOSE → safe (ProcessIetfConnectionCloseFrame ty) (sane c).
Proof.
  intros Hty. unfold ProcessIetfConnectionCloseFrame. eapply safe_bind; [apply safe_u16|]. intros code Hcode.
  eapply (safe_bind _ _ is_varint); [destruct (decide _); [apply safe_varint|by apply safe_ret]|]. intros t Ht.
  eapply safe_bind; [apply safe_varint|]. intros len [Hl _]. eapply safe_bind; [by apply safe_piece|]. intros d [Hd _].
  by apply safe_ret.
Qed.

Lemma safe_new_connection_id c : safe (ProcessNewConnectionIdFrame c) (sane c).
Proof.
  unfold ProcessNewConnectionIdFrame. eapply safe_bind; [apply safe_varint|]. intros seq Hseq.
  eapply safe_bind; [apply safe_varint|]. intros retire [Hr _]. apply safe_guard. intros Hg.
  eapply safe_bind; [apply safe_u8|]. intros len [Hlen _]. apply safe_guard. intros Hg2.
  apply safe_guard. intros Hg3.
  eapply safe_bind; [apply safe_connection_id; lia|]. intros id [Hid Hmax].
  eapply safe_bind; [by apply safe_bytes|]. intros token [Ht _]. apply safe_ret. cbn.
  split; [done|]. split; [lia|]. split; [done|]. split; [lia|]. rewrite Hid.
  destruct (VariableLengthConnectionIdAllowed c); [by right|left]. rewrite andb_true_r in Hg3. lia.
Qed.

Lemma safe_message c b : safe (ProcessMessageFrame b) (sane c).
Proof.
  unfold ProcessMessageFrame. destruct b.
  - intros r [Hw Hb]. cbn. unfold ok_reader, ReaderSpec.wf, Reader.BytesRemaining in *. cbn.
    split; [split; [lia|done]|]. split; [lia|]. intros ? [= <-]. by eexists.
  - eapply safe_bind; [apply safe_varint|]. intros len [Hl _]. eapply safe_bind; [by apply safe_piece|].
    intros d [Hd _]. apply safe_ret. exists d. by rewrite Hd.
Qed.

Lemma skip_padding_safe fuel n r :
  ok_reader r → 0 < n → let '(n', r') := skip_padding fuel n r in
  ok_reader r' ∧ Reader.BytesRemaining r' <= Reader.BytesRemaining r ∧ 0 < n'.
Proof.
  revert n r. induction fuel as [|fuel IH]; intros n r Hr Hn; cbn [skip_padding]; [done|].
  destruct (_ && _); [|done]. pose proof (safe_bytes 1 ltac:(done) r Hr) as H.
  destruct (Reader.ReadBytes 1 r) as [o r1]. destruct H as (Hr1&Hl1&_). cbn [snd].
  specialize (IH (n + 1) r1 Hr1 ltac:(lia)). destruct (skip_padding fuel (n + 1) r1). destruct IH as (?&?&?).
  split; [done|]. split; [lia|done].
Qed.

Lemma safe_padding c : safe ProcessPaddingFrame (sane c).
Proof.
  intros r Hr. unfold ProcessPaddingFrame. pose proof (skip_padding_safe (Z.to_nat (Reader.BytesRemaining r)) 1 r Hr ltac:(done)) as H.
  destruct (skip_padding _ _ _) as [n r']. destruct H as (?&?&?). split; [done|]. split; [done|]. by intros ? [= <-].
Qed.

Lemma invalid_id_u32 v : is_u32 (GetInvalidStreamId v).
Proof. unfold GetInvalidStreamId, two32. destruct (VersionHasIetfQuicFrames v); lia. Qed.

(** *** What the visitor hears *)

(** [e] may follow [l]: an ACK frame starts with the block of the largest packet, its blocks are ranges of packet
    numbers from the largest down with a gap between two, and it ends at the lowest one. *)
Definition may_follow (c : framer) (l : list event) (e : event) : Prop :=
  match e with
  | OnFrame f => sane c f
  | OnAckFrameStart largest _ => 1 <= largest < 2 ^ 62
  | OnAckRange a b =>
      1 <= a < b ∧ match last l with
                   | Some (OnAckFrameStart largest _) => b = largest + 1
                   | Some (OnAckRange a' _) => b < a'
                   | _ => False
                   end
  | OnAckFrameEnd a => ∃ b, last l = Some (OnAckRange a b)
  end.

(** Calls the visitor answered with true. *)
Inductive heard (c : framer) (v : visitor) : list event → Prop :=
  | heard_nil : heard c v []
  | heard_snoc l e : heard c v l → may_follow c l e → v l e = true → heard c v (l ++ [e]).

(** All calls accepted, or all but the last. *)
Definition heard_until (c : framer) (v : visitor) (ok : bool) (told : list event) : Prop :=
  if ok then heard c v told
  else heard c v told ∨ ∃ l e, told = l ++ [e] ∧ heard c v l ∧ may_follow c l e ∧ v l e = false.

Lemma tell_heard c v told e :
  heard c v told → may_follow c told e → let '(ok, told') := tell v told e in heard_until c v ok told' ∧ told' = told ++ [e].
Proof.
  intros Hh Hf. unfold tell, heard_until. split; [|done]. destruct (v told e) eqn:E; [by constructor|].
  right. by exists told, e.
Qed.

Lemma heard_until_false c v ok told : heard_until c v ok told → heard_until c v false told.
Proof. destruct ok; [by left|done]. Qed.

(** The result of a step: the reader stays in the input, and the visitor has heard well-formed reports. *)
Definition continues (o : outcome) : bool := match o with Continue => true | _ => false end.
Definition step_ok (c : framer) (v : visitor) (r : Reader.t) (x : option (outcome * Reader.t * list event)) : Prop :=
  match x with
  | None => False
  | Some (o, r', told) =>
      ok_reader r' ∧ Reader.BytesRemaining r' <= Reader.BytesRemaining r ∧ heard_until c v (continues o) told
  end.

Lemma visit_ok c v a e r told :
  safe a (sane c) → ok_reader r → heard c v told → step_ok c v r (visit v a e r told).
Proof.
  intros Ha Hr Hh. unfold visit. specialize (Ha r Hr). destruct (a r) as [[f|] r']; destruct Ha as (Hr'&Hl&Hf).
  - pose proof (tell_heard c v told (OnFrame f) Hh (Hf f eq_refl)) as Ht. destruct (tell v told _) as [ok told'].
    destruct Ht as [Ht _]. split; [done|]. split; [done|]. by destruct ok.
  - split; [done|]. split; [done|]. by left.
Qed.

Definition ack_ok (c : framer) (v : visitor) (r : Reader.t) (x : option (bool * Reader.t * list event)) : Prop :=
  match x with
  | None => False
  | Some (ok, r', told) =>
      ok_reader r' ∧ Reader.BytesRemaining r' <= Reader.BytesRemaining r ∧ heard_until c v ok told
  end.

Definition blocks_ok (c : framer) (v : visitor) (r : Reader.t) (x : option (bool * Z * Reader.t * list event)) : Prop :=
  match x with
  | None => False
  | Some (ok, low, r', told) =>
      ok_reader r' ∧ Reader.BytesRemaining r' <= Reader.BytesRemaining r ∧ heard_until c v ok told
      ∧ (ok = true → ∃ b, last told = Some (OnAckRange low b))
  end.

Lemma read_ack_blocks_ok c v fuel count low b r told :
  ok_reader r → heard c v told → 1 <= low < 2 ^ 62 → last told = Some (OnAckRange low b) →
  Reader.BytesRemaining r < Z.of_nat fuel → blocks_ok c v r (read_ack_blocks v fuel count low r told).
Proof.
  revert count low b r told. induction fuel as [|fuel IH]; intros count low b r told Hr Hh Hlow Hlast Hf; cbn [read_ack_blocks].
  { destruct Hr as [[? ?] _]. unfold Reader.BytesRemaining in Hf. lia. }
  destruct (count =? 0); [split; [done|]; split; [done|]; split; [done|]; by exists b|].
  assert (Hstop : ∀ r' x, ok_reader r' → Reader.BytesRemaining r' <= Reader.BytesRemaining r →
    blocks_ok c v r (Some (false, x, r', told))).
  { intros r' x ? ?. split; [done|]. split; [done|]. split; [by left|done]. }
  pose proof (varint_step r Hr) as H1. destruct (Reader.ReadVarInt62 r) as [[gap|] r1]; destruct H1 as (Hr1&Hl1&H1); [|by apply Hstop].
  destruct (H1 gap eq_refl) as [Hgap Hl1']. unfold is_varint in Hgap. rewrite (wrap64_add gap 2) by (unfold two64; lia).
  destruct (Z.ltb_spec low (gap + 2)); [by apply Hstop|].
  rewrite <-Z.sub_add_distr, (wrap64_sub low (1 + gap)) by lia. set (high := low - (1 + gap)).
  pose proof (varint_step r1 Hr1) as H2. destruct (Reader.ReadVarInt62 r1) as [[value|] r2]; destruct H2 as (Hr2&Hl2&H2);
    [|apply Hstop; [done|lia]].
  destruct (H2 value eq_refl) as [Hvalue Hl2']. unfold is_varint in Hvalue.
  unfold FirstSendingPacketNumber, UnackedPacketMap.FirstSendingPacketNumber.
  rewrite (wrap64_add value 1), (wrap64_sub high 1) by (unfold high, two64; lia).
  destruct (Z.ltb_spec (high - 1) (value + 1)); [apply Hstop; [done|lia]|].
  rewrite <-(Z.sub_add_distr high 1 value), (wrap64_sub high (1 + value)) by (unfold high in *; lia).
  set (low' := high - (1 + value)).
  assert (Hm : may_follow c told (OnAckRange low' high)).
  { split; [unfold low', high in *; lia|]. rewrite Hlast. unfold high. lia. }
  pose proof (tell_heard c v told _ Hh Hm) as Ht. destruct (tell v told _) as [ok told']. destruct Ht as [Ht ->].
  destruct ok; cbn [negb].
  - specialize (IH (count - 1) low' high r2 (told ++ [OnAckRange low' high]) Hr2 Ht ltac:(unfold low', high in *; lia)
      ltac:(by rewrite last_snoc) ltac:(lia)).
    destruct (read_ack_blocks _ _ _ _ _ _) as [[[[ok x] r'] told']|]; [|done].
    destruct IH as (?&?&?&?). split; [done|]. split; [lia|]. by split.
  - split; [done|]. split; [lia|]. by split.
Qed.

Lemma ack_frame_ok c v ty r told :
  ok_reader r → heard c v told → ack_ok c v r (ProcessIetfAckFrame v ty r told).
Proof.
  intros Hr Hh. unfold ProcessIetfAckFrame. set (header := Reader.bind _ _).
  assert (Hheader : safe header (λ x, 1 <= x.1 < 2 ^ 62)).
  { eapply safe_bind; [apply safe_varint|]. intros largest Hl. apply safe_guard.
    unfold FirstSendingPacketNumber, UnackedPacketMap.FirstSendingPacketNumber. intros Hg.
    eapply safe_bind; [apply safe_varint|]. intros delay _. eapply (safe_bind _ _ (λ _, True)).
    { destruct (_ =? _); [|by apply safe_ret]. do 3 (eapply safe_bind; [apply safe_varint|intros ? _]). by apply safe_ret. }
    intros [] _. apply safe_ret. unfold is_varint in Hl. cbn. lia. }
  clearbody header. specialize (Hheader r Hr). destruct (header r) as [[[largest delay]|] r1]; destruct Hheader as (Hr1&Hl1&Hx);
    [|split; [done|]; split; [done|]; by left].
  specialize (Hx _ eq_refl). cbn [fst] in Hx.
  pose proof (tell_heard c v told (OnAckFrameStart largest (ack_delay_read delay)) Hh Hx) as Ht.
  destruct (tell v told _) as [ok told1]. destruct Ht as [Ht ->]. destruct ok; cbn [negb];
    [|split; [done|]; split; [lia|done]].
  set (blocks := Reader.bind _ _).
  assert (Hblocks : safe blocks (λ x, 0 <= x.2 < 2 ^ 62)).
  { eapply safe_bind; [apply safe_varint|]. intros count _. eapply safe_bind; [apply safe_varint|]. intros first Hfirst.
    by apply safe_ret. }
  clearbody blocks. specialize (Hblocks r1 Hr1). destruct (blocks r1) as [[[count first]|] r2]; destruct Hblocks as (Hr2&Hl2&Hy);
    [|split; [done|]; split; [lia|]; by left].
  specialize (Hy _ eq_refl). cbn [snd] in Hy. unfold FirstSendingPacketNumber, UnackedPacketMap.FirstSendingPacketNumber.
  rewrite (wrap64_add first 1), (wrap64_add largest 1) by (unfold two64; lia).
  destruct (Z.ltb_spec largest (first + 1)); [split; [done|]; split; [lia|]; by left|].
  rewrite (wrap64_sub largest first) by lia.
  assert (Hm : may_follow c (told ++ [OnAckFrameStart largest (ack_delay_read delay)]) (OnAckRange (largest - first) (largest + 1))).
  { split; [lia|]. by rewrite last_snoc. }
  pose proof (tell_heard c v _ _ Ht Hm) as Ht2. destruct (tell v _ _) as [ok told2]. destruct Ht2 as [Ht2 ->].
  destruct ok; cbn [negb]; [|split; [done|]; split; [lia|done]].
  pose proof (read_ack_blocks_ok c v (Z.to_nat (Reader.BytesRemaining r2) + 1) count (largest - first) (largest + 1) r2 _ Hr2 Ht2
    ltac:(lia) ltac:(by rewrite last_snoc) ltac:(lia)) as Hb.
  destruct (read_ack_blocks _ _ _ _ _ _) as [[[[ok low] r3] told3]|]; [|done]. destruct Hb as (Hr3&Hl3&Hh3&Hlast).
  destruct ok; [|split; [done|]; split; [lia|done]].
  pose proof (tell_heard c v told3 (OnAckFrameEnd low) Hh3 (Hlast eq_refl)) as Ht4.
  destruct (tell v told3 _) as [ok told4]. destruct Ht4 as [Ht4 _]. split; [done|]. split; [lia|done].
Qed.

#[local] Hint Resolve safe_stream safe_padding safe_close safe_new_connection_id safe_message safe_crypto : safe.

Lemma safe_others c ty :
  safe ProcessIetfResetStreamFrame (sane c) ∧ safe (ProcessMaxDataFrame c) (sane c) ∧ safe ProcessMaxStreamDataFrame (sane c)
  ∧ safe (ProcessMaxStreamsFrame ty) (sane c) ∧ safe (Reader.ret PingFrame) (sane c) ∧ safe (ProcessIetfBlockedFrame c) (sane c)
  ∧ safe ProcessStreamBlockedFrame (sane c) ∧ safe (ProcessStreamsBlockedFrame c ty) (sane c)
  ∧ safe ProcessRetireConnectionIdFrame (sane c) ∧ safe ProcessNewTokenFrame (sane c) ∧ safe ProcessStopSendingFrame (sane c)
  ∧ safe ProcessPathChallengeFrame (sane c) ∧ safe ProcessPathResponseFrame (sane c).
Proof.
  pose proof (invalid_id_u32 (transport_version c)).
  repeat split_and?; unfold ProcessIetfResetStreamFrame, ProcessMaxDataFrame, ProcessMaxStreamDataFrame, ProcessMaxStreamsFrame,
    ProcessIetfBlockedFrame, ProcessStreamBlockedFrame, ProcessStreamsBlockedFrame, ProcessRetireConnectionIdFrame,
    ProcessNewTokenFrame, ProcessStopSendingFrame, ProcessPathChallengeFrame, ProcessPathResponseFrame; safely.
  all: cbn beta in *; cbn; try (by repeat first [done|split]); try lia.
  all: match goal with
       | H : is_varint ?x |- 0 <= ?x => exact (proj1 H)
       | H : zlen ?d = _ ∧ _ |- _ => destruct H as [H _]; rewrite H; first [done|lia]
       | |- _ ∧ _ => split; [done|lia]
       end.
Qed.

Lemma process_frame_ok c v ty r told :
  ok_reader r → heard c v told → step_ok c v r (process_frame c v ty r told).
Proof.
  intros Hr Hh. destruct (safe_others c ty) as (?&?&?&?&?&?&?&?&?&?&?&?&?). unfold process_frame.
  repeat match goal with
  | |- step_ok _ _ _ (if ?b then visit _ _ _ _ _ else _) =>
      destruct b; [apply visit_ok; [auto with safe; fail|done..]|]
  | |- step_ok _ _ _ (if ?b then visit _ (ProcessIetfConnectionCloseFrame _) _ _ _ else _) =>
      destruct b; [apply visit_ok; [apply safe_close; by destruct (_ =? IETF_CONNECTION_CLOSE)|done..]|]
  | |- step_ok _ _ _ (if ?b then match _ with _ => _ end else _) =>
      destruct b; [pose proof (ack_frame_ok c v ty r told Hr Hh) as Ha;
        destruct (ProcessIetfAckFrame _ _ _ _) as [[[ok r'] told']|]; [destruct Ha as (?&?&?)|done];
        (split; [done|]; split; [done|]; destruct ok; [done|done])|]
  end.
  split; [done|]. split; [done|]. by left.
Qed.

Lemma process_frames_ok c v fuel r told :
  ok_reader r → heard c v told → Reader.BytesRemaining r <= Z.of_nat fuel →
  let '(res, told') := process_frames c v fuel r told in res ≠ OutOfFuel ∧ heard_until c v false told'.
Proof.
  revert r told. induction fuel as [|fuel IH]; intros r told Hr Hh Hf; cbn [process_frames].
  { destruct (Reader.IsDoneReading r) eqn:E; [split; [done|by left]|].
    destruct Hr as [[? ?] _]. unfold Reader.BytesRemaining, Reader.IsDoneReading in *. lia. }
  destruct (Reader.IsDoneReading r); [split; [done|by left]|].
  pose proof (varint_step r Hr) as H1. destruct (Reader.ReadVarInt62 r) as [[ty|] r1]; destruct H1 as (Hr1&Hl1&H1);
    [|split; [done|by left]].
  destruct (H1 ty eq_refl) as [_ Hl1']. destruct (negb _); [split; [done|by left]|].
  pose proof (process_frame_ok c v ty r1 told Hr1 Hh) as H2.
  destruct (process_frame c v ty r1 told) as [[[o r2] told2]|]; [|done]. destruct H2 as (Hr2&Hl2&H2).
  destruct o; [by apply IH; [|..|lia]|split; [done|exact H2]..].
Qed.

(** C28. Safety. Whatever the bytes of a payload and whatever the visitor answers, [ProcessIetfFrameData] comes to an end
    inside the buffer, and the calls it makes form well-formed reports: every frame given to the visitor is within the
    limits of the protocol, an ACK frame starts with the range of its largest packet, goes down in nonempty ranges of
    packet numbers from 1 on that do not touch, and ends at the lowest one reported; after the visitor refuses a call it
    hears nothing more. *)
Theorem any_payload_is_heard_safely c v d e :
  bytes d →
  let '(res, told) := ProcessIetfFrameData c v (Reader.new d e) in
  res ≠ OutOfFuel
  ∧ (heard c v told ∨ ∃ l last_call, told = l ++ [last_call] ∧ heard c v l ∧ may_follow c l last_call ∧ v l last_call = false).
Proof.
  intros Hd. unfold ProcessIetfFrameData. destruct (Reader.IsDoneReading _); [split; [done|left; constructor]|].
  apply process_frames_ok; [split; [apply ReaderSpec.reader_new_wf|done]|constructor|].
  pose proof (ReaderSpec.reader_new_wf d e) as [? ?]. unfold Reader.BytesRemaining. lia.
Qed.

End any_input.

Section examples.
#[local] Existing Instance swap_endian.
#[local] Existing Instance swap_endian_laws.

Definition example_stream_data (id off : Z) : Z := (id + off) mod 256.
Definition example_crypto_data (l : EncryptionLevel) (off : Z) : Z := off mod 256.
Definition example_producer : DataProducer :=
  mk_producer (λ id off len, Writer.WriteBytes (slice (example_stream_data id) off len))
    (λ l off len, Writer.WriteBytes (slice (example_crypto_data l) off len)).
Definition example_framer : framer :=
  mk_framer (mk_version true true) false true IS_SERVER (Some example_producer).
Definition example_ack : QuicAckFrame :=
  ReceivedPacketManager.mk_frame 20 100 [] [Interval.mk 3 5; Interval.mk 9 10; Interval.mk 12 21] true 1 0 2.
Definition example_frames : list QuicFrame :=
  [ AckFrame example_ack; StreamFrame (mk_stream 4 true 10 5 None); PaddingFrame 3; PingFrame;
    ConnectionCloseFrame IETF_QUIC_TRANSPORT_CONNECTION_CLOSE 7 [1; 2] 6; WindowUpdateFrame 4294967295 500;
    NewConnectionIdFrame 5 2 [1; 2; 3; 4; 5; 6; 7; 8] (replicate 16 9); MtuDiscoveryFrame;
    CryptoFrame (mk_crypto UnackedPacketMap.ENCRYPTION_HANDSHAKE 70 3 None); StreamFrame (mk_stream 8 false 0 4 None) ].
Definition always (told : list event) (e : event) : bool := true.

Lemma example_frames_good :
  Forall (good example_stream_data example_crypto_data example_framer) example_frames.
Proof.
  repeat apply Forall_cons_2; [..|by apply Forall_nil]; cbn -[Z.pow two16 two32 two63]; try done;
    unfold is_varint, two32, two16; try (split_and!; try lia; try done; apply WriterSpec.emits_WriteBytes).
  - unfold good_ack, two63, is_varint. cbn -[Z.pow]. split_and!; try lia; try done.
    + split; repeat constructor; done.
    + intros i Hi. repeat (apply elem_of_cons in Hi as [->|Hi]; [done|]). by apply elem_of_nil in Hi.
    + intros i Hi. repeat (apply elem_of_cons in Hi as [->|Hi]; [cbn; lia|]). by apply elem_of_nil in Hi.
  - split_and!; try lia; try done. by left.
Qed.

Lemma frames_survive_the_wire_witness :
  let '(n, w) := AppendIetfFrames example_framer example_frames (Writer.new 200 NETWORK_BYTE_ORDER) in
  n = 77 ∧ ProcessIetfFrameData example_framer always (Reader.new (WriterSpec.written w) NETWORK_BYTE_ORDER)
           = (Processed, concat (map (frame_events example_stream_data example_crypto_data example_framer) example_frames)).
Proof.
  assert (Hn : (AppendIetfFrames example_framer example_frames (Writer.new 200 NETWORK_BYTE_ORDER)).1 = 77) by by vm_compute.
  pose proof (frames_survive_the_wire example_stream_data example_crypto_data example_framer always example_frames 200
    example_frames_good) as H.
  destruct (AppendIetfFrames _ _ _) as [n w]. cbn [fst] in Hn. subst n. split; [done|].
  refine (proj2 (proj2 (proj2 (H _ _ _)) _)); [cbn; naive_solver|done..].
Defined.

Lemma any_payload_is_heard_safely_witness :
  let d := [2; 10; 0; 2; 3; 0; 1; 3; 3] in
  bytes d
  ∧ ProcessIetfFrameData example_framer always (Reader.new d NETWORK_BYTE_ORDER)
    = (Raised QUIC_INVALID_ACK_DATA, [OnAckFrameStart 10 0; OnAckRange 7 11; OnAckRange 4 6])
  ∧ heard example_framer always (ProcessIetfFrameData example_framer always (Reader.new d NETWORK_BYTE_ORDER)).2.
Proof.
  intros d. assert (Hd : bytes d) by by repeat constructor. split; [exact Hd|]. split; [vm_compute; reflexivity|].
  pose proof (any_payload_is_heard_safely example_framer always d NETWORK_BYTE_ORDER Hd) as H.
  destruct (ProcessIetfFrameData _ _ _) as [res told]. destruct H as [_ [H|(l&e&_&_&_&?)]]; [exact H|done].
Defined.

End examples.
End IetfFramer.
