(* ===== verification/GoogleFrames.v ===== *)
(** The frames of Google QUIC on the wire, in [QuicFramer] (quic/core/quic_framer.cc: the frames of [BuildDataPacket],
    [ProcessFrameData] and the functions they call for each frame), for the versions that have not got the frames of IETF
    QUIC.

    Frames, data producers and the frames both kinds of QUIC share are those of [IetfFrames]. An ACK frame is written into
    what room the packet has left: blocks that do not fit are left out, and a gap of more than 255 packets takes several
    blocks. *)

From S2P Require Import Prelude OrderedSet IntervalSet Stream Bytes DataWire.
From S2P Require Import PacketNumber StreamIdManager ReceivedPackets UnackedPacketMap PacketNumberWire IetfFrames.

Module GoogleFramer.
Import StreamIdManager PacketNumberWire.
Import IetfFramer.
#[local] Notation "a &&& b" := (Writer.andthen a b) (at level 40, left associativity).

(** ** Constants *)

Definition QUIC_VERSION_44 : Z := 44.
Definition QUIC_VERSION_48 : Z := 48.
Definition QUIC_VERSION_99 : Z := 99.
Definition VersionHasIetfQuicFrames (transport_version : Z) : bool := QUIC_VERSION_99 <=? transport_version.
Definition QuicVersionUsesCryptoFrames (transport_version : Z) : bool := QUIC_VERSION_48 <=? transport_version.

(** [QuicFrameType], as far as it is on the wire. *)
Definition PADDING_FRAME : Z := 0.
Definition RST_STREAM_FRAME : Z := 1.
Definition CONNECTION_CLOSE_FRAME : Z := 2.
Definition GOAWAY_FRAME : Z := 3.
Definition WINDOW_UPDATE_FRAME : Z := 4.
Definition BLOCKED_FRAME : Z := 5.
Definition STOP_WAITING_FRAME : Z := 6.
Definition PING_FRAME : Z := 7.
Definition CRYPTO_FRAME : Z := 8.

Definition kQuicFrameTypeBrokenMask : Z := 224.
Definition kQuicFrameTypeSpecialMask : Z := 192.
Definition kQuicFrameTypeStreamMask : Z := 128.
Definition kQuicFrameTypeAckMask : Z := 64.

Definition kQuicStreamIdShift : Z := 2.
Definition kQuicStreamIDLengthMask : Z := 3.
Definition kQuicStreamShift : Z := 3.
Definition kQuicStreamOffsetMask : Z := 7.
Definition kQuicStreamDataLengthShift : Z := 1.
Definition kQuicStreamDataLengthMask : Z := 1.
Definition kQuicStreamFinShift : Z := 1.
Definition kQuicStreamFinMask : Z := 1.

Definition kQuicSequenceNumberLengthNumBits : Z := 2.
Definition kActBlockLengthOffset : Z := 0.
Definition kLargestAckedOffset : Z := 2.
Definition kQuicHasMultipleAckBlocksOffset : Z := 5.

Definition kQuicNumTimestampsLength : Z := 1.
Definition kQuicFirstTimestampLength : Z := 4.
Definition kQuicTimestampLength : Z := 2.
Definition kQuicTimestampPacketNumberGapLength : Z := 1.

Definition kQuicFrameTypeSize : Z := 1.
Definition kQuicDeltaTimeLargestObservedSize : Z := 2.
Definition kQuicNumTimestampsSize : Z := 1.
Definition kNumberOfAckBlocksSize : Z := 1.
Definition uint8_max : Z := 255.

Definition QUIC_STREAM_LAST_ERROR : Z := 17.
Definition QUIC_LAST_ERROR : Z := 124.

(** What the framer knows of the connection, and the flag [quic_do_not_accept_stop_waiting]. *)
Record framer := mk_framer {
  transport_version : Z;
  data_producer : option DataProducer;
  process_timestamps : bool;
  creation_time : Z;
  quic_do_not_accept_stop_waiting : bool;
}.
(** What the functions shared with IETF QUIC look at. *)
Definition shared (c : framer) : IetfFramer.framer :=
  IetfFramer.mk_framer (mk_version (VersionHasIetfQuicFrames (transport_version c)) (QuicVersionUsesCryptoFrames (transport_version c)))
    false false IS_CLIENT (data_producer c).

(** What the frames of a packet depend on of its header. *)
Record QuicPacketHeader := mk_header { packet_number : Z; packet_number_length : QuicPacketNumberLength }.

(** ** Writing *)

Section endian.
Context {EI : EndianImpl}.

(** The loops of [GetStreamIdSize] and [GetStreamOffsetSize]. *)
Fixpoint count_bytes (rounds : nat) (i value : Z) : option Z :=
  match rounds with
  | O => None
  | S rounds => let value := Z.shiftr value 8 in if value =? 0 then Some i else count_bytes rounds (i + 1) value
  end.
Definition GetStreamIdSize (stream_id : Z) : Z := default 4 (count_bytes 4 1 stream_id).
Definition GetStreamOffsetSize (offset : Z) : Z :=
  if offset =? 0 then 0 else default 8 (count_bytes 7 2 (Z.shiftr offset 8)).

Definition GetStreamFrameTypeByte (f : QuicStreamFrame) (last_frame_in_packet : bool) : Z :=
  let type_byte := if fin f then kQuicStreamFinMask else 0 in
  let type_byte := wrap8 (Z.shiftl type_byte kQuicStreamDataLengthShift) in
  let type_byte := Z.lor type_byte (if last_frame_in_packet then 0 else kQuicStreamDataLengthMask) in
  let type_byte := wrap8 (Z.shiftl type_byte kQuicStreamShift) in
  let offset_len := GetStreamOffsetSize (offset f) in
  let type_byte := if 0 <? offset_len then wrap8 (Z.lor type_byte (offset_len - 1)) else type_byte in
  let type_byte := wrap8 (Z.shiftl type_byte kQuicStreamIdShift) in
  let type_byte := wrap8 (Z.lor type_byte (GetStreamIdSize (stream_id f) - 1)) in
  Z.lor type_byte kQuicFrameTypeStreamMask.

Definition AppendTypeByte (f : QuicFrame) (last_frame_in_packet : bool) : action :=
  match f with
  | StreamFrame f => Writer.WriteUInt8 (GetStreamFrameTypeByte f last_frame_in_packet)
  | AckFrame _ => Writer.ret true
  | MtuDiscoveryFrame => Writer.WriteUInt8 PING_FRAME
  | NewConnectionIdFrame _ _ _ _ | RetireConnectionIdFrame _ | NewTokenFrame _ | MaxStreamsFrame _ _
  | StreamsBlockedFrame _ _ | PathResponseFrame _ | PathChallengeFrame _ | StopSendingFrame _ _ => fail
  | MessageFrame _ _ => Writer.ret true
  | PaddingFrame _ => Writer.WriteUInt8 PADDING_FRAME
  | RstStreamFrame _ _ _ => Writer.WriteUInt8 RST_STREAM_FRAME
  | ConnectionCloseFrame _ _ _ _ => Writer.WriteUInt8 CONNECTION_CLOSE_FRAME
  | GoAwayFrame _ _ _ => Writer.WriteUInt8 GOAWAY_FRAME
  | WindowUpdateFrame _ _ => Writer.WriteUInt8 WINDOW_UPDATE_FRAME
  | BlockedFrame _ _ => Writer.WriteUInt8 BLOCKED_FRAME
  | StopWaitingFrame _ => Writer.WriteUInt8 STOP_WAITING_FRAME
  | PingFrame => Writer.WriteUInt8 PING_FRAME
  | CryptoFrame _ => Writer.WriteUInt8 CRYPTO_FRAME
  end.

Definition AppendStreamId (stream_id_length stream_id : Z) : action :=
  if (stream_id_length =? 0) || (4 <? stream_id_length) then fail
  else Writer.WriteBytesToUInt64 (Z.to_nat stream_id_length) stream_id.
Definition AppendStreamOffset (offset_length offset : Z) : action :=
  if (offset_length =? 1) || (8 <? offset_length) then fail
  else Writer.WriteBytesToUInt64 (Z.to_nat offset_length) offset.

Definition AppendStreamFrame (c : framer) (f : QuicStreamFrame) (no_stream_frame_length : bool) : action :=
  AppendStreamId (GetStreamIdSize (stream_id f)) (stream_id f)
  &&& AppendStreamOffset (GetStreamOffsetSize (offset f)) (offset f)
  &&& (if negb no_stream_frame_length then Writer.WriteUInt16 (data_length f) else Writer.ret true)
  &&& match data_producer c with
      | Some p =>
          if data_length f =? 0 then Writer.ret true else WriteStreamData p (stream_id f) (offset f) (data_length f)
      | None => Writer.WriteBytes (buffer_bytes (data_buffer f) (data_length f))
      end.

(** *** ACK frames *)

Record AckFrameInfo := mk_info { max_block_length : Z; first_block_length : Z; num_ack_blocks : Z }.

(** How many blocks a gap takes. *)
Definition encoded_gaps (total_gap : Z) : Z := wrap64 (total_gap + uint8_max - 1) / uint8_max.

Fixpoint ack_info_loop (previous_start : Z) (itr : list interval) (info : AckFrameInfo) : AckFrameInfo :=
  match itr with
  | [] => info
  | i :: itr =>
      if num_ack_blocks info <? uint8_max then
        let total_gap := wrap64 (previous_start - imax i) in
        ack_info_loop (imin i) itr
          (mk_info (Z.max (max_block_length info) (PacketNumberQueue.PacketNumberIntervalLength i)) (first_block_length info)
             (num_ack_blocks info + encoded_gaps total_gap))
      else info
  end.
Definition GetAckFrameInfo (f : QuicAckFrame) : AckFrameInfo :=
  match rev (ReceivedPacketManager.packets f) with
  | [] => mk_info 0 0 0
  | i :: itr =>
      ack_info_loop (imin i) itr
        (mk_info (PacketNumberQueue.PacketNumberIntervalLength i)
           (PacketNumberQueue.LastIntervalLength (ReceivedPacketManager.packets f)) 0)
  end.

Definition AppendAckBlock (gap : Z) (length_length : QuicPacketNumberLength) (length : Z) : action :=
  if length =? 0 then
    if negb (IsValidPacketNumberLength length_length) then fail
    else Writer.WriteUInt8 gap &&& Writer.WriteBytesToUInt64 (length_of length_length) length
  else Writer.WriteUInt8 gap &&& AppendPacketNumber length_length length.

Definition GetMinAckFrameSize (ietf_frames : bool) (largest_observed_length : QuicPacketNumberLength) : Z :=
  if ietf_frames then kQuicFrameTypeSize + 4 else
  let min_size := kQuicFrameTypeSize + Z.of_nat (length_of largest_observed_length) + kQuicDeltaTimeLargestObservedSize in
  min_size + kQuicNumTimestampsSize.

Definition GetAckFrameTimeStampSize (f : QuicAckFrame) : Z :=
  match ReceivedPacketManager.received_packet_times f with
  | [] => 0
  | times =>
      kQuicNumTimestampsLength + kQuicFirstTimestampLength
      + (kQuicTimestampLength + kQuicTimestampPacketNumberGapLength) * (zlen times - 1)
  end.

(** A loop that writes and counts: the count, or none when a write failed. *)
Definition counting : Type := Writer.t → option Z * Writer.t.
Definition count_on (a : action) (k : counting) : counting := λ w, let '(ok, w) := a w in if ok then k w else (None, w).

(** Empty blocks for a gap longer than a single one; [rounds] is at least the number of blocks that remain to be written. *)
Fixpoint append_empty_blocks (rounds : nat) (i num_encoded_gaps : Z) (block_length : QuicPacketNumberLength)
    (num_blocks written : Z) : counting := λ w,
  if (i <? num_encoded_gaps) && (written <? num_blocks) then
    match rounds with
    | O => (Some written, w)
    | S rounds =>
        count_on (AppendAckBlock uint8_max block_length 0)
          (append_empty_blocks rounds (i + 1) num_encoded_gaps block_length num_blocks (written + 1)) w
    end
  else (Some written, w).

Fixpoint append_ack_blocks (block_length : QuicPacketNumberLength) (num_blocks previous_start written : Z)
    (itr : list interval) : counting := λ w,
  match itr with
  | [] => (Some written, w)
  | i :: itr =>
      if written <? num_blocks then
        let total_gap := wrap64 (previous_start - imax i) in
        let num_encoded_gaps := encoded_gaps total_gap in
        match append_empty_blocks (Z.to_nat num_blocks) 1 num_encoded_gaps block_length num_blocks written w with
        | (None, w) => (None, w)
        | (Some written, w) =>
            if num_blocks <=? written then (Some written, w) else
            let last_gap := wrap8 (total_gap - wrap64 (num_encoded_gaps - 1) * uint8_max) in
            count_on (AppendAckBlock last_gap block_length (PacketNumberQueue.PacketNumberIntervalLength i))
              (append_ack_blocks block_length num_blocks (imin i) (written + 1) itr) w
        end
      else (Some written, w)
  end.

(** The timestamps after the first: the packet's distance from the largest, and the time since the one before. *)
Fixpoint append_timestamps (largest_acked prev_time : Z) (times : list (Z * Z)) : action :=
  match times with
  | [] => Writer.ret true
  | (p, time) :: times =>
      let delta := wrap64 (largest_acked - p) in
      if uint8_max <? delta then fail else
      Writer.WriteUInt8 delta &&& Writer.WriteUFloat16 (wrap64 (time - prev_time)) &&& append_timestamps largest_acked time times
  end.
Definition AppendTimestampsToAckFrame (c : framer) (f : QuicAckFrame) : action :=
  let times := ReceivedPacketManager.received_packet_times f in
  let largest_acked := ReceivedPacketManager.LargestAcked f in
  if uint8_max <? zlen times then fail else
  Writer.WriteBytes [zlen times]
  &&& match times with
      | [] => Writer.ret true
      | (p, time) :: rest =>
          let delta := wrap64 (largest_acked - p) in
          if uint8_max <? delta then fail else
          Writer.WriteUInt8 delta
          &&& Writer.WriteUInt32 (Z.land (wrap64 (time - creation_time c)) (Z.shiftl 1 32 - 1))
          &&& append_timestamps largest_acked time rest
      end.

Definition to_int32 (z : Z) : Z := let z := wrap32 z in if z <? 2147483648 then z else z - two32.

Definition SetBits (flags val offset : Z) : Z := wrap8 (Z.lor flags (Z.shiftl val offset)).
Definition SetBit (flags : Z) (val : bool) (offset : Z) : Z := SetBits flags (if val then 1 else 0) offset.

Definition largest_acked_length (f : QuicAckFrame) : QuicPacketNumberLength :=
  GetMinPacketNumberLength (ReceivedPacketManager.LargestAcked f).
Definition ack_block_length (f : QuicAckFrame) : QuicPacketNumberLength :=
  GetMinPacketNumberLength (max_block_length (GetAckFrameInfo f)).

Definition ack_type_byte (f : QuicAckFrame) : Z :=
  let type_byte := SetBit 0 (negb (num_ack_blocks (GetAckFrameInfo f) =? 0)) kQuicHasMultipleAckBlocksOffset in
  let type_byte := SetBits type_byte (GetPacketNumberFlags (largest_acked_length f)) kLargestAckedOffset in
  let type_byte := SetBits type_byte (GetPacketNumberFlags (ack_block_length f)) kActBlockLengthOffset in
  Z.lor type_byte kQuicFrameTypeAckMask.

(** How many blocks are written into that much room. *)
Definition blocks_for (f : QuicAckFrame) (room : Z) : Z :=
  let info := GetAckFrameInfo f in
  let available_timestamp_and_ack_block_bytes :=
    to_int32 (wrap64 (room - Z.of_nat (length_of (ack_block_length f)) - GetMinAckFrameSize false (largest_acked_length f)
      - (if negb (num_ack_blocks info =? 0) then kNumberOfAckBlocksSize else 0))) in
  let max_num_ack_blocks :=
    wrap64 (Z.quot available_timestamp_and_ack_block_bytes
      (Z.of_nat (length_of (ack_block_length f)) + Z.of_nat (length_of PACKET_1BYTE_PACKET_NUMBER))) in
  let num_ack_blocks := Z.min (num_ack_blocks info) max_num_ack_blocks in
  if uint8_max <? num_ack_blocks then uint8_max else num_ack_blocks.

Definition ack_delay_wire (f : QuicAckFrame) : Z :=
  if ReceivedPacketManager.ack_delay_time f =? ReceivedPacketManager.Delta_Infinite then kUFloat16MaxValue
  else wrap64 (ReceivedPacketManager.ack_delay_time f).

(** The blocks after the first. *)
Definition append_blocks (f : QuicAckFrame) (num_ack_blocks : Z) : action := λ w,
  if 0 <? num_ack_blocks then
    match rev (ReceivedPacketManager.packets f) with
    | [] => (true, w)
    | i :: itr =>
        let '(written, w) := append_ack_blocks (ack_block_length f) num_ack_blocks (imin i) 0 itr w in
        (match written with Some _ => true | None => false end, w)
    end
  else (true, w).
Definition append_times (c : framer) (f : QuicAckFrame) : action := λ w,
  if process_timestamps c && (GetAckFrameTimeStampSize f <=? Writer.remaining w)
  then AppendTimestampsToAckFrame c f w else Writer.WriteBytes [0] w.

(** The number of blocks is written as the first byte of a [size_t], on a little-endian host. *)
Definition AppendAckFrameAndTypeByte (c : framer) (f : QuicAckFrame) : action := λ w,
  let num_ack_blocks := blocks_for f (Writer.remaining w) in
  (Writer.WriteUInt8 (ack_type_byte f)
   &&& AppendPacketNumber (largest_acked_length f) (ReceivedPacketManager.LargestAcked f)
   &&& Writer.WriteUFloat16 (ack_delay_wire f)
   &&& (if 0 <? num_ack_blocks then Writer.WriteBytes [num_ack_blocks] else Writer.ret true)
   &&& AppendPacketNumber (ack_block_length f) (first_block_length (GetAckFrameInfo f))
   &&& append_blocks f num_ack_blocks
   &&& append_times c f) w.

(** *** The other frames *)

Definition AppendStopWaitingFrame (h : QuicPacketHeader) (least_unacked : Z) : action :=
  let least_unacked_delta := wrap64 (packet_number h - least_unacked) in
  let length_shift := 8 * Z.of_nat (length_of (packet_number_length h)) in
  if 0 <? Z.shiftr least_unacked_delta length_shift then fail else
  if least_unacked_delta =? 0 then Writer.WriteBytesToUInt64 (length_of (packet_number_length h)) least_unacked_delta
  else AppendPacketNumber (packet_number_length h) least_unacked_delta.

Definition AppendRstStreamFrame (stream_id error_code byte_offset : Z) : action :=
  Writer.WriteUInt32 stream_id &&& Writer.WriteUInt64 byte_offset &&& Writer.WriteUInt32 error_code.
Definition AppendConnectionCloseFrame (error_code : Z) (error_details : list Z) : action :=
  Writer.WriteUInt32 error_code &&& Writer.WriteStringPiece16 (TruncateErrorString error_details).
Definition AppendGoAwayFrame (error_code last_good_stream_id : Z) (reason_phrase : list Z) : action :=
  Writer.WriteUInt32 error_code &&& Writer.WriteUInt32 last_good_stream_id
  &&& Writer.WriteStringPiece16 (TruncateErrorString reason_phrase).
Definition AppendWindowUpdateFrame (stream_id byte_offset : Z) : action :=
  Writer.WriteUInt32 stream_id &&& Writer.WriteUInt64 byte_offset.
Definition AppendBlockedFrame (stream_id : Z) : action := Writer.WriteUInt32 stream_id.

(** The body of the loop of [BuildDataPacket]. *)
Definition append_frame (c : framer) (h : QuicPacketHeader) (f : QuicFrame) (last_frame_in_packet : bool) : action :=
  AppendTypeByte f last_frame_in_packet
  &&& match f with
      | PaddingFrame n => AppendPaddingFrame n
      | StreamFrame f => AppendStreamFrame c f last_frame_in_packet
      | AckFrame f => AppendAckFrameAndTypeByte c f
      | StopWaitingFrame least_unacked => AppendStopWaitingFrame h least_unacked
      | MtuDiscoveryFrame | PingFrame => Writer.ret true
      | RstStreamFrame id code off => AppendRstStreamFrame id code off
      | ConnectionCloseFrame _ code details _ => AppendConnectionCloseFrame code details
      | GoAwayFrame code id reason => AppendGoAwayFrame code id reason
      | WindowUpdateFrame id off => AppendWindowUpdateFrame id off
      | BlockedFrame id _ => AppendBlockedFrame id
      | NewConnectionIdFrame _ _ _ _ | RetireConnectionIdFrame _ | NewTokenFrame _ | MaxStreamsFrame _ _
      | StreamsBlockedFrame _ _ | PathResponseFrame _ | PathChallengeFrame _ | StopSendingFrame _ _ => fail
      | MessageFrame d n => AppendMessageFrameAndTypeByte d n last_frame_in_packet
      | CryptoFrame f => if negb (QuicVersionUsesCryptoFrames (transport_version c)) then fail else AppendCryptoFrame (shared c) f
      end.

Fixpoint append_frames (c : framer) (h : QuicPacketHeader) (fs : list QuicFrame) : action :=
  match fs with
  | [] => Writer.ret true
  | f :: fs => append_frame c h f (is_last fs) &&& append_frames c h fs
  end.

(** ** Parsing *)

(** The calls of the visitor; its answer to [OnAckTimestamp] is not looked at. *)
Inductive event :=
  | OnFrame (f : QuicFrame)
  | OnAckFrameStart (largest_acked ack_delay_time : Z)
  | OnAckRange (start end_ : Z)
  | OnAckTimestamp (packet_number timestamp : Z)
  | OnAckFrameEnd (start : Z).

Inductive QuicErrorCode :=
  QUIC_MISSING_PAYLOAD | QUIC_INVALID_FRAME_DATA | QUIC_INVALID_STREAM_DATA | QUIC_INVALID_RST_STREAM_DATA
| QUIC_INVALID_CONNECTION_CLOSE_DATA | QUIC_INVALID_GOAWAY_DATA | QUIC_INVALID_WINDOW_UPDATE_DATA | QUIC_INVALID_BLOCKED_DATA
| QUIC_INVALID_STOP_WAITING_DATA | QUIC_INVALID_ACK_DATA | QUIC_INVALID_MESSAGE_DATA.

(** The reader, the calls made so far, and [last_timestamp_]. *)
Record state := mk_state { input : Reader.t; told : list event; last_timestamp : Z }.
(** What reads, calls the visitor and may return false. *)
Definition proc (A : Type) : Type := state → option A * state.
Definition pret {A} (x : A) : proc A := λ s, (Some x, s).
Definition pbind {A B} (a : proc A) (f : A → proc B) : proc B := λ s,
  let '(o, s) := a s in match o with Some x => f x s | None => (None, s) end.
#[local] Notation "x <- a ; b" := (pbind a (λ x, b)) (at level 100, a at next level, right associativity).
#[local] Notation "a ;; b" := (pbind a (λ _, b)) (at level 100, right associativity).
Definition lift {A} (a : Reader.action A) : proc A := λ s,
  let '(o, r) := a (input s) in (o, mk_state r (told s) (last_timestamp s)).
Definition check (b : bool) : proc unit := λ s, (if b then Some tt else None, s).

Section visitor.
Context (visitor : list event → event → bool).

Definition ask (e : event) : proc bool := λ s,
  (Some (visitor (told s) e), mk_state (input s) (told s ++ [e]) (last_timestamp s)).
(** The visitor may refuse. *)
Definition tell (e : event) : proc unit := ok <- ask e; check ok.

#[local] Notation "x <~ a ; b" := (Reader.bind a (λ x, b)) (at level 100, a at next level, right associativity).

Definition ProcessStreamFrame (frame_type : Z) : Reader.action QuicFrame :=
  let stream_flags := Z.land frame_type (Z.lxor kQuicFrameTypeStreamMask 255) in
  let stream_id_length := Z.land stream_flags kQuicStreamIDLengthMask + 1 in
  let stream_flags := Z.shiftr stream_flags kQuicStreamIdShift in
  let offset_length := Z.land stream_flags kQuicStreamOffsetMask in
  let offset_length := if 0 <? offset_length then offset_length + 1 else offset_length in
  let stream_flags := Z.shiftr stream_flags kQuicStreamShift in
  let has_data_length := Z.land stream_flags kQuicStreamDataLengthMask =? kQuicStreamDataLengthMask in
  let stream_flags := Z.shiftr stream_flags kQuicStreamDataLengthShift in
  let fin := Z.land stream_flags kQuicStreamFinMask =? kQuicStreamFinShift in
  id <~ Reader.ReadBytesToUInt64 (Z.to_nat stream_id_length);
  off <~ Reader.ReadBytesToUInt64 (Z.to_nat offset_length);
  data <~ (if has_data_length then Reader.ReadStringPiece16 else λ r, Reader.ReadStringPiece (Reader.BytesRemaining r) r);
  Reader.ret (StreamFrame (mk_stream (wrap32 id) fin off (wrap16 (zlen data)) (Some data))).

Definition ProcessStopWaitingFrame (h : QuicPacketHeader) : Reader.action QuicFrame :=
  delta <~ Reader.ReadBytesToUInt64 (length_of (packet_number_length h));
  _ <~ guard (negb (packet_number h <=? delta));
  Reader.ret (StopWaitingFrame (PacketNumber.sub (packet_number h) delta)).

Definition ProcessRstStreamFrame : Reader.action QuicFrame :=
  id <~ Reader.ReadUInt32;
  off <~ Reader.ReadUInt64;
  code <~ Reader.ReadUInt32;
  Reader.ret (RstStreamFrame id (if QUIC_STREAM_LAST_ERROR <=? code then QUIC_STREAM_LAST_ERROR else code) off).

Definition ProcessConnectionCloseFrame : Reader.action QuicFrame :=
  code <~ Reader.ReadUInt32;
  details <~ Reader.ReadStringPiece16;
  Reader.ret (ConnectionCloseFrame GOOGLE_QUIC_CONNECTION_CLOSE (if QUIC_LAST_ERROR <=? code then QUIC_LAST_ERROR else code) details 0).

Definition ProcessGoAwayFrame : Reader.action QuicFrame :=
  code <~ Reader.ReadUInt32;
  id <~ Reader.ReadUInt32;
  reason <~ Reader.ReadStringPiece16;
  Reader.ret (GoAwayFrame (if QUIC_LAST_ERROR <=? code then QUIC_LAST_ERROR else code) id reason).

Definition ProcessWindowUpdateFrame : Reader.action QuicFrame :=
  id <~ Reader.ReadUInt32;
  off <~ Reader.ReadUInt64;
  Reader.ret (WindowUpdateFrame id off).

Definition ProcessBlockedFrame : Reader.action QuicFrame :=
  id <~ Reader.ReadUInt32;
  Reader.ret (BlockedFrame id 0).

(** *** ACK frames *)

Definition GetMaskFromNumBits (num_bits : Z) : Z := wrap8 (Z.shiftl 1 num_bits - 1).
Definition ExtractBits (flags num_bits offset : Z) : Z := Z.land (Z.shiftr flags offset) (GetMaskFromNumBits num_bits).
Definition ExtractBit (flags offset : Z) : bool := negb (Z.land (Z.shiftr flags offset) (GetMaskFromNumBits 1) =? 0).
Definition ReadAckPacketNumberLength (flags : Z) : QuicPacketNumberLength := ReadSequenceNumberLength flags.

(** The blocks after the first; the result is the start of the last. *)
Fixpoint read_ack_blocks (num_ack_blocks : nat) (block_length : QuicPacketNumberLength) (first_received : Z) : proc Z :=
  match num_ack_blocks with
  | O => pret first_received
  | S num_ack_blocks =>
      gap <- lift Reader.ReadUInt8;
      current_block_length <- lift (Reader.ReadBytesToUInt64 (length_of block_length));
      check (negb ((first_received <? wrap64 (gap + current_block_length))
                   || (first_received <? wrap64 (gap + current_block_length + FirstSendingPacketNumber))));;
      let first_received := wrap64 (first_received - wrap64 (gap + current_block_length)) in
      (if 0 <? current_block_length
       then tell (OnAckRange first_received (PacketNumber.add first_received current_block_length)) else pret tt);;
      read_ack_blocks num_ack_blocks block_length first_received
  end.

(** A timestamp is given to the visitor: the state of the framer is the last one. *)
Definition report_timestamp (c : framer) (p timestamp : Z) : proc unit :=
  if process_timestamps c then
    (λ s, (Some tt, mk_state (input s) (told s) timestamp));;
    ask (OnAckTimestamp p (creation_time c + timestamp));; pret tt
  else pret tt.

(** The loop from the second timestamp on. *)
Fixpoint read_timestamps (c : framer) (rounds : nat) (largest_acked : Z) : proc unit :=
  match rounds with
  | O => pret tt
  | S rounds =>
      delta_from_largest_observed <- lift Reader.ReadUInt8;
      check (negb (largest_acked <=? delta_from_largest_observed));;
      incremental_time_delta_us <- lift Reader.ReadUFloat16;
      last <- (λ s, (Some (last_timestamp s), s));
      report_timestamp c (PacketNumber.sub largest_acked delta_from_largest_observed) (last + incremental_time_delta_us);;
      read_timestamps c rounds largest_acked
  end.
Definition ProcessTimestampsInAckFrame (c : framer) (num_received_packets largest_acked : Z) : proc unit :=
  if num_received_packets =? 0 then pret tt else
  delta_from_largest_observed <- lift Reader.ReadUInt8;
  check (negb (largest_acked <=? delta_from_largest_observed));;
  time_delta_us <- lift Reader.ReadUInt32;
  last <- (λ s, (Some (last_timestamp s), s));
  report_timestamp c (PacketNumber.sub largest_acked delta_from_largest_observed) (CalculateTimestampFromWire last time_delta_us);;
  read_timestamps c (Z.to_nat (num_received_packets - 1)) largest_acked.

Definition ProcessAckFrame (c : framer) (frame_type : Z) : proc unit :=
  let has_ack_blocks := ExtractBit frame_type kQuicHasMultipleAckBlocksOffset in
  let block_length :=
    ReadAckPacketNumberLength (ExtractBits frame_type kQuicSequenceNumberLengthNumBits kActBlockLengthOffset) in
  let largest_length :=
    ReadAckPacketNumberLength (ExtractBits frame_type kQuicSequenceNumberLengthNumBits kLargestAckedOffset) in
  largest_acked <- lift (Reader.ReadBytesToUInt64 (length_of largest_length));
  check (negb (largest_acked <? FirstSendingPacketNumber));;
  ack_delay_time_us <- lift Reader.ReadUFloat16;
  tell (OnAckFrameStart largest_acked
          (if ack_delay_time_us =? kUFloat16MaxValue then ReceivedPacketManager.Delta_Infinite else ack_delay_time_us));;
  num_ack_blocks <- (if has_ack_blocks then lift Reader.ReadUInt8 else pret 0);
  first_block_length <- lift (Reader.ReadBytesToUInt64 (length_of block_length));
  check (negb (first_block_length =? 0));;
  check (negb ((wrap64 (largest_acked + 1) <? first_block_length)
               || (wrap64 (largest_acked + 1) <? wrap64 (first_block_length + FirstSendingPacketNumber))));;
  let first_received := wrap64 (wrap64 (largest_acked + 1) - first_block_length) in
  tell (OnAckRange first_received (wrap64 (largest_acked + 1)));;
  first_received <- read_ack_blocks (Z.to_nat num_ack_blocks) block_length first_received;
  num_received_packets <- lift Reader.ReadUInt8;
  ProcessTimestampsInAckFrame c num_received_packets largest_acked;;
  tell (OnAckFrameEnd first_received).

(** *** The payload *)

Inductive outcome := Continue | Stop | Raise (e : QuicErrorCode).

(** A frame parsed and given to the visitor. *)
Definition visit (a : Reader.action QuicFrame) (e : QuicErrorCode) (s : state) : outcome * state :=
  let '(o, s) := lift a s in
  match o with
  | None => (Raise e, s)
  | Some f => let '(ok, s) := ask (OnFrame f) s in (if default false ok then Continue else Stop, s)
  end.

(** What the loop of [ProcessFrameData] does after the type. *)
Definition process_frame (c : framer) (h : QuicPacketHeader) (frame_type : Z) (s : state) : outcome * state :=
  let special_mask := if transport_version c <=? QUIC_VERSION_44 then kQuicFrameTypeBrokenMask else kQuicFrameTypeSpecialMask in
  let type_is := λ ty, frame_type =? ty in
  if negb (Z.land frame_type special_mask =? 0) then
    if negb (Z.land frame_type kQuicFrameTypeStreamMask =? 0) then visit (ProcessStreamFrame frame_type) QUIC_INVALID_STREAM_DATA s else
    if negb (Z.land frame_type kQuicFrameTypeAckMask =? 0) then
      let '(ok, s) := ProcessAckFrame c frame_type s in
      (match ok with Some _ => Continue | None => Raise QUIC_INVALID_ACK_DATA end, s)
    else (Raise QUIC_INVALID_FRAME_DATA, s)
  else
  if type_is PADDING_FRAME then visit ProcessPaddingFrame QUIC_INVALID_FRAME_DATA s else
  if type_is RST_STREAM_FRAME then visit ProcessRstStreamFrame QUIC_INVALID_RST_STREAM_DATA s else
  if type_is CONNECTION_CLOSE_FRAME then visit ProcessConnectionCloseFrame QUIC_INVALID_CONNECTION_CLOSE_DATA s else
  if type_is GOAWAY_FRAME then visit ProcessGoAwayFrame QUIC_INVALID_GOAWAY_DATA s else
  if type_is WINDOW_UPDATE_FRAME then visit ProcessWindowUpdateFrame QUIC_INVALID_WINDOW_UPDATE_DATA s else
  if type_is BLOCKED_FRAME then visit ProcessBlockedFrame QUIC_INVALID_BLOCKED_DATA s else
  if type_is STOP_WAITING_FRAME then
    if quic_do_not_accept_stop_waiting c && (QUIC_VERSION_44 <=? transport_version c) then (Raise QUIC_INVALID_STOP_WAITING_DATA, s)
    else visit (ProcessStopWaitingFrame h) QUIC_INVALID_STOP_WAITING_DATA s else
  if type_is PING_FRAME then visit (Reader.ret PingFrame) QUIC_INVALID_FRAME_DATA s else
  if type_is IETF_EXTENSION_MESSAGE_NO_LENGTH || type_is IETF_EXTENSION_MESSAGE
  then visit (ProcessMessageFrame (type_is IETF_EXTENSION_MESSAGE_NO_LENGTH)) QUIC_INVALID_MESSAGE_DATA s else
  if type_is CRYPTO_FRAME then
    if negb (QuicVersionUsesCryptoFrames (transport_version c)) then (Raise QUIC_INVALID_FRAME_DATA, s)
    else visit ProcessCryptoFrame QUIC_INVALID_FRAME_DATA s else
  (Raise QUIC_INVALID_FRAME_DATA, s).

Inductive result := Processed | Raised (e : QuicErrorCode) | OutOfFuel.

(** The loop of [ProcessFrameData]; each round takes a byte. *)
Fixpoint process_frames (c : framer) (h : QuicPacketHeader) (fuel : nat) (s : state) : result * state :=
  if Reader.IsDoneReading (input s) then (Processed, s) else
  match fuel with
  | O => (OutOfFuel, s)
  | S fuel =>
      let '(o, s) := lift Reader.ReadUInt8 s in
      match o with
      | None => (Raised QUIC_INVALID_FRAME_DATA, s)
      | Some frame_type =>
          match process_frame c h frame_type s with
          | (Continue, s) => process_frames c h fuel s
          | (Stop, s) => (Processed, s)
          | (Raise e, s) => (Raised e, s)
          end
      end
  end.

Definition ProcessFrameData (c : framer) (h : QuicPacketHeader) (s : state) : result * state :=
  if Reader.IsDoneReading (input s) then (Raised QUIC_MISSING_PAYLOAD, s)
  else process_frames c h (Z.to_nat (Reader.BytesRemaining (input s))) s.
End visitor.

(** ** What a frame is on the wire, and what arrives *)

(** The data behind the producer. *)
Context (stream_data : Z → Z → Z) (crypto_data : EncryptionLevel → Z → Z).
Abbreviation NET := NETWORK_BYTE_ORDER.
Abbreviation emits := (WriterSpec.emits NET).
Abbreviation reads := (ReaderSpec.reads NET).

Definition ub (n : nat) (v : Z) : list Z := WriterSpec.uint_bytes NET n v.
Definition str16 (d : list Z) : list Z := ub 2 (zlen d) ++ d.

Definition block (length : QuicPacketNumberLength) (gap len : Z) : list Z := gap :: ub (length_of length) len.
(** The blocks for the intervals [itr], from [previous_start] down: [n] of them at most. *)
Fixpoint blocks_bytes (length : QuicPacketNumberLength) (n previous_start : Z) (itr : list interval) : list Z :=
  match itr with
  | [] => []
  | i :: itr =>
      let total_gap := previous_start - imax i in
      let m := (total_gap + 254) / 255 in
      if m <=? n then
        concat (replicate (Z.to_nat (m - 1)) (block length 255 0))
        ++ block length (total_gap - (m - 1) * 255) (imax i - imin i) ++ blocks_bytes length (n - m) (imin i) itr
      else concat (replicate (Z.to_nat n) (block length 255 0))
  end.
(** The intervals [n] blocks report, and where the last block ends. *)
Fixpoint reported (n previous_start : Z) (itr : list interval) : list interval * Z :=
  match itr with
  | [] => ([], previous_start)
  | i :: itr =>
      let m := (previous_start - imax i + 254) / 255 in
      if m <=? n then let '(l, low) := reported (n - m) (imin i) itr in (i :: l, low)
      else ([], previous_start - 255 * n)
  end.

Fixpoint later_times_bytes (largest prev_time : Z) (times : list (Z * Z)) : list Z :=
  match times with
  | [] => []
  | (p, time) :: times =>
      [largest - p] ++ ub 2 (Writer.uf16_result (time - prev_time)) ++ later_times_bytes largest time times
  end.
Definition times_bytes (c : framer) (f : QuicAckFrame) : list Z :=
  zlen (ReceivedPacketManager.received_packet_times f)
  :: match ReceivedPacketManager.received_packet_times f with
     | [] => []
     | (p, time) :: times =>
         [ReceivedPacketManager.largest_acked f - p] ++ ub 4 ((time - creation_time c) mod 2 ^ 32)
         ++ later_times_bytes (ReceivedPacketManager.largest_acked f) time times
     end.

(** The first interval and the others, from the largest down. *)
Definition intervals_down (f : QuicAckFrame) : interval * list interval :=
  match rev (ReceivedPacketManager.packets f) with [] => (Interval.mk 0 0, []) | i :: itr => (i, itr) end.

Definition ack_blocks_part (f : QuicAckFrame) (n : Z) : list Z :=
  let '(i, itr) := intervals_down f in
  ub (length_of (largest_acked_length f)) (ReceivedPacketManager.largest_acked f)
  ++ ub 2 (Writer.uf16_result (ack_delay_wire f))
  ++ (if 0 <? n then [n] else [])
  ++ ub (length_of (ack_block_length f)) (imax i - imin i)
  ++ (if 0 <? n then blocks_bytes (ack_block_length f) n (imin i) itr else []).
(** An ACK frame into that much room. *)
Definition times_fit (c : framer) (f : QuicAckFrame) (room : Z) : bool :=
  process_timestamps c && (GetAckFrameTimeStampSize f <=? room - 1 - zlen (ack_blocks_part f (blocks_for f room))).
Definition ack_bytes (c : framer) (f : QuicAckFrame) (room : Z) : list Z :=
  ack_blocks_part f (blocks_for f room) ++ (if times_fit c f room then times_bytes c f else [0]).

Definition frame_type_byte (f : QuicFrame) (last : bool) : Z :=
  match f with
  | PaddingFrame _ => PADDING_FRAME
  | RstStreamFrame _ _ _ => RST_STREAM_FRAME
  | ConnectionCloseFrame _ _ _ _ => CONNECTION_CLOSE_FRAME
  | GoAwayFrame _ _ _ => GOAWAY_FRAME
  | WindowUpdateFrame _ _ => WINDOW_UPDATE_FRAME
  | BlockedFrame _ _ => BLOCKED_FRAME
  | StopWaitingFrame _ => STOP_WAITING_FRAME
  | PingFrame | MtuDiscoveryFrame => PING_FRAME
  | CryptoFrame _ => CRYPTO_FRAME
  | StreamFrame f => GetStreamFrameTypeByte f last
  | AckFrame f => ack_type_byte f
  | MessageFrame _ _ => if last then IETF_EXTENSION_MESSAGE_NO_LENGTH else IETF_EXTENSION_MESSAGE
  | _ => 255
  end.

Definition body_bytes (c : framer) (h : QuicPacketHeader) (f : QuicFrame) (last : bool) (room : Z) : list Z :=
  match f with
  | PaddingFrame n => replicate (Z.to_nat (n - 1)) 0
  | RstStreamFrame id code off => ub 4 id ++ ub 8 off ++ ub 4 code
  | ConnectionCloseFrame _ code details _ => ub 4 code ++ str16 (TruncateErrorString details)
  | GoAwayFrame code id reason => ub 4 code ++ ub 4 id ++ str16 (TruncateErrorString reason)
  | WindowUpdateFrame id off => ub 4 id ++ ub 8 off
  | BlockedFrame id _ => ub 4 id
  | StopWaitingFrame least => ub (length_of (packet_number_length h)) (packet_number h - least)
  | CryptoFrame f =>
      varint (crypto_offset f) ++ varint (crypto_length f) ++ crypto_content crypto_data (shared c) f
  | StreamFrame f =>
      ub (Z.to_nat (GetStreamIdSize (stream_id f))) (stream_id f)
      ++ ub (Z.to_nat (GetStreamOffsetSize (offset f))) (offset f)
      ++ (if negb last then ub 2 (data_length f) else []) ++ stream_content stream_data (shared c) f
  | AckFrame f => ack_bytes c f room
  | MessageFrame d n => (if negb last then varint n else []) ++ concat d
  | _ => []
  end.
Definition frame_bytes (c : framer) (h : QuicPacketHeader) (f : QuicFrame) (last : bool) (room : Z) : list Z :=
  frame_type_byte f last :: body_bytes c h f last room.
(** The frames of a packet with that much room for them. *)
Fixpoint frames_bytes (c : framer) (h : QuicPacketHeader) (fs : list QuicFrame) (room : Z) : list Z :=
  match fs with
  | [] => []
  | f :: fs =>
      let d := frame_bytes c h f (is_last fs) room in d ++ frames_bytes c h fs (room - zlen d)
  end.

(** What arrives of a frame. *)
Definition received (c : framer) (f : QuicFrame) : QuicFrame :=
  match f with
  | MtuDiscoveryFrame => PingFrame
  | RstStreamFrame id code off => RstStreamFrame id (Z.min code QUIC_STREAM_LAST_ERROR) off
  | ConnectionCloseFrame _ code details _ =>
      ConnectionCloseFrame GOOGLE_QUIC_CONNECTION_CLOSE (Z.min code QUIC_LAST_ERROR) (TruncateErrorString details) 0
  | GoAwayFrame code id reason => GoAwayFrame (Z.min code QUIC_LAST_ERROR) id (TruncateErrorString reason)
  | BlockedFrame id _ => BlockedFrame id 0
  | StreamFrame f =>
      StreamFrame (mk_stream (stream_id f) (fin f) (offset f) (data_length f) (Some (stream_content stream_data (shared c) f)))
  | CryptoFrame f =>
      CryptoFrame (mk_crypto UnackedPacketMap.ENCRYPTION_INITIAL (crypto_offset f) (crypto_length f)
        (Some (crypto_content crypto_data (shared c) f)))
  | MessageFrame d n => MessageFrame [concat d] n
  | f => f
  end.

(** The timestamps a receiver [c'] reports, and its last one then. *)
Fixpoint later_times (c' : framer) (largest last prev_time : Z) (times : list (Z * Z)) : list event * Z :=
  match times with
  | [] => ([], last)
  | (p, time) :: times =>
      let last := last + Reader.uf16_value (Writer.uf16_result (time - prev_time)) in
      let '(l, last') := later_times c' largest last time times in (OnAckTimestamp p (creation_time c' + last) :: l, last')
  end.
Definition times_heard (c c' : framer) (f : QuicAckFrame) (last : Z) : list event * Z :=
  match ReceivedPacketManager.received_packet_times f with
  | [] => ([], last)
  | (p, time) :: times =>
      let last := CalculateTimestampFromWire last ((time - creation_time c) mod 2 ^ 32) in
      let '(l, last') := later_times c' (ReceivedPacketManager.largest_acked f) last time times in
      (OnAckTimestamp p (creation_time c' + last) :: l, last')
  end.
Definition ack_events (c c' : framer) (f : QuicAckFrame) (room last : Z) : list event * Z :=
  let '(i, itr) := intervals_down f in
  let '(l, low) := reported (blocks_for f room) (imin i) itr in
  let '(times, last) := if times_fit c f room && process_timestamps c' then times_heard c c' f last else ([], last) in
  let delay := Reader.uf16_value (Writer.uf16_result (ack_delay_wire f)) in
  (OnAckFrameStart (ReceivedPacketManager.largest_acked f)
     (if delay =? kUFloat16MaxValue then ReceivedPacketManager.Delta_Infinite else delay)
   :: map (λ i, OnAckRange (imin i) (imax i)) (i :: l) ++ times ++ [OnAckFrameEnd low], last).
Definition frame_events (c c' : framer) (f : QuicFrame) (room last : Z) : list event * Z :=
  match f with AckFrame f => ack_events c c' f room last | f => ([OnFrame (received c f)], last) end.
Fixpoint frames_events (c c' : framer) (h : QuicPacketHeader) (fs : list QuicFrame) (room last : Z) : list event * Z :=
  match fs with
  | [] => ([], last)
  | f :: fs =>
      let '(l, last) := frame_events c c' f room last in
      let '(k, last) := frames_events c c' h fs (room - zlen (frame_bytes c h f (is_last fs) room)) last in (l ++ k, last)
  end.

(** *** Frames within the limits of the protocol *)

Definition good_times (c : framer) (f : QuicAckFrame) : Prop :=
  let times := ReceivedPacketManager.received_packet_times f in
  zlen times <= 255
  ∧ Forall (λ x, 1 <= x.1 ∧ 0 <= ReceivedPacketManager.largest_acked f - x.1 <= 255 ∧ creation_time c <= x.2 < two62) times
  ∧ Sorted (λ x y, x.2 <= y.2) times.
Definition good_ack (c : framer) (f : QuicAckFrame) : Prop :=
  let largest := ReceivedPacketManager.largest_acked f in
  1 <= largest < 2 ^ 48
  ∧ 0 <= ReceivedPacketManager.ack_delay_time f < two63
  ∧ IntervalSet.valid (ReceivedPacketManager.packets f)
  ∧ (∀ i, i ∈ ReceivedPacketManager.packets f → 1 <= imin i)
  ∧ (∃ i, last (ReceivedPacketManager.packets f) = Some i ∧ imax i = largest + 1)
  ∧ 0 <= creation_time c
  ∧ (process_timestamps c = true → good_times c f).

Definition good (c : framer) (h : QuicPacketHeader) (f : QuicFrame) : Prop :=
  match f with
  | PaddingFrame n => 0 < n
  | RstStreamFrame id code off => is_u32 id ∧ is_u32 code ∧ is_u64 off
  | ConnectionCloseFrame _ code _ _ => is_u32 code
  | GoAwayFrame code id _ => is_u32 code ∧ is_u32 id
  | WindowUpdateFrame id off => is_u32 id ∧ is_u64 off
  | BlockedFrame id _ => is_u32 id
  | StopWaitingFrame least =>
      1 <= least <= packet_number h ∧ packet_number h < 2 ^ 62
      ∧ packet_number h - least < pow256 (length_of (packet_number_length h))
      ∧ IsValidPacketNumberLength (packet_number_length h) = true
      ∧ (quic_do_not_accept_stop_waiting c = false ∨ transport_version c < 44)
  | PingFrame | MtuDiscoveryFrame => True
  | CryptoFrame f => 48 <= transport_version c ∧ IetfFramer.good stream_data crypto_data (shared c) (CryptoFrame f)
  | StreamFrame f =>
      is_u32 (stream_id f) ∧ is_u64 (offset f) ∧ is_u16 (data_length f)
      ∧ zlen (stream_content stream_data (shared c) f) = data_length f
      ∧ match data_producer c with
        | None => True
        | Some p => emits (WriteStreamData p (stream_id f) (offset f) (data_length f)) (stream_content stream_data (shared c) f)
        end
  | AckFrame f => good_ack c f
  | MessageFrame d n => 44 < transport_version c ∧ n = zlen (concat d) ∧ is_u16 n
  | _ => False
  end.

(** Every ACK frame with blocks after the first has room for one of them. *)
Fixpoint acks_have_room (c : framer) (h : QuicPacketHeader) (fs : list QuicFrame) (room : Z) : Prop :=
  match fs with
  | [] => True
  | f :: fs =>
      match f with
      | AckFrame f => (intervals_down f).2 = [] ∨ 0 < blocks_for f room
      | _ => True
      end ∧ acks_have_room c h fs (room - zlen (frame_bytes c h f (is_last fs) room))
  end.

(** ** Writing puts these bytes *)

Context {EL : EndianLaws}.

Lemma ub_length n v : zlen (ub n v) = Z.of_nat n.
Proof. unfold zlen, ub. cbn. by rewrite be_bytes_length. Qed.

Lemma emits_u16' v : is_u16 v → emits (Writer.WriteUInt16 v) (ub 2 v).
Proof. intros. by apply WriterSpec.emits_WriteUInt. Qed.
Lemma emits_u32 v : is_u32 v → emits (Writer.WriteUInt32 v) (ub 4 v).
Proof. intros. by apply WriterSpec.emits_WriteUInt. Qed.
Lemma emits_u64 v : is_u64 v → emits (Writer.WriteUInt64 v) (ub 8 v).
Proof. intros. by apply WriterSpec.emits_WriteUInt. Qed.
Lemma emits_ub n v : (n <= 8)%nat → 0 <= v < pow256 n → emits (Writer.WriteBytesToUInt64 n v) (ub n v).
Proof.
  intros Hn Hv. rewrite <-(Z.mod_small v (pow256 n)) at 2 by done. apply WriterSpec.emits_WriteBytesToUInt64; [done|].
  assert (pow256 n <= pow256 8) by (unfold pow256; apply Z.pow_le_mono_r; lia). change (pow256 8) with two64 in *. lia.
Qed.
Lemma emits_str16 d : zlen d <= 65535 → emits (Writer.WriteStringPiece16 d) (str16 d).
Proof.
  intros Hd. eapply (WriterSpec.emits_ext _ _ (Writer.WriteUInt16 (zlen d) &&& Writer.WriteBytes d)).
  { intros w _. unfold Writer.WriteStringPiece16. by destruct (Z.ltb_spec 65535 (zlen d)); [lia|]. }
  apply WriterSpec.emits_andthen; [apply emits_u16'; pose proof (zlen_nonneg d); unfold two16; lia|apply emits_bytes].
Qed.
Lemma truncated_fits d : zlen (TruncateErrorString d) <= 65535.
Proof. pose proof (truncated_length d). unfold kMaxErrorStringLength in *. lia. Qed.

Lemma emits_packet_number l v :
  IsValidPacketNumberLength l = true → 0 <= v < pow256 (length_of l) → emits (AppendPacketNumber l v) (ub (length_of l) v).
Proof.
  intros Hl Hv. eapply (WriterSpec.emits_ext _ _ (Writer.WriteBytesToUInt64 (length_of l) v)).
  { intros w _. unfold AppendPacketNumber. by rewrite Hl. }
  apply emits_ub; [apply length_of_le|done].
Qed.

Lemma count_bytes_spec rounds i v n :
  0 <= v → count_bytes rounds i v = Some n → i <= n < i + Z.of_nat rounds ∧ v < 256 ^ (n - i + 1).
Proof.
  revert i v n. induction rounds as [|rounds IH]; intros i v n Hv; [done|]. cbn [count_bytes]. rewrite Z.shiftr_div_pow2 by lia.
  change (2 ^ 8) with 256. pose proof (Z.div_mod v 256 ltac:(lia)) as Hdm. pose proof (Z.mod_pos_bound v 256 ltac:(lia)).
  destruct (Z.eqb_spec (v / 256) 0) as [E|E].
  - intros [= <-]. rewrite Z.sub_diag. split; [lia|]. change (256 ^ (0 + 1)) with 256. lia.
  - intros Hn. destruct (IH _ _ _ (Z.div_pos v 256 Hv ltac:(lia)) Hn) as [H1 H2]. split; [lia|].
    replace (n - i + 1) with (Z.succ (n - (i + 1) + 1)) by lia. rewrite Z.pow_succ_r by lia. lia.
Qed.
Lemma count_bytes_enough rounds i v : 0 <= v < 256 ^ Z.of_nat rounds → (0 < rounds)%nat → is_Some (count_bytes rounds i v).
Proof.
  revert i v. induction rounds as [|rounds IH]; intros i v Hv Hr; [lia|]. cbn [count_bytes]. rewrite Z.shiftr_div_pow2 by lia.
  change (2 ^ 8) with 256. destruct (Z.eqb_spec (v / 256) 0) as [E|E]; [done|].
  rewrite Nat2Z.inj_succ, Z.pow_succ_r in Hv by lia.
  assert (v / 256 < 256 ^ Z.of_nat rounds) by (apply Z.div_lt_upper_bound; lia).
  pose proof (Z.div_pos v 256 ltac:(lia) ltac:(lia)).
  destruct rounds as [|rounds]; [change (256 ^ Z.of_nat 0) with 1 in *; lia|]. apply IH; lia.
Qed.

Lemma stream_id_size id :
  is_u32 id → 1 <= GetStreamIdSize id <= 4 ∧ id < pow256 (Z.to_nat (GetStreamIdSize id)).
Proof.
  intros Hid. unfold GetStreamIdSize. destruct (count_bytes_enough 4 1 id) as [n Hn]; [exact Hid|lia|].
  rewrite Hn. change (default 4 (Some n)) with n. apply count_bytes_spec in Hn as [H1 H2]; [|lia]. change (Z.of_nat 4) with 4 in H1.
  unfold pow256. rewrite Z2Nat.id by lia. replace (n - 1 + 1) with n in H2 by lia. split; [lia|done].
Qed.
Lemma stream_offset_size off :
  is_u64 off →
  (GetStreamOffsetSize off = 0 ∨ 2 <= GetStreamOffsetSize off <= 8) ∧ off < pow256 (Z.to_nat (GetStreamOffsetSize off)).
Proof.
  intros Hoff. unfold GetStreamOffsetSize. destruct (Z.eqb_spec off 0) as [->|_]; [by split; [left|]|].
  rewrite Z.shiftr_div_pow2 by lia. change (2 ^ 8) with 256.
  pose proof (Z.div_pos off 256 ltac:(lia) ltac:(lia)).
  assert (off / 256 < 256 ^ Z.of_nat 7).
  { apply Z.div_lt_upper_bound; [lia|]. change (256 * 256 ^ Z.of_nat 7) with two64. lia. }
  destruct (count_bytes_enough 7 2 (off / 256)) as [n Hn]; [lia..|]. rewrite Hn. change (default 8 (Some n)) with n.
  apply count_bytes_spec in Hn as [H1 H2]; [|lia]. change (Z.of_nat 7) with 7 in H1. unfold pow256. rewrite Z2Nat.id by lia.
  split; [right; lia|].
  replace n with (Z.succ (n - 2 + 1)) by lia. rewrite Z.pow_succ_r by lia.
  pose proof (Z.div_mod off 256 ltac:(lia)). pose proof (Z.mod_pos_bound off 256 ltac:(lia)). lia.
Qed.

Lemma emits_stream_id id :
  is_u32 id → emits (AppendStreamId (GetStreamIdSize id) id) (ub (Z.to_nat (GetStreamIdSize id)) id).
Proof.
  intros Hid. destruct (stream_id_size id Hid) as [H1 H2]. unfold AppendStreamId.
  destruct (Z.eqb_spec (GetStreamIdSize id) 0), (Z.ltb_spec 4 (GetStreamIdSize id)); try lia. cbn [orb].
  apply emits_ub; lia.
Qed.
Lemma emits_stream_offset off :
  is_u64 off → emits (AppendStreamOffset (GetStreamOffsetSize off) off) (ub (Z.to_nat (GetStreamOffsetSize off)) off).
Proof.
  intros Hoff. destruct (stream_offset_size off Hoff) as [H1 H2]. unfold AppendStreamOffset.
  destruct (Z.eqb_spec (GetStreamOffsetSize off) 1), (Z.ltb_spec 8 (GetStreamOffsetSize off)); try lia. cbn [orb].
  apply emits_ub; lia.
Qed.

(** *** The blocks of an ACK frame *)

(** A counting loop seen as an action. *)
Definition action_of (a : counting) : action := λ w, let '(o, w) := a w in (match o with Some _ => true | None => false end, w).
Definition emits_count (a : counting) (n : Z) (d : list Z) : Prop :=
  emits (action_of a) d ∧ ∀ w x w', a w = (Some x, w') → x = n.

Lemma emits_count_ret n : emits_count (λ w, (Some n, w)) n [].
Proof. split; [apply WriterSpec.emits_ret|]. by intros ? ? ? [= -> ->]. Qed.

Lemma emits_count_on a k n d1 d2 : emits a d1 → emits_count k n d2 → emits_count (count_on a k) n (d1 ++ d2).
Proof.
  intros Ha [Hk Hn]. split.
  - eapply WriterSpec.emits_ext; [|apply WriterSpec.emits_andthen; [exact Ha|exact Hk]].
    intros w _. unfold action_of, count_on, Writer.andthen. by destruct (a w) as [[] ?].
  - intros w x w'. unfold count_on. destruct (a w) as [[] ?]; [apply Hn|done].
Qed.

Lemma emits_count_ext a b n d : (∀ w, a w = b w) → emits_count b n d → emits_count a n d.
Proof.
  intros H [Hb Hn]. split; [|intros w; rewrite H; apply Hn].
  eapply WriterSpec.emits_ext; [|exact Hb]. intros w _. unfold action_of. by rewrite H.
Qed.

Lemma emits_count_bind a k n d1 d2 x :
  emits_count a n d1 → emits_count (k n) x d2 →
  emits_count (λ w, match a w with (None, w) => (None, w) | (Some n, w) => k n w end) x (d1 ++ d2).
Proof.
  intros [Ha Hn] Hk. apply (emits_count_ext _ (count_on (action_of a) (k n))); [|by apply emits_count_on].
  intros w. unfold count_on, action_of. destruct (a w) as [[y|] w'] eqn:E; [|done]. by rewrite (Hn _ _ _ E).
Qed.

Lemma emits_count_eq a n d d' : emits_count a n d → d = d' → emits_count a n d'.
Proof. by intros ? <-. Qed.

Lemma emits_block gap l len :
  IsValidPacketNumberLength l = true → 0 <= len < pow256 (length_of l) → emits (AppendAckBlock gap l len) (block l gap len).
Proof.
  intros Hl Hlen. unfold AppendAckBlock, block. change (gap :: ?d) with ([gap] ++ d).
  assert (emits (if len =? 0 then Writer.WriteUInt8 gap &&& Writer.WriteBytesToUInt64 (length_of l) len
    else Writer.WriteUInt8 gap &&& AppendPacketNumber l len) ([gap] ++ ub (length_of l) len)) as H.
  { destruct (len =? 0); (apply WriterSpec.emits_andthen; [apply emits_byte|]).
    - apply emits_ub; [apply length_of_le|done].
    - by apply emits_packet_number. }
  by rewrite Hl.
Qed.

Lemma block_nonneg l : 0 <= 0 < pow256 (length_of l).
Proof. pose proof (pow256_pos (length_of l)). lia. Qed.

Lemma emits_empty_blocks rounds i gaps l num written :
  IsValidPacketNumberLength l = true → num - written <= Z.of_nat rounds →
  let m := Z.max 0 (Z.min (gaps - i) (num - written)) in
  emits_count (append_empty_blocks rounds i gaps l num written) (written + m)
    (concat (replicate (Z.to_nat m) (block l 255 0))).
Proof.
  intros Hl. revert i written. induction rounds as [|rounds IH]; intros i written Hr m.
  { assert (m = 0) as -> by lia. cbn [append_empty_blocks]. rewrite Z.add_0_r.
    apply (emits_count_ext _ (λ w, (Some written, w))); [|apply emits_count_ret]. intros w. by destruct (_ && _). }
  cbn [append_empty_blocks]. destruct ((i <? gaps) && (written <? num)) eqn:E.
  - specialize (IH (i + 1) (written + 1) ltac:(lia)). set (m' := Z.max 0 (Z.min (gaps - (i + 1)) (num - (written + 1)))) in *.
    assert (m = 1 + m' ∧ 0 <= m') as [-> Hm] by lia.
    replace (Z.to_nat (1 + m')) with (S (Z.to_nat m')) by lia. cbn [replicate concat].
    rewrite Z.add_assoc. apply (emits_count_ext _ (count_on (AppendAckBlock uint8_max l 0) (append_empty_blocks rounds (i + 1) gaps l num (written + 1)))); [done|].
    apply emits_count_on; [|exact IH]. apply emits_block; [done|apply block_nonneg].
  - assert (m = 0) as -> by lia. rewrite Z.add_0_r. apply emits_count_ret.
Qed.

(** How many blocks the intervals take. *)
Fixpoint total_blocks (previous_start : Z) (itr : list interval) : Z :=
  match itr with [] => 0 | i :: itr => (previous_start - imax i + 254) / 255 + total_blocks (imin i) itr end.

Lemma gap_blocks g : 0 < g → 1 <= (g + 254) / 255 ∧ ((g + 254) / 255 - 1) * 255 < g <= (g + 254) / 255 * 255.
Proof.
  intros Hg. pose proof (Z.div_mod (g + 254) 255 ltac:(lia)). pose proof (Z.mod_pos_bound (g + 254) 255 ltac:(lia)).
  assert (1 <= (g + 254) / 255) by (apply Z.div_le_lower_bound; lia). lia.
Qed.

Lemma encoded_gaps_small g : 0 < g < 2 ^ 62 → encoded_gaps g = (g + 254) / 255.
Proof.
  intros Hg. unfold encoded_gaps, uint8_max, wrap64. rewrite Z.mod_small by (unfold two64; lia). f_equal. lia.
Qed.

Lemma interval_length i : 1 <= imin i < imax i → imax i < two64 → PacketNumberQueue.PacketNumberIntervalLength i = imax i - imin i.
Proof.
  intros Hi Hm. unfold PacketNumberQueue.PacketNumberIntervalLength, Interval.Empty. destruct (Z.leb_spec (imax i) (imin i)); [lia|].
  apply PacketNumber.sub_small. lia.
Qed.

Lemma ack_info_max prev itr info : max_block_length info <= max_block_length (ack_info_loop prev itr info).
Proof.
  revert prev info. induction itr as [|i itr IH]; intros prev info; cbn [ack_info_loop]; [lia|].
  destruct (_ <? _); [|lia]. etrans; [|apply IH]. cbn [max_block_length]. lia.
Qed.

Lemma ack_info_count prev itr info :
  blocks_below prev itr → prev < 2 ^ 62 →
  num_ack_blocks info <= num_ack_blocks (ack_info_loop prev itr info) <= num_ack_blocks info + total_blocks prev itr
  ∧ (num_ack_blocks (ack_info_loop prev itr info) < 255 → num_ack_blocks (ack_info_loop prev itr info) = num_ack_blocks info + total_blocks prev itr)
  ∧ 0 <= total_blocks prev itr.
Proof.
  revert prev info. induction itr as [|i itr IH]; intros prev info Hb Hp; cbn [ack_info_loop total_blocks]; [lia|].
  apply blocks_below_cons in Hb as (Hi&Hlt&Hb). pose proof (gap_blocks (prev - imax i) ltac:(lia)) as (Hm&_).
  rewrite wrap64_sub, encoded_gaps_small by lia. specialize (IH (imin i)).
  destruct (Z.ltb_spec (num_ack_blocks info) uint8_max); unfold uint8_max in *.
  - match goal with |- context [ack_info_loop (imin i) itr ?x] => destruct (IH x Hb ltac:(lia)) as (H1&H2&H3) end. cbn [num_ack_blocks] in H1, H2. split; [lia|]. split; [|lia]. intros Hx.
    rewrite (H2 Hx). lia.
  - destruct (IH info Hb ltac:(lia)) as (_&_&H3). lia.
Qed.

Lemma emits_ack_blocks' l num prev itr info :
  IsValidPacketNumberLength l = true → blocks_below prev itr → prev < 2 ^ 62 → num <= 255 → 0 <= num_ack_blocks info <= num →
  max_block_length (ack_info_loop prev itr info) < pow256 (length_of l) →
  ∃ x, emits_count (append_ack_blocks l num prev (num_ack_blocks info) itr) x
         (blocks_bytes l (num - num_ack_blocks info) prev itr).
Proof.
  intros Hl. revert prev info. induction itr as [|i itr IH]; intros prev info Hb Hp Hnum Hinfo Hmax.
  { eexists. apply (emits_count_ext _ (λ w, (Some (num_ack_blocks info), w))); [done|apply emits_count_ret]. }
  apply blocks_below_cons in Hb as (Hi&Hlt&Hb). pose proof (gap_blocks (prev - imax i) ltac:(lia)) as (Hm&Hg1&Hg2).
  cbn [append_ack_blocks blocks_bytes ack_info_loop] in *. rewrite (wrap64_sub prev (imax i)), (encoded_gaps_small (prev - imax i)) by lia.
  rewrite (wrap64_sub prev (imax i)), (encoded_gaps_small (prev - imax i)) in Hmax by lia.
  set (g := prev - imax i) in *. set (m := (g + 254) / 255) in *. unfold uint8_max in *.
  destruct (Z.ltb_spec (num_ack_blocks info) num) as [Hw|Hw].
  2:{ replace (num - num_ack_blocks info) with 0 by lia. destruct (Z.leb_spec m 0); [lia|]. cbn. eexists. apply emits_count_ret. }
  destruct (Z.ltb_spec (num_ack_blocks info) 255); [|lia].
  pose proof (emits_empty_blocks (Z.to_nat num) 1 m l num (num_ack_blocks info) Hl ltac:(lia)) as He. cbv zeta in He.
  destruct (Z.leb_spec m (num - num_ack_blocks info)) as [Hfit|Hfit].
  - replace (Z.max 0 (Z.min (m - 1) (num - num_ack_blocks info))) with (m - 1) in He by lia.
    match type of Hmax with context [ack_info_loop _ _ ?y] =>
      destruct (IH (imin i) y Hb ltac:(lia) Hnum ltac:(cbn [num_ack_blocks]; lia) Hmax) as [x Hx] end. clear IH. rename Hx into IH. cbn [num_ack_blocks] in IH.
    assert (Hlen : imax i - imin i < pow256 (length_of l)).
    { rewrite <-interval_length by (unfold two64; lia). eapply Z.le_lt_trans; [|exact Hmax].
      etrans; [|apply ack_info_max]. cbn [max_block_length]. lia. }
    eexists. apply (emits_count_bind _ (λ written w, if num <=? written then (Some written, w) else
      count_on (AppendAckBlock (wrap8 (g - wrap64 (m - 1) * 255)) l (PacketNumberQueue.PacketNumberIntervalLength i))
        (append_ack_blocks l num (imin i) (written + 1) itr) w) _ _ _ x He).
    destruct (Z.leb_spec num (num_ack_blocks info + (m - 1))); [lia|].
    unfold wrap64, wrap8. rewrite (Z.mod_small (m - 1)) by (unfold two64; lia). rewrite Z.mod_small by (unfold two8; lia).
    rewrite interval_length by (unfold two64; lia).
    apply (emits_count_ext _ (count_on (AppendAckBlock (g - (m - 1) * 255) l (imax i - imin i))
      (append_ack_blocks l num (imin i) (num_ack_blocks info + (m - 1) + 1) itr))); [done|].
    apply emits_count_on; [apply emits_block; [done|lia]|].
    replace (num_ack_blocks info + (m - 1) + 1) with (num_ack_blocks info + m) by lia.
    by replace (num - num_ack_blocks info - m) with (num - (num_ack_blocks info + m)) by lia.
  - replace (Z.max 0 (Z.min (m - 1) (num - num_ack_blocks info))) with (num - num_ack_blocks info) in He by lia.
    exists num. rewrite <-(app_nil_r (concat _)).
    apply (emits_count_bind _ (λ written w, if num <=? written then (Some written, w) else
      count_on (AppendAckBlock (wrap8 (g - wrap64 (m - 1) * 255)) l (PacketNumberQueue.PacketNumberIntervalLength i))
        (append_ack_blocks l num (imin i) (written + 1) itr) w) _ _ _ num He).
    destruct (Z.leb_spec num (num_ack_blocks info + (num - num_ack_blocks info))); [|lia].
    replace (num_ack_blocks info + (num - num_ack_blocks info)) with num by lia. apply emits_count_ret.
Qed.

(** *** Writing into a known room *)

Definition emits_in (room : Z) (a : action) (d : list Z) : Prop :=
  ∀ w, WriterSpec.wf w → Writer.endianness w = NET → Writer.remaining w = room →
  let '(ok, w') := a w in
  WriterSpec.wf w' ∧ Writer.capacity w' = Writer.capacity w ∧ Writer.endianness w' = NET ∧ Writer.length_ w <= Writer.length_ w'
  ∧ ok = (zlen d <=? room)
  ∧ (ok = true → WriterSpec.written w' = WriterSpec.written w ++ d ∧ Writer.length_ w' = Writer.length_ w + zlen d).

Lemma emits_in_any room a d : emits a d → emits_in room a d.
Proof. intros H w Hw He <-. by apply H. Qed.

Lemma emits_in_ext room a b d :
  (∀ w, Writer.remaining w = room → a w = b w) → emits_in room b d → emits_in room a d.
Proof. intros H Hb w Hw He Hr. rewrite H by done. by apply Hb. Qed.

Lemma emits_in_eq room a d d' : emits_in room a d → d = d' → emits_in room a d'.
Proof. by intros ? <-. Qed.

Lemma emits_in_andthen room a b d1 d2 :
  emits_in room a d1 → emits_in (room - zlen d1) b d2 → emits_in room (a &&& b) (d1 ++ d2).
Proof.
  intros Ha Hb w Hw He Hr. unfold Writer.andthen. specialize (Ha w Hw He Hr). destruct (a w) as [ok w1].
  destruct Ha as (Hw1&Hc1&He1&Hl1&->&Ha). pose proof (zlen_nonneg d2). rewrite zlen_app.
  destruct (Z.leb_spec (zlen d1) room).
  - destruct (Ha eq_refl) as [Ha1 Ha2].
    specialize (Hb w1 Hw1 He1 ltac:(unfold Writer.remaining in *; lia)). destruct (b w1) as [ok w2].
    destruct Hb as (Hw2&Hc2&He2&Hl2&->&Hb).
    split; [done|]. split; [congruence|]. split; [done|]. split; [lia|]. split; [lia|].
    intros Hok. destruct (Hb Hok) as [Hb1 Hb2]. rewrite Hb1, Ha1, app_assoc. split; [done|lia].
  - split; [done|]. split; [done|]. split; [done|]. split; [lia|]. split; [lia|done].
Qed.

Lemma emits_later_times largest prev times :
  largest < 2 ^ 62 → 0 <= prev →
  Forall (λ x, 1 <= x.1 ∧ 0 <= largest - x.1 <= 255 ∧ x.2 < two62) times → Sorted (λ x y, x.2 <= y.2) ((0, prev) :: times) →
  emits (append_timestamps largest prev times) (later_times_bytes largest prev times).
Proof.
  intros Hl. revert prev. induction times as [|[p time] times IH]; intros prev Hprev Hall Hs; [apply emits_ret_nil|].
  cbn [append_timestamps later_times_bytes]. apply Forall_cons in Hall as [(Hp&Hd&Ht) Hall]. cbn [fst snd] in *.
  apply Sorted_inv in Hs as [Hs Hhd]. apply HdRel_inv in Hhd. cbn [snd] in Hhd.
  unfold wrap64, uint8_max. rewrite (Z.mod_small (largest - p)) by (unfold two64; lia).
  rewrite (Z.mod_small (time - prev)) by (unfold two62, two64 in *; lia).
  destruct (Z.ltb_spec 255 (largest - p)); [lia|]. rewrite app_assoc.
  apply WriterSpec.emits_andthen; [apply WriterSpec.emits_andthen|].
  - apply emits_byte.
  - apply Wire.emits_WriteUFloat16. unfold two62, two64 in *; lia.
  - apply IH; [lia|done|]. inversion Hs as [|? ? Hs' Hhd']; subst. constructor; [done|]. destruct times; constructor.
    by inversion Hhd'.
Qed.

Lemma emits_times c f :
  0 <= creation_time c → 1 <= ReceivedPacketManager.largest_acked f < 2 ^ 48 → good_times c f →
  emits (AppendTimestampsToAckFrame c f) (times_bytes c f).
Proof.
  intros Hc Hl (Hz&Hall&Hs). unfold AppendTimestampsToAckFrame, times_bytes, ReceivedPacketManager.LargestAcked.
  set (times := ReceivedPacketManager.received_packet_times f) in *. unfold uint8_max.
  destruct (Z.ltb_spec 255 (zlen times)); [lia|]. change (zlen times :: ?d) with ([zlen times] ++ d).
  apply WriterSpec.emits_andthen; [apply emits_bytes|]. clearbody times. destruct times as [|[p time] times]; [apply emits_ret_nil|].
  apply Forall_cons in Hall as [(Hp&Hd&Ht) Hall]. cbn [fst snd] in *. unfold wrap64.
  rewrite (Z.mod_small (_ - p)) by (unfold two64; lia). rewrite (Z.mod_small (time - _)) by (unfold two62, two64 in *; lia).
  destruct (Z.ltb_spec 255 (ReceivedPacketManager.largest_acked f - p)); [lia|].
  change (Z.shiftl 1 32 - 1) with (Z.ones 32). rewrite Z.land_ones by lia. rewrite app_assoc.
  apply WriterSpec.emits_andthen; [apply WriterSpec.emits_andthen|].
  - apply emits_byte.
  - apply emits_u32. by apply (Z.mod_pos_bound _ (2 ^ 32)).
  - apply emits_later_times; [lia|lia| |].
    + eapply Forall_impl; [exact Hall|]. cbn. intros x. lia.
    + apply Sorted_inv in Hs as [Hs Hhd]. constructor; [done|]. destruct times; constructor. by apply HdRel_inv in Hhd.
Qed.

(** What a good ACK frame has. *)
Lemma good_ack_intervals c f i itr :
  good_ack c f → intervals_down f = (i, itr) →
  rev (ReceivedPacketManager.packets f) = i :: itr
  ∧ 1 <= imin i < imax i ∧ imax i = ReceivedPacketManager.largest_acked f + 1 ∧ imax i <= 2 ^ 48 ∧ blocks_below (imin i) itr.
Proof.
  intros (Hl&_&Hv&Hmin&(j&Hj&Hjm)&_) Hd. unfold intervals_down in Hd. destruct (valid_rev _ Hv) as [Hs Hne].
  assert (Hm : ∀ x, x ∈ rev (ReceivedPacketManager.packets f) → 1 <= imin x).
  { intros x Hx. apply Hmin. apply list_elem_of_In, in_rev, list_elem_of_In. exact Hx. }
  apply last_Some in Hj as [l Hj]. rewrite Hj, rev_app_distr in *. cbn [rev app] in *. injection Hd as <- <-.
  split; [done|]. inversion Hs as [|? ? Hs' Hall]; subst. rewrite Forall_forall in Hall.
  pose proof (Hm j ltac:(left)). pose proof (Hne j ltac:(left)).
  split; [lia|]. split; [done|]. split; [lia|]. split; [|split; [done|exact Hall]].
  intros x Hx. pose proof (Hm x ltac:(by right)). pose proof (Hne x ltac:(by right)). lia.
Qed.

Lemma ack_info_first prev itr info : first_block_length (ack_info_loop prev itr info) = first_block_length info.
Proof. revert prev info. induction itr as [|i itr IH]; intros prev info; cbn [ack_info_loop]; [done|]. destruct (_ <? _); [|done]. by rewrite IH. Qed.

Lemma ack_info_bound B prev itr info :
  blocks_below prev itr → prev <= B → B < two64 → max_block_length info < B → max_block_length (ack_info_loop prev itr info) < B.
Proof.
  revert prev info. induction itr as [|i itr IH]; intros prev info Hb Hp HB Hi; cbn [ack_info_loop]; [done|].
  destruct (_ <? _); [|done]. apply blocks_below_cons in Hb as (H1&H2&Hb).
  apply IH; [done|lia|done|]. cbn [max_block_length]. rewrite interval_length by lia. lia.
Qed.

Lemma ack_info c f i itr :
  good_ack c f → intervals_down f = (i, itr) →
  GetAckFrameInfo f = ack_info_loop (imin i) itr (mk_info (imax i - imin i) (imax i - imin i) 0)
  ∧ 0 <= max_block_length (GetAckFrameInfo f) < 2 ^ 48 ∧ first_block_length (GetAckFrameInfo f) = imax i - imin i
  ∧ imax i - imin i <= max_block_length (GetAckFrameInfo f).
Proof.
  intros Hg Hd. destruct (good_ack_intervals c f i itr Hg Hd) as (Hr&Hi&Hm&Hb&Hbl).
  assert (E : GetAckFrameInfo f = ack_info_loop (imin i) itr (mk_info (imax i - imin i) (imax i - imin i) 0)).
  { unfold GetAckFrameInfo. rewrite Hr. do 2 f_equal; [by apply interval_length; unfold two64; lia|].
    unfold PacketNumberQueue.LastIntervalLength. rewrite <-(rev_involutive (ReceivedPacketManager.packets f)), Hr. cbn [rev].
    rewrite last_snoc. apply interval_length; unfold two64; lia. }
  split; [done|]. rewrite E, ack_info_first. pose proof (ack_info_max (imin i) itr (mk_info (imax i - imin i) (imax i - imin i) 0)) as H1.
  cbn [max_block_length first_block_length] in *. split; [|lia]. split; [lia|].
  apply ack_info_bound; [done|lia|unfold two64; lia|cbn; lia].
Qed.

Lemma blocks_for_range c f room i itr :
  good_ack c f → intervals_down f = (i, itr) →
  0 <= blocks_for f room <= 255 ∧ blocks_for f room <= num_ack_blocks (GetAckFrameInfo f) <= total_blocks (imin i) itr.
Proof.
  intros Hg Hd. destruct (good_ack_intervals c f i itr Hg Hd) as (Hr&Hi&Hm&Hb&Hbl). destruct (ack_info c f i itr Hg Hd) as (E&_).
  destruct (ack_info_count (imin i) itr (mk_info (imax i - imin i) (imax i - imin i) 0) Hbl ltac:(lia)) as (H1&_&_).
  rewrite <-E in H1. cbn [num_ack_blocks] in H1. unfold blocks_for, uint8_max. cbv zeta.
  match goal with |- context [wrap64 (Z.quot ?a ?b)] =>
    assert (0 <= wrap64 (Z.quot a b)) by apply Z.mod_pos_bound, eq_refl; generalize dependent (wrap64 (Z.quot a b)) end.
  intros m Hm0. destruct (Z.ltb_spec 255 (num_ack_blocks (GetAckFrameInfo f) `min` m)); lia.
Qed.

Lemma google_emits_ack c f room : good_ack c f → emits_in room (AppendAckFrameAndTypeByte c f) (ack_type_byte f :: ack_bytes c f room).
Proof.
  intros Hg. destruct (intervals_down f) as [i itr] eqn:Hd.
  destruct (good_ack_intervals c f i itr Hg Hd) as (Hr&Hi&Hm&Hb&Hbl). destruct (ack_info c f i itr Hg Hd) as (E&Hmax&Hfirst&Hle).
  destruct (blocks_for_range c f room i itr Hg Hd) as (Hn1&Hn2&_).
  pose proof Hg as (Hl&Hdel&_&_&_&Hc&Htimes).
  destruct (GetMinPacketNumberLength_spec (ReceivedPacketManager.largest_acked f) ltac:(lia)) as (Hwl&_&Hvl&_).
  destruct (GetMinPacketNumberLength_spec (max_block_length (GetAckFrameInfo f)) ltac:(lia)) as (Hwb&_&Hvb&_).
  unfold width in *. set (n := blocks_for f room) in *.
  apply (emits_in_ext _ _ (Writer.WriteUInt8 (ack_type_byte f)
   &&& AppendPacketNumber (largest_acked_length f) (ReceivedPacketManager.LargestAcked f)
   &&& Writer.WriteUFloat16 (ack_delay_wire f)
   &&& (if 0 <? n then Writer.WriteBytes [n] else Writer.ret true)
   &&& AppendPacketNumber (ack_block_length f) (first_block_length (GetAckFrameInfo f))
   &&& append_blocks f n
   &&& append_times c f)).
  { intros w <-. done. }
  unfold ack_bytes. fold n. change (ack_type_byte f :: ?d ++ ?e) with (([ack_type_byte f] ++ d) ++ e).
  apply emits_in_andthen.
  - apply emits_in_any. unfold ack_blocks_part. rewrite Hd.
    eapply emits_eq; [apply WriterSpec.emits_andthen; [apply WriterSpec.emits_andthen; [apply WriterSpec.emits_andthen;
      [apply WriterSpec.emits_andthen; [apply WriterSpec.emits_andthen; [apply emits_byte|]|]|]|]|]|].
    + apply emits_packet_number; [done|]. unfold ReceivedPacketManager.LargestAcked. unfold largest_acked_length, ReceivedPacketManager.LargestAcked. lia.
    + apply Wire.emits_WriteUFloat16. unfold ack_delay_wire. destruct (_ =? _); [done|]. apply Z.mod_pos_bound, eq_refl.
    + apply emits_if; intros _; [apply emits_bytes|apply emits_ret_nil].
    + apply emits_packet_number; [done|]. rewrite Hfirst. unfold ack_block_length. lia.
    + instantiate (1 := if 0 <? n then blocks_bytes (ack_block_length f) n (imin i) itr else []).
      destruct (emits_ack_blocks' (ack_block_length f) n (imin i) itr (mk_info (imax i - imin i) (imax i - imin i) 0)) as [x Hx];
        [done|done|lia|lia|cbn; lia|unfold ack_block_length in *; rewrite <-E; lia|].
      cbn [num_ack_blocks] in Hx. rewrite Z.sub_0_r in Hx.
      eapply (WriterSpec.emits_ext _ _ (if 0 <? n then action_of (append_ack_blocks (ack_block_length f) n (imin i) 0 itr) else Writer.ret true)).
      { intros w _. unfold append_blocks, action_of. rewrite Hr. destruct (0 <? n); [|done]. by destruct (append_ack_blocks _ _ _ _ _ _) as [[]]. }
      apply emits_if; intros _; [exact (proj1 Hx)|apply emits_ret_nil].
    + rewrite <-!app_assoc. by rewrite Hfirst.
  - rewrite zlen_app, zlen_cons, zlen_nil.
    apply (emits_in_ext _ _ (if times_fit c f room then AppendTimestampsToAckFrame c f else Writer.WriteBytes [0])).
    { intros w Hw. unfold append_times, times_fit. fold n. rewrite Hw. replace (room - (1 + 0 + zlen (ack_blocks_part f n))) with (room - 1 - zlen (ack_blocks_part f n)) by lia.
      by destruct (_ && _). }
    apply emits_in_any. apply emits_if; intros Ht; [|apply emits_bytes]. apply emits_times; [done|done|]. apply Htimes.
    unfold times_fit in Ht. by destruct (process_timestamps c).
Qed.

(** *** Every frame *)

(** A sequence of writes, down to the ranges of the values written. *)
Ltac emit_steps :=
  lazymatch goal with
  | |- WriterSpec.emits _ (Writer.ret true) _ => apply emits_ret_nil
  | |- WriterSpec.emits _ (Writer.WriteVarInt62 _) _ => apply emits_varint
  | |- WriterSpec.emits _ (Writer.WriteUInt16 _) _ => apply emits_u16'
  | |- WriterSpec.emits _ (Writer.WriteUInt32 _) _ => apply emits_u32
  | |- WriterSpec.emits _ (Writer.WriteUInt64 _) _ => apply emits_u64
  | |- WriterSpec.emits _ (Writer.WriteUInt8 _) _ => apply emits_byte
  | |- WriterSpec.emits _ (Writer.WriteBytes _) _ => apply emits_bytes
  | |- WriterSpec.emits _ (Writer.WriteStringPiece16 _) _ => apply emits_str16, truncated_fits
  | |- WriterSpec.emits _ (append_slices _) _ => apply emits_slices
  | |- WriterSpec.emits _ (if _ then _ else _) _ => apply emits_if; intros _; emit_steps
  | |- WriterSpec.emits _ (Writer.andthen _ _) _ => apply WriterSpec.emits_andthen; [emit_steps|emit_steps]
  | _ => idtac
  end.
Ltac emit := eapply emits_eq; [emit_steps; auto using u16_varint|rewrite <-?app_assoc; reflexivity].

Lemma google_emits_stream c f last :
  good c (mk_header 0 PACKET_1BYTE_PACKET_NUMBER) (StreamFrame f) →
  emits (AppendStreamFrame c f last)
    (ub (Z.to_nat (GetStreamIdSize (stream_id f))) (stream_id f)
     ++ ub (Z.to_nat (GetStreamOffsetSize (offset f))) (offset f)
     ++ (if negb last then ub 2 (data_length f) else []) ++ stream_content stream_data (shared c) f).
Proof.
  intros (Hid&Hoff&Hlen&Hz&Hp). unfold AppendStreamFrame. rewrite !app_assoc. apply WriterSpec.emits_andthen.
  - rewrite <-app_assoc. eapply emits_eq; [apply WriterSpec.emits_andthen; [apply WriterSpec.emits_andthen|]|by rewrite <-app_assoc].
    + by apply emits_stream_id.
    + by apply emits_stream_offset.
    + apply emits_if; intros _; [by apply emits_u16'|apply emits_ret_nil].
  - unfold stream_content in *. cbn [IetfFramer.data_producer shared] in *. destruct (data_producer c); [|apply emits_bytes].
    destruct (Z.eqb_spec (data_length f) 0) as [E|E]; [|done].
    rewrite E in *. rewrite (nil_length_inv (slice _ _ 0)); [apply emits_ret_nil|]. unfold zlen in Hz. lia.
Qed.

Lemma emits_crypto c f :
  IetfFramer.good stream_data crypto_data (shared c) (CryptoFrame f) →
  emits (AppendCryptoFrame (shared c) f) (varint (crypto_offset f) ++ varint (crypto_length f) ++ crypto_content crypto_data (shared c) f).
Proof.
  intros (Hoff&Hlen&Hz&Hp). unfold AppendCryptoFrame. rewrite app_assoc. apply WriterSpec.emits_andthen; [emit|].
  unfold crypto_content in *. destruct (IetfFramer.data_producer (shared c)); [done|]. destruct (crypto_buffer f); [apply emits_bytes|done].
Qed.

Lemma google_emits_frame c h f last room :
  good c h f → emits_in room (append_frame c h f last) (frame_bytes c h f last room).
Proof.
  intros Hg. unfold append_frame, frame_bytes. change (?b :: ?d) with ([b] ++ d).
  destruct f as [n|id code off|ty code details frame_type|code id reason|id off|id off|least| |f|f|f| |seq retire id token|n u|n u|d|d
    |id code|d n|token|seq]; try (exfalso; exact Hg);
    try (apply emits_in_any; apply WriterSpec.emits_andthen; [apply emits_byte|]; cbn [body_bytes good] in * ).
  - by apply emits_padding.
  - destruct Hg as (?&?&?). unfold AppendRstStreamFrame. emit.
  - unfold AppendConnectionCloseFrame. emit.
  - destruct Hg as (?&?). unfold AppendGoAwayFrame. emit.
  - destruct Hg as (?&?). unfold AppendWindowUpdateFrame. emit.
  - unfold AppendBlockedFrame. emit.
  - destruct Hg as (Hl&Hp&Hd&Hv&_). unfold AppendStopWaitingFrame, wrap64. rewrite Z.mod_small by (unfold two64; lia).
    assert (Hs : Z.shiftr (packet_number h - least) (8 * Z.of_nat (length_of (packet_number_length h))) = 0).
    { rewrite Z.shiftr_div_pow2 by lia. apply Z.div_small. unfold pow256 in Hd. rewrite Z.pow_mul_r by lia. change (2 ^ 8) with 256. lia. }
    rewrite Hs. cbn [Z.ltb Z.compare]. destruct (_ =? 0).
    + apply emits_ub; [apply length_of_le|lia].
    + apply emits_packet_number; [done|lia].
  - apply emits_ret_nil.
  - destruct Hg as [Hv Hg]. unfold QuicVersionUsesCryptoFrames, QUIC_VERSION_48.
    destruct (Z.leb_spec 48 (transport_version c)); [|lia]. by apply emits_crypto.
  - by apply google_emits_stream.
  - by apply google_emits_ack.
  - apply emits_ret_nil.
  - destruct Hg as (Hv&->&Hn). apply emits_in_any. cbn [body_bytes frame_type_byte]. unfold AppendMessageFrameAndTypeByte.
    eapply emits_eq; [apply WriterSpec.emits_andthen; [apply emits_ret_nil|]; emit_steps; by apply u16_varint|].
    by destruct last.
Qed.

Lemma google_emits_frames c h fs room : Forall (good c h) fs → emits_in room (append_frames c h fs) (frames_bytes c h fs room).
Proof.
  intros Hg. revert room. induction Hg as [|f fs Hf Hg IH]; intros room; cbn [append_frames frames_bytes].
  - apply emits_in_any, emits_ret_nil.
  - apply emits_in_andthen; [by apply google_emits_frame|apply IH].
Qed.

(** ** Parsing recovers the frames *)

Lemma reads_ub n v : (n <= 8)%nat → 0 <= v < pow256 n → reads (Reader.ReadBytesToUInt64 n) (ub n v) v.
Proof. apply ReaderSpec.reads_ReadBytesToUInt64. Qed.
Lemma reads_u16' v : is_u16 v → reads Reader.ReadUInt16 (ub 2 v) v.
Proof. intros. by apply ReaderSpec.reads_ReadUInt. Qed.
Lemma reads_u32 v : is_u32 v → reads Reader.ReadUInt32 (ub 4 v) v.
Proof. intros. by apply ReaderSpec.reads_ReadUInt. Qed.
Lemma reads_u64 v : is_u64 v → reads Reader.ReadUInt64 (ub 8 v) v.
Proof. intros. by apply ReaderSpec.reads_ReadUInt. Qed.
Lemma reads_str16 d : zlen d <= 65535 → reads Reader.ReadStringPiece16 (str16 d) d.
Proof. apply ReaderSpec.reads_ReadStringPiece16. Qed.
Lemma reads_uf16 v : is_u16 v → reads Reader.ReadUFloat16 (ub 2 v) (Reader.uf16_value v).
Proof. intros. by apply (ReaderSpec.reads_map NET _ Reader.uf16_value), reads_u16'. Qed.

(** [runs a last d x l last']: in front of [d], [a] succeeds with [x], takes [d], and makes the calls [l], which are
    accepted; the last timestamps before and after are [last] and [last']. *)
Definition runs {A} (a : proc A) (last : Z) (d : list Z) (x : A) (l : list event) (last' : Z) : Prop :=
  ∀ s k, last_timestamp s = last → left (input s) (d ++ k) →
  ∃ r, a s = (Some x, mk_state r (told s ++ l) last') ∧ left r k.

Lemma runs_ret {A} (x : A) last : runs (pret x) last [] x [] last.
Proof. intros [r t z] k <- Hl. exists r. cbn. by rewrite app_nil_r. Qed.

Lemma runs_bind {A B} (a : proc A) (f : A → proc B) last last1 last2 d1 d2 x y l1 l2 :
  runs a last d1 x l1 last1 → runs (f x) last1 d2 y l2 last2 → runs (pbind a f) last (d1 ++ d2) y (l1 ++ l2) last2.
Proof.
  intros Ha Hf s k Hs Hl. rewrite <-app_assoc in Hl. destruct (Ha s _ Hs Hl) as (r1&E1&Hl1).
  destruct (Hf (mk_state r1 (told s ++ l1) last1) k eq_refl Hl1) as (r2&E2&Hl2). exists r2. split; [|done].
  unfold pbind. rewrite E1, E2. cbn [told]. by rewrite app_assoc.
Qed.

Lemma runs_lift {A} (a : Reader.action A) last d x : reads a d x → runs (lift a) last d x [] last.
Proof.
  intros Ha s k <- (Hw&Hr&He). destruct (Ha _ _ Hw He Hr) as (r&E&Hl). exists r. unfold lift. rewrite E, app_nil_r.
  split; [done|]. by destruct Hl as (?&?&?).
Qed.

Lemma runs_lift_bind {A B} (a : Reader.action A) (f : A → proc B) last d1 d2 x y l last' :
  reads a d1 x → runs (f x) last d2 y l last' → runs (pbind (lift a) f) last (d1 ++ d2) y l last'.
Proof. intros Ha Hf. apply (runs_bind _ _ _ last _ _ _ x _ []); [by apply runs_lift|done]. Qed.

Lemma runs_check {A} b (k : proc A) last d x l last' :
  b = true → runs k last d x l last' → runs (pbind (check b) (λ _, k)) last d x l last'.
Proof.
  intros -> Hk. apply (runs_bind (check true) _ last last last' [] d tt x [] l); [|done].
  intros [r t z] k' <- Hl. exists r. cbn. by rewrite app_nil_r.
Qed.

Lemma runs_last {A} (f : Z → proc A) last d x l last' :
  runs (f last) last d x l last' → runs (pbind (λ s, (Some (last_timestamp s), s)) f) last d x l last'.
Proof. intros Hf s k Hs Hl. unfold pbind. rewrite Hs. by apply Hf. Qed.

Section accepted.
Context (v : list event → event → bool) (Hv : ∀ l e, v l e = true).

Lemma runs_ask e last : runs (ask v e) last [] true [e] last.
Proof. intros [r t z] k <- Hl. exists r. unfold ask. cbn. by rewrite Hv. Qed.

Lemma runs_tell {A} e (k : proc A) last d x l last' :
  runs k last d x l last' → runs (pbind (tell v e) (λ _, k)) last d x (e :: l) last'.
Proof.
  intros Hk. apply (runs_bind (tell v e) _ last last last' [] d tt x [e] l); [|done].
  rewrite <-(app_nil_r [e]). apply (runs_bind (ask v e) check last last last [] [] true tt [e] []); [apply runs_ask|].
  intros [r t z] k' <- Hl. exists r. cbn. by rewrite app_nil_r.
Qed.

Lemma runs_eq {A} (a : proc A) last d d' x l l' last' :
  runs a last d x l last' → d = d' → l = l' → runs a last d' x l' last'.
Proof. by intros ? <- <-. Qed.

(** *** The blocks *)

Lemma runs_block n l gap len prev last d x evs last' :
  0 <= gap <= 255 → 0 <= len < pow256 (length_of l) → len < 2 ^ 62 → gap + len + 1 <= prev < 2 ^ 62 →
  runs (read_ack_blocks v n l (prev - (gap + len))) last d x evs last' →
  runs (read_ack_blocks v (S n) l prev) last (block l gap len ++ d) x
    ((if 0 <? len then [OnAckRange (prev - (gap + len)) (prev - gap)] else []) ++ evs) last'.
Proof.
  intros Hgap Hlen Hlen2 Hprev Hk. cbn [read_ack_blocks]. unfold block. change ((gap :: ?a) ++ ?b) with ([gap] ++ a ++ b).
  eapply runs_lift_bind; [apply reads_u8; lia|]. eapply runs_lift_bind; [apply reads_ub; [apply length_of_le|done]|].
  unfold FirstSendingPacketNumber, UnackedPacketMap.FirstSendingPacketNumber, wrap64.
  rewrite (Z.mod_small (gap + len)), (Z.mod_small (gap + len + 1)), (Z.mod_small (prev - _)) by (unfold two64; lia).
  apply runs_check; [lia|]. cbv zeta. destruct (Z.ltb_spec 0 len).
  - cbn [app]. rewrite PacketNumber.add_small by (unfold two64; lia). replace (prev - (gap + len) + len) with (prev - gap) by lia.
    by apply runs_tell.
  - apply (runs_bind (pret tt) _ last last last' [] d tt x [] evs); [apply runs_ret|done].
Qed.

Lemma runs_empties k n l prev last d x evs last' :
  prev < 2 ^ 62 → 1 <= prev - 255 * Z.of_nat k →
  runs (read_ack_blocks v n l (prev - 255 * Z.of_nat k)) last d x evs last' →
  runs (read_ack_blocks v (k + n) l prev) last (concat (replicate k (block l 255 0)) ++ d) x evs last'.
Proof.
  revert prev. induction k as [|k IH]; intros prev Hp Hk Hr.
  { cbn. by replace (prev - 255 * Z.of_nat 0) with prev in Hr by lia. }
  cbn [replicate concat Nat.add]. rewrite <-app_assoc.
  apply (runs_block _ _ 255 0 prev last _ x evs last'); [lia|apply block_nonneg|lia|lia|].
  apply IH; [lia|lia|]. by replace (prev - (255 + 0) - 255 * Z.of_nat k) with (prev - 255 * Z.of_nat (S k)) by lia.
Qed.

Lemma runs_blocks l n prev itr last :
  blocks_below prev itr → 1 <= prev < 2 ^ 62 → 0 <= n <= total_blocks prev itr →
  (∀ i, i ∈ (reported n prev itr).1 → imax i - imin i < pow256 (length_of l)) →
  runs (read_ack_blocks v (Z.to_nat n) l prev) last (blocks_bytes l n prev itr) (reported n prev itr).2
    (map (λ i, OnAckRange (imin i) (imax i)) (reported n prev itr).1) last.
Proof.
  revert n prev. induction itr as [|i itr IH]; intros n prev Hb Hp Hn Hfit.
  { cbn in *. replace n with 0 by lia. apply runs_ret. }
  apply blocks_below_cons in Hb as (Hi&Hlt&Hb). pose proof (gap_blocks (prev - imax i) ltac:(lia)) as (Hm&Hg1&Hg2).
  cbn [blocks_bytes reported total_blocks] in *. set (g := prev - imax i) in *. set (m := (g + 254) / 255) in *.
  destruct (Z.leb_spec m n) as [Hle|Hgt].
  - specialize (IH (n - m) (imin i) Hb ltac:(lia) ltac:(lia)). destruct (reported (n - m) (imin i) itr) as [l' low]. cbn [fst snd map] in *.
    replace (Z.to_nat n) with (Z.to_nat (m - 1) + S (Z.to_nat (n - m)))%nat by lia.
    apply runs_empties; [lia|lia|].
    pose proof (Hfit i ltac:(left)) as Hfi.
    eapply runs_eq; [eapply (runs_block _ _ (g - (m - 1) * 255) (imax i - imin i))|reflexivity|].
    + lia.
    + lia.
    + lia.
    + lia.
    + replace (prev - 255 * Z.of_nat (Z.to_nat (m - 1)) - (g - (m - 1) * 255 + (imax i - imin i))) with (imin i) by lia.
      apply IH. intros j Hj. apply Hfit. by right.
    + destruct (Z.ltb_spec 0 (imax i - imin i)); [|lia]. cbn [app]. do 2 f_equal; lia.
  - cbn [fst snd map]. pose proof (runs_empties (Z.to_nat n) 0 l prev last [] (prev - 255 * n) [] last) as H.
    rewrite app_nil_r, Nat.add_0_r, Z2Nat.id in H by lia. apply H; [lia|lia|apply runs_ret].
Qed.

Lemma reported_fit prev itr info num B :
  blocks_below prev itr → prev < 2 ^ 62 → num <= 255 → num_ack_blocks info <= num →
  max_block_length (ack_info_loop prev itr info) < B →
  ∀ i, i ∈ (reported (num - num_ack_blocks info) prev itr).1 → imax i - imin i < B.
Proof.
  revert prev info. induction itr as [|i itr IH]; intros prev info Hb Hp Hnum Hinfo Hmax j Hj; [by apply elem_of_nil in Hj|].
  apply blocks_below_cons in Hb as (Hi&Hlt&Hb). pose proof (gap_blocks (prev - imax i) ltac:(lia)) as (Hm&Hg1&Hg2).
  cbn [reported ack_info_loop] in *.
  rewrite (wrap64_sub prev (imax i)), (encoded_gaps_small (prev - imax i)) in Hmax by lia.
  set (m := (prev - imax i + 254) / 255) in *. unfold uint8_max in *.
  destruct (Z.leb_spec m (num - num_ack_blocks info)) as [Hle|]; [|by apply elem_of_nil in Hj].
  destruct (Z.ltb_spec (num_ack_blocks info) 255); [|lia].
  match type of Hmax with context [ack_info_loop _ _ ?y] =>
    pose proof (IH (imin i) y Hb ltac:(lia) Hnum ltac:(cbn [num_ack_blocks]; lia) Hmax j) as IH'; pose proof (ack_info_max (imin i) itr y) as Hge end.
  cbn [num_ack_blocks max_block_length] in IH', Hge. rewrite interval_length in Hge, Hmax by (unfold two64; lia).
  replace (num - (num_ack_blocks info + m)) with (num - num_ack_blocks info - m) in IH' by lia.
  destruct (reported _ (imin i) itr) as [l low]. cbn [fst] in *. apply elem_of_cons in Hj as [->|Hj]; [lia|by apply IH'].
Qed.

(** *** Timestamps *)

Lemma runs_report c p ts last :
  runs (report_timestamp v c p ts) last [] tt (if process_timestamps c then [OnAckTimestamp p (creation_time c + ts)] else [])
    (if process_timestamps c then ts else last).
Proof.
  unfold report_timestamp. destruct (process_timestamps c); [|apply runs_ret].
  intros [r t z] k <- Hl. by exists r.
Qed.

Lemma runs_report_bind {A} c p ts (k : proc A) last d x l last' :
  runs k (if process_timestamps c then ts else last) d x l last' →
  runs (pbind (report_timestamp v c p ts) (λ _, k)) last d x
    ((if process_timestamps c then [OnAckTimestamp p (creation_time c + ts)] else []) ++ l) last'.
Proof. intros Hk. by apply (runs_bind _ _ last _ last' [] d tt x _ l (runs_report c p ts last)). Qed.

Lemma runs_later_times c largest prev times last :
  largest < 2 ^ 62 → 0 <= prev →
  Forall (λ x, 1 <= x.1 ∧ 0 <= largest - x.1 <= 255 ∧ x.2 < two62) times → Sorted (λ x y, x.2 <= y.2) ((0, prev) :: times) →
  runs (read_timestamps v c (length times) largest) last (later_times_bytes largest prev times) tt
    (if process_timestamps c then (later_times c largest last prev times).1 else [])
    (if process_timestamps c then (later_times c largest last prev times).2 else last).
Proof.
  intros Hl. revert prev last. induction times as [|[p time] times IH]; intros prev last Hprev Hall Hs.
  { cbn. destruct (process_timestamps c); apply runs_ret. }
  cbn [length read_timestamps later_times_bytes later_times]. apply Forall_cons in Hall as [(Hp&Hd&Ht) Hall]. cbn [fst snd] in *.
  apply Sorted_inv in Hs as [Hs Hhd]. apply HdRel_inv in Hhd. cbn [snd] in Hhd.
  assert (Hs' : Sorted (λ x y : Z * Z, x.2 <= y.2) ((0, time) :: times)).
  { apply Sorted_inv in Hs as [Hs Hhd']. constructor; [done|]. destruct times; constructor. by apply HdRel_inv in Hhd'. }
  eapply runs_lift_bind; [apply reads_u8; lia|]. apply runs_check; [lia|].
  eapply runs_lift_bind; [apply reads_uf16, Wire.uf16_result_u16; unfold two62, two64 in *; lia|].
  apply runs_last. rewrite PacketNumber.sub_small by (unfold two64; lia). replace (largest - (largest - p)) with p by lia.
  set (ts := last + Reader.uf16_value (Writer.uf16_result (time - prev))).
  specialize (IH time (if process_timestamps c then ts else last) ltac:(lia) Hall Hs').
  eapply runs_eq; [apply (runs_report_bind c p ts _ last _ tt (if process_timestamps c then (later_times c largest ts time times).1 else []))|reflexivity|].
  - destruct (process_timestamps c); [|exact IH]. destruct (later_times c largest ts time times). exact IH.
  - destruct (process_timestamps c); [|done]. by destruct (later_times c largest ts time times).
Qed.

Lemma runs_times c c' f last :
  0 <= creation_time c → 1 <= ReceivedPacketManager.largest_acked f < 2 ^ 48 → good_times c f →
  runs (n <- lift Reader.ReadUInt8; ProcessTimestampsInAckFrame v c' n (ReceivedPacketManager.largest_acked f)) last (times_bytes c f) tt
    (if process_timestamps c' then (times_heard c c' f last).1 else [])
    (if process_timestamps c' then (times_heard c c' f last).2 else last).
Proof.
  intros Hc Hl (Hz&Hall&Hs). unfold times_bytes, times_heard.
  set (times := ReceivedPacketManager.received_packet_times f) in *. clearbody times. pose proof (zlen_nonneg times).
  change (zlen times :: ?d) with ([zlen times] ++ d). eapply runs_lift_bind; [apply reads_u8; lia|].
  unfold ProcessTimestampsInAckFrame. destruct times as [|[p time] times].
  { cbn. destruct (process_timestamps c'); apply runs_ret. }
  rewrite zlen_cons. pose proof (zlen_nonneg times). destruct (Z.eqb_spec (1 + zlen times) 0); [lia|].
  apply Forall_cons in Hall as [(Hp&Hd&Ht) Hall]. cbn [fst snd] in *.
  eapply runs_lift_bind; [apply reads_u8; lia|]. apply runs_check; [lia|].
  eapply runs_lift_bind; [apply reads_u32; by apply (Z.mod_pos_bound _ (2 ^ 32))|]. apply runs_last.
  rewrite PacketNumber.sub_small by (unfold two64; lia).
  replace (ReceivedPacketManager.largest_acked f - (ReceivedPacketManager.largest_acked f - p)) with p by lia.
  set (ts := CalculateTimestampFromWire last _).
  replace (Z.to_nat (1 + zlen times - 1)) with (length times) by (unfold zlen; lia).
  pose proof (runs_later_times c' (ReceivedPacketManager.largest_acked f) time times (if process_timestamps c' then ts else last)
    ltac:(lia) ltac:(lia)) as Hlater.
  eapply runs_eq; [apply (runs_report_bind c' p ts _ last _ tt (if process_timestamps c'
    then (later_times c' (ReceivedPacketManager.largest_acked f) ts time times).1 else []))|reflexivity|].
  - destruct (process_timestamps c'); [destruct (later_times c' _ ts time times)|]; apply Hlater.
    all: try (eapply Forall_impl; [exact Hall|]; cbn; intros x; lia).
    all: apply Sorted_inv in Hs as [Hs Hhd]; constructor; [done|]; destruct times; constructor; by apply HdRel_inv in Hhd.
  - destruct (process_timestamps c'); [|done]. by destruct (later_times c' _ ts time times).
Qed.

(** *** The whole ACK frame *)

Lemma ack_type_bits (b : bool) x y :
  0 <= x <= 3 → 0 <= y <= 3 →
  let ty := Z.lor (SetBits (SetBits (SetBit 0 b kQuicHasMultipleAckBlocksOffset) x kLargestAckedOffset) y kActBlockLengthOffset)
              kQuicFrameTypeAckMask in
  ExtractBit ty kQuicHasMultipleAckBlocksOffset = b
  ∧ ExtractBits ty kQuicSequenceNumberLengthNumBits kActBlockLengthOffset = y
  ∧ ExtractBits ty kQuicSequenceNumberLengthNumBits kLargestAckedOffset = x
  ∧ Z.land ty kQuicFrameTypeStreamMask = 0 ∧ Z.land ty kQuicFrameTypeAckMask = 64
  ∧ Z.land ty kQuicFrameTypeSpecialMask = 64 ∧ Z.land ty kQuicFrameTypeBrokenMask ≠ 0 ∧ 0 <= ty < 256.
Proof.
  intros Hx Hy.
  assert (x = 0 ∨ x = 1 ∨ x = 2 ∨ x = 3) as [-> | [-> | [-> | ->]]] by lia;
  assert (y = 0 ∨ y = 1 ∨ y = 2 ∨ y = 3) as [-> | [-> | [-> | ->]]] by lia; destruct b; vm_compute; repeat split; discriminate.
Qed.

Lemma flags_range l : 0 <= GetPacketNumberFlags l <= 3.
Proof. destruct l; vm_compute; split; discriminate. Qed.

Lemma runs_ack c c' f room last :
  good_ack c f → (intervals_down f).2 = [] ∨ 0 < blocks_for f room →
  runs (ProcessAckFrame v c' (ack_type_byte f)) last (ack_bytes c f room) tt
    (ack_events c c' f room last).1 (ack_events c c' f room last).2.
Proof.
  intros Hg Hroom. unfold ack_events, ack_bytes, ack_blocks_part. destruct (intervals_down f) as [i itr] eqn:Hd. cbn [snd] in Hroom.
  destruct (good_ack_intervals c f i itr Hg Hd) as (Hr&Hi&Hm&Hb&Hbl). destruct (ack_info c f i itr Hg Hd) as (E&Hmax&Hfirst&Hle).
  destruct (blocks_for_range c f room i itr Hg Hd) as (Hn1&Hn2&Hn3).
  pose proof Hg as (Hl&Hdel&_&_&_&Hc&Htimes). set (largest := ReceivedPacketManager.largest_acked f) in *.
  destruct (GetMinPacketNumberLength_spec largest ltac:(lia)) as (Hwl&_&_&Hfl).
  destruct (GetMinPacketNumberLength_spec (max_block_length (GetAckFrameInfo f)) ltac:(lia)) as (Hwb&_&_&Hfb).
  unfold width in *. fold (ack_block_length f) in Hwb, Hfb. change (GetMinPacketNumberLength largest) with (largest_acked_length f) in Hwl, Hfl.
  destruct (ack_type_bits (negb (num_ack_blocks (GetAckFrameInfo f) =? 0)) (GetPacketNumberFlags (largest_acked_length f))
    (GetPacketNumberFlags (ack_block_length f)) (flags_range _) (flags_range _)) as (T1&T2&T3&_).
  match type of T1 with ExtractBit ?ty _ = _ => change ty with (ack_type_byte f) in T1, T2, T3 end.
  unfold ProcessAckFrame, ReadAckPacketNumberLength. rewrite T1, T2, T3, Hfl, Hfb. clear T1 T2 T3 Hfl Hfb.
  set (n := blocks_for f room) in *. set (lb := ack_block_length f) in *. set (ll := largest_acked_length f) in *.
  assert (Hdelay : is_u64 (ack_delay_wire f)) by (unfold ack_delay_wire; destruct (_ =? _); [done|apply Z.mod_pos_bound, eq_refl]).
  assert (Hfit : ∀ j, j ∈ (reported n (imin i) itr).1 → imax j - imin j < pow256 (length_of lb)).
  { intros j Hj. apply (reported_fit (imin i) itr (mk_info (imax i - imin i) (imax i - imin i) 0) n); cbn [num_ack_blocks]; try done; try lia.
    - by rewrite <-E.
    - by rewrite Z.sub_0_r. }
  pose proof (runs_blocks lb n (imin i) itr last Hbl ltac:(lia) ltac:(lia) Hfit) as Hblocks.
  destruct (reported n (imin i) itr) as [rs low]. cbn [fst snd] in *.
  set (delay := Reader.uf16_value (Writer.uf16_result (ack_delay_wire f))).
  set (times := if times_fit c f room && process_timestamps c' then times_heard c c' f last else ([], last)).
  assert (Etimes : times = (times.1, times.2)) by by destruct times. rewrite Etimes. cbn [fst snd]. clear Etimes.
  eapply runs_eq; [|rewrite <-!app_assoc; reflexivity|reflexivity].
  eapply runs_lift_bind; [apply reads_ub; [apply length_of_le|lia]|].
  apply runs_check; [unfold FirstSendingPacketNumber, UnackedPacketMap.FirstSendingPacketNumber; lia|].
  eapply runs_lift_bind; [by apply reads_uf16, Wire.uf16_result_u16|]. fold delay. apply runs_tell.
  assert (Hcount : runs (if negb (num_ack_blocks (GetAckFrameInfo f) =? 0) then lift Reader.ReadUInt8 else pret 0) last
    (if 0 <? n then [n] else []) n [] last).
  { destruct (Z.ltb_spec 0 n).
    - destruct (Z.eqb_spec (num_ack_blocks (GetAckFrameInfo f)) 0); [lia|]. apply runs_lift, reads_u8. lia.
    - destruct Hroom as [->|]; [|lia]. cbn [total_blocks] in Hn3. replace n with 0 by lia.
      destruct (Z.eqb_spec (num_ack_blocks (GetAckFrameInfo f)) 0); [apply runs_ret|lia]. }
  eapply (runs_bind _ _ last last _ _ _ n tt []); [exact Hcount|]. clear Hcount.
  eapply runs_lift_bind; [apply reads_ub; [apply length_of_le|lia]|].
  apply runs_check; [lia|]. unfold FirstSendingPacketNumber, UnackedPacketMap.FirstSendingPacketNumber.
  rewrite (wrap64_add largest 1), (wrap64_add (imax i - imin i) 1) by (unfold two64; lia). apply runs_check; [lia|].
  rewrite wrap64_sub by lia. replace (largest + 1 - (imax i - imin i)) with (imin i) by lia. cbv zeta.
  cbn [map app]. rewrite <-Hm. apply runs_tell.
  eapply (runs_bind _ _ last last _ _ _ low tt).
  { destruct (Z.ltb_spec 0 n); [exact Hblocks|]. destruct Hroom as [->|]; [|lia]. exact Hblocks. }
  assert (Hend : ∀ last, runs (tell v (OnAckFrameEnd low)) last [] tt [OnAckFrameEnd low] last).
  { intros z [r t z'] k <- Hl'. exists r. unfold tell, pbind, ask, check. cbn. by rewrite Hv. }
  assert (Htail : runs (n <- lift Reader.ReadUInt8; ProcessTimestampsInAckFrame v c' n largest) last
    (if times_fit c f room then times_bytes c f else [0]) tt times.1 times.2).
  { destruct (times_fit c f room) eqn:Ht; cbn [andb] in times.
    - assert (Hp : process_timestamps c = true) by (unfold times_fit in Ht; by destruct (process_timestamps c)).
      generalize (runs_times c c' f last Hc Hl (Htimes Hp)). unfold times. by destruct (process_timestamps c').
    - eapply (runs_lift_bind _ _ _ [0] []); [by apply reads_u8|]. apply runs_ret. }
  rewrite <-(app_nil_r (if times_fit c f room then _ else _)).
  intros s k Hs Hleft. destruct (runs_bind _ (λ _, tell v (OnAckFrameEnd low)) _ _ _ _ [] tt tt _ _ Htail (Hend _) s k Hs Hleft) as (r&Er&Hr'). exists r. split; [|done].
  rewrite <-Er. unfold pbind. destruct (lift Reader.ReadUInt8 s) as [[x|] s']; reflexivity.
Qed.
End accepted.

(** *** The other frames *)

(** The type of a stream frame, from the lengths of its fields. *)
Definition stream_type (fin last : bool) (offset_len id_len : Z) : Z :=
  let type_byte := if fin then kQuicStreamFinMask else 0 in
  let type_byte := wrap8 (Z.shiftl type_byte kQuicStreamDataLengthShift) in
  let type_byte := Z.lor type_byte (if last then 0 else kQuicStreamDataLengthMask) in
  let type_byte := wrap8 (Z.shiftl type_byte kQuicStreamShift) in
  let type_byte := if 0 <? offset_len then wrap8 (Z.lor type_byte (offset_len - 1)) else type_byte in
  let type_byte := wrap8 (Z.shiftl type_byte kQuicStreamIdShift) in
  let type_byte := wrap8 (Z.lor type_byte (id_len - 1)) in
  Z.lor type_byte kQuicFrameTypeStreamMask.

Lemma stream_type_bits' (fin last : bool) o s :
  o = 0 ∨ 2 <= o <= 8 → 1 <= s <= 4 →
  let ty := stream_type fin last o s in
  let flags := Z.land ty (Z.lxor kQuicFrameTypeStreamMask 255) in
  Z.land flags kQuicStreamIDLengthMask + 1 = s
  ∧ (let n := Z.land (Z.shiftr flags kQuicStreamIdShift) kQuicStreamOffsetMask in (if 0 <? n then n + 1 else n) = o)
  ∧ (Z.land (Z.shiftr (Z.shiftr flags kQuicStreamIdShift) kQuicStreamShift) kQuicStreamDataLengthMask =? kQuicStreamDataLengthMask)
    = negb last
  ∧ (Z.land (Z.shiftr (Z.shiftr (Z.shiftr flags kQuicStreamIdShift) kQuicStreamShift) kQuicStreamDataLengthShift)
       kQuicStreamFinMask =? kQuicStreamFinShift) = fin
  ∧ Z.land ty kQuicFrameTypeStreamMask = 128 ∧ Z.land ty kQuicFrameTypeSpecialMask ≠ 0 ∧ Z.land ty kQuicFrameTypeBrokenMask ≠ 0
  ∧ 0 <= ty < 256.
Proof.
  intros Ho Hs.
  assert (s = 1 ∨ s = 2 ∨ s = 3 ∨ s = 4) as [-> | [-> | [-> | ->]]] by lia;
  assert (o = 0 ∨ o = 2 ∨ o = 3 ∨ o = 4 ∨ o = 5 ∨ o = 6 ∨ o = 7 ∨ o = 8) as [->|[->|[->|[->|[->|[->|[->| ->]]]]]]] by lia;
  destruct fin, last; vm_compute; repeat split; discriminate.
Qed.

Lemma stream_frame_bits f last :
  is_u32 (stream_id f) → is_u64 (offset f) →
  GetStreamFrameTypeByte f last = stream_type (fin f) last (GetStreamOffsetSize (offset f)) (GetStreamIdSize (stream_id f))
  ∧ (GetStreamOffsetSize (offset f) = 0 ∨ 2 <= GetStreamOffsetSize (offset f) <= 8) ∧ 1 <= GetStreamIdSize (stream_id f) <= 4.
Proof.
  intros Hid Hoff. split; [done|]. split; [by apply stream_offset_size|by apply stream_id_size].
Qed.

Lemma google_parses_stream c h f last :
  good c h (StreamFrame f) →
  parses last (ProcessStreamFrame (GetStreamFrameTypeByte f last)) (body_bytes c h (StreamFrame f) last 0) (received c (StreamFrame f)).
Proof.
  intros (Hid&Hoff&Hlen&Hz&_). destruct (stream_frame_bits f last Hid Hoff) as (->&Ho&Hs).
  pose proof (proj2 (stream_id_size _ Hid)) as Hid2. pose proof (proj2 (stream_offset_size _ Hoff)) as Hoff2.
  destruct (stream_type_bits' (fin f) last _ _ Ho Hs) as (B1&B2&B3&B4&_). cbv zeta in B1, B2, B3, B4.
  unfold ProcessStreamFrame. cbv zeta. rewrite B1, B2, B3, B4. clear B1 B2 B3 B4. cbn [body_bytes received].
  eapply parses_bind; [apply reads_ub; lia|]. eapply parses_bind; [apply reads_ub; lia|].
  unfold wrap32. rewrite (Z.mod_small (stream_id f)) by (unfold two32 in *; lia).
  set (d := stream_content stream_data (shared c) f) in *.
  assert (Hw : wrap16 (zlen d) = data_length f) by (unfold wrap16; rewrite Z.mod_small; lia).
  destruct last; cbn [negb app].
  - intros r k Hw' He Hr Hk. rewrite (Hk eq_refl), app_nil_r in *. pose proof (ReaderSpec.rest_length r Hw') as Hl. rewrite Hr in Hl.
    destruct (reads_piece (Reader.BytesRemaining r) d Hl r [] Hw' He ltac:(by rewrite app_nil_r)) as (r'&E&H').
    exists r'. unfold Reader.bind. rewrite E. unfold Reader.ret. by rewrite Hw.
  - rewrite <-Hz. change (ub 2 (zlen d) ++ d) with (str16 d). rewrite <-(app_nil_r (str16 d)).
    eapply parses_bind; [apply reads_str16; unfold two16 in *; lia|]. rewrite Hw, Hz. apply parses_ret.
Qed.

(** What the receiver must share with the sender. *)
Definition compatible (c c' : framer) : Prop :=
  transport_version c' = transport_version c ∧ quic_do_not_accept_stop_waiting c' = quic_do_not_accept_stop_waiting c.

(** Every frame but ACKs and padding is parsed by one function, which gives the frame received. *)
Definition parsed_by (c c' : framer) (h : QuicPacketHeader) (f : QuicFrame) (last : bool) (a : Reader.action QuicFrame) (e : QuicErrorCode) : Prop :=
  (∀ v s, process_frame v c' h (frame_type_byte f last) s = visit v a e s)
  ∧ parses last a (body_bytes c h f last 0) (received c f).

Lemma error_min code last_error : (if last_error <=? code then last_error else code) = Z.min code last_error.
Proof. destruct (Z.leb_spec last_error code); lia. Qed.

Lemma mask_small c ty :
  0 <= ty < 32 → Z.land ty (if transport_version c <=? QUIC_VERSION_44 then kQuicFrameTypeBrokenMask else kQuicFrameTypeSpecialMask) = 0.
Proof.
  intros Hty. destruct (_ <=? _).
  - change kQuicFrameTypeBrokenMask with (Z.shiftl 7 5). apply Z.bits_inj'. intros n Hn. rewrite Z.land_spec, Z.shiftl_spec, Z.bits_0 by done.
    destruct (Z.lt_ge_cases n 5); [rewrite (Z.testbit_neg_r 7) by lia; by rewrite andb_false_r|].
    rewrite <-(Z.mod_small ty (2 ^ 5)) by (change (2 ^ 5) with 32; lia). by rewrite Z.mod_pow2_bits_high by lia.
  - change kQuicFrameTypeSpecialMask with (Z.shiftl 3 6). apply Z.bits_inj'. intros n Hn. rewrite Z.land_spec, Z.shiftl_spec, Z.bits_0 by done.
    destruct (Z.lt_ge_cases n 6); [rewrite (Z.testbit_neg_r 3) by lia; by rewrite andb_false_r|].
    rewrite <-(Z.mod_small ty (2 ^ 6)) by (change (2 ^ 6) with 64; lia). by rewrite Z.mod_pow2_bits_high by lia.
Qed.

Lemma google_parses_frame c c' h f last :
  good c h f → compatible c c' →
  match f with AckFrame _ | PaddingFrame _ => True | _ => ∃ a e, parsed_by c c' h f last a e end.
Proof.
  intros Hg [Hver Hflag]. unfold parsed_by.
  pose proof (mask_small c') as Hd.
  destruct f as [n|id code off|ty code details frame_type|code id reason|id off|id off|least| |f|f|f| |seq retire id token|n u|n u|d|d
    |id code|d n|token|seq]; try (exfalso; exact Hg); try exact I; cbn [frame_type_byte].
  - exists ProcessRstStreamFrame, QUIC_INVALID_RST_STREAM_DATA. destruct Hg as (?&?&?). split.
    { intros v s. unfold process_frame. by rewrite (Hd RST_STREAM_FRAME ltac:(done)). }
    cbn [body_bytes received]. eapply parses_bind; [by apply reads_u32|]. eapply parses_bind; [by apply reads_u64|].
    rewrite <-error_min. by apply (parses_map _ _ (λ code, RstStreamFrame id (if QUIC_STREAM_LAST_ERROR <=? code then QUIC_STREAM_LAST_ERROR else code) off)), reads_u32.
  - exists ProcessConnectionCloseFrame, QUIC_INVALID_CONNECTION_CLOSE_DATA. split.
    { intros v s. unfold process_frame. by rewrite (Hd CONNECTION_CLOSE_FRAME ltac:(done)). }
    cbn [body_bytes received good] in *. eapply parses_bind; [by apply reads_u32|]. rewrite error_min.
    by apply (parses_map _ _ (λ d, ConnectionCloseFrame GOOGLE_QUIC_CONNECTION_CLOSE (code `min` QUIC_LAST_ERROR) d 0)), reads_str16, truncated_fits.
  - exists ProcessGoAwayFrame, QUIC_INVALID_GOAWAY_DATA. destruct Hg as (?&?). split.
    { intros v s. unfold process_frame. by rewrite (Hd GOAWAY_FRAME ltac:(done)). }
    cbn [body_bytes received]. eapply parses_bind; [by apply reads_u32|]. eapply parses_bind; [by apply reads_u32|]. rewrite error_min.
    by apply (parses_map _ _ (GoAwayFrame _ id)), reads_str16, truncated_fits.
  - exists ProcessWindowUpdateFrame, QUIC_INVALID_WINDOW_UPDATE_DATA. destruct Hg as (?&?). split.
    { intros v s. unfold process_frame. by rewrite (Hd WINDOW_UPDATE_FRAME ltac:(done)). }
    cbn [body_bytes received]. eapply parses_bind; [by apply reads_u32|]. by apply (parses_map _ _ (WindowUpdateFrame id)), reads_u64.
  - exists ProcessBlockedFrame, QUIC_INVALID_BLOCKED_DATA. split.
    { intros v s. unfold process_frame. by rewrite (Hd BLOCKED_FRAME ltac:(done)). }
    cbn [body_bytes received]. by apply (parses_map _ _ (λ id, BlockedFrame id 0)), reads_u32.
  - exists (ProcessStopWaitingFrame h), QUIC_INVALID_STOP_WAITING_DATA. destruct Hg as (Hl&Hp&Hw&Hval&Hstop). split.
    { intros v s. unfold process_frame. rewrite (Hd STOP_WAITING_FRAME ltac:(done)). cbn [negb Z.eqb].
      change (STOP_WAITING_FRAME =? STOP_WAITING_FRAME) with true. cbn. unfold QUIC_VERSION_44. rewrite Hver, Hflag.
      destruct Hstop as [->|Hlt]; [done|]. destruct (Z.leb_spec 44 (transport_version c)); [lia|]. by rewrite andb_false_r. }
    cbn [body_bytes received]. unfold ProcessStopWaitingFrame. rewrite <-(app_nil_r (ub _ _)).
    eapply parses_bind; [apply reads_ub; [apply length_of_le|lia]|]. eapply parses_nil; [apply reads_guard; lia|].
    rewrite PacketNumber.sub_small by (unfold two64; lia). replace (packet_number h - (packet_number h - least)) with least by lia. apply parses_ret.
  - exists (Reader.ret PingFrame), QUIC_INVALID_FRAME_DATA. split; [|apply parses_ret].
    intros v s. unfold process_frame. by rewrite (Hd PING_FRAME ltac:(done)).
  - exists ProcessCryptoFrame, QUIC_INVALID_FRAME_DATA. destruct Hg as [Hv48 Hg]. split.
    + intros v s. unfold process_frame. rewrite (Hd CRYPTO_FRAME ltac:(done)).
      cbn [negb Z.eqb]. cbn. unfold QuicVersionUsesCryptoFrames, QUIC_VERSION_48. rewrite Hver. by destruct (Z.leb_spec 48 (transport_version c)); [|lia].
    + exact (IetfFramer.parses_crypto stream_data crypto_data (shared c) f last Hg).
  - exists (ProcessStreamFrame (GetStreamFrameTypeByte f last)), QUIC_INVALID_STREAM_DATA. split; [|by apply (google_parses_stream c h)].
    destruct Hg as (Hid&Hoff&_). destruct (stream_frame_bits f last Hid Hoff) as (->&Ho&Hs).
    destruct (stream_type_bits' (fin f) last _ _ Ho Hs) as (_&_&_&_&B5&B6&B7&_). cbv zeta in *. intros v s. unfold process_frame.
    rewrite B5. destruct (transport_version c' <=? QUIC_VERSION_44); [apply Z.eqb_neq in B7; by rewrite B7|apply Z.eqb_neq in B6; by rewrite B6].
  - exists (Reader.ret PingFrame), QUIC_INVALID_FRAME_DATA. split; [|apply parses_ret].
    intros v s. unfold process_frame. by rewrite (Hd PING_FRAME ltac:(done)).
  - exists (ProcessMessageFrame last), QUIC_INVALID_MESSAGE_DATA. destruct Hg as (Hv44&->&Hn). split.
    { intros v s. unfold process_frame. rewrite Hver. unfold QUIC_VERSION_44. destruct (Z.leb_spec (transport_version c) 44); [lia|]. by destruct last. }
    cbn [body_bytes received]. destruct last; cbn [negb app].
    + apply parses_remaining_payload. lia.
    + unfold ProcessMessageFrame. eapply parses_bind; [by apply reads_varint, u16_varint|].
      unfold wrap16. rewrite Z.mod_small by lia. by apply (parses_map _ _ (λ d, MessageFrame [d] _)), reads_piece.
Qed.

Section accepted.
Context (v : list event → event → bool) (Hv : ∀ l e, v l e = true) (c c' : framer) (h : QuicPacketHeader) (Hc : compatible c c').

Lemma google_process_one f last room s k :
  good c h f → (match f with AckFrame f => (intervals_down f).2 = [] ∨ 0 < blocks_for f room | _ => True end) →
  left (input s) (body_bytes c h f last room ++ k) → (last = true → k = []) → (is_padding f = true → starts_nonzero k) →
  ∃ r, process_frame v c' h (frame_type_byte f last) s
    = (Continue, mk_state r (told s ++ (frame_events c c' f room (last_timestamp s)).1) (frame_events c c' f room (last_timestamp s)).2)
    ∧ left r k.
Proof.
  intros Hg Hroom Hl Hk Hp.
  assert (Hvisit : ∀ a e, parses last a (body_bytes c h f last room) (received c f) →
    ∃ r, visit v a e s = (Continue, mk_state r (told s ++ [OnFrame (received c f)]) (last_timestamp s)) ∧ left r k).
  { intros a e Ha. destruct Hl as (Hw&Hr&He). destruct (Ha (input s) k Hw He Hr Hk) as (r&E&Hl'). exists r.
    unfold visit, lift. rewrite E. unfold ask. cbn. rewrite Hv. split; [done|]. by destruct Hl' as (?&?&?). }
  pose proof (google_parses_frame c c' h f last Hg Hc) as Hf.
  destruct f; try (exfalso; exact Hg); try (destruct Hf as (a&e&Hd&Ha); rewrite Hd; exact (Hvisit a e Ha)).
  - destruct (process_padding _ (input s) k Hg Hl (Hp eq_refl)) as (r&E&Hl'). exists r. split; [|done].
    cbn [frame_type_byte frame_events received fst snd]. unfold process_frame.
    rewrite (mask_small c' PADDING_FRAME) by done. cbn. unfold visit, lift. rewrite E. unfold ask. cbn. by rewrite Hv.
  - destruct (runs_ack v Hv c c' f room (last_timestamp s) Hg Hroom s k eq_refl Hl) as (r&E&Hl'). exists r. split; [|done].
    cbn [frame_type_byte frame_events]. unfold process_frame.
    destruct (ack_type_bits (negb (num_ack_blocks (GetAckFrameInfo f) =? 0)) (GetPacketNumberFlags (largest_acked_length f))
      (GetPacketNumberFlags (ack_block_length f)) (flags_range _) (flags_range _)) as (_&_&_&T1&T2&T3&T4&_).
    match type of T1 with Z.land ?ty _ = _ => change ty with (ack_type_byte f) in T1, T2, T3, T4 end.
    rewrite T1, T2, E. destruct (transport_version c' <=? QUIC_VERSION_44); [apply Z.eqb_neq in T4; by rewrite T4|by rewrite T3].
Qed.

Lemma type_range f last : good c h f → is_byte (frame_type_byte f last) ∧ (is_padding f = false → frame_type_byte f last ≠ 0).
Proof.
  intros Hg. destruct f; try (exfalso; exact Hg); cbn [frame_type_byte]; try (split; [done|done]); try (by destruct last).
  - destruct Hg as (Hid&Hoff&_). destruct (stream_frame_bits f last Hid Hoff) as (->&Ho&Hs).
    destruct (stream_type_bits' (fin f) last _ _ Ho Hs) as (_&_&_&_&B5&_&_&B8). cbv zeta in *. split; [done|]. intros _ E. by rewrite E in B5.
  - destruct (ack_type_bits (negb (num_ack_blocks (GetAckFrameInfo f) =? 0)) (GetPacketNumberFlags (largest_acked_length f))
      (GetPacketNumberFlags (ack_block_length f)) (flags_range _) (flags_range _)) as (_&_&_&_&T2&_&_&T5).
    match type of T2 with Z.land ?ty _ = _ => change ty with (ack_type_byte f) in T2, T5 end. split; [done|]. intros _ E. by rewrite E in T2.
Qed.

Lemma google_process_frames_spec fs fuel room s :
  Forall (good c h) fs → acks_have_room c h fs room → padding_apart fs → left (input s) (frames_bytes c h fs room) →
  zlen fs <= Z.of_nat fuel →
  ∃ r, process_frames v c' h fuel s
    = (Processed, mk_state r (told s ++ (frames_events c c' h fs room (last_timestamp s)).1) (frames_events c c' h fs room (last_timestamp s)).2).
Proof.
  intros Hg. revert fuel room s. induction Hg as [|f fs Hf Hg IH]; intros fuel room [r t last] Hroom Hp Hl Hz.
  { destruct Hl as (Hw&Hr&_). exists r. cbn in *. destruct fuel; cbn [process_frames input];
      rewrite (proj2 (done_reading r Hw) Hr), app_nil_r; done. }
  rewrite zlen_cons in Hz. pose proof (zlen_nonneg fs). destruct fuel as [|fuel]; [lia|].
  destruct Hl as (Hw&Hr&He). cbn [frames_bytes input told last_timestamp frames_events acks_have_room process_frames] in *. unfold frame_bytes in Hr at 1. cbn [app] in Hr.
  destruct Hroom as [Hroom Hrooms]. set (room' := room - zlen (frame_bytes c h f (is_last fs) room)) in *.
  destruct (type_range f (is_last fs) Hf) as [Hb _]. destruct (peek_first r _ _ Hw Hr) as [-> _].
  destruct (reads_u8 (frame_type_byte f (is_last fs)) Hb r (body_bytes c h f (is_last fs) room ++ frames_bytes c h fs room') Hw He Hr) as (r1&E1&Hw1&Hr1&He1).
  unfold lift. cbn [input told last_timestamp]. rewrite E1.
  destruct (google_process_one f (is_last fs) room (mk_state r1 t last) (frames_bytes c h fs room') Hf Hroom) as (r2&->&Hl2).
  - done.
  - by destruct fs.
  - intros Hpad. destruct fs as [|g fs]; [done|]. inversion Hg; subst. cbn [frames_bytes frame_bytes app starts_nonzero].
    apply type_range; [done|]. destruct Hp as [Hp _]. destruct (is_padding g); [by destruct Hp|done].
  - cbn [told last_timestamp]. destruct (frame_events c c' f room last) as [l1 last1]. cbn [fst snd].
    destruct (IH fuel room' (mk_state r2 (t ++ l1) last1) Hrooms ltac:(by destruct fs; [|destruct Hp]) Hl2 ltac:(lia)) as (r3&->).
    cbn [told last_timestamp]. destruct (frames_events c c' h fs room' last1) as [l2 last2]. cbn [fst snd]. exists r3. by rewrite app_assoc.
Qed.

Lemma frames_length fs room : zlen fs <= zlen (frames_bytes c h fs room).
Proof.
  revert room. induction fs as [|f fs IH]; intros room; [done|]. cbn [frames_bytes]. unfold frame_bytes at 1. rewrite zlen_cons, zlen_app, zlen_cons.
  specialize (IH (room - zlen (frame_bytes c h f (is_last fs) room))). pose proof (zlen_nonneg (body_bytes c h f (is_last fs) room)). lia.
Qed.

(** C7. Round trip. Frames within the limits of the protocol, no two paddings in a row, written by the loop of
    [BuildDataPacket] behind a header: the writing succeeds exactly when the frames fit into the room left, and nothing is
    written past the end. Then [ProcessFrameData] on the bytes written gives the visitor every frame in order. Of an ACK
    frame it hears the intervals from the largest down as far as the room for the frame, or 255 blocks, go; and its
    timestamps, if they fit and the receiver wants them. This needs room for one of the further blocks of an ACK frame that
    has any; without it the frame is written in a way that cannot be read. *)
Theorem google_frames_survive_the_wire fs w last :
  Forall (good c h) fs → padding_apart fs → fs ≠ [] → WriterSpec.wf w → Writer.endianness w = NET →
  let d := frames_bytes c h fs (Writer.remaining w) in
  let '(ok, w') := append_frames c h fs w in
  ok = (zlen d <=? Writer.remaining w) ∧ Writer.length_ w' <= Writer.capacity w
  ∧ (ok = true → WriterSpec.written w' = WriterSpec.written w ++ d)
  ∧ (acks_have_room c h fs (Writer.remaining w) →
     let '(l, last') := frames_events c c' h fs (Writer.remaining w) last in
     ∃ r, ProcessFrameData v c' h (mk_state (Reader.new d NET) [] last) = (Processed, mk_state r l last')).
Proof.
  intros Hg Hp Hne Hw He d. pose proof (google_emits_frames c h fs (Writer.remaining w) Hg w Hw He eq_refl) as H.
  destruct (append_frames c h fs w) as [ok w']. destruct H as ([_ Hc']&Hcap&_&_&->&Hok).
  split; [done|]. split; [lia|]. split; [intros Ht; by apply Hok|]. intros Hroom.
  pose proof (frames_length fs (Writer.remaining w)) as Hlen. fold d in Hlen.
  pose proof (ReaderSpec.reader_new_wf d NET) as Hwf. pose proof (ReaderSpec.rest_length _ Hwf) as Hrest. rewrite ReaderSpec.new_rest in Hrest.
  unfold ProcessFrameData. cbn [input]. destruct (Reader.IsDoneReading _) eqn:Ed.
  { apply done_reading in Ed; [|done]. rewrite ReaderSpec.new_rest in Ed. rewrite Ed in Hlen. destruct fs; [done|].
    rewrite zlen_cons in Hlen. pose proof (zlen_nonneg fs). change (zlen []) with 0 in Hlen. lia. }
  destruct (google_process_frames_spec fs (Z.to_nat (Reader.BytesRemaining (Reader.new d NET))) (Writer.remaining w) (mk_state (Reader.new d NET) [] last)
    Hg Hroom Hp) as (r&E).
  - split; [exact Hwf|]. split; [apply ReaderSpec.new_rest|done].
  - lia.
  - cbn [told last_timestamp] in E. destruct (frames_events c c' h fs (Writer.remaining w) last) as [l last']. by exists r.
Qed.
End accepted.
End endian.

(** ** Any payload *)

Section any_payload.
Context {EI : EndianImpl} {EL : EndianLaws} (c : framer) (h : QuicPacketHeader) (v : list event → event → bool).

(** What may be reported: a frame within the limits of the protocol. The lengths of stream data and messages are kept in 16
    bits. *)
Definition sane (f : QuicFrame) : Prop :=
  match f with
  | PaddingFrame _ | CryptoFrame _ | MessageFrame _ _ => IetfFramer.sane (shared c) f
  | RstStreamFrame id code off => is_u32 id ∧ 0 <= code <= QUIC_STREAM_LAST_ERROR ∧ is_u64 off
  | ConnectionCloseFrame ty code details _ =>
      ty = GOOGLE_QUIC_CONNECTION_CLOSE ∧ 0 <= code <= QUIC_LAST_ERROR ∧ zlen details <= 65535
  | GoAwayFrame code id reason => 0 <= code <= QUIC_LAST_ERROR ∧ is_u32 id ∧ zlen reason <= 65535
  | WindowUpdateFrame id off => is_u32 id ∧ is_u64 off
  | BlockedFrame id _ => is_u32 id
  | StopWaitingFrame least => 1 <= least <= packet_number h
  | PingFrame => True
  | StreamFrame f => is_u32 (stream_id f) ∧ is_u64 (offset f) ∧ ∃ d, data_buffer f = Some d ∧ data_length f = wrap16 (zlen d)
  | _ => False
  end.

(** The ACK frame being reported: its largest packet, and the start of its lowest range so far. *)
Definition ack_step (a : option (Z * option Z)) (e : event) : option (Z * option Z) :=
  match e, a with
  | OnAckFrameStart largest _, _ => Some (largest, None)
  | OnAckRange low _, Some (largest, _) => Some (largest, Some low)
  | OnAckTimestamp _ _, a => a
  | _, _ => None
  end.
Definition ack_state (l : list event) : option (Z * option Z) := fold_left ack_step l None.
Arguments ack_state : simpl never.

(** [e] may follow when that ACK frame is being reported: an ACK frame starts with the range of the largest packet, its ranges
    are packet numbers from the largest down, its timestamps are of packet numbers up to the largest, and it ends at or below its
    lowest range; no other frame is reported in the middle of it. *)
Definition follows (a : option (Z * option Z)) (e : event) : Prop :=
  match e with
  | OnFrame f => a = None ∧ sane f
  | OnAckFrameStart largest _ => a = None ∧ 1 <= largest < 2 ^ 48
  | OnAckRange x y =>
      1 <= x < y ∧ ∃ largest low, a = Some (largest, low) ∧ match low with None => y = largest + 1 | Some z => y <= z end
  | OnAckTimestamp p _ => ∃ largest low, a = Some (largest, Some low) ∧ 1 <= p <= largest
  | OnAckFrameEnd x => ∃ largest low, a = Some (largest, Some low) ∧ 1 <= x <= low
  end.
Definition may_follow (l : list event) (e : event) : Prop := follows (ack_state l) e.

Definition unasked (e : event) : bool := match e with OnAckTimestamp _ _ => true | _ => false end.
(** Calls the visitor answered with true, where its answer matters. *)
Inductive heard : list event → Prop :=
  | heard_nil : heard []
  | heard_snoc l e : heard l → may_follow l e → v l e = true ∨ unasked e = true → heard (l ++ [e]).
(** All calls accepted, or all but the last. *)
Definition heard_until (l : list event) : Prop :=
  heard l ∨ ∃ k e, l = k ++ [e] ∧ heard k ∧ may_follow k e ∧ v k e = false ∧ unasked e = false.

Lemma ack_state_snoc l e : ack_state (l ++ [e]) = ack_step (ack_state l) e.
Proof. unfold ack_state. by rewrite fold_left_app. Qed.

(** *** Reading *)

Lemma safe_ub n : (n <= 8)%nat → safe (Reader.ReadBytesToUInt64 n) (λ x, 0 <= x < pow256 n).
Proof.
  intros Hn r [Hw Hb]. unfold Reader.ReadBytesToUInt64. destruct (Z.ltb_spec 8 (Z.of_nat n)); [lia|].
  pose proof (safe_bytes (Z.of_nat n) ltac:(lia) r (conj Hw Hb)) as Hs. unfold Reader.bind.
  assert (Hz : bytes (replicate (8 - n) 0)) by (apply Forall_replicate; lia).
  destruct (decide _) as [|].
  all: destruct (Reader.ReadBytes (Z.of_nat n) r) as [[d|] r']; [|destruct Hs as (?&?&_); split; [done|split; [done|done]]].
  all: destruct Hs as (Hr&Hle&Hd); destruct (Hd d eq_refl) as [Hd1 Hd2]; split; [done|]; split; [done|]; intros x [= <-].
  all: assert (Hl : length d = n) by (unfold zlen in Hd1; lia).
  - rewrite le_val_app, le_val_zeros, Hl. pose proof (le_val_bound d Hd2) as H1. rewrite Hl in H1. lia.
  - assert (Hl8 : length (replicate (8 - n) 0 ++ d) = 8%nat) by (rewrite length_app, length_replicate; lia).
    pose proof (net_to_host (replicate (8 - n) 0 ++ d) ltac:(by apply Forall_app)) as E. rewrite Hl8 in E. rewrite E, be_val_zeros.
    pose proof (be_val_bound d Hd2) as H1. by rewrite Hl in H1.
Qed.

Lemma safe_uint n : safe (Reader.ReadUInt n) (λ x, 0 <= x < pow256 n).
Proof.
  unfold Reader.ReadUInt. eapply safe_bind; [apply safe_bytes; lia|]. intros d [Hz Hd] r Hr. split; [done|]. split; [done|]. intros ? [= <-].
  assert (Hl : length d = n) by (unfold zlen in Hz; lia).
  pose proof (le_val_bound d Hd) as H1. pose proof (be_val_bound d Hd) as H2. rewrite Hl in *.
  destruct (decide _); [|done]. pose proof (net_to_host d Hd) as E. rewrite Hl in E. by rewrite E.
Qed.
Lemma safe_u32 : safe Reader.ReadUInt32 (λ x, is_u32 x).
Proof. apply (safe_uint 4). Qed.
Lemma safe_u64 : safe Reader.ReadUInt64 (λ x, is_u64 x).
Proof. apply (safe_uint 8). Qed.
Lemma safe_uf16 : safe Reader.ReadUFloat16 (λ _, True).
Proof. eapply safe_bind; [apply safe_u16|]. intros x _. by apply safe_ret. Qed.
Lemma safe_str16 : safe Reader.ReadStringPiece16 (λ d, zlen d <= 65535).
Proof.
  eapply safe_bind; [apply safe_u16|]. intros n Hn. cbn in Hn. eapply safe_mono; [apply safe_piece; lia|]. intros d [-> _].
  unfold two16 in Hn. lia.
Qed.

Ltac safely :=
  repeat first
    [ apply safe_ret
    | apply safe_if; intros ?
    | apply safe_guard; intros ?
    | eapply safe_bind; [first [apply safe_u32|apply safe_u64|apply safe_u8|apply safe_str16]|intros ? ?]
    | apply safe_fails ].

Lemma pow256_range n : (n <= 8)%nat → pow256 n <= two64.
Proof. intros. change two64 with (pow256 8). unfold pow256. apply Z.pow_le_mono_r; lia. Qed.

Lemma safe_stream_frame ty : safe (ProcessStreamFrame ty) sane.
Proof.
  unfold ProcessStreamFrame. set (flags := Z.land ty _). set (has := _ =? kQuicStreamDataLengthMask). set (fin := _ =? kQuicStreamFinShift).
  assert (Hid : (Z.to_nat (Z.land flags kQuicStreamIDLengthMask + 1) <= 8)%nat).
  { change kQuicStreamIDLengthMask with (Z.ones 2). rewrite Z.land_ones by lia. pose proof (Z.mod_pos_bound flags (2 ^ 2) ltac:(lia)). lia. }
  assert (Hoff : (Z.to_nat (let n := Z.land (Z.shiftr flags kQuicStreamIdShift) kQuicStreamOffsetMask in if (0 <? n)%Z then (n + 1)%Z else n) <= 8)%nat).
  { change kQuicStreamOffsetMask with (Z.ones 3). rewrite Z.land_ones by lia.
    pose proof (Z.mod_pos_bound (Z.shiftr flags kQuicStreamIdShift) (2 ^ 3) ltac:(lia)). cbv zeta. destruct (_ <? _); lia. }
  cbv zeta in Hoff. eapply safe_bind; [apply safe_ub, Hid|]. intros id _. eapply safe_bind; [apply safe_ub, Hoff|]. intros off Ho.
  eapply (safe_bind _ _ (λ _, True)).
  { destruct has; [eapply safe_mono; [apply safe_str16|done]|]. intros r Hr.
    eapply (safe_mono _ _ (λ _, True)); [apply safe_piece| |exact Hr]; [|done]. destruct Hr as [[? ?] _]. unfold Reader.BytesRemaining. lia. }
  intros d _. apply safe_ret. cbn. split; [by apply Z.mod_pos_bound|]. split; [|by exists d].
  exact (conj (proj1 Ho) (Z.lt_le_trans _ _ _ (proj2 Ho) (pow256_range _ Hoff))).
Qed.

Lemma safe_stop_waiting : 0 <= packet_number h < two64 → safe (ProcessStopWaitingFrame h) sane.
Proof.
  intros Hh. unfold ProcessStopWaitingFrame. eapply safe_bind; [apply safe_ub, length_of_le|]. intros d Hd. apply safe_guard. intros Hg.
  cbn beta in Hd. apply safe_ret. cbn. rewrite PacketNumber.sub_small; lia.
Qed.

Lemma at_most n x : 0 <= x → 0 <= n → 0 <= (if n <=? x then n else x) <= n.
Proof. intros. destruct (Z.leb_spec n x); lia. Qed.

Lemma safe_small_frames :
  (safe ProcessRstStreamFrame sane ∧ safe ProcessConnectionCloseFrame sane ∧ safe ProcessGoAwayFrame sane)
  ∧ safe ProcessWindowUpdateFrame sane ∧ safe ProcessBlockedFrame sane ∧ safe (Reader.ret PingFrame) sane.
Proof.
  unfold ProcessRstStreamFrame, ProcessConnectionCloseFrame, ProcessGoAwayFrame, ProcessWindowUpdateFrame, ProcessBlockedFrame.
  split_and!; safely; cbn beta in *; cbn -[QUIC_STREAM_LAST_ERROR QUIC_LAST_ERROR];
    repeat match goal with H : is_u32 ?x |- context [if ?n <=? ?x then _ else _] => destruct (at_most n x (proj1 H) ltac:(done)); clear H end;
    tauto.
Qed.
Lemma safe_and {A} (a : Reader.action A) (P Q : A → Prop) : safe a P → safe a Q → safe a (λ x, P x ∧ Q x).
Proof. intros HP HQ r Hr. specialize (HP r Hr). specialize (HQ r Hr). destruct (a r). naive_solver. Qed.

(** The frames shared with IETF QUIC. *)
Definition is_shared (f : QuicFrame) : bool := match f with PaddingFrame _ | CryptoFrame _ | MessageFrame _ _ => true | _ => false end.
Lemma safe_shared a : safe a (IetfFramer.sane (shared c)) → safe a (λ f, is_shared f = true) → safe a sane.
Proof. intros H1 H2. eapply safe_mono; [apply (safe_and _ _ _ H1 H2)|]. by intros [] [? ?]. Qed.
Lemma safe_shared_frames : safe ProcessPaddingFrame sane ∧ safe ProcessCryptoFrame sane ∧ ∀ b, safe (ProcessMessageFrame b) sane.
Proof.
  split_and!; [| |intros b]; apply safe_shared; auto using safe_padding, safe_crypto, safe_message.
  - intros r Hr. pose proof (safe_padding (shared c) r Hr) as H. unfold ProcessPaddingFrame in *.
    destruct (skip_padding _ _ _). naive_solver.
  - unfold ProcessCryptoFrame. eapply safe_bind; [apply safe_varint|]. intros off _.
    eapply safe_bind; [apply safe_varint|]. intros len [Hl _]. apply safe_guard. intros _.
    eapply safe_bind; [by apply safe_piece|]. intros d _. by apply safe_ret.
  - unfold ProcessMessageFrame. destruct b.
    + intros r Hr. pose proof (safe_message (shared c) true r Hr) as H. cbn in *. naive_solver.
    + eapply safe_bind; [apply safe_varint|]. intros len [Hl _]. eapply safe_bind; [by apply safe_piece|]. intros d _. by apply safe_ret.
Qed.

(** *** What the visitor hears *)

Lemma heard_until_snoc l e : heard l → may_follow l e → heard_until (l ++ [e]) ∧ (v l e = true ∨ unasked e = true → heard (l ++ [e])).
Proof.
  intros Hl He. split; [|by constructor]. destruct (v l e) eqn:E; [left; constructor; auto|].
  destruct (unasked e) eqn:U; [left; constructor; auto|]. right. by exists l, e.
Qed.

(** [spec P a Q]: from a state in which the ACK frame being reported has [P], [a] stays in the input and tells the visitor what
    may follow; its value and the ACK frame then have [Q]. *)
Definition spec {A} (P : option (Z * option Z) → Prop) (a : proc A) (Q : A → option (Z * option Z) → Prop) : Prop :=
  ∀ s, ok_reader (input s) → heard (told s) → P (ack_state (told s)) →
  let '(o, s') := a s in
  ok_reader (input s') ∧ Reader.BytesRemaining (input s') <= Reader.BytesRemaining (input s)
  ∧ match o with Some x => heard (told s') ∧ Q x (ack_state (told s')) | None => heard_until (told s') end.

Lemma spec_ret {A} (x : A) P Q : (∀ a, P a → Q x a) → spec P (pret x) Q.
Proof. intros H s Hs Hh Hp. split; [done|]. split; [done|]. split; auto. Qed.
Lemma spec_bind {A B} (a : proc A) (f : A → proc B) P Q R : spec P a Q → (∀ x, spec (Q x) (f x) R) → spec P (pbind a f) R.
Proof.
  intros Ha Hf s Hs Hh Hp. unfold pbind. specialize (Ha s Hs Hh Hp). destruct (a s) as [[x|] s1]; [|done].
  destruct Ha as (Hs1&Hl1&Hh1&Hq). specialize (Hf x s1 Hs1 Hh1 Hq). destruct (f x s1) as [o s2]. destruct Hf as (?&?&?).
  split; [done|]. split; [lia|done].
Qed.
Lemma spec_lift {A} (a : Reader.action A) P R : safe a R → spec P (lift a) (λ x st, R x ∧ P st).
Proof.
  intros Ha s Hs Hh Hp. unfold lift. specialize (Ha _ Hs). destruct (a (input s)) as [o r]. destruct Ha as (Hr&Hl&Hx).
  split; [done|]. split; [done|]. destruct o; [|by left]. cbn. auto.
Qed.
Lemma spec_check b P : spec P (check b) (λ _ st, b = true ∧ P st).
Proof. intros s Hs Hh Hp. unfold check. split; [done|]. split; [done|]. destruct b; [auto|by left]. Qed.
Lemma spec_tell e P Q :
  (∀ st, P st → follows st e) → (∀ st, P st → Q (ack_step st e)) → spec P (tell v e) (λ _, Q).
Proof.
  intros Hf HQ s Hs Hh Hp. unfold tell, ask, pbind, check. cbn. destruct (heard_until_snoc (told s) e Hh (Hf _ Hp)) as [H1 H2].
  split; [done|]. split; [done|]. destruct (v (told s) e); [|done]. split; [by apply H2; left|]. rewrite ack_state_snoc. by apply HQ.
Qed.
Lemma spec_ask e P : unasked e = true → (∀ st, P st → follows st e) → spec P (ask v e) (λ _, P).
Proof.
  intros Hu Hf s Hs Hh Hp. unfold ask. cbn. destruct (heard_until_snoc (told s) e Hh (Hf _ Hp)) as [_ H2].
  split; [done|]. split; [done|]. split; [by apply H2; right|]. rewrite ack_state_snoc. by destruct e.
Qed.
Lemma spec_weaken {A} (a : proc A) (P P' : _ → Prop) (Q Q' : A → _ → Prop) :
  spec P a Q → (∀ st, P' st → P st) → (∀ x st, Q x st → Q' x st) → spec P' a Q'.
Proof.
  intros Ha HP HQ s Hs Hh Hp. specialize (Ha s Hs Hh (HP _ Hp)). destruct (a s) as [[x|] s']; [|done]. naive_solver.
Qed.
(** What only looks at the timestamp, or sets it. *)
Lemma spec_same {A} (a : proc A) P :
  (∀ s, ∃ x s', a s = (Some x, s') ∧ input s' = input s ∧ told s' = told s) → spec P a (λ _, P).
Proof. intros Ha s Hs Hh Hp. destruct (Ha s) as (x&s'&->&->&->). split; [done|]. split; [done|]. auto. Qed.

Lemma spec_binds {A B} (a : proc A) (f : A → proc B) P (Q : A → Prop) R :
  spec P a (λ x st, Q x ∧ P st) → (∀ x, Q x → spec P (f x) R) → spec P (pbind a f) R.
Proof.
  intros Ha Hf s Hs Hh Hp. unfold pbind. specialize (Ha s Hs Hh Hp). destruct (a s) as [[x|] s1]; [|done].
  destruct Ha as (Hs1&Hl1&Hh1&Hx&Hp1). specialize (Hf x Hx s1 Hs1 Hh1 Hp1). destruct (f x s1) as [o s2]. destruct Hf as (?&?&?).
  split; [done|]. split; [lia|done].
Qed.
Lemma spec_lifts {A B} (a : Reader.action A) (f : A → proc B) P (Q : A → Prop) R :
  safe a Q → (∀ x, Q x → spec P (f x) R) → spec P (pbind (lift a) f) R.
Proof. intros Ha Hf. eapply spec_binds; [by apply spec_lift|done]. Qed.
Lemma spec_checks {B} b (f : unit → proc B) P R : (b = true → spec P (f tt) R) → spec P (pbind (check b) f) R.
Proof. intros Hf. eapply (spec_binds _ _ _ (λ _, b = true)); [apply spec_check|]. by intros []. Qed.

(** *** ACK frames *)

Lemma read_length_short flags : (length_of (ReadAckPacketNumberLength flags) <= 6)%nat.
Proof. unfold ReadAckPacketNumberLength, ReadSequenceNumberLength. repeat case_match; cbn; lia. Qed.
Lemma safe_short n : (n <= 6)%nat → safe (Reader.ReadBytesToUInt64 n) (λ x, 0 <= x < 2 ^ 48).
Proof.
  intros Hn. eapply safe_mono; [apply safe_ub; lia|]. intros x Hx. cbn beta in Hx. split; [lia|]. eapply Z.lt_le_trans; [apply Hx|].
  unfold pow256. change (2 ^ 48) with (256 ^ 6). apply Z.pow_le_mono_r; lia.
Qed.

Lemma spec_blocks n length largest low :
  (length_of length <= 6)%nat → 1 <= low <= largest → largest < 2 ^ 48 →
  spec (λ st, ∃ x, st = Some (largest, Some x) ∧ low <= x) (read_ack_blocks v n length low)
    (λ low' st, ∃ x, st = Some (largest, Some x) ∧ 1 <= low' <= x).
Proof.
  intros Hlength. revert low. induction n as [|n IH]; intros low Hlow Hlargest; cbn [read_ack_blocks].
  { apply spec_ret. intros st (x&->&?). exists x. split; [done|lia]. }
  eapply spec_lifts; [apply safe_u8|]. intros gap Hgap. eapply spec_lifts; [by apply safe_short|]. intros len Hlen.
  cbn beta in *. unfold FirstSendingPacketNumber, UnackedPacketMap.FirstSendingPacketNumber.
  apply spec_checks. rewrite (wrap64_add gap len), (wrap64_add (gap + len) 1) by (unfold two64; lia). intros Hc.
  rewrite (wrap64_sub low) by lia. set (low' := low - (gap + len)) in *.
  assert (H1 : 1 <= low' <= low) by lia.
  eapply (spec_bind _ _ _ (λ _ st, ∃ x, st = Some (largest, Some x) ∧ low' <= x)); [|intros ?; apply IH; lia].
  destruct (Z.ltb_spec 0 len).
  - rewrite PacketNumber.add_small by (unfold low', two64 in *; lia). apply spec_tell.
    + intros st (x&->&?). split; [lia|]. exists largest, (Some x). split; [done|]. unfold low'. lia.
    + intros st (x&->&?). cbn. by exists low'.
  - apply spec_ret. intros st (x&->&?). exists x. split; [done|lia].
Qed.

(** Timestamps leave the ACK frame as it is. *)
Lemma spec_report (P : option (Z * option Z) → Prop) p time largest :
  (∀ st, P st → ∃ x, st = Some (largest, Some x)) → 1 <= p <= largest → spec P (report_timestamp v c p time) (λ _, P).
Proof.
  intros HP Hp. unfold report_timestamp. destruct (process_timestamps c); [|by apply spec_ret].
  eapply spec_bind; [apply spec_same; eauto|]. intros ?. eapply spec_bind; [apply spec_ask; [done|]|intros ?; by apply spec_ret].
  intros st Hst. destruct (HP st Hst) as [low ->]. by exists largest, low.
Qed.

(** A timestamp and what follows it. *)
Lemma spec_timestamp {B} (P : option (Z * option Z) → Prop) delta (time : Z → Z) (f : unit → proc B) largest Q :
  (∀ st, P st → ∃ x, st = Some (largest, Some x)) → largest < 2 ^ 48 → is_byte delta → (largest <=? delta) = false →
  spec P (f tt) Q →
  spec P (pbind (λ s, (Some (last_timestamp s), s))
    (λ last, pbind (report_timestamp v c (PacketNumber.sub largest delta) (time last)) f)) Q.
Proof.
  intros HP Hl Hd Hc Hf. rewrite PacketNumber.sub_small by (unfold two64; lia).
  eapply spec_bind; [apply spec_same; eauto|]. intros last. eapply spec_bind; [apply (spec_report _ _ _ largest); [done|lia]|]. by intros [].
Qed.

Lemma spec_timestamps P n largest :
  (∀ st, P st → ∃ x, st = Some (largest, Some x)) → largest < 2 ^ 48 → spec P (read_timestamps v c n largest) (λ _, P).
Proof.
  intros HP Hl. induction n as [|n IH]; cbn [read_timestamps]; [by apply spec_ret|].
  eapply spec_lifts; [apply safe_u8|]. intros delta Hd. apply spec_checks. intros Hc%negb_true_iff.
  eapply spec_lifts; [apply safe_uf16|]. intros time _. by apply (spec_timestamp P delta (λ last, last + time)).
Qed.

Lemma spec_times P n largest :
  (∀ st, P st → ∃ x, st = Some (largest, Some x)) → largest < 2 ^ 48 → spec P (ProcessTimestampsInAckFrame v c n largest) (λ _, P).
Proof.
  intros HP Hl. unfold ProcessTimestampsInAckFrame. destruct (n =? 0); [by apply spec_ret|].
  eapply spec_lifts; [apply safe_u8|]. intros delta Hd. apply spec_checks. intros Hc%negb_true_iff.
  eapply spec_lifts; [apply safe_u32|]. intros time _.
  apply (spec_timestamp P delta (λ last, CalculateTimestampFromWire last time)); [done..|]. by apply spec_timestamps.
Qed.

Lemma spec_ack ty : spec (λ st, st = None) (ProcessAckFrame v c ty) (λ _ st, st = None).
Proof.
  unfold ProcessAckFrame. cbv zeta. pose proof (read_length_short (ExtractBits ty kQuicSequenceNumberLengthNumBits kActBlockLengthOffset)) as Hlength.
  generalize dependent (ReadAckPacketNumberLength (ExtractBits ty kQuicSequenceNumberLengthNumBits kActBlockLengthOffset)).
  intros block_length Hlength. eapply spec_lifts; [apply safe_short, read_length_short|]. intros largest Hlargest. cbn beta in Hlargest.
  apply spec_checks. unfold FirstSendingPacketNumber, UnackedPacketMap.FirstSendingPacketNumber. intros H1.
  eapply spec_lifts; [apply safe_uf16|]. intros delay _.
  eapply (spec_bind _ _ _ (λ _ st, st = Some (largest, None))); [apply spec_tell|intros ?].
  { intros st ->. split; [done|lia]. } { by intros st ->. }
  eapply (spec_bind _ _ _ (λ _ st, st = Some (largest, None))).
  { destruct (ExtractBit _ _); [|by apply spec_ret]. eapply spec_weaken; [apply (spec_lift _ (λ st, st = Some (largest, None)) _ safe_u8)|done|]. by intros ? st [_ ?]. }
  intros count. eapply spec_lifts; [by apply safe_short|]. intros first Hfirst. cbn beta in Hfirst. apply spec_checks. intros H2.
  apply spec_checks. rewrite (wrap64_add largest 1), (wrap64_add first 1) by (unfold two64; lia). intros H3.
  rewrite (wrap64_sub (largest + 1)) by lia. set (low := largest + 1 - first) in *.
  eapply (spec_bind _ _ _ (λ _ st, st = Some (largest, Some low))); [apply spec_tell|intros ?].
  { intros st ->. split; [lia|]. by exists largest, None. } { by intros st ->. }
  eapply spec_bind.
  { eapply spec_weaken; [apply (spec_blocks (Z.to_nat count) block_length largest low); [done|lia..]| |intros ? st H; exact H].
    intros st ->. by exists low. }
  intros low'. eapply spec_lifts; [apply safe_u8|]. intros n _.
  eapply spec_bind; [apply (spec_times _ n largest); [|lia]|intros ?].
  { intros st (lo&->&_). by exists lo. }
  apply spec_tell; [|by intros st (lo&->&_)]. intros st (lo&->&?). exists largest, lo. split; [done|lia].
Qed.

(** *** The payload *)

Definition step_ok (s : state) (x : outcome * state) : Prop :=
  ok_reader (input x.2) ∧ Reader.BytesRemaining (input x.2) <= Reader.BytesRemaining (input s)
  ∧ match x.1 with Continue => heard (told x.2) ∧ ack_state (told x.2) = None | _ => heard_until (told x.2) end.

Lemma visit_ok_google a e s :
  safe a sane → ok_reader (input s) → heard (told s) → ack_state (told s) = None → step_ok s (visit v a e s).
Proof.
  intros Ha Hs Hh Hn. unfold visit, lift. specialize (Ha _ Hs). destruct (a (input s)) as [[f|] r]; destruct Ha as (Hr&Hl&Hf).
  - destruct (heard_until_snoc (told s) (OnFrame f) Hh (conj Hn (Hf f eq_refl))) as [H1 H2]. unfold ask. cbn.
    split; [done|]. split; [done|]. cbn. destruct (v _ _); [|done]. split; [by apply H2; left|]. by rewrite ack_state_snoc.
  - split; [done|]. split; [done|by left].
Qed.

Lemma raised_ok e s : ok_reader (input s) → heard (told s) → step_ok s (Raise e, s).
Proof. intros. split; [done|]. split; [done|by left]. Qed.

Hypothesis Hh : 0 <= packet_number h < two64.

Lemma process_frame_ok_google ty s :
  ok_reader (input s) → heard (told s) → ack_state (told s) = None → step_ok s (process_frame v c h ty s).
Proof.
  intros Hs Hheard Hn. destruct safe_small_frames as [(?&?&?) (?&?&?)]. destruct safe_shared_frames as (?&?&?).
  pose proof (safe_stop_waiting Hh). pose proof (safe_stream_frame ty). unfold process_frame. cbv zeta.
  repeat match goal with
  | |- step_ok _ (visit _ _ _ _) => by apply visit_ok_google
  | |- step_ok _ (Raise _, _) => by apply raised_ok
  | |- step_ok _ (let '(_, _) := ProcessAckFrame _ _ _ _ in _) => idtac
  | |- step_ok _ (if ?b then _ else _) => destruct b
  end.
  pose proof (spec_ack ty s Hs Hheard Hn) as H'. destruct (ProcessAckFrame v c ty s) as [[[]|] s']; [|done]. naive_solver.
Qed.

Lemma read_type r :
  ok_reader r → Reader.IsDoneReading r = false →
  ∃ ty r', Reader.ReadUInt8 r = (Some ty, r') ∧ ok_reader r' ∧ Reader.BytesRemaining r' + 1 = Reader.BytesRemaining r.
Proof.
  intros [Hw Hb] Hd. unfold Reader.ReadUInt8, Reader.bind, Reader.ReadBytes, Reader.CanRead, Reader.IsDoneReading, ok_reader, ReaderSpec.wf,
    Reader.BytesRemaining in *.
  destruct (Z.leb_spec 1 (Reader.len r - Reader.pos r)); [|lia]. eexists _, _. split; [done|]. cbn. split; [split; [lia|done]|lia].
Qed.

Lemma process_frames_ok_google fuel s :
  ok_reader (input s) → heard (told s) → ack_state (told s) = None → Reader.BytesRemaining (input s) <= Z.of_nat fuel →
  let '(res, s') := process_frames v c h fuel s in res ≠ OutOfFuel ∧ heard_until (told s').
Proof.
  revert s. induction fuel as [|fuel IH]; intros s Hs Hheard Hn Hf; cbn [process_frames].
  { destruct (Reader.IsDoneReading _) eqn:E; [split; [done|by left]|].
    destruct Hs as [[? ?] _]. unfold Reader.BytesRemaining, Reader.IsDoneReading in *. lia. }
  destruct (Reader.IsDoneReading (input s)) eqn:E; [split; [done|by left]|]. unfold lift.
  destruct (read_type (input s) Hs E) as (ty&r&->&Hr&Hl). pose proof (process_frame_ok_google ty (mk_state r (told s) (last_timestamp s)) Hr Hheard Hn) as H.
  destruct (process_frame v c h ty _) as [o s2]. destruct H as (Hs2&Hl2&H2). cbn in Hl2, H2.
  destruct o; [|by split..]. apply IH; [done|naive_solver..|cbn in *; lia].
Qed.

(** C29. Safety. Whatever the bytes of a payload, whatever the visitor answers and whatever timestamp was last seen,
    [ProcessFrameData] comes to an end inside the buffer, and the calls it makes form well-formed reports: every frame is within
    the limits of the protocol, an ACK frame starts with the range that ends at its largest packet, goes down in nonempty
    ranges of packet numbers from 1 on that do not overlap, then gives timestamps of packets up to the largest, and ends at or
    below its lowest range; no frame is reported in the middle of an ACK frame, and after the visitor refuses a call whose
    answer is looked at it hears nothing more. *)
Theorem any_google_payload_is_heard_safely d e last :
  bytes d →
  let '(res, s) := ProcessFrameData v c h (mk_state (Reader.new d e) [] last) in
  res ≠ OutOfFuel
  ∧ (heard (told s) ∨ ∃ l call, told s = l ++ [call] ∧ heard l ∧ may_follow l call ∧ v l call = false ∧ unasked call = false).
Proof.
  intros Hd. unfold ProcessFrameData. destruct (Reader.IsDoneReading _); [split; [done|left; constructor]|].
  apply process_frames_ok_google; [split; [apply ReaderSpec.reader_new_wf|done]|constructor|done|].
  pose proof (ReaderSpec.reader_new_wf d e) as [? ?]. unfold Reader.BytesRemaining. cbn in *. lia.
Qed.
End any_payload.

(** ** On examples *)

Section examples.
#[local] Existing Instance swap_endian.
#[local] Existing Instance swap_endian_laws.

Definition sample_stream_data (id off : Z) : Z := (id + off) mod 256.
Definition sample_crypto_data (l : EncryptionLevel) (off : Z) : Z := off mod 256.
Definition sample_producer : DataProducer :=
  mk_producer (λ id off len, Writer.WriteBytes (slice (sample_stream_data id) off len))
    (λ l off len, Writer.WriteBytes (slice (sample_crypto_data l) off len)).
Definition sample_framer : framer := mk_framer 48 (Some sample_producer) true 1000 false.
Definition sample_header : QuicPacketHeader := mk_header 300 PACKET_2BYTE_PACKET_NUMBER.
Definition sample_ack : QuicAckFrame :=
  ReceivedPacketManager.mk_frame 600 100 [(598, 5000); (600, 5400)]
    [Interval.mk 3 5; Interval.mk 290 301; Interval.mk 590 601] true 1 0 2.
Definition sample_frames : list QuicFrame :=
  [ AckFrame sample_ack; StopWaitingFrame 280; StreamFrame (mk_stream 400 true 0 5 None); PaddingFrame 3; PingFrame;
    RstStreamFrame 5 6 70000; ConnectionCloseFrame GOOGLE_QUIC_CONNECTION_CLOSE 200 [1; 2] 0; GoAwayFrame 8 11 [7; 7; 7];
    WindowUpdateFrame 5 500; BlockedFrame 5 0; MtuDiscoveryFrame;
    CryptoFrame (mk_crypto UnackedPacketMap.ENCRYPTION_HANDSHAKE 70 3 None); MessageFrame [[4; 5]; [6]] 3;
    StreamFrame (mk_stream 8 false 300 4 None) ].
Definition always (told : list event) (e : event) : bool := true.

Lemma sample_frames_good : Forall (good sample_stream_data sample_crypto_data sample_framer sample_header) sample_frames.
Proof.
  repeat apply Forall_cons_2; [..|by apply Forall_nil]; cbn -[Z.pow two16 two32 two63]; try done;
    unfold is_varint, two32, two16; try (split_and!; try lia; try done; apply WriterSpec.emits_WriteBytes).
  unfold good_ack, good_times, two63, two62. cbn -[Z.pow]. split_and!; try lia; try done.
  - split; repeat constructor; done.
  - intros i Hi. repeat (apply elem_of_cons in Hi as [->|Hi]; [cbn; lia|]). by apply elem_of_nil in Hi.
  - by eexists.
  - intros _. split; [done|]. split; [|repeat constructor; cbn; lia]. repeat apply Forall_cons_2; cbn; [lia..|by apply Forall_nil].
Qed.

Lemma sample_writer_wf n : WriterSpec.wf (Writer.new n NETWORK_BYTE_ORDER).
Proof. apply WriterSpec.writer_new_wf. Defined.

Lemma google_frames_survive_the_wire_witness :
  let '(ok, w) := append_frames sample_framer sample_header sample_frames (Writer.new 300 NETWORK_BYTE_ORDER) in
  ok = true ∧ zlen (WriterSpec.written w) = 120
  ∧ (ProcessFrameData always sample_framer sample_header (mk_state (Reader.new (WriterSpec.written w) NETWORK_BYTE_ORDER) [] 0)).1
    = Processed
  ∧ take 8 (told (ProcessFrameData always sample_framer sample_header (mk_state (Reader.new (WriterSpec.written w) NETWORK_BYTE_ORDER) [] 0)).2)
    = [OnAckFrameStart 600 100; OnAckRange 590 601; OnAckRange 290 301; OnAckRange 3 5; OnAckTimestamp 598 5000;
       OnAckTimestamp 600 5400; OnAckFrameEnd 3; OnFrame (StopWaitingFrame 280)].
Proof.
  pose proof (google_frames_survive_the_wire sample_stream_data sample_crypto_data always (λ _ _, eq_refl) sample_framer sample_framer
    sample_header (conj eq_refl eq_refl) sample_frames (Writer.new 300 NETWORK_BYTE_ORDER) 0 sample_frames_good
    ltac:(cbn; naive_solver) ltac:(done) (sample_writer_wf 300) eq_refl) as H.
  assert (Hroom : acks_have_room sample_stream_data sample_crypto_data sample_framer sample_header sample_frames
    (Writer.remaining (Writer.new 300 NETWORK_BYTE_ORDER))) by (cbn -[blocks_for]; split; [right; by vm_compute|tauto]).
  destruct (append_frames _ _ _ _) as [ok w] eqn:E. cbv zeta in H. destruct H as (Hok&_&Hw&Hread).
  assert (Ht : ok = true) by (rewrite Hok; by vm_compute). split; [done|]. rewrite (Hw Ht).
  change (WriterSpec.written (Writer.new 300 NETWORK_BYTE_ORDER)) with (@nil Z). cbn [app].
  split; [by vm_compute|]. specialize (Hread Hroom). destruct (frames_events _ _ _ _ _ _ _ _) as [l last'] eqn:El.
  destruct Hread as [r ->]. cbn [fst snd told]. split; [done|]. vm_compute in El. by injection El as <- <-.
Defined.

Lemma any_google_payload_is_heard_safely_witness :
  let d := [100; 2; 88; 0; 100; 1; 11; 44; 250; 0; 7; 15] in
  let run := ProcessFrameData always sample_framer sample_header (mk_state (Reader.new d NETWORK_BYTE_ORDER) [] 0) in
  bytes d
  ∧ run.1 = Raised QUIC_INVALID_FRAME_DATA
  ∧ told run.2 = [OnAckFrameStart 600 100; OnAckRange 590 601; OnAckRange 296 546; OnAckFrameEnd 296; OnFrame PingFrame]
  ∧ heard sample_framer sample_header always (told run.2).
Proof.
  intros d run. assert (Hd : bytes d) by by repeat constructor. split; [exact Hd|]. split; [vm_compute; reflexivity|].
  split; [vm_compute; reflexivity|].
  pose proof (any_google_payload_is_heard_safely sample_framer sample_header always ltac:(done) d NETWORK_BYTE_ORDER 0 Hd) as H.
  unfold run. destruct (ProcessFrameData _ _ _ _) as [res s]. destruct H as [_ [H|(l&e&_&_&_&?&_)]]; [exact H|done].
Defined.

(** An ACK frame in the least room in which a truncated one is added to a packet: the type announces blocks, but there is no room
    for one, and no number of blocks is written. What was written cannot be read. *)
Definition narrow_ack : QuicAckFrame :=
  ReceivedPacketManager.mk_frame 1000 100 [] [Interval.mk 1 3; Interval.mk 500 1001] true 1 0 2.
Lemma truncated_ack_cannot_be_read :
  GetMinAckFrameSize false PACKET_6BYTE_PACKET_NUMBER = 10
  ∧ let '(ok, w) := append_frames sample_framer sample_header [AckFrame narrow_ack] (Writer.new 10 NETWORK_BYTE_ORDER) in
    ok = true
    ∧ (ProcessFrameData always sample_framer sample_header (mk_state (Reader.new (WriterSpec.written w) NETWORK_BYTE_ORDER) [] 0)).1
      = Raised QUIC_INVALID_ACK_DATA.
Proof. by vm_compute. Qed.

(** The size of the timestamps leaves out the distance of the first packet, a byte: with one byte too few the timestamps are
    tried and the frame fails; with two too few they are left out and it is written. *)
Lemma timestamps_are_a_byte_longer :
  GetAckFrameTimeStampSize sample_ack + 1 = zlen (times_bytes sample_framer sample_ack)
  ∧ map (λ n, (append_frame sample_framer sample_header (AckFrame sample_ack) true (Writer.new n NETWORK_BYTE_ORDER)).1) [22%nat; 23%nat; 24%nat]
    = [true; false; true].
Proof. by vm_compute. Qed.

(** An ACK frame cut inside a gap ends below the last range reported. *)
Lemma ack_frame_ends_below_its_last_range :
  let '(_, w) := append_frames sample_framer sample_header [AckFrame sample_ack] (Writer.new 10 NETWORK_BYTE_ORDER) in
  told (ProcessFrameData always sample_framer sample_header (mk_state (Reader.new (WriterSpec.written w) NETWORK_BYTE_ORDER) [] 0)).2
  = [OnAckFrameStart 600 100; OnAckRange 590 601; OnAckFrameEnd 335].
Proof. by vm_compute. Qed.

End examples.
End GoogleFramer.
