(* ===== verification/ControlFrameManager.v ===== *)
(** [QuicControlFrameManager] (quic/core/quic_control_frame_manager.cc): the control frames a session sends
    reliably. New frames wait their turn at the tail of a deque, sent ones stay until they are acknowledged, lost
    ones are sent again before anything new. A window update that is sent replaces the older ones of its stream.

    The session is a function from the calls made so far and the frame it is asked to write to whether it
    writes it; the calls are a log. Control frame ids are 32-bit. *)

From stdpp Require Import gmap.
From S2P Require Import Prelude.

Module QuicControlFrameManager.

Definition kInvalidControlFrameId : Z := 0.

(** ** Frames *)

Inductive content :=
  | RstStream (stream_id error byte_offset : Z)
  | GoAway (error last_good_stream_id : Z) (reason : list Z)
  | WindowUpdate (stream_id byte_offset : Z)
  | Blocked (stream_id : Z)
  | StreamsBlocked (count : Z) (unidirectional : bool)
  | MaxStreams (count : Z) (unidirectional : bool)
  | StopSending (code stream_id : Z)
  | Ping.

(** A frame of a type that has a control frame id, or any other frame. *)
Inductive QuicFrame := ControlFrame (control_frame_id : Z) (c : content) | OtherFrame.

Definition GetControlFrameId (f : QuicFrame) : Z :=
  match f with ControlFrame id _ => id | OtherFrame => kInvalidControlFrameId end.
Definition SetControlFrameId (id : Z) (f : QuicFrame) : QuicFrame :=
  match f with ControlFrame _ c => ControlFrame id c | OtherFrame => OtherFrame end.
Definition CopyRetransmittableControlFrame (f : QuicFrame) : QuicFrame :=
  match f with ControlFrame id c => ControlFrame id c | OtherFrame => ControlFrame kInvalidControlFrameId Ping end.

(** ** State *)

Record t := mk {
  control_frames : list QuicFrame;
  last_control_frame_id : Z;
  least_unacked : Z;
  least_unsent : Z;
  pending_retransmissions : list Z;
  window_update_frames : gmap Z Z;
}.

Definition new : t := mk [] kInvalidControlFrameId 1 1 [] ∅.

(** Calls into the session and its connection, and the exception of an index out of range. *)
Inductive call :=
  | SetTransmissionType_NOT_RETRANSMISSION
  | WriteControlFrame (f : QuicFrame) (written : bool)
  | CloseConnection
  | OutOfRange.
Definition io : Type := t * list call.

Definition with_frames (st : t) (frames : list QuicFrame) (least : Z) (pending : list Z) : t :=
  mk frames (last_control_frame_id st) least (least_unsent st) pending (window_update_frames st).
Definition with_pending (st : t) (pending : list Z) : t :=
  mk (control_frames st) (last_control_frame_id st) (least_unacked st) (least_unsent st) pending (window_update_frames st).
Definition with_unsent (st : t) (unsent : Z) : t :=
  mk (control_frames st) (last_control_frame_id st) (least_unacked st) unsent (pending_retransmissions st)
    (window_update_frames st).
Definition with_updates (st : t) (m : gmap Z Z) : t :=
  mk (control_frames st) (last_control_frame_id st) (least_unacked st) (least_unsent st) (pending_retransmissions st) m.

Definition log (s : io) (c : call) : io := (s.1, s.2 ++ [c]).

(** ** Operations *)

(** [control_frames_.at(id - least_unacked_)]. *)
Definition index (st : t) (id : Z) : nat := Z.to_nat (wrap32 (id - least_unacked st)).
Definition frame_at (st : t) (id : Z) : option QuicFrame := control_frames st !! index st id.

Definition HasBufferedFrames (st : t) : bool := least_unsent st <? least_unacked st + zlen (control_frames st).
Definition HasPendingRetransmission (st : t) : bool := match pending_retransmissions st with [] => false | _ => true end.
Definition WillingToWrite (st : t) : bool := HasPendingRetransmission st || HasBufferedFrames st.
Definition NextPendingRetransmission (st : t) : option QuicFrame :=
  match pending_retransmissions st with [] => None | id :: _ => frame_at st id end.

Definition IsControlFrameOutstanding (st : t) (f : QuicFrame) : bool :=
  let id := GetControlFrameId f in
  if id =? kInvalidControlFrameId then false else
  (id <? least_unacked st + zlen (control_frames st)) && (least_unacked st <=? id)
  && match frame_at st id with Some g => negb (GetControlFrameId g =? kInvalidControlFrameId) | None => false end.

(** The frames acknowledged at the front go. *)
Fixpoint clean_up (frames : list QuicFrame) (least : Z) : list QuicFrame * Z :=
  match frames with
  | f :: rest => if GetControlFrameId f =? kInvalidControlFrameId then clean_up rest (wrap32 (least + 1)) else (frames, least)
  | [] => ([], least)
  end.

Definition erase (id : Z) (l : list Z) : list Z := List.filter (λ x, negb (x =? id)) l.

Definition OnControlFrameIdAcked (id : Z) (s : io) : bool * io :=
  let st := s.1 in
  if id =? kInvalidControlFrameId then (false, s) else
  if least_unsent st <=? id then (false, log s CloseConnection) else
  if id <? least_unacked st then (false, s) else
  match frame_at st id with
  | None => (false, log s OutOfRange)
  | Some f =>
      if GetControlFrameId f =? kInvalidControlFrameId then (false, s) else
      let frames := <[index st id := SetControlFrameId kInvalidControlFrameId f]> (control_frames st) in
      let '(frames, least) := clean_up frames (least_unacked st) in
      (true, (with_frames st frames least (erase id (pending_retransmissions st)), s.2))
  end.

(** The part of [OnControlFrameSent] about window updates. *)
Definition supersede (f : QuicFrame) (s : io) : io :=
  match f with
  | ControlFrame id (WindowUpdate stream_id _) =>
      let s :=
        match window_update_frames s.1 !! stream_id with
        | Some old => if old <? id then (OnControlFrameIdAcked old s).2 else s
        | None => s
        end in
      (with_updates s.1 (<[stream_id := id]> (window_update_frames s.1)), s.2)
  | _ => s
  end.

Definition OnControlFrameSent (f : QuicFrame) (s : io) : io :=
  let id := GetControlFrameId f in
  if id =? kInvalidControlFrameId then s else
  let s := supersede f s in
  let st := s.1 in
  if bool_decide (id ∈ pending_retransmissions st)
  then (with_pending st (erase id (pending_retransmissions st)), s.2) else
  if least_unsent st <? id then log s CloseConnection else
  (with_unsent st (wrap32 (least_unsent st + 1)), s.2).

Definition OnControlFrameAcked (f : QuicFrame) (s : io) : bool * io :=
  let id := GetControlFrameId f in
  let '(acked, s) := OnControlFrameIdAcked id s in
  if negb acked then (false, s) else
  match f with
  | ControlFrame _ (WindowUpdate stream_id _) =>
      if bool_decide (window_update_frames s.1 !! stream_id = Some id)
      then (true, (with_updates s.1 (delete stream_id (window_update_frames s.1)), s.2))
      else (true, s)
  | _ => (true, s)
  end.

Definition OnControlFrameLost (f : QuicFrame) (s : io) : io :=
  let st := s.1 in
  let id := GetControlFrameId f in
  if id =? kInvalidControlFrameId then s else
  if least_unsent st <=? id then log s CloseConnection else
  if id <? least_unacked st then s else
  match frame_at st id with
  | None => log s OutOfRange
  | Some g =>
      if GetControlFrameId g =? kInvalidControlFrameId then s else
      if bool_decide (id ∈ pending_retransmissions st) then s
      else (with_pending st (pending_retransmissions st ++ [id]), s.2)
  end.

Section session.
(** Whether the session writes a frame, and [session_decides_what_to_write]. *)
Context (session : list call → QuicFrame → bool) (session_decides_what_to_write : bool).

Definition write (f : QuicFrame) (s : io) : bool * io :=
  let ok := session s.2 f in (ok, log s (WriteControlFrame f ok)).

(** The loops; each round takes a frame off what waits. *)
Fixpoint write_buffered (fuel : nat) (s : io) : io :=
  match fuel with
  | O => s
  | S fuel =>
      if negb (HasBufferedFrames s.1) then s else
      let s := if session_decides_what_to_write then log s SetTransmissionType_NOT_RETRANSMISSION else s in
      match frame_at s.1 (least_unsent s.1) with
      | None => log s OutOfRange
      | Some f =>
          let '(ok, s) := write (CopyRetransmittableControlFrame f) s in
          if negb ok then s else write_buffered fuel (OnControlFrameSent f s)
      end
  end.
Definition WriteBufferedFrames (s : io) : io := write_buffered (length (control_frames s.1)) s.

Fixpoint write_pending (fuel : nat) (s : io) : io :=
  match fuel with
  | O => s
  | S fuel =>
      if negb (HasPendingRetransmission s.1) then s else
      match NextPendingRetransmission s.1 with
      | None => log s OutOfRange
      | Some f =>
          let '(ok, s) := write (CopyRetransmittableControlFrame f) s in
          if negb ok then s else write_pending fuel (OnControlFrameSent f s)
      end
  end.
Definition WritePendingRetransmission (s : io) : io := write_pending (length (pending_retransmissions s.1)) s.

(** [emplace_back] of a frame with the next id. *)
Definition save (c : content) (s : io) : io :=
  let st := s.1 in
  let id := wrap32 (last_control_frame_id st + 1) in
  (mk (control_frames st ++ [ControlFrame id c]) id (least_unacked st) (least_unsent st) (pending_retransmissions st)
     (window_update_frames st), s.2).

Definition WriteOrBufferQuicFrame (c : content) (s : io) : io :=
  let had_buffered_frames := HasBufferedFrames s.1 in
  let s := save c s in
  if had_buffered_frames then s else WriteBufferedFrames s.

Definition WriteOrBufferRstStream (id error bytes_written : Z) : io → io :=
  WriteOrBufferQuicFrame (RstStream id error bytes_written).
Definition WriteOrBufferGoAway (error last_good_stream_id : Z) (reason : list Z) : io → io :=
  WriteOrBufferQuicFrame (GoAway error last_good_stream_id reason).
Definition WriteOrBufferWindowUpdate (id byte_offset : Z) : io → io := WriteOrBufferQuicFrame (WindowUpdate id byte_offset).
Definition WriteOrBufferBlocked (id : Z) : io → io := WriteOrBufferQuicFrame (Blocked id).
Definition WriteOrBufferStreamsBlocked (count : Z) (unidirectional : bool) : io → io :=
  WriteOrBufferQuicFrame (StreamsBlocked count unidirectional).
Definition WriteOrBufferMaxStreams (count : Z) (unidirectional : bool) : io → io :=
  WriteOrBufferQuicFrame (MaxStreams count unidirectional).
Definition WriteOrBufferStopSending (code stream_id : Z) : io → io := WriteOrBufferQuicFrame (StopSending code stream_id).
Definition WritePing (s : io) : io := if HasBufferedFrames s.1 then s else WriteBufferedFrames (save Ping s).

Definition OnCanWrite (s : io) : io :=
  if HasPendingRetransmission s.1 then WritePendingRetransmission s else WriteBufferedFrames s.

Definition RetransmitControlFrame (f : QuicFrame) (s : io) : bool * io :=
  let st := s.1 in
  let id := GetControlFrameId f in
  if id =? kInvalidControlFrameId then (true, s) else
  if least_unsent st <=? id then (false, log s CloseConnection) else
  if id <? least_unacked st then (true, s) else
  match frame_at st id with
  | None => (false, log s OutOfRange)
  | Some g =>
      if GetControlFrameId g =? kInvalidControlFrameId then (true, s) else
      write (CopyRetransmittableControlFrame f) s
  end.

End session.

(** ** The state of a run *)

(** The frame with an id, among those saved so far. *)
Definition saved_at (saved : list content) (id : Z) : option content :=
  if id <? 1 then None else saved !! Z.to_nat (id - 1).

(** The state against the frames saved and those that are finished. *)
Record Core (saved : list content) (fin : Z → Prop) (st : t) : Prop := mk_core {
  core_bound : zlen saved < two32 - 1;
  core_last : last_control_frame_id st = zlen saved;
  core_order : 1 <= least_unacked st <= least_unsent st ∧ least_unsent st <= zlen saved + 1;
  core_len : least_unacked st + zlen (control_frames st) = zlen saved + 1;
  core_fin : ∀ id, fin id → 1 <= id < least_unsent st;
  core_old : ∀ id, 1 <= id < least_unacked st → fin id;
  core_head : ¬ fin (least_unacked st);
  core_frames : ∀ k f, control_frames st !! k = Some f →
    let id := least_unacked st + Z.of_nat k in
    ∃ c, saved_at saved id = Some c ∧ (f = ControlFrame id c ∧ ¬ fin id ∨ f = ControlFrame kInvalidControlFrameId c ∧ fin id);
  core_nodup : NoDup (pending_retransmissions st);
  core_pending : ∀ id, id ∈ pending_retransmissions st → 1 <= id < least_unsent st ∧ ¬ fin id;
}.

Lemma saved_at_range saved id c : saved_at saved id = Some c → 1 <= id <= zlen saved.
Proof. unfold saved_at. destruct (Z.ltb_spec id 1); [done|]. intros Hc%lookup_lt_Some. unfold zlen. lia. Qed.

Lemma saved_at_some saved id : 1 <= id <= zlen saved → ∃ c, saved_at saved id = Some c.
Proof.
  intros Hi. unfold saved_at. destruct (Z.ltb_spec id 1); [lia|]. apply lookup_lt_is_Some. unfold zlen in Hi. lia.
Qed.

Lemma saved_at_app saved l id : id <= zlen saved → saved_at (saved ++ l) id = saved_at saved id.
Proof.
  intros Hi. unfold saved_at. destruct (Z.ltb_spec id 1); [done|]. apply lookup_app_l. unfold zlen in Hi. lia.
Qed.

Lemma saved_at_last saved c : saved_at (saved ++ [c]) (zlen saved + 1) = Some c.
Proof.
  unfold saved_at. pose proof (zlen_nonneg saved). destruct (Z.ltb_spec (zlen saved + 1) 1); [lia|].
  rewrite lookup_app_r by (unfold zlen; lia). by replace (_ - _)%nat with O by (unfold zlen; lia).
Qed.

Lemma core_ext saved fin fin' st : (∀ id, fin id ↔ fin' id) → Core saved fin st → Core saved fin' st.
Proof.
  intros E []. constructor; try done.
  - intros id. rewrite <-E. auto.
  - intros id Hi. rewrite <-E. auto.
  - by rewrite <-E.
  - intros k f Hk. destruct (core_frames0 k f Hk) as (c&Hc&Hf). exists c. by rewrite <-!E.
  - intros id. rewrite <-E. auto.
Qed.

Section core.
Context (saved : list content) (fin : Z → Prop) (st : t) (HC : Core saved fin st).

Lemma index_small id : least_unacked st <= id <= zlen saved → index st id = Z.to_nat (id - least_unacked st).
Proof.
  intros Hi. destruct HC. unfold index, wrap32. rewrite Z.mod_small; [done|]. unfold two32 in *. lia.
Qed.

(** The deque has every frame from the least unacked one on. *)
Lemma frame_at_spec id :
  least_unacked st <= id <= zlen saved →
  ∃ c, saved_at saved id = Some c
    ∧ (frame_at st id = Some (ControlFrame id c) ∧ ¬ fin id
       ∨ frame_at st id = Some (ControlFrame kInvalidControlFrameId c) ∧ fin id).
Proof.
  intros Hi. unfold frame_at. rewrite index_small by done. destruct HC.
  destruct (lookup_lt_is_Some_2 (control_frames st) (Z.to_nat (id - least_unacked st))) as [f Hf]; [unfold zlen in *; lia|].
  destruct (core_frames0 _ _ Hf) as (c&Hc&H). rewrite Z2Nat.id in Hc, H by lia.
  replace (least_unacked st + (id - least_unacked st)) with id in * by lia. exists c. split; [done|].
  rewrite Hf. destruct H as [[-> ?]|[-> ?]]; auto.
Qed.

Lemma outstanding_spec id c :
  saved_at saved id = Some c → IsControlFrameOutstanding st (ControlFrame id c) = true ↔ ¬ fin id.
Proof.
  intros Hc. pose proof (saved_at_range _ _ _ Hc) as Hi. unfold IsControlFrameOutstanding. cbn [GetControlFrameId].
  unfold kInvalidControlFrameId. destruct (Z.eqb_spec id 0); [lia|].
  pose proof (core_len _ _ _ HC). destruct (Z.ltb_spec id (least_unacked st + zlen (control_frames st))); [|lia]. cbn [andb].
  destruct (Z.leb_spec (least_unacked st) id) as [Hle|Hlt]; cbn [andb].
  - destruct (frame_at_spec id ltac:(lia)) as (c'&Hc'&[[-> Hf]|[-> Hf]]); cbn [GetControlFrameId]; unfold kInvalidControlFrameId.
    + destruct (Z.eqb_spec id 0); [lia|]. by split.
    + by split.
  - split; [done|]. intros Hf. destruct Hf. apply (core_old _ _ _ HC). lia.
Qed.

End core.

Lemma front_spec frames least :
  0 <= least → least + zlen frames < two32 →
  let '(frames', least') := clean_up frames least in
  ∃ k : nat, frames' = drop k frames ∧ least' = least + Z.of_nat k ∧ (k <= length frames)%nat
    ∧ (∀ j f, (j < k)%nat → frames !! j = Some f → GetControlFrameId f = kInvalidControlFrameId)
    ∧ (∀ f, head frames' = Some f → GetControlFrameId f ≠ kInvalidControlFrameId).
Proof.
  revert least. induction frames as [|f frames IH]; intros least H0 Hb; cbn [clean_up].
  { exists O. by rewrite Z.add_0_r. }
  rewrite zlen_cons in Hb. pose proof (zlen_nonneg frames).
  destruct (Z.eqb_spec (GetControlFrameId f) kInvalidControlFrameId) as [E|E].
  - unfold wrap32. rewrite Z.mod_small by lia. specialize (IH (least + 1) ltac:(lia) ltac:(lia)).
    destruct (clean_up frames (least + 1)) as [frames' least']. destruct IH as (k&->&->&Hk&Hz&Hh).
    exists (S k). split; [done|]. split; [lia|]. split; [cbn; lia|]. split; [|done].
    intros [|j] g Hj Hg; [by injection Hg as <-|exact (Hz j g ltac:(lia) Hg)].
  - exists O. rewrite Z.add_0_r. split; [done|]. split; [done|]. split; [lia|]. split; [intros j f0 Hj; lia|].
    by intros g [= <-].
Qed.

Lemma elem_of_erase x id l : x ∈ erase id l ↔ x ∈ l ∧ x ≠ id.
Proof.
  unfold erase. rewrite !list_elem_of_In, filter_In, negb_true_iff, Z.eqb_neq. done.
Qed.

Lemma erase_nodup id l : NoDup l → NoDup (erase id l).
Proof. intros H. by apply NoDup_ListNoDup, List.NoDup_filter, NoDup_ListNoDup. Qed.

Lemma erase_other id l : id ∉ l → erase id l = l.
Proof.
  induction l as [|x l IH]; intros Hn; [done|]. cbn. apply not_elem_of_cons in Hn as [Hx Hl].
  destruct (Z.eqb_spec x id); [by subst|]. cbn. f_equal. by apply IH.
Qed.

(** An id that is finished, or not. *)
Lemma acked_again saved fin st calls id :
  Core saved fin st → fin id → OnControlFrameIdAcked id (st, calls) = (false, (st, calls)).
Proof.
  intros HC Hf. pose proof (core_fin _ _ _ HC id Hf). pose proof (core_order _ _ _ HC). unfold OnControlFrameIdAcked. cbn [fst snd].
  destruct (Z.eqb_spec id kInvalidControlFrameId); [done|].
  destruct (Z.leb_spec (least_unsent st) id); [lia|]. destruct (Z.ltb_spec id (least_unacked st)); [done|].
  destruct (frame_at_spec saved fin st HC id ltac:(lia)) as (c&_&[[-> Hn]|[-> _]]); done.
Qed.

Lemma acked_first saved fin st calls id :
  Core saved fin st → 1 <= id < least_unsent st → ¬ fin id →
  ∃ st', OnControlFrameIdAcked id (st, calls) = (true, (st', calls))
    ∧ Core saved (λ x, fin x ∨ x = id) st' ∧ least_unsent st' = least_unsent st
    ∧ pending_retransmissions st' = erase id (pending_retransmissions st) ∧ window_update_frames st' = window_update_frames st.
Proof.
  intros HC Hid Hn. unfold OnControlFrameIdAcked. cbn [fst snd]. unfold kInvalidControlFrameId.
  destruct (Z.eqb_spec id 0); [lia|]. destruct (Z.leb_spec (least_unsent st) id); [lia|].
  destruct (Z.ltb_spec id (least_unacked st)) as [Hlt|Hle].
  { destruct Hn. apply (core_old _ _ _ HC). lia. }
  pose proof (core_order _ _ _ HC) as Ho. pose proof (core_len _ _ _ HC) as Hlen. pose proof (core_bound _ _ _ HC) as Hb.
  destruct (frame_at_spec saved fin st HC id ltac:(lia)) as (c&Hc&[[Hf _]|[_ Hf]]); [|done].
  rewrite Hf. cbn [GetControlFrameId]. destruct (Z.eqb_spec id 0); [done|]. cbn [SetControlFrameId].
  unfold frame_at in Hf. rewrite (index_small saved fin st HC) in * by lia.
  set (idx := Z.to_nat (id - least_unacked st)) in *. set (frames := <[idx := ControlFrame 0 c]> (control_frames st)).
  assert (Hz : zlen frames = zlen (control_frames st)) by (unfold zlen, frames; by rewrite length_insert).
  assert (H2 : ∀ k f, frames !! k = Some f → let x := least_unacked st + Z.of_nat k in
    ∃ c, saved_at saved x = Some c
      ∧ (f = ControlFrame x c ∧ ¬ (fin x ∨ x = id) ∨ f = ControlFrame kInvalidControlFrameId c ∧ (fin x ∨ x = id))).
  { intros k f Hk x. destruct (decide (k = idx)) as [->|Hne].
    - unfold frames in Hk. rewrite list_lookup_insert_eq in Hk by (by eapply lookup_lt_Some). injection Hk as <-.
      assert (x = id) as -> by (unfold x, idx; lia). exists c. auto.
    - unfold frames in Hk. rewrite list_lookup_insert_ne in Hk by done.
      destruct (core_frames _ _ _ HC k f Hk) as (c'&Hc'&Hf'). exists c'. split; [done|].
      assert (x ≠ id) by (unfold x; intros E; apply Hne; unfold idx; lia). fold x in Hf'. tauto. }
  pose proof (front_spec frames (least_unacked st) ltac:(lia) ltac:(lia)) as Hclean.
  destruct (clean_up frames (least_unacked st)) as [frames' least']. destruct Hclean as (k&->&->&Hk&Hzero&Hhead).
  assert (Hnz : ∀ x c', saved_at saved x = Some c' → x ≠ kInvalidControlFrameId)
    by (intros x c' Hx%saved_at_range; unfold kInvalidControlFrameId; lia).
  assert (Hgone : ∀ j, (j < k)%nat → fin (least_unacked st + Z.of_nat j) ∨ least_unacked st + Z.of_nat j = id).
  { intros j Hj. destruct (lookup_lt_is_Some_2 frames j ltac:(lia)) as [f Hfj].
    destruct (H2 j f Hfj) as (c'&Hc'&[[-> Hnf]|[_ ?]]); [|done]. pose proof (Hzero j _ Hj Hfj) as E.
    by destruct (Hnz _ _ Hc' E). }
  eexists. split; [reflexivity|]. split; [|done]. destruct HC. constructor; cbn; try done.
  - split; [|lia]. split; [lia|]. destruct k as [|k]; [lia|]. destruct (Hgone k ltac:(lia)) as [Hg|Hg]; [|lia].
    pose proof (core_fin0 _ Hg). lia.
  - unfold zlen in *. rewrite length_drop. lia.
  - intros x [Hx| ->]; [by apply core_fin0|done].
  - intros x Hx. destruct (Z.lt_ge_cases x (least_unacked st)); [left; apply core_old0; lia|].
    destruct (Hgone (Z.to_nat (x - least_unacked st)) ltac:(lia)) as [Hg|Hg];
      rewrite Z2Nat.id in Hg by lia; [left|right; lia]. by replace x with (least_unacked st + (x - least_unacked st)) by lia.
  - destruct (drop k frames) as [|f rest] eqn:Ed.
    + assert (k = length frames) by (apply (f_equal length) in Ed; rewrite length_drop in Ed; cbn in Ed; lia).
      intros [Hx|Hx]; [pose proof (core_fin0 _ Hx)|]; unfold zlen in *; lia.
    + assert (Hf0 : frames !! k = Some f) by (rewrite <-(Nat.add_0_r k), <-lookup_drop, Ed; done).
      destruct (H2 k f Hf0) as (c'&_&[[_ ?]|[-> _]]); [done|]. by destruct (Hhead _ eq_refl).
  - intros j f Hj. rewrite lookup_drop in Hj. specialize (H2 _ _ Hj). cbn zeta in H2.
    rewrite Nat2Z.inj_add, Z.add_assoc in H2. exact H2.
  - by apply erase_nodup.
  - intros x [Hx Hne]%elem_of_erase. destruct (core_pending0 x Hx). split; [done|]. tauto.
Qed.

(** A window update of a stream is superseded once a later one of the stream is sent. *)
Definition superseded (saved : list content) (unsent id : Z) : Prop :=
  ∃ stream_id off j off', saved_at saved id = Some (WindowUpdate stream_id off) ∧ id < j < unsent
    ∧ saved_at saved j = Some (WindowUpdate stream_id off').
Definition finished (saved : list content) (acked : list Z) (unsent id : Z) : Prop :=
  id ∈ acked ∨ superseded saved unsent id.

(** The invariant: a frame that was sent is outstanding unless acknowledged or superseded, and the map has the
    outstanding window update of each stream. *)
Record Inv (saved : list content) (acked : list Z) (st : t) : Prop := mk_inv {
  inv_core : Core saved (finished saved acked (least_unsent st)) st;
  inv_updates : ∀ stream_id id, window_update_frames st !! stream_id = Some id ↔
    1 <= id < least_unsent st ∧ ¬ finished saved acked (least_unsent st) id
    ∧ ∃ off, saved_at saved id = Some (WindowUpdate stream_id off);
}.

Lemma core_dec saved fin st id : Core saved fin st → 1 <= id <= zlen saved → fin id ∨ ¬ fin id.
Proof.
  intros HC Hi. destruct (Z.lt_ge_cases id (least_unacked st)); [left; apply (core_old _ _ _ HC); lia|].
  destruct (frame_at_spec saved fin st HC id ltac:(lia)) as (c&_&[[_ ?]|[_ ?]]); auto.
Qed.

Lemma core_unsent saved fin st u :
  Core saved fin st → least_unsent st <= u <= zlen saved + 1 → Core saved fin (with_unsent st u).
Proof.
  intros [] Hu. constructor; cbn; try done; try lia.
  - intros id Hf. pose proof (core_fin0 _ Hf). lia.
  - intros id Hp. destruct (core_pending0 _ Hp). split; [lia|done].
Qed.

Lemma core_updates saved fin st m : Core saved fin st → Core saved fin (with_updates st m).
Proof. by intros []. Qed.

Lemma superseded_mono saved u u' id : u <= u' → superseded saved u id → superseded saved u' id.
Proof. intros Hu (s&off&j&off'&?&?&?). exists s, off, j, off'. split; [done|]. split; [lia|done]. Qed.

(** Sending the next frame can only supersede the outstanding window update of its stream. *)
Lemma finished_next saved acked st c id :
  Inv saved acked st → saved_at saved (least_unsent st) = Some c →
  finished saved acked (least_unsent st + 1) id ↔
  finished saved acked (least_unsent st) id
  ∨ ∃ stream_id off, c = WindowUpdate stream_id off ∧ window_update_frames st !! stream_id = Some id.
Proof.
  intros [HC HU] Hc. split.
  - intros [Ha|(s&off&j&off'&Hs&Hj&Hs')]; [by left; left|].
    destruct (Z.eq_dec j (least_unsent st)) as [->|Hne]; [|left; right; exists s, off, j, off'; split; [done|]; split; [lia|done]].
    pose proof (saved_at_range _ _ _ Hs). destruct (core_dec _ _ _ id HC ltac:(lia)) as [Hf|Hf]; [by left|right].
    exists s, off'. split; [congruence|]. apply HU. split; [lia|]. split; [done|]. by exists off.
  - intros [[Ha|Hs]|(s&off&->&Hm)]; [by left|right; eapply superseded_mono; [|done]; lia|].
    right. apply HU in Hm as (Hr&_&off'&Ho). exists s, off', (least_unsent st), off. split; [done|]. split; [lia|done].
Qed.

Lemma fresh_not_pending saved acked st : Inv saved acked st → least_unsent st ∉ pending_retransmissions st.
Proof. intros [HC _] Hp. pose proof (core_pending _ _ _ HC _ Hp). lia. Qed.

(** The window update the next frame supersedes, if any, is finished. *)
Lemma supersede_next saved acked st calls c :
  Inv saved acked st → saved_at saved (least_unsent st) = Some c →
  ∃ st1, supersede (ControlFrame (least_unsent st) c) (st, calls) = (st1, calls)
    ∧ Core saved (finished saved acked (least_unsent st + 1)) (with_unsent st1 (least_unsent st + 1)) ∧ least_unsent st1 = least_unsent st
    ∧ (∀ id, id ∈ pending_retransmissions st1 ↔ id ∈ pending_retransmissions st
         ∧ ¬ finished saved acked (least_unsent st + 1) id)
    ∧ window_update_frames st1 = match c with WindowUpdate s _ => <[s := least_unsent st]> (window_update_frames st)
                                | _ => window_update_frames st end.
Proof.
  intros HI Hc. pose proof (finished_next saved acked st c) as Hnext.
  pose proof HI as [HC HU]. pose proof (saved_at_range _ _ _ Hc) as Hr.
  assert (Hno : (∀ id, ¬ ∃ s off, c = WindowUpdate s off ∧ window_update_frames st !! s = Some id) →
      Core saved (finished saved acked (least_unsent st + 1)) (with_unsent st (least_unsent st + 1))
      ∧ (∀ id, id ∈ pending_retransmissions st ↔ id ∈ pending_retransmissions st ∧ ¬ finished saved acked (least_unsent st + 1) id)).
    { intros Hnot. split.
      - apply core_unsent; [|lia]. eapply core_ext; [|exact HC]. intros id. rewrite (Hnext id HI Hc). specialize (Hnot id). tauto.
      - intros id. split; [|by intros [? _]]. intros Hp. split; [done|]. rewrite (Hnext id HI Hc). specialize (Hnot id).
        pose proof (core_pending _ _ _ HC _ Hp). tauto. }
    destruct c; try (destruct Hno as [H1 H2]; [by intros id (?&?&?&_)|]; by eexists).
    unfold supersede. cbn [fst]. destruct (window_update_frames st !! stream_id) as [old|] eqn:Em.
    - pose proof (proj1 (HU _ _) Em) as (Hold&Hnf&Hoff). destruct (Z.ltb_spec old (least_unsent st)); [|lia].
      destruct (acked_first saved _ st calls old HC Hold Hnf) as (st1&->&HC1&Hu1&Hp1&Hm1). cbn [fst snd].
      eexists. split; [reflexivity|]. cbn. rewrite Hm1, Hp1.
      assert (Hfin : ∀ id, finished saved acked (least_unsent st) id ∨ id = old ↔ finished saved acked (least_unsent st + 1) id).
      { intros id. rewrite (Hnext id HI Hc). split; (intros [?|H']; [by left|right]).
        - subst. by exists stream_id, byte_offset.
        - destruct H' as (?&?&[= <- <-]&E). congruence. }
      split; [|split; [done|split; [|done]]].
      + apply (core_updates saved _ (with_unsent st1 (least_unsent st + 1))). apply (core_unsent saved _ st1); [|rewrite Hu1; lia].
        eapply core_ext; [exact Hfin|exact HC1].
      + intros id. rewrite elem_of_erase, <-Hfin. split; [|tauto].
        intros [Hp Hne]. split; [done|]. pose proof (core_pending _ _ _ HC _ Hp). tauto.
    - destruct Hno as [H1 H2]; [by intros id (?&?&[= <- <-]&E); congruence|]. eexists. split; [reflexivity|]. cbn.
      split; [|done]. by apply (core_updates saved _ (with_unsent st (least_unsent st + 1))).
Qed.

(** The map after the next frame is sent. *)
Lemma updates_next saved acked st c stream_id id :
  Inv saved acked st → saved_at saved (least_unsent st) = Some c →
  match c with WindowUpdate s _ => <[s := least_unsent st]> (window_update_frames st) | _ => window_update_frames st end
    !! stream_id = Some id ↔
  1 <= id < least_unsent st + 1 ∧ ¬ finished saved acked (least_unsent st + 1) id
  ∧ ∃ off, saved_at saved id = Some (WindowUpdate stream_id off).
Proof.
  intros HI Hc. pose proof (finished_next saved acked st c) as Hnext. set (s := stream_id).
  pose proof HI as [HC HU]. pose proof (saved_at_range _ _ _ Hc) as Hr.
  assert (Hself : ¬ finished saved acked (least_unsent st + 1) (least_unsent st)).
  { rewrite (Hnext _ HI Hc). intros [Hf|(?&?&_&E%HU)]; [pose proof (core_fin _ _ _ HC _ Hf)|]; lia. }
  assert (Hlook : (∃ off, c = WindowUpdate s off) ∧ match c with WindowUpdate s _ => <[s := least_unsent st]> (window_update_frames st)
      | _ => window_update_frames st end !! s = Some (least_unsent st)
    ∨ (∀ off, c ≠ WindowUpdate s off) ∧ match c with WindowUpdate s _ => <[s := least_unsent st]> (window_update_frames st)
      | _ => window_update_frames st end !! s = window_update_frames st !! s).
  { destruct c; try by right. destruct (decide (stream_id0 = s)) as [->|Hne].
    - left. split; [by eexists|]. by rewrite lookup_insert_eq.
    - right. split; [by intros off [= ? _]|]. by rewrite lookup_insert_ne. }
  destruct Hlook as [[[off ->] ->]|[Hw ->]].
  - split.
    + intros [= <-]. split; [lia|]. split; [done|by exists off].
    + intros (Hid&Hnf&off'&Ho). f_equal. destruct (Z.eq_dec (least_unsent st) id); [done|]. destruct Hnf. right.
      exists s, off', (least_unsent st), off. split; [done|]. split; [lia|done].
  - rewrite HU. rewrite (Hnext id HI Hc). split; intros (Hid&Hnf&off&Ho).
    + split; [lia|]. split; [|by exists off]. intros [?|(s'&off'&->&E%HU)]; [done|].
      destruct E as (_&_&off2&E). rewrite Ho in E. injection E as <- _. by destruct (Hw off').
    + destruct (Z.eq_dec id (least_unsent st)) as [->|]; [rewrite Hc in Ho; injection Ho as ->; by destruct (Hw off)|].
      split; [lia|]. split; [tauto|by exists off].
Qed.

(** A frame sent for the first time. *)
Lemma sent_first saved acked st calls c :
  Inv saved acked st → saved_at saved (least_unsent st) = Some c →
  ∃ st', OnControlFrameSent (ControlFrame (least_unsent st) c) (st, calls) = (st', calls)
    ∧ Inv saved acked st' ∧ least_unsent st' = least_unsent st + 1
    ∧ (∀ id, id ∈ pending_retransmissions st' → id ∈ pending_retransmissions st)
    ∧ (∀ id, id ∈ pending_retransmissions st → id ∉ pending_retransmissions st' →
         finished saved acked (least_unsent st') id).
Proof.
  intros HI Hc. pose proof (finished_next saved acked st c) as Hnext. pose proof (fresh_not_pending _ _ _ HI) as Hfresh.
  pose proof HI as [HC HU]. pose proof (saved_at_range _ _ _ Hc) as Hr. pose proof (core_bound _ _ _ HC) as Hb.
  unfold OnControlFrameSent. cbn [GetControlFrameId]. unfold kInvalidControlFrameId. destruct (Z.eqb_spec (least_unsent st) 0); [lia|].
  destruct (supersede_next saved acked st calls c HI Hc) as (st1&->&HC1&Hu1&Hp1&Hm1). cbn [fst snd]. rewrite bool_decide_eq_false_2 by (rewrite Hp1; tauto).
  rewrite Hu1. destruct (Z.ltb_spec (least_unsent st) (least_unsent st)); [lia|].
  unfold wrap32. rewrite Z.mod_small by (unfold two32 in *; lia). eexists. split; [reflexivity|]. cbn [with_unsent least_unsent pending_retransmissions].
  split; [|split; [done|split]].
  2:{ intros id. rewrite Hp1. tauto. }
  2:{ intros id Hp Hnp. rewrite Hp1 in Hnp. pose proof (core_pending _ _ _ HC _ Hp) as [? _].
      destruct (core_dec _ _ _ id HC1 ltac:(lia)); tauto. }
  split; cbn [with_unsent least_unsent window_update_frames]; [done|]. rewrite Hm1. intros s id. by apply updates_next.
Qed.

(** A lost frame sent again. *)
Lemma sent_again saved acked st calls id c :
  Inv saved acked st → id ∈ pending_retransmissions st → saved_at saved id = Some c →
  ∃ st', OnControlFrameSent (ControlFrame id c) (st, calls) = (st', calls)
    ∧ Inv saved acked st' ∧ least_unsent st' = least_unsent st
    ∧ pending_retransmissions st' = erase id (pending_retransmissions st).
Proof.
  intros [HC HU] Hp Hc. pose proof (core_pending _ _ _ HC id Hp) as [Hid Hnf].
  assert (Hsup : ∃ st1, supersede (ControlFrame id c) (st, calls) = (st1, calls) ∧ Core saved (finished saved acked (least_unsent st)) st1
    ∧ least_unsent st1 = least_unsent st ∧ pending_retransmissions st1 = pending_retransmissions st
    ∧ window_update_frames st1 = window_update_frames st).
  { destruct c; try by eexists. assert (Em : window_update_frames st !! stream_id = Some id).
    { apply HU. split; [done|]. split; [done|by eexists]. }
    unfold supersede. cbn [fst snd]. rewrite Em. destruct (Z.ltb_spec id id); [lia|]. eexists. split; [reflexivity|]. cbn.
    split; [by apply core_updates|]. split; [done|]. split; [done|]. by apply insert_id. }
  destruct Hsup as (st1&E&HC1&Hu1&Hp1&Hm1). unfold OnControlFrameSent. cbn [GetControlFrameId]. unfold kInvalidControlFrameId.
  destruct (Z.eqb_spec id 0); [lia|]. rewrite E. cbn [fst snd]. rewrite bool_decide_eq_true_2 by by rewrite Hp1.
  eexists. split; [reflexivity|]. cbn. rewrite Hp1. split; [|done]. split; cbn.
  - rewrite Hu1. destruct HC1. constructor; cbn; try done.
    + rewrite <-Hp1. by apply erase_nodup.
    + intros x [Hx _]%elem_of_erase. apply core_pending0. by rewrite Hp1.
  - rewrite Hu1, Hm1. exact HU.
Qed.

(** ** The log *)

Definition good_call (saved : list content) (x : call) : Prop :=
  match x with
  | SetTransmissionType_NOT_RETRANSMISSION => True
  | WriteControlFrame f _ => ∃ id c, f = ControlFrame id c ∧ saved_at saved id = Some c
  | CloseConnection | OutOfRange => False
  end.
Definition written (calls : list call) (id : Z) : Prop := ∃ c, WriteControlFrame (ControlFrame id c) true ∈ calls.

(** A frame is not tried before the frames saved earlier were written. *)
Definition in_order (calls : list call) : Prop :=
  ∀ l1 id c ok l2, calls = l1 ++ WriteControlFrame (ControlFrame id c) ok :: l2 → ∀ j, 1 <= j < id → written l1 j.

Record Log (saved : list content) (unsent : Z) (calls : list call) : Prop := mk_log {
  log_good : Forall (good_call saved) calls;
  log_written : ∀ id, 1 <= id < unsent ↔ written calls id;
  log_order : in_order calls;
}.

Lemma written_app calls new id : written (calls ++ new) id ↔ written calls id ∨ written new id.
Proof. unfold written. split; [intros (c&[?|?]%elem_of_app); eauto|intros [(c&?)|(c&?)]; exists c; apply elem_of_app; auto]. Qed.

Lemma in_order_snoc calls x :
  in_order calls → (∀ id c ok, x = WriteControlFrame (ControlFrame id c) ok → ∀ j, 1 <= j < id → written calls j) →
  in_order (calls ++ [x]).
Proof.
  intros Ho Hx l1 id c ok l2 E. destruct (list_snoc_cases l2) as [->|(l2'&y&->)].
  - apply app_inj_tail in E as [<- ->]. by eapply Hx.
  - rewrite app_comm_cons, app_assoc in E. apply app_inj_tail in E as [-> _]. by eapply Ho.
Qed.

Lemma log_set saved u calls : Log saved u calls → Log saved u (calls ++ [SetTransmissionType_NOT_RETRANSMISSION]).
Proof.
  intros [Hg Hw Ho]. split; [by apply Forall_app; split; [|repeat constructor]| |by apply in_order_snoc].
  intros id. rewrite Hw, written_app. split; [by left|]. intros [?|(c&[E|E]%elem_of_cons)]; [done..|]. by apply elem_of_nil in E.
Qed.

Lemma log_write saved u calls id c ok :
  Log saved u calls → saved_at saved id = Some c → id <= u →
  Log saved (if ok && (id =? u) then u + 1 else u) (calls ++ [WriteControlFrame (ControlFrame id c) ok]).
Proof.
  intros [Hg Hw Ho] Hc Hid. pose proof (saved_at_range _ _ _ Hc) as Hr. split.
  - apply Forall_app. split; [done|]. repeat constructor. by exists id, c.
  - intros x. rewrite written_app, <-Hw. assert (Hx : written [WriteControlFrame (ControlFrame id c) ok] x ↔ x = id ∧ ok = true).
    { unfold written. split; [intros (c'&[= -> _ <-]%list_elem_of_singleton); done|].
      intros [-> ->]. exists c. by apply list_elem_of_singleton. }
    rewrite Hx. destruct ok; cbn [andb]; [|split; [by left|by intros [?|[_ ?]]]].
    destruct (Z.eqb_spec id u); (split; [|intros [?|[-> _]]]); lia.
  - apply in_order_snoc; [done|]. intros id' c' ok' [= <- _ _] j Hj. apply Hw. lia.
Qed.

Section runs.
Context (session : list call → QuicFrame → bool) (session_decides_what_to_write : bool).

(** A state with its log. *)
Definition Good (saved : list content) (acked : list Z) (s : io) : Prop :=
  Inv saved acked s.1 ∧ Log saved (least_unsent s.1) s.2.

Lemma has_buffered_spec saved acked st : Inv saved acked st → HasBufferedFrames st = (least_unsent st <=? zlen saved).
Proof. intros [HC _]. pose proof (core_len _ _ _ HC). unfold HasBufferedFrames. lia. Qed.

Lemma next_frame saved acked st :
  Inv saved acked st → least_unsent st <= zlen saved →
  ∃ c, saved_at saved (least_unsent st) = Some c ∧ frame_at st (least_unsent st) = Some (ControlFrame (least_unsent st) c).
Proof.
  intros [HC _] Hu. pose proof (core_order _ _ _ HC). destruct (frame_at_spec _ _ _ HC (least_unsent st) ltac:(lia)) as (c&Hc&[[Hf _]|[_ Hf]]).
  - by exists c.
  - pose proof (core_fin _ _ _ HC _ Hf). lia.
Qed.

Definition refused (calls : list call) : Prop := ∃ f, last calls = Some (WriteControlFrame f false).

(** [WriteBufferedFrames] sends the frames that were never sent, until the session refuses one. *)
Lemma write_buffered_spec fuel saved acked s :
  Good saved acked s → let s' := write_buffered session session_decides_what_to_write fuel s in
  Good saved acked s' ∧ (∃ new, s'.2 = s.2 ++ new)
  ∧ (∀ id, id ∈ pending_retransmissions s'.1 → id ∈ pending_retransmissions s.1)
  ∧ (zlen saved + 1 - least_unsent s.1 <= Z.of_nat fuel → HasBufferedFrames s'.1 = false ∨ refused s'.2).
Proof.
  revert s. induction fuel as [|fuel IH]; intros [st calls] [HI HL]; cbn [write_buffered fst snd] in *.
  { split; [done|]. split; [exists []; by rewrite app_nil_r|]. split; [done|]. intros Hf. left. cbn [fst]. rewrite (has_buffered_spec _ _ _ HI). lia. }
  rewrite (has_buffered_spec _ _ _ HI). destruct (Z.leb_spec (least_unsent st) (zlen saved)) as [Hle|Hgt]; cbn [negb].
  2:{ split; [done|]. split; [exists []; by rewrite app_nil_r|]. split; [done|]. intros _. left. cbn [fst]. rewrite (has_buffered_spec _ _ _ HI). lia. }
  assert (H1 : ∃ pre, (if session_decides_what_to_write then log (st, calls) SetTransmissionType_NOT_RETRANSMISSION else (st, calls))
      = (st, calls ++ pre) ∧ Log saved (least_unsent st) (calls ++ pre)).
  { destruct session_decides_what_to_write; [exists [SetTransmissionType_NOT_RETRANSMISSION]; split; [done|by apply log_set]|].
    exists []. by rewrite app_nil_r. }
  destruct H1 as (pre&->&HL1). cbn [fst snd]. destruct (next_frame _ _ _ HI Hle) as (c&Hc&->).
  unfold write. cbn [fst snd log CopyRetransmittableControlFrame].
  set (ok := session _ _). pose proof (log_write _ _ _ (least_unsent st) c ok HL1 Hc ltac:(lia)) as HL2. rewrite Z.eqb_refl in HL2.
  unfold log. cbn [fst snd]. destruct ok; cbn [negb andb] in *.
  - destruct (sent_first saved acked st ((calls ++ pre) ++ [WriteControlFrame (ControlFrame (least_unsent st) c) true]) c HI Hc)
      as (st'&->&HI'&Hu'&Hp'&_).
    destruct (IH (st', (calls ++ pre) ++ [WriteControlFrame (ControlFrame (least_unsent st) c) true])) as (HG&(new&Hnew)&Hpend&Hdone).
    { split; [done|]. cbn [fst snd]. by rewrite Hu'. }
    split; [done|]. split; [|split; [intros id Hid; by apply Hp', Hpend|intros Hf; apply Hdone; cbn; lia]].
    cbn [snd] in Hnew. eexists. rewrite Hnew. by rewrite <-!app_assoc.
  - split; [done|]. split; [eexists; by rewrite <-!app_assoc|]. split; [done|]. intros _. right. unfold refused. cbn [snd]. rewrite last_snoc. by eexists.
Qed.

Lemma WriteBufferedFrames_spec saved acked s :
  Good saved acked s → let s' := WriteBufferedFrames session session_decides_what_to_write s in
  Good saved acked s' ∧ (∃ new, s'.2 = s.2 ++ new)
  ∧ (∀ id, id ∈ pending_retransmissions s'.1 → id ∈ pending_retransmissions s.1)
  ∧ (HasBufferedFrames s'.1 = false ∨ refused s'.2).
Proof.
  intros HG. destruct (write_buffered_spec (length (control_frames s.1)) saved acked s HG) as (H1&H2&H3&H4).
  split; [done|]. split; [done|]. split; [done|]. apply H4. destruct HG as [[HC _] _].
  pose proof (core_len _ _ _ HC). pose proof (core_order _ _ _ HC). unfold zlen in *. lia.
Qed.

Lemma erase_head id l : NoDup (id :: l) → erase id (id :: l) = l.
Proof. intros [Hn _]%NoDup_cons. cbn. rewrite Z.eqb_refl. cbn. by apply erase_other. Qed.

(** The writes of lost frames, in their order. *)
Definition rewritten (saved : list content) (ids : list Z) (new : list call) : Prop :=
  Forall2 (λ id x, ∃ c, saved_at saved id = Some c ∧ x = WriteControlFrame (ControlFrame id c) true) ids new.

(** [WritePendingRetransmission] sends the lost frames in the order of their loss, until the session refuses one. *)
Lemma write_pending_spec fuel saved acked s :
  Good saved acked s → (length (pending_retransmissions s.1) <= fuel)%nat →
  let s' := write_pending session fuel s in
  Good saved acked s' ∧ ∃ n new, pending_retransmissions s'.1 = drop n (pending_retransmissions s.1)
    ∧ rewritten saved (take n (pending_retransmissions s.1)) new
    ∧ (s'.2 = s.2 ++ new ∧ pending_retransmissions s'.1 = []
       ∨ ∃ f, s'.2 = s.2 ++ new ++ [WriteControlFrame f false]).
Proof.
  revert s. induction fuel as [|fuel IH]; intros [st calls] [HI HL] Hf; cbn [write_pending fst snd] in *.
  { destruct (pending_retransmissions st) eqn:Ep; [|cbn in Hf; lia]. split; [done|]. exists O, []. cbn [fst].
    rewrite ?Ep. split; [done|]. split; [constructor|]. left. by rewrite app_nil_r. }
  unfold HasPendingRetransmission, NextPendingRetransmission. pose proof HI as [HC _].
  destruct (pending_retransmissions st) as [|id ids] eqn:Ep; cbn [negb].
  { split; [done|]. exists O, []. cbn [fst]. rewrite ?Ep. split; [done|]. split; [constructor|]. left. by rewrite app_nil_r. }
  assert (Hin : id ∈ pending_retransmissions st) by (rewrite Ep; left). pose proof (core_pending _ _ _ HC id Hin) as [Hid Hnf].
  pose proof (core_order _ _ _ HC) as Ho. destruct (Z.lt_ge_cases id (least_unacked st)) as [Hlt|Hge].
  { destruct Hnf. apply (core_old _ _ _ HC). lia. }
  destruct (frame_at_spec _ _ _ HC id ltac:(lia)) as (c&Hc&[[-> _]|[_ ?]]); [|done].
  unfold write. cbn [fst snd log CopyRetransmittableControlFrame]. set (ok := session _ _).
  pose proof (log_write _ _ _ id c ok HL Hc ltac:(lia)) as HL2.
  destruct (Z.eqb_spec id (least_unsent st)); [lia|]. rewrite andb_false_r in HL2.
  unfold log. cbn [fst snd]. destruct ok; cbn [negb].
  - destruct (sent_again saved acked st (calls ++ [WriteControlFrame (ControlFrame id c) true]) id c HI Hin Hc)
      as (st'&->&HI'&Hu'&Hp'). pose proof (core_nodup _ _ _ HC) as Hnd. rewrite Ep in Hp', Hnd. rewrite erase_head in Hp' by done.
    destruct (IH (st', calls ++ [WriteControlFrame (ControlFrame id c) true])) as (HG&m&new&Hdrop&Hre&Hend).
    { split; [done|]. cbn [fst snd]. by rewrite Hu'. }
    { cbn [fst]. rewrite Hp'. cbn in Hf. lia. }
    cbn [fst snd] in *. rewrite Hp' in Hdrop, Hre. split; [done|].
    exists (S m), (WriteControlFrame (ControlFrame id c) true :: new). split; [done|]. split.
    + constructor; [by exists c|done].
    + destruct Hend as [[E ?]|[f E]]; [left|right; exists f]; rewrite E; [split; [|done]|]; by rewrite <-app_assoc.
  - split; [done|]. exists O, []. cbn [fst]. rewrite ?Ep. split; [done|]. split; [constructor|]. right. by eexists.
Qed.

Lemma finished_saved saved acked unsent c id :
  unsent <= zlen saved + 1 → finished (saved ++ [c]) acked unsent id ↔ finished saved acked unsent id.
Proof.
  intros Hu. unfold finished, superseded. split; (intros [?|(s&off&j&off'&Hs&Hj&Hs')]; [by left|right]; exists s, off, j, off').
  - rewrite !saved_at_app in * by lia. done.
  - rewrite !saved_at_app by lia. done.
Qed.

Lemma save_spec saved acked s c :
  Good saved acked s → zlen saved + 1 < two32 - 1 → Good (saved ++ [c]) acked (save c s).
Proof.
  destruct s as [st calls]. intros [[HC HU] HL] Hb. pose proof (core_order _ _ _ HC) as Ho. pose proof (core_len _ _ _ HC) as Hl.
  pose proof (core_last _ _ _ HC) as Hlast. unfold save. cbn [fst snd] in *. pose proof (zlen_nonneg saved).
  assert (Hw : wrap32 (last_control_frame_id st + 1) = zlen saved + 1).
  { unfold wrap32. rewrite Hlast. apply Z.mod_small. unfold two32 in *. lia. }
  assert (Hfin : ∀ id, finished (saved ++ [c]) acked (least_unsent st) id ↔ finished saved acked (least_unsent st) id)
    by (intros id; apply finished_saved; lia).
  assert (Hz : zlen (saved ++ [c]) = zlen saved + 1) by (rewrite zlen_app, zlen_cons, zlen_nil; lia).
  split; [split|]; cbn [fst snd least_unsent window_update_frames].
  - eapply core_ext; [intros id; symmetry; apply Hfin|]. destruct HC. constructor; cbn; rewrite ?Hz; try done; try lia.
    + rewrite zlen_app, zlen_cons, zlen_nil. lia.
    + intros k f Hk. apply lookup_app_Some in Hk as [Hk|[Hk1 Hk2]].
      * destruct (core_frames0 k f Hk) as (c'&Hc'&Hf). exists c'. split; [|done]. rewrite saved_at_app; [done|].
        apply saved_at_range in Hc'. lia.
      * apply list_lookup_singleton_Some in Hk2 as [Hk2 <-]. rewrite Hw.
        replace (least_unacked st + Z.of_nat k) with (zlen saved + 1) by (unfold zlen in *; lia).
        exists c. split; [apply saved_at_last|]. left. split; [done|]. intros Hf%core_fin0. lia.
  - intros stream_id id. rewrite HU, Hfin. split; intros (Hr&Hn&off&Hs); (split; [done|split; [done|exists off]]).
    + rewrite saved_at_app; [done|lia].
    + rewrite saved_at_app in Hs; [done|lia].
  - destruct HL as [Hg Hwr Hord]. split; [|done|done]. eapply Forall_impl; [exact Hg|]. intros [|f ok| |]; cbn; try done.
    intros (id&c'&->&Hc'). exists id, c'. split; [done|]. rewrite saved_at_app; [done|]. apply saved_at_range in Hc'. lia.
Qed.

Lemma finished_snoc saved acked unsent id x :
  finished saved (acked ++ [id]) unsent x ↔ finished saved acked unsent x ∨ x = id.
Proof. unfold finished. rewrite elem_of_app, list_elem_of_singleton. tauto. Qed.

Lemma OnControlFrameAcked_spec saved acked s id c :
  Good saved acked s → saved_at saved id = Some c → id < least_unsent s.1 →
  let '(first, s') := OnControlFrameAcked (ControlFrame id c) s in
  Good saved (if first then acked ++ [id] else acked) s' ∧ s'.2 = s.2 ∧ least_unsent s'.1 = least_unsent s.1
  ∧ (first = true ↔ ¬ finished saved acked (least_unsent s.1) id).
Proof.
  destruct s as [st calls]. intros [[HC HU] HL] Hc Hid. cbn [fst snd] in *. pose proof (saved_at_range _ _ _ Hc) as Hr.
  unfold OnControlFrameAcked. cbn [GetControlFrameId].
  destruct (core_dec _ _ _ id HC ltac:(lia)) as [Hf|Hn].
  { rewrite (acked_again _ _ _ _ _ HC Hf). cbn [negb fst snd]. by split. }
  destruct (acked_first _ _ st calls id HC ltac:(lia) Hn) as (st'&->&HC'&Hu'&_&Hm'). cbn [negb fst snd]. rewrite Hm'.
  assert (HC2 : ∀ m, Core saved (finished saved (acked ++ [id]) (least_unsent st)) (with_updates st' m)).
  { intros m. apply core_updates. eapply core_ext; [|exact HC']. intros x. symmetry. apply finished_snoc. }
  assert (Hgo : ∀ st2, Core saved (finished saved (acked ++ [id]) (least_unsent st)) st2 → least_unsent st2 = least_unsent st →
    (∀ s x, window_update_frames st2 !! s = Some x ↔ window_update_frames st !! s = Some x ∧ x ≠ id) →
    Good saved (acked ++ [id]) (st2, calls)).
  { intros st2 H2 Hu2 Hm2. split; [|by cbn [fst snd]; rewrite Hu2]. split; cbn [fst]; rewrite Hu2; [done|].
    intros s x. rewrite Hm2, HU, finished_snoc. tauto. }
  assert (Hplain : (∀ s off, c ≠ WindowUpdate s off) → Good saved (acked ++ [id]) (st', calls)).
  { intros Hc'. apply Hgo; [|done|].
    - eapply core_ext; [|exact HC']. intros x. symmetry. apply finished_snoc.
    - intros s x. rewrite Hm'. split; [|tauto]. intros Hx. split; [done|]. intros ->. apply HU in Hx as (_&_&off&E).
      rewrite Hc in E. injection E as ->. by destruct (Hc' s off). }
  destruct c; try (split; [by apply Hplain|by split]).
  assert (Em : window_update_frames st !! stream_id = Some id) by (apply HU; split; [lia|]; split; [done|by eexists]).
  rewrite bool_decide_eq_true_2 by done. split; [|by split]. apply Hgo; [apply HC2|done|].
  intros s x. cbn. destruct (decide (stream_id = s)) as [->|Hne].
  - rewrite lookup_delete_eq, Em. split; [done|]. intros [[= ->] ?]. done.
  - rewrite lookup_delete_ne by done. split; [|tauto]. intros Hx. split; [done|]. intros ->.
    apply HU in Hx as (_&_&?&?). congruence.
Qed.

Lemma OnControlFrameLost_spec saved acked s id c :
  Good saved acked s → saved_at saved id = Some c → id < least_unsent s.1 →
  let s' := OnControlFrameLost (ControlFrame id c) s in
  Good saved acked s' ∧ s'.2 = s.2
  ∧ (¬ finished saved acked (least_unsent s.1) id → id ∈ pending_retransmissions s'.1)
  ∧ ∃ l, pending_retransmissions s'.1 = pending_retransmissions s.1 ++ l.
Proof.
  destruct s as [st calls]. intros [HI HL] Hc Hid. pose proof HI as [HC HU]. cbn [fst snd] in *. pose proof (saved_at_range _ _ _ Hc) as Hr.
  assert (Hsame : finished saved acked (least_unsent st) id → Good saved acked (st, calls) ∧ calls = calls
    ∧ (¬ finished saved acked (least_unsent st) id → id ∈ pending_retransmissions st)
    ∧ ∃ l, pending_retransmissions st = pending_retransmissions st ++ l).
  { intros Hf. split; [done|]. split; [done|]. split; [done|]. exists []. by rewrite app_nil_r. }
  unfold OnControlFrameLost. cbn [GetControlFrameId fst snd]. unfold kInvalidControlFrameId.
  destruct (Z.eqb_spec id 0); [lia|]. destruct (Z.leb_spec (least_unsent st) id); [lia|].
  destruct (Z.ltb_spec id (least_unacked st)) as [Hlt|Hge]; [apply Hsame, (core_old _ _ _ HC); lia|].
  destruct (frame_at_spec _ _ _ HC id ltac:(lia)) as (c'&Hc'&[[-> Hn]|[-> Hf]]); cbn [GetControlFrameId];
    unfold kInvalidControlFrameId; [|by apply Hsame].
  destruct (Z.eqb_spec id 0); [lia|]. destruct (decide (id ∈ pending_retransmissions st)) as [Hp|Hp].
  - rewrite bool_decide_eq_true_2 by done. split; [done|]. split; [done|]. split; [done|]. exists []. by rewrite app_nil_r.
  - rewrite bool_decide_eq_false_2 by done. cbn. split; [|split; [done|split; [|by exists [id]]]].
    + split; [|done]. split; [|done]. destruct HC. constructor; cbn; try done.
      * apply NoDup_app. split; [done|]. split; [|apply NoDup_singleton]. by intros x Hx ->%list_elem_of_singleton.
      * intros x [Hx| ->%list_elem_of_singleton]%elem_of_app; [by apply core_pending0|]. split; [lia|done].
    + intros _. apply elem_of_app. right. by apply list_elem_of_singleton.
Qed.

Lemma OnCanWrite_good saved acked s :
  Good saved acked s → Good saved acked (OnCanWrite session session_decides_what_to_write s).
Proof.
  intros HG. unfold OnCanWrite. destruct (HasPendingRetransmission s.1).
  - by apply (write_pending_spec _ saved acked s HG).
  - by apply (WriteBufferedFrames_spec saved acked s HG).
Qed.

Lemma RetransmitControlFrame_spec saved acked s id c :
  Good saved acked s → saved_at saved id = Some c → id < least_unsent s.1 →
  let '(ok, s') := RetransmitControlFrame session (ControlFrame id c) s in
  Good saved acked s' ∧ s'.1 = s.1
  ∧ (s'.2 = s.2 ∧ ok = true ∧ finished saved acked (least_unsent s.1) id
     ∨ s'.2 = s.2 ++ [WriteControlFrame (ControlFrame id c) ok] ∧ ¬ finished saved acked (least_unsent s.1) id).
Proof.
  destruct s as [st calls]. intros HG Hc Hid. pose proof HG as [[HC HU] HL]. cbn [fst snd] in *.
  pose proof (saved_at_range _ _ _ Hc) as Hr.
  unfold RetransmitControlFrame. cbn [GetControlFrameId fst snd]. unfold kInvalidControlFrameId.
  destruct (Z.eqb_spec id 0); [lia|]. destruct (Z.leb_spec (least_unsent st) id); [lia|].
  destruct (Z.ltb_spec id (least_unacked st)) as [Hlt|Hge].
  { split; [done|]. split; [done|]. left. split; [done|]. split; [done|]. apply (core_old _ _ _ HC). lia. }
  destruct (frame_at_spec _ _ _ HC id ltac:(lia)) as (c'&Hc'&[[-> Hn]|[-> Hf]]); cbn [GetControlFrameId];
    unfold kInvalidControlFrameId.
  2:{ split; [done|]. split; [done|]. by left. }
  destruct (Z.eqb_spec id 0); [lia|]. unfold write. cbn [fst snd log CopyRetransmittableControlFrame].
  set (ok := session _ _). unfold log. cbn [fst snd]. split; [|split; [done|by right]].
  pose proof (log_write _ _ _ id c ok HL Hc ltac:(lia)) as HL2.
  destruct (Z.eqb_spec id (least_unsent st)); [lia|]. rewrite andb_false_r in HL2. by split.
Qed.

(** The runs: the frames saved so far, in the order of their ids, and the ids acknowledged. Every [WriteOrBuffer]
    operation of the class is [WriteOrBufferQuicFrame] of its frame. *)
Inductive run : list content → list Z → io → Prop :=
  | run_new : run [] [] (new, [])
  | run_save saved acked s c :
      run saved acked s → zlen saved + 1 < two32 - 1 →
      run (saved ++ [c]) acked (WriteOrBufferQuicFrame session session_decides_what_to_write c s)
  | run_ping saved acked s :
      run saved acked s → zlen saved + 1 < two32 - 1 →
      run (if HasBufferedFrames s.1 then saved else saved ++ [Ping]) acked (WritePing session session_decides_what_to_write s)
  | run_acked saved acked s id c :
      run saved acked s → saved_at saved id = Some c → id < least_unsent s.1 →
      run saved (if (OnControlFrameAcked (ControlFrame id c) s).1 then acked ++ [id] else acked)
        (OnControlFrameAcked (ControlFrame id c) s).2
  | run_lost saved acked s id c :
      run saved acked s → saved_at saved id = Some c → id < least_unsent s.1 →
      run saved acked (OnControlFrameLost (ControlFrame id c) s)
  | run_can_write saved acked s :
      run saved acked s → run saved acked (OnCanWrite session session_decides_what_to_write s)
  | run_retransmit saved acked s id c :
      run saved acked s → saved_at saved id = Some c → id < least_unsent s.1 →
      run saved acked (RetransmitControlFrame session (ControlFrame id c) s).2.

Lemma new_good : Good [] [] (new, []).
Proof.
  assert (Hn : ∀ id, ¬ finished [] [] 1 id).
  { intros id [?%elem_of_nil|(s&off&j&off'&Hs&_)]; [done|]. apply saved_at_range in Hs. change (zlen []) with 0 in Hs. lia. }
  split; [split|]; cbn.
  - constructor; cbn; try done; try lia; try (by constructor).
    + intros id ?. by destruct (Hn id).
    + by intros ? ?%elem_of_nil.
  - intros s id. rewrite lookup_empty. split; [done|]. intros [? _]. lia.
  - split; [constructor| |].
    + intros id. split; [lia|]. by intros (c&?%elem_of_nil).
    + intros l1 id c ok l2 E. by destruct l1.
Qed.

Lemma run_good saved acked s : run saved acked s → Good saved acked s.
Proof.
  induction 1 as [|saved acked s c _ IH Hb|saved acked s _ IH Hb|saved acked s id c _ IH Hc Hid|saved acked s id c _ IH Hc Hid
    |saved acked s _ IH|saved acked s id c _ IH Hc Hid].
  - apply new_good.
  - unfold WriteOrBufferQuicFrame. pose proof (save_spec _ _ _ c IH Hb) as Hs. destruct (HasBufferedFrames s.1); [done|].
    by apply (WriteBufferedFrames_spec (saved ++ [c]) acked).
  - unfold WritePing. pose proof (save_spec _ _ _ Ping IH Hb) as Hs. destruct (HasBufferedFrames s.1); [done|].
    by apply (WriteBufferedFrames_spec (saved ++ [Ping]) acked).
  - pose proof (OnControlFrameAcked_spec _ _ _ _ _ IH Hc Hid) as H. destruct (OnControlFrameAcked _ _) as [b s']. by destruct H.
  - by apply (OnControlFrameLost_spec _ _ _ _ _ IH Hc Hid).
  - by apply OnCanWrite_good.
  - pose proof (RetransmitControlFrame_spec _ _ _ _ _ IH Hc Hid) as H. destruct (RetransmitControlFrame _ _ _) as [b s']. by destruct H.
Qed.

(** C32. In every run, whatever the session answers, the manager keeps exactly the control frames that are neither
    acknowledged nor, for a window update, superseded by a later one sent for its stream: those are outstanding, each
    acknowledgement counts once, and the deque starts at the first frame still needed. Frames are written with the content they
    were saved with, and none before all frames saved earlier were written; only frames that are sent and
    outstanding wait for retransmission, each once. The errors of the source for unsent frames and frames out of
    order never happen, nor does an access outside the deque. *)
Theorem control_frames_are_reliable saved acked st calls :
  run saved acked (st, calls) →
  (∀ id c, saved_at saved id = Some c →
     IsControlFrameOutstanding st (ControlFrame id c) = true ↔ id ∉ acked ∧ ¬ superseded saved (least_unsent st) id)
  ∧ (∀ id c, saved_at saved id = Some c → id < least_unsent st →
     (OnControlFrameAcked (ControlFrame id c) (st, calls)).1 = IsControlFrameOutstanding st (ControlFrame id c))
  ∧ ¬ finished saved acked (least_unsent st) (least_unacked st)
  ∧ Forall (good_call saved) calls ∧ in_order calls
  ∧ (∀ id, 1 <= id < least_unsent st ↔ written calls id)
  ∧ NoDup (pending_retransmissions st)
  ∧ (∀ id, id ∈ pending_retransmissions st → written calls id ∧ ¬ finished saved acked (least_unsent st) id).
Proof.
  intros Hrun%run_good. pose proof Hrun as [[HC HU] [Hg Hw Ho]]. cbn [fst snd] in *.
  assert (Hout : ∀ id c, saved_at saved id = Some c →
    IsControlFrameOutstanding st (ControlFrame id c) = true ↔ ¬ finished saved acked (least_unsent st) id)
    by (intros id c; by apply outstanding_spec).
  split; [|split; [|split; [apply (core_head _ _ _ HC)|split; [done|split; [done|split; [done|split]]]]]].
  - intros id c Hc. rewrite Hout by done. unfold finished. tauto.
  - intros id c Hc Hid. pose proof (OnControlFrameAcked_spec _ _ _ _ _ Hrun Hc Hid) as H.
    destruct (OnControlFrameAcked _ _) as [b s']. destruct H as (_&_&_&H). cbn [fst] in *. apply eq_true_iff_eq. by rewrite H, Hout.
  - apply (core_nodup _ _ _ HC).
  - intros id Hp. destruct (core_pending _ _ _ HC id Hp). by rewrite <-Hw.
Qed.

(** Lost frames are sent again. A frame reported lost that is still outstanding waits for retransmission, behind
    those that wait already. [OnCanWrite] then writes the waiting frames, in the order in which they were lost, until the
    session refuses one; what it does not write goes on waiting. With nothing waiting it writes the frames never sent
    until none is left or the session refuses one. *)
Theorem OnCanWrite_sends_what_waits saved acked st calls :
  run saved acked (st, calls) →
  (∀ id c, saved_at saved id = Some c → id < least_unsent st → IsControlFrameOutstanding st (ControlFrame id c) = true →
     id ∈ pending_retransmissions (OnControlFrameLost (ControlFrame id c) (st, calls)).1
     ∧ ∃ l, pending_retransmissions (OnControlFrameLost (ControlFrame id c) (st, calls)).1 = pending_retransmissions st ++ l)
  ∧ let '(st', calls') := OnCanWrite session session_decides_what_to_write (st, calls) in
    if HasPendingRetransmission st
    then ∃ n writes, pending_retransmissions st' = drop n (pending_retransmissions st)
         ∧ rewritten saved (take n (pending_retransmissions st)) writes
         ∧ (calls' = calls ++ writes ∧ pending_retransmissions st' = [] ∨ ∃ f, calls' = calls ++ writes ++ [WriteControlFrame f false])
    else (∃ writes, calls' = calls ++ writes) ∧ (WillingToWrite st' = false ∨ refused calls').
Proof.
  intros Hrun%run_good. split.
  - intros id c Hc Hid Hout. destruct (OnControlFrameLost_spec _ _ _ _ _ Hrun Hc Hid) as (_&_&H1&H2). split; [|done].
    apply H1. by eapply outstanding_spec; [apply (inv_core _ _ _ (proj1 Hrun))|..].
  - unfold OnCanWrite. cbn [fst]. destruct (HasPendingRetransmission st) eqn:Ep.
    + destruct (write_pending_spec (length (pending_retransmissions st)) saved acked (st, calls) Hrun (le_n _)) as (_&n&new&H1&H2&H3).
      unfold WritePendingRetransmission. destruct (write_pending _ _ _) as [st' calls']. by exists n, new.
    + destruct (WriteBufferedFrames_spec saved acked (st, calls) Hrun) as (_&H1&H2&H3).
      destruct (WriteBufferedFrames _ _ _) as [st' calls']. cbn [fst snd] in *. split; [done|].
      destruct H3 as [H3|H3]; [left|by right]. unfold WillingToWrite. rewrite H3, orb_false_r.
      unfold HasPendingRetransmission in *. destruct (pending_retransmissions st') as [|id l]; [done|].
      destruct (pending_retransmissions st); [|done]. specialize (H2 id ltac:(left)). by apply elem_of_nil in H2.
Qed.
End runs.

(** ** Examples *)

(** A session that refuses the third write. *)
Definition ex_session (calls : list call) (f : QuicFrame) : bool := negb (length calls =? 2)%nat.
Definition ex_saved : list content := [WindowUpdate 4 100; Blocked 8; WindowUpdate 4 200].
Definition ex_io : io :=
  let s := WriteOrBufferWindowUpdate ex_session false 4 100 (new, []) in
  let s := WriteOrBufferBlocked ex_session false 8 s in
  let s := WriteOrBufferWindowUpdate ex_session false 4 200 s in
  let s := OnControlFrameLost (ControlFrame 1 (WindowUpdate 4 100)) s in
  OnControlFrameLost (ControlFrame 2 (Blocked 8)) s.

Lemma ex_run : run ex_session false ex_saved [] ex_io.
Proof.
  apply (run_lost _ _ _ _ _ 2 (Blocked 8)); [|done|done]. apply (run_lost _ _ _ _ _ 1 (WindowUpdate 4 100)); [|done|done].
  apply (run_save _ _ [WindowUpdate 4 100; Blocked 8]); [|done]. apply (run_save _ _ [WindowUpdate 4 100]); [|done].
  apply (run_save _ _ []); [|done]. apply run_new.
Qed.

Lemma control_frames_are_reliable_witness :
  let st := ex_io.1 in
  run ex_session false ex_saved [] (st, ex_io.2)
  ∧ map (λ id, IsControlFrameOutstanding st (ControlFrame id Ping)) [1; 2; 3; 4] = [true; true; true; false]
  ∧ NoDup (pending_retransmissions st).
Proof.
  intros st. split; [exact ex_run|]. split; [reflexivity|].
  exact (proj1 (proj2 (proj2 (proj2 (proj2 (proj2 (proj2 (control_frames_are_reliable ex_session false ex_saved [] st ex_io.2 ex_run)))))))).
Defined.

Lemma OnCanWrite_sends_what_waits_witness :
  let '(st', calls') := OnCanWrite ex_session false ex_io in
  pending_retransmissions st' = []
  ∧ drop 3 calls' = [WriteControlFrame (ControlFrame 1 (WindowUpdate 4 100)) true; WriteControlFrame (ControlFrame 2 (Blocked 8)) true]
  ∧ ∃ n, pending_retransmissions st' = drop n (pending_retransmissions ex_io.1).
Proof.
  pose proof (OnCanWrite_sends_what_waits ex_session false ex_saved [] ex_io.1 ex_io.2 ex_run) as [_ H].
  assert (E : HasPendingRetransmission ex_io.1 = true) by reflexivity. rewrite E in H.
  change (ex_io.1, ex_io.2) with ex_io in H.
  assert (E1 : pending_retransmissions (OnCanWrite ex_session false ex_io).1 = []) by reflexivity.
  assert (E2 : drop 3 (OnCanWrite ex_session false ex_io).2
    = [WriteControlFrame (ControlFrame 1 (WindowUpdate 4 100)) true; WriteControlFrame (ControlFrame 2 (Blocked 8)) true]) by reflexivity.
  destruct (OnCanWrite ex_session false ex_io) as [st' calls']. destruct H as (n&_&H&_). split; [done|]. split; [done|]. by exists n.
Defined.

End QuicControlFrameManager.
