(* ===== verification/HttpDecoder.v ===== *)
(** [HttpFrames] (quic/core/http/http_frames.h): the frames of HTTP/3. [HttpDecoder] (quic/core/http/http_decoder.cc): the
    incremental decoder of a stream of frames, against a visitor that may pause it at any point.

    [Http3] says what a stream of frames means, as a function of all its bytes; the decoder reports that however the
    bytes are cut into chunks and wherever the visitor pauses. [error_detail] is left out. *)

From S2P Require Import Prelude Bytes DataWire.

Module HttpFrames.

Inductive HttpFrameType := DATA | HEADERS | PRIORITY | CANCEL_PUSH | SETTINGS | PUSH_PROMISE | GOAWAY | MAX_PUSH_ID | DUPLICATE_PUSH.
Definition frame_type_value (type : HttpFrameType) : Z :=
  match type with
  | DATA => 0 | HEADERS => 1 | PRIORITY => 2 | CANCEL_PUSH => 3 | SETTINGS => 4 | PUSH_PROMISE => 5 | GOAWAY => 7
  | MAX_PUSH_ID => 13 | DUPLICATE_PUSH => 14
  end.

Inductive PriorityElementType := REQUEST_STREAM | PUSH_STREAM | PLACEHOLDER | ROOT_OF_TREE.
#[global] Instance PriorityElementType_eq : EqDecision PriorityElementType.
Proof. solve_decision. Defined.
(** The enumerator of a value of two bits. *)
Definition to_element_type (v : Z) : PriorityElementType :=
  if v =? 0 then REQUEST_STREAM else if v =? 1 then PUSH_STREAM else if v =? 2 then PLACEHOLDER else ROOT_OF_TREE.

Record PriorityFrame := mk_priority {
  prioritized_type : PriorityElementType;
  dependency_type : PriorityElementType;
  exclusive : bool;
  prioritized_element_id : Z;
  element_dependency_id : Z;
  weight : Z;
}.

(** A [std::map] of integers: the pairs in the order of the keys. *)
Abbreviation SettingsMap := (list (Z * Z)).
(** [values[id] = content]. *)
Fixpoint set_value (id content : Z) (values : SettingsMap) : SettingsMap :=
  match values with
  | [] => [(id, content)]
  | (k, v) :: rest =>
      if id <? k then (id, content) :: values
      else if id =? k then (id, content) :: rest else (k, v) :: set_value id content rest
  end.
End HttpFrames.

Module HttpDecoder.
Import HttpFrames.

Inductive HttpDecoderState :=
  STATE_READING_FRAME_LENGTH | STATE_READING_FRAME_TYPE | STATE_READING_FRAME_PAYLOAD | STATE_FINISH_PARSING | STATE_ERROR.
Inductive QuicErrorCode := QUIC_NO_ERROR | QUIC_INTERNAL_ERROR.
#[global] Instance HttpDecoderState_eq : EqDecision HttpDecoderState.
Proof. solve_decision. Defined.

(** The calls to the visitor. [Http3FrameLengths] is the two arguments of the calls at the start of a frame. *)
Inductive event :=
  | OnError
  | OnPriorityFrameStart (header_length payload_length : Z)
  | OnPriorityFrame (frame : PriorityFrame)
  | OnCancelPushFrame (push_id : Z)
  | OnMaxPushIdFrame (push_id : Z)
  | OnGoAwayFrame (stream_id : Z)
  | OnSettingsFrameStart (header_length payload_length : Z)
  | OnSettingsFrame (values : SettingsMap)
  | OnDuplicatePushFrame (push_id : Z)
  | OnDataFrameStart (header_length payload_length : Z)
  | OnDataFramePayload (payload : list Z)
  | OnDataFrameEnd
  | OnHeadersFrameStart (header_length payload_length : Z)
  | OnHeadersFramePayload (payload : list Z)
  | OnHeadersFrameEnd
  | OnPushPromiseFrameStart (push_id : Z)
  | OnPushPromiseFramePayload (payload : list Z)
  | OnPushPromiseFrameEnd.

Definition kPriorityWeightLength : Z := 1.
Definition kPriorityFirstByteLength : Z := 1.
Definition VARIABLE_LENGTH_INTEGER_LENGTH_8 : Z := 8.
Definition sizeof_PushId : Z := 8.
Definition sizeof_QuicStreamId : Z := 4.

(** A field of variable length: its length, 0 before its first byte; how much of it is missing; its bytes so far, in an
    array of eight. *)
Record field := mk_field { field_length : Z; field_remaining : Z; field_buffer : list Z }.

Record t := mk {
  state_ : HttpDecoderState;
  current_frame_type : Z;
  type_field : field;
  length_field : field;
  current_frame_length : Z;
  remaining_frame_length : Z;
  error : QuicErrorCode;
  buffer : list Z;
}.
Definition io : Type := t * list event.

Definition no_field : field := mk_field 0 0 (replicate 8 0).
Definition new : t := mk STATE_READING_FRAME_TYPE 0 no_field no_field 0 0 QUIC_NO_ERROR [].

Definition with_state (d : t) s : t :=
  mk s (current_frame_type d) (type_field d) (length_field d) (current_frame_length d) (remaining_frame_length d) (error d) (buffer d).
Definition with_type (d : t) type f : t :=
  mk (state_ d) type f (length_field d) (current_frame_length d) (remaining_frame_length d) (error d) (buffer d).
Definition with_length (d : t) len f : t :=
  mk (state_ d) (current_frame_type d) (type_field d) f len (remaining_frame_length d) (error d) (buffer d).
Definition with_remaining (d : t) n : t :=
  mk (state_ d) (current_frame_type d) (type_field d) (length_field d) (current_frame_length d) n (error d) (buffer d).
Definition with_buffer (d : t) n b : t :=
  mk (state_ d) (current_frame_type d) (type_field d) (length_field d) (current_frame_length d) n (error d) b.
Definition RaiseError (code : QuicErrorCode) (d : t) : t :=
  mk STATE_ERROR (current_frame_type d) (type_field d) (length_field d) (current_frame_length d) (remaining_frame_length d)
    code (buffer d).
(** A new frame comes next. *)
Definition next_frame (d : t) : t :=
  mk STATE_READING_FRAME_TYPE (current_frame_type d) (mk_field 0 (field_remaining (type_field d)) (field_buffer (type_field d)))
    (mk_field 0 (field_remaining (length_field d)) (field_buffer (length_field d))) (current_frame_length d)
    (remaining_frame_length d) (error d) (buffer d).

Definition MaxFrameLength (frame_type : Z) : Z :=
  match frame_type with
  | 2 => kPriorityFirstByteLength + VARIABLE_LENGTH_INTEGER_LENGTH_8 * 2 + kPriorityWeightLength
  | 3 => sizeof_PushId
  | 4 => 1024 * 1024
  | 7 => sizeof_QuicStreamId
  | 13 => sizeof_PushId
  | 14 => sizeof_PushId
  | _ => two64 - 1
  end.

Definition GetMaskFromNumBits (num_bits : Z) : Z := wrap8 (Z.shiftl 1 num_bits - 1).
Definition ExtractBits (flags num_bits offset : Z) : Z := Z.land (Z.shiftr flags offset) (GetMaskFromNumBits num_bits).

(** A write to memory at an offset. *)
Definition store (offset : Z) (bytes memory : list Z) : list Z :=
  take (Z.to_nat offset) memory ++ bytes ++ drop (Z.to_nat (offset + zlen bytes)) memory.

(** ** Fields *)

(** What [BufferFrameType] and [BufferFrameLength] do, each with its field. *)
Definition buffer_field (r : Reader.t) (f : field) : field * Reader.t :=
  let f := if field_length f =? field_remaining f then mk_field (field_length f) (field_remaining f) (replicate 8 0) else f in
  let bytes_to_read := Z.min (field_remaining f) (Reader.BytesRemaining r) in
  match Reader.ReadBytes bytes_to_read r with
  | (Some bytes, r) =>
      (mk_field (field_length f) (field_remaining f - bytes_to_read)
         (store (field_length f - field_remaining f) bytes (field_buffer f)), r)
  | (None, r) => (mk_field (field_length f) (field_remaining f - bytes_to_read) (field_buffer f), r)
  end.
Definition BufferFrameType (r : Reader.t) (d : t) : t * Reader.t :=
  let '(f, r) := buffer_field r (type_field d) in (with_type d (current_frame_type d) f, r).
Definition BufferFrameLength (r : Reader.t) (d : t) : t * Reader.t :=
  let '(f, r) := buffer_field r (length_field d) in (with_length d (current_frame_length d) f, r).

Definition read_into (old : Z) (r : Reader.t) : Z * Reader.t :=
  match Reader.ReadVarInt62 r with (Some v, r) => (v, r) | (None, r) => (old, r) end.

Definition ReadFrameType (r : Reader.t) (d : t) : t * Reader.t :=
  let f := type_field d in
  if field_length f =? 0 then
    let n := Reader.PeekVarInt62Length r in
    if Reader.BytesRemaining r <? n
    then BufferFrameType r (with_type d (current_frame_type d) (mk_field n n (field_buffer f)))
    else
      let '(type, r) := read_into (current_frame_type d) r in
      (with_state (with_type d type (mk_field n (field_remaining f) (field_buffer f))) STATE_READING_FRAME_LENGTH, r)
  else
    let '(d, r) := BufferFrameType r d in
    let f := type_field d in
    if negb (field_remaining f =? 0) then (d, r) else
    let type_reader := Reader.new (take (Z.to_nat (field_length f)) (field_buffer f)) NETWORK_BYTE_ORDER in
    (with_state (with_type d (read_into (current_frame_type d) type_reader).1 f) STATE_READING_FRAME_LENGTH, r).

Section visitor.
(** Whether the visitor wants to continue, given the calls before. *)
Context (visitor : list event → event → bool).

Definition call (e : event) (s : io) : bool * io := (visitor s.2 e, (s.1, s.2 ++ [e])).
Definition maybe_call (e : option event) (s : io) : bool * io := match e with Some e => call e s | None => (true, s) end.
Definition on_decoder (f : t → t) (s : io) : io := (f s.1, s.2).

(** The visitor is told of a frame whose header was read. *)
Definition start_event (type header_length payload_length : Z) : option event :=
  match type with
  | 0 => Some (OnDataFrameStart header_length payload_length)
  | 1 => Some (OnHeadersFrameStart header_length payload_length)
  | 4 => Some (OnSettingsFrameStart header_length payload_length)
  | 2 => Some (OnPriorityFrameStart header_length payload_length)
  | _ => None
  end.

(** The end of [ReadFrameLength], with the length read. *)
Definition frame_header_read (s : io) : bool * io :=
  let d := s.1 in
  if MaxFrameLength (wrap8 (current_frame_type d)) <? current_frame_length d
  then (false, (RaiseError QUIC_INTERNAL_ERROR d, s.2 ++ [OnError]))
  else
    let '(continue_processing, s) :=
      maybe_call (start_event (current_frame_type d) (field_length (length_field d) + field_length (type_field d))
                    (current_frame_length d)) s in
    (continue_processing,
     on_decoder (λ d, with_state (with_remaining d (current_frame_length d))
       (if current_frame_length d =? 0 then STATE_FINISH_PARSING else STATE_READING_FRAME_PAYLOAD)) s).

Definition ReadFrameLength (r : Reader.t) (s : io) : bool * io * Reader.t :=
  let d := s.1 in let f := length_field d in
  if field_length f =? 0 then
    let n := Reader.PeekVarInt62Length r in
    if Reader.BytesRemaining r <? n
    then let '(d, r) := BufferFrameLength r (with_length d (current_frame_length d) (mk_field n n (field_buffer f))) in
         (true, (d, s.2), r)
    else
      let '(len, r) := read_into (current_frame_length d) r in
      (frame_header_read (with_length d len (mk_field n (field_remaining f) (field_buffer f)), s.2), r)
  else
    let '(d, r) := BufferFrameLength r d in
    let f := length_field d in
    if negb (field_remaining f =? 0) then (true, (d, s.2), r) else
    let length_reader := Reader.new (take (Z.to_nat (field_length f)) (field_buffer f)) NETWORK_BYTE_ORDER in
    (frame_header_read (with_length d (read_into (current_frame_length d) length_reader).1 f, s.2), r).

(** ** Payloads *)

Definition BufferFramePayload (r : Reader.t) (d : t) : t * Reader.t :=
  let remaining := remaining_frame_length d in
  let memory := if current_frame_length d =? remaining then [] else buffer d in
  let bytes_to_read := Z.min remaining (Reader.BytesRemaining r) in
  match Reader.ReadBytes bytes_to_read r with
  | (Some bytes, r) =>
      (with_buffer d (remaining - bytes_to_read) (store (current_frame_length d - remaining) bytes memory), r)
  | (None, r) => (with_buffer d (remaining - bytes_to_read) memory, r)
  end.

Definition DiscardFramePayload (r : Reader.t) (d : t) : t * Reader.t :=
  let bytes_to_read := Z.min (remaining_frame_length d) (Reader.BytesRemaining r) in
  let '(payload, r) := Reader.ReadStringPiece bytes_to_read r in
  let d := with_remaining d (remaining_frame_length d - zlen (default [] payload)) in
  (if remaining_frame_length d =? 0 then next_frame d else d, r).

(** What is there of the payload goes to the visitor. *)
Definition pass_payload (on_payload : list Z → event) (r : Reader.t) (s : io) : bool * io * Reader.t :=
  let bytes_to_read := Z.min (remaining_frame_length s.1) (Reader.BytesRemaining r) in
  let '(payload, r) := Reader.ReadStringPiece bytes_to_read r in
  let payload := default [] payload in
  let '(continue_processing, s) := call (on_payload payload) s in
  (continue_processing, on_decoder (λ d, with_remaining d (remaining_frame_length d - zlen payload)) s, r).

(** The case of PUSH_PROMISE; [None] for the early return. *)
Definition read_push_promise (r : Reader.t) (s : io) : option bool * io * Reader.t :=
  let d := s.1 in
  let payload r s :=
    if Z.min (remaining_frame_length s.1) (Reader.BytesRemaining r) =? 0 then (Some true, s, r)
    else let '(continue_processing, s, r) := pass_payload OnPushPromiseFramePayload r s in (Some continue_processing, s, r) in
  if current_frame_length d =? remaining_frame_length d then
    let bytes_remaining := Reader.BytesRemaining r in
    match Reader.ReadVarInt62 r with
    | (None, r) => (None, on_decoder (RaiseError QUIC_INTERNAL_ERROR) s, r)
    | (Some push_id, r) =>
        let s := on_decoder (λ d, with_remaining d
                   (wrap64 (remaining_frame_length d - (bytes_remaining - Reader.BytesRemaining r)))) s in
        let '(continue_processing, s) := call (OnPushPromiseFrameStart push_id) s in
        if negb continue_processing then (Some false, s, r) else payload r s
    end
  else payload r s.

Definition payload_done (s : io) : io :=
  on_decoder (λ d, if remaining_frame_length d =? 0 then with_state d STATE_FINISH_PARSING else d) s.

Definition ReadFramePayload (r : Reader.t) (s : io) : bool * io * Reader.t :=
  match current_frame_type s.1 with
  | 0 => let '(b, s, r) := pass_payload OnDataFramePayload r s in (b, payload_done s, r)
  | 1 => let '(b, s, r) := pass_payload OnHeadersFramePayload r s in (b, payload_done s, r)
  | 2 | 3 | 4 | 7 | 13 | 14 => let '(d, r) := BufferFramePayload r s.1 in (true, payload_done (d, s.2), r)
  | 5 =>
      match read_push_promise r s with
      | (None, s, r) => (false, s, r)
      | (Some b, s, r) => (b, payload_done s, r)
      end
  | _ => let '(d, r) := DiscardFramePayload r s.1 in (true, (d, s.2), r)
  end.

(** ** Frames buffered whole *)

(** An id that is there unless the type is the root of the tree. *)
Definition read_id (type : PriorityElementType) : Reader.t → option Z * Reader.t := λ r,
  if bool_decide (type = ROOT_OF_TREE) then (Some 0, r) else Reader.ReadVarInt62 r.

(** The first byte of an empty payload is whatever was on the stack; every value of it ends in an error, as 0 does. *)
Definition ParsePriorityFrame (r : Reader.t) : option PriorityFrame :=
  let '(flags, r) := Reader.ReadUInt8 r in
  let flags := default 0 flags in
  let prioritized := to_element_type (ExtractBits flags 2 6) in
  let dependency := to_element_type (ExtractBits flags 2 4) in
  match read_id prioritized r with
  | (Some prioritized_id, r) =>
      match read_id dependency r with
      | (Some dependency_id, r) =>
          match Reader.ReadUInt8 r with
          | (Some weight, _) => Some (mk_priority prioritized dependency (flags mod 2 =? 1) prioritized_id dependency_id weight)
          | (None, _) => None
          end
      | (None, _) => None
      end
  | (None, _) => None
  end.

Fixpoint settings_loop (fuel : nat) (r : Reader.t) (values : SettingsMap) : option SettingsMap :=
  match fuel with
  | O => Some values
  | S fuel =>
      if Reader.IsDoneReading r then Some values else
      match Reader.ReadVarInt62 r with
      | (Some id, r) =>
          match Reader.ReadVarInt62 r with
          | (Some content, r) => settings_loop fuel r (set_value id content values)
          | (None, _) => None
          end
      | (None, _) => None
      end
  end.
(** Each round reads two bytes at least. *)
Definition ParseSettingsFrame (r : Reader.t) : option SettingsMap :=
  settings_loop (Z.to_nat (Reader.BytesRemaining r)) r [].

(** The last call about a frame with this payload; no call for unknown frames. [None]: it cannot be parsed. *)
Definition end_of_frame (type : Z) (payload : list Z) : option (option event) :=
  let reader := Reader.new payload NETWORK_BYTE_ORDER in
  let id := (Reader.ReadVarInt62 reader).1 in
  match type with
  | 0 => Some (Some OnDataFrameEnd)
  | 1 => Some (Some OnHeadersFrameEnd)
  | 2 => Some ∘ OnPriorityFrame <$> ParsePriorityFrame reader
  | 3 => Some ∘ OnCancelPushFrame <$> id
  | 4 => Some ∘ OnSettingsFrame <$> ParseSettingsFrame reader
  | 5 => Some (Some OnPushPromiseFrameEnd)
  | 7 => Some ∘ OnGoAwayFrame ∘ wrap32 <$> id
  | 13 => Some ∘ OnMaxPushIdFrame <$> id
  | 14 => Some ∘ OnDuplicatePushFrame <$> id
  | _ => Some None
  end.

Definition FinishParsing (s : io) : bool * io :=
  let d := s.1 in
  match end_of_frame (current_frame_type d) (take (Z.to_nat (current_frame_length d)) (buffer d)) with
  | None => (false, on_decoder (RaiseError QUIC_INTERNAL_ERROR) s)
  | Some e =>
      let '(continue_processing, s) := maybe_call e s in
      (continue_processing, on_decoder next_frame s)
  end.

(** ** The loop *)

Definition process_step (r : Reader.t) (s : io) : bool * io * Reader.t :=
  match state_ s.1 with
  | STATE_READING_FRAME_TYPE => let '(d, r) := ReadFrameType r s.1 in (true, (d, s.2), r)
  | STATE_READING_FRAME_LENGTH => ReadFrameLength r s
  | STATE_READING_FRAME_PAYLOAD => ReadFramePayload r s
  | STATE_FINISH_PARSING => (FinishParsing s, r)
  | STATE_ERROR => (true, s, r)
  end.

(** [None]: the fuel ran out. *)
Fixpoint process (fuel : nat) (r : Reader.t) (s : io) : option (io * Reader.t) :=
  if (Reader.BytesRemaining r =? 0) && negb (bool_decide (state_ s.1 = STATE_FINISH_PARSING)) then Some (s, r) else
  match fuel with
  | O => None
  | S fuel =>
      let '(continue_processing, s, r) := process_step r s in
      if continue_processing then process fuel r s else Some (s, r)
  end.

(** Every round reads a byte or finishes a frame. *)
Definition ProcessInput (data : list Z) (s : io) : option (Z * io) :=
  match process (2 * length data + 2) (Reader.new data NETWORK_BYTE_ORDER) s with
  | Some (s, r) => Some (zlen data - Reader.BytesRemaining r, s)
  | None => None
  end.
End visitor.
End HttpDecoder.

(** ** The meaning of a stream of frames *)

Module Http3.
Import HttpFrames.
Import HttpDecoder.

(** The length of a variable-length integer: the two high bits of its first byte. *)
Definition announced (b : Z) : Z := 2 ^ (b / 64 mod 4).
(** The first integer of a string and what follows it, if it is there whole. *)
Definition varint (bs : list Z) : option (Z * list Z) :=
  match bs with
  | [] => None
  | b :: _ =>
      let n := announced b in
      if n <=? zlen bs then Some (be_val (take (Z.to_nat n) bs) mod 2 ^ (8 * n - 2), drop (Z.to_nat n) bs) else None
  end.

(** What is to be heard of a stream: calls to the visitor, the payloads of DATA, HEADERS and PUSH_PROMISE byte by byte.
    After [Broken] nothing more is decoded. The two other items are no calls: one marks a push id that is due, the other
    one that does not fit into its frame. *)
Inductive item := Event (e : event) | PushPromiseBegins | Broken | Overrun.

Definition each (f : list Z → event) (bs : list Z) : list item := map (λ b, Event (f [b])) bs.
Definition option_event (e : option event) : list item := match e with Some e => [Event e] | None => [] end.

(** The items of a header of [header_length] bytes. *)
Definition begins (type len header_length : Z) : list item :=
  option_event (start_event type header_length len)
  ++ if (type =? 5) && negb (len =? 0) then [PushPromiseBegins] else [].

(** The items of the payload, as far as it is there. *)
Definition body (type len : Z) (p : list Z) : list item :=
  match type with
  | 0 => each OnDataFramePayload p
  | 1 => each OnHeadersFramePayload p
  | 5 =>
      match p with
      | [] => []
      | b :: _ =>
          if len <? announced b then [Overrun] else
          match varint p with
          | Some (push_id, headers) => Event (OnPushPromiseFrameStart push_id) :: each OnPushPromiseFramePayload headers
          | None => []
          end
      end
  | _ => []
  end.

(** One frame and then [next] of what follows. *)
Definition frame (next : list Z → list item) (bs : list Z) : list item :=
  match varint bs with
  | None => []
  | Some (type, bs1) =>
      match varint bs1 with
      | None => []
      | Some (len, bs2) =>
          if MaxFrameLength (wrap8 type) <? len then [Event OnError; Broken] else
          let p := take (Z.to_nat len) bs2 in
          begins type len (zlen bs - zlen bs2) ++ body type len p
          ++ if zlen bs2 <? len then [] else
             match end_of_frame type p with
             | None => [Broken]
             | Some e => option_event e ++ next (drop (Z.to_nat len) bs2)
             end
      end
  end.
Fixpoint frames (fuel : nat) (bs : list Z) : list item :=
  match fuel with O => [] | S fuel => frame (frames fuel) bs end.
(** A frame has two bytes at least. *)
Definition messages (bs : list Z) : list item := frames (length bs) bs.

(** The calls, whatever the pieces in which payloads came. *)
Definition pieces (e : event) : list event :=
  match e with
  | OnDataFramePayload p => map (λ b, OnDataFramePayload [b]) p
  | OnHeadersFramePayload p => map (λ b, OnHeadersFramePayload [b]) p
  | OnPushPromiseFramePayload p => map (λ b, OnPushPromiseFramePayload [b]) p
  | e => [e]
  end.
Definition heard (l : list event) : list item := Event <$> (l ≫= pieces).
Definition is_call (i : item) : bool := match i with PushPromiseBegins => false | _ => true end.
Definition calls (l : list item) : list item := List.filter is_call l.

Lemma heard_app l k : heard (l ++ k) = heard l ++ heard k.
Proof. unfold heard. by rewrite bind_app, fmap_app. Qed.

Lemma calls_app l k : calls (l ++ k) = calls l ++ calls k.
Proof. apply List.filter_app. Qed.

(** *** Integers *)

Lemma announced_len b : WriterSpec.is_varint_len (announced b).
Proof.
  unfold announced. pose proof (Z.mod_pos_bound (b / 64) 4 ltac:(lia)). set (m := b / 64 mod 4) in *.
  assert (m = 0 ∨ m = 1 ∨ m = 2 ∨ m = 3) as [-> | [-> | [-> | ->]]] by lia; vm_compute; tauto.
Qed.

Lemma announced_spec b : is_byte b → announced b = Z.shiftl 1 (Z.shiftr (Z.land b 192) 6).
Proof.
  intros Hb. destruct (ReaderSpec.land_192 b Hb) as [E _]. unfold announced. rewrite E, shiftr_div by lia.
  change (2 ^ 6) with 64. rewrite Z.div_mul by lia.
  assert (0 <= b / 64 < 4) by (Z.to_euclidean_division_equations; lia). rewrite Z.mod_small by done.
  assert (b / 64 = 0 ∨ b / 64 = 1 ∨ b / 64 = 2 ∨ b / 64 = 3) as [-> | [-> | [-> | ->]]] by lia; done.
Qed.

Lemma varint_len_pos n : WriterSpec.is_varint_len n → 1 <= n <= 8.
Proof. unfold WriterSpec.is_varint_len. lia. Qed.

Lemma varint_encoding n v k :
  WriterSpec.is_varint_len n → 0 <= v < WriterSpec.varint_limit n → varint (WriterSpec.varint_bytes n v ++ k) = Some (v, k).
Proof.
  intros Hn Hv. destruct (ReaderSpec.varint_bytes_prefix n v Hn Hv) as (b&l&E&Hb&Hl&Hll&Hp&_).
  assert (Ha : announced b = n) by (unfold announced; rewrite Hp; destruct Hn as [-> | [-> | [-> | ->]]]; done).
  pose proof (WriterSpec.varint_bytes_length n v Hn) as Hlen.
  assert (Hnat : length (WriterSpec.varint_bytes n v) = Z.to_nat n) by (unfold zlen in Hlen; lia).
  assert (Hcut : take (Z.to_nat n) (WriterSpec.varint_bytes n v ++ k) = WriterSpec.varint_bytes n v
                 ∧ drop (Z.to_nat n) (WriterSpec.varint_bytes n v ++ k) = k) by (by rewrite <-Hnat, take_app_length, drop_app_length).
  assert (Hle : n <= zlen (WriterSpec.varint_bytes n v ++ k)) by (rewrite zlen_app; pose proof (zlen_nonneg k); lia).
  revert Hcut Hle. rewrite E at 2 4. cbn [app]. intros [Hcut1 Hcut2] Hle. unfold varint. rewrite E in *. cbn [app] in *.
  rewrite Ha. destruct (Z.leb_spec n (zlen (b :: l ++ k))); [|lia]. rewrite Hcut1, Hcut2, <-E.
  do 2 f_equal. unfold WriterSpec.varint_bytes, WriterSpec.varint_limit in *.
  rewrite be_val_bytes; [rewrite Z.add_comm, Z.mod_add by (destruct Hn as [-> | [-> | [-> | ->]]]; done); by apply Z.mod_small|].
  unfold WriterSpec.varint_prefix, pow256. destruct Hn as [-> | [-> | [-> | ->]]]; cbn [Z.eqb Pos.eqb]; ground_pow; lia.
Qed.

Definition readable (r : Reader.t) : Prop := ReaderSpec.wf r ∧ bytes (Reader.data r).

Lemma readable_new bs e : bytes bs → readable (Reader.new bs e).
Proof. intros H. split; [apply ReaderSpec.reader_new_wf|done]. Qed.

Lemma readable_rest r : readable r → bytes (ReaderSpec.rest r) ∧ zlen (ReaderSpec.rest r) = Reader.BytesRemaining r.
Proof. intros [Hw Hb]. split; [by apply ReaderSpec.rest_bytes|by apply ReaderSpec.rest_length]. Qed.

(** The reader after [n] more bytes. *)
Lemma readable_skip r n :
  readable r → 0 <= n <= Reader.BytesRemaining r →
  readable (Reader.skip n r) ∧ ReaderSpec.rest (Reader.skip n r) = drop (Z.to_nat n) (ReaderSpec.rest r)
  ∧ Reader.at_pos n r = take (Z.to_nat n) (ReaderSpec.rest r)
  ∧ Reader.BytesRemaining (Reader.skip n r) = Reader.BytesRemaining r - n.
Proof.
  intros Hr Hn. pose proof Hr as [Hw Hb]. pose proof (readable_rest r Hr) as [_ Hl].
  destruct (ReaderSpec.reader_skip_spec r (take (Z.to_nat n) (ReaderSpec.rest r)) (drop (Z.to_nat n) (ReaderSpec.rest r)) Hw)
    as (_&Ha&Hs&Hk&_); [by rewrite take_drop|].
  assert (E : zlen (take (Z.to_nat n) (ReaderSpec.rest r)) = n) by (unfold zlen in *; rewrite length_take; lia).
  rewrite E in *. split; [by split|]. split; [done|]. split; [done|]. unfold Reader.BytesRemaining, Reader.skip in *. cbn in *. lia.
Qed.

Lemma read_piece r n :
  readable r → 0 <= n <= Reader.BytesRemaining r →
  Reader.ReadBytes n r = (Some (take (Z.to_nat n) (ReaderSpec.rest r)), Reader.skip n r)
  ∧ Reader.ReadStringPiece n r = (Some (take (Z.to_nat n) (ReaderSpec.rest r)), Reader.skip n r).
Proof.
  intros Hr Hn. destruct (readable_skip r n Hr Hn) as (_&_&Ha&_). unfold Reader.ReadBytes, Reader.ReadStringPiece, Reader.CanRead.
  unfold Reader.BytesRemaining in Hn. destruct (Z.leb_spec n (Reader.len r - Reader.pos r)); [|lia]. by rewrite Ha.
Qed.

Lemma peek_of_first r :
  readable r → Reader.PeekVarInt62Length r = match ReaderSpec.rest r with [] => 0 | b :: _ => announced b end.
Proof.
  intros Hr. pose proof Hr as [Hw _]. pose proof (readable_rest r Hr) as [Hb Hl]. unfold Reader.PeekVarInt62Length.
  destruct (ReaderSpec.rest r) as [|b l] eqn:E.
  - rewrite zlen_nil in Hl. rewrite <-Hl. done.
  - rewrite zlen_cons in Hl. pose proof (zlen_nonneg l). destruct (Z.eqb_spec (Reader.BytesRemaining r) 0); [lia|].
    rewrite (ReaderSpec.next_rest r [b] l 0) by done. cbn [nth Z.to_nat]. apply Forall_cons in Hb as [Hb _].
    by rewrite announced_spec.
Qed.

(** [ReadVarInt62] is [varint]. *)
Lemma read_varint r :
  readable r →
  match varint (ReaderSpec.rest r) with
  | Some (v, k) =>
      ∃ n, Reader.ReadVarInt62 r = (Some v, Reader.skip n r) ∧ 1 <= n <= 8 ∧ n <= Reader.BytesRemaining r
        ∧ ReaderSpec.rest (Reader.skip n r) = k ∧ 0 <= v < 2 ^ 62 ∧ n = Reader.PeekVarInt62Length r
  | None => Reader.ReadVarInt62 r = (None, r)
  end.
Proof.
  intros Hr. pose proof Hr as [Hw Hd]. pose proof (readable_rest r Hr) as [Hb Hl].
  pose proof (ReaderSpec.ReadVarInt62_any r Hw Hd) as Ha. cbv zeta in Ha. set (n := Reader.PeekVarInt62Length r) in *.
  pose proof (peek_of_first r Hr) as Hp. fold n in Hp.
  destruct ((n =? 0) || (Reader.BytesRemaining r <? n)) eqn:En.
  - destruct (ReaderSpec.rest r) as [|b l]; cbn [varint]; [done|]. rewrite <-Hp.
    pose proof (varint_len_pos _ (announced_len b)) as Hn. rewrite <-Hp in Hn.
    destruct (Z.leb_spec n (zlen (b :: l))); [|done]. lia.
  - apply orb_false_iff in En as [En1 En2]. destruct Ha as (Hn&v&Hv&E&Hrest). rewrite Hrest.
    rewrite varint_encoding by done. exists n. pose proof (varint_len_pos n Hn). split; [done|]. split; [done|]. split; [lia|].
    split; [done|]. split; [|done]. unfold WriterSpec.varint_limit in Hv. destruct Hn as [-> | [-> | [-> | ->]]]; ground_pow; lia.
Qed.

Lemma varint_some bs v k :
  varint bs = Some (v, k) →
  ∃ n, 1 <= n <= 8 ∧ zlen bs = n + zlen k ∧ bs = take (Z.to_nat n) bs ++ k ∧ 0 <= v < 2 ^ 62
    ∧ ∀ x, varint (take (Z.to_nat n) bs ++ x) = Some (v, x).
Proof.
  unfold varint. destruct bs as [|b bs]; [done|]. set (n := announced b). pose proof (varint_len_pos _ (announced_len b)) as Hn. fold n in Hn.
  destruct (Z.leb_spec n (zlen (b :: bs))) as [Hle|]; [|done]. intros [= Ev Ek]. exists n.
  set (l := take (Z.to_nat n) (b :: bs)) in *.
  assert (Hl : length l = Z.to_nat n) by (unfold l, zlen in *; rewrite length_take; lia).
  split; [done|]. split; [rewrite <-Ek; unfold zlen in *; rewrite length_drop; lia|]. split; [unfold l; by rewrite <-Ek, take_drop|].
  split.
  - rewrite <-Ev. assert (0 <= 8 * n - 2 <= 62) by lia.
    pose proof (Z.mod_pos_bound (be_val l) (2 ^ (8 * n - 2)) ltac:(apply Z.pow_pos_nonneg; lia)).
    pose proof (Z.pow_le_mono_r 2 (8 * n - 2) 62). lia.
  - intros x. assert (El : l = b :: take (Z.to_nat n - 1) bs) by (unfold l; destruct (Z.to_nat n) as [|m] eqn:?; [lia|cbn; by rewrite Nat.sub_0_r]).
    rewrite El in *. cbn [app]. fold n. rewrite (app_comm_cons _ x b).
    rewrite take_app_length', drop_app_length' by (by rewrite Hl).
    destruct (Z.leb_spec n (zlen ((b :: take (Z.to_nat n - 1) bs) ++ x))); [by rewrite Ev|].
    rewrite zlen_app in *. unfold zlen in *. lia.
Qed.

Lemma varint_app bs v k x : varint bs = Some (v, k) → varint (bs ++ x) = Some (v, k ++ x).
Proof. intros (n&_&_&E&_&H)%varint_some. rewrite E, <-app_assoc. apply H. Qed.

Lemma varint_none b bs : varint (b :: bs) = None ↔ zlen (b :: bs) < announced b.
Proof. unfold varint. destruct (Z.leb_spec (announced b) (zlen (b :: bs))); split; intros; done || lia. Qed.

Lemma varint_shorter bs v k : varint bs = Some (v, k) → (length k < length bs)%nat.
Proof. intros (n&?&E&_)%varint_some. unfold zlen in *. lia. Qed.

Lemma varint_exact b l v : varint (b :: l) = Some (v, []) → zlen (b :: l) = announced b.
Proof.
  unfold varint. destruct (Z.leb_spec (announced b) (zlen (b :: l))) as [Hle|]; [|done]. intros [= _ Hd]. apply (f_equal length) in Hd.
  rewrite length_drop in Hd. pose proof (varint_len_pos _ (announced_len b)). unfold zlen in *. cbn [length] in *. lia.
Qed.

Lemma read_varint_piece r :
  readable r →
  match varint (ReaderSpec.rest r) with
  | Some (v, k) =>
      ∃ x r', Reader.ReadVarInt62 r = (Some v, r') ∧ readable r' ∧ ReaderSpec.rest r = x ++ k ∧ x ≠ [] ∧ varint x = Some (v, [])
        ∧ Reader.BytesRemaining r - Reader.BytesRemaining r' = zlen x ∧ ReaderSpec.rest r' = k
  | None => Reader.ReadVarInt62 r = (None, r)
  end.
Proof.
  intros Hr. pose proof (read_varint r Hr) as Hv. destruct (varint (ReaderSpec.rest r)) as [[v k]|] eqn:Ev; [|done].
  destruct Hv as (n&E&Hn&Hle&Hk&_&_). destruct (readable_skip r n Hr ltac:(lia)) as (R1&R2&_&R4).
  pose proof (readable_rest r Hr) as [_ Hl]. destruct (varint_some _ _ _ Ev) as (m&?&Hm&Ex&_&Hx).
  assert (n = m) as <- by (rewrite <-Hk, R2 in Hm; unfold zlen in *; rewrite length_drop in Hm; lia).
  set (x := take (Z.to_nat n) (ReaderSpec.rest r)) in *. exists x, (Reader.skip n r).
  assert (Hxl : zlen x = n) by (rewrite Ex, zlen_app in Hm; lia).
  split; [done|]. split; [done|]. split; [done|]. split; [intros E0; rewrite E0, zlen_nil in Hxl; lia|].
  split; [rewrite <-(app_nil_r x); apply Hx|]. split; [lia|done].
Qed.

Lemma rest_pos r : ReaderSpec.rest r ≠ [] → 0 < zlen (ReaderSpec.rest r).
Proof. destruct (ReaderSpec.rest r) as [|b l]; [done|]. rewrite zlen_cons. pose proof (zlen_nonneg l). lia. Qed.

(** *** One frame at a time *)

Lemma frame_ext f g bs : (∀ k, (length k < length bs)%nat → f k = g k) → frame f bs = frame g bs.
Proof.
  intros H. unfold frame. destruct (varint bs) as [[type bs1]|] eqn:E1; [|done].
  destruct (varint bs1) as [[len bs2]|] eqn:E2; [|done]. apply varint_shorter in E1, E2.
  rewrite (H (drop (Z.to_nat len) bs2)); [done|]. rewrite length_drop. lia.
Qed.

Lemma frames_enough n m bs : (length bs <= n)%nat → (length bs <= m)%nat → frames n bs = frames m bs.
Proof.
  revert m bs. induction n as [|n IH]; intros m bs Hn Hm.
  - destruct bs; [|cbn in *; lia]. by destruct m.
  - destruct m as [|m]; [destruct bs; [done|cbn in *; lia]|]. cbn [frames]. apply frame_ext. intros k Hk. apply IH; lia.
Qed.

Lemma messages_frame bs : messages bs = frame messages bs.
Proof.
  unfold messages at 1. rewrite (frames_enough _ (S (length bs))) by lia. cbn [frames]. apply frame_ext.
  intros k Hk. unfold messages. apply frames_enough; lia.
Qed.

(** The bytes of a whole frame. *)
Definition header (type len : Z) (h : list Z) : Prop := ∃ l, varint h = Some (type, l) ∧ varint l = Some (len, []).

Lemma header_app type len h x :
  header type len h → ∃ l, varint (h ++ x) = Some (type, l ++ x) ∧ varint (l ++ x) = Some (len, x) ∧ 0 <= type < 2 ^ 62 ∧ 0 <= len < 2 ^ 62.
Proof.
  intros (l&H1&H2). exists l. split; [by apply varint_app|]. split; [by apply (varint_app _ _ [])|].
  destruct (varint_some _ _ _ H1) as (_&_&_&_&?&_), (varint_some _ _ _ H2) as (_&_&_&_&?&_). done.
Qed.

(** What is heard when a header and a part of the payload are there. *)
Lemma messages_payload type len h p :
  header type len h → MaxFrameLength (wrap8 type) >= len → zlen p < len →
  messages (h ++ p) = begins type len (zlen h) ++ body type len p.
Proof.
  intros Hh Hm Hp. destruct (header_app type len h p Hh) as (l&E1&E2&_&_). rewrite messages_frame. unfold frame. rewrite E1, E2.
  destruct (Z.ltb_spec (MaxFrameLength (wrap8 type)) len); [lia|]. destruct (Z.ltb_spec (zlen p) len); [|lia].
  rewrite zlen_app, app_nil_r. rewrite take_ge by (unfold zlen in *; lia). do 2 f_equal. lia.
Qed.

Lemma messages_whole type len h p x :
  header type len h → MaxFrameLength (wrap8 type) >= len → zlen p = len →
  messages (h ++ p ++ x) = begins type len (zlen h) ++ body type len p ++
    match end_of_frame type p with None => [Broken] | Some e => option_event e ++ messages x end.
Proof.
  intros Hh Hm Hp. destruct (header_app type len h (p ++ x) Hh) as (l&E1&E2&_&_). rewrite messages_frame. unfold frame. rewrite E1, E2.
  destruct (Z.ltb_spec (MaxFrameLength (wrap8 type)) len); [lia|].
  rewrite zlen_app. pose proof (zlen_nonneg x). destruct (Z.ltb_spec (zlen (p ++ x)) len); [rewrite zlen_app in *; lia|].
  rewrite take_app_length', drop_app_length' by (unfold zlen in *; lia). do 2 f_equal. lia.
Qed.

Lemma messages_too_large type len h x :
  header type len h → MaxFrameLength (wrap8 type) < len → messages (h ++ x) = [Event OnError; Broken].
Proof.
  intros Hh Hm. destruct (header_app type len h x Hh) as (l&E1&E2&_&_). rewrite messages_frame. unfold frame. rewrite E1, E2.
  by destruct (Z.ltb_spec (MaxFrameLength (wrap8 type)) len); [|lia].
Qed.

Lemma messages_header_cut bs : varint bs = None ∨ (∃ type l, varint bs = Some (type, l) ∧ varint l = None) → messages bs = [].
Proof. rewrite messages_frame. unfold frame. intros [->|(type&l&->&->)]; done. Qed.

(** More bytes never take back what was heard. *)
Lemma body_app type len p x : body type len p `prefix_of` body type len (p ++ x).
Proof.
  assert (Heach : ∀ f, each f p `prefix_of` each f (p ++ x)) by (intros f; unfold each; rewrite map_app; by eexists).
  unfold body. destruct type as [|[[[]|[]|]|[[]|[]|]|]|]; try apply prefix_nil; try apply Heach.
  destruct p as [|b p]; [apply prefix_nil|]. cbn [app]. destruct (len <? announced b); [done|].
  destruct (varint (b :: p)) as [[id h]|] eqn:E; [|apply prefix_nil]. apply (varint_app _ _ _ x) in E. cbn [app] in E. rewrite E.
  apply prefix_cons. unfold each. rewrite map_app. by eexists.
Qed.

Lemma messages_app bs x : messages bs `prefix_of` messages (bs ++ x).
Proof.
  remember (length bs) as n eqn:Hn. revert bs Hn. induction (lt_wf n) as [n _ IH]. intros bs ->. rewrite (messages_frame bs).
  unfold frame. destruct (varint bs) as [[type l]|] eqn:E1; [|apply prefix_nil]. destruct (varint l) as [[len p]|] eqn:E2; [|apply prefix_nil].
  rewrite (messages_frame (bs ++ x)). unfold frame. rewrite (varint_app _ _ _ x E1), (varint_app _ _ _ x E2).
  apply varint_shorter in E1, E2. destruct (MaxFrameLength (wrap8 type) <? len); [done|].
  rewrite !zlen_app. replace (zlen bs + zlen x - (zlen p + zlen x)) with (zlen bs - zlen p) by lia. apply prefix_app.
  destruct (Z.ltb_spec (zlen p) len).
  - rewrite app_nil_r. rewrite (take_ge p) by (unfold zlen in *; lia). apply (prefix_app_r _ _ _). rewrite take_app_ge by (unfold zlen in *; lia).
    apply body_app.
  - pose proof (zlen_nonneg x). destruct (Z.ltb_spec (zlen p + zlen x) len); [lia|]. rewrite take_app_le by (unfold zlen in *; lia). apply prefix_app.
    destruct (end_of_frame _ _); [|done]. apply prefix_app. rewrite drop_app_le by (unfold zlen in *; lia).
    apply (IH (length (drop (Z.to_nat len) p))); [|done]. rewrite length_drop. lia.
Qed.

(** *** Fields in pieces *)

Lemma store_spec off x (m : list Z) :
  0 <= off → off + zlen x <= zlen m →
  length (store off x m) = length m ∧ take (Z.to_nat (off + zlen x)) (store off x m) = take (Z.to_nat off) m ++ x.
Proof.
  intros H1 H2. unfold store, zlen in *. split; [rewrite !length_app, length_take, length_drop; lia|].
  rewrite app_assoc. apply take_app_length'. rewrite length_app, length_take. lia.
Qed.

(** The field has the first bytes [cur] of an integer, not all of it. *)
Definition partial (f : field) (cur : list Z) : Prop :=
  ∃ b, head cur = Some b ∧ field_length f = announced b ∧ zlen cur < field_length f
  ∧ field_remaining f = field_length f - zlen cur ∧ length (field_buffer f) = 8%nat ∧ take (length cur) (field_buffer f) = cur
  ∧ bytes cur.

Lemma buffer_field_spec r f cur :
  readable r → WriterSpec.is_varint_len (field_length f) → zlen cur < field_length f →
  field_remaining f = field_length f - zlen cur →
  (cur = [] ∨ length (field_buffer f) = 8%nat ∧ take (length cur) (field_buffer f) = cur) →
  let x := take (Z.to_nat (field_length f - zlen cur)) (ReaderSpec.rest r) in
  let '(f', r') := buffer_field r f in
  readable r' ∧ ReaderSpec.rest r = x ++ ReaderSpec.rest r' ∧ field_length f' = field_length f ∧ length (field_buffer f') = 8%nat
  ∧ take (length (cur ++ x)) (field_buffer f') = cur ++ x ∧ field_remaining f' = field_length f - zlen (cur ++ x).
Proof.
  intros Hr Hn Hcur Hrem Hbuf. cbv zeta. apply varint_len_pos in Hn. pose proof (zlen_nonneg cur). pose proof (readable_rest r Hr) as [_ Hl].
  unfold buffer_field. set (f1 := if _ : bool then _ else f).
  assert (Hf : field_length f1 = field_length f ∧ field_remaining f1 = field_remaining f ∧ length (field_buffer f1) = 8%nat
    ∧ take (length cur) (field_buffer f1) = cur).
  { subst f1. destruct (Z.eqb_spec (field_length f) (field_remaining f)) as [E|E]; cbn.
    - assert (length cur = 0%nat) by (unfold zlen in *; lia). by destruct cur.
    - destruct Hbuf as [->|Hbuf]; [rewrite zlen_nil in Hrem; lia|done]. }
  destruct Hf as (E1&E2&E3&E4). clearbody f1. set (n := Z.min (field_remaining f1) (Reader.BytesRemaining r)).
  assert (Hrange : 0 <= n <= Reader.BytesRemaining r) by (pose proof (zlen_nonneg (ReaderSpec.rest r)); lia).
  destruct (read_piece r n Hr Hrange) as [-> _]. destruct (readable_skip r n Hr Hrange) as (H1&H2&_&_).
  set (x := take (Z.to_nat (field_length f - zlen cur)) (ReaderSpec.rest r)).
  assert (Ex : take (Z.to_nat n) (ReaderSpec.rest r) = x ∧ drop (Z.to_nat n) (ReaderSpec.rest r) = drop (Z.to_nat (field_length f - zlen cur)) (ReaderSpec.rest r)
    ∧ zlen x = n).
  { subst n x. rewrite E2, Hrem. unfold zlen in *. rewrite length_take.
    destruct (Z.min_spec (field_length f - Z.of_nat (length cur)) (Reader.BytesRemaining r)) as [[? ->]|[? ->]];
      [split; [done|]; split; [done|lia]|]. rewrite !take_ge, !drop_ge by lia. split; [done|]. split; [done|lia]. }
  destruct Ex as (Ex1&Ex2&Ex3). rewrite Ex1. cbn [field_length field_remaining field_buffer].
  split; [done|]. split; [rewrite H2, Ex2; symmetry; apply take_drop|]. split; [done|].
  replace (field_length f1 - field_remaining f1) with (zlen cur) by lia.
  destruct (store_spec (zlen cur) x (field_buffer f1)) as [S1 S2]; [done|unfold zlen in *; lia|].
  split; [by rewrite S1|]. rewrite !zlen_app. split; [|lia].
  replace (length (cur ++ x)) with (Z.to_nat (zlen cur + zlen x)) by (rewrite length_app; unfold zlen; lia).
  rewrite S2. by replace (Z.to_nat (zlen cur)) with (length cur) by (unfold zlen; lia); rewrite E4.
Qed.

(** The common part of [ReadFrameType] and [ReadFrameLength]. *)
Definition read_field (r : Reader.t) (f : field) (old : Z) : option Z * field * Reader.t :=
  if field_length f =? 0 then
    let n := Reader.PeekVarInt62Length r in
    if Reader.BytesRemaining r <? n
    then let '(f, r) := buffer_field r (mk_field n n (field_buffer f)) in (None, f, r)
    else let '(v, r) := read_into old r in (Some v, mk_field n (field_remaining f) (field_buffer f), r)
  else
    let '(f, r) := buffer_field r f in
    if negb (field_remaining f =? 0) then (None, f, r)
    else (Some (read_into old (Reader.new (take (Z.to_nat (field_length f)) (field_buffer f)) NETWORK_BYTE_ORDER)).1, f, r).

Lemma ReadFrameType_field r d :
  ReadFrameType r d =
  let '(v, f, r) := read_field r (type_field d) (current_frame_type d) in
  match v with
  | Some type => (with_state (with_type d type f) STATE_READING_FRAME_LENGTH, r)
  | None => (with_type d (current_frame_type d) f, r)
  end.
Proof.
  unfold ReadFrameType, read_field, BufferFrameType. destruct (field_length (type_field d) =? 0).
  - destruct (_ <? _); cbn; [by destruct (buffer_field _ _)|by destruct (read_into _ _)].
  - destruct (buffer_field r (type_field d)) as [f r']. cbn. by destruct (field_remaining f =? 0).
Qed.

Lemma ReadFrameLength_field visitor r s :
  ReadFrameLength visitor r s =
  let '(v, f, r) := read_field r (length_field s.1) (current_frame_length s.1) in
  match v with
  | Some len => (frame_header_read visitor (with_length s.1 len f, s.2), r)
  | None => (true, (with_length s.1 (current_frame_length s.1) f, s.2), r)
  end.
Proof.
  unfold ReadFrameLength, read_field, BufferFrameLength. destruct (field_length (length_field s.1) =? 0).
  - destruct (_ <? _); cbn; [by destruct (buffer_field _ _)|by destruct (read_into _ _)].
  - destruct (buffer_field r (length_field s.1)) as [f r']. cbn. by destruct (field_remaining f =? 0).
Qed.

(** The bytes [cur] of the field were read before. *)
Definition fresh_or_partial (f : field) (cur : list Z) : Prop := cur = [] ∧ field_length f = 0 ∨ partial f cur.

(** The result of reading on: the integer, or all that is there. *)
Definition field_read (r : Reader.t) (cur : list Z) (res : option Z * field * Reader.t) : Prop :=
  let '(v, f', r') := res in
  readable r' ∧ ∃ x, x ≠ [] ∧ ReaderSpec.rest r = x ++ ReaderSpec.rest r'
  ∧ match v with
    | Some v => varint (cur ++ x) = Some (v, []) ∧ field_length f' = zlen (cur ++ x)
    | None => ReaderSpec.rest r' = [] ∧ partial f' (cur ++ x)
    end.

Lemma read_fresh_field r f old :
  readable r → ReaderSpec.rest r ≠ [] → field_length f = 0 → field_read r [] (read_field r f old).
Proof.
  intros Hr Hne E0. pose proof (readable_rest r Hr) as [Hb Hl]. unfold field_read, read_field.
  rewrite E0. cbn [Z.eqb app]. set (n := Reader.PeekVarInt62Length r). pose proof (peek_of_first r Hr) as Hp. fold n in Hp.
  destruct (ReaderSpec.rest r) as [|b l] eqn:E; [done|]. pose proof (announced_len b) as Hn. rewrite <-Hp in Hn. pose proof (varint_len_pos n Hn).
  destruct (Z.ltb_spec (Reader.BytesRemaining r) n) as [Hs|Hs].
  + pose proof (buffer_field_spec r (mk_field n n (field_buffer f)) [] Hr) as Hbuf. cbn [field_length field_remaining field_buffer] in Hbuf.
    rewrite zlen_nil, E in Hbuf. specialize (Hbuf Hn ltac:(lia) ltac:(lia) ltac:(by left)).
    destruct (buffer_field r _) as [f' r']. cbv zeta in Hbuf. rewrite (take_ge (b :: l)) in Hbuf by (unfold zlen in *; lia).
    destruct Hbuf as (R1&R2&R3&R4&R5&R6). split; [done|]. exists (b :: l). split; [done|]. split; [done|].
    split; [apply (app_inv_head (b :: l)); by rewrite app_nil_r|]. exists b. split; [done|]. split; [congruence|]. split; [by rewrite Hl, R3|].
    rewrite R3. done.
  + pose proof (read_varint r Hr) as Hv. rewrite E in Hv. unfold read_into.
    destruct (varint (b :: l)) as [[v k]|] eqn:Ev; [|apply varint_none in Ev; rewrite <-Hp in Ev; lia].
    destruct Hv as (m&->&_&Hm&Hk&_&Em). fold n in Em. subst m. pose proof (readable_skip r n Hr ltac:(lia)) as (S1&S2&_&_).
    split; [done|]. rewrite E in *. exists (take (Z.to_nat n) (b :: l)).
    assert (Hne' : take (Z.to_nat n) (b :: l) ≠ []) by (destruct (Z.to_nat n) eqn:?; [lia|done]).
    split; [done|]. split; [by rewrite S2, take_drop|]. cbn [field_length].
    assert (Hlen : zlen (take (Z.to_nat n) (b :: l)) = n) by (unfold zlen in *; rewrite length_take; lia).
    split; [|done]. destruct (varint_some _ _ _ Ev) as (n'&?&Hln&_&_&Hx). rewrite <-(app_nil_r (take _ _)).
    replace n with n'; [apply Hx|]. rewrite <-Hk, S2 in Hln. unfold zlen in *. rewrite length_drop in Hln. lia.
Qed.

Lemma read_partial_field r f old cur :
  readable r → ReaderSpec.rest r ≠ [] → partial f cur → field_read r cur (read_field r f old).
Proof.
  intros Hr Hne (b&Hhd&Hn&Hlt&Hrem&H8&Htake&Hcb). pose proof (readable_rest r Hr) as [Hb Hl]. unfold field_read, read_field.
  pose proof (announced_len b) as Hlen. rewrite <-Hn in Hlen. pose proof (varint_len_pos _ Hlen).
  destruct (Z.eqb_spec (field_length f) 0); [lia|].
  pose proof (buffer_field_spec r f cur Hr Hlen Hlt Hrem ltac:(by right)) as Hbuf. cbv zeta in Hbuf.
  set (x := take _ (ReaderSpec.rest r)) in *. destruct (buffer_field r f) as [f' r']. destruct Hbuf as (R1&R2&R3&R4&R5&R6).
  assert (Hx : x ≠ []).
  { intros Ex. apply (f_equal length) in Ex. unfold x in Ex. rewrite length_take in Ex. cbn in Ex. unfold zlen in *.
    destruct (ReaderSpec.rest r); [done|]. cbn in *. lia. }
  assert (Hxb : bytes (cur ++ x)) by (apply Forall_app; split; [done|]; unfold x; by apply Forall_take).
  destruct cur as [|b' cur]; [done|]. injection Hhd as ->.
  destruct (Z.eqb_spec (field_remaining f') 0) as [Hz|Hz]; cbn [negb].
  + split; [done|]. exists x. split; [done|]. split; [done|]. assert (Hfull : zlen ((b :: cur) ++ x) = field_length f) by lia.
    split; [|lia]. replace (Z.to_nat (field_length f')) with (length ((b :: cur) ++ x)) by (rewrite R3, <-Hfull; unfold zlen; lia).
    rewrite R5. pose proof (readable_new ((b :: cur) ++ x) NETWORK_BYTE_ORDER Hxb) as Hr2. pose proof (read_varint _ Hr2) as Hv.
    rewrite ReaderSpec.new_rest in Hv. unfold read_into. destruct (varint ((b :: cur) ++ x)) as [[v k]|] eqn:Ev.
    * destruct Hv as (m&->&_&_&_&_&Em). cbn [fst]. do 2 f_equal. rewrite peek_of_first, ReaderSpec.new_rest in Em by done. cbn [app] in Em.
      rewrite <-Hn in Em. pose proof Ev as Ev2. unfold varint in Ev2. cbn [app] in Ev2, Hfull. rewrite <-Hn, Hfull in Ev2.
      destruct (Z.leb_spec (field_length f) (field_length f)); [|lia]. injection Ev2 as _ <-. apply drop_ge. unfold zlen in *. lia.
    * cbn [app] in Ev, Hfull. apply varint_none in Ev. lia.
  + split; [done|]. exists x. split; [done|]. split; [done|].
    assert (Hxr : length x = length (ReaderSpec.rest r)).
    { unfold x. rewrite length_take. assert (zlen ((b :: cur) ++ x) < field_length f).
      { rewrite R6 in Hz. unfold x, zlen in *. rewrite length_app, length_take in *. lia. }
      rewrite zlen_app in *. unfold x, zlen in *. rewrite length_take in *. lia. }
    split. { apply (f_equal length) in R2. rewrite length_app in R2. destruct (ReaderSpec.rest r'); [done|cbn in R2; lia]. }
    exists b. cbn [app head]. split; [done|]. split; [congruence|]. split; [|by rewrite R3].
    rewrite R3. cbn [app] in R6, Hz. unfold zlen in *. rewrite R6 in Hz.
    assert (Z.of_nat (length (b :: cur ++ x)) <= field_length f); [|lia].
    change (b :: cur ++ x) with ((b :: cur) ++ x). rewrite length_app. unfold x. rewrite length_take. lia.
Qed.

Lemma read_field_spec r f old cur :
  readable r → ReaderSpec.rest r ≠ [] → fresh_or_partial f cur → field_read r cur (read_field r f old).
Proof. intros Hr Hne [[-> E0]|Hf]; [by apply read_fresh_field|by apply read_partial_field]. Qed.

(** *** Payloads in pieces *)

(** What is there of the payload: [x], not empty. *)
Lemma take_payload r n :
  readable r → ReaderSpec.rest r ≠ [] → 0 < n →
  let m := Z.min n (Reader.BytesRemaining r) in let x := take (Z.to_nat m) (ReaderSpec.rest r) in let r' := Reader.skip m r in
  Reader.ReadBytes m r = (Some x, r') ∧ Reader.ReadStringPiece m r = (Some x, r') ∧ readable r'
  ∧ ReaderSpec.rest r = x ++ ReaderSpec.rest r' ∧ x ≠ [] ∧ zlen x = m ∧ m <= n.
Proof.
  intros Hr Hne Hn. cbv zeta. pose proof (readable_rest r Hr) as [_ Hl].
  assert (0 < zlen (ReaderSpec.rest r)) by (destruct (ReaderSpec.rest r); [done|rewrite zlen_cons; pose proof (zlen_nonneg l); lia]).
  set (m := Z.min n _). destruct (read_piece r m Hr ltac:(lia)) as [-> ->]. destruct (readable_skip r m Hr ltac:(lia)) as (H1&H2&_&_).
  assert (Hx : zlen (take (Z.to_nat m) (ReaderSpec.rest r)) = m) by (unfold zlen in *; rewrite length_take; lia).
  split; [done|]. split; [done|]. split; [done|]. split; [by rewrite H2, take_drop|]. split; [|lia].
  intros E. rewrite E, zlen_nil in Hx. lia.
Qed.

Section run.
Context (visitor : list event → event → bool).

Lemma pass_payload_spec f r s :
  readable r → ReaderSpec.rest r ≠ [] → 0 < remaining_frame_length s.1 →
  ∃ x r', pass_payload visitor f r s =
    (visitor s.2 (f x), (with_remaining s.1 (remaining_frame_length s.1 - zlen x), s.2 ++ [f x]), r')
  ∧ readable r' ∧ ReaderSpec.rest r = x ++ ReaderSpec.rest r' ∧ x ≠ [] ∧ zlen x <= remaining_frame_length s.1.
Proof.
  intros Hr Hne Hn. destruct (take_payload r _ Hr Hne Hn) as (_&E&H1&H2&H3&H4&H5).
  set (x := take _ _) in *. exists x. eexists. split; [unfold pass_payload; by rewrite E|]. split; [done|]. split; [done|]. split; [done|lia].
Qed.

Lemma discard_spec r d :
  readable r → ReaderSpec.rest r ≠ [] → 0 < remaining_frame_length d →
  ∃ x r', DiscardFramePayload r d =
    (let d' := with_remaining d (remaining_frame_length d - zlen x) in if remaining_frame_length d' =? 0 then next_frame d' else d', r')
  ∧ readable r' ∧ ReaderSpec.rest r = x ++ ReaderSpec.rest r' ∧ x ≠ [] ∧ zlen x <= remaining_frame_length d.
Proof.
  intros Hr Hne Hn. destruct (take_payload r _ Hr Hne Hn) as (_&E&H1&H2&H3&H4&H5).
  set (x := take _ _) in *. exists x. eexists. split; [unfold DiscardFramePayload; by rewrite E|]. split; [done|]. split; [done|]. split; [done|lia].
Qed.

Lemma buffer_payload_spec r d :
  readable r → ReaderSpec.rest r ≠ [] → 0 < remaining_frame_length d <= current_frame_length d →
  let offset := current_frame_length d - remaining_frame_length d in
  ∃ x r' b, BufferFramePayload r d = (with_buffer d (remaining_frame_length d - zlen x) b, r')
  ∧ readable r' ∧ ReaderSpec.rest r = x ++ ReaderSpec.rest r' ∧ x ≠ [] ∧ zlen x <= remaining_frame_length d
  ∧ zlen b <= Z.max (zlen (buffer d)) (current_frame_length d)
  ∧ ∀ p, zlen p = offset → take (length p) (buffer d) = p → take (length (p ++ x)) b = p ++ x.
Proof.
  intros Hr Hne Hn. cbv zeta. destruct (take_payload r _ Hr Hne (proj1 Hn)) as (E&_&H1&H2&H3&H4&H5). set (x := take _ _) in *.
  rewrite <-H4 in E, H1, H2. exists x. eexists _, _. split; [unfold BufferFramePayload; rewrite <-H4, E; reflexivity|].
  set (m := if _ : bool then [] else buffer d). set (off := current_frame_length d - remaining_frame_length d).
  assert (Hm : off = 0 ∧ m = [] ∨ 0 < off ∧ m = buffer d).
  { unfold m, off. destruct (Z.eqb_spec (current_frame_length d) (remaining_frame_length d)); [left|right]; split; done || lia. }
  clearbody m. split; [done|]. split; [done|]. split; [done|]. split; [lia|]. pose proof (zlen_nonneg (buffer d)). split.
  - unfold store, zlen in *. rewrite !length_app, length_take, length_drop. destruct Hm as [[? ->]|[? ->]]; cbn [length]; lia.
  - intros p Hp Hpb. fold off in Hp. destruct Hm as [[Hoff ->]|[Hoff ->]].
    + assert (p = []) as -> by (apply length_zero_iff_nil; unfold zlen in *; lia). unfold store. rewrite take_nil, drop_nil, app_nil_r. by rewrite take_ge.
    + unfold store. replace (Z.to_nat off) with (length p) by (unfold zlen in *; lia). rewrite Hpb, app_assoc. apply take_app_length.
Qed.

(** *** Every state the decoder reaches *)

Definition buffered (type : Z) : bool := existsb (Z.eqb type) [2; 3; 4; 7; 13; 14].

Lemma MaxFrameLength_buffered type : buffered type = true → wrap8 type = type ∧ MaxFrameLength type <= 1048576.
Proof.
  unfold buffered. cbn [existsb]. intros H. assert (type = 2 ∨ type = 3 ∨ type = 4 ∨ type = 7 ∨ type = 13 ∨ type = 14) as
    [->|[->|[->|[->|[->| ->]]]]] by lia; vm_compute; (split; [done|discriminate]).
Qed.

(** What holds whatever the input. *)
Definition ok (d : t) : Prop :=
  zlen (buffer d) <= 1048576
  ∧ match state_ d with
    | STATE_READING_FRAME_TYPE => field_length (length_field d) = 0 ∧ ∃ cur, fresh_or_partial (type_field d) cur
    | STATE_READING_FRAME_LENGTH => ∃ cur, fresh_or_partial (length_field d) cur
    | STATE_READING_FRAME_PAYLOAD =>
        0 < remaining_frame_length d
        ∧ (buffered (current_frame_type d) = true → remaining_frame_length d <= current_frame_length d <= 1048576)
    | _ => True
    end.

(** The work left: a byte is worth more than the end of a frame. *)
Definition work (r : Reader.t) (d : t) : Z :=
  2 * zlen (ReaderSpec.rest r) + (if bool_decide (state_ d = STATE_FINISH_PARSING) then 1 else 0).

Lemma work_read r r' d d' x :
  ReaderSpec.rest r = x ++ ReaderSpec.rest r' → x ≠ [] → state_ d ≠ STATE_FINISH_PARSING → work r' d' < work r d.
Proof.
  intros E Hx Hd. unfold work. rewrite E, zlen_app. assert (0 < zlen x) by (destruct x as [|b x]; [done|rewrite zlen_cons; pose proof (zlen_nonneg x); lia]).
  rewrite (bool_decide_eq_false_2 (state_ d = _)) by done. case_bool_decide; lia.
Qed.

Lemma payload_done_ok d log :
  zlen (buffer d) <= 1048576 → state_ d = STATE_READING_FRAME_PAYLOAD → 0 <= remaining_frame_length d →
  (buffered (current_frame_type d) = true → remaining_frame_length d <= current_frame_length d <= 1048576) →
  ok (payload_done (d, log)).1.
Proof.
  intros Hb Hs Hr Hc. unfold payload_done, on_decoder. cbn [fst]. destruct (Z.eqb_spec (remaining_frame_length d) 0).
  - by split.
  - split; [done|]. rewrite Hs. split; [lia|done].
Qed.

(** A round reads something or finishes a frame; it stops the loop on an error or when the visitor wants to. *)
Definition round_ok (r : Reader.t) (s : io) (res : bool * io * Reader.t) : Prop :=
  let '(b, s', r') := res in
  readable r' ∧ (∃ x, ReaderSpec.rest r = x ++ ReaderSpec.rest r') ∧ (state_ s'.1 ≠ STATE_ERROR → ok s'.1) ∧ zlen (buffer s'.1) <= 1048576
  ∧ (b = true → state_ s'.1 ≠ STATE_ERROR ∧ work r' s'.1 < work r s.1)
  ∧ (b = false → state_ s'.1 = STATE_ERROR ∨ ∃ log e, visitor log e = false).

Lemma type_round_ok r s :
  readable r → ok s.1 → ReaderSpec.rest r ≠ [] → state_ s.1 = STATE_READING_FRAME_TYPE →
  round_ok r s (let '(d, r) := ReadFrameType r s.1 in (true, (d, s.2), r)).
Proof.
  intros Hr [Hb Hok] Hne Hs. rewrite Hs in Hok. destruct Hok as [Hl [cur Hf]]. rewrite ReadFrameType_field.
  pose proof (read_field_spec r _ (current_frame_type s.1) cur Hr Hne Hf) as Hspec.
  destruct (read_field _ _ _) as [[[v|] f] r']; destruct Hspec as (Hr'&x&Hx&E&Hv); unfold round_ok; cbn [fst snd];
    (split; [done|]; split; [by exists x|]; split; [|split; [done|split; [|done]]]).
  - intros _. split; [done|]. exists []. by left.
  - intros _. split; [done|]. apply (work_read _ _ _ _ x); [done|done|congruence].
  - intros _. split; [done|]. cbn [state_ with_type]. rewrite Hs. split; [done|]. exists (cur ++ x). right. apply Hv.
  - intros _. split; [cbn; congruence|]. apply (work_read _ _ _ _ x); [done|done|congruence].
Qed.

Lemma maybe_call_spec e s :
  let res := maybe_call visitor e s in
  res.2.1 = s.1 ∧ heard res.2.2 = heard s.2 ++ match e with Some e => Event <$> pieces e | None => [] end
  ∧ (res.1 = false → ∃ log e, visitor log e = false).
Proof.
  destruct e as [e|]; cbv zeta; cbn [maybe_call call fst snd]; [|by rewrite app_nil_r].
  rewrite heard_app. split; [done|]. split; [|intros Hv; by eexists _, _]. unfold heard at 2. cbn. by rewrite app_nil_r.
Qed.

Lemma frame_header_read_ok s :
  zlen (buffer s.1) <= 1048576 → 0 <= current_frame_length s.1 →
  let '(b, s') := frame_header_read visitor s in
  zlen (buffer s'.1) <= 1048576 ∧ (state_ s'.1 ≠ STATE_ERROR → ok s'.1) ∧ (b = true → state_ s'.1 ≠ STATE_ERROR)
  ∧ (b = false → state_ s'.1 = STATE_ERROR ∨ ∃ log e, visitor log e = false).
Proof.
  intros Hb Hlen. unfold frame_header_read. destruct (Z.ltb_spec (MaxFrameLength (wrap8 (current_frame_type s.1))) (current_frame_length s.1)) as [Hm|Hm].
  { cbn. split; [done|]. split; [done|]. split; [done|]. by left. }
  pose proof (maybe_call_spec (start_event (current_frame_type s.1)
    (field_length (length_field s.1) + field_length (type_field s.1)) (current_frame_length s.1)) s) as Hres.
  destruct (maybe_call _ _ _) as [b s']. cbn [fst snd] in Hres. destruct Hres as (E&_&Hv). unfold on_decoder. cbn. rewrite E. split; [done|].
  split; [|split; [by destruct (_ =? 0)|intros Hf; right; by apply Hv]].
  intros _. split; [done|]. cbn. destruct (Z.eqb_spec (current_frame_length s.1) 0); [done|]. split; [lia|].
  intros Hbuf. destruct (MaxFrameLength_buffered _ Hbuf) as [E8 Hmax]. rewrite E8 in Hm. lia.
Qed.

Lemma length_round_ok r s :
  readable r → ok s.1 → ReaderSpec.rest r ≠ [] → state_ s.1 = STATE_READING_FRAME_LENGTH → round_ok r s (ReadFrameLength visitor r s).
Proof.
  intros Hr [Hb Hok] Hne Hs. rewrite Hs in Hok. destruct Hok as [cur Hf]. rewrite ReadFrameLength_field.
  pose proof (read_field_spec r _ (current_frame_length s.1) cur Hr Hne Hf) as Hspec.
  destruct (read_field _ _ _) as [[[v|] f] r']; destruct Hspec as (Hr'&x&Hx&E&Hv).
  - destruct Hv as [Hv _]. apply varint_some in Hv as (_&_&_&_&Hv&_).
    pose proof (frame_header_read_ok (with_length s.1 v f, s.2) Hb (proj1 Hv)) as H.
    destruct (frame_header_read _ _) as [b s']. destruct H as (H1&H2&H3&H4).
    split; [done|]. split; [by exists x|]. split; [done|]. split; [done|]. split; [|done].
    intros Hbt. split; [by apply H3|]. apply (work_read _ _ _ _ x); [done|done|congruence].
  - split; [done|]. split; [by exists x|]. split; [|split; [done|split; [|done]]].
    + intros _. split; [done|]. cbn [fst state_ with_length]. rewrite Hs. exists (cur ++ x). right. apply Hv.
    + intros _. split; [cbn; congruence|]. apply (work_read _ _ _ _ x); [done|done|congruence].
Qed.

(** The cases of [ReadFramePayload]. *)
Lemma ReadFramePayload_cases r s :
  ReadFramePayload visitor r s =
  let type := current_frame_type s.1 in
  if buffered type then let '(d, r) := BufferFramePayload r s.1 in (true, payload_done (d, s.2), r) else
  if type =? 5 then
    match read_push_promise visitor r s with
    | (None, s, r) => (false, s, r)
    | (Some b, s, r) => (b, payload_done s, r)
    end
  else if (type =? 0) || (type =? 1) then
    let '(b, s, r) := pass_payload visitor (if type =? 0 then OnDataFramePayload else OnHeadersFramePayload) r s in (b, payload_done s, r)
  else let '(d, r) := DiscardFramePayload r s.1 in (true, (d, s.2), r).
Proof.
  unfold ReadFramePayload. cbv zeta. destruct (current_frame_type s.1) as [|p|p]; [done| |done].
  do 4 (try destruct p as [p|p|]); reflexivity.
Qed.

(** What [read_push_promise] may do. *)
Lemma read_push_promise_cases r s :
  readable r → ReaderSpec.rest r ≠ [] → 0 < remaining_frame_length s.1 →
  let len := current_frame_length s.1 in
  if len =? remaining_frame_length s.1 then
    match varint (ReaderSpec.rest r) with
    | None => read_push_promise visitor r s = (None, on_decoder (RaiseError QUIC_INTERNAL_ERROR) s, r)
    | Some (push_id, _) =>
        ∃ x r1, x ≠ [] ∧ varint x = Some (push_id, []) ∧ readable r1 ∧ ReaderSpec.rest r = x ++ ReaderSpec.rest r1
        ∧ let rem := wrap64 (len - zlen x) in let s1 := (with_remaining s.1 rem, s.2 ++ [OnPushPromiseFrameStart push_id]) in
          if negb (visitor s.2 (OnPushPromiseFrameStart push_id)) then read_push_promise visitor r s = (Some false, s1, r1)
          else if (rem =? 0) || (zlen (ReaderSpec.rest r1) =? 0) then read_push_promise visitor r s = (Some true, s1, r1)
          else ∃ y r2, y ≠ [] ∧ readable r2 ∧ ReaderSpec.rest r1 = y ++ ReaderSpec.rest r2 ∧ zlen y <= rem
               ∧ read_push_promise visitor r s = (Some (visitor s1.2 (OnPushPromiseFramePayload y)),
                   (with_remaining s.1 (rem - zlen y), s1.2 ++ [OnPushPromiseFramePayload y]), r2)
    end
  else ∃ y r2, y ≠ [] ∧ readable r2 ∧ ReaderSpec.rest r = y ++ ReaderSpec.rest r2 ∧ zlen y <= remaining_frame_length s.1
       ∧ read_push_promise visitor r s = (Some (visitor s.2 (OnPushPromiseFramePayload y)),
           (with_remaining s.1 (remaining_frame_length s.1 - zlen y), s.2 ++ [OnPushPromiseFramePayload y]), r2).
Proof.
  intros Hr Hne Hrem. cbv zeta.
  assert (Hpiece : ∀ s1 r1, readable r1 → ReaderSpec.rest r1 ≠ [] → 0 < remaining_frame_length s1.1 →
    ∃ y r2, y ≠ [] ∧ readable r2 ∧ ReaderSpec.rest r1 = y ++ ReaderSpec.rest r2 ∧ zlen y <= remaining_frame_length s1.1
    ∧ (if Z.min (remaining_frame_length s1.1) (Reader.BytesRemaining r1) =? 0 then (Some true, s1, r1)
       else let '(b, s, r) := pass_payload visitor OnPushPromiseFramePayload r1 s1 in (Some b, s, r))
      = (Some (visitor s1.2 (OnPushPromiseFramePayload y)),
         (with_remaining s1.1 (remaining_frame_length s1.1 - zlen y), s1.2 ++ [OnPushPromiseFramePayload y]), r2)).
  { intros s1 r1 Hr1 Hne1 Hrem1. destruct (pass_payload_spec OnPushPromiseFramePayload r1 s1 Hr1 Hne1 Hrem1) as (y&r2&E&H1&H2&H3&H4).
    exists y, r2. split; [done|]. split; [done|]. split; [done|]. split; [done|]. pose proof (readable_rest r1 Hr1) as [_ Hl1].
    pose proof (rest_pos r1 Hne1). destruct (Z.eqb_spec (Z.min (remaining_frame_length s1.1) (Reader.BytesRemaining r1)) 0); [lia|].
    by rewrite E. }
  unfold read_push_promise. destruct (Z.eqb_spec (current_frame_length s.1) (remaining_frame_length s.1)) as [El|El]; [|by apply Hpiece].
  pose proof (read_varint_piece r Hr) as Hv. destruct (varint (ReaderSpec.rest r)) as [[id k]|]; [|by rewrite Hv].
  destruct Hv as (x&r1&->&Hr1&E&Hx&Hvx&Hn&Hk). exists x, r1. split; [done|]. split; [done|]. split; [done|]. split; [by rewrite Hk|].
  rewrite Hn, El. unfold on_decoder, call. cbn [fst snd]. destruct (negb _); [done|].
  cbn [remaining_frame_length with_remaining]. pose proof (Z.mod_pos_bound (remaining_frame_length s.1 - zlen x) two64 ltac:(done)) as Hmod.
  fold (wrap64 (remaining_frame_length s.1 - zlen x)) in Hmod. set (rem := wrap64 _) in *.
  pose proof (readable_rest r1 Hr1) as [_ Hl1]. destruct ((rem =? 0) || _) eqn:Ez.
  - destruct (Z.eqb_spec (Z.min rem (Reader.BytesRemaining r1)) 0); [done|]. pose proof (zlen_nonneg (ReaderSpec.rest r1)). lia.
  - apply orb_false_iff in Ez as [Ez1 Ez2].
    apply (Hpiece (with_remaining s.1 rem, s.2 ++ [OnPushPromiseFrameStart id]) r1 Hr1); [|cbn; lia].
    intros En. by rewrite En, zlen_nil in Ez2.
Qed.

Lemma round_of_payload r r' s d log b x :
  readable r' → ReaderSpec.rest r = x ++ ReaderSpec.rest r' → x ≠ [] → state_ s.1 = STATE_READING_FRAME_PAYLOAD → ok d →
  state_ d ≠ STATE_ERROR → (b = false → ∃ log e, visitor log e = false) → round_ok r s (b, (d, log), r').
Proof.
  intros Hr E Hx Hs Hok Hne Hb. split; [done|]. split; [by exists x|]. split; [done|]. split; [apply Hok|]. split; [|intros ?; right; by apply Hb].
  intros _. split; [done|]. apply (work_read _ _ _ _ x); [done|done|congruence].
Qed.

Lemma payload_done_state d log :
  state_ d = STATE_READING_FRAME_PAYLOAD → state_ (payload_done (d, log)).1 ≠ STATE_ERROR ∧ (payload_done (d, log)).2 = log.
Proof. intros Hd. unfold payload_done, on_decoder. cbn. destruct (_ =? 0); cbn; by rewrite ?Hd. Qed.

(** The end of a round that passes some of the payload on. *)
Lemma round_of_piece r r' s d log b x :
  readable r' → ReaderSpec.rest r = x ++ ReaderSpec.rest r' → x ≠ [] → state_ s.1 = STATE_READING_FRAME_PAYLOAD →
  state_ d = STATE_READING_FRAME_PAYLOAD → zlen (buffer d) <= 1048576 → 0 <= remaining_frame_length d →
  (buffered (current_frame_type d) = true → remaining_frame_length d <= current_frame_length d <= 1048576) →
  (b = false → ∃ log e, visitor log e = false) → round_ok r s (b, payload_done (d, log), r').
Proof.
  intros Hr E Hx Hs Hd Hbuf H0 Hle Hb. destruct (payload_done_state d log Hd) as [H1 H2].
  rewrite (surjective_pairing (payload_done (d, log))). apply (round_of_payload _ _ _ _ _ _ x); try done. by apply payload_done_ok.
Qed.

Lemma payload_round_ok r s :
  readable r → ok s.1 → ReaderSpec.rest r ≠ [] → state_ s.1 = STATE_READING_FRAME_PAYLOAD → round_ok r s (ReadFramePayload visitor r s).
Proof.
  intros Hr Hok Hne Hs. pose proof Hok as [Hb Hp]. rewrite Hs in Hp. destruct Hp as [Hpos Hle]. rewrite ReadFramePayload_cases. cbv zeta.
  assert (Hcall : ∀ log e, visitor log e = false → ∃ log e, visitor log e = false) by eauto.
  destruct (buffered (current_frame_type s.1)) eqn:Ebuf.
  { specialize (Hle eq_refl). destruct (buffer_payload_spec r s.1 Hr Hne ltac:(lia)) as (x&r'&b&->&H1&H2&H3&H4&H5&_).
    pose proof (zlen_nonneg x). apply (round_of_piece _ _ _ _ _ _ x); cbn; try done; try lia. }
  destruct (Z.eqb_spec (current_frame_type s.1) 5) as [E5|_].
  - pose proof (read_push_promise_cases r s Hr Hne Hpos) as Hpp. cbv zeta in Hpp.
    assert (Hmod : ∀ z, 0 <= wrap64 z) by (intros z; unfold wrap64; pose proof (Z.mod_pos_bound z two64 ltac:(done)); lia).
    destruct (_ =? remaining_frame_length s.1).
    + destruct (varint (ReaderSpec.rest r)) as [[id k]|].
      * destruct Hpp as (x&r1&Hx&_&Hr1&E&Hpp). destruct (negb _) eqn:Ev; [|destruct (_ || _)].
        -- rewrite Hpp. apply (round_of_piece _ _ _ _ _ _ x); cbn -[buffered zlen wrap64]; rewrite ?Ebuf; try done. intros _. apply negb_true_iff in Ev. by eapply Hcall.
        -- rewrite Hpp. apply (round_of_piece _ _ _ _ _ _ x); cbn -[buffered zlen wrap64]; rewrite ?Ebuf; done.
        -- destruct Hpp as (y&r2&Hy&Hr2&E2&Hly&->). apply (round_of_piece _ _ _ _ _ _ (x ++ y)); cbn -[buffered zlen wrap64]; rewrite ?Ebuf; try done; try lia.
           ++ by rewrite E, E2, <-app_assoc.
           ++ by destruct x.
           ++ intros Hv. by eapply Hcall.
      * rewrite Hpp. split; [done|]. split; [by exists []|]. split; [done|]. split; [done|]. split; [done|]. intros _. by left.
    + destruct Hpp as (y&r2&Hy&Hr2&E2&Hly&->). apply (round_of_piece _ _ _ _ _ _ y); cbn -[buffered zlen wrap64]; rewrite ?Ebuf; try done; try lia.
      intros Hv. by eapply Hcall.
  - destruct (_ || _).
    + edestruct pass_payload_spec as (x&r'&->&H1&H2&H3&H4); [done..|]. apply (round_of_piece _ _ _ _ _ _ x); cbn -[buffered zlen wrap64]; rewrite ?Ebuf; try done; try lia.
      intros Hv. by eapply Hcall.
    + destruct (discard_spec r s.1 Hr Hne Hpos) as (x&r'&->&H1&H2&H3&H4). cbv zeta. cbn [remaining_frame_length with_remaining].
      apply (round_of_payload _ _ _ _ _ _ x); try done; destruct (Z.eqb_spec (remaining_frame_length s.1 - zlen x) 0); cbn; try done.
      * split; [done|]. split; [done|]. exists []. by left.
      * split; [done|]. cbn -[buffered]. rewrite Hs, Ebuf. split; [lia|done].
      * congruence.
Qed.

Lemma finish_round_ok r s :
  readable r → ok s.1 → state_ s.1 = STATE_FINISH_PARSING → round_ok r s (FinishParsing visitor s, r).
Proof.
  intros Hr [Hb _] Hs. unfold FinishParsing. destruct (end_of_frame _ _) as [e|].
  - pose proof (maybe_call_spec e s) as Hc. destruct (maybe_call visitor e s) as [b s']. cbn [fst snd] in Hc. destruct Hc as (E&_&Hv).
    unfold on_decoder. rewrite E. split; [done|]. split; [by exists []|]. split.
    { intros _. split; [done|]. split; [done|]. exists []. by left. }
    split; [done|]. split; [|intros Hf; right; by apply Hv]. intros _. split; [done|]. unfold work.
    rewrite (bool_decide_eq_true_2 (state_ s.1 = _)), (bool_decide_eq_false_2 (state_ _ = _)) by done. lia.
  - split; [done|]. split; [by exists []|]. split; [done|]. split; [done|]. split; [done|]. intros _. by left.
Qed.

Lemma process_step_ok r s :
  readable r → ok s.1 → ReaderSpec.rest r ≠ [] ∨ state_ s.1 = STATE_FINISH_PARSING → state_ s.1 ≠ STATE_ERROR →
  round_ok r s (process_step visitor r s).
Proof.
  intros Hr Hok Hne Hs. unfold process_step. destruct (state_ s.1) eqn:E; try done.
  - destruct Hne as [Hne|]; [|done]. by apply length_round_ok.
  - destruct Hne as [Hne|]; [|done]. by apply type_round_ok.
  - destruct Hne as [Hne|]; [|done]. by apply payload_round_ok.
  - by apply finish_round_ok.
Qed.

(** The loop ends, when the input is used up, on an error, or where the visitor pauses. [P] is any invariant of its rounds. *)
Lemma process_ok (P : Reader.t → io → Prop) fuel r s :
  (∀ r s, readable r → ok s.1 → ReaderSpec.rest r ≠ [] ∨ state_ s.1 = STATE_FINISH_PARSING → state_ s.1 ≠ STATE_ERROR → P r s →
     let '(_, s', r') := process_step visitor r s in P r' s') →
  readable r → ok s.1 → state_ s.1 ≠ STATE_ERROR → P r s → work r s.1 <= Z.of_nat fuel →
  ∃ s' r', process visitor fuel r s = Some (s', r') ∧ readable r' ∧ (∃ x, ReaderSpec.rest r = x ++ ReaderSpec.rest r') ∧ P r' s'
  ∧ zlen (buffer s'.1) <= 1048576 ∧ (state_ s'.1 ≠ STATE_ERROR → ok s'.1)
  ∧ ((ReaderSpec.rest r' = [] ∧ state_ s'.1 ≠ STATE_FINISH_PARSING ∧ state_ s'.1 ≠ STATE_ERROR)
     ∨ state_ s'.1 = STATE_ERROR ∨ ∃ log e, visitor log e = false).
Proof.
  intros HP. revert r s. induction fuel as [|fuel IH]; intros r s Hr Hok Hs HPs Hw; pose proof (readable_rest r Hr) as [_ Hl];
    pose proof (zlen_nonneg (ReaderSpec.rest r)); cbn [process]; destruct (_ && _) eqn:Estop.
  1, 3: apply andb_true_iff in Estop as [E0 Ef]; apply negb_true_iff, bool_decide_eq_false in Ef;
    exists s, r; (split; [done|]); (split; [done|]); (split; [by exists []|]); (split; [done|]); (split; [apply Hok|]); (split; [done|]);
    left; split; [|done]; destruct (ReaderSpec.rest r); [done|rewrite zlen_cons in Hl; pose proof (zlen_nonneg l); lia].
  all: assert (Hgo : ReaderSpec.rest r ≠ [] ∨ state_ s.1 = STATE_FINISH_PARSING) by
    (apply andb_false_iff in Estop as [E0|Ef];
      [left; intros En; rewrite En, zlen_nil in Hl; lia|right; by apply negb_false_iff, bool_decide_eq_true in Ef]).
  - unfold work in Hw. destruct Hgo as [Hne%rest_pos|Ef]; [case_bool_decide; lia|]. rewrite bool_decide_eq_true_2 in Hw by done. lia.
  - pose proof (HP r s Hr Hok Hgo Hs HPs) as HPn. pose proof (process_step_ok r s Hr Hok Hgo Hs) as Hn.
    destruct (process_step visitor r s) as [[b s'] r']. destruct Hn as (Hr'&[x Hx]&Hok'&Hb'&Hgoon&Hstop). destruct b.
    + destruct (Hgoon eq_refl) as [Hs' Hw']. destruct (IH r' s' Hr' (Hok' Hs') Hs' HPn ltac:(lia)) as (s2&r2&E2&Hr2&[y Hy]&H2).
      exists s2, r2. split; [done|]. split; [done|]. split; [exists (x ++ y); by rewrite Hx, Hy, <-app_assoc|done].
    + exists s', r'. split; [done|]. split; [done|]. split; [by exists x|]. split; [done|]. split; [done|]. split; [done|]. right. by apply Hstop.
Qed.

(** *** What was heard so far *)

Definition whole (done : list Z) (l : list item) : Prop := ∀ x, messages (done ++ x) = l ++ messages x.

(** The current frame after its bytes [cur], with the items heard of it. *)
Inductive phase (d : t) : list Z → list item → Prop :=
| phase_type cur :
    state_ d = STATE_READING_FRAME_TYPE → field_length (length_field d) = 0 → fresh_or_partial (type_field d) cur → phase d cur []
| phase_length T cur :
    state_ d = STATE_READING_FRAME_LENGTH → varint T = Some (current_frame_type d, []) → field_length (type_field d) = zlen T →
    fresh_or_partial (length_field d) cur → phase d (T ++ cur) []
| phase_payload h p :
    state_ d = (if remaining_frame_length d =? 0 then STATE_FINISH_PARSING else STATE_READING_FRAME_PAYLOAD) →
    header (current_frame_type d) (current_frame_length d) h → current_frame_length d <= MaxFrameLength (wrap8 (current_frame_type d)) →
    0 <= remaining_frame_length d → zlen p = current_frame_length d - remaining_frame_length d →
    (buffered (current_frame_type d) = true → take (length p) (buffer d) = p) →
    (current_frame_type d = 5 → p ≠ [] → varint p ≠ None ∧ announced (hd 0 p) <= current_frame_length d) →
    phase d (h ++ p) (begins (current_frame_type d) (current_frame_length d) (zlen h)
                      ++ body (current_frame_type d) (current_frame_length d) p).

(** The items of all bytes read are the calls made, with at most the marker of a push id. *)
Definition tracked (s : io) (bs : list Z) : Prop :=
  (∃ done l cur k, bs = done ++ cur ∧ whole done l ∧ phase s.1 cur k ∧ calls (l ++ k) = heard s.2)
  ∨ (state_ s.1 = STATE_ERROR
     ∧ (calls (messages bs) = heard s.2 ++ [Broken] ∨ calls (messages bs) = heard s.2 ∧ last (messages bs) = Some PushPromiseBegins)).

Definition tracking (input : list Z) (r : Reader.t) (s : io) : Prop :=
  ∃ bs, input = bs ++ ReaderSpec.rest r ∧ (tracked s bs ∨ Overrun ∈ messages bs).

(** What was not said yet. *)
Definition pending (d : t) : list item :=
  if decide (state_ d = STATE_FINISH_PARSING) then
    match end_of_frame (current_frame_type d) (take (Z.to_nat (current_frame_length d)) (buffer d)) with
    | None => [Broken]
    | Some e => option_event e
    end
  else [].

Lemma whole_nil : whole [] [].
Proof. done. Qed.

Lemma phase_new : phase new [] [].
Proof. apply phase_type; [done|done|by left]. Qed.

Lemma partial_cut f cur : fresh_or_partial f cur → varint cur = None.
Proof.
  intros [[-> _]|(b&Hb&Hn&Hlt&_)]; [done|]. destruct cur as [|b' cur]; [done|]. injection Hb as ->. apply varint_none. lia.
Qed.

Lemma end_of_unbuffered type p q : buffered type = false → end_of_frame type p = end_of_frame type q.
Proof.
  unfold buffered, end_of_frame. intros H. destruct type as [|n|n]; [done| |done]. do 4 (try destruct n as [n|n|]; try done).
Qed.

Lemma calls_each f p : calls (each f p) = each f p.
Proof. induction p as [|b p IH]; [done|]. unfold calls, each in *. cbn. by rewrite IH. Qed.

Lemma calls_option e : calls (option_event e) = option_event e.
Proof. by destruct e. Qed.

Lemma calls_begins type len n : calls (begins type len n) = option_event (start_event type n len).
Proof. unfold begins. rewrite calls_app, calls_option. destruct (_ && _); [by rewrite app_nil_r|by rewrite app_nil_r]. Qed.

Lemma begins_push_promise len n : 0 < len → begins 5 len n = [PushPromiseBegins].
Proof. intros H. unfold begins. cbn. by destruct (Z.eqb_spec len 0); [lia|]. Qed.

(** The items of a payload that is cut. *)
Lemma body_passed type len p x :
  type = 0 ∨ type = 1 → body type len (p ++ x) = body type len p ++ each (if type =? 0 then OnDataFramePayload else OnHeadersFramePayload) x.
Proof. intros [->| ->]; cbn; apply map_app. Qed.

Lemma body_silent type len p : buffered type = true ∨ (buffered type = false ∧ type ≠ 5 ∧ type ≠ 0 ∧ type ≠ 1) → body type len p = [].
Proof.
  unfold buffered, body. intros H. destruct type as [|n|n]; [naive_solver| |done].
  destruct n as [[[[]|[]|]|[]|]|[[]|[]|]|]; try done; naive_solver.
Qed.

Lemma body_push_promise len p x :
  p ≠ [] → varint p ≠ None → announced (hd 0 p) <= len → body 5 len (p ++ x) = body 5 len p ++ each OnPushPromiseFramePayload x.
Proof.
  intros Hp Hv Ha. destruct p as [|b p]; [done|]. cbn [hd] in Ha. cbn [body app]. destruct (Z.ltb_spec len (announced b)); [lia|].
  destruct (varint (b :: p)) as [[id k]|] eqn:E; [|done]. apply (varint_app _ _ _ x) in E. cbn [app] in E. rewrite E.
  unfold each. by rewrite map_app.
Qed.

Lemma heard_one f x : (∀ p, pieces (f p) = map (λ b, f [b]) p) → heard [f x] = each f x.
Proof. intros H. unfold heard, each. cbn. rewrite app_nil_r, H, map_map. done. Qed.

(** *** Each round tells what the bytes it reads mean *)

Lemma tracking_more input bs r r' s x :
  input = bs ++ ReaderSpec.rest r → ReaderSpec.rest r = x ++ ReaderSpec.rest r' →
  tracked s (bs ++ x) ∨ Overrun ∈ messages (bs ++ x) → tracking input r' s.
Proof. intros -> -> H. exists (bs ++ x). by rewrite <-app_assoc. Qed.

Lemma tracked_phase s done l cur k :
  whole done l → phase s.1 cur k → calls (l ++ k) = heard s.2 → tracked s (done ++ cur).
Proof. intros H1 H2 H3. left. by exists done, l, cur, k. Qed.

Lemma whole_frame d log done l h p e :
  whole done l → header (current_frame_type d) (current_frame_length d) h →
  current_frame_length d <= MaxFrameLength (wrap8 (current_frame_type d)) → zlen p = current_frame_length d →
  end_of_frame (current_frame_type d) p = Some e →
  calls (l ++ begins (current_frame_type d) (current_frame_length d) (zlen h) ++ body (current_frame_type d) (current_frame_length d) p
         ++ option_event e) = heard log →
  tracked (next_frame d, log) (done ++ h ++ p).
Proof.
  intros Hw Hh Hm Hp He Hlog. left. eexists (done ++ h ++ p), _, [], []. rewrite !app_nil_r. split; [done|]. split; [|split; [apply phase_type; [done|done|by left]|exact Hlog]].
  intros x. rewrite <-!app_assoc. rewrite Hw. f_equal. rewrite (messages_whole (current_frame_type d) (current_frame_length d)) by (done || lia).
  by rewrite He.
Qed.

(** A frame that was buffered is parsed from the buffer. *)
Lemma end_of_buffered d p :
  remaining_frame_length d = 0 → zlen p = current_frame_length d - remaining_frame_length d →
  (buffered (current_frame_type d) = true → take (length p) (buffer d) = p) →
  end_of_frame (current_frame_type d) (take (Z.to_nat (current_frame_length d)) (buffer d)) = end_of_frame (current_frame_type d) p.
Proof.
  intros H0 Hp Hbuf. destruct (buffered (current_frame_type d)) eqn:Eb; [|by apply end_of_unbuffered]. specialize (Hbuf eq_refl).
  replace (Z.to_nat (current_frame_length d)) with (length p) by (unfold zlen in *; lia). by rewrite Hbuf.
Qed.

Lemma end_event_whole type p e : end_of_frame type p = Some (Some e) → pieces e = [e].
Proof.
  unfold end_of_frame. destruct type as [|n|n]; [by intros [= <-]| |done].
  do 4 (try destruct n as [n|n|]); intros H; try done; try (by injection H as <-);
    (destruct (Reader.ReadVarInt62 _).1 + destruct (ParsePriorityFrame _) + destruct (ParseSettingsFrame _)); cbn in H; by simplify_eq.
Qed.

Lemma start_event_whole type n len e : start_event type n len = Some e → pieces e = [e].
Proof. unfold start_event. destruct type as [|[[]|[[]|[]|]|]|]; intros H; try done; by injection H as <-. Qed.

Lemma type_tracks input bs r s :
  readable r → ReaderSpec.rest r ≠ [] → state_ s.1 = STATE_READING_FRAME_TYPE → input = bs ++ ReaderSpec.rest r → tracked s bs →
  let '(d', r') := ReadFrameType r s.1 in tracking input r' (d', s.2).
Proof.
  intros Hr Hne Hs Hin [(dn&l&cur&k&->&Hw&Hph&Hk)|[Hs' _]]; [|congruence].
  destruct Hph as [cur _ Hl0 Hf|T cur Hs' _ _ _|h p Hs' _ _ _ _ _ _]; [|congruence|destruct (_ =? 0); congruence].
  rewrite ReadFrameType_field. pose proof (read_field_spec r _ (current_frame_type s.1) cur Hr Hne Hf) as Hspec.
  destruct (read_field _ _ _) as [[[v|] f] r']; destruct Hspec as (_&x&_&E&Hv);
    apply (tracking_more _ _ _ _ _ x Hin E); left; rewrite <-app_assoc; apply (tracked_phase _ dn l _ []); try done; cbn [fst].
  - destruct Hv as [Hv Hn]. rewrite <-(app_nil_r (cur ++ x)). apply phase_length; [done|done|done|by left].
  - apply phase_type; [done|done|right; apply Hv].
Qed.

Lemma header_tracks s dn l T L v f :
  whole dn l → calls l = heard s.2 → varint T = Some (current_frame_type s.1, []) → field_length (type_field s.1) = zlen T →
  varint L = Some (v, []) → field_length f = zlen L →
  tracked (frame_header_read visitor (with_length s.1 v f, s.2)).2 (dn ++ T ++ L).
Proof.
  intros Hw Hl HT HTn HL HLn. destruct (varint_some _ _ _ HL) as (_&_&_&_&Hv&_).
  assert (Hh : header (current_frame_type s.1) v (T ++ L)) by (exists L; split; [by apply (varint_app _ _ [])|done]).
  unfold frame_header_read. cbn [fst snd current_frame_type current_frame_length with_length length_field type_field].
  destruct (Z.ltb_spec (MaxFrameLength (wrap8 (current_frame_type s.1))) v) as [Hm|Hm].
  { right. split; [done|]. left. cbn [fst snd]. rewrite Hw, <-(app_nil_r (T ++ L)), (messages_too_large (current_frame_type s.1) v) by done.
    rewrite calls_app, Hl, heard_app, <-app_assoc. done. }
  rewrite HLn, HTn. set (e := start_event (current_frame_type s.1) (zlen L + zlen T) v). set (s1 := (with_length s.1 v f, s.2)).
  pose proof (maybe_call_spec e s1) as Hc. destruct (maybe_call visitor e s1) as [b s2]. cbn [fst snd] in Hc. destruct Hc as (E&Hh2&_).
  unfold on_decoder. cbn [fst snd]. rewrite E.
  assert (Hcalls : calls (begins (current_frame_type s.1) v (zlen (T ++ L)) ++ body (current_frame_type s.1) v []) = match e with Some e => Event <$> pieces e | None => [] end).
  { rewrite calls_app, calls_begins, zlen_app. replace (zlen T + zlen L) with (zlen L + zlen T) by lia. fold e.
    assert (calls (body (current_frame_type s.1) v []) = []) as -> by by destruct (current_frame_type s.1) as [|[[[[]|[]|]|[]|]|[[]|[]|]|]|].
    rewrite app_nil_r. destruct e as [e'|] eqn:Ee; [|done]. cbn. by rewrite (start_event_whole _ _ _ _ Ee). }
  apply (tracked_phase _ dn l _ (begins (current_frame_type s.1) v (zlen (T ++ L)) ++ body (current_frame_type s.1) v []));
    [done| |cbn [fst snd]; by rewrite calls_app, Hl, Hcalls, Hh2]. rewrite <-(app_nil_r (T ++ L)) at 1.
  apply (phase_payload (with_state (with_remaining (with_length s.1 v f) v) _)); try done; cbn -[Z.sub zlen]; rewrite ?zlen_nil; try lia; try done.
Qed.

Lemma length_tracks input bs r s :
  readable r → ReaderSpec.rest r ≠ [] → state_ s.1 = STATE_READING_FRAME_LENGTH → input = bs ++ ReaderSpec.rest r → tracked s bs →
  let '(_, s', r') := ReadFrameLength visitor r s in tracking input r' s'.
Proof.
  intros Hr Hne Hs Hin [(dn&l&cur0&k&->&Hw&Hph&Hk)|[Hs' _]]; [|congruence].
  destruct Hph as [cur Hs' _ _|T cur _ HT HTn Hf|h p Hs' _ _ _ _ _ _]; [congruence| |destruct (_ =? 0); congruence]. rewrite app_nil_r in Hk.
  rewrite ReadFrameLength_field. pose proof (read_field_spec r _ (current_frame_length s.1) cur Hr Hne Hf) as Hspec.
  destruct (read_field _ _ _) as [[[v|] f] r']; destruct Hspec as (_&x&_&E&Hv).
  - destruct Hv as [Hv Hn]. pose proof (header_tracks s dn l T (cur ++ x) v f Hw Hk HT HTn Hv Hn) as Ht.
    destruct (frame_header_read _ _) as [b s']. cbn [snd] in Ht. apply (tracking_more _ _ _ _ _ x Hin E). left. by rewrite <-!app_assoc.
  - apply (tracking_more _ _ _ _ _ x Hin E). left. rewrite <-!app_assoc. apply (tracked_phase _ dn l _ []); [done| |by rewrite app_nil_r].
    apply phase_length; [done|done|done|right; apply Hv].
Qed.

Lemma finish_tracks input bs r s :
  readable r → state_ s.1 = STATE_FINISH_PARSING → input = bs ++ ReaderSpec.rest r → tracked s bs →
  tracking input r (FinishParsing visitor s).2.
Proof.
  intros Hr Hs Hin [(dn&l&cur0&k&->&Hw&Hph&Hk)|[Hs' _]]; [|congruence].
  destruct Hph as [cur Hs' _ _|T cur Hs' _ _ _|h p Hs' Hh Hm H0 Hp Hbuf Hpp]; [congruence|congruence|].
  destruct (Z.eqb_spec (remaining_frame_length s.1) 0) as [E0|]; [|congruence].
  pose proof (end_of_buffered s.1 p E0 Hp Hbuf) as Hend.
  apply (tracking_more _ _ _ _ _ [] Hin eq_refl). left. rewrite app_nil_r. unfold FinishParsing. rewrite Hend.
  destruct (end_of_frame (current_frame_type s.1) p) as [e|] eqn:Ee.
  - pose proof (maybe_call_spec e s) as Hc. destruct (maybe_call visitor e s) as [b s']. cbn [fst snd] in Hc. destruct Hc as (E&Hh2&_).
    unfold on_decoder. cbn [snd]. rewrite E. apply (whole_frame s.1 s'.2 dn l h p e); try done; [lia|].
    rewrite Hh2, <-Hk, (app_assoc (begins _ _ _)), (app_assoc l), calls_app, calls_option. f_equal. destruct e as [e|]; [|done].
    cbn. by rewrite (end_event_whole _ _ _ Ee).
  - right. split; [done|]. left. rewrite Hw, <-(app_nil_r p).
    rewrite (messages_whole (current_frame_type s.1) (current_frame_length s.1)) by (done || lia). rewrite Ee.
    rewrite !app_assoc, calls_app. f_equal. by rewrite <-app_assoc.
Qed.

Lemma payload_done_tracked d log dn l h p :
  whole dn l → state_ d = STATE_READING_FRAME_PAYLOAD →
  header (current_frame_type d) (current_frame_length d) h → current_frame_length d <= MaxFrameLength (wrap8 (current_frame_type d)) →
  0 <= remaining_frame_length d → zlen p = current_frame_length d - remaining_frame_length d →
  (buffered (current_frame_type d) = true → take (length p) (buffer d) = p) →
  (current_frame_type d = 5 → p ≠ [] → varint p ≠ None ∧ announced (hd 0 p) <= current_frame_length d) →
  calls (l ++ begins (current_frame_type d) (current_frame_length d) (zlen h) ++ body (current_frame_type d) (current_frame_length d) p)
    = heard log →
  tracked (payload_done (d, log)) (dn ++ h ++ p).
Proof.
  intros Hw Hs Hh Hm H0 Hp Hb Hpp Hl. eapply tracked_phase; [exact Hw| |exact Hl]. unfold payload_done, on_decoder. cbn [fst].
  destruct (remaining_frame_length d =? 0) eqn:E.
  - by apply (phase_payload (with_state d STATE_FINISH_PARSING)); cbn; rewrite ?E.
  - by apply phase_payload; rewrite ?E.
Qed.

Lemma overrun_heard len h b p :
  header 5 len h → 0 < len < announced b → Overrun ∈ messages (h ++ b :: p).
Proof.
  intros Hh Hlen. destruct (header_app 5 len h (b :: p) Hh) as (l&E1&E2&_&Hb). rewrite messages_frame. unfold frame. rewrite E1, E2.
  destruct (Z.ltb_spec (MaxFrameLength (wrap8 5)) len) as [Hm|_].
  { change (MaxFrameLength (wrap8 5)) with (two64 - 1) in Hm. unfold two64 in Hm. lia. }
  apply elem_of_app. right. apply elem_of_app. left. destruct (Z.to_nat len) as [|n] eqn:En; [lia|]. cbn [take body].
  destruct (Z.ltb_spec len (announced b)); [|lia]. by apply list_elem_of_singleton.
Qed.

(** The rounds of a payload, by the kind of the frame. *)
Section payload.
Context (input : list Z) (r : Reader.t) (s : io) (dn : list Z) (l : list item) (h p : list Z).
Abbreviation type := (current_frame_type s.1).
Abbreviation len := (current_frame_length s.1).
Context (Hr : readable r) (Hne : ReaderSpec.rest r ≠ []) (Hs : state_ s.1 = STATE_READING_FRAME_PAYLOAD).
Context (Hrem : 0 < remaining_frame_length s.1).
Context (Hin : input = (dn ++ h ++ p) ++ ReaderSpec.rest r).
Context (Hw : whole dn l) (Hh : header type len h) (Hm : len <= MaxFrameLength (wrap8 type)).
Context (Hp : zlen p = len - remaining_frame_length s.1).
Context (Hpp : type = 5 → p ≠ [] → varint p ≠ None ∧ announced (hd 0 p) <= len).
Context (Hl : calls (l ++ begins type len (zlen h) ++ body type len p) = heard s.2).

Lemma buffered_tracks :
  buffered type = true → take (length p) (buffer s.1) = p →
  let '(d, r') := BufferFramePayload r s.1 in tracking input r' (payload_done (d, s.2)).
Proof.
  intros Eb Hb. pose proof (zlen_nonneg p).
  destruct (buffer_payload_spec r s.1 Hr Hne ltac:(lia)) as (x&r'&b&->&H1&H2&H3&H4&_&H6).
  apply (tracking_more _ _ _ _ _ x Hin H2). left. rewrite <-!app_assoc.
  apply (payload_done_tracked (with_buffer s.1 _ _) s.2 dn l h (p ++ x)); cbn -[zlen body begins]; try done; rewrite ?zlen_app; try lia.
  - intros _. by apply H6.
  - intros E. rewrite E in Eb. done.
  - rewrite <-Hl. do 3 f_equal. by rewrite !body_silent by (by left).
Qed.

Lemma passed_tracks :
  type = 0 ∨ type = 1 →
  let '(_, s', r') := pass_payload visitor (if type =? 0 then OnDataFramePayload else OnHeadersFramePayload) r s in
  tracking input r' (payload_done s').
Proof.
  intros Ht. edestruct pass_payload_spec as (x&r'&->&H1&H2&H3&H4); [done..|].
  apply (tracking_more _ _ _ _ _ x Hin H2). left. rewrite <-!app_assoc.
  apply (payload_done_tracked (with_remaining s.1 _) _ dn l h (p ++ x)); cbn -[zlen body begins]; try done; rewrite ?zlen_app; try lia.
  rewrite body_passed by done. rewrite !app_assoc, calls_app, <-!app_assoc, Hl, heard_app, calls_each. f_equal. symmetry. apply heard_one. by destruct (type =? 0).
Qed.

Lemma discarded_tracks :
  buffered type = false → type ≠ 5 → type ≠ 0 → type ≠ 1 →
  let '(d, r') := DiscardFramePayload r s.1 in tracking input r' (d, s.2).
Proof.
  intros Eb E5 E0 E1. destruct (discard_spec r s.1 Hr Hne Hrem) as (x&r'&->&H1&H2&H3&H4). cbv zeta.
  assert (Hbody : ∀ q, body type len q = []) by (intros q; apply body_silent; right; done).
  apply (tracking_more _ _ _ _ _ x Hin H2). left. rewrite <-!app_assoc. cbn [remaining_frame_length with_remaining].
  destruct (Z.eqb_spec (remaining_frame_length s.1 - zlen x) 0) as [Ez|Ez].
  - assert (He : end_of_frame type (p ++ x) = Some None).
    { unfold buffered, end_of_frame in *. destruct type as [|n|n]; [done| |done]. do 4 (try destruct n as [n|n|]; try done). }
    apply (whole_frame (with_remaining s.1 _) s.2 dn l h (p ++ x) None); cbn -[zlen body begins]; try done; [rewrite zlen_app; lia|].
    by rewrite <-Hl, !Hbody, ?app_nil_r.
  - apply (tracked_phase _ dn l _ (begins type len (zlen h) ++ body type len (p ++ x))); [exact Hw| |cbn [snd]; by rewrite <-Hl, !Hbody].
    apply (phase_payload (with_remaining s.1 _) h (p ++ x)); cbn -[zlen body begins]; try done; rewrite ?zlen_app; try lia.
    + by destruct (Z.eqb_spec (remaining_frame_length s.1 - zlen x) 0).
    + intros Et. unfold buffered in Eb. cbn [existsb] in Eb. congruence.
Qed.

Lemma push_promise_tracks :
  type = 5 →
  let '(o, s', r') := read_push_promise visitor r s in
  match o with Some _ => tracking input r' (payload_done s') | None => tracking input r' s' end.
Proof.
  intros Ht. pose proof (read_push_promise_cases r s Hr Hne Hrem) as Hc. cbv zeta in Hc. rewrite Ht in *. pose proof (zlen_nonneg p).
  assert (Hpiece : ∀ q y r2 rem log, q ≠ [] → varint q ≠ None → announced (hd 0 q) <= len →
    input = (dn ++ h ++ q ++ y) ++ ReaderSpec.rest r2 → rem = len - zlen (q ++ y) → 0 <= rem →
    calls (l ++ begins 5 len (zlen h) ++ body 5 len q) ++ each OnPushPromiseFramePayload y = heard log →
    tracking input r2 (payload_done (with_remaining s.1 rem, log))).
  { intros q y r2 rem log Hq Hv Ha Hin2 -> H0 Hlog. exists (dn ++ h ++ q ++ y). split; [done|]. left.
    apply (payload_done_tracked (with_remaining s.1 _) log dn l h (q ++ y)); cbn -[zlen body begins]; rewrite ?Ht; try done; try lia.
    - intros _ _. destruct (varint q) as [[? ?]|] eqn:E; [|done]. apply (varint_app _ _ _ y) in E. rewrite E. by destruct q.
    - rewrite body_push_promise by done. by rewrite !app_assoc, calls_app, <-!app_assoc, calls_each. }
  destruct (Z.eqb_spec len (remaining_frame_length s.1)) as [El|El].
  - assert (p = []) as -> by (apply length_zero_iff_nil; unfold zlen in *; lia). cbn [body] in Hl. rewrite app_nil_r in Hl.
    destruct (varint (ReaderSpec.rest r)) as [[id k]|].
    + destruct Hc as (x&r1&Hx&Hv&Hr1&E&Hc). destruct x as [|b x]; [done|]. set (q := b :: x) in *.
      pose proof (varint_exact _ _ _ Hv) as Hqa. fold q in Hqa. pose proof (varint_len_pos _ (announced_len b)) as Hn.
      destruct (Z.ltb_spec len (announced b)) as [Hover|Hfit].
      { assert (Hgo : ∀ r' s', (∃ y, ReaderSpec.rest r1 = y ++ ReaderSpec.rest r') → tracking input r' s').
        { intros r' s' [y Hy]. apply (tracking_more _ _ _ _ _ (q ++ y) Hin); [by rewrite E, Hy, <-app_assoc|]. right.
          rewrite app_nil_r, <-!app_assoc, Hw. apply elem_of_app. right. apply (overrun_heard len); [done|lia]. }
        destruct (negb _); [|destruct (_ || _)]; [rewrite Hc; apply Hgo; by exists []|rewrite Hc; apply Hgo; by exists []|].
        destruct Hc as (y&r2&_&_&Hy&_&->). apply Hgo. by exists y. }
      assert (Hin1 : input = (dn ++ h ++ q) ++ ReaderSpec.rest r1) by (rewrite Hin, E, app_nil_r, <-!app_assoc; done).
      assert (Hrw : wrap64 (len - zlen q) = len - zlen q).
      { apply Z.mod_small. destruct (header_app _ _ _ [] Hh) as (_&_&_&_&?). unfold two64. lia. }
      assert (Hstart : body 5 len q = [Event (OnPushPromiseFrameStart id)]).
      { unfold q. cbn [body]. destruct (Z.ltb_spec len (announced b)); [lia|]. fold q. by rewrite Hv. }
      assert (Hlog : calls (l ++ begins 5 len (zlen h) ++ body 5 len q) = heard (s.2 ++ [OnPushPromiseFrameStart id])).
      { rewrite Hstart, app_assoc, calls_app, Hl, heard_app. done. }
      assert (H1 : tracking input r1 (payload_done (with_remaining s.1 (len - zlen q), s.2 ++ [OnPushPromiseFrameStart id]))).
      { apply (Hpiece q [] r1); rewrite ?app_nil_r; try done; [by rewrite Hv|lia]. }
      rewrite Hrw in Hc. destruct (negb _); [|destruct (_ || _)]; [by rewrite Hc|by rewrite Hc|].
      destruct Hc as (y&r2&_&_&Hy&Hyl&->). apply (Hpiece q y r2); try done; [by rewrite Hv| |rewrite zlen_app; lia|lia|].
      * by rewrite Hin1, Hy, <-!app_assoc.
      * cbn [snd]. rewrite Hlog, (heard_app (_ ++ _)). f_equal. symmetry. by apply heard_one.
    + rewrite Hc. apply (tracking_more _ _ _ _ _ [] Hin eq_refl). left. right. split; [done|]. right.
      assert (Hmsg : messages ((dn ++ h ++ []) ++ []) = l ++ begins 5 len (zlen h)).
      { rewrite (app_nil_r (dn ++ _)), Hw. f_equal. rewrite (messages_payload 5 len) by (rewrite ?zlen_nil; done || lia). by rewrite app_nil_r. }
      rewrite Hmsg. split; [exact Hl|]. rewrite begins_push_promise by lia. apply last_app_singleton.
  - destruct Hc as (y&r2&_&_&Hy&Hyl&->). assert (Hpn : p ≠ []) by (intros ->; rewrite zlen_nil in Hp; lia).
    destruct (Hpp eq_refl Hpn) as [Hv Ha]. apply (Hpiece p y r2); try done.
    + by rewrite Hin, Hy, <-!app_assoc.
    + rewrite zlen_app. lia.
    + lia.
    + rewrite Hl. cbn [snd]. rewrite heard_app. f_equal. symmetry. by apply heard_one.
Qed.
End payload.

Lemma payload_tracks input bs r s :
  readable r → ok s.1 → ReaderSpec.rest r ≠ [] → state_ s.1 = STATE_READING_FRAME_PAYLOAD → input = bs ++ ReaderSpec.rest r →
  tracked s bs → let '(_, s', r') := ReadFramePayload visitor r s in tracking input r' s'.
Proof.
  intros Hr [_ Hok] Hne Hs Hin [(dn&l&cur0&k&->&Hw&Hph&Hk)|[Hs' _]]; [|congruence]. rewrite Hs in Hok. destruct Hok as [Hrem _].
  destruct Hph as [cur Hs' _ _|T cur Hs' _ _ _|h p _ Hh Hm _ Hp Hbuf Hpp]; [congruence|congruence|].
  rewrite ReadFramePayload_cases. cbv zeta. destruct (buffered (current_frame_type s.1)) eqn:Eb.
  { pose proof (buffered_tracks input r s dn l h p) as H. destruct (BufferFramePayload r s.1) as [d r']. by apply H, Hbuf. }
  destruct (Z.eqb_spec (current_frame_type s.1) 5) as [E5|E5].
  { pose proof (push_promise_tracks input r s dn l h p) as H. destruct (read_push_promise visitor r s) as [[[o|] s'] r']; by apply H. }
  destruct (_ || _) eqn:E01.
  - pose proof (passed_tracks input r s dn l h p) as H. destruct (pass_payload visitor _ r s) as [[b s'] r']. apply H; done || lia.
  - pose proof (discarded_tracks input r s dn l h p) as H. destruct (DiscardFramePayload r s.1) as [d r']. apply H; done || lia.
Qed.

Lemma step_tracks input r s :
  readable r → ok s.1 → ReaderSpec.rest r ≠ [] ∨ state_ s.1 = STATE_FINISH_PARSING → state_ s.1 ≠ STATE_ERROR → tracking input r s →
  let '(_, s', r') := process_step visitor r s in tracking input r' s'.
Proof.
  intros Hr Hok Hne Hs (bs&Hin&Ht). pose proof (process_step_ok r s Hr Hok Hne Hs) as Hn.
  assert (Hgo : tracked s bs → let '(_, s', r') := process_step visitor r s in tracking input r' s').
  { clear Ht Hn. intros Ht. unfold process_step. destruct (state_ s.1) eqn:E; try done.
    - destruct Hne as [Hne|]; [|done]. by apply (length_tracks input bs).
    - destruct Hne as [Hne|]; [|done]. pose proof (type_tracks input bs r s Hr Hne E Hin Ht) as H. by destruct (ReadFrameType r s.1).
    - destruct Hne as [Hne|]; [|done]. by apply (payload_tracks input bs).
    - pose proof (finish_tracks input bs r s Hr E Hin Ht) as H. by destruct (FinishParsing visitor s). }
  destruct Ht as [Ht|Hover]; [by apply Hgo|]. destruct (process_step visitor r s) as [[b s'] r']. destruct Hn as (_&[x Hx]&_).
  apply (tracking_more _ _ _ _ _ x Hin Hx). right. destruct (messages_app bs x) as [y ->]. apply elem_of_app. by left.
Qed.

(** A call to [ProcessInput]. *)
Lemma ProcessInput_spec data bs s :
  bytes data → ok s.1 → state_ s.1 ≠ STATE_ERROR → tracked s bs ∨ Overrun ∈ messages bs →
  ∃ n s', ProcessInput visitor data s = Some (n, s') ∧ 0 <= n <= zlen data
  ∧ (tracked s' (bs ++ take (Z.to_nat n) data) ∨ Overrun ∈ messages (bs ++ take (Z.to_nat n) data))
  ∧ zlen (buffer s'.1) <= 1048576 ∧ (state_ s'.1 ≠ STATE_ERROR → ok s'.1)
  ∧ ((n = zlen data ∧ state_ s'.1 ≠ STATE_FINISH_PARSING ∧ state_ s'.1 ≠ STATE_ERROR)
     ∨ state_ s'.1 = STATE_ERROR ∨ ∃ log e, visitor log e = false).
Proof.
  intros Hd Hok Hs Ht. pose proof (readable_new data NETWORK_BYTE_ORDER Hd) as Hr.
  destruct (process_ok (tracking (bs ++ data)) (2 * length data + 2) (Reader.new data NETWORK_BYTE_ORDER) s) as
    (s'&r'&E&Hr'&[x Hx]&(bs'&Hin&Ht')&Hb&Hok'&Hend); [by intros; by apply step_tracks|done|done|done| | |].
  { exists bs. by rewrite ReaderSpec.new_rest. }
  { unfold work. rewrite ReaderSpec.new_rest. unfold zlen. case_bool_decide; lia. }
  rewrite ReaderSpec.new_rest in Hx. pose proof (readable_rest r' Hr') as [_ Hl].
  assert (bs' = bs ++ x) as -> by (rewrite Hx, app_assoc in Hin; by apply app_inv_tail in Hin).
  assert (Hn : zlen data - Reader.BytesRemaining r' = zlen x) by (rewrite Hx, zlen_app; lia).
  unfold ProcessInput. rewrite E. exists (zlen x), s'. rewrite <-Hn at 1. split; [done|]. pose proof (zlen_nonneg x).
  pose proof (zlen_nonneg (ReaderSpec.rest r')). split; [lia|].
  replace (take (Z.to_nat (zlen x)) data) with x by (rewrite Hx; symmetry; apply take_app_length'; unfold zlen; lia).
  split; [done|]. split; [done|]. split; [done|]. destruct Hend as [(Hnil&H1)|Hend]; [left|by right]. split; [|done].
  rewrite Hnil, zlen_nil in Hl. lia.
Qed.

(** Any use of a decoder: chunks of any length, what was not processed of one comes again in another one. *)
Inductive decoding : io → list Z → Prop :=
| decoding_start : decoding (new, []) []
| decoding_more s bs data n s' :
    decoding s bs → state_ s.1 ≠ STATE_ERROR → bytes data → ProcessInput visitor data s = Some (n, s') →
    decoding s' (bs ++ take (Z.to_nat n) data).

Lemma decoding_spec s bs :
  decoding s bs → zlen (buffer s.1) <= 1048576 ∧ (state_ s.1 ≠ STATE_ERROR → ok s.1) ∧ (tracked s bs ∨ Overrun ∈ messages bs).
Proof.
  induction 1 as [|s bs data n s' _ (Hb&Hok&Ht) Hs Hd E].
  - split; [done|]. split; [intros _; split; [done|]; split; [done|]; exists []; by left|]. left.
    apply (tracked_phase _ [] [] [] []); [apply whole_nil|apply phase_new|done].
  - destruct (ProcessInput_spec data bs s Hd (Hok Hs) Hs Ht) as (n2&s2&E2&_&H1&H2&H3&_). rewrite E in E2. injection E2 as <- <-. done.
Qed.

Lemma tracked_messages s bs :
  tracked s bs →
  calls (messages bs) = heard s.2 ++ (if decide (state_ s.1 = STATE_ERROR) then [Broken] else pending s.1)
  ∨ state_ s.1 = STATE_ERROR ∧ calls (messages bs) = heard s.2 ∧ last (messages bs) = Some PushPromiseBegins.
Proof.
  intros [(dn&l&cur0&k&->&Hw&Hph&Hk)|[Hs [Hm|Hm]]]; [left|left; by rewrite decide_True|by right].
  rewrite Hw. unfold pending. destruct Hph as [cur Hs _ Hf|T cur Hs HT _ Hf|h p Hs Hh Hm H0 Hp Hbuf _].
  - rewrite Hs. destruct (decide _) as [|_]; [done|]. destruct (decide _) as [|_]; [done|]. rewrite messages_header_cut by (left; by apply (partial_cut _ _ Hf)).
    by rewrite Hk, app_nil_r.
  - rewrite Hs. destruct (decide _) as [|_]; [done|]. destruct (decide _) as [|_]; [done|]. rewrite messages_header_cut; [by rewrite Hk, app_nil_r|].
    right. eexists _, _. split; [by apply (varint_app _ _ []), HT|]. by apply (partial_cut _ _ Hf).
  - destruct (Z.eqb_spec (remaining_frame_length s.1) 0) as [E0|E0]; rewrite Hs.
    + destruct (decide _) as [|_]; [done|]. rewrite decide_True by done. rewrite <-(app_nil_r p) at 1.
      rewrite (messages_whole (current_frame_type s.1) (current_frame_length s.1)) by (done || lia).
      pose proof (end_of_buffered s.1 p E0 Hp Hbuf) as Hend.
      rewrite Hend, !app_assoc, calls_app, <-app_assoc, Hk. f_equal. destruct (end_of_frame _ p) as [e|]; [|done].
      change (messages []) with (@nil item). rewrite app_nil_r. apply calls_option.
    + destruct (decide _) as [|_]; [done|]. destruct (decide _) as [|_]; [done|]. rewrite (messages_payload (current_frame_type s.1) (current_frame_length s.1)) by (done || lia).
      by rewrite app_nil_r, Hk.
Qed.

(** C19. The decoder reports what the stream of frames means, however it is cut. In any use of it, with chunks of any length and a visitor
    that may pause it at any call, the calls made so far, payloads taken byte by byte, are exactly those that
    the bytes processed so far stand for as one string, except for the end of a frame that the visitor put off, or up to the
    first frame that is refused. The one input that is judged by its cuts is a push id that does not come in one
    piece: it is refused. (Nothing is claimed once a push id does not fit into its frame.) *)
Theorem decoder_reports_the_stream s bs :
  decoding s bs → Overrun ∉ messages bs →
  calls (messages bs) = heard s.2 ++ (if decide (state_ s.1 = STATE_ERROR) then [Broken] else pending s.1)
  ∨ state_ s.1 = STATE_ERROR ∧ calls (messages bs) = heard s.2 ∧ last (messages bs) = Some PushPromiseBegins.
Proof. intros Hd Ho. destruct (decoding_spec s bs Hd) as (_&_&[Ht|]); [|done]. by apply tracked_messages. Qed.

(** C40. [ProcessInput] ends on any input, having processed a part of it, and never keeps more than 2^20 bytes of a frame. If the
    visitor does not pause it, it processes all of the input and leaves no frame unfinished, unless it finds an
    error. *)
Theorem ProcessInput_ends data s bs :
  decoding s bs → state_ s.1 ≠ STATE_ERROR → bytes data →
  ∃ n s', ProcessInput visitor data s = Some (n, s') ∧ 0 <= n <= zlen data ∧ zlen (buffer s'.1) <= 1048576
  ∧ ((∀ log e, visitor log e = true) → n = zlen data ∧ state_ s'.1 ≠ STATE_FINISH_PARSING ∨ state_ s'.1 = STATE_ERROR).
Proof.
  intros Hd Hs Hb. destruct (decoding_spec s bs Hd) as (_&Hok&Ht).
  destruct (ProcessInput_spec data bs s Hb (Hok Hs) Hs Ht) as (n&s'&E&Hn&_&Hbuf&_&Hend). exists n, s'.
  split; [done|]. split; [done|]. split; [done|]. intros Hv. destruct Hend as [(?&?&_)|[?|(log&e&He)]]; [by left|by right|].
  by rewrite Hv in He.
Qed.

(** After an error it would never end. *)
Lemma process_after_error fuel r s :
  state_ s.1 = STATE_ERROR → Reader.BytesRemaining r ≠ 0 → process visitor fuel r s = None.
Proof.
  intros Hs Hr. induction fuel as [|fuel IH]; cbn [process]; destruct (Z.eqb_spec (Reader.BytesRemaining r) 0); try done.
  cbn [andb]. unfold process_step. by rewrite Hs.
Qed.
End run.

(** *** Witnesses *)

(** The visitor pauses at the start of DATA frames. *)
Definition w_visitor (_ : list event) (e : event) : bool := match e with OnDataFrameStart _ _ => false | _ => true end.
Definition w_feed (s : io) (data : list Z) : io :=
  match ProcessInput w_visitor data s with Some (_, s') => s' | None => s end.
(** A SETTINGS and a DATA frame, cut inside of both; the third chunk is processed up to its fourth byte. *)
Definition w_run : io := w_feed (w_feed (w_feed (w_feed (new, []) [4]) [3; 1]) [64; 5; 0; 3; 10]) [10; 11].

Lemma w_decoding : decoding w_visitor w_run [4; 3; 1; 64; 5; 0; 3; 10; 11].
Proof.
  assert (H : ∀ s bs data n s', decoding w_visitor s bs → state_ s.1 ≠ STATE_ERROR → bytes data →
    ProcessInput w_visitor data s = Some (n, s') → w_feed s data = s' ∧ decoding w_visitor s' (bs ++ take (Z.to_nat n) data)).
  { intros s bs data n s' Hd Hs Hb E. split; [unfold w_feed; by rewrite E|]. by apply decoding_more with s. }
  assert (Hb : ∀ l, forallb (λ b, (0 <=? b) && (b <? 256)) l = true → bytes l).
  { intros l Hl. apply Forall_forall. intros b Hin. rewrite forallb_forall in Hl. apply list_elem_of_In in Hin. specialize (Hl b Hin). lia. }
  destruct (H (new, []) [] [4] 1 (w_feed (new, []) [4]) (decoding_start _) ltac:(done) ltac:(by apply Hb) ltac:(by vm_compute)) as [_ H1].
  destruct (H _ _ [3; 1] 2 (w_feed (w_feed (new, []) [4]) [3; 1]) H1 ltac:(by vm_compute) ltac:(by apply Hb) ltac:(by vm_compute)) as [_ H2].
  destruct (H _ _ [64; 5; 0; 3; 10] 4 (w_feed (w_feed (w_feed (new, []) [4]) [3; 1]) [64; 5; 0; 3; 10]) H2 ltac:(by vm_compute) ltac:(by apply Hb) ltac:(by vm_compute)) as [_ H3].
  destruct (H _ _ [10; 11] 2 w_run H3 ltac:(by vm_compute) ltac:(by apply Hb) ltac:(by vm_compute)) as [_ H4]. exact H4.
Qed.

Lemma decoder_reports_the_stream_witness :
  decoding w_visitor w_run [4; 3; 1; 64; 5; 0; 3; 10; 11] ∧ Overrun ∉ messages [4; 3; 1; 64; 5; 0; 3; 10; 11]
  ∧ w_run.2 = [OnSettingsFrameStart 2 3; OnSettingsFrame [(1, 5)]; OnDataFrameStart 2 3; OnDataFramePayload [10; 11]]
  ∧ calls (messages [4; 3; 1; 64; 5; 0; 3; 10; 11]) = heard w_run.2.
Proof.
  assert (Ho : Overrun ∉ messages [4; 3; 1; 64; 5; 0; 3; 10; 11]).
  { change (messages _) with [Event (OnSettingsFrameStart 2 3); Event (OnSettingsFrame [(1, 5)]); Event (OnDataFrameStart 2 3);
      Event (OnDataFramePayload [10]); Event (OnDataFramePayload [11])]. rewrite !elem_of_cons, elem_of_nil. naive_solver. }
  split; [exact w_decoding|]. split; [exact Ho|]. split; [by vm_compute|].
  destruct (decoder_reports_the_stream w_visitor w_run _ w_decoding Ho) as [H|(H&_&_)]; [|by vm_compute in H].
  rewrite H. change (if decide _ then [Broken] else pending w_run.1) with (@nil item). apply app_nil_r.
Defined.

Lemma ProcessInput_ends_witness :
  decoding w_visitor w_run [4; 3; 1; 64; 5; 0; 3; 10; 11] ∧ state_ w_run.1 ≠ STATE_ERROR
  ∧ ∃ n s', ProcessInput w_visitor [12; 1] w_run = Some (n, s') ∧ 0 <= n <= 2 ∧ zlen (buffer s'.1) <= 1048576.
Proof.
  split; [exact w_decoding|]. split; [by vm_compute|].
  destruct (ProcessInput_ends w_visitor [12; 1] w_run _ w_decoding ltac:(by vm_compute) ltac:(by repeat constructor)) as (n&s'&H1&H2&H3&_).
  exists n, s'. split; [exact H1|]. split; [exact H2|exact H3].
Defined.

(** *** Where the decoder departs from what it means to do *)

Definition w_always (_ : list event) (_ : event) : bool := true.

(** The type of a frame is cut to 8 bits before its limit is looked up: an unknown frame is taken for a PRIORITY frame. *)
Lemma unknown_frame_refused :
  ∃ s, ProcessInput w_always ([65; 2; 19] ++ replicate 19 0) (new, []) = Some (3, s) ∧ s.2 = [OnError] ∧ error s.1 = QUIC_INTERNAL_ERROR.
Proof. eexists. by vm_compute. Qed.

(** A push id that does not fit into its frame: what follows the frame is taken for its payload. *)
Lemma push_id_overruns :
  ∃ s, ProcessInput w_always [5; 1; 64; 1; 7; 0; 7; 0] (new, []) = Some (8, s) ∧ remaining_frame_length s.1 = two64 - 5
  ∧ s.2 = [OnPushPromiseFrameStart 1; OnPushPromiseFramePayload [7; 0; 7; 0]].
Proof. eexists. by vm_compute. Qed.

(** An error without [OnError]. *)
Lemma silent_error :
  ∃ s, ProcessInput w_always [3; 0] (new, []) = Some (2, s) ∧ s.2 = [] ∧ error s.1 = QUIC_INTERNAL_ERROR.
Proof. eexists. by vm_compute. Qed.

(** The end of a PUSH_PROMISE frame without its start. *)
Lemma empty_push_promise :
  ∃ s, ProcessInput w_always [5; 0] (new, []) = Some (2, s) ∧ s.2 = [OnPushPromiseFrameEnd].
Proof. eexists. by vm_compute. Qed.
End Http3.
