(* ===== verification/HttpEncoder.v ===== *)
(** [HttpEncoder] (quic/core/http/http_encoder.cc): the frames of HTTP/3 written for the stream. What it writes is
    what [HttpDecoder] reports at the other end. *)

From S2P Require Import Prelude Bytes DataWire HttpDecoder.

Module HttpEncoder.
Import HttpFrames.
Import Writer.
#[local] Open Scope writer_scope.

Definition kPriorityWeightLength : Z := 1.
Definition kPriorityFirstByteLength : Z := 1.
Definition kPriorityExclusiveBit : Z := 1.

Definition SetPriorityFields (num : Z) (type : PriorityElementType) (prioritized : bool) : Z :=
  match type with
  | REQUEST_STREAM => num
  | PUSH_STREAM => if prioritized then Z.lor num (Z.shiftl 1 6) else Z.lor num (Z.shiftl 1 4)
  | PLACEHOLDER => if prioritized then Z.lor num (Z.shiftl 1 7) else Z.lor num (Z.shiftl 1 5)
  | ROOT_OF_TREE =>
      if prioritized then Z.lor (Z.lor num (Z.shiftl 1 6)) (Z.shiftl 1 7) else Z.lor (Z.lor num (Z.shiftl 1 4)) (Z.shiftl 1 5)
  end.

(** A buffer of that length and the writes to it: the length, 0 when a write failed, and the buffer. *)
Definition serialize (length : Z) (write : action) : Z * list Z :=
  let '(success, w) := write (Writer.new (Z.to_nat length) NETWORK_BYTE_ORDER) in (if success then length else 0, buffer w).

Definition WriteFrameHeader (length : Z) (type : HttpFrameType) : action :=
  WriteVarInt62 (frame_type_value type) &&& WriteVarInt62 length.
Definition GetTotalLength (payload_length : Z) (type : HttpFrameType) : Z :=
  GetVarInt62Len payload_length + GetVarInt62Len (frame_type_value type) + payload_length.

Definition SerializeDataFrameHeader (payload_length : Z) : Z * list Z :=
  serialize (GetVarInt62Len payload_length + GetVarInt62Len (frame_type_value DATA)) (WriteFrameHeader payload_length DATA).
Definition SerializeHeadersFrameHeader (payload_length : Z) : Z * list Z :=
  serialize (GetVarInt62Len payload_length + GetVarInt62Len (frame_type_value HEADERS)) (WriteFrameHeader payload_length HEADERS).

Definition MaybeWriteId (type : PriorityElementType) (id : Z) : action :=
  if bool_decide (type = ROOT_OF_TREE) then ret true else WriteVarInt62 id.
Definition MaybeWriteIds (priority : PriorityFrame) : action :=
  MaybeWriteId (prioritized_type priority) (prioritized_element_id priority)
  &&& MaybeWriteId (dependency_type priority) (element_dependency_id priority).

Definition id_length (type : PriorityElementType) (id : Z) : Z :=
  if bool_decide (type = ROOT_OF_TREE) then 0 else GetVarInt62Len id.
(** The first byte of the payload. *)
Definition firstByte (priority : PriorityFrame) : Z :=
  let byte := SetPriorityFields (SetPriorityFields 0 (prioritized_type priority) true) (dependency_type priority) false in
  if exclusive priority then Z.lor byte kPriorityExclusiveBit else byte.

Definition SerializePriorityFrame (priority : PriorityFrame) : Z * list Z :=
  let payload_length :=
    kPriorityFirstByteLength + id_length (prioritized_type priority) (prioritized_element_id priority)
    + id_length (dependency_type priority) (element_dependency_id priority) + kPriorityWeightLength in
  serialize (GetTotalLength payload_length PRIORITY)
    (WriteFrameHeader payload_length PRIORITY &&& (WriteUInt8 (firstByte priority) &&& (MaybeWriteIds priority
     &&& WriteUInt8 (weight priority)))).

(** The frames whose payload is one id. *)
Definition serialize_id (type : HttpFrameType) (id : Z) : Z * list Z :=
  let payload_length := GetVarInt62Len id in
  serialize (GetTotalLength payload_length type) (WriteFrameHeader payload_length type &&& WriteVarInt62 id).
Definition SerializeCancelPushFrame (push_id : Z) : Z * list Z := serialize_id CANCEL_PUSH push_id.
Definition SerializeGoAwayFrame (stream_id : Z) : Z * list Z := serialize_id GOAWAY stream_id.
Definition SerializeMaxPushIdFrame (push_id : Z) : Z * list Z := serialize_id MAX_PUSH_ID push_id.
Definition SerializeDuplicatePushFrame (push_id : Z) : Z * list Z := serialize_id DUPLICATE_PUSH push_id.

Fixpoint settings_length (values : SettingsMap) : Z :=
  match values with
  | [] => 0
  | (id, content) :: rest => GetVarInt62Len id + GetVarInt62Len content + settings_length rest
  end.
Fixpoint write_settings (values : SettingsMap) : action :=
  match values with
  | [] => ret true
  | (id, content) :: rest => WriteVarInt62 id &&& (WriteVarInt62 content &&& write_settings rest)
  end.
Definition SerializeSettingsFrame (values : SettingsMap) : Z * list Z :=
  let payload_length := settings_length values in
  serialize (GetTotalLength payload_length SETTINGS) (WriteFrameHeader payload_length SETTINGS &&& write_settings values).

(** The headers follow, they are only counted. *)
Definition SerializePushPromiseFrameWithOnlyPushId (push_id headers_length : Z) : Z * list Z :=
  let payload_length := GetVarInt62Len push_id + headers_length in
  serialize (GetVarInt62Len payload_length + GetVarInt62Len (frame_type_value PUSH_PROMISE) + GetVarInt62Len push_id)
    (WriteFrameHeader payload_length PUSH_PROMISE &&& WriteVarInt62 push_id).
End HttpEncoder.

(** ** From end to end *)

Module Http3Link.
Import HttpFrames.
Import HttpEncoder.
Import HttpDecoder.
Import Http3.

Inductive http_frame :=
  | Data (payload : list Z) | Headers (payload : list Z) | Priority (frame : PriorityFrame) | CancelPush (push_id : Z)
  | Settings (values : SettingsMap) | PushPromise (push_id : Z) (headers : list Z) | GoAway (stream_id : Z)
  | MaxPushId (push_id : Z) | DuplicatePush (push_id : Z).

(** What the encoder returns, and what of the frame its caller adds. *)
Definition encoded (f : http_frame) : (Z * list Z) * list Z :=
  match f with
  | Data p => (SerializeDataFrameHeader (zlen p), p)
  | Headers p => (SerializeHeadersFrameHeader (zlen p), p)
  | Priority f => (SerializePriorityFrame f, [])
  | CancelPush id => (SerializeCancelPushFrame id, [])
  | Settings values => (SerializeSettingsFrame values, [])
  | PushPromise id hs => (SerializePushPromiseFrameWithOnlyPushId id (zlen hs), hs)
  | GoAway id => (SerializeGoAwayFrame id, [])
  | MaxPushId id => (SerializeMaxPushIdFrame id, [])
  | DuplicatePush id => (SerializeDuplicatePushFrame id, [])
  end.
Definition serialized (f : http_frame) : list Z := (encoded f).1.2 ++ (encoded f).2.

Definition is_id (id : Z) : Prop := 0 <= id < two62.
(** The frames the encoder is meant for, of a length the decoder accepts. *)
Definition valid (f : http_frame) : Prop :=
  match f with
  | Data p | Headers p => p ≠ [] ∧ zlen p < two62
  | Priority f =>
      is_id (prioritized_element_id f) ∧ is_id (element_dependency_id f) ∧ is_byte (weight f)
      ∧ (prioritized_type f = ROOT_OF_TREE → prioritized_element_id f = 0)
      ∧ (dependency_type f = ROOT_OF_TREE → element_dependency_id f = 0)
  | Settings values =>
      StronglySorted (λ a b, a.1 < b.1) values ∧ Forall (λ x, is_id x.1 ∧ is_id x.2) values
      ∧ settings_length values <= 1048576
  | PushPromise id hs => is_id id ∧ zlen hs + 8 < two62
  | GoAway id => 0 <= id < 2 ^ 30
  | CancelPush id | MaxPushId id | DuplicatePush id => is_id id
  end.

(** The calls for a frame, its payload byte by byte. *)
Definition expected (f : http_frame) : list item :=
  let header_length n := Writer.GetVarInt62Len n + 1 in
  match f with
  | Data p =>
      Event (OnDataFrameStart (header_length (zlen p)) (zlen p)) :: each OnDataFramePayload p ++ [Event OnDataFrameEnd]
  | Headers p =>
      Event (OnHeadersFrameStart (header_length (zlen p)) (zlen p)) :: each OnHeadersFramePayload p ++ [Event OnHeadersFrameEnd]
  | Priority f =>
      let n := 2 + id_length (prioritized_type f) (prioritized_element_id f) + id_length (dependency_type f) (element_dependency_id f) in
      [Event (OnPriorityFrameStart 2 n); Event (OnPriorityFrame f)]
  | CancelPush id => [Event (OnCancelPushFrame id)]
  | Settings values =>
      let n := settings_length values in [Event (OnSettingsFrameStart (header_length n) n); Event (OnSettingsFrame values)]
  | PushPromise id hs =>
      Event (OnPushPromiseFrameStart id) :: each OnPushPromiseFramePayload hs ++ [Event OnPushPromiseFrameEnd]
  | GoAway id => [Event (OnGoAwayFrame id)]
  | MaxPushId id => [Event (OnMaxPushIdFrame id)]
  | DuplicatePush id => [Event (OnDuplicatePushFrame id)]
  end.

(** *** What is written *)

Abbreviation net := NETWORK_BYTE_ORDER.
(** The encoding of an id. *)
Definition vb (v : Z) : list Z := WriterSpec.varint_bytes (Writer.GetVarInt62Len v) v.
Definition header_bytes (type : HttpFrameType) (len : Z) : list Z := vb (frame_type_value type) ++ vb len.
Definition payload (f : http_frame) : HttpFrameType * list Z :=
  match f with
  | Data p => (DATA, p)
  | Headers p => (HEADERS, p)
  | Priority f =>
      let id type id := if bool_decide (type = ROOT_OF_TREE) then [] else vb id in
      (PRIORITY, [firstByte f] ++ (id (prioritized_type f) (prioritized_element_id f)
                                   ++ id (dependency_type f) (element_dependency_id f)) ++ [weight f])
  | CancelPush id => (CANCEL_PUSH, vb id)
  | Settings values => (SETTINGS, concat (map (λ x, vb x.1 ++ vb x.2) values))
  | PushPromise id hs => (PUSH_PROMISE, vb id ++ hs)
  | GoAway id => (GOAWAY, vb id)
  | MaxPushId id => (MAX_PUSH_ID, vb id)
  | DuplicatePush id => (DUPLICATE_PUSH, vb id)
  end.

Lemma vb_length v : is_id v → zlen (vb v) = Writer.GetVarInt62Len v ∧ 1 <= Writer.GetVarInt62Len v <= 8.
Proof.
  intros Hv. destruct (WriterSpec.GetVarInt62Len_spec v) as (Hn&_&_); [exact Hv|]. split; [by apply WriterSpec.varint_bytes_length|].
  by apply varint_len_pos.
Qed.

Lemma vb_bytes v : bytes (vb v).
Proof. apply be_bytes_bytes. Qed.

Lemma vb_varint v k : is_id v → varint (vb v ++ k) = Some (v, k).
Proof. intros Hv. destruct (WriterSpec.GetVarInt62Len_spec v) as (Hn&Hl&_); [exact Hv|]. apply varint_encoding; [done|]. unfold is_id in Hv. lia. Qed.

Lemma emits_vb v : is_id v → WriterSpec.emits net (Writer.WriteVarInt62 v) (vb v).
Proof. intros Hv. by apply WriterSpec.emits_WriteVarInt62. Qed.

Lemma type_length type : Writer.GetVarInt62Len (frame_type_value type) = 1 ∧ is_id (frame_type_value type).
Proof. by destruct type. Qed.

Lemma emits_header len type : is_id len → WriterSpec.emits net (WriteFrameHeader len type) (header_bytes type len).
Proof. intros Hl. apply WriterSpec.emits_andthen; apply emits_vb; [apply type_length|done]. Qed.

Lemma header_length len type : is_id len → zlen (header_bytes type len) = 1 + Writer.GetVarInt62Len len.
Proof.
  intros Hl. unfold header_bytes. rewrite zlen_app, (proj1 (vb_length len Hl)), (proj1 (vb_length _ (proj2 (type_length type)))).
  by rewrite (proj1 (type_length type)).
Qed.

Lemma header_of len type : is_id len → header (frame_type_value type) len (header_bytes type len).
Proof.
  intros Hl. exists (vb len). split; [apply vb_varint, type_length|]. rewrite <-(app_nil_r (vb len)). by apply vb_varint.
Qed.

Lemma serialize_spec length act d : WriterSpec.emits net act d → length = zlen d → serialize length act = (zlen d, d).
Proof.
  intros He ->. pose proof (WriterSpec.writer_new_wf (Z.to_nat (zlen d)) net) as Hw. specialize (He _ Hw eq_refl). unfold serialize.
  destruct (act _) as [ok w]. destruct He as (Hw'&Hc&_&_&->&Hok).
  assert (Hcap : Writer.capacity (Writer.new (Z.to_nat (zlen d)) net) = zlen d).
  { unfold Writer.capacity, Writer.new, zlen. cbn. rewrite length_replicate. lia. }
  assert (Hr : (zlen d <=? Writer.remaining (Writer.new (Z.to_nat (zlen d)) net)) = true).
  { unfold Writer.remaining. rewrite Hcap. cbn. lia. }
  rewrite Hr in *. destruct (Hok eq_refl) as [H1 H2]. rewrite Hcap in Hc. cbn in H2.
  assert (E : WriterSpec.written w = Writer.buffer w).
  { unfold WriterSpec.written. apply take_ge. unfold Writer.capacity, zlen in *. lia. }
  rewrite <-E, H1. done.
Qed.

Lemma emits_id type id :
  is_id id →
  WriterSpec.emits net (MaybeWriteId type id) (if bool_decide (type = ROOT_OF_TREE) then [] else vb id)
  ∧ zlen (if bool_decide (type = ROOT_OF_TREE) then [] else vb id) = id_length type id ∧ 0 <= id_length type id <= 8.
Proof.
  intros Hid. unfold MaybeWriteId, id_length. destruct (bool_decide _).
  - split; [apply WriterSpec.emits_ret|]. done.
  - split; [by apply emits_vb|]. destruct (vb_length id Hid) as [-> ?]. split; [done|lia].
Qed.

Lemma emits_settings values :
  Forall (λ x, is_id x.1 ∧ is_id x.2) values →
  WriterSpec.emits net (write_settings values) (concat (map (λ x, vb x.1 ++ vb x.2) values))
  ∧ zlen (concat (map (λ x, vb x.1 ++ vb x.2) values)) = settings_length values.
Proof.
  induction 1 as [|[id c] values [H1 H2] _ [IH1 IH2]]; cbn [write_settings map concat settings_length fst snd].
  - split; [apply WriterSpec.emits_ret|done].
  - cbn in H1, H2. rewrite <-app_assoc. split.
    + repeat apply WriterSpec.emits_andthen; auto using emits_vb.
    + rewrite !zlen_app, IH2, (proj1 (vb_length _ H1)), (proj1 (vb_length _ H2)). lia.
Qed.

(** A frame is its header and its payload, and the encoder does not fail. *)
Lemma encoded_spec f :
  valid f → let '(type, p) := payload f in
  serialized f = header_bytes type (zlen p) ++ p ∧ is_id (zlen p) ∧ (encoded f).1.1 = zlen (encoded f).1.2 ∧ 0 < (encoded f).1.1.
Proof.
  assert (Hfin : ∀ type len n act rest p q, serialize n act = (zlen (header_bytes type len ++ q), header_bytes type len ++ q) → p = q ++ rest →
    zlen p = len → is_id len →
    (serialize n act).2 ++ rest = header_bytes type (zlen p) ++ p ∧ is_id (zlen p) ∧ (serialize n act).1 = zlen (serialize n act).2 ∧ 0 < (serialize n act).1).
  { intros type len n act rest p q -> -> <- Hid. cbn [fst snd]. rewrite <-app_assoc. split; [done|]. split; [done|]. split; [done|].
    rewrite (zlen_app (header_bytes _ _)), header_length by done. pose proof (vb_length _ Hid). pose proof (zlen_nonneg q). lia. }
  assert (Hone : ∀ type id, is_id id → serialize_id type id = (zlen (header_bytes type (Writer.GetVarInt62Len id) ++ vb id), header_bytes type (Writer.GetVarInt62Len id) ++ vb id)
    ∧ is_id (Writer.GetVarInt62Len id)).
  { intros type id Hid. destruct (vb_length id Hid) as [Hl Hn]. assert (Hi : is_id (Writer.GetVarInt62Len id)) by (unfold is_id, two62; lia).
    split; [|done]. apply serialize_spec; [apply WriterSpec.emits_andthen; [by apply emits_header|by apply emits_vb]|].
    unfold GetTotalLength. rewrite zlen_app, header_length, Hl by done. rewrite (proj1 (type_length type)). lia. }
  destruct f as [p|p|f|id|values|id hs|id|id|id]; cbn [valid payload]; intros Hv.
  - destruct Hv as [_ Hp]. pose proof (zlen_nonneg p). apply (Hfin DATA (zlen p) _ _ p p []); [|done|done|done].
    rewrite app_nil_r. apply serialize_spec; [by apply emits_header|]. rewrite header_length, (proj1 (type_length DATA)) by done. lia.
  - destruct Hv as [_ Hp]. pose proof (zlen_nonneg p). apply (Hfin HEADERS (zlen p) _ _ p p []); [|done|done|done].
    rewrite app_nil_r. apply serialize_spec; [by apply emits_header|]. rewrite header_length, (proj1 (type_length HEADERS)) by done. lia.
  - destruct Hv as (H1&H2&_). destruct (emits_id (prioritized_type f) _ H1) as (E1&L1&B1). destruct (emits_id (dependency_type f) _ H2) as (E2&L2&B2).
    set (q1 := if bool_decide (prioritized_type f = _) then [] else _) in *. set (q2 := if bool_decide (dependency_type f = _) then [] else _) in *.
    set (n := 1 + id_length (prioritized_type f) (prioritized_element_id f) + id_length (dependency_type f) (element_dependency_id f) + 1).
    assert (Hn : is_id n) by (unfold n, is_id, two62; lia).
    assert (Hq : zlen ([firstByte f] ++ (q1 ++ q2) ++ [weight f]) = n) by (rewrite !zlen_app, !zlen_cons, !zlen_nil, L1, L2; unfold n; lia).
    apply (Hfin PRIORITY n (GetTotalLength n PRIORITY) _ [] _ ([firstByte f] ++ (q1 ++ q2) ++ [weight f])); [|by rewrite app_nil_r|done|done].
    apply serialize_spec; [|unfold GetTotalLength; rewrite zlen_app, header_length, Hq, (proj1 (type_length PRIORITY)) by done; lia].
    apply WriterSpec.emits_andthen; [by apply emits_header|]. apply WriterSpec.emits_andthen; [apply WriterSpec.emits_WriteUInt8|].
    apply WriterSpec.emits_andthen; [by apply WriterSpec.emits_andthen|apply WriterSpec.emits_WriteUInt8].
  - destruct (Hone CANCEL_PUSH id Hv) as [E Hi]. destruct (vb_length id Hv) as [Hl _].
    apply (Hfin CANCEL_PUSH (Writer.GetVarInt62Len id) _ _ [] _ (vb id)); [exact E|by rewrite app_nil_r|done|done].
  - destruct Hv as (_&Hall&Hmax). destruct (emits_settings values Hall) as [E L]. set (q := concat _) in *. pose proof (zlen_nonneg q).
    assert (Hi : is_id (settings_length values)) by (unfold is_id, two62; lia).
    apply (Hfin SETTINGS (settings_length values) _ _ [] _ q); [|by rewrite app_nil_r|done|done].
    apply serialize_spec; [apply WriterSpec.emits_andthen; [by apply emits_header|done]|].
    unfold GetTotalLength. rewrite zlen_app, header_length, L, (proj1 (type_length SETTINGS)) by done. lia.
  - destruct Hv as [Hid Hhs]. destruct (vb_length id Hid) as [Hl Hn]. pose proof (zlen_nonneg hs).
    set (n := Writer.GetVarInt62Len id + zlen hs). assert (Hi : is_id n) by (unfold n, is_id; lia).
    apply (Hfin PUSH_PROMISE n (Writer.GetVarInt62Len n + Writer.GetVarInt62Len (frame_type_value PUSH_PROMISE) + Writer.GetVarInt62Len id) _ hs _ (vb id)); [|done|rewrite zlen_app, Hl; done|done].
    apply serialize_spec; [apply WriterSpec.emits_andthen; [by apply emits_header|by apply emits_vb]|].
    rewrite zlen_app, header_length, Hl, (proj1 (type_length PUSH_PROMISE)) by done. lia.
  - assert (Hid : is_id id) by (unfold is_id, two62; lia). destruct (Hone GOAWAY id Hid) as [E Hi]. destruct (vb_length id Hid) as [Hl _].
    apply (Hfin GOAWAY (Writer.GetVarInt62Len id) _ _ [] _ (vb id)); [exact E|by rewrite app_nil_r|done|done].
  - destruct (Hone MAX_PUSH_ID id Hv) as [E Hi]. destruct (vb_length id Hv) as [Hl _].
    apply (Hfin MAX_PUSH_ID (Writer.GetVarInt62Len id) _ _ [] _ (vb id)); [exact E|by rewrite app_nil_r|done|done].
  - destruct (Hone DUPLICATE_PUSH id Hv) as [E Hi]. destruct (vb_length id Hv) as [Hl _].
    apply (Hfin DUPLICATE_PUSH (Writer.GetVarInt62Len id) _ _ [] _ (vb id)); [exact E|by rewrite app_nil_r|done|done].
Qed.

(** *** What is read *)

Lemma read_vb r id k :
  readable r → is_id id → ReaderSpec.rest r = vb id ++ k →
  ∃ r', Reader.ReadVarInt62 r = (Some id, r') ∧ readable r' ∧ ReaderSpec.rest r' = k.
Proof.
  intros Hr Hid E. pose proof (read_varint_piece r Hr) as Hv. rewrite E, (vb_varint id k Hid) in Hv.
  destruct Hv as (x&r'&H1&H2&_&_&_&_&H3). by exists r'.
Qed.

Lemma read_byte r b k :
  readable r → ReaderSpec.rest r = b :: k → ∃ r', Reader.ReadUInt8 r = (Some b, r') ∧ readable r' ∧ ReaderSpec.rest r' = k.
Proof.
  intros Hr E. pose proof (readable_rest r Hr) as [_ Hl]. rewrite E, zlen_cons in Hl. pose proof (zlen_nonneg k).
  destruct (read_piece r 1 Hr ltac:(lia)) as [H1 _]. destruct (readable_skip r 1 Hr ltac:(lia)) as (H2&H3&_&_).
  exists (Reader.skip 1 r). unfold Reader.ReadUInt8, Reader.bind, Reader.ret. rewrite H1, E. rewrite E in H3.
  change (take (Z.to_nat 1) (b :: k)) with [b]. split; [|done]. cbn [le_val]. by rewrite Z.mul_0_r, Z.add_0_r.
Qed.

Lemma firstByte_fields f :
  is_byte (firstByte f) ∧ to_element_type (ExtractBits (firstByte f) 2 6) = prioritized_type f
  ∧ to_element_type (ExtractBits (firstByte f) 2 4) = dependency_type f ∧ (firstByte f mod 2 =? 1) = exclusive f.
Proof. destruct f as [[] [] [] x y w]; vm_compute; repeat split; discriminate. Qed.

Lemma parse_priority f :
  valid (Priority f) → ParsePriorityFrame (Reader.new (payload (Priority f)).2 net) = Some f.
Proof.
  intros (H1&H2&Hw&R1&R2). cbn [payload snd]. destruct (firstByte_fields f) as (Hb&F1&F2&F3).
  set (q1 := if bool_decide (prioritized_type f = _) then [] else _). set (q2 := if bool_decide (dependency_type f = _) then [] else _).
  assert (Hid : ∀ type id q k r, readable r → is_id id → (type = ROOT_OF_TREE → id = 0) →
    q = (if bool_decide (type = ROOT_OF_TREE) then [] else vb id) → ReaderSpec.rest r = q ++ k →
    ∃ r', read_id type r = (Some id, r') ∧ readable r' ∧ ReaderSpec.rest r' = k).
  { intros type id q k r Hr Hi Hroot -> E. unfold read_id. destruct (bool_decide (type = ROOT_OF_TREE)) eqn:Et.
    - exists r. apply bool_decide_eq_true in Et. by rewrite (Hroot Et).
    - by apply read_vb. }
  assert (Hbytes : bytes ([firstByte f] ++ (q1 ++ q2) ++ [weight f])).
  { assert (Hq : bytes q1 ∧ bytes q2) by (unfold q1, q2; split; case_bool_decide; try apply vb_bytes; constructor).
    apply Forall_cons. split; [done|]. apply Forall_app. split; [by apply Forall_app|]. apply Forall_cons. split; [done|constructor]. }
  set (p := [firstByte f] ++ _) in *. unfold ParsePriorityFrame. pose proof (readable_new p net Hbytes) as Hr.
  destruct (read_byte (Reader.new p net) (firstByte f) (q1 ++ q2 ++ [weight f]) Hr) as (r1&->&Hr1&E1); [by rewrite ReaderSpec.new_rest; unfold p; rewrite <-app_assoc|].
  cbn [default from_option id]. rewrite F1, F2, F3.
  destruct (Hid _ _ q1 (q2 ++ [weight f]) r1 Hr1 H1 R1 eq_refl E1) as (r2&->&Hr2&E2).
  destruct (Hid _ _ q2 [weight f] r2 Hr2 H2 R2 eq_refl E2) as (r3&->&Hr3&E3).
  destruct (read_byte r3 (weight f) [] Hr3 E3) as (r4&->&_&_). by destruct f.
Qed.

Lemma set_value_last id c values : Forall (λ x, x.1 < id) values → set_value id c values = values ++ [(id, c)].
Proof.
  induction 1 as [|[k v] values H _ IH]; [done|]. cbn in *. destruct (Z.ltb_spec id k); [lia|]. destruct (Z.eqb_spec id k); [lia|]. by rewrite IH.
Qed.

Lemma parse_settings fuel r before values :
  readable r → Forall (λ x, is_id x.1 ∧ is_id x.2) values → StronglySorted (λ a b, a.1 < b.1) (before ++ values) →
  ReaderSpec.rest r = concat (map (λ x, vb x.1 ++ vb x.2) values) → (length values <= fuel)%nat →
  settings_loop fuel r before = Some (before ++ values).
Proof.
  revert r before values. induction fuel as [|fuel IH]; intros r before values Hr Hall Hs E Hf.
  { destruct values; [by rewrite app_nil_r|cbn in Hf; lia]. }
  cbn [settings_loop]. unfold Reader.IsDoneReading. pose proof (readable_rest r Hr) as [_ Hl]. unfold Reader.BytesRemaining in Hl.
  destruct values as [|[id c] values].
  - cbn [map concat] in E. rewrite E, (@zlen_nil Z) in Hl. destruct (Z.eqb_spec (Reader.len r) (Reader.pos r)); [by rewrite app_nil_r|lia].
  - apply Forall_cons in Hall as [[H1 H2] Hall]. cbn [map concat fst snd] in *. rewrite <-app_assoc in E.
    destruct (Z.eqb_spec (Reader.len r) (Reader.pos r)) as [E0|_].
    { rewrite E, !zlen_app in Hl. pose proof (vb_length id H1) as [Hn ?]. pose proof (zlen_nonneg (vb c)).
      pose proof (zlen_nonneg (concat (map (λ x, vb x.1 ++ vb x.2) values))). lia. }
    destruct (read_vb r id _ Hr H1 E) as (r1&->&Hr1&E1). destruct (read_vb r1 c _ Hr1 H2 E1) as (r2&->&Hr2&E2).
    rewrite set_value_last.
    + rewrite (IH r2 (before ++ [(id, c)]) values); [by rewrite <-app_assoc|done|done|by rewrite <-app_assoc|done|cbn in Hf; lia].
    + apply strongly_sorted_app in Hs as (_&_&Hs). apply Forall_forall. intros x Hx. apply (Hs x (id, c)); [done|]. apply elem_of_cons. by left.
Qed.

(** The last call about a frame. *)
Lemma end_of_payload f :
  valid f → ∃ l e, end_of_frame (frame_type_value (payload f).1) (payload f).2 = Some (Some e)
  ∧ expected f = l ++ [Event e]
  ∧ calls (begins (frame_type_value (payload f).1) (zlen (payload f).2) (1 + Writer.GetVarInt62Len (zlen (payload f).2))
           ++ body (frame_type_value (payload f).1) (zlen (payload f).2) (payload f).2) = l.
Proof.
  assert (Hread : ∀ id, is_id id → (Reader.ReadVarInt62 (Reader.new (vb id) net)).1 = Some id).
  { intros id Hid. destruct (read_vb (Reader.new (vb id) net) id []) as (r'&->&_); [by apply readable_new, vb_bytes|done|by rewrite ReaderSpec.new_rest, app_nil_r|done]. }
  intros Hv. destruct f as [p|p|f|id|values|id hs|id|id|id]; cbn [payload fst snd frame_type_value expected].
  - eexists _, _. split; [done|]. split; [by rewrite app_comm_cons|]. rewrite calls_app, calls_begins. cbn [body]. rewrite calls_each, Z.add_comm. done.
  - eexists _, _. split; [done|]. split; [by rewrite app_comm_cons|]. rewrite calls_app, calls_begins. cbn [body]. rewrite calls_each, Z.add_comm. done.
  - eexists [_], _. cbn [end_of_frame]. pose proof (parse_priority f Hv) as Hp. cbn [payload snd] in Hp. rewrite Hp. split; [done|]. split; [done|].
    destruct Hv as (H1&H2&_). destruct (emits_id (prioritized_type f) _ H1) as (_&L1&B1). destruct (emits_id (dependency_type f) _ H2) as (_&L2&B2).
    set (n := zlen _). assert (Hn : n = 2 + id_length (prioritized_type f) (prioritized_element_id f) + id_length (dependency_type f) (element_dependency_id f)).
    { unfold n. rewrite !zlen_app, !zlen_cons, !zlen_nil, L1, L2. lia. }
    rewrite calls_app, calls_begins. cbn [body]. rewrite <-Hn. rewrite WriterSpec.GetVarInt62Len_cases by (unfold two64; lia).
    destruct (Z.ltb_spec n (2 ^ 6)) as [|Hge]; [done|]. ground_pow. lia.
  - eexists [], _. cbn [end_of_frame]. rewrite Hread by done. done.
  - eexists [_], _. cbn [end_of_frame]. destruct Hv as (Hs&Hall&_). destruct (emits_settings values Hall) as [_ L].
    unfold ParseSettingsFrame. set (q := concat _) in *. assert (Hq : bytes q).
    { unfold q. clear -Hall. induction values as [|x values IH]; [constructor|]. cbn. apply Forall_cons in Hall as [_ Hall].
      apply Forall_app. split; [apply Forall_app; split; apply vb_bytes|by apply IH]. }
    rewrite (parse_settings _ (Reader.new q net) [] values); [|by apply readable_new|done|done|by rewrite ReaderSpec.new_rest|].
    + split; [done|]. split; [done|]. rewrite calls_app, calls_begins, L, (Z.add_comm 1). done.
    + change (Reader.BytesRemaining (Reader.new q net)) with (zlen q - 0). rewrite L. assert (zlen values <= settings_length values); [|unfold zlen in *; lia]. clear -Hall.
      induction Hall as [|[id c] values [H1 H2] _ IH]; cbn [settings_length fst snd] in *; rewrite ?zlen_nil, ?zlen_cons; [lia|].
      pose proof (vb_length id H1). pose proof (vb_length c H2). lia.
  - eexists (_ :: _), _. split; [done|]. split; [by rewrite app_comm_cons|]. destruct Hv as [Hid Hhs]. destruct (vb_length id Hid) as [Hl Hn].
    rewrite calls_app, calls_begins. cbn [start_event option_event app]. pose proof (vb_varint id hs Hid) as Hvar.
    assert (Hp : vb id ≠ []) by (intros E0; rewrite E0, zlen_nil in Hl; lia). destruct (vb id) as [|b q] eqn:Eq; [done|]. cbn [app] in *. cbn [body].
    pose proof (varint_exact b q id) as Hex. rewrite <-Eq, <-(app_nil_r (vb id)), vb_varint in Hex by done. specialize (Hex eq_refl).
    rewrite app_nil_r, Eq in Hex. rewrite (zlen_cons b (q ++ hs)), zlen_app. rewrite zlen_cons in Hex. pose proof (zlen_nonneg hs).
    destruct (Z.ltb_spec (1 + (zlen q + zlen hs)) (announced b)); [lia|]. rewrite Hvar. unfold calls. cbn. f_equal. apply calls_each.
  - eexists [], _. cbn [end_of_frame]. assert (Hid : is_id id) by (cbn in Hv; unfold is_id, two62; lia). rewrite Hread by done.
    split; [done|]. split; [|done]. cbn. unfold wrap32. rewrite Z.mod_small; [done|]. cbn in Hv. unfold two32. lia.
  - eexists [], _. cbn [end_of_frame]. rewrite Hread by done. done.
  - eexists [], _. cbn [end_of_frame]. rewrite Hread by done. done.
Qed.

(** *** The stream *)

Lemma payload_fits f : valid f → zlen (payload f).2 <= MaxFrameLength (wrap8 (frame_type_value (payload f).1)).
Proof.
  intros Hv. pose proof (encoded_spec f Hv) as He. destruct f as [p|p|f|id|values|id hs|id|id|id]; cbn [payload fst snd frame_type_value] in *;
    destruct He as (_&Hid&_&_); unfold is_id in Hid.
  1, 2, 6: (change (MaxFrameLength _) with (two64 - 1); unfold two62, two64 in *; lia).
  2, 5, 6: (destruct (vb_length id Hv) as [-> ?]; change (MaxFrameLength _) with 8; lia).
  - destruct Hv as (H1&H2&_). destruct (emits_id (prioritized_type f) _ H1) as (_&L1&B1). destruct (emits_id (dependency_type f) _ H2) as (_&L2&B2).
    rewrite !zlen_app, !zlen_cons, !zlen_nil, L1, L2. change (MaxFrameLength _) with 18. lia.
  - destruct Hv as (_&Hall&Hmax). destruct (emits_settings values Hall) as [_ L]. rewrite L. done.
  - cbn in Hv. destruct (vb_length id) as [-> _]; [unfold is_id, two62; lia|]. change (MaxFrameLength _) with 4.
    destruct (WriterSpec.GetVarInt62Len_spec id) as (_&_&Hmin); [lia|]. apply Hmin; [unfold WriterSpec.is_varint_len; tauto|].
    unfold WriterSpec.varint_limit. change (8 * 4 - 2) with 30. lia.
Qed.

Lemma expected_events f i : i ∈ expected f → ∃ e, i = Event e.
Proof.
  assert (Heach : ∀ g p, i ∈ each g p → ∃ e, i = Event e) by (intros g p (b&->&_)%list_elem_of_fmap; eauto).
  destruct f; cbn [expected]; rewrite ?elem_of_cons, ?elem_of_app, ?elem_of_cons, ?elem_of_nil; naive_solver.
Qed.

Lemma begins_marks type len n p e :
  PushPromiseBegins ∈ begins type len n ++ body type len p ++ [Event e] → type = 5.
Proof.
  assert (Heach : ∀ g q, PushPromiseBegins ∉ each g q) by (intros g q (b&E&_)%list_elem_of_fmap; done).
  unfold begins. rewrite !elem_of_app. intros [[H|H]|[H|H]].
  - by destruct (start_event _ _ _); [apply list_elem_of_singleton in H|apply elem_of_nil in H].
  - destruct (Z.eqb_spec type 5); [done|]. by apply elem_of_nil in H.
  - unfold body in H. destruct type as [|[[[]|[]|]|[[]|[]|]|]|]; try (by apply elem_of_nil in H); try (by apply Heach in H); done.
  - by apply list_elem_of_singleton in H.
Qed.

Lemma elem_of_calls i l : i ∈ l → is_call i = true → i ∈ calls l.
Proof. intros H1 H2. unfold calls. apply list_elem_of_In, filter_In. split; [by apply list_elem_of_In|done]. Qed.

Lemma messages_of_frame f :
  valid f → ∃ its, (∀ x, messages (serialized f ++ x) = its ++ messages x) ∧ calls its = expected f
  ∧ (PushPromiseBegins ∈ its → ∃ id hs, f = PushPromise id hs).
Proof.
  intros Hv. pose proof (encoded_spec f Hv) as He. pose proof (end_of_payload f Hv) as Hend. pose proof (payload_fits f Hv) as Hfit.
  destruct (payload f) as [type p] eqn:Ep. cbn [fst snd] in *. destruct He as (E&Hid&_). destruct Hend as (l&e&Hend&Hexp&Hl).
  exists (begins (frame_type_value type) (zlen p) (1 + Writer.GetVarInt62Len (zlen p)) ++ body (frame_type_value type) (zlen p) p ++ [Event e]).
  split; [|split].
  - intros x. rewrite E, <-app_assoc, (messages_whole (frame_type_value type) (zlen p) _ _ _ (header_of (zlen p) type Hid)) by lia.
    rewrite Hend, header_length by done. cbn [option_event]. by rewrite <-!app_assoc.
  - rewrite app_assoc, calls_app, Hl, Hexp. done.
  - intros H%begins_marks. destruct f; injection Ep as <- _; try done. by eexists _, _.
Qed.

Lemma messages_of_frames fs :
  Forall valid fs → ∃ its, (∀ x, messages (concat (map serialized fs) ++ x) = its ++ messages x) ∧ calls its = concat (map expected fs)
  ∧ (PushPromiseBegins ∈ its → ∃ id hs, PushPromise id hs ∈ fs).
Proof.
  induction 1 as [|f fs Hf _ (its&H1&H2&H3)]; [exists []; split; [done|]; split; [done|]; intros H; by apply elem_of_nil in H|].
  destruct (messages_of_frame f Hf) as (its0&F1&F2&F3). exists (its0 ++ its). cbn [map concat]. split; [|split].
  - intros x. by rewrite <-!app_assoc, F1, H1.
  - by rewrite calls_app, F2, H2.
  - rewrite elem_of_app. intros [H|H]; [destruct (F3 H) as (id&hs&->); exists id, hs; apply elem_of_cons; by left|].
    destruct (H3 H) as (id&hs&Hin). exists id, hs. apply elem_of_cons. by right.
Qed.

(** C21. Frames of HTTP/3 survive the stream. For any sequence of frames, [HttpEncoder] writes each without failing, and whatever the chunks
    in which the stream arrives and wherever the visitor pauses, [HttpDecoder] makes calls about these frames only, in
    their order, with their contents, payloads byte by byte; when all bytes are processed it has made all of them, except for the
    end of a last frame that the visitor put off. It never refuses the stream, unless a push id is cut. (A stream id
    in GOAWAY must be below 2^30: the decoder's limit for the frame is too small for larger ones.) *)
Theorem http3_frames_survive fs :
  Forall valid fs →
  (∀ f, f ∈ fs → (encoded f).1.1 = zlen (encoded f).1.2 ∧ 0 < (encoded f).1.1)
  ∧ ∀ visitor s bs, decoding visitor s bs → bs `prefix_of` concat (map serialized fs) →
    heard s.2 `prefix_of` concat (map expected fs)
    ∧ (bs = concat (map serialized fs) → state_ s.1 ≠ STATE_ERROR → heard s.2 ++ pending s.1 = concat (map expected fs))
    ∧ (state_ s.1 = STATE_ERROR → ∃ id hs, PushPromise id hs ∈ fs).
Proof.
  intros Hall. split.
  { intros f Hf. rewrite Forall_forall in Hall. pose proof (encoded_spec f (Hall f Hf)) as He. destruct (payload f). tauto. }
  intros visitor s bs Hd [x Hx]. destruct (messages_of_frames fs Hall) as (its&H1&H2&H3).
  specialize (H1 []). change (messages []) with (@nil item) in H1. rewrite !app_nil_r in H1.
  assert (Hev : ∀ i, i ∈ its → is_call i = true → ∃ e, i = Event e).
  { intros i Hi Hc. pose proof (elem_of_calls i its Hi Hc) as Hin. rewrite H2 in Hin.
    apply list_elem_of_In, in_concat in Hin as (l&Hl&Hi'). apply in_map_iff in Hl as (f&<-&_). apply (expected_events f). by apply list_elem_of_In. }
  destruct (messages_app bs x) as [y Hy]. rewrite <-Hx, H1 in Hy.
  assert (Hin : ∀ i, i ∈ messages bs → i ∈ its) by (intros i Hi; rewrite Hy; apply elem_of_app; by left).
  assert (Hpre : calls (messages bs) `prefix_of` concat (map expected fs)) by (rewrite <-H2, Hy, calls_app; by eexists).
  destruct (decoding_spec visitor s bs Hd) as (_&_&[Ht|Ho]); [|by destruct (Hev _ (Hin _ Ho) eq_refl)].
  destruct (tracked_messages s bs Ht) as [Hm|(He&Hm&Hlast)].
  - rewrite Hm in Hpre. split; [by eapply prefix_app_l|]. split.
    + intros -> He. rewrite decide_False in Hm by done. by rewrite <-Hm, H1, H2.
    + intros He. rewrite decide_True in Hm by done. assert (Hb : Broken ∈ calls (messages bs)) by (rewrite Hm; apply elem_of_app; right; by apply list_elem_of_singleton).
      apply list_elem_of_In, filter_In in Hb as [Hb _]. apply list_elem_of_In, Hin in Hb. by destruct (Hev _ Hb eq_refl).
  - rewrite Hm in Hpre. split; [done|]. split; [done|]. intros _. apply H3, Hin. apply last_Some in Hlast as [l ->]. apply elem_of_app. right. by apply list_elem_of_singleton.
Qed.

Definition w_frames : list http_frame :=
  [Settings [(1, 5); (7, 100)]; PushPromise 3 [9]; Data [10; 11]; Priority (mk_priority PUSH_STREAM ROOT_OF_TREE true 300 0 16); GoAway 8].
Definition w_bytes : list Z := [4; 5; 1; 5; 7; 64; 100; 5; 2; 3; 9; 0; 2; 10; 11; 2; 4; 113; 65; 44; 16; 7; 1; 8].
Definition w_end : io := match ProcessInput w_always w_bytes (new, []) with Some (_, s) => s | None => (new, []) end.

Lemma http3_frames_survive_witness :
  Forall valid w_frames ∧ concat (map serialized w_frames) = w_bytes ∧ decoding w_always w_end w_bytes
  ∧ heard w_end.2 = concat (map expected w_frames).
Proof.
  assert (Hv : Forall valid w_frames).
  { assert (Hid : ∀ id, (0 <=? id) && (id <? two62) = true → is_id id) by (unfold is_id; lia).
    unfold w_frames. repeat apply Forall_cons_2; [| | | | |by constructor].
    - split; [by repeat constructor|]. split; [repeat apply Forall_cons_2; [split; by apply Hid|split; by apply Hid|by constructor]|by vm_compute].
    - split; [by apply Hid|by vm_compute].
    - split; [done|by vm_compute].
    - split; [by apply Hid|]. split; [by apply Hid|]. split; [by vm_compute|]. split; done.
    - by vm_compute. }
  assert (Hb : concat (map serialized w_frames) = w_bytes) by by vm_compute.
  assert (Hd : decoding w_always w_end w_bytes).
  { apply (decoding_more w_always (new, []) [] w_bytes 24 w_end); [apply decoding_start|done|by repeat constructor|by vm_compute]. }
  split; [exact Hv|]. split; [exact Hb|]. split; [exact Hd|].
  destruct (http3_frames_survive w_frames Hv) as [_ H]. destruct (H w_always w_end w_bytes Hd) as (_&Hall&_); [by rewrite Hb|].
  specialize (Hall (eq_sym Hb) ltac:(by vm_compute)). rewrite <-Hall. change (pending w_end.1) with (@nil item). symmetry. apply app_nil_r.
Defined.

(** The encoder writes stream ids that the decoder refuses. *)
Lemma goaway_refused :
  let '(n, bs) := SerializeGoAwayFrame (2 ^ 30) in
  n = 10 ∧ ∃ s, ProcessInput w_always bs (new, []) = Some (2, s) ∧ s.2 = [OnError].
Proof. split; [by vm_compute|]. eexists. by vm_compute. Qed.
End Http3Link.
