(* ===== verification/Versions.v ===== *)
(** The versions of the protocol and their labels on the wire (quic/core/quic_versions.h, quic_versions.cc, [MakeQuicTag] of
    quic_tag.cc), with the runtime flags that the version code and the packet headers look at. A label that never parses is
    what makes a peer negotiate; a label that parses as another version would make it misread every packet. *)

From S2P Require Import Prelude Bytes.

Module Versions.

(** ** Flags *)

(** The runtime flags (restart and reloadable ones, and [FLAGS_quic_...]) by name. *)
Class Flags := mk_flags {
  quic_do_not_override_connection_id : bool;
  quic_use_allocated_connection_ids : bool;
  quic_version_negotiation_grease : bool;
  quic_disable_version_negotiation_grease_randomness : bool;
  quic_fix_get_packet_header_size : bool;
  quic_supports_tls_handshake : bool;
  quic_enable_version_99 : bool;
  quic_enable_version_48 : bool;
  quic_enable_version_47 : bool;
  quic_disable_version_44 : bool;
  quic_disable_version_39 : bool;
  quic_headers_stream_id_in_v99 : Z;
  quic_ietf_draft_version : Z;
}.

(** ** Versions *)

(** [QuicTransportVersion]. *)
Definition QUIC_VERSION_UNSUPPORTED : Z := 0.
Definition QUIC_VERSION_39 : Z := 39.
Definition QUIC_VERSION_43 : Z := 43.
Definition QUIC_VERSION_44 : Z := 44.
Definition QUIC_VERSION_46 : Z := 46.
Definition QUIC_VERSION_47 : Z := 47.
Definition QUIC_VERSION_48 : Z := 48.
Definition QUIC_VERSION_99 : Z := 99.
Definition QUIC_VERSION_RESERVED_FOR_NEGOTIATION : Z := 999.

Inductive HandshakeProtocol := PROTOCOL_UNSUPPORTED | PROTOCOL_QUIC_CRYPTO | PROTOCOL_TLS1_3.

#[global] Instance HandshakeProtocol_eq_dec : EqDecision HandshakeProtocol.
Proof. solve_decision. Defined.

Record ParsedQuicVersion := mk_version { handshake_protocol : HandshakeProtocol; transport_version : Z }.

#[global] Instance ParsedQuicVersion_eq_dec : EqDecision ParsedQuicVersion.
Proof. solve_decision. Defined.

Definition UnsupportedQuicVersion : ParsedQuicVersion := mk_version PROTOCOL_UNSUPPORTED QUIC_VERSION_UNSUPPORTED.
Definition QuicVersionReservedForNegotiation : ParsedQuicVersion :=
  mk_version PROTOCOL_QUIC_CRYPTO QUIC_VERSION_RESERVED_FOR_NEGOTIATION.

Definition kSupportedTransportVersions : list Z :=
  [QUIC_VERSION_99; QUIC_VERSION_48; QUIC_VERSION_47; QUIC_VERSION_46; QUIC_VERSION_44; QUIC_VERSION_43; QUIC_VERSION_39].
Definition kSupportedHandshakeProtocols : list HandshakeProtocol := [PROTOCOL_QUIC_CRYPTO; PROTOCOL_TLS1_3].

(** ** What a version has *)

Definition VersionHasIetfInvariantHeader (v : Z) : bool := QUIC_VERSION_43 <? v.
Definition VersionSupportsMessageFrames (v : Z) : bool := QUIC_VERSION_44 <? v.
Definition VersionHasDataFrameHeader (v : Z) : bool := v =? QUIC_VERSION_99.
Definition VersionHasStreamType (v : Z) : bool := v =? QUIC_VERSION_99.
Definition VersionUsesQpack (v : Z) : bool := v =? QUIC_VERSION_99.
Definition QuicVersionHasLongHeaderLengths (v : Z) : bool := v =? QUIC_VERSION_99.
Definition QuicVersionUsesCryptoFrames (v : Z) : bool := QUIC_VERSION_48 <=? v.
Definition VersionHasIetfQuicFrames (v : Z) : bool := QUIC_VERSION_99 <=? v.
Definition VariableLengthConnectionIdAllowedForVersion (v : Z) : bool :=
  (QUIC_VERSION_47 <=? v) || (v =? QUIC_VERSION_UNSUPPORTED).

Definition tls (v : ParsedQuicVersion) : bool := bool_decide (handshake_protocol v = PROTOCOL_TLS1_3).
Definition KnowsWhichDecrypterToUse (v : ParsedQuicVersion) : bool := (QUIC_VERSION_47 <=? transport_version v) || tls v.
Definition AllowsLowFlowControlLimits (v : ParsedQuicVersion) : bool := (transport_version v =? QUIC_VERSION_99) && tls v.
Definition HasHeaderProtection (v : ParsedQuicVersion) : bool := transport_version v =? QUIC_VERSION_99.
Definition SupportsRetry (v : ParsedQuicVersion) : bool := QUIC_VERSION_46 <? transport_version v.
Definition SendsVariableLengthPacketNumberInLongHeader (v : ParsedQuicVersion) : bool := QUIC_VERSION_46 <? transport_version v.

Section flags.
Context {F : Flags}.

Definition SupportsClientConnectionIds (v : ParsedQuicVersion) : bool :=
  if negb quic_do_not_override_connection_id then false else QUIC_VERSION_99 <=? transport_version v.
Definition VersionLacksHeadersStream (v : Z) : bool :=
  if quic_headers_stream_id_in_v99 =? 0 then false else v =? QUIC_VERSION_99.
Definition DoesNotHaveHeadersStream (v : ParsedQuicVersion) : bool := VersionLacksHeadersStream (transport_version v).

(** ** Labels *)

(** A [char] argument: signed where the code is built. *)
Definition to_char (x : Z) : Z := let b := wrap8 x in if b <? 128 then b else b - 256.

Definition MakeQuicTag (a b c d : Z) : Z :=
  Z.lor (Z.lor (Z.lor (wrap32 a) (wrap32 (Z.shiftl (wrap32 b) 8))) (wrap32 (Z.shiftl (wrap32 c) 16)))
    (wrap32 (Z.shiftl (wrap32 d) 24)).
Definition MakeVersionLabel (a b c d : Z) : Z := MakeQuicTag (to_char d) (to_char c) (to_char b) (to_char a).

(** [random] is what [QuicRandom::RandBytes] puts into the label. *)
Definition CreateRandomVersionLabelForNegotiation (random : Z) : Z :=
  if negb quic_version_negotiation_grease then MakeVersionLabel 218 90 58 58 else
  let result := if negb quic_disable_version_negotiation_grease_randomness then random else MakeVersionLabel 209 87 56 63 in
  Z.lor (Z.land result 4042322160) 168430090.

(** The characters of the labels. *)
Definition ch_Q : Z := 81.
Definition ch_T : Z := 84.
Definition digit (n : Z) : Z := 48 + n.

Definition CreateQuicVersionLabel (random : Z) (v : ParsedQuicVersion) : Z :=
  let label proto :=
    let t := transport_version v in
    if t =? QUIC_VERSION_39 then MakeVersionLabel proto (digit 0) (digit 3) (digit 9)
    else if t =? QUIC_VERSION_43 then MakeVersionLabel proto (digit 0) (digit 4) (digit 3)
    else if t =? QUIC_VERSION_44 then MakeVersionLabel proto (digit 0) (digit 4) (digit 4)
    else if t =? QUIC_VERSION_46 then MakeVersionLabel proto (digit 0) (digit 4) (digit 6)
    else if t =? QUIC_VERSION_47 then MakeVersionLabel proto (digit 0) (digit 4) (digit 7)
    else if t =? QUIC_VERSION_48 then MakeVersionLabel proto (digit 0) (digit 4) (digit 8)
    else if t =? QUIC_VERSION_99 then
      if tls v && negb (quic_ietf_draft_version =? 0) then MakeVersionLabel 255 0 0 quic_ietf_draft_version
      else MakeVersionLabel proto (digit 0) (digit 9) (digit 9)
    else if t =? QUIC_VERSION_RESERVED_FOR_NEGOTIATION then CreateRandomVersionLabelForNegotiation random
    else 0 in
  match handshake_protocol v with
  | PROTOCOL_QUIC_CRYPTO => label ch_Q
  | PROTOCOL_TLS1_3 => label ch_T
  | PROTOCOL_UNSUPPORTED => 0
  end.

(** The versions [ParseQuicVersionLabel] tries, in its order; none is the reserved one, so no random label is drawn. *)
Definition candidates : list ParsedQuicVersion :=
  flat_map (λ t, map (λ p, mk_version p t) kSupportedHandshakeProtocols) kSupportedTransportVersions.
Definition ParseQuicVersionLabel (version_label : Z) : ParsedQuicVersion :=
  default UnsupportedQuicVersion (find (λ v, version_label =? CreateQuicVersionLabel 0 v) candidates).

Definition CreateQuicVersionLabelVector (randoms : nat → Z) (versions : list ParsedQuicVersion) : list Z :=
  imap (λ i v, CreateQuicVersionLabel (randoms i) v) versions.

Definition QuicVersionToQuicVersionLabel (random : Z) (t : Z) : Z := CreateQuicVersionLabel random (mk_version PROTOCOL_QUIC_CRYPTO t).
Definition QuicVersionLabelToQuicVersion (version_label : Z) : Z := transport_version (ParseQuicVersionLabel version_label).
Definition QuicVersionLabelToHandshakeProtocol (version_label : Z) : HandshakeProtocol :=
  handshake_protocol (ParseQuicVersionLabel version_label).

(** ** Which versions are on *)

Definition AllSupportedTransportVersions : list Z := kSupportedTransportVersions.
Definition AllSupportedVersions : list ParsedQuicVersion :=
  flat_map (λ p, omap (λ t,
    if bool_decide (p = PROTOCOL_TLS1_3) && negb (QuicVersionUsesCryptoFrames t) then None else Some (mk_version p t))
    kSupportedTransportVersions) kSupportedHandshakeProtocols.

Definition enabled (v : ParsedQuicVersion) : bool :=
  if tls v && negb quic_supports_tls_handshake then false
  else if transport_version v =? QUIC_VERSION_99 then quic_enable_version_99
  else if transport_version v =? QUIC_VERSION_48 then quic_enable_version_48
  else if transport_version v =? QUIC_VERSION_47 then quic_enable_version_47
  else if transport_version v =? QUIC_VERSION_44 then negb quic_disable_version_44
  else if transport_version v =? QUIC_VERSION_39 then negb quic_disable_version_39
  else true.
Definition FilterSupportedVersions (versions : list ParsedQuicVersion) : list ParsedQuicVersion := List.filter enabled versions.
Definition FilterSupportedTransportVersions (versions : list Z) : list Z :=
  map transport_version (FilterSupportedVersions (map (mk_version PROTOCOL_QUIC_CRYPTO) versions)).
Definition CurrentSupportedTransportVersions : list Z := FilterSupportedTransportVersions AllSupportedTransportVersions.
Definition CurrentSupportedVersions : list ParsedQuicVersion := FilterSupportedVersions AllSupportedVersions.

Definition VersionOfIndex (versions : list Z) (index : Z) : list Z :=
  if (0 <=? index) && (index <? zlen versions) then [nth (Z.to_nat index) versions QUIC_VERSION_UNSUPPORTED]
  else [QUIC_VERSION_UNSUPPORTED].
Definition ParsedVersionOfIndex (versions : list ParsedQuicVersion) (index : Z) : list ParsedQuicVersion :=
  if (0 <=? index) && (index <? zlen versions) then [nth (Z.to_nat index) versions UnsupportedQuicVersion]
  else [UnsupportedQuicVersion].
Definition ParsedVersionsToTransportVersions (versions : list ParsedQuicVersion) : list Z := map transport_version versions.
End flags.

(** ** Setting the flags *)

Definition QuicVersionInitializeSupportForIetfDraft (draft_version : Z) (f : Flags) : Flags :=
  if (draft_version <? 0) || (256 <=? draft_version) then f else
  let draft do_not tls id use := mk_flags do_not use
    (@quic_version_negotiation_grease f) (@quic_disable_version_negotiation_grease_randomness f)
    (@quic_fix_get_packet_header_size f) tls (@quic_enable_version_99 f) (@quic_enable_version_48 f)
    (@quic_enable_version_47 f) (@quic_disable_version_44 f) (@quic_disable_version_39 f) id draft_version in
  if draft_version =? 0 then
    draft (@quic_do_not_override_connection_id f) (@quic_supports_tls_handshake f) (@quic_headers_stream_id_in_v99 f)
      (@quic_use_allocated_connection_ids f)
  else draft true true 60 true.

Definition QuicEnableVersion (v : ParsedQuicVersion) (f : Flags) : Flags :=
  mk_flags (@quic_do_not_override_connection_id f) (@quic_use_allocated_connection_ids f)
    (@quic_version_negotiation_grease f) (@quic_disable_version_negotiation_grease_randomness f)
    (@quic_fix_get_packet_header_size f) (tls v || @quic_supports_tls_handshake f)
    ((transport_version v =? QUIC_VERSION_99) || @quic_enable_version_99 f)
    ((transport_version v =? QUIC_VERSION_48) || @quic_enable_version_48 f)
    ((transport_version v =? QUIC_VERSION_47) || @quic_enable_version_47 f)
    (@quic_disable_version_44 f) (@quic_disable_version_39 f) (@quic_headers_stream_id_in_v99 f) (@quic_ietf_draft_version f).

(** ** Correctness *)

(** Nothing but the draft number matters for the label of a supported version. *)
Definition labels_match (draft : Z) : bool :=
  let F := mk_flags true true true true true true true true true true true 60 draft in
  forallb (λ v, bool_decide (ParseQuicVersionLabel (CreateQuicVersionLabel 0 v) = v)
    && (1 <=? CreateQuicVersionLabel 0 v) && (CreateQuicVersionLabel 0 v <? two32)
    && negb (Z.land (CreateQuicVersionLabel 0 v) 252645135 =? 168430090)) candidates.

Lemma labels_match_all : ∀ draft, 0 <= draft < 256 → labels_match draft = true.
Proof. apply below_forall. vm_compute. reflexivity. Qed.

Lemma candidate_transport v :
  v ∈ candidates → (handshake_protocol v = PROTOCOL_QUIC_CRYPTO ∨ handshake_protocol v = PROTOCOL_TLS1_3)
    ∧ transport_version v ∈ kSupportedTransportVersions.
Proof.
  intros Hv. apply list_elem_of_In in Hv. unfold candidates in Hv. apply in_flat_map in Hv as (t&Ht&Hv).
  apply in_map_iff in Hv as (p&<-&Hp). cbn. split; [|by apply list_elem_of_In]. cbn in Hp. naive_solver.
Qed.

Lemma label_of_draft (F G : Flags) r r' v :
  v ∈ candidates → @quic_ietf_draft_version F = @quic_ietf_draft_version G →
  @CreateQuicVersionLabel F r v = @CreateQuicVersionLabel G r' v.
Proof.
  intros Hv Hd. apply candidate_transport in Hv as [_ Ht]. destruct v as [p t]. cbn in Ht.
  unfold CreateQuicVersionLabel. cbn [handshake_protocol transport_version]. rewrite Hd.
  repeat (apply elem_of_cons in Ht as [->|Ht]; [destruct p; reflexivity|]). by apply elem_of_nil in Ht.
Qed.

Lemma ParseQuicVersionLabel_of_draft (F G : Flags) l :
  @quic_ietf_draft_version F = @quic_ietf_draft_version G → @ParseQuicVersionLabel F l = @ParseQuicVersionLabel G l.
Proof.
  intros Hd. unfold ParseQuicVersionLabel. f_equal.
  assert (H : ∀ k, (∀ v, v ∈ k → v ∈ candidates) →
    find (λ v, l =? @CreateQuicVersionLabel F 0 v) k = find (λ v, l =? @CreateQuicVersionLabel G 0 v) k).
  { induction k as [|v k IH]; intros Hk; [done|]. cbn [find]. rewrite (label_of_draft F G 0 0) by (done || apply Hk; left).
    rewrite IH; [done|]. intros. apply Hk. by right. }
  by apply H.
Qed.

Lemma candidate_label `{F : Flags} r v :
  0 <= quic_ietf_draft_version < 256 → v ∈ candidates →
  ParseQuicVersionLabel (CreateQuicVersionLabel r v) = v ∧ 0 < CreateQuicVersionLabel r v < two32
  ∧ Z.land (CreateQuicVersionLabel r v) 252645135 ≠ 168430090.
Proof.
  intros Hd Hv. pose proof (labels_match_all _ Hd) as H. unfold labels_match in H.
  set (G := mk_flags _ _ _ _ _ _ _ _ _ _ _ _ _) in H.
  rewrite forallb_forall in H. specialize (H v ltac:(by apply list_elem_of_In)).
  rewrite (label_of_draft F G r 0 v Hv eq_refl), (ParseQuicVersionLabel_of_draft F G _ eq_refl).
  rewrite !andb_true_iff in H. destruct H as (((H1&H2)&H3)&H4). apply bool_decide_eq_true in H1. split; [done|]. lia.
Qed.

Lemma ParseQuicVersionLabel_cases `{F : Flags} l :
  ParseQuicVersionLabel l = UnsupportedQuicVersion
  ∨ (ParseQuicVersionLabel l ∈ candidates ∧ l = CreateQuicVersionLabel 0 (ParseQuicVersionLabel l)).
Proof.
  unfold ParseQuicVersionLabel. destruct (find _ candidates) as [v|] eqn:E; [|by left].
  apply find_some in E as [Hv E]. right. cbn. split; [by apply list_elem_of_In|lia].
Qed.

(** The bits that make a version one of those reserved: ?a?a?a?a. *)
Lemma reserved_bits x : Z.land (Z.lor (Z.land x 4042322160) 168430090) 252645135 = 168430090.
Proof. rewrite Z.land_lor_distr_l, <-Z.land_assoc. change (Z.land 4042322160 252645135) with 0. by rewrite Z.land_0_r. Qed.

Lemma reserved_label `{F : Flags} r :
  is_u32 r →
  let l := CreateQuicVersionLabel r QuicVersionReservedForNegotiation in
  Z.land l 252645135 = 168430090 ∧ 0 < l < two32.
Proof.
  intros Hr l. unfold l, CreateQuicVersionLabel, CreateRandomVersionLabelForNegotiation. cbn -[Z.land Z.lor two32].
  destruct quic_version_negotiation_grease; cbn [negb]; [|by vm_compute].
  set (x := if negb _ then r else _). split; [apply reserved_bits|].
  assert (0 <= Z.land x 4042322160) by (apply Z.land_nonneg; right; lia).
  assert (Hle : Z.land x 4042322160 < 2 ^ 32).
  { assert (E : Z.land x 4042322160 = Z.land x 4042322160 mod 2 ^ 32).
    { rewrite <-(land_low (Z.land x 4042322160) 32), <-Z.land_assoc by lia. f_equal. }
    rewrite E. apply Z.mod_pos_bound. lia. }
  assert (E : Z.lor (Z.land x 4042322160) 168430090 = Z.lor (Z.land x 4042322160) 168430090 mod 2 ^ 32).
  { rewrite <-(land_low _ 32), Z.land_lor_distr_l, !(land_low _ 32), (Z.mod_small (Z.land x _)) by lia. done. }
  split; [|rewrite E; apply Z.mod_pos_bound; lia].
  assert (Z.lor (Z.land x 4042322160) 168430090 ≠ 0); [|rewrite E in *; pose proof (Z.mod_pos_bound (Z.lor (Z.land x 4042322160) 168430090) (2 ^ 32)); lia].
  intros [_ H0]%Z.lor_eq_0_iff. discriminate.
Qed.

(** A version label names one version. Whatever the flags (the draft number is a byte), the label of each version the code
    knows is a non-zero 32-bit number that parses as that version; a label parses as a version only when it is that
    version's label; and the labels reserved for negotiation, however random, have the form ?a?a?a?a and parse as no
    version, as does the zero that marks version negotiation. *)
Theorem version_labels_are_unambiguous `{F : Flags} r l :
  0 <= quic_ietf_draft_version < 256 → is_u32 r →
  (∀ v, v ∈ candidates →
     ParseQuicVersionLabel (CreateQuicVersionLabel r v) = v ∧ 0 < CreateQuicVersionLabel r v < two32)
  ∧ (ParseQuicVersionLabel l ≠ UnsupportedQuicVersion →
     ParseQuicVersionLabel l ∈ candidates ∧ l = CreateQuicVersionLabel r (ParseQuicVersionLabel l))
  ∧ (let reserved := CreateQuicVersionLabel r QuicVersionReservedForNegotiation in
     0 < reserved < two32 ∧ Z.land reserved 252645135 = 168430090
     ∧ ParseQuicVersionLabel reserved = UnsupportedQuicVersion)
  ∧ ParseQuicVersionLabel 0 = UnsupportedQuicVersion.
Proof.
  intros Hd Hr. split; [|split; [|split]].
  - intros v Hv. destruct (candidate_label r v Hd Hv) as (?&?&_). done.
  - intros Hl. destruct (ParseQuicVersionLabel_cases l) as [?|[Hv E]]; [done|]. split; [done|].
    by rewrite (label_of_draft F F r 0 _ Hv eq_refl).
  - destruct (reserved_label r Hr) as [Hb Hp]. split; [done|]. split; [done|].
    destruct (ParseQuicVersionLabel_cases (CreateQuicVersionLabel r QuicVersionReservedForNegotiation)) as [->|[Hv E]]; [done|].
    destruct (candidate_label 0 _ Hd Hv) as (_&_&Hn). rewrite <-E in Hn. done.
  - destruct (ParseQuicVersionLabel_cases 0) as [->|[Hv E]]; [done|].
    destruct (candidate_label 0 _ Hd Hv) as (_&Hp&_). rewrite <-E in Hp. lia.
Qed.

(** Flags for the witnesses: draft 22, everything on. *)
Definition demo_flags : Flags := mk_flags true true true false true true true true true false false 60 22.

Lemma version_labels_are_unambiguous_witness :
  let _ := demo_flags in
  CreateQuicVersionLabel 7 (mk_version PROTOCOL_TLS1_3 QUIC_VERSION_99) = 4278190102
  ∧ ParseQuicVersionLabel 4278190102 = mk_version PROTOCOL_TLS1_3 QUIC_VERSION_99
  ∧ ParseQuicVersionLabel (CreateQuicVersionLabel 305419896 QuicVersionReservedForNegotiation) = UnsupportedQuicVersion.
Proof.
  intros F. destruct (version_labels_are_unambiguous (F := demo_flags) 305419896 4278190102 ltac:(split; [discriminate|reflexivity])
    ltac:(split; [discriminate|reflexivity])) as (_&H&H'&_).
  split; [reflexivity|]. split; [reflexivity|]. apply H'.
Defined.

(** The draft number is stored in a [char]: from 128 on, its sign spreads over the upper bytes and the label is not the
    one the draft is assigned. *)
Example draft_label_sign_extends :
  let F := mk_flags true true true true true true true true true true true 60 in
  @CreateQuicVersionLabel (F 127) 0 (mk_version PROTOCOL_TLS1_3 QUIC_VERSION_99) = 4278190080 + 127
  ∧ @CreateQuicVersionLabel (F 128) 0 (mk_version PROTOCOL_TLS1_3 QUIC_VERSION_99) = 4294967168.
Proof. split; reflexivity. Qed.

(** Enabling a version puts it among the current ones, unless it is one of the two that a flag disables, and takes none away. *)
Lemma QuicEnableVersion_enables (f : Flags) v w :
  let f' := QuicEnableVersion v f in
  (v ∈ AllSupportedVersions → transport_version v ≠ QUIC_VERSION_44 → transport_version v ≠ QUIC_VERSION_39 →
   v ∈ @CurrentSupportedVersions f')
  ∧ (w ∈ @CurrentSupportedVersions f → w ∈ @CurrentSupportedVersions f').
Proof.
  intros f'. unfold CurrentSupportedVersions, FilterSupportedVersions. split.
  - intros Hv H44 H39. apply list_elem_of_In, filter_In. split; [by apply list_elem_of_In|]. unfold enabled, f'; cbn.
    apply Z.eqb_neq in H44, H39. rewrite H44, H39. destruct (tls v); cbn; repeat case_match; done || lia.
  - rewrite !list_elem_of_In, !filter_In. intros [Hw He]. split; [done|]. revert He. unfold enabled, f'; cbn.
    destruct (tls v), (tls w), (@quic_supports_tls_handshake f); cbn; try done; repeat case_match; try done; intros ->; by rewrite ?orb_true_r.
Qed.

End Versions.
