(* ===== verification/FrameSizes.v ===== *)
(** The sizes of frames that [QuicFramer] (quic/core/quic_framer.cc) computes before it writes them, of IETF and Google QUIC. A
    packet is filled by these sizes, so each must be what the frame then takes on the wire. *)

From S2P Require Import Prelude Bytes OrderedSet IntervalSet DataWire PacketNumber ReceivedPackets PacketNumberWire.
From S2P Require Import StreamIdManager UnackedPacketMap IetfFrames GoogleFrames Versions.

Module FrameSizes.
Import PacketNumberWire Versions.
Import IetfFramer(QuicFrame(..), QuicConnectionCloseType(..), stream_id, offset, data_length, crypto_offset, crypto_length).
Import UnackedPacketMap(EncryptionLevel(..)).

Definition kQuicFrameTypeSize : Z := 1.
Definition kQuicErrorCodeSize : Z := 4.
Definition kQuicErrorDetailsLengthSize : Z := 2.
Definition kQuicMaxStreamIdSize : Z := 4.
Definition kQuicMaxStreamOffsetSize : Z := 8.
Definition kQuicStreamPayloadLengthSize : Z := 2.
Definition kQuicIetfQuicErrorCodeSize : Z := 2.
Definition kConnectionIdLengthSize : Z := 1.
Definition kMaxAckBlocks : Z := Z.shiftl 1 (GoogleFramer.kNumberOfAckBlocksSize * 8) - 1.
Definition sizeof_QuicApplicationErrorCode : Z := 2.

Abbreviation QuicAckFrame := ReceivedPacketManager.QuicAckFrame.
Abbreviation len62 := Writer.GetVarInt62Len.
Definition size_of (l : QuicPacketNumberLength) : Z := Z.of_nat (length_of l).

(** ** The sizes of a frame's kinds *)

Section version.
Context (version : Z).

Definition stream_version : StreamIdManager.version :=
  StreamIdManager.mk_version (VersionHasIetfQuicFrames version) (QuicVersionUsesCryptoFrames version).
Definition invalid_stream_id : Z := StreamIdManager.GetInvalidStreamId stream_version.

(** The length of the data is a [QuicPacketLength] of 16 bits. *)
Definition GetMinStreamFrameSize (stream_id offset : Z) (last_frame_in_packet : bool) (data_length : Z) : Z :=
  if VersionHasIetfQuicFrames version then
    kQuicFrameTypeSize + len62 stream_id + (if last_frame_in_packet then 0 else len62 (wrap16 data_length))
    + (if negb (offset =? 0) then len62 offset else 0)
  else
    kQuicFrameTypeSize + GoogleFramer.GetStreamIdSize stream_id + GoogleFramer.GetStreamOffsetSize offset
    + (if last_frame_in_packet then 0 else kQuicStreamPayloadLengthSize).

Definition GetMinCryptoFrameSize (offset data_length : Z) : Z := kQuicFrameTypeSize + len62 offset + len62 (wrap16 data_length).

Definition GetMessageFrameSize (last_frame_in_packet : bool) (length : Z) : Z :=
  kQuicFrameTypeSize + (if last_frame_in_packet then 0 else len62 length) + length.

Definition GetMinAckFrameSize (largest_observed_length : QuicPacketNumberLength) : Z :=
  GoogleFramer.GetMinAckFrameSize (VersionHasIetfQuicFrames version) largest_observed_length.

Definition GetStopWaitingFrameSize (packet_number_length : QuicPacketNumberLength) : Z :=
  kQuicFrameTypeSize + size_of packet_number_length.

Definition GetRstStreamFrameSize (stream_id byte_offset : Z) : Z :=
  if VersionHasIetfQuicFrames version then len62 stream_id + len62 byte_offset + kQuicFrameTypeSize + kQuicIetfQuicErrorCodeSize
  else kQuicFrameTypeSize + kQuicMaxStreamIdSize + kQuicMaxStreamOffsetSize + kQuicErrorCodeSize.

Definition TruncatedErrorStringSize (error : list Z) : Z :=
  if zlen error <? IetfFramer.kMaxErrorStringLength then zlen error else IetfFramer.kMaxErrorStringLength.

Definition GetConnectionCloseFrameSize (close_type : QuicConnectionCloseType) (error_details : list Z)
    (transport_close_frame_type : Z) : Z :=
  if negb (VersionHasIetfQuicFrames version) then
    kQuicFrameTypeSize + kQuicErrorCodeSize + kQuicErrorDetailsLengthSize + TruncatedErrorStringSize error_details
  else
    let truncated_error_string_size := TruncatedErrorStringSize error_details in
    let frame_size := truncated_error_string_size + len62 truncated_error_string_size + kQuicFrameTypeSize
      + kQuicIetfQuicErrorCodeSize in
    if decide (close_type = IETF_QUIC_APPLICATION_CONNECTION_CLOSE) then frame_size
    else frame_size + len62 transport_close_frame_type.

Definition GetMinGoAwayFrameSize : Z :=
  kQuicFrameTypeSize + kQuicErrorCodeSize + kQuicErrorDetailsLengthSize + kQuicMaxStreamIdSize.

Definition GetWindowUpdateFrameSize (stream_id byte_offset : Z) : Z :=
  if negb (VersionHasIetfQuicFrames version) then kQuicFrameTypeSize + kQuicMaxStreamIdSize + kQuicMaxStreamOffsetSize
  else if stream_id =? invalid_stream_id then kQuicFrameTypeSize + len62 byte_offset
  else kQuicFrameTypeSize + len62 byte_offset + len62 stream_id.

Definition GetMaxStreamsFrameSize (stream_count : Z) : Z := kQuicFrameTypeSize + len62 stream_count.
Definition GetStreamsBlockedFrameSize (stream_count : Z) : Z := kQuicFrameTypeSize + len62 stream_count.

Definition GetBlockedFrameSize (stream_id offset : Z) : Z :=
  if negb (VersionHasIetfQuicFrames version) then kQuicFrameTypeSize + kQuicMaxStreamIdSize
  else if stream_id =? invalid_stream_id then kQuicFrameTypeSize + len62 offset
  else kQuicFrameTypeSize + len62 offset + len62 stream_id.

Definition GetStopSendingFrameSize (stream_id : Z) : Z := kQuicFrameTypeSize + len62 stream_id + sizeof_QuicApplicationErrorCode.
Definition GetPathChallengeFrameSize : Z := kQuicFrameTypeSize + IetfFramer.kQuicPathFrameBufferSize.
Definition GetPathResponseFrameSize : Z := kQuicFrameTypeSize + IetfFramer.kQuicPathFrameBufferSize.

Definition GetNewConnectionIdFrameSize (sequence_number retire_prior_to : Z) (connection_id : list Z) : Z :=
  kQuicFrameTypeSize + len62 sequence_number + len62 retire_prior_to + kConnectionIdLengthSize + zlen connection_id
  + IetfFramer.stateless_reset_token_size.
Definition GetRetireConnectionIdFrameSize (sequence_number : Z) : Z := kQuicFrameTypeSize + len62 sequence_number.
Definition GetNewTokenFrameSize (token : list Z) : Z := kQuicFrameTypeSize + len62 (zlen token) + zlen token.

Definition GetRetransmittableControlFrameSize (f : QuicFrame) : Z :=
  match f with
  | PingFrame => kQuicFrameTypeSize
  | RstStreamFrame id _ off => GetRstStreamFrameSize id off
  | ConnectionCloseFrame ty _ details frame_type => GetConnectionCloseFrameSize ty details frame_type
  | GoAwayFrame _ _ reason_phrase => GetMinGoAwayFrameSize + TruncatedErrorStringSize reason_phrase
  | WindowUpdateFrame id off => GetWindowUpdateFrameSize id off
  | BlockedFrame id off => GetBlockedFrameSize id off
  | NewConnectionIdFrame seq retire id _ => GetNewConnectionIdFrameSize seq retire id
  | RetireConnectionIdFrame seq => GetRetireConnectionIdFrameSize seq
  | NewTokenFrame token => GetNewTokenFrameSize token
  | MaxStreamsFrame n _ => GetMaxStreamsFrameSize n
  | StreamsBlockedFrame n _ => GetStreamsBlockedFrameSize n
  | PathResponseFrame _ => GetPathResponseFrameSize
  | PathChallengeFrame _ => GetPathChallengeFrameSize
  | StopSendingFrame id _ => GetStopSendingFrameSize id
  | StreamFrame _ | AckFrame _ | StopWaitingFrame _ | MtuDiscoveryFrame | PaddingFrame _ | MessageFrame _ _ | CryptoFrame _ => 0
  end.

(** ** ACK frames *)

(** The loop over the intervals after the first ack block, from the largest down. *)
Fixpoint ack_blocks_size (ack_block_smallest : Z) (itr : list interval) : Z :=
  match itr with
  | [] => 0
  | i :: itr =>
      let gap_size := wrap64 (ack_block_smallest - imax i) in
      let block_size := wrap64 (imax i - imin i) in
      len62 (wrap64 (gap_size - 1)) + len62 (wrap64 (block_size - 1)) + ack_blocks_size (imin i) itr
  end.

Definition GetIetfAckFrameSize (f : QuicAckFrame) : Z :=
  let largest_acked := ReceivedPacketManager.LargestAcked f in
  let ack_delay_time_us := Z.shiftr (wrap64 (ReceivedPacketManager.ack_delay_time f)) IetfFramer.kIetfAckTimestampShift in
  let ack_frame_size := kQuicFrameTypeSize + len62 largest_acked + len62 ack_delay_time_us in
  let ack_frame_size :=
    if ReceivedPacketManager.ecn_counters_populated f
       && (negb (ReceivedPacketManager.ect_0_count f =? 0) || negb (ReceivedPacketManager.ect_1_count f =? 0)
           || negb (ReceivedPacketManager.ecn_ce_count f =? 0))
    then ack_frame_size + len62 (ReceivedPacketManager.ect_0_count f) + len62 (ReceivedPacketManager.ect_1_count f)
         + len62 (ReceivedPacketManager.ecn_ce_count f)
    else ack_frame_size in
  match rev (ReceivedPacketManager.packets f) with
  | [] => ack_frame_size + 2
  | i :: itr =>
      let '(ack_block_smallest, itr) :=
        if PacketNumber.sub (imax i) 1 =? largest_acked then (imin i, itr) else (largest_acked, i :: itr) in
      ack_frame_size + len62 (zlen itr) + len62 (wrap64 (largest_acked - ack_block_smallest)) + ack_blocks_size ack_block_smallest itr
  end.

(** The flag is [process_timestamps_]. *)
Definition GetAckFrameSize (process_timestamps : bool) (f : QuicAckFrame) : Z :=
  if VersionHasIetfQuicFrames version then GetIetfAckFrameSize f else
  let ack_info := GoogleFramer.GetAckFrameInfo f in
  let largest_acked_length := GetMinPacketNumberLength (ReceivedPacketManager.LargestAcked f) in
  let ack_block_length := GetMinPacketNumberLength (GoogleFramer.max_block_length ack_info) in
  let ack_size := GetMinAckFrameSize largest_acked_length in
  let ack_size := ack_size + size_of ack_block_length in
  let ack_size :=
    if negb (GoogleFramer.num_ack_blocks ack_info =? 0)
    then ack_size + GoogleFramer.kNumberOfAckBlocksSize
         + Z.min (GoogleFramer.num_ack_blocks ack_info) kMaxAckBlocks * (size_of ack_block_length + size_of PACKET_1BYTE_PACKET_NUMBER)
    else ack_size in
  if process_timestamps then ack_size + GoogleFramer.GetAckFrameTimeStampSize f else ack_size.

(** ** Any frame *)

Definition ComputeFrameLength (process_timestamps : bool) (f : QuicFrame) (last_frame_in_packet : bool)
    (packet_number_length : QuicPacketNumberLength) : Z :=
  match f with
  | StreamFrame f => GetMinStreamFrameSize (stream_id f) (offset f) last_frame_in_packet (data_length f) + data_length f
  | CryptoFrame f => GetMinCryptoFrameSize (crypto_offset f) (crypto_length f) + crypto_length f
  | AckFrame f => GetAckFrameSize process_timestamps f
  | StopWaitingFrame _ => GetStopWaitingFrameSize packet_number_length
  | MtuDiscoveryFrame => kQuicFrameTypeSize
  | MessageFrame _ n => GetMessageFrameSize last_frame_in_packet n
  | PaddingFrame _ => 0
  | f => GetRetransmittableControlFrameSize f
  end.

(** 0 is for a frame that does not fit. The number of padding bytes, -1 for all, is compared as an unsigned number. *)
Definition GetSerializedFrameLength (process_timestamps : bool) (f : QuicFrame) (free_bytes : Z)
    (first_frame last_frame_in_packet : bool) (packet_number_length : QuicPacketNumberLength) : Z :=
  match f with
  | PaddingFrame n => if n =? -1 then free_bytes else if free_bytes <? wrap64 n then free_bytes else n
  | _ =>
      let frame_len := ComputeFrameLength process_timestamps f last_frame_in_packet packet_number_length in
      if frame_len <=? free_bytes then frame_len else
      if negb first_frame then 0 else
      let can_truncate :=
        match f with AckFrame _ => GetMinAckFrameSize PACKET_6BYTE_PACKET_NUMBER <=? free_bytes | _ => false end in
      if can_truncate then free_bytes else 0
  end.
End version.

(** ** The bytes of a frame are as many as its size *)

Section sizes.
Context {EI : EndianImpl} {EL : EndianLaws} (stream_data : Z → Z → Z) (crypto_data : EncryptionLevel → Z → Z).

Lemma varint_size v : IetfFramer.is_varint v → zlen (IetfFramer.varint v) = len62 v.
Proof. intros H. destruct (WriterSpec.GetVarInt62Len_spec v H) as (Hl&_). by apply WriterSpec.varint_bytes_length. Qed.

Lemma u16_size v : zlen (IetfFramer.u16_bytes v) = 2.
Proof. unfold IetfFramer.u16_bytes. apply GoogleFramer.ub_length. Qed.

Lemma truncated_size d : zlen (IetfFramer.TruncateErrorString d) = TruncatedErrorStringSize d.
Proof.
  unfold IetfFramer.TruncateErrorString, TruncatedErrorStringSize, IetfFramer.kMaxErrorStringLength.
  destruct (Z.leb_spec (zlen d) 256), (Z.ltb_spec (zlen d) 256); try lia; unfold zlen in *; rewrite ?length_take; lia.
Qed.

Lemma wrap16_small v : is_u16 v → wrap16 v = v.
Proof. apply Z.mod_small. Qed.

Lemma byte_size v : 0 <= v < 64 → len62 v = 1.
Proof. intros H. by destruct (IetfFramer.varint_small v H). Qed.

Lemma ietf_blocks_size smallest itr :
  smallest < 2 ^ 62 → IetfFramer.blocks_below smallest itr →
  zlen (IetfFramer.ack_blocks_bytes smallest itr) = ack_blocks_size smallest itr.
Proof.
  revert smallest. induction itr as [|i itr IH]; intros smallest Hs Hb; cbn [IetfFramer.ack_blocks_bytes ack_blocks_size]; [done|].
  destruct (IetfFramer.blocks_below_cons _ _ _ Hb) as (Hi&Hlt&Hb'). rewrite !zlen_app, IH by (done || lia).
  rewrite !varint_size by (unfold IetfFramer.is_varint; lia). unfold wrap64.
  rewrite (Z.mod_small (smallest - imax i)), (Z.mod_small (imax i - imin i)) by (unfold two64; lia).
  rewrite !(Z.mod_small (_ - 1)) by (unfold two64; lia). lia.
Qed.

Lemma ietf_ack_size f : IetfFramer.good_ack f → zlen (IetfFramer.ack_bytes f) + 1 = GetIetfAckFrameSize f.
Proof.
  intros Hg. pose proof (IetfFramer.good_ack_blocks f Hg) as Hb. pose proof (IetfFramer.ack_delay_small f Hg) as Hd.
  destruct Hg as (Hlg&Hdelay&Hv&_&H1&Hm&E0&E1&E2). unfold IetfFramer.ack_bytes, GetIetfAckFrameSize, ReceivedPacketManager.LargestAcked.
  assert (Hdl : len62 (IetfFramer.ack_delay_wire f)
    = len62 (Z.shiftr (wrap64 (ReceivedPacketManager.ack_delay_time f)) IetfFramer.kIetfAckTimestampShift)).
  { unfold IetfFramer.ack_delay_wire. destruct (Z.eqb_spec (ReceivedPacketManager.ack_delay_time f) ReceivedPacketManager.Delta_Infinite) as [->|]; reflexivity. }
  rewrite <-Hdl. unfold IetfFramer.ack_first_block, IetfFramer.ack_frame_type in *.
  set (ecn := ReceivedPacketManager.ecn_counters_populated f && _). set (largest := ReceivedPacketManager.largest_acked f) in *.
  assert (Hecn : zlen (if (if ecn then IetfFramer.IETF_ACK_ECN else IetfFramer.IETF_ACK) =? IetfFramer.IETF_ACK_ECN
    then IetfFramer.varint (ReceivedPacketManager.ect_0_count f) ++ IetfFramer.varint (ReceivedPacketManager.ect_1_count f)
         ++ IetfFramer.varint (ReceivedPacketManager.ecn_ce_count f) else [])
    = if ecn then len62 (ReceivedPacketManager.ect_0_count f) + len62 (ReceivedPacketManager.ect_1_count f)
         + len62 (ReceivedPacketManager.ecn_ce_count f) else 0).
  { destruct ecn; cbn; [|done]. rewrite !zlen_app, !varint_size by done. lia. }
  assert (Hparts : ∀ smallest itr, 1 <= smallest <= largest ∧ zlen itr < 2 ^ 62
      ∧ (∀ i, i ∈ itr → 1 <= imin i < imax i) ∧ StronglySorted (λ i j, imax j < imin i) itr ∧ (∀ i, i ∈ itr → imax i < smallest) →
    zlen (IetfFramer.varint (zlen itr) ++ IetfFramer.varint (largest - smallest) ++ IetfFramer.ack_blocks_bytes smallest itr)
    = len62 (zlen itr) + len62 (wrap64 (largest - smallest)) + ack_blocks_size smallest itr).
  { intros smallest itr (G1&G2&G3&G4&G5). pose proof (zlen_nonneg itr). unfold wrap64. rewrite Z.mod_small by (unfold two64; lia).
    rewrite !zlen_app, !varint_size, ietf_blocks_size by (unfold IetfFramer.is_varint, IetfFramer.blocks_below; eauto; lia). lia. }
  destruct (rev (ReceivedPacketManager.packets f)) as [|i itr].
  - specialize (Hparts largest [] Hb). rewrite !zlen_app in *. rewrite Hecn, (varint_size largest), (varint_size (IetfFramer.ack_delay_wire f)) by
      (done || unfold IetfFramer.is_varint; lia). rewrite ?zlen_app. unfold wrap64 in Hparts. rewrite Z.sub_diag in *.
    change (len62 (zlen (@nil interval))) with 1 in Hparts. change (len62 (0 mod two64)) with 1 in Hparts. cbn [ack_blocks_size] in Hparts.
    unfold kQuicFrameTypeSize. destruct ecn; lia.
  - assert (Hi : 1 <= imax i < two64).
    { destruct (Z.eqb_spec (imax i - 1) largest); [unfold two64; lia|].
      destruct Hb as (_&_&G3&_&G5). pose proof (G3 i ltac:(left)). pose proof (G5 i ltac:(left)). unfold two64. lia. }
    rewrite PacketNumber.sub_small by lia.
    destruct (imax i - 1 =? largest); specialize (Hparts _ _ Hb); rewrite !zlen_app in *;
      rewrite Hecn, (varint_size largest), (varint_size (IetfFramer.ack_delay_wire f)) by (done || unfold IetfFramer.is_varint; lia);
      unfold kQuicFrameTypeSize; destruct ecn; rewrite ?zlen_app; lia.
Qed.

(** IETF frames: all but padding have the computed size. *)
Lemma ietf_frame_size version pts c f last l :
  VersionHasIetfQuicFrames version = true → IetfFramer.transport_version c = stream_version version →
  IetfFramer.good stream_data crypto_data c f → IetfFramer.is_padding f = false →
  zlen (IetfFramer.frame_bytes stream_data crypto_data c f last) = ComputeFrameLength version pts f last l.
Proof.
  intros Hv Hc Hg Hp. unfold IetfFramer.frame_bytes. rewrite zlen_cons.
  destruct f as [n|id code off|ty code details frame_type|code id reason|id off|id off|least| |f|f|f| |seq retire id token|n u|n u|d|d
    |id code|d n|token|seq]; try discriminate; try (exfalso; exact Hg);
    cbn [IetfFramer.body_bytes ComputeFrameLength GetRetransmittableControlFrameSize IetfFramer.good] in *;
    unfold GetRstStreamFrameSize, GetConnectionCloseFrameSize, GetWindowUpdateFrameSize, GetBlockedFrameSize, GetMinStreamFrameSize,
      GetMinCryptoFrameSize, GetAckFrameSize, GetNewConnectionIdFrameSize, GetRetireConnectionIdFrameSize, GetNewTokenFrameSize,
      GetMaxStreamsFrameSize, GetStreamsBlockedFrameSize, GetPathResponseFrameSize, GetPathChallengeFrameSize, GetStopSendingFrameSize,
      GetMessageFrameSize, IetfFramer.no_stream, invalid_stream_id, sizeof_QuicApplicationErrorCode, kConnectionIdLengthSize; rewrite ?Hv, ?Hc; cbn [negb];
    unfold kQuicFrameTypeSize, kQuicIetfQuicErrorCodeSize; rewrite ?zlen_app.
  - destruct Hg as (?&?&?). rewrite u16_size, !varint_size by auto using IetfFramer.u32_varint. lia.
  - destruct Hg as (Hty&?&?). rewrite u16_size, truncated_size, varint_size.
    2: { rewrite <-truncated_size. pose proof (IetfFramer.truncated_length details). pose proof (zlen_nonneg (IetfFramer.TruncateErrorString details)).
         unfold IetfFramer.kMaxErrorStringLength in *. unfold IetfFramer.is_varint. lia. }
    destruct ty; [done| |]; repeat (destruct (decide _); [|try done]); try done; rewrite ?varint_size by done; rewrite ?(@zlen_nil Z); lia.
  - destruct Hg as (?&?). case_match; rewrite ?zlen_app, !varint_size by auto using IetfFramer.u32_varint; lia.
  - destruct Hg as (?&?). case_match; rewrite ?zlen_app, !varint_size by auto using IetfFramer.u32_varint; lia.
  - done.
  - destruct Hg as (?&?&Hz&_). rewrite Hz, !varint_size, wrap16_small by auto using IetfFramer.u16_varint. lia.
  - destruct Hg as (?&?&?&Hz&_). rewrite Hz, varint_size by auto using IetfFramer.u32_varint.
    rewrite wrap16_small by done. destruct (offset f =? 0), last; cbn [negb]; rewrite ?varint_size by auto using IetfFramer.u16_varint;
      rewrite ?(@zlen_nil Z); lia.
  - rewrite Z.add_comm. by apply ietf_ack_size.
  - done.
  - destruct Hg as (?&?&Hz&?&_). rewrite Hz, zlen_cons, (@zlen_nil Z), !varint_size; [lia|unfold IetfFramer.is_varint in *; lia|done].
  - rewrite varint_size by auto using IetfFramer.u32_varint. lia.
  - destruct Hg as (?&_). rewrite varint_size by auto using IetfFramer.u32_varint. lia.
  - rewrite Hg. done.
  - rewrite Hg. done.
  - destruct Hg as (?&_). rewrite u16_size, varint_size by auto using IetfFramer.u32_varint. lia.
  - destruct Hg as (->&?). destruct last; cbn [negb]; rewrite ?varint_size by auto using IetfFramer.u16_varint; rewrite ?(@zlen_nil Z); lia.
  - unfold IetfFramer.kMaxNewTokenTokenLength in Hg. pose proof (zlen_nonneg token). rewrite varint_size by (unfold IetfFramer.is_varint; lia). lia.
  - rewrite varint_size by done. lia.
Qed.

(** *** ACK frames of Google QUIC *)

Lemma concat_replicate_length {A} n (l : list A) : zlen (concat (replicate n l)) = Z.of_nat n * zlen l.
Proof. induction n as [|n IH]; [done|]. cbn [replicate concat]. rewrite zlen_app, IH. lia. Qed.

Lemma block_size l gap len : zlen (GoogleFramer.block l gap len) = size_of l + 1.
Proof. unfold GoogleFramer.block, size_of. rewrite zlen_cons, GoogleFramer.ub_length. lia. Qed.

Lemma blocks_bytes_size l n prev itr :
  0 <= n → prev < 2 ^ 62 → IetfFramer.blocks_below prev itr →
  zlen (GoogleFramer.blocks_bytes l n prev itr) = Z.min n (GoogleFramer.total_blocks prev itr) * (size_of l + 1).
Proof.
  revert n prev. induction itr as [|i itr IH]; intros n prev Hn Hp Hb; cbn [GoogleFramer.blocks_bytes GoogleFramer.total_blocks].
  { rewrite Z.min_r by lia. done. }
  destruct (IetfFramer.blocks_below_cons _ _ _ Hb) as (Hi&Hlt&Hb').
  destruct (GoogleFramer.gap_blocks (prev - imax i) ltac:(lia)) as (Hm&_).
  destruct (GoogleFramer.ack_info_count (imin i) itr (GoogleFramer.mk_info 0 0 0) Hb' ltac:(lia)) as (_&_&Ht).
  destruct (Z.leb_spec ((prev - imax i + 254) / 255) n).
  - rewrite !zlen_app, concat_replicate_length, !block_size, IH by (done || lia).
    set (m := (prev - imax i + 254) / 255) in *. set (k := GoogleFramer.total_blocks (imin i) itr) in *. rewrite Z2Nat.id by lia.
    replace (Z.min n (m + k)) with (m + Z.min (n - m) k) by lia. ring.
  - rewrite concat_replicate_length, block_size. rewrite Z.min_l, Z2Nat.id by lia. done.
Qed.

Lemma later_times_size largest prev times : zlen (GoogleFramer.later_times_bytes largest prev times) = 3 * zlen times.
Proof.
  revert prev. induction times as [|[p time] times IH]; intros prev; cbn [GoogleFramer.later_times_bytes]; [done|].
  rewrite !zlen_app, !zlen_cons, (@zlen_nil Z), GoogleFramer.ub_length, IH. lia.
Qed.

Lemma times_size c f : zlen (GoogleFramer.times_bytes c f) = 1 + GoogleFramer.GetAckFrameTimeStampSize f.
Proof.
  unfold GoogleFramer.times_bytes, GoogleFramer.GetAckFrameTimeStampSize. rewrite zlen_cons.
  destruct (ReceivedPacketManager.received_packet_times f) as [|[p time] times]; [done|].
  rewrite !zlen_app, GoogleFramer.ub_length, later_times_size, !zlen_cons, (@zlen_nil Z).
  unfold GoogleFramer.kQuicNumTimestampsLength, GoogleFramer.kQuicFirstTimestampLength, GoogleFramer.kQuicTimestampLength,
    GoogleFramer.kQuicTimestampPacketNumberGapLength. lia.
Qed.

(** The size of an ACK frame but for the blocks after the first and the timestamps. *)
Definition ack_base (f : QuicAckFrame) : Z :=
  1 + size_of (GoogleFramer.largest_acked_length f) + 2 + 1 + size_of (GoogleFramer.ack_block_length f)
  + (if negb (GoogleFramer.num_ack_blocks (GoogleFramer.GetAckFrameInfo f) =? 0) then 1 else 0).

Lemma ack_part_size c f n i itr :
  GoogleFramer.good_ack c f → GoogleFramer.intervals_down f = (i, itr) →
  0 <= n <= GoogleFramer.num_ack_blocks (GoogleFramer.GetAckFrameInfo f) →
  2 + zlen (GoogleFramer.ack_blocks_part f n)
  = ack_base f + n * (size_of (GoogleFramer.ack_block_length f) + 1)
    - (if negb (GoogleFramer.num_ack_blocks (GoogleFramer.GetAckFrameInfo f) =? 0) && (n =? 0) then 1 else 0).
Proof.
  intros Hg Hd Hn. destruct (GoogleFramer.good_ack_intervals c f i itr Hg Hd) as (_&Hi&Hm&Hb&Hbl).
  destruct (GoogleFramer.blocks_for_range c f 0 i itr Hg Hd) as (_&_&Ht).
  unfold GoogleFramer.ack_blocks_part, ack_base. rewrite Hd, !zlen_app, !GoogleFramer.ub_length. unfold size_of.
  destruct (Z.eqb_spec (GoogleFramer.num_ack_blocks (GoogleFramer.GetAckFrameInfo f)) 0), (Z.ltb_spec 0 n), (Z.eqb_spec n 0); cbn [negb andb]; try lia;
    rewrite ?zlen_cons, ?(@zlen_nil Z); try (rewrite blocks_bytes_size by (done || lia); rewrite Z.min_l by lia; unfold size_of); lia.
Qed.

Lemma size_of_range l : 1 <= size_of l <= 8.
Proof. destruct l; unfold size_of; cbn; lia. Qed.

Lemma blocks_for_room f room : ack_base f <= room < 2 ^ 31 →
  GoogleFramer.blocks_for f room
  = Z.min (Z.min (GoogleFramer.num_ack_blocks (GoogleFramer.GetAckFrameInfo f)) ((room - ack_base f) / (size_of (GoogleFramer.ack_block_length f) + 1))) kMaxAckBlocks.
Proof.
  intros Hr. unfold GoogleFramer.blocks_for, ack_base, GoogleFramer.GetMinAckFrameSize, GoogleFramer.kQuicFrameTypeSize,
    GoogleFramer.kQuicDeltaTimeLargestObservedSize, GoogleFramer.kQuicNumTimestampsSize, GoogleFramer.kNumberOfAckBlocksSize in *.
  fold (size_of (GoogleFramer.largest_acked_length f)) (size_of (GoogleFramer.ack_block_length f)).
  change (Z.of_nat (length_of PACKET_1BYTE_PACKET_NUMBER)) with 1. set (N := GoogleFramer.num_ack_blocks _) in *. cbv zeta.
  pose proof (size_of_range (GoogleFramer.ack_block_length f)). pose proof (size_of_range (GoogleFramer.largest_acked_length f)).
  set (bl := size_of (GoogleFramer.ack_block_length f)) in *. set (ll := size_of (GoogleFramer.largest_acked_length f)) in *.
  set (x := if negb (N =? 0) then 1 else 0) in *. assert (0 <= x <= 1) by (unfold x; destruct (negb _); lia).
  set (avail := room - bl - (1 + ll + 2 + 1) - x). assert (Ha : 0 <= avail < 2 ^ 31) by (unfold avail; lia).
  replace (room - (1 + ll + 2 + 1 + bl + x)) with avail by (unfold avail; lia).
  assert (E : GoogleFramer.to_int32 (wrap64 avail) = avail).
  { unfold GoogleFramer.to_int32, wrap32, wrap64. rewrite (Z.mod_small avail) by (unfold two64; lia). rewrite Z.mod_small by (unfold two32; lia).
    destruct (Z.ltb_spec avail 2147483648); lia. }
  rewrite E, Z.quot_div_nonneg by lia.
  assert (Hq : 0 <= avail / (bl + 1) <= avail) by (split; [apply Z.div_pos; lia|apply Z.div_le_upper_bound; nia]).
  unfold wrap64. rewrite Z.mod_small by (unfold two64; lia). unfold GoogleFramer.uint8_max. change kMaxAckBlocks with 255.
  destruct (Z.ltb_spec 255 (N `min` (avail / (bl + 1)))); lia.
Qed.

Lemma ack_blocks_announced c f i itr :
  GoogleFramer.good_ack c f → GoogleFramer.intervals_down f = (i, itr) → 0 <= GoogleFramer.num_ack_blocks (GoogleFramer.GetAckFrameInfo f).
Proof. intros Hg Hd. destruct (GoogleFramer.blocks_for_range c f 0 i itr Hg Hd). lia. Qed.

(** What [GetAckFrameSize] computes. *)
Lemma google_ack_size_is version pts f : VersionHasIetfQuicFrames version = false →
  GetAckFrameSize version pts f
  = ack_base f + Z.min (GoogleFramer.num_ack_blocks (GoogleFramer.GetAckFrameInfo f)) kMaxAckBlocks * (size_of (GoogleFramer.ack_block_length f) + 1)
    + (if pts then GoogleFramer.GetAckFrameTimeStampSize f else 0).
Proof.
  intros Hv. unfold GetAckFrameSize, GetMinAckFrameSize, ack_base. rewrite Hv. unfold GoogleFramer.GetMinAckFrameSize.
  fold (GoogleFramer.largest_acked_length f) (GoogleFramer.ack_block_length f). fold (size_of (GoogleFramer.largest_acked_length f)).
  change (size_of PACKET_1BYTE_PACKET_NUMBER) with 1. unfold GoogleFramer.kNumberOfAckBlocksSize, GoogleFramer.kQuicFrameTypeSize,
    GoogleFramer.kQuicDeltaTimeLargestObservedSize, GoogleFramer.kQuicNumTimestampsSize. cbv zeta.
  destruct (Z.eqb_spec (GoogleFramer.num_ack_blocks (GoogleFramer.GetAckFrameInfo f)) 0) as [E|E]; cbn [negb].
  - rewrite E. change (0 `min` kMaxAckBlocks) with 0. destruct pts; lia.
  - destruct pts; lia.
Qed.

(** With room for all of it, an ACK frame has the computed size; the byte for the number of timestamps is counted twice, and
    the byte for the first packet's distance not at all. *)
Lemma google_ack_size version c f room :
  VersionHasIetfQuicFrames version = false → GoogleFramer.good_ack c f →
  GetAckFrameSize version (GoogleFramer.process_timestamps c) f <= room < 2 ^ 31 →
  zlen (GoogleFramer.ack_bytes c f room) + 1 = GetAckFrameSize version (GoogleFramer.process_timestamps c) f.
Proof.
  intros Hv Hg. rewrite google_ack_size_is by done. destruct (GoogleFramer.intervals_down f) as [i itr] eqn:Hd.
  pose proof (ack_blocks_announced c f i itr Hg Hd) as HN. unfold GoogleFramer.ack_bytes, GoogleFramer.times_fit.
  set (N := GoogleFramer.num_ack_blocks (GoogleFramer.GetAckFrameInfo f)) in *. pose proof (size_of_range (GoogleFramer.ack_block_length f)) as Hbl.
  pose proof (zlen_nonneg (GoogleFramer.times_bytes c f)) as Hts. rewrite times_size in Hts.
  set (TS := GoogleFramer.GetAckFrameTimeStampSize f) in *. set (bl := size_of (GoogleFramer.ack_block_length f)) in *. intros Hr.
  assert (HTS : 0 <= TS).
  { unfold TS, GoogleFramer.GetAckFrameTimeStampSize. destruct (ReceivedPacketManager.received_packet_times f); [done|].
    rewrite zlen_cons. pose proof (zlen_nonneg l). unfold GoogleFramer.kQuicNumTimestampsLength, GoogleFramer.kQuicFirstTimestampLength,
      GoogleFramer.kQuicTimestampLength, GoogleFramer.kQuicTimestampPacketNumberGapLength. lia. }
  change kMaxAckBlocks with 255 in *.
  assert (Hb : ack_base f <= room < 2 ^ 31) by (destruct (GoogleFramer.process_timestamps c); nia).
  assert (Hn : GoogleFramer.blocks_for f room = Z.min N 255).
  { rewrite blocks_for_room by done. fold N bl. change kMaxAckBlocks with 255.
    assert (Z.min N 255 <= (room - ack_base f) / (bl + 1)); [|lia].
    apply Z.div_le_lower_bound; [lia|]. destruct (GoogleFramer.process_timestamps c); nia. }
  rewrite Hn. pose proof (ack_part_size c f (Z.min N 255) i itr Hg Hd ltac:(lia)) as Hp. fold N bl in Hp.
  assert (Hx : negb (N =? 0) && (Z.min N 255 =? 0) = false).
  { destruct (Z.eqb_spec N 0), (Z.eqb_spec (Z.min N 255) 0); try done. lia. }
  rewrite Hx in Hp. rewrite zlen_app. destruct (GoogleFramer.process_timestamps c); cbn [andb].
  - fold TS. destruct (Z.leb_spec TS (room - 1 - zlen (GoogleFramer.ack_blocks_part f (Z.min N 255)))); [|lia].
    rewrite times_size. fold TS. lia.
  - rewrite zlen_cons, (@zlen_nil Z). lia.
Qed.

(** What the smallest ACK frame with these numbers takes: its type, the largest packet number, the delay, the first block and the
    number of timestamps. *)
Definition smallest_ack (f : QuicAckFrame) : Z :=
  1 + size_of (GoogleFramer.largest_acked_length f) + 2 + size_of (GoogleFramer.ack_block_length f) + 1.

(** A byte is missing for the number of blocks: then no blocks are written, and no number. *)
Lemma blocks_for_none f room : 0 <= GoogleFramer.num_ack_blocks (GoogleFramer.GetAckFrameInfo f) → room = smallest_ack f → ack_base f = room + 1 → GoogleFramer.blocks_for f room = 0.
Proof.
  intros HN Hs Hb. unfold GoogleFramer.blocks_for, ack_base, smallest_ack, GoogleFramer.GetMinAckFrameSize, GoogleFramer.kQuicFrameTypeSize,
    GoogleFramer.kQuicDeltaTimeLargestObservedSize, GoogleFramer.kQuicNumTimestampsSize, GoogleFramer.kNumberOfAckBlocksSize in *.
  fold (size_of (GoogleFramer.largest_acked_length f)) (size_of (GoogleFramer.ack_block_length f)).
  change (Z.of_nat (length_of PACKET_1BYTE_PACKET_NUMBER)) with 1. set (N := GoogleFramer.num_ack_blocks _) in *. cbv zeta.
  pose proof (size_of_range (GoogleFramer.ack_block_length f)). set (bl := size_of (GoogleFramer.ack_block_length f)) in *.
  set (x := if negb (N =? 0) then 1 else 0) in *. assert (x = 1) by lia. replace (room - bl - _ - x) with (-1) by lia.
  change (GoogleFramer.to_int32 (wrap64 (-1))) with (-1). assert (E : Z.quot (-1) (bl + 1) = 0) by (apply Z.quot_small_iff; lia). rewrite E.
  change (wrap64 0) with 0. rewrite Z.min_r by lia. done.
Qed.

(** An ACK frame is cut to fit whenever the smallest one fits; [room] is that of the frame. *)
Lemma google_ack_cut c f room :
  GoogleFramer.good_ack c f → 0 <= room < 2 ^ 31 →
  2 + zlen (GoogleFramer.ack_blocks_part f (GoogleFramer.blocks_for f room)) <= room ↔ smallest_ack f <= room.
Proof.
  intros Hg Hr. destruct (GoogleFramer.intervals_down f) as [i itr] eqn:Hd. pose proof (ack_blocks_announced c f i itr Hg Hd) as HN.
  destruct (GoogleFramer.blocks_for_range c f room i itr Hg Hd) as ((Hn0&_)&Hn1&_).
  pose proof (ack_part_size c f (GoogleFramer.blocks_for f room) i itr Hg Hd ltac:(lia)) as Hp. pose proof (size_of_range (GoogleFramer.ack_block_length f)) as Hbl.
  assert (Hbase : ack_base f = smallest_ack f + (if negb (GoogleFramer.num_ack_blocks (GoogleFramer.GetAckFrameInfo f) =? 0) then 1 else 0)) by (unfold ack_base, smallest_ack; lia).
  destruct (Z.le_gt_cases (ack_base f) room) as [Hle|Hgt].
  - pose proof (blocks_for_room f room ltac:(lia)) as Hb. set (n := GoogleFramer.blocks_for f room) in *.
    assert (Hm : n <= (room - ack_base f) / (size_of (GoogleFramer.ack_block_length f) + 1)) by lia.
    pose proof (Z.mul_div_le (room - ack_base f) (size_of (GoogleFramer.ack_block_length f) + 1) ltac:(lia)).
    assert (n * (size_of (GoogleFramer.ack_block_length f) + 1) <= room - ack_base f) by nia. clear Hm Hb. destruct (negb _ && _), (negb _); lia.
  - destruct (Z.le_gt_cases (smallest_ack f) room) as [Hs|Hs].
    + rewrite (blocks_for_none f room) in Hp |- * by (destruct (negb _); lia). destruct (negb _); [|lia]. cbn [andb Z.eqb] in Hp. lia.
    + set (n := GoogleFramer.blocks_for f room) in *. assert (0 <= n * (size_of (GoogleFramer.ack_block_length f) + 1)) by nia.
      destruct (negb _); cbn [andb] in Hp; [destruct (n =? 0)|]; lia.
Qed.

(** The timestamps are one byte longer than announced: they are written when the room behind the blocks is short of that byte. *)
Definition times_miss_a_byte (c : GoogleFramer.framer) (f : QuicAckFrame) (room : Z) : bool :=
  GoogleFramer.process_timestamps c
  && (GoogleFramer.GetAckFrameTimeStampSize f =? room - 1 - zlen (GoogleFramer.ack_blocks_part f (GoogleFramer.blocks_for f room))).

Lemma google_ack_fits c f room :
  GoogleFramer.good_ack c f → 0 <= room < 2 ^ 31 →
  (1 + zlen (GoogleFramer.ack_bytes c f room) <=? room) = (smallest_ack f <=? room) && negb (times_miss_a_byte c f room).
Proof.
  intros Hg Hr. pose proof (google_ack_cut c f room Hg Hr) as [H1 H2]. unfold GoogleFramer.ack_bytes, GoogleFramer.times_fit, times_miss_a_byte.
  set (L := zlen (GoogleFramer.ack_blocks_part f _)) in *. rewrite zlen_app. fold L.
  pose proof (zlen_nonneg (ReceivedPacketManager.received_packet_times f)).
  assert (HT : 0 <= GoogleFramer.GetAckFrameTimeStampSize f).
  { unfold GoogleFramer.GetAckFrameTimeStampSize. destruct (ReceivedPacketManager.received_packet_times f); [done|].
    unfold GoogleFramer.kQuicNumTimestampsLength, GoogleFramer.kQuicFirstTimestampLength, GoogleFramer.kQuicTimestampLength,
      GoogleFramer.kQuicTimestampPacketNumberGapLength. rewrite zlen_cons in *. pose proof (zlen_nonneg l). lia. }
  destruct (GoogleFramer.process_timestamps c); cbn [andb negb].
  - destruct (Z.leb_spec (GoogleFramer.GetAckFrameTimeStampSize f) (room - 1 - L)); rewrite ?times_size, ?zlen_cons, ?(@zlen_nil Z).
    + destruct (Z.eqb_spec (GoogleFramer.GetAckFrameTimeStampSize f) (room - 1 - L)), (Z.leb_spec (smallest_ack f) room); cbn [andb negb]; lia.
    + destruct (Z.eqb_spec (GoogleFramer.GetAckFrameTimeStampSize f) (room - 1 - L)), (Z.leb_spec (smallest_ack f) room); cbn [andb negb]; lia.
  - rewrite zlen_cons, (@zlen_nil Z). destruct (Z.leb_spec (smallest_ack f) room); cbn [andb]; lia.
Qed.

(** *** The other frames of Google QUIC *)

Lemma str16_size d : zlen (GoogleFramer.str16 d) = 2 + zlen d.
Proof. unfold GoogleFramer.str16. by rewrite zlen_app, GoogleFramer.ub_length. Qed.

Lemma google_frame_size version c h f last room :
  VersionHasIetfQuicFrames version = false → GoogleFramer.good stream_data crypto_data c h f → IetfFramer.is_padding f = false →
  (match f with AckFrame _ => ComputeFrameLength version (GoogleFramer.process_timestamps c) f last (GoogleFramer.packet_number_length h) <= room < 2 ^ 31
   | _ => True end) →
  zlen (GoogleFramer.frame_bytes stream_data crypto_data c h f last room)
  = ComputeFrameLength version (GoogleFramer.process_timestamps c) f last (GoogleFramer.packet_number_length h).
Proof.
  intros Hv Hg Hp Hr. unfold GoogleFramer.frame_bytes. rewrite zlen_cons.
  destruct f as [n|id code off|ty code details frame_type|code id reason|id off|id off|least| |f|f|f| |seq retire id token|n u|n u|d|d
    |id code|d n|token|seq]; try discriminate; try (exfalso; exact Hg);
    cbn [GoogleFramer.body_bytes ComputeFrameLength GetRetransmittableControlFrameSize GoogleFramer.good] in *;
    unfold GetRstStreamFrameSize, GetConnectionCloseFrameSize, GetWindowUpdateFrameSize, GetBlockedFrameSize, GetMinStreamFrameSize,
      GetMinCryptoFrameSize, GetMinGoAwayFrameSize, GetMessageFrameSize, GetStopWaitingFrameSize; rewrite ?Hv; cbn [negb];
    unfold kQuicFrameTypeSize, kQuicErrorCodeSize, kQuicErrorDetailsLengthSize, kQuicMaxStreamIdSize, kQuicMaxStreamOffsetSize,
      kQuicStreamPayloadLengthSize; rewrite ?zlen_app, ?str16_size, ?truncated_size, ?GoogleFramer.ub_length.
  1-6: (unfold size_of; lia).
  - done.
  - destruct Hg as (_&?&?&Hz&_). rewrite Hz, !varint_size, wrap16_small by auto using IetfFramer.u16_varint. lia.
  - destruct Hg as (Hid&Hoff&?&Hz&_). rewrite Hz. destruct (GoogleFramer.stream_id_size _ Hid). destruct (GoogleFramer.stream_offset_size _ Hoff).
    destruct last; cbn [negb]; rewrite ?GoogleFramer.ub_length, ?(@zlen_nil Z); lia.
  - rewrite Z.add_comm. by apply google_ack_size.
  - done.
  - destruct Hg as (_&->&?). destruct last; cbn [negb]; rewrite ?varint_size by auto using IetfFramer.u16_varint; rewrite ?(@zlen_nil Z); lia.
Qed.

(** *** The sizes that are announced *)

(** A write of exactly [n] bytes. *)
Definition takes (a : Writer.action) (w : Writer.t) (n : Z) : Prop :=
  ∃ w', a w = (true, w') ∧ WriterSpec.wf w' ∧ Writer.length_ w' = Writer.length_ w + n.

Lemma emits_in_takes room a d w :
  GoogleFramer.emits_in room a d → WriterSpec.wf w → Writer.endianness w = NETWORK_BYTE_ORDER → Writer.remaining w = room →
  if zlen d <=? room then takes a w (zlen d) else (a w).1 = false.
Proof.
  intros H Hw He Hr. specialize (H w Hw He Hr). destruct (a w) as [ok w'] eqn:E. destruct H as (Hw'&_&_&_&Hok&H). subst ok.
  destruct (zlen d <=? room); [|done]. destruct (H eq_refl) as [_ Hl]. exists w'. done.
Qed.

Lemma serialized_length version pts f free first last l : IetfFramer.is_padding f = false →
  let size := ComputeFrameLength version pts f last l in
  GetSerializedFrameLength version pts f free first last l
  = if size <=? free then size
    else if first && (match f with AckFrame _ => GetMinAckFrameSize version PACKET_6BYTE_PACKET_NUMBER <=? free | _ => false end) then free else 0.
Proof. intros Hp size. unfold GetSerializedFrameLength. destruct f; try done; fold size; destruct (size <=? free); try done; by destruct first. Qed.

(** C8. The size that is announced for a frame is the number of bytes it takes on the wire. In both kinds of QUIC, for any frame but
    padding that is within the limits of the protocol, at any place in a packet: if the computed size is at most what is free in
    the writer, that size is announced, and writing the frame succeeds and takes exactly that many bytes. Otherwise, if it is no
    ACK frame, nothing is announced and writing it fails. An ACK frame that does not fit is announced only when it is the first
    frame of its packet and the least size of an ACK frame is free (5 bytes in IETF QUIC, 10 in Google QUIC), and then as all that
    is free. In IETF QUIC it is not cut, and writing it fails. In Google QUIC it is cut, and takes no more than what is free, if
    the smallest frame with its packet numbers fits and its timestamps, when they are processed, are not short of exactly one
    byte; in the other cases writing it fails, although it may have been announced. *)
Theorem frame_sizes_are_exact version ci cg h f first last w :
  let free := Writer.remaining w in
  let pts := GoogleFramer.process_timestamps cg in
  let size := ComputeFrameLength version pts f last (GoogleFramer.packet_number_length h) in
  let n := GetSerializedFrameLength version pts f free first last (GoogleFramer.packet_number_length h) in
  WriterSpec.wf w → Writer.endianness w = NETWORK_BYTE_ORDER → free < 2 ^ 31 → IetfFramer.is_padding f = false →
  (VersionHasIetfQuicFrames version = true → IetfFramer.transport_version ci = stream_version version →
   IetfFramer.good stream_data crypto_data ci f →
   if size <=? free then n = size ∧ takes (IetfFramer.append_frame ci f last) w size
   else (IetfFramer.append_frame ci f last w).1 = false
        ∧ n = if first && (match f with AckFrame _ => 5 <=? free | _ => false end) then free else 0)
  ∧ (VersionHasIetfQuicFrames version = false → GoogleFramer.good stream_data crypto_data cg h f →
   if size <=? free then n = size ∧ takes (GoogleFramer.append_frame cg h f last) w size
   else match f with
        | AckFrame a => n = (if first && (10 <=? free) then free else 0)
            ∧ if (smallest_ack a <=? free) && negb (times_miss_a_byte cg a free)
              then ∃ k, k <= free ∧ takes (GoogleFramer.append_frame cg h f last) w k
              else (GoogleFramer.append_frame cg h f last w).1 = false
        | _ => (GoogleFramer.append_frame cg h f last w).1 = false ∧ n = 0
        end).
Proof.
  intros free pts size n Hw He Hfree Hp. unfold n. rewrite serialized_length by done. fold size. split.
  - intros Hv Hc Hg. pose proof (ietf_frame_size version pts ci f last (GoogleFramer.packet_number_length h) Hv Hc Hg Hp) as Hs. fold size in Hs.
    pose proof (emits_in_takes free _ _ w (GoogleFramer.emits_in_any free _ _ (IetfFramer.emits_frame _ _ ci f last Hg)) Hw He eq_refl) as H.
    rewrite Hs in H. unfold GetMinAckFrameSize. rewrite Hv. change (GoogleFramer.GetMinAckFrameSize true _) with 5.
    destruct (size <=? free); done.
  - intros Hv Hg.
    pose proof (emits_in_takes free _ _ w (GoogleFramer.google_emits_frame _ _ cg h f last free Hg) Hw He eq_refl) as H.
    pose proof (google_frame_size version cg h f last free Hv Hg Hp) as Hs. fold pts size in Hs.
    destruct (Z.leb_spec size free) as [Hle|Hgt].
    + rewrite Hs in H by (destruct f; lia || done). destruct (Z.leb_spec size free); [done|lia].
    + destruct f; try (rewrite Hs in H by done; destruct (Z.leb_spec size free); [lia|]; split; [exact H|by rewrite andb_false_r]).
      unfold GetMinAckFrameSize. rewrite Hv. change (GoogleFramer.GetMinAckFrameSize false _) with 10. split; [done|].
      assert (Hfree0 : 0 <= free) by (destruct Hw; unfold free, Writer.remaining in *; lia). rewrite <-(google_ack_fits cg _ free Hg ltac:(lia)).
      set (d := GoogleFramer.frame_bytes _ _ _ _ _ _ _) in H. assert (Hd : zlen d = 1 + zlen (GoogleFramer.ack_bytes cg f free)) by (unfold d, GoogleFramer.frame_bytes; by rewrite zlen_cons).
      rewrite Hd in H. destruct (Z.leb_spec (1 + zlen (GoogleFramer.ack_bytes cg f free)) free); [by eexists|done].
Qed.
End sizes.

(** ** On examples *)

Section examples.
#[local] Existing Instance swap_endian.
#[local] Existing Instance swap_endian_laws.
Import IetfFramer(example_stream_data, example_crypto_data, example_framer, example_ack).
Import GoogleFramer(sample_framer, sample_header, sample_ack, sample_stream_data, sample_crypto_data).

(** In IETF QUIC, an ACK frame of 12 bytes into 20, and into 10, where it is announced but cannot be written. In Google QUIC, one of
    24 bytes into 22, where it is cut, and into 23, where a byte is missing for its timestamps. *)
Lemma frame_sizes_are_exact_witness :
  let w n := Writer.new n NETWORK_BYTE_ORDER in
  let ietf := IetfFramer.append_frame example_framer (AckFrame example_ack) true in
  let google := GoogleFramer.append_frame sample_framer sample_header (AckFrame sample_ack) true in
  let announced version f free := GetSerializedFrameLength version true (AckFrame f) free true true PACKET_2BYTE_PACKET_NUMBER in
  (announced QUIC_VERSION_99 example_ack 20 = 12 ∧ takes ietf (w 20%nat) 12)
  ∧ (announced QUIC_VERSION_99 example_ack 10 = 10 ∧ (ietf (w 10%nat)).1 = false)
  ∧ (announced 46 sample_ack 22 = 22 ∧ ∃ k, k <= 22 ∧ takes google (w 22%nat) k)
  ∧ (announced 46 sample_ack 23 = 23 ∧ (google (w 23%nat)).1 = false).
Proof.
  assert (Hi : IetfFramer.good example_stream_data example_crypto_data example_framer (AckFrame example_ack)) by exact (Forall_inv IetfFramer.example_frames_good).
  assert (Hg : GoogleFramer.good sample_stream_data sample_crypto_data sample_framer sample_header (AckFrame sample_ack)) by exact (Forall_inv GoogleFramer.sample_frames_good).
  assert (Hw : ∀ n, WriterSpec.wf (Writer.new n NETWORK_BYTE_ORDER)) by (intros; apply WriterSpec.writer_new_wf).
  split_and!; try (vm_compute; reflexivity).
  - exact (proj2 (proj1 (frame_sizes_are_exact example_stream_data example_crypto_data QUIC_VERSION_99 example_framer sample_framer sample_header (AckFrame example_ack) true true
      (Writer.new 20 NETWORK_BYTE_ORDER) (Hw _) eq_refl eq_refl eq_refl) eq_refl eq_refl Hi)).
  - exact (proj2 (proj2 (frame_sizes_are_exact sample_stream_data sample_crypto_data 46 example_framer sample_framer sample_header (AckFrame sample_ack) true true
      (Writer.new 22 NETWORK_BYTE_ORDER) (Hw _) eq_refl eq_refl eq_refl) eq_refl Hg)).
Defined.
End examples.
End FrameSizes.
