(* ===== verification/PacketHeaders.v ===== *)
(** Packet headers in [QuicFramer] (quic/core/quic_framer.cc), with the headers' sizes and connection ids of quic_packets.cc: the
    public header of Google QUIC and the long and short headers of IETF QUIC, up to what header protection hides; version
    negotiation packets, the probes that ask for one, and the dispatcher's look at a header it has no connection for. *)

From Stdlib Require Import Strings.String Strings.Byte.
From S2P Require Import Prelude Bytes OrderedSet IntervalSet DataWire PacketNumber PacketNumberWire.
From S2P Require Import StreamIdManager UnackedPacketMap Versions.

Module PacketHeaders.
Import PacketNumberWire Versions.
Import StreamIdManager(Perspective(..)).
Import UnackedPacketMap(EncryptionLevel(..), PacketNumberSpace(..)).
#[local] Notation "a &&& b" := (Writer.andthen a b) (at level 40, left associativity).
#[local] Notation "x <~ a ; b" := (Reader.bind a (λ x, b)) (at level 100, a at next level, right associativity).

(** ** Constants *)

Definition PACKET_PUBLIC_FLAGS_VERSION : Z := 1.
Definition PACKET_PUBLIC_FLAGS_RST : Z := 2.
Definition PACKET_PUBLIC_FLAGS_NONCE : Z := 4.
Definition PACKET_PUBLIC_FLAGS_0BYTE_CONNECTION_ID : Z := 0.
Definition PACKET_PUBLIC_FLAGS_8BYTE_CONNECTION_ID : Z := 8.
Definition PACKET_PUBLIC_FLAGS_8BYTE_CONNECTION_ID_OLD : Z := 12.
Definition PACKET_PUBLIC_FLAGS_MAX : Z := 63.
Definition kPublicHeaderSequenceNumberShift : Z := 4.

Definition FLAGS_DEMULTIPLEXING_BIT : Z := 8.
Definition FLAGS_SHORT_HEADER_RESERVED_1 : Z := 16.
Definition FLAGS_SHORT_HEADER_RESERVED_2 : Z := 32.
Definition FLAGS_FIXED_BIT : Z := 64.
Definition FLAGS_LONG_HEADER : Z := 128.

Definition kPublicFlagsSize : Z := 1.
Definition kQuicVersionSize : Z := 4.
Definition kPacketHeaderTypeSize : Z := 1.
Definition kConnectionIdLengthSize : Z := 1.
Definition kDiversificationNonceSize : Z := 32.
Definition kQuicDefaultConnectionIdLength : Z := 8.
Definition kConnectionIdLengthAdjustment : Z := 3.
Definition kDestinationConnectionIdLengthMask : Z := 240.
Definition kSourceConnectionIdLengthMask : Z := 15.
Definition kQuicDefaultLongHeaderLengthLength : Z := 2.
Definition kMinPacketSizeForVersionNegotiation : Z := 1200.

(** ** Headers *)

Inductive PacketHeaderFormat := IETF_QUIC_LONG_HEADER_PACKET | IETF_QUIC_SHORT_HEADER_PACKET | GOOGLE_QUIC_PACKET.
Inductive QuicLongHeaderType := VERSION_NEGOTIATION | INITIAL | ZERO_RTT_PROTECTED | HANDSHAKE | RETRY | INVALID_PACKET_TYPE.

#[global] Instance PacketHeaderFormat_eq_dec : EqDecision PacketHeaderFormat.
Proof. solve_decision. Defined.
#[global] Instance QuicLongHeaderType_eq_dec : EqDecision QuicLongHeaderType.
Proof. solve_decision. Defined.
#[global] Instance QuicPacketNumberLength_eq_dec : EqDecision QuicPacketNumberLength.
Proof. solve_decision. Defined.

(** A connection id is its bytes; [true] is [CONNECTION_ID_PRESENT]; a nonce and a possible reset token are there or not. *)
Record QuicPacketHeader := mk_header {
  destination_connection_id : list Z;
  destination_connection_id_included : bool;
  source_connection_id : list Z;
  source_connection_id_included : bool;
  reset_flag : bool;
  version_flag : bool;
  possible_stateless_reset_token : option (list Z);
  packet_number_length : QuicPacketNumberLength;
  type_byte : Z;
  version : ParsedQuicVersion;
  nonce : option (list Z);
  packet_number : Z;
  form : PacketHeaderFormat;
  long_packet_type : QuicLongHeaderType;
  retry_token_length_length : Z;
  retry_token : list Z;
  length_length : Z;
  remaining_packet_length : Z;
}.
Definition set_type v0 v1 (h : QuicPacketHeader) : QuicPacketHeader :=
  mk_header (destination_connection_id h) (destination_connection_id_included h) (source_connection_id h)
    (source_connection_id_included h) (reset_flag h) (version_flag h) (possible_stateless_reset_token h)
    (packet_number_length h) v0 (version h) (nonce h) (packet_number h) v1 (long_packet_type h)
    (retry_token_length_length h) (retry_token h) (length_length h) (remaining_packet_length h).
Definition set_version_flag v0 (h : QuicPacketHeader) : QuicPacketHeader :=
  mk_header (destination_connection_id h) (destination_connection_id_included h) (source_connection_id h)
    (source_connection_id_included h) (reset_flag h) v0 (possible_stateless_reset_token h) (packet_number_length h)
    (type_byte h) (version h) (nonce h) (packet_number h) (form h) (long_packet_type h) (retry_token_length_length h)
    (retry_token h) (length_length h) (remaining_packet_length h).
Definition set_reset_flag v0 (h : QuicPacketHeader) : QuicPacketHeader :=
  mk_header (destination_connection_id h) (destination_connection_id_included h) (source_connection_id h)
    (source_connection_id_included h) v0 (version_flag h) (possible_stateless_reset_token h) (packet_number_length h)
    (type_byte h) (version h) (nonce h) (packet_number h) (form h) (long_packet_type h) (retry_token_length_length h)
    (retry_token h) (length_length h) (remaining_packet_length h).
Definition set_included v0 v1 (h : QuicPacketHeader) : QuicPacketHeader :=
  mk_header (destination_connection_id h) v0 (source_connection_id h) v1 (reset_flag h) (version_flag h)
    (possible_stateless_reset_token h) (packet_number_length h) (type_byte h) (version h) (nonce h) (packet_number h)
    (form h) (long_packet_type h) (retry_token_length_length h) (retry_token h) (length_length h)
    (remaining_packet_length h).
Definition set_version v0 (h : QuicPacketHeader) : QuicPacketHeader :=
  mk_header (destination_connection_id h) (destination_connection_id_included h) (source_connection_id h)
    (source_connection_id_included h) (reset_flag h) (version_flag h) (possible_stateless_reset_token h)
    (packet_number_length h) (type_byte h) v0 (nonce h) (packet_number h) (form h) (long_packet_type h)
    (retry_token_length_length h) (retry_token h) (length_length h) (remaining_packet_length h).
Definition set_long_type v0 (h : QuicPacketHeader) : QuicPacketHeader :=
  mk_header (destination_connection_id h) (destination_connection_id_included h) (source_connection_id h)
    (source_connection_id_included h) (reset_flag h) (version_flag h) (possible_stateless_reset_token h)
    (packet_number_length h) (type_byte h) (version h) (nonce h) (packet_number h) (form h) v0 (retry_token_length_length h)
    (retry_token h) (length_length h) (remaining_packet_length h).
Definition set_number_length v0 (h : QuicPacketHeader) : QuicPacketHeader :=
  mk_header (destination_connection_id h) (destination_connection_id_included h) (source_connection_id h)
    (source_connection_id_included h) (reset_flag h) (version_flag h) (possible_stateless_reset_token h) v0 (type_byte h)
    (version h) (nonce h) (packet_number h) (form h) (long_packet_type h) (retry_token_length_length h) (retry_token h)
    (length_length h) (remaining_packet_length h).
Definition set_destination v0 (h : QuicPacketHeader) : QuicPacketHeader :=
  mk_header v0 (destination_connection_id_included h) (source_connection_id h) (source_connection_id_included h)
    (reset_flag h) (version_flag h) (possible_stateless_reset_token h) (packet_number_length h) (type_byte h) (version h)
    (nonce h) (packet_number h) (form h) (long_packet_type h) (retry_token_length_length h) (retry_token h)
    (length_length h) (remaining_packet_length h).
Definition set_source v0 (h : QuicPacketHeader) : QuicPacketHeader :=
  mk_header (destination_connection_id h) (destination_connection_id_included h) v0 (source_connection_id_included h)
    (reset_flag h) (version_flag h) (possible_stateless_reset_token h) (packet_number_length h) (type_byte h) (version h)
    (nonce h) (packet_number h) (form h) (long_packet_type h) (retry_token_length_length h) (retry_token h)
    (length_length h) (remaining_packet_length h).
Definition set_nonce v0 (h : QuicPacketHeader) : QuicPacketHeader :=
  mk_header (destination_connection_id h) (destination_connection_id_included h) (source_connection_id h)
    (source_connection_id_included h) (reset_flag h) (version_flag h) (possible_stateless_reset_token h)
    (packet_number_length h) (type_byte h) (version h) v0 (packet_number h) (form h) (long_packet_type h)
    (retry_token_length_length h) (retry_token h) (length_length h) (remaining_packet_length h).
Definition set_number v0 (h : QuicPacketHeader) : QuicPacketHeader :=
  mk_header (destination_connection_id h) (destination_connection_id_included h) (source_connection_id h)
    (source_connection_id_included h) (reset_flag h) (version_flag h) (possible_stateless_reset_token h)
    (packet_number_length h) (type_byte h) (version h) (nonce h) v0 (form h) (long_packet_type h)
    (retry_token_length_length h) (retry_token h) (length_length h) (remaining_packet_length h).
Definition set_retry_token v0 v1 (h : QuicPacketHeader) : QuicPacketHeader :=
  mk_header (destination_connection_id h) (destination_connection_id_included h) (source_connection_id h)
    (source_connection_id_included h) (reset_flag h) (version_flag h) (possible_stateless_reset_token h)
    (packet_number_length h) (type_byte h) (version h) (nonce h) (packet_number h) (form h) (long_packet_type h) v0 v1
    (length_length h) (remaining_packet_length h).
Definition set_length v0 v1 (h : QuicPacketHeader) : QuicPacketHeader :=
  mk_header (destination_connection_id h) (destination_connection_id_included h) (source_connection_id h)
    (source_connection_id_included h) (reset_flag h) (version_flag h) (possible_stateless_reset_token h)
    (packet_number_length h) (type_byte h) (version h) (nonce h) (packet_number h) (form h) (long_packet_type h)
    (retry_token_length_length h) (retry_token h) v0 v1.
Definition set_type_byte v0 (h : QuicPacketHeader) : QuicPacketHeader :=
  mk_header (destination_connection_id h) (destination_connection_id_included h) (source_connection_id h)
    (source_connection_id_included h) (reset_flag h) (version_flag h) (possible_stateless_reset_token h)
    (packet_number_length h) v0 (version h) (nonce h) (packet_number h) (form h) (long_packet_type h)
    (retry_token_length_length h) (retry_token h) (length_length h) (remaining_packet_length h).
Definition set_reset_token v0 (h : QuicPacketHeader) : QuicPacketHeader :=
  mk_header (destination_connection_id h) (destination_connection_id_included h) (source_connection_id h)
    (source_connection_id_included h) (reset_flag h) (version_flag h) v0 (packet_number_length h) (type_byte h) (version h)
    (nonce h) (packet_number h) (form h) (long_packet_type h) (retry_token_length_length h) (retry_token h)
    (length_length h) (remaining_packet_length h).

Definition QuicPacketHeader_new : QuicPacketHeader :=
  mk_header [] true [] false false false None PACKET_4BYTE_PACKET_NUMBER 0 UnsupportedQuicVersion None
    PacketNumber.UninitializedPacketNumber GOOGLE_QUIC_PACKET INITIAL 0 [] 0 0.

(** ** The framer, as far as headers depend on it *)

Record framer := mk_framer {
  perspective : Perspective;
  version_ : ParsedQuicVersion;
  validate_flags : bool;
  infer_packet_header_type_from_version : bool;
  expected_server_connection_id_length : Z;
  expected_client_connection_id_length : Z;
  last_serialized_server_connection_id : list Z;
  last_serialized_client_connection_id : list Z;
  last_written_packet_number_length : Z;
  largest_packet_number : Z;
  supports_multiple_packet_number_spaces : bool;
  largest_decrypted_packet_numbers : UnackedPacketMap.spaces;
}.
Definition set_last_server v0 (c : framer) : framer :=
  mk_framer (perspective c) (version_ c) (validate_flags c) (infer_packet_header_type_from_version c)
    (expected_server_connection_id_length c) (expected_client_connection_id_length c) v0
    (last_serialized_client_connection_id c) (last_written_packet_number_length c) (largest_packet_number c)
    (supports_multiple_packet_number_spaces c) (largest_decrypted_packet_numbers c).
Definition set_last_client v0 (c : framer) : framer :=
  mk_framer (perspective c) (version_ c) (validate_flags c) (infer_packet_header_type_from_version c)
    (expected_server_connection_id_length c) (expected_client_connection_id_length c)
    (last_serialized_server_connection_id c) v0 (last_written_packet_number_length c) (largest_packet_number c)
    (supports_multiple_packet_number_spaces c) (largest_decrypted_packet_numbers c).
Definition set_last_length v0 (c : framer) : framer :=
  mk_framer (perspective c) (version_ c) (validate_flags c) (infer_packet_header_type_from_version c)
    (expected_server_connection_id_length c) (expected_client_connection_id_length c)
    (last_serialized_server_connection_id c) (last_serialized_client_connection_id c) v0 (largest_packet_number c)
    (supports_multiple_packet_number_spaces c) (largest_decrypted_packet_numbers c).
Definition set_largest v0 (c : framer) : framer :=
  mk_framer (perspective c) (version_ c) (validate_flags c) (infer_packet_header_type_from_version c)
    (expected_server_connection_id_length c) (expected_client_connection_id_length c)
    (last_serialized_server_connection_id c) (last_serialized_client_connection_id c) (last_written_packet_number_length c)
    v0 (supports_multiple_packet_number_spaces c) (largest_decrypted_packet_numbers c).
Definition set_largest_decrypted v0 (c : framer) : framer :=
  mk_framer (perspective c) (version_ c) (validate_flags c) (infer_packet_header_type_from_version c)
    (expected_server_connection_id_length c) (expected_client_connection_id_length c)
    (last_serialized_server_connection_id c) (last_serialized_client_connection_id c) (last_written_packet_number_length c)
    (largest_packet_number c) (supports_multiple_packet_number_spaces c) v0.

Definition is_server (c : framer) : bool := bool_decide (perspective c = IS_SERVER).
Definition is_client (c : framer) : bool := bool_decide (perspective c = IS_CLIENT).
Definition transport (c : framer) : Z := transport_version (version_ c).

(** ** Helpers *)

Definition has (flags bit : Z) : bool := negb (Z.land flags bit =? 0).

Definition IsIetfPacketHeader (first_byte : Z) : bool :=
  has first_byte FLAGS_LONG_HEADER || has first_byte FLAGS_FIXED_BIT || negb (has first_byte FLAGS_DEMULTIPLEXING_BIT).
Definition IsIetfPacketShortHeader (first_byte : Z) : bool :=
  IsIetfPacketHeader first_byte && negb (has first_byte FLAGS_LONG_HEADER).
Definition GetIetfPacketHeaderFormat (type_byte : Z) : PacketHeaderFormat :=
  if has type_byte FLAGS_LONG_HEADER then IETF_QUIC_LONG_HEADER_PACKET else IETF_QUIC_SHORT_HEADER_PACKET.

Definition IsConnectionIdValidForVersion (connection_id : list Z) (version : Z) : bool :=
  if VariableLengthConnectionIdAllowedForVersion version then true else zlen connection_id =? kQuicDefaultConnectionIdLength.

Definition PacketNumberLengthToOnWireValue (version : Z) (l : QuicPacketNumberLength) : Z :=
  if QUIC_VERSION_44 <? version then Z.of_nat (length_of l) - 1 else
  match l with
  | PACKET_1BYTE_PACKET_NUMBER => 0 | PACKET_2BYTE_PACKET_NUMBER => 1 | PACKET_4BYTE_PACKET_NUMBER => 2
  | _ => 0
  end.

(** [static_cast<QuicPacketNumberLength>((type & 0x03) + 1)]. *)
Definition two_bits_length (type : Z) : QuicPacketNumberLength :=
  let bits := Z.land type 3 in
  if bits =? 0 then PACKET_1BYTE_PACKET_NUMBER else if bits =? 1 then PACKET_2BYTE_PACKET_NUMBER
  else if bits =? 2 then PACKET_3BYTE_PACKET_NUMBER else PACKET_4BYTE_PACKET_NUMBER.

Definition GetShortHeaderPacketNumberLength (version type : Z) (infer_packet_header_type_from_version : bool)
    : option QuicPacketNumberLength :=
  let two_bits_packet_number_length :=
    if infer_packet_header_type_from_version then QUIC_VERSION_44 <? version else has type FLAGS_FIXED_BIT in
  if two_bits_packet_number_length then Some (two_bits_length type) else
  let bits := Z.land type 7 in
  if bits =? 0 then Some PACKET_1BYTE_PACKET_NUMBER else if bits =? 1 then Some PACKET_2BYTE_PACKET_NUMBER
  else if bits =? 2 then Some PACKET_4BYTE_PACKET_NUMBER else None.

Definition LongHeaderTypeToOnWireValue (version : Z) (type : QuicLongHeaderType) : Z :=
  let new := QUIC_VERSION_44 <? version in
  match type with
  | INITIAL => if new then 0 else 127
  | ZERO_RTT_PROTECTED => if new then 16 else 124
  | HANDSHAKE => if new then 32 else 125
  | RETRY => if new then 48 else 126
  | VERSION_NEGOTIATION => 240
  | INVALID_PACKET_TYPE => 255
  end.

Definition GetLongHeaderType (version type : Z) : option QuicLongHeaderType :=
  if QUIC_VERSION_44 <? version then
    let bits := Z.shiftr (Z.land type 48) 4 in
    if bits =? 0 then Some INITIAL else if bits =? 1 then Some ZERO_RTT_PROTECTED
    else if bits =? 2 then Some HANDSHAKE else if bits =? 3 then Some RETRY else None
  else
    let bits := Z.land type 127 in
    if bits =? 127 then Some INITIAL else if bits =? 124 then Some ZERO_RTT_PROTECTED
    else if bits =? 125 then Some HANDSHAKE else if bits =? 126 then Some RETRY else None.

Definition GetLongHeaderPacketNumberLength (version type : Z) : QuicPacketNumberLength :=
  if QUIC_VERSION_44 <? version then two_bits_length type else PACKET_4BYTE_PACKET_NUMBER.

Definition GetPacketNumberSpace (h : QuicPacketHeader) : PacketNumberSpace :=
  match form h with
  | GOOGLE_QUIC_PACKET => NUM_PACKET_NUMBER_SPACES
  | IETF_QUIC_SHORT_HEADER_PACKET => APPLICATION_DATA
  | IETF_QUIC_LONG_HEADER_PACKET =>
      match long_packet_type h with
      | INITIAL => INITIAL_DATA
      | HANDSHAKE => HANDSHAKE_DATA
      | ZERO_RTT_PROTECTED => APPLICATION_DATA
      | _ => NUM_PACKET_NUMBER_SPACES
      end
  end.

(** [None] is [NUM_ENCRYPTION_LEVELS]. *)
Definition GetEncryptionLevel (h : QuicPacketHeader) : option EncryptionLevel :=
  match form h with
  | GOOGLE_QUIC_PACKET => None
  | IETF_QUIC_SHORT_HEADER_PACKET => Some ENCRYPTION_FORWARD_SECURE
  | IETF_QUIC_LONG_HEADER_PACKET =>
      match long_packet_type h with
      | INITIAL => Some ENCRYPTION_INITIAL
      | HANDSHAKE => Some ENCRYPTION_HANDSHAKE
      | ZERO_RTT_PROTECTED => Some ENCRYPTION_ZERO_RTT
      | _ => None
      end
  end.

Definition GetConnectionIdLengthValue (length : Z) : Z :=
  if length =? 0 then 0 else wrap8 (length - kConnectionIdLengthAdjustment).

Definition IsValidFullPacketNumber (full_packet_number version : Z) : bool :=
  (0 <? full_packet_number) || (version =? QUIC_VERSION_99).

Section flags.
Context {EI : EndianImpl} {F : Flags}.

(** ** Whose connection id is whose (quic_packets.cc) *)

Definition GetServerConnectionIdAsRecipient (h : QuicPacketHeader) (p : Perspective) : list Z :=
  if bool_decide (p = IS_SERVER) || negb quic_do_not_override_connection_id then destination_connection_id h
  else source_connection_id h.
Definition GetClientConnectionIdAsRecipient (h : QuicPacketHeader) (p : Perspective) : list Z :=
  if bool_decide (p = IS_CLIENT) then destination_connection_id h else source_connection_id h.
Definition GetServerConnectionIdAsSender (h : QuicPacketHeader) (p : Perspective) : list Z :=
  if bool_decide (p = IS_CLIENT) || negb quic_do_not_override_connection_id then destination_connection_id h
  else source_connection_id h.
Definition GetServerConnectionIdIncludedAsSender (h : QuicPacketHeader) (p : Perspective) : bool :=
  if bool_decide (p = IS_CLIENT) || negb quic_do_not_override_connection_id then destination_connection_id_included h
  else source_connection_id_included h.
Definition GetClientConnectionIdAsSender (h : QuicPacketHeader) (p : Perspective) : list Z :=
  if bool_decide (p = IS_CLIENT) || negb quic_do_not_override_connection_id then source_connection_id h
  else destination_connection_id h.
Definition GetClientConnectionIdIncludedAsSender (h : QuicPacketHeader) (p : Perspective) : bool :=
  if bool_decide (p = IS_CLIENT) || negb quic_do_not_override_connection_id then source_connection_id_included h
  else destination_connection_id_included h.

Definition GetIncludedConnectionIdLength (connection_id : list Z) (included : bool) : Z :=
  if included then zlen connection_id else 0.
Definition GetIncludedDestinationConnectionIdLength (h : QuicPacketHeader) : Z :=
  GetIncludedConnectionIdLength (destination_connection_id h) (destination_connection_id_included h).
Definition GetIncludedSourceConnectionIdLength (h : QuicPacketHeader) : Z :=
  GetIncludedConnectionIdLength (source_connection_id h) (source_connection_id_included h).

(** ** Sizes (quic_packets.cc) *)

Definition GetPacketHeaderSize_of (version destination_connection_id_length source_connection_id_length : Z)
    (include_version include_diversification_nonce : bool) (l : QuicPacketNumberLength)
    (retry_token_length_length retry_token_length length_length : Z) : Z :=
  if VersionHasIetfInvariantHeader version then
    if include_version then
      let size := kPacketHeaderTypeSize + kConnectionIdLengthSize + destination_connection_id_length
        + source_connection_id_length
        + (if QUIC_VERSION_44 <? version then Z.of_nat (length_of l) else Z.of_nat (length_of PACKET_4BYTE_PACKET_NUMBER))
        + kQuicVersionSize in
      let size := if include_diversification_nonce then size + kDiversificationNonceSize else size in
      if QuicVersionHasLongHeaderLengths version || negb quic_fix_get_packet_header_size
      then size + (retry_token_length_length + retry_token_length + length_length) else size
    else kPacketHeaderTypeSize + destination_connection_id_length + Z.of_nat (length_of l)
  else kPublicFlagsSize + destination_connection_id_length + source_connection_id_length
    + (if include_version then kQuicVersionSize else 0) + Z.of_nat (length_of l)
    + (if include_diversification_nonce then kDiversificationNonceSize else 0).

Definition included {A} (o : option A) : bool := match o with Some _ => true | None => false end.

Definition GetPacketHeaderSize (version : Z) (h : QuicPacketHeader) : Z :=
  GetPacketHeaderSize_of version (GetIncludedDestinationConnectionIdLength h) (GetIncludedSourceConnectionIdLength h)
    (version_flag h) (included (nonce h)) (packet_number_length h) (retry_token_length_length h) (zlen (retry_token h))
    (length_length h).
Definition GetStartOfEncryptedData (version : Z) (h : QuicPacketHeader) : Z := GetPacketHeaderSize version h.

(** ** Writing *)

(** Writing a header changes the framer too, and tells where the length field of a long header is. A step fails or goes on. *)
Record writing := mk_writing { writer : Writer.t; sender : framer; length_field_offset : Z }.
Definition step := writing → bool * writing.
Definition then_ (a b : step) : step := λ s, let '(ok, s) := a s in if ok then b s else (false, s).
Definition write (a : Writer.action) : step := λ s,
  let '(ok, w) := a (writer s) in (ok, mk_writing w (sender s) (length_field_offset s)).
Definition ignore (a : Writer.action) : step := λ s,
  (true, mk_writing (a (writer s)).2 (sender s) (length_field_offset s)).
Definition change (f : framer → framer) : step := λ s, (true, mk_writing (writer s) (f (sender s)) (length_field_offset s)).
Definition set_offset (f : Writer.t → Z) : step := λ s, (true, mk_writing (writer s) (sender s) (f (writer s))).
Definition done : step := λ s, (true, s).
#[local] Notation "a ;> b" := (then_ a b) (at level 55, right associativity).

Definition AppendIetfConnectionIds (version_flag : bool) (destination_connection_id source_connection_id : list Z) : Writer.action :=
  if negb version_flag then Writer.WriteConnectionId destination_connection_id else
  let dcil := GetConnectionIdLengthValue (zlen destination_connection_id) in
  let scil := GetConnectionIdLengthValue (zlen source_connection_id) in
  let connection_id_length := wrap8 (Z.lor (Z.shiftl dcil 4) scil) in
  Writer.WriteUInt8 connection_id_length &&& Writer.WriteConnectionId destination_connection_id
  &&& Writer.WriteConnectionId source_connection_id.

Definition IetfHeaderTypeByte (c : framer) (h : QuicPacketHeader) : Z :=
  let v := transport c in
  if QUIC_VERSION_44 <? v then
    if version_flag h then
      wrap8 (Z.lor (Z.lor (Z.lor FLAGS_LONG_HEADER FLAGS_FIXED_BIT) (LongHeaderTypeToOnWireValue v (long_packet_type h)))
        (PacketNumberLengthToOnWireValue v (packet_number_length h)))
    else wrap8 (Z.lor FLAGS_FIXED_BIT (PacketNumberLengthToOnWireValue v (packet_number_length h)))
  else if version_flag h then wrap8 (Z.lor FLAGS_LONG_HEADER (LongHeaderTypeToOnWireValue v (long_packet_type h)))
  else Z.lor (Z.lor FLAGS_SHORT_HEADER_RESERVED_1 FLAGS_SHORT_HEADER_RESERVED_2)
    (PacketNumberLengthToOnWireValue v (packet_number_length h)).
Definition AppendIetfHeaderTypeByte (c : framer) (h : QuicPacketHeader) : Writer.action :=
  Writer.WriteUInt8 (IetfHeaderTypeByte c h).

Definition AppendNonce (h : QuicPacketHeader) : Writer.action :=
  match nonce h with Some n => Writer.WriteBytes n | None => Writer.ret true end.

(** Only the label of the version that is reserved for negotiation has a random part, and no header is sent in it: it is 0 here. *)
Definition AppendIetfPacketHeader (h : QuicPacketHeader) : step := λ s,
  let c := sender s in
  let server_connection_id := GetServerConnectionIdAsSender h (perspective c) in
  (write (AppendIetfHeaderTypeByte c h)
   ;> (if version_flag h then write (Writer.WriteUInt32 (CreateQuicVersionLabel 0 (version_ c))) else done)
   ;> write (AppendIetfConnectionIds (version_flag h)
        (if destination_connection_id_included h then destination_connection_id h else [])
        (if source_connection_id_included h then source_connection_id h else []))
   ;> change (set_last_server server_connection_id)
   ;> (if SupportsClientConnectionIds (version_ c)
       then change (set_last_client (GetClientConnectionIdAsSender h (perspective c))) else done)
   ;> (if QuicVersionHasLongHeaderLengths (transport c) && version_flag h then
        (if bool_decide (long_packet_type h = INITIAL) then
           write (Writer.WriteVarInt62_len (zlen (retry_token h)) (retry_token_length_length h))
           ;> (if bool_decide (retry_token h = []) then done else write (Writer.WriteStringPiece (retry_token h)))
         else done)
        ;> set_offset Writer.length_
        ;> ignore (Writer.WriteVarInt62 256)
      else set_offset (λ _, 0))
   ;> write (AppendPacketNumber (packet_number_length h) (packet_number h))
   ;> change (set_last_length (Z.of_nat (length_of (packet_number_length h))))
   ;> (if negb (version_flag h) then done else write (AppendNonce h))) s.

Definition public_flags_of (c : framer) (h : QuicPacketHeader) : Z :=
  let flags := 0 in
  let flags := if reset_flag h then Z.lor flags PACKET_PUBLIC_FLAGS_RST else flags in
  let flags := if version_flag h then Z.lor flags PACKET_PUBLIC_FLAGS_VERSION else flags in
  let flags := Z.lor flags (wrap8 (Z.shiftl (GetPacketNumberFlags (packet_number_length h)) kPublicHeaderSequenceNumberShift)) in
  let flags := if included (nonce h) then Z.lor flags PACKET_PUBLIC_FLAGS_NONCE else flags in
  if GetServerConnectionIdIncludedAsSender h (perspective c) then
    let flags := Z.lor flags PACKET_PUBLIC_FLAGS_8BYTE_CONNECTION_ID in
    if is_client c then Z.lor flags PACKET_PUBLIC_FLAGS_8BYTE_CONNECTION_ID_OLD else flags
  else Z.lor flags PACKET_PUBLIC_FLAGS_0BYTE_CONNECTION_ID.

Definition AppendPacketHeader (h : QuicPacketHeader) : step := λ s,
  let c := sender s in
  if VersionHasIetfInvariantHeader (transport c) then AppendIetfPacketHeader h s else
  let server_connection_id := GetServerConnectionIdAsSender h (perspective c) in
  (write (if GetServerConnectionIdIncludedAsSender h (perspective c)
          then Writer.WriteUInt8 (public_flags_of c h) &&& Writer.WriteConnectionId server_connection_id
          else Writer.WriteUInt8 (public_flags_of c h))
   ;> change (set_last_server server_connection_id)
   ;> (if version_flag h then write (Writer.WriteUInt32 (CreateQuicVersionLabel 0 (version_ c))) else done)
   ;> write (AppendNonce h)
   ;> write (AppendPacketNumber (packet_number_length h) (packet_number h))) s.

(** ** Reading *)

Definition fail {A} : Reader.action A := λ r, (None, r).
Definition guard (b : bool) : Reader.action unit := if b then Reader.ret tt else fail.

Definition parse {A} (a : Reader.action A) (packet : list Z) : option A := (a (Reader.new packet NETWORK_BYTE_ORDER)).1.

Definition ProcessVersionLabel : Reader.action Z := Reader.ReadUInt32.
Definition ReadConnectionId (length : Z) : Reader.action (list Z) := Reader.ReadConnectionId quic_use_allocated_connection_ids length.

Definition ProcessIetfLongHeaderType (c : framer) (type : Z) (h : QuicPacketHeader) : Reader.action QuicPacketHeader :=
  let h := set_version_flag true h in
  let h := set_included (is_server c || SupportsClientConnectionIds (version_ c))
    (is_client c || SupportsClientConnectionIds (version_ c)) h in
  version_label <~ ProcessVersionLabel;
  if version_label =? 0 then Reader.ret (set_long_type VERSION_NEGOTIATION h) else
  let h := set_version (ParseQuicVersionLabel version_label) h in
  let v := transport_version (version h) in
  if v =? QUIC_VERSION_UNSUPPORTED then Reader.ret h else
  if (QUIC_VERSION_44 <? v) && negb (has type FLAGS_FIXED_BIT) then fail else
  match GetLongHeaderType v type with
  | None => fail
  | Some t =>
      let h := set_long_type t h in
      if bool_decide (t = RETRY) then
        if negb (SupportsRetry (version_ c)) || is_server c then fail else Reader.ret h
      else if negb (HasHeaderProtection (version h)) then
        Reader.ret (set_number_length (GetLongHeaderPacketNumberLength v type) h)
      else Reader.ret h
  end.

Definition ProcessIetfShortHeaderType (c : framer) (type : Z) (h : QuicPacketHeader) : Reader.action QuicPacketHeader :=
  let h := set_version_flag false h in
  let h := set_included (is_server c || SupportsClientConnectionIds (version_ c)) false h in
  if infer_packet_header_type_from_version c && (QUIC_VERSION_44 <? transport c) && negb (has type FLAGS_FIXED_BIT) then fail else
  if negb (HasHeaderProtection (version h)) then
    match GetShortHeaderPacketNumberLength (transport c) type (infer_packet_header_type_from_version c) with
    | Some l => Reader.ret (set_number_length l h)
    | None => fail
    end
  else Reader.ret h.

Definition ProcessIetfHeaderTypeByte (c : framer) (h : QuicPacketHeader) : Reader.action QuicPacketHeader :=
  type <~ Reader.ReadUInt8;
  let h := set_type type (GetIetfPacketHeaderFormat type) h in
  match form h with
  | IETF_QUIC_LONG_HEADER_PACKET => ProcessIetfLongHeaderType c type h
  | _ => ProcessIetfShortHeaderType c type h
  end.

(** The result: the expected length of the server's ids, and the lengths of both ids. *)
Definition ProcessAndValidateIetfConnectionIdLength (v : ParsedQuicVersion) (p : Perspective)
    (should_update_expected_server_connection_id_length : bool)
    (expected_server_connection_id_length destination_connection_id_length source_connection_id_length : Z)
    : Reader.action (Z * Z * Z) :=
  connection_id_lengths_byte <~ Reader.ReadUInt8;
  let dcil := Z.shiftr (Z.land connection_id_lengths_byte kDestinationConnectionIdLengthMask) 4 in
  let dcil := if negb (dcil =? 0) then wrap8 (dcil + kConnectionIdLengthAdjustment) else dcil in
  let scil := Z.land connection_id_lengths_byte kSourceConnectionIdLengthMask in
  let scil := if negb (scil =? 0) then wrap8 (scil + kConnectionIdLengthAdjustment) else scil in
  let expected := if should_update_expected_server_connection_id_length
    then (if bool_decide (p = IS_SERVER) then dcil else scil) else expected_server_connection_id_length in
  if negb should_update_expected_server_connection_id_length
     && (negb (dcil =? destination_connection_id_length) || negb (scil =? source_connection_id_length))
     && negb (VariableLengthConnectionIdAllowedForVersion (transport_version v))
  then fail else Reader.ret (expected, dcil, scil).

(** The end of [ProcessIetfPacketHeader]: the ids the packet leaves out, and those it must not carry. *)
Definition OverrideConnectionIds (c : framer) (h : QuicPacketHeader) : option QuicPacketHeader :=
  if negb quic_do_not_override_connection_id then
    if source_connection_id_included h then
      match destination_connection_id h with
      | [] => Some (set_destination (source_connection_id h) h)
      | _ => None
      end
    else if negb (destination_connection_id_included h) then
      Some (set_destination (last_serialized_server_connection_id c) h)
    else Some h
  else if negb (source_connection_id_included h) then
    match source_connection_id h with
    | [] => Some (set_source (if is_client c then last_serialized_server_connection_id c
                              else last_serialized_client_connection_id c) h)
    | _ => None
    end
  else Some h.

Definition ProcessIetfPacketHeader (c : framer) (h : QuicPacketHeader) : Reader.action QuicPacketHeader :=
  h <~ ProcessIetfHeaderTypeByte c h;
  let destination_length := if destination_connection_id_included h then
    (if is_server c then expected_server_connection_id_length c else expected_client_connection_id_length c) else 0 in
  let source_length := if source_connection_id_included h then
    (if is_client c then expected_server_connection_id_length c else expected_client_connection_id_length c) else 0 in
  lengths <~ (match form h with
              | IETF_QUIC_LONG_HEADER_PACKET =>
                  ProcessAndValidateIetfConnectionIdLength (version h) (perspective c) false
                    (expected_server_connection_id_length c) destination_length source_length
              | _ => Reader.ret (expected_server_connection_id_length c, destination_length, source_length)
              end);
  let '(_, destination_length, source_length) := lengths in
  destination <~ ReadConnectionId destination_length;
  let h := set_destination destination h in
  source <~ ReadConnectionId source_length;
  let h := set_source source h in
  match OverrideConnectionIds c h with
  | Some h => Reader.ret h
  | None => fail
  end.

Definition ProcessPublicHeader (c : framer) (packet_has_ietf_packet_header : bool) (h : QuicPacketHeader)
    : Reader.action QuicPacketHeader :=
  if packet_has_ietf_packet_header then ProcessIetfPacketHeader c h else
  public_flags <~ Reader.ReadUInt8;
  let h := set_reset_flag (has public_flags PACKET_PUBLIC_FLAGS_RST) h in
  let h := set_version_flag (has public_flags PACKET_PUBLIC_FLAGS_VERSION) h in
  if validate_flags c && negb (version_flag h) && (PACKET_PUBLIC_FLAGS_MAX <? public_flags) then fail else
  if reset_flag h && version_flag h then fail else
  let as_source := is_client c && quic_do_not_override_connection_id in
  h <~ (if has public_flags PACKET_PUBLIC_FLAGS_8BYTE_CONNECTION_ID then
          connection_id <~ ReadConnectionId kQuicDefaultConnectionIdLength;
          Reader.ret (if as_source then set_source connection_id (set_included (destination_connection_id_included h) true h)
                      else set_destination connection_id (set_included true (source_connection_id_included h) h))
        else
          let connection_id := last_serialized_server_connection_id c in
          Reader.ret (if as_source then set_source connection_id (set_included (destination_connection_id_included h) false h)
                      else set_destination connection_id (set_included false (source_connection_id_included h) h)));
  let h := set_number_length (ReadSequenceNumberLength (Z.shiftr public_flags kPublicHeaderSequenceNumberShift)) h in
  h <~ (if version_flag h && is_server c then
          version_label <~ ProcessVersionLabel;
          let v := ParseQuicVersionLabel version_label in
          if bool_decide (v = version_ c) && (PACKET_PUBLIC_FLAGS_MAX <? public_flags) then fail
          else Reader.ret (set_version v h)
        else Reader.ret h);
  if has public_flags PACKET_PUBLIC_FLAGS_NONCE && negb (has public_flags PACKET_PUBLIC_FLAGS_VERSION)
     && negb (has public_flags PACKET_PUBLIC_FLAGS_RST) && is_client c
  then n <~ Reader.ReadBytes kDiversificationNonceSize; Reader.ret (set_nonce (Some n) h)
  else Reader.ret (set_nonce None h).

(** ** After the public header *)

(** What the number of a packet is relative to; [None]: the header belongs to no packet number space. *)
Definition base_packet_number (c : framer) (h : QuicPacketHeader) : option Z :=
  if supports_multiple_packet_number_spaces c then
    match GetPacketNumberSpace h with
    | NUM_PACKET_NUMBER_SPACES => None
    | s => Some (UnackedPacketMap.get_space (largest_decrypted_packet_numbers c) s)
    end
  else Some (largest_packet_number c).

(** [ProcessUnauthenticatedHeader] up to the call of the visitor. *)
Definition ProcessUnauthenticatedHeader (c : framer) (h : QuicPacketHeader) : Reader.action QuicPacketHeader :=
  match base_packet_number c h with
  | None => fail
  | Some base =>
      full_packet_number <~ ProcessAndCalculatePacketNumber (packet_number_length h) base;
      if negb (IsValidFullPacketNumber full_packet_number (transport c)) then fail
      else Reader.ret (set_number full_packet_number h)
  end.

Definition MaybeProcessIetfInitialRetryToken (h : QuicPacketHeader) : Reader.action QuicPacketHeader := λ r,
  if negb (QuicVersionHasLongHeaderLengths (transport_version (version h)))
     || negb (bool_decide (form h = IETF_QUIC_LONG_HEADER_PACKET)) || negb (bool_decide (long_packet_type h = INITIAL))
  then (Some h, r) else
  let length_length := Reader.PeekVarInt62Length r in
  (length <~ Reader.ReadVarInt62;
   λ r, let token := Reader.PeekRemainingPayload r in
     if zlen token <? length then (None, r) else
     let token := take (Z.to_nat length) token in
     (wasted <~ Reader.ReadBytes length; Reader.ret (set_retry_token length_length token h)) r) r.

(** The coalesced packet the visitor is given, if there is one that belongs to this connection. *)
Definition MaybeProcessCoalescedPacket (c : framer) (r : Reader.t) (remaining_bytes_length : Z) (h : QuicPacketHeader)
    : option (list Z) :=
  if remaining_bytes_length <=? remaining_packet_length h then None else
  let coalesced_data := drop (Z.to_nat (remaining_packet_length h)) (Reader.PeekRemainingPayload r) in
  match parse (ProcessIetfPacketHeader c QuicPacketHeader_new) coalesced_data with
  | None => None
  | Some coalesced =>
      if negb (bool_decide (destination_connection_id coalesced = destination_connection_id h))
         || (negb (bool_decide (form coalesced = IETF_QUIC_SHORT_HEADER_PACKET))
             && negb (bool_decide (version coalesced = version h)))
      then None else Some coalesced_data
  end.

(** With the coalesced packet. *)
Definition MaybeProcessIetfLength (c : framer) (h : QuicPacketHeader) : Reader.action (QuicPacketHeader * option (list Z)) := λ r,
  if negb (QuicVersionHasLongHeaderLengths (transport_version (version h)))
     || negb (bool_decide (form h = IETF_QUIC_LONG_HEADER_PACKET))
     || (negb (bool_decide (long_packet_type h = INITIAL)) && negb (bool_decide (long_packet_type h = HANDSHAKE))
         && negb (bool_decide (long_packet_type h = ZERO_RTT_PROTECTED)))
  then (Some (h, None), r) else
  let length_length := Reader.PeekVarInt62Length r in
  (length <~ Reader.ReadVarInt62;
   λ r, let h := set_length length_length length h in
     let remaining_bytes_length := Reader.BytesRemaining r in
     if remaining_bytes_length <? length then (None, r) else
     let coalesced := MaybeProcessCoalescedPacket c r remaining_bytes_length h in
     let '(ok, r) := Reader.TruncateRemaining length r in
     if negb ok then (None, r) else (Some (h, coalesced), r)) r.

(** ** Version negotiation *)

Definition IsVersionNegotiation (c : framer) (h : QuicPacketHeader) (packet_has_ietf_packet_header : bool) : bool :=
  if negb packet_has_ietf_packet_header && is_client c then version_flag h
  else if bool_decide (form h = IETF_QUIC_SHORT_HEADER_PACKET) then false
  else bool_decide (long_packet_type h = VERSION_NEGOTIATION).

(** What a packet built in a buffer of [len] bytes is; [None] is [nullptr]. *)
Definition build (len : Z) (a : Writer.action) : option (list Z) :=
  let '(ok, w) := a (Writer.new (Z.to_nat len) NETWORK_BYTE_ORDER) in
  if ok then Some (Writer.buffer w) else None.

Fixpoint AppendVersionLabels (labels : list Z) : Writer.action :=
  match labels with
  | [] => Writer.ret true
  | label :: labels => Writer.WriteUInt32 label &&& AppendVersionLabels labels
  end.

Definition BuildIetfVersionNegotiationPacket (randoms : nat → Z) (server_connection_id client_connection_id : list Z)
    (versions : list ParsedQuicVersion) : option (list Z) :=
  build (kPacketHeaderTypeSize + kConnectionIdLengthSize + zlen client_connection_id + zlen server_connection_id
         + (zlen versions + 1) * kQuicVersionSize)
    (Writer.WriteUInt8 (wrap8 (Z.lor FLAGS_LONG_HEADER FLAGS_FIXED_BIT))
     &&& Writer.WriteUInt32 0
     &&& AppendIetfConnectionIds true client_connection_id server_connection_id
     &&& AppendVersionLabels (CreateQuicVersionLabelVector randoms versions)).

(** The versions of a negotiation packet: greased, or at least one. [random] is what [RandUint64] gives. *)
Definition negotiated_versions (random : Z) (versions : list ParsedQuicVersion) : list ParsedQuicVersion :=
  if negb quic_version_negotiation_grease then
    match versions with [] => [QuicVersionReservedForNegotiation] | _ => versions end
  else
    match versions with
    | [] => [QuicVersionReservedForNegotiation; QuicVersionReservedForNegotiation]
    | _ =>
        let version_index := if negb quic_disable_version_negotiation_grease_randomness
          then random mod wrap64 (zlen versions + 1) else 0 in
        take (Z.to_nat version_index) versions ++ QuicVersionReservedForNegotiation :: drop (Z.to_nat version_index) versions
    end.

Definition BuildVersionNegotiationPacket (random : Z) (randoms : nat → Z) (server_connection_id client_connection_id : list Z)
    (ietf_quic : bool) (versions : list ParsedQuicVersion) : option (list Z) :=
  let wire_versions := negotiated_versions random versions in
  if ietf_quic then BuildIetfVersionNegotiationPacket randoms server_connection_id client_connection_id wire_versions else
  let flags := wrap8 (Z.lor (Z.lor PACKET_PUBLIC_FLAGS_VERSION PACKET_PUBLIC_FLAGS_8BYTE_CONNECTION_ID)
    PACKET_PUBLIC_FLAGS_8BYTE_CONNECTION_ID_OLD) in
  build (kPublicFlagsSize + zlen server_connection_id + zlen wire_versions * kQuicVersionSize)
    (Writer.WriteUInt8 flags &&& Writer.WriteConnectionId server_connection_id
     &&& AppendVersionLabels (CreateQuicVersionLabelVector randoms wire_versions)).

(** The loop of [ProcessVersionNegotiationPacket], a round for each label; [fuel] rounds at most. *)
Fixpoint read_versions (fuel : nat) : Reader.action (list ParsedQuicVersion) :=
  match fuel with
  | O => fail
  | S fuel =>
      version_label <~ ProcessVersionLabel;
      let parsed_version := ParseQuicVersionLabel version_label in
      let this := if bool_decide (parsed_version = UnsupportedQuicVersion) then [] else [parsed_version] in
      λ r, if Reader.IsDoneReading r then (Some this, r)
           else (versions <~ read_versions fuel; Reader.ret (this ++ versions)) r
  end.

(** The connection id and the versions of the packet the visitor is given. *)
Definition ProcessVersionNegotiationPacket (c : framer) (h : QuicPacketHeader) : Reader.action (list Z * list ParsedQuicVersion) := λ r,
  (versions <~ read_versions (S (Z.to_nat (Reader.BytesRemaining r)));
   Reader.ret (GetServerConnectionIdAsRecipient h (perspective c), versions)) r.

(** The original destination connection id, the new source connection id and the token, for the visitor. *)
Definition ProcessRetryPacket (h : QuicPacketHeader) : Reader.action (list Z * list Z * list Z) :=
  let odcil := Z.land (type_byte h) 15 in
  let odcil := if negb (odcil =? 0) then wrap8 (odcil + kConnectionIdLengthAdjustment) else odcil in
  original_destination_connection_id <~ ReadConnectionId odcil;
  λ r, let '(retry_token, r) := Reader.ReadRemainingPayload r in
    (Some (original_destination_connection_id, source_connection_id h, retry_token), r).

(** ** The dispatcher *)

(** The outputs of [ProcessPacketDispatcher] on success; the label is the one read, if there is one. *)
Record dispatched := mk_dispatched {
  d_format : PacketHeaderFormat;
  d_version_flag : bool;
  d_version_label : option Z;
  d_destination_connection_id : list Z;
  d_source_connection_id : list Z;
}.

Definition ProcessPacketDispatcher (packet : list Z) (expected_destination_connection_id_length : Z) : option dispatched :=
  parse (first_byte <~ Reader.ReadUInt8;
   if negb (IsIetfPacketHeader first_byte) then
     let version_flag := has first_byte PACKET_PUBLIC_FLAGS_VERSION in
     let destination_connection_id_length := Z.land first_byte PACKET_PUBLIC_FLAGS_8BYTE_CONNECTION_ID in
     if destination_connection_id_length =? 0 then fail else
     destination <~ ReadConnectionId destination_connection_id_length;
     if version_flag then
       version_label <~ ProcessVersionLabel;
       Reader.ret (mk_dispatched GOOGLE_QUIC_PACKET true (Some version_label) destination [])
     else Reader.ret (mk_dispatched GOOGLE_QUIC_PACKET false None destination [])
   else
     let format := GetIetfPacketHeaderFormat first_byte in
     let version_flag := bool_decide (format = IETF_QUIC_LONG_HEADER_PACKET) in
     lengths <~ (if version_flag then
                   version_label <~ ProcessVersionLabel;
                   lengths <~ ProcessAndValidateIetfConnectionIdLength (ParseQuicVersionLabel version_label) IS_SERVER true 0 0 0;
                   Reader.ret (Some version_label, lengths.1.2, lengths.2)
                 else Reader.ret (None, expected_destination_connection_id_length, 0));
     let '(version_label, destination_length, source_length) := lengths in
     destination <~ ReadConnectionId destination_length;
     source <~ (if quic_do_not_override_connection_id then ReadConnectionId source_length else Reader.ret []);
     Reader.ret (mk_dispatched format version_flag version_label destination source)) packet.

(** ** Probes for version negotiation *)

Definition polite_greeting : list Z :=
  map (λ b, Z.of_N (Byte.to_N b)) (String.list_byte_of_string
    "This packet only exists to trigger IETF QUIC version negotiation. Please respond with a Version Negotiation packet indicating what versions you support. Thank you and have a nice day.")
  ++ [0].

(** The loop that pads to a multiple of 16; [rounds] zeroes are enough. *)
Fixpoint pad_to_16 (rounds : nat) : Writer.action := λ w,
  match rounds with
  | O => (true, w)
  | S rounds => if Writer.length_ w mod 16 =? 0 then (true, w) else (Writer.WriteUInt8 0 &&& pad_to_16 rounds) w
  end.

(** The bytes of the probe; [None]: it fails, on its arguments or for lack of room. *)
Definition WriteClientVersionNegotiationProbePacket (packet_length : Z) (destination_connection_id : list Z) : option (list Z) :=
  let l := zlen destination_connection_id in
  if (packet_length <? kMinPacketSizeForVersionNegotiation) || (65535 <? packet_length) then None else
  if (kQuicMaxConnectionIdLength <? l) || ((0 <? l) && (l <? 4)) then None else
  build packet_length
    (Writer.WriteBytes [192; 202; 186; 218; 186]
     &&& AppendIetfConnectionIds true destination_connection_id []
     &&& Writer.WriteUInt64 0 &&& Writer.WriteUInt64 (two64 - 1)
     &&& pad_to_16 16
     &&& Writer.WriteBytes polite_greeting
     &&& (λ w, (true, Writer.WritePadding w))).

(** The source connection id of a response to the probe. *)
Definition ParseServerVersionNegotiationProbeResponse (packet : list Z) : option (list Z) :=
  if zlen packet <? 6 then None else
  parse (type_byte <~ Reader.ReadUInt8;
   if Z.land type_byte 128 =? 0 then fail else
   version <~ Reader.ReadUInt32;
   if negb (version =? 0) then fail else
   lengths <~ ProcessAndValidateIetfConnectionIdLength UnsupportedQuicVersion IS_CLIENT true 0 0 0;
   let '(_, destination_length, source_length) := lengths in
   if negb (destination_length =? 0) then fail else
   destination <~ ReadConnectionId destination_length;
   source <~ ReadConnectionId source_length;
   Reader.ret source) packet.

(** ** What the bytes are *)

(** A connection id that has a length on the wire. *)
Definition good_id (id : list Z) : Prop := zlen id = 0 ∨ 4 <= zlen id <= kQuicMaxConnectionIdLength.

Definition id_lengths_byte (d s : list Z) : Z :=
  GetConnectionIdLengthValue (zlen d) * 16 + GetConnectionIdLengthValue (zlen s).

Definition label_bytes (v : ParsedQuicVersion) : list Z := be_bytes 4 (CreateQuicVersionLabel 0 v).

(** The headers up to the connection ids, behind a first byte [t]. *)
Definition long_bytes (t : Z) (v : ParsedQuicVersion) (d s : list Z) : list Z :=
  [t] ++ label_bytes v ++ [id_lengths_byte d s] ++ d ++ s.
Definition short_bytes (t : Z) (d : list Z) : list Z := [t] ++ d.

(** The ids of the header a receiver makes of a packet with the ids [d] and, in a long header, [s]. *)
Definition received_ids (c : framer) (long : bool) (d s : list Z) : list Z * bool * list Z * bool :=
  let both := SupportsClientConnectionIds (version_ c) in
  let d_included := is_server c || both in
  let s_included := long && (is_client c || both) in
  if negb quic_do_not_override_connection_id then
    (if s_included then s else if d_included then d else last_serialized_server_connection_id c, d_included, s, s_included)
  else (d, d_included,
        if s_included then s else if is_client c then last_serialized_server_connection_id c else last_serialized_client_connection_id c,
        s_included).

(** The ids a receiver accepts: of good lengths, the client's empty unless the version has client ids, and of the expected
    lengths where the version has no others. *)
Definition ids_accepted (c : framer) (v : ParsedQuicVersion) (long : bool) (d s : list Z) : Prop :=
  let both := SupportsClientConnectionIds (version_ c) in
  let server_id := if is_server c then d else if long then s else [] in
  let client_id := if is_server c then s else d in
  good_id d ∧ good_id s ∧ (both = false → client_id = []) ∧ (long = false → s = [])
  ∧ (long = true → VariableLengthConnectionIdAllowedForVersion (transport_version v) = false →
       zlen server_id = expected_server_connection_id_length c
       ∧ (both = true → zlen client_id = expected_client_connection_id_length c))
  ∧ (long = false → is_server c = true → zlen d = expected_server_connection_id_length c)
  ∧ (long = false → is_client c = true → both = true → zlen d = expected_client_connection_id_length c).

Definition received_header (c : framer) (long : bool) (t : Z) (v : ParsedQuicVersion) (ty : QuicLongHeaderType)
    (l : QuicPacketNumberLength) (d s : list Z) : QuicPacketHeader :=
  let '(dst, d_included, src, s_included) := received_ids c long d s in
  mk_header dst d_included src s_included false long None l t v None PacketNumber.UninitializedPacketNumber
    (if long then IETF_QUIC_LONG_HEADER_PACKET else IETF_QUIC_SHORT_HEADER_PACKET) ty 0 [] 0 0.

(** ** Connection ids *)

Lemma good_length_checked : ∀ a, 0 <= a < 19 → ∀ b, 0 <= b < 19 →
  (a = 0 ∨ 4 <= a) → (b = 0 ∨ 4 <= b) →
  let byte := GetConnectionIdLengthValue a * 16 + GetConnectionIdLengthValue b in
  let dcil := Z.shiftr (Z.land byte kDestinationConnectionIdLengthMask) 4 in
  let scil := Z.land byte kSourceConnectionIdLengthMask in
  wrap8 (Z.lor (Z.shiftl (GetConnectionIdLengthValue a) 4) (GetConnectionIdLengthValue b)) = byte
  ∧ is_byte byte
  ∧ (if negb (dcil =? 0) then wrap8 (dcil + kConnectionIdLengthAdjustment) else dcil) = a
  ∧ (if negb (scil =? 0) then wrap8 (scil + kConnectionIdLengthAdjustment) else scil) = b.
Proof.
  intros a Ha b Hb Ga Gb byte dcil scil.
  assert (H : (negb ((a =? 0) || (4 <=? a)) || negb ((b =? 0) || (4 <=? b)) ||
    ((wrap8 (Z.lor (Z.shiftl (GetConnectionIdLengthValue a) 4) (GetConnectionIdLengthValue b)) =? byte)
     && (0 <=? byte) && (byte <? 256)
     && ((if negb (dcil =? 0) then wrap8 (dcil + kConnectionIdLengthAdjustment) else dcil) =? a)
     && ((if negb (scil =? 0) then wrap8 (scil + kConnectionIdLengthAdjustment) else scil) =? b))) = true).
  { unfold scil, dcil, byte. clear byte dcil scil Ga Gb. revert b Hb. apply below_forall. revert a Ha. apply below_forall. vm_compute. reflexivity. }
  lia.
Qed.

Lemma good_id_checked d s :
  good_id d → good_id s →
  let dcil := Z.shiftr (Z.land (id_lengths_byte d s) kDestinationConnectionIdLengthMask) 4 in
  let scil := Z.land (id_lengths_byte d s) kSourceConnectionIdLengthMask in
  wrap8 (Z.lor (Z.shiftl (GetConnectionIdLengthValue (zlen d)) 4) (GetConnectionIdLengthValue (zlen s))) = id_lengths_byte d s
  ∧ is_byte (id_lengths_byte d s)
  ∧ (if negb (dcil =? 0) then wrap8 (dcil + kConnectionIdLengthAdjustment) else dcil) = zlen d
  ∧ (if negb (scil =? 0) then wrap8 (scil + kConnectionIdLengthAdjustment) else scil) = zlen s.
Proof.
  unfold good_id, kQuicMaxConnectionIdLength. intros Hd Hs. pose proof (zlen_nonneg d). pose proof (zlen_nonneg s).
  apply good_length_checked; lia.
Qed.

Lemma good_id_max id : good_id id → zlen id <= kQuicMaxConnectionIdLength.
Proof. unfold good_id, kQuicMaxConnectionIdLength. lia. Qed.

Lemma emits_WriteConnectionId e id : WriterSpec.emits e (Writer.WriteConnectionId id) id.
Proof. destruct id; [apply WriterSpec.emits_ret|apply WriterSpec.emits_WriteBytes]. Qed.

Lemma emits_AppendIetfConnectionIds e d s :
  good_id d → good_id s → WriterSpec.emits e (AppendIetfConnectionIds true d s) ([id_lengths_byte d s] ++ d ++ s).
Proof.
  intros Hd Hs. unfold AppendIetfConnectionIds. cbn [negb]. destruct (good_id_checked d s Hd Hs) as (->&_).
  rewrite app_assoc. apply WriterSpec.emits_andthen; [|apply emits_WriteConnectionId].
  apply WriterSpec.emits_andthen; [apply WriterSpec.emits_WriteUInt8|apply emits_WriteConnectionId].
Qed.

Section laws.
Context {EL : EndianLaws}.

Lemma reads_VersionLabel l :
  is_u32 l → ReaderSpec.reads NETWORK_BYTE_ORDER ProcessVersionLabel (be_bytes 4 l) l.
Proof. intros Hl. apply (ReaderSpec.reads_ReadUInt NETWORK_BYTE_ORDER 4). exact Hl. Qed.

Lemma reads_id_lengths v p update expected dl sl d s :
  good_id d → good_id s →
  (update = true ∨ (zlen d = dl ∧ zlen s = sl) ∨ VariableLengthConnectionIdAllowedForVersion (transport_version v) = true) →
  ReaderSpec.reads NETWORK_BYTE_ORDER (ProcessAndValidateIetfConnectionIdLength v p update expected dl sl) [id_lengths_byte d s]
    (if update then (if bool_decide (p = IS_SERVER) then zlen d else zlen s) else expected, zlen d, zlen s).
Proof.
  intros Hd Hs Hc. destruct (good_id_checked d s Hd Hs) as (_&Hb&Ed&Es). unfold ProcessAndValidateIetfConnectionIdLength.
  rewrite <-(app_nil_r [_]). eapply ReaderSpec.reads_bind; [by apply ReaderSpec.reads_ReadUInt8|]. rewrite Ed, Es.
  destruct (_ && _ && _) eqn:E; [|by apply ReaderSpec.reads_ret].
  rewrite !andb_true_iff, orb_true_iff in E. destruct update; destruct E as [[? [?|?]] ?]; try done; lia || (destruct Hc as [?|[?|Hc]]; [done|lia|by rewrite Hc in *]).
Qed.

Lemma reads_ReadId d : good_id d → ReaderSpec.reads NETWORK_BYTE_ORDER (ReadConnectionId (zlen d)) d d.
Proof. intros Hd. apply ReaderSpec.reads_ReadConnectionId. by apply good_id_max. Qed.

(** ** IETF headers *)

(** The header before its ids are settled. *)
Definition raw_header (c : framer) (long : bool) (t : Z) (v : ParsedQuicVersion) (ty : QuicLongHeaderType)
    (l : QuicPacketNumberLength) (d s : list Z) : QuicPacketHeader :=
  let both := SupportsClientConnectionIds (version_ c) in
  mk_header d (is_server c || both) s (long && (is_client c || both)) false long None l t v None
    PacketNumber.UninitializedPacketNumber
    (if long then IETF_QUIC_LONG_HEADER_PACKET else IETF_QUIC_SHORT_HEADER_PACKET) ty 0 [] 0 0.

Lemma perspective_cases c : (is_server c = true ∧ is_client c = false) ∨ (is_server c = false ∧ is_client c = true).
Proof. unfold is_server, is_client. destruct (perspective c); [left|right]; done. Qed.

Lemma SupportsClientConnectionIds_override v : SupportsClientConnectionIds v = true → quic_do_not_override_connection_id = true.
Proof. unfold SupportsClientConnectionIds. by destruct quic_do_not_override_connection_id. Qed.

Lemma OverrideConnectionIds_accepted c long t v ty l d s :
  ids_accepted c v long d s →
  OverrideConnectionIds c (raw_header c long t v ty l d s) = Some (received_header c long t v ty l d s).
Proof.
  intros (_&_&Hc&Hs&_). unfold OverrideConnectionIds, received_header, received_ids, raw_header.
  pose proof (SupportsClientConnectionIds_override (version_ c)) as Ho.
  destruct (SupportsClientConnectionIds (version_ c)) eqn:Eb; [specialize (Ho eq_refl)|specialize (Hc eq_refl)];
    [|clear Ho]; destruct quic_do_not_override_connection_id; try done;
    destruct (perspective_cases c) as [[Eps Epc]|[Eps Epc]]; rewrite ?Eps, ?Epc in *; destruct long; cbn; try reflexivity; subst; try reflexivity;
    try (specialize (Hs eq_refl); subst; reflexivity).
Qed.

(** What [ProcessIetfPacketHeader] does behind the type byte and the version. *)
Definition ids_of_header (c : framer) (h : QuicPacketHeader) : Reader.action QuicPacketHeader :=
  let destination_length := if destination_connection_id_included h then
    (if is_server c then expected_server_connection_id_length c else expected_client_connection_id_length c) else 0 in
  let source_length := if source_connection_id_included h then
    (if is_client c then expected_server_connection_id_length c else expected_client_connection_id_length c) else 0 in
  lengths <~ (match form h with
              | IETF_QUIC_LONG_HEADER_PACKET =>
                  ProcessAndValidateIetfConnectionIdLength (version h) (perspective c) false
                    (expected_server_connection_id_length c) destination_length source_length
              | _ => Reader.ret (expected_server_connection_id_length c, destination_length, source_length)
              end);
  let '(_, destination_length, source_length) := lengths in
  destination <~ ReadConnectionId destination_length;
  let h := set_destination destination h in
  source <~ ReadConnectionId source_length;
  let h := set_source source h in
  match OverrideConnectionIds c h with
  | Some h => Reader.ret h
  | None => fail
  end.

Lemma reads_ids c long t v ty l d s :
  ids_accepted c v long d s →
  ReaderSpec.reads NETWORK_BYTE_ORDER (ids_of_header c (raw_header c long t v ty l [] []))
    (if long then [id_lengths_byte d s] ++ d ++ s else d) (received_header c long t v ty l d s).
Proof.
  intros Hacc. pose proof (OverrideConnectionIds_accepted c long t v ty l d s Hacc) as Ho.
  destruct Hacc as (Hd&Hs&Hc&Hs0&Hlong&Hshort1&Hshort2). unfold ids_of_header.
  set (dl := if destination_connection_id_included _ then _ else 0). set (sl := if source_connection_id_included _ then _ else 0).
  assert (Hl : ReaderSpec.reads NETWORK_BYTE_ORDER
    (match form (raw_header c long t v ty l [] []) with
     | IETF_QUIC_LONG_HEADER_PACKET => ProcessAndValidateIetfConnectionIdLength (version (raw_header c long t v ty l [] []))
         (perspective c) false (expected_server_connection_id_length c) dl sl
     | _ => Reader.ret (expected_server_connection_id_length c, dl, sl) end)
    (if long then [id_lengths_byte d s] else []) (expected_server_connection_id_length c, zlen d, zlen s)).
  { unfold dl, sl, raw_header. clear dl sl Ho. cbn [form version destination_connection_id_included source_connection_id_included].
    destruct long.
    - apply (reads_id_lengths v (perspective c) false); [done..|]. right. destruct (VariableLengthConnectionIdAllowedForVersion _); [by right|left].
      specialize (Hlong eq_refl eq_refl) as [H1 H2].
      destruct (SupportsClientConnectionIds (version_ c)); [specialize (H2 eq_refl)|specialize (Hc eq_refl)];
        destruct (perspective_cases c) as [[Eps Epc]|[Eps Epc]]; rewrite ?Eps, ?Epc in *; cbn in *; subst; rewrite ?(@zlen_nil Z); lia.
    - rewrite (Hs0 eq_refl), (@zlen_nil Z). specialize (Hshort1 eq_refl). specialize (Hshort2 eq_refl). cbn [andb].
      replace (if is_server c || _ then _ else 0) with (zlen d); [apply ReaderSpec.reads_ret|].
      destruct (SupportsClientConnectionIds (version_ c)); [|specialize (Hc eq_refl)];
        destruct (perspective_cases c) as [[Eps Epc]|[Eps Epc]]; rewrite ?Eps, ?Epc in *; cbn in *; subst; rewrite ?(@zlen_nil Z); auto. }
  replace (if long then [id_lengths_byte d s] ++ d ++ s else d) with ((if long then [id_lengths_byte d s] else []) ++ d ++ s ++ []).
  2:{ rewrite (app_nil_r s). destruct long; [done|]. rewrite (Hs0 eq_refl), app_nil_r. done. }
  eapply ReaderSpec.reads_bind; [exact Hl|]. cbn beta iota.
  eapply ReaderSpec.reads_bind; [by apply reads_ReadId|].
  eapply ReaderSpec.reads_bind; [by apply reads_ReadId|].
  change (set_source s (set_destination d (raw_header c long t v ty l [] []))) with (raw_header c long t v ty l d s).
  rewrite Ho. apply ReaderSpec.reads_ret.
Qed.

(** A first byte that starts a long header of version [v] and type [ty]. *)
Definition long_type_byte (t : Z) (v : ParsedQuicVersion) (ty : QuicLongHeaderType) : Prop :=
  is_byte t ∧ has t FLAGS_LONG_HEADER = true ∧ (QUIC_VERSION_44 < transport_version v → has t FLAGS_FIXED_BIT = true)
  ∧ GetLongHeaderType (transport_version v) t = Some ty ∧ ty ≠ RETRY.

Definition long_number_length (t : Z) (v : ParsedQuicVersion) : QuicPacketNumberLength :=
  if HasHeaderProtection v then PACKET_4BYTE_PACKET_NUMBER else GetLongHeaderPacketNumberLength (transport_version v) t.

Lemma reads_long_header c t v ty d s :
  0 <= quic_ietf_draft_version < 256 → v ∈ candidates → long_type_byte t v ty → ids_accepted c v true d s →
  ReaderSpec.reads NETWORK_BYTE_ORDER (ProcessIetfPacketHeader c QuicPacketHeader_new) (long_bytes t v d s)
    (received_header c true t v ty (long_number_length t v) d s).
Proof.
  intros Hdraft Hv (Ht&Hlong&Hfixed&Hty&Hretry) Hacc.
  change (ProcessIetfPacketHeader c QuicPacketHeader_new)
    with (h <~ ProcessIetfHeaderTypeByte c QuicPacketHeader_new; ids_of_header c h).
  destruct (candidate_label 0 v Hdraft Hv) as (Ep&El&_). destruct (candidate_transport v Hv) as [_ Hvt].
  unfold long_bytes. rewrite app_assoc. eapply ReaderSpec.reads_bind; [|by apply (reads_ids c true)].
  unfold ProcessIetfHeaderTypeByte. eapply ReaderSpec.reads_bind; [by apply ReaderSpec.reads_ReadUInt8|].
  unfold GetIetfPacketHeaderFormat. rewrite Hlong. cbn [form set_type]. unfold ProcessIetfLongHeaderType.
  rewrite <-(app_nil_r (label_bytes v)). eapply ReaderSpec.reads_bind; [apply reads_VersionLabel; lia|].
  destruct (Z.eqb_spec (CreateQuicVersionLabel 0 v) 0); [lia|]. rewrite Ep. cbn [version set_version].
  destruct (Z.eqb_spec (transport_version v) QUIC_VERSION_UNSUPPORTED) as [E|_].
  { rewrite E in Hvt. exfalso. revert Hvt. unfold QUIC_VERSION_UNSUPPORTED. intros Hin. apply list_elem_of_In in Hin. cbn in Hin. unfold QUIC_VERSION_99, QUIC_VERSION_48, QUIC_VERSION_47, QUIC_VERSION_46, QUIC_VERSION_44, QUIC_VERSION_43, QUIC_VERSION_39 in Hin. lia. }
  replace (_ && negb (has t FLAGS_FIXED_BIT)) with false.
  2:{ destruct (Z.ltb_spec QUIC_VERSION_44 (transport_version v)); [|done]. by rewrite (Hfixed H). }
  rewrite Hty. rewrite bool_decide_eq_false_2 by done. unfold long_number_length, raw_header.
  cbn [version set_version set_long_type]. destruct (HasHeaderProtection v); cbn [negb]; apply ReaderSpec.reads_ret.
Qed.

(** A first byte that starts a short header, with the length of the number it tells. *)
Definition short_type_byte (c : framer) (t : Z) (l : QuicPacketNumberLength) : Prop :=
  is_byte t ∧ has t FLAGS_LONG_HEADER = false
  ∧ (infer_packet_header_type_from_version c = true → QUIC_VERSION_44 < transport c → has t FLAGS_FIXED_BIT = true)
  ∧ GetShortHeaderPacketNumberLength (transport c) t (infer_packet_header_type_from_version c) = Some l.

Lemma reads_short_header c t l d :
  short_type_byte c t l → ids_accepted c UnsupportedQuicVersion false d [] →
  ReaderSpec.reads NETWORK_BYTE_ORDER (ProcessIetfPacketHeader c QuicPacketHeader_new) (short_bytes t d)
    (received_header c false t UnsupportedQuicVersion INITIAL l d []).
Proof.
  intros (Ht&Hlong&Hfixed&Hl) Hacc.
  change (ProcessIetfPacketHeader c QuicPacketHeader_new)
    with (h <~ ProcessIetfHeaderTypeByte c QuicPacketHeader_new; ids_of_header c h).
  eapply ReaderSpec.reads_bind; [|by apply (reads_ids c false)].
  unfold ProcessIetfHeaderTypeByte. rewrite <-(app_nil_r [t]). eapply ReaderSpec.reads_bind; [by apply ReaderSpec.reads_ReadUInt8|].
  unfold GetIetfPacketHeaderFormat. rewrite Hlong. cbn [form set_type]. unfold ProcessIetfShortHeaderType.
  replace (_ && _ && negb (has t FLAGS_FIXED_BIT)) with false.
  2:{ destruct (infer_packet_header_type_from_version c); [|done]. destruct (Z.ltb_spec QUIC_VERSION_44 (transport c)); [|done].
      by rewrite Hfixed. }
  cbn [version set_included set_version_flag set_type QuicPacketHeader_new]. change (HasHeaderProtection UnsupportedQuicVersion) with false.
  cbn [negb]. rewrite Hl. apply ReaderSpec.reads_ret.
Qed.

(** ** Google QUIC headers *)

(** The header a receiver makes of the public header of a packet with the connection id [id], or none. *)
Definition google_received (c : framer) (vf : bool) (v : ParsedQuicVersion) (id : option (list Z))
    (l : QuicPacketNumberLength) (n : option (list Z)) : QuicPacketHeader :=
  let as_source := is_client c && quic_do_not_override_connection_id in
  let connection_id := default (last_serialized_server_connection_id c) id in
  mk_header (if as_source then [] else connection_id) (if as_source then true else included id)
    (if as_source then connection_id else []) (if as_source then included id else false) false vf None l 0
    (if vf then v else UnsupportedQuicVersion) n PacketNumber.UninitializedPacketNumber GOOGLE_QUIC_PACKET INITIAL 0 [] 0 0.

Definition google_length (l : QuicPacketNumberLength) : Prop :=
  l = PACKET_1BYTE_PACKET_NUMBER ∨ l = PACKET_2BYTE_PACKET_NUMBER ∨ l = PACKET_4BYTE_PACKET_NUMBER ∨ l = PACKET_6BYTE_PACKET_NUMBER.

(** What a first byte says. *)
Definition public_byte (t : Z) (vf inc nonce_bit : bool) (l : QuicPacketNumberLength) : Prop :=
  is_byte t ∧ t <= PACKET_PUBLIC_FLAGS_MAX ∧ has t PACKET_PUBLIC_FLAGS_RST = false ∧ has t PACKET_PUBLIC_FLAGS_VERSION = vf
  ∧ has t PACKET_PUBLIC_FLAGS_8BYTE_CONNECTION_ID = inc ∧ has t PACKET_PUBLIC_FLAGS_NONCE = nonce_bit
  ∧ ReadSequenceNumberLength (Z.shiftr t kPublicHeaderSequenceNumberShift) = l.

Lemma public_flags_of_spec c h :
  reset_flag h = false → google_length (packet_number_length h) →
  let inc := GetServerConnectionIdIncludedAsSender h (perspective c) in
  public_byte (public_flags_of c h) (version_flag h) inc (included (nonce h) || (inc && is_client c)) (packet_number_length h).
Proof.
  intros Hr Hl inc. unfold public_byte, public_flags_of. rewrite Hr. fold inc.
  unfold google_length in Hl. set (l := packet_number_length h) in *. clearbody l inc.
  destruct Hl as [-> | [-> | [-> | ->]]]; destruct (version_flag h), inc, (included (nonce h)), (is_client c); vm_compute; repeat split; discriminate.
Qed.

Lemma reads_google_header c t vf v id l n :
  0 <= quic_ietf_draft_version < 256 → v ∈ candidates →
  public_byte t vf (included id) (included n || (included id && is_server c)) l →
  (∀ i, id = Some i → zlen i = kQuicDefaultConnectionIdLength) →
  (∀ x, n = Some x → zlen x = kDiversificationNonceSize ∧ is_client c = true) →
  (vf = true → is_server c = true) →
  ReaderSpec.reads NETWORK_BYTE_ORDER (ProcessPublicHeader c false QuicPacketHeader_new)
    ([t] ++ default [] id ++ (if vf then label_bytes v else []) ++ default [] n) (google_received c vf v id l n).
Proof.
  intros Hdraft Hv (Ht&Hmax&Hrst&Hvf&Hinc&Hnb&Hl) Hid Hn Hserver.
  destruct (candidate_label 0 v Hdraft Hv) as (Ep&El&_).
  unfold ProcessPublicHeader. eapply ReaderSpec.reads_bind; [by apply ReaderSpec.reads_ReadUInt8|]. cbv zeta.
  rewrite Hrst, Hvf, Hinc, Hnb, Hl. cbn [version_flag reset_flag set_version_flag set_reset_flag andb].
  destruct (Z.ltb_spec PACKET_PUBLIC_FLAGS_MAX t); [lia|]. rewrite !andb_false_r.
  set (as_source := is_client c && quic_do_not_override_connection_id).
  set (h0 := set_version_flag vf (set_reset_flag false QuicPacketHeader_new)).
  set (place := λ i : list Z, if as_source then set_source i (set_included (destination_connection_id_included h0) (included id) h0)
    else set_destination i (set_included (included id) (source_connection_id_included h0) h0)).
  eapply (ReaderSpec.reads_bind _ _ _ _ _ (place (default (last_serialized_server_connection_id c) id))).
  { destruct id as [i|]; cbn [included default from_option Datatypes.id]; [|apply ReaderSpec.reads_ret].
    rewrite <-(app_nil_r i) at 1. eapply ReaderSpec.reads_bind; [|apply ReaderSpec.reads_ret].
    pose proof (Hid i eq_refl) as Hi. rewrite <-Hi. apply reads_ReadId. unfold good_id, kQuicMaxConnectionIdLength, kQuicDefaultConnectionIdLength in *. lia. }
  assert (Hflag : ∀ i, version_flag (set_number_length l (place i)) = vf) by (intros; unfold place; by destruct as_source). rewrite Hflag.
  set (h1 := set_number_length l _).
  eapply (ReaderSpec.reads_bind _ _ _ _ _ (if vf then set_version v h1 else h1)).
  { destruct vf; cbn [andb]; [|apply ReaderSpec.reads_ret]. rewrite (Hserver eq_refl). rewrite <-(app_nil_r (label_bytes v)).
    eapply ReaderSpec.reads_bind; [apply reads_VersionLabel; lia|]. rewrite Ep, andb_false_r. apply ReaderSpec.reads_ret. }
  assert (Hfinal : ∀ x, set_nonce x (if vf then set_version v h1 else h1) = google_received c vf v id l x).
  { intros x. unfold h1, place, h0, google_received. fold as_source. destruct as_source, vf; reflexivity. }
  destruct n as [x|]; cbn [included default from_option orb Datatypes.id] in *.
  - destruct (Hn x eq_refl) as [Hx Hc]. destruct (perspective_cases c) as [[? ?]|[Eps Epc]]; [congruence|].
    destruct vf; [specialize (Hserver eq_refl); congruence|]. rewrite Epc. cbn [andb negb].
    rewrite <-(app_nil_r x) at 1. eapply ReaderSpec.reads_bind; [rewrite <-Hx; apply ReaderSpec.reads_ReadBytes|].
    pose proof (Hfinal (Some x)) as Ef. cbn beta iota in Ef. cbv beta. rewrite Ef. apply ReaderSpec.reads_ret.
  - replace (_ && _ && _ && is_client c) with false; [rewrite Hfinal; apply ReaderSpec.reads_ret|].
    destruct (perspective_cases c) as [[Eps Epc]|[Eps Epc]]; rewrite Eps, Epc, ?andb_false_r; done.
Qed.

(** ** What the writer of a header appends *)

(** [appends a d c c' off]: with room for [d], [a] succeeds, appends [d], changes the framer from [c] to [c'], and
    leaves the offset of the length field that [off] says. *)
Definition appends (a : step) (d : list Z) (c c' : framer) (off : Z → Z → Z) : Prop :=
  ∀ w o, WriterSpec.wf w → Writer.endianness w = NETWORK_BYTE_ORDER → zlen d <= Writer.remaining w →
  ∃ w', a (mk_writing w c o) = (true, mk_writing w' c' (off (Writer.length_ w) o))
    ∧ WriterSpec.wf w' ∧ Writer.endianness w' = NETWORK_BYTE_ORDER ∧ Writer.capacity w' = Writer.capacity w
    ∧ WriterSpec.written w' = WriterSpec.written w ++ d ∧ Writer.length_ w' = Writer.length_ w + zlen d.

Lemma appends_write a d c : WriterSpec.emits NETWORK_BYTE_ORDER a d → appends (write a) d c c (λ _ o, o).
Proof.
  intros Ha w o Hw He Hroom. unfold write. cbn [writer sender length_field_offset]. specialize (Ha w Hw He).
  destruct (a w) as [ok w']. destruct Ha as (Hw'&Hc&He'&_&->&Ha). destruct (Ha ltac:(lia)) as [H1 H2].
  exists w'. split; [|done]. do 2 f_equal. lia.
Qed.

Lemma appends_ignore a d c : WriterSpec.emits NETWORK_BYTE_ORDER a d → appends (ignore a) d c c (λ _ o, o).
Proof.
  intros Ha w o Hw He Hroom. destruct (appends_write a d c Ha w o Hw He Hroom) as (w'&E&H). exists w'. split; [|done].
  unfold write in E. unfold ignore. cbn [writer sender length_field_offset] in *. destruct (a w). cbn. congruence.
Qed.

Lemma appends_pure a c c' off :
  (∀ w o, a (mk_writing w c o) = (true, mk_writing w c' (off (Writer.length_ w) o))) → appends a [] c c' off.
Proof.
  intros Ha w o Hw He Hroom. exists w. rewrite Ha, app_nil_r, (@zlen_nil Z), Z.add_0_r. done.
Qed.

Lemma appends_then a b d1 d2 c1 c2 c3 off1 off2 :
  appends a d1 c1 c2 off1 → appends b d2 c2 c3 off2 →
  appends (then_ a b) (d1 ++ d2) c1 c3 (λ n o, off2 (n + zlen d1) (off1 n o)).
Proof.
  intros Ha Hb w o Hw He Hroom. rewrite zlen_app in Hroom. pose proof (zlen_nonneg d1). pose proof (zlen_nonneg d2).
  destruct (Ha w o Hw He ltac:(lia)) as (w1&E1&Hw1&He1&Hc1&Hr1&Hl1). unfold then_. rewrite E1.
  destruct (Hb w1 (off1 (Writer.length_ w) o) Hw1 He1) as (w2&E2&Hw2&He2&Hc2&Hr2&Hl2); [unfold Writer.remaining in *; lia|].
  exists w2. rewrite E2, Hl1. split; [done|]. split; [done|]. split; [done|]. split; [congruence|].
  rewrite Hr2, Hr1, app_assoc, zlen_app. split; [done|lia].
Qed.

Lemma appends_off a d c c' off off' : appends a d c c' off → (∀ n o, off n o = off' n o) → appends a d c c' off'.
Proof. intros Ha E w o Hw He Hroom. destruct (Ha w o Hw He Hroom) as (w'&H). rewrite E in H. by exists w'. Qed.

Lemma appends_data a d d' c c' off : appends a d c c' off → d = d' → appends a d' c c' off.
Proof. by intros ? <-. Qed.

(** The number of a packet, as sent. *)
Definition number_bytes (l : QuicPacketNumberLength) (p : Z) : list Z := be_bytes (length_of l) (p mod width l).

Lemma emits_AppendPacketNumber l p :
  IsValidPacketNumberLength l = true → is_u64 p → WriterSpec.emits NETWORK_BYTE_ORDER (AppendPacketNumber l p) (number_bytes l p).
Proof.
  intros Hl Hp. eapply WriterSpec.emits_ext; [|apply (WriterSpec.emits_WriteBytesToUInt64 NETWORK_BYTE_ORDER (length_of l) p (length_of_le l) Hp)].
  intros w _. unfold AppendPacketNumber. by rewrite Hl.
Qed.

Lemma number_bytes_length l p : zlen (number_bytes l p) = Z.of_nat (length_of l).
Proof. unfold number_bytes, zlen. by rewrite be_bytes_length. Qed.

Definition sent_destination (h : QuicPacketHeader) : list Z :=
  if destination_connection_id_included h then destination_connection_id h else [].
Definition sent_source (h : QuicPacketHeader) : list Z :=
  if source_connection_id_included h then source_connection_id h else [].

(** Whether the header has a length field, and whether it has a token. *)
Definition has_length (c : framer) (h : QuicPacketHeader) : bool := QuicVersionHasLongHeaderLengths (transport c) && version_flag h.
Definition token_bytes (c : framer) (h : QuicPacketHeader) : list Z :=
  if has_length c h && bool_decide (long_packet_type h = INITIAL)
  then WriterSpec.varint_bytes (retry_token_length_length h) (zlen (retry_token h)) ++ retry_token h else [].
(** The room for the length, filled when the packet is complete. *)
Definition length_bytes (c : framer) (h : QuicPacketHeader) : list Z :=
  if has_length c h then WriterSpec.varint_bytes 2 256 else [].

(** The header before the packet number. *)
Definition ietf_start (c : framer) (h : QuicPacketHeader) : list Z :=
  (if version_flag h then long_bytes (IetfHeaderTypeByte c h) (version_ c) (sent_destination h) (sent_source h)
   else short_bytes (IetfHeaderTypeByte c h) (sent_destination h)) ++ token_bytes c h.
Definition google_start (c : framer) (h : QuicPacketHeader) : list Z :=
  [public_flags_of c h]
  ++ (if GetServerConnectionIdIncludedAsSender h (perspective c) then GetServerConnectionIdAsSender h (perspective c) else [])
  ++ (if version_flag h then label_bytes (version_ c) else []).
Definition nonce_bytes (h : QuicPacketHeader) : list Z := default [] (nonce h).

Definition header_bytes (c : framer) (h : QuicPacketHeader) : list Z :=
  let p := number_bytes (packet_number_length h) (packet_number h) in
  if VersionHasIetfInvariantHeader (transport c)
  then ietf_start c h ++ length_bytes c h ++ p ++ (if version_flag h then nonce_bytes h else [])
  else google_start c h ++ nonce_bytes h ++ p.

(** The framer behind the header. *)
Definition after_header (c : framer) (h : QuicPacketHeader) : framer :=
  let c' := set_last_server (GetServerConnectionIdAsSender h (perspective c)) c in
  if VersionHasIetfInvariantHeader (transport c) then
    set_last_length (Z.of_nat (length_of (packet_number_length h)))
      (if SupportsClientConnectionIds (version_ c) then set_last_client (GetClientConnectionIdAsSender h (perspective c)) c' else c')
  else c'.
Definition after_offset (c : framer) (h : QuicPacketHeader) (n o : Z) : Z :=
  if VersionHasIetfInvariantHeader (transport c) then (if has_length c h then n + zlen (ietf_start c h) else 0) else o.

(** A header the framer can send. *)
Record sendable (c : framer) (h : QuicPacketHeader) : Prop := mk_sendable {
  sendable_draft : 0 <= quic_ietf_draft_version < 256;
  sendable_version : version_ c ∈ candidates;
  sendable_number : is_u64 (packet_number h);
  sendable_length : IsValidPacketNumberLength (packet_number_length h) = true;
  sendable_nonce : ∀ n, nonce h = Some n → zlen n = kDiversificationNonceSize;
  sendable_ids : VersionHasIetfInvariantHeader (transport c) = true → good_id (sent_destination h) ∧ good_id (sent_source h);
  sendable_token : has_length c h = true → long_packet_type h = INITIAL →
    WriterSpec.is_varint_len (retry_token_length_length h)
    ∧ zlen (retry_token h) < WriterSpec.varint_limit (retry_token_length_length h);
}.

Lemma emits_label v : 0 <= quic_ietf_draft_version < 256 → v ∈ candidates →
  WriterSpec.emits NETWORK_BYTE_ORDER (Writer.WriteUInt32 (CreateQuicVersionLabel 0 v)) (label_bytes v).
Proof.
  intros Hd Hv. destruct (candidate_label 0 v Hd Hv) as (_&Hl&_).
  apply (WriterSpec.emits_WriteUInt NETWORK_BYTE_ORDER 4). unfold two32 in Hl. change (pow256 4) with 4294967296. lia.
Qed.

Lemma appends_done c : appends done [] c c (λ _ o, o).
Proof. by apply appends_pure. Qed.

Lemma appends_change f c : appends (change f) [] c (f c) (λ _ o, o).
Proof. by apply appends_pure. Qed.

Lemma emits_AppendNonce h : WriterSpec.emits NETWORK_BYTE_ORDER (AppendNonce h) (nonce_bytes h).
Proof. unfold AppendNonce, nonce_bytes. destruct (nonce h); [apply WriterSpec.emits_WriteBytes|apply WriterSpec.emits_ret]. Qed.

(** Steps that leave the offset alone. *)
Lemma appends_keep a b d1 d2 c1 c2 c3 :
  appends a d1 c1 c2 (λ _ o, o) → appends b d2 c2 c3 (λ _ o, o) → appends (then_ a b) (d1 ++ d2) c1 c3 (λ _ o, o).
Proof. intros Ha Hb. apply (appends_then _ _ _ _ _ _ _ _ _ Ha Hb). Qed.

Lemma appends_token c c' h :
  sendable c h →
  appends (if bool_decide (long_packet_type h = INITIAL) then
             then_ (write (Writer.WriteVarInt62_len (zlen (retry_token h)) (retry_token_length_length h)))
               (if bool_decide (retry_token h = []) then done else write (Writer.WriteStringPiece (retry_token h)))
           else done)
    (if bool_decide (long_packet_type h = INITIAL)
     then WriterSpec.varint_bytes (retry_token_length_length h) (zlen (retry_token h)) ++ retry_token h else [])
    c' c' (λ _ o, o) ∨ has_length c h = false.
Proof.
  intros Hs. destruct (has_length c h) eqn:E; [left|by right].
  destruct (bool_decide_reflect (long_packet_type h = INITIAL)) as [Ei|_]; [|apply appends_done].
  destruct (sendable_token c h Hs E Ei) as [Hl Hlim]. pose proof (zlen_nonneg (retry_token h)).
  eapply (appends_keep _ _ _ _ _ c'); [apply appends_write, WriterSpec.emits_WriteVarInt62_len; [done|lia]|].
  destruct (bool_decide_reflect (retry_token h = [])) as [->|_]; [apply appends_done|apply appends_write, WriterSpec.emits_WriteBytes].
Qed.

Lemma appends_as a b d c c' off :
  (∀ w o, a (mk_writing w c o) = b (mk_writing w c o)) → appends b d c c' off → appends a d c c' off.
Proof. intros E H w o. rewrite E. apply H. Qed.

(** The field that the length is written to later, or none. *)
Lemma appends_length c c' h :
  sendable c h →
  appends (if has_length c h then
             then_ (if bool_decide (long_packet_type h = INITIAL) then
                      then_ (write (Writer.WriteVarInt62_len (zlen (retry_token h)) (retry_token_length_length h)))
                        (if bool_decide (retry_token h = []) then done else write (Writer.WriteStringPiece (retry_token h)))
                    else done)
               (then_ (set_offset Writer.length_) (ignore (Writer.WriteVarInt62 256)))
           else set_offset (λ _, 0))
    (token_bytes c h ++ length_bytes c h) c' c' (λ n _, if has_length c h then n + zlen (token_bytes c h) else 0).
Proof.
  intros Hs. unfold token_bytes, length_bytes. destruct (has_length c h) eqn:E; cbn [andb]; [|by apply appends_pure].
  destruct (appends_token c c' h Hs) as [Ht|?]; [|congruence].
  eapply (appends_then _ _ _ _ _ c' _ (λ _ o, o) (λ n _, n) Ht).
  eapply (appends_then _ _ [] _ _ c' _ (λ n _, n) (λ _ o, o)); [by apply appends_pure|].
  apply appends_ignore, (WriterSpec.emits_WriteVarInt62 NETWORK_BYTE_ORDER 256). lia.
Qed.

Lemma appends_IetfPacketHeader c h :
  sendable c h → VersionHasIetfInvariantHeader (transport c) = true →
  appends (AppendIetfPacketHeader h) (header_bytes c h) c (after_header c h) (after_offset c h).
Proof.
  intros Hs Hietf. pose proof (sendable_draft c h Hs) as Hdraft. pose proof (sendable_version c h Hs) as Hv.
  destruct (sendable_ids c h Hs Hietf) as [Hd Hsrc]. unfold after_offset, header_bytes, after_header. rewrite Hietf.
  eapply appends_as; [intros w o; unfold AppendIetfPacketHeader; cbn [sender]; cbv zeta; reflexivity|].
  eapply appends_off; [eapply appends_data|].
  - eapply appends_then; [apply appends_write, WriterSpec.emits_WriteUInt8|].
    eapply (appends_then _ _ (if version_flag h then label_bytes (version_ c) else []) _ _ c _ (λ _ o, o)).
    { destruct (version_flag h); [by apply appends_write, emits_label|apply appends_done]. }
    eapply (appends_then _ _ (if version_flag h then [id_lengths_byte (sent_destination h) (sent_source h)] ++ sent_destination h ++ sent_source h
       else sent_destination h) _ _ c _ (λ _ o, o)).
    { apply appends_write. fold (sent_destination h) (sent_source h). destruct (version_flag h); [by apply emits_AppendIetfConnectionIds|].
      apply emits_WriteConnectionId. }
    eapply appends_then; [apply appends_change|].
    eapply (appends_then _ _ [] _ _ (if SupportsClientConnectionIds (version_ c) then _ else _) _ (λ _ o, o)).
    { destruct (SupportsClientConnectionIds (version_ c)); [apply appends_change|apply appends_done]. }
    eapply appends_then; [by apply (appends_length c)|].
    eapply appends_then; [apply appends_write, emits_AppendPacketNumber; [apply (sendable_length c h Hs)|apply (sendable_number c h Hs)]|].
    eapply (appends_then _ _ [] (if version_flag h then nonce_bytes h else []) _ _ _ _ (λ _ o, o)); [apply appends_change|].
    destruct (version_flag h); cbn [negb]; [apply appends_write, emits_AppendNonce|apply appends_done].
  - unfold ietf_start, long_bytes, short_bytes, header_bytes. destruct (version_flag h); rewrite <-!app_assoc; reflexivity.
  - intros n o. cbv beta. destruct (has_length c h); [|done]. unfold ietf_start, long_bytes, short_bytes.
    destruct (version_flag h); rewrite !zlen_app, ?(@zlen_nil Z); lia.
Qed.

Lemma appends_PacketHeader c h :
  sendable c h → appends (AppendPacketHeader h) (header_bytes c h) c (after_header c h) (after_offset c h).
Proof.
  intros Hs. destruct (VersionHasIetfInvariantHeader (transport c)) eqn:Hietf.
  { eapply appends_as; [|by apply appends_IetfPacketHeader]. intros w o. unfold AppendPacketHeader. cbn [sender]. by rewrite Hietf. }
  pose proof (sendable_draft c h Hs) as Hdraft. pose proof (sendable_version c h Hs) as Hv.
  unfold after_offset, header_bytes, after_header. rewrite Hietf.
  eapply appends_as; [intros w o; unfold AppendPacketHeader; cbn [sender]; rewrite Hietf; cbv zeta; reflexivity|].
  eapply appends_off; [eapply appends_data|].
  - set (inc := GetServerConnectionIdIncludedAsSender h (perspective c)). set (id := GetServerConnectionIdAsSender h (perspective c)).
    eapply (appends_then _ _ ([public_flags_of c h] ++ (if inc then id else [])) _ _ c).
    { apply appends_write. destruct inc; [|apply WriterSpec.emits_WriteUInt8].
      apply WriterSpec.emits_andthen; [apply WriterSpec.emits_WriteUInt8|apply emits_WriteConnectionId]. }
    eapply appends_then; [apply appends_change|].
    eapply (appends_then _ _ (if version_flag h then label_bytes (version_ c) else []) _ _ _ _ (λ _ o, o)).
    { destruct (version_flag h); [by apply appends_write, emits_label|apply appends_done]. }
    eapply appends_then; [apply appends_write, emits_AppendNonce|].
    apply appends_write, emits_AppendPacketNumber; [apply (sendable_length c h Hs)|apply (sendable_number c h Hs)].
  - unfold google_start. rewrite <-!app_assoc. reflexivity.
  - done.
Qed.

(** The fields of the header are those its version has. *)
Record fits_version (c : framer) (h : QuicPacketHeader) : Prop := mk_fits_version {
  fits_length : length_length h = if has_length c h then kQuicDefaultLongHeaderLengthLength else 0;
  fits_token : has_length c h = false ∨ long_packet_type h ≠ INITIAL → retry_token_length_length h = 0 ∧ retry_token h = [];
  fits_number : transport c = QUIC_VERSION_44 → version_flag h = true → packet_number_length h = PACKET_4BYTE_PACKET_NUMBER;
  fits_ids : VersionHasIetfInvariantHeader (transport c) = false →
     GetIncludedDestinationConnectionIdLength h + GetIncludedSourceConnectionIdLength h
     = if GetServerConnectionIdIncludedAsSender h (perspective c) then zlen (GetServerConnectionIdAsSender h (perspective c)) else 0;
}.

Lemma label_bytes_length v : zlen (label_bytes v) = 4.
Proof. unfold label_bytes, zlen. by rewrite be_bytes_length. Qed.

Lemma nonce_bytes_length c h :
  sendable c h → zlen (nonce_bytes h) = if included (nonce h) then kDiversificationNonceSize else 0.
Proof. intros Hs. pose proof (sendable_nonce c h Hs) as Hn. unfold nonce_bytes. destruct (nonce h); [by apply Hn|done]. Qed.

Lemma included_length id b : GetIncludedConnectionIdLength id b = zlen (if b then id else []).
Proof. by destruct b. Qed.

Lemma token_bytes_length c h :
  sendable c h → fits_version c h → zlen (token_bytes c h) = retry_token_length_length h + zlen (retry_token h).
Proof.
  intros Hs Hf. pose proof (fits_token c h Hf) as Ht. unfold token_bytes.
  destruct (has_length c h) eqn:E; cbn [andb]; [|destruct Ht as [-> ->]; [by left|done]].
  destruct (bool_decide_reflect (long_packet_type h = INITIAL)) as [Ei|Ei]; [|destruct Ht as [-> ->]; [by right|done]].
  destruct (sendable_token c h Hs E Ei) as [Hl _]. by rewrite zlen_app, WriterSpec.varint_bytes_length.
Qed.

Lemma length_bytes_length c h : fits_version c h → zlen (length_bytes c h) = length_length h.
Proof. intros Hf. rewrite (fits_length c h Hf). unfold length_bytes. by destruct (has_length c h). Qed.

Lemma long_bytes_length t v d s : zlen (long_bytes t v d s) = 6 + zlen d + zlen s.
Proof. unfold long_bytes. rewrite !zlen_app, label_bytes_length. change (zlen [t]) with 1. change (zlen [id_lengths_byte d s]) with 1. lia. Qed.

Lemma header_bytes_length c h : sendable c h → fits_version c h → zlen (header_bytes c h) = GetPacketHeaderSize (transport c) h.
Proof.
  intros Hs Hf. pose proof (nonce_bytes_length c h Hs) as Hn. pose proof (token_bytes_length c h Hs Hf) as Ht.
  pose proof (length_bytes_length c h Hf) as Hl. pose proof (fits_length c h Hf) as Hfl. pose proof (fits_token c h Hf) as Hft.
  pose proof (fits_number c h Hf) as Hnum. pose proof (fits_ids c h Hf) as Hids.
  unfold header_bytes, GetPacketHeaderSize, GetPacketHeaderSize_of.
  unfold kPacketHeaderTypeSize, kConnectionIdLengthSize, kQuicVersionSize, kPublicFlagsSize.
  destruct (VersionHasIetfInvariantHeader (transport c)) eqn:Hietf.
  - unfold GetIncludedDestinationConnectionIdLength, GetIncludedSourceConnectionIdLength, ietf_start.
    rewrite !included_length. fold (sent_destination h) (sent_source h). clear Hids.
    unfold has_length, VersionHasIetfInvariantHeader, QUIC_VERSION_43 in *. destruct (version_flag h).
    + rewrite !zlen_app, long_bytes_length, number_bytes_length, Hn, Ht, Hl.
      assert (El : (if QUIC_VERSION_44 <? transport c then Z.of_nat (length_of (packet_number_length h)) else 4)
        = Z.of_nat (length_of (packet_number_length h))).
      { destruct (Z.ltb_spec QUIC_VERSION_44 (transport c)); [done|]. rewrite Hnum; [done|unfold QUIC_VERSION_44 in *; lia|done]. }
      change (Z.of_nat (length_of PACKET_4BYTE_PACKET_NUMBER)) with 4. rewrite El. rewrite andb_true_r in *.
      destruct (QuicVersionHasLongHeaderLengths (transport c)); cbn [orb].
      * destruct (included (nonce h)); lia.
      * destruct Hft as [-> ->]; [by left|]. rewrite (@zlen_nil Z). destruct (included (nonce h)), quic_fix_get_packet_header_size; cbn [negb]; lia.
    + rewrite andb_false_r in *. destruct Hft as [Hrl Hrt]; [by left|]. unfold short_bytes.
      rewrite !zlen_app, number_bytes_length, Ht, Hl, Hrl, Hrt, (@zlen_nil Z). change (zlen [IetfHeaderTypeByte c h]) with 1. lia.
  - specialize (Hids eq_refl). unfold google_start. rewrite !zlen_app, number_bytes_length, Hn.
    change (zlen [public_flags_of c h]) with 1.
    destruct (GetServerConnectionIdIncludedAsSender h (perspective c)), (version_flag h); rewrite ?label_bytes_length, ?(@zlen_nil Z); destruct (included (nonce h)); lia.
Qed.

(** C11. The size of a header is exact. With room for it, [AppendPacketHeader] succeeds and appends as many bytes as
    [GetPacketHeaderSize] says, for Google and IETF headers of every version, under any flags: this is where the encrypted
    data starts. The fields of the header that the version does not send are left out by both, provided the header's
    lengths are set as its version has them. The offset it gives is where the length field is, in the two bytes after it;
    and nothing but the last ids and the last length written changes in the framer. *)
Theorem header_size_is_exact c h w o :
  sendable c h → fits_version c h → WriterSpec.wf w → Writer.endianness w = NETWORK_BYTE_ORDER →
  GetPacketHeaderSize (transport c) h <= Writer.remaining w →
  ∃ w', AppendPacketHeader h (mk_writing w c o) = (true, mk_writing w' (after_header c h) (after_offset c h (Writer.length_ w) o))
    ∧ WriterSpec.written w' = WriterSpec.written w ++ header_bytes c h
    ∧ Writer.length_ w' = Writer.length_ w + GetPacketHeaderSize (transport c) h
    ∧ (has_length c h = true → ∃ before after, header_bytes c h = before ++ WriterSpec.varint_bytes 2 256 ++ after
         ∧ after_offset c h (Writer.length_ w) o = Writer.length_ w + zlen before).
Proof.
  intros Hs Hf Hw He Hroom. pose proof (header_bytes_length c h Hs Hf) as Hsize.
  destruct (appends_PacketHeader c h Hs w o Hw He ltac:(lia)) as (w'&E&_&_&_&Hwr&Hl). exists w'. rewrite Hsize in Hl.
  split; [done|]. split; [done|]. split; [done|]. intros Hhas. exists (ietf_start c h).
  assert (Hietf : VersionHasIetfInvariantHeader (transport c) = true).
  { unfold has_length, QuicVersionHasLongHeaderLengths, VersionHasIetfInvariantHeader, QUIC_VERSION_43, QUIC_VERSION_99 in *. lia. }
  unfold header_bytes, after_offset, length_bytes. rewrite Hietf, Hhas. by eexists.
Qed.

(** ** Version negotiation *)

Lemma build_emits len a d : WriterSpec.emits NETWORK_BYTE_ORDER a d → zlen d = len → build len a = Some d.
Proof.
  intros Ha <-. unfold build. set (w := Writer.new _ _).
  assert (Hcap : Writer.remaining w = zlen d).
  { unfold w, Writer.remaining, Writer.capacity, Writer.new. cbn. unfold zlen. rewrite length_replicate. lia. }
  specialize (Ha w (WriterSpec.writer_new_wf _ _) eq_refl). destruct (a w) as [ok w']. destruct Ha as (_&Hc&_&_&->&Ha).
  destruct (Z.leb_spec (zlen d) (Writer.remaining w)); [|lia].
  destruct (Ha eq_refl) as [Hw Hl]. f_equal. change (WriterSpec.written w) with (@nil Z) in Hw. change (Writer.length_ w) with 0 in Hl.
  rewrite <-Hw at 1. unfold WriterSpec.written. rewrite Hl. symmetry. apply take_ge.
  unfold Writer.remaining in Hcap. change (Writer.length_ w) with 0 in Hcap. unfold Writer.capacity, zlen in *. lia.
Qed.

(** The versions that can be in a negotiation packet. *)
Definition on_the_wire (v : ParsedQuicVersion) : Prop := v ∈ candidates ∨ v = QuicVersionReservedForNegotiation.
Definition known (v : ParsedQuicVersion) : bool := bool_decide (v ≠ QuicVersionReservedForNegotiation).

Lemma wire_label r v :
  0 <= quic_ietf_draft_version < 256 → is_u32 r → on_the_wire v →
  is_u32 (CreateQuicVersionLabel r v)
  ∧ ParseQuicVersionLabel (CreateQuicVersionLabel r v) = if known v then v else UnsupportedQuicVersion.
Proof.
  intros Hd Hr [Hv| ->].
  - destruct (candidate_label r v Hd Hv) as (->&Hl&_). split; [lia|]. unfold known. destruct (candidate_transport v Hv) as [_ Ht].
    rewrite bool_decide_eq_true_2; [done|]. intros ->. apply list_elem_of_In in Ht. revert Ht. vm_compute. tauto || (intros H; repeat (destruct H as [H|H]; [discriminate H|]); done).
  - destruct (reserved_label r Hr) as [Hb Hl]. split; [lia|].
    destruct (ParseQuicVersionLabel_cases (CreateQuicVersionLabel r QuicVersionReservedForNegotiation)) as [->|[Hv E]]; [done|].
    destruct (candidate_label 0 _ Hd Hv) as (_&_&Hn). rewrite <-E in Hn. done.
Qed.

Definition labels_bytes (labels : list Z) : list Z := concat (map (be_bytes 4) labels).

Lemma labels_bytes_length labels : zlen (labels_bytes labels) = 4 * zlen labels.
Proof.
  unfold labels_bytes. induction labels as [|l ls IH]; [done|]. cbn [map concat]. rewrite zlen_app, IH, zlen_cons.
  replace (zlen (be_bytes 4 l)) with 4; [lia|]. unfold zlen. by rewrite be_bytes_length.
Qed.

Lemma emits_AppendVersionLabels labels :
  Forall (λ l, is_u32 l) labels → WriterSpec.emits NETWORK_BYTE_ORDER (AppendVersionLabels labels) (labels_bytes labels).
Proof.
  induction 1 as [|l ls Hl _ IH]; [apply WriterSpec.emits_ret|]. cbn [AppendVersionLabels]. unfold labels_bytes. cbn [map concat].
  apply WriterSpec.emits_andthen; [|apply IH]. apply (WriterSpec.emits_WriteUInt NETWORK_BYTE_ORDER 4). exact Hl.
Qed.

Lemma label_vector_length randoms (versions : list ParsedQuicVersion) : zlen (CreateQuicVersionLabelVector randoms versions) = zlen versions.
Proof. unfold CreateQuicVersionLabelVector, zlen. by rewrite length_imap. Qed.

Lemma label_vector_u32 randoms versions :
  0 <= quic_ietf_draft_version < 256 → (∀ i, is_u32 (randoms i)) → Forall on_the_wire versions →
  Forall (λ l, is_u32 l) (CreateQuicVersionLabelVector randoms versions).
Proof.
  intros Hd Hr Hv. apply Forall_lookup. intros i l Hi. unfold CreateQuicVersionLabelVector in Hi. rewrite list_lookup_imap in Hi.
  destruct (versions !! i) as [v|] eqn:E; [|done]. cbn in Hi. injection Hi as <-.
  apply (wire_label (randoms i) v Hd (Hr i)). by apply (Forall_lookup_1 _ _ _ _ Hv E).
Qed.

(** The client keeps the versions it knows. *)
Lemma read_versions_labels fuel randoms versions r :
  0 <= quic_ietf_draft_version < 256 → (∀ i, is_u32 (randoms i)) → Forall on_the_wire versions → versions ≠ [] →
  (length versions < fuel)%nat → ReaderSpec.wf r → Reader.endianness r = NETWORK_BYTE_ORDER →
  ReaderSpec.rest r = labels_bytes (CreateQuicVersionLabelVector randoms versions) →
  ∃ r', read_versions fuel r = (Some (List.filter known versions), r').
Proof.
  intros Hd Hr Hv Hne Hfuel Hw He Hrest. revert fuel r randoms Hr Hfuel Hw He Hrest.
  induction Hv as [|v vs Hv Hvs IH]; [done|]. intros fuel r randoms Hr Hfuel Hw He Hrest.
  destruct fuel as [|fuel]; [cbn in Hfuel; lia|].
  destruct (wire_label (randoms 0%nat) v Hd (Hr 0%nat) Hv) as [Hu Hp].
  change (CreateQuicVersionLabelVector randoms (v :: vs))
    with (CreateQuicVersionLabel (randoms 0%nat) v :: CreateQuicVersionLabelVector (λ i, randoms (S i)) vs) in Hrest.
  destruct (reads_VersionLabel _ Hu r _ Hw He Hrest) as (r1&E1&Hw1&Hr1&He1).
  change (ReaderSpec.rest r1 = labels_bytes (CreateQuicVersionLabelVector (λ i, randoms (S i)) vs)) in Hr1.
  cbn [read_versions]. unfold Reader.bind at 1. rewrite E1, Hp.
  assert (Ethis : (if bool_decide ((if known v then v else UnsupportedQuicVersion) = UnsupportedQuicVersion) then []
                   else [if known v then v else UnsupportedQuicVersion]) = List.filter known [v]).
  { cbn. destruct (known v) eqn:Ek; [|done]. rewrite bool_decide_eq_false_2; [done|]. intros ->. destruct Hv as [Hv|Hv]; [|done].
    destruct (candidate_transport _ Hv) as [[Hc|Hc] _]; done. }
  rewrite Ethis. change (List.filter known (v :: vs)) with (List.filter known ([v] ++ vs)). rewrite List.filter_app.
  pose proof (ReaderSpec.rest_length r1 Hw1) as Hlen. rewrite Hr1, labels_bytes_length, label_vector_length in Hlen.
  unfold Reader.IsDoneReading, Reader.BytesRemaining in *.
  destruct vs as [|v' vs'].
  - rewrite (@zlen_nil ParsedQuicVersion) in Hlen. destruct (Z.eqb_spec (Reader.len r1) (Reader.pos r1)); [|lia].
    cbn [List.filter]. rewrite app_nil_r. by eexists.
  - rewrite zlen_cons in Hlen. pose proof (zlen_nonneg vs'). destruct (Z.eqb_spec (Reader.len r1) (Reader.pos r1)); [lia|].
    destruct (IH ltac:(done) fuel r1 (λ i, randoms (S i)) (λ i, Hr (S i)) ltac:(cbn in *; lia) Hw1 He1 Hr1) as (r2&E2).
    unfold Reader.bind. rewrite E2. by eexists.
Qed.

(** What goes on the wire is what was asked for and greasing that the client drops. *)
Lemma negotiated_versions_spec random versions :
  Forall (λ v, v ∈ candidates) versions →
  Forall on_the_wire (negotiated_versions random versions) ∧ negotiated_versions random versions ≠ []
  ∧ List.filter known (negotiated_versions random versions) = versions.
Proof.
  intros Hv. assert (Hw : Forall on_the_wire versions) by (eapply Forall_impl; [exact Hv|]; intros; by left).
  assert (Hk : List.filter known versions = versions).
  { clear Hw. induction Hv as [|v vs Hv Hvs IH]; [done|]. cbn. unfold known at 1. rewrite bool_decide_eq_true_2, IH; [done|].
    intros ->. destruct (candidate_transport _ Hv) as [_ Ht]. apply list_elem_of_In in Ht. revert Ht. vm_compute. intros H; repeat (destruct H as [H|H]; [discriminate H|]); done. }
  assert (Hres : on_the_wire QuicVersionReservedForNegotiation) by by right.
  unfold negotiated_versions. destruct quic_version_negotiation_grease; cbn [negb].
  - destruct versions as [|v vs]; [split; [repeat constructor; done|done]|]. set (i := Z.to_nat _). clearbody i. split; [|split].
    + apply Forall_app. split; [by apply Forall_take|]. constructor; [done|]. by apply Forall_drop.
    + by destruct (take i (v :: vs)).
    + rewrite List.filter_app. cbn [List.filter]. change (known QuicVersionReservedForNegotiation) with false. cbv iota.
      rewrite <-List.filter_app, take_drop. exact Hk.
  - destruct versions as [|v vs]; [split; [repeat constructor; done|done]|done].
Qed.

Lemma labels_parse : has 192 FLAGS_LONG_HEADER = true ∧ is_byte 192.
Proof. split; [reflexivity|lia]. Qed.

(** The bytes of a negotiation packet. *)
Definition negotiation_bytes (ietf_quic : bool) (server_id client_id labels : list Z) : list Z :=
  if ietf_quic then [192] ++ be_bytes 4 0 ++ ([id_lengths_byte client_id server_id] ++ client_id ++ server_id) ++ labels_bytes labels
  else [13] ++ server_id ++ labels_bytes labels.

Lemma BuildVersionNegotiationPacket_bytes random randoms server_id client_id ietf_quic versions :
  0 <= quic_ietf_draft_version < 256 → (∀ i, is_u32 (randoms i)) → Forall (λ v, v ∈ candidates) versions →
  good_id server_id → good_id client_id →
  BuildVersionNegotiationPacket random randoms server_id client_id ietf_quic versions
  = Some (negotiation_bytes ietf_quic server_id client_id (CreateQuicVersionLabelVector randoms (negotiated_versions random versions))).
Proof.
  intros Hd Hr Hv Hs Hc. destruct (negotiated_versions_spec random versions Hv) as (Hw&_&_).
  pose proof (label_vector_u32 randoms _ Hd Hr Hw) as Hu. unfold BuildVersionNegotiationPacket, negotiation_bytes.
  set (vs := negotiated_versions random versions) in *. destruct ietf_quic.
  - unfold BuildIetfVersionNegotiationPacket. apply build_emits.
    + rewrite !app_assoc. apply WriterSpec.emits_andthen; [|by apply emits_AppendVersionLabels]. rewrite <-!app_assoc.
      rewrite app_assoc. apply WriterSpec.emits_andthen; [|by apply emits_AppendIetfConnectionIds].
      apply WriterSpec.emits_andthen; [apply WriterSpec.emits_WriteUInt8|]. apply (WriterSpec.emits_WriteUInt NETWORK_BYTE_ORDER 4). done.
    + rewrite !zlen_app, labels_bytes_length, label_vector_length. unfold kPacketHeaderTypeSize, kConnectionIdLengthSize, kQuicVersionSize.
      change (zlen [192]) with 1. change (zlen (be_bytes 4 0)) with 4. change (zlen [id_lengths_byte client_id server_id]) with 1. lia.
  - apply build_emits.
    + rewrite app_assoc. apply WriterSpec.emits_andthen; [|by apply emits_AppendVersionLabels].
      apply WriterSpec.emits_andthen; [apply WriterSpec.emits_WriteUInt8|apply emits_WriteConnectionId].
    + rewrite !zlen_app, labels_bytes_length, label_vector_length. unfold kPublicFlagsSize, kQuicVersionSize. change (zlen [13]) with 1. lia.
Qed.

Lemma reads_negotiation_header c d s :
  ids_accepted c UnsupportedQuicVersion true d s →
  ReaderSpec.reads NETWORK_BYTE_ORDER (ProcessIetfPacketHeader c QuicPacketHeader_new)
    ([192] ++ be_bytes 4 0 ++ [id_lengths_byte d s] ++ d ++ s)
    (received_header c true 192 UnsupportedQuicVersion VERSION_NEGOTIATION PACKET_4BYTE_PACKET_NUMBER d s).
Proof.
  intros Hacc.
  change (ProcessIetfPacketHeader c QuicPacketHeader_new)
    with (h <~ ProcessIetfHeaderTypeByte c QuicPacketHeader_new; ids_of_header c h).
  rewrite app_assoc. eapply ReaderSpec.reads_bind; [|by apply (reads_ids c true)].
  unfold ProcessIetfHeaderTypeByte. eapply ReaderSpec.reads_bind; [apply ReaderSpec.reads_ReadUInt8; lia|].
  unfold GetIetfPacketHeaderFormat. rewrite (proj1 labels_parse). cbn [form set_type]. unfold ProcessIetfLongHeaderType.
  rewrite <-(app_nil_r (be_bytes 4 0)). eapply ReaderSpec.reads_bind; [by apply reads_VersionLabel|]. apply ReaderSpec.reads_ret.
Qed.

Lemma reads_google_negotiation c id :
  is_client c = true → zlen id = kQuicDefaultConnectionIdLength →
  ∃ h, ReaderSpec.reads NETWORK_BYTE_ORDER (ProcessPublicHeader c false QuicPacketHeader_new) ([13] ++ id) h
    ∧ version_flag h = true ∧ GetServerConnectionIdAsRecipient h (perspective c) = id.
Proof.
  intros Hc Hid. destruct (perspective_cases c) as [[_ ?]|[Hs _]]; [congruence|].
  assert (Hp : perspective c = IS_CLIENT) by (unfold is_client in Hc; by apply bool_decide_eq_true in Hc).
  exists (google_received c true UnsupportedQuicVersion (Some id) PACKET_1BYTE_PACKET_NUMBER None). split; [|split; [done|]].
  2:{ unfold GetServerConnectionIdAsRecipient, google_received. rewrite Hp, Hc. by destruct quic_do_not_override_connection_id. }
  unfold ProcessPublicHeader. eapply ReaderSpec.reads_bind; [apply ReaderSpec.reads_ReadUInt8; lia|]. cbv zeta.
  rewrite Hc, Hs.
  change (has 13 PACKET_PUBLIC_FLAGS_RST) with false. change (has 13 PACKET_PUBLIC_FLAGS_VERSION) with true.
  change (has 13 PACKET_PUBLIC_FLAGS_8BYTE_CONNECTION_ID) with true. change (has 13 PACKET_PUBLIC_FLAGS_NONCE) with true.
  cbn [version_flag reset_flag set_version_flag set_reset_flag andb negb]. rewrite andb_false_r.
  rewrite <-(app_nil_r id) at 1. eapply ReaderSpec.reads_bind.
  { rewrite <-(app_nil_r id) at 1. rewrite <-Hid. eapply ReaderSpec.reads_bind; [|apply ReaderSpec.reads_ret].
    apply reads_ReadId. unfold good_id, kQuicMaxConnectionIdLength, kQuicDefaultConnectionIdLength in *. lia. }
  cbv beta. rewrite andb_false_r. eapply (ReaderSpec.reads_bind _ _ _ []); [apply ReaderSpec.reads_ret|]. cbn [andb].
  unfold google_received. rewrite Hc. cbn [andb]. destruct quic_do_not_override_connection_id; apply ReaderSpec.reads_ret.
Qed.

(** C24. Version negotiation is understood. Whatever versions the server offers (those the code knows), under any flags and
    random greasing, it builds a packet; and the client, whatever version it expected, takes it for a version negotiation
    packet about the server's connection id that offers exactly these versions, in order. *)
Theorem version_negotiation_is_understood c (ietf_quic : bool) random randoms server_id client_id versions :
  0 <= quic_ietf_draft_version < 256 → (∀ i, is_u32 (randoms i)) → Forall (λ v, v ∈ candidates) versions →
  is_client c = true → good_id client_id →
  (if ietf_quic then ids_accepted c UnsupportedQuicVersion true client_id server_id else zlen server_id = kQuicDefaultConnectionIdLength) →
  ∃ packet h r r',
    BuildVersionNegotiationPacket random randoms server_id client_id ietf_quic versions = Some packet
    ∧ ProcessPublicHeader c ietf_quic QuicPacketHeader_new (Reader.new packet NETWORK_BYTE_ORDER) = (Some h, r)
    ∧ IsVersionNegotiation c h ietf_quic = true
    ∧ ProcessVersionNegotiationPacket c h r = (Some (server_id, versions), r').
Proof.
  intros Hd Hr Hv Hc Hcid Hids. destruct (negotiated_versions_spec random versions Hv) as (Hw&Hne&Hk).
  assert (Hsid : good_id server_id).
  { destruct ietf_quic; [apply Hids|]. unfold good_id, kQuicMaxConnectionIdLength, kQuicDefaultConnectionIdLength in *. lia. }
  assert (Hp : perspective c = IS_CLIENT) by (unfold is_client in Hc; by apply bool_decide_eq_true in Hc).
  set (vs := negotiated_versions random versions) in *. set (labels := CreateQuicVersionLabelVector randoms vs).
  exists (negotiation_bytes ietf_quic server_id client_id labels).
  set (r0 := Reader.new _ NETWORK_BYTE_ORDER). pose proof (ReaderSpec.reader_new_wf (negotiation_bytes ietf_quic server_id client_id labels) NETWORK_BYTE_ORDER) as Hw0.
  pose proof (ReaderSpec.new_rest (negotiation_bytes ietf_quic server_id client_id labels) NETWORK_BYTE_ORDER) as Hrest0. fold r0 in Hw0, Hrest0.
  assert (Hh : ∃ h r, ProcessPublicHeader c ietf_quic QuicPacketHeader_new r0 = (Some h, r) ∧ ReaderSpec.wf r
    ∧ Reader.endianness r = NETWORK_BYTE_ORDER ∧ ReaderSpec.rest r = labels_bytes labels ∧ IsVersionNegotiation c h ietf_quic = true
    ∧ GetServerConnectionIdAsRecipient h (perspective c) = server_id).
  { unfold negotiation_bytes in Hrest0. destruct ietf_quic.
    - rewrite !app_assoc in Hrest0. rewrite <-!app_assoc in Hrest0.
      destruct (reads_negotiation_header c client_id server_id Hids r0 (labels_bytes labels) Hw0 eq_refl) as (r&E&Hwr&Hrr&Her).
      { rewrite Hrest0, <-!app_assoc. done. }
      exists (received_header c true 192 UnsupportedQuicVersion VERSION_NEGOTIATION PACKET_4BYTE_PACKET_NUMBER client_id server_id), r. split; [exact E|]. split; [done|]. split; [done|]. split; [done|].
      split; [unfold IsVersionNegotiation, received_header; by destruct (received_ids _ _ _ _) as [[[? ?] ?] ?]|].
      destruct Hids as (_&_&Hids&_). unfold GetServerConnectionIdAsRecipient, received_header, received_ids. rewrite Hp, Hc.
      destruct (perspective_cases c) as [[? ?]|[Eps _]]; [congruence|]. by destruct quic_do_not_override_connection_id.
    - destruct (reads_google_negotiation c server_id Hc Hids) as (h&Hreads&Hvf&Hid). rewrite app_assoc in Hrest0.
      destruct (Hreads r0 (labels_bytes labels) Hw0 eq_refl Hrest0) as (r&E&Hwr&Hrr&Her). exists h, r.
      split; [done|]. split; [done|]. split; [done|]. split; [done|]. split; [|done]. unfold IsVersionNegotiation. by rewrite Hc. }
  destruct Hh as (h&r&E&Hwr&Her&Hrr&Hneg&Hid). exists h, r.
  destruct (read_versions_labels (S (Z.to_nat (Reader.BytesRemaining r))) randoms vs r Hd Hr Hw Hne) as (r'&Er'); try done.
  { rewrite <-(ReaderSpec.rest_length r Hwr), Hrr, labels_bytes_length. unfold labels. rewrite label_vector_length. unfold zlen. lia. }
  exists r'. split; [by apply BuildVersionNegotiationPacket_bytes|]. split; [done|]. split; [done|].
  unfold ProcessVersionNegotiationPacket, Reader.bind, Reader.ret. by rewrite Er', Hk, Hid.
Qed.

(** ** Probes *)

Lemma emits_written a d w : WriterSpec.emits NETWORK_BYTE_ORDER a d → WriterSpec.wf w → Writer.endianness w = NETWORK_BYTE_ORDER →
  zlen d <= Writer.remaining w →
  ∃ w', a w = (true, w') ∧ WriterSpec.wf w' ∧ Writer.endianness w' = NETWORK_BYTE_ORDER ∧ Writer.capacity w' = Writer.capacity w
    ∧ WriterSpec.written w' = WriterSpec.written w ++ d ∧ Writer.length_ w' = Writer.length_ w + zlen d.
Proof.
  intros Ha Hw He Hroom. specialize (Ha w Hw He). destruct (a w) as [ok w']. destruct Ha as (?&?&?&_&->&Ha).
  destruct (Ha ltac:(lia)) as [? ?]. exists w'. destruct (Z.leb_spec (zlen d) (Writer.remaining w)); [done|lia].
Qed.

(** At most fifteen zeroes. *)
Lemma pad_to_16_spec rounds w :
  WriterSpec.wf w → Writer.endianness w = NETWORK_BYTE_ORDER → 16 <= Writer.remaining w → (16 <= rounds)%nat →
  ∃ n w', pad_to_16 rounds w = (true, w') ∧ (n < 16)%nat ∧ WriterSpec.wf w' ∧ Writer.endianness w' = NETWORK_BYTE_ORDER
    ∧ Writer.capacity w' = Writer.capacity w ∧ WriterSpec.written w' = WriterSpec.written w ++ replicate n 0
    ∧ Writer.length_ w' = Writer.length_ w + Z.of_nat n ∧ Writer.length_ w' mod 16 = 0.
Proof.
  intros Hw He Hroom Hrounds.
  assert (H : ∀ todo rounds w, WriterSpec.wf w → Writer.endianness w = NETWORK_BYTE_ORDER → Z.of_nat todo <= Writer.remaining w →
    (todo < rounds)%nat → (Writer.length_ w + Z.of_nat todo) mod 16 = 0 →
    ∃ n w', pad_to_16 rounds w = (true, w') ∧ (n <= todo)%nat ∧ WriterSpec.wf w' ∧ Writer.endianness w' = NETWORK_BYTE_ORDER
    ∧ Writer.capacity w' = Writer.capacity w ∧ WriterSpec.written w' = WriterSpec.written w ++ replicate n 0
    ∧ Writer.length_ w' = Writer.length_ w + Z.of_nat n ∧ Writer.length_ w' mod 16 = 0).
  { clear. induction todo as [|todo IH]; intros rounds w Hw He Hroom Hrounds Hmod; destruct rounds as [|rounds]; try lia; cbn [pad_to_16].
    - rewrite Z.add_0_r in Hmod. rewrite Hmod. exists 0%nat, w. cbn [replicate]. rewrite app_nil_r. repeat split; try done; lia || apply Hw.
    - destruct (Z.eqb_spec (Writer.length_ w mod 16) 0) as [E|E].
      { exists 0%nat, w. cbn [replicate]. rewrite app_nil_r. repeat split; try done; lia || apply Hw. }
      unfold Writer.andthen. destruct (emits_written (Writer.WriteUInt8 0) [0] w (WriterSpec.emits_WriteUInt8 _ _) Hw He) as (w1&->&Hw1&He1&Hc1&Hr1&Hl1);
        [change (zlen [0]) with 1; lia|]. change (zlen [0]) with 1 in Hl1.
      destruct (IH rounds w1 Hw1 He1) as (n&w2&->&Hn&Hw2&He2&Hc2&Hr2&Hl2&Hm2); [unfold Writer.remaining in *; lia|lia|rewrite Hl1; rewrite <-Hmod; f_equal; lia|].
      exists (S n), w2. split; [done|]. split; [lia|]. split; [done|]. split; [done|]. split; [congruence|].
      split; [rewrite Hr2, Hr1, <-app_assoc; done|]. split; [lia|done]. }
  pose proof (Z.mod_pos_bound (- Writer.length_ w) 16 ltac:(lia)) as Hb.
  destruct (H (Z.to_nat ((- Writer.length_ w) mod 16)) rounds w) as (n&w'&E&Hn&H'); try done; try lia.
  { rewrite Z2Nat.id by lia. rewrite Z.add_mod_idemp_r by lia. rewrite Z.add_opp_diag_r. done. }
  exists n, w'. split; [done|]. split; [lia|done].
Qed.

Lemma greeting_length : zlen polite_greeting = 184.
Proof. vm_compute. reflexivity. Qed.

(** The packet a probe is: an IETF long header of a version nobody has, the connection id, and a tail to fill it. *)
Lemma probe_bytes packet_length id :
  kMinPacketSizeForVersionNegotiation <= packet_length <= 65535 → good_id id →
  ∃ tail packet, WriteClientVersionNegotiationProbePacket packet_length id = Some packet ∧ zlen packet = packet_length
    ∧ packet = [192] ++ be_bytes 4 3401243322 ++ [id_lengths_byte id []] ++ id ++ tail.
Proof.
  unfold kMinPacketSizeForVersionNegotiation. intros Hpl Hid. unfold WriteClientVersionNegotiationProbePacket, kMinPacketSizeForVersionNegotiation.
  destruct (Z.ltb_spec packet_length 1200); [lia|]. destruct (Z.ltb_spec 65535 packet_length); [lia|]. cbn [orb].
  replace ((_ <? zlen id) || _) with false by (unfold good_id, kQuicMaxConnectionIdLength in *; lia).
  set (start := Writer.WriteBytes _ &&& _ &&& _ &&& _).
  assert (Hstart : WriterSpec.emits NETWORK_BYTE_ORDER start
    ([192; 202; 186; 218; 186] ++ ([id_lengths_byte id []] ++ id ++ []) ++ be_bytes 8 0 ++ be_bytes 8 (two64 - 1))).
  { unfold start. rewrite !app_assoc. apply WriterSpec.emits_andthen; [|apply (WriterSpec.emits_WriteUInt NETWORK_BYTE_ORDER 8); done].
    apply WriterSpec.emits_andthen; [|apply (WriterSpec.emits_WriteUInt NETWORK_BYTE_ORDER 8); done]. rewrite <-!app_assoc.
    apply WriterSpec.emits_andthen; [apply WriterSpec.emits_WriteBytes|]. apply (emits_AppendIetfConnectionIds _ id []); [done|by left]. }
  set (d := _ ++ _) in Hstart. unfold build. set (w := Writer.new _ _).
  assert (Hcap : Writer.capacity w = packet_length).
  { unfold w, Writer.capacity, Writer.new. cbn. unfold zlen. rewrite length_replicate. lia. }
  assert (Hd : zlen d = 22 + zlen id).
  { unfold d. rewrite !zlen_app, (@zlen_nil Z). change (zlen [192; 202; 186; 218; 186]) with 5. change (zlen [id_lengths_byte id []]) with 1.
    change (zlen (be_bytes 8 0)) with 8. change (zlen (be_bytes 8 (two64 - 1))) with 8. lia. }
  assert (Hidl : zlen id <= 18) by (unfold good_id, kQuicMaxConnectionIdLength in *; lia).
  destruct (emits_written start d w Hstart (WriterSpec.writer_new_wf _ _) eq_refl) as (w1&E1&Hw1&He1&Hc1&Hr1&Hl1).
  { unfold Writer.remaining. rewrite Hcap. change (Writer.length_ w) with 0. lia. }
  change (WriterSpec.written w) with (@nil Z) in Hr1. change (Writer.length_ w) with 0 in Hl1.
  destruct (pad_to_16_spec 16 w1 Hw1 He1) as (n&w2&E2&Hn&Hw2&He2&Hc2&Hr2&Hl2&_); [unfold Writer.remaining; lia|lia|].
  destruct (emits_written _ _ w2 (WriterSpec.emits_WriteBytes _ polite_greeting) Hw2 He2) as (w3&E3&Hw3&He3&Hc3&Hr3&Hl3).
  { rewrite greeting_length. unfold Writer.remaining. lia. }
  unfold Writer.andthen at 1 2 3. rewrite E1, E2, E3. rewrite greeting_length in Hl3.
  unfold Writer.WritePadding. destruct (Z.ltb_spec (Writer.capacity w3) (Writer.length_ w3)); [lia|].
  set (pad := replicate _ 0). assert (Hpad : zlen pad = Writer.remaining w3).
  { unfold pad, zlen. rewrite length_replicate. unfold Writer.remaining. lia. }
  destruct (WriterSpec.put_spec pad w3 Hw3) as (_&Hc4&_&Hr4&Hl4); [lia|]. set (w4 := Writer.put pad w3) in *.
  assert (Hbuf : Writer.buffer w4 = WriterSpec.written w4).
  { unfold WriterSpec.written. symmetry. apply take_ge. unfold Writer.remaining, Writer.capacity, zlen in *. lia. }
  exists (be_bytes 8 0 ++ be_bytes 8 (two64 - 1) ++ replicate n 0 ++ polite_greeting ++ pad), (Writer.buffer w4).
  split; [done|]. split; [change (zlen (Writer.buffer w4)) with (Writer.capacity w4); congruence|].
  rewrite Hbuf, Hr4, Hr3, Hr2, Hr1. unfold d. rewrite app_nil_r, <-!app_assoc. reflexivity.
Qed.

Lemma parse_reads {A} (a : Reader.action A) d tail x :
  ReaderSpec.reads NETWORK_BYTE_ORDER a d x → parse a (d ++ tail) = Some x.
Proof.
  intros Ha. unfold parse. destruct (Ha (Reader.new (d ++ tail) NETWORK_BYTE_ORDER) tail) as (r&->&_).
  - apply ReaderSpec.reader_new_wf.
  - done.
  - apply ReaderSpec.new_rest.
  - done.
Qed.

Lemma dispatcher_sees_probe id expected tail :
  good_id id →
  ProcessPacketDispatcher ([192] ++ be_bytes 4 3401243322 ++ [id_lengths_byte id []] ++ id ++ tail) expected
  = Some (mk_dispatched IETF_QUIC_LONG_HEADER_PACKET true (Some 3401243322) id []).
Proof.
  intros Hid. assert (Hnil : good_id []) by by left.
  replace (_ ++ _) with (([192] ++ ((be_bytes 4 3401243322 ++ [id_lengths_byte id []] ++ []) ++ id ++ [])) ++ tail) by (rewrite <-!app_assoc; done).
  apply parse_reads. eapply ReaderSpec.reads_bind; [apply ReaderSpec.reads_ReadUInt8; lia|].
  change (IsIetfPacketHeader 192) with true. change (GetIetfPacketHeaderFormat 192) with IETF_QUIC_LONG_HEADER_PACKET. cbn [negb].
  eapply ReaderSpec.reads_bind.
  { rewrite bool_decide_eq_true_2 by done. eapply ReaderSpec.reads_bind; [by apply reads_VersionLabel|].
    eapply ReaderSpec.reads_bind; [apply (reads_id_lengths _ _ true); [done..|by left]|]. apply ReaderSpec.reads_ret. }
  cbn [fst snd]. eapply ReaderSpec.reads_bind; [by apply reads_ReadId|].
  rewrite <-(app_nil_r []). eapply ReaderSpec.reads_bind; [|rewrite bool_decide_eq_true_2 by done; apply ReaderSpec.reads_ret].
  destruct quic_do_not_override_connection_id; [by apply (reads_ReadId [])|apply ReaderSpec.reads_ret].
Qed.

Lemma response_parses id labels :
  good_id id → ParseServerVersionNegotiationProbeResponse (negotiation_bytes true id [] labels) = Some id.
Proof.
  intros Hid. assert (Hnil : good_id []) by by left.
  unfold ParseServerVersionNegotiationProbeResponse, negotiation_bytes.
  destruct (Z.ltb_spec (zlen ([192] ++ be_bytes 4 0 ++ ([id_lengths_byte [] id] ++ [] ++ id) ++
    labels_bytes labels)) 6) as [Hlt|_].
  { rewrite !zlen_app, (@zlen_nil Z) in Hlt. change (zlen [192]) with 1 in Hlt. change (zlen (be_bytes 4 0)) with 4 in Hlt.
    change (zlen [id_lengths_byte [] id]) with 1 in Hlt. pose proof (zlen_nonneg id).
    pose proof (zlen_nonneg (labels_bytes labels)). lia. }
  set (tail := labels_bytes _). replace (_ ++ _) with (([192] ++ be_bytes 4 0 ++ [id_lengths_byte [] id] ++ [] ++ id ++ []) ++ tail) by (rewrite <-!app_assoc; done).
  apply parse_reads. eapply ReaderSpec.reads_bind; [apply ReaderSpec.reads_ReadUInt8; lia|]. change (Z.land 192 128 =? 0) with false. cbv iota.
  eapply ReaderSpec.reads_bind; [by apply (ReaderSpec.reads_ReadUInt NETWORK_BYTE_ORDER 4)|]. cbn [negb Z.eqb].
  eapply ReaderSpec.reads_bind; [apply (reads_id_lengths _ _ true); [done..|by left]|]. cbn beta iota.
  change (negb (zlen [] =? 0)) with false. cbv iota.
  eapply ReaderSpec.reads_bind; [by apply (reads_ReadId [])|].
  eapply ReaderSpec.reads_bind; [by apply reads_ReadId|]. apply ReaderSpec.reads_ret.
Qed.

(** A probe is answered. For every packet size from 1200 to 65535 bytes and connection id the client may use, the probe is
    that long; a dispatcher sees in it a long header of a version nobody supports, with that connection id; and the
    negotiation packet it answers with is recognised by the client, whatever versions it offers, as the response for
    that connection id. *)
Theorem probe_is_answered packet_length id expected random randoms versions :
  0 <= quic_ietf_draft_version < 256 → (∀ i, is_u32 (randoms i)) → Forall (λ v, v ∈ candidates) versions →
  kMinPacketSizeForVersionNegotiation <= packet_length <= 65535 → good_id id →
  ∃ probe response label,
    WriteClientVersionNegotiationProbePacket packet_length id = Some probe ∧ zlen probe = packet_length
    ∧ ProcessPacketDispatcher probe expected = Some (mk_dispatched IETF_QUIC_LONG_HEADER_PACKET true (Some label) id [])
    ∧ ParseQuicVersionLabel label = UnsupportedQuicVersion
    ∧ BuildVersionNegotiationPacket random randoms id [] true versions = Some response
    ∧ ParseServerVersionNegotiationProbeResponse response = Some id.
Proof.
  intros Hd Hr Hv Hpl Hid. destruct (probe_bytes packet_length id Hpl Hid) as (tail&probe&E&Hl&Hprobe).
  exists probe, (negotiation_bytes true id [] (CreateQuicVersionLabelVector randoms (negotiated_versions random versions))), 3401243322.
  split; [done|]. split; [done|]. split; [|split; [|split; [apply BuildVersionNegotiationPacket_bytes; try done; by left|]]].
  - rewrite Hprobe. by apply dispatcher_sees_probe.
  - destruct (ParseQuicVersionLabel_cases 3401243322) as [?|[Hin El]]; [done|].
    destruct (candidate_label 0 _ Hd Hin) as (_&_&Hn). rewrite <-El in Hn. by vm_compute in Hn.
  - by apply response_parses.
Qed.

End laws.
End flags.

(** ** Witnesses *)

Section demo.
#[local] Existing Instance demo_flags.

Definition demo_version : ParsedQuicVersion := mk_version PROTOCOL_TLS1_3 QUIC_VERSION_99.
Definition demo_client : framer :=
  mk_framer IS_CLIENT demo_version false true 8 0 [] [] 0 PacketNumber.UninitializedPacketNumber true UnackedPacketMap.no_packets.
Definition demo_server : framer :=
  mk_framer IS_SERVER demo_version false true 8 0 [] [] 0 PacketNumber.UninitializedPacketNumber true UnackedPacketMap.no_packets.
Definition demo_id : list Z := [1; 2; 3; 4; 5; 6; 7; 8].
(** An INITIAL header of a client with a token of two bytes. *)
Definition demo_header : QuicPacketHeader :=
  mk_header demo_id true [] false false true None PACKET_2BYTE_PACKET_NUMBER 0 demo_version None 260
    IETF_QUIC_LONG_HEADER_PACKET INITIAL 1 [9; 9] 2 0.

Lemma demo_candidate : demo_version ∈ candidates.
Proof. apply list_elem_of_In. right. left. reflexivity. Defined.

Lemma demo_sendable : sendable demo_client demo_header.
Proof.
  split.
  - split; [discriminate|reflexivity].
  - apply demo_candidate.
  - split; [discriminate|reflexivity].
  - reflexivity.
  - discriminate.
  - intros _. split; [right; split; discriminate|left; reflexivity].
  - intros _ _. split; [left; reflexivity|reflexivity].
Defined.

Lemma demo_fits : fits_version demo_client demo_header.
Proof.
  split; [reflexivity| |discriminate|discriminate].
  intros [H|H]; [discriminate|by destruct H].
Defined.

Lemma header_size_is_exact_witness :
  GetPacketHeaderSize QUIC_VERSION_99 demo_header = 21
  ∧ ∃ w', AppendPacketHeader demo_header (mk_writing (Writer.new 30 NETWORK_BYTE_ORDER) demo_client 0)
      = (true, mk_writing w' (after_header demo_client demo_header) 17)
    ∧ Writer.length_ w' = 21.
Proof.
  split; [reflexivity|].
  destruct (header_size_is_exact (EL := swap_endian_laws) demo_client demo_header (Writer.new 30 NETWORK_BYTE_ORDER) 0
    demo_sendable demo_fits (WriterSpec.writer_new_wf 30 NETWORK_BYTE_ORDER) eq_refl ltac:(discriminate)) as (w'&E&_&Hl&_).
  exists w'. split; [exact E|exact Hl].
Defined.

Lemma version_negotiation_is_understood_witness :
  ∃ packet h r r',
    BuildVersionNegotiationPacket 5 (λ _, 7) demo_id [] true [demo_version; mk_version PROTOCOL_QUIC_CRYPTO QUIC_VERSION_46] = Some packet
    ∧ ProcessPublicHeader demo_client true QuicPacketHeader_new (Reader.new packet NETWORK_BYTE_ORDER) = (Some h, r)
    ∧ IsVersionNegotiation demo_client h true = true
    ∧ ProcessVersionNegotiationPacket demo_client h r
      = (Some (demo_id, [demo_version; mk_version PROTOCOL_QUIC_CRYPTO QUIC_VERSION_46]), r').
Proof.
  apply (version_negotiation_is_understood (EL := swap_endian_laws) demo_client true 5 (λ _, 7) demo_id []).
  - split; [discriminate|reflexivity].
  - intros _. split; [discriminate|reflexivity].
  - constructor; [apply demo_candidate|]. constructor; [|constructor]. apply list_elem_of_In. do 6 right. left. reflexivity.
  - reflexivity.
  - left. reflexivity.
  - split; [left; reflexivity|]. split; [right; split; discriminate|]. split; [reflexivity|]. split; [discriminate|].
    split; [discriminate|]. split; [discriminate|discriminate].
Defined.

Lemma probe_is_answered_witness :
  ∃ probe response label,
    WriteClientVersionNegotiationProbePacket 1200 demo_id = Some probe ∧ zlen probe = 1200
    ∧ ProcessPacketDispatcher probe 8 = Some (mk_dispatched IETF_QUIC_LONG_HEADER_PACKET true (Some label) demo_id [])
    ∧ ParseQuicVersionLabel label = UnsupportedQuicVersion
    ∧ BuildVersionNegotiationPacket 5 (λ _, 7) demo_id [] true [demo_version] = Some response
    ∧ ParseServerVersionNegotiationProbeResponse response = Some demo_id.
Proof.
  apply (probe_is_answered (EL := swap_endian_laws) 1200 demo_id 8 5 (λ _, 7) [demo_version]).
  - split; [discriminate|reflexivity].
  - intros _. split; [discriminate|reflexivity].
  - constructor; [apply demo_candidate|constructor].
  - split; discriminate.
  - right. split; discriminate.
Defined.
End demo.
End PacketHeaders.
