(* ===== verification/CryptoMessages.v ===== *)
(** The handshake messages of QUIC crypto: [CryptoHandshakeMessage] (quic/core/crypto/crypto_handshake_message.cc), a map from
    tags to values, and [CryptoFramer] (crypto_framer.cc), which writes a message and parses messages from a stream that comes
    in any pieces. *)

From S2P Require Import Prelude Bytes DataWire Versions.

Module CryptoMessages.
Import Versions.
#[local] Notation "a &&& b" := (Writer.andthen a b) (at level 40, left associativity).

(** ** Constants *)

Definition kMaxEntries : Z := 128.
Definition kQuicTagSize : Z := 4.
Definition kCryptoEndOffsetSize : Z := 4.
Definition kNumEntriesSize : Z := 2.
(** [TAG('P', 'A', 'D', '\0')]. *)
Definition kPAD : Z := 4473168.

Inductive QuicErrorCode :=
  QUIC_NO_ERROR | QUIC_CRYPTO_TOO_MANY_ENTRIES | QUIC_CRYPTO_DUPLICATE_TAG | QUIC_CRYPTO_TAGS_OUT_OF_ORDER
| QUIC_CRYPTO_MESSAGE_PARAMETER_NOT_FOUND | QUIC_INVALID_CRYPTO_MESSAGE_PARAMETER | QUIC_CRYPTO_MESSAGE_INDEX_NOT_FOUND.

#[global] Instance QuicErrorCode_eq_dec : EqDecision QuicErrorCode.
Proof. solve_decision. Defined.

(** ** The map *)

(** [QuicTagValueMap], a [std::map]: its entries in the order of the tags. *)
Definition QuicTagValueMap := list (Z * list Z).

Fixpoint find_tag (tag : Z) (m : QuicTagValueMap) : option (list Z) :=
  match m with
  | [] => None
  | (t, v) :: m => if t =? tag then Some v else find_tag tag m
  end.
Fixpoint put_tag (tag : Z) (value : list Z) (m : QuicTagValueMap) : QuicTagValueMap :=
  match m with
  | [] => [(tag, value)]
  | (t, v) :: m' =>
      if tag <? t then (tag, value) :: m
      else if tag =? t then (tag, value) :: m'
      else (t, v) :: put_tag tag value m'
  end.
Definition erase_tag (tag : Z) (m : QuicTagValueMap) : QuicTagValueMap := List.filter (λ e, negb (e.1 =? tag)) m.

(** ** Messages *)

Record CryptoHandshakeMessage := mk_message {
  tag_ : Z;
  tag_value_map_ : QuicTagValueMap;
  minimum_size_ : Z;
  (** The cached form; never cached as missing, since the code would dereference it. *)
  serialized_ : option (list Z);
}.
Definition CryptoHandshakeMessage_new : CryptoHandshakeMessage := mk_message 0 [] 0 None.

Definition Clear_message (m : CryptoHandshakeMessage) : CryptoHandshakeMessage := mk_message 0 [] 0 None.
Definition MarkDirty (m : CryptoHandshakeMessage) : CryptoHandshakeMessage :=
  mk_message (tag_ m) (tag_value_map_ m) (minimum_size_ m) None.
Definition set_tag (tag : Z) (m : CryptoHandshakeMessage) : CryptoHandshakeMessage :=
  mk_message tag (tag_value_map_ m) (minimum_size_ m) (serialized_ m).
Definition set_map (f : QuicTagValueMap → QuicTagValueMap) (m : CryptoHandshakeMessage) : CryptoHandshakeMessage :=
  mk_message (tag_ m) (f (tag_value_map_ m)) (minimum_size_ m) (serialized_ m).
Definition SetStringPiece (tag : Z) (value : list Z) : CryptoHandshakeMessage → CryptoHandshakeMessage := set_map (put_tag tag value).
Definition Erase (tag : Z) : CryptoHandshakeMessage → CryptoHandshakeMessage := set_map (erase_tag tag).
Definition set_minimum_size (min_bytes : Z) (m : CryptoHandshakeMessage) : CryptoHandshakeMessage :=
  if min_bytes =? minimum_size_ m then m else mk_message (tag_ m) (tag_value_map_ m) min_bytes None.

(** The memory of an integer of [n] bytes, and of an array of such. *)
Definition SetValue (n : nat) (tag v : Z) : CryptoHandshakeMessage → CryptoHandshakeMessage := SetStringPiece tag (le_bytes n v).
Definition SetVector (n : nat) (tag : Z) (v : list Z) : CryptoHandshakeMessage → CryptoHandshakeMessage :=
  SetStringPiece tag (concat (map (le_bytes n) v)).

Definition size (m : CryptoHandshakeMessage) : Z :=
  kQuicTagSize + 2 + 2 + (kQuicTagSize + 4) * zlen (tag_value_map_ m)
  + foldr (λ e n, zlen e.2 + n) 0 (tag_value_map_ m).

Definition GetStringPiece (m : CryptoHandshakeMessage) (tag : Z) : option (list Z) := find_tag tag (tag_value_map_ m).
Definition HasStringPiece (m : CryptoHandshakeMessage) (tag : Z) : bool :=
  match find_tag tag (tag_value_map_ m) with Some _ => true | None => false end.

(** The error and the output, zero where there is an error. *)
Definition GetPOD (m : CryptoHandshakeMessage) (tag len : Z) : QuicErrorCode * Z :=
  match find_tag tag (tag_value_map_ m) with
  | None => (QUIC_CRYPTO_MESSAGE_PARAMETER_NOT_FOUND, 0)
  | Some v => if negb (zlen v =? len) then (QUIC_INVALID_CRYPTO_MESSAGE_PARAMETER, 0) else (QUIC_NO_ERROR, le_val v)
  end.
Definition GetUint32 (m : CryptoHandshakeMessage) (tag : Z) : QuicErrorCode * Z := GetPOD m tag 4.
Definition GetUint64 (m : CryptoHandshakeMessage) (tag : Z) : QuicErrorCode * Z := GetPOD m tag 8.
Definition GetUint128 (m : CryptoHandshakeMessage) (tag : Z) : QuicErrorCode * Z := GetPOD m tag 16.

(** The tags in a value of [n] of them. *)
Fixpoint tags_of (n : nat) (v : list Z) : list Z :=
  match n with O => [] | S n => le_val (take 4 v) :: tags_of n (drop 4 v) end.
Definition GetTaglist (m : CryptoHandshakeMessage) (tag : Z) : QuicErrorCode * list Z :=
  match find_tag tag (tag_value_map_ m) with
  | None => (QUIC_CRYPTO_MESSAGE_PARAMETER_NOT_FOUND, [])
  | Some v =>
      if negb (zlen v mod kQuicTagSize =? 0) then (QUIC_INVALID_CRYPTO_MESSAGE_PARAMETER, [])
      else (QUIC_NO_ERROR, tags_of (Z.to_nat (zlen v / kQuicTagSize)) v)
  end.

(** The loop of [GetNthValue24]; each round takes three bytes, so one more round than there are bytes is enough. *)
Fixpoint nth_value24 (fuel : nat) (index : nat) (value : list Z) : QuicErrorCode * list Z :=
  match fuel with
  | O => (QUIC_CRYPTO_MESSAGE_INDEX_NOT_FOUND, [])
  | S fuel =>
      match value with
      | [] => (QUIC_CRYPTO_MESSAGE_INDEX_NOT_FOUND, [])
      | b0 :: b1 :: b2 :: value =>
          let size := Z.lor (Z.lor b0 (Z.shiftl b1 8)) (Z.shiftl b2 16) in
          if zlen value <? size then (QUIC_INVALID_CRYPTO_MESSAGE_PARAMETER, [])
          else match index with
               | O => (QUIC_NO_ERROR, take (Z.to_nat size) value)
               | S index => nth_value24 fuel index (drop (Z.to_nat size) value)
               end
      | _ => (QUIC_INVALID_CRYPTO_MESSAGE_PARAMETER, [])
      end
  end.
Definition GetNthValue24 (m : CryptoHandshakeMessage) (tag : Z) (index : nat) : QuicErrorCode * list Z :=
  match GetStringPiece m tag with
  | None => (QUIC_CRYPTO_MESSAGE_PARAMETER_NOT_FOUND, [])
  | Some value => nth_value24 (S (length value)) index value
  end.

Section endian.
Context {EI : EndianImpl} {F : Flags}.

Definition SetVersion (random tag : Z) (v : ParsedQuicVersion) : CryptoHandshakeMessage → CryptoHandshakeMessage :=
  SetValue 4 tag (HostToNet 4 (CreateQuicVersionLabel random v)).
Definition SetVersionVector (randoms : nat → Z) (tag : Z) (versions : list ParsedQuicVersion)
    : CryptoHandshakeMessage → CryptoHandshakeMessage :=
  SetVector 4 tag (map (HostToNet 4) (CreateQuicVersionLabelVector randoms versions)).
Definition GetVersionLabelList (m : CryptoHandshakeMessage) (tag : Z) : QuicErrorCode * list Z :=
  let '(error, out) := GetTaglist m tag in
  if bool_decide (error = QUIC_NO_ERROR) then (error, map (HostToNet 4) out) else (error, out).
Definition GetVersionLabel (m : CryptoHandshakeMessage) (tag : Z) : QuicErrorCode * Z :=
  let '(error, out) := GetUint32 m tag in
  if bool_decide (error = QUIC_NO_ERROR) then (error, HostToNet 4 out) else (error, out).

(** ** Writing *)

Definition WritePadTag (pad_length end_offset : Z) : Writer.action :=
  Writer.WriteTag kPAD &&& Writer.WriteUInt32 (wrap32 (end_offset + pad_length)).

(** The loop over tags and offsets; [None]: a PAD tag where one is needed. *)
Fixpoint write_index (es : QuicTagValueMap) (need_pad_tag : bool) (pad_length end_offset : Z) : option Writer.action :=
  match es with
  | [] => Some (if need_pad_tag then WritePadTag pad_length end_offset else Writer.ret true)
  | (tag, value) :: es =>
      if (tag =? kPAD) && need_pad_tag then None else
      let entry end_offset need_pad_tag :=
        let end_offset := wrap32 (end_offset + zlen value) in
        match write_index es need_pad_tag pad_length end_offset with
        | Some rest => Some (Writer.WriteTag tag &&& Writer.WriteUInt32 end_offset &&& rest)
        | None => None
        end in
      if (kPAD <? tag) && need_pad_tag then
        match entry (wrap32 (end_offset + pad_length)) false with
        | Some rest => Some (WritePadTag pad_length end_offset &&& rest)
        | None => None
        end
      else entry end_offset need_pad_tag
  end.

Definition dash : Z := 45.
Fixpoint write_values (es : QuicTagValueMap) (need_pad_value : bool) (pad_length : Z) : Writer.action :=
  match es with
  | [] => if need_pad_value then Writer.WriteRepeatedByte dash pad_length else Writer.ret true
  | (tag, value) :: es =>
      if (kPAD <? tag) && need_pad_value then
        Writer.WriteRepeatedByte dash pad_length &&& Writer.WriteBytes value &&& write_values es false pad_length
      else Writer.WriteBytes value &&& write_values es need_pad_value pad_length
  end.

(** [None] is [nullptr]. *)
Definition ConstructHandshakeMessage (m : CryptoHandshakeMessage) : option (list Z) :=
  let es := tag_value_map_ m in
  let need_pad := size m <? minimum_size_ m in
  let overhead := kQuicTagSize + kCryptoEndOffsetSize in
  let delta := minimum_size_ m - size m in
  let pad_length := if need_pad && (overhead <? delta) then delta - overhead else 0 in
  let num_entries := zlen es + (if need_pad then 1 else 0) in
  let len := size m + (if need_pad then overhead + pad_length else 0) in
  if kMaxEntries <? num_entries then None else
  match write_index es need_pad pad_length 0 with
  | None => None
  | Some index =>
      let '(ok, w) := (Writer.WriteTag (tag_ m) &&& Writer.WriteUInt16 (wrap16 num_entries) &&& Writer.WriteUInt16 0
        &&& index &&& write_values es need_pad pad_length) (Writer.new (Z.to_nat len) HOST_BYTE_ORDER) in
      if ok then Some (Writer.buffer w) else None
  end.

Definition GetSerialized (m : CryptoHandshakeMessage) : option (list Z) * CryptoHandshakeMessage :=
  match serialized_ m with
  | Some d => (Some d, m)
  | None =>
      let d := ConstructHandshakeMessage m in
      (d, mk_message (tag_ m) (tag_value_map_ m) (minimum_size_ m) d)
  end.

(** ** Parsing *)

Inductive CryptoFramerState := STATE_READING_TAG | STATE_READING_NUM_ENTRIES | STATE_READING_TAGS_AND_LENGTHS | STATE_READING_VALUES.

(** What the visitor is told. *)
Inductive call := OnHandshakeMessage (m : CryptoHandshakeMessage) | OnError (e : QuicErrorCode).

Record t := mk {
  error_ : QuicErrorCode;
  buffer_ : list Z;
  state_ : CryptoFramerState;
  message_ : CryptoHandshakeMessage;
  num_entries_ : Z;
  tags_and_lengths_ : list (Z * Z);
  values_len_ : Z;
  process_truncated_messages_ : bool;
  calls : list call;
}.

Definition new (process_truncated_messages : bool) : t :=
  mk QUIC_NO_ERROR [] STATE_READING_TAG CryptoHandshakeMessage_new 0 [] 0 process_truncated_messages [].
Definition with_error (e : QuicErrorCode) (s : t) : t :=
  mk e (buffer_ s) (state_ s) (message_ s) (num_entries_ s) (tags_and_lengths_ s) (values_len_ s) (process_truncated_messages_ s) (calls s).
Definition with_buffer (b : list Z) (s : t) : t :=
  mk (error_ s) b (state_ s) (message_ s) (num_entries_ s) (tags_and_lengths_ s) (values_len_ s) (process_truncated_messages_ s) (calls s).
Definition with_message (st : CryptoFramerState) (m : CryptoHandshakeMessage) (s : t) : t :=
  mk (error_ s) (buffer_ s) st m (num_entries_ s) (tags_and_lengths_ s) (values_len_ s) (process_truncated_messages_ s) (calls s).
Definition with_num_entries (st : CryptoFramerState) (n values_len : Z) (s : t) : t :=
  mk (error_ s) (buffer_ s) st (message_ s) n (tags_and_lengths_ s) values_len (process_truncated_messages_ s) (calls s).
Definition with_tags (st : CryptoFramerState) (l : list (Z * Z)) (values_len : Z) (s : t) : t :=
  mk (error_ s) (buffer_ s) st (message_ s) (num_entries_ s) l values_len (process_truncated_messages_ s) (calls s).
Definition tell (c : call) (s : t) : t :=
  mk (error_ s) (buffer_ s) (state_ s) (message_ s) (num_entries_ s) (tags_and_lengths_ s) (values_len_ s)
    (process_truncated_messages_ s) (calls s ++ [c]).
Definition Clear (s : t) : t :=
  mk QUIC_NO_ERROR (buffer_ s) STATE_READING_TAG (Clear_message (message_ s)) (num_entries_ s) [] (values_len_ s)
    (process_truncated_messages_ s) (calls s).

(** A state of [Process]: it waits for more, returns an error, or falls through to the next state. *)
Inductive progress := Break (s : t) (r : Reader.t) | Return (e : QuicErrorCode) (s : t) | Through (s : t) (r : Reader.t).
Definition fall (p : progress) (f : t → Reader.t → progress) : progress :=
  match p with Through s r => f s r | _ => p end.

(** A read whose result the code does not check; the checks before make it succeed. *)
Definition get (a : Reader.action Z) (r : Reader.t) : Z * Reader.t := let '(x, r) := a r in (default 0 x, r).

Definition read_tag (s : t) (r : Reader.t) : progress :=
  if Reader.BytesRemaining r <? kQuicTagSize then Break s r else
  let '(tag, r) := get Reader.ReadTag r in
  Through (with_message STATE_READING_NUM_ENTRIES (set_tag tag (message_ s)) s) r.

Definition read_num_entries (s : t) (r : Reader.t) : progress :=
  if Reader.BytesRemaining r <? kNumEntriesSize + 2 then Break s r else
  let '(n, r) := get Reader.ReadUInt16 r in
  if kMaxEntries <? n then Return QUIC_CRYPTO_TOO_MANY_ENTRIES (with_num_entries (state_ s) n (values_len_ s) s) else
  let '(_, r) := get Reader.ReadUInt16 r in
  Through (with_num_entries STATE_READING_TAGS_AND_LENGTHS n 0 s) r.

(** The loop over the entries; [n] are left. The tags pushed, the last end offset, and the error if there is one. *)
Fixpoint read_entries (n : nat) (tags : list (Z * Z)) (last_end_offset : Z) (r : Reader.t)
    : QuicErrorCode * list (Z * Z) * Z * Reader.t :=
  match n with
  | O => (QUIC_NO_ERROR, tags, last_end_offset, r)
  | S n =>
      let '(tag, r) := get Reader.ReadTag r in
      let bad := match last tags with
                 | Some (prev, _) =>
                     if tag <=? prev then (if tag =? prev then QUIC_CRYPTO_DUPLICATE_TAG else QUIC_CRYPTO_TAGS_OUT_OF_ORDER)
                     else QUIC_NO_ERROR
                 | None => QUIC_NO_ERROR
                 end in
      if negb (bool_decide (bad = QUIC_NO_ERROR)) then (bad, tags, last_end_offset, r) else
      let '(end_offset, r) := get Reader.ReadUInt32 r in
      if end_offset <? last_end_offset then (QUIC_CRYPTO_TAGS_OUT_OF_ORDER, tags, last_end_offset, r)
      else read_entries n (tags ++ [(tag, wrap32 (end_offset - last_end_offset))]) end_offset r
  end.
Definition read_tags_and_lengths (s : t) (r : Reader.t) : progress :=
  if Reader.BytesRemaining r <? num_entries_ s * (kQuicTagSize + kCryptoEndOffsetSize) then Break s r else
  let '(e, tags, last_end_offset, r) := read_entries (Z.to_nat (num_entries_ s)) (tags_and_lengths_ s) 0 r in
  if negb (bool_decide (e = QUIC_NO_ERROR)) then Return e (with_tags (state_ s) tags (values_len_ s) s)
  else Through (with_tags STATE_READING_VALUES tags last_end_offset s) r.

Fixpoint read_values (items : list (Z * Z)) (m : CryptoHandshakeMessage) (r : Reader.t) : CryptoHandshakeMessage * Reader.t :=
  match items with
  | [] => (m, r)
  | (tag, len) :: items =>
      match Reader.ReadStringPiece len r with
      | (Some value, r) => read_values items (SetStringPiece tag value m) r
      | (None, r) => read_values items (SetStringPiece tag [] m) r
      end
  end.
Definition read_message (s : t) (r : Reader.t) : progress :=
  if (Reader.BytesRemaining r <? values_len_ s) && negb (process_truncated_messages_ s) then Break s r else
  let '(m, r) := read_values (tags_and_lengths_ s) (message_ s) r in
  Break (with_message STATE_READING_TAG (message_ (Clear s)) (Clear (tell (OnHandshakeMessage m) s))) r.

Definition Process (input : list Z) (s : t) : QuicErrorCode * t :=
  let s := with_buffer (buffer_ s ++ input) s in
  let r := Reader.new (buffer_ s) HOST_BYTE_ORDER in
  let p :=
    match state_ s with
    | STATE_READING_TAG => fall (fall (fall (read_tag s r) read_num_entries) read_tags_and_lengths) read_message
    | STATE_READING_NUM_ENTRIES => fall (fall (read_num_entries s r) read_tags_and_lengths) read_message
    | STATE_READING_TAGS_AND_LENGTHS => fall (read_tags_and_lengths s r) read_message
    | STATE_READING_VALUES => read_message s r
    end in
  match p with
  | Return e s => (e, s)
  | Break s r | Through s r => (QUIC_NO_ERROR, with_buffer (Reader.PeekRemainingPayload r) s)
  end.

Definition ProcessInput (input : list Z) (s : t) : bool * t :=
  if negb (bool_decide (error_ s = QUIC_NO_ERROR)) then (false, s) else
  let '(e, s) := Process input s in
  let s := with_error e s in
  if negb (bool_decide (e = QUIC_NO_ERROR)) then (false, tell (OnError e) s) else (true, s).

(** The pieces of a stream, to the first error. *)
Fixpoint ProcessAll (pieces : list (list Z)) (s : t) : bool * t :=
  match pieces with
  | [] => (true, s)
  | p :: pieces => let '(ok, s) := ProcessInput p s in if ok then ProcessAll pieces s else (false, s)
  end.

Definition InputBytesRemaining (s : t) : Z := zlen (buffer_ s).

Definition HasTag (s : t) (tag : Z) : bool :=
  match state_ s with STATE_READING_VALUES => existsb (λ e, e.1 =? tag) (tags_and_lengths_ s) | _ => false end.

Fixpoint force_values (items : list (Z * Z)) (m : CryptoHandshakeMessage) (r : Reader.t) : CryptoHandshakeMessage :=
  match items with
  | [] => m
  | (tag, len) :: items =>
      if Reader.BytesRemaining r <? len then m else
      let '(value, r) := Reader.ReadStringPiece len r in
      force_values items (SetStringPiece tag (default [] value) m) r
  end.
Definition ForceHandshake (s : t) : t :=
  let m := force_values (tags_and_lengths_ s) (message_ s) (Reader.new (buffer_ s) HOST_BYTE_ORDER) in
  tell (OnHandshakeMessage m) (with_message (state_ s) m s).

(** What [OneShotVisitor] recorded: the last message, and whether there was an error. *)
Definition recorded (l : list call) : option CryptoHandshakeMessage :=
  foldl (λ o c, match c with OnHandshakeMessage m => Some m | OnError _ => o end) None l.
Definition ParseMessage (input : list Z) : option CryptoHandshakeMessage :=
  let '(ok, s) := ProcessInput input (new false) in
  if negb ok || existsb (λ c, match c with OnError _ => true | _ => false end) (calls s) || negb (InputBytesRemaining s =? 0)
  then None else recorded (calls s).


(** ** The wire form *)

(** The entries [es] as tags and end offsets, the first offset being after [off], and as values. *)
Fixpoint index_bytes (es : QuicTagValueMap) (off : Z) : list Z :=
  match es with
  | [] => []
  | (tag, value) :: es =>
      le_bytes 4 tag ++ le_bytes 4 (off + zlen value) ++ index_bytes es (off + zlen value)
  end.
Definition values_bytes (es : QuicTagValueMap) : list Z := concat (map snd es).
Definition wire (tag : Z) (es : QuicTagValueMap) : list Z :=
  le_bytes 4 tag ++ le_bytes 2 (zlen es) ++ le_bytes 2 0 ++ index_bytes es 0 ++ values_bytes es.

(** Entries a message can have: tags in order, not too many, and offsets of 32 bits. *)
Definition tags_sorted (es : QuicTagValueMap) : Prop := StronglySorted (λ a b, a.1 < b.1) es.
Definition wf_entries (es : QuicTagValueMap) : Prop :=
  tags_sorted es ∧ Forall (λ e, is_u32 e.1) es ∧ zlen (values_bytes es) < 2 ^ 32 ∧ zlen es <= kMaxEntries.

Lemma values_bytes_cons tag value es : values_bytes ((tag, value) :: es) = value ++ values_bytes es.
Proof. reflexivity. Qed.

Lemma size_values m : size m = 8 + 8 * zlen (tag_value_map_ m) + zlen (values_bytes (tag_value_map_ m)).
Proof.
  unfold size. change kQuicTagSize with 4.
  assert (H : ∀ es : QuicTagValueMap, foldr (λ e n, zlen e.2 + n) 0 es = zlen (values_bytes es)).
  { induction es as [|[t v] es IH]; [done|]. cbn [foldr snd]. rewrite values_bytes_cons, zlen_app, IH. done. }
  rewrite H. lia.
Qed.

Lemma index_bytes_length es off : zlen (index_bytes es off) = 8 * zlen es.
Proof.
  revert off. induction es as [|[t v] es IH]; intros off; [done|]. cbn [index_bytes].
  rewrite !zlen_app, zlen_cons, IH. unfold zlen at 1 2. rewrite !le_bytes_length. lia.
Qed.

Lemma put_tag_values tag v es : find_tag tag es = None →
  zlen (put_tag tag v es) = 1 + zlen es ∧ zlen (values_bytes (put_tag tag v es)) = zlen v + zlen (values_bytes es).
Proof.
  induction es as [|[t w] es IH]; cbn [put_tag find_tag]; intros H.
  - rewrite values_bytes_cons, zlen_app. done.
  - destruct (Z.eqb_spec t tag) as [|Hne]; [discriminate|]. destruct (IH H) as [H1 H2].
    destruct (Z.ltb_spec tag t); [|destruct (Z.eqb_spec tag t); [lia|]];
      rewrite ?values_bytes_cons, ?zlen_app, ?zlen_cons, ?H1, ?H2; rewrite ?values_bytes_cons, ?zlen_app; lia.
Qed.

(** A tag after all the others goes to the end; one before all the others to the front. *)
Lemma put_tag_last tag v es : Forall (λ e, e.1 < tag) es → put_tag tag v es = es ++ [(tag, v)].
Proof.
  induction 1 as [|[t w] es H _ IH]; [done|]. cbn [put_tag app]. simpl in H.
  destruct (Z.ltb_spec tag t); [lia|]. destruct (Z.eqb_spec tag t); [lia|]. by rewrite IH.
Qed.

Lemma put_tag_in tag v es e : e ∈ put_tag tag v es → e = (tag, v) ∨ e ∈ es.
Proof.
  induction es as [|[t w] es IH]; cbn [put_tag]; [rewrite list_elem_of_singleton; auto|].
  destruct (tag <? t); [rewrite elem_of_cons; auto|].
  destruct (tag =? t); rewrite !elem_of_cons; [tauto|]. intros [->|H]; [auto|]. destruct (IH H); auto.
Qed.

Lemma put_tag_sorted tag v es : tags_sorted es → tags_sorted (put_tag tag v es).
Proof.
  unfold tags_sorted. induction 1 as [|[t w] es Hs IH Hall]; cbn [put_tag]; [repeat constructor|].
  destruct (Z.ltb_spec tag t).
  - constructor; [by constructor|]. constructor; [done|].
    eapply List.Forall_impl; [|exact Hall]. intros [a b]; simpl; lia.
  - destruct (Z.eqb_spec tag t) as [->|].
    + by constructor.
    + constructor; [done|]. apply Forall_forall. intros e He. destruct (put_tag_in _ _ _ _ He) as [->|He']; [simpl; lia|].
      by eapply (proj1 (Forall_forall _ _) Hall).
Qed.

(** A value set is the one got; the others stay. *)
Lemma find_put_tag tag tag' v es : tags_sorted es →
  find_tag tag' (put_tag tag v es) = if tag' =? tag then Some v else find_tag tag' es.
Proof.
  unfold tags_sorted. induction 1 as [|[t w] es Hs IH Hall]; cbn [put_tag find_tag].
  - rewrite (Z.eqb_sym tag' tag). by destruct (tag =? tag').
  - destruct (Z.ltb_spec tag t); [cbn [find_tag]; rewrite (Z.eqb_sym tag' tag); by destruct (tag =? tag')|].
    destruct (Z.eqb_spec tag t) as [->|Hne]; cbn [find_tag].
    + rewrite (Z.eqb_sym tag' t). by destruct (t =? tag').
    + rewrite IH. destruct (Z.eqb_spec t tag'), (Z.eqb_spec tag' tag); congruence.
Qed.

Lemma lor_shiftl a b n : 0 <= n → 0 <= a < 2 ^ n → Z.lor a (Z.shiftl b n) = a + b * 2 ^ n.
Proof.
  intros Hn Ha. rewrite <-Z.shiftl_mul_pow2, <-Z.add_lor_land by lia. assert (H : Z.land a (Z.shiftl b n) = 0); [|lia].
  apply Z.bits_inj'. intros i Hi. rewrite Z.land_spec, Z.bits_0. destruct (Z.lt_ge_cases i n).
  - rewrite Z.shiftl_spec_low by lia. apply andb_false_r.
  - rewrite <-(Z.mod_small a (2 ^ n)) by lia. rewrite Z.mod_pow2_bits_high by lia. done.
Qed.

(** [GetNthValue24] on a value made of items, each after its length in three bytes: every item is found, one past the end is
    not, and the rounds are enough. *)
Lemma nth_value24_items items i fuel :
  Forall (λ x, zlen x < 2 ^ 24) items → (length items < fuel)%nat →
  nth_value24 fuel i (concat (map (λ x, le_bytes 3 (zlen x) ++ x) items)) =
  match items !! i with Some x => (QUIC_NO_ERROR, x) | None => (QUIC_CRYPTO_MESSAGE_INDEX_NOT_FOUND, []) end.
Proof.
  revert i fuel. induction items as [|x items IH]; intros i fuel Hx Hf; destruct fuel as [|fuel]; cbn in Hf; try lia; [done|].
  apply Forall_cons in Hx as [Hx Hxs]. pose proof (zlen_nonneg x). cbn [map concat]. rewrite <-app_assoc.
  pose proof (le_val_bytes 3 (zlen x) ltac:(change (pow256 3) with (2 ^ 24); lia)) as Hval.
  destruct (le_bytes 3 (zlen x)) as [|b0 [|b1 [|b2 [|]]]] eqn:E;
    try (apply (f_equal length) in E; rewrite le_bytes_length in E; discriminate E).
  assert (Hb : bytes [b0; b1; b2]) by (rewrite <-E; apply le_bytes_bytes).
  assert (Hsize : Z.lor (Z.lor b0 (Z.shiftl b1 8)) (Z.shiftl b2 16) = zlen x).
  { rewrite <-Hval. rewrite !List.Forall_cons_iff in Hb. destruct Hb as (H0&H1&H2&_). cbn [le_val].
    rewrite (lor_shiftl b0), lor_shiftl by lia. lia. }
  cbn [nth_value24 app]. rewrite Hsize, zlen_app.
  pose proof (zlen_nonneg (concat (map (λ x, le_bytes 3 (zlen x) ++ x) items))).
  match goal with |- context [if ?b <? ?c then _ else _] => destruct (Z.ltb_spec b c); [lia|] end.
  replace (Z.to_nat (zlen x)) with (length x) by (unfold zlen; lia). destruct i as [|i]; cbn [lookup list_lookup]; [by rewrite take_app_length|].
  rewrite drop_app_length. apply IH; [done|lia].
Qed.

(** ** What the framer writes *)

Context {EL : EndianLaws}.

Lemma emits_uint n v : 0 <= v < pow256 n → WriterSpec.emits HOST_BYTE_ORDER (Writer.WriteUInt n v) (le_bytes n v).
Proof. intros Hv. exact (WriterSpec.emits_WriteUInt HOST_BYTE_ORDER n v Hv). Qed.

Lemma emits_entry tag off rest d : 0 <= off < 2 ^ 32 → WriterSpec.emits HOST_BYTE_ORDER rest d →
  WriterSpec.emits HOST_BYTE_ORDER (Writer.WriteTag tag &&& Writer.WriteUInt32 off &&& rest)
    (le_bytes 4 tag ++ le_bytes 4 off ++ d).
Proof.
  intros Hoff Hrest. rewrite app_assoc. apply WriterSpec.emits_andthen; [|done].
  apply WriterSpec.emits_andthen; [apply WriterSpec.emits_WriteBytes|]. by apply (emits_uint 4).
Qed.

Lemma wrap32_id z : 0 <= z < 2 ^ 32 → wrap32 z = z.
Proof. intros Hz. apply Z.mod_small. exact Hz. Qed.

(** The entries with the PAD tag put in where it goes. *)
Definition pad_entries (need : bool) (pad_length : Z) (es : QuicTagValueMap) : QuicTagValueMap :=
  if need then put_tag kPAD (replicate (Z.to_nat pad_length) dash) es else es.

Lemma zlen_replicate {A} n (x : A) : 0 <= n → zlen (replicate (Z.to_nat n) x) = n.
Proof. intros Hn. unfold zlen. rewrite length_replicate. lia. Qed.

Lemma write_index_spec es (need : bool) pad_length off :
  0 <= off → 0 <= pad_length →
  off + zlen (values_bytes es) + (if need then pad_length else 0) < 2 ^ 32 → (need = true → find_tag kPAD es = None) →
  ∃ a, write_index es need pad_length off = Some a
    ∧ WriterSpec.emits HOST_BYTE_ORDER a (index_bytes (pad_entries need pad_length es) off).
Proof.
  intros Hoff Hpad. revert need off Hoff. induction es as [|[tag value] es IH]; intros need off Hoff Hsum Hno.
  - exists (if need then WritePadTag pad_length off else Writer.ret true). split; [done|]. unfold pad_entries.
    change (zlen (values_bytes [])) with 0 in Hsum.
    destruct need; [|apply WriterSpec.emits_ret].
    cbn [put_tag index_bytes]. rewrite zlen_replicate, app_nil_r by done. unfold WritePadTag.
    replace (wrap32 (off + pad_length)) with (off + pad_length) by (symmetry; apply wrap32_id; lia).
    apply WriterSpec.emits_andthen; [apply WriterSpec.emits_WriteBytes|]. apply (emits_uint 4). change (pow256 4) with (2 ^ 32). lia.
  - rewrite values_bytes_cons, zlen_app in Hsum. pose proof (zlen_nonneg value). pose proof (zlen_nonneg (values_bytes es)).
    cbn [write_index].
    assert (Hwrap : ∀ x, 0 <= x <= off + zlen value + (if need then pad_length else 0) → wrap32 x = x) by (intros x Hx; apply wrap32_id; destruct need; lia).
    assert (Htag : (tag =? kPAD) && need = false).
    { destruct need; [|by rewrite andb_false_r]. specialize (Hno eq_refl). cbn [find_tag] in Hno.
      destruct (tag =? kPAD); [discriminate|done]. }
    rewrite Htag. destruct need; [|].
    + specialize (Hno eq_refl). cbn [find_tag] in Hno. destruct (Z.eqb_spec tag kPAD) as [|Hne]; [discriminate|].
      unfold pad_entries. cbn [put_tag]. rewrite andb_true_r. destruct (Z.ltb_spec kPAD tag) as [Hlt|Hlt].
      * destruct (IH false (off + pad_length + zlen value)) as (a&E&Ha); [lia|lia|done|].
        rewrite (Hwrap (off + pad_length)), Hwrap, E by lia. eexists. split; [done|]. unfold WritePadTag.
        rewrite Hwrap by lia. cbn [index_bytes]. rewrite zlen_replicate by done.
        apply emits_entry; [lia|]. apply emits_entry; [lia|done].
      * destruct (IH true (off + zlen value)) as (a&E&Ha); [lia|lia|done|]. rewrite Hwrap, E by lia.
        eexists. split; [done|]. destruct (Z.eqb_spec kPAD tag); [congruence|]. cbn [index_bytes]. by apply emits_entry; [lia|].
    + rewrite andb_false_r. destruct (IH false (off + zlen value)) as (a&E&Ha); [lia|lia|done|]. rewrite Hwrap, E by lia.
      eexists. split; [done|]. unfold pad_entries in *. cbn [index_bytes]. by apply emits_entry; [lia|].
Qed.

Lemma write_values_spec es need pad_length :
  0 <= pad_length → (need = true → find_tag kPAD es = None) →
  WriterSpec.emits HOST_BYTE_ORDER (write_values es need pad_length) (values_bytes (pad_entries need pad_length es)).
Proof.
  intros Hpad. revert need. induction es as [|[tag value] es IH]; intros need Hno; cbn [write_values].
  - destruct need; [|apply WriterSpec.emits_ret]. cbn [pad_entries put_tag]. rewrite values_bytes_cons, app_nil_r.
    by apply WriterSpec.emits_WriteRepeatedByte.
  - destruct need; unfold pad_entries.
    + specialize (Hno eq_refl). cbn [find_tag] in Hno. destruct (Z.eqb_spec tag kPAD) as [|Hne]; [discriminate|].
      rewrite andb_true_r. cbn [put_tag]. destruct (Z.ltb_spec kPAD tag).
      * rewrite !values_bytes_cons, app_assoc. apply WriterSpec.emits_andthen; [|by apply (IH false)].
        apply WriterSpec.emits_andthen; [by apply WriterSpec.emits_WriteRepeatedByte|apply WriterSpec.emits_WriteBytes].
      * destruct (Z.eqb_spec kPAD tag); [congruence|]. rewrite values_bytes_cons.
        apply WriterSpec.emits_andthen; [apply WriterSpec.emits_WriteBytes|by apply (IH true)].
    + rewrite andb_false_r, values_bytes_cons. apply WriterSpec.emits_andthen; [apply WriterSpec.emits_WriteBytes|by apply (IH false)].
Qed.

Lemma wire_length tag es : zlen (wire tag es) = 8 + 8 * zlen es + zlen (values_bytes es).
Proof.
  assert (Hle : ∀ n v, zlen (le_bytes n v) = Z.of_nat n) by (intros n v; unfold zlen; by rewrite le_bytes_length).
  unfold wire. rewrite !zlen_app, index_bytes_length, !Hle. lia.
Qed.

(** Writing to a buffer of just the length. *)
Lemma emits_fills a d : WriterSpec.emits HOST_BYTE_ORDER a d →
  ∃ w, a (Writer.new (length d) HOST_BYTE_ORDER) = (true, w) ∧ Writer.buffer w = d.
Proof.
  intros Ha. set (w := Writer.new _ _).
  assert (Hcap : Writer.remaining w = zlen d).
  { unfold w, Writer.remaining, Writer.capacity, Writer.new. cbn. unfold zlen. rewrite length_replicate. lia. }
  specialize (Ha w (WriterSpec.writer_new_wf _ _) eq_refl). destruct (a w) as [ok w']. destruct Ha as (_&Hc&_&_&->&Ha).
  destruct (Z.leb_spec (zlen d) (Writer.remaining w)); [|lia]. exists w'. split; [done|].
  destruct (Ha eq_refl) as [Hw Hl]. change (WriterSpec.written w) with (@nil Z) in Hw. change (Writer.length_ w) with 0 in Hl.
  rewrite app_nil_l in Hw. rewrite <-Hw. unfold WriterSpec.written. rewrite Hl. symmetry. apply take_ge.
  unfold Writer.remaining in Hcap. change (Writer.length_ w) with 0 in Hcap. unfold Writer.capacity, zlen in *. lia.
Qed.

(** ** What the framer reads *)

(** A reader of host integers with [d] left. *)
Definition at_bytes (r : Reader.t) (d : list Z) : Prop :=
  ReaderSpec.wf r ∧ Reader.endianness r = HOST_BYTE_ORDER ∧ ReaderSpec.rest r = d.

Lemma at_bytes_new d : at_bytes (Reader.new d HOST_BYTE_ORDER) d.
Proof. split; [apply ReaderSpec.reader_new_wf|]. split; [done|apply ReaderSpec.new_rest]. Qed.
Lemma at_bytes_remaining r d : at_bytes r d → Reader.BytesRemaining r = zlen d.
Proof. intros (Hw&_&<-). by rewrite ReaderSpec.rest_length. Qed.
Lemma at_bytes_peek r d : at_bytes r d → Reader.PeekRemainingPayload r = d.
Proof. by intros (_&_&Hr). Qed.

Lemma get_reads a d x r k : ReaderSpec.reads HOST_BYTE_ORDER a d x → at_bytes r (d ++ k) → ∃ r', get a r = (x, r') ∧ at_bytes r' k.
Proof.
  intros Ha (Hw&He&Hr). destruct (Ha r k Hw He Hr) as (r'&E&Hw'&Hr'&He'). exists r'. unfold get. by rewrite E.
Qed.
Lemma get_uint n v r k : 0 <= v < pow256 n → at_bytes r (le_bytes n v ++ k) → ∃ r', get (Reader.ReadUInt n) r = (v, r') ∧ at_bytes r' k.
Proof. intros Hv. apply get_reads. exact (ReaderSpec.reads_ReadUInt HOST_BYTE_ORDER n v Hv). Qed.
Lemma get_tag v r k : is_u32 v → at_bytes r (le_bytes 4 v ++ k) → ∃ r', get Reader.ReadTag r = (v, r') ∧ at_bytes r' k.
Proof. intros Hv. apply get_reads. by apply ReaderSpec.reads_ReadTag. Qed.

Definition lengths (es : QuicTagValueMap) : list (Z * Z) := map (λ e, (e.1, zlen e.2)) es.

Lemma read_entries_spec es es0 off r k :
  tags_sorted (es0 ++ es) → Forall (λ e, is_u32 e.1) es → 0 <= off → off + zlen (values_bytes es) < 2 ^ 32 →
  at_bytes r (index_bytes es off ++ k) →
  ∃ r', read_entries (length es) (lengths es0) off r = (QUIC_NO_ERROR, lengths (es0 ++ es), off + zlen (values_bytes es), r')
    ∧ at_bytes r' k.
Proof.
  revert es0 off r. induction es as [|[tag value] es IH]; intros es0 off r Hs Htags Hoff Hsum Hr.
  { exists r. change (zlen (values_bytes [])) with 0. cbn [read_entries length]. by rewrite app_nil_r, Z.add_0_r. }
  apply Forall_cons in Htags as [Htag Htags]. cbn [fst] in Htag. rewrite values_bytes_cons, zlen_app in *.
  pose proof (zlen_nonneg value). pose proof (zlen_nonneg (values_bytes es)).
  cbn [length read_entries index_bytes] in *. rewrite <-!app_assoc in Hr.
  destruct (get_tag _ _ _ Htag Hr) as (r1&->&Hr1).
  assert (Hbad : match last (lengths es0) with
                 | Some (prev, _) =>
                     if tag <=? prev then (if tag =? prev then QUIC_CRYPTO_DUPLICATE_TAG else QUIC_CRYPTO_TAGS_OUT_OF_ORDER)
                     else QUIC_NO_ERROR
                 | None => QUIC_NO_ERROR
                 end = QUIC_NO_ERROR).
  { destruct (list_snoc_cases es0) as [->|(es1&[t v]&->)]; [done|]. unfold lengths. rewrite map_app.
    cbn [map fst snd]. rewrite last_app_singleton. apply strongly_sorted_app in Hs as (_&_&Hs).
    specialize (Hs (t, v) (tag, value)). cbn [fst] in Hs. destruct (Z.leb_spec tag t); [|done].
    assert (t < tag); [|lia]. apply Hs; [apply elem_of_app; right; by apply list_elem_of_singleton|by apply elem_of_cons; left]. }
  rewrite Hbad. cbn [negb]. rewrite bool_decide_eq_true_2 by done. cbn [negb].
  destruct (get_uint 4 (off + zlen value) r1 _ ltac:(change (pow256 4) with (2 ^ 32); lia) Hr1) as (r2&E2&Hr2).
  unfold Reader.ReadUInt32. rewrite E2. destruct (Z.ltb_spec (off + zlen value) off); [lia|].
  rewrite wrap32_id by lia. replace (off + zlen value - off) with (zlen value) by lia.
  destruct (IH (es0 ++ [(tag, value)]) (off + zlen value) r2) as (r3&E3&Hr3); try done; try lia.
  { by rewrite <-app_assoc. }
  exists r3. split; [|done]. rewrite <-app_assoc in E3. cbn [app] in E3. rewrite Z.add_assoc, <-E3.
  f_equal. unfold lengths. by rewrite map_app.
Qed.

Lemma read_values_spec es es0 tag r k :
  tags_sorted (es0 ++ es) → at_bytes r (values_bytes es ++ k) →
  ∃ r', read_values (lengths es) (mk_message tag es0 0 None) r = (mk_message tag (es0 ++ es) 0 None, r') ∧ at_bytes r' k.
Proof.
  revert es0 r. induction es as [|[t v] es IH]; intros es0 r Hs Hr.
  { exists r. by rewrite app_nil_r. }
  rewrite values_bytes_cons, <-app_assoc in Hr. destruct Hr as (Hw&He&Hr).
  destruct (ReaderSpec.reads_ReadStringPiece HOST_BYTE_ORDER v r _ Hw He Hr) as (r1&E1&Hr1). cbn [lengths map read_values fst snd].
  rewrite E1. unfold SetStringPiece, set_map. cbn [tag_ tag_value_map_ minimum_size_ serialized_].
  rewrite put_tag_last.
  - destruct (IH (es0 ++ [(t, v)]) r1) as (r2&E2&Hr2).
    + by rewrite <-app_assoc.
    + unfold at_bytes. tauto.
    + exists r2. rewrite <-app_assoc in E2. done.
  - apply strongly_sorted_app in Hs as (_&_&Hs). apply Forall_forall. intros e He0.
    apply (Hs e (t, v)); [done|by apply elem_of_cons; left].
Qed.

(** ** In pieces *)

(** [x] is the first part of [rem], of which [w] is still to come, or all of it and [extra] after it. *)
Definition covers (x w rem extra : list Z) : Prop := x ++ w = rem ++ extra ∧ (w = [] ∨ extra = []).

Lemma covers_short d x w rem extra : covers x w (d ++ rem) extra → zlen x < zlen d → w ≠ [] ∧ extra = [] ∧ x ++ w = d ++ rem.
Proof.
  intros [E Hor] Hlt. assert (Hw : w ≠ []).
  { intros ->. apply (f_equal zlen) in E. rewrite !zlen_app, (@zlen_nil Z) in E.
    pose proof (zlen_nonneg rem). pose proof (zlen_nonneg extra). lia. }
  destruct Hor as [| ->]; [done|]. by rewrite app_nil_r in E.
Qed.

Lemma covers_cut d x w rem extra : covers x w (d ++ rem) extra → zlen d <= zlen x → ∃ x', x = d ++ x' ∧ covers x' w rem extra.
Proof.
  intros [E Hor] Hle. exists (drop (length d) x). rewrite <-app_assoc in E.
  assert (Hd : take (length d) x = d).
  { apply (f_equal (take (length d))) in E. rewrite take_app_length, take_app_le in E by (unfold zlen in *; lia). done. }
  assert (Hx : x = d ++ drop (length d) x) by (rewrite <-Hd at 1; by rewrite take_drop).
  split; [done|]. split; [|done]. rewrite Hx, <-app_assoc in E. by apply app_inv_head in E.
Qed.

(** Where the framer is in a message, and what of it, beginning with the state's own part, it has not taken. *)
Definition waiting (tag : Z) (es : QuicTagValueMap) (s : t) (rem : list Z) : Prop :=
  error_ s = QUIC_NO_ERROR ∧ process_truncated_messages_ s = false ∧
  match state_ s with
  | STATE_READING_TAG => message_ s = CryptoHandshakeMessage_new ∧ tags_and_lengths_ s = [] ∧ rem = wire tag es
  | STATE_READING_NUM_ENTRIES =>
      message_ s = mk_message tag [] 0 None ∧ tags_and_lengths_ s = []
      ∧ rem = (le_bytes 2 (zlen es) ++ le_bytes 2 0) ++ index_bytes es 0 ++ values_bytes es
  | STATE_READING_TAGS_AND_LENGTHS =>
      message_ s = mk_message tag [] 0 None ∧ tags_and_lengths_ s = [] ∧ num_entries_ s = zlen es
      ∧ rem = index_bytes es 0 ++ values_bytes es
  | STATE_READING_VALUES =>
      message_ s = mk_message tag [] 0 None ∧ tags_and_lengths_ s = lengths es
      ∧ values_len_ s = zlen (values_bytes es) ∧ rem = values_bytes es
  end.
Definition delivered (m : CryptoHandshakeMessage) (s s' : t) : Prop :=
  error_ s' = QUIC_NO_ERROR ∧ process_truncated_messages_ s' = false ∧ state_ s' = STATE_READING_TAG
  ∧ message_ s' = CryptoHandshakeMessage_new ∧ tags_and_lengths_ s' = [] ∧ calls s' = calls s ++ [OnHandshakeMessage m].

(** What processing comes to. *)
Definition result (tag : Z) (es : QuicTagValueMap) (p : progress) (s : t) (w extra : list Z) : Prop :=
  ∃ s' r' x', p = Break s' r' ∧ at_bytes r' x' ∧
  if bool_decide (w = []) then x' = extra ∧ delivered (mk_message tag es 0 None) s s'
  else calls s' = calls s ∧ waiting tag es s' (x' ++ w).
(** What one state comes to, before the next state [st]. *)
Definition advance (tag : Z) (es : QuicTagValueMap) (st : CryptoFramerState) (p : progress) (s : t) (w extra : list Z) : Prop :=
  result tag es p s w extra
  ∨ ∃ s' r' x' rem', p = Through s' r' ∧ at_bytes r' x' ∧ waiting tag es s' rem' ∧ state_ s' = st ∧ covers x' w rem' extra
    ∧ calls s' = calls s.

Lemma result_break tag es s r x w extra rem : waiting tag es s rem → at_bytes r x → w ≠ [] → x ++ w = rem → result tag es (Break s r) s w extra.
Proof. intros Hs Hr Hw <-. exists s, r, x. rewrite bool_decide_eq_false_2 by done. done. Qed.

Section message.
Variables (tag : Z) (es : QuicTagValueMap).
Hypotheses (Htag : is_u32 tag) (Hes : wf_entries es).

Lemma read_message_stage s r x rem w extra :
  waiting tag es s rem → state_ s = STATE_READING_VALUES → at_bytes r x → covers x w rem extra → result tag es (read_message s r) s w extra.
Proof.
  intros Hs Hst Hr Hc. pose proof Hs as (He&Htr&Hs'). rewrite Hst in Hs'. destruct Hs' as (Hm&Htl&Hl&->).
  unfold read_message. rewrite (at_bytes_remaining _ _ Hr), Hl, Htr, andb_true_r, Htl, Hm.
  rewrite <-(app_nil_r (values_bytes es)) in Hc. destruct (Z.ltb_spec (zlen x) (zlen (values_bytes es))) as [Hlt|Hge].
  - destruct (covers_short _ _ _ _ _ Hc Hlt) as (Hw&_&E). rewrite app_nil_r in E. by eapply result_break.
  - destruct (covers_cut _ _ _ _ _ Hc Hge) as (x'&->&[E Hor]).
    destruct (read_values_spec es [] tag r x') as (r'&E'&Hr'); [apply Hes|done|]. rewrite E'.
    exists (with_message STATE_READING_TAG (message_ (Clear s)) (Clear (tell (OnHandshakeMessage (mk_message tag es 0 None)) s))), r', x'.
    assert (Hwe : w = [] ∧ x' = extra).
    { cbn [app] in E. destruct Hor as [-> | ->]; [by rewrite app_nil_r in E|]. by apply app_eq_nil in E as [-> ->]. }
    destruct Hwe as [-> ->]. split; [done|]. split; [done|]. rewrite bool_decide_eq_true_2 by done. done.
Qed.

Lemma read_tags_stage s r x rem w extra :
  waiting tag es s rem → state_ s = STATE_READING_TAGS_AND_LENGTHS → at_bytes r x → covers x w rem extra →
  advance tag es STATE_READING_VALUES (read_tags_and_lengths s r) s w extra.
Proof.
  intros Hs Hst Hr Hc. pose proof Hs as (He&Htr&Hs'). rewrite Hst in Hs'. destruct Hs' as (Hm&Htl&Hn&->).
  unfold read_tags_and_lengths. rewrite (at_bytes_remaining _ _ Hr), Hn, Htl. change (kQuicTagSize + kCryptoEndOffsetSize) with 8.
  pose proof (index_bytes_length es 0) as Hlen. destruct (Z.ltb_spec (zlen x) (zlen es * 8)) as [Hlt|Hge].
  - left. destruct (covers_short _ _ _ _ _ Hc ltac:(lia)) as (Hw&_&E). by eapply result_break.
  - right. destruct (covers_cut _ _ _ _ _ Hc ltac:(lia)) as (x'&->&Hc'). destruct Hes as (Hso&Hu&Hv&_).
    destruct (read_entries_spec es [] 0 r x' Hso Hu ltac:(lia) ltac:(lia) Hr) as (r'&E&Hr').
    unfold zlen at 1. rewrite Nat2Z.id. cbn [lengths map] in E. rewrite E. cbn [app]. rewrite bool_decide_eq_true_2 by done. cbn [negb].
    eexists _, r', x', _. split; [done|]. split; [done|]. unfold waiting. cbn. rewrite Hm. done.
Qed.

Lemma read_num_stage s r x rem w extra :
  waiting tag es s rem → state_ s = STATE_READING_NUM_ENTRIES → at_bytes r x → covers x w rem extra →
  advance tag es STATE_READING_TAGS_AND_LENGTHS (read_num_entries s r) s w extra.
Proof.
  intros Hs Hst Hr Hc. pose proof Hs as (He&Htr&Hs'). rewrite Hst in Hs'. destruct Hs' as (Hm&Htl&->).
  unfold read_num_entries. rewrite (at_bytes_remaining _ _ Hr). change (kNumEntriesSize + 2) with 4.
  assert (Hlen : zlen (le_bytes 2 (zlen es) ++ le_bytes 2 0) = 4) by (unfold zlen; by rewrite length_app, !le_bytes_length).
  destruct (Z.ltb_spec (zlen x) 4) as [Hlt|Hge].
  - left. destruct (covers_short _ _ _ _ _ Hc ltac:(lia)) as (Hw&_&E). by eapply result_break.
  - right. destruct (covers_cut _ _ _ _ _ Hc ltac:(lia)) as (x'&->&Hc'). destruct Hes as (_&_&_&Hn). unfold kMaxEntries in Hn.
    rewrite <-app_assoc in Hr. pose proof (zlen_nonneg es).
    destruct (get_uint 2 (zlen es) r _ ltac:(change (pow256 2) with 65536; lia) Hr) as (r1&E1&Hr1).
    destruct (get_uint 2 0 r1 _ ltac:(change (pow256 2) with 65536; lia) Hr1) as (r2&E2&Hr2).
    unfold Reader.ReadUInt16. rewrite E1, E2. unfold kMaxEntries. destruct (Z.ltb_spec 128 (zlen es)); [lia|].
    eexists _, r2, x', _. split; [done|]. split; [done|]. unfold waiting. cbn. rewrite Hm, Htl. done.
Qed.

Lemma read_tag_stage s r x rem w extra :
  waiting tag es s rem → state_ s = STATE_READING_TAG → at_bytes r x → covers x w rem extra →
  advance tag es STATE_READING_NUM_ENTRIES (read_tag s r) s w extra.
Proof.
  intros Hs Hst Hr Hc. pose proof Hs as (He&Htr&Hs'). rewrite Hst in Hs'. destruct Hs' as (Hm&Htl&->).
  unfold read_tag. rewrite (at_bytes_remaining _ _ Hr). unfold kQuicTagSize.
  assert (Hlen : zlen (le_bytes 4 tag) = 4) by (unfold zlen; by rewrite le_bytes_length).
  unfold wire in Hc. destruct (Z.ltb_spec (zlen x) 4) as [Hlt|Hge].
  - left. destruct (covers_short _ _ _ _ _ Hc ltac:(lia)) as (Hw&_&E). by eapply result_break.
  - right. destruct (covers_cut _ _ _ _ _ Hc ltac:(lia)) as (x'&->&Hc').
    destruct (get_tag _ _ _ Htag Hr) as (r1&->&Hr1). rewrite app_assoc in Hc'.
    eexists _, r1, x', _. split; [done|]. split; [done|]. unfold waiting. cbn. rewrite Hm, Htl. done.
Qed.

(** Between messages. *)
Definition idle (s : t) : Prop :=
  error_ s = QUIC_NO_ERROR ∧ process_truncated_messages_ s = false ∧ state_ s = STATE_READING_TAG
  ∧ message_ s = CryptoHandshakeMessage_new ∧ tags_and_lengths_ s = [].

Lemma fall_advance st p s w extra (f : t → Reader.t → progress) (g : progress → Prop) :
  advance tag es st p s w extra →
  (∀ s' r', result tag es (Break s' r') s w extra → g (Break s' r')) →
  (∀ s' r' x' rem', at_bytes r' x' → waiting tag es s' rem' → state_ s' = st → covers x' w rem' extra → calls s' = calls s → g (f s' r')) →
  g (fall p f).
Proof.
  intros [H|(s'&r'&x'&rem'&->&H)] Hres Hf; [|apply (Hf s' r' x' rem'); tauto].
  pose proof H as (s'&r'&x'&E&_). rewrite E in *. cbn [fall]. by apply Hres.
Qed.

Lemma result_calls p s s0 w extra : calls s = calls s0 → result tag es p s w extra → result tag es p s0 w extra.
Proof.
  intros Hc (s'&r'&x'&->&Hr&H). exists s', r', x'. split; [done|]. split; [done|]. destruct (bool_decide _).
  - destruct H as [-> H]. split; [done|]. unfold delivered in *. by rewrite <-Hc.
  - by rewrite <-Hc.
Qed.

Lemma from_tags s r x rem w extra :
  waiting tag es s rem → state_ s = STATE_READING_TAGS_AND_LENGTHS → at_bytes r x → covers x w rem extra →
  result tag es (fall (read_tags_and_lengths s r) read_message) s w extra.
Proof.
  intros Hs Hst Hr Hc. eapply (fall_advance _ _ s w extra read_message (λ p, result tag es p s w extra)); [by eapply read_tags_stage|done|].
  intros s' r' x' rem' Hr' Hs' Hst' Hc' Hcalls. eapply result_calls; [exact Hcalls|]. by eapply read_message_stage.
Qed.
Lemma from_num s r x rem w extra :
  waiting tag es s rem → state_ s = STATE_READING_NUM_ENTRIES → at_bytes r x → covers x w rem extra →
  result tag es (fall (fall (read_num_entries s r) read_tags_and_lengths) read_message) s w extra.
Proof.
  intros Hs Hst Hr Hc. eapply (fall_advance _ _ s w extra read_tags_and_lengths (λ p, result tag es (fall p read_message) s w extra));
    [by eapply read_num_stage| |].
  - done.
  - intros s' r' x' rem' Hr' Hs' Hst' Hc' Hcalls. eapply result_calls; [exact Hcalls|]. by eapply from_tags.
Qed.
Lemma from_tag s r x rem w extra :
  waiting tag es s rem → state_ s = STATE_READING_TAG → at_bytes r x → covers x w rem extra →
  result tag es (fall (fall (fall (read_tag s r) read_num_entries) read_tags_and_lengths) read_message) s w extra.
Proof.
  intros Hs Hst Hr Hc.
  eapply (fall_advance _ _ s w extra read_num_entries (λ p, result tag es (fall (fall p read_tags_and_lengths) read_message) s w extra));
    [by eapply read_tag_stage| |].
  - done.
  - intros s' r' x' rem' Hr' Hs' Hst' Hc' Hcalls. eapply result_calls; [exact Hcalls|]. by eapply from_num.
Qed.

(** One call, in any state. *)
Lemma ProcessInput_hears s input rem w extra :
  waiting tag es s rem → covers (buffer_ s ++ input) w rem extra →
  ∃ s', ProcessInput input s = (true, s') ∧
  if bool_decide (w = []) then buffer_ s' = extra ∧ delivered (mk_message tag es 0 None) s s'
  else calls s' = calls s ∧ waiting tag es s' (buffer_ s' ++ w).
Proof.
  intros Hs Hc. set (s1 := with_buffer (buffer_ s ++ input) s).
  assert (Hs1 : waiting tag es s1 rem) by exact Hs.
  set (r := Reader.new (buffer_ s ++ input) HOST_BYTE_ORDER). assert (Hr : at_bytes r (buffer_ s ++ input)) by apply at_bytes_new.
  assert (H : ∃ s' , Process input s = (QUIC_NO_ERROR, s') ∧
    if bool_decide (w = []) then buffer_ s' = extra ∧ delivered (mk_message tag es 0 None) s s'
    else calls s' = calls s ∧ waiting tag es s' (buffer_ s' ++ w)).
  { set (p := match state_ s1 with
      | STATE_READING_TAG => fall (fall (fall (read_tag s1 r) read_num_entries) read_tags_and_lengths) read_message
      | STATE_READING_NUM_ENTRIES => fall (fall (read_num_entries s1 r) read_tags_and_lengths) read_message
      | STATE_READING_TAGS_AND_LENGTHS => fall (read_tags_and_lengths s1 r) read_message
      | STATE_READING_VALUES => read_message s1 r
      end).
    assert (Hp : result tag es p s1 w extra).
    { unfold p. destruct (state_ s1) eqn:Hst; [by eapply from_tag|by eapply from_num|by eapply from_tags|by eapply read_message_stage]. }
    destruct Hp as (s'&r'&x'&E&Hr'&Hres). exists (with_buffer x' s').
    split; [|destruct (bool_decide _); exact Hres].
    change (Process input s) with (match p with
      | Return e s => (e, s) | Break s r | Through s r => (QUIC_NO_ERROR, with_buffer (Reader.PeekRemainingPayload r) s) end).
    rewrite E. by rewrite (at_bytes_peek _ _ Hr'). }
  destruct H as (s'&E&H). exists (with_error QUIC_NO_ERROR s'). split.
  - unfold ProcessInput. destruct Hs as (->&_). rewrite E. done.
  - destruct (bool_decide _); destruct H as [H (He&H')]; unfold delivered, waiting; split; try exact H; split; done.
Qed.

(** Pieces that do not finish the message. *)
Lemma ProcessAll_waits ps : ∀ s rem w extra,
  waiting tag es s rem → covers (buffer_ s ++ concat ps) w rem extra → w ≠ [] →
  ∃ s', ProcessAll ps s = (true, s') ∧ calls s' = calls s ∧ waiting tag es s' (buffer_ s' ++ w).
Proof.
  induction ps as [|p ps IH]; intros s rem w extra Hs [E Hor] Hw.
  - exists s. cbn [concat] in E. rewrite app_nil_r in E. split; [done|]. split; [done|].
    destruct Hor as [| ->]; [done|]. rewrite app_nil_r in E. by rewrite E.
  - cbn [concat] in E. assert (Hc : covers (buffer_ s ++ p) (concat ps ++ w) rem extra).
    { split; [by rewrite <-E, <-!app_assoc|]. destruct Hor; [done|by right]. }
    destruct (ProcessInput_hears s p rem _ _ Hs Hc) as (s1&E1&H1). rewrite bool_decide_eq_false_2 in H1.
    2:{ intros Hnil. apply app_eq_nil in Hnil as [_ Hnil]. done. }
    destruct H1 as [Hcalls H1]. destruct (IH s1 (buffer_ s1 ++ concat ps ++ w) w []) as (s2&E2&Hcalls2&H2); try done.
    { split; [by rewrite app_nil_r, <-app_assoc|by right]. }
    exists s2. cbn [ProcessAll]. rewrite E1. split; [done|]. split; [congruence|done].
Qed.

Lemma idle_waiting s : idle s → waiting tag es s (wire tag es).
Proof. intros (?&?&Hst&?&?). unfold waiting. by rewrite Hst. Qed.
End message.

(** C22. However the bytes of a message come in, the framer tells of that message once, when its last byte comes, and keeps
    what follows for the next one. *)
Theorem handshake_in_any_pieces s tag es ps p extra :
  idle s → is_u32 tag → wf_entries es →
  buffer_ s ++ concat ps ++ p = wire tag es ++ extra → zlen (buffer_ s ++ concat ps) < zlen (wire tag es) →
  ∃ s1 s2,
    ProcessAll ps s = (true, s1) ∧ calls s1 = calls s
    ∧ ProcessInput p s1 = (true, s2) ∧ calls s2 = calls s ++ [OnHandshakeMessage (mk_message tag es 0 None)]
    ∧ buffer_ s2 = extra ∧ idle s2.
Proof.
  intros Hs Htag Hes E Hlt. pose proof (idle_waiting tag es s Hs) as Hw.
  set (w := drop (length (buffer_ s ++ concat ps)) (wire tag es)). rewrite app_assoc in E.
  assert (Hwire : (buffer_ s ++ concat ps) ++ w = wire tag es ∧ w ≠ [] ∧ p = w ++ extra).
  { assert (Hw1 : (buffer_ s ++ concat ps) ++ w = wire tag es).
    { unfold w. apply (f_equal (take (length (buffer_ s ++ concat ps)))) in E as E'.
      rewrite take_app_length, take_app_le in E' by (unfold zlen in *; lia). rewrite E' at 1. by rewrite take_drop. }
    split; [done|]. split.
    - intros Hnil. rewrite Hnil, app_nil_r in Hw1. rewrite Hw1 in Hlt. lia.
    - rewrite <-Hw1, <-(app_assoc _ w) in E. by apply app_inv_head in E. }
  destruct Hwire as (Hwire&Hne&Hp).
  destruct (ProcessAll_waits tag es Htag Hes ps s (wire tag es) w []) as (s1&E1&Hc1&H1); try done.
  { split; [by rewrite app_nil_r|by right]. }
  destruct (ProcessInput_hears tag es Htag Hes s1 p _ [] extra H1) as (s2&E2&H2).
  { split; [by rewrite Hp, app_nil_r, <-app_assoc|by left]. }
  rewrite bool_decide_eq_true_2 in H2 by done. destruct H2 as (Hb&He2&Ht2&Hst2&Hm2&Hl2&Hc2).
  exists s1, s2. rewrite Hc2, Hc1. done.
Qed.

(** ** Round trip *)

(** The PAD tag that a message gets: whether, and how long. *)
Definition need_pad (m : CryptoHandshakeMessage) : bool := size m <? minimum_size_ m.
Definition pad_length (m : CryptoHandshakeMessage) : Z := if need_pad m then Z.max 0 (minimum_size_ m - size m - 8) else 0.
Definition message_ok (m : CryptoHandshakeMessage) : Prop :=
  is_u32 (tag_ m) ∧ tags_sorted (tag_value_map_ m) ∧ Forall (λ e, is_u32 e.1) (tag_value_map_ m)
  ∧ zlen (tag_value_map_ m) + (if need_pad m then 1 else 0) <= kMaxEntries
  ∧ size m < 2 ^ 32 ∧ minimum_size_ m < 2 ^ 32 ∧ (need_pad m = true → HasStringPiece m kPAD = false).

Lemma message_ok_entries m : message_ok m → wf_entries (pad_entries (need_pad m) (pad_length m) (tag_value_map_ m)).
Proof.
  intros (Htag&Hs&Hu&Hn&Hsize&Hmin&Hpad). rewrite size_values in Hsize. pose proof (zlen_nonneg (tag_value_map_ m)).
  unfold pad_length. pose proof (size_values m). destruct (need_pad m) eqn:Hneed; cbn [pad_entries].
  - specialize (Hpad eq_refl). unfold HasStringPiece in Hpad. destruct (find_tag _ _) eqn:Hf; [discriminate|].
    destruct (put_tag_values kPAD (replicate (Z.to_nat (Z.max 0 (minimum_size_ m - size m - 8))) dash) _ Hf) as [H1 H2].
    rewrite zlen_replicate in H2 by lia.
    split; [by apply put_tag_sorted|]. split; [|split; [lia|lia]].
    apply Forall_forall. intros e He. destruct (put_tag_in _ _ _ _ He) as [->|He']; [done|]. by eapply (proj1 (Forall_forall _ _) Hu).
  - split; [done|]. split; [done|]. split; lia.
Qed.

Lemma ConstructHandshakeMessage_spec m : message_ok m →
  ConstructHandshakeMessage m = Some (wire (tag_ m) (pad_entries (need_pad m) (pad_length m) (tag_value_map_ m))).
Proof.
  intros Hm. pose proof (message_ok_entries m Hm) as (_&_&Htotal&_). destruct Hm as (Htag&Hs&Hu&Hn&Hsize&Hmin&Hpad).
  pose proof (zlen_nonneg (tag_value_map_ m)) as Hn0. set (es := tag_value_map_ m) in *.
  assert (Hno : need_pad m = true → find_tag kPAD es = None).
  { intros Hneed. specialize (Hpad Hneed). unfold HasStringPiece in Hpad. fold es in Hpad. by destruct (find_tag kPAD es). }
  assert (Hpl : 0 <= pad_length m) by (unfold pad_length; destruct (need_pad m); lia).
  assert (Hlen : zlen (pad_entries (need_pad m) (pad_length m) es) = zlen es + (if need_pad m then 1 else 0)
    ∧ zlen (values_bytes (pad_entries (need_pad m) (pad_length m) es)) = zlen (values_bytes es) + pad_length m).
  { unfold pad_entries, pad_length in *. destruct (need_pad m); [|lia]. destruct (put_tag_values kPAD (replicate (Z.to_nat (Z.max 0 (minimum_size_ m - size m - 8))) dash) es (Hno eq_refl)) as [-> ->].
    rewrite zlen_replicate by lia. lia. }
  destruct Hlen as [Hlen1 Hlen2]. unfold ConstructHandshakeMessage. fold es. fold (need_pad m).
  change (kQuicTagSize + kCryptoEndOffsetSize) with 8.
  assert (Hpleq : (if need_pad m && (8 <? minimum_size_ m - size m) then minimum_size_ m - size m - 8 else 0) = pad_length m).
  { unfold pad_length. destruct (need_pad m); [|done]. cbn [andb]. destruct (Z.ltb_spec 8 (minimum_size_ m - size m)); lia. }
  rewrite Hpleq. unfold kMaxEntries in *. destruct (Z.ltb_spec 128 (zlen es + (if need_pad m then 1 else 0))); [lia|].
  destruct (write_index_spec es (need_pad m) (pad_length m) 0 ltac:(lia) Hpl) as (a&->&Ha); [|done|].
  { unfold pad_length in *. destruct (need_pad m); lia. }
  set (d := wire (tag_ m) (pad_entries (need_pad m) (pad_length m) es)).
  assert (Hd : size m + (if need_pad m then 8 + pad_length m else 0) = zlen d).
  { unfold d. rewrite wire_length, Hlen1, Hlen2, size_values. fold es. unfold pad_length. destruct (need_pad m); lia. }
  rewrite Hd. unfold zlen at 2. rewrite Nat2Z.id.
  match goal with |- (let '(_, _) := ?b _ in _) = _ => assert (Hb : WriterSpec.emits HOST_BYTE_ORDER b d) end.
  { unfold d, wire. rewrite !app_assoc. rewrite Hlen1. repeat apply WriterSpec.emits_andthen.
    - apply WriterSpec.emits_WriteBytes.
    - unfold wrap16. rewrite Z.mod_small by (change two16 with 65536; destruct (need_pad m); lia). apply (emits_uint 2).
      change (pow256 2) with 65536. destruct (need_pad m); lia.
    - by apply (emits_uint 2).
    - exact Ha.
    - by apply write_values_spec. }
  destruct (emits_fills _ _ Hb) as (w&->&->). done.
Qed.

Lemma ParseMessage_wire tag es : is_u32 tag → wf_entries es → ParseMessage (wire tag es) = Some (mk_message tag es 0 None).
Proof.
  intros Htag Hes. destruct (ProcessInput_hears tag es Htag Hes (new false) (wire tag es) _ [] [] (idle_waiting _ _ (new false) ltac:(done)))
    as (s'&E&H).
  { split; [by rewrite !app_nil_r|by left]. }
  rewrite bool_decide_eq_true_2 in H by done. destruct H as (Hb&_&_&_&_&_&Hc).
  unfold ParseMessage. rewrite E, Hc. unfold InputBytesRemaining. rewrite Hb. reflexivity.
Qed.

(** C23. A message of a limited size, and with room for a PAD tag if it needs one, is serialized in at least its minimum size,
    and exactly its own size when that is enough; parsing the bytes gives back the tag and the values, and the padding as a
    value of its own. *)
Theorem handshake_message_roundtrip m :
  message_ok m →
  ∃ bytes, ConstructHandshakeMessage m = Some bytes
    ∧ minimum_size_ m <= zlen bytes ∧ (minimum_size_ m <= size m → zlen bytes = size m)
    ∧ ParseMessage bytes = Some (mk_message (tag_ m)
        (if size m <? minimum_size_ m
         then put_tag kPAD (replicate (Z.to_nat (minimum_size_ m - size m - 8)) dash) (tag_value_map_ m)
         else tag_value_map_ m) 0 None).
Proof.
  intros Hm. rewrite (ConstructHandshakeMessage_spec m Hm). pose proof (message_ok_entries m Hm) as Hes.
  set (es := pad_entries (need_pad m) (pad_length m) (tag_value_map_ m)) in *.
  exists (wire (tag_ m) es). split; [done|]. rewrite wire_length.
  assert (Hlen : minimum_size_ m <= 8 + 8 * zlen es + zlen (values_bytes es)
    ∧ (minimum_size_ m <= size m → 8 + 8 * zlen es + zlen (values_bytes es) = size m)
    ∧ es = (if size m <? minimum_size_ m
         then put_tag kPAD (replicate (Z.to_nat (minimum_size_ m - size m - 8)) dash) (tag_value_map_ m)
         else tag_value_map_ m)).
  { destruct Hm as (_&_&_&_&_&_&Hpad). pose proof (size_values m). unfold es, pad_length, need_pad, HasStringPiece in *.
    destruct (Z.ltb_spec (size m) (minimum_size_ m)); [|cbn [pad_entries]; split; [lia|]; split; [lia|done]].
    specialize (Hpad eq_refl). destruct (find_tag _ _) eqn:Hf; [discriminate|]. cbn [pad_entries].
    destruct (put_tag_values kPAD (replicate (Z.to_nat (Z.max 0 (minimum_size_ m - size m - 8))) dash) _ Hf) as [-> ->].
    rewrite zlen_replicate by lia. split; [lia|]. split; [lia|]. do 2 f_equal. lia. }
  destruct Hlen as (Hmin&Hsize&<-). split; [done|]. split; [done|].
  by apply ParseMessage_wire; [apply Hm|].
Qed.

(** ** Errors *)

(** An index as it may come, right or wrong: tags and end offsets. *)
Definition raw_index (idx : list (Z * Z)) : list Z := concat (map (λ e, le_bytes 4 e.1 ++ le_bytes 4 e.2) idx).
Definition in_order (a b : Z * Z) : Prop := a.1 < b.1 ∧ a.2 <= b.2.
Definition disorder (a b : Z * Z) : QuicErrorCode := if a.1 =? b.1 then QUIC_CRYPTO_DUPLICATE_TAG else QUIC_CRYPTO_TAGS_OUT_OF_ORDER.

(** The error of reading the entries [idx] after the entry [prev]. *)
Fixpoint index_error (prev : Z * Z) (idx : list (Z * Z)) : QuicErrorCode :=
  match idx with
  | [] => QUIC_NO_ERROR
  | e :: idx => if (prev.1 <? e.1) && (prev.2 <=? e.2) then index_error e idx else disorder prev e
  end.

Lemma read_entries_index idx prev tags len r k :
  Forall (λ e, is_u32 e.1 ∧ is_u32 e.2) idx → at_bytes r (raw_index idx ++ k) →
  ∃ tags' off' r', read_entries (length idx) (tags ++ [(prev.1, len)]) prev.2 r = (index_error prev idx, tags', off', r').
Proof.
  revert prev tags len r. induction idx as [|[t o] idx IH]; intros prev tags len r Hu Hr; [by eexists _, _, _|].
  apply Forall_cons in Hu as [[Ht Ho] Hu]. cbn [fst snd] in *. cbn [length read_entries index_error fst snd].
  change (raw_index ((t, o) :: idx)) with ((le_bytes 4 t ++ le_bytes 4 o) ++ raw_index idx) in Hr. rewrite <-!app_assoc in Hr.
  destruct (get_tag _ _ _ Ht Hr) as (r1&->&Hr1). rewrite last_app_singleton.
  destruct (get_uint 4 o r1 _ Ho Hr1) as (r2&E2&Hr2). unfold Reader.ReadUInt32. rewrite E2. unfold disorder. cbn [fst snd].
  destruct (Z.leb_spec t prev.1) as [Hle|Hgt].
  - destruct (Z.ltb_spec prev.1 t); [lia|]. cbn [andb]. rewrite (Z.eqb_sym prev.1 t).
    destruct (t =? prev.1); cbn; by eexists _, _, _.
  - destruct (Z.ltb_spec prev.1 t); [|lia]. cbn [andb]. rewrite bool_decide_eq_true_2 by done. cbn [negb].
    destruct (Z.eqb_spec prev.1 t); [lia|].
    destruct (Z.ltb_spec o prev.2), (Z.leb_spec prev.2 o); try lia; [by eexists _, _, _|].
    exact (IH (t, o) (tags ++ [(prev.1, len)]) _ r2 Hu Hr2).
Qed.

Lemma index_error_sorted prev idx : index_error prev idx = QUIC_NO_ERROR ↔ Sorted in_order (prev :: idx).
Proof.
  revert prev. induction idx as [|e idx IH]; intros prev; cbn [index_error]; [split; [repeat constructor|done]|].
  unfold disorder. destruct (Z.ltb_spec prev.1 e.1), (Z.leb_spec prev.2 e.2); cbn [andb].
  1: { rewrite IH. split; [intros H'; constructor; [done|by constructor]|by inversion 1]. }
  all: split; [by destruct (_ =? _)|]; inversion 1 as [|? ? ? Hhd]; inversion Hhd as [|? ? Hord]; destruct Hord; lia.
Qed.

Lemma index_error_first prev l1 a b l2 : Sorted in_order (prev :: l1 ++ [a]) → ¬ in_order a b →
  index_error prev (l1 ++ a :: b :: l2) = disorder a b.
Proof.
  assert (Hone : ∀ p e, in_order p e → (p.1 <? e.1) && (p.2 <=? e.2) = true) by (unfold in_order; intros p e [? ?]; lia).
  revert prev. induction l1 as [|e l1 IH]; intros prev Hs Hno; cbn [app index_error] in *;
    inversion Hs as [|? ? Hs' Hhd]; inversion Hhd as [|? ? Hord]; subst; rewrite (Hone _ _ Hord).
  - destruct ((a.1 <? b.1) && (a.2 <=? b.2)) eqn:E; [|done]. apply andb_true_iff in E as [? ?]. exfalso. apply Hno. split; lia.
  - by apply IH.
Qed.

Lemma raw_index_length idx : zlen (raw_index idx) = 8 * zlen idx.
Proof.
  induction idx as [|e idx IH]; [done|].
  change (raw_index (e :: idx)) with ((le_bytes 4 e.1 ++ le_bytes 4 e.2) ++ raw_index idx).
  rewrite !zlen_app, zlen_cons, IH. unfold zlen at 1 2. rewrite !le_bytes_length. lia.
Qed.

(** The whole index, from the first entry on. *)
Lemma read_entries_whole idx r k : Forall (λ e, is_u32 e.1 ∧ is_u32 e.2) idx → at_bytes r (raw_index idx ++ k) →
  ∃ tags off r', read_entries (length idx) [] 0 r
    = (match idx with [] => QUIC_NO_ERROR | e :: idx => index_error e idx end, tags, off, r').
Proof.
  intros Hu Hr. destruct idx as [|[t o] idx]; [by eexists _, _, _|].
  apply Forall_cons in Hu as [[Ht Ho] Hu]. cbn [fst snd length read_entries] in *.
  change (raw_index ((t, o) :: idx)) with ((le_bytes 4 t ++ le_bytes 4 o) ++ raw_index idx) in Hr. rewrite <-!app_assoc in Hr.
  destruct (get_tag _ _ _ Ht Hr) as (r1&->&Hr1). cbn [last]. rewrite bool_decide_eq_true_2 by done. cbn [negb].
  destruct (get_uint 4 o r1 _ Ho Hr1) as (r2&E2&Hr2). unfold Reader.ReadUInt32. rewrite E2.
  destruct (Z.ltb_spec o 0); [lia|]. exact (read_entries_index idx (t, o) [] _ r2 k Hu Hr2).
Qed.

(** What comes of the head of a message: the count, then the index. *)
Definition head_error (n : Z) (idx : list (Z * Z)) : QuicErrorCode :=
  if kMaxEntries <? n then QUIC_CRYPTO_TOO_MANY_ENTRIES
  else match idx with [] => QUIC_NO_ERROR | e :: idx => index_error e idx end.

Lemma Process_head s tag n pad idx k :
  idle s → buffer_ s = [] → is_u32 tag → is_u16 n → is_u16 pad → Forall (λ e, is_u32 e.1 ∧ is_u32 e.2) idx →
  (n <= kMaxEntries → zlen idx = n) →
  ∃ s', Process (le_bytes 4 tag ++ le_bytes 2 n ++ le_bytes 2 pad ++ raw_index idx ++ k) s = (head_error n idx, s')
    ∧ (head_error n idx ≠ QUIC_NO_ERROR → calls s' = calls s).
Proof.
  intros (He&Htr&Hst&Hm&Htl) Hb Htag Hn Hpad Hu Hcount. set (input := le_bytes 4 tag ++ _).
  assert (Hlens : ∀ n v, zlen (le_bytes n v) = Z.of_nat n) by (intros; unfold zlen; by rewrite le_bytes_length).
  unfold Process. cbn [buffer_ state_ with_buffer]. rewrite Hb, Hst, app_nil_l.
  pose proof (at_bytes_new input) as Hr. set (r := Reader.new input HOST_BYTE_ORDER) in *. clearbody r.
  pose proof (zlen_nonneg k). pose proof (zlen_nonneg idx). unfold input in Hr.
  unfold read_tag. rewrite (at_bytes_remaining _ _ Hr), !zlen_app, !Hlens, raw_index_length. unfold kQuicTagSize.
  match goal with |- context [if ?b <? 4 then _ else _] => destruct (Z.ltb_spec b 4); [lia|] end.
  destruct (get_tag _ _ _ Htag Hr) as (r1&->&Hr1). cbn [fall]. unfold read_num_entries at 1.
  rewrite (at_bytes_remaining _ _ Hr1), !zlen_app, !Hlens, raw_index_length. change (kNumEntriesSize + 2) with 4.
  match goal with |- context [if ?b <? 4 then _ else _] => destruct (Z.ltb_spec b 4); [lia|] end.
  destruct (get_uint 2 n r1 _ Hn Hr1) as (r2&E2&Hr2). unfold Reader.ReadUInt16. rewrite E2. unfold head_error.
  destruct (Z.ltb_spec kMaxEntries n) as [Hlt|Hle]; [by eexists|].
  destruct (get_uint 2 pad r2 _ Hpad Hr2) as (r3&E3&Hr3). rewrite E3. cbn [fall]. unfold read_tags_and_lengths.
  rewrite (at_bytes_remaining _ _ Hr3), !zlen_app, raw_index_length. cbn [num_entries_ with_num_entries with_message tags_and_lengths_].
  specialize (Hcount Hle). change (kQuicTagSize + kCryptoEndOffsetSize) with 8.
  match goal with |- context [if ?b <? n * 8 then _ else _] => destruct (Z.ltb_spec b (n * 8)); [lia|] end.
  destruct (read_entries_whole idx r3 k Hu Hr3) as (tags&off&r4&E4). rewrite <-Hcount. unfold zlen. rewrite Nat2Z.id.
  cbn [with_buffer tags_and_lengths_]. rewrite Htl, E4.
  set (err := match idx with [] => _ | _ => _ end). destruct (decide (err = QUIC_NO_ERROR)) as [->|Hne].
  - rewrite bool_decide_eq_true_2 by done. cbn [negb fall]. unfold read_message. destruct (_ && _); [by eexists|].
    destruct (read_values _ _ _) as [m' r5]. by eexists.
  - rewrite bool_decide_eq_false_2 by done. cbn [negb fall]. by eexists.
Qed.

(** C30. A message with more than 128 entries is refused, and so is one whose tags do not strictly increase or whose end offsets
    decrease, at its first such entry; every other head is accepted. A refusal is told to the visitor, once, and after it the
    framer takes no more input. *)
Theorem bad_handshakes_are_refused s tag n pad idx k :
  idle s → buffer_ s = [] → is_u32 tag → is_u16 n → is_u16 pad → Forall (λ e, is_u32 e.1 ∧ is_u32 e.2) idx →
  (n <= kMaxEntries → zlen idx = n) →
  ∃ ok s', ProcessInput (le_bytes 4 tag ++ le_bytes 2 n ++ le_bytes 2 pad ++ raw_index idx ++ k) s = (ok, s')
    ∧ (ok = true ↔ n <= kMaxEntries ∧ Sorted in_order idx)
    ∧ (kMaxEntries < n → error_ s' = QUIC_CRYPTO_TOO_MANY_ENTRIES)
    ∧ (∀ l1 a b l2, n <= kMaxEntries → idx = l1 ++ a :: b :: l2 → Sorted in_order (l1 ++ [a]) → ¬ in_order a b →
       error_ s' = disorder a b)
    ∧ (ok = false → calls s' = calls s ++ [OnError (error_ s')] ∧ ∀ input, ProcessInput input s' = (false, s')).
Proof.
  intros Hs Hb Htag Hn Hpad Hu Hcount. destruct (Process_head s tag n pad idx k Hs Hb Htag Hn Hpad Hu Hcount) as (s1&E&Hc).
  assert (Hok : head_error n idx = QUIC_NO_ERROR ↔ n <= kMaxEntries ∧ Sorted in_order idx).
  { unfold head_error. destruct (Z.ltb_spec kMaxEntries n); [split; [done|lia]|]. destruct idx as [|e idx]; [split; [split; [done|constructor]|done]|].
    rewrite index_error_sorted. tauto. }
  assert (Herr : (kMaxEntries < n → head_error n idx = QUIC_CRYPTO_TOO_MANY_ENTRIES)
    ∧ (∀ l1 a b l2, n <= kMaxEntries → idx = l1 ++ a :: b :: l2 → Sorted in_order (l1 ++ [a]) → ¬ in_order a b →
       head_error n idx = disorder a b)).
  { unfold head_error. split; [intros H; destruct (Z.ltb_spec kMaxEntries n); [done|lia]|].
    intros l1 a b l2 Hle -> Hso Hno. destruct (Z.ltb_spec kMaxEntries n); [lia|]. destruct l1 as [|e l1]; cbn [app].
    - cbn [index_error]. destruct ((a.1 <? b.1) && (a.2 <=? b.2)) eqn:Eo; [|done].
      apply andb_true_iff in Eo as [? ?]. exfalso. apply Hno. split; lia.
    - by apply index_error_first. }
  unfold ProcessInput. destruct Hs as (->&_). cbn [negb]. rewrite bool_decide_eq_true_2 by done. cbn [negb]. rewrite E.
  destruct (decide (head_error n idx = QUIC_NO_ERROR)) as [H0|H0].
  - rewrite H0 in *. rewrite bool_decide_eq_true_2 by done. cbn [negb].
    exists true, (with_error QUIC_NO_ERROR s1). split; [done|]. split; [split; [intros _; by apply Hok|done]|].
    destruct Herr as [H1 H2]. done.
  - rewrite bool_decide_eq_false_2 by done. cbn [negb].
    exists false, (tell (OnError (head_error n idx)) (with_error (head_error n idx) s1)). split; [done|].
    split; [split; [done|intros H; by apply Hok in H]|]. cbn. destruct Herr as [H1 H2]. split; [exact H1|]. split; [exact H2|].
    intros _. split; [by rewrite (Hc H0)|]. intros input. by rewrite bool_decide_eq_false_2.
Qed.
End endian.

Lemma handshake_in_any_pieces_witness :
  let s1 := snd (ProcessAll [take 3 (wire 7 [(1, [5; 6])]); []; take 9 (drop 3 (wire 7 [(1, [5; 6])]))] (new false)) in
  calls (snd (ProcessInput (drop 12 (wire 7 [(1, [5; 6])]) ++ [9]) s1)) = [OnHandshakeMessage (mk_message 7 [(1, [5; 6])] 0 None)].
Proof.
  destruct (handshake_in_any_pieces (new false) 7 [(1, [5; 6])]
    [take 3 (wire 7 [(1, [5; 6])]); []; take 9 (drop 3 (wire 7 [(1, [5; 6])]))] (drop 12 (wire 7 [(1, [5; 6])]) ++ [9]) [9])
    as (s1&s2&E1&_&E2&Hc&_).
  - done.
  - done.
  - split; [repeat constructor|]. split; [repeat constructor; done|]. done.
  - reflexivity.
  - reflexivity.
  - cbv zeta. rewrite E1. cbn [snd]. rewrite E2. exact Hc.
Defined.

Lemma handshake_message_roundtrip_witness :
  let m := mk_message 7 [(1, [5; 6]); (5000000, [9])] 60 None in
  ∃ bytes, ConstructHandshakeMessage m = Some bytes
    ∧ ParseMessage bytes = Some (mk_message 7 [(1, [5; 6]); (kPAD, replicate 25 45); (5000000, [9])] 0 None).
Proof.
  cbv zeta. set (m := mk_message _ _ _ _). destruct (handshake_message_roundtrip m) as (b&Hb&_&_&Hp).
  - split; [done|]. split; [repeat constructor|]. split; [repeat constructor; done|]. done.
  - exists b. split; [exact Hb|exact Hp].
Defined.

Lemma bad_handshakes_are_refused_witness :
  error_ (snd (ProcessInput (le_bytes 4 7 ++ le_bytes 2 3 ++ le_bytes 2 0 ++ raw_index [(1, 2); (5, 4); (5, 6)] ++ [1; 2]) (new false)))
    = QUIC_CRYPTO_DUPLICATE_TAG.
Proof.
  destruct (bad_handshakes_are_refused (new false) 7 3 0 [(1, 2); (5, 4); (5, 6)] [1; 2]) as (ok&s'&E&_&_&H&_); [done|done|done|done|done| |done|].
  - repeat constructor; done.
  - rewrite E. apply (H [(1, 2)] (5, 4) (5, 6) []); [done|reflexivity| |].
    + repeat constructor; done.
    + intros [H1 _]. cbn in H1. lia.
Defined.

End CryptoMessages.
