(* ===== verification/Crypters.v ===== *)
(** What encrypts and decrypts packets (quic/core/crypto): the interfaces [QuicEncrypter] and [QuicDecrypter] as classes, what
    a pair of them owes to the framer, and the implementations: [NullEncrypter] and [NullDecrypter] with the FNV-1a hash of
    quic_utils.cc, and [AeadBaseEncrypter] and [AeadBaseDecrypter] with the masks of their AES and ChaCha20 subclasses. The
    functions of BoringSSL are parameters. *)

From Stdlib Require Import Strings.String Strings.Byte.
From S2P Require Import Prelude Bytes DataWire StreamIdManager.

Module Crypters.
Import StreamIdManager(Perspective(..)).

(** ** The interfaces *)

(** Functions that fail give [None]; a mask that cannot be made is empty. The last argument of [EncryptPacket] and
    [DecryptPacket] is [max_output_length]. *)
Class QuicEncrypter (E : Type) := {
  EncryptPacket : E → Z → list Z → list Z → Z → option (list Z);
  GenerateHeaderProtectionMask : E → list Z → list Z;
  GetMaxPlaintextSize : E → Z → Z;
  GetCiphertextSize : E → Z → Z;
}.
(** The mask is made from what the reader gives next. *)
Class QuicDecrypter (D : Type) := {
  DecryptPacket : D → Z → list Z → list Z → Z → option (list Z);
  SetDiversificationNonce : D → list Z → bool * D;
  MaskFromReader : D → Reader.t → list Z;
}.

Definition kHPSampleLen : Z := 16.

(** What the encrypter makes the decrypter opens; a text grows by the same number of bytes, whatever its size. *)
Record Opens {E D} `{QuicEncrypter E, QuicDecrypter D} (e : E) (d : D) : Prop := {
  opens : ∀ n ad p max ct, is_u64 n → bytes ad → bytes p → EncryptPacket e n ad p max = Some ct →
    bytes ct ∧ zlen ct = GetCiphertextSize e (zlen p) ∧ zlen ct <= max
    ∧ ∀ max', zlen ct <= max' → DecryptPacket d n ad ct max' = Some p;
  overhead : ∀ n, GetCiphertextSize e n = n + GetCiphertextSize e 0;
}.
(** The encrypter and the decrypter make the same masks, long enough for a type byte and a packet number. *)
Record Masks {E D} `{QuicEncrypter E, QuicDecrypter D} (e : E) (d : D) : Prop := {
  same_mask : ∀ sample k r, zlen sample = kHPSampleLen → bytes sample → ReaderSpec.wf r → ReaderSpec.rest r = sample ++ k →
    MaskFromReader d r = GenerateHeaderProtectionMask e sample
    ∧ bytes (GenerateHeaderProtectionMask e sample) ∧ 5 <= zlen (GenerateHeaderProtectionMask e sample);
}.
(** An encrypter and a decrypter with the same keys. *)
Definition Paired {E D} `{QuicEncrypter E, QuicDecrypter D} (e : E) (d : D) : Prop := Opens e d ∧ Masks e d.

(** ** The hash (quic_utils.cc) *)

Definition two128 : Z := 340282366920938463463374607431768211456.
Definition MakeQuicUint128 (hi lo : Z) : Z := hi * two64 + lo.
Definition QuicUint128High64 (v : Z) : Z := v / two64.
Definition QuicUint128Low64 (v : Z) : Z := v mod two64.

(** [IncrementalHashFast]; the multiplication wraps around. *)
Definition kPrime : Z := Z.shiftl 16777216 64 + 315.
Definition IncrementalHashFast (uhash : Z) (data : list Z) : Z :=
  let xhash := Z.shiftl (QuicUint128High64 uhash) 64 + QuicUint128Low64 uhash in
  let xhash := foldl (λ xhash octet, (Z.lxor xhash octet * kPrime) mod two128) xhash data in
  MakeQuicUint128 (QuicUint128High64 xhash) (QuicUint128Low64 xhash).
(** The version for compilers without 128-bit integers. *)
Definition IncrementalHashSlow (hash : Z) (data : list Z) : Z :=
  foldl (λ hash octet, (Z.lxor hash (MakeQuicUint128 0 octet) * MakeQuicUint128 16777216 315) mod two128) hash data.
Definition IncrementalHash : Z → list Z → Z := IncrementalHashFast.

Definition kOffset : Z := MakeQuicUint128 7809847782465536322 7113472399480571277.
Definition FNV1a_128_Hash_Three (data1 data2 data3 : list Z) : Z :=
  let hash := IncrementalHash kOffset data1 in
  match data2 with
  | [] => hash
  | _ =>
      let hash := IncrementalHash hash data2 in
      match data3 with [] => hash | _ => IncrementalHash hash data3 end
  end.
Definition FNV1a_128_Hash_Two (data1 data2 : list Z) : Z := FNV1a_128_Hash_Three data1 data2 [].
Definition FNV1a_128_Hash (data : list Z) : Z := FNV1a_128_Hash_Three data [] [].
Definition FNV1a_64_Hash (data : list Z) : Z :=
  foldl (λ hash octet, wrap64 (Z.lxor hash octet * 1099511628211)) 14695981039346656037 data.
(** Eight bytes of the lower half, four of the upper one, in the order of the host. *)
Definition SerializeUint128Short (v : Z) : list Z :=
  le_bytes 8 (QuicUint128Low64 v) ++ le_bytes 4 (QuicUint128High64 v).

(** ** Null encryption *)

Definition kHashSizeShort : Z := 12.
Definition ascii (s : string) : list Z := map (λ b, Z.of_N (Byte.to_N b)) (String.list_byte_of_string s).

Record NullEncrypter := mk_null_encrypter { encrypter_perspective : Perspective }.
Record NullDecrypter := mk_null_decrypter { decrypter_perspective : Perspective }.

Definition Null_EncryptPacket (e : NullEncrypter) (packet_number : Z) (associated_data plaintext : list Z)
    (max_output_length : Z) : option (list Z) :=
  let len := zlen plaintext + kHashSizeShort in
  if max_output_length <? len then None else
  let hash := if bool_decide (encrypter_perspective e = IS_SERVER)
    then FNV1a_128_Hash_Three associated_data plaintext (ascii "Server")
    else FNV1a_128_Hash_Three associated_data plaintext (ascii "Client") in
  Some (SerializeUint128Short hash ++ plaintext).
#[global] Instance Null_encrypter : QuicEncrypter NullEncrypter := {
  EncryptPacket := Null_EncryptPacket;
  GenerateHeaderProtectionMask _ _ := replicate 5 0;
  GetMaxPlaintextSize _ ciphertext_size := wrap64 (ciphertext_size - kHashSizeShort);
  GetCiphertextSize _ plaintext_size := plaintext_size + kHashSizeShort;
}.

Section endian.
Context {EI : EndianImpl}.

Definition ReadHash : Reader.action Z :=
  Reader.bind Reader.ReadUInt64 (λ lo, Reader.bind Reader.ReadUInt32 (λ hi, Reader.ret (MakeQuicUint128 hi lo))).
(** All but the upper 32 bits. *)
Definition ComputeHash (d : NullDecrypter) (data1 data2 : list Z) : Z :=
  let correct_hash := if bool_decide (decrypter_perspective d = IS_CLIENT)
    then FNV1a_128_Hash_Three data1 data2 (ascii "Server")
    else FNV1a_128_Hash_Three data1 data2 (ascii "Client") in
  let mask := Z.shiftl (MakeQuicUint128 0 4294967295) 96 in
  Z.ldiff correct_hash mask.
Definition Null_DecryptPacket (d : NullDecrypter) (packet_number : Z) (associated_data ciphertext : list Z)
    (max_output_length : Z) : option (list Z) :=
  match ReadHash (Reader.new ciphertext HOST_BYTE_ORDER) with
  | (None, _) => None
  | (Some hash, reader) =>
      let '(plaintext, _) := Reader.ReadRemainingPayload reader in
      if max_output_length <? zlen plaintext then None else
      if negb (hash =? ComputeHash d associated_data plaintext) then None else Some plaintext
  end.
#[global] Instance Null_decrypter : QuicDecrypter NullDecrypter := {
  DecryptPacket := Null_DecryptPacket;
  SetDiversificationNonce d _ := (true, d);
  MaskFromReader _ _ := replicate 5 0;
}.
End endian.

(** ** Authenticated encryption *)

(** The functions of BoringSSL that are called: setting up a key of an algorithm with a tag length, sealing and opening with a
    key, a nonce, the text and the associated data, a block of AES, the stream of ChaCha20, and HKDF. *)
Class BoringSSL := {
  EVP_AEAD_CTX_init : Z → list Z → Z → bool;
  EVP_AEAD_CTX_seal : Z → list Z → Z → list Z → list Z → list Z → option (list Z);
  EVP_AEAD_CTX_open : Z → list Z → Z → list Z → list Z → list Z → option (list Z);
  AES_encrypt : list Z → list Z → list Z;
  CRYPTO_chacha_20 : list Z → list Z → list Z → Z → list Z;
  HKDF : Z → list Z → list Z → list Z → list Z;
}.

(** Which subclass makes the masks, AES or ChaCha20. *)
Inductive MaskCipher := AesBase | ChaChaBase.

(** The members of [AeadBaseEncrypter] and [AeadBaseDecrypter] and of their subclasses; [ctx_] is the key that was set up, and
    an encrypter never has a preliminary key. *)
Record AeadBase := mk_aead {
  aead_alg_ : Z;
  key_size_ : Z;
  auth_tag_size_ : Z;
  nonce_size_ : Z;
  use_ietf_nonce_construction_ : bool;
  mask_cipher : MaskCipher;
  key_ : list Z;
  iv_ : list Z;
  ctx_ : option (list Z);
  have_preliminary_key_ : bool;
  pne_key_ : list Z;
}.
Definition set_key key ctx (a : AeadBase) : AeadBase :=
  mk_aead (aead_alg_ a) (key_size_ a) (auth_tag_size_ a) (nonce_size_ a) (use_ietf_nonce_construction_ a) (mask_cipher a)
    key (iv_ a) ctx (have_preliminary_key_ a) (pne_key_ a).
Definition set_iv iv (a : AeadBase) : AeadBase :=
  mk_aead (aead_alg_ a) (key_size_ a) (auth_tag_size_ a) (nonce_size_ a) (use_ietf_nonce_construction_ a) (mask_cipher a)
    (key_ a) iv (ctx_ a) (have_preliminary_key_ a) (pne_key_ a).
Definition set_preliminary b (a : AeadBase) : AeadBase :=
  mk_aead (aead_alg_ a) (key_size_ a) (auth_tag_size_ a) (nonce_size_ a) (use_ietf_nonce_construction_ a) (mask_cipher a)
    (key_ a) (iv_ a) (ctx_ a) b (pne_key_ a).
Definition set_pne_key key (a : AeadBase) : AeadBase :=
  mk_aead (aead_alg_ a) (key_size_ a) (auth_tag_size_ a) (nonce_size_ a) (use_ietf_nonce_construction_ a) (mask_cipher a)
    (key_ a) (iv_ a) (ctx_ a) (have_preliminary_key_ a) key.

(** [memcpy] to the start of an array. *)
Definition memcpy (array data : list Z) : list Z := data ++ drop (length data) array.

Section aead.
Context {EI : EndianImpl} {B : BoringSSL}.

Definition SetKey (key : list Z) (a : AeadBase) : bool * AeadBase :=
  if negb (zlen key =? key_size_ a) then (false, a) else
  let key := memcpy (key_ a) key in
  if negb (EVP_AEAD_CTX_init (aead_alg_ a) (take (Z.to_nat (key_size_ a)) key) (auth_tag_size_ a))
  then (false, set_key key None a) else (true, set_key key (Some (take (Z.to_nat (key_size_ a)) key)) a).
Definition SetNoncePrefix (nonce_prefix : list Z) (a : AeadBase) : bool * AeadBase :=
  if use_ietf_nonce_construction_ a then (false, a) else
  if negb (zlen nonce_prefix =? nonce_size_ a - 8) then (false, a) else (true, set_iv (memcpy (iv_ a) nonce_prefix) a).
Definition SetIV (iv : list Z) (a : AeadBase) : bool * AeadBase :=
  if negb (use_ietf_nonce_construction_ a) then (false, a) else
  if negb (zlen iv =? nonce_size_ a) then (false, a) else (true, set_iv (memcpy (iv_ a) iv) a).
Definition SetHeaderProtectionKey (key : list Z) (a : AeadBase) : bool * AeadBase :=
  if negb (zlen key =? key_size_ a) then (false, a) else (true, set_pne_key key a).

(** The bytes from the one of the highest order down. *)
Definition packet_number_bytes (packet_number : Z) : list Z :=
  map (λ i, Z.land (Z.shiftr packet_number ((8 - i - 1) * 8)) 255) (seqZ 0 8).
Definition NonceOf (a : AeadBase) (packet_number : Z) : list Z :=
  let nonce_buffer := take (Z.to_nat (nonce_size_ a)) (iv_ a) in
  let prefix_len := Z.to_nat (nonce_size_ a - 8) in
  if use_ietf_nonce_construction_ a then
    take prefix_len nonce_buffer ++ zip_with Z.lxor (drop prefix_len nonce_buffer) (packet_number_bytes packet_number)
  else take prefix_len nonce_buffer ++ le_bytes 8 packet_number.

Definition Aead_GetCiphertextSize (a : AeadBase) (plaintext_size : Z) : Z := plaintext_size + auth_tag_size_ a.
Definition Aead_EncryptPacket (a : AeadBase) (packet_number : Z) (associated_data plaintext : list Z) (max_output_length : Z)
    : option (list Z) :=
  if max_output_length <? Aead_GetCiphertextSize a (zlen plaintext) then None else
  match ctx_ a with
  | None => None
  | Some key => EVP_AEAD_CTX_seal (aead_alg_ a) key (auth_tag_size_ a) (NonceOf a packet_number) plaintext associated_data
  end.
(** Opening fails when the text does not fit. *)
Definition Aead_DecryptPacket (a : AeadBase) (packet_number : Z) (associated_data ciphertext : list Z) (max_output_length : Z)
    : option (list Z) :=
  if zlen ciphertext <? auth_tag_size_ a then None else
  if have_preliminary_key_ a then None else
  match ctx_ a with
  | None => None
  | Some key =>
      match EVP_AEAD_CTX_open (aead_alg_ a) key (auth_tag_size_ a) (NonceOf a packet_number) ciphertext associated_data with
      | Some plaintext => if max_output_length <? zlen plaintext then None else Some plaintext
      | None => None
      end
  end.

(** The mask from a sample of 16 bytes. *)
Definition chacha_mask (key sample : list Z) : list Z :=
  let '(counter, _) := Reader.ReadUInt32 (Reader.new (take 4 sample) HOST_BYTE_ORDER) in
  CRYPTO_chacha_20 (replicate 5 0) key (drop 4 sample) (default 0 counter).
Definition Aead_mask (a : AeadBase) (sample : list Z) : list Z :=
  if negb (zlen sample =? 16) then [] else
  match mask_cipher a with AesBase => AES_encrypt (pne_key_ a) sample | ChaChaBase => chacha_mask (pne_key_ a) sample end.
Definition Aead_mask_from_reader (a : AeadBase) (sample_reader : Reader.t) : list Z :=
  match Reader.ReadStringPiece 16 sample_reader with
  | (None, _) => []
  | (Some sample, _) =>
      match mask_cipher a with AesBase => AES_encrypt (pne_key_ a) sample | ChaChaBase => chacha_mask (pne_key_ a) sample end
  end.

(** [QuicHKDF] as it is used here: the server's key and the server's nonce prefix, after nothing for the client. *)
Definition DiversifyPreliminaryKey (preliminary_key nonce_prefix nonce : list Z) (key_size nonce_prefix_size : Z)
    : list Z * list Z :=
  let material_length := 2 * 0 + 0 + 2 * key_size + nonce_prefix_size + 0 in
  let output := HKDF material_length (preliminary_key ++ nonce_prefix) nonce (ascii "QUIC key diversification") in
  (take (Z.to_nat key_size) output, take (Z.to_nat nonce_prefix_size) (drop (Z.to_nat key_size) output)).
Definition SetPreliminaryKey (key : list Z) (a : AeadBase) : bool * AeadBase :=
  let '(_, a) := SetKey key a in (true, set_preliminary true a).
Definition Aead_SetDiversificationNonce (a : AeadBase) (nonce : list Z) : bool * AeadBase :=
  if negb (have_preliminary_key_ a) then (true, a) else
  let prefix_size := nonce_size_ a - 8 in
  let '(key, nonce_prefix) := DiversifyPreliminaryKey (take (Z.to_nat (key_size_ a)) (key_ a))
    (take (Z.to_nat prefix_size) (iv_ a)) nonce (key_size_ a) prefix_size in
  let '(ok, a) := SetKey key a in
  if negb ok then (false, a) else
  let '(ok, a) := SetNoncePrefix nonce_prefix a in
  if negb ok then (false, a) else (true, set_preliminary false a).

#[global] Instance Aead_encrypter : QuicEncrypter AeadBase := {
  EncryptPacket := Aead_EncryptPacket;
  GenerateHeaderProtectionMask := Aead_mask;
  GetMaxPlaintextSize a ciphertext_size := wrap64 (ciphertext_size - auth_tag_size_ a);
  GetCiphertextSize := Aead_GetCiphertextSize;
}.
#[global] Instance Aead_decrypter : QuicDecrypter AeadBase := {
  DecryptPacket := Aead_DecryptPacket;
  SetDiversificationNonce := Aead_SetDiversificationNonce;
  MaskFromReader := Aead_mask_from_reader;
}.
End aead.

(** ** The null pair *)

Lemma MakeQuicUint128_split v : MakeQuicUint128 (QuicUint128High64 v) (QuicUint128Low64 v) = v.
Proof. unfold MakeQuicUint128, QuicUint128High64, QuicUint128Low64. pose proof (Z.div_mod v two64 ltac:(done)). lia. Qed.

(** The two versions of the hash agree. *)
Lemma IncrementalHash_versions hash data : IncrementalHashFast hash data = IncrementalHashSlow hash data.
Proof.
  unfold IncrementalHashFast, IncrementalHashSlow. rewrite MakeQuicUint128_split, Z.shiftl_mul_pow2 by lia.
  change (2 ^ 64) with two64. fold (MakeQuicUint128 (QuicUint128High64 hash) (QuicUint128Low64 hash)).
  rewrite MakeQuicUint128_split. reflexivity.
Qed.

Lemma IncrementalHash_range hash data : 0 <= hash < two128 → 0 <= IncrementalHash hash data < two128.
Proof.
  unfold IncrementalHash. rewrite IncrementalHash_versions. unfold IncrementalHashSlow. revert hash.
  induction data as [|b data IH]; intros hash Hh; [done|]. cbn [foldl]. apply IH. by apply Z.mod_pos_bound.
Qed.

Lemma FNV1a_128_range data1 data2 data3 : 0 <= FNV1a_128_Hash_Three data1 data2 data3 < two128.
Proof.
  unfold FNV1a_128_Hash_Three.
  assert (H1 : 0 <= IncrementalHash kOffset data1 < two128) by (apply IncrementalHash_range; done).
  destruct data2 as [|x data2]; [done|]. pose proof (IncrementalHash_range _ (x :: data2) H1) as H2.
  destruct data3; [done|]. by apply IncrementalHash_range.
Qed.

(** What stays of a hash of 128 bits in 12 bytes. *)
Lemma masked_hash h : 0 <= h < two128 → Z.ldiff h (Z.shiftl (MakeQuicUint128 0 4294967295) 96) = h mod 2 ^ 96.
Proof.
  intros Hh. change (MakeQuicUint128 0 4294967295) with (Z.ones 32). apply Z.bits_inj'. intros i Hi.
  rewrite Z.ldiff_spec. destruct (Z.lt_ge_cases i 96).
  - rewrite Z.mod_pow2_bits_low, Z.shiftl_spec_low by lia. by rewrite andb_true_r.
  - rewrite Z.mod_pow2_bits_high by lia. rewrite Z.shiftl_spec by lia. destruct (Z.lt_ge_cases i 128).
    + rewrite Z.ones_spec_low by lia. by rewrite andb_false_r.
    + rewrite <-(Z.mod_small h (2 ^ 128)) by exact Hh. by rewrite Z.mod_pow2_bits_high by lia.
Qed.

Lemma SerializeUint128Short_length v : zlen (SerializeUint128Short v) = 12.
Proof. unfold SerializeUint128Short, zlen. rewrite length_app, !le_bytes_length. done. Qed.

Lemma SerializeUint128Short_bytes v : bytes (SerializeUint128Short v).
Proof. unfold SerializeUint128Short. rewrite Forall_app. split; apply le_bytes_bytes. Qed.

Section laws.
Context {EI : EndianImpl} {EL : EndianLaws}.

(** Reading the hash back gives its lower 96 bits. *)
Lemma reads_ReadHash v : 0 <= v < two128 → ReaderSpec.reads HOST_BYTE_ORDER ReadHash (SerializeUint128Short v) (v mod 2 ^ 96).
Proof.
  intros Hv. unfold ReadHash, SerializeUint128Short. rewrite <-(le_bytes_mod 4 (QuicUint128High64 v)).
  set (lo := QuicUint128Low64 v). set (hi := QuicUint128High64 v mod pow256 4).
  assert (E : v mod 2 ^ 96 = MakeQuicUint128 hi lo).
  { unfold hi, lo, MakeQuicUint128, QuicUint128High64, QuicUint128Low64. change (pow256 4) with (2 ^ 32). change two64 with (2 ^ 64).
    change (2 ^ 96) with (2 ^ 64 * 2 ^ 32). rewrite Z.rem_mul_r by lia. lia. }
  rewrite E. eapply ReaderSpec.reads_bind.
  - refine (ReaderSpec.reads_ReadUInt HOST_BYTE_ORDER 8 lo _). unfold lo, QuicUint128Low64. apply Z.mod_pos_bound. done.
  - rewrite <-(app_nil_r (le_bytes 4 _)). eapply ReaderSpec.reads_bind.
    + refine (ReaderSpec.reads_ReadUInt HOST_BYTE_ORDER 4 hi _). unfold hi. apply Z.mod_pos_bound. done.
    + apply ReaderSpec.reads_ret.
Qed.

Definition peer (p : Perspective) : Perspective := match p with IS_SERVER => IS_CLIENT | IS_CLIENT => IS_SERVER end.

(** The hash that both ends of a pair make. *)
Definition null_hash (p : Perspective) (ad plaintext : list Z) : Z :=
  FNV1a_128_Hash_Three ad plaintext (if bool_decide (p = IS_SERVER) then ascii "Server" else ascii "Client").

Lemma ComputeHash_peer p ad plaintext : ComputeHash (mk_null_decrypter (peer p)) ad plaintext = null_hash p ad plaintext mod 2 ^ 96.
Proof.
  unfold ComputeHash, null_hash. rewrite <-masked_hash by apply FNV1a_128_range. destruct p; reflexivity.
Qed.

Lemma Null_EncryptPacket_eq p n ad plaintext max :
  Null_EncryptPacket (mk_null_encrypter p) n ad plaintext max
  = if max <? zlen plaintext + 12 then None else Some (SerializeUint128Short (null_hash p ad plaintext) ++ plaintext).
Proof. unfold Null_EncryptPacket, null_hash. cbn [encrypter_perspective]. by destruct (bool_decide _). Qed.

Lemma Null_DecryptPacket_eq p n ad h plaintext max : 0 <= h < two128 →
  Null_DecryptPacket (mk_null_decrypter (peer p)) n ad (SerializeUint128Short h ++ plaintext) max
  = if max <? zlen plaintext then None else
    if h mod 2 ^ 96 =? null_hash p ad plaintext mod 2 ^ 96 then Some plaintext else None.
Proof.
  intros Hh. unfold Null_DecryptPacket.
  destruct (reads_ReadHash h Hh (Reader.new (SerializeUint128Short h ++ plaintext) HOST_BYTE_ORDER) plaintext)
    as (r&->&Hw&Hr&_); [apply ReaderSpec.reader_new_wf|done|apply ReaderSpec.new_rest|].
  unfold Reader.ReadRemainingPayload, Reader.PeekRemainingPayload. change (Reader.at_pos (Reader.len r - Reader.pos r) r) with (ReaderSpec.rest r). rewrite Hr.
  rewrite ComputeHash_peer. destruct (max <? zlen plaintext); [done|]. by destruct (_ =? _).
Qed.

(** The null pair keeps its promise. *)
Lemma null_pair p : Paired (mk_null_encrypter p) (mk_null_decrypter (peer p)).
Proof.
  split; split.
  - intros n ad plaintext max ct _ _ Hp E. cbn [EncryptPacket Null_encrypter] in E. rewrite Null_EncryptPacket_eq in E.
    destruct (Z.ltb_spec max (zlen plaintext + 12)); [discriminate|]. apply (inj Some) in E as <-.
    rewrite zlen_app, SerializeUint128Short_length. split; [apply Forall_app; split; [apply SerializeUint128Short_bytes|done]|].
    split; [cbn; unfold kHashSizeShort; lia|]. split; [lia|]. intros max' Hmax. cbn [DecryptPacket Null_decrypter].
    rewrite Null_DecryptPacket_eq by apply FNV1a_128_range. destruct (Z.ltb_spec max' (zlen plaintext)); [lia|]. by rewrite Z.eqb_refl.
  - done.
  - intros sample k r _ _ _ _. cbn. split; [done|]. split; [repeat constructor; done|done].
Qed.

(** Every text long enough for a hash begins with one. *)
Lemma hash_prefix ct : bytes ct → 12 <= zlen ct → ∃ h plaintext, ct = SerializeUint128Short h ++ plaintext ∧ 0 <= h < 2 ^ 96.
Proof.
  intros Hb Hl. assert (Hlen : length (take 12 ct) = 12%nat) by (rewrite length_take; unfold zlen in Hl; lia).
  assert (Ht : bytes (take 12 ct)) by (by apply Forall_take).
  exists (le_val (take 12 ct)), (drop 12 ct). pose proof (le_val_bound _ Ht) as Hv. rewrite Hlen in Hv.
  split; [|exact Hv]. rewrite <-(take_drop 12 ct) at 1. f_equal.
  pose proof (le_bytes_val _ Ht) as E. rewrite Hlen in E. change 12%nat with (8 + 4)%nat in E at 1. rewrite le_bytes_app in E.
  rewrite <-E at 1. unfold SerializeUint128Short, QuicUint128Low64, QuicUint128High64. change two64 with (pow256 8).
  by rewrite le_bytes_mod.
Qed.

(** Only the lower 96 bits of a hash are sent. *)
Lemma SerializeUint128Short_mod v : SerializeUint128Short (v mod 2 ^ 96) = SerializeUint128Short v.
Proof.
  unfold SerializeUint128Short, QuicUint128Low64, QuicUint128High64.
  assert (E1 : v mod 2 ^ 96 mod two64 = v mod two64).
  { change (2 ^ 96) with (two64 * 2 ^ 32). rewrite Z.rem_mul_r, Z.mul_comm, Z.mod_add by done. by rewrite Z.mod_mod. }
  assert (E2 : v mod 2 ^ 96 / two64 = (v / two64) mod pow256 4).
  { change (2 ^ 96) with (two64 * pow256 4). rewrite Z.rem_mul_r by done. rewrite Z.mul_comm, Z.div_add by done.
    rewrite (Z.div_small (v mod two64)) by (by apply Z.mod_pos_bound). done. }
  by rewrite E1, E2, (le_bytes_mod 4).
Qed.

Lemma SerializeUint128Short_inj h v : 0 <= h < two128 → 0 <= v < two128 →
  SerializeUint128Short h = SerializeUint128Short v → h mod 2 ^ 96 = v mod 2 ^ 96.
Proof.
  intros Hh Hv E. set (r := Reader.new (SerializeUint128Short h) HOST_BYTE_ORDER).
  destruct (reads_ReadHash h Hh r []) as (r1&H1&_); [apply ReaderSpec.reader_new_wf|done|unfold r; by rewrite ReaderSpec.new_rest, app_nil_r|].
  destruct (reads_ReadHash v Hv r []) as (r2&H2&_); [apply ReaderSpec.reader_new_wf|done|unfold r; by rewrite ReaderSpec.new_rest, E, app_nil_r|].
  rewrite H1 in H2. by injection H2 as H2 _.
Qed.

Lemma Null_DecryptPacket_short d n ad ct max : zlen ct < 12 → Null_DecryptPacket d n ad ct max = None.
Proof.
  intros Hs. unfold Null_DecryptPacket. destruct (ReadHash _) as [[hash|] r] eqn:E; [|done]. exfalso. revert E.
  unfold ReadHash, Reader.bind, Reader.ReadUInt64, Reader.ReadUInt32, Reader.ReadUInt, Reader.bind, Reader.ReadBytes, Reader.CanRead.
  destruct (Z.of_nat 8 <=? _) eqn:H8; [|done].
  destruct (Z.of_nat 4 <=? _) eqn:H4; [|done]. apply Z.leb_le in H4. cbn in H4. lia.
Qed.

(** Null encryption: what an endpoint encrypts, its peer decrypts; and what the peer accepts is, byte for byte, what the
    endpoint makes of the same text and associated data, so any change to a packet that keeps its hash is a collision of FNV-1a. *)
Theorem null_decrypts_what_is_encrypted p n ad ct plaintext max :
  bytes ct → 0 <= max →
  Null_DecryptPacket (mk_null_decrypter (peer p)) n ad ct max = Some plaintext
  ↔ zlen plaintext <= max ∧ Null_EncryptPacket (mk_null_encrypter p) n ad plaintext (zlen ct) = Some ct.
Proof.
  intros Hb Hmax. rewrite Null_EncryptPacket_eq. pose proof (zlen_nonneg plaintext).
  destruct (Z.lt_ge_cases (zlen ct) 12) as [Hs|Hs].
  { rewrite Null_DecryptPacket_short by done. split; [done|]. destruct (Z.ltb_spec (zlen ct) (zlen plaintext + 12)); [by intros [_ ?]|lia]. }
  destruct (hash_prefix ct Hb Hs) as (h&pt&->&Hh). assert (Hh' : 0 <= h < two128) by (change two128 with (2 ^ 128); lia).
  rewrite Null_DecryptPacket_eq, zlen_app, SerializeUint128Short_length by done.
  assert (Hr : ∀ x, 0 <= null_hash p ad x < two128) by (intros x; apply FNV1a_128_range). split.
  - destruct (Z.ltb_spec max (zlen pt)); [discriminate|]. destruct (Z.eqb_spec (h mod 2 ^ 96) (null_hash p ad pt mod 2 ^ 96)) as [E|]; [|discriminate].
    intros [= ->]. split; [done|]. destruct (Z.ltb_spec (12 + zlen plaintext) (zlen plaintext + 12)); [lia|].
    by rewrite <-(SerializeUint128Short_mod (null_hash _ _ _)), <-E, SerializeUint128Short_mod.
  - intros [Hle E]. destruct (Z.ltb_spec (12 + zlen pt) (zlen plaintext + 12)); [discriminate|]. apply (inj Some) in E.
    assert (Hlen : length (SerializeUint128Short (null_hash p ad plaintext)) = length (SerializeUint128Short h)).
    { apply Nat2Z.inj. change (zlen (SerializeUint128Short (null_hash p ad plaintext)) = zlen (SerializeUint128Short h)).
      by rewrite !SerializeUint128Short_length. }
    apply app_inj_1 in E as [E ->]; [|done]. destruct (Z.ltb_spec max (zlen pt)); [lia|].
    by rewrite (SerializeUint128Short_inj _ _ (Hr pt) Hh' E), Z.eqb_refl.
Qed.

(** ** The authenticated pair *)

(** What the documentation of BoringSSL says of the functions. *)
Class BoringSSLLaws {B : BoringSSL} : Prop := {
  seal_opens : ∀ alg key tag nonce plaintext ad ct, EVP_AEAD_CTX_seal alg key tag nonce plaintext ad = Some ct →
    EVP_AEAD_CTX_open alg key tag nonce ct ad = Some plaintext ∧ zlen ct = zlen plaintext + tag ∧ bytes ct;
  AES_block : ∀ key block, zlen block = 16 → zlen (AES_encrypt key block) = 16 ∧ bytes (AES_encrypt key block);
  chacha_stream : ∀ input key nonce counter,
    zlen (CRYPTO_chacha_20 input key nonce counter) = zlen input ∧ bytes (CRYPTO_chacha_20 input key nonce counter);
}.

Section aead.
Context {B : BoringSSL}.

(** A crypter as its constructors and setters leave it. *)
Definition aead_wf (a : AeadBase) : Prop := 8 <= nonce_size_ a <= zlen (iv_ a) ∧ 0 <= auth_tag_size_ a ∧ bytes (iv_ a).

Lemma packet_number_bytes_be n : packet_number_bytes n = be_bytes 8 n.
Proof.
  unfold packet_number_bytes, be_bytes. change (seqZ 0 8) with [0; 1; 2; 3; 4; 5; 6; 7]. cbn [map le_bytes rev app].
  change 255 with (Z.ones 8). rewrite !land_low, !shiftr_div by lia. rewrite !Z.div_div by lia. cbn. by rewrite Z.div_1_r.
Qed.

Lemma zip_lxor_inj (l a b : list Z) : length a = length l → length b = length l →
  zip_with Z.lxor l a = zip_with Z.lxor l b → a = b.
Proof.
  revert a b. induction l as [|x l IH]; intros [|y a] [|z b] Ha Hb E; try discriminate; [done|]. cbn in *. injection E as Ex E.
  f_equal; [|apply IH; [lia|lia|done]]. apply (f_equal (Z.lxor x)) in Ex. by rewrite <-!Z.lxor_assoc, !Z.lxor_nilpotent, !Z.lxor_0_l in Ex.
Qed.

(** No two packets are encrypted with the same nonce: with either construction, different 64-bit packet numbers give
    different nonces, all of the size of the cipher, for any prefix or IV that has been set. *)
Theorem nonces_are_unique a n m :
  aead_wf a → is_u64 n → is_u64 m →
  zlen (NonceOf a n) = nonce_size_ a ∧ (NonceOf a n = NonceOf a m → n = m).
Proof.
  intros (Hsize&_&_) Hn Hm. unfold NonceOf. set (buffer := take (Z.to_nat (nonce_size_ a)) (iv_ a)).
  assert (Hb : length buffer = Z.to_nat (nonce_size_ a)) by (unfold buffer; rewrite length_take; unfold zlen in Hsize; lia).
  set (prefix := Z.to_nat (nonce_size_ a - 8)).
  assert (Hd : length (drop prefix buffer) = 8%nat) by (rewrite length_drop; unfold prefix; lia).
  assert (Ht : length (take prefix buffer) = prefix) by (rewrite length_take; unfold prefix; lia).
  assert (Hp : ∀ k, length (be_bytes 8 k) = 8%nat) by (intros; apply be_bytes_length).
  rewrite !packet_number_bytes_be. destruct (use_ietf_nonce_construction_ a).
  - split.
    + unfold zlen. rewrite length_app, length_zip_with, Ht, Hd, Hp. unfold prefix. lia.
    + intros E. apply app_inv_head in E. apply zip_lxor_inj in E; [|by rewrite Hd, Hp..].
      rewrite <-(be_val_bytes 8 n), <-(be_val_bytes 8 m), E by done. done.
  - split.
    + unfold zlen. rewrite length_app, le_bytes_length, Ht. unfold prefix. lia.
    + intros E. apply app_inv_head in E. rewrite <-(le_val_bytes 8 n), <-(le_val_bytes 8 m), E by done. done.
Qed.

(** A crypter with the keys of another that needs no diversification any more. *)
Definition same_keys (a b : AeadBase) : Prop :=
  aead_alg_ b = aead_alg_ a ∧ auth_tag_size_ b = auth_tag_size_ a ∧ nonce_size_ b = nonce_size_ a
  ∧ use_ietf_nonce_construction_ b = use_ietf_nonce_construction_ a ∧ mask_cipher b = mask_cipher a ∧ pne_key_ b = pne_key_ a
  ∧ take (Z.to_nat (nonce_size_ a)) (iv_ b) = take (Z.to_nat (nonce_size_ a)) (iv_ a) ∧ ctx_ b = ctx_ a
  ∧ have_preliminary_key_ b = false.

Context {BL : BoringSSLLaws}.

Lemma mask_length a sample : zlen sample = 16 → bytes sample → 5 <= zlen (Aead_mask a sample) ∧ bytes (Aead_mask a sample).
Proof.
  intros Hs Hb. unfold Aead_mask. rewrite Hs. cbn [negb Z.eqb Pos.eqb]. destruct (mask_cipher a).
  - destruct (AES_block (pne_key_ a) sample Hs) as [-> ?]. done.
  - unfold chacha_mask. destruct (Reader.ReadUInt32 _) as [counter r].
    destruct (chacha_stream (replicate 5 0) (pne_key_ a) (drop 4 sample) (default 0 counter)) as [-> ?]. done.
Qed.

Lemma aead_pair a b : 0 <= auth_tag_size_ a → same_keys a b → Paired a b.
Proof.
  intros Htag (H1&H2&H3&H4&H5&H6&H7&H8&H9). split; split.
  - intros n ad plaintext max ct _ _ _ E. cbn [EncryptPacket Aead_encrypter GetCiphertextSize DecryptPacket Aead_decrypter] in *.
    unfold Aead_EncryptPacket, Aead_GetCiphertextSize, Aead_DecryptPacket in *.
    destruct (Z.ltb_spec max (zlen plaintext + auth_tag_size_ a)); [discriminate|]. destruct (ctx_ a) as [key|] eqn:Hk; [|discriminate].
    destruct (seal_opens _ _ _ _ _ _ _ E) as (Hopen&Hlen&Hb). split; [done|]. split; [done|]. split; [lia|].
    intros max' Hmax. rewrite H9, H8, H2, H1. pose proof (zlen_nonneg plaintext). destruct (Z.ltb_spec (zlen ct) (auth_tag_size_ a)); [lia|].
    assert (Hn : NonceOf b n = NonceOf a n) by (unfold NonceOf; by rewrite H3, H4, H7). rewrite Hn, Hopen.
    destruct (Z.ltb_spec max' (zlen plaintext)); [lia|done].
  - intros n. cbn. unfold Aead_GetCiphertextSize. lia.
  - intros sample k r Hs Hb Hw Hr. cbn [MaskFromReader Aead_decrypter GenerateHeaderProtectionMask Aead_encrypter].
    destruct (mask_length a sample Hs Hb) as [Hl Hm]. split; [|done]. unfold Aead_mask_from_reader, Aead_mask.
    destruct (ReaderSpec.reads_ReadStringPiece (Reader.endianness r) sample r k Hw eq_refl Hr) as (r'&E&_). rewrite Hs in E.
    change (zlen sample = kHPSampleLen) in Hs. change kHPSampleLen with 16 in *. rewrite E, H5, H6, Hs. done.
Qed.

(** After a preliminary key nothing is decrypted until the diversification nonce comes. *)
Lemma preliminary_key_waits key a n ad ct max : Aead_DecryptPacket (SetPreliminaryKey key a).2 n ad ct max = None.
Proof.
  unfold SetPreliminaryKey. destruct (SetKey key a) as [ok b]. cbn [snd]. unfold Aead_DecryptPacket. cbn. by destruct (_ <? _).
Qed.
End aead.

(** C31. Every implementation keeps the promise of the interface: what the encrypter of a pair makes has the announced size and
    is decrypted by the other end to the same text, and both ends make the same mask, of five bytes at least. *)
Theorem crypters_are_paired {B : BoringSSL} {BL : BoringSSLLaws} p a b :
  0 <= auth_tag_size_ a → same_keys a b →
  Paired (mk_null_encrypter p) (mk_null_decrypter (peer p)) ∧ Paired a b.
Proof. intros Htag Hab. split; [apply null_pair|by apply aead_pair]. Qed.
End laws.

(** A cipher for the witnesses: the tag is zeroes. *)
Definition demo_ssl : BoringSSL := {|
  EVP_AEAD_CTX_init _ _ _ := true;
  EVP_AEAD_CTX_seal _ _ tag _ plaintext _ :=
    if forallb (λ b, (0 <=? b) && (b <? 256)) plaintext && (0 <=? tag) then Some (plaintext ++ replicate (Z.to_nat tag) 0) else None;
  EVP_AEAD_CTX_open _ _ tag _ ct _ := Some (take (length ct - Z.to_nat tag) ct);
  AES_encrypt _ _ := replicate 16 170;
  CRYPTO_chacha_20 input _ _ _ := map (λ _, 85) input;
  HKDF n _ _ _ := replicate (Z.to_nat n) 1;
|}.
#[local] Instance demo_ssl_laws : @BoringSSLLaws demo_ssl.
Proof.
  split; cbn.
  - intros _ _ tag _ plaintext _ ct E. destruct (forallb _ plaintext) eqn:Hf; [|discriminate]. cbn [andb] in E.
    destruct (Z.leb_spec 0 tag) as [Htag|]; [|discriminate]. apply (inj Some) in E as <-. rewrite length_app, length_replicate.
    split; [f_equal; apply take_app_length'; lia|]. split; [unfold zlen; rewrite length_app, length_replicate; lia|].
    apply Forall_app. split; [|apply Forall_replicate; lia].
    apply Forall_forall. intros x Hx. rewrite forallb_forall in Hf. specialize (Hf x ltac:(by apply list_elem_of_In)). lia.
  - intros _ block _. split; [done|]. repeat constructor; lia.
  - intros input _ _ _. unfold zlen. rewrite length_map. split; [done|]. apply Forall_forall. intros x Hx.
    apply list_elem_of_In, in_map_iff in Hx as (?&<-&_). lia.
Defined.
Definition demo_aead : AeadBase := mk_aead 1 16 12 12 true AesBase (replicate 32 7) (replicate 12 9) (Some (replicate 16 7)) false (replicate 16 5).

Lemma null_decrypts_what_is_encrypted_witness :
  let ct := default [] (Null_EncryptPacket (mk_null_encrypter IS_CLIENT) 1 [1; 2] [3; 4; 5] 15) in
  Null_DecryptPacket (mk_null_decrypter IS_SERVER) 1 [1; 2] ct 100 = Some [3; 4; 5].
Proof.
  intros ct. assert (Hb : bytes ct) by (vm_compute; repeat constructor; discriminate).
  apply (null_decrypts_what_is_encrypted IS_CLIENT 1 [1; 2] ct [3; 4; 5] 100 Hb); [discriminate|].
  split; [discriminate|vm_compute; reflexivity].
Defined.

Lemma nonces_are_unique_witness :
  zlen (NonceOf demo_aead 5) = 12 ∧ NonceOf demo_aead 5 ≠ NonceOf demo_aead 6.
Proof.
  assert (Hwf : aead_wf demo_aead).
  { split; [split; [discriminate|discriminate]|]. split; [discriminate|]. repeat constructor; discriminate. }
  destruct (nonces_are_unique demo_aead 5 6 Hwf ltac:(split; done) ltac:(split; done)) as [H1 H2].
  split; [exact H1|]. intros E. discriminate (H2 E).
Defined.

Lemma crypters_are_paired_witness :
  let e := mk_null_encrypter IS_CLIENT in
  @Paired _ _ (@Aead_encrypter swap_endian demo_ssl) (@Aead_decrypter swap_endian demo_ssl) demo_aead demo_aead
  ∧ Paired e (mk_null_decrypter IS_SERVER).
Proof.
  intros e. destruct (@crypters_are_paired swap_endian swap_endian_laws demo_ssl demo_ssl_laws IS_CLIENT demo_aead demo_aead) as [H1 H2];
    [discriminate| |split; [exact H2|exact H1]].
  unfold same_keys. cbn. done.
Defined.

(** Without a text the hash does not depend on who encrypts: an endpoint takes its own empty packet for one of its peer. *)
Example empty_text_has_no_perspective :
  let ct := default [] (Null_EncryptPacket (mk_null_encrypter IS_CLIENT) 1 [1; 2] [] 15) in
  Null_DecryptPacket (mk_null_decrypter IS_CLIENT) 1 [1; 2] ct 100 = Some [].
Proof. vm_compute. reflexivity. Qed.

End Crypters.
