(* ===== verification/Packets.v ===== *)
(** Packets in [QuicFramer] (quic/core/quic_framer.cc): building them from a header and frames, encrypting and decrypting them,
    protecting and unprotecting their headers, processing what comes from the network, public resets and stateless resets. The
    encrypters and decrypters are any that implement the interfaces of [Crypters]; the frames are those of [IetfFrames] and
    [GoogleFrames], the headers those of [PacketHeaders]. *)

From S2P Require Import Prelude Bytes OrderedSet IntervalSet DataWire PacketNumber PacketNumberWire.
From S2P Require Import StreamIdManager UnackedPacketMap IetfFrames GoogleFrames Versions PacketHeaders CryptoMessages Crypters.

Module Packets.
Import PacketNumberWire Versions PacketHeaders.
Import StreamIdManager(Perspective(..)).
Import UnackedPacketMap(EncryptionLevel(..), PacketNumberSpace(..)).
Import Crypters.

Definition kMaxIncomingPacketSize : Z := 1472.
Definition kMinRandomBytesLengthInStatelessReset : Z := 24.
Definition IETF_MAX_PACKET_NUMBER_LENGTH : Z := 4.
(** [TAG('P', 'R', 'S', 'T')] and the tags of its values. *)
Definition kPRST : Z := 1414746704.
Definition kCADR : Z := 1380204867.
Definition kRNON : Z := 1313820242.
Definition kEPID : Z := 1145655365.

(** ** The framer *)

Inductive error :=
  QUIC_INVALID_PACKET_HEADER | QUIC_INVALID_VERSION | QUIC_INVALID_VERSION_NEGOTIATION_PACKET | QUIC_INVALID_PUBLIC_RST_PACKET
| QUIC_DECRYPTION_FAILURE | QUIC_ENCRYPTION_FAILURE | QUIC_PACKET_TOO_LARGE
| IetfFrameError (e : IetfFramer.QuicErrorCode) | GoogleFrameError (e : GoogleFramer.QuicErrorCode).

(** A socket address: whether it is of IPv6, the bytes of the address, and the port. *)
Definition QuicSocketAddress : Type := bool * list Z * Z.
Record QuicPublicResetPacket := mk_reset {
  connection_id : list Z;
  nonce_proof : Z;
  client_address : option QuicSocketAddress;
  endpoint_id : list Z;
}.

(** The calls of the visitor but those that are only asked (see [visitor]); the frames of a packet are one entry. *)
Inductive call :=
  | OnError (e : error)
  | OnPacket
  | OnVersionNegotiationPacket (connection_id : list Z) (versions : list ParsedQuicVersion)
  | OnRetryPacket (original_connection_id new_connection_id retry_token : list Z)
  | OnPublicResetPacket (packet : QuicPublicResetPacket)
  | OnCoalescedPacket (packet : list Z)
  | OnAuthenticatedIetfStatelessResetPacket (token : list Z)
  | OnDecryptedPacket (level : EncryptionLevel)
  | OnPacketHeader (h : QuicPacketHeader)
  | OnIetfFrames (l : list IetfFramer.event)
  | OnGoogleFrames (l : list GoogleFramer.event)
  | OnPacketComplete.

(** The visitor's answers, and how it takes frames. *)
Record visitor := mk_visitor {
  OnUnauthenticatedPublicHeader : QuicPacketHeader → bool;
  OnProtocolVersionMismatch : ParsedQuicVersion → bool;
  OnUnauthenticatedHeader : QuicPacketHeader → bool;
  AcceptsPacketHeader : QuicPacketHeader → bool;
  IsValidStatelessResetToken : list Z → bool;
  hears_ietf : list IetfFramer.event → IetfFramer.event → bool;
  hears_google : list GoogleFramer.event → GoogleFramer.event → bool;
}.

Section packets.
Context {Enc Dec : Type} {QE : QuicEncrypter Enc} {QD : QuicDecrypter Dec} {EI : EndianImpl} {F : Flags}.

(** An encrypter and a decrypter for each level, or none; [None] of [alternative_decrypter_level_] is [NUM_ENCRYPTION_LEVELS].
    What frames need besides is in the two framers of frames, which do not change while packets are processed. *)
Record t := mk {
  headers : framer;
  encrypter_ : EncryptionLevel → option Enc;
  decrypter_ : EncryptionLevel → option Dec;
  decrypter_level_ : EncryptionLevel;
  alternative_decrypter_level_ : option EncryptionLevel;
  alternative_decrypter_latch_ : bool;
  last_nonce_ : list Z;
  last_timestamp_ : Z;
  ietf_frames : IetfFramer.framer;
  google_frames : GoogleFramer.framer;
  error_ : option error;
  calls : list call;
}.
Definition set_headers c (s : t) : t :=
  mk c (encrypter_ s) (decrypter_ s) (decrypter_level_ s) (alternative_decrypter_level_ s) (alternative_decrypter_latch_ s)
    (last_nonce_ s) (last_timestamp_ s) (ietf_frames s) (google_frames s) (error_ s) (calls s).
Definition set_encrypters f (s : t) : t :=
  mk (headers s) f (decrypter_ s) (decrypter_level_ s) (alternative_decrypter_level_ s) (alternative_decrypter_latch_ s)
    (last_nonce_ s) (last_timestamp_ s) (ietf_frames s) (google_frames s) (error_ s) (calls s).
Definition set_decrypters f level alternative latch (s : t) : t :=
  mk (headers s) (encrypter_ s) f level alternative latch
    (last_nonce_ s) (last_timestamp_ s) (ietf_frames s) (google_frames s) (error_ s) (calls s).
Definition set_last_nonce n (s : t) : t :=
  mk (headers s) (encrypter_ s) (decrypter_ s) (decrypter_level_ s) (alternative_decrypter_level_ s) (alternative_decrypter_latch_ s)
    n (last_timestamp_ s) (ietf_frames s) (google_frames s) (error_ s) (calls s).
Definition set_last_timestamp x (s : t) : t :=
  mk (headers s) (encrypter_ s) (decrypter_ s) (decrypter_level_ s) (alternative_decrypter_level_ s) (alternative_decrypter_latch_ s)
    (last_nonce_ s) x (ietf_frames s) (google_frames s) (error_ s) (calls s).
Definition tell (c : call) (s : t) : t :=
  mk (headers s) (encrypter_ s) (decrypter_ s) (decrypter_level_ s) (alternative_decrypter_level_ s) (alternative_decrypter_latch_ s)
    (last_nonce_ s) (last_timestamp_ s) (ietf_frames s) (google_frames s) (error_ s) (calls s ++ [c]).
Definition set_error e (s : t) : t :=
  mk (headers s) (encrypter_ s) (decrypter_ s) (decrypter_level_ s) (alternative_decrypter_level_ s) (alternative_decrypter_latch_ s)
    (last_nonce_ s) (last_timestamp_ s) (ietf_frames s) (google_frames s) e (calls s).
Definition RaiseError (e : error) (s : t) : bool * t := (false, tell (OnError e) (set_error (Some e) s)).

Definition version (s : t) : ParsedQuicVersion := version_ (headers s).
Definition transport_version_of (s : t) : Z := transport (headers s).

(** ** Installing crypters *)

Definition install {A} (level : EncryptionLevel) (x : A) (f : EncryptionLevel → A) : EncryptionLevel → A :=
  λ l, if decide (l = level) then x else f l.

Definition SetEncrypter (level : EncryptionLevel) (e : option Enc) (s : t) : t := set_encrypters (install level e (encrypter_ s)) s.
Definition HasEncrypterOfEncryptionLevel (level : EncryptionLevel) (s : t) : bool := included (encrypter_ s level).
Definition SetDecrypter (level : EncryptionLevel) (d : option Dec) (s : t) : t :=
  set_decrypters (install level d (install (decrypter_level_ s) None (decrypter_ s))) level (alternative_decrypter_level_ s)
    (alternative_decrypter_latch_ s) s.
Definition SetAlternativeDecrypter (level : EncryptionLevel) (d : option Dec) (latch_once_used : bool) (s : t) : t :=
  let f := match alternative_decrypter_level_ s with Some l => install l None (decrypter_ s) | None => decrypter_ s end in
  set_decrypters (install level d f) (decrypter_level_ s) (Some level) latch_once_used s.
Definition InstallDecrypter (level : EncryptionLevel) (d : option Dec) (s : t) : t :=
  set_decrypters (install level d (decrypter_ s)) (decrypter_level_ s) (alternative_decrypter_level_ s) (alternative_decrypter_latch_ s) s.
Definition RemoveDecrypter (level : EncryptionLevel) (s : t) : t := InstallDecrypter level None s.
Definition decrypter (s : t) : option Dec := decrypter_ s (decrypter_level_ s).
Definition alternative_decrypter (s : t) : option Dec :=
  match alternative_decrypter_level_ s with Some l => decrypter_ s l | None => None end.

Definition EnableMultiplePacketNumberSpacesSupport (s : t) : t :=
  let c := headers s in
  if supports_multiple_packet_number_spaces c then s else
  if PacketNumber.IsInitialized (largest_packet_number c) then s else
  set_headers (mk_framer (perspective c) (version_ c) (validate_flags c) (infer_packet_header_type_from_version c)
    (expected_server_connection_id_length c) (expected_client_connection_id_length c) (last_serialized_server_connection_id c)
    (last_serialized_client_connection_id c) (last_written_packet_number_length c) (largest_packet_number c) true
    (largest_decrypted_packet_numbers c)) s.

Definition all_levels : list EncryptionLevel :=
  [ENCRYPTION_INITIAL; ENCRYPTION_HANDSHAKE; ENCRYPTION_ZERO_RTT; ENCRYPTION_FORWARD_SECURE].
Definition GetMaxPlaintextSize (ciphertext_size : Z) (s : t) : Z :=
  foldl (λ min_plaintext_size level,
    match encrypter_ s level with
    | Some e => let size := Crypters.GetMaxPlaintextSize e ciphertext_size in if size <? min_plaintext_size then size else min_plaintext_size
    | None => min_plaintext_size
    end) ciphertext_size all_levels.

(** ** Building *)

(** The writer with the length put into the two bytes at the offset; [None]: it fails. There is an encrypter at the level. *)
Definition WriteIetfLongHeaderLength (h : QuicPacketHeader) (w : Writer.t) (length_field_offset : Z) (e : Enc) (s : t) : option Writer.t :=
  if negb (QuicVersionHasLongHeaderLengths (transport_version_of s)) || negb (version_flag h) || (length_field_offset =? 0)
  then Some w else
  if (Writer.length_ w <? length_field_offset)
     || (Writer.length_ w - length_field_offset <? kQuicDefaultLongHeaderLengthLength) then None else
  let length_to_write := Writer.length_ w - length_field_offset - kQuicDefaultLongHeaderLengthLength in
  let length_to_write := GetCiphertextSize e length_to_write in
  let offset := Z.to_nat length_field_offset in
  let room := Z.to_nat (Writer.length_ w - length_field_offset) in
  let '(ok, length_writer) := Writer.WriteVarInt62_len length_to_write kQuicDefaultLongHeaderLengthLength
    (Writer.mk (take room (drop offset (Writer.buffer w))) 0 NETWORK_BYTE_ORDER) in
  if ok then
    Some (Writer.mk (take offset (Writer.buffer w) ++ Writer.buffer length_writer ++ drop (offset + room) (Writer.buffer w))
      (Writer.length_ w) (Writer.endianness w))
  else None.

(** The packet built into a buffer of [packet_length] bytes, and the framer, which remembers the header; no packet is length 0.
    The error raised for frames of the other kind of QUIC is left out. *)
Definition BuildDataPacket (h : QuicPacketHeader) (frames : list IetfFramer.QuicFrame) (packet_length : nat) (e : Enc) (s : t)
    : option (list Z) * t :=
  let '(ok, st) := AppendPacketHeader h (mk_writing (Writer.new packet_length NETWORK_BYTE_ORDER) (headers s) 0) in
  let s := set_headers (sender st) s in
  if negb ok then (None, s) else
  if VersionHasIetfQuicFrames (transport_version_of s) then
    let '(n, w) := IetfFramer.AppendIetfFrames (ietf_frames s) frames (writer st) in
    if n =? 0 then (None, s) else
    match WriteIetfLongHeaderLength h w (length_field_offset st) e s with
    | Some w => (Some (take (Z.to_nat (Writer.length_ w)) (Writer.buffer w)), s)
    | None => (None, s)
    end
  else
    let '(ok, w) := GoogleFramer.append_frames (google_frames s)
      (GoogleFramer.mk_header (packet_number h) (packet_number_length h)) frames (writer st) in
    if ok then (Some (take (Z.to_nat (Writer.length_ w)) (Writer.buffer w)), s) else (None, s).

(** ** Header protection *)

Definition quic_crypto (v : ParsedQuicVersion) : bool := bool_decide (handshake_protocol v = PROTOCOL_QUIC_CRYPTO).


Definition IsLongHeader (type_byte : Z) : bool := has type_byte FLAGS_LONG_HEADER.

(** A reader of the memory that the writer writes to. *)
Definition over (w : Writer.t) (r : Reader.t) : Reader.t :=
  Reader.mk (Writer.buffer w) (Reader.len r) (Reader.pos r) (Reader.endianness r).

(** The loop over the bytes of the packet number, [n] of them. *)
Fixpoint mask_number (n : nat) (mask_reader buffer_reader : Reader.t) (w : Writer.t) : bool * Writer.t :=
  match n with
  | O => (true, w)
  | S n =>
      match Reader.ReadUInt8 mask_reader, Reader.ReadUInt8 (over w buffer_reader) with
      | (Some mask_byte, mask_reader), (Some buffer_byte, buffer_reader) =>
          let '(ok, w) := Writer.WriteUInt8 (Z.lxor buffer_byte mask_byte) w in
          if ok then mask_number n mask_reader buffer_reader w else (false, w)
      | _, _ => (false, w)
      end
  end.

(** The buffer after it; [None]: it fails. *)
Definition ApplyHeaderProtection (e : Enc) (buffer : list Z) (ad_len : Z) (s : t) : option (list Z) :=
  let c := headers s in
  if ad_len <? last_written_packet_number_length c then None else
  let pn_offset := ad_len - last_written_packet_number_length c in
  let sample_offset := pn_offset + 4 in
  let '(ok, sample_reader) := Reader.Seek sample_offset (Reader.new buffer NETWORK_BYTE_ORDER) in
  if negb ok then None else
  match Reader.ReadStringPiece kHPSampleLen sample_reader with
  | (None, _) => None
  | (Some sample, _) =>
      let mask := GenerateHeaderProtectionMask e sample in
      if bool_decide (mask = []) then None else
      let mask_reader := Reader.new mask NETWORK_BYTE_ORDER in
      let w := Writer.mk buffer 0 NETWORK_BYTE_ORDER in
      match Reader.ReadUInt8 (Reader.new buffer NETWORK_BYTE_ORDER) with
      | (None, _) => None
      | (Some type_byte, buffer_reader) =>
          let bitmask := if IsLongHeader type_byte then 15 else 31 in
          let header_type := GetLongHeaderType (transport c) type_byte in
          if IsLongHeader type_byte && bool_decide (header_type = None) then None else
          match Reader.ReadUInt8 mask_reader with
          | (None, _) => None
          | (Some mask_byte, mask_reader) =>
              let '(ok, w) := Writer.WriteUInt8 (Z.lxor type_byte (Z.land mask_byte bitmask)) w in
              if negb ok then None else
              let diversified := IsLongHeader type_byte && bool_decide (header_type = Some ZERO_RTT_PROTECTED) && is_server c
                && quic_crypto (version_ c) in
              if diversified && (pn_offset <=? kDiversificationNonceSize) then None else
              let pn_offset := if diversified then pn_offset - kDiversificationNonceSize else pn_offset in
              let '(ok1, w) := Writer.Seek (wrap64 (pn_offset - 1)) w in
              let '(ok2, buffer_reader) := Reader.Seek (wrap64 (pn_offset - 1)) buffer_reader in
              if negb (ok1 && ok2) then None else
              let '(ok, w) := mask_number (Z.to_nat (last_written_packet_number_length c)) mask_reader buffer_reader w in
              if ok then Some (Writer.buffer w) else None
          end
      end
  end.

(** The first bytes of the packet, up to the encrypted data. *)
Definition GetAssociatedDataFromEncryptedPacket (version : Z) (packet : list Z) (h : QuicPacketHeader) (includes_nonce : bool) : list Z :=
  take (Z.to_nat (GetPacketHeaderSize_of version (GetIncludedDestinationConnectionIdLength h) (GetIncludedSourceConnectionIdLength h)
    (version_flag h) includes_nonce (packet_number_length h) (retry_token_length_length h) (zlen (retry_token h)) (length_length h))) packet.

(** The loop that reads and unmasks the packet number: its bytes, if all could be read. *)
Fixpoint unmask_number (n : nat) (mask_reader reader : Reader.t) (pn_writer : Writer.t) : bool * Reader.t * Writer.t :=
  match n with
  | O => (true, reader, pn_writer)
  | S n =>
      match Reader.ReadUInt8 mask_reader with
      | (None, _) => (false, reader, pn_writer)
      | (Some mask_byte, mask_reader) =>
          match Reader.ReadUInt8 reader with
          | (None, reader) => (false, reader, pn_writer)
          | (Some protected_pn_byte, reader) =>
              let '(ok, pn_writer) := Writer.WriteUInt8 (Z.lxor protected_pn_byte mask_byte) pn_writer in
              if ok then unmask_number n mask_reader reader pn_writer else (false, reader, pn_writer)
          end
      end
  end.

(** The full packet number and the associated data, if it succeeds; the header with the unmasked type byte, and the reader. *)
Definition RemoveHeaderProtection (r : Reader.t) (packet : list Z) (h : QuicPacketHeader) (s : t)
    : option (Z * list Z) * QuicPacketHeader * Reader.t :=
  let c := headers s in
  match GetEncryptionLevel h with
  | None => (None, h, r)
  | Some expected_decryption_level =>
  match decrypter_ s expected_decryption_level with
  | None => (None, h, r)
  | Some d =>
  let has_diversification_nonce := bool_decide (form h = IETF_QUIC_LONG_HEADER_PACKET)
    && bool_decide (long_packet_type h = ZERO_RTT_PROTECTED) && is_client c && quic_crypto (version_ c) in
  let sample_reader := Reader.new (Reader.PeekRemainingPayload r) NETWORK_BYTE_ORDER in
  match Reader.ReadStringPiece 4 sample_reader with
  | (None, _) => (None, h, r)
  | (Some _, sample_reader) =>
  let '(ok, sample_reader) := if has_diversification_nonce then Reader.Seek kDiversificationNonceSize sample_reader else (true, sample_reader) in
  if negb ok then (None, h, r) else
  let mask := MaskFromReader d sample_reader in
  match Reader.ReadUInt8 (Reader.new mask NETWORK_BYTE_ORDER) with
  | (None, _) => (None, h, r)
  | (Some mask_byte, mask_reader) =>
  let bitmask := if IsLongHeader (type_byte h) then 15 else 31 in
  let h := set_type_byte (Z.lxor (type_byte h) (Z.land mask_byte bitmask)) h in
  let h := set_number_length (two_bits_length (type_byte h)) h in
  let '(ok, r, pn_writer) := unmask_number (length_of (packet_number_length h)) mask_reader r
    (Writer.new (Z.to_nat IETF_MAX_PACKET_NUMBER_LENGTH) NETWORK_BYTE_ORDER) in
  if negb ok then (None, h, r) else
  let pn := take (Z.to_nat (Writer.length_ pn_writer)) (Writer.buffer pn_writer) in
  match base_packet_number c h with
  | None => (None, h, r)
  | Some base =>
  match ProcessAndCalculatePacketNumber (packet_number_length h) base (Reader.new pn NETWORK_BYTE_ORDER) with
  | (None, _) => (None, h, r)
  | (Some full_packet_number, _) =>
  let ad := GetAssociatedDataFromEncryptedPacket (transport c) packet h has_diversification_nonce in
  let ad_writer := Writer.mk ad 0 NETWORK_BYTE_ORDER in
  let '(ok, ad_writer) := Writer.WriteUInt8 (type_byte h) ad_writer in
  if negb ok then (None, h, r) else
  let seek_len := wrap64 (Writer.remaining ad_writer - Z.of_nat (length_of (packet_number_length h))) in
  let seek_len := if has_diversification_nonce then wrap64 (seek_len - kDiversificationNonceSize) else seek_len in
  let '(ok, ad_writer) := Writer.andthen (Writer.Seek seek_len) (Writer.WriteBytes pn) ad_writer in
  if negb ok then (None, h, r) else (Some (full_packet_number, Writer.buffer ad_writer), h, r)
  end end end end end end.

(** ** Encryption *)

(** What becomes of a header and a text in a buffer of [buffer_len] bytes: encrypted and protected. No packet is length 0. *)
Definition encrypt (level : EncryptionLevel) (packet_number : Z) (associated_data plaintext : list Z) (buffer_len : Z) (s : t)
    : option (list Z) * t :=
  match encrypter_ s level with
  | None => (None, (RaiseError QUIC_ENCRYPTION_FAILURE s).2)
  | Some e =>
      match EncryptPacket e packet_number associated_data plaintext (wrap64 (buffer_len - zlen associated_data)) with
      | None => (None, (RaiseError QUIC_ENCRYPTION_FAILURE s).2)
      | Some ciphertext =>
          let buffer := associated_data ++ ciphertext in
          if HasHeaderProtection (version s) then
            match ApplyHeaderProtection e buffer (zlen associated_data) s with
            | Some buffer => (Some buffer, s)
            | None => (None, (RaiseError QUIC_ENCRYPTION_FAILURE s).2)
            end
          else (Some buffer, s)
      end
  end.
(** The packet is in the buffer, its header [ad_len] bytes long. *)
Definition EncryptInPlace (level : EncryptionLevel) (packet_number ad_len buffer_len : Z) (packet : list Z) (s : t) : option (list Z) * t :=
  encrypt level packet_number (take (Z.to_nat ad_len) packet) (drop (Z.to_nat ad_len) packet) buffer_len s.
(** The packet knows the lengths in its header [h]. *)
Definition EncryptPayload (level : EncryptionLevel) (packet_number : Z) (h : QuicPacketHeader) (packet : list Z) (buffer_len : Z) (s : t)
    : option (list Z) * t :=
  let start := Z.to_nat (GetStartOfEncryptedData (transport_version_of s) h) in
  encrypt level packet_number (take start packet) (drop start packet) buffer_len s.

(** ** Decryption *)

(** The text and the level that is reported, if a decrypter accepts. *)
Definition DecryptPayload (encrypted associated_data : list Z) (h : QuicPacketHeader) (buffer_length : Z) (s : t)
    : option (list Z * EncryptionLevel) * t :=
  let c := headers s in
  let decrypt := λ (d : Dec), DecryptPacket d (packet_number h) associated_data encrypted buffer_length in
  if KnowsWhichDecrypterToUse (version s) then
    match GetEncryptionLevel h with
    | None => (None, s)
    | Some level =>
        match decrypter_ s level with
        | None => (None, s)
        | Some d =>
            let '(d, s) :=
              match nonce h with
              | Some n =>
                  if bool_decide (level = ENCRYPTION_ZERO_RTT) && is_client c then
                    let d := (SetDiversificationNonce d n).2 in (d, InstallDecrypter level (Some d) s)
                  else (d, s)
              | None => (d, s)
              end in
            match decrypt d with
            | Some plaintext => (Some (plaintext, level), tell (OnDecryptedPacket level) s)
            | None => (None, s)
            end
        end
    end
  else
    match decrypter s with
    | None => (None, s)
    | Some d =>
        match decrypt d with
        | Some plaintext => (Some (plaintext, decrypter_level_ s), tell (OnDecryptedPacket (decrypter_level_ s)) s)
        | None =>
            match alternative_decrypter_level_ s, alternative_decrypter s with
            | Some alternative_level, Some a =>
                let '(a, s) := match nonce h with
                  | Some n => let a := (SetDiversificationNonce a n).2 in (a, InstallDecrypter alternative_level (Some a) s)
                  | None => (a, s)
                  end in
                let try_alternative_decryption :=
                  negb (bool_decide (alternative_level = ENCRYPTION_ZERO_RTT) && is_client c && negb (included (nonce h))) in
                match (if try_alternative_decryption then decrypt a else None) with
                | None => (None, s)
                | Some plaintext =>
                    let s := tell (OnDecryptedPacket alternative_level) s in
                    let decrypted_level := decrypter_level_ s in
                    (Some (plaintext, decrypted_level),
                     if alternative_decrypter_latch_ s
                     then set_decrypters (decrypter_ s) alternative_level None (alternative_decrypter_latch_ s) s
                     else set_decrypters (decrypter_ s) alternative_level (Some (decrypter_level_ s)) (alternative_decrypter_latch_ s) s)
                end
            | _, _ => (None, s)
            end
        end
    end.

(** ** Processing *)

Section visited.
Variable v : visitor.

Definition IsIetfStatelessResetPacket (h : QuicPacketHeader) : bool :=
  bool_decide (form h = IETF_QUIC_SHORT_HEADER_PACKET)
  && match possible_stateless_reset_token h with Some token => IsValidStatelessResetToken v token | None => false end.
Definition hear_stateless_reset (h : QuicPacketHeader) (s : t) : bool * t :=
  (true, tell (OnAuthenticatedIetfStatelessResetPacket (default [] (possible_stateless_reset_token h))) s).

(** The largest packet number is that of a decrypted packet. *)
Definition update_largest (decrypted_level : EncryptionLevel) (h : QuicPacketHeader) (s : t) : t :=
  let c := headers s in
  set_headers
    (if supports_multiple_packet_number_spaces c then
       let space := UnackedPacketMap.QuicUtils_GetPacketNumberSpace decrypted_level in
       let largest := largest_decrypted_packet_numbers c in
       set_largest_decrypted (UnackedPacketMap.set_space largest space
         (PacketNumber.UpdateMax (UnackedPacketMap.get_space largest space) (packet_number h))) c
     else set_largest (PacketNumber.UpdateMax (largest_packet_number c) (packet_number h)) c) s.

Definition ProcessIetfFrameData (plaintext : list Z) (s : t) : bool * t :=
  let '(result, told) := IetfFramer.ProcessIetfFrameData (ietf_frames s) (hears_ietf v) (Reader.new plaintext NETWORK_BYTE_ORDER) in
  let s := tell (OnIetfFrames told) s in
  match result with IetfFramer.Raised e => RaiseError (IetfFrameError e) s | _ => (true, s) end.
Definition ProcessFrameData (plaintext : list Z) (h : QuicPacketHeader) (s : t) : bool * t :=
  let '(result, st) := GoogleFramer.ProcessFrameData (hears_google v) (google_frames s)
    (GoogleFramer.mk_header (packet_number h) (packet_number_length h))
    (GoogleFramer.mk_state (Reader.new plaintext NETWORK_BYTE_ORDER) [] (last_timestamp_ s)) in
  let s := tell (OnGoogleFrames (GoogleFramer.told st)) (set_last_timestamp (GoogleFramer.last_timestamp st) s) in
  match result with GoogleFramer.Raised e => RaiseError (GoogleFrameError e) s | _ => (true, s) end.

(** What [ProcessIetfDataPacket] and [ProcessDataPacket] do with a decrypted packet. *)
Definition process_decrypted (ietf : bool) (packet plaintext : list Z) (decrypted_level : EncryptionLevel) (h : QuicPacketHeader) (s : t)
    : bool * t :=
  let s := update_largest decrypted_level h s in
  let s := tell (OnPacketHeader h) s in
  if negb (AcceptsPacketHeader v h) then (true, s) else
  if kMaxIncomingPacketSize <? zlen packet then RaiseError QUIC_PACKET_TOO_LARGE s else
  let '(ok, s) := if ietf then ProcessIetfFrameData plaintext s else ProcessFrameData plaintext h s in
  if ok then (true, tell OnPacketComplete s) else (false, s).

(** The packet number, the associated data if the header was protected, the header, the reader. *)
Inductive numbered := Numbered (h : QuicPacketHeader) (ad : list Z) (r : Reader.t) | Ended (result : bool * t).
Definition process_packet_number (r : Reader.t) (h : QuicPacketHeader) (packet : list Z) (s : t) : numbered :=
  let c := headers s in
  if negb (bool_decide (form h = IETF_QUIC_SHORT_HEADER_PACKET) || negb (bool_decide (long_packet_type h = VERSION_NEGOTIATION)))
  then Numbered h [] r else
  match base_packet_number c h with
  | None => Ended (RaiseError QUIC_INVALID_PACKET_HEADER s)
  | Some base =>
      let number (full_packet_number : option Z) (ad : list Z) (h : QuicPacketHeader) (r : Reader.t) :=
        match full_packet_number with
        | Some n =>
            if IsValidFullPacketNumber n (transport c) then Numbered (set_number n h) ad r
            else if IsIetfStatelessResetPacket h then Ended (hear_stateless_reset h s)
            else Ended (RaiseError QUIC_INVALID_PACKET_HEADER s)
        | None =>
            if IsIetfStatelessResetPacket h then Ended (hear_stateless_reset h s)
            else Ended (RaiseError QUIC_DECRYPTION_FAILURE s)
        end in
      if HasHeaderProtection (version_ c) then
        match RemoveHeaderProtection r packet h s with
        | (Some (n, ad), h, r) => number (Some n) ad h r
        | (None, h, r) => number None [] h r
        end
      else
        match ProcessAndCalculatePacketNumber (packet_number_length h) base r with
        | (Some n, r) => number (Some n) [] h r
        | (None, _) => Ended (RaiseError QUIC_INVALID_PACKET_HEADER s)
        end
  end.

(** The bytes that may be a stateless reset token: the last 16, of a short header, for a client. *)
Definition peek_token (r : Reader.t) (h : QuicPacketHeader) (s : t) : option (list Z) :=
  let remaining := Reader.PeekRemainingPayload r in
  if bool_decide (form h = IETF_QUIC_SHORT_HEADER_PACKET) && is_client (headers s) && (16 <=? zlen remaining)
  then Some (drop (length remaining - 16) remaining) else None.

Definition ProcessIetfDataPacket (r : Reader.t) (h : QuicPacketHeader) (packet : list Z) (buffer_length : Z) (s : t) : bool * t :=
  let c := headers s in
  let h := set_length 0 0 (set_retry_token 0 [] h) in
  let h := match peek_token r h s with Some token => set_reset_token (Some token) h | None => h end in
  match MaybeProcessIetfInitialRetryToken h r with
  | (None, _) => RaiseError QUIC_INVALID_PACKET_HEADER s
  | (Some h, r) =>
  match MaybeProcessIetfLength c h r with
  | (None, _) => RaiseError QUIC_INVALID_PACKET_HEADER s
  | (Some (h, coalesced), r) =>
  let s := match coalesced with Some data => tell (OnCoalescedPacket data) s | None => s end in
  match process_packet_number r h packet s with
  | Ended result => result
  | Numbered h ad r =>
  let has_nonce := bool_decide (form h = IETF_QUIC_LONG_HEADER_PACKET) && bool_decide (long_packet_type h = ZERO_RTT_PROTECTED)
    && is_client c && quic_crypto (version_ c) in
  let '(n, r) := if has_nonce then Reader.ReadBytes kDiversificationNonceSize r else (Some [], r) in
  match n with
  | None => RaiseError QUIC_INVALID_PACKET_HEADER s
  | Some n =>
  let s := if has_nonce then set_last_nonce n s else s in
  let h := set_nonce (if has_nonce then Some n else None) h in
  if negb (OnUnauthenticatedHeader v h) then (false, s) else
  let '(encrypted, _) := Reader.ReadRemainingPayload r in
  let ad := if HasHeaderProtection (version_ c) then ad
    else GetAssociatedDataFromEncryptedPacket (transport c) packet h has_nonce in
  match DecryptPayload encrypted ad h buffer_length s with
  | (None, s) => if IsIetfStatelessResetPacket h then hear_stateless_reset h s else RaiseError QUIC_DECRYPTION_FAILURE s
  | (Some (plaintext, level), s) =>
      process_decrypted (VersionHasIetfQuicFrames (transport c)) packet plaintext level h s
  end end end end end.

Definition ProcessDataPacket (r : Reader.t) (h : QuicPacketHeader) (packet : list Z) (buffer_length : Z) (s : t) : bool * t :=
  let c := headers s in
  match ProcessUnauthenticatedHeader c h r with
  | (None, _) => RaiseError QUIC_INVALID_PACKET_HEADER s
  | (Some h, r) =>
  if negb (OnUnauthenticatedHeader v h) then (false, s) else
  if KnowsWhichDecrypterToUse (version_ c) then RaiseError QUIC_INVALID_PACKET_HEADER s else
  let '(encrypted, _) := Reader.ReadRemainingPayload r in
  let ad := GetAssociatedDataFromEncryptedPacket (transport c) packet h (included (nonce h)) in
  match DecryptPayload encrypted ad h buffer_length s with
  | (None, s) => RaiseError QUIC_DECRYPTION_FAILURE s
  | (Some (plaintext, level), s) => process_decrypted false packet plaintext level h s
  end end.

(** ** Public resets *)

Definition kIPv4 : Z := 2.
Definition kIPv6 : Z := 10.
(** [QuicSocketAddressCoder]; the numbers as they are in memory. *)
Definition EncodeAddress (a : QuicSocketAddress) : list Z :=
  let '(v6, ip, port) := a in le_bytes 2 (if v6 then kIPv6 else kIPv4) ++ ip ++ le_bytes 2 port.
Definition DecodeAddress (data : list Z) : option QuicSocketAddress :=
  if zlen data <? 2 then None else
  let address_family := le_val (take 2 data) in
  let data := drop 2 data in
  match (if address_family =? kIPv4 then Some 4%nat else if address_family =? kIPv6 then Some 16%nat else None) with
  | None => None
  | Some ip_length =>
      if zlen data <? Z.of_nat ip_length then None else
      if negb (zlen (drop ip_length data) =? 2) then None else
      Some (address_family =? kIPv6, take ip_length data, le_val (drop ip_length data))
  end.

Definition ProcessPublicResetPacket (r : Reader.t) (h : QuicPacketHeader) (s : t) : bool * t :=
  let '(payload, _) := Reader.ReadRemainingPayload r in
  match CryptoMessages.ParseMessage payload with
  | None => RaiseError QUIC_INVALID_PUBLIC_RST_PACKET s
  | Some reset =>
      if negb (CryptoMessages.tag_ reset =? kPRST) then RaiseError QUIC_INVALID_PUBLIC_RST_PACKET s else
      let '(e, nonce_proof) := CryptoMessages.GetUint64 reset kRNON in
      if negb (bool_decide (e = CryptoMessages.QUIC_NO_ERROR)) then RaiseError QUIC_INVALID_PUBLIC_RST_PACKET s else
      let address := match CryptoMessages.GetStringPiece reset kCADR with Some a => DecodeAddress a | None => None end in
      let endpoint_id := match CryptoMessages.GetStringPiece reset kEPID with
        | Some id => if is_client (headers s) then id ++ [0] else [] | None => [] end in
      (true, tell (OnPublicResetPacket
        (mk_reset (GetServerConnectionIdAsRecipient h (perspective (headers s))) nonce_proof address endpoint_id)) s)
  end.

(** ** Packets *)

Definition packet_has_ietf_header (packet : list Z) (s : t) : bool :=
  if infer_packet_header_type_from_version (headers s) then VersionHasIetfInvariantHeader (transport_version_of s)
  else match packet with type :: _ => IsIetfPacketHeader type | [] => false end.

Definition ProcessPacket (packet : list Z) (s : t) : bool * t :=
  let c := headers s in
  let ietf := packet_has_ietf_header packet s in
  let s := tell OnPacket s in
  match ProcessPublicHeader c ietf QuicPacketHeader_new (Reader.new packet NETWORK_BYTE_ORDER) with
  | (None, _) => RaiseError QUIC_INVALID_PACKET_HEADER s
  | (Some h, r) =>
  if negb (OnUnauthenticatedPublicHeader v h) then (true, s) else
  if IsVersionNegotiation c h ietf then
    if is_client c then
      match ProcessVersionNegotiationPacket c h r with
      | (Some (id, versions), _) => (true, tell (OnVersionNegotiationPacket id versions) s)
      | (None, _) => RaiseError QUIC_INVALID_VERSION_NEGOTIATION_PACKET s
      end
    else RaiseError QUIC_INVALID_VERSION_NEGOTIATION_PACKET s
  else
  let other_version := version_flag h && negb (bool_decide (PacketHeaders.version h = version_ c)) in
  if other_version && is_server c && negb (OnProtocolVersionMismatch v (PacketHeaders.version h)) then (true, s) else
  if other_version && is_client c then RaiseError QUIC_INVALID_VERSION s else
  if bool_decide (long_packet_type h = RETRY) then
    match ProcessRetryPacket h r with
    | (Some (original_id, new_id, token), _) => (true, tell (OnRetryPacket original_id new_id token) s)
    | (None, _) => (false, s)
    end
  else if reset_flag h then ProcessPublicResetPacket r h s
  else
    let buffer_length := Z.max kMaxIncomingPacketSize (zlen packet) in
    if ietf then ProcessIetfDataPacket r h packet buffer_length s else ProcessDataPacket r h packet buffer_length s
  end.
End visited.

(** ** Resets *)

(** The message is there if it could be serialized; [None] is [nullptr]. *)
Definition BuildPublicResetPacket (packet : QuicPublicResetPacket) : option (list Z) :=
  let reset := CryptoMessages.set_tag kPRST CryptoMessages.CryptoHandshakeMessage_new in
  let reset := CryptoMessages.SetValue 8 kRNON (nonce_proof packet) reset in
  let reset := match client_address packet with
    | Some a => CryptoMessages.SetStringPiece kCADR (EncodeAddress a) reset | None => reset end in
  let reset := match endpoint_id packet with [] => reset | id => CryptoMessages.SetStringPiece kEPID id reset end in
  match (CryptoMessages.GetSerialized reset).1 with
  | None => None
  | Some reset_serialized =>
      let flags := Z.lor (wrap8 (Z.lor PACKET_PUBLIC_FLAGS_RST PACKET_PUBLIC_FLAGS_8BYTE_CONNECTION_ID))
        (wrap8 PACKET_PUBLIC_FLAGS_8BYTE_CONNECTION_ID_OLD) in
      build (kPublicFlagsSize + zlen (connection_id packet) + zlen reset_serialized)
        (Writer.andthen (Writer.andthen (Writer.WriteUInt8 flags) (Writer.WriteConnectionId (connection_id packet)))
           (Writer.WriteBytes reset_serialized))
  end.

Definition BuildIetfStatelessResetPacket (RandBytes : Z → list Z) (stateless_reset_token : list Z) : option (list Z) :=
  let type := Z.lor (Z.lor (Z.lor (Z.lor 0 FLAGS_FIXED_BIT) FLAGS_SHORT_HEADER_RESERVED_1) FLAGS_SHORT_HEADER_RESERVED_2)
    (PacketNumberLengthToOnWireValue QUIC_VERSION_UNSUPPORTED PACKET_1BYTE_PACKET_NUMBER) in
  build (kPacketHeaderTypeSize + kMinRandomBytesLengthInStatelessReset + zlen stateless_reset_token)
    (Writer.andthen (Writer.andthen (Writer.WriteUInt8 type) (Writer.WriteRandomBytes RandBytes kMinRandomBytesLengthInStatelessReset))
       (Writer.WriteBytes stateless_reset_token)).

(** ** Masks *)

Context {EL : EndianLaws}.

Lemma lxor_byte a b : is_byte a → is_byte b → is_byte (Z.lxor a b).
Proof.
  intros Ha Hb. rewrite <-(Z.mod_small (Z.lxor a b) (2 ^ 8)); [by apply Z.mod_pos_bound|].
  assert (Hn : 0 <= Z.lxor a b) by (apply Z.lxor_nonneg; lia). split; [done|].
  destruct (Z.eq_dec (Z.lxor a b) 0) as [->|Hz]; [done|]. apply Z.log2_lt_pow2; [lia|].
  eapply Z.le_lt_trans; [apply Z.log2_lxor; lia|]. apply Z.max_lub_lt.
  - destruct (Z.eq_dec a 0) as [->|]; [done|]. apply Z.log2_lt_pow2; [lia|]. lia.
  - destruct (Z.eq_dec b 0) as [->|]; [done|]. apply Z.log2_lt_pow2; [lia|]. lia.
Qed.

Lemma lxor_twice a b : Z.lxor (Z.lxor a b) b = a.
Proof. by rewrite Z.lxor_assoc, Z.lxor_nilpotent, Z.lxor_0_r. Qed.

(** The bytes of the number under the mask, and back. *)
Definition masked (l mask : list Z) : list Z := zip_with Z.lxor l mask.
Lemma masked_length l mask : (length l <= length mask)%nat → length (masked l mask) = length l.
Proof. intros H. unfold masked. rewrite length_zip_with. lia. Qed.
Lemma masked_bytes l mask : bytes l → bytes mask → bytes (masked l mask).
Proof.
  intros Hl. revert mask. induction Hl as [|x l Hx Hl IH]; intros mask Hm; [constructor|]. destruct Hm as [|y mask Hy Hm]; [constructor|].
  constructor; [by apply lxor_byte|by apply IH].
Qed.
Lemma masked_twice l mask : (length l <= length mask)%nat → masked (masked l mask) mask = l.
Proof.
  revert mask. induction l as [|x l IH]; intros [|y mask] H; cbn in *; try lia; [done|done|]. f_equal; [apply lxor_twice|apply IH; lia].
Qed.

(** Reading a byte. *)
Lemma read_one_byte r x k : ReaderSpec.wf r → ReaderSpec.rest r = x :: k → is_byte x →
  ∃ r', Reader.ReadUInt8 r = (Some x, r') ∧ ReaderSpec.wf r' ∧ ReaderSpec.rest r' = k ∧ Reader.endianness r' = Reader.endianness r
    ∧ Reader.pos r' = Reader.pos r + 1 ∧ Reader.len r' = Reader.len r ∧ Reader.data r' = Reader.data r.
Proof.
  intros Hw Hr Hx. destruct (ReaderSpec.reads_ReadUInt8 (Reader.endianness r) x Hx r k Hw eq_refl Hr) as (r'&E&Hw'&Hr'&He').
  exists r'. split; [done|]. split; [done|]. split; [done|]. split; [done|]. revert E. unfold Reader.ReadUInt8, Reader.bind, Reader.ReadBytes.
  destruct (Reader.CanRead 1 r); [|done]. intros [= _ <-]. done.
Qed.

Lemma write_byte A x y k e : Writer.WriteUInt8 y (Writer.mk (A ++ x :: k) (zlen A) e) = (true, Writer.mk ((A ++ [y]) ++ k) (zlen (A ++ [y])) e).
Proof.
  unfold Writer.WriteUInt8, Writer.WriteBytes, Writer.BeginWrite, Writer.capacity. cbn [Writer.buffer Writer.length_].
  rewrite !zlen_app, zlen_cons. change (zlen [y]) with 1. pose proof (zlen_nonneg k).
  destruct (Z.ltb_spec (zlen A + (1 + zlen k)) (zlen A)); [lia|]. destruct (Z.ltb_spec (zlen A + (1 + zlen k) - zlen A) 1); [lia|].
  unfold Writer.put. cbn [Writer.buffer Writer.length_ Writer.endianness]. unfold zlen at 1 2 3. rewrite Nat2Z.id, take_app_length.
  rewrite <-app_assoc. do 3 f_equal. f_equal. change (length [y]) with 1%nat. rewrite <-(drop_drop _ 1), drop_app_length. done.
Qed.

(** Masking the packet number, in the memory it is read from. *)
Lemma mask_number_spec pn A tail mask r1 k1 r2 e :
  bytes pn → bytes mask → (length pn <= length mask)%nat →
  ReaderSpec.wf r1 → ReaderSpec.rest r1 = mask ++ k1 →
  Reader.pos r2 = zlen A → Reader.len r2 = zlen (A ++ pn ++ tail) →
  ∃ n, mask_number (length pn) r1 r2 (Writer.mk (A ++ pn ++ tail) (zlen A) e) = (true, Writer.mk (A ++ masked pn mask ++ tail) n e).
Proof.
  intros Hpn. revert A mask r1 r2. induction Hpn as [|x pn Hx Hpn IH]; intros A mask r1 r2 Hm Hl Hw1 Hr1 Hp2 Hl2; [by eexists|].
  destruct Hm as [|m mask Hm Hms]; cbn in Hl; [lia|]. cbn [length mask_number].
  destruct (read_one_byte r1 m (mask ++ k1) Hw1 Hr1 Hm) as (r1'&->&Hw1'&Hr1'&_). set (w := Writer.mk _ _ _).
  assert (Hw2 : ReaderSpec.wf (over w r2)).
  { unfold ReaderSpec.wf, over. cbn. rewrite Hp2, Hl2. split; [|unfold w; cbn; lia]. rewrite zlen_app. pose proof (zlen_nonneg A). pose proof (zlen_nonneg ((x :: pn) ++ tail)). lia. }
  assert (Hr2 : ReaderSpec.rest (over w r2) = x :: pn ++ tail).
  { unfold ReaderSpec.rest, over. cbn [Reader.len Reader.pos Reader.data]. rewrite Hp2, Hl2. unfold w. cbn [Writer.buffer].
    unfold zlen at 3. rewrite Nat2Z.id, drop_app_length. rewrite zlen_app. apply take_ge. unfold zlen. cbn [app]. lia. }
  destruct (read_one_byte (over w r2) x (pn ++ tail) Hw2 Hr2 Hx) as (r2'&->&_&_&_&Hp2'&Hl2'&_). unfold w. cbn [app]. rewrite write_byte.
  destruct (IH (A ++ [Z.lxor x m]) mask r1' r2' Hms ltac:(lia) Hw1' Hr1') as (n&E).
  - rewrite Hp2'. unfold over. cbn [Reader.pos]. by rewrite Hp2, zlen_app.
  - rewrite Hl2'. unfold over. cbn [Reader.len]. rewrite Hl2, !zlen_app, zlen_cons. change (zlen [Z.lxor x m]) with 1. lia.
  - exists n. rewrite E. cbn [masked zip_with]. by rewrite <-app_assoc.
Qed.

(** Unmasking it into a buffer of its own. *)
Lemma unmask_number_spec pn acc room mask r1 k1 r2 k2 e :
  bytes pn → bytes mask → (length pn <= length mask)%nat → (length pn <= length room)%nat →
  ReaderSpec.wf r1 → ReaderSpec.rest r1 = mask ++ k1 → ReaderSpec.wf r2 → ReaderSpec.rest r2 = pn ++ k2 →
  ∃ r2', unmask_number (length pn) r1 r2 (Writer.mk (acc ++ room) (zlen acc) e)
    = (true, r2', Writer.mk ((acc ++ masked pn mask) ++ drop (length pn) room) (zlen (acc ++ masked pn mask)) e)
    ∧ ReaderSpec.wf r2' ∧ ReaderSpec.rest r2' = k2 ∧ Reader.endianness r2' = Reader.endianness r2.
Proof.
  intros Hpn. revert acc room mask r1 r2. induction Hpn as [|x pn Hx Hpn IH]; intros acc room mask r1 r2 Hm Hl Hroom Hw1 Hr1 Hw2 Hr2.
  { exists r2. cbn [length unmask_number masked zip_with drop]. rewrite app_nil_r, drop_0. done. }
  destruct Hm as [|m mask Hm Hms]; cbn in Hl; [lia|]. destruct room as [|y room]; cbn in Hroom; [lia|]. cbn [length unmask_number].
  destruct (read_one_byte r1 m (mask ++ k1) Hw1 Hr1 Hm) as (r1'&->&Hw1'&Hr1'&_).
  destruct (read_one_byte r2 x (pn ++ k2) Hw2 Hr2 Hx) as (r2'&->&Hw2'&Hr2'&He2'&_). rewrite write_byte.
  destruct (IH (acc ++ [Z.lxor x m]) room mask r1' r2' Hms ltac:(lia) ltac:(lia) Hw1' Hr1' Hw2' Hr2') as (r3&E&Hw3&Hr3&He3).
  exists r3. rewrite E. cbn [masked zip_with drop]. rewrite <-(app_assoc acc). split; [done|]. split; [done|]. split; [done|]. congruence.
Qed.

Lemma seek_reader n r d k : ReaderSpec.wf r → ReaderSpec.rest r = d ++ k → zlen d = n →
  ∃ r', Reader.Seek n r = (true, r') ∧ ReaderSpec.wf r' ∧ ReaderSpec.rest r' = k ∧ Reader.endianness r' = Reader.endianness r
    ∧ Reader.pos r' = Reader.pos r + n ∧ Reader.len r' = Reader.len r.
Proof.
  intros Hw Hr <-. destruct (ReaderSpec.reader_skip_spec r d k Hw Hr) as (Hl&_&Hs&Hk&He). exists (Reader.skip (zlen d) r).
  unfold Reader.Seek, Reader.CanRead. unfold Reader.BytesRemaining in Hl. destruct (Z.leb_spec (zlen d) (Reader.len r - Reader.pos r)); [|lia].
  done.
Qed.

Lemma seek_writer A mid k e : Writer.Seek (zlen mid) (Writer.mk (A ++ mid ++ k) (zlen A) e) = (true, Writer.mk ((A ++ mid) ++ k) (zlen (A ++ mid)) e).
Proof.
  unfold Writer.Seek, Writer.BeginWrite, Writer.capacity. cbn [Writer.buffer Writer.length_ Writer.endianness].
  rewrite !zlen_app. pose proof (zlen_nonneg k). pose proof (zlen_nonneg mid).
  destruct (Z.ltb_spec (zlen A + (zlen mid + zlen k)) (zlen A)); [lia|].
  destruct (Z.ltb_spec (zlen A + (zlen mid + zlen k) - zlen A) (zlen mid)); [lia|]. by rewrite app_assoc.
Qed.

(** The bits of the first byte that are masked, and whether the header has a diversification nonce. *)
Definition bitmask (type_byte : Z) : Z := if IsLongHeader type_byte then 15 else 31.
Definition sends_nonce (c : framer) (type_byte : Z) : bool :=
  IsLongHeader type_byte && bool_decide (GetLongHeaderType (transport c) type_byte = Some ZERO_RTT_PROTECTED) && is_server c
  && quic_crypto (version_ c).
(** The sample of a ciphertext behind a packet number of [l] bytes. *)
Definition sample_of (l : nat) (ct : list Z) : list Z := take 16 (drop (4 - l) ct).
Definition mask_type (type_byte : Z) (mask : list Z) : Z := Z.lxor type_byte (Z.land (default 0 (head mask)) (bitmask type_byte)).

Lemma sample_split l ct : (l <= 4)%nat → 20 <= Z.of_nat l + zlen ct →
  ct = take (4 - l) ct ++ sample_of l ct ++ drop (20 - l) ct ∧ zlen (sample_of l ct) = 16 ∧ zlen (take (4 - l) ct) = 4 - Z.of_nat l.
Proof.
  intros Hl Hct. unfold sample_of. split; [|split].
  - rewrite <-(take_drop (4 - l) ct) at 1. f_equal. rewrite <-(take_drop 16 (drop (4 - l) ct)) at 1. f_equal. rewrite drop_drop. f_equal. lia.
  - unfold zlen in *. rewrite length_take, length_drop. lia.
  - unfold zlen in *. rewrite length_take. lia.
Qed.

Lemma mask_of_sample (e : Enc) (d : Dec) l ct : Masks e d → (l <= 4)%nat → 20 <= Z.of_nat l + zlen ct → bytes ct →
  let mask := GenerateHeaderProtectionMask e (sample_of l ct) in bytes mask ∧ 5 <= zlen mask.
Proof.
  intros Hm Hl Hmin Hct. destruct (sample_split l ct Hl Hmin) as (_&Hsl&_).
  apply (same_mask e d Hm _ [] (Reader.new (sample_of l ct) NETWORK_BYTE_ORDER) Hsl);
    [by apply Forall_take, Forall_drop|apply ReaderSpec.reader_new_wf|by rewrite ReaderSpec.new_rest, app_nil_r].
Qed.

Lemma ApplyHeaderProtection_spec e s t0 mid pn extra ct :
  let buffer := t0 :: mid ++ pn ++ extra ++ ct in
  let mask := GenerateHeaderProtectionMask e (sample_of (length pn) ct) in
  bytes buffer → zlen buffer < two64 → (length pn <= 4)%nat → 20 <= zlen pn + zlen ct →
  last_written_packet_number_length (headers s) = zlen pn →
  (IsLongHeader t0 = true → GetLongHeaderType (transport (headers s)) t0 ≠ None) →
  zlen extra = (if sends_nonce (headers s) t0 then kDiversificationNonceSize else 0) →
  bytes mask → 5 <= zlen mask →
  ApplyHeaderProtection e buffer (1 + zlen mid + zlen pn + zlen extra) s
  = Some (mask_type t0 mask :: mid ++ masked pn (tail mask) ++ extra ++ ct).
Proof.
  intros buffer mask Hb Hlen Hpn Hct Hlast Hlong Hextra Hmb Hml. pose proof (zlen_nonneg mid). pose proof (zlen_nonneg pn). pose proof (zlen_nonneg extra).
  unfold ApplyHeaderProtection. rewrite Hlast. destruct (Z.ltb_spec (1 + zlen mid + zlen pn + zlen extra) (zlen pn)); [lia|].
  replace (1 + zlen mid + zlen pn + zlen extra - zlen pn) with (1 + zlen mid + zlen extra) by lia.
  destruct (sample_split (length pn) ct Hpn ltac:(unfold zlen in *; lia)) as (Ect&Hs&Hbefore).
  set (r0 := Reader.new buffer NETWORK_BYTE_ORDER). assert (Hw0 : ReaderSpec.wf r0) by apply ReaderSpec.reader_new_wf.
  destruct (seek_reader (1 + zlen mid + zlen extra + 4) r0 (t0 :: mid ++ pn ++ extra ++ take (4 - length pn) ct)
    (sample_of (length pn) ct ++ drop (20 - length pn) ct) Hw0) as (r1&E1&Hw1&Hr1&He1&_).
  { unfold r0. rewrite ReaderSpec.new_rest. unfold buffer. rewrite Ect at 1. cbn [app]. by rewrite <-!app_assoc. }
  { rewrite zlen_cons, !zlen_app, Hbefore. unfold zlen. lia. }
  rewrite E1. cbn [negb].
  destruct (ReaderSpec.reads_ReadStringPiece (Reader.endianness r1) (sample_of (length pn) ct) r1 _ Hw1 eq_refl Hr1) as (r2&E2&_).
  rewrite Hs in E2. unfold kHPSampleLen. rewrite E2. fold mask. clearbody mask. destruct mask as [|m ms]; [rewrite (@zlen_nil Z) in Hml; lia|].
  rewrite bool_decide_eq_false_2 by done.
  apply List.Forall_cons_iff in Hmb as [Hm Hms]. apply List.Forall_cons_iff in Hb as [Ht0 Hb].
  destruct (read_one_byte r0 t0 (mid ++ pn ++ extra ++ ct) Hw0) as (r3&->&Hw3&Hr3&_&Hp3&Hl3&_); [apply ReaderSpec.new_rest|done|].
  assert (Hty : IsLongHeader t0 && bool_decide (GetLongHeaderType (transport (headers s)) t0 = None) = false).
  { destruct (IsLongHeader t0); [|done]. cbn [andb]. apply bool_decide_eq_false_2. by apply Hlong. }
  rewrite Hty. destruct (read_one_byte (Reader.new (m :: ms) NETWORK_BYTE_ORDER) m ms) as (r4&->&Hw4&Hr4&_);
    [apply ReaderSpec.reader_new_wf|apply ReaderSpec.new_rest|done|].
  fold (bitmask t0). fold (sends_nonce (headers s) t0). set (y := Z.lxor t0 (Z.land m (bitmask t0))).
  change (Writer.mk buffer 0 NETWORK_BYTE_ORDER) with (Writer.mk ([] ++ t0 :: mid ++ pn ++ extra ++ ct) (zlen (@nil Z)) NETWORK_BYTE_ORDER).
  rewrite write_byte. cbn [negb app].
  assert (Hdiv : (sends_nonce (headers s) t0 && (1 + zlen mid + zlen extra <=? kDiversificationNonceSize)) = false
    ∧ (if sends_nonce (headers s) t0 then 1 + zlen mid + zlen extra - kDiversificationNonceSize else 1 + zlen mid + zlen extra) = 1 + zlen mid).
  { destruct (sends_nonce (headers s) t0); rewrite Hextra; cbn [andb]; unfold kDiversificationNonceSize; split; try lia. }
  destruct Hdiv as [-> ->]. replace (wrap64 (1 + zlen mid - 1)) with (zlen mid).
  2:{ unfold wrap64. rewrite Z.mod_small; [lia|]. unfold buffer in Hlen. rewrite zlen_cons, !zlen_app in Hlen. pose proof (zlen_nonneg ct). lia. }
  change (y :: mid ++ pn ++ extra ++ ct) with ([y] ++ mid ++ pn ++ extra ++ ct). rewrite (seek_writer [y] mid).
  destruct (seek_reader (zlen mid) r3 mid (pn ++ extra ++ ct) Hw3 Hr3 eq_refl) as (r5&->&_&_&_&Hp5&Hl5). cbn [andb negb].
  replace (Z.to_nat (zlen pn)) with (length pn) by (unfold zlen; lia).
  assert (Hbpn : bytes pn) by (rewrite !Forall_app in Hb; tauto).
  destruct (mask_number_spec pn ([y] ++ mid) (extra ++ ct) ms r4 [] r5 NETWORK_BYTE_ORDER) as (n&->); try done.
  - rewrite zlen_cons in Hml. unfold zlen in *. lia.
  - by rewrite app_nil_r.
  - rewrite Hp5, Hp3, zlen_app. change (Reader.pos r0) with 0. change (zlen [y]) with 1. lia.
  - rewrite Hl5, Hl3. unfold r0, buffer. cbn [Reader.new Reader.len]. rewrite zlen_cons, !zlen_app. change (zlen [y]) with 1. lia.
Qed.

Lemma mask_keeps t m bm k : Z.land bm k = 0 → Z.land (Z.lxor t (Z.land m bm)) k = Z.land t k.
Proof.
  intros H. apply Z.bits_inj'. intros i Hi. rewrite !Z.land_spec, Z.lxor_spec, Z.land_spec.
  apply (f_equal (λ z, Z.testbit z i)) in H. rewrite Z.land_spec, Z.bits_0 in H.
  destruct (Z.testbit bm i), (Z.testbit k i), (Z.testbit t i), (Z.testbit m i); try discriminate; done.
Qed.

Lemma mask_type_long t mask : IsLongHeader (mask_type t mask) = IsLongHeader t.
Proof. unfold mask_type, IsLongHeader, has. rewrite mask_keeps; [done|]. unfold bitmask. by destruct (IsLongHeader t). Qed.

Lemma mask_type_twice t mask : mask_type (mask_type t mask) mask = t.
Proof. unfold mask_type at 1. unfold bitmask at 1. rewrite mask_type_long. apply lxor_twice. Qed.

Lemma mask_type_byte t mask : is_byte t → bytes mask → is_byte (mask_type t mask).
Proof.
  intros Ht Hm. apply lxor_byte; [done|]. assert (Hh : is_byte (default 0 (head mask))) by (destruct Hm; [done|done]).
  unfold bitmask. set (b := if IsLongHeader t then 15 else 31). assert (Hb : b = Z.ones 4 ∨ b = Z.ones 5) by (unfold b; destruct (IsLongHeader t); auto).
  destruct Hb as [-> | ->]; rewrite land_low by lia.
  - pose proof (Z.mod_pos_bound (default 0 (head mask)) (2 ^ 4) ltac:(lia)). lia.
  - pose proof (Z.mod_pos_bound (default 0 (head mask)) (2 ^ 5) ltac:(lia)). lia.
Qed.

(** Whether a header that was received has a diversification nonce. *)
Definition receives_nonce (c : framer) (h : QuicPacketHeader) : bool :=
  bool_decide (form h = IETF_QUIC_LONG_HEADER_PACKET) && bool_decide (long_packet_type h = ZERO_RTT_PROTECTED) && is_client c
  && quic_crypto (version_ c).

Lemma restore_ad t mid pn pn' extra t' : length pn' = length pn → zlen (t' :: mid ++ pn' ++ extra) < two64 →
  let w := Writer.mk (t' :: mid ++ pn' ++ extra) 0 NETWORK_BYTE_ORDER in
  ∃ w1, Writer.WriteUInt8 t w = (true, w1)
    ∧ ∃ w2, Writer.andthen (Writer.Seek (wrap64 (wrap64 (Writer.remaining w1 - zlen pn) - zlen extra))) (Writer.WriteBytes pn) w1 = (true, w2)
    ∧ Writer.buffer w2 = t :: mid ++ pn ++ extra.
Proof.
  intros Hl Hlen w. unfold w. rewrite zlen_cons, !zlen_app in Hlen. pose proof (zlen_nonneg mid). pose proof (zlen_nonneg extra).
  assert (Hz : zlen pn' = zlen pn) by (unfold zlen; by rewrite Hl). pose proof (zlen_nonneg pn).
  change (Writer.mk (t' :: mid ++ pn' ++ extra) 0 NETWORK_BYTE_ORDER) with (Writer.mk ([] ++ t' :: mid ++ pn' ++ extra) (zlen (@nil Z)) NETWORK_BYTE_ORDER).
  rewrite write_byte. eexists. split; [done|]. cbn [app].
  assert (Hoff : wrap64 (wrap64 (Writer.remaining (Writer.mk (t :: mid ++ pn' ++ extra) (zlen [t]) NETWORK_BYTE_ORDER) - zlen pn) - zlen extra) = zlen mid).
  { unfold Writer.remaining, Writer.capacity. cbn [Writer.buffer Writer.length_]. rewrite zlen_cons, !zlen_app. change (zlen [t]) with 1.
    unfold wrap64. rewrite (Z.mod_small (_ - zlen pn)) by lia. rewrite Z.mod_small; lia. }
  rewrite Hoff. unfold Writer.andthen. change (t :: mid ++ pn' ++ extra) with ([t] ++ mid ++ pn' ++ extra). rewrite seek_writer.
  unfold Writer.WriteBytes, Writer.BeginWrite, Writer.capacity. cbn [Writer.buffer Writer.length_ Writer.endianness].
  rewrite !zlen_app. destruct (Z.ltb_spec (zlen [t] + zlen mid + (zlen pn' + zlen extra)) (zlen [t] + zlen mid)); [lia|].
  destruct (Z.ltb_spec (zlen [t] + zlen mid + (zlen pn' + zlen extra) - (zlen [t] + zlen mid)) (zlen pn)); [lia|].
  eexists. split; [done|]. unfold Writer.put. cbn [Writer.buffer Writer.length_].
  replace (Z.to_nat (zlen [t] + zlen mid)) with (length ([t] ++ mid)) by (unfold zlen; rewrite length_app; lia).
  rewrite take_app_length, <-drop_drop, drop_app_length, <-Hl, drop_app_length. cbn [app]. done.
Qed.

(** The reader of the sample: four bytes on, behind the nonce. *)
Lemma reads_sample (has_nonce : bool) pn' extra ct rest : 
  rest = pn' ++ extra ++ ct → (length pn' <= 4)%nat → 20 <= zlen pn' + zlen ct →
  zlen extra = (if has_nonce then kDiversificationNonceSize else 0) →
  ∃ x r1, Reader.ReadStringPiece 4 (Reader.new rest NETWORK_BYTE_ORDER) = (Some x, r1)
    ∧ ∃ r2 k, (if has_nonce then Reader.Seek kDiversificationNonceSize r1 else (true, r1)) = (true, r2)
      ∧ ReaderSpec.wf r2 ∧ ReaderSpec.rest r2 = sample_of (length pn') ct ++ k.
Proof.
  intros -> Hl Hct Hextra. destruct (sample_split (length pn') ct Hl ltac:(unfold zlen in *; lia)) as (Ect&Hs&Hbefore).
  set (whole := pn' ++ extra ++ take (4 - length pn') ct). set (k := drop (20 - length pn') ct).
  set (rs := Reader.new _ _). assert (Hwhole : ReaderSpec.rest rs = take 4 whole ++ drop 4 whole ++ sample_of (length pn') ct ++ k).
  { unfold rs. rewrite ReaderSpec.new_rest. rewrite (app_assoc (take 4 whole)), take_drop. unfold whole, k. rewrite Ect at 1. by rewrite <-!app_assoc. }
  assert (Hwl : zlen whole = 4 + zlen extra) by (unfold whole; rewrite !zlen_app, Hbefore; unfold zlen; lia).
  pose proof (zlen_nonneg extra) as Hex.
  destruct (ReaderSpec.reads_ReadStringPiece NETWORK_BYTE_ORDER (take 4 whole) rs _ (ReaderSpec.reader_new_wf _ _) eq_refl Hwhole) as (r1&E1&Hw1&Hr1&_).
  assert (H4 : zlen (take 4 whole) = 4) by (unfold zlen in *; rewrite length_take; lia). rewrite H4 in E1.
  exists (take 4 whole), r1. split; [done|]. assert (Hdl : zlen (drop 4 whole) = zlen extra) by (unfold zlen in *; rewrite length_drop; lia).
  destruct has_nonce.
  - destruct (seek_reader kDiversificationNonceSize r1 (drop 4 whole) _ Hw1 Hr1) as (r2&E2&Hw2&Hr2&_); [lia|]. exists r2, k. done.
  - exists r1, k. split; [done|]. split; [done|]. rewrite Hr1. destruct (drop 4 whole) as [|y ys]; [done|]. rewrite zlen_cons in Hdl. pose proof (zlen_nonneg ys). lia.
Qed.

Lemma RemoveHeaderProtection_spec e d s t0 mid pn extra ct more r h level l base n :
  let c := headers s in
  let mask := GenerateHeaderProtectionMask e (sample_of (length pn) ct) in
  let packet := mask_type t0 mask :: mid ++ masked pn (tail mask) ++ extra ++ ct ++ more in
  let h' := set_number_length l (set_type_byte t0 h) in
  Masks e d → GetEncryptionLevel h = Some level → decrypter_ s level = Some d →
  type_byte h = mask_type t0 mask → two_bits_length t0 = l → length pn = length_of l →
  bytes pn → bytes ct → 20 <= zlen pn + zlen ct → zlen packet < two64 →
  zlen extra = (if receives_nonce c h then kDiversificationNonceSize else 0) →
  ReaderSpec.wf r → ReaderSpec.rest r = masked pn (tail mask) ++ extra ++ ct →
  base_packet_number c h' = Some base → (ProcessAndCalculatePacketNumber l base (Reader.new pn NETWORK_BYTE_ORDER)).1 = Some n →
  GetAssociatedDataFromEncryptedPacket (transport c) packet h' (receives_nonce c h) = mask_type t0 mask :: mid ++ masked pn (tail mask) ++ extra →
  ∃ r', RemoveHeaderProtection r packet h s = (Some (n, t0 :: mid ++ pn ++ extra), h', r')
    ∧ ReaderSpec.wf r' ∧ ReaderSpec.rest r' = extra ++ ct ∧ Reader.endianness r' = Reader.endianness r.
Proof.
  intros c mask packet h' Hmasks Hlevel Hd Htype Hl Hpnl Hbpn Hbct Hct Hlen Hextra Hw Hr Hbase Hn Had.
  assert (Hpn4 : (length pn <= 4)%nat) by (rewrite Hpnl, <-Hl; unfold two_bits_length; repeat case_match; cbn; lia).
  destruct (sample_split (length pn) ct Hpn4 ltac:(unfold zlen in *; lia)) as (Ect&Hs&Hbefore).
  assert (Hbs : bytes (sample_of (length pn) ct)) by (unfold sample_of; by apply Forall_take, Forall_drop).
  assert (Hmb : bytes mask ∧ 5 <= zlen mask).
  { set (rs := Reader.new (sample_of (length pn) ct) NETWORK_BYTE_ORDER).
    destruct (same_mask e d Hmasks (sample_of (length pn) ct) [] rs Hs Hbs) as (_&H); [apply ReaderSpec.reader_new_wf|unfold rs; by rewrite ReaderSpec.new_rest, app_nil_r|exact H]. }
  destruct Hmb as [Hmb Hml]. assert (Htail : (length pn <= length (tail mask))%nat) by (destruct mask; unfold zlen in Hml; cbn in *; lia).
  assert (Hbt : bytes (tail mask)) by (destruct Hmb; done).
  set (pn' := masked pn (tail mask)) in *. assert (Hpn' : length pn' = length pn) by (by apply masked_length).
  unfold RemoveHeaderProtection. fold c. rewrite Hlevel, Hd. fold (receives_nonce c h).
  change (Reader.PeekRemainingPayload r) with (ReaderSpec.rest r).
  destruct (reads_sample (receives_nonce c h) pn' extra ct (ReaderSpec.rest r) Hr) as (x&r1&->&r2&k&->&Hw2&Hr2);
    [lia|unfold zlen in *; lia|done|]. rewrite Hpn' in Hr2. cbn [negb].
  destruct (same_mask e d Hmasks _ k r2 Hs Hbs Hw2 Hr2) as (->&_). fold mask.
  clearbody mask. destruct mask as [|m ms]; [rewrite (@zlen_nil Z) in Hml; lia|]. cbn [tail] in *.
  apply List.Forall_cons_iff in Hmb as [Hm _].
  destruct (read_one_byte (Reader.new (m :: ms) NETWORK_BYTE_ORDER) m ms) as (rm&->&Hwm&Hrm&_); [apply ReaderSpec.reader_new_wf|apply ReaderSpec.new_rest|done|].
  rewrite Htype. fold (bitmask (mask_type t0 (m :: ms))).
  change (Z.lxor (mask_type t0 (m :: ms)) (Z.land m (bitmask (mask_type t0 (m :: ms))))) with (mask_type (mask_type t0 (m :: ms)) (m :: ms)).
  rewrite mask_type_twice. cbn [type_byte set_type_byte]. rewrite Hl. fold h'. cbn [packet_number_length set_number_length]. change (packet_number_length h') with l. rewrite <-Hpnl, <-Hpn'.
  destruct (unmask_number_spec pn' [] (replicate 4 0) ms rm [] r (extra ++ ct) NETWORK_BYTE_ORDER) as (r'&E'&Hw'&Hr'&He'); try done.
  { by apply masked_bytes. } { lia. } { rewrite length_replicate. lia. } { by rewrite app_nil_r. }
  change (Writer.new (Z.to_nat IETF_MAX_PACKET_NUMBER_LENGTH) NETWORK_BYTE_ORDER) with (Writer.mk ([] ++ replicate 4 0) (zlen (@nil Z)) NETWORK_BYTE_ORDER).
  rewrite E'. cbn [negb app Writer.length_ Writer.buffer]. assert (Hmm : masked pn' ms = pn) by (by apply masked_twice). rewrite !Hmm.
  replace (Z.to_nat (zlen pn)) with (length pn) by (unfold zlen; lia). rewrite take_app_length.
  rewrite Hbase. destruct (ProcessAndCalculatePacketNumber l base _) as [o rr]. cbn [fst] in Hn. rewrite Hn.
  rewrite Had. change (type_byte h') with t0. destruct (restore_ad t0 mid pn pn' extra (mask_type t0 (m :: ms)) Hpn') as (w1&->&w2&Ew2&Hbuf).
  { unfold packet in Hlen. rewrite zlen_cons, !zlen_app in *. pose proof (zlen_nonneg ct). pose proof (zlen_nonneg more). lia. }
  cbn [negb]. rewrite ?Hpn'. fold (zlen pn).
  assert (Hseek : ∀ x, (if receives_nonce c h then wrap64 (wrap64 x - kDiversificationNonceSize) else wrap64 x) = wrap64 (wrap64 x - zlen extra)).
  { intros z. rewrite Hextra. destruct (receives_nonce c h); [done|]. rewrite Z.sub_0_r. symmetry. apply Z.mod_mod. done. }
  rewrite Hseek, Ew2. cbn [negb]. rewrite Hbuf. exists r'. done.
Qed.

(** ** Building *)

(** The header of a packet, with its length filled in. *)
Definition packet_header (c : framer) (h : QuicPacketHeader) (len : Z) : list Z :=
  ietf_start c h ++ (if has_length c h then WriterSpec.varint_bytes 2 len else [])
  ++ number_bytes (packet_number_length h) (packet_number h) ++ (if version_flag h then nonce_bytes h else []).
(** What the length field counts, the encrypted text with it. *)
Definition length_to_write (e : Enc) (h : QuicPacketHeader) (payload : list Z) : Z :=
  GetCiphertextSize e (Z.of_nat (length_of (packet_number_length h)) + (if version_flag h then zlen (nonce_bytes h) else 0) + zlen payload).

(** Two bytes written over two others. *)
Lemma overwrite_length v k a b : 0 <= v < 16384 →
  ∃ w, Writer.WriteVarInt62_len v 2 (Writer.mk (a :: b :: k) 0 NETWORK_BYTE_ORDER) = (true, w) ∧ Writer.buffer w = WriterSpec.varint_bytes 2 v ++ k.
Proof.
  intros Hv. set (w := Writer.mk _ _ _).
  assert (Hw : WriterSpec.wf w). { unfold WriterSpec.wf, w, Writer.capacity. cbn. unfold zlen. cbn. lia. }
  assert (Hl : WriterSpec.is_varint_len 2) by (right; by left).
  pose proof (WriterSpec.emits_WriteVarInt62_len 2 v Hl Hv w Hw eq_refl) as H.
  assert (Htwo : Writer.andthen (Writer.WriteUInt8 64) (Writer.WriteUInt8 (wrap8 v)) w = (true, Writer.mk (64 :: wrap8 v :: k) 2 NETWORK_BYTE_ORDER)).
  { change w with (Writer.mk ([] ++ a :: b :: k) (zlen (@nil Z)) NETWORK_BYTE_ORDER). unfold Writer.andthen. rewrite write_byte. cbn [app].
    change (Writer.mk (64 :: b :: k) (zlen [64]) NETWORK_BYTE_ORDER) with (Writer.mk ([64] ++ b :: k) (zlen [64]) NETWORK_BYTE_ORDER).
    by rewrite write_byte. }
  assert (Hkeep : ∀ ok w', Writer.WriteVarInt62_len v 2 w = (ok, w') → drop 2 (Writer.buffer w') = k).
  { intros ok w'. unfold Writer.WriteVarInt62_len, Writer.WriteVarInt62, Writer.GetVarInt62Len.
    repeat case_match; try (intros [= _ <-]; done); try discriminate; try lia.
    all: rewrite Htwo; intros [= _ <-]; done. }
  destruct (Writer.WriteVarInt62_len v 2 w) as [ok w']. specialize (Hkeep ok w' eq_refl). destruct H as (_&_&_&_&->&H).
  assert (Hroom : zlen (WriterSpec.varint_bytes 2 v) = 2) by (by apply WriterSpec.varint_bytes_length).
  rewrite Hroom in *. assert (Hrem : 2 <= Writer.remaining w). { unfold Writer.remaining, Writer.capacity, w. cbn. unfold zlen. cbn. lia. }
  destruct (Z.leb_spec 2 (Writer.remaining w)); [|lia]. destruct (H eq_refl) as [Hwr Hlen]. exists w'. split; [done|].
  rewrite <-(take_drop 2 (Writer.buffer w')), Hkeep. f_equal. unfold WriterSpec.written in Hwr. rewrite Hlen in Hwr. exact Hwr.
Qed.

Lemma WriteIetfLongHeaderLength_spec h w start rest e s :
  let len := GetCiphertextSize e (zlen rest) in
  transport_version_of s = QUIC_VERSION_99 → version_flag h = true → start ≠ [] → 0 <= len < 16384 →
  WriterSpec.wf w → WriterSpec.written w = start ++ WriterSpec.varint_bytes 2 256 ++ rest →
  ∃ w', WriteIetfLongHeaderLength h w (zlen start) e s = Some w'
    ∧ take (Z.to_nat (Writer.length_ w')) (Writer.buffer w') = start ++ WriterSpec.varint_bytes 2 len ++ rest.
Proof.
  intros len Hv Hf Hstart Hlen Hw Hwr. unfold WriteIetfLongHeaderLength. rewrite Hv, Hf.
  destruct (Z.eqb_spec (zlen start) 0) as [Hz|Hz]; [destruct start; [done|rewrite zlen_cons in Hz; pose proof (zlen_nonneg start); lia]|].
  change (negb (QuicVersionHasLongHeaderLengths QUIC_VERSION_99) || negb true || false) with false. cbn [orb].
  set (N := Z.to_nat (Writer.length_ w)). set (B := Writer.buffer w) in *. unfold WriterSpec.written in Hwr. fold N B in Hwr.
  assert (HN : Writer.length_ w = zlen start + 2 + zlen rest).
  { assert (Ht : zlen (take N B) = Writer.length_ w).
    { destruct Hw as [Hw1 Hw2]. unfold Writer.capacity in Hw2. fold B in Hw2. unfold zlen in *. rewrite length_take. unfold N. lia. }
    rewrite Hwr, !zlen_app in Ht. change (zlen (WriterSpec.varint_bytes 2 256)) with 2 in Ht. lia. }
  pose proof (zlen_nonneg start). pose proof (zlen_nonneg rest). unfold kQuicDefaultLongHeaderLengthLength.
  destruct (Z.ltb_spec (Writer.length_ w) (zlen start)); [lia|]. destruct (Z.ltb_spec (Writer.length_ w - zlen start) 2); [lia|]. cbn [orb].
  replace (Writer.length_ w - zlen start - 2) with (zlen rest) by lia. fold len.
  assert (HB : ∃ tl, B = start ++ (64 + 1 :: 0 :: rest) ++ tl).
  { exists (drop N B). rewrite app_assoc. change (64 + 1 :: 0 :: rest) with (WriterSpec.varint_bytes 2 256 ++ rest). rewrite <-Hwr. by rewrite take_drop. }
  destruct HB as [tl HB]. clearbody B. subst B.
  replace (Z.to_nat (zlen start)) with (length start) by (unfold zlen; lia).
  replace (Z.to_nat (Writer.length_ w - zlen start)) with (length (64 + 1 :: 0 :: rest)) by (rewrite HN; unfold zlen; cbn; lia).
  rewrite drop_app_length, take_app_length.
  destruct (overwrite_length len rest (64 + 1) 0 Hlen) as (w'&Ew&Hbuf). rewrite take_app_length. rewrite Ew. eexists. split; [done|].
  cbn [Writer.length_ Writer.buffer]. fold N. rewrite Hbuf. rewrite <-(app_assoc (WriterSpec.varint_bytes 2 len)), !app_assoc. rewrite <-!(app_assoc start).
  rewrite (app_assoc start). apply take_app_length'.
  rewrite !length_app. change (length (WriterSpec.varint_bytes 2 len)) with 2%nat. unfold N, zlen in *. lia.
Qed.
Lemma after_header_version c h : version_ (after_header c h) = version_ c.
Proof. unfold after_header. by destruct (VersionHasIetfInvariantHeader (transport c)), (SupportsClientConnectionIds (version_ c)). Qed.

Lemma transport_99 c : transport c = QUIC_VERSION_99 →
  VersionHasIetfInvariantHeader (transport c) = true ∧ VersionHasIetfQuicFrames (transport c) = true
  ∧ QuicVersionHasLongHeaderLengths (transport c) = true ∧ HasHeaderProtection (version_ c) = true
  ∧ KnowsWhichDecrypterToUse (version_ c) = true.
Proof. unfold transport, HasHeaderProtection, KnowsWhichDecrypterToUse. intros ->. done. Qed.

Lemma AppendIetfFrames_spec sd cd c fs w :
  Forall (IetfFramer.good sd cd c) fs → WriterSpec.wf w → Writer.endianness w = NETWORK_BYTE_ORDER →
  let payload := IetfFramer.frames_bytes sd cd c fs in
  0 < zlen payload <= Writer.remaining w →
  ∃ n w', IetfFramer.AppendIetfFrames c fs w = (n, w') ∧ n ≠ 0 ∧ WriterSpec.wf w'
    ∧ WriterSpec.written w' = WriterSpec.written w ++ payload.
Proof.
  intros Hg Hw He payload Hroom. unfold IetfFramer.AppendIetfFrames.
  pose proof (IetfFramer.emits_frames sd cd c fs Hg w Hw He) as H. destruct (IetfFramer.append_frames c fs w) as [ok w'].
  destruct H as (Hw'&_&_&_&->&H). fold payload in H |- *. destruct (Z.leb_spec (zlen payload) (Writer.remaining w)); [|lia].
  destruct (H eq_refl) as [Hwr Hl]. destruct Hw as [? _]. exists (Writer.length_ w'), w'. split; [done|]. split; [lia|done].
Qed.

(** The length is filled in when the header and the payload are written. *)
Lemma length_is_filled_in e h payload w2 s :
  let c := headers s in
  let len := length_to_write e h payload in
  transport c = QUIC_VERSION_99 → (version_flag h = true → 0 <= len < 16384) →
  WriterSpec.wf w2 → WriterSpec.written w2 = header_bytes c h ++ payload →
  ∃ w3, WriteIetfLongHeaderLength h w2 (after_offset c h 0 0) e (set_headers (after_header c h) s) = Some w3
    ∧ take (Z.to_nat (Writer.length_ w3)) (Writer.buffer w3) = packet_header c h len ++ payload.
Proof.
  intros c len Hv Hlen Hw2 Hwr2. destruct (transport_99 c Hv) as (Hietf&_&Hlong&_).
  assert (Hv' : transport (after_header c h) = QUIC_VERSION_99) by (unfold transport; by rewrite after_header_version).
  unfold after_offset. rewrite Hietf, Z.add_0_l.
  unfold header_bytes, length_bytes in Hwr2. rewrite Hietf in Hwr2. unfold packet_header. unfold has_length in *. rewrite Hlong in *. cbn [andb] in *.
  destruct (version_flag h) eqn:Hf.
  - rewrite <-!app_assoc in Hwr2. specialize (Hlen eq_refl).
    assert (Hsize : GetCiphertextSize e (zlen (number_bytes (packet_number_length h) (packet_number h) ++ nonce_bytes h ++ payload)) = len).
    { unfold len, length_to_write. rewrite Hf, !zlen_app, number_bytes_length. f_equal. lia. }
    destruct (WriteIetfLongHeaderLength_spec h w2 (ietf_start c h)
      (number_bytes (packet_number_length h) (packet_number h) ++ nonce_bytes h ++ payload) e (set_headers (after_header c h) s)) as (w3&->&Hw3);
      [done|done| |by rewrite Hsize|done|done|].
    { unfold ietf_start, long_bytes. by rewrite Hf. }
    exists w3. split; [done|]. rewrite Hw3, Hsize, <-!app_assoc. done.
  - exists w2. unfold WriteIetfLongHeaderLength. change (transport_version_of _) with (transport (after_header c h)). rewrite Hf, Hv'. cbn [negb orb].
    unfold WriterSpec.written in Hwr2. rewrite orb_true_r. cbn [orb]. split; [done|]. rewrite Hwr2, app_nil_l, app_nil_r. done.
Qed.

(** The packet that is built, with room for it. *)
Lemma BuildDataPacket_spec sd cd e h fs packet_length s :
  let c := headers s in
  let payload := IetfFramer.frames_bytes sd cd (ietf_frames s) fs in
  let len := length_to_write e h payload in
  transport c = QUIC_VERSION_99 → sendable c h → Forall (IetfFramer.good sd cd (ietf_frames s)) fs → fs ≠ [] →
  (version_flag h = true → 0 <= len < 16384) → zlen (header_bytes c h) + zlen payload <= Z.of_nat packet_length →
  BuildDataPacket h fs packet_length e s = (Some (packet_header c h len ++ payload), set_headers (after_header c h) s).
Proof.
  intros c payload len Hv Hs Hg Hne Hlen Hroom. assert (Hpos : 0 < zlen payload).
  { pose proof (IetfFramer.frames_bytes_length sd cd (ietf_frames s) fs) as Hz. fold payload in Hz.
    destruct fs as [|f fs']; [done|]. rewrite zlen_cons in Hz. pose proof (zlen_nonneg fs'). lia. }
  set (w0 := Writer.new packet_length NETWORK_BYTE_ORDER).
  assert (Hr0 : Writer.remaining w0 = Z.of_nat packet_length).
  { unfold Writer.remaining, Writer.capacity, w0, Writer.new, zlen. cbn. rewrite length_replicate. lia. }
  destruct (appends_PacketHeader c h Hs w0 0 (WriterSpec.writer_new_wf _ _) eq_refl ltac:(lia)) as (w1&E1&Hw1&He1&Hc1&Hwr1&Hl1).
  unfold BuildDataPacket. fold c w0. rewrite E1. cbn [negb sender]. change (transport_version_of _) with (transport (after_header c h)).
  assert (Hv' : transport (after_header c h) = QUIC_VERSION_99) by (unfold transport; by rewrite after_header_version).
  rewrite Hv'. change (VersionHasIetfQuicFrames QUIC_VERSION_99) with true. cbv iota. cbn [writer length_field_offset].
  change (ietf_frames (set_headers (after_header c h) s)) with (ietf_frames s).
  destruct (AppendIetfFrames_spec sd cd (ietf_frames s) fs w1 Hg Hw1 He1) as (n&w2&->&Hn&Hw2&Hwr2).
  { unfold Writer.remaining in *. fold payload. lia. }
  destruct (Z.eqb_spec n 0); [lia|]. fold payload in Hwr2. rewrite Hwr1 in Hwr2. change (WriterSpec.written w0) with (@nil Z) in Hwr2. cbn [app] in Hwr2.
  destruct (length_is_filled_in e h payload w2 s Hv Hlen Hw2 Hwr2) as (w3&E3&Hw3). fold c in E3. fold c len in Hw3.
  change (Writer.length_ w0) with 0. rewrite E3, Hw3. done.
Qed.

(** ** Packets of version 99 *)

(** A header of a packet of version 99: a short one or one of a long type that carries frames, with a number of at most four
    bytes, and with a diversification nonce where the sender's version and role call for one. *)
Record packet_ok (c : framer) (h : QuicPacketHeader) : Prop := {
  ok_version : transport c = QUIC_VERSION_99;
  ok_sendable : sendable c h;
  ok_fits : fits_version c h;
  ok_length : (length_of (packet_number_length h) <= 4)%nat;
  ok_type : version_flag h = true →
    long_packet_type h = INITIAL ∨ long_packet_type h = ZERO_RTT_PROTECTED ∨ long_packet_type h = HANDSHAKE;
  ok_nonce : version_flag h = true →
    included (nonce h) = bool_decide (long_packet_type h = ZERO_RTT_PROTECTED) && is_server c && quic_crypto (version_ c);
  ok_bytes : bytes (sent_destination h) ∧ bytes (sent_source h) ∧ bytes (retry_token h) ∧ bytes (nonce_bytes h);
}.

Definition level_of (h : QuicPacketHeader) : EncryptionLevel :=
  if version_flag h then
    match long_packet_type h with
    | INITIAL => ENCRYPTION_INITIAL | HANDSHAKE => ENCRYPTION_HANDSHAKE | _ => ENCRYPTION_ZERO_RTT
    end
  else ENCRYPTION_FORWARD_SECURE.

(** The parts of such a packet: behind the type byte, the length field, the number, the nonce. *)
Definition after_type (c : framer) (h : QuicPacketHeader) : list Z :=
  if version_flag h then label_bytes (version_ c) ++ [id_lengths_byte (sent_destination h) (sent_source h)] ++ sent_destination h ++ sent_source h
  else sent_destination h.
Definition length_field (h : QuicPacketHeader) (len : Z) : list Z := if version_flag h then WriterSpec.varint_bytes 2 len else [].
Definition sent_number (h : QuicPacketHeader) : list Z := number_bytes (packet_number_length h) (packet_number h).
Definition sent_nonce (h : QuicPacketHeader) : list Z := if version_flag h then nonce_bytes h else [].
Definition before_number (c : framer) (h : QuicPacketHeader) (len : Z) : list Z := after_type c h ++ token_bytes c h ++ length_field h len.

(** The packet under the mask. *)
Definition protected (c : framer) (h : QuicPacketHeader) (len : Z) (mask ct : list Z) : list Z :=
  mask_type (IetfHeaderTypeByte c h) mask :: before_number c h len ++ masked (sent_number h) (tail mask) ++ sent_nonce h ++ ct.

Lemma packet_header_parts c h len : packet_ok c h →
  packet_header c h len = IetfHeaderTypeByte c h :: before_number c h len ++ sent_number h ++ sent_nonce h.
Proof.
  intros Hok. destruct (transport_99 c (ok_version c h Hok)) as (_&_&Hlong&_).
  unfold packet_header, ietf_start, before_number, after_type, length_field, sent_number, sent_nonce, has_length, long_bytes, short_bytes.
  rewrite Hlong. cbn [andb]. destruct (version_flag h); cbn [app]; by rewrite <-!app_assoc.
Qed.

Lemma packet_header_length c h len : packet_ok c h → zlen (packet_header c h len) = GetPacketHeaderSize (transport c) h.
Proof.
  intros Hok. rewrite <-header_bytes_length by apply Hok. destruct (transport_99 c (ok_version c h Hok)) as (Hietf&_).
  unfold packet_header, header_bytes, length_bytes. rewrite Hietf, !zlen_app. by destruct (has_length c h).
Qed.

Lemma type_byte_facts c h : packet_ok c h → let t0 := IetfHeaderTypeByte c h in
  is_byte t0 ∧ has t0 FLAGS_LONG_HEADER = version_flag h ∧ has t0 FLAGS_FIXED_BIT = true
  ∧ two_bits_length t0 = packet_number_length h ∧ (version_flag h = true → GetLongHeaderType QUIC_VERSION_99 t0 = Some (long_packet_type h)).
Proof.
  intros Hok t0. unfold t0. clear t0. unfold IetfHeaderTypeByte. rewrite (ok_version c h Hok). pose proof (ok_length c h Hok) as Hl.
  pose proof (ok_type c h Hok) as Ht. destruct (version_flag h).
  - destruct (packet_number_length h); cbn in Hl; try lia; destruct (Ht eq_refl) as [-> |[-> | ->]]; vm_compute; repeat split; discriminate.
  - destruct (packet_number_length h); cbn in Hl; try lia; vm_compute; repeat split; discriminate.
Qed.

(** The same of the byte under the mask, but for the length of the number. *)
Lemma masked_type_facts c h mask : packet_ok c h → bytes mask → let t := mask_type (IetfHeaderTypeByte c h) mask in
  is_byte t ∧ has t FLAGS_LONG_HEADER = version_flag h ∧ has t FLAGS_FIXED_BIT = true
  ∧ (version_flag h = true → GetLongHeaderType QUIC_VERSION_99 t = Some (long_packet_type h)).
Proof.
  intros Hok Hm t. destruct (type_byte_facts c h Hok) as (Hb&Hlong&Hfix&_&Htype). split; [by apply mask_type_byte|].
  assert (Hkeep : ∀ k, (∀ b, Z.land (if b : bool then 15 else 31) k = 0) → Z.land t k = Z.land (IetfHeaderTypeByte c h) k).
  { intros k Hk. unfold t, mask_type, bitmask. apply mask_keeps. apply Hk. }
  unfold has in *. rewrite (Hkeep FLAGS_LONG_HEADER), (Hkeep FLAGS_FIXED_BIT) by (intros []; reflexivity). split; [done|]. split; [done|].
  intros Hf. rewrite <-(Htype Hf). unfold GetLongHeaderType. change (QUIC_VERSION_44 <? QUIC_VERSION_99) with true. cbv iota.
  unfold t, mask_type, bitmask. change (IsLongHeader (IetfHeaderTypeByte c h)) with (has (IetfHeaderTypeByte c h) FLAGS_LONG_HEADER).
  unfold has. rewrite Hlong, Hf. by rewrite mask_keeps.
Qed.

Lemma sent_nonce_length c h : packet_ok c h →
  zlen (sent_nonce h) = if sends_nonce c (IetfHeaderTypeByte c h) then kDiversificationNonceSize else 0.
Proof.
  intros Hok. destruct (type_byte_facts c h Hok) as (_&Hlong&_&_&Htype). unfold sends_nonce, IsLongHeader, sent_nonce.
  rewrite Hlong. destruct (version_flag h) eqn:Hf; [|done]. cbn [andb]. rewrite (ok_version c h Hok), (Htype eq_refl).
  rewrite (nonce_bytes_length c h) by apply Hok. rewrite (ok_nonce c h Hok Hf).
  replace (bool_decide (Some (long_packet_type h) = Some ZERO_RTT_PROTECTED)) with (bool_decide (long_packet_type h = ZERO_RTT_PROTECTED)); [done|].
  apply bool_decide_ext. split; [by intros ->|by intros [= ?]].
Qed.

Lemma packet_header_bytes c h len : packet_ok c h → bytes (packet_header c h len).
Proof.
  intros Hok. rewrite packet_header_parts by done. destruct (type_byte_facts c h Hok) as (Hb&_). destruct (ok_bytes c h Hok) as (Hd&Hs&Ht&Hn).
  destruct (sendable_ids c h (ok_sendable c h Hok)) as [Gd Gs]; [apply (transport_99 c (ok_version c h Hok))|].
  constructor; [done|]. unfold before_number, after_type, token_bytes, length_field, sent_number, sent_nonce, number_bytes, WriterSpec.varint_bytes, label_bytes.
  destruct (good_id_checked _ _ Gd Gs) as (_&Hid&_).
  rewrite !Forall_app. split; [split; [|split]|split].
  - destruct (version_flag h); [|done]. rewrite !Forall_app. split; [apply be_bytes_bytes|]. split; [by apply Forall_singleton|done].
  - destruct (_ && _); [|constructor]. rewrite Forall_app. split; [apply be_bytes_bytes|done].
  - destruct (version_flag h); [apply be_bytes_bytes|constructor].
  - apply be_bytes_bytes.
  - destruct (version_flag h); [done|constructor].
Qed.

(** A header and a text, encrypted and protected. *)
Lemma EncryptPayload_spec e d level c h len payload ct buffer_len s :
  let ad := packet_header c h len in
  let mask := GenerateHeaderProtectionMask e (sample_of (length (sent_number h)) ct) in
  packet_ok c h → headers s = after_header c h → encrypter_ s level = Some e → Opens e d → bytes payload → bytes mask → 5 <= zlen mask →
  EncryptPacket e (packet_number h) ad payload (wrap64 (buffer_len - zlen ad)) = Some ct →
  20 <= zlen (sent_number h) + zlen ct → zlen ad + zlen ct < two64 →
  EncryptPayload level (packet_number h) h (ad ++ payload) buffer_len s = (Some (protected c h len mask ct), s).
Proof.
  intros ad mask Hok Hh He Ho Hp Hmb Hml Hct Hmin Hmax. unfold EncryptPayload, transport_version_of. rewrite Hh.
  assert (Hv : transport (after_header c h) = transport c) by (unfold transport; by rewrite after_header_version).
  assert (Hpp : HasHeaderProtection (version s) = true).
  { unfold version. rewrite Hh, after_header_version. apply (transport_99 c (ok_version c h Hok)). }
  unfold GetStartOfEncryptedData. rewrite Hv. rewrite <-(packet_header_length c h len Hok). fold ad.
  replace (Z.to_nat (zlen ad)) with (length ad) by (unfold zlen; lia). rewrite take_app_length, drop_app_length.
  unfold encrypt. rewrite He, Hct, Hpp.
  assert (Hb : bytes ad) by (by apply packet_header_bytes).
  destruct (opens e d Ho _ _ _ _ _ (sendable_number c h (ok_sendable c h Hok)) Hb Hp Hct) as (Hctb&_).
  assert (Ead : ad = IetfHeaderTypeByte c h :: before_number c h len ++ sent_number h ++ sent_nonce h) by (by apply packet_header_parts).
  destruct (type_byte_facts c h Hok) as (_&Hlong&_&_&Htype).
  pose proof (ApplyHeaderProtection_spec e s (IetfHeaderTypeByte c h) (before_number c h len) (sent_number h) (sent_nonce h) ct) as HA.
  cbv zeta in HA. fold mask in HA. rewrite Hh in HA.
  assert (Esn : sends_nonce (after_header c h) (IetfHeaderTypeByte c h) = sends_nonce c (IetfHeaderTypeByte c h)).
  { unfold sends_nonce, is_server. rewrite Hv, after_header_version. f_equal. unfold after_header.
    by destruct (VersionHasIetfInvariantHeader (transport c)), (SupportsClientConnectionIds (version_ c)). }
  assert (Ebuf : ad ++ ct = IetfHeaderTypeByte c h :: before_number c h len ++ sent_number h ++ sent_nonce h ++ ct).
  { rewrite Ead. cbn [app]. by rewrite <-!app_assoc. }
  assert (Hzl : zlen ad = 1 + zlen (before_number c h len) + zlen (sent_number h) + zlen (sent_nonce h)).
  { rewrite Ead, zlen_cons, !zlen_app. lia. }
  rewrite Ebuf, Hzl. rewrite HA; [done|..].
  - rewrite <-Ebuf. by apply Forall_app.
  - rewrite <-Ebuf, zlen_app. done.
  - unfold sent_number, number_bytes. rewrite be_bytes_length. apply Hok.
  - done.
  - unfold sent_number. rewrite number_bytes_length. unfold after_header. by rewrite (proj1 (transport_99 c (ok_version c h Hok))).
  - rewrite Hv, (ok_version c h Hok). intros Hl. unfold IsLongHeader in Hl. rewrite Hlong in Hl. by rewrite (Htype Hl).
  - rewrite Esn. by apply sent_nonce_length.
  - done.
  - done.
Qed.

(** ** Receiving them *)

(** A framer whose peer sends packets with these headers: of the same version and the other role, with ids it accepts, and
    with a packet number near the largest one it has, if any. *)
Definition space_of (h : QuicPacketHeader) : PacketNumberSpace := UnackedPacketMap.QuicUtils_GetPacketNumberSpace (level_of h).
Definition largest_of (c' : framer) (h : QuicPacketHeader) : Z :=
  if supports_multiple_packet_number_spaces c' then UnackedPacketMap.get_space (largest_decrypted_packet_numbers c') (space_of h)
  else largest_packet_number c'.
Definition seen_version (c : framer) (h : QuicPacketHeader) : ParsedQuicVersion := if version_flag h then version_ c else UnsupportedQuicVersion.
Record receives (c c' : framer) (h : QuicPacketHeader) : Prop := {
  rc_version : version_ c' = version_ c;
  rc_peer : is_client c' = is_server c;
  rc_ids : ids_accepted c' (seen_version c h) (version_flag h) (sent_destination h) (sent_source h);
  rc_number : let base := largest_of c' h in
    (base = PacketNumber.UninitializedPacketNumber ∧ packet_number h < width (packet_number_length h))
    ∨ (0 <= base < two62 ∧ packet_number h < two62 ∧ 2 * Z.abs (packet_number h - (base + 1)) < width (packet_number_length h));
}.

(** The header the visitor is given, with what may be a reset token. *)
Definition seen_type (h : QuicPacketHeader) : QuicLongHeaderType := if version_flag h then long_packet_type h else INITIAL.
Definition has_token (h : QuicPacketHeader) : bool := version_flag h && bool_decide (long_packet_type h = INITIAL).
Definition nonce_expected (c : framer) (h : QuicPacketHeader) : bool :=
  version_flag h && bool_decide (long_packet_type h = ZERO_RTT_PROTECTED) && is_server c && quic_crypto (version_ c).
Definition first_header (c c' : framer) (h : QuicPacketHeader) (t : Z) (l : QuicPacketNumberLength) : QuicPacketHeader :=
  received_header c' (version_flag h) t (seen_version c h) (seen_type h) l (sent_destination h) (sent_source h).
Definition with_fields (h : QuicPacketHeader) (len : Z) (reset_token : option (list Z)) (h1 : QuicPacketHeader) : QuicPacketHeader :=
  let h1 := set_reset_token reset_token h1 in
  let h1 := if has_token h then set_retry_token (retry_token_length_length h) (retry_token h) h1 else h1 in
  if version_flag h then set_length 2 len h1 else h1.
Definition delivered (c c' : framer) (h : QuicPacketHeader) (len : Z) (reset_token : option (list Z)) : QuicPacketHeader :=
  set_nonce (if nonce_expected c h then nonce h else None) (set_number (packet_number h)
    (with_fields h len reset_token (first_header c c' h (IetfHeaderTypeByte c h) (packet_number_length h)))).

Lemma is_server_client c : is_server c = negb (is_client c).
Proof. destruct (perspective_cases c) as [[-> ->]|[-> ->]]; done. Qed.

Lemma nonce_expected_sends c h : packet_ok c h → nonce_expected c h = sends_nonce c (IetfHeaderTypeByte c h).
Proof.
  intros Hok. destruct (type_byte_facts c h Hok) as (_&Hlong&_&_&Htype). unfold nonce_expected, sends_nonce, IsLongHeader. rewrite Hlong.
  destruct (version_flag h) eqn:Hf; [|done]. rewrite (ok_version c h Hok), (Htype eq_refl). cbn [andb].
  replace (bool_decide (Some (long_packet_type h) = Some ZERO_RTT_PROTECTED)) with (bool_decide (long_packet_type h = ZERO_RTT_PROTECTED)); [done|].
  apply bool_decide_ext. split; [by intros ->|by intros [= ?]].
Qed.

Lemma sent_start (c : framer) h t : (if version_flag h then long_bytes t (version_ c) (sent_destination h) (sent_source h)
  else short_bytes t (sent_destination h)) = t :: after_type c h.
Proof. unfold after_type, long_bytes, short_bytes. by destruct (version_flag h). Qed.

(** The public header of a protected packet. *)
Lemma reads_first_header c c' h t : packet_ok c h → receives c c' h → is_byte t → has t FLAGS_LONG_HEADER = version_flag h →
  has t FLAGS_FIXED_BIT = true → (version_flag h = true → GetLongHeaderType QUIC_VERSION_99 t = Some (long_packet_type h)) →
  ∃ l, ReaderSpec.reads NETWORK_BYTE_ORDER (ProcessPublicHeader c' true QuicPacketHeader_new) (t :: after_type c h) (first_header c c' h t l).
Proof.
  intros Hok Hrc Hb Hlong Hfix Htype. pose proof (rc_ids c c' h Hrc) as Hids. unfold ProcessPublicHeader. rewrite <-sent_start.
  pose proof (ok_version c h Hok) as Hv. unfold first_header, seen_type, seen_version in *. destruct (version_flag h) eqn:Hf.
  - exists (long_number_length t (version_ c)).
    apply reads_long_header; [apply (ok_sendable c h Hok)|apply (ok_sendable c h Hok)| |done].
    split; [done|]. split; [done|]. split; [done|]. unfold transport in Hv. rewrite Hv. split; [by apply Htype|].
    destruct (ok_type c h Hok Hf) as [-> |[-> | ->]]; done.
  - exists (two_bits_length t). assert (Es : sent_source h = []) by (apply Hids; done). rewrite Es in *.
    apply reads_short_header; [|done]. assert (Hv' : transport c' = QUIC_VERSION_99) by (unfold transport in *; by rewrite (rc_version c c' h Hrc)).
    split; [done|]. split; [done|]. split; [done|]. rewrite Hv'. unfold GetShortHeaderPacketNumberLength. rewrite Hfix.
    by destruct (infer_packet_header_type_from_version c').
Qed.

Lemma peek_varint r len v k : ReaderSpec.wf r → WriterSpec.is_varint_len len → 0 <= v < WriterSpec.varint_limit len →
  ReaderSpec.rest r = WriterSpec.varint_bytes len v ++ k → Reader.PeekVarInt62Length r = len.
Proof.
  intros Hw Hl Hv Hr. destruct (ReaderSpec.varint_bytes_prefix len v Hl Hv) as (b&tl&E&Hb&_&_&Hp&_).
  rewrite E in Hr. cbn [app] in Hr. unfold Reader.PeekVarInt62Length. pose proof (ReaderSpec.rest_length r Hw) as Hrl.
  rewrite Hr, zlen_cons in Hrl. pose proof (zlen_nonneg (tl ++ k)). destruct (Z.eqb_spec (Reader.BytesRemaining r) 0); [lia|].
  rewrite (ReaderSpec.next_rest r [b] (tl ++ k) 0 Hw Hr) by done. change (nth _ [b] 0) with b.
  destruct (ReaderSpec.first_byte_length b Hb) as [Hl2 Hp2]. rewrite Hp in Hp2. revert Hl2 Hp2. generalize (Z.shiftl 1 (Z.shiftr (Z.land b 192) 6)).
  intros l' Hl2. destruct Hl as [-> | [-> | [-> | ->]]], Hl2 as [-> | [-> | [-> | ->]]]; done.
Qed.

(** The token and the length of a long header. *)
Lemma reads_token c h h1 r k : packet_ok c h → form h1 = (if version_flag h then IETF_QUIC_LONG_HEADER_PACKET else IETF_QUIC_SHORT_HEADER_PACKET) →
  long_packet_type h1 = seen_type h → PacketHeaders.version h1 = seen_version c h →
  ReaderSpec.wf r → Reader.endianness r = NETWORK_BYTE_ORDER → ReaderSpec.rest r = token_bytes c h ++ k →
  ∃ r', MaybeProcessIetfInitialRetryToken h1 r
      = (Some (if has_token h then set_retry_token (retry_token_length_length h) (retry_token h) h1 else h1), r')
    ∧ ReaderSpec.wf r' ∧ Reader.endianness r' = NETWORK_BYTE_ORDER ∧ ReaderSpec.rest r' = k.
Proof.
  intros Hok Hform Hty Hv Hw He Hr. destruct (transport_99 c (ok_version c h Hok)) as (_&_&Hlong&_).
  unfold MaybeProcessIetfInitialRetryToken. rewrite Hform, Hty, Hv. unfold seen_type, seen_version, has_token, token_bytes, has_length in *.
  rewrite Hlong in Hr. destruct (version_flag h) eqn:Hf; cbn [andb] in *; [|rewrite bool_decide_eq_false_2 by done; rewrite orb_true_r; eauto].
  fold (transport c). rewrite Hlong. rewrite (bool_decide_eq_true_2 (IETF_QUIC_LONG_HEADER_PACKET = _)) by done. cbn [negb orb].
  destruct (bool_decide_reflect (long_packet_type h = INITIAL)) as [Ei|Ei]; cbn [negb]; [|eauto].
  destruct (sendable_token c h (ok_sendable c h Hok)) as [Hl Hlim]; [unfold has_length; by rewrite Hlong, Hf|done|].
  rewrite <-app_assoc in Hr. pose proof (zlen_nonneg (retry_token h)) as Hz.
  rewrite (peek_varint r _ _ _ Hw Hl (conj Hz Hlim) Hr). unfold Reader.bind at 1.
  destruct (ReaderSpec.reads_ReadVarInt62 NETWORK_BYTE_ORDER _ _ Hl (conj Hz Hlim) r _ Hw He Hr) as (r1&->&Hw1&Hr1&He1).
  change (Reader.PeekRemainingPayload r1) with (ReaderSpec.rest r1). rewrite Hr1, zlen_app. pose proof (zlen_nonneg k).
  destruct (Z.ltb_spec (zlen (retry_token h) + zlen k) (zlen (retry_token h))); [lia|].
  replace (Z.to_nat (zlen (retry_token h))) with (length (retry_token h)) by (unfold zlen; lia). rewrite take_app_length.
  unfold Reader.bind. destruct (ReaderSpec.reads_ReadBytes NETWORK_BYTE_ORDER (retry_token h) r1 k Hw1 He1 Hr1) as (r2&->&Hw2&Hr2&He2). eauto.
Qed.

Lemma reads_length c c' h h1 r len k : packet_ok c h → form h1 = (if version_flag h then IETF_QUIC_LONG_HEADER_PACKET else IETF_QUIC_SHORT_HEADER_PACKET) →
  long_packet_type h1 = seen_type h → PacketHeaders.version h1 = seen_version c h →
  ReaderSpec.wf r → Reader.endianness r = NETWORK_BYTE_ORDER → ReaderSpec.rest r = length_field h len ++ k →
  (version_flag h = true → 0 <= len < 16384 ∧ zlen k = len) →
  ∃ r', MaybeProcessIetfLength c' h1 r = (Some (if version_flag h then set_length 2 len h1 else h1, None), r')
    ∧ ReaderSpec.wf r' ∧ Reader.endianness r' = NETWORK_BYTE_ORDER ∧ ReaderSpec.rest r' = k.
Proof.
  intros Hok Hform Hty Hv Hw He Hr Hlen. destruct (transport_99 c (ok_version c h Hok)) as (_&_&Hlong&_).
  unfold MaybeProcessIetfLength. rewrite Hform, Hty, Hv. unfold seen_type, seen_version, length_field in *.
  destruct (version_flag h) eqn:Hf; [|rewrite (bool_decide_eq_false_2 (IETF_QUIC_SHORT_HEADER_PACKET = _)) by done; cbn [negb]; rewrite orb_true_r; eauto].
  fold (transport c). rewrite Hlong. rewrite (bool_decide_eq_true_2 (IETF_QUIC_LONG_HEADER_PACKET = _)) by done.
  assert (Ht : negb (bool_decide (long_packet_type h = INITIAL)) && negb (bool_decide (long_packet_type h = HANDSHAKE))
    && negb (bool_decide (long_packet_type h = ZERO_RTT_PROTECTED)) = false).
  { destruct (ok_type c h Hok Hf) as [-> |[-> | ->]]; done. }
  rewrite Ht. cbn [negb orb]. destruct (Hlen eq_refl) as [Hlim Hk].
  assert (Hl : WriterSpec.is_varint_len 2) by (right; by left). assert (Hlim' : 0 <= len < WriterSpec.varint_limit 2) by done.
  rewrite (peek_varint r _ _ _ Hw Hl Hlim' Hr). unfold Reader.bind.
  destruct (ReaderSpec.reads_ReadVarInt62 NETWORK_BYTE_ORDER _ _ Hl Hlim' r _ Hw He Hr) as (r1&->&Hw1&Hr1&He1).
  pose proof (ReaderSpec.rest_length r1 Hw1) as Hb. rewrite Hr1, Hk in Hb. rewrite <-Hb.
  rewrite Z.ltb_irrefl. unfold MaybeProcessCoalescedPacket. cbn [remaining_packet_length set_length].
  change (remaining_packet_length (set_length 2 len h1)) with len. rewrite Z.leb_refl.
  unfold Reader.TruncateRemaining. rewrite <-Hb, Z.ltb_irrefl. cbn [negb]. eexists. split; [done|].
  assert (Hend : Reader.pos r1 + len = Reader.len r1) by (unfold Reader.BytesRemaining in Hb; lia).
  rewrite Hend. by destruct r1.
Qed.

(** What the fields of the received header are. *)
Lemma received_fields c c' h t l len reset_token :
  let h1 := with_fields h len reset_token (first_header c c' h t l) in
  form h1 = (if version_flag h then IETF_QUIC_LONG_HEADER_PACKET else IETF_QUIC_SHORT_HEADER_PACKET)
  ∧ long_packet_type h1 = seen_type h ∧ PacketHeaders.version h1 = seen_version c h ∧ type_byte h1 = t ∧ packet_number_length h1 = l
  ∧ version_flag h1 = version_flag h ∧ reset_flag h1 = false ∧ possible_stateless_reset_token h1 = reset_token.
Proof.
  unfold with_fields, first_header, received_header. destruct (received_ids _ _ _ _) as [[[dst di] src] si].
  by destruct (has_token h), (version_flag h).
Qed.

Lemma received_retyped c c' h t t0 l l0 len reset_token :
  set_number_length l0 (set_type_byte t0 (with_fields h len reset_token (first_header c c' h t l)))
  = with_fields h len reset_token (first_header c c' h t0 l0).
Proof.
  unfold with_fields, first_header, received_header. destruct (received_ids _ _ _ _) as [[[dst di] src] si].
  by destruct (has_token h), (version_flag h).
Qed.

(** The ids take up as much in the header received as in the packet. *)
Lemma received_lengths c c' h t l len reset_token : packet_ok c h → receives c c' h →
  let h1 := with_fields h len reset_token (first_header c c' h t l) in
  GetIncludedDestinationConnectionIdLength h1 = zlen (sent_destination h)
  ∧ GetIncludedSourceConnectionIdLength h1 = zlen (sent_source h)
  ∧ retry_token_length_length h1 + zlen (retry_token h1) + length_length h1 = zlen (token_bytes c h) + zlen (length_field h len).
Proof.
  intros Hok Hrc. destruct (rc_ids c c' h Hrc) as (_&_&Hclient&Hshort&_). cbv zeta.
  rewrite (token_bytes_length c h (ok_sendable c h Hok) (ok_fits c h Hok)).
  assert (Htok : has_token h = false → retry_token_length_length h = 0 ∧ retry_token h = []).
  { intros Hn. apply (fits_token c h (ok_fits c h Hok)). unfold has_length, has_token in *. destruct (version_flag h); [right|left; by rewrite andb_false_r].
    cbn [andb] in Hn. by apply bool_decide_eq_false_1 in Hn. }
  assert (Hlf : zlen (length_field h len) = if version_flag h then 2 else 0).
  { unfold length_field. destruct (version_flag h); [|done]. apply WriterSpec.varint_bytes_length. right. by left. }
  rewrite Hlf. unfold GetIncludedDestinationConnectionIdLength, GetIncludedSourceConnectionIdLength, GetIncludedConnectionIdLength.
  unfold with_fields, first_header, received_header, received_ids.
  pose proof (SupportsClientConnectionIds_override (version_ c')) as Ho.
  destruct (SupportsClientConnectionIds (version_ c')); [rewrite (Ho eq_refl); clear Hclient|specialize (Hclient eq_refl)];
    destruct quic_do_not_override_connection_id; destruct (perspective_cases c') as [[Es Ec]|[Es Ec]]; rewrite ?Es, ?Ec in *;
    destruct (version_flag h) eqn:Hf; try (rewrite (Hshort eq_refl)); try rewrite Hclient;
    (destruct (has_token h) eqn:Eh; [|destruct (Htok eq_refl) as [-> ->]]); cbn -[zlen]; rewrite ?Hclient, ?(@zlen_nil Z); (split; [lia|split; lia]) || idtac.
Qed.

Lemma received_level c c' h t l len reset_token : packet_ok c h →
  let h1 := with_fields h len reset_token (first_header c c' h t l) in
  GetEncryptionLevel h1 = Some (level_of h) ∧ base_packet_number c' h1 = Some (largest_of c' h)
  ∧ receives_nonce c' h1 = version_flag h && bool_decide (long_packet_type h = ZERO_RTT_PROTECTED) && is_client c' && quic_crypto (version_ c').
Proof.
  intros Hok h1. destruct (received_fields c c' h t l len reset_token) as (Hform&Hty&_). fold h1 in Hform, Hty.
  pose proof (ok_type c h Hok) as Ht.
  unfold GetEncryptionLevel, base_packet_number, largest_of, space_of, PacketHeaders.GetPacketNumberSpace, receives_nonce. rewrite Hform, Hty.
  unfold seen_type, level_of. destruct (version_flag h); [|by destruct (supports_multiple_packet_number_spaces c')].
  destruct (Ht eq_refl) as [-> |[-> | ->]]; by destruct (supports_multiple_packet_number_spaces c').
Qed.

Lemma number_is_read c c' h k r : packet_ok c h → receives c c' h → ReaderSpec.wf r → Reader.endianness r = NETWORK_BYTE_ORDER →
  ReaderSpec.rest r = sent_number h ++ k →
  (ProcessAndCalculatePacketNumber (packet_number_length h) (largest_of c' h) r).1 = Some (packet_number h).
Proof.
  intros Hok Hrc Hw He Hr. unfold ProcessAndCalculatePacketNumber. unfold sent_number, number_bytes in Hr.
  set (l := packet_number_length h) in *. pose proof (sendable_number c h (ok_sendable c h Hok)) as Hn.
  assert (Hwidth : 0 < width l) by (destruct l; reflexivity).
  destruct (ReaderSpec.reads_ReadBytesToUInt64 NETWORK_BYTE_ORDER (length_of l) (packet_number h mod width l) (length_of_le l)
    (Z.mod_pos_bound _ (width l) Hwidth) r k Hw He Hr) as (r'&->&_). cbn [fst]. f_equal.
  pose proof (rc_number c c' h Hrc) as Hnum. cbv zeta in Hnum. fold l in Hnum. destruct Hnum as [[-> Hlt]|(Hb&Hp&Hnear)].
  - unfold CalculatePacketNumberFromWire. replace (PacketNumber.IsInitialized PacketNumber.UninitializedPacketNumber) with false by reflexivity.
    cbn [negb]. apply Z.mod_small. lia.
  - apply CalculatePacketNumberFromWire_spec; [|done|lia|done]. pose proof (ok_length c h Hok) as Hl. fold l in Hl. intros E. rewrite E in Hl. cbn in Hl. lia.
Qed.

(** The receiver finds the encrypted data where it starts. *)
Lemma received_size c c' h t len reset_token mask ct : packet_ok c h → receives c c' h → (length (sent_number h) <= length (tail mask))%nat →
  let h1 := with_fields h len reset_token (first_header c c' h t (packet_number_length h)) in
  GetAssociatedDataFromEncryptedPacket (transport c') (protected c h len mask ct) h1 (sends_nonce c (IetfHeaderTypeByte c h))
  = mask_type (IetfHeaderTypeByte c h) mask :: before_number c h len ++ masked (sent_number h) (tail mask) ++ sent_nonce h.
Proof.
  intros Hok Hrc Hml h1. destruct (received_lengths c c' h t (packet_number_length h) len reset_token Hok Hrc) as (Hd&Hs&Htok).
  destruct (received_fields c c' h t (packet_number_length h) len reset_token) as (_&_&_&_&Hpl&Hf&_). fold h1 in Hd, Hs, Htok, Hpl, Hf.
  unfold GetAssociatedDataFromEncryptedPacket. rewrite Hd, Hs, Hf, Hpl.
  assert (Hv : transport c' = QUIC_VERSION_99) by (unfold transport; rewrite (rc_version c c' h Hrc); apply (ok_version c h Hok)). rewrite Hv.
  pose proof (sent_nonce_length c h Hok) as Hn.
  assert (Hnum : zlen (masked (sent_number h) (tail mask)) = Z.of_nat (length_of (packet_number_length h))).
  { unfold zlen. rewrite masked_length by done. unfold sent_number, number_bytes. by rewrite be_bytes_length. }
  set (front := mask_type (IetfHeaderTypeByte c h) mask :: before_number c h len ++ masked (sent_number h) (tail mask) ++ sent_nonce h).
  assert (Ep : protected c h len mask ct = front ++ ct) by (unfold protected, front; cbn [app]; by rewrite <-!app_assoc). rewrite Ep.
  apply take_app_length'. apply Nat2Z.inj. change (Z.of_nat (length front)) with (zlen front). unfold front.
  rewrite zlen_cons, !zlen_app, Hnum, Hn. unfold before_number. rewrite !zlen_app. unfold after_type, GetPacketHeaderSize_of.
  change (VersionHasIetfInvariantHeader QUIC_VERSION_99) with true. change (QuicVersionHasLongHeaderLengths QUIC_VERSION_99) with true.
  change (QUIC_VERSION_44 <? QUIC_VERSION_99) with true. cbn [orb].
  unfold kPacketHeaderTypeSize, kConnectionIdLengthSize, kQuicVersionSize, kDiversificationNonceSize.
  pose proof (zlen_nonneg (sent_destination h)). pose proof (zlen_nonneg (sent_source h)). pose proof (zlen_nonneg (token_bytes c h)).
  pose proof (zlen_nonneg (length_field h len)).
  destruct (version_flag h) eqn:Evf.
  - rewrite !zlen_app, label_bytes_length. change (zlen [id_lengths_byte (sent_destination h) (sent_source h)]) with 1.
    destruct (sends_nonce c (IetfHeaderTypeByte c h)); rewrite Z2Nat.id; lia.
  - destruct (type_byte_facts c h Hok) as (_&Hlong&_). unfold sends_nonce, IsLongHeader. rewrite Hlong, Evf. cbn [andb].
    unfold token_bytes, has_length, length_field. rewrite Evf, andb_false_r. cbn [andb]. rewrite !(@zlen_nil Z), Z2Nat.id; lia.
Qed.

(** The packet number and the header come out as they were sent. *)
Lemma number_is_unprotected e d c h len ct l reset_token r s :
  let c' := headers s in
  let mask := GenerateHeaderProtectionMask e (sample_of (length (sent_number h)) ct) in
  let t := mask_type (IetfHeaderTypeByte c h) mask in
  let h1 := with_fields h len reset_token (first_header c c' h t l) in
  packet_ok c h → receives c c' h → Masks e d → decrypter_ s (level_of h) = Some d → bytes ct →
  20 <= zlen (sent_number h) + zlen ct → zlen (packet_header c h len) + zlen ct < two64 →
  ReaderSpec.wf r → Reader.endianness r = NETWORK_BYTE_ORDER → ReaderSpec.rest r = masked (sent_number h) (tail mask) ++ sent_nonce h ++ ct →
  ∃ r', RemoveHeaderProtection r (protected c h len mask ct) h1 s
      = (Some (packet_number h, packet_header c h len),
         with_fields h len reset_token (first_header c c' h (IetfHeaderTypeByte c h) (packet_number_length h)), r')
    ∧ ReaderSpec.wf r' ∧ ReaderSpec.rest r' = sent_nonce h ++ ct ∧ Reader.endianness r' = NETWORK_BYTE_ORDER.
Proof.
  intros c' mask t h1 Hok Hrc Hm Hd Hct Hmin Hmax Hw He Hr.
  destruct (received_fields c c' h t l len reset_token) as (_&_&_&Hty&_). fold h1 in Hty.
  destruct (received_level c c' h t l len reset_token Hok) as (Hlevel&_&Hnonce). fold h1 in Hlevel, Hnonce.
  destruct (type_byte_facts c h Hok) as (_&_&_&Hl&_). pose proof (packet_header_bytes c h len Hok) as Hb.
  rewrite (packet_header_parts c h len Hok) in Hb. inversion Hb as [|? ? _ Hb']; subst. rewrite !Forall_app in Hb'. destruct Hb' as (_&Hbpn&_).
  pose proof (received_retyped c c' h t (IetfHeaderTypeByte c h) l (packet_number_length h) len reset_token) as Eh. fold h1 in Eh.
  assert (Hex : zlen (sent_nonce h) = if receives_nonce c' h1 then kDiversificationNonceSize else 0).
  { rewrite (sent_nonce_length c h Hok), <-(nonce_expected_sends c h Hok), Hnonce, (rc_version c c' h Hrc), (rc_peer c c' h Hrc). done. }
  assert (Hpn : length (sent_number h) = length_of (packet_number_length h)) by (unfold sent_number, number_bytes; by rewrite be_bytes_length).
  assert (Hml : (length (sent_number h) <= length (tail mask))%nat).
  { pose proof (ok_length c h Hok) as Hl4. destruct (sample_split (length (sent_number h)) ct ltac:(lia) ltac:(unfold zlen in *; lia)) as (_&Hs&_).
    destruct (same_mask e d Hm _ [] (Reader.new (sample_of (length (sent_number h)) ct) NETWORK_BYTE_ORDER) Hs) as (_&_&Hml);
      [by apply Forall_take, Forall_drop|apply ReaderSpec.reader_new_wf|by rewrite ReaderSpec.new_rest, app_nil_r|].
    fold mask in Hml. destruct mask; unfold zlen in *; cbn in *; lia. }
  pose proof (RemoveHeaderProtection_spec e d s (IetfHeaderTypeByte c h) (before_number c h len) (sent_number h) (sent_nonce h) ct [] r h1
    (level_of h) (packet_number_length h) (largest_of c' h) (packet_number h)) as H. cbv zeta in H. fold mask in H.
  rewrite app_nil_r in H. change (mask_type (IetfHeaderTypeByte c h) mask :: before_number c h len ++ masked (sent_number h) (tail mask)
    ++ sent_nonce h ++ ct) with (protected c h len mask ct) in H.
  fold t c' in H. rewrite Eh in H. rewrite He in H. rewrite <-(packet_header_parts c h len Hok) in H. apply H; try done; clear H.
  - assert (Hlen : zlen (protected c h len mask ct) = zlen (packet_header c h len) + zlen ct); [|lia].
    rewrite packet_header_parts by done. unfold protected, zlen. cbn [length]. rewrite !length_app, masked_length by done. lia.
  - destruct (received_level c c' h (IetfHeaderTypeByte c h) (packet_number_length h) len reset_token Hok) as (_&Hbase&_). done.
  - apply (number_is_read c c' h []); [done|done|apply ReaderSpec.reader_new_wf|done|by rewrite ReaderSpec.new_rest, app_nil_r].
  - replace (receives_nonce c' h1) with (sends_nonce c (IetfHeaderTypeByte c h)); [by apply received_size|].
    by rewrite <-(nonce_expected_sends c h Hok), Hnonce, (rc_version c c' h Hrc), (rc_peer c c' h Hrc).
Qed.

(** The frames of a peer: the receiver has other ways to send, and the other role. *)
Definition as_received (f g : IetfFramer.framer) : IetfFramer.framer :=
  IetfFramer.mk_framer (IetfFramer.transport_version g) (IetfFramer.VariableLengthConnectionIdAllowed g)
    (IetfFramer.quic_use_allocated_connection_ids g) (IetfFramer.framer_perspective g) (IetfFramer.data_producer f).

Lemma frames_bytes_as_received sd cd f g fs : IetfFramer.transport_version g = IetfFramer.transport_version f →
  IetfFramer.frames_bytes sd cd (as_received f g) fs = IetfFramer.frames_bytes sd cd f fs.
Proof.
  intros Hv. induction fs as [|x fs IH]; [done|]. cbn [IetfFramer.frames_bytes]. rewrite IH. f_equal.
  unfold IetfFramer.frame_bytes, IetfFramer.frame_type_byte, IetfFramer.body_bytes, IetfFramer.no_stream, IetfFramer.stream_content, IetfFramer.crypto_content.
  unfold as_received. cbn [IetfFramer.transport_version IetfFramer.data_producer]. by rewrite Hv.
Qed.

Lemma process_frames_as_received f g hears fuel r told :
  IetfFramer.process_frames (as_received f g) hears fuel r told = IetfFramer.process_frames g hears fuel r told.
Proof.
  revert r told. induction fuel as [|fuel IH]; intros r told; [done|]. cbn [IetfFramer.process_frames].
  destruct (Reader.IsDoneReading r); [done|]. destruct (Reader.ReadVarInt62 r) as [[ty|] r1]; [|done]. destruct (negb _); [done|].
  change (IetfFramer.process_frame (as_received f g)) with (IetfFramer.process_frame g).
  destruct (IetfFramer.process_frame g hears ty r1 told) as [[[[]?]?]|]; [apply IH|done..].
Qed.

(** The payload of a packet is heard as the frames it was made of. *)
Lemma ProcessIetfFrameData_spec sd cd v f fs s :
  let g := ietf_frames s in
  IetfFramer.accepts (hears_ietf v) → IetfFramer.transport_version g = IetfFramer.transport_version f →
  Forall (IetfFramer.good sd cd (as_received f g)) fs → IetfFramer.padding_apart fs → fs ≠ [] →
  ProcessIetfFrameData v (IetfFramer.frames_bytes sd cd f fs) s
  = (true, tell (OnIetfFrames (concat (map (IetfFramer.frame_events sd cd f) fs))) s).
Proof.
  intros g Hv Ht Hg Hp Hne. unfold ProcessIetfFrameData. fold g. set (d := IetfFramer.frames_bytes sd cd f fs).
  pose proof (ReaderSpec.reader_new_wf d NETWORK_BYTE_ORDER) as Hw. pose proof (ReaderSpec.rest_length _ Hw) as Hrest. rewrite ReaderSpec.new_rest in Hrest.
  pose proof (IetfFramer.frames_bytes_length sd cd f fs) as Hlen. fold d in Hlen.
  assert (Hpos : 0 < zlen fs) by (destruct fs as [|x fs']; [done|]; rewrite zlen_cons; pose proof (zlen_nonneg fs'); lia).
  unfold IetfFramer.ProcessIetfFrameData. destruct (Reader.IsDoneReading _) eqn:Ed.
  { unfold Reader.IsDoneReading, Reader.BytesRemaining in *. lia. }
  rewrite <-(process_frames_as_received f g).
  rewrite (IetfFramer.process_frames_spec sd cd (as_received f g) (hears_ietf v) fs _ _ [] Hv Hg Hp); [done| |lia].
  split; [done|]. by rewrite ReaderSpec.new_rest, frames_bytes_as_received.
Qed.

(** The decrypter with the nonce of the packet, and the framer that has it. *)
Definition packet_nonce (c : framer) (h : QuicPacketHeader) : option (list Z) := if nonce_expected c h then nonce h else None.
Definition diversified (c : framer) (h : QuicPacketHeader) (d : Dec) : Dec :=
  match packet_nonce c h with Some n => (SetDiversificationNonce d n).2 | None => d end.
Definition with_diversified (c : framer) (h : QuicPacketHeader) (d : Dec) (s : t) : t :=
  match packet_nonce c h with
  | Some n => InstallDecrypter (level_of h) (Some (SetDiversificationNonce d n).2) (set_last_nonce n s)
  | None => s
  end.

Lemma delivered_level c c' h len reset_token : packet_ok c h → GetEncryptionLevel (delivered c c' h len reset_token) = Some (level_of h).
Proof. intros Hok. exact (proj1 (received_level c c' h (IetfHeaderTypeByte c h) (packet_number_length h) len reset_token Hok)). Qed.

Lemma DecryptPayload_spec c d h len reset_token ct ad payload buffer_length s s1 :
  let c' := headers s in
  let h1 := delivered c c' h len reset_token in
  packet_ok c h → receives c c' h → decrypter_ s (level_of h) = Some d →
  s1 = match packet_nonce c h with Some n => set_last_nonce n s | None => s end →
  DecryptPacket (diversified c h d) (packet_number h) ad ct buffer_length = Some payload →
  DecryptPayload ct ad h1 buffer_length s1 = (Some (payload, level_of h), tell (OnDecryptedPacket (level_of h)) (with_diversified c h d s)).
Proof.
  intros c' h1 Hok Hrc Hd -> Hct. unfold DecryptPayload. set (s1 := match packet_nonce c h with Some _ => _ | None => _ end).
  assert (Hs1 : headers s1 = c' ∧ version s1 = version_ c' ∧ decrypter_ s1 = decrypter_ s) by (unfold s1; by destruct (packet_nonce c h)).
  destruct Hs1 as (Hh&Hv&Hds). rewrite Hv, Hh, Hds, (rc_version c c' h Hrc).
  destruct (transport_99 c (ok_version c h Hok)) as (_&_&_&_&->).
  assert (Hlevel : GetEncryptionLevel h1 = Some (level_of h)) by (by apply delivered_level). rewrite Hlevel, Hd.
  change (nonce h1) with (packet_nonce c h). change (packet_number h1) with (packet_number h). rewrite (rc_peer c c' h Hrc).
  unfold diversified, with_diversified, s1, packet_nonce, nonce_expected in *.
  destruct (version_flag h && bool_decide (long_packet_type h = ZERO_RTT_PROTECTED) && is_server c && quic_crypto (version_ c)) eqn:E;
    [|by rewrite Hct]. destruct (nonce h) as [n|]; [|by rewrite Hct].
  rewrite !andb_true_iff in E. destruct E as [[[Ef Ez] ->] _]. apply bool_decide_eq_true_1 in Ez.
  unfold level_of in *. rewrite Ef, Ez in *. rewrite bool_decide_eq_true_2 by done. cbn [andb]. by rewrite Hct.
Qed.

Lemma process_packet_number_spec v e d c h len ct l reset_token r s :
  let c' := headers s in
  let mask := GenerateHeaderProtectionMask e (sample_of (length (sent_number h)) ct) in
  let t := mask_type (IetfHeaderTypeByte c h) mask in
  let h1 := with_fields h len reset_token (first_header c c' h t l) in
  packet_ok c h → receives c c' h → Masks e d → decrypter_ s (level_of h) = Some d → bytes ct →
  20 <= zlen (sent_number h) + zlen ct → zlen (packet_header c h len) + zlen ct < two64 →
  ReaderSpec.wf r → Reader.endianness r = NETWORK_BYTE_ORDER → ReaderSpec.rest r = masked (sent_number h) (tail mask) ++ sent_nonce h ++ ct →
  ∃ r', process_packet_number v r h1 (protected c h len mask ct) s
      = Numbered (set_number (packet_number h) (with_fields h len reset_token
          (first_header c c' h (IetfHeaderTypeByte c h) (packet_number_length h)))) (packet_header c h len) r'
    ∧ ReaderSpec.wf r' ∧ ReaderSpec.rest r' = sent_nonce h ++ ct ∧ Reader.endianness r' = NETWORK_BYTE_ORDER.
Proof.
  intros c' mask t h1 Hok Hrc Hm Hd Hct Hmin Hmax Hw He Hr.
  destruct (number_is_unprotected e d c h len ct l reset_token r s Hok Hrc Hm Hd Hct Hmin Hmax Hw He Hr) as (r'&E&H).
  exists r'. split; [|exact H]. unfold process_packet_number. fold c' mask t h1 in E |- *. clearbody mask.
  destruct (received_fields c c' h t l len reset_token) as (Hform&Hty&_). destruct (received_level c c' h t l len reset_token Hok) as (_&Hbase&_).
  fold h1 in Hform, Hty, Hbase. rewrite Hform, Hty.
  assert (Hnumbered : bool_decide ((if version_flag h then IETF_QUIC_LONG_HEADER_PACKET else IETF_QUIC_SHORT_HEADER_PACKET) = IETF_QUIC_SHORT_HEADER_PACKET)
    || negb (bool_decide (seen_type h = VERSION_NEGOTIATION)) = true).
  { unfold seen_type. pose proof (ok_type c h Hok) as Ht. destruct (version_flag h); [|done]. by destruct (Ht eq_refl) as [-> |[-> | ->]]. }
  rewrite Hnumbered, Hbase, (rc_version c c' h Hrc). cbn [negb]. destruct (transport_99 c (ok_version c h Hok)) as (_&_&_&->&_). rewrite E.
  unfold IsValidFullPacketNumber, transport. rewrite (rc_version c c' h Hrc). fold (transport c). rewrite (ok_version c h Hok).
  by rewrite orb_true_r.
Qed.

(** A visitor that stops nothing. *)
Record open_visitor (v : visitor) : Prop := {
  ov_public : ∀ h, OnUnauthenticatedPublicHeader v h = true;
  ov_header : ∀ h, OnUnauthenticatedHeader v h = true;
  ov_packet : ∀ h, AcceptsPacketHeader v h = true;
  ov_frames : IetfFramer.accepts (hears_ietf v);
}.

Lemma first_header_fresh c c' h t l reset_token : let h1 := first_header c c' h t l in
  match reset_token with Some token => set_reset_token (Some token) (set_length 0 0 (set_retry_token 0 [] h1)) | None => set_length 0 0 (set_retry_token 0 [] h1) end
  = set_reset_token reset_token h1.
Proof. unfold first_header, received_header. destruct (received_ids _ _ _ _) as [[[dst di] src] si]. by destruct reset_token. Qed.

(** The nonce behind the number. *)
Lemma reads_nonce c h r ct : packet_ok c h → ReaderSpec.wf r → Reader.endianness r = NETWORK_BYTE_ORDER → ReaderSpec.rest r = sent_nonce h ++ ct →
  ∃ n r', (if nonce_expected c h then Reader.ReadBytes kDiversificationNonceSize r else (Some [], r)) = (Some n, r')
    ∧ ReaderSpec.rest r' = ct ∧ packet_nonce c h = (if nonce_expected c h then Some n else None).
Proof.
  intros Hok Hw He Hr. pose proof (sent_nonce_length c h Hok) as Hl. rewrite <-(nonce_expected_sends c h Hok) in Hl. unfold packet_nonce.
  destruct (nonce_expected c h) eqn:E.
  - rewrite <-Hl. destruct (ReaderSpec.reads_ReadBytes NETWORK_BYTE_ORDER (sent_nonce h) r ct Hw He Hr) as (r'&->&_&Hr'&_).
    exists (sent_nonce h), r'. split; [done|]. split; [done|]. pose proof (ok_nonce c h Hok) as Hn. unfold nonce_expected in E.
    rewrite !andb_true_iff in E. destruct E as [[[Ef E1] E2] E3]. specialize (Hn Ef). rewrite E1, E2, E3 in Hn. cbn in Hn.
    unfold sent_nonce, nonce_bytes. rewrite Ef. by destruct (nonce h).
  - exists [], r. split; [done|]. split; [|done]. destruct (sent_nonce h) as [|x xs]; [done|]. rewrite zlen_cons in Hl. pose proof (zlen_nonneg xs). lia.
Qed.

(** What the framer is after a packet it has delivered, but for the calls. *)
Definition after_packet (c : framer) (h h' : QuicPacketHeader) (d : Dec) (s : t) : t :=
  update_largest (level_of h) h' (with_diversified c h d s).

Lemma with_diversified_tell c h d x s : tell x (with_diversified c h d s) = with_diversified c h d (tell x s).
Proof. unfold with_diversified. by destruct (packet_nonce c h). Qed.

Lemma ProcessIetfDataPacket_spec sd cd v e d c h fs f len ct l r buffer_length s :
  let c' := headers s in
  let payload := IetfFramer.frames_bytes sd cd f fs in
  let mask := GenerateHeaderProtectionMask e (sample_of (length (sent_number h)) ct) in
  let packet := protected c h len mask ct in
  packet_ok c h → receives c c' h → Masks e d → decrypter_ s (level_of h) = Some d → bytes ct → open_visitor v →
  20 <= zlen (sent_number h) + zlen ct → zlen packet <= kMaxIncomingPacketSize → zlen (packet_header c h len) + zlen ct < two64 →
  (version_flag h = true → 0 <= len < 16384 ∧ zlen (masked (sent_number h) (tail mask) ++ sent_nonce h ++ ct) = len) →
  DecryptPacket (diversified c h d) (packet_number h) (packet_header c h len) ct buffer_length = Some payload →
  IetfFramer.transport_version (ietf_frames s) = IetfFramer.transport_version f →
  Forall (IetfFramer.good sd cd (as_received f (ietf_frames s))) fs → IetfFramer.padding_apart fs → fs ≠ [] →
  ReaderSpec.wf r → Reader.endianness r = NETWORK_BYTE_ORDER →
  ReaderSpec.rest r = token_bytes c h ++ length_field h len ++ masked (sent_number h) (tail mask) ++ sent_nonce h ++ ct →
  ∃ reset_token, let h' := delivered c c' h len reset_token in
  ProcessIetfDataPacket v r (first_header c c' h (mask_type (IetfHeaderTypeByte c h) mask) l) packet buffer_length s
  = (true, tell OnPacketComplete (tell (OnIetfFrames (concat (map (IetfFramer.frame_events sd cd f) fs)))
       (tell (OnPacketHeader h') (after_packet c h h' d (tell (OnDecryptedPacket (level_of h)) s))))).
Proof.
  intros c' payload mask packet Hok Hrc Hm Hd Hct Hov Hmin Hsize Hmax Hlen Hdec Hft Hg Hp Hne Hw He Hr.
  set (t := mask_type _ mask). set (h1 := first_header c c' h t l). unfold ProcessIetfDataPacket. fold c'.
  cbv zeta. set (tk := peek_token r _ s). exists tk. pose proof (first_header_fresh c c' h t l tk) as Ef. cbv zeta in Ef. fold h1 in Ef. rewrite Ef.
  assert (Hfields : form (set_reset_token tk h1) = (if version_flag h then IETF_QUIC_LONG_HEADER_PACKET else IETF_QUIC_SHORT_HEADER_PACKET)
    ∧ long_packet_type (set_reset_token tk h1) = seen_type h ∧ PacketHeaders.version (set_reset_token tk h1) = seen_version c h).
  { unfold h1, first_header, received_header. by destruct (received_ids _ _ _ _) as [[[dst di] src] si]. }
  destruct Hfields as (Hf1&Hf2&Hf3).
  destruct (reads_token c h (set_reset_token tk h1) r _ Hok Hf1 Hf2 Hf3 Hw He Hr) as (r2&->&Hw2&He2&Hr2).
  set (h2 := if has_token h then _ else _).
  assert (Hfields : form h2 = form (set_reset_token tk h1) ∧ long_packet_type h2 = long_packet_type (set_reset_token tk h1)
    ∧ PacketHeaders.version h2 = PacketHeaders.version (set_reset_token tk h1)) by (unfold h2; by destruct (has_token h)).
  destruct Hfields as (Hg1&Hg2&Hg3).
  destruct (reads_length c c' h h2 r2 len _ Hok ltac:(congruence) ltac:(congruence) ltac:(congruence) Hw2 He2 Hr2 Hlen) as (r3&->&Hw3&He3&Hr3).
  change (if version_flag h then set_length 2 len h2 else h2) with (with_fields h len tk h1).
  destruct (process_packet_number_spec v e d c h len ct l tk r3 s Hok Hrc Hm Hd Hct Hmin Hmax Hw3 He3 Hr3) as (r4&E4&Hw4&Hr4&He4).
  fold c' mask t h1 in E4. fold packet in E4. rewrite E4.
  set (hx := set_number _ _). destruct (received_level c c' h (IetfHeaderTypeByte c h) (packet_number_length h) len tk Hok) as (_&_&Hrn).
  assert (Hnonce : bool_decide (form hx = IETF_QUIC_LONG_HEADER_PACKET) && bool_decide (long_packet_type hx = ZERO_RTT_PROTECTED) && is_client c'
    && quic_crypto (version_ c') = nonce_expected c h).
  { etransitivity; [exact Hrn|]. unfold nonce_expected. by rewrite (rc_version c c' h Hrc), (rc_peer c c' h Hrc). }
  rewrite Hnonce. destruct (reads_nonce c h r4 ct Hok Hw4 He4 Hr4) as (n&r5&->&Hr5&Hpn).
  assert (Ehx : set_nonce (if nonce_expected c h then Some n else None) hx = delivered c c' h len tk) by (by rewrite <-Hpn). rewrite Ehx.
  rewrite (ov_header v Hov). cbn [negb]. change (Reader.ReadRemainingPayload r5) with (ReaderSpec.rest r5, (Reader.ReadRemainingPayload r5).2).
  rewrite Hr5, (rc_version c c' h Hrc). destruct (transport_99 c (ok_version c h Hok)) as (_&Hqf&_&Hhp&_). rewrite Hhp.
  rewrite (DecryptPayload_spec c d h len tk ct (packet_header c h len) payload buffer_length s); [|done..| |done].
  2:{ rewrite Hpn. by destruct (nonce_expected c h). }
  assert (Hv : transport c' = transport c) by (unfold transport; by rewrite (rc_version c c' h Hrc)). rewrite Hv, Hqf.
  unfold process_decrypted. rewrite (ov_packet v Hov). cbn [negb]. destruct (Z.ltb_spec kMaxIncomingPacketSize (zlen packet)); [lia|].
  rewrite with_diversified_tell. set (s2 := tell (OnPacketHeader _) _).
  assert (Ef2 : ietf_frames s2 = ietf_frames s) by (unfold s2, with_diversified; by destruct (packet_nonce c h)).
  pose proof (ProcessIetfFrameData_spec sd cd v f fs s2) as Hframes. cbv zeta in Hframes. rewrite Ef2 in Hframes. fold payload in Hframes.
  by rewrite (Hframes (ov_frames v Hov) Hft Hg Hp Hne).
Qed.
Lemma calls_after_packet c h h' d s : calls (after_packet c h h' d s) = calls s.
Proof. unfold after_packet, update_largest, with_diversified. by destruct (packet_nonce c h). Qed.
Lemma headers_after_packet c h h' d s : headers (after_packet c h h' d s) = headers (update_largest (level_of h) h' s).
Proof. unfold after_packet, update_largest, with_diversified. by destruct (packet_nonce c h). Qed.

(** What [ProcessPacket] does until it reaches the rest of an IETF packet. *)
Lemma ProcessPacket_ietf v c h len mask ct s :
  let c' := headers s in
  let t := mask_type (IetfHeaderTypeByte c h) mask in
  let packet := protected c h len mask ct in
  packet_ok c h → receives c c' h → bytes mask → open_visitor v →
  ∃ l r, ProcessPacket v packet s
    = ProcessIetfDataPacket v r (first_header c c' h t l) packet (Z.max kMaxIncomingPacketSize (zlen packet)) (tell OnPacket s)
    ∧ ReaderSpec.wf r ∧ Reader.endianness r = NETWORK_BYTE_ORDER
    ∧ ReaderSpec.rest r = token_bytes c h ++ length_field h len ++ masked (sent_number h) (tail mask) ++ sent_nonce h ++ ct.
Proof.
  intros c' t packet Hok Hrc Hmb Hov. destruct (masked_type_facts c h mask Hok Hmb) as (Hb&Hlong&Hfix&Htype). fold t in Hb, Hlong, Hfix, Htype.
  destruct (reads_first_header c c' h t Hok Hrc Hb Hlong Hfix Htype) as (l&Hreads).
  destruct (Hreads (Reader.new packet NETWORK_BYTE_ORDER)
    (token_bytes c h ++ length_field h len ++ masked (sent_number h) (tail mask) ++ sent_nonce h ++ ct)) as (r&E&Hw&Hr&He);
    [apply ReaderSpec.reader_new_wf|done|rewrite ReaderSpec.new_rest; unfold packet, protected, before_number; cbn [app]; by rewrite <-!app_assoc|].
  assert (Hv : transport c' = QUIC_VERSION_99) by (unfold transport; rewrite (rc_version c c' h Hrc); apply (ok_version c h Hok)).
  assert (Hietf : packet_has_ietf_header packet s = true).
  { unfold packet_has_ietf_header, transport_version_of. fold c'. rewrite Hv. destruct (infer_packet_header_type_from_version c'); [done|].
    unfold packet, protected, IsIetfPacketHeader. fold t. rewrite Hfix. by rewrite orb_true_r. }
  exists l, r. split; [|done]. unfold ProcessPacket. fold c'. rewrite Hietf, E. cbv zeta. rewrite (ov_public v Hov). cbn [negb].
  set (h1 := first_header c c' h t l).
  assert (Hfields : form h1 = (if version_flag h then IETF_QUIC_LONG_HEADER_PACKET else IETF_QUIC_SHORT_HEADER_PACKET)
    ∧ long_packet_type h1 = seen_type h ∧ PacketHeaders.version h1 = seen_version c h ∧ version_flag h1 = version_flag h ∧ reset_flag h1 = false).
  { unfold h1, first_header, received_header. by destruct (received_ids _ _ _ _) as [[[dst di] src] si]. }
  destruct Hfields as (Hform&Hty&Hver&Hvf&Hrst). unfold IsVersionNegotiation. rewrite Hform, Hty, Hver, Hvf, Hrst. cbn [negb andb].
  assert (Hother : version_flag h && negb (bool_decide (seen_version c h = version_ c')) = false).
  { unfold seen_version. destruct (version_flag h); [|done]. by rewrite bool_decide_eq_true_2 by (by rewrite (rc_version c c' h Hrc)). }
  rewrite Hother. cbn [andb].
  assert (Hseen : seen_type h ≠ VERSION_NEGOTIATION ∧ seen_type h ≠ RETRY).
  { unfold seen_type. pose proof (ok_type c h Hok) as Ht. destruct (version_flag h); [|done]. by destruct (Ht eq_refl) as [-> |[-> | ->]]. }
  destruct Hseen as [Hn1 Hn2]. rewrite (bool_decide_eq_false_2 _ Hn1), (bool_decide_eq_false_2 _ Hn2).
  by destruct (bool_decide (_ = IETF_QUIC_SHORT_HEADER_PACKET)).
Qed.

(** C2. What one endpoint sends, the other one hears. Take a header with a short form or a long one that carries frames, frames
    within the limits of the protocol, and room for both; and two framers of version 99, in the two roles, whose encrypter and
    decrypter of the header's level have the same keys. Then [BuildDataPacket] and [EncryptPayload] make a packet, its header
    protected, with its length field filled in; and [ProcessPacket] of the other framer removes the protection, recovers the
    whole packet number from its low bytes, finds the associated data and the encrypted data, decrypts them, with the
    diversification nonce if there is one, and gives the visitor the level, the header and the frames, in order, and nothing
    else. Its largest packet number becomes that of the packet. *)
Theorem packets_are_delivered sd cd v e d h fs packet_length buffer_len ct s s' :
  let c := headers s in
  let c' := headers s' in
  let payload := IetfFramer.frames_bytes sd cd (ietf_frames s) fs in
  let len := length_to_write e h payload in
  let ad := packet_header c h len in
  packet_ok c h → receives c c' h → open_visitor v →
  encrypter_ s (level_of h) = Some e → decrypter_ s' (level_of h) = Some d → Masks e d → Opens e (diversified c h d) →
  Forall (IetfFramer.good sd cd (ietf_frames s)) fs → Forall (IetfFramer.good sd cd (as_received (ietf_frames s) (ietf_frames s'))) fs →
  IetfFramer.transport_version (ietf_frames s') = IetfFramer.transport_version (ietf_frames s) → IetfFramer.padding_apart fs → fs ≠ [] →
  bytes payload → zlen (header_bytes c h) + zlen payload <= Z.of_nat packet_length →
  EncryptPacket e (packet_number h) ad payload (wrap64 (buffer_len - zlen ad)) = Some ct →
  20 <= Z.of_nat (length_of (packet_number_length h)) + zlen ct → zlen ad + zlen ct <= kMaxIncomingPacketSize →
  ∃ built packet s1 reset_token s2,
    BuildDataPacket h fs packet_length e s = (Some built, s1)
    ∧ EncryptPayload (level_of h) (packet_number h) h built buffer_len s1 = (Some packet, s1)
    ∧ zlen packet = zlen built - zlen payload + GetCiphertextSize e (zlen payload)
    ∧ ProcessPacket v packet s' = (true, s2)
    ∧ let h' := delivered c c' h len reset_token in
      packet_number h' = packet_number h ∧ GetEncryptionLevel h' = Some (level_of h)
      ∧ calls s2 = calls s' ++ [OnPacket; OnDecryptedPacket (level_of h); OnPacketHeader h';
          OnIetfFrames (concat (map (IetfFramer.frame_events sd cd (ietf_frames s)) fs)); OnPacketComplete]
      ∧ headers s2 = headers (update_largest (level_of h) h' s').
Proof.
  intros c c' payload len ad Hok Hrc Hov He Hd Hm Ho Hg Hg' Hft Hp Hne Hpb Hroom Hct Hmin Hmax.
  set (mask := GenerateHeaderProtectionMask e (sample_of (length (sent_number h)) ct)).
  pose proof (packet_header_bytes c h len Hok) as Hb.
  destruct (opens e _ Ho _ _ _ _ _ (sendable_number c h (ok_sendable c h Hok)) Hb Hpb Hct) as (Hctb&Hctl&_&Hopen).
  assert (Hnl : zlen (sent_number h) = Z.of_nat (length_of (packet_number_length h))) by (unfold sent_number; apply number_bytes_length).
  pose proof (ok_length c h Hok) as Hl4.
  destruct (mask_of_sample e d (length (sent_number h)) ct Hm ltac:(unfold zlen in *; lia) ltac:(unfold zlen in *; lia) Hctb) as [Hmb Hml].
  fold mask in Hmb, Hml.
  assert (Hmt : (length (sent_number h) <= length (tail mask))%nat) by (destruct mask; unfold zlen in *; cbn in *; lia).
  assert (Hparts : zlen ad = 1 + zlen (before_number c h len) + zlen (sent_number h) + zlen (sent_nonce h)).
  { unfold ad. rewrite packet_header_parts by done. rewrite zlen_cons, !zlen_app. lia. }
  assert (Hmasked : zlen (masked (sent_number h) (tail mask)) = zlen (sent_number h)) by (unfold zlen; by rewrite masked_length).
  pose proof (zlen_nonneg (before_number c h len)). pose proof (zlen_nonneg (sent_nonce h)). pose proof (zlen_nonneg ct).
  assert (Elen : version_flag h = true → len = zlen (sent_number h) + zlen (sent_nonce h) + zlen ct).
  { intros Hf. unfold len, length_to_write, sent_nonce. rewrite Hf, Hctl, Hnl.
    rewrite (overhead e _ Ho), (overhead e _ Ho (zlen payload)). lia. }
  unfold kMaxIncomingPacketSize in *.
  pose proof (BuildDataPacket_spec sd cd e h fs packet_length s (ok_version c h Hok) (ok_sendable c h Hok) Hg Hne) as Hbuild.
  cbv zeta in Hbuild. fold c payload len ad in Hbuild. specialize (Hbuild ltac:(intros Hf; specialize (Elen Hf); lia) Hroom).
  set (s1 := set_headers (after_header c h) s) in *.
  pose proof (EncryptPayload_spec e (diversified c h d) (level_of h) c h len payload ct buffer_len s1 Hok eq_refl He Ho Hpb Hmb Hml Hct ltac:(lia)) as Henc.
  cbv zeta in Henc. fold ad mask in Henc. specialize (Henc ltac:(unfold two64; lia)).
  assert (Hplen : zlen (protected c h len mask ct) = zlen ad + zlen ct) by (unfold protected; rewrite zlen_cons, !zlen_app; lia).
  destruct (ProcessPacket_ietf v c h len mask ct s' Hok Hrc Hmb Hov) as (l&r&Hpp&Hw&Hend&Hr).
  destruct (ProcessIetfDataPacket_spec sd cd v e d c h fs (ietf_frames s) len ct l r (Z.max kMaxIncomingPacketSize (zlen (protected c h len mask ct)))
    (tell OnPacket s')) as (reset_token&Hproc); try done; cbv zeta; fold c' mask payload ad; try done; try lia.
  { unfold kMaxIncomingPacketSize. lia. } { unfold two64. lia. }
  { intros Hf. specialize (Elen Hf). rewrite !zlen_app. lia. } { apply Hopen. lia. }
  eexists _, _, s1, reset_token, _. split; [exact Hbuild|]. split; [exact Henc|]. split; [rewrite Hplen, zlen_app; lia|].
  split; [rewrite Hpp; exact Hproc|]. cbv zeta. split; [done|]. split; [by apply delivered_level|].
  cbn [calls tell headers]. rewrite calls_after_packet, headers_after_packet. cbn [calls tell]. split; [by rewrite <-!app_assoc|done].
Qed.

(** ** What is heard of packets that are not authentic *)

(** The calls that tell of a packet that was decrypted. *)
Definition trusted (x : call) : bool :=
  match x with OnDecryptedPacket _ | OnPacketHeader _ | OnIetfFrames _ | OnGoogleFrames _ | OnPacketComplete => true | _ => false end.

(** A decrypter that the framer has, perhaps with a diversification nonce. *)
Definition has_key (s : t) (d : Dec) : Prop :=
  ∃ level d0, decrypter_ s level = Some d0 ∧ (d = d0 ∨ ∃ n, d = (SetDiversificationNonce d0 n).2).
(** Every decrypter is the one it was, perhaps with a diversification nonce; the encrypters are the same. *)
Definition keeps_keys (s s1 : t) : Prop :=
  encrypter_ s1 = encrypter_ s
  ∧ ∀ level, decrypter_ s1 level = decrypter_ s level
      ∨ ∃ d n, decrypter_ s level = Some d ∧ decrypter_ s1 level = Some (SetDiversificationNonce d n).2.

(** Nothing is learnt from a packet: only untrusted calls, and the same headers and timestamp. *)
Definition quiet (s s1 : t) : Prop :=
  (∃ told, calls s1 = calls s ++ told ∧ forallb (λ x, negb (trusted x)) told = true)
  ∧ headers s1 = headers s ∧ last_timestamp_ s1 = last_timestamp_ s ∧ keeps_keys s s1.
(** A text was decrypted with one of the keys, and its header is heard. *)
Definition authentic (s s1 : t) : Prop :=
  ∃ d h ad ct max plaintext told level space after,
    has_key s d ∧ DecryptPacket d (packet_number h) ad ct max = Some plaintext
    ∧ calls s1 = calls s ++ told ++ [OnDecryptedPacket level; OnPacketHeader h] ++ after
    ∧ forallb (λ x, negb (trusted x)) told = true
    ∧ headers s1 = headers (update_largest space h s) ∧ keeps_keys s s1.

Lemma keeps_refl s : keeps_keys s s.
Proof. split; [done|]. by left. Qed.

Lemma quiet_same s : quiet s s.
Proof. split; [exists []; by rewrite app_nil_r|]. split; [done|]. split; [done|]. apply keeps_refl. Qed.

Lemma quiet_tell x s : trusted x = false → quiet s (tell x s).
Proof. intros Hx. split; [exists [x]; cbn; by rewrite Hx|]. split; [done|]. split; [done|]. exact (keeps_refl s). Qed.

Lemma quiet_error e s : quiet s (RaiseError e s).2.
Proof. split; [by exists [OnError e]|]. split; [done|]. split; [done|]. exact (keeps_refl s). Qed.

Lemma keeps_same s s1 s2 : encrypter_ s1 = encrypter_ s → decrypter_ s1 = decrypter_ s → keeps_keys s1 s2 → keeps_keys s s2.
Proof. intros He Hd [H1 H2]. split; [congruence|]. by rewrite <-Hd. Qed.

(** Untrusted calls, and what does not matter, may come before. *)
Definition same_knowledge (s s1 : t) : Prop :=
  (∃ told, calls s1 = calls s ++ told ∧ forallb (λ x, negb (trusted x)) told = true)
  ∧ headers s1 = headers s ∧ last_timestamp_ s1 = last_timestamp_ s ∧ encrypter_ s1 = encrypter_ s ∧ decrypter_ s1 = decrypter_ s.

Lemma then_quiet s s1 s2 : same_knowledge s s1 → quiet s1 s2 → quiet s s2.
Proof.
  intros ((t1&E1&F1)&Hh&Ht&He&Hd) ((t2&E2&F2)&Hh2&Ht2&Hk). split; [exists (t1 ++ t2)|].
  { rewrite E2, E1, app_assoc, forallb_app, F1, F2. done. }
  split; [congruence|]. split; [congruence|]. by apply (keeps_same s s1).
Qed.

Lemma update_largest_headers level h s s1 : headers s1 = headers s → headers (update_largest level h s1) = headers (update_largest level h s).
Proof. intros E. unfold update_largest. cbn [headers set_headers]. by rewrite E. Qed.

Lemma then_authentic s s1 s2 : same_knowledge s s1 → authentic s1 s2 → authentic s s2.
Proof.
  intros ((t1&E1&F1)&Hh&Ht&He&Hd) (d&h&ad&ct&max&p&told&level&space&after&Hk&Hp&E2&F2&Hh2&Hkeep).
  exists d, h, ad, ct, max, p, (t1 ++ told), level, space, after. split; [unfold has_key in *; by rewrite <-Hd|]. split; [done|].
  split; [rewrite E2, E1; by rewrite <-!app_assoc|]. split; [by rewrite forallb_app, F1, F2|].
  split; [by rewrite Hh2; apply update_largest_headers|]. by apply (keeps_same s s1).
Qed.

Lemma knows_refl s : same_knowledge s s.
Proof. split; [exists []; by rewrite app_nil_r|done]. Qed.
Lemma knows_tell x s : trusted x = false → same_knowledge s (tell x s).
Proof. intros Hx. split; [exists [x]; cbn; by rewrite Hx|done]. Qed.
Lemma knows_nonce n s : same_knowledge s (set_last_nonce n s).
Proof. split; [exists []; by rewrite app_nil_r|done]. Qed.

Lemma keeps_install level d n s s1 : decrypter_ s level = Some d → encrypter_ s1 = encrypter_ s →
  decrypter_ s1 = install level (Some (SetDiversificationNonce d n).2) (decrypter_ s) → keeps_keys s s1.
Proof.
  intros Hd He E. split; [done|]. intros l. rewrite E. unfold install. destruct (decide (l = level)) as [->|]; [|by left].
  right. by exists d, n.
Qed.

(** A decrypter of the framer, as it is or with the nonce of the header. *)
Lemma DecryptPayload_keys ct ad h max s :
  match DecryptPayload ct ad h max s with
  | (None, s1) => calls s1 = calls s ∧ headers s1 = headers s ∧ last_timestamp_ s1 = last_timestamp_ s ∧ keeps_keys s s1
  | (Some (plaintext, _), s1) => ∃ level d, has_key s d ∧ DecryptPacket d (packet_number h) ad ct max = Some plaintext
      ∧ calls s1 = calls s ++ [OnDecryptedPacket level] ∧ headers s1 = headers s ∧ last_timestamp_ s1 = last_timestamp_ s ∧ keeps_keys s s1
  end.
Proof.
  assert (Hno : calls s = calls s ∧ headers s = headers s ∧ last_timestamp_ s = last_timestamp_ s ∧ keeps_keys s s) by (split_and!; [done..|apply keeps_refl]).
  unfold DecryptPayload. cbv zeta. destruct (KnowsWhichDecrypterToUse (version s)).
  - destruct (GetEncryptionLevel h) as [level|]; [|exact Hno]. destruct (decrypter_ s level) as [d|] eqn:Hd; [|exact Hno].
    assert (Hpair : ∃ d' s', (match nonce h with
        | Some n => if bool_decide (level = ENCRYPTION_ZERO_RTT) && is_client (headers s)
                    then ((SetDiversificationNonce d n).2, InstallDecrypter level (Some (SetDiversificationNonce d n).2) s) else (d, s)
        | None => (d, s) end) = (d', s') ∧ has_key s d' ∧ calls s' = calls s ∧ headers s' = headers s ∧ last_timestamp_ s' = last_timestamp_ s ∧ keeps_keys s s').
    { assert (Hsame : has_key s d) by (exists level, d; auto). destruct (nonce h) as [n|]; [|by exists d, s; split_and!; try apply keeps_refl].
      destruct (_ && _); [|by exists d, s; split_and!; try apply keeps_refl].
      eexists _, _. split; [reflexivity|]. split; [exists level, d; eauto|]. split_and!; [done..|]. by eapply keeps_install. }
    destruct Hpair as (d'&s'&->&Hk&Hc&Hh&Ht&Hkeep). destruct (DecryptPacket d' _ _ _ _) as [p|] eqn:E; [|done].
    exists level, d'. cbn [calls tell headers last_timestamp_]. rewrite ?Hc; split_and!; first [done | exact Hkeep].
  - unfold decrypter. destruct (decrypter_ s (decrypter_level_ s)) as [d|] eqn:Hd; [|exact Hno].
    destruct (DecryptPacket d _ _ _ _) as [p|] eqn:E.
    { exists (decrypter_level_ s), d. split; [exists (decrypter_level_ s), d; auto|]. split_and!; first [done | exact (keeps_refl s)]. }
    destruct (alternative_decrypter_level_ s) as [al|] eqn:Hal; [|exact Hno]. unfold alternative_decrypter. rewrite Hal.
    destruct (decrypter_ s al) as [a|] eqn:Ha; [|exact Hno].
    assert (Hpair : ∃ a' s', (match nonce h with
        | Some n => ((SetDiversificationNonce a n).2, InstallDecrypter al (Some (SetDiversificationNonce a n).2) s)
        | None => (a, s) end) = (a', s') ∧ has_key s a' ∧ calls s' = calls s ∧ headers s' = headers s ∧ last_timestamp_ s' = last_timestamp_ s ∧ keeps_keys s s').
    { assert (Hsame : has_key s a) by (exists al, a; auto). destruct (nonce h) as [n|]; [|by exists a, s; split_and!; try apply keeps_refl].
      eexists _, _. split; [reflexivity|]. split; [exists al, a; eauto|]. split_and!; [done..|]. by eapply keeps_install. }
    destruct Hpair as (a'&s'&->&Hk&Hc&Hh&Ht&Hkeep). destruct (negb _) eqn:Etry; [|done].
    destruct (DecryptPacket a' _ _ _ _) as [p|] eqn:Ea; [|done].
    exists al, a'. destruct (alternative_decrypter_latch_ _); cbn [calls set_decrypters tell headers last_timestamp_]; rewrite ?Hc; split_and!; first [done | exact Hkeep].
Qed.

Lemma process_decrypted_calls v ietf packet plaintext level h s :
  let s1 := (process_decrypted v ietf packet plaintext level h s).2 in
  (∃ after, calls s1 = calls s ++ [OnPacketHeader h] ++ after) ∧ headers s1 = headers (update_largest level h s)
  ∧ encrypter_ s1 = encrypter_ s ∧ decrypter_ s1 = decrypter_ s.
Proof.
  unfold process_decrypted. set (s2 := tell (OnPacketHeader h) (update_largest level h s)).
  assert (H2 : calls s2 = calls s ++ [OnPacketHeader h] ∧ headers s2 = headers (update_largest level h s)
    ∧ encrypter_ s2 = encrypter_ s ∧ decrypter_ s2 = decrypter_ s) by done.
  clearbody s2. destruct H2 as (Hc&Hh&He&Hd). destruct (negb _); [by split_and!; [exists []|..]|].
  destruct (_ <? _); [by split_and!; [exists [OnError QUIC_PACKET_TOO_LARGE]; cbn; rewrite Hc, <-app_assoc|..]|].
  assert (Hframes : ∃ ok s3 more, (if ietf then ProcessIetfFrameData v plaintext s2 else ProcessFrameData v plaintext h s2) = (ok, s3)
    ∧ calls s3 = calls s2 ++ more ∧ headers s3 = headers s2 ∧ encrypter_ s3 = encrypter_ s2 ∧ decrypter_ s3 = decrypter_ s2).
  { destruct ietf.
    - unfold ProcessIetfFrameData. destruct (IetfFramer.ProcessIetfFrameData _ _ _) as [[|e|] told]; cbn;
        eexists _, _, _; (split; [reflexivity|]); cbn; rewrite <-?app_assoc; eauto.
    - unfold ProcessFrameData. destruct (GoogleFramer.ProcessFrameData _ _ _ _) as [[|e|] st]; cbn;
        eexists _, _, _; (split; [reflexivity|]); cbn; rewrite <-?app_assoc; eauto. }
  destruct Hframes as (ok&s3&more&->&Hc3&Hh3&He3&Hd3). rewrite Hc, <-app_assoc in Hc3.
  destruct ok; cbn [snd]; (split; [cbn [tell calls]; rewrite Hc3, <-?app_assoc; by eexists|]); cbn [tell headers encrypter_ decrypter_]; split_and!; congruence.
Qed.

(** What is decrypted is authentic, and what is not is quiet. *)
Lemma decrypted_or_quiet v ietf packet ct ad h max s :
  match DecryptPayload ct ad h max s with
  | (None, s1) => quiet s s1
  | (Some (plaintext, level), s1) => authentic s (process_decrypted v ietf packet plaintext level h s1).2
  end.
Proof.
  pose proof (DecryptPayload_keys ct ad h max s) as H. destruct (DecryptPayload ct ad h max s) as [[[plaintext level]|] s1].
  - destruct H as (l&d&Hk&Hd&Hc&Hh&_&Hkeep). pose proof (process_decrypted_calls v ietf packet plaintext level h s1) as Hp. cbv zeta in Hp.
    destruct Hp as ((after&Hc2)&Hh2&He2&Hd2). exists d, h, ad, ct, max, plaintext, [], l, level, after. split; [done|]. split; [done|].
    split; [rewrite Hc2, Hc; by rewrite <-!app_assoc|]. split; [done|]. split; [rewrite Hh2; by apply update_largest_headers|].
    destruct Hkeep as [H1 H2]. split; [congruence|]. by rewrite Hd2.
  - destruct H as (Hc&Hh&Ht&Hkeep). split; [exists []; by rewrite app_nil_r|]. done.
Qed.

Definition learns (s s1 : t) : Prop := quiet s s1 ∨ authentic s s1.

Lemma then_learns s s1 s2 : same_knowledge s s1 → learns s1 s2 → learns s s2.
Proof. intros H [Hq|Ha]; [left; by eapply then_quiet|right; by eapply then_authentic]. Qed.

Lemma quiet_then_tell x s s1 : quiet s s1 → trusted x = false → quiet s (tell x s1).
Proof.
  intros ((told&E&F1)&Hh&Ht&Hk) Hx. split; [exists (told ++ [x]); cbn; rewrite E, <-app_assoc, forallb_app, F1; cbn; by rewrite Hx|]. done.
Qed.

Lemma process_packet_number_quiet v r h packet s :
  match process_packet_number v r h packet s with Numbered _ _ _ => True | Ended result => quiet s result.2 end.
Proof.
  unfold process_packet_number. destruct (negb _); [done|]. destruct (base_packet_number _ h) as [base|]; [|apply quiet_error].
  destruct (HasHeaderProtection _).
  - destruct (RemoveHeaderProtection r packet h s) as [[[[n ad]|] h'] r'].
    + destruct (IsValidFullPacketNumber n _); [done|]. destruct (IsIetfStatelessResetPacket v h'); [by apply quiet_tell|apply quiet_error].
    + destruct (IsIetfStatelessResetPacket v h'); [by apply quiet_tell|apply quiet_error].
  - destruct (ProcessAndCalculatePacketNumber _ base r) as [[n|] r']; [|apply quiet_error].
    destruct (IsValidFullPacketNumber n _); [done|]. destruct (IsIetfStatelessResetPacket v h); [by apply quiet_tell|apply quiet_error].
Qed.

Lemma ProcessIetfDataPacket_learns v r h packet max s : learns s (ProcessIetfDataPacket v r h packet max s).2.
Proof.
  unfold ProcessIetfDataPacket. cbv zeta. set (h1 := match peek_token _ _ _ with Some _ => _ | None => _ end). clearbody h1.
  destruct (MaybeProcessIetfInitialRetryToken h1 r) as [[h2|] r2]; [|left; apply quiet_error].
  destruct (MaybeProcessIetfLength _ h2 r2) as [[[h3 coalesced]|] r3]; [|left; apply quiet_error].
  set (s1 := match coalesced with Some _ => _ | None => _ end).
  assert (Hk : same_knowledge s s1 ∧ headers s1 = headers s) by (unfold s1; destruct coalesced; (split; [by apply knows_tell || apply knows_refl|done])).
  destruct Hk as [Hk Hh]. apply (then_learns _ _ _ Hk). rewrite <-Hh. clearbody s1. clear s Hk Hh coalesced. rename s1 into s.
  pose proof (process_packet_number_quiet v r3 h3 packet s) as Hq. destruct (process_packet_number v r3 h3 packet s) as [h4 ad r4|res]; [|by left]. clear Hq.
  set (has_nonce := _ && quic_crypto _). destruct (if has_nonce then _ else _) as [[n|] r5]; [|left; apply quiet_error].
  set (s1 := if has_nonce then set_last_nonce n s else s). assert (Hk : same_knowledge s s1 ∧ headers s1 = headers s) by
    (unfold s1; destruct has_nonce; (split; [apply knows_nonce || apply knows_refl|done])). destruct Hk as [Hk Hh].
  apply (then_learns _ _ _ Hk). rewrite <-Hh. clearbody s1. clearbody has_nonce. set (h5 := set_nonce _ h4).
  destruct (OnUnauthenticatedHeader v h5); cbn [negb]; [|left; apply quiet_same].
  destruct (Reader.ReadRemainingPayload r5) as [encrypted r6]. set (ad' := if HasHeaderProtection _ then _ else _).
  pose proof (decrypted_or_quiet v (VersionHasIetfQuicFrames (transport (headers s1))) packet encrypted ad' h5 max s1) as H.
  destruct (DecryptPayload encrypted ad' h5 max s1) as [[[plaintext level]|] s2]; [by right|]. left.
  destruct (IsIetfStatelessResetPacket v h5); by apply quiet_then_tell.
Qed.

Lemma ProcessDataPacket_learns v r h packet max s : learns s (ProcessDataPacket v r h packet max s).2.
Proof.
  unfold ProcessDataPacket. destruct (ProcessUnauthenticatedHeader _ h r) as [[h1|] r1]; [|left; apply quiet_error].
  destruct (negb _); [left; apply quiet_same|]. destruct (KnowsWhichDecrypterToUse _); [left; apply quiet_error|].
  destruct (Reader.ReadRemainingPayload r1) as [encrypted r2]. set (ad := GetAssociatedDataFromEncryptedPacket _ _ _ _).
  pose proof (decrypted_or_quiet v false packet encrypted ad h1 max s) as H.
  destruct (DecryptPayload encrypted ad h1 max s) as [[[plaintext level]|] s2]; [by right|]. left. by apply quiet_then_tell.
Qed.

(** C5. Only authentic packets are heard. Whatever bytes come from the network, in whatever version and state, [ProcessPacket]
    does one of two things. Either a text was decrypted with a key that was installed, under the packet number that is
    reported: then the visitor hears of the header behind untrusted calls only, and that number is what the largest one is
    updated with. Or nothing was: then the visitor is not told of a decrypted packet, a header, frames, or the completion of a
    packet, and neither the largest packet numbers, the ids, nor the last timestamp change. In both cases the encrypters and
    decrypters stay as they were, but for a diversification nonce that a decrypter was given. *)
Theorem only_authentic_packets_are_heard v packet s :
  let s1 := (ProcessPacket v packet s).2 in quiet s s1 ∨ authentic s s1.
Proof.
  cbv zeta. change (learns s (ProcessPacket v packet s).2). unfold ProcessPacket. cbv zeta. set (s0 := tell OnPacket s).
  apply (then_learns s s0); [by apply knows_tell|]. change (headers s) with (headers s0). clearbody s0.
  assert (He : ∀ e, learns s0 (RaiseError e s0).2) by (intros; left; apply quiet_error).
  assert (Hq : learns s0 s0) by (left; apply quiet_same).
  assert (Ht : ∀ x, trusted x = false → learns s0 (tell x s0)) by (intros; left; by apply quiet_tell).
  destruct (ProcessPublicHeader _ _ _ _) as [[h|] r]; [|apply He]. destruct (negb _); [exact Hq|].
  destruct (IsVersionNegotiation _ h _).
  { destruct (is_client _); [|apply He]. destruct (ProcessVersionNegotiationPacket _ h r) as [[[id versions]|] r']; [by apply Ht|apply He]. }
  destruct (_ && _ && negb (OnProtocolVersionMismatch _ _)); [exact Hq|]. destruct (_ && is_client _); [apply He|].
  destruct (bool_decide (_ = RETRY)).
  { destruct (ProcessRetryPacket h r) as [[[[o n] token]|] r']; [by apply Ht|exact Hq]. }
  destruct (reset_flag h).
  { unfold ProcessPublicResetPacket. destruct (Reader.ReadRemainingPayload r) as [payload r']. destruct (CryptoMessages.ParseMessage payload) as [reset|]; [|apply He].
    destruct (negb _); [apply He|]. destruct (CryptoMessages.GetUint64 reset kRNON) as [e proof]. destruct (negb _); [apply He|]. by apply Ht. }
  destruct (packet_has_ietf_header _ _); [apply ProcessIetfDataPacket_learns|apply ProcessDataPacket_learns].
Qed.

(** ** Stateless resets *)

(** A reader has gone on in its bytes: what is left is the end of what was. *)
Definition advances (r r' : Reader.t) : Prop :=
  Reader.data r' = Reader.data r ∧ Reader.len r' = Reader.len r ∧ Reader.pos r <= Reader.pos r' <= Reader.len r.

Lemma advances_refl r : ReaderSpec.wf r → advances r r.
Proof. intros [H _]. split; [done|]. split; [done|lia]. Qed.
Lemma advances_trans r1 r2 r3 : advances r1 r2 → advances r2 r3 → advances r1 r3.
Proof. intros (H1&H2&H3) (H4&H5&H6). split; [congruence|]. split; [congruence|]. rewrite H2 in *. lia. Qed.
Lemma advances_wf r r' : ReaderSpec.wf r → advances r r' → ReaderSpec.wf r'.
Proof. intros [Hw1 Hw2] (H1&H2&H3). unfold ReaderSpec.wf. rewrite H1, H2. lia. Qed.

Lemma advances_rest r r' : ReaderSpec.wf r → advances r r' → ReaderSpec.rest r' `suffix_of` ReaderSpec.rest r.
Proof.
  intros [Hw _] (H1&H2&H3). exists (take (Z.to_nat (Reader.pos r' - Reader.pos r)) (ReaderSpec.rest r)).
  rewrite <-(take_drop (Z.to_nat (Reader.pos r' - Reader.pos r)) (ReaderSpec.rest r)) at 1. f_equal. unfold ReaderSpec.rest. rewrite H1, H2, skipn_firstn_comm, drop_drop.
  f_equal; [lia|]. f_equal. lia.
Qed.

Lemma ReadBytes_advances n r : 0 <= n → ReaderSpec.wf r → advances r (Reader.ReadBytes n r).2.
Proof.
  intros Hn [Hw _]. unfold Reader.ReadBytes, Reader.CanRead. destruct (Z.leb_spec n (Reader.len r - Reader.pos r)); (split; [done|]; split; [done|]); cbn; lia.
Qed.
Lemma ReadUInt8_advances r : ReaderSpec.wf r → advances r (Reader.ReadUInt8 r).2.
Proof.
  intros Hw. pose proof (ReadBytes_advances 1 r ltac:(lia) Hw) as H. unfold Reader.ReadUInt8, Reader.bind. by destruct (Reader.ReadBytes 1 r) as [[x|] r1].
Qed.

Lemma ReadBytesToUInt64_advances n r : ReaderSpec.wf r → advances r (Reader.ReadBytesToUInt64 n r).2.
Proof.
  intros Hw. pose proof (ReadBytes_advances (Z.of_nat n) r ltac:(lia) Hw) as H. unfold Reader.ReadBytesToUInt64, Reader.bind.
  destruct (8 <? Z.of_nat n); [by apply advances_refl|]. case_decide; by destruct (Reader.ReadBytes (Z.of_nat n) r) as [[x|] r1].
Qed.

Lemma unmask_number_advances n mask_reader r w : ReaderSpec.wf r → advances r (unmask_number n mask_reader r w).1.2.
Proof.
  revert mask_reader r w. induction n as [|n IH]; intros mask_reader r w Hw; cbn [unmask_number]; [by apply advances_refl|].
  destruct (Reader.ReadUInt8 mask_reader) as [[m|] mask_reader']; [|by apply advances_refl]. pose proof (ReadUInt8_advances r Hw) as Ha.
  destruct (Reader.ReadUInt8 r) as [[b|] r']; [|done]. cbn [snd] in Ha. destruct (Writer.WriteUInt8 _ w) as [ok w']. destruct ok; [|done].
  apply (advances_trans r r'); [done|]. apply IH. by apply (advances_wf r).
Qed.

Lemma RemoveHeaderProtection_keeps r packet h s : ReaderSpec.wf r → let h' := (RemoveHeaderProtection r packet h s).1.2 in
  form h' = form h ∧ possible_stateless_reset_token h' = possible_stateless_reset_token h ∧ advances r (RemoveHeaderProtection r packet h s).2.
Proof.
  intros Hw. assert (Hno : form h = form h ∧ possible_stateless_reset_token h = possible_stateless_reset_token h ∧ advances r r) by (split_and!; [done|done|by apply advances_refl]).
  unfold RemoveHeaderProtection. destruct (GetEncryptionLevel h) as [l|]; [|done]. destruct (decrypter_ s l) as [d|]; [|done].
  destruct (Reader.ReadStringPiece _ _) as [[x|] r1]; [|done]. destruct (if (bool_decide _ && _ && _ && _) then Reader.Seek kDiversificationNonceSize r1 else (true, r1)) as [ok r2].
  destruct (negb ok); [done|]. cbv zeta. destruct (Reader.ReadUInt8 _) as [[m|] r3]; [|done].
  set (h1 := set_number_length _ _). assert (Hh : form h1 = form h ∧ possible_stateless_reset_token h1 = possible_stateless_reset_token h) by done.
  clearbody h1. destruct Hh as [Hh1 Hh2]. pose proof (unmask_number_advances (length_of (packet_number_length h1)) r3 r (Writer.new (Z.to_nat IETF_MAX_PACKET_NUMBER_LENGTH) NETWORK_BYTE_ORDER) Hw) as Ha.
  destruct (unmask_number _ _ _ _) as [[ok' r4] w]. cbn [fst snd] in Ha. destruct (negb ok'); [done|]. destruct (base_packet_number _ h1) as [base|]; [|done].
  destruct (ProcessAndCalculatePacketNumber _ _ _) as [[n|] r5]; [|done]. destruct (Writer.WriteUInt8 _ _) as [ok'' w1]. destruct (negb ok''); [done|].
  destruct (Writer.andthen _ _ w1) as [ok3 w2]. by destruct (negb ok3).
Qed.

(** A short header whose last bytes are a token the visitor knows. *)
Lemma process_packet_number_reset v r h packet s b k :
  IsIetfStatelessResetPacket v h = true → packet_number_length h = PACKET_1BYTE_PACKET_NUMBER →
  ReaderSpec.wf r → Reader.endianness r = NETWORK_BYTE_ORDER → ReaderSpec.rest r = b :: k → is_byte b →
  process_packet_number v r h packet s = Ended (hear_stateless_reset h s)
  ∨ ∃ h' ad r', process_packet_number v r h packet s = Numbered h' ad r' ∧ form h' = form h
      ∧ possible_stateless_reset_token h' = possible_stateless_reset_token h ∧ advances r r'.
Proof.
  intros Hreset Hl Hw He Hr Hb. assert (Hform : form h = IETF_QUIC_SHORT_HEADER_PACKET).
  { unfold IsIetfStatelessResetPacket in Hreset. apply andb_true_iff in Hreset as [H _]. by apply bool_decide_eq_true_1 in H. }
  unfold process_packet_number. rewrite Hform. rewrite bool_decide_eq_true_2 by done. cbn [orb negb].
  assert (Hbase : ∃ base, base_packet_number (headers s) h = Some base).
  { unfold base_packet_number, GetPacketNumberSpace. rewrite Hform. destruct (supports_multiple_packet_number_spaces _); eauto. }
  destruct Hbase as (base&->). destruct (HasHeaderProtection _).
  - pose proof (RemoveHeaderProtection_keeps r packet h s Hw) as Hk. cbv zeta in Hk. destruct (RemoveHeaderProtection r packet h s) as [[o h'] r'].
    cbn [fst snd] in Hk. destruct Hk as (Hk1&Hk2&Ha).
    assert (Hreset' : IsIetfStatelessResetPacket v h' = true) by (unfold IsIetfStatelessResetPacket in *; by rewrite Hk1, Hk2).
    assert (Hsame : hear_stateless_reset h' s = hear_stateless_reset h s) by (unfold hear_stateless_reset; by rewrite Hk2).
    destruct o as [[n ad]|]; [|left; rewrite Hreset'; by rewrite Hsame].
    destruct (IsValidFullPacketNumber n _); [right; eexists _, _, _; split; [done|]; cbn; split_and!; [congruence..|done]|]. left. rewrite Hreset'. by rewrite Hsame.
  - rewrite Hl. unfold ProcessAndCalculatePacketNumber.
    destruct (ReaderSpec.reads_ReadBytesToUInt64 NETWORK_BYTE_ORDER 1 b ltac:(lia) Hb r k Hw He) as (r'&E&_).
    { rewrite Hr. f_equal. unfold WriterSpec.uint_bytes. cbn. rewrite Z.mod_small by lia; done. }
    pose proof (ReadBytesToUInt64_advances 1 r Hw) as Ha. cbn [length_of]. rewrite E in Ha |- *. cbn [snd] in Ha.
    destruct (IsValidFullPacketNumber _ _); [right; eexists _, _, _; split; [done|]; cbn; split_and!; [done..|exact Ha]|].
    left. by rewrite Hreset.
Qed.

(** A key of the framer has opened the end of these bytes, and the header is heard. *)
Definition opens_end (packet : list Z) (s s1 : t) : Prop :=
  ∃ d h ad ct max plaintext level after,
    has_key s d ∧ ct `suffix_of` packet ∧ DecryptPacket d (packet_number h) ad ct max = Some plaintext
    ∧ calls s1 = calls s ++ [OnDecryptedPacket level; OnPacketHeader h] ++ after.

Lemma ProcessIetfDataPacket_reset v r h packet max s token b k :
  form h = IETF_QUIC_SHORT_HEADER_PACKET → packet_number_length h = PACKET_1BYTE_PACKET_NUMBER → PacketHeaders.version h = UnsupportedQuicVersion →
  is_client (headers s) = true → ReaderSpec.wf r → Reader.endianness r = NETWORK_BYTE_ORDER →
  ReaderSpec.rest r = (b :: k) ++ token → is_byte b → zlen token = 16 → IsValidStatelessResetToken v token = true →
  (∀ h, OnUnauthenticatedHeader v h = true) →
  let '(ok, s1) := ProcessIetfDataPacket v r h packet max s in
  (ok = true ∧ calls s1 = calls s ++ [OnAuthenticatedIetfStatelessResetPacket token]) ∨ opens_end (ReaderSpec.rest r) s s1.
Proof.
  intros Hform Hl Hv Hc Hw He Hr Hb Ht Htoken Hov. unfold ProcessIetfDataPacket. cbv zeta.
  assert (Hpeek : ∀ h', form h' = IETF_QUIC_SHORT_HEADER_PACKET → peek_token r h' s = Some token).
  { intros h' Hf. unfold peek_token. rewrite Hf, Hc. change (Reader.PeekRemainingPayload r) with (ReaderSpec.rest r). rewrite Hr.
    rewrite bool_decide_eq_true_2 by done. cbn [andb]. rewrite zlen_app. pose proof (zlen_nonneg (b :: k)).
    destruct (Z.leb_spec 16 (zlen (b :: k) + zlen token)); [|lia]. f_equal.
    replace (length ((b :: k) ++ token) - 16)%nat with (length (b :: k)) by (rewrite length_app; unfold zlen in Ht; lia). apply drop_app_length. }
  rewrite Hpeek by done. set (h1 := set_reset_token _ _).
  assert (Hh1 : form h1 = IETF_QUIC_SHORT_HEADER_PACKET ∧ packet_number_length h1 = PACKET_1BYTE_PACKET_NUMBER ∧ PacketHeaders.version h1 = UnsupportedQuicVersion
    ∧ possible_stateless_reset_token h1 = Some token) by done.
  clearbody h1. destruct Hh1 as (Hf1&Hl1&Hv1&Ht1).
  assert (Hskip : MaybeProcessIetfInitialRetryToken h1 r = (Some h1, r) ∧ MaybeProcessIetfLength (headers s) h1 r = (Some (h1, None), r)).
  { unfold MaybeProcessIetfInitialRetryToken, MaybeProcessIetfLength. by rewrite Hv1. }
  destruct Hskip as [-> ->].
  assert (Hreset : ∀ h', form h' = form h1 → possible_stateless_reset_token h' = possible_stateless_reset_token h1 →
    IsIetfStatelessResetPacket v h' = true ∧ ∀ s', hear_stateless_reset h' s' = (true, tell (OnAuthenticatedIetfStatelessResetPacket token) s')).
  { intros h' E1 E2. unfold IsIetfStatelessResetPacket, hear_stateless_reset. rewrite E1, E2, Hf1, Ht1. by rewrite bool_decide_eq_true_2. }
  destruct (Hreset h1 eq_refl eq_refl) as [Hr1 Hh1].
  destruct (process_packet_number_reset v r h1 packet s b (k ++ token) Hr1 Hl1 Hw He Hr Hb) as [-> |(h2&ad&r2&->&E1&E2&Ha)].
  { rewrite Hh1. by left. }
  destruct (Hreset h2 E1 E2) as [Hr2 Hh2]. rewrite E1, Hf1. rewrite bool_decide_eq_false_2 by done. cbn [andb]. rewrite Hov. cbn [negb].
  change (Reader.ReadRemainingPayload r2) with (ReaderSpec.rest r2, (Reader.ReadRemainingPayload r2).2). cbv iota beta. pose proof (advances_rest r r2 Hw Ha) as Hend.
  set (encrypted := ReaderSpec.rest r2) in *. set (ad' := if HasHeaderProtection _ then _ else _). set (h3 := set_nonce None h2).
  pose proof (DecryptPayload_keys encrypted ad' h3 max s) as H. destruct (DecryptPayload encrypted ad' h3 max s) as [[[plaintext level]|] s2].
  { destruct H as (l&d&Hk&Hd&Hcalls&_). pose proof (process_decrypted_calls v (VersionHasIetfQuicFrames (transport (headers s))) packet plaintext level h3 s2) as Hp.
    cbv zeta in Hp. destruct (process_decrypted _ _ _ _ _ _ _) as [ok s1]. destruct Hp as ((after&Hp)&_). right. exists d, h3, ad', encrypted, max, plaintext, l, after.
    split; [done|]. split; [done|]. split; [done|]. cbn [snd] in Hp. rewrite Hp, Hcalls. by rewrite <-app_assoc. }
  destruct H as (Hcalls&_). destruct (Hreset h3 E1 E2) as [-> ->]. left. cbn. by rewrite Hcalls.
Qed.

Lemma BuildIetfStatelessResetPacket_bytes RandBytes token : zlen (RandBytes kMinRandomBytesLengthInStatelessReset) = kMinRandomBytesLengthInStatelessReset →
  BuildIetfStatelessResetPacket RandBytes token = Some ([112] ++ RandBytes kMinRandomBytesLengthInStatelessReset ++ token).
Proof.
  intros Hr. unfold BuildIetfStatelessResetPacket. rewrite app_assoc. apply build_emits.
  - apply WriterSpec.emits_andthen; [|apply WriterSpec.emits_WriteBytes]. apply WriterSpec.emits_andthen; [apply WriterSpec.emits_WriteUInt8|].
    eapply WriterSpec.emits_ext; [|apply WriterSpec.emits_WriteBytes]. intros w _. unfold Writer.WriteRandomBytes, Writer.WriteBytes. by rewrite Hr.
  - rewrite !zlen_app, Hr. reflexivity.
Qed.

(** C25. A server without state can end a connection. The packet [BuildIetfStatelessResetPacket] makes of a token looks like a
    short header with random bytes. A client of any version with IETF headers, with whatever keys it has, whose visitor knows the token and
    does not stop the processing of packets at their header, finds the token in the last sixteen bytes of the packet and tells
    the visitor of an authenticated reset, and of nothing else; unless one of its own keys happens to open the random bytes at
    the end of this very packet, and then it hears of a decrypted packet instead. *)
Theorem stateless_reset_is_heard v RandBytes token s :
  let random := RandBytes kMinRandomBytesLengthInStatelessReset in
  let c := headers s in
  zlen random = kMinRandomBytesLengthInStatelessReset → bytes random → zlen token = 16 →
  is_client c = true → VersionHasIetfInvariantHeader (transport c) = true →
  (expected_client_connection_id_length c = 0 ∨ 4 <= expected_client_connection_id_length c <= kQuicMaxConnectionIdLength) →
  (∀ h, OnUnauthenticatedPublicHeader v h = true) → (∀ h, OnUnauthenticatedHeader v h = true) → IsValidStatelessResetToken v token = true →
  ∃ packet, BuildIetfStatelessResetPacket RandBytes token = Some packet
    ∧ let '(ok, s1) := ProcessPacket v packet s in
      (ok = true ∧ calls s1 = calls s ++ [OnPacket; OnAuthenticatedIetfStatelessResetPacket token]) ∨ opens_end packet (tell OnPacket s) s1.
Proof.
  intros random c Hr Hb Ht Hc Hv Hid Hpub Hov Htoken.
  assert (Hs : is_server c = false) by (by rewrite is_server_client, Hc).
  set (n := if SupportsClientConnectionIds (version_ c) then expected_client_connection_id_length c else 0).
  unfold kQuicMaxConnectionIdLength, kMinRandomBytesLengthInStatelessReset in *.
  assert (Hn : n = 0 ∨ 4 <= n <= 18) by (unfold n; destruct (SupportsClientConnectionIds (version_ c)); [done|by left]).
  set (d := take (Z.to_nat n) random). assert (Hd : zlen d = n) by (unfold d, zlen in *; rewrite length_take; lia).
  assert (Hrest : zlen (drop (Z.to_nat n) random) = 24 - n) by (unfold zlen in *; rewrite length_drop; lia).
  destruct (drop (Z.to_nat n) random) as [|b k] eqn:Ek; [rewrite (@zlen_nil Z) in Hrest; lia|].
  assert (Hbk : is_byte b). { pose proof (Forall_drop _ (Z.to_nat n) _ Hb) as H. rewrite Ek in H. by inversion H. }
  rewrite (BuildIetfStatelessResetPacket_bytes RandBytes token Hr). change (RandBytes kMinRandomBytesLengthInStatelessReset) with random. eexists.
  assert (Ep : [112] ++ random ++ token = short_bytes 112 d ++ (b :: k) ++ token).
  { unfold short_bytes. rewrite <-app_assoc. f_equal. rewrite app_assoc. f_equal. unfold d. rewrite <-Ek. by rewrite take_drop. }
  assert (Hgood : good_id d) by (unfold good_id, kQuicMaxConnectionIdLength; lia).
  assert (Hacc : ids_accepted c UnsupportedQuicVersion false d []).
  { unfold ids_accepted. rewrite Hs, Hc. split; [done|]. split; [by left|]. split; [|split; [done|split; [done|split; [done|]]]].
    - intros E. unfold n in Hd. rewrite E in Hd. destruct d; [done|]. rewrite zlen_cons in Hd. pose proof (zlen_nonneg d). lia.
    - intros _ _ E. unfold n in Hd. by rewrite E in Hd. }
  assert (Hl : short_type_byte c 112 PACKET_1BYTE_PACKET_NUMBER).
  { split; [lia|]. split; [done|]. split; [done|]. unfold GetShortHeaderPacketNumberLength.
    destruct (infer_packet_header_type_from_version c); [|done]. by destruct (QUIC_VERSION_44 <? transport c). }
  pose proof (reads_short_header c 112 _ d Hl Hacc) as Hreads. rewrite Ep.
  destruct (Hreads (Reader.new (short_bytes 112 d ++ (b :: k) ++ token) NETWORK_BYTE_ORDER) ((b :: k) ++ token)) as (r&E&Hw&Hrr&He);
    [apply ReaderSpec.reader_new_wf|done|apply ReaderSpec.new_rest|].
  set (packet := short_bytes 112 d ++ (b :: k) ++ token) in *.
  assert (Hietf : packet_has_ietf_header packet s = true).
  { unfold packet_has_ietf_header. by destruct (infer_packet_header_type_from_version (headers s)). }
  set (h := received_header c false 112 UnsupportedQuicVersion INITIAL PACKET_1BYTE_PACKET_NUMBER d []) in *.
  assert (Hh : form h = IETF_QUIC_SHORT_HEADER_PACKET ∧ packet_number_length h = PACKET_1BYTE_PACKET_NUMBER ∧ PacketHeaders.version h = UnsupportedQuicVersion
    ∧ long_packet_type h = INITIAL ∧ version_flag h = false ∧ reset_flag h = false).
  { unfold h, received_header. by destruct (received_ids _ _ _ _) as [[[dst di] src] si]. }
  destruct Hh as (Hh1&Hh2&Hh3&Hh4&Hh5&Hh6). clearbody h.
  pose proof (ProcessIetfDataPacket_reset v r h packet (Z.max kMaxIncomingPacketSize (zlen packet)) (tell OnPacket s) token b k
    Hh1 Hh2 Hh3 Hc Hw He Hrr Hbk Ht Htoken Hov) as Hend.
  split; [reflexivity|]. fold packet. unfold ProcessPacket. rewrite Hietf. fold c. unfold ProcessPublicHeader. cbv zeta. fold packet. rewrite E, Hpub. cbn [negb].
  unfold IsVersionNegotiation. rewrite Hh1, Hh4, Hh5, Hh6. cbn [negb andb].
  rewrite !bool_decide_eq_true_2, (bool_decide_eq_false_2 (INITIAL = RETRY)) by done. 
  destruct (ProcessIetfDataPacket _ _ _ _ _ _) as [ok s1]. destruct Hend as [[-> Hcalls]|(d'&h'&ad&ct&max&plaintext&level&after&Hk&Hct&Hd'&Hcalls)].
  - left. split; [done|]. rewrite Hcalls. cbn. by rewrite <-app_assoc.
  - right. exists d', h', ad, ct, max, plaintext, level, after. split; [done|]. split; [|done]. transitivity (ReaderSpec.rest r); [done|].
    rewrite Hrr. by exists (short_bytes 112 d).
Qed.

(** ** The alternative decrypter *)

(** The alternative decrypter takes over. In a version that does not know which decrypter to use, when the decrypter in use
    fails and the alternative one, with the diversification nonce of the packet if it has one, opens the packet, the visitor is
    told the alternative level; from then on the alternative decrypter is the one in use, and the other is the alternative, or
    none is, for good, when the alternative was to be latched. A client does not try keys for 0-RTT without a nonce. The level the
    caller is told, by which the largest packet number is kept, is still that of the decrypter that failed. *)
Theorem alternative_decrypter_takes_over ct ad h max s d a level :
  KnowsWhichDecrypterToUse (version s) = false → decrypter s = Some d → DecryptPacket d (packet_number h) ad ct max = None →
  alternative_decrypter_level_ s = Some level → decrypter_ s level = Some a → level ≠ decrypter_level_ s →
  let a' := match nonce h with Some n => (SetDiversificationNonce a n).2 | None => a end in
  let tried := negb (bool_decide (level = ENCRYPTION_ZERO_RTT) && is_client (headers s) && negb (included (nonce h))) in
  let '(result, s1) := DecryptPayload ct ad h max s in
  match (if tried then DecryptPacket a' (packet_number h) ad ct max else None) with
  | Some plaintext =>
      result = Some (plaintext, decrypter_level_ s) ∧ calls s1 = calls s ++ [OnDecryptedPacket level]
      ∧ decrypter s1 = Some a' ∧ decrypter_level_ s1 = level
      ∧ alternative_decrypter s1 = (if alternative_decrypter_latch_ s then None else Some d)
      ∧ alternative_decrypter_level_ s1 = (if alternative_decrypter_latch_ s then None else Some (decrypter_level_ s))
  | None => result = None ∧ calls s1 = calls s ∧ decrypter s1 = Some d ∧ alternative_decrypter s1 = Some a'
  end.
Proof.
  intros Hv Hd Hfail Hal Ha Hne a' tried. unfold DecryptPayload. cbv zeta. rewrite Hv, Hd, Hfail, Hal.
  assert (Halt : alternative_decrypter s = Some a) by (unfold alternative_decrypter; by rewrite Hal). rewrite Halt.
  set (s1 := match nonce h with Some n => InstallDecrypter level (Some (SetDiversificationNonce a n).2) s | None => s end).
  assert (Epair : match nonce h with Some n => ((SetDiversificationNonce a n).2, InstallDecrypter level (Some (SetDiversificationNonce a n).2) s)
    | None => (a, s) end = (a', s1)) by (unfold a', s1; by destruct (nonce h)). rewrite Epair. fold tried.
  assert (Hs1 : calls s1 = calls s ∧ decrypter_level_ s1 = decrypter_level_ s ∧ alternative_decrypter_level_ s1 = Some level
    ∧ alternative_decrypter_latch_ s1 = alternative_decrypter_latch_ s ∧ decrypter_ s1 (decrypter_level_ s) = Some d ∧ decrypter_ s1 level = Some a').
  { unfold s1, a', decrypter in *. destruct (nonce h) as [n|]; [|by rewrite Hal, Hd, Ha]. cbn. unfold install.
    rewrite decide_False, decide_True by done. by rewrite Hal. }
  destruct Hs1 as (Hc&Hl&Hal1&Hlatch&Hd1&Ha1). clearbody s1 a' tried. destruct (if tried then _ else _) as [plaintext|].
  - cbn [alternative_decrypter_latch_ tell]. rewrite Hlatch. destruct (alternative_decrypter_latch_ s); unfold decrypter, alternative_decrypter;
      cbn; rewrite Hc, ?Hl, ?Hd1, Ha1; done.
  - unfold decrypter, alternative_decrypter. rewrite Hl, Hal1, Hc. done.
Qed.

(** ** Public resets *)

(** A reset that can be sent: with a connection id of eight bytes, an address of its family, and an endpoint id of a limited size. *)
Definition address_ok (a : QuicSocketAddress) : Prop :=
  let '(v6, ip, port) := a in zlen ip = (if v6 : bool then 16 else 4) ∧ is_u16 port.
Definition reset_ok (p : QuicPublicResetPacket) : Prop :=
  zlen (connection_id p) = kQuicDefaultConnectionIdLength ∧ is_u64 (nonce_proof p)
  ∧ (∀ a, client_address p = Some a → address_ok a) ∧ zlen (endpoint_id p) < 2 ^ 31.

Lemma DecodeAddress_encode a : address_ok a → DecodeAddress (EncodeAddress a) = Some a.
Proof.
  destruct a as [[v6 ip] port]. intros [Hip Hport]. unfold EncodeAddress, DecodeAddress.
  assert (Hfam : zlen (le_bytes 2 (if v6 then kIPv6 else kIPv4)) = 2 ∧ zlen (le_bytes 2 port) = 2) by (unfold zlen; by rewrite !le_bytes_length).
  rewrite zlen_app. pose proof (zlen_nonneg (ip ++ le_bytes 2 port)). destruct Hfam as [Hfam Hpl]. destruct (Z.ltb_spec (zlen (le_bytes 2 (if v6 then kIPv6 else kIPv4)) + zlen (ip ++ le_bytes 2 port)) 2); [lia|].
  rewrite take_app_length', drop_app_length' by (by rewrite le_bytes_length). rewrite le_val_bytes by (destruct v6; split; reflexivity || discriminate).
  assert (Hlen : length ip = if v6 then 16%nat else 4%nat) by (unfold zlen in Hip; destruct v6; lia).
  assert (Hfamily : (if (if v6 then kIPv6 else kIPv4) =? kIPv4 then Some 4%nat else if (if v6 then kIPv6 else kIPv4) =? kIPv6 then Some 16%nat else None)
    = Some (length ip)) by (rewrite Hlen; by destruct v6).
  rewrite Hfamily. rewrite zlen_app. pose proof (zlen_nonneg ip). destruct (Z.ltb_spec (zlen ip + zlen (le_bytes 2 port)) (Z.of_nat (length ip)));
    [unfold zlen in *; lia|].
  rewrite drop_app_length, take_app_length. rewrite Hpl. cbn [negb Z.eqb Pos.eqb]. rewrite le_val_bytes by exact Hport. by destruct v6.
Qed.

(** The values of the message, in the order of their tags. *)
Definition reset_values (p : QuicPublicResetPacket) : CryptoMessages.QuicTagValueMap :=
  match endpoint_id p with [] => [] | id => [(kEPID, id)] end ++ [(kRNON, le_bytes 8 (nonce_proof p))]
  ++ match client_address p with Some a => [(kCADR, EncodeAddress a)] | None => [] end.

Lemma EncodeAddress_length a : address_ok a → zlen (EncodeAddress a) <= 20.
Proof.
  destruct a as [[v6 ip] port]. intros [Hip _]. unfold EncodeAddress. rewrite !zlen_app, Hip. unfold zlen. rewrite !le_bytes_length. destruct v6; lia.
Qed.

Lemma reset_values_ok p : reset_ok p → CryptoMessages.wf_entries (reset_values p).
Proof.
  intros (_&_&Ha&He). unfold reset_values, CryptoMessages.wf_entries.
  assert (Hal : ∀ a, client_address p = Some a → zlen (EncodeAddress a) <= 20) by (intros; by apply EncodeAddress_length, Ha).
  assert (H8 : zlen (le_bytes 8 (nonce_proof p)) = 8) by done.
  destruct (endpoint_id p) as [|x id]; destruct (client_address p) as [a|]; try specialize (Hal a eq_refl);
    (split; [repeat constructor|split; [repeat constructor; done|split; [|vm_compute; discriminate]]]);
    cbn [CryptoMessages.values_bytes app]; rewrite ?CryptoMessages.values_bytes_cons, ?zlen_app, ?H8; change (zlen (CryptoMessages.values_bytes [])) with 0; lia.
Qed.

Lemma BuildPublicResetPacket_bytes p : reset_ok p →
  BuildPublicResetPacket p = Some ([14] ++ connection_id p ++ CryptoMessages.wire kPRST (reset_values p)).
Proof.
  intros Hp. pose proof (reset_values_ok p Hp) as Hv. unfold BuildPublicResetPacket. set (m := match endpoint_id p with [] => _ | _ => _ end).
  assert (Em : m = CryptoMessages.mk_message kPRST (reset_values p) 0 None).
  { unfold m, reset_values, CryptoMessages.SetValue, CryptoMessages.SetStringPiece, CryptoMessages.set_map. by destruct (endpoint_id p), (client_address p). }
  clearbody m. subst m. unfold CryptoMessages.GetSerialized. cbn [CryptoMessages.serialized_ fst].
  set (m := CryptoMessages.mk_message kPRST (reset_values p) 0 None).
  assert (Hsize : CryptoMessages.size m = 8 + 8 * zlen (reset_values p) + zlen (CryptoMessages.values_bytes (reset_values p))) by apply CryptoMessages.size_values.
  assert (Hshort : zlen (reset_values p) <= 3) by (unfold reset_values; destruct (endpoint_id p), (client_address p); vm_compute; discriminate).
  assert (Hvals : zlen (CryptoMessages.values_bytes (reset_values p)) < 2 ^ 31 + 28).
  { destruct Hp as (_&_&Ha&He). unfold reset_values. assert (Hal : ∀ a, client_address p = Some a → zlen (EncodeAddress a) <= 20) by (intros; by apply EncodeAddress_length, Ha).
    assert (H8 : zlen (le_bytes 8 (nonce_proof p)) = 8) by done.
    destruct (endpoint_id p) as [|x id]; destruct (client_address p) as [a|]; try specialize (Hal a eq_refl);
      cbn [app]; rewrite ?CryptoMessages.values_bytes_cons, ?zlen_app, ?H8; change (zlen (CryptoMessages.values_bytes [])) with 0; lia. }
  pose proof (zlen_nonneg (reset_values p)). pose proof (zlen_nonneg (CryptoMessages.values_bytes (reset_values p))).
  assert (Hpad : CryptoMessages.need_pad m = false).
  { unfold CryptoMessages.need_pad. rewrite Hsize. change (CryptoMessages.minimum_size_ m) with 0. lia. }
  rewrite CryptoMessages.ConstructHandshakeMessage_spec.
  2:{ split; [done|]. destruct Hv as (H1&H2&H3&H4). rewrite Hpad. split; [done|]. split; [done|]. change (CryptoMessages.tag_value_map_ m) with (reset_values p).
      rewrite Hsize. split; [lia|]. split; [lia|]. done. }
  rewrite Hpad. cbn [CryptoMessages.pad_entries]. change (CryptoMessages.tag_value_map_ m) with (reset_values p). change (CryptoMessages.tag_ m) with kPRST.
  rewrite app_assoc. apply build_emits.
  - apply WriterSpec.emits_andthen; [|apply WriterSpec.emits_WriteBytes]. apply WriterSpec.emits_andthen; [apply WriterSpec.emits_WriteUInt8|].
    apply emits_WriteConnectionId.
  - by rewrite !zlen_app.
Qed.

Lemma reset_values_found p : reset_ok p → let m := CryptoMessages.mk_message kPRST (reset_values p) 0 None in
  CryptoMessages.GetUint64 m kRNON = (CryptoMessages.QUIC_NO_ERROR, nonce_proof p)
  ∧ CryptoMessages.GetStringPiece m kCADR = EncodeAddress <$> client_address p
  ∧ CryptoMessages.GetStringPiece m kEPID = (match endpoint_id p with [] => None | id => Some id end).
Proof.
  intros (_&Hn&_&_) m. unfold CryptoMessages.GetUint64, CryptoMessages.GetPOD, CryptoMessages.GetStringPiece, m, reset_values.
  cbn [CryptoMessages.tag_value_map_].
  assert (H8 : negb (zlen (le_bytes 8 (nonce_proof p)) =? 8) = false) by done. assert (Hv : le_val (le_bytes 8 (nonce_proof p)) = nonce_proof p) by (by apply le_val_bytes).
  destruct (endpoint_id p) as [|x id]; destruct (client_address p) as [a|]; cbn -[le_bytes le_val zlen EncodeAddress]; rewrite H8, Hv; done.
Qed.

(** A public reset is heard as it was sent: [BuildPublicResetPacket] succeeds for every packet with a connection id of eight
    bytes, and a client that takes it for a packet of Google QUIC tells the visitor its connection id, its nonce proof, the
    client's address if it has one, and the endpoint id, to which a zero byte is appended. *)
Theorem public_reset_is_heard v p s :
  reset_ok p → is_client (headers s) = true →
  (infer_packet_header_type_from_version (headers s) = true → VersionHasIetfInvariantHeader (transport (headers s)) = false) →
  (∀ h, OnUnauthenticatedPublicHeader v h = true) →
  ∃ packet s1, BuildPublicResetPacket p = Some packet ∧ ProcessPacket v packet s = (true, s1)
    ∧ calls s1 = calls s ++ [OnPacket; OnPublicResetPacket (mk_reset (connection_id p) (nonce_proof p) (client_address p)
        (match endpoint_id p with [] => [] | id => id ++ [0] end))].
Proof.
  intros Hp Hc Hinfer Hpub. pose proof (reset_values_ok p Hp) as Hv. rewrite (BuildPublicResetPacket_bytes p Hp).
  eexists. set (c := headers s) in *. set (payload := CryptoMessages.wire kPRST (reset_values p)).
  set (as_source := is_client c && quic_do_not_override_connection_id). set (packet := [14] ++ connection_id p ++ payload).
  assert (Hietf : packet_has_ietf_header packet s = false).
  { unfold packet_has_ietf_header, transport_version_of. fold c. destruct (infer_packet_header_type_from_version c); [by apply Hinfer|done]. }
  set (h0 := set_version_flag false (set_reset_flag true QuicPacketHeader_new)).
  set (h := set_nonce None (set_number_length PACKET_1BYTE_PACKET_NUMBER
    (if as_source then set_source (connection_id p) (set_included (destination_connection_id_included h0) true h0)
     else set_destination (connection_id p) (set_included true (source_connection_id_included h0) h0)))).
  assert (Hreads : ReaderSpec.reads NETWORK_BYTE_ORDER (ProcessPublicHeader c false QuicPacketHeader_new) ([14] ++ connection_id p) h).
  { unfold ProcessPublicHeader. eapply ReaderSpec.reads_bind; [by apply ReaderSpec.reads_ReadUInt8|]. cbv zeta.
    change (has 14 PACKET_PUBLIC_FLAGS_RST) with true. change (has 14 PACKET_PUBLIC_FLAGS_VERSION) with false.
    change (PACKET_PUBLIC_FLAGS_MAX <? 14) with false. change (has 14 PACKET_PUBLIC_FLAGS_8BYTE_CONNECTION_ID) with true.
    rewrite andb_false_r. cbn [negb andb]. fold as_source h0. change (reset_flag h0) with true. change (version_flag h0) with false. cbn [andb].
    rewrite <-(app_nil_r (connection_id p)). eapply ReaderSpec.reads_bind.
    { rewrite <-(app_nil_r (connection_id p)). eapply ReaderSpec.reads_bind; [|apply ReaderSpec.reads_ret].
      destruct Hp as (Hid&_). rewrite <-Hid. apply reads_ReadId. unfold good_id, kQuicMaxConnectionIdLength, kQuicDefaultConnectionIdLength in *. lia. }
    rewrite andb_false_r. replace (version_flag _) with false by (by destruct as_source). cbn [andb]. rewrite <-(app_nil_r (@nil Z)).
    eapply ReaderSpec.reads_bind; [apply ReaderSpec.reads_ret|]. apply ReaderSpec.reads_ret. }
  destruct (Hreads (Reader.new packet NETWORK_BYTE_ORDER) payload) as (r&E&Hw&Hr&He);
    [apply ReaderSpec.reader_new_wf|done|rewrite ReaderSpec.new_rest; unfold packet; by rewrite <-app_assoc|].
  assert (Hh : version_flag h = false ∧ reset_flag h = true ∧ long_packet_type h = INITIAL
    ∧ GetServerConnectionIdAsRecipient h (perspective c) = connection_id p).
  { unfold h, GetServerConnectionIdAsRecipient, as_source. rewrite Hc. unfold is_client in Hc. apply bool_decide_eq_true_1 in Hc. rewrite Hc.
    by destruct quic_do_not_override_connection_id. }
  destruct Hh as (Hh1&Hh2&Hh3&Hh4). clearbody h.
  destruct (reset_values_found p Hp) as (Hg1&Hg2&Hg3).
  eexists. split; [done|]. unfold ProcessPacket. fold payload. fold packet c. rewrite Hietf. cbv zeta. rewrite E, Hpub. cbn [negb].
  unfold IsVersionNegotiation. rewrite Hc, Hh1, Hh2, Hh3. cbn [negb andb]. rewrite bool_decide_eq_false_2 by done.
  unfold ProcessPublicResetPacket, Reader.ReadRemainingPayload. change (Reader.PeekRemainingPayload r) with (ReaderSpec.rest r). rewrite Hr. unfold payload.
  rewrite CryptoMessages.ParseMessage_wire by done. cbn [CryptoMessages.tag_]. change (negb (kPRST =? kPRST)) with false. cbv iota.
  rewrite Hg1, Hg2, Hg3. rewrite bool_decide_eq_true_2 by done. cbn [negb]. change (headers (tell OnPacket s)) with c. rewrite Hc, Hh4.
  destruct Hp as (_&_&Ha&_). split; [reflexivity|]. cbn [calls tell]. rewrite <-app_assoc. cbn [app]. do 4 f_equal. f_equal.
  - destruct (client_address p) as [a|]; [|done]. cbn. apply DecodeAddress_encode. by apply Ha.
  - by destruct (endpoint_id p).
Qed.
End packets.

(** ** Witnesses *)

Section demo.
#[local] Existing Instance swap_endian.
#[local] Existing Instance swap_endian_laws.
#[local] Existing Instance demo_flags.

(** A visitor that stops nothing and knows the token of sixteen sevens. *)
Definition demo_visitor : visitor :=
  mk_visitor (λ _, true) (λ _, true) (λ _, true) (λ _, true) (λ token, bool_decide (token = replicate 16 7)) (λ _ _, true) (λ _ _, true).
Definition no_data (_ _ : Z) : Z := 0.
Definition no_crypto_data (_ : EncryptionLevel) (_ : Z) : Z := 0.
Definition demo_ietf_frames (p : Perspective) : IetfFramer.framer := IetfFramer.mk_framer (StreamIdManager.mk_version true true) true true p None.
Definition demo_google_frames : GoogleFramer.framer :=
  GoogleFramer.mk_framer QUIC_VERSION_99 None false 0 false.
Definition demo_state (c : framer) (p : Perspective) : @t NullEncrypter NullDecrypter :=
  mk c (λ _, Some (mk_null_encrypter p)) (λ _, Some (mk_null_decrypter p)) ENCRYPTION_INITIAL None false [] 0
    (demo_ietf_frames p) demo_google_frames None [].
Definition demo_frames : list IetfFramer.QuicFrame := [IetfFramer.PingFrame; IetfFramer.PaddingFrame 20].

Lemma demo_packet_ok : packet_ok demo_client demo_header.
Proof.
  split; [reflexivity|apply demo_sendable|apply demo_fits|cbn; lia|by left|reflexivity|].
  repeat split; vm_compute; repeat constructor; discriminate.
Qed.

Lemma demo_receives : receives demo_client demo_server demo_header.
Proof.
  split; [reflexivity|reflexivity| |left; split; reflexivity].
  split; [right; split; discriminate|]. split; [left; reflexivity|]. split; [reflexivity|]. split; [discriminate|].
  split; [discriminate|]. split; [discriminate|discriminate].
Qed.

Lemma demo_open : open_visitor demo_visitor.
Proof. by split. Qed.

Lemma packets_are_delivered_witness :
  let s := demo_state demo_client IS_CLIENT in
  let e := mk_null_encrypter IS_CLIENT in
  ∃ built packet s1 reset_token s2,
    BuildDataPacket demo_header demo_frames 100 e s = (Some built, s1)
    ∧ EncryptPayload ENCRYPTION_INITIAL 260 demo_header built 200 s1 = (Some packet, s1)
    ∧ zlen packet = 54
    ∧ ProcessPacket demo_visitor packet (demo_state demo_server IS_SERVER) = (true, s2)
    ∧ calls s2 = [OnPacket; OnDecryptedPacket ENCRYPTION_INITIAL; OnPacketHeader (delivered demo_client demo_server demo_header 35 reset_token);
        OnIetfFrames [IetfFramer.OnFrame IetfFramer.PingFrame; IetfFramer.OnFrame (IetfFramer.PaddingFrame 20)]; OnPacketComplete].
Proof.
  intros s e. destruct (null_pair IS_CLIENT) as [Ho Hm].
  assert (Hg : Forall (IetfFramer.good no_data no_crypto_data (demo_ietf_frames IS_CLIENT)) demo_frames) by (repeat constructor).
  assert (Hg' : Forall (IetfFramer.good no_data no_crypto_data (as_received (demo_ietf_frames IS_CLIENT) (demo_ietf_frames IS_SERVER))) demo_frames)
    by (repeat constructor).
  set (ad := packet_header demo_client demo_header 35).
  set (payload := IetfFramer.frames_bytes no_data no_crypto_data (demo_ietf_frames IS_CLIENT) demo_frames).
  destruct (Null_EncryptPacket e 260 ad payload (wrap64 (200 - zlen ad))) as [ct|] eqn:Ect; [|vm_compute in Ect; discriminate].
  assert (Hct : zlen ct = 33).
  { assert (E : zlen (default [] (Null_EncryptPacket e 260 ad payload (wrap64 (200 - zlen ad)))) = 33) by (vm_compute; reflexivity).
    rewrite Ect in E. exact E. }
  destruct (packets_are_delivered (EL := swap_endian_laws) no_data no_crypto_data demo_visitor e (mk_null_decrypter IS_SERVER) demo_header demo_frames
    100 200 ct s (demo_state demo_server IS_SERVER) demo_packet_ok demo_receives demo_open eq_refl eq_refl Hm Ho Hg Hg' eq_refl)
    as (built&packet&s1&tok&s2&H1&H2&H3&H4&_&_&H5&_).
  - cbn. split; [by intros [? _]|done].
  - discriminate.
  - vm_compute. repeat constructor; discriminate.
  - vm_compute. discriminate.
  - exact Ect.
  - rewrite Hct. discriminate.
  - rewrite Hct. vm_compute. discriminate.
  - exists built, packet, s1, tok, s2. split; [exact H1|]. split; [exact H2|]. split; [|split; [exact H4|exact H5]].
    assert (Hb : zlen built = 42); [|rewrite H3, Hb; reflexivity].
    assert (E : zlen (default [] (BuildDataPacket demo_header demo_frames 100 e s).1) = 42) by (vm_compute; reflexivity).
    rewrite H1 in E. exact E.
Defined.

(** A connected client, which removes the header protection and has a key for the packet that does not open it. *)
Lemma stateless_reset_is_heard_witness :
  let s := demo_state demo_client IS_CLIENT in
  ∃ packet, BuildIetfStatelessResetPacket (λ n, replicate (Z.to_nat n) 5) (replicate 16 7) = Some packet
    ∧ HasHeaderProtection (version s) = true ∧ is_Some (decrypter_ s ENCRYPTION_FORWARD_SECURE)
    ∧ let '(ok, s1) := ProcessPacket demo_visitor packet s in
      ok = true ∧ calls s1 = [OnPacket; OnAuthenticatedIetfStatelessResetPacket (replicate 16 7)].
Proof.
  intros s. destruct (stateless_reset_is_heard (EL := swap_endian_laws) demo_visitor (λ n, replicate (Z.to_nat n) 5) (replicate 16 7) s)
    as (packet&E&H); try reflexivity.
  - vm_compute. repeat constructor; discriminate.
  - left. reflexivity.
  - exists packet. split; [exact E|]. split; [reflexivity|]. split; [by eexists|].
    assert (Ec : calls (ProcessPacket demo_visitor packet s).2 = [OnPacket; OnAuthenticatedIetfStatelessResetPacket (replicate 16 7)]).
    { vm_compute in E. apply (inj Some) in E as <-. vm_compute. reflexivity. }
    destruct (ProcessPacket demo_visitor packet s) as [ok s1]. cbn [snd] in Ec. destruct H as [[H1 H2]|H]; [split; [exact H1|exact Ec]|].
    destruct H as (d&h&ad&ct&max&p&level&after&_&_&_&H). rewrite Ec in H. discriminate H.
Defined.

Lemma alternative_decrypter_takes_over_witness :
  let h := set_number 7 QuicPacketHeader_new in
  let ct := default [] (Null_EncryptPacket (mk_null_encrypter IS_CLIENT) 7 [1] [2; 3] 50) in
  let c := mk_framer IS_SERVER (mk_version PROTOCOL_QUIC_CRYPTO QUIC_VERSION_43) false true 8 0 [] [] 0 PacketNumber.UninitializedPacketNumber
    false UnackedPacketMap.no_packets in
  let s := set_decrypters (install ENCRYPTION_FORWARD_SECURE (Some (mk_null_decrypter IS_SERVER)) (λ _, Some (mk_null_decrypter IS_CLIENT)))
    ENCRYPTION_INITIAL (Some ENCRYPTION_FORWARD_SECURE) true (set_headers c (demo_state demo_server IS_SERVER)) in
  let '(result, s1) := DecryptPayload ct [1] h 100 s in
  result = Some ([2; 3], ENCRYPTION_INITIAL) ∧ calls s1 = [OnDecryptedPacket ENCRYPTION_FORWARD_SECURE]
  ∧ decrypter s1 = Some (mk_null_decrypter IS_SERVER) ∧ decrypter_level_ s1 = ENCRYPTION_FORWARD_SECURE
  ∧ alternative_decrypter s1 = None ∧ alternative_decrypter_level_ s1 = None.
Proof.
  intros h ct c s.
  assert (Hfail : DecryptPacket (mk_null_decrypter IS_CLIENT) 7 [1] ct 100 = None) by (vm_compute; reflexivity).
  assert (Hok : DecryptPacket (mk_null_decrypter IS_SERVER) 7 [1] ct 100 = Some [2; 3]) by (vm_compute; reflexivity).
  pose proof (alternative_decrypter_takes_over ct [1] h 100 s (mk_null_decrypter IS_CLIENT) (mk_null_decrypter IS_SERVER) ENCRYPTION_FORWARD_SECURE
    eq_refl eq_refl Hfail eq_refl eq_refl ltac:(discriminate)) as H. cbv zeta in H. clearbody ct.
  change (nonce h) with (@None (list Z)) in H. cbv iota in H. change (packet_number h) with 7 in H. rewrite Hok in H.
  destruct (DecryptPayload ct [1] h 100 s) as [result s1]. exact H.
Defined.

Lemma public_reset_is_heard_witness :
  let p := mk_reset demo_id 77 (Some (false, [127; 0; 0; 1], 443)) [65; 66] in
  let c := mk_framer IS_CLIENT demo_version false false 8 0 [] [] 0 PacketNumber.UninitializedPacketNumber true UnackedPacketMap.no_packets in
  ∃ packet s1, BuildPublicResetPacket p = Some packet ∧ ProcessPacket demo_visitor packet (set_headers c (demo_state demo_client IS_CLIENT)) = (true, s1)
    ∧ calls s1 = [OnPacket; OnPublicResetPacket (mk_reset demo_id 77 (Some (false, [127; 0; 0; 1], 443)) [65; 66; 0])].
Proof.
  intros p c. apply (public_reset_is_heard (EL := swap_endian_laws) demo_visitor p (set_headers c (demo_state demo_client IS_CLIENT)));
    [|reflexivity|discriminate|reflexivity].
  split; [reflexivity|]. split; [split; [discriminate|reflexivity]|]. split; [|reflexivity].
  intros a E. apply (inj Some) in E as <-. split; [reflexivity|split; [discriminate|reflexivity]].
Defined.
End demo.
End Packets.
