(* ===== verification/PacketCreator.v ===== *)
(** [QuicPacketCreator] (quic/core/quic_packet_creator.cc): frames are added to an open packet as long as they fit, and the packet
    is serialized, encrypted and given to the delegate when it is flushed. The framer below it is that of [Packets], with any
    encrypters; the delegate's calls are a log. What differs from the source only in where bytes are kept (the buffer of the
    delegate or the stack, the ownership of frames) and the debug delegate are left out. *)

From S2P Require Import Prelude Bytes OrderedSet IntervalSet Stream DataWire PacketNumber ReceivedPackets PacketNumberWire.
From S2P Require Import StreamIdManager UnackedPacketMap IetfFrames GoogleFrames Versions PacketHeaders Crypters Packets FrameSizes.

Module PacketCreator.
Import PacketNumberWire Versions FrameSizes.
Import StreamIdManager(Perspective(..)).
Import UnackedPacketMap(EncryptionLevel(..), TransmissionType(..)).
Import IetfFramer(QuicFrame(..), stream_id, offset, data_length, crypto_offset, crypto_length, mk_stream, mk_crypto).
Import Crypters(QuicEncrypter, QuicDecrypter).

Abbreviation QuicStreamFrame := IetfFramer.QuicStreamFrame.
Abbreviation QuicPacketHeader := PacketHeaders.QuicPacketHeader.

Definition kDefaultMaxPacketSize : Z := 1350.
Definition kMaxOutgoingPacketSize : Z := 1452.

(** ** The open packet, and the packet that is given away *)

Record SerializedPacket := mk_packet {
  encrypted_buffer : option (list Z);
  retransmittable_frames : list QuicFrame;
  has_crypto_handshake : bool;
  num_padding_bytes : Z;
  packet_number : Z;
  packet_number_length : QuicPacketNumberLength;
  encryption_level : EncryptionLevel;
  has_ack : bool;
  has_stop_waiting : bool;
  transmission_type : TransmissionType;
  original_packet_number : Z;
  largest_acked : Z;
}.
Definition set_encrypted_buffer x (p : SerializedPacket) : SerializedPacket :=
    mk_packet x (retransmittable_frames p) (has_crypto_handshake p) (num_padding_bytes p) (packet_number p)
    (packet_number_length p) (encryption_level p) (has_ack p) (has_stop_waiting p) (transmission_type p)
    (original_packet_number p) (largest_acked p).
Definition set_retransmittable_frames x (p : SerializedPacket) : SerializedPacket :=
    mk_packet (encrypted_buffer p) x (has_crypto_handshake p) (num_padding_bytes p) (packet_number p)
    (packet_number_length p) (encryption_level p) (has_ack p) (has_stop_waiting p) (transmission_type p)
    (original_packet_number p) (largest_acked p).
Definition set_has_crypto_handshake x (p : SerializedPacket) : SerializedPacket :=
    mk_packet (encrypted_buffer p) (retransmittable_frames p) x (num_padding_bytes p) (packet_number p)
    (packet_number_length p) (encryption_level p) (has_ack p) (has_stop_waiting p) (transmission_type p)
    (original_packet_number p) (largest_acked p).
Definition set_num_padding_bytes x (p : SerializedPacket) : SerializedPacket :=
    mk_packet (encrypted_buffer p) (retransmittable_frames p) (has_crypto_handshake p) x (packet_number p)
    (packet_number_length p) (encryption_level p) (has_ack p) (has_stop_waiting p) (transmission_type p)
    (original_packet_number p) (largest_acked p).
Definition set_packet_number x (p : SerializedPacket) : SerializedPacket :=
    mk_packet (encrypted_buffer p) (retransmittable_frames p) (has_crypto_handshake p) (num_padding_bytes p) x
    (packet_number_length p) (encryption_level p) (has_ack p) (has_stop_waiting p) (transmission_type p)
    (original_packet_number p) (largest_acked p).
Definition set_packet_number_length x (p : SerializedPacket) : SerializedPacket :=
    mk_packet (encrypted_buffer p) (retransmittable_frames p) (has_crypto_handshake p) (num_padding_bytes p)
    (packet_number p) x (encryption_level p) (has_ack p) (has_stop_waiting p) (transmission_type p)
    (original_packet_number p) (largest_acked p).
Definition set_encryption_level x (p : SerializedPacket) : SerializedPacket :=
    mk_packet (encrypted_buffer p) (retransmittable_frames p) (has_crypto_handshake p) (num_padding_bytes p)
    (packet_number p) (packet_number_length p) x (has_ack p) (has_stop_waiting p) (transmission_type p)
    (original_packet_number p) (largest_acked p).
Definition set_has_ack x (p : SerializedPacket) : SerializedPacket :=
    mk_packet (encrypted_buffer p) (retransmittable_frames p) (has_crypto_handshake p) (num_padding_bytes p)
    (packet_number p) (packet_number_length p) (encryption_level p) x (has_stop_waiting p) (transmission_type p)
    (original_packet_number p) (largest_acked p).
Definition set_has_stop_waiting x (p : SerializedPacket) : SerializedPacket :=
    mk_packet (encrypted_buffer p) (retransmittable_frames p) (has_crypto_handshake p) (num_padding_bytes p)
    (packet_number p) (packet_number_length p) (encryption_level p) (has_ack p) x (transmission_type p)
    (original_packet_number p) (largest_acked p).
Definition set_transmission_type x (p : SerializedPacket) : SerializedPacket :=
    mk_packet (encrypted_buffer p) (retransmittable_frames p) (has_crypto_handshake p) (num_padding_bytes p)
    (packet_number p) (packet_number_length p) (encryption_level p) (has_ack p) (has_stop_waiting p) x
    (original_packet_number p) (largest_acked p).
Definition set_original_packet_number x (p : SerializedPacket) : SerializedPacket :=
    mk_packet (encrypted_buffer p) (retransmittable_frames p) (has_crypto_handshake p) (num_padding_bytes p)
    (packet_number p) (packet_number_length p) (encryption_level p) (has_ack p) (has_stop_waiting p) (transmission_type
    p) x (largest_acked p).
Definition set_largest_acked x (p : SerializedPacket) : SerializedPacket :=
    mk_packet (encrypted_buffer p) (retransmittable_frames p) (has_crypto_handshake p) (num_padding_bytes p)
    (packet_number p) (packet_number_length p) (encryption_level p) (has_ack p) (has_stop_waiting p) (transmission_type
    p) (original_packet_number p) x.

(** [SerializedPacket(packet_number, packet_number_length, nullptr, 0, false, false)]. *)
Definition SerializedPacket_new (packet_number : Z) (l : QuicPacketNumberLength) : SerializedPacket :=
  mk_packet None [] false 0 packet_number l ENCRYPTION_INITIAL false false NOT_RETRANSMISSION
    PacketNumber.UninitializedPacketNumber PacketNumber.UninitializedPacketNumber.
Definition NoPacket : SerializedPacket := SerializedPacket_new PacketNumber.UninitializedPacketNumber PACKET_1BYTE_PACKET_NUMBER.

(** What a lost packet is made of, to be sent again. *)
Record QuicPendingRetransmission := mk_retransmission {
  lost_packet_number : Z;
  lost_transmission_type : TransmissionType;
  lost_frames : list QuicFrame;
  lost_has_crypto_handshake : bool;
  lost_num_padding_bytes : Z;
  lost_encryption_level : EncryptionLevel;
  lost_packet_number_length : QuicPacketNumberLength;
}.

Inductive QuicErrorCode :=
  QUIC_CRYPTO_CHLO_TOO_LARGE | QUIC_FAILED_TO_SERIALIZE_PACKET | QUIC_ATTEMPT_TO_SEND_UNENCRYPTED_STREAM_DATA.
#[global] Instance creator_error_eq_dec : EqDecision QuicErrorCode.
Proof. solve_decision. Defined.

(** The calls of the delegate. *)
Inductive call :=
  | OnSerializedPacketCall (p : SerializedPacket)
  | OnUnrecoverableError (e : QuicErrorCode).

(** ** Helpers (quic_utils.cc) *)

Definition IsRetransmittableFrame (f : QuicFrame) : bool :=
  match f with AckFrame _ | PaddingFrame _ | StopWaitingFrame _ | MtuDiscoveryFrame => false | _ => true end.
Definition GetCryptoStreamId (version : Z) : Z := if QuicVersionUsesCryptoFrames version then invalid_stream_id version else 1.
Definition IsCryptoStreamId (version stream_id : Z) : bool :=
  if QuicVersionUsesCryptoFrames version then false else stream_id =? GetCryptoStreamId version.
Definition IsHandshakeFrame (f : QuicFrame) (version : Z) : bool :=
  if negb (QuicVersionUsesCryptoFrames version)
  then match f with StreamFrame f => stream_id f =? GetCryptoStreamId version | _ => false end
  else match f with CryptoFrame _ => true | _ => false end.

Definition EncryptionlevelToLongHeaderType (level : EncryptionLevel) : PacketHeaders.QuicLongHeaderType :=
  match level with
  | ENCRYPTION_INITIAL => PacketHeaders.INITIAL
  | ENCRYPTION_HANDSHAKE => PacketHeaders.HANDSHAKE
  | ENCRYPTION_ZERO_RTT => PacketHeaders.ZERO_RTT_PROTECTED
  | ENCRYPTION_FORWARD_SECURE => PacketHeaders.INVALID_PACKET_TYPE
  end.
(** [level < ENCRYPTION_FORWARD_SECURE]. *)
Definition below_forward_secure (level : EncryptionLevel) : bool :=
  match level with ENCRYPTION_FORWARD_SECURE => false | _ => true end.

(** A conversion to [int16_t]. *)
Definition to_int16 (z : Z) : Z := let z := wrap16 z in if z <? 32768 then z else z - two16.

Definition MinPlaintextPacketSize (v : ParsedQuicVersion) : Z := if negb (HasHeaderProtection v) then 0 else 7.

Section creator.
Context {Enc Dec : Type} {QE : QuicEncrypter Enc} {QD : QuicDecrypter Dec} {EI : EndianImpl} {F : Flags}.
Context (quic_enforce_single_packet_chlo : bool).

Abbreviation QuicFramer := (@Packets.t Enc Dec).

(** The flag [quic_fix_get_packet_header_size] does not change while a creator lives. *)
Record t := mk {
  framer_ : QuicFramer;
  send_version_in_packet_ : bool;
  have_diversification_nonce_ : bool;
  diversification_nonce_ : list Z;
  max_packet_length_ : Z;
  max_plaintext_size_ : Z;
  server_connection_id_included_ : bool;
  queued_frames_ : list QuicFrame;
  packet_size_ : Z;
  server_connection_id_ : list Z;
  client_connection_id_ : list Z;
  packet_ : SerializedPacket;
  retry_token_ : list Z;
  pending_padding_bytes_ : Z;
  needs_full_padding_ : bool;
  can_set_transmission_type_ : bool;
  calls : list call;
}.
Definition set_framer x (s : t) : t :=
    mk x (send_version_in_packet_ s) (have_diversification_nonce_ s) (diversification_nonce_ s) (max_packet_length_ s)
    (max_plaintext_size_ s) (server_connection_id_included_ s) (queued_frames_ s) (packet_size_ s)
    (server_connection_id_ s) (client_connection_id_ s) (packet_ s) (retry_token_ s) (pending_padding_bytes_ s)
    (needs_full_padding_ s) (can_set_transmission_type_ s) (calls s).
Definition set_send_version_in_packet x (s : t) : t :=
    mk (framer_ s) x (have_diversification_nonce_ s) (diversification_nonce_ s) (max_packet_length_ s)
    (max_plaintext_size_ s) (server_connection_id_included_ s) (queued_frames_ s) (packet_size_ s)
    (server_connection_id_ s) (client_connection_id_ s) (packet_ s) (retry_token_ s) (pending_padding_bytes_ s)
    (needs_full_padding_ s) (can_set_transmission_type_ s) (calls s).
Definition set_have_diversification_nonce x (s : t) : t :=
    mk (framer_ s) (send_version_in_packet_ s) x (diversification_nonce_ s) (max_packet_length_ s) (max_plaintext_size_
    s) (server_connection_id_included_ s) (queued_frames_ s) (packet_size_ s) (server_connection_id_ s)
    (client_connection_id_ s) (packet_ s) (retry_token_ s) (pending_padding_bytes_ s) (needs_full_padding_ s)
    (can_set_transmission_type_ s) (calls s).
Definition set_diversification_nonce x (s : t) : t :=
    mk (framer_ s) (send_version_in_packet_ s) (have_diversification_nonce_ s) x (max_packet_length_ s)
    (max_plaintext_size_ s) (server_connection_id_included_ s) (queued_frames_ s) (packet_size_ s)
    (server_connection_id_ s) (client_connection_id_ s) (packet_ s) (retry_token_ s) (pending_padding_bytes_ s)
    (needs_full_padding_ s) (can_set_transmission_type_ s) (calls s).
Definition set_max_packet_length x (s : t) : t :=
    mk (framer_ s) (send_version_in_packet_ s) (have_diversification_nonce_ s) (diversification_nonce_ s) x
    (max_plaintext_size_ s) (server_connection_id_included_ s) (queued_frames_ s) (packet_size_ s)
    (server_connection_id_ s) (client_connection_id_ s) (packet_ s) (retry_token_ s) (pending_padding_bytes_ s)
    (needs_full_padding_ s) (can_set_transmission_type_ s) (calls s).
Definition set_max_plaintext_size x (s : t) : t :=
    mk (framer_ s) (send_version_in_packet_ s) (have_diversification_nonce_ s) (diversification_nonce_ s)
    (max_packet_length_ s) x (server_connection_id_included_ s) (queued_frames_ s) (packet_size_ s)
    (server_connection_id_ s) (client_connection_id_ s) (packet_ s) (retry_token_ s) (pending_padding_bytes_ s)
    (needs_full_padding_ s) (can_set_transmission_type_ s) (calls s).
Definition set_server_connection_id_included x (s : t) : t :=
    mk (framer_ s) (send_version_in_packet_ s) (have_diversification_nonce_ s) (diversification_nonce_ s)
    (max_packet_length_ s) (max_plaintext_size_ s) x (queued_frames_ s) (packet_size_ s) (server_connection_id_ s)
    (client_connection_id_ s) (packet_ s) (retry_token_ s) (pending_padding_bytes_ s) (needs_full_padding_ s)
    (can_set_transmission_type_ s) (calls s).
Definition set_queued_frames x (s : t) : t :=
    mk (framer_ s) (send_version_in_packet_ s) (have_diversification_nonce_ s) (diversification_nonce_ s)
    (max_packet_length_ s) (max_plaintext_size_ s) (server_connection_id_included_ s) x (packet_size_ s)
    (server_connection_id_ s) (client_connection_id_ s) (packet_ s) (retry_token_ s) (pending_padding_bytes_ s)
    (needs_full_padding_ s) (can_set_transmission_type_ s) (calls s).
Definition set_packet_size x (s : t) : t :=
    mk (framer_ s) (send_version_in_packet_ s) (have_diversification_nonce_ s) (diversification_nonce_ s)
    (max_packet_length_ s) (max_plaintext_size_ s) (server_connection_id_included_ s) (queued_frames_ s) x
    (server_connection_id_ s) (client_connection_id_ s) (packet_ s) (retry_token_ s) (pending_padding_bytes_ s)
    (needs_full_padding_ s) (can_set_transmission_type_ s) (calls s).
Definition set_server_connection_id x (s : t) : t :=
    mk (framer_ s) (send_version_in_packet_ s) (have_diversification_nonce_ s) (diversification_nonce_ s)
    (max_packet_length_ s) (max_plaintext_size_ s) (server_connection_id_included_ s) (queued_frames_ s) (packet_size_
    s) x (client_connection_id_ s) (packet_ s) (retry_token_ s) (pending_padding_bytes_ s) (needs_full_padding_ s)
    (can_set_transmission_type_ s) (calls s).
Definition set_client_connection_id x (s : t) : t :=
    mk (framer_ s) (send_version_in_packet_ s) (have_diversification_nonce_ s) (diversification_nonce_ s)
    (max_packet_length_ s) (max_plaintext_size_ s) (server_connection_id_included_ s) (queued_frames_ s) (packet_size_
    s) (server_connection_id_ s) x (packet_ s) (retry_token_ s) (pending_padding_bytes_ s) (needs_full_padding_ s)
    (can_set_transmission_type_ s) (calls s).
Definition set_packet x (s : t) : t :=
    mk (framer_ s) (send_version_in_packet_ s) (have_diversification_nonce_ s) (diversification_nonce_ s)
    (max_packet_length_ s) (max_plaintext_size_ s) (server_connection_id_included_ s) (queued_frames_ s) (packet_size_
    s) (server_connection_id_ s) (client_connection_id_ s) x (retry_token_ s) (pending_padding_bytes_ s)
    (needs_full_padding_ s) (can_set_transmission_type_ s) (calls s).
Definition set_retry_token x (s : t) : t :=
    mk (framer_ s) (send_version_in_packet_ s) (have_diversification_nonce_ s) (diversification_nonce_ s)
    (max_packet_length_ s) (max_plaintext_size_ s) (server_connection_id_included_ s) (queued_frames_ s) (packet_size_
    s) (server_connection_id_ s) (client_connection_id_ s) (packet_ s) x (pending_padding_bytes_ s) (needs_full_padding_
    s) (can_set_transmission_type_ s) (calls s).
Definition set_pending_padding_bytes x (s : t) : t :=
    mk (framer_ s) (send_version_in_packet_ s) (have_diversification_nonce_ s) (diversification_nonce_ s)
    (max_packet_length_ s) (max_plaintext_size_ s) (server_connection_id_included_ s) (queued_frames_ s) (packet_size_
    s) (server_connection_id_ s) (client_connection_id_ s) (packet_ s) (retry_token_ s) x (needs_full_padding_ s)
    (can_set_transmission_type_ s) (calls s).
Definition set_needs_full_padding x (s : t) : t :=
    mk (framer_ s) (send_version_in_packet_ s) (have_diversification_nonce_ s) (diversification_nonce_ s)
    (max_packet_length_ s) (max_plaintext_size_ s) (server_connection_id_included_ s) (queued_frames_ s) (packet_size_
    s) (server_connection_id_ s) (client_connection_id_ s) (packet_ s) (retry_token_ s) (pending_padding_bytes_ s) x
    (can_set_transmission_type_ s) (calls s).
Definition set_can_set_transmission_type x (s : t) : t :=
    mk (framer_ s) (send_version_in_packet_ s) (have_diversification_nonce_ s) (diversification_nonce_ s)
    (max_packet_length_ s) (max_plaintext_size_ s) (server_connection_id_included_ s) (queued_frames_ s) (packet_size_
    s) (server_connection_id_ s) (client_connection_id_ s) (packet_ s) (retry_token_ s) (pending_padding_bytes_ s)
    (needs_full_padding_ s) x (calls s).
Definition set_calls x (s : t) : t :=
    mk (framer_ s) (send_version_in_packet_ s) (have_diversification_nonce_ s) (diversification_nonce_ s)
    (max_packet_length_ s) (max_plaintext_size_ s) (server_connection_id_included_ s) (queued_frames_ s) (packet_size_
    s) (server_connection_id_ s) (client_connection_id_ s) (packet_ s) (retry_token_ s) (pending_padding_bytes_ s)
    (needs_full_padding_ s) (can_set_transmission_type_ s) x.

Definition change_packet (f : SerializedPacket → SerializedPacket) (s : t) : t := set_packet (f (packet_ s)) s.
Definition tell (c : call) (s : t) : t := set_calls (calls s ++ [c]) s.

Definition version (s : t) : ParsedQuicVersion := Packets.version (framer_ s).
Definition transport_version (s : t) : Z := Packets.transport_version_of (framer_ s).
Definition perspective (s : t) : Perspective := PacketHeaders.perspective (Packets.headers (framer_ s)).
Definition process_timestamps (s : t) : bool := GoogleFramer.process_timestamps (Packets.google_frames (framer_ s)).

(** ** What the header of the open packet has *)

Definition HasIetfLongHeader (s : t) : bool :=
  VersionHasIetfInvariantHeader (transport_version s) && below_forward_secure (encryption_level (packet_ s)).

Definition GetDestinationConnectionId (s : t) : list Z :=
  if negb quic_do_not_override_connection_id then server_connection_id_ s
  else if bool_decide (perspective s = IS_SERVER) then client_connection_id_ s else server_connection_id_ s.
Definition GetSourceConnectionId (s : t) : list Z :=
  if negb quic_do_not_override_connection_id then server_connection_id_ s
  else if bool_decide (perspective s = IS_CLIENT) then client_connection_id_ s else server_connection_id_ s.
Definition GetDestinationConnectionIdIncluded (s : t) : bool :=
  if VersionHasIetfInvariantHeader (transport_version s) || quic_do_not_override_connection_id
  then bool_decide (perspective s = IS_CLIENT) || SupportsClientConnectionIds (version s)
  else server_connection_id_included_ s.
Definition GetSourceConnectionIdIncluded (s : t) : bool :=
  if HasIetfLongHeader s && (bool_decide (perspective s = IS_SERVER) || SupportsClientConnectionIds (version s)) then true
  else if quic_do_not_override_connection_id && bool_decide (perspective s = IS_SERVER) then server_connection_id_included_ s
  else false.
Definition GetDestinationConnectionIdLength (s : t) : Z :=
  if GetDestinationConnectionIdIncluded s then zlen (GetDestinationConnectionId s) else 0.
Definition GetSourceConnectionIdLength (s : t) : Z :=
  if GetSourceConnectionIdIncluded s then zlen (GetSourceConnectionId s) else 0.

Definition GetPacketNumberLength (s : t) : QuicPacketNumberLength :=
  if HasIetfLongHeader s && negb (SendsVariableLengthPacketNumberInLongHeader (version s)) then PACKET_4BYTE_PACKET_NUMBER
  else packet_number_length (packet_ s).

Definition has_retry_token (s : t) : bool :=
  QuicVersionHasLongHeaderLengths (transport_version s) && HasIetfLongHeader s
  && bool_decide (EncryptionlevelToLongHeaderType (encryption_level (packet_ s)) = PacketHeaders.INITIAL).
Definition GetRetryToken (s : t) : list Z := if has_retry_token s then retry_token_ s else [].
Definition GetRetryTokenLengthLength (s : t) : Z := if has_retry_token s then Writer.GetVarInt62Len (zlen (GetRetryToken s)) else 0.
Definition GetLengthLength (s : t) : Z :=
  if QuicVersionHasLongHeaderLengths (transport_version s) && HasIetfLongHeader s then
    match EncryptionlevelToLongHeaderType (encryption_level (packet_ s)) with
    | PacketHeaders.INITIAL | PacketHeaders.ZERO_RTT_PROTECTED | PacketHeaders.HANDSHAKE => 2
    | _ => 0
    end
  else 0.

Definition IncludeNonceInPublicHeader (s : t) : bool :=
  have_diversification_nonce_ s && bool_decide (encryption_level (packet_ s) = ENCRYPTION_ZERO_RTT).
Definition IncludeVersionInHeader (s : t) : bool :=
  if VersionHasIetfInvariantHeader (transport_version s) then below_forward_secure (encryption_level (packet_ s))
  else send_version_in_packet_ s.

Definition PacketHeaderSize (s : t) : Z :=
  PacketHeaders.GetPacketHeaderSize_of (transport_version s) (GetDestinationConnectionIdLength s) (GetSourceConnectionIdLength s)
    (IncludeVersionInHeader s) (IncludeNonceInPublicHeader s) (GetPacketNumberLength s) (GetRetryTokenLengthLength s)
    (zlen (GetRetryToken s)) (GetLengthLength s).

Definition NextSendingPacketNumber (s : t) : Z :=
  if negb (PacketNumber.IsInitialized (packet_number (packet_ s))) then UnackedPacketMap.FirstSendingPacketNumber
  else PacketNumber.add (packet_number (packet_ s)) 1.

(** The header, and the creator with its number. *)
Definition FillPacketHeader (s : t) : QuicPacketHeader * t :=
  let s' := change_packet (set_packet_number (NextSendingPacketNumber s)) s in
  (PacketHeaders.mk_header (GetDestinationConnectionId s) (GetDestinationConnectionIdIncluded s) (GetSourceConnectionId s)
     (GetSourceConnectionIdIncluded s) false (IncludeVersionInHeader s) None (GetPacketNumberLength s) 0 UnsupportedQuicVersion
     (if IncludeNonceInPublicHeader s then Some (diversification_nonce_ s) else None) (packet_number (packet_ s'))
     PacketHeaders.GOOGLE_QUIC_PACKET
     (if negb (HasIetfLongHeader s) then PacketHeaders.INITIAL else EncryptionlevelToLongHeaderType (encryption_level (packet_ s)))
     (GetRetryTokenLengthLength s) (GetRetryToken s) (GetLengthLength s) 0, s').

(** ** Sizes *)

(** By how much the last frame grows when another one follows. *)
Definition ExpansionOnNewFrame (s : t) : Z :=
  match last (queued_frames_ s) with
  | Some (MessageFrame _ n) => Writer.GetVarInt62Len n
  | Some (StreamFrame f) =>
      if VersionHasIetfQuicFrames (transport_version s) then Writer.GetVarInt62Len (data_length f) else kQuicStreamPayloadLengthSize
  | _ => 0
  end.

(** The size of an open packet without frames is set when it is asked for. *)
Definition PacketSize (s : t) : Z * t :=
  match queued_frames_ s with
  | [] => let n := PacketHeaderSize s in (n, set_packet_size n s)
  | _ => (packet_size_ s, s)
  end.
Definition BytesFree (s : t) : Z * t :=
  let '(n, s) := PacketSize s in
  (max_plaintext_size_ s - Z.min (max_plaintext_size_ s) (n + ExpansionOnNewFrame s), s).

Definition HasPendingFrames (s : t) : bool := negb (bool_decide (length (queued_frames_ s) = 0%nat)).
Definition HasPendingRetransmittableFrames (s : t) : bool := negb (bool_decide (length (retransmittable_frames (packet_ s)) = 0%nat)).
Definition HasPendingStreamFramesOfStream (id : Z) (s : t) : bool :=
  existsb (λ f, match f with StreamFrame f => stream_id f =? id | _ => false end) (retransmittable_frames (packet_ s)).

Definition HasRoomForStreamFrame (id offset data_size : Z) (s : t) : bool * t :=
  let '(free, s) := BytesFree s in (GetMinStreamFrameSize (transport_version s) id offset true (wrap16 data_size) <? free, s).
Definition HasRoomForMessageFrame (length : Z) (s : t) : bool * t :=
  let '(free, s) := BytesFree s in (GetMessageFrameSize true length <=? free, s).

Definition StreamFramePacketOverhead (version destination_connection_id_length source_connection_id_length : Z)
    (include_version include_diversification_nonce : bool) (l : QuicPacketNumberLength)
    (retry_token_length_length length_length offset : Z) : Z :=
  PacketHeaders.GetPacketHeaderSize_of version destination_connection_id_length source_connection_id_length include_version
    include_diversification_nonce l retry_token_length_length 0 length_length
  + GetMinStreamFrameSize version 1 offset true kMaxOutgoingPacketSize.

Definition GetCurrentLargestMessagePayload (s : t) : Z :=
  if negb (VersionSupportsMessageFrames (transport_version s)) then 0 else
  let packet_header_size :=
    PacketHeaders.GetPacketHeaderSize_of (transport_version s) (GetDestinationConnectionIdLength s) (GetSourceConnectionIdLength s)
      (IncludeVersionInHeader s) (IncludeNonceInPublicHeader s) (GetPacketNumberLength s) 0 0 (GetLengthLength s) in
  wrap16 (max_plaintext_size_ s - Z.min (max_plaintext_size_ s) (packet_header_size + kQuicFrameTypeSize)).
Definition GetGuaranteedLargestMessagePayload (s : t) : Z :=
  if negb (VersionSupportsMessageFrames (transport_version s)) then 0 else
  let may_include_nonce :=
    bool_decide (handshake_protocol (version s) = PROTOCOL_QUIC_CRYPTO) && bool_decide (perspective s = IS_SERVER) in
  let length_length := if bool_decide (perspective s = IS_CLIENT) then 2 else 0 in
  let length_length :=
    if negb (QuicVersionHasLongHeaderLengths (transport_version s)) && quic_fix_get_packet_header_size then 0 else length_length in
  let packet_header_size :=
    PacketHeaders.GetPacketHeaderSize_of (transport_version s) (GetDestinationConnectionIdLength s) (GetSourceConnectionIdLength s)
      true may_include_nonce PACKET_4BYTE_PACKET_NUMBER 0 0 length_length in
  wrap16 (max_plaintext_size_ s - Z.min (max_plaintext_size_ s) (packet_header_size + kQuicFrameTypeSize)).

(** ** Adding frames *)

(** The frame is put into the open packet, which grows by [frame_len] bytes. *)
Definition PlaceFrame (f : QuicFrame) (save_retransmittable_frames : bool) (type : TransmissionType) (frame_len : Z) (s : t) : t :=
  let s := set_packet_size (packet_size_ s + (ExpansionOnNewFrame s + frame_len)) s in
  let s :=
    if save_retransmittable_frames && IsRetransmittableFrame f then
      let s := change_packet (λ p, set_retransmittable_frames (retransmittable_frames p ++ [f]) p) s in
      let s := set_queued_frames (queued_frames_ s ++ [f]) s in
      if IsHandshakeFrame f (transport_version s) then change_packet (set_has_crypto_handshake true) s else s
    else set_queued_frames (queued_frames_ s ++ [f]) s in
  let s :=
    match f with
    | AckFrame a => change_packet (λ p, set_largest_acked (ReceivedPacketManager.LargestAcked a) (set_has_ack true p)) s
    | StopWaitingFrame _ => change_packet (set_has_stop_waiting true) s
    | _ => s
    end in
  if can_set_transmission_type_ s && IsRetransmittableFrame f then change_packet (set_transmission_type type) s else s.

(** [AddFrame] but for the flush when the frame does not fit. *)
Definition TryAddFrame (f : QuicFrame) (save_retransmittable_frames : bool) (type : TransmissionType) (s : t) : bool * t :=
  let '(free, s) := BytesFree s in
  let frame_len := GetSerializedFrameLength (transport_version s) (process_timestamps s) f free
    (negb (HasPendingFrames s)) true (GetPacketNumberLength s) in
  if frame_len =? 0 then (false, s) else (true, PlaceFrame f save_retransmittable_frames type frame_len s).

(** A frame added here always fits: there are bytes free and padding is cut to them, see [MaybeAddPadding_adds]. *)
Definition MaybeAddPadding (s : t) : t :=
  let '(free, s) := BytesFree s in
  if free =? 0 then s else
  let s := if bool_decide (transmission_type (packet_ s) = PROBING_RETRANSMISSION) then set_needs_full_padding true s else s in
  let '(size, s) := PacketSize s in
  let extra_padding_bytes :=
    if HasHeaderProtection (version s) then
      let frame_bytes := wrap64 (size - PacketHeaderSize s) in
      if (wrap64 (frame_bytes + pending_padding_bytes_ s) <? MinPlaintextPacketSize (version s)) && negb (needs_full_padding_ s)
      then wrap64 (MinPlaintextPacketSize (version s) - frame_bytes) else 0
    else 0 in
  if negb (needs_full_padding_ s) && (pending_padding_bytes_ s =? 0) && (extra_padding_bytes =? 0) then s else
  let '(padding_bytes, s) :=
    if needs_full_padding_ s then (-1, change_packet (set_num_padding_bytes (-1)) s)
    else
      let num := Z.min (to_int16 (pending_padding_bytes_ s)) (to_int16 free) in
      (Z.max num (to_int16 extra_padding_bytes),
       set_pending_padding_bytes (wrap64 (pending_padding_bytes_ s - num)) (change_packet (set_num_padding_bytes num) s)) in
  (TryAddFrame (PaddingFrame padding_bytes) false (transmission_type (packet_ s)) s).2.

(** ** Serializing *)

(** There is an encrypter at the level of the packet. When building or encrypting fails the packet stays as it is. *)
Definition SerializePacket (encrypted_buffer_len : Z) (s : t) : t :=
  let '(header, s) := FillPacketHeader s in
  let s := MaybeAddPadding s in
  let level := encryption_level (packet_ s) in
  match Packets.encrypter_ (framer_ s) level with
  | None => s
  | Some e =>
      let '(built, framer) :=
        Packets.BuildDataPacket header (queued_frames_ s) (Z.to_nat (packet_size_ s)) e (framer_ s) in
      let s := set_framer framer s in
      match built with
      | None => s
      | Some built =>
          let '(encrypted, framer) :=
            Packets.EncryptInPlace level (packet_number (packet_ s))
              (PacketHeaders.GetStartOfEncryptedData (transport_version s) header) encrypted_buffer_len built (framer_ s) in
          let s := set_framer framer s in
          match encrypted with
          | None => s
          | Some buffer => change_packet (set_encrypted_buffer (Some buffer)) (set_queued_frames [] (set_packet_size 0 s))
          end
      end
  end.

(** The packet that is moved away takes the frames with it. *)
Definition ClearPacket (s : t) : t :=
  let p := packet_ s in
  set_needs_full_padding false
    (set_packet (mk_packet None [] false 0 (packet_number p) (packet_number_length p) (encryption_level p) false false
       NOT_RETRANSMISSION PacketNumber.UninitializedPacketNumber PacketNumber.UninitializedPacketNumber) s).

Definition OnSerializedPacket (s : t) : t :=
  match encrypted_buffer (packet_ s) with
  | None => tell (OnUnrecoverableError QUIC_FAILED_TO_SERIALIZE_PACKET) s
  | Some _ => let packet := packet_ s in tell (OnSerializedPacketCall packet) (ClearPacket s)
  end.

Definition Flush (s : t) : t :=
  if negb (HasPendingFrames s) && (pending_padding_bytes_ s =? 0) then s
  else OnSerializedPacket (SerializePacket kMaxOutgoingPacketSize s).

Definition AddFrame (f : QuicFrame) (save_retransmittable_frames : bool) (type : TransmissionType) (s : t) : bool * t :=
  let level := encryption_level (packet_ s) in
  let unencrypted :=
    match f with
    | StreamFrame f =>
        negb (IsCryptoStreamId (transport_version s) (stream_id f))
        && (bool_decide (level = ENCRYPTION_INITIAL) || bool_decide (level = ENCRYPTION_HANDSHAKE))
    | _ => false
    end in
  if unencrypted then (false, tell (OnUnrecoverableError QUIC_ATTEMPT_TO_SEND_UNENCRYPTED_STREAM_DATA) s) else
  let '(ok, s) := TryAddFrame f save_retransmittable_frames type s in
  if ok then (true, s) else (false, Flush s).

Definition AddSavedFrame (f : QuicFrame) (type : TransmissionType) (s : t) : bool * t := AddFrame f true type s.
Definition AddPaddedSavedFrame (f : QuicFrame) (type : TransmissionType) (s : t) : bool * t :=
  let '(ok, s) := AddFrame f true type s in if ok then (true, set_needs_full_padding true s) else (false, s).

(** ** Stream and crypto data *)

Definition CreateStreamFrame (id data_size offset : Z) (fin : bool) (s : t) : QuicStreamFrame * t :=
  let min_frame_size := GetMinStreamFrameSize (transport_version s) id offset true (wrap16 data_size) in
  let '(free, s) := BytesFree s in
  let bytes_consumed := Z.min (wrap64 (free - min_frame_size)) data_size in
  (mk_stream id (fin && (bytes_consumed =? data_size)) offset (wrap16 bytes_consumed) None, s).

Definition StreamFrameIsClientHello (f : QuicStreamFrame) (s : t) : bool :=
  if bool_decide (perspective s = IS_SERVER) || negb (IsCryptoStreamId (transport_version s) (stream_id f)) then false
  else bool_decide (encryption_level (packet_ s) = ENCRYPTION_INITIAL).

(** The frame that was added, or none. *)
Definition ConsumeData (id data_size offset : Z) (fin needs_full_padding : bool) (type : TransmissionType) (s : t)
    : option QuicStreamFrame * t :=
  let '(room, s) := HasRoomForStreamFrame id offset data_size s in
  if negb room then (None, s) else
  let '(f, s) := CreateStreamFrame id data_size offset fin s in
  if quic_enforce_single_packet_chlo && StreamFrameIsClientHello f s && (data_length f <? data_size)
  then (None, tell (OnUnrecoverableError QUIC_CRYPTO_CHLO_TOO_LARGE) s) else
  let '(ok, s) := AddFrame (StreamFrame f) true type s in
  if negb ok then (None, s) else
  (Some f, if needs_full_padding then set_needs_full_padding true s else s).

(** The arguments of [GetMinCryptoFrameSize] are passed in the wrong order. *)
Definition CreateCryptoFrame (level : EncryptionLevel) (write_length offset : Z) (s : t) : option IetfFramer.QuicCryptoFrame * t :=
  let min_frame_size := GetMinCryptoFrameSize write_length offset in
  let '(free, s) := BytesFree s in
  if free <=? min_frame_size then (None, s) else
  let max_write_length := free - min_frame_size in
  let bytes_consumed := Z.min max_write_length write_length in
  (Some (mk_crypto level offset (wrap16 bytes_consumed) None), s).
Definition ConsumeCryptoData (level : EncryptionLevel) (write_length offset : Z) (needs_full_padding : bool) (type : TransmissionType)
    (s : t) : option IetfFramer.QuicCryptoFrame * t :=
  match CreateCryptoFrame level write_length offset s with
  | (None, s) => (None, s)
  | (Some f, s) =>
      let s := if needs_full_padding then set_needs_full_padding true s else s in
      let '(ok, s) := AddFrame (CryptoFrame f) true type s in
      (if ok then Some f else None, s)
  end.

(** What a stream frame is on the wire, in either kind of QUIC. *)
Definition AppendTypeByte (framer : QuicFramer) (f : QuicFrame) (last_frame_in_packet : bool) : Writer.action :=
  if VersionHasIetfQuicFrames (Packets.transport_version_of framer)
  then IetfFramer.AppendIetfTypeByte (Packets.ietf_frames framer) f last_frame_in_packet
  else GoogleFramer.AppendTypeByte f last_frame_in_packet.
Definition AppendStreamFrame (framer : QuicFramer) (f : QuicStreamFrame) (no_stream_frame_length : bool) : Writer.action :=
  if VersionHasIetfQuicFrames (Packets.transport_version_of framer)
  then IetfFramer.AppendIetfStreamFrame (Packets.ietf_frames framer) f no_stream_frame_length
  else GoogleFramer.AppendStreamFrame (Packets.google_frames framer) f no_stream_frame_length.

(** A packet with one stream frame, written at once; the result is the number of bytes consumed, 0 when it fails. *)
Definition CreateAndSerializeStreamFrame (id write_length iov_offset stream_offset : Z) (fin : bool) (type : TransmissionType) (s : t)
    : Z * t :=
  let '(header, s) := FillPacketHeader s in
  let '(ok, st) := PacketHeaders.AppendPacketHeader header
    (PacketHeaders.mk_writing (Writer.new (Z.to_nat kMaxOutgoingPacketSize) NETWORK_BYTE_ORDER) (Packets.headers (framer_ s)) 0) in
  let s := set_framer (Packets.set_headers (PacketHeaders.sender st) (framer_ s)) s in
  if negb ok then (0, s) else
  let w := PacketHeaders.writer st in
  let remaining_data_size := wrap64 (write_length - iov_offset) in
  let sizes last :=
    let min_frame_size := GetMinStreamFrameSize (transport_version s) id stream_offset last (wrap16 remaining_data_size) in
    let available_size := wrap64 (max_plaintext_size_ s - Writer.length_ w - min_frame_size) in
    let bytes_consumed := Z.min available_size remaining_data_size in
    (bytes_consumed, min_frame_size + bytes_consumed) in
  let min_plaintext := MinPlaintextPacketSize (version s) in
  let needs_padding := (sizes true).2 <? min_plaintext in
  let '(bytes_consumed, plaintext_bytes_written) := sizes (negb needs_padding) in
  let frame := mk_stream id (fin && (bytes_consumed =? remaining_data_size)) stream_offset (wrap16 bytes_consumed) None in
  let omit_frame_length := negb needs_padding in
  let padding := if needs_padding && (plaintext_bytes_written <? min_plaintext)
    then Writer.WritePaddingBytes (min_plaintext - plaintext_bytes_written) else Writer.ret true in
  let '(ok, w) := Writer.andthen (Writer.andthen (AppendTypeByte (framer_ s) (StreamFrame frame) omit_frame_length)
    (AppendStreamFrame (framer_ s) frame omit_frame_length)) padding w in
  if negb ok then (0, s) else
  let level := encryption_level (packet_ s) in
  match Packets.encrypter_ (framer_ s) level with
  | None => (0, s)
  | Some e =>
  match Packets.WriteIetfLongHeaderLength header w (PacketHeaders.length_field_offset st) e (framer_ s) with
  | None => (0, s)
  | Some w =>
      let s := if can_set_transmission_type_ s then change_packet (set_transmission_type type) s else s in
      let '(encrypted, framer) :=
        Packets.EncryptInPlace level (packet_number (packet_ s)) (PacketHeaders.GetStartOfEncryptedData (transport_version s) header)
          kMaxOutgoingPacketSize (take (Z.to_nat (Writer.length_ w)) (Writer.buffer w)) (framer_ s) in
      let s := set_framer framer s in
      match encrypted with
      | None => (0, s)
      | Some buffer =>
          (bytes_consumed,
           OnSerializedPacket
             (change_packet (λ p, set_retransmittable_frames (retransmittable_frames p ++ [StreamFrame frame]) (set_encrypted_buffer (Some buffer) p))
               (set_packet_size 0 s)))
      end
  end end.

(** ** Retransmission *)

(** Whether frames were added does not matter to the loop. *)
Definition ReserializeAllFrames (r : QuicPendingRetransmission) (buffer_len : Z) (s : t) : t :=
  let default_encryption_level := encryption_level (packet_ s) in
  let s := change_packet (set_packet_number_length (lost_packet_number_length r)) s in
  let s := if lost_num_padding_bytes r =? -1 then set_needs_full_padding true s else s in
  let s := if lost_has_crypto_handshake r || negb (bool_decide (encryption_level (packet_ s) = ENCRYPTION_FORWARD_SECURE))
    then change_packet (set_encryption_level (lost_encryption_level r)) s else s in
  let s := foldl (λ s f, (AddFrame f false (lost_transmission_type r) s).2) s (lost_frames r) in
  let s := change_packet (set_transmission_type (lost_transmission_type r)) s in
  let s := SerializePacket buffer_len s in
  let s := change_packet (set_original_packet_number (lost_packet_number r)) s in
  let s := OnSerializedPacket s in
  change_packet (set_encryption_level default_encryption_level) s.

(** ** What the session and the connection set *)

Definition SetEncrypter (level : EncryptionLevel) (e : option Enc) (s : t) : t :=
  let framer := Packets.SetEncrypter level e (framer_ s) in
  set_max_plaintext_size (Packets.GetMaxPlaintextSize (max_packet_length_ s) framer) (set_framer framer s).
Definition CanSetMaxPacketLength (s : t) : bool := negb (HasPendingFrames s).
Definition SetMaxPacketLength (length : Z) (s : t) : t :=
  if length =? max_packet_length_ s then s
  else set_max_plaintext_size (Packets.GetMaxPlaintextSize length (framer_ s)) (set_max_packet_length length s).
Definition StopSendingVersion (s : t) : t :=
  let s := set_send_version_in_packet false s in
  if 0 <? packet_size_ s then set_packet_size (wrap64 (packet_size_ s - PacketHeaders.kQuicVersionSize)) s else s.
Definition SetDiversificationNonce (nonce : list Z) (s : t) : t := set_diversification_nonce nonce (set_have_diversification_nonce true s).
Definition UpdatePacketNumberLength (least_packet_awaited_by_peer max_packets_in_flight : Z) (s : t) : t :=
  change_packet (set_packet_number_length
    (PacketNumberWire.UpdatePacketNumberLength (negb (HasPendingFrames s)) (packet_number_length (packet_ s)) (packet_number (packet_ s))
       least_packet_awaited_by_peer max_packets_in_flight)) s.
Definition set_level (level : EncryptionLevel) (s : t) : t := change_packet (set_encryption_level level) s.
Definition SetTransmissionType (type : TransmissionType) (s : t) : t :=
  if negb (can_set_transmission_type_ s) then change_packet (set_transmission_type type) s else s.
Definition SetRetryToken (token : list Z) (s : t) : t := set_retry_token token s.
Definition AddPendingPadding (size : Z) (s : t) : t := set_pending_padding_bytes (wrap64 (pending_padding_bytes_ s + size)) s.
Definition SetServerConnectionIdIncluded (included : bool) (s : t) : t := set_server_connection_id_included included s.
Definition SetServerConnectionId (id : list Z) (s : t) : t := set_server_connection_id id s.
Definition SetClientConnectionId (id : list Z) (s : t) : t := set_client_connection_id id s.

(** The creator of a framer. *)
Definition new (server_connection_id : list Z) (framer : QuicFramer) : t :=
  SetMaxPacketLength kDefaultMaxPacketSize
    (mk framer (PacketHeaders.is_client (Packets.headers framer)) false [] 0 0 true [] 0 server_connection_id [] NoPacket [] 0 false false []).

(** ** Packets that are not queued *)

Definition BuildConnectivityProbingPacket (h : QuicPacketHeader) (packet_length : nat) (e : Enc) (framer : QuicFramer)
    : option (list Z) * QuicFramer :=
  Packets.BuildDataPacket h [PingFrame; PaddingFrame (-1)] packet_length e framer.
(** The payload is eight random bytes. *)
Definition BuildPaddedPathChallengePacket (h : QuicPacketHeader) (packet_length : nat) (payload : list Z) (e : Enc) (framer : QuicFramer)
    : option (list Z) * QuicFramer :=
  if negb (VersionHasIetfQuicFrames (Packets.transport_version_of framer)) then (None, framer) else
  Packets.BuildDataPacket h [PathChallengeFrame payload; PaddingFrame (-1)] packet_length e framer.
Definition BuildPathResponsePacket (h : QuicPacketHeader) (packet_length : nat) (payloads : list (list Z)) (is_padded : bool) (e : Enc)
    (framer : QuicFramer) : option (list Z) * QuicFramer :=
  match payloads with
  | [] => (None, framer)
  | _ =>
      if negb (VersionHasIetfQuicFrames (Packets.transport_version_of framer)) then (None, framer) else
      Packets.BuildDataPacket h (map PathResponseFrame payloads ++ if is_padded then [PaddingFrame (-1)] else []) packet_length e framer
  end.

(** A probe is built, encrypted and given back; the encrypter is there. *)
Definition serialize_probe (build : QuicPacketHeader → nat → Enc → QuicFramer → option (list Z) * QuicFramer) (s : t)
    : option SerializedPacket * t :=
  let '(header, s) := FillPacketHeader s in
  let level := encryption_level (packet_ s) in
  match Packets.encrypter_ (framer_ s) level with
  | None => (None, s)
  | Some e =>
      let '(built, framer) := build header (Z.to_nat (max_plaintext_size_ s)) e (framer_ s) in
      let s := set_framer framer s in
      match built with
      | None => (None, s)
      | Some built =>
          let '(encrypted, framer) :=
            Packets.EncryptInPlace level (packet_number (packet_ s))
              (PacketHeaders.GetStartOfEncryptedData (transport_version s) header) kMaxOutgoingPacketSize built (framer_ s) in
          let s := set_framer framer s in
          let packet := SerializedPacket_new (PacketHeaders.packet_number header) (PacketHeaders.packet_number_length header) in
          (Some (set_encrypted_buffer encrypted (set_encryption_level (encryption_level (packet_ s)) packet)), s)
      end
  end.
Definition SerializeVersionNegotiationPacket (random : Z) (randoms : nat → Z) (ietf_quic : bool) (versions : list ParsedQuicVersion) (s : t) :=
  PacketHeaders.BuildVersionNegotiationPacket random randoms (server_connection_id_ s) (client_connection_id_ s) ietf_quic versions.
Definition SerializeConnectivityProbingPacket : t → option SerializedPacket * t := serialize_probe BuildConnectivityProbingPacket.
Definition SerializePathChallengeConnectivityProbingPacket (payload : list Z) : t → option SerializedPacket * t :=
  serialize_probe (λ h n, BuildPaddedPathChallengePacket h n payload).
Definition SerializePathResponseConnectivityProbingPacket (payloads : list (list Z)) (is_padded : bool) : t → option SerializedPacket * t :=
  serialize_probe (λ h n, BuildPathResponsePacket h n payloads is_padded).

(** ** Packets of version 99 *)

Section version_99.
Context {EL : EndianLaws} (stream_data : Z → Z → Z) (crypto_data : EncryptionLevel → Z → Z).

Abbreviation frame_bytes := (IetfFramer.frame_bytes stream_data crypto_data).
Abbreviation frames_bytes := (IetfFramer.frames_bytes stream_data crypto_data).
Definition frames (s : t) : IetfFramer.framer := Packets.ietf_frames (framer_ s).

(** A frame that can be added: within the limits of the protocol, and no padding. *)
Record frame_ok (c : IetfFramer.framer) (f : QuicFrame) : Prop := {
  frame_good : IetfFramer.good stream_data crypto_data c f;
  frame_no_padding : IetfFramer.is_padding f = false;
  frame_is_bytes : ∀ last, bytes (frame_bytes c f last);
}.

Lemma frames_good c fs : Forall (frame_ok c) fs → Forall (IetfFramer.good stream_data crypto_data c) fs.
Proof. intros H. eapply Forall_impl; [exact H|]. by intros f []. Qed.

(** *** The sizes of lists of frames *)

Definition grows (f : QuicFrame) : Z :=
  match f with MessageFrame _ n => len62 n | StreamFrame f => len62 (data_length f) | _ => 0 end.

Lemma grows_spec c f : frame_ok c f → IetfFramer.transport_version c = stream_version QUIC_VERSION_99 →
  zlen (frame_bytes c f false) = zlen (frame_bytes c f true) + grows f.
Proof.
  intros Hf Hc. destruct Hf as [Hg Hp _]. rewrite !(ietf_frame_size stream_data crypto_data QUIC_VERSION_99 false c f _ PACKET_1BYTE_PACKET_NUMBER) by done.
  destruct f; cbn [ComputeFrameLength grows] in *; try lia; try done.
  - destruct Hg as (_&_&Hl&_). unfold GetMinStreamFrameSize. change (VersionHasIetfQuicFrames QUIC_VERSION_99) with true. cbv iota.
    rewrite wrap16_small by done. lia.
  - unfold GetMessageFrameSize. lia.
Qed.

Lemma frames_bytes_snoc c fs g : Forall (frame_ok c) fs → IetfFramer.transport_version c = stream_version QUIC_VERSION_99 →
  zlen (frames_bytes c (fs ++ [g])) = zlen (frames_bytes c fs) + (match last fs with Some f => grows f | None => 0 end) + zlen (frame_bytes c g true).
Proof.
  intros H Hc. induction H as [|f fs Hf H IH]; [cbn [app IetfFramer.frames_bytes last IetfFramer.is_last]; rewrite zlen_app, (@zlen_nil Z); lia|].
  destruct fs as [|f' fs'].
  - cbn [app IetfFramer.frames_bytes last IetfFramer.is_last]. rewrite !zlen_app, (grows_spec c f Hf Hc), (@zlen_nil Z). lia.
  - change ((f :: f' :: fs') ++ [g]) with (f :: (f' :: fs') ++ [g]). cbn [IetfFramer.frames_bytes].
    change (IetfFramer.is_last (f' :: fs')) with false. change (IetfFramer.is_last ((f' :: fs') ++ [g])) with false.
    cbn [IetfFramer.frames_bytes] in IH. rewrite !zlen_app in *. change (last (f :: f' :: fs')) with (last (f' :: fs')). lia.
Qed.

Lemma frames_bytes_bytes c fs : Forall (frame_ok c) fs → bytes (frames_bytes c fs).
Proof.
  induction 1 as [|f fs Hf H IH]; cbn [IetfFramer.frames_bytes]; [constructor|]. apply Forall_app. split; [apply Hf|done].
Qed.

(** *** Padding to the end *)

(** Padding without a number of bytes is padding by the bytes that are left. *)
Lemma append_padding_rest c n w : WriterSpec.wf w → Writer.remaining w = n → 0 < n →
  IetfFramer.append_frame c (PaddingFrame (-1)) true w = IetfFramer.append_frame c (PaddingFrame n) true w.
Proof.
  intros Hw Hr Hn. unfold IetfFramer.append_frame, IetfFramer.AppendIetfTypeByte, Writer.andthen.
  assert (H : WriterSpec.emits (Writer.endianness w) (Writer.WriteUInt8 IetfFramer.IETF_PADDING) [0]) by apply WriterSpec.emits_WriteUInt8.
  specialize (H w Hw eq_refl). destruct (Writer.WriteUInt8 _ w) as [ok w1]. destruct H as (Hw1&Hc&_&_&Hok&H). destruct ok; [|done].
  destruct (H eq_refl) as [_ Hl]. rewrite zlen_cons, (@zlen_nil Z) in Hl. unfold IetfFramer.AppendPaddingFrame.
  change (-1 =? 0) with false. change (-1 <? 0) with true. destruct (Z.eqb_spec n 0); [lia|]. destruct (Z.ltb_spec n 0); [lia|]. cbv iota.
  assert (Hrem : Writer.capacity w1 - Writer.length_ w1 = n - 1) by (unfold Writer.remaining in Hr; lia).
  unfold Writer.WritePadding, Writer.WritePaddingBytes, Writer.WriteRepeatedByte, Writer.BeginWrite. destruct Hw1 as [H1 H2].
  rewrite Hrem. destruct (Z.ltb_spec (Writer.capacity w1) (Writer.length_ w1)); [lia|]. destruct (Z.ltb_spec (n - 1) (n - 1)); [lia|done].
Qed.

Lemma append_frames_padded c fs n w : Forall (frame_ok c) fs → IetfFramer.transport_version c = stream_version QUIC_VERSION_99 →
  WriterSpec.wf w → Writer.endianness w = NETWORK_BYTE_ORDER → 0 < n →
  Writer.remaining w = zlen (frames_bytes c (fs ++ [PaddingFrame n])) →
  IetfFramer.append_frames c (fs ++ [PaddingFrame (-1)]) w = IetfFramer.append_frames c (fs ++ [PaddingFrame n]) w.
Proof.
  intros H Hc Hw He Hn Hr. revert w Hw He Hr. induction H as [|f fs Hf H IH]; intros w Hw He Hr.
  - cbn [app IetfFramer.append_frames IetfFramer.is_last] in *. unfold Writer.andthen. rewrite (append_padding_rest c n); [done|done| |done].
    rewrite Hr. cbn. rewrite app_nil_r, zlen_cons. unfold zlen. rewrite length_replicate. lia.
  - change ((f :: fs) ++ [?x]) with (f :: fs ++ [x]) in *. cbn [IetfFramer.append_frames IetfFramer.frames_bytes] in *.
    replace (IetfFramer.is_last (fs ++ [PaddingFrame (-1)])) with (IetfFramer.is_last (fs ++ [PaddingFrame n])) by (by destruct fs).
    set (b := IetfFramer.is_last _) in *. unfold Writer.andthen.
    pose proof (IetfFramer.emits_frame stream_data crypto_data c f b (frame_good c f Hf) w Hw He) as Hf'.
    destruct (IetfFramer.append_frame c f b w) as [ok w1]. destruct Hf' as (Hw1&Hcap&He1&_&Hok&Hf'). destruct ok; [|done].
    destruct (Hf' eq_refl) as [_ Hl]. apply IH; [done|done|]. unfold Writer.remaining in *. rewrite zlen_app in Hr. lia.
Qed.

(** *** Headers *)

(** An encrypter of a connection: somewhere is its decrypter, it encrypts whatever has room, and it adds a tag of 12 bytes or more. *)
Record sound (e : Enc) : Prop := {
  sound_peer : ∃ d : Dec, Crypters.Opens e d ∧ Crypters.Masks e d;
  sound_encrypts : ∀ n ad p max, Crypters.GetCiphertextSize e (zlen p) <= max → is_Some (Crypters.EncryptPacket e n ad p max);
  sound_tag : 12 <= Crypters.GetCiphertextSize e 0 <= 64;
  sound_plaintext : ∀ n, 64 <= n < two16 → Crypters.GetMaxPlaintextSize e n = n - Crypters.GetCiphertextSize e 0;
}.

(** A creator of version 99 that is set up: its framer has encrypters, the ids and the token are of legal lengths, a server has its
    nonce when it needs one, and a packet has room for more than its header. *)
Record ready (s : t) : Prop := {
  ready_version : transport_version s = QUIC_VERSION_99;
  ready_candidate : version s ∈ candidates;
  ready_draft : 0 <= quic_ietf_draft_version < 256;
  ready_frames : IetfFramer.transport_version (frames s) = stream_version QUIC_VERSION_99;
  ready_encrypters : ∀ level, ∃ e, Packets.encrypter_ (framer_ s) level = Some e ∧ sound e;
  ready_max : 64 <= max_packet_length_ s <= kMaxOutgoingPacketSize;
  ready_plaintext : max_plaintext_size_ s = Packets.GetMaxPlaintextSize (max_packet_length_ s) (framer_ s);
  ready_server_id : PacketHeaders.good_id (server_connection_id_ s) ∧ bytes (server_connection_id_ s);
  ready_client_id : PacketHeaders.good_id (client_connection_id_ s) ∧ bytes (client_connection_id_ s);
  ready_token : bytes (retry_token_ s) ∧ zlen (retry_token_ s) <= kMaxOutgoingPacketSize;
  ready_nonce : have_diversification_nonce_ s = true → zlen (diversification_nonce_ s) = PacketHeaders.kDiversificationNonceSize ∧ bytes (diversification_nonce_ s);
  ready_has_nonce : encryption_level (packet_ s) = ENCRYPTION_ZERO_RTT →
    have_diversification_nonce_ s = bool_decide (perspective s = IS_SERVER) && Packets.quic_crypto (version s);
  ready_length : packet_number_length (packet_ s) = PACKET_1BYTE_PACKET_NUMBER ∨ packet_number_length (packet_ s) = PACKET_2BYTE_PACKET_NUMBER
    ∨ packet_number_length (packet_ s) = PACKET_4BYTE_PACKET_NUMBER;
  ready_number : PacketNumber.IsInitialized (packet_number (packet_ s)) = true → 0 < packet_number (packet_ s) < 2 ^ 62;
  ready_room : PacketHeaderSize s + 32 <= max_plaintext_size_ s;
}.

Definition header (s : t) : QuicPacketHeader := (FillPacketHeader s).1.
Definition header_framer (s : t) : PacketHeaders.framer := Packets.headers (framer_ s).

Lemma next_number s : ready s → PacketHeaders.packet_number (header s) = NextSendingPacketNumber s ∧ 0 < NextSendingPacketNumber s <= 2 ^ 62.
Proof.
  intros H. split; [done|]. unfold NextSendingPacketNumber. pose proof (ready_number s H) as Hn.
  destruct (PacketNumber.IsInitialized _); cbn [negb]; [|done]. specialize (Hn eq_refl). unfold PacketNumber.add, wrap64.
  rewrite Z.mod_small by (unfold two64; lia). lia.
Qed.

Lemma version_99_facts s : ready s →
  VersionHasIetfInvariantHeader (transport_version s) = true ∧ VersionHasIetfQuicFrames (transport_version s) = true
  ∧ QuicVersionHasLongHeaderLengths (transport_version s) = true ∧ HasHeaderProtection (version s) = true
  ∧ SendsVariableLengthPacketNumberInLongHeader (version s) = true ∧ QuicVersionUsesCryptoFrames (transport_version s) = true.
Proof.
  intros H. pose proof (ready_version s H) as Hv. unfold HasHeaderProtection, SendsVariableLengthPacketNumberInLongHeader.
  change (Versions.transport_version (version s)) with (transport_version s). by rewrite Hv.
Qed.

Lemma long_header_level s : ready s → HasIetfLongHeader s = below_forward_secure (encryption_level (packet_ s)).
Proof. intros H. unfold HasIetfLongHeader. by rewrite (proj1 (version_99_facts s H)). Qed.

Lemma header_version_flag s : ready s → PacketHeaders.version_flag (header s) = below_forward_secure (encryption_level (packet_ s)).
Proof. intros H. cbn. unfold IncludeVersionInHeader. by rewrite (proj1 (version_99_facts s H)). Qed.

Lemma header_number_length s : ready s → GetPacketNumberLength s = packet_number_length (packet_ s).
Proof. intros H. unfold GetPacketNumberLength. destruct (version_99_facts s H) as (_&_&_&_&->&_). by rewrite andb_false_r. Qed.

Lemma header_ids s : ready s →
  (PacketHeaders.good_id (PacketHeaders.sent_destination (header s)) ∧ bytes (PacketHeaders.sent_destination (header s)))
  ∧ (PacketHeaders.good_id (PacketHeaders.sent_source (header s)) ∧ bytes (PacketHeaders.sent_source (header s))).
Proof.
  intros H. pose proof (ready_server_id s H). pose proof (ready_client_id s H). unfold PacketHeaders.sent_destination, PacketHeaders.sent_source.
  assert (Hnil : PacketHeaders.good_id [] ∧ bytes []) by (split; [by left|constructor]).
  cbn. unfold GetDestinationConnectionId, GetSourceConnectionId. split; repeat case_match; done.
Qed.

Lemma header_token s : ready s → let h := header s in
  (PacketHeaders.retry_token_length_length h, PacketHeaders.retry_token h)
  = if PacketHeaders.has_length (header_framer s) h && bool_decide (PacketHeaders.long_packet_type h = PacketHeaders.INITIAL)
    then (len62 (zlen (retry_token_ s)), retry_token_ s) else (0, []).
Proof.
  intros H h. subst h. unfold PacketHeaders.has_length. rewrite (header_version_flag s H).
  change (PacketHeaders.transport (header_framer s)) with (transport_version s).
  cbn. unfold GetRetryTokenLengthLength, GetRetryToken, has_retry_token. rewrite (long_header_level s H).
  destruct (version_99_facts s H) as (_&_&->&_). cbn [andb]. destruct (encryption_level (packet_ s)); reflexivity.
Qed.

Lemma is_varint_token s : ready s → WriterSpec.is_varint_len (len62 (zlen (retry_token_ s)))
  ∧ zlen (retry_token_ s) < WriterSpec.varint_limit (len62 (zlen (retry_token_ s))).
Proof.
  intros H. destruct (ready_token s H) as [_ Ht]. unfold kMaxOutgoingPacketSize in Ht. pose proof (zlen_nonneg (retry_token_ s)).
  destruct (WriterSpec.GetVarInt62Len_spec (zlen (retry_token_ s)) ltac:(lia)) as (?&?&_). split; [done|lia].
Qed.

Lemma sendable_header s : ready s → PacketHeaders.sendable (header_framer s) (header s).
Proof.
  intros H. pose proof (header_token s H) as Ht. cbv zeta in Ht. destruct (header_ids s H) as [[Hd _] [Hs _]].
  split; [apply H|apply H| | | |by split|].
  - destruct (next_number s H) as [-> ?]. unfold two64. lia.
  - cbn. rewrite (header_number_length s H). by destruct (ready_length s H) as [-> |[-> | ->]].
  - cbn. intros n Hn. unfold IncludeNonceInPublicHeader in Hn. destruct (have_diversification_nonce_ s) eqn:E; [|done]. cbn [andb] in Hn.
    case_match; [|done]. apply (inj Some) in Hn as <-. by apply (ready_nonce s H).
  - intros Hl Hi. rewrite Hl, Hi in Ht. cbn [andb] in Ht. rewrite bool_decide_true in Ht by done. apply pair_eq in Ht as [E1 E2]. rewrite E1, E2. by apply is_varint_token.
Qed.

Lemma fits_header s : ready s → PacketHeaders.fits_version (header_framer s) (header s).
Proof.
  intros H. pose proof (header_token s H) as Ht. cbv zeta in Ht. destruct (version_99_facts s H) as (Hi&_&Hlong&_). split.
  - unfold PacketHeaders.has_length. rewrite (header_version_flag s H). change (PacketHeaders.transport (header_framer s)) with (transport_version s).
    rewrite Hlong. cbn. unfold GetLengthLength. rewrite (long_header_level s H), Hlong. by destruct (encryption_level (packet_ s)).
  - intros [Hl|Hn]; [rewrite Hl in Ht; cbn [andb] in Ht|rewrite (bool_decide_false _ Hn), andb_false_r in Ht]; by apply pair_eq in Ht.
  - change (PacketHeaders.transport (header_framer s)) with (transport_version s). rewrite (ready_version s H). done.
  - change (PacketHeaders.transport (header_framer s)) with (transport_version s). by rewrite Hi.
Qed.

Lemma header_ok s : ready s → Packets.packet_ok (header_framer s) (header s).
Proof.
  intros H. pose proof (header_version_flag s H) as Hf. split.
  - apply (ready_version s H).
  - by apply sendable_header.
  - by apply fits_header.
  - cbn. rewrite (header_number_length s H). destruct (ready_length s H) as [-> |[-> | ->]]; cbn; lia.
  - rewrite Hf. intros Hl. cbn. rewrite (long_header_level s H), Hl. cbn. destruct (encryption_level (packet_ s)); [by left|by right; right|by right; left|done].
  - rewrite Hf. intros Hl. cbn. rewrite (long_header_level s H), Hl. cbn. unfold IncludeNonceInPublicHeader.
    change (PacketHeaders.is_server (header_framer s)) with (bool_decide (perspective s = IS_SERVER)).
    change (PacketHeaders.version_ (header_framer s)) with (version s).
    pose proof (ready_has_nonce s H) as Hn. destruct (encryption_level (packet_ s)); try by (rewrite andb_false_r); [].
    rewrite (Hn eq_refl). cbn. rewrite andb_true_r, (bool_decide_true (PacketHeaders.ZERO_RTT_PROTECTED = _)) by done. cbn [andb].
    by destruct (bool_decide (perspective s = IS_SERVER)), (Packets.quic_crypto (version s)).
  - destruct (header_ids s H) as [[_ Hd] [_ Hs]]. split; [done|]. split; [done|]. pose proof (header_token s H) as Ht. cbv zeta in Ht. split.
    + destruct (_ && _); apply pair_eq in Ht as [_ E2]; rewrite E2; [apply H|constructor].
    + unfold PacketHeaders.nonce_bytes. cbn. unfold IncludeNonceInPublicHeader. destruct (have_diversification_nonce_ s) eqn:E; [|constructor]. cbn [andb].
      destruct (bool_decide (encryption_level (packet_ s) = ENCRYPTION_ZERO_RTT)); [|constructor]. by apply (ready_nonce s H).
Qed.

Lemma header_level s : ready s → Packets.level_of (header s) = encryption_level (packet_ s).
Proof.
  intros H. unfold Packets.level_of. rewrite (header_version_flag s H). cbn. rewrite (long_header_level s H). by destruct (encryption_level (packet_ s)).
Qed.

Lemma header_size s : ready s →
  PacketHeaders.GetPacketHeaderSize (transport_version s) (header s) = PacketHeaderSize s
  ∧ zlen (PacketHeaders.header_bytes (header_framer s) (header s)) = PacketHeaderSize s.
Proof.
  intros H. assert (E : PacketHeaders.GetPacketHeaderSize (transport_version s) (header s) = PacketHeaderSize s).
  { unfold PacketHeaders.GetPacketHeaderSize, PacketHeaderSize. cbn. f_equal. by destruct (IncludeNonceInPublicHeader s). }
  split; [done|]. rewrite <-E. apply (PacketHeaders.header_bytes_length (header_framer s) (header s)); [by apply sendable_header|by apply fits_header].
Qed.

(** *** What sending does not change *)

Record same_setup (s s' : t) : Prop := {
  same_version : version s' = version s;
  same_perspective : perspective s' = perspective s;
  same_frames : frames s' = frames s;
  same_google : Packets.google_frames (framer_ s') = Packets.google_frames (framer_ s);
  same_encrypters : Packets.encrypter_ (framer_ s') = Packets.encrypter_ (framer_ s);
  same_send_version : send_version_in_packet_ s' = send_version_in_packet_ s;
  same_has_nonce : have_diversification_nonce_ s' = have_diversification_nonce_ s;
  same_nonce : diversification_nonce_ s' = diversification_nonce_ s;
  same_max_length : max_packet_length_ s' = max_packet_length_ s;
  same_max_plaintext : max_plaintext_size_ s' = max_plaintext_size_ s;
  same_included : server_connection_id_included_ s' = server_connection_id_included_ s;
  same_server_id : server_connection_id_ s' = server_connection_id_ s;
  same_client_id : client_connection_id_ s' = client_connection_id_ s;
  same_token : retry_token_ s' = retry_token_ s;
  same_can_set : can_set_transmission_type_ s' = can_set_transmission_type_ s;
  same_number_length : packet_number_length (packet_ s') = packet_number_length (packet_ s);
  same_level : encryption_level (packet_ s') = encryption_level (packet_ s);
}.

#[export] Instance same_setup_refl : Reflexive same_setup.
Proof. intros s. by split. Qed.
#[export] Instance same_setup_trans : Transitive same_setup.
Proof. intros s1 s2 s3 [] []. split; congruence. Qed.

Lemma same_transport s s' : same_setup s s' → transport_version s' = transport_version s.
Proof. intros H. change (Versions.transport_version (version s') = Versions.transport_version (version s)). by rewrite (same_version s s' H). Qed.

Lemma same_header_size s s' : same_setup s s' → PacketHeaderSize s' = PacketHeaderSize s.
Proof.
  intros H. pose proof (same_transport s s' H) as Ht. destruct H. unfold PacketHeaderSize, GetDestinationConnectionIdLength, GetSourceConnectionIdLength,
    GetDestinationConnectionIdIncluded, GetSourceConnectionIdIncluded, GetDestinationConnectionId, GetSourceConnectionId, IncludeVersionInHeader,
    IncludeNonceInPublicHeader, GetPacketNumberLength, GetRetryTokenLengthLength, GetRetryToken, has_retry_token, GetLengthLength, HasIetfLongHeader.
  by rewrite ?Ht, ?same_version0, ?same_perspective0, ?same_send_version0, ?same_has_nonce0, ?same_included0, ?same_server_id0, ?same_client_id0, ?same_token0,
    ?same_number_length0, ?same_level0.
Qed.

Lemma max_plaintext_encrypters (a b : QuicFramer) n : Packets.encrypter_ a = Packets.encrypter_ b →
  Packets.GetMaxPlaintextSize n a = Packets.GetMaxPlaintextSize n b.
Proof. intros H. unfold Packets.GetMaxPlaintextSize. by rewrite H. Qed.

Lemma ready_same s s' : same_setup s s' → (PacketNumber.IsInitialized (packet_number (packet_ s')) = true → 0 < packet_number (packet_ s') < 2 ^ 62) →
  ready s → ready s'.
Proof.
  intros H Hn R. pose proof (same_header_size s s' H) as Hz. pose proof (same_transport s s' H) as Ht.
  pose proof (max_plaintext_encrypters _ _ (max_packet_length_ s) (same_encrypters s s' H)) as Hm.
  destruct H, R. split; try done; try congruence; unfold frames in *; rewrite ?same_frames0, ?same_server_id0, ?same_client_id0, ?same_token0, ?same_has_nonce0, ?same_nonce0,
    ?same_max_length0, ?same_version0, ?same_perspective0, ?same_level0, ?same_number_length0, ?same_encrypters0, ?Hz; try done; try congruence.
Qed.

(** *** The most a packet carries *)

Lemma max_plaintext_foldl (levels : list EncryptionLevel) (framer : QuicFramer) n m :
  64 <= n < two16 → m <= n → (∀ level e, Packets.encrypter_ framer level = Some e → sound e) →
  let r := foldl (λ min_plaintext_size level,
    match Packets.encrypter_ framer level with
    | Some e => let size := Crypters.GetMaxPlaintextSize e n in if size <? min_plaintext_size then size else min_plaintext_size
    | None => min_plaintext_size
    end) m levels in
  r <= m ∧ ∀ level e, level ∈ levels → Packets.encrypter_ framer level = Some e → r + Crypters.GetCiphertextSize e 0 <= n.
Proof.
  intros Hn Hm Hs. revert m Hm. induction levels as [|l levels IH]; intros m Hm; cbn [foldl].
  { split; [lia|]. intros level e Hl. by apply elem_of_nil in Hl. }
  set (m' := match Packets.encrypter_ framer l with Some e => _ | None => m end).
  assert (H' : m' <= m ∧ ∀ e, Packets.encrypter_ framer l = Some e → m' + Crypters.GetCiphertextSize e 0 <= n).
  { unfold m'. destruct (Packets.encrypter_ framer l) as [e|] eqn:E; [|split; [lia|done]].
    pose proof (sound_plaintext e (Hs l e E) n Hn) as Hp. rewrite Hp.
    destruct (Z.ltb_spec (n - Crypters.GetCiphertextSize e 0) m); (split; [lia|]); intros e' Ee; apply (inj Some) in Ee as <-; lia. }
  destruct H' as [Hle He]. clearbody m'. destruct (IH m' ltac:(lia)) as [H1 H2]. split; [exact (Z.le_trans _ _ _ H1 Hle)|].
  intros level e [->|Hl]%elem_of_cons Ee; [|by apply (H2 level)]. exact (Z.le_trans _ _ _ (proj1 (Z.add_le_mono_r _ _ _) H1) (He e Ee)).
Qed.

Lemma max_plaintext s level e : ready s → Packets.encrypter_ (framer_ s) level = Some e →
  max_plaintext_size_ s + Crypters.GetCiphertextSize e 0 <= max_packet_length_ s.
Proof.
  intros R He. rewrite (ready_plaintext s R). pose proof (ready_max s R) as Hm. unfold kMaxOutgoingPacketSize in Hm.
  destruct (max_plaintext_foldl Packets.all_levels (framer_ s) (max_packet_length_ s) (max_packet_length_ s)) as [_ H]; [unfold two16; lia|lia| |].
  - intros l e' He'. destruct (ready_encrypters s R l) as (e''&He''&Hs). congruence.
  - apply (H level e); [|done]. by destruct level; repeat (first [left|right]).
Qed.

Lemma plaintext_below s : ready s → 0 <= PacketHeaderSize s ∧ max_plaintext_size_ s <= 1440.
Proof.
  intros R. destruct (ready_encrypters s R ENCRYPTION_INITIAL) as (e&He&Hs). pose proof (max_plaintext s _ e R He). pose proof (sound_tag e Hs).
  pose proof (ready_max s R). unfold kMaxOutgoingPacketSize in *. rewrite <-(proj2 (header_size s R)). pose proof (zlen_nonneg (PacketHeaders.header_bytes (header_framer s) (header s))). lia.
Qed.

(** *** The open packet *)

(** What the descriptor of a packet says of its frames. *)
Definition is_ack (f : QuicFrame) : bool := match f with AckFrame _ => true | _ => false end.
Definition is_stop_waiting (f : QuicFrame) : bool := match f with StopWaitingFrame _ => true | _ => false end.
Record describes (version : Z) (p : SerializedPacket) (fs : list QuicFrame) : Prop := {
  describes_retransmittable : retransmittable_frames p = List.filter IsRetransmittableFrame fs;
  describes_crypto : has_crypto_handshake p = existsb (λ f, IsHandshakeFrame f version) fs;
  describes_ack : has_ack p = existsb is_ack fs;
  describes_stop_waiting : has_stop_waiting p = existsb is_stop_waiting fs;
}.

Record opened (s : t) : Prop := {
  opened_frames : Forall (frame_ok (frames s)) (queued_frames_ s);
  opened_size : queued_frames_ s ≠ [] →
    packet_size_ s = PacketHeaderSize s + zlen (frames_bytes (frames s) (queued_frames_ s)) ∧ packet_size_ s <= max_plaintext_size_ s;
  opened_described : describes (transport_version s) (packet_ s) (queued_frames_ s);
  opened_buffer : encrypted_buffer (packet_ s) = None;
  opened_pending : 0 <= pending_padding_bytes_ s < 32768;
}.

(** Its size, with frames or without, and by how much the last one grows. *)
Definition current (s : t) : Z := PacketHeaderSize s + zlen (frames_bytes (frames s) (queued_frames_ s)).
Definition expansion (s : t) : Z := match last (queued_frames_ s) with Some f => grows f | None => 0 end.
Definition sized (s : t) : t := match queued_frames_ s with [] => set_packet_size (PacketHeaderSize s) s | _ => s end.

Lemma sized_same s : same_setup s (sized s).
Proof. unfold sized. by destruct (queued_frames_ s). Qed.

Lemma PacketSize_spec s : opened s → PacketSize s = (current s, sized s).
Proof.
  intros O. unfold PacketSize, current, sized. destruct (queued_frames_ s) as [|f fs] eqn:E; [by cbn [IetfFramer.frames_bytes]; rewrite (@zlen_nil Z), Z.add_0_r|].
  destruct (opened_size s O) as [H _]; [by rewrite E|]. rewrite E in H. by rewrite H.
Qed.

Lemma expansion_spec s : ready s → ExpansionOnNewFrame s = expansion s.
Proof.
  intros R. unfold ExpansionOnNewFrame, expansion. destruct (version_99_facts s R) as (_&->&_). by destruct (last (queued_frames_ s)) as [[]|].
Qed.

Lemma sized_queue s : queued_frames_ (sized s) = queued_frames_ s.
Proof. unfold sized. by destruct (queued_frames_ s) eqn:E. Qed.

Definition room (s : t) : Z := max_plaintext_size_ s - Z.min (max_plaintext_size_ s) (current s + expansion s).

Lemma BytesFree_spec s : ready s → opened s → BytesFree s = (room s, sized s).
Proof.
  intros R O. unfold BytesFree, room. rewrite (PacketSize_spec s O). rewrite expansion_spec by (eapply (ready_same s); [apply sized_same| |done];
    unfold sized; destruct (queued_frames_ s); apply R).
  unfold expansion. rewrite sized_queue. unfold sized. by destruct (queued_frames_ s).
Qed.

Lemma sized_size s : opened s → packet_size_ (sized s) = current s.
Proof.
  intros O. unfold sized, current. destruct (queued_frames_ s) as [|f fs] eqn:E.
  - cbn [IetfFramer.frames_bytes]. rewrite (@zlen_nil Z). cbn. lia.
  - destruct (opened_size s O) as [H _]; [by rewrite E|]. by rewrite E in H.
Qed.

(** What [sized] and placing a frame leave as it is. *)
Record kept (s s' : t) : Prop := {
  kept_setup : same_setup s s';
  kept_calls : calls s' = calls s;
  kept_pending : pending_padding_bytes_ s' = pending_padding_bytes_ s;
  kept_number : packet_number (packet_ s') = packet_number (packet_ s);
  kept_buffer : encrypted_buffer (packet_ s') = encrypted_buffer (packet_ s);
  kept_framer : framer_ s' = framer_ s;
}.

Lemma kept_ready s s' : kept s s' → ready s → ready s'.
Proof. intros [H _ _ Hn _ _] R. apply (ready_same s s' H); [|done]. rewrite Hn. apply R. Qed.

Lemma kept_trans s1 s2 s3 : kept s1 s2 → kept s2 s3 → kept s1 s3.
Proof. intros [] []. split; try congruence. by transitivity s2. Qed.

Lemma sized_kept s : kept s (sized s).
Proof. split; [apply sized_same|..]; unfold sized; by destruct (queued_frames_ s). Qed.

Lemma kept_current s s' : kept s s' → queued_frames_ s' = queued_frames_ s → current s' = current s ∧ expansion s' = expansion s ∧ room s' = room s.
Proof.
  intros [H _ _ _ _ _] Hq. assert (Hc : current s' = current s ∧ expansion s' = expansion s).
  { unfold current, expansion. by rewrite Hq, (same_header_size s s' H), (same_frames s s' H). }
  destruct Hc as [Hc He]. unfold room. by rewrite Hc, He, (same_max_plaintext s s' H).
Qed.

Lemma IsHandshakeFrame_retransmittable f version : IsHandshakeFrame f version = true → IsRetransmittableFrame f = true.
Proof. unfold IsHandshakeFrame. by destruct (negb _), f. Qed.

(** A frame that is to be saved, or that cannot be retransmitted, is described. *)
Lemma PlaceFrame_spec f save type n s : let s' := PlaceFrame f save type n s in
  kept s s' ∧ queued_frames_ s' = queued_frames_ s ++ [f] ∧ packet_size_ s' = packet_size_ s + (ExpansionOnNewFrame s + n)
  ∧ (save = true ∨ IsRetransmittableFrame f = false → ∀ fs, describes (transport_version s) (packet_ s) fs → describes (transport_version s) (packet_ s') (fs ++ [f])).
Proof.
  unfold PlaceFrame. cbv zeta. set (s1 := set_packet_size _ s).
  set (s2 := if save && IsRetransmittableFrame f then _ else _). set (s3 := match f with AckFrame _ => _ | _ => _ end).
  assert (H2 : kept s s2 ∧ queued_frames_ s2 = queued_frames_ s ++ [f] ∧ packet_size_ s2 = packet_size_ s + (ExpansionOnNewFrame s + n)
    ∧ (save = true ∨ IsRetransmittableFrame f = false →
       retransmittable_frames (packet_ s2) = retransmittable_frames (packet_ s) ++ List.filter IsRetransmittableFrame [f]
       ∧ has_crypto_handshake (packet_ s2) = has_crypto_handshake (packet_ s) || IsHandshakeFrame f (transport_version s))
    ∧ has_ack (packet_ s2) = has_ack (packet_ s) ∧ has_stop_waiting (packet_ s2) = has_stop_waiting (packet_ s)).
  { pose proof (IsHandshakeFrame_retransmittable f (transport_version s)) as Hh. unfold s2, s1. cbn [List.filter].
    destruct save, (IsRetransmittableFrame f); cbn [andb];
      [change (transport_version (set_queued_frames _ _)) with (transport_version s); destruct (IsHandshakeFrame f (transport_version s))|..];
      (split_and!; [by split; [split|..]|done..| |done|done]); cbn; intros [?|?]; try done;
      try (destruct (IsHandshakeFrame f (transport_version s)) eqn:E; [by specialize (Hh eq_refl)|]);
      rewrite ?app_nil_r, ?orb_true_r, ?orb_false_r; done. }
  clearbody s2. clear s1. destruct H2 as (Hk&Hq&Hs&Hr&Ha&Hw).
  assert (H3 : kept s s3 ∧ queued_frames_ s3 = queued_frames_ s ++ [f] ∧ packet_size_ s3 = packet_size_ s + (ExpansionOnNewFrame s + n)
    ∧ retransmittable_frames (packet_ s3) = retransmittable_frames (packet_ s2) ∧ has_crypto_handshake (packet_ s3) = has_crypto_handshake (packet_ s2)
    ∧ has_ack (packet_ s3) = has_ack (packet_ s) || is_ack f ∧ has_stop_waiting (packet_ s3) = has_stop_waiting (packet_ s) || is_stop_waiting f).
  { destruct Hk as [[] ? ? ? ? ?]. unfold s3. destruct f; cbn [is_ack is_stop_waiting]; rewrite ?orb_false_r, ?orb_true_r; (split_and!; [by split; [split|..]|done..]). }
  clearbody s3. destruct H3 as (Hk3&Hq3&Hs3&Hr3&Hc3&Ha3&Hw3). set (s4 := if _ && _ then _ else s3).
  assert (H4 : kept s s4 ∧ queued_frames_ s4 = queued_frames_ s3 ∧ packet_size_ s4 = packet_size_ s3
    ∧ retransmittable_frames (packet_ s4) = retransmittable_frames (packet_ s3) ∧ has_crypto_handshake (packet_ s4) = has_crypto_handshake (packet_ s3)
    ∧ has_ack (packet_ s4) = has_ack (packet_ s3) ∧ has_stop_waiting (packet_ s4) = has_stop_waiting (packet_ s3)).
  { unfold s4. destruct (_ && _); [|done]. destruct Hk3 as [[] ? ? ? ? ?]. split_and!; [by split; [split|..]|done..]. }
  clearbody s4. destruct H4 as (Hk4&Hq4&Hs4&Hr4&Hc4&Ha4&Hw4). split_and!; [done|congruence..|].
  intros Hsave fs [D1 D2 D3 D4]. destruct (Hr Hsave) as [Hr' Hc']. split; rewrite ?List.filter_app, ?existsb_app; cbn [existsb]; rewrite ?orb_false_r; congruence.
Qed.

(** An ACK frame that is the first of a packet is only added when there is room for it: otherwise it is announced as cut, and the
    packet cannot be built. *)
Definition ack_fits (s : t) (f : QuicFrame) : Prop :=
  match f with AckFrame _ => zlen (frame_bytes (frames s) f true) <= max_plaintext_size_ s - PacketHeaderSize s | _ => True end.

Lemma frame_bytes_pos c f last : 0 < zlen (frame_bytes c f last).
Proof. unfold IetfFramer.frame_bytes. rewrite zlen_cons. pose proof (zlen_nonneg (IetfFramer.body_bytes stream_data crypto_data c f last)). lia. Qed.

Lemma TryAddFrame_spec f save type s : ready s → opened s → frame_ok (frames s) f → (queued_frames_ s = [] → ack_fits s f) →
  let size := zlen (frame_bytes (frames s) f true) in
  TryAddFrame f save type s = if size <=? room s then (true, PlaceFrame f save type size (sized s)) else (false, sized s).
Proof.
  intros R O Hf Ha size. unfold TryAddFrame. rewrite (BytesFree_spec s R O). pose proof (sized_kept s) as K.
  pose proof (kept_ready s (sized s) K R) as R'. rewrite (serialized_length _ _ f) by apply Hf.
  pose proof (version_99_facts (sized s) R') as (_&Hq&_).
  rewrite <-(ietf_frame_size stream_data crypto_data (transport_version (sized s)) (process_timestamps (sized s)) (frames s) f true);
    [|done|by rewrite (ready_version _ R'); apply R|apply Hf..].
  fold size. pose proof (frame_bytes_pos (frames s) f true) as Hpos. fold size in Hpos.
  destruct (Z.leb_spec size (room s)) as [Hle|Hgt]; [destruct (Z.eqb_spec size 0); [lia|done]|].
  assert (E : (if negb (HasPendingFrames (sized s)) && (match f with AckFrame _ => GetMinAckFrameSize (transport_version (sized s)) PACKET_6BYTE_PACKET_NUMBER <=? room s | _ => false end)
    then room s else 0) = 0); [|by rewrite E].
  destruct f; try (by rewrite andb_false_r). unfold HasPendingFrames. rewrite sized_queue.
  destruct (queued_frames_ s) eqn:Eq; [|done]. exfalso. specialize (Ha eq_refl). cbn [ack_fits] in Ha. fold size in Ha. unfold room, current, expansion in Hgt. rewrite Eq in Hgt.
  cbn [IetfFramer.frames_bytes last] in Hgt. rewrite (@zlen_nil Z) in Hgt. pose proof (ready_room s R). lia.
Qed.

Lemma placed_opened f type s : ready s → opened s → frame_ok (frames s) f → zlen (frame_bytes (frames s) f true) <= room s →
  let s' := PlaceFrame f true type (zlen (frame_bytes (frames s) f true)) (sized s) in
  kept s s' ∧ opened s' ∧ queued_frames_ s' = queued_frames_ s ++ [f].
Proof.
  intros R O Hf Hroom s'. destruct (PlaceFrame_spec f true type (zlen (frame_bytes (frames s) f true)) (sized s)) as (K&Hq&Hs&Hr).
  fold s' in K, Hq, Hs, Hr. pose proof (sized_kept s) as K0. pose proof (kept_trans _ _ _ K0 K) as K1. rewrite sized_queue in Hq.
  split; [done|]. split; [|done]. pose proof (kept_setup s s' K1) as E.
  rewrite (sized_size s O), (expansion_spec _ (kept_ready _ _ K0 R)) in Hs. destruct (kept_current s (sized s) K0 (sized_queue s)) as (_&Hx&_). rewrite Hx in Hs.
  assert (Hz : packet_size_ s' = PacketHeaderSize s + zlen (frames_bytes (frames s) (queued_frames_ s ++ [f]))).
  { rewrite Hs. unfold current, expansion. rewrite frames_bytes_snoc by (apply O || rewrite (ready_frames s R); done). lia. }
  split.
  - rewrite Hq, (same_frames s s' E). apply Forall_app. split; [apply O|by constructor].
  - intros _. rewrite Hq, (same_frames s s' E), (same_header_size s s' E), (same_max_plaintext s s' E). split; [done|].
    rewrite Hs. unfold room in Hroom. pose proof (frame_bytes_pos (frames s) f true). lia.
  - rewrite Hq, (same_transport s s' E), <-(same_transport s _ (sized_same s)). apply Hr; [by left|]. rewrite (same_transport s _ (sized_same s)).
    destruct (opened_described s O). unfold sized. by destruct (queued_frames_ s); split.
  - rewrite (kept_buffer s s' K1). apply O.
  - rewrite (kept_pending s s' K1). apply O.
Qed.

(** *** Padding *)

Lemma padding_size c n last : 0 < n → zlen (frame_bytes c (PaddingFrame n) last) = n.
Proof. intros H. unfold IetfFramer.frame_bytes. cbn [IetfFramer.body_bytes]. rewrite zlen_cons. unfold zlen. rewrite length_replicate. lia. Qed.

Lemma sized_opened s : opened s → opened (sized s).
Proof. intros []. unfold sized. destruct (queued_frames_ s) eqn:E; split; cbn; rewrite ?E; done. Qed.

(** What padding may change of an open packet. *)
Record touched (s s' : t) : Prop := {
  touched_setup : same_setup s s';
  touched_calls : calls s' = calls s;
  touched_number : packet_number (packet_ s') = packet_number (packet_ s);
  touched_framer : framer_ s' = framer_ s;
  touched_pending : 0 <= pending_padding_bytes_ s' <= pending_padding_bytes_ s;
}.

Lemma touched_ready s s' : touched s s' → ready s → ready s'.
Proof. intros [H _ Hn _ _] R. apply (ready_same s s' H); [|done]. rewrite Hn. apply R. Qed.

Lemma touched_room s s' : same_setup s s' → queued_frames_ s' = queued_frames_ s → room s' = room s.
Proof.
  intros H Hq. unfold room, current, expansion. by rewrite Hq, (same_header_size s s' H), (same_frames s s' H), (same_max_plaintext s s' H).
Qed.

(** A packet to be built: frames, and perhaps padding by a number of bytes, or, which comes to the same, by what is left. *)
Record padded (s s' : t) : Prop := {
  padded_touched : touched s s';
  padded_buffer : encrypted_buffer (packet_ s') = None;
  padded_described : describes (transport_version s) (packet_ s') (queued_frames_ s);
  padded_frames : ∃ written meant, queued_frames_ s' = queued_frames_ s ++ written
    ∧ (written = meant ∨ ∃ n, written = [PaddingFrame (-1)] ∧ meant = [PaddingFrame n])
    ∧ (meant = [] ∨ ∃ n, 0 < n ∧ meant = [PaddingFrame n])
    ∧ (let payload := zlen (frames_bytes (frames s) (queued_frames_ s ++ meant)) in
       packet_size_ s' = PacketHeaderSize s + payload ∧ packet_size_ s' <= max_plaintext_size_ s ∧ 7 <= payload);
}.

Lemma wrap64_small v : 0 <= v < two63 → wrap64 v = v.
Proof. intros H. unfold wrap64. apply Z.mod_small. unfold two63, two64 in *. lia. Qed.

Lemma to_int16_small v : 0 <= v < 32768 → to_int16 v = v.
Proof. intros H. unfold to_int16, wrap16. rewrite Z.mod_small by (unfold two16; lia). by destruct (Z.ltb_spec v 32768); [|lia]. Qed.

Lemma expansion_range s : 0 <= expansion s <= 8.
Proof. unfold expansion. destruct (last (queued_frames_ s)) as [[]|]; cbn [grows]; unfold len62, Writer.GetVarInt62Len; repeat case_match; lia. Qed.

Lemma room_range s : ready s → 0 <= room s <= max_plaintext_size_ s - PacketHeaderSize s.
Proof.
  intros R. pose proof (ready_room s R). pose proof (zlen_nonneg (frames_bytes (frames s) (queued_frames_ s))).
  pose proof (expansion_range s). unfold room, current. lia.
Qed.

(** Padding always fits when there are bytes free. *)
Lemma add_padding n type s : ready s → opened s → 0 < room s → (n = -1 ∨ 0 < n <= room s) →
  let len := if n =? -1 then room s else n in
  let s' := (TryAddFrame (PaddingFrame n) false type s).2 in
  kept s s' ∧ queued_frames_ s' = queued_frames_ s ++ [PaddingFrame n] ∧ describes (transport_version s) (packet_ s') (queued_frames_ s)
  ∧ packet_size_ s' = PacketHeaderSize s + zlen (frames_bytes (frames s) (queued_frames_ s ++ [PaddingFrame len])) ∧ packet_size_ s' <= max_plaintext_size_ s.
Proof.
  intros R O Hroom Hn len s'. assert (Hlen : 0 < len <= room s) by (unfold len; destruct (Z.eqb_spec n (-1)); lia).
  pose proof (sized_kept s) as K0. pose proof (plaintext_below s R) as [Hh Hmax].
  assert (E : s' = PlaceFrame (PaddingFrame n) false type len (sized s)).
  { unfold s', TryAddFrame. rewrite (BytesFree_spec s R O). cbn [GetSerializedFrameLength]. fold len.
    assert (Hl : (if n =? -1 then room s else if room s <? wrap64 n then room s else n) = len).
    { unfold len. destruct (Z.eqb_spec n (-1)); [done|]. pose proof (room_range s R). rewrite wrap64_small by (unfold two63; lia).
      destruct (Z.ltb_spec (room s) n); [lia|done]. }
    rewrite Hl. destruct (Z.eqb_spec len 0); [lia|done]. }
  destruct (PlaceFrame_spec (PaddingFrame n) false type len (sized s)) as (K&Hq&Hs&Hr). rewrite <-E in K, Hq, Hs, Hr.
  rewrite sized_queue in Hq. rewrite (sized_size s O), (expansion_spec _ (kept_ready _ _ K0 R)) in Hs.
  destruct (kept_current s (sized s) K0 (sized_queue s)) as (_&Hx&_). rewrite Hx in Hs.
  split; [by apply (kept_trans _ (sized s))|]. split; [done|]. split.
  - specialize (Hr (or_intror eq_refl) (queued_frames_ s)). rewrite (same_transport s _ (sized_same s)) in Hr.
    assert (D : describes (transport_version s) (packet_ (sized s)) (queued_frames_ s)).
    { pose proof (opened_described _ (sized_opened s O)) as D. by rewrite sized_queue, (same_transport s _ (sized_same s)) in D. }
    destruct (Hr D) as [D1 D2 D3 D4]. rewrite List.filter_app in D1. rewrite existsb_app in D2, D3, D4. cbn in D1, D3, D4. rewrite ?app_nil_r, ?orb_false_r in *.
    split; try done. rewrite D2. assert (Hno : existsb (λ f, IsHandshakeFrame f (transport_version s)) [PaddingFrame n] = false); [|by rewrite Hno, orb_false_r].
    cbn. unfold IsHandshakeFrame. by destruct (negb _).
  - rewrite frames_bytes_snoc by (apply O || rewrite (ready_frames s R); done). rewrite padding_size by lia. rewrite Hs. unfold room, current, expansion in *. lia.
Qed.

(** The same open packet. *)
Record alike (s s' : t) : Prop := {
  alike_touched : touched s s';
  alike_opened : opened s';
  alike_queue : queued_frames_ s' = queued_frames_ s;
}.

Lemma touched_trans s1 s2 s3 : touched s1 s2 → touched s2 s3 → touched s1 s3.
Proof. intros [] []. split; [by transitivity s2|congruence..|lia]. Qed.

Lemma alike_trans s1 s2 s3 : alike s1 s2 → alike s2 s3 → alike s1 s3.
Proof. intros [] []. split; [by apply (touched_trans _ s2)|done|congruence]. Qed.

Lemma alike_sized s : opened s → alike s (sized s).
Proof.
  intros O. pose proof (opened_pending s O). split; [split; [apply sized_same|..]|by apply sized_opened|apply sized_queue];
    unfold sized; destruct (queued_frames_ s); cbn; done || lia.
Qed.

Lemma alike_full s x : opened s → alike s (set_needs_full_padding x s).
Proof. intros []. split; [split; [by split|..]|by split|]; cbn; done || lia. Qed.

Lemma alike_full_packet s x : opened s → alike s (change_packet (set_num_padding_bytes x) s).
Proof.
  intros []. split; [split; [by split|..]|split|]; cbn; try done; try lia. destruct opened_described0. by split.
Qed.

Lemma alike_pending s x y : opened s → 0 <= y <= pending_padding_bytes_ s → alike s (set_pending_padding_bytes y (change_packet (set_num_padding_bytes x) s)).
Proof.
  intros [] Hy. split; [split; [by split|..]|split|]; cbn; try done; try lia. destruct opened_described0. by split.
Qed.

Lemma alike_payload s s' : alike s s' → frames_bytes (frames s') (queued_frames_ s') = frames_bytes (frames s) (queued_frames_ s) ∧ room s' = room s
  ∧ PacketHeaderSize s' = PacketHeaderSize s ∧ max_plaintext_size_ s' = max_plaintext_size_ s ∧ transport_version s' = transport_version s.
Proof.
  intros [[H _ _ _ _] _ Hq]. rewrite Hq, (same_frames s s' H), (touched_room s s' H Hq), (same_header_size s s' H), (same_max_plaintext s s' H), (same_transport s s' H). done.
Qed.

(** Frames of fewer bytes than the smallest text that header protection needs leave room for the rest. *)
Lemma full_payload s : ready s → opened s → room s = 0 → 7 <= zlen (frames_bytes (frames s) (queued_frames_ s)).
Proof.
  intros R O H. pose proof (ready_room s R). pose proof (expansion_range s). unfold room, current in H. lia.
Qed.
Lemma low_room s : ready s → opened s → zlen (frames_bytes (frames s) (queued_frames_ s)) < 7 → 7 <= room s.
Proof.
  intros R O H. pose proof (ready_room s R). pose proof (expansion_range s). unfold room, current. lia.
Qed.

Lemma unpadded s s' : alike s s' → 7 <= zlen (frames_bytes (frames s) (queued_frames_ s)) → padded s s'.
Proof.
  intros A H7. destruct (alike_payload s s' A) as (Hp&Hr&Hh&Hm&Ht). destruct A as [T O Hq]. split; [done|apply O| |].
  - rewrite <-Hq, <-Ht. apply O.
  - exists [], []. rewrite !app_nil_r. split; [done|]. split; [by left|]. split; [by left|]. cbv zeta.
    destruct (opened_size s' O) as [H1 H2].
    { intros E. rewrite Hq in E. rewrite E in H7. cbn [IetfFramer.frames_bytes] in H7. rewrite (@zlen_nil Z) in H7. lia. }
    rewrite H1, Hp, Hh, Hm in H2. rewrite H1, Hp, Hh. done.
Qed.

Lemma with_padding s s' n type : ready s → alike s s' → 0 < room s → (n = -1 ∨ 0 < n <= room s) →
  7 <= zlen (frames_bytes (frames s) (queued_frames_ s)) + (if n =? -1 then room s else n) →
  padded s (TryAddFrame (PaddingFrame n) false type s').2.
Proof.
  intros R A Hroom Hn H7. destruct (alike_payload s s' A) as (Hp&Hr&Hh&Hm&Ht). pose proof A as A0. destruct A as [T O Hq].
  pose proof (touched_ready s s' T R) as R'. rewrite <-Hr in *.
  destruct (add_padding n type s' R' O Hroom Hn) as (K&Hq2&D&Hs&Hle). set (s2 := (TryAddFrame _ _ _ _).2) in *. set (len := if n =? -1 then room s' else n) in *.
  assert (Hlen : 0 < len) by (unfold len; destruct (Z.eqb_spec n (-1)); lia). pose proof (touched_setup s s' T) as E.
  split.
  - apply (touched_trans _ s'); [done|]. destruct K. pose proof (touched_pending s s' T). split; [done..|lia].
  - rewrite (kept_buffer s' s2 K). apply O.
  - by rewrite <-Hq, <-Ht.
  - exists [PaddingFrame n], [PaddingFrame len]. rewrite Hq2, Hq. split; [done|]. split; [|split; [right; by exists len|]].
    { unfold len. destruct (Z.eqb_spec n (-1)) as [->|]; [right; by eexists|by left]. }
    cbv zeta. rewrite Hs, Hq, Hh, (same_frames s s' E) in *. rewrite Hm in Hle. split; [done|]. split; [done|].
    rewrite frames_bytes_snoc by (apply (opened_frames s') in O; rewrite ?Hq, ?(same_frames s s' E) in O; done || apply R).
    rewrite padding_size by done. pose proof (expansion_range s) as He. unfold expansion in He. lia.
Qed.

Lemma MaybeAddPadding_spec s : ready s → opened s → padded s (MaybeAddPadding s).
Proof.
  intros R O. unfold MaybeAddPadding. rewrite (BytesFree_spec s R O). pose proof (alike_sized s O) as A1.
  destruct (Z.eqb_spec (room s) 0) as [Hz|Hz]; [apply unpadded; [done|by apply full_payload]|].
  pose proof (room_range s R) as Hr. pose proof (plaintext_below s R) as Hm.
  set (s2 := if bool_decide _ then _ else sized s).
  assert (A2 : alike s s2). { unfold s2. case_match; [|done]. apply (alike_trans _ (sized s)); [done|]. apply alike_full, A1. }
  clearbody s2. rewrite (PacketSize_spec s2 (alike_opened s s2 A2)).
  assert (A3 : alike s (sized s2)) by (apply (alike_trans _ s2); [done|]; apply alike_sized, A2).
  destruct (alike_payload s (sized s2) A3) as (Hp3&_&Hh3&_&_). destruct (alike_payload s s2 A2) as (Hp2&_&Hh2&_&_).
  set (s3 := sized s2) in *. clearbody s3. pose proof (touched_ready s s3 (alike_touched s s3 A3) R) as R3.
  destruct (version_99_facts s3 R3) as (_&_&_&Hhp&_). unfold MinPlaintextPacketSize. rewrite Hhp, Hh3. cbn [negb].
  assert (Hcur : wrap64 (current s2 - PacketHeaderSize s) = zlen (frames_bytes (frames s) (queued_frames_ s))).
  { unfold current. rewrite Hp2, Hh2. rewrite wrap64_small; [lia|]. pose proof (zlen_nonneg (frames_bytes (frames s) (queued_frames_ s))).
    pose proof (expansion_range s). unfold room, current in Hz, Hr. unfold two63. lia. }
  rewrite Hcur. set (fb := zlen _) in *. assert (Hfb : 0 <= fb <= 1440).
  { pose proof (zlen_nonneg (frames_bytes (frames s) (queued_frames_ s))). pose proof (expansion_range s). unfold room, current in Hz, Hr. fold fb in Hz, Hr. lia. }
  pose proof (alike_opened s s3 A3) as O3. pose proof (opened_pending s3 O3) as Hpend.
  rewrite (wrap64_small (fb + _)) by (unfold two63; lia). set (pending := pending_padding_bytes_ s3) in *.
  destruct (needs_full_padding_ s3) eqn:Ef.
  { cbn [negb andb]. apply with_padding; [done| |lia|by left|change (-1 =? -1) with true; cbv iota].
    - apply (alike_trans _ s3); [done|]. by apply alike_full_packet.
    - destruct (Z.ltb_spec fb 7) as [Hlow|]; [pose proof (low_room s R O Hlow); fold fb in Hlow|]; lia. }
  cbn [negb andb]. rewrite andb_true_r. 
  assert (Hextra : (if fb + pending <? 7 then wrap64 (7 - fb) else 0) = (if fb + pending <? 7 then 7 - fb else 0)).
  { destruct (Z.ltb_spec (fb + pending) 7); [|done]. by rewrite wrap64_small by (unfold two63; lia). }
  rewrite Hextra, !to_int16_small by (lia || destruct (Z.ltb_spec (fb + pending) 7); lia).
  rewrite (wrap64_small (pending - _)) by (unfold two63; lia). pose proof (low_room s R O) as Hlow. fold fb in Hlow.
  destruct (Z.eqb_spec pending 0) as [Hp0|Hp0]; cbn [andb]; [destruct (Z.ltb_spec (fb + pending) 7); cbn [Z.eqb]|].
  - destruct (Z.eqb_spec (7 - fb) 0); [lia|]. apply with_padding; [done| |lia|right; lia|destruct (Z.eqb_spec (pending `min` room s `max` (7 - fb)) (-1)); lia].
    apply (alike_trans _ s3); [done|]. apply alike_pending; [done|fold pending; lia].
  - apply unpadded; [done|fold fb; lia].
  - assert (Hn : 0 < (pending `min` room s) `max` (if fb + pending <? 7 then 7 - fb else 0) <= room s)
      by (destruct (Z.ltb_spec (fb + pending) 7); lia).
    apply with_padding; [done| |lia|by right|].
    + apply (alike_trans _ s3); [done|]. apply alike_pending; [done|fold pending; lia].
    + fold fb. destruct (Z.eqb_spec ((pending `min` room s) `max` (if fb + pending <? 7 then 7 - fb else 0)) (-1)); [lia|].
      pose proof (ready_room s R). pose proof (expansion_range s). unfold room, current in Hn, Hlow |- *. fold fb in Hn, Hlow |- *.
      destruct (Z.ltb_spec (fb + pending) 7); lia.
Qed.

(** *** Building, encrypting *)

(** The packet of the header with a number. *)
Definition numbered (s : t) : t := (FillPacketHeader s).2.
Definition header_of (n : Z) (s : t) : QuicPacketHeader := PacketHeaders.set_number n (header s).

Lemma header_of_next s : header_of (NextSendingPacketNumber s) s = header s.
Proof. done. Qed.

Lemma numbered_facts s : ready s → NextSendingPacketNumber s < 2 ^ 62 → opened s →
  ready (numbered s) ∧ opened (numbered s) ∧ touched (set_packet (packet_ (numbered s)) s) (numbered s) ∧ same_setup s (numbered s)
  ∧ calls (numbered s) = calls s ∧ framer_ (numbered s) = framer_ s ∧ packet_number (packet_ (numbered s)) = NextSendingPacketNumber s
  ∧ queued_frames_ (numbered s) = queued_frames_ s ∧ pending_padding_bytes_ (numbered s) = pending_padding_bytes_ s.
Proof.
  intros R Hn O. pose proof (next_number s R) as [_ Hpos]. assert (E : same_setup s (numbered s)) by (by split).
  pose proof (opened_pending s O). split_and!; try done.
  - apply (ready_same s _ E); [|done]. intros _. change (packet_number (packet_ (numbered s))) with (NextSendingPacketNumber s). lia.
  - destruct O as [? ? [] ? ?]. split; try done.
  - split; [by split|done|done|done|]. change (pending_padding_bytes_ _) with (pending_padding_bytes_ s) at 2 3.
    change (pending_padding_bytes_ (numbered s)) with (pending_padding_bytes_ s). lia.
Qed.

(** Padding to the end is written as padding by what is left. *)
Lemma build_padded (framer : QuicFramer) e h fs n packet_length :
  let c := Packets.headers framer in
  let ps := fs ++ [PaddingFrame n] in
  PacketHeaders.transport c = QUIC_VERSION_99 → IetfFramer.transport_version (Packets.ietf_frames framer) = stream_version QUIC_VERSION_99 →
  PacketHeaders.sendable c h → Forall (frame_ok (Packets.ietf_frames framer)) fs → 0 < n →
  Z.of_nat packet_length = zlen (PacketHeaders.header_bytes c h) + zlen (frames_bytes (Packets.ietf_frames framer) ps) →
  Packets.BuildDataPacket h (fs ++ [PaddingFrame (-1)]) packet_length e framer = Packets.BuildDataPacket h ps packet_length e framer.
Proof.
  intros c ps Hv Hf Hs Hok Hn Hlen. unfold Packets.BuildDataPacket. set (w0 := Writer.new packet_length NETWORK_BYTE_ORDER).
  assert (Hr0 : Writer.remaining w0 = Z.of_nat packet_length).
  { unfold Writer.remaining, Writer.capacity, w0, Writer.new, zlen. cbn. rewrite length_replicate. lia. }
  pose proof (zlen_nonneg (frames_bytes (Packets.ietf_frames framer) ps)).
  destruct (PacketHeaders.appends_PacketHeader c h Hs w0 0 (WriterSpec.writer_new_wf _ _) eq_refl ltac:(lia)) as (w1&E1&Hw1&He1&Hc1&Hwr1&Hl1).
  fold c. rewrite E1. cbn [negb PacketHeaders.sender]. set (s1 := Packets.set_headers _ framer).
  assert (Hv1 : Packets.transport_version_of s1 = QUIC_VERSION_99).
  { change (PacketHeaders.transport (PacketHeaders.after_header c h) = QUIC_VERSION_99). unfold PacketHeaders.transport. by rewrite Packets.after_header_version. }
  rewrite Hv1. change (VersionHasIetfQuicFrames QUIC_VERSION_99) with true. cbv iota. cbn [PacketHeaders.writer PacketHeaders.length_field_offset].
  change (Packets.ietf_frames s1) with (Packets.ietf_frames framer). unfold IetfFramer.AppendIetfFrames, ps.
  rewrite (append_frames_padded (Packets.ietf_frames framer) fs n w1); [done|done|done|done|done|done|].
  unfold Writer.remaining in *. fold ps. lia.
Qed.

(** The text of a packet with these frames: their bytes, with padding behind them if there is some. A single frame may have its
    length in front of its data though nothing follows. *)
Definition payload_of (c : IetfFramer.framer) (fs : list QuicFrame) (payload : list Z) : Prop :=
  (∃ padding, (padding = [] ∨ ∃ n, 0 < n ∧ padding = [PaddingFrame n]) ∧ payload = frames_bytes c (fs ++ padding))
  ∨ ∃ f, fs = [f] ∧ payload = frame_bytes c f false.

(** What a delegate is given: frames in a packet that is protected as those of [Packets] are, with the header of the creator, and
    no longer than a packet may be. *)
Definition carries (s : t) (n : Z) (fs : list QuicFrame) (buffer : list Z) : Prop :=
  ∃ c e payload ct,
    let h := header_of n s in
    let len := Packets.length_to_write e h payload in
    let mask := Crypters.GenerateHeaderProtectionMask e (Packets.sample_of (length (Packets.sent_number h)) ct) in
    PacketHeaders.version_ c = version s ∧ PacketHeaders.perspective c = perspective s
    ∧ Packets.packet_ok c h ∧ Packets.level_of h = encryption_level (packet_ s)
    ∧ Packets.encrypter_ (framer_ s) (encryption_level (packet_ s)) = Some e
    ∧ payload_of (frames s) fs payload
    ∧ Crypters.EncryptPacket e n (Packets.packet_header c h len) payload (kMaxOutgoingPacketSize - PacketHeaderSize s) = Some ct
    ∧ buffer = Packets.protected c h len mask ct ∧ zlen buffer <= max_packet_length_ s.

Lemma header_perspective c h : PacketHeaders.perspective (PacketHeaders.after_header c h) = PacketHeaders.perspective c.
Proof. unfold PacketHeaders.after_header. by destruct (VersionHasIetfInvariantHeader (PacketHeaders.transport c)), (SupportsClientConnectionIds (PacketHeaders.version_ c)). Qed.

Lemma protected_length c h len mask ct : Packets.packet_ok c h → bytes mask → 5 <= zlen mask →
  zlen (Packets.protected c h len mask ct) = zlen (Packets.packet_header c h len) + zlen ct.
Proof.
  intros Hok Hb Hm. rewrite Packets.packet_header_parts by done. unfold Packets.protected. rewrite zlen_cons, !zlen_app, zlen_cons, !zlen_app.
  assert (Hl : (length (Packets.sent_number h) <= length (tail mask))%nat).
  { pose proof (Packets.ok_length c h Hok). pose proof (PacketHeaders.number_bytes_length (PacketHeaders.packet_number_length h) (PacketHeaders.packet_number h)) as Hn.
    fold (Packets.sent_number h) in Hn. destruct mask; unfold zlen in *; cbn in *; lia. }
  assert (Hmasked : zlen (Packets.masked (Packets.sent_number h) (tail mask)) = zlen (Packets.sent_number h)) by (unfold zlen; by rewrite Packets.masked_length).
  lia.
Qed.

(** The encrypted text of a payload that leaves room for the tag. *)
Lemma encrypted s e h len payload : ready s → Packets.packet_ok (header_framer s) h → Packets.encrypter_ (framer_ s) (encryption_level (packet_ s)) = Some e →
  zlen (Packets.packet_header (header_framer s) h len) = PacketHeaderSize s → bytes payload → PacketHeaderSize s + zlen payload <= max_plaintext_size_ s → 7 <= zlen payload →
  let ad := Packets.packet_header (header_framer s) h len in
  ∃ d ct, Crypters.Opens e d
    ∧ Crypters.EncryptPacket e (PacketHeaders.packet_number h) ad payload (kMaxOutgoingPacketSize - PacketHeaderSize s) = Some ct
    ∧ zlen ad + zlen ct <= max_packet_length_ s ∧ 20 <= zlen (Packets.sent_number h) + zlen ct
    ∧ let mask := Crypters.GenerateHeaderProtectionMask e (Packets.sample_of (length (Packets.sent_number h)) ct) in bytes mask ∧ 5 <= zlen mask.
Proof.
  intros R Hok He Had Hp Hfit H7 ad. destruct (ready_encrypters s R (encryption_level (packet_ s))) as (e'&He'&Hs). assert (e' = e) as -> by congruence.
  destruct (sound_peer e Hs) as (d&Ho&Hm). pose proof (max_plaintext s _ e R He) as Hmax. pose proof (ready_max s R) as Hlen.
  pose proof (Crypters.overhead e d Ho (zlen payload)) as Hov. pose proof (sound_tag e Hs) as Htag.
  destruct (sound_encrypts e Hs (PacketHeaders.packet_number h) ad payload (kMaxOutgoingPacketSize - PacketHeaderSize s)) as [ct Hct]; [lia|].
  destruct (Crypters.opens e d Ho _ _ _ _ _ (PacketHeaders.sendable_number _ h (Packets.ok_sendable _ h Hok)) (Packets.packet_header_bytes _ h len Hok) Hp Hct)
    as (Hctb&Hctl&_&_).
  assert (Hnl : zlen (Packets.sent_number h) = Z.of_nat (length_of (PacketHeaders.packet_number_length h)))
    by (unfold Packets.sent_number; apply PacketHeaders.number_bytes_length).
  assert (Hn1 : 1 <= zlen (Packets.sent_number h) <= 4).
  { pose proof (Packets.ok_length _ h Hok) as Hl. rewrite Hnl. destruct (PacketHeaders.packet_number_length h); cbn in *; lia. }
  exists d, ct. split; [done|]. split; [done|]. split; [unfold ad; rewrite Had; lia|]. split; [lia|].
  apply (Packets.mask_of_sample e d _ ct Hm); [unfold zlen in *; lia..|done].
Qed.

(** What becomes of an open packet when it is serialized with these frames. *)
Record serialized (s : t) (fs : list QuicFrame) (s' : t) : Prop := {
  serialized_setup : same_setup s s';
  serialized_calls : calls s' = calls s;
  serialized_number : packet_number (packet_ s') = NextSendingPacketNumber s;
  serialized_pending : 0 <= pending_padding_bytes_ s' <= pending_padding_bytes_ s;
  serialized_queue : queued_frames_ s' = [];
  serialized_described : describes (transport_version s) (packet_ s') fs;
  serialized_buffer : ∃ buffer, encrypted_buffer (packet_ s') = Some buffer ∧ carries s (NextSendingPacketNumber s) fs buffer;
}.

Lemma padding_payload s meant : opened s → (meant = [] ∨ ∃ n, 0 < n ∧ meant = [PaddingFrame n]) →
  Forall (IetfFramer.good stream_data crypto_data (frames s)) (queued_frames_ s ++ meant) ∧ bytes (frames_bytes (frames s) (queued_frames_ s ++ meant)).
Proof.
  intros O Hm. pose proof (opened_frames s O) as Hf. assert (Hg : Forall (IetfFramer.good stream_data crypto_data (frames s)) (queued_frames_ s ++ meant)).
  { apply Forall_app. split; [by apply frames_good|]. destruct Hm as [->|(n&Hn&->)]; by repeat constructor. }
  split; [done|]. clear Hg. induction Hf as [|f fs Hf' Hf IH]; cbn [app IetfFramer.frames_bytes].
  - destruct Hm as [->|(n&Hn&->)]; cbn [IetfFramer.frames_bytes]; [constructor|]. rewrite app_nil_r. unfold IetfFramer.frame_bytes. constructor; [done|].
    cbn [IetfFramer.body_bytes]. by apply Forall_replicate.
  - apply Forall_app. split; [apply Hf'|done].
Qed.

(** The packet that is built, of an open packet with padding. *)
Lemma build_packet s s2 e meant : ready s → NextSendingPacketNumber s < 2 ^ 62 → opened s → padded (numbered s) s2 →
  let h := header s in
  let c := header_framer s in
  let payload := frames_bytes (frames s) (queued_frames_ s ++ meant) in
  let len := Packets.length_to_write e h payload in
  (∃ written, queued_frames_ s2 = queued_frames_ s ++ written ∧ (written = meant ∨ ∃ n, written = [PaddingFrame (-1)] ∧ meant = [PaddingFrame n])) →
  (meant = [] ∨ ∃ n, 0 < n ∧ meant = [PaddingFrame n]) → packet_size_ s2 = PacketHeaderSize s + zlen payload → 7 <= zlen payload →
  0 <= len < 16384 →
  Packets.BuildDataPacket h (queued_frames_ s2) (Z.to_nat (packet_size_ s2)) e (framer_ s)
  = (Some (Packets.packet_header c h len ++ payload), Packets.set_headers (PacketHeaders.after_header c h) (framer_ s)).
Proof.
  intros R Hn O P h c payload len (written&Hq&Hw) Hm Hsize H7 Hlen. destruct (header_size s R) as [_ Hh]. pose proof (header_ok s R) as Hok. fold h c in Hok, Hh.
  pose proof (padding_payload s meant O Hm) as [Hg _]. pose proof (zlen_nonneg (PacketHeaders.header_bytes c h)) as Hpos.
  assert (E : Packets.BuildDataPacket h (queued_frames_ s2) (Z.to_nat (packet_size_ s2)) e (framer_ s)
    = Packets.BuildDataPacket h (queued_frames_ s ++ meant) (Z.to_nat (packet_size_ s2)) e (framer_ s)).
  { rewrite Hq. destruct Hw as [->|(n&->&->)]; [done|]. destruct Hm as [|(n'&Hn'&[= ->])]; [done|].
    apply (build_padded (framer_ s) e h); [apply Hok|apply (ready_frames s R)|apply Hok|apply (opened_frames s O)|done|].
    rewrite Z2Nat.id by lia. etransitivity; [exact Hsize|]. by rewrite <-Hh. }
  rewrite E. apply (Packets.BuildDataPacket_spec stream_data crypto_data e h).
  - apply Hok.
  - apply Hok.
  - done.
  - intros En. unfold payload in H7. rewrite En in H7. cbn [IetfFramer.frames_bytes] in H7. rewrite (@zlen_nil Z) in H7. lia.
  - intros _. exact Hlen.
  - rewrite Z2Nat.id by lia. rewrite Hsize, <-Hh. apply Z.le_refl.
Qed.

Lemma max_plaintext_pos s e : ready s → Packets.encrypter_ (framer_ s) (encryption_level (packet_ s)) = Some e →
  Crypters.GetCiphertextSize e 0 <= 64 ∧ ∀ n, Crypters.GetCiphertextSize e n = n + Crypters.GetCiphertextSize e 0.
Proof.
  intros R He. destruct (ready_encrypters s R (encryption_level (packet_ s))) as (e'&He'&Hs). assert (e' = e) as -> by congruence.
  destruct (sound_peer e Hs) as (d&Ho&_). split; [apply (sound_tag e Hs)|apply (Crypters.overhead e d Ho)].
Qed.

Lemma nonce_short s : ready s → 0 <= (if PacketHeaders.version_flag (header s) then zlen (PacketHeaders.nonce_bytes (header s)) else 0) <= 32.
Proof.
  intros R. destruct (PacketHeaders.version_flag (header s)); [|lia]. unfold PacketHeaders.nonce_bytes. cbn. unfold IncludeNonceInPublicHeader.
  destruct (have_diversification_nonce_ s) eqn:E; cbn [andb]; [|unfold zlen; cbn; lia]. destruct (bool_decide (encryption_level (packet_ s) = ENCRYPTION_ZERO_RTT)); [|unfold zlen; cbn; lia].
  destruct (ready_nonce s R E) as [Hz _]. unfold PacketHeaders.kDiversificationNonceSize in Hz. cbn. lia.
Qed.

Lemma length_range s e payload : ready s → Packets.encrypter_ (framer_ s) (encryption_level (packet_ s)) = Some e → zlen payload <= 1440 →
  0 <= Packets.length_to_write e (header s) payload < 16384.
Proof.
  intros R He Hp. unfold Packets.length_to_write. destruct (max_plaintext_pos s e R He) as [Htag Hover]. rewrite Hover. pose proof (nonce_short s R).
  destruct (ready_encrypters s R (encryption_level (packet_ s))) as (e'&He'&Hs). assert (e' = e) as -> by congruence. pose proof (sound_tag e Hs).
  pose proof (Packets.ok_length _ _ (header_ok s R)). pose proof (zlen_nonneg payload). lia.
Qed.

(** What is built is encrypted. *)
Lemma sealed s e fs payload : ready s → Packets.encrypter_ (framer_ s) (encryption_level (packet_ s)) = Some e → bytes payload → payload_of (frames s) fs payload →
  PacketHeaderSize s + zlen payload <= max_plaintext_size_ s → 7 <= zlen payload →
  let c := header_framer s in
  let h := header s in
  let framer := Packets.set_headers (PacketHeaders.after_header c h) (framer_ s) in
  ∃ buffer, Packets.EncryptInPlace (encryption_level (packet_ s)) (NextSendingPacketNumber s) (PacketHeaders.GetStartOfEncryptedData QUIC_VERSION_99 h)
      kMaxOutgoingPacketSize (Packets.packet_header c h (Packets.length_to_write e h payload) ++ payload) framer = (Some buffer, framer)
    ∧ carries s (NextSendingPacketNumber s) fs buffer.
Proof.
  intros R He Hpb Hof Hfit H7 c h framer. set (len := Packets.length_to_write e h payload). pose proof (header_ok s R) as Hok. fold c h in Hok.
  assert (Had : zlen (Packets.packet_header c h len) = PacketHeaderSize s).
  { rewrite Packets.packet_header_length by done. apply (header_size s R). }
  destruct (encrypted s e h len payload R Hok He Had Hpb Hfit H7) as (d&ct&Ho&Hct&Hmax&Hmin&Hmb&Hml). fold c in Hct, Hmax.
  pose proof (ready_max s R) as Hout. unfold kMaxOutgoingPacketSize in Hout. pose proof (plaintext_below s R) as Hbelow.
  pose proof (Packets.EncryptPayload_spec e d (encryption_level (packet_ s)) c h len payload ct kMaxOutgoingPacketSize framer Hok eq_refl He Ho Hpb Hmb Hml) as Henc.
  cbv zeta in Henc. rewrite Had in Henc. pose proof (zlen_nonneg payload). pose proof (zlen_nonneg ct). rewrite Had in Hmax.
  rewrite wrap64_small in Henc by (unfold kMaxOutgoingPacketSize, two63; lia).
  specialize (Henc Hct Hmin ltac:(unfold two64; lia)). unfold Packets.EncryptPayload in Henc.
  assert (Hv : Packets.transport_version_of framer = QUIC_VERSION_99).
  { change (PacketHeaders.transport (PacketHeaders.after_header c h) = QUIC_VERSION_99). unfold PacketHeaders.transport. rewrite Packets.after_header_version. apply Hok. }
  rewrite Hv in Henc. eexists. split; [exact Henc|]. exists c, e, payload, ct. cbv zeta. rewrite header_of_next. fold h len. split_and!; try done.
  - apply (header_level s R).
  - rewrite protected_length by done. by rewrite Had.
Qed.

Lemma after_sealing s : ready s → same_setup s (set_framer (Packets.set_headers (PacketHeaders.after_header (header_framer s) (header s)) (framer_ s)) s).
Proof.
  intros R. assert (Hv : PacketHeaders.version_ (PacketHeaders.after_header (header_framer s) (header s)) = version s) by (by rewrite Packets.after_header_version).
  split; first [exact Hv|exact (header_perspective (header_framer s) (header s))|reflexivity].
Qed.

(** Everything is ready for a packet to be encrypted: the serializing succeeds. *)
Lemma SerializePacket_spec s : ready s → NextSendingPacketNumber s < 2 ^ 62 → opened s →
  serialized s (queued_frames_ s) (SerializePacket kMaxOutgoingPacketSize s).
Proof.
  intros R Hn O. destruct (numbered_facts s R Hn O) as (R1&O1&_&E1&Hc1&Hf1&Hnum1&Hq1&Hp1).
  pose proof (MaybeAddPadding_spec (numbered s) R1 O1) as P. unfold SerializePacket. change (FillPacketHeader s) with (header s, numbered s).
  cbv iota beta. set (s2 := MaybeAddPadding (numbered s)) in *. clearbody s2. pose proof P as [T Hb Hd (written&meant&Hq&Hw&Hm&Hsize)].
  cbv zeta in Hsize. rewrite Hq1 in Hq, Hd. rewrite Hq1, (same_frames s _ E1), (same_header_size s _ E1), (same_max_plaintext s _ E1) in Hsize. destruct Hsize as (Hsize&Hfit&H7).
  destruct T as [E2 Hc2 Hnum2 Hf2 Hp2]. rewrite Hf1 in Hf2. pose proof (transitivity (R := same_setup) E1 E2) as E.
  rewrite Hf2, (same_level s s2 E). destruct (ready_encrypters s R (encryption_level (packet_ s))) as (e&He&_). rewrite He.
  set (payload := frames_bytes (frames s) (queued_frames_ s ++ meant)) in *. pose proof (plaintext_below s R) as Hbelow.
  pose proof (length_range s e payload R He ltac:(lia)) as Hlen.
  rewrite (build_packet s s2 e meant R Hn O P (ex_intro _ written (conj Hq Hw)) Hm Hsize H7 Hlen). fold payload.
  set (c := header_framer s). set (h := header s). set (framer := Packets.set_headers (PacketHeaders.after_header c h) (framer_ s)).
  destruct (padding_payload s meant O Hm) as [_ Hpb]. fold payload in Hpb.
  destruct (sealed s e (queued_frames_ s) payload R He Hpb) as (buffer&Henc&Hcar); [left; by exists meant|lia|done|]. fold c h framer in Henc.
  change (packet_number (packet_ (set_framer framer s2))) with (packet_number (packet_ s2)). rewrite Hnum2, Hnum1.
  change (framer_ (set_framer framer s2)) with framer. change (transport_version (set_framer framer s2)) with (Packets.transport_version_of framer).
  pose proof (same_transport _ _ (after_sealing s R)) as Hv. fold c h framer in Hv. change (Packets.transport_version_of framer = transport_version s) in Hv.
  rewrite Hv, (ready_version s R), Henc. pose proof (after_sealing s R) as E3. fold c h framer in E3. split.
  - destruct E, E3. by split.
  - exact Hc2.
  - exact Hnum2.
  - exact Hp2.
  - done.
  - rewrite (same_transport s _ E1) in Hd. destruct Hd. by split.
  - by exists buffer.
Qed.

(** *** Flushing *)

Lemma header_of_same s s' n : same_setup s s' → header_of n s' = header_of n s.
Proof.
  intros H. pose proof (same_transport s s' H) as Ht. destruct H. unfold header_of, header, FillPacketHeader. cbn [fst]. unfold PacketHeaders.set_number.
  cbn. unfold GetDestinationConnectionId, GetSourceConnectionId, GetDestinationConnectionIdIncluded, GetSourceConnectionIdIncluded, IncludeVersionInHeader,
    IncludeNonceInPublicHeader, GetPacketNumberLength, GetRetryTokenLengthLength, GetRetryToken, has_retry_token, GetLengthLength, HasIetfLongHeader.
  by rewrite ?Ht, ?same_version0, ?same_perspective0, ?same_send_version0, ?same_has_nonce0, ?same_nonce0, ?same_included0, ?same_server_id0, ?same_client_id0,
    ?same_token0, ?same_number_length0, ?same_level0.
Qed.

Lemma carries_same s s' n fs buffer : same_setup s s' → carries s' n fs buffer → carries s n fs buffer.
Proof.
  intros H (c&e&padding&ct&H1). exists c, e, padding, ct. cbv zeta in *. revert H1.
  rewrite (header_of_same s s' n H), (same_header_size s s' H). destruct H.
  by rewrite same_version0, same_perspective0, same_frames0, same_level0, same_encrypters0, same_max_length0.
Qed.

(** A packet that was given to the delegate, with these frames. *)
Record sent (s : t) (fs : list QuicFrame) (p : SerializedPacket) : Prop := {
  sent_level : encryption_level p = encryption_level (packet_ s);
  sent_described : describes (transport_version s) p fs;
  sent_buffer : ∃ buffer, encrypted_buffer p = Some buffer ∧ carries s (packet_number p) fs buffer;
}.

Lemma sent_same s s' fs p : same_setup s s' → sent s' fs p → sent s fs p.
Proof.
  intros H [H1 H2 (b&H3&H4)]. split; [by rewrite H1; apply H|by rewrite <-(same_transport s s' H)|].
  exists b. split; [done|by apply (carries_same s s')].
Qed.

(** From one state to another, some frames are accepted and some packets are sent. *)
Record progress (s s' : t) (accepted : list QuicFrame) (packets : list (list QuicFrame * SerializedPacket)) : Prop := {
  progress_setup : same_setup s s';
  progress_ready : ready s';
  progress_opened : opened s';
  progress_calls : calls s' = calls s ++ map (λ x, OnSerializedPacketCall x.2) packets;
  progress_frames : concat (map fst packets) ++ queued_frames_ s' = queued_frames_ s ++ accepted;
  progress_numbers : map (λ x, packet_number x.2) packets = seqZ (NextSendingPacketNumber s) (zlen packets);
  progress_next : NextSendingPacketNumber s' = NextSendingPacketNumber s + zlen packets;
  progress_sent : Forall (λ x, sent s x.1 x.2) packets;
}.

Lemma progress_trans s1 s2 s3 a1 a2 p1 p2 : progress s1 s2 a1 p1 → progress s2 s3 a2 p2 → progress s1 s3 (a1 ++ a2) (p1 ++ p2).
Proof.
  intros [] []. split.
  - by transitivity s2.
  - done.
  - done.
  - by rewrite progress_calls1, progress_calls0, map_app, app_assoc.
  - by rewrite map_app, concat_app, <-app_assoc, progress_frames1, app_assoc, progress_frames0, <-app_assoc.
  - rewrite map_app, zlen_app, seqZ_app by apply zlen_nonneg. by rewrite progress_numbers0, progress_numbers1, progress_next0.
  - rewrite zlen_app. lia.
  - apply Forall_app. split; [done|]. eapply Forall_impl; [done|]. intros [fs p] H. by apply (sent_same s1 s2).
Qed.

Lemma progress_kept s s' a : kept s s' → ready s → opened s' → queued_frames_ s' = queued_frames_ s ++ a → progress s s' a [].
Proof.
  intros K R O Hq. split; try done.
  - apply K.
  - by apply (kept_ready s).
  - cbn. by rewrite app_nil_r, (kept_calls s s' K).
  - unfold NextSendingPacketNumber. rewrite (kept_number s s' K), (@zlen_nil (list QuicFrame * SerializedPacket)). lia.
Qed.

Lemma alike_kept s s' : ready s → kept s s' → queued_frames_ s' = queued_frames_ s → opened s' → progress s s' [] [].
Proof. intros R K Hq O. apply progress_kept; [done..|]. by rewrite app_nil_r. Qed.

(** The serialized packet goes to the delegate, and the creator is without one. *)
Lemma OnSerializedPacket_spec s fs accepted s1 : ready s → NextSendingPacketNumber s < 2 ^ 62 → 0 <= pending_padding_bytes_ s < 32768 → serialized s fs s1 →
  fs = queued_frames_ s ++ accepted →
  let s' := OnSerializedPacket s1 in
  progress s s' accepted [(fs, packet_ s1)] ∧ queued_frames_ s' = [] ∧ pending_padding_bytes_ s' = pending_padding_bytes_ s1.
Proof.
  intros R Hn Hpend [E Hc Hnum Hp Hq Hd (buffer&Hb&Hcar)] Hfs s0.
  assert (Es : s0 = tell (OnSerializedPacketCall (packet_ s1)) (ClearPacket s1)) by (unfold s0, OnSerializedPacket; by rewrite Hb).
  rewrite Es. clear s0 Es. set (s' := tell _ _).
  assert (E' : same_setup s s') by (destruct E; split; done).
  pose proof (next_number s R) as [_ Hpos]. split; [|done]. split.
  - done.
  - apply (ready_same s s' E'); [|done]. intros _. change (packet_number (packet_ s')) with (packet_number (packet_ s1)). rewrite Hnum. lia.
  - split.
    + change (queued_frames_ s') with (queued_frames_ s1). by rewrite Hq.
    + change (queued_frames_ s') with (queued_frames_ s1). by rewrite Hq.
    + change (queued_frames_ s') with (queued_frames_ s1). rewrite Hq. by split.
    + done.
    + change (pending_padding_bytes_ s') with (pending_padding_bytes_ s1). lia.
  - change (calls s') with (calls s1 ++ [OnSerializedPacketCall (packet_ s1)]). by rewrite Hc.
  - change (queued_frames_ s') with (queued_frames_ s1). rewrite Hq. cbn. by rewrite !app_nil_r.
  - cbn. by rewrite Hnum.
  - unfold NextSendingPacketNumber at 1. change (packet_number (packet_ s')) with (packet_number (packet_ s1)). rewrite Hnum.
    unfold PacketNumber.IsInitialized, PacketNumber.UninitializedPacketNumber, PacketNumber.add.
    destruct (Z.eqb_spec (NextSendingPacketNumber s) (two64 - 1)); [unfold two64 in *; lia|]. cbn [negb]. rewrite wrap64_small by (unfold two63; lia). done.
  - constructor; [|done]. split; [apply E|done|]. exists buffer. cbn [fst snd]. by rewrite Hnum.
Qed.

(** [Flush]: one packet with all the frames of the open one, if it has any or if padding is due. *)
Lemma Flush_spec s : ready s → NextSendingPacketNumber s < 2 ^ 62 → opened s →
  ∃ packets, progress s (Flush s) [] packets ∧ zlen packets <= 1 ∧ queued_frames_ (Flush s) = [] ∧ pending_padding_bytes_ (Flush s) <= pending_padding_bytes_ s.
Proof.
  intros R Hn O. unfold Flush, HasPendingFrames. destruct (bool_decide_reflect (length (queued_frames_ s) = 0%nat)) as [Hl|Hl]; cbn [negb andb].
  - destruct (queued_frames_ s) eqn:E; [|done]. destruct (Z.eqb_spec (pending_padding_bytes_ s) 0).
    + exists []. split; [|split; [done|split; [done|lia]]]. apply alike_kept; [done| |done|done]. by split.
    + pose proof (SerializePacket_spec s R Hn O) as H. destruct (OnSerializedPacket_spec s _ [] _ R Hn (opened_pending s O) H (eq_sym (app_nil_r _))) as (P&Hq&Hp).
      eexists. split; [exact P|]. split; [done|]. split; [done|]. rewrite Hp. apply H.
  - pose proof (SerializePacket_spec s R Hn O) as H. destruct (OnSerializedPacket_spec s _ [] _ R Hn (opened_pending s O) H (eq_sym (app_nil_r _))) as (P&Hq&Hp).
    eexists. split; [exact P|]. split; [done|]. split; [done|]. rewrite Hp. apply H.
Qed.

(** *** Adding *)

(** Stream data is only sent when it is encrypted for the peer alone. *)
Definition too_early (s : t) (f : QuicFrame) : bool :=
  match f with
  | StreamFrame f => negb (IsCryptoStreamId (transport_version s) (stream_id f))
      && (bool_decide (encryption_level (packet_ s) = ENCRYPTION_INITIAL) || bool_decide (encryption_level (packet_ s) = ENCRYPTION_HANDSHAKE))
  | _ => false
  end.
Definition may_add (s : t) (f : QuicFrame) : Prop :=
  frame_ok (frames s) f ∧ ack_fits s f
  ∧ match f with StreamFrame _ => encryption_level (packet_ s) ≠ ENCRYPTION_INITIAL ∧ encryption_level (packet_ s) ≠ ENCRYPTION_HANDSHAKE | _ => True end.

Lemma may_add_same s s' f : same_setup s s' → may_add s f → may_add s' f.
Proof.
  intros H. pose proof (same_header_size s s' H) as Hh. destruct H. unfold may_add, ack_fits. by rewrite same_frames0, same_level0, same_max_plaintext0, Hh.
Qed.
Lemma may_add_not_early s f : may_add s f → too_early s f = false.
Proof.
  intros (_&_&Hl). unfold too_early. destruct f; try done. destruct Hl as [H1 H2]. by rewrite (bool_decide_false _ H1), (bool_decide_false _ H2), andb_false_r.
Qed.

(** [AddFrame]: the frame is added, or the open packet is flushed without it. *)
Lemma AddFrame_outcome f type s : ready s → NextSendingPacketNumber s < 2 ^ 62 → opened s →
  frame_ok (frames s) f → (queued_frames_ s = [] → ack_fits s f) → too_early s f = false →
  let '(ok, s') := AddFrame f true type s in
  ∃ packets, progress s s' (if ok then [f] else []) packets ∧ zlen packets <= 1 ∧ pending_padding_bytes_ s' <= pending_padding_bytes_ s
    ∧ ok = (zlen (frame_bytes (frames s) f true) <=? room s) ∧ (if ok then packets = [] else queued_frames_ s' = []).
Proof.
  intros R Hn O Hf Ha Hu. unfold AddFrame. cbv zeta. fold (too_early s f).
  rewrite Hu. rewrite (TryAddFrame_spec f true type s R O Hf Ha). destruct (Z.leb_spec (zlen (frame_bytes (frames s) f true)) (room s)) as [Hle|Hgt].
  - destruct (placed_opened f type s R O Hf Hle) as (K&O'&Hq). exists []. split; [by apply progress_kept|]. split; [done|]. split; [|done]. by rewrite (kept_pending _ _ K).
  - pose proof (sized_kept s) as K. assert (R' : ready (sized s)) by (by apply (kept_ready s)).
    assert (Hn' : NextSendingPacketNumber (sized s) = NextSendingPacketNumber s) by (unfold NextSendingPacketNumber; by rewrite (kept_number s _ K)).
    destruct (Flush_spec (sized s) R' ltac:(lia) (sized_opened s O)) as (packets&P&Hlen&Hq&Hp). exists packets.
    split; [|split; [done|split; [by rewrite <-(kept_pending s _ K)|done]]]. change (@nil QuicFrame) with (@nil QuicFrame ++ []). change packets with ([] ++ packets).
    apply (progress_trans s (sized s)); [|done]. apply alike_kept; [done|done|apply sized_queue|by apply sized_opened].
Qed.

Lemma AddFrame_spec f type s : ready s → NextSendingPacketNumber s < 2 ^ 62 → opened s → may_add s f →
  let '(ok, s') := AddFrame f true type s in
  ∃ packets, progress s s' (if ok then [f] else []) packets ∧ zlen packets <= 1 ∧ pending_padding_bytes_ s' <= pending_padding_bytes_ s
    ∧ ok = (zlen (frame_bytes (frames s) f true) <=? room s) ∧ (if ok then packets = [] else queued_frames_ s' = []).
Proof. intros R Hn O Hm. apply AddFrame_outcome; [done..|apply Hm|intros _; apply Hm|by apply may_add_not_early]. Qed.

Lemma empty_room s : ready s → queued_frames_ s = [] → room s = max_plaintext_size_ s - PacketHeaderSize s.
Proof.
  intros R E. pose proof (ready_room s R). unfold room, current, expansion. rewrite E. cbn [IetfFramer.frames_bytes last]. rewrite (@zlen_nil Z). lia.
Qed.

(** *** An ACK frame that is too large for any packet *)

(** It was announced as cut, and cannot be written: the creator is stuck with it. *)
Record jammed (f : QuicFrame) (s : t) : Prop := {
  jam_ready : ready s;
  jam_ack : is_ack f = true;
  jam_frame : frame_ok (frames s) f;
  jam_large : max_plaintext_size_ s - PacketHeaderSize s < zlen (frame_bytes (frames s) f true);
  jam_queue : queued_frames_ s = [f];
  jam_size : packet_size_ s = max_plaintext_size_ s;
  jam_buffer : encrypted_buffer (packet_ s) = None;
}.

Lemma ready_frame_size s f : ready s → frame_ok (frames s) f →
  ComputeFrameLength (transport_version s) (process_timestamps s) f true (GetPacketNumberLength s) = zlen (frame_bytes (frames s) f true).
Proof.
  intros R Hf. symmetry. pose proof (version_99_facts s R) as (_&Hv&_).
  apply (ietf_frame_size stream_data crypto_data (transport_version s)); [done|by rewrite (ready_version _ R); apply R|apply Hf..].
Qed.

(** The first frame of a packet, it is accepted. *)
Lemma oversized_ack_jams f type s : ready s → opened s → frame_ok (frames s) f → queued_frames_ s = [] → ¬ ack_fits s f →
  let '(ok, s') := AddFrame f true type s in
  ok = true ∧ jammed f s' ∧ kept s s' ∧ queued_frames_ s' = [f].
Proof.
  intros R O Hf Hq Hbig. assert (Hack : ∃ a, f = AckFrame a) by (destruct f; try (exfalso; by apply Hbig); by eexists). destruct Hack as (a&Ha).
  unfold AddFrame. cbv zeta. fold (too_early s f). assert (Hu : too_early s f = false) by (by rewrite Ha). rewrite Hu.
  unfold TryAddFrame. rewrite (BytesFree_spec s R O). pose proof (sized_kept s) as K. pose proof (kept_ready s (sized s) K R) as R'.
  pose proof (same_frames s (sized s) (kept_setup _ _ K)) as Ef. pose proof (empty_room s R Hq) as Hroom. pose proof (ready_room s R) as Hr.
  assert (Hlen : zlen (frame_bytes (frames s) f true) > room s) by (rewrite Hroom; rewrite Ha in *; cbn [ack_fits] in Hbig; lia).
  assert (Hsize : GetSerializedFrameLength (transport_version (sized s)) (process_timestamps (sized s)) f (room s) (negb (HasPendingFrames (sized s))) true (GetPacketNumberLength (sized s)) = room s).
  { rewrite (serialized_length _ _ f) by apply Hf. rewrite (ready_frame_size (sized s) f R') by (by rewrite Ef). rewrite Ef.
    destruct (Z.leb_spec (zlen (frame_bytes (frames s) f true)) (room s)); [lia|]. unfold HasPendingFrames. rewrite sized_queue, Hq. rewrite Ha.
    rewrite bool_decide_true by done. cbn [negb andb].
    assert (Emin : GetMinAckFrameSize (transport_version (sized s)) PACKET_6BYTE_PACKET_NUMBER = 5).
    { unfold GetMinAckFrameSize. by destruct (version_99_facts (sized s) R') as (_&->&_). }
    rewrite Emin.
    destruct (Z.leb_spec 5 (room s)); [done|lia]. }
  rewrite Hsize. destruct (Z.eqb_spec (room s) 0); [lia|].
  destruct (PlaceFrame_spec f true type (room s) (sized s)) as (K2&Hq2&Hs2&_). set (s' := PlaceFrame f true type (room s) (sized s)) in *.
  pose proof (kept_trans _ _ _ K K2) as K3. pose proof (kept_setup _ _ K3) as E3. rewrite sized_queue, Hq in Hq2.
  split; [done|]. split; [|done]. split; [by apply (kept_ready s)|by rewrite Ha| | |done| |].
  - by rewrite (same_frames _ _ E3).
  - rewrite (same_frames _ _ E3), (same_header_size _ _ E3), (same_max_plaintext _ _ E3). lia.
  - rewrite Hs2, (sized_size s O), (expansion_spec _ R'), (same_max_plaintext _ _ E3), Hroom. unfold expansion, current. rewrite sized_queue, Hq.
    cbn [last IetfFramer.frames_bytes]. rewrite (@zlen_nil Z). lia.
  - rewrite (kept_buffer _ _ K3). apply O.
Qed.

(** What cannot be written is not built. *)
Lemma build_too_large (framer : QuicFramer) e h f packet_length :
  let c := Packets.headers framer in
  PacketHeaders.transport c = QUIC_VERSION_99 → PacketHeaders.sendable c h → frame_ok (Packets.ietf_frames framer) f →
  zlen (PacketHeaders.header_bytes c h) <= Z.of_nat packet_length < zlen (PacketHeaders.header_bytes c h) + zlen (frame_bytes (Packets.ietf_frames framer) f true) →
  Packets.BuildDataPacket h [f] packet_length e framer = (None, Packets.set_headers (PacketHeaders.after_header c h) framer).
Proof.
  intros c Hv Hs Hf Hlen. unfold Packets.BuildDataPacket. set (w0 := Writer.new packet_length NETWORK_BYTE_ORDER).
  assert (Hr0 : Writer.remaining w0 = Z.of_nat packet_length).
  { unfold Writer.remaining, Writer.capacity, w0, Writer.new, zlen. cbn. rewrite length_replicate. lia. }
  destruct (PacketHeaders.appends_PacketHeader c h Hs w0 0 (WriterSpec.writer_new_wf _ _) eq_refl ltac:(lia)) as (w1&E1&Hw1&He1&Hc1&Hwr1&Hl1).
  fold c. rewrite E1. cbn [negb PacketHeaders.sender]. set (s1 := Packets.set_headers _ framer).
  assert (Hv1 : Packets.transport_version_of s1 = QUIC_VERSION_99).
  { change (PacketHeaders.transport (PacketHeaders.after_header c h) = QUIC_VERSION_99). unfold PacketHeaders.transport. by rewrite Packets.after_header_version. }
  rewrite Hv1. change (VersionHasIetfQuicFrames QUIC_VERSION_99) with true. cbv iota. cbn [PacketHeaders.writer PacketHeaders.length_field_offset].
  change (Packets.ietf_frames s1) with (Packets.ietf_frames framer). unfold IetfFramer.AppendIetfFrames. cbn [IetfFramer.append_frames IetfFramer.is_last].
  pose proof (IetfFramer.emits_frame stream_data crypto_data (Packets.ietf_frames framer) f true (frame_good _ f Hf) w1 Hw1 He1) as H.
  unfold Writer.andthen. destruct (IetfFramer.append_frame (Packets.ietf_frames framer) f true w1) as [ok w2]. destruct H as (_&_&_&_&Hok&_).
  assert (ok = false) as -> by (rewrite Hok; unfold Writer.remaining in *; lia). done.
Qed.

(** A creator that is stuck stays so: what is added is refused, and every attempt to send the packet is an error. *)
Lemma jammed_same f s s' : same_setup s s' → ready s' → queued_frames_ s' = queued_frames_ s → packet_size_ s' = packet_size_ s →
  encrypted_buffer (packet_ s') = encrypted_buffer (packet_ s) → jammed f s → jammed f s'.
Proof.
  intros E R' Hq Hp Hb [R Ha Hf Hl Hq0 Hp0 Hb0]. split; [done|done|by rewrite (same_frames _ _ E)| |congruence| |congruence].
  - by rewrite (same_frames _ _ E), (same_header_size _ _ E), (same_max_plaintext _ _ E).
  - rewrite (same_max_plaintext _ _ E). congruence.
Qed.

Lemma jammed_full f s : jammed f s → BytesFree s = (0, s).
Proof.
  intros []. unfold BytesFree, PacketSize. rewrite jam_queue0, jam_size0. rewrite (expansion_spec s) by done. unfold expansion. rewrite jam_queue0. cbn [last].
  rewrite Z.min_l; [f_equal; lia|]. destruct f; try discriminate. cbn. lia.
Qed.

Lemma Flush_jammed f s : jammed f s → NextSendingPacketNumber s < 2 ^ 62 →
  let s' := Flush s in
  jammed f s' ∧ same_setup s s' ∧ calls s' = calls s ++ [OnUnrecoverableError QUIC_FAILED_TO_SERIALIZE_PACKET]
  ∧ NextSendingPacketNumber s' = NextSendingPacketNumber s + 1.
Proof.
  intros J Hn s'. pose proof J as [R Ha Hf Hl Hq Hp Hb]. pose proof (next_number s R) as [_ Hpos].
  assert (E1 : same_setup s (numbered s)) by (by split).
  assert (R1 : ready (numbered s)).
  { apply (ready_same s _ E1); [|done]. intros _. change (packet_number (packet_ (numbered s))) with (NextSendingPacketNumber s). lia. }
  assert (J1 : jammed f (numbered s)) by (by apply (jammed_same f s)).
  set (s1 := set_framer (Packets.set_headers (PacketHeaders.after_header (header_framer s) (header s)) (framer_ s)) (numbered s)).
  assert (E : SerializePacket kMaxOutgoingPacketSize s = s1).
  { unfold SerializePacket. change (FillPacketHeader s) with (header s, numbered s). cbv iota beta. unfold MaybeAddPadding. rewrite (jammed_full f _ J1).
    change (0 =? 0) with true. cbv iota. destruct (ready_encrypters s R (encryption_level (packet_ s))) as (e&He&_).
    change (Packets.encrypter_ (framer_ (numbered s)) (encryption_level (packet_ (numbered s)))) with (Packets.encrypter_ (framer_ s) (encryption_level (packet_ s))). rewrite He.
    change (queued_frames_ (numbered s)) with (queued_frames_ s). change (packet_size_ (numbered s)) with (packet_size_ s). change (framer_ (numbered s)) with (framer_ s).
    pose proof (ready_room s R). destruct (header_size s R) as [_ Hh]. pose proof (header_ok s R) as Hok. destruct (plaintext_below s R).
    rewrite Hq, Hp, (build_too_large (framer_ s) e (header s) f) by (apply Hok || exact Hf || (rewrite Z2Nat.id by lia; unfold header_framer in Hh; rewrite Hh; unfold frames in Hl; lia)).
    done. }
  assert (Es : s' = tell (OnUnrecoverableError QUIC_FAILED_TO_SERIALIZE_PACKET) s1).
  { unfold s', Flush, HasPendingFrames. rewrite Hq. cbn [length]. rewrite bool_decide_false by done. cbn [negb andb]. rewrite E. unfold OnSerializedPacket.
    change (encrypted_buffer (packet_ s1)) with (encrypted_buffer (packet_ s)). by rewrite Hb. }
  rewrite Es. assert (E2 : same_setup s (tell (OnUnrecoverableError QUIC_FAILED_TO_SERIALIZE_PACKET) s1)).
  { destruct (after_sealing s R). split; done. }
  split; [|split; [done|split; [done|]]].
  - apply (jammed_same f s); [done| |done|done|done|done]. apply (ready_same s _ E2); [|done]. intros _.
    change (packet_number (packet_ (tell (OnUnrecoverableError QUIC_FAILED_TO_SERIALIZE_PACKET) s1))) with (NextSendingPacketNumber s). lia.
  - unfold NextSendingPacketNumber at 1. change (packet_number (packet_ (tell (OnUnrecoverableError QUIC_FAILED_TO_SERIALIZE_PACKET) s1))) with (NextSendingPacketNumber s).
    unfold PacketNumber.IsInitialized, PacketNumber.UninitializedPacketNumber, PacketNumber.add.
    destruct (Z.eqb_spec (NextSendingPacketNumber s) (two64 - 1)); [unfold two64 in *; lia|]. cbn [negb]. apply wrap64_small. unfold two63. lia.
Qed.

(** *** Histories *)

(** What is done to a creator between changes of its settings. *)
Inductive op :=
  | Add (f : QuicFrame) (type : TransmissionType)
  | AddPadded (f : QuicFrame) (type : TransmissionType)
  | FlushOpen
  | Pad (size : Z)
  | MarkAs (type : TransmissionType).
(** The frame that is accepted, if any, and the creator afterwards. *)
Definition step (o : op) (s : t) : list QuicFrame * t :=
  match o with
  | Add f type => let '(ok, s) := AddSavedFrame f type s in (if ok then [f] else [], s)
  | AddPadded f type => let '(ok, s) := AddPaddedSavedFrame f type s in (if ok then [f] else [], s)
  | FlushOpen => ([], Flush s)
  | Pad size => ([], AddPendingPadding size s)
  | MarkAs type => ([], SetTransmissionType type s)
  end.
Fixpoint run (ops : list op) (s : t) : list QuicFrame * t :=
  match ops with
  | [] => ([], s)
  | o :: ops => let '(accepted, s) := step o s in let '(more, s) := run ops s in (accepted ++ more, s)
  end.
Definition pads (o : op) : Z := match o with Pad size => size | _ => 0 end.
Definition all_pads (ops : list op) : Z := foldr (λ o n, pads o + n) 0 ops.
Definition op_ok (s : t) (o : op) : Prop :=
  match o with Add f _ | AddPadded f _ => frame_ok (frames s) f | Pad size => 0 <= size | _ => True end.

Lemma op_ok_same s s' o : same_setup s s' → op_ok s o → op_ok s' o.
Proof. intros []. destruct o; try done; cbn [op_ok]; by rewrite same_frames0. Qed.
Lemma ack_fits_same s s' f : same_setup s s' → ack_fits s' f ↔ ack_fits s f.
Proof. intros H. pose proof (same_header_size s s' H) as Hh. destruct H. destruct f; try done; cbn [ack_fits]; by rewrite same_frames0, same_max_plaintext0, Hh. Qed.
Lemma ack_fits_dec s f : {ack_fits s f} + {¬ ack_fits s f}.
Proof. destruct f; cbn [ack_fits]; try (left; exact I). apply (decide _). Qed.
Lemma too_early_same s s' f : same_setup s s' → too_early s' f = too_early s f.
Proof. intros H. unfold too_early. destruct f; try done. by rewrite (same_transport s s' H), (same_level s s' H). Qed.

(** What the delegate is told: the packets, and the errors. Stream data that is added too early is an error every time. *)
Definition sent_in (log : list call) : list SerializedPacket := omap (λ c, match c with OnSerializedPacketCall p => Some p | _ => None end) log.
Definition errors_in (log : list call) : list QuicErrorCode := omap (λ c, match c with OnUnrecoverableError e => Some e | _ => None end) log.
Definition early_error (s : t) (f : QuicFrame) : list QuicErrorCode := if too_early s f then [QUIC_ATTEMPT_TO_SEND_UNENCRYPTED_STREAM_DATA] else [].
Definition early_errors (s : t) (ops : list op) : list QuicErrorCode :=
  concat (map (λ o, match o with Add f _ | AddPadded f _ => early_error s f | _ => [] end) ops).

Lemma opened_full s x : opened s → opened (set_needs_full_padding x s).
Proof. by intros []. Qed.

Lemma Pad_progress n s : ready s → opened s → 0 <= n → pending_padding_bytes_ s + n < 32768 →
  progress s (AddPendingPadding n s) [] [] ∧ pending_padding_bytes_ (AddPendingPadding n s) = pending_padding_bytes_ s + n.
Proof.
  intros R O Hn Hp. pose proof (opened_pending s O) as Hpend.
  assert (Hsum : pending_padding_bytes_ (AddPendingPadding n s) = pending_padding_bytes_ s + n).
  { unfold AddPendingPadding. cbn. apply wrap64_small. unfold two63. lia. }
  split; [|done]. assert (O' : opened (AddPendingPadding n s)). { destruct O. split; try done. lia. }
  split; [by split|apply (ready_same s); [by split|apply R|done]|done|cbn; by rewrite app_nil_r|cbn; by rewrite app_nil_r|done| |constructor].
  unfold NextSendingPacketNumber. cbn. rewrite (@zlen_nil (list QuicFrame * SerializedPacket)). lia.
Qed.

(** What was told between two states, and what was sent in it. *)
Record history (s s' : t) (accepted : list QuicFrame) (packets : list (list QuicFrame * SerializedPacket)) (errors : list QuicErrorCode) : Prop := {
  history_log : ∃ log, calls s' = calls s ++ log ∧ sent_in log = map snd packets ∧ errors_in log = errors;
  history_frames : concat (map fst packets) ++ queued_frames_ s' = queued_frames_ s ++ accepted;
  history_numbers : map (λ x, packet_number x.2) packets = seqZ (NextSendingPacketNumber s) (zlen packets);
  history_sent : Forall (λ x, sent s x.1 x.2) packets;
}.

Lemma history_trans s1 s2 s3 a1 a2 p1 p2 e1 e2 : same_setup s1 s2 → NextSendingPacketNumber s2 = NextSendingPacketNumber s1 + zlen p1 ∨ p2 = [] →
  history s1 s2 a1 p1 e1 → history s2 s3 a2 p2 e2 → history s1 s3 (a1 ++ a2) (p1 ++ p2) (e1 ++ e2).
Proof.
  intros E Hn [(l1&C1&S1&E1) F1 N1 P1] [(l2&C2&S2&E2) F2 N2 P2]. split.
  - exists (l1 ++ l2). unfold sent_in, errors_in. rewrite !omap_app, map_app. fold (sent_in l1) (sent_in l2) (errors_in l1) (errors_in l2). split; [by rewrite C2, C1, app_assoc|].
    by rewrite S1, S2, E1, E2.
  - by rewrite map_app, concat_app, <-app_assoc, F2, app_assoc, F1, <-app_assoc.
  - destruct Hn as [Hn| ->]; [|by rewrite !app_nil_r]. rewrite map_app, zlen_app, seqZ_app by apply zlen_nonneg. by rewrite N1, N2, Hn.
  - apply Forall_app. split; [done|]. eapply Forall_impl; [done|]. intros [fs p] H. by apply (sent_same s1 s2).
Qed.

Lemma progress_history s s' a ps : progress s s' a ps → history s s' a ps [].
Proof.
  intros []. split; [|done..]. exists (map (λ x, OnSerializedPacketCall x.2) ps). split; [done|]. clear. unfold sent_in, errors_in.
  induction ps as [|x ps [IH1 IH2]]; [done|]. cbn. by rewrite IH1, IH2.
Qed.

Lemma history_errors s s' a errors : calls s' = calls s ++ map OnUnrecoverableError errors → queued_frames_ s' = queued_frames_ s ++ a → history s s' a [] errors.
Proof.
  intros Hc Hq. split; [|done|done|constructor]. exists (map OnUnrecoverableError errors). split; [done|]. clear. unfold sent_in, errors_in.
  induction errors as [|e errors [IH1 IH2]]; [done|]. cbn. by rewrite IH1, IH2.
Qed.

(** A creator goes on, after everything that is not an ACK frame larger than a packet. *)
Record going (s s' : t) (accepted : list QuicFrame) (packets : list (list QuicFrame * SerializedPacket)) (pads : Z) : Prop := {
  going_fits : Forall (ack_fits s) accepted;
  going_ready : ready s';
  going_opened : opened s';
  going_next : NextSendingPacketNumber s' = NextSendingPacketNumber s + zlen packets;
  going_pending : pending_padding_bytes_ s' <= pending_padding_bytes_ s + pads;
}.
Definition stuck (s s' : t) (accepted : list QuicFrame) : Prop := ∃ f, last accepted = Some f ∧ ¬ ack_fits s f ∧ jammed f s'.

Lemma progress_going s s' a ps n : progress s s' a ps → Forall (ack_fits s) a → pending_padding_bytes_ s' <= pending_padding_bytes_ s + n → going s s' a ps n.
Proof. intros []. by split. Qed.

(** A frame that has room behind others has room in an empty packet. *)
Lemma room_fits s f : ready s → zlen (frame_bytes (frames s) f true) <= room s → ack_fits s f.
Proof.
  intros R H. destruct f; try exact I. cbn [ack_fits]. pose proof (ready_room s R). unfold room, current, expansion in H.
  pose proof (zlen_nonneg (frames_bytes (frames s) (queued_frames_ s))). assert (0 <= match last (queued_frames_ s) with Some f => grows f | None => 0 end).
  { destruct (last _) as [[]|]; cbn [grows]; try done; unfold Writer.GetVarInt62Len; repeat case_match; done. }
  lia.
Qed.

Lemma AddFrame_goes f type s : ready s → NextSendingPacketNumber s < 2 ^ 62 → opened s → frame_ok (frames s) f →
  let '(ok, s') := AddFrame f true type s in
  let accepted := if ok then [f] else [] in
  ∃ packets, history s s' accepted packets (early_error s f) ∧ same_setup s s' ∧ zlen packets <= 1
    ∧ (going s s' accepted packets 0 ∨ packets = [] ∧ NextSendingPacketNumber s' = NextSendingPacketNumber s ∧ stuck s s' accepted).
Proof.
  intros R Hn O Hf. unfold early_error. destruct (too_early s f) eqn:Hearly.
  { unfold AddFrame. cbv zeta. fold (too_early s f). rewrite Hearly. set (s' := tell _ s). exists []. assert (E : same_setup s s') by (by split).
    split; [apply history_errors; [done|by rewrite app_nil_r]|]. split; [done|]. split; [done|left]. split; [constructor| | | |].
    - apply (ready_same s s' E); [apply R|done].
    - by destruct O.
    - unfold NextSendingPacketNumber. cbn. rewrite (@zlen_nil (list QuicFrame * SerializedPacket)). lia.
    - cbn. lia. }
  destruct (decide (queued_frames_ s = [])) as [Hq|Hq]; [destruct (ack_fits_dec s f) as [Ha|Ha]|].
  2: { pose proof (oversized_ack_jams f type s R O Hf Hq Ha) as H. destruct (AddFrame f true type s) as [ok s']. destruct H as (->&J&K&Hq'). exists [].
    split; [|split; [apply K|split; [done|right; split; [done|split; [unfold NextSendingPacketNumber; by rewrite (kept_number _ _ K)|by exists f]]]]].
    apply history_errors; [cbn; by rewrite app_nil_r, (kept_calls _ _ K)|by rewrite Hq', Hq]. }
  all: assert (Ha' : queued_frames_ s = [] → ack_fits s f) by done.
  all: pose proof (AddFrame_outcome f type s R Hn O Hf Ha' Hearly) as H; destruct (AddFrame f true type s) as [ok s']; destruct H as (packets&P&Hl&Hpend&Hok&_).
  all: exists packets; split; [by apply progress_history|]; split; [apply P|]; split; [done|left]; apply progress_going; [done| |lia].
  all: destruct ok; constructor; [|constructor]; apply room_fits; [done|lia].
Qed.

Lemma step_goes o s : ready s → opened s → NextSendingPacketNumber s < 2 ^ 62 → op_ok s o → pending_padding_bytes_ s + pads o < 32768 →
  let '(accepted, s') := step o s in
  ∃ packets, history s s' accepted packets (early_errors s [o]) ∧ same_setup s s' ∧ zlen packets <= 1
    ∧ (going s s' accepted packets (pads o) ∨ packets = [] ∧ NextSendingPacketNumber s' = NextSendingPacketNumber s ∧ stuck s s' accepted).
Proof.
  intros R O Hn Ho Hp. assert (Hgo : ∀ s' ps, progress s s' [] ps → zlen ps <= 1 → pending_padding_bytes_ s' <= pending_padding_bytes_ s + pads o → early_errors s [o] = [] →
    ∃ packets, history s s' [] packets (early_errors s [o]) ∧ same_setup s s' ∧ zlen packets <= 1 ∧ (going s s' [] packets (pads o) ∨ packets = [] ∧ NextSendingPacketNumber s' = NextSendingPacketNumber s ∧ stuck s s' [])).
  { intros s' ps P Hl Hpe ->. exists ps. split; [by apply progress_history|]. split; [apply P|]. split; [done|left]. by apply progress_going. }
  destruct o as [f type|f type| |size|type]; cbn [step pads op_ok] in *.
  - pose proof (AddFrame_goes f type s R Hn O Ho) as H. unfold AddSavedFrame. destruct (AddFrame f true type s) as [ok s']. unfold early_errors. cbn [map concat]. by rewrite app_nil_r.
  - pose proof (AddFrame_goes f type s R Hn O Ho) as H. unfold AddPaddedSavedFrame. destruct (AddFrame f true type s) as [ok s']. unfold early_errors. cbn [map concat]. rewrite app_nil_r.
    destruct ok; [|done]. destruct H as (packets&H&E&Hl&Hg). exists packets.
    assert (E' : same_setup s' (set_needs_full_padding true s')) by (by split). assert (E2 : same_setup s (set_needs_full_padding true s')) by (by transitivity s').
    split; [by destruct H|]. split; [done|]. split; [done|]. destruct Hg as [[]|(->&Hnext&g&Hg&Hbig&J)].
    + left. split; [done| |by apply opened_full|done|done]. by apply (ready_same s' _ E'); [apply going_ready0|].
    + right. split; [done|]. split; [exact Hnext|]. exists g. split; [done|]. split; [done|]. pose proof J as [Rj _]. apply (jammed_same g s'); try done. by apply (ready_same s' _ E'); [apply Rj|].
  - destruct (Flush_spec s R Hn O) as (packets&P&Hl&_&Hpe). apply (Hgo _ packets); [done|done|cbn [pads]; rewrite Z.add_0_r; exact Hpe|done].
  - destruct (Pad_progress size s R O Ho Hp) as [P Hpe]. apply (Hgo _ []); [done|done|cbn [pads]; rewrite Hpe; lia|done].
  - apply (Hgo _ []); [|done|unfold SetTransmissionType; destruct (negb _); cbn; lia|done]. unfold SetTransmissionType. destruct (negb _).
    + apply alike_kept; [done|by split|done|]. destruct O as [? ? [] ? ?]. split; done.
    + by apply alike_kept; [|split|..].
Qed.

(** Nothing more is accepted by a creator that is stuck, and all it tells are errors. *)
Lemma step_jammed f o s : jammed f s → NextSendingPacketNumber s < 2 ^ 62 → op_ok s o →
  let '(accepted, s') := step o s in
  accepted = [] ∧ jammed f s' ∧ same_setup s s' ∧ NextSendingPacketNumber s' <= NextSendingPacketNumber s + 1
  ∧ ∃ errors, calls s' = calls s ++ map OnUnrecoverableError errors ∧ filter (.≠ QUIC_FAILED_TO_SERIALIZE_PACKET) errors = early_errors s [o].
Proof.
  intros J Hn Ho. pose proof J as [R _]. destruct (Flush_jammed f s J Hn) as (JF&EF&CF&NF).
  assert (Hadd : ∀ g type, frame_ok (frames s) g → let '(ok, s') := AddFrame g true type s in ok = false ∧ jammed f s' ∧ same_setup s s' ∧ NextSendingPacketNumber s' <= NextSendingPacketNumber s + 1
    ∧ ∃ errors, calls s' = calls s ++ map OnUnrecoverableError errors ∧ filter (.≠ QUIC_FAILED_TO_SERIALIZE_PACKET) errors = early_error s g ++ []).
  { intros g type Hg. unfold AddFrame, early_error. cbv zeta. fold (too_early s g). destruct (too_early s g).
    - set (s' := tell _ s). assert (E : same_setup s s') by (by split). split; [done|]. split; [apply (jammed_same f s); try done; by apply (ready_same s s' E); [apply R|]|].
      split; [done|]. split; [change (NextSendingPacketNumber s') with (NextSendingPacketNumber s); lia|]. by exists [QUIC_ATTEMPT_TO_SEND_UNENCRYPTED_STREAM_DATA].
    - unfold TryAddFrame. rewrite (jammed_full f s J). rewrite (serialized_length _ _ g) by apply Hg. rewrite (ready_frame_size s g R Hg). pose proof (frame_bytes_pos (frames s) g true).
      destruct (Z.leb_spec (zlen (frame_bytes (frames s) g true)) 0); [lia|]. unfold HasPendingFrames. rewrite (jam_queue f s J). cbn [length]. rewrite bool_decide_false by done.
      cbn [negb andb Z.eqb]. split; [done|]. split; [done|]. split; [done|]. split; [lia|]. by exists [QUIC_FAILED_TO_SERIALIZE_PACKET]. }
  assert (Hsame : ∀ s', same_setup s s' → ready s' → queued_frames_ s' = queued_frames_ s → packet_size_ s' = packet_size_ s →
    encrypted_buffer (packet_ s') = encrypted_buffer (packet_ s) → calls s' = calls s → NextSendingPacketNumber s' = NextSendingPacketNumber s →
    jammed f s' ∧ same_setup s s' ∧ NextSendingPacketNumber s' <= NextSendingPacketNumber s + 1
    ∧ ∃ errors, calls s' = calls s ++ map OnUnrecoverableError errors ∧ filter (.≠ QUIC_FAILED_TO_SERIALIZE_PACKET) errors = []).
  { intros s' E R' H1 H2 H3 H4 H5. split; [by apply (jammed_same f s)|]. split; [done|]. split; [lia|]. exists []. cbn. by rewrite app_nil_r. }
  destruct o as [g type|g type| |size|type]; cbn [step op_ok] in *; unfold early_errors; cbn [map concat].
  - specialize (Hadd g type Ho). unfold AddSavedFrame. destruct (AddFrame g true type s) as [ok s']. by destruct Hadd as (->&H).
  - specialize (Hadd g type Ho). unfold AddPaddedSavedFrame. destruct (AddFrame g true type s) as [ok s']. by destruct Hadd as (->&H).
  - split; [done|]. split; [done|]. split; [done|]. split; [lia|]. by exists [QUIC_FAILED_TO_SERIALIZE_PACKET].
  - split; [done|]. assert (E : same_setup s (AddPendingPadding size s)) by (by split). apply Hsame; try done. by apply (ready_same s _ E); [apply R|].
  - split; [done|]. unfold SetTransmissionType. destruct (negb _); [|by apply Hsame]. set (s' := change_packet _ s). assert (E : same_setup s s') by (by split).
    apply Hsame; try done. by apply (ready_same s _ E); [apply R|].
Qed.

Lemma early_errors_same s s' ops : same_setup s s' → early_errors s' ops = early_errors s ops.
Proof.
  intros E. unfold early_errors. f_equal. apply map_ext. intros []; try done; unfold early_error; by rewrite (too_early_same s s').
Qed.
Lemma early_errors_cons s o ops : early_errors s (o :: ops) = early_errors s [o] ++ early_errors s ops.
Proof. unfold early_errors. cbn [map concat]. by rewrite app_nil_r. Qed.
Lemma early_not_failed s ops : filter (.≠ QUIC_FAILED_TO_SERIALIZE_PACKET) (early_errors s ops) = early_errors s ops.
Proof.
  unfold early_errors. induction ops as [|o ops IH]; [done|]. cbn [map concat]. rewrite filter_app, IH. f_equal.
  destruct o; try done; unfold early_error; by destruct (too_early s _).
Qed.

Lemma run_jammed f ops s : jammed f s → NextSendingPacketNumber s + zlen ops <= 2 ^ 62 → Forall (op_ok s) ops →
  let '(accepted, s') := run ops s in
  accepted = [] ∧ jammed f s' ∧ NextSendingPacketNumber s' <= NextSendingPacketNumber s + zlen ops
  ∧ ∃ errors, calls s' = calls s ++ map OnUnrecoverableError errors ∧ filter (.≠ QUIC_FAILED_TO_SERIALIZE_PACKET) errors = early_errors s ops.
Proof.
  revert s. induction ops as [|o ops IH]; intros s J Hn Ho.
  - cbn [run]. split; [done|]. split; [done|]. split; [rewrite (@zlen_nil op); lia|]. exists []. cbn. by rewrite app_nil_r.
  - rewrite zlen_cons in *. pose proof (zlen_nonneg ops). apply Forall_cons in Ho as [Ho Hos]. pose proof (step_jammed f o s J ltac:(lia) Ho) as H1. cbn [run].
    destruct (step o s) as [a1 s1]. destruct H1 as (->&J1&E&N1&e1&C1&F1). specialize (IH s1 J1 ltac:(lia)). destruct (run ops s1) as [a2 s2].
    destruct IH as (->&J2&N2&e2&C2&F2). { eapply Forall_impl; [exact Hos|]. intros o'. by apply op_ok_same. }
    split; [done|]. split; [done|]. split; [lia|]. exists (e1 ++ e2). rewrite C2, C1, map_app, app_assoc. split; [done|].
    by rewrite filter_app, F1, F2, (early_errors_same s s1) by done; rewrite <-early_errors_cons.
Qed.

Lemma going_trans s1 s2 s3 a1 a2 p1 p2 n1 n2 : same_setup s1 s2 → going s1 s2 a1 p1 n1 → going s2 s3 a2 p2 n2 → going s1 s3 (a1 ++ a2) (p1 ++ p2) (n1 + n2).
Proof.
  intros E [] []. split; [|done|done|rewrite zlen_app; lia|lia]. apply Forall_app. split; [done|]. eapply Forall_impl; [done|]. intros f. by apply (ack_fits_same s1 s2).
Qed.

Lemma all_pads_pos s ops : Forall (op_ok s) ops → 0 <= all_pads ops.
Proof. intros H. induction H as [|o ops Ho Hos IH]; [done|]. cbn [all_pads foldr]. fold (all_pads ops). destruct o; cbn [pads op_ok] in *; lia. Qed.

(** Either the creator has gone on all the time, or it is stuck with the last frame it accepted. *)
Lemma run_goes ops s : ready s → opened s → NextSendingPacketNumber s + zlen ops <= 2 ^ 62 → Forall (op_ok s) ops →
  pending_padding_bytes_ s + all_pads ops < 32768 →
  let '(accepted, s') := run ops s in
  ∃ packets errors, history s s' accepted packets errors ∧ NextSendingPacketNumber s' <= NextSendingPacketNumber s + zlen ops
    ∧ (errors = early_errors s ops ∧ going s s' accepted packets (all_pads ops)
      ∨ filter (.≠ QUIC_FAILED_TO_SERIALIZE_PACKET) errors = early_errors s ops ∧ stuck s s' accepted).
Proof.
  revert s. induction ops as [|o ops IH]; intros s R O Hn Ho Hp.
  - exists [], []. cbn [run]. split; [|split; [rewrite (@zlen_nil op); lia|left; split; [done|]]].
    + apply (progress_history s s [] []). by apply alike_kept; [|split|..].
    + split; [apply Forall_nil; exact I|done|done|rewrite (@zlen_nil (list QuicFrame * SerializedPacket)); lia|cbn; lia].
  - rewrite zlen_cons in *. pose proof (zlen_nonneg ops). apply Forall_cons in Ho as [Ho Hos]. pose proof (all_pads_pos s ops Hos).
    cbn [all_pads foldr] in *. fold (all_pads ops) in *. pose proof (step_goes o s R O ltac:(lia) Ho ltac:(lia)) as H1. cbn [run].
    destruct (step o s) as [a1 s1]. destruct H1 as (p1&H1&E&L1&Hg). assert (Hos1 : Forall (op_ok s1) ops) by (eapply Forall_impl; [exact Hos|]; intros o'; by apply op_ok_same).
    rewrite early_errors_cons. rewrite <-(early_errors_same s s1 ops E). destruct Hg as [G|(->&Hnext&f&Hf&Hbig&J)].
    + pose proof G as []. specialize (IH s1 going_ready0 going_opened0 ltac:(lia) Hos1 ltac:(lia)). destruct (run ops s1) as [a2 s2].
      destruct IH as (p2&e2&H2&N2&Hg). exists (p1 ++ p2), (early_errors s [o] ++ e2). split; [by apply (history_trans s s1); [|left| |]|]. split; [lia|].
      destruct Hg as [[-> G2]|(F2&f&Hf&Hbig&J)]; [left|right].
      * split; [done|]. by apply (going_trans s s1).
      * rewrite filter_app, early_not_failed, F2. split; [done|]. exists f. split; [by rewrite last_app, Hf|]. split; [|done]. intros Hfits. apply Hbig. by apply (ack_fits_same s s1).
    + pose proof (run_jammed f ops s1 J ltac:(lia) Hos1) as H2. destruct (run ops s1) as [a2 s2]. destruct H2 as (->&J2&N2&e2&C2&F2).
      exists ([] ++ []), (early_errors s [o] ++ e2). split.
      { apply (history_trans s s1); [done|by right|done|]. apply history_errors; [done|]. by rewrite app_nil_r, (jam_queue f s1 J), (jam_queue f s2 J2). }
      split; [lia|right]. rewrite filter_app, early_not_failed, F2. split; [done|]. exists f. by rewrite app_nil_r.
Qed.

(** C3. Every frame that the creator accepts is sent once, in a packet that is sound. Take a creator of version 99 that is set up,
    and any sequence of legal frames added (padded or not), flushes, paddings asked for (less than 32768 bytes in all) and
    transmission types. The delegate is given packets whose numbers are consecutive; the frames of these packets in order, and
    those of the open packet behind them, are the frames that were accepted. Each packet says truthfully which of its frames are
    to be retransmitted and whether it has a handshake frame or an ACK; its bytes are those of its frames, with padding behind
    them if it is short or padding is due, encrypted under its number with the encrypter of the level and under its protected
    header; and it is no longer than the longest packet. Stream data that is added before the handshake is over is an error every
    time and not accepted. If all the ACK frames that were accepted fit an empty packet there is no other error, and a flush at
    the end leaves no frame behind. Otherwise the last frame that was accepted is such an ACK: it is the open packet, which
    cannot be written, and every attempt to send it, at the end too, is the error [QUIC_FAILED_TO_SERIALIZE_PACKET]. *)
Theorem accepted_frames_are_sent_once ops s : ready s → opened s → NextSendingPacketNumber s + zlen ops < 2 ^ 62 → Forall (op_ok s) ops →
  pending_padding_bytes_ s + all_pads ops < 32768 →
  let '(accepted, s') := run ops s in
  ∃ (log : list call) (packets : list (list QuicFrame * SerializedPacket)),
    calls s' = calls s ++ log
    ∧ sent_in log = map snd packets
    ∧ map (λ x, packet_number x.2) packets = seqZ (NextSendingPacketNumber s) (zlen packets)
    ∧ concat (map fst packets) ++ queued_frames_ s' = queued_frames_ s ++ accepted
    ∧ Forall (λ '(fs, p), encryption_level p = encryption_level (packet_ s) ∧ describes (transport_version s) p fs
        ∧ ∃ buffer, encrypted_buffer p = Some buffer ∧ carries s (packet_number p) fs buffer) packets
    ∧ (Forall (ack_fits s) accepted ∧ errors_in log = early_errors s ops ∧ queued_frames_ (Flush s') = []
      ∨ ∃ f, last accepted = Some f ∧ ¬ ack_fits s f ∧ queued_frames_ s' = [f]
          ∧ filter (.≠ QUIC_FAILED_TO_SERIALIZE_PACKET) (errors_in log) = early_errors s ops
          ∧ queued_frames_ (Flush s') = [f] ∧ calls (Flush s') = calls s' ++ [OnUnrecoverableError QUIC_FAILED_TO_SERIALIZE_PACKET]).
Proof.
  intros R O Hn Ho Hp. pose proof (run_goes ops s R O ltac:(lia) Ho Hp) as H. destruct (run ops s) as [accepted s']. destruct H as (packets&errors&H&Hn'&Hend).
  destruct H as [(log&Hc&Hsent&<-) Hf Hnum Hs]. exists log, packets. do 4 (split; [done|]). split; [eapply Forall_impl; [exact Hs|]; by intros [fs p] []|].
  destruct Hend as [[He []]|(He&f&Hl&Hbig&J)]; [left|right].
  - split; [done|]. split; [done|]. destruct (Flush_spec s') as (more&_&_&Hq&_); [done|lia|done|done].
  - exists f. destruct (Flush_jammed f s' J ltac:(lia)) as (JF&_&CF&_). do 2 (split; [done|]). split; [apply J|]. split; [done|]. split; [apply JF|done].
Qed.

(** C10. A frame that is refused is accepted when it is added again, if a packet can hold it at all: the creator has sent the open
    packet, with all its frames, and the next one is empty. The creator is one of version 99 that is set up, and the frame is
    legal and not stream data before the handshake is over, which is always refused. *)
Theorem refused_frame_fits_the_next_packet f type s :
  ready s → opened s → NextSendingPacketNumber s + 1 < 2 ^ 62 → may_add s f →
  zlen (frame_bytes (frames s) f true) <= max_plaintext_size_ s - PacketHeaderSize s →
  let '(ok, s1) := AddSavedFrame f type s in
  if ok then queued_frames_ s1 = queued_frames_ s ++ [f] ∧ calls s1 = calls s
  else queued_frames_ s1 = []
    ∧ (∃ p, calls s1 = calls s ++ [OnSerializedPacketCall p] ∧ describes (transport_version s) p (queued_frames_ s))
    ∧ let '(ok2, s2) := AddSavedFrame f type s1 in ok2 = true ∧ queued_frames_ s2 = [f] ∧ calls s2 = calls s1.
Proof.
  intros R O Hn Hm Hfit. pose proof (AddFrame_spec f type s R ltac:(lia) O Hm) as H. unfold AddSavedFrame. destruct (AddFrame f true type s) as [ok s1].
  destruct H as (packets&P&Hl&_&Hok&Hq). destruct ok.
  { subst packets. pose proof (progress_frames _ _ _ _ P) as Hf. pose proof (progress_calls _ _ _ _ P) as Hc. cbn in Hf, Hc. by rewrite app_nil_r in Hc. }
  split; [done|]. pose proof (progress_frames _ _ _ _ P) as Hf. rewrite Hq, !app_nil_r in Hf.
  destruct packets as [|[fs p] [|x packets]]; [| |rewrite !zlen_cons in Hl; pose proof (zlen_nonneg packets); lia].
  { cbn in Hf. rewrite (empty_room s R (eq_sym Hf)) in Hok. lia. }
  cbn in Hf. rewrite app_nil_r in Hf. subst fs. pose proof (Forall_inv (progress_sent _ _ _ _ P)) as Hs. split.
  { exists p. split; [apply (progress_calls _ _ _ _ P)|apply Hs]. }
  pose proof (progress_setup _ _ _ _ P) as E. pose proof (progress_ready _ _ _ _ P) as R1. pose proof (may_add_same s s1 f E Hm) as Hm1.
  assert (Hn1 : NextSendingPacketNumber s1 < 2 ^ 62) by (rewrite (progress_next _ _ _ _ P), zlen_cons, (@zlen_nil (list QuicFrame * SerializedPacket)); lia).
  pose proof (AddFrame_spec f type s1 R1 Hn1 (progress_opened _ _ _ _ P) Hm1) as H. destruct (AddFrame f true type s1) as [ok s2].
  destruct H as (packets&P2&_&_&Hok2&H2). rewrite (empty_room s1 R1 Hq), (same_header_size s s1 E), (same_max_plaintext s s1 E), (same_frames s s1 E) in Hok2.
  destruct (Z.leb_spec (zlen (frame_bytes (frames s) f true)) (max_plaintext_size_ s - PacketHeaderSize s)); [|lia]. subst ok packets.
  pose proof (progress_frames _ _ _ _ P2) as Hf2. pose proof (progress_calls _ _ _ _ P2) as Hc2. rewrite Hq in Hf2. cbn in Hf2, Hc2. by rewrite app_nil_r in Hc2.
Qed.

(** *** Stream and crypto data *)

(** The data of a frame of any length up to [size] is there. *)
Definition stream_data_ok (s : t) (id size offset : Z) : Prop :=
  0 <= size < two63 ∧ ∀ n fin, 0 <= n <= size → is_u16 n → frame_ok (frames s) (StreamFrame (mk_stream id fin offset n None)).
Definition crypto_data_ok (s : t) (level : EncryptionLevel) (size offset : Z) : Prop :=
  0 <= size < 2 ^ 62 ∧ ∀ n, 0 <= n <= size → is_u16 n → frame_ok (frames s) (CryptoFrame (mk_crypto level offset n None)).

(** What a stream frame takes besides its data, when it is the last one. *)
Definition stream_overhead (id offset : Z) : Z := 1 + len62 id + (if negb (offset =? 0) then len62 offset else 0).

Lemma stream_overhead_spec s id offset n : ready s → GetMinStreamFrameSize (transport_version s) id offset true n = stream_overhead id offset.
Proof. intros R. unfold GetMinStreamFrameSize, stream_overhead, kQuicFrameTypeSize. destruct (version_99_facts s R) as (_&->&_). lia. Qed.

Lemma stream_frame_bytes s id fin offset n : ready s → frame_ok (frames s) (StreamFrame (mk_stream id fin offset n None)) →
  zlen (frame_bytes (frames s) (StreamFrame (mk_stream id fin offset n None)) true) = stream_overhead id offset + n.
Proof.
  intros R Hf. rewrite (ietf_frame_size stream_data crypto_data (transport_version s) false (frames s) _ true PACKET_1BYTE_PACKET_NUMBER);
    [|apply (version_99_facts s R)|rewrite (ready_version s R); apply (ready_frames s R)|apply Hf..].
  cbn [ComputeFrameLength IetfFramer.stream_id IetfFramer.offset IetfFramer.data_length]. by rewrite stream_overhead_spec.
Qed.

Lemma wrap16_min a b : 0 <= a < two16 → wrap16 (Z.min a b) = Z.min a b ∨ b < 0.
Proof. intros H. destruct (Z.lt_ge_cases b 0); [by right|left]. apply wrap16_small. lia. Qed.

Lemma no_crypto_stream s id : ready s → IsCryptoStreamId (transport_version s) id = false.
Proof. intros R. unfold IsCryptoStreamId. by destruct (version_99_facts s R) as (_&_&_&_&_&->). Qed.

(** Asking how much is free sets the size of an empty packet. *)
Lemma ask_room s : ready s → opened s → ready (sized s) ∧ opened (sized s) ∧ room (sized s) = room s ∧ transport_version (sized s) = transport_version s ∧ frames (sized s) = frames s
  ∧ NextSendingPacketNumber (sized s) = NextSendingPacketNumber s ∧ encryption_level (packet_ (sized s)) = encryption_level (packet_ s).
Proof.
  intros R O. pose proof (sized_kept s) as K. pose proof (sized_same s) as E. split_and!.
  - by apply (kept_ready s).
  - by apply sized_opened.
  - apply (kept_current s _ K), sized_queue.
  - by apply same_transport.
  - apply E.
  - unfold NextSendingPacketNumber. by rewrite (kept_number s _ K).
  - apply E.
Qed.

Lemma CreateStreamFrame_spec s id size offset fin : ready s → opened s → 0 <= size < two63 → stream_overhead id offset < room s →
  let n := Z.min (room s - stream_overhead id offset) size in
  CreateStreamFrame id size offset fin s = (mk_stream id (fin && (n =? size)) offset n None, sized s) ∧ is_u16 n.
Proof.
  intros R O Hs Hroom n. unfold CreateStreamFrame. rewrite (BytesFree_spec s R O), (stream_overhead_spec s id offset _ R).
  pose proof (room_range s R). pose proof (plaintext_below s R). assert (Ho : 0 <= stream_overhead id offset).
  { unfold stream_overhead, len62, Writer.GetVarInt62Len. repeat case_match; lia. }
  rewrite wrap64_small by (unfold two63; lia). assert (Hn : is_u16 n) by (unfold two16, n; lia). split; [|done]. fold n. by rewrite wrap16_small.
Qed.

(** [ConsumeData] when there is room for more than a frame without data: as much as fits goes into the open packet. *)
Lemma ConsumeData_spec s id size offset fin full type :
  ready s → opened s → NextSendingPacketNumber s < 2 ^ 62 → stream_data_ok s id size offset →
  encryption_level (packet_ s) ≠ ENCRYPTION_INITIAL → encryption_level (packet_ s) ≠ ENCRYPTION_HANDSHAKE →
  let n := Z.min (room s - stream_overhead id offset) size in
  let f := mk_stream id (fin && (n =? size)) offset n None in
  let '(r, s') := ConsumeData id size offset fin full type s in
  (if stream_overhead id offset <? room s then r = Some f ∧ progress s s' [StreamFrame f] [] else r = None ∧ progress s s' [] [])
  ∧ pending_padding_bytes_ s' <= pending_padding_bytes_ s.
Proof.
  intros R O Hnext [Hsize Hdata] Hl1 Hl2 n f. unfold ConsumeData, HasRoomForStreamFrame. rewrite (BytesFree_spec s R O).
  destruct (ask_room s R O) as (R1&O1&Hr1&Ht1&Hf1&Hn1&Hl). rewrite (stream_overhead_spec _ id offset _ R1). pose proof (sized_kept s) as K.
  destruct (Z.ltb_spec (stream_overhead id offset) (room s)) as [Hlt|Hge]; cbn [negb].
  2:{ split; [|by rewrite (kept_pending s _ K)]. split; [done|]. apply alike_kept; [done|done|apply sized_queue|done]. }
  destruct (CreateStreamFrame_spec (sized s) id size offset fin R1 O1 Hsize ltac:(lia)) as [-> Hu]. rewrite Hr1 in *. fold n in Hu |- *. fold f.
  destruct (ask_room (sized s) R1 O1) as (R2&O2&Hr2&Ht2&Hf2&Hn2&Hl2'). set (s2 := sized (sized s)) in *. rewrite Hr1 in Hr2. rewrite Hf1 in Hf2. rewrite Hn1 in Hn2. rewrite Hl in Hl2'.
  assert (K2 : kept s s2) by (apply (kept_trans _ (sized s)); [done|apply sized_kept]). assert (Hq2 : queued_frames_ s2 = queued_frames_ s) by (unfold s2; by rewrite !sized_queue). clearbody s2.
  unfold StreamFrameIsClientHello. rewrite (no_crypto_stream s2 _ R2). cbn [negb]. rewrite orb_true_r, andb_false_r. cbn [andb].
  assert (Hn0 : 0 <= n <= size) by (unfold n in *; lia).
  assert (Hok : frame_ok (frames s2) (StreamFrame f)) by (rewrite Hf2; by apply Hdata).
  assert (Hm : may_add s2 (StreamFrame f)) by (split; [done|split; [done|by rewrite Hl2']]).
  pose proof (AddFrame_spec (StreamFrame f) type s2 R2 ltac:(lia) O2 Hm) as H.
  destruct (AddFrame (StreamFrame f) true type s2) as [ok s3]. destruct H as (packets&P&_&Hpend&Hfit&Hp).
  rewrite Hf2, Hr2 in Hfit. unfold f in Hfit. rewrite (stream_frame_bytes s id _ offset n R) in Hfit by (by apply Hdata).
  destruct (Z.leb_spec (stream_overhead id offset + n) (room s)); [|unfold n in *; lia]. subst ok packets. cbn [negb]. rewrite (kept_pending s _ K2) in Hpend. split; [|by destruct full]. split; [done|].
  change [StreamFrame f] with ([] ++ [StreamFrame f]). change (@nil (list QuicFrame * SerializedPacket)) with (@nil (list QuicFrame * SerializedPacket) ++ []).
  apply (progress_trans s s2). { apply alike_kept; done. }
  destruct full; [|done]. rewrite <-(app_nil_r [StreamFrame f]). change (@nil (list QuicFrame * SerializedPacket)) with (@nil (list QuicFrame * SerializedPacket) ++ []).
  apply (progress_trans s2 s3); [done|]. by apply alike_kept; [apply P|split|..|apply opened_full, P].
Qed.

Lemma len62_mono a b : 0 <= a <= b → b < 2 ^ 62 → len62 a <= len62 b.
Proof. intros H Hb. rewrite !WriterSpec.GetVarInt62Len_cases by (unfold two64; lia). repeat case_match; lia. Qed.

Lemma crypto_frame_bytes s level offset n : ready s → frame_ok (frames s) (CryptoFrame (mk_crypto level offset n None)) → is_u16 n →
  zlen (frame_bytes (frames s) (CryptoFrame (mk_crypto level offset n None)) true) = 1 + len62 offset + len62 n + n.
Proof.
  intros R Hf Hn. rewrite (ietf_frame_size stream_data crypto_data (transport_version s) false (frames s) _ true PACKET_1BYTE_PACKET_NUMBER);
    [|apply (version_99_facts s R)|rewrite (ready_version s R); apply (ready_frames s R)|apply Hf..].
  cbn [ComputeFrameLength IetfFramer.crypto_offset IetfFramer.crypto_length]. unfold GetMinCryptoFrameSize, kQuicFrameTypeSize. by rewrite wrap16_small.
Qed.

(** What [CreateCryptoFrame] takes a crypto frame to need besides its data. *)
Definition crypto_overhead (size offset : Z) : Z := 1 + len62 size + len62 (wrap16 offset).

(** [ConsumeCryptoData], for data that begins before the 65536th byte. *)
Lemma ConsumeCryptoData_spec s level size offset full type :
  ready s → opened s → NextSendingPacketNumber s < 2 ^ 62 → crypto_data_ok s level size offset → 0 <= offset < 65536 →
  let n := Z.min (room s - crypto_overhead size offset) size in
  let f := mk_crypto level offset n None in
  let '(r, s') := ConsumeCryptoData level size offset full type s in
  if crypto_overhead size offset <? room s then r = Some f ∧ progress s s' [CryptoFrame f] [] else r = None ∧ progress s s' [] [].
Proof.
  intros R O Hnext [Hsize Hdata] Hoff n f. unfold ConsumeCryptoData, CreateCryptoFrame. rewrite (BytesFree_spec s R O).
  change (GetMinCryptoFrameSize size offset) with (crypto_overhead size offset).
  destruct (ask_room s R O) as (R1&O1&Hr1&_&Hf1&Hn1&_). pose proof (sized_kept s) as K.
  destruct (Z.leb_spec (room s) (crypto_overhead size offset)); destruct (Z.ltb_spec (crypto_overhead size offset) (room s)); try lia.
  { split; [done|]. apply alike_kept; [done|done|apply sized_queue|done]. }
  fold n. pose proof (room_range s R). pose proof (plaintext_below s R).
  assert (Ho : 0 <= crypto_overhead size offset). { unfold crypto_overhead, len62, Writer.GetVarInt62Len. repeat case_match; lia. }
  assert (Hn0 : 0 <= n <= size ∧ n <= 1440) by (unfold n; lia). assert (Hu : is_u16 n) by (unfold two16; lia). rewrite (wrap16_small n Hu). fold f.
  set (s2 := if full then set_needs_full_padding true (sized s) else sized s).
  assert (Hs2 : kept s s2 ∧ opened s2 ∧ queued_frames_ s2 = queued_frames_ s ∧ room s2 = room s ∧ frames s2 = frames s ∧ NextSendingPacketNumber s2 = NextSendingPacketNumber s).
  { unfold s2. destruct full; [|by split_and!; [..|apply sized_queue| | |]]. assert (K' : kept s (set_needs_full_padding true (sized s))).
    { apply (kept_trans _ (sized s)); [done|]. by split. }
    split_and!; [done|by apply opened_full|apply sized_queue|rewrite <-Hr1; apply (kept_current (sized s)); [by split|done]|done|done]. }
  clearbody s2. destruct Hs2 as (K2&O2&Hq2&Hr2&Hf2&Hn2). pose proof (kept_ready s s2 K2 R) as R2.
  assert (Hok : frame_ok (frames s2) (CryptoFrame f)) by (rewrite Hf2; apply Hdata; [lia|done]).
  pose proof (AddFrame_spec (CryptoFrame f) type s2 R2 ltac:(lia) O2 (conj Hok (conj I I))) as H'. destruct (AddFrame (CryptoFrame f) true type s2) as [ok s3].
  destruct H' as (packets&P&_&_&Hfit&Hp). rewrite Hf2, Hr2 in Hfit. unfold f in Hfit. rewrite (crypto_frame_bytes s level offset n R (Hdata n ltac:(lia) Hu) Hu) in Hfit.
  pose proof (len62_mono n size ltac:(lia) ltac:(lia)) as Hmono. assert (Hov : crypto_overhead size offset = 1 + len62 size + len62 offset) by (unfold crypto_overhead; by rewrite wrap16_small by (unfold two16; lia)).
  assert (Hnr : n <= room s - crypto_overhead size offset) by (unfold n; lia).
  destruct (Z.leb_spec (1 + len62 offset + len62 n + n) (room s)); [|lia]. subst ok packets. split; [done|].
  change [CryptoFrame f] with ([] ++ [CryptoFrame f]). change (@nil (list QuicFrame * SerializedPacket)) with (@nil (list QuicFrame * SerializedPacket) ++ []).
  apply (progress_trans s s2); [by apply alike_kept|done].
Qed.

(** *** A packet of one stream frame *)

(** How long the frame is without its data; whether it is too short for a packet; how much data it takes. *)
Definition fast_overhead (id offset remaining : Z) (last : bool) : Z :=
  stream_overhead id offset + (if last then 0 else len62 (wrap16 remaining)).
Definition fast_data (s : t) (id offset remaining : Z) (last : bool) : Z :=
  Z.min (max_plaintext_size_ s - PacketHeaderSize s - fast_overhead id offset remaining last) remaining.
Definition fast_short (s : t) (id offset remaining : Z) : bool := fast_overhead id offset remaining true + fast_data s id offset remaining true <? 7.
Definition fast_size (s : t) (id offset remaining : Z) : Z := fast_data s id offset remaining (negb (fast_short s id offset remaining)).
Definition fast_frame (s : t) (id offset remaining : Z) (fin : bool) : QuicStreamFrame :=
  mk_stream id (fin && (fast_size s id offset remaining =? remaining)) offset (fast_size s id offset remaining) None.
Definition fast_padding (s : t) (id offset remaining : Z) : Z :=
  if fast_short s id offset remaining then Z.max 0 (7 - (fast_overhead id offset remaining false + fast_size s id offset remaining)) else 0.
Definition fast_payload (s : t) (id offset remaining : Z) (fin : bool) : list Z :=
  frame_bytes (frames s) (StreamFrame (fast_frame s id offset remaining fin)) (negb (fast_short s id offset remaining))
  ++ replicate (Z.to_nat (fast_padding s id offset remaining)) 0.

Lemma len62_range v : 0 <= v < 2 ^ 62 → 1 <= len62 v <= 8.
Proof. intros H. rewrite WriterSpec.GetVarInt62Len_cases by (unfold two64; lia). repeat case_match; lia. Qed.

Lemma stream_overhead_range id offset : is_u32 id → IetfFramer.is_varint offset → 2 <= stream_overhead id offset <= 17.
Proof.
  intros Hid Ho. unfold stream_overhead. pose proof (len62_range id ltac:(unfold two32 in *; lia)). unfold IetfFramer.is_varint in Ho.
  pose proof (len62_range offset Ho). destruct (offset =? 0); cbn [negb]; lia.
Qed.

(** Any data fits, and a packet that is too short holds all of it. *)
Lemma fast_bounds s id offset remaining : ready s → is_u32 id → IetfFramer.is_varint offset → 0 <= remaining →
  let n := fast_size s id offset remaining in
  0 <= n <= remaining ∧ n <= 1440 ∧ (remaining = 0 ∨ 1 <= n)
  ∧ (fast_short s id offset remaining = true → n = remaining ∧ remaining < 7 ∧ wrap16 remaining = remaining ∧ len62 remaining = 1)
  ∧ PacketHeaderSize s + fast_overhead id offset remaining (negb (fast_short s id offset remaining)) + n + fast_padding s id offset remaining <= max_plaintext_size_ s
  ∧ 7 <= fast_overhead id offset remaining (negb (fast_short s id offset remaining)) + n + fast_padding s id offset remaining.
Proof.
  intros R Hid Ho Hrem n. pose proof (stream_overhead_range id offset Hid Ho) as Hover. pose proof (ready_room s R) as Hroom. pose proof (plaintext_below s R) as Hb.
  set (o := stream_overhead id offset) in *. set (m := max_plaintext_size_ s) in *. set (hd := PacketHeaderSize s) in *.
  assert (Es : fast_short s id offset remaining = (o + (m - hd - o) `min` remaining <? 7)).
  { unfold fast_short, fast_data, fast_overhead. by rewrite Z.add_0_r. }
  unfold n, fast_padding, fast_size. rewrite Es. destruct (Z.ltb_spec (o + (m - hd - o) `min` remaining) 7) as [Hs|Hs]; cbn [negb].
  - assert (Hr : remaining < 7) by lia. assert (Hw : wrap16 remaining = remaining) by (apply wrap16_small; unfold two16; lia).
    assert (Hl : len62 remaining = 1) by (apply byte_size; lia). unfold fast_data, fast_overhead. rewrite Hw, Hl. fold o m hd. lia.
  - unfold fast_data, fast_overhead. fold o m hd. lia.
Qed.

Section fast.
Variables (s : t) (id offset remaining : Z) (fin : bool).
Hypotheses (R : ready s) (Hid : is_u32 id) (Hoff : IetfFramer.is_varint offset) (Hrem : 0 <= remaining)
  (Hdata : stream_data_ok s id remaining offset).
Local Notation last := (negb (fast_short s id offset remaining)).
Local Notation n := (fast_size s id offset remaining).
Local Notation frame := (fast_frame s id offset remaining fin).
Local Notation pad := (fast_padding s id offset remaining).
Local Notation payload := (fast_payload s id offset remaining fin).

Lemma fast_frame_ok : frame_ok (frames s) (StreamFrame frame).
Proof. apply Hdata; pose proof (fast_bounds s id offset remaining R Hid Hoff Hrem) as (?&?&_); [done|unfold two16; lia]. Qed.

Lemma fast_overhead_spec l : GetMinStreamFrameSize (transport_version s) id offset l (wrap16 remaining) = fast_overhead id offset remaining l.
Proof.
  unfold GetMinStreamFrameSize, fast_overhead, stream_overhead, kQuicFrameTypeSize. destruct (version_99_facts s R) as (_&->&_).
  assert (Hw : wrap16 (wrap16 remaining) = wrap16 remaining) by (apply wrap16_small; unfold wrap16; apply Z.mod_pos_bound; done). rewrite Hw. lia.
Qed.

Lemma fast_frame_length : zlen (frame_bytes (frames s) (StreamFrame frame) last) = fast_overhead id offset remaining last + n.
Proof.
  pose proof (fast_bounds s id offset remaining R Hid Hoff Hrem) as (Hn&Hmax&_&Hshort&_).
  rewrite (ietf_frame_size stream_data crypto_data (transport_version s) false (frames s) _ last PACKET_1BYTE_PACKET_NUMBER);
    [|apply (version_99_facts s R)|rewrite (ready_version s R); apply (ready_frames s R)|apply fast_frame_ok..].
  cbn [ComputeFrameLength IetfFramer.stream_id IetfFramer.offset IetfFramer.data_length fast_frame].
  unfold GetMinStreamFrameSize, fast_overhead, stream_overhead, kQuicFrameTypeSize. destruct (version_99_facts s R) as (_&->&_).
  destruct (fast_short s id offset remaining) eqn:E; cbn [negb]; [|lia]. destruct (Hshort eq_refl) as (Hr&_). rewrite Hr. lia.
Qed.

Lemma fast_padding_pos : 0 <= pad.
Proof. unfold fast_padding. destruct (fast_short s id offset remaining); lia. Qed.

Lemma fast_payload_length : zlen payload = fast_overhead id offset remaining last + n + pad.
Proof.
  unfold fast_payload. rewrite zlen_app, fast_frame_length. pose proof fast_padding_pos. unfold zlen. rewrite length_replicate. lia.
Qed.

Lemma fast_payload_bytes : bytes payload.
Proof. apply Forall_app. split; [apply fast_frame_ok|by apply Forall_replicate]. Qed.

Lemma fast_payload_of : payload_of (frames s) [StreamFrame frame] payload.
Proof.
  unfold fast_payload, payload_of. destruct (fast_short s id offset remaining) eqn:E; cbn [negb].
  - pose proof fast_padding_pos. destruct (Z.eqb_spec pad 0) as [Hz|Hz].
    + right. exists (StreamFrame frame). split; [done|]. by rewrite Hz, app_nil_r.
    + left. exists [PaddingFrame pad]. split; [right; exists pad; split; [lia|done]|]. cbn [app IetfFramer.frames_bytes IetfFramer.is_last]. f_equal.
      unfold IetfFramer.frame_bytes. cbn [IetfFramer.frame_type_byte IetfFramer.body_bytes]. rewrite app_nil_r.
      replace (Z.to_nat pad) with (S (Z.to_nat (pad - 1))) by lia. done.
  - left. exists []. split; [by left|]. cbn [app IetfFramer.frames_bytes IetfFramer.is_last]. unfold fast_padding. by rewrite E.
Qed.

Lemma fast_emits (framer : QuicFramer) : Packets.transport_version_of framer = QUIC_VERSION_99 → Packets.ietf_frames framer = frames s →
  WriterSpec.emits NETWORK_BYTE_ORDER (Writer.andthen (Writer.andthen (AppendTypeByte framer (StreamFrame frame) last) (AppendStreamFrame framer frame last))
    (if 0 <? pad then Writer.WritePaddingBytes pad else Writer.ret true)) payload.
Proof.
  intros Hv Hf. unfold fast_payload, AppendTypeByte, AppendStreamFrame. rewrite Hv, Hf. change (VersionHasIetfQuicFrames QUIC_VERSION_99) with true. cbv iota.
  apply WriterSpec.emits_andthen.
  - exact (IetfFramer.emits_frame stream_data crypto_data (frames s) (StreamFrame frame) last (frame_good _ _ fast_frame_ok)).
  - pose proof fast_padding_pos. destruct (Z.ltb_spec 0 pad); [by apply WriterSpec.emits_WriteRepeatedByte|].
    replace (Z.to_nat pad) with 0%nat by lia. apply WriterSpec.emits_ret.
Qed.
End fast.

(** The padding that is written. *)
Lemma fast_padding_written s id offset remaining :
  (if fast_short s id offset remaining && (fast_overhead id offset remaining (negb (fast_short s id offset remaining)) + fast_size s id offset remaining <? 7)
   then Writer.WritePaddingBytes (7 - (fast_overhead id offset remaining (negb (fast_short s id offset remaining)) + fast_size s id offset remaining))
   else Writer.ret true)
  = (if 0 <? fast_padding s id offset remaining then Writer.WritePaddingBytes (fast_padding s id offset remaining) else Writer.ret true).
Proof.
  unfold fast_padding. destruct (fast_short s id offset remaining); cbn [negb andb]; [|done].
  destruct (Z.ltb_spec (fast_overhead id offset remaining false + fast_size s id offset remaining) 7); [|rewrite Z.max_l by lia; done].
  rewrite Z.max_r by lia. destruct (Z.ltb_spec 0 (7 - (fast_overhead id offset remaining false + fast_size s id offset remaining))); [done|lia].
Qed.

(** [CreateAndSerializeStreamFrame] on a creator without frames: as much data as fits a packet is sent in one, at once. *)
Lemma fast_spec s id wl iov offset fin type :
  ready s → opened s → queued_frames_ s = [] → NextSendingPacketNumber s < 2 ^ 62 → is_u32 id → IetfFramer.is_varint offset → 0 <= iov <= wl → wl < two63 →
  stream_data_ok s id (wl - iov) offset →
  let f := fast_frame s id offset (wl - iov) fin in
  let '(consumed, s') := CreateAndSerializeStreamFrame id wl iov offset fin type s in
  consumed = data_length f ∧ ∃ p, progress s s' [StreamFrame f] [([StreamFrame f], p)].
Proof.
  intros R O Hq Hnext Hid Hoff Hiov Hwl Hdata f. set (remaining := wl - iov) in *. assert (Hrem : 0 <= remaining) by lia.
  destruct (fast_bounds s id offset remaining R Hid Hoff Hrem) as (Hn&Hmax&_&Hshort&Hfit&H7).
  pose proof (fast_payload_length s id offset remaining fin R Hid Hoff Hrem Hdata) as Hpl. pose proof (plaintext_below s R) as Hb.
  pose proof (stream_overhead_range id offset Hid Hoff) as Hso. pose proof (ready_room s R) as Hroom.
  unfold CreateAndSerializeStreamFrame. change (FillPacketHeader s) with (header s, numbered s). cbv iota beta.
  set (c := header_framer s). set (h := header s). pose proof (header_ok s R) as Hok. fold c h in Hok. destruct (header_size s R) as [_ Hh]. fold c h in Hh.
  change (Packets.headers (framer_ (numbered s))) with c. set (w0 := Writer.new (Z.to_nat kMaxOutgoingPacketSize) NETWORK_BYTE_ORDER).
  assert (Hr0 : Writer.remaining w0 = 1452) by (vm_compute; reflexivity).
  destruct (PacketHeaders.appends_PacketHeader c h (Packets.ok_sendable c h Hok) w0 0 (WriterSpec.writer_new_wf _ _) eq_refl ltac:(lia)) as (w1&E1&Hw1&He1&Hc1&Hwr1&Hl1).
  rewrite E1. cbn [negb PacketHeaders.sender PacketHeaders.writer PacketHeaders.length_field_offset]. clear E1.
  change (framer_ (numbered s)) with (framer_ s). set (framer := Packets.set_headers (PacketHeaders.after_header c h) (framer_ s)). set (s1 := set_framer framer (numbered s)).
  assert (Ew : wrap64 (wl - iov) = remaining) by (apply wrap64_small; unfold remaining; lia). rewrite Ew.
  assert (E1 : same_setup s s1) by (transitivity (set_framer framer s); [exact (after_sealing s R)|by split]).
  assert (Es : ∀ l, GetMinStreamFrameSize (transport_version s1) id offset l (wrap16 remaining) = fast_overhead id offset remaining l).
  { intros l. rewrite (same_transport s s1 E1). by apply fast_overhead_spec. }
  assert (Ho : ∀ l, 0 <= fast_overhead id offset remaining l <= 25).
  { intros l. unfold fast_overhead. destruct l; [lia|]. pose proof (len62_range (wrap16 remaining)) as Hl. unfold wrap16 in *. pose proof (Z.mod_pos_bound remaining two16 eq_refl).
    unfold two16 in *. lia. }
  assert (Ea : ∀ l, wrap64 (max_plaintext_size_ s1 - Writer.length_ w1 - fast_overhead id offset remaining l) `min` remaining = fast_data s id offset remaining l).
  { intros l. specialize (Ho l). rewrite Hl1, Hh. change (Writer.length_ w0) with 0. change (max_plaintext_size_ s1) with (max_plaintext_size_ s).
    rewrite Z.add_0_l, wrap64_small by (unfold two63; lia). done. }
  rewrite !Es, !Ea. unfold MinPlaintextPacketSize. rewrite (same_version s s1 E1). destruct (version_99_facts s R) as (_&_&_&Hhp&_). rewrite Hhp. cbn [negb fst snd].
  change (fast_overhead id offset remaining true + fast_data s id offset remaining true <? 7) with (fast_short s id offset remaining).
  change (fast_data s id offset remaining (negb (fast_short s id offset remaining))) with (fast_size s id offset remaining).
  rewrite (wrap16_small (fast_size s id offset remaining)) by (unfold two16; lia).
  change (mk_stream id (fin && (fast_size s id offset remaining =? remaining)) offset (fast_size s id offset remaining) None) with f.
  assert (Hv1 : Packets.transport_version_of (framer_ s1) = QUIC_VERSION_99) by exact (eq_trans (same_transport s s1 E1) (ready_version s R)).
  assert (Hr1 : Writer.remaining w1 = 1452 - PacketHeaderSize s) by (unfold Writer.remaining in *; lia).
  rewrite fast_padding_written. pose proof (fast_emits s id offset remaining fin R Hid Hoff Hrem Hdata (framer_ s1) Hv1 eq_refl) as Hemits. fold f in Hemits.
  set (payload := fast_payload s id offset remaining fin) in *. change (Writer.length_ w0) with 0 in *.
  destruct (PacketHeaders.emits_written _ payload w1 Hemits Hw1 He1 ltac:(lia)) as (w2&->&Hw2&_&_&Hwr2&_).
  cbn [negb]. rewrite Hwr1 in Hwr2. change (WriterSpec.written w0) with (@nil Z) in Hwr2. cbn [app] in Hwr2.
  change (Packets.encrypter_ (framer_ s1)) with (Packets.encrypter_ (framer_ s)). change (encryption_level (packet_ s1)) with (encryption_level (packet_ s)).
  destruct (ready_encrypters s R (encryption_level (packet_ s))) as (e&He&_). rewrite He.
  pose proof (length_range s e payload R He ltac:(lia)) as Hlen. fold h in Hlen.
  destruct (Packets.length_is_filled_in e h payload w2 (framer_ s) (Packets.ok_version c h Hok) (λ _, Hlen) Hw2 Hwr2) as (w3&E3&Hw3).
  change (Packets.WriteIetfLongHeaderLength h w2 (PacketHeaders.after_offset c h 0 0) e framer = Some w3) in E3.
  change (take (Z.to_nat (Writer.length_ w3)) (Writer.buffer w3) = Packets.packet_header c h (Packets.length_to_write e h payload) ++ payload) in Hw3.
  change (framer_ s1) with framer. rewrite E3, Hw3.
  set (s2 := if can_set_transmission_type_ s1 then _ else s1).
  assert (H2 : same_setup s s2 ∧ framer_ s2 = framer ∧ packet_number (packet_ s2) = NextSendingPacketNumber s ∧ queued_frames_ s2 = [] ∧ calls s2 = calls s
    ∧ pending_padding_bytes_ s2 = pending_padding_bytes_ s ∧ describes (transport_version s) (packet_ s2) []).
  { pose proof (opened_described s O) as D. rewrite Hq in D. unfold s2. destruct D, E1. destruct (can_set_transmission_type_ s1); split_and!; first [exact Hq|done|by split]. }
  clearbody s2. destruct H2 as (E2&Hf2&Hn2&Hq2&Hc2&Hp2&D2). rewrite Hf2, Hn2.
  assert (Hv2 : transport_version s2 = QUIC_VERSION_99) by exact (eq_trans (same_transport s s2 E2) (ready_version s R)). rewrite Hv2.
  destruct (sealed s e [StreamFrame f] payload R He) as (buffer&Henc&Hcar); [by apply fast_payload_bytes|by apply fast_payload_of|lia|lia|].
  fold c h framer in Henc. rewrite Henc.
  split; [done|]. set (s3 := change_packet _ _). eexists.
  refine (proj1 (OnSerializedPacket_spec s [StreamFrame f] [StreamFrame f] s3 R Hnext (opened_pending s O) _ _)); [|by rewrite Hq].
  assert (Ef : framer_ s3 = framer_ s2) by (by rewrite Hf2).
  assert (Hs3 : same_setup s2 s3) by (split; unfold version, perspective, frames; rewrite ?Ef; done).
  destruct D2. pose proof (opened_pending s O). split.
  - by transitivity s2.
  - exact Hc2.
  - exact Hn2.
  - change (pending_padding_bytes_ s3) with (pending_padding_bytes_ s2). lia.
  - exact Hq2.
  - split; cbn; [by rewrite describes_retransmittable0|rewrite describes_crypto0|by rewrite describes_ack0|by rewrite describes_stop_waiting0].
    unfold IsHandshakeFrame. by destruct (version_99_facts s R) as (_&_&_&_&_&->).
  - by exists buffer.
Qed.
End version_99.
End creator.

(** ** Witnesses *)

Section examples.
#[local] Existing Instance swap_endian.
#[local] Existing Instance swap_endian_laws.
#[local] Existing Instance demo_flags.
Import IetfFramer(example_stream_data, example_crypto_data, example_framer).
Import Crypters(NullEncrypter, NullDecrypter, mk_null_encrypter, mk_null_decrypter).

Lemma null_sound p : sound (Dec := NullDecrypter) (mk_null_encrypter p).
Proof.
  split.
  - exists (mk_null_decrypter (Crypters.peer p)). destruct (Crypters.null_pair p). done.
  - intros n ad text max H. cbn in *. rewrite Crypters.Null_EncryptPacket_eq. unfold Crypters.kHashSizeShort in H.
    destruct (Z.ltb_spec max (zlen text + 12)); [lia|by eexists].
  - cbn. unfold Crypters.kHashSizeShort. lia.
  - intros n Hn. cbn. unfold Crypters.kHashSizeShort. rewrite wrap64_small by (unfold two16, two63 in *; lia). done.
Qed.

(** A client of version 99 with packets of 100 bytes that sends data from [example_stream_data], at any level. *)
Definition demo_framer : @Packets.t NullEncrypter NullDecrypter :=
  Packets.mk PacketHeaders.demo_client (λ _, Some (mk_null_encrypter IS_CLIENT)) (λ _, Some (mk_null_decrypter IS_CLIENT)) ENCRYPTION_INITIAL None false [] 0
    example_framer Packets.demo_google_frames None [].
Definition demo_creator (level : EncryptionLevel) : t := SetMaxPacketLength 100 (set_level level (new PacketHeaders.demo_id demo_framer)).

Lemma demo_ready level : ready (demo_creator level).
Proof.
  split; try reflexivity.
  - exact PacketHeaders.demo_candidate.
  - split; [discriminate|reflexivity].
  - intros l. eexists. split; [reflexivity|apply null_sound].
  - split; discriminate.
  - split; [right; split; [discriminate|discriminate]|]. vm_compute. repeat constructor; discriminate.
  - split; [left; reflexivity|constructor].
  - split; [constructor|discriminate].
  - discriminate.
  - by left.
  - discriminate.
  - destruct level; vm_compute; discriminate.
Qed.

Lemma demo_opened level : opened example_stream_data example_crypto_data (demo_creator level).
Proof. split; try done; constructor. Qed.

Lemma varint_bytes_are_bytes v : bytes (IetfFramer.varint v).
Proof. apply be_bytes_bytes. Qed.
Lemma slice_bytes f a n : (∀ i, is_byte (f i)) → bytes (slice f a n).
Proof. intros H. unfold slice. induction (seqZ a n) as [|i l IH]; cbn [map]; [constructor|constructor; [apply H|exact IH]]. Qed.

Lemma example_stream_ok id off n fin : is_u32 id → IetfFramer.is_varint off → is_u16 n →
  frame_ok example_stream_data example_crypto_data example_framer (StreamFrame (mk_stream id fin off n None)).
Proof.
  intros Hid Hoff Hn. split; [|done|].
  - split; [exact Hid|]. split; [exact Hoff|]. split; [exact Hn|]. split; [|apply WriterSpec.emits_WriteBytes].
    unfold IetfFramer.stream_content. cbn -[slice]. unfold slice, zlen. rewrite length_map, length_seqZ. lia.
  - intros last. unfold IetfFramer.frame_bytes. cbn [IetfFramer.frame_type_byte IetfFramer.body_bytes]. constructor.
    { unfold IetfFramer.GetIetfStreamFrameTypeByte. cbn [IetfFramer.offset IetfFramer.fin].
      destruct last, (off =? 0), fin; (split; [discriminate|reflexivity]). }
    cbn -[two16 two32 slice]. repeat (apply Forall_app; split); try apply varint_bytes_are_bytes.
    + destruct (off =? 0); [constructor|apply varint_bytes_are_bytes].
    + destruct last; [constructor|apply varint_bytes_are_bytes].
    + apply slice_bytes. intros i. unfold example_stream_data. pose proof (Z.mod_pos_bound (id + i) 256 eq_refl). done.
Qed.
Lemma example_crypto_ok level off n : IetfFramer.is_varint off → is_u16 n →
  frame_ok example_stream_data example_crypto_data example_framer (CryptoFrame (mk_crypto level off n None)).
Proof.
  intros Hoff Hn. split; [|done|].
  - split; [exact Hoff|]. split; [exact Hn|]. split; [|apply WriterSpec.emits_WriteBytes].
    unfold IetfFramer.crypto_content. cbn -[slice]. unfold slice, zlen. rewrite length_map, length_seqZ. lia.
  - intros last. unfold IetfFramer.frame_bytes. cbn [IetfFramer.frame_type_byte IetfFramer.body_bytes]. constructor; [split; [discriminate|reflexivity]|].
    cbn -[two16 slice]. repeat (apply Forall_app; split); try apply varint_bytes_are_bytes.
    apply slice_bytes. intros i. unfold example_crypto_data. pose proof (Z.mod_pos_bound i 256 eq_refl). done.
Qed.
Lemma example_ping_ok : frame_ok example_stream_data example_crypto_data example_framer PingFrame.
Proof. split; [done|done|]. intros last. repeat constructor; discriminate. Qed.

(** Two stream frames that do not fit one packet, and a ping. *)
Definition demo_stream (off n : Z) : QuicFrame := StreamFrame (mk_stream 4 false off n None).
Definition demo_ops : list op :=
  [Add PingFrame NOT_RETRANSMISSION; Add (demo_stream 0 50) NOT_RETRANSMISSION; Add (demo_stream 50 40) NOT_RETRANSMISSION;
   Pad 5; Add (demo_stream 50 40) NOT_RETRANSMISSION; FlushOpen].

Lemma accepted_frames_are_sent_once_witness :
  let s := demo_creator ENCRYPTION_FORWARD_SECURE in
  let '(accepted, s') := run demo_ops s in
  ∃ (log : list call) (packets : list (list QuicFrame * SerializedPacket)),
    calls s' = log ∧ sent_in log = map snd packets ∧ errors_in log = []
    ∧ map (λ x, packet_number x.2) packets = [1; 2]
    ∧ concat (map fst packets) = [PingFrame; demo_stream 0 50; demo_stream 50 40].
Proof.
  intros s.
  assert (Hops : Forall (op_ok example_stream_data example_crypto_data s) demo_ops).
  { assert (Hs : ∀ off n, IetfFramer.is_varint off → is_u16 n → frame_ok example_stream_data example_crypto_data (frames s) (demo_stream off n)).
    { intros off n Ho Hn. apply example_stream_ok; [split; [discriminate|reflexivity]|exact Ho|exact Hn]. }
    repeat apply Forall_cons_2; [exact example_ping_ok|apply Hs|apply Hs|discriminate|apply Hs|exact I|constructor]; (split; [discriminate|reflexivity]). }
  pose proof (accepted_frames_are_sent_once (EL := swap_endian_laws) example_stream_data example_crypto_data demo_ops s (demo_ready _) (demo_opened _) eq_refl Hops eq_refl) as H.
  assert (E1 : (run demo_ops s).1 = [PingFrame; demo_stream 0 50; demo_stream 50 40]) by (vm_compute; reflexivity).
  assert (E2 : queued_frames_ (run demo_ops s).2 = []) by (vm_compute; reflexivity).
  assert (E3 : length (sent_in (calls (run demo_ops s).2)) = 2%nat) by (vm_compute; reflexivity).
  destruct (run demo_ops s) as [accepted s']. cbn [fst snd] in E1, E2, E3. destruct H as (log&packets&Hc&Hsent&Hn&Hf&_&He).
  change (calls s ++ log) with log in Hc. exists log, packets. split; [exact Hc|]. split; [exact Hsent|].
  rewrite E2, app_nil_r, E1 in Hf. split; [|split; [|exact Hf]].
  - destruct He as [(_&He&_)|(f&_&_&Hq&_)]; [rewrite He; vm_compute; reflexivity|congruence].
  - rewrite Hn. assert (E : zlen packets = 2); [|rewrite E; reflexivity]. rewrite Hc, Hsent, length_map in E3. unfold zlen. by rewrite E3.
Defined.

Lemma refused_frame_fits_the_next_packet_witness :
  let s := (AddSavedFrame (demo_stream 0 50) NOT_RETRANSMISSION (demo_creator ENCRYPTION_FORWARD_SECURE)).2 in
  let '(ok, s1) := AddSavedFrame (demo_stream 50 40) NOT_RETRANSMISSION s in
  ok = false ∧ queued_frames_ s1 = []
  ∧ let '(ok2, s2) := AddSavedFrame (demo_stream 50 40) NOT_RETRANSMISSION s1 in ok2 = true ∧ queued_frames_ s2 = [demo_stream 50 40].
Proof.
  intros s.
  assert (Hm : ∀ off n, IetfFramer.is_varint off → is_u16 n →
    may_add example_stream_data example_crypto_data (demo_creator ENCRYPTION_FORWARD_SECURE) (demo_stream off n)).
  { intros off n Ho Hn. split; [apply example_stream_ok; [split; [discriminate|reflexivity]|exact Ho|exact Hn]|]. split; [exact I|split; discriminate]. }
  pose proof (AddFrame_spec example_stream_data example_crypto_data (demo_stream 0 50) NOT_RETRANSMISSION _ (demo_ready _) eq_refl (demo_opened _)
    (Hm 0 50 ltac:(split; [discriminate|reflexivity]) ltac:(split; [discriminate|reflexivity]))) as H. fold s in H.
  assert (Es : s = (AddFrame (demo_stream 0 50) true NOT_RETRANSMISSION (demo_creator ENCRYPTION_FORWARD_SECURE)).2) by reflexivity.
  destruct (AddFrame (demo_stream 0 50) true NOT_RETRANSMISSION (demo_creator ENCRYPTION_FORWARD_SECURE)) as [ok0 s0]. cbn [snd] in Es. subst s0.
  destruct H as (packets&P&_).
  pose proof (refused_frame_fits_the_next_packet (EL := swap_endian_laws) example_stream_data example_crypto_data (demo_stream 50 40) NOT_RETRANSMISSION s
    (progress_ready _ _ _ _ _ _ P) (progress_opened _ _ _ _ _ _ P) ltac:(vm_compute; reflexivity)
    (may_add_same _ _ _ s _ (progress_setup _ _ _ _ _ _ P)
       (Hm 50 40 ltac:(split; [discriminate|reflexivity]) ltac:(split; [discriminate|reflexivity]))) ltac:(vm_compute; discriminate)) as H.
  assert (E : (AddSavedFrame (demo_stream 50 40) NOT_RETRANSMISSION s).1 = false) by (vm_compute; reflexivity).
  destruct (AddSavedFrame (demo_stream 50 40) NOT_RETRANSMISSION s) as [ok s1]. cbn [fst] in E. subst ok.
  destruct H as (Hq&_&H). split; [reflexivity|]. split; [exact Hq|]. destruct (AddSavedFrame (demo_stream 50 40) NOT_RETRANSMISSION s1) as [ok2 s2].
  destruct H as (H1&H2&_). split; [exact H1|exact H2].
Defined.

(** Crypto data that begins at the 65536th byte is not sent when it fills a packet: its overhead is taken for that of an offset
    of 16 bits, the frame does not fit, and there is nothing to flush. The data before it is sent. *)
Lemma crypto_data_is_stuck :
  let s := demo_creator ENCRYPTION_HANDSHAKE in
  let '(r, s1) := ConsumeCryptoData ENCRYPTION_HANDSHAKE 200 65536 false NOT_RETRANSMISSION s in
  let '(r2, s2) := ConsumeCryptoData ENCRYPTION_HANDSHAKE 200 65535 false NOT_RETRANSMISSION s in
  r = None ∧ queued_frames_ s1 = [] ∧ calls s1 = []
  ∧ r2 = Some (mk_crypto ENCRYPTION_HANDSHAKE 65535 64 None) ∧ HasPendingFrames s2 = true.
Proof. vm_compute. split_and!; reflexivity. Qed.
End examples.
End PacketCreator.
