(* ===== verification/PacketGenerator.v ===== *)
(** [QuicPacketGenerator] (quic/core/quic_packet_generator.cc): what the connection gives to the creator. Control frames, crypto and
    stream data, messages and ACKs become frames; data is cut into as many packets as it takes, and the delegate is asked
    before each of them. The delegate is an interface with a state of its own: whether a packet may be generated now, and which
    ACK frames go along, given what it has been told so far. The numbers of the random generator are an argument. *)

From S2P Require Import Prelude Bytes OrderedSet IntervalSet Stream DataWire PacketNumber ReceivedPackets PacketNumberWire StreamIdManager UnackedPacketMap QuicStreams.
From S2P Require Import IetfFrames GoogleFrames Versions PacketHeaders Crypters Packets FrameSizes PacketCreator.

Module PacketGenerator.
Import Versions FrameSizes.
Import StreamIdManager(Perspective(..)).
Import UnackedPacketMap(EncryptionLevel(..), TransmissionType(..)).
Import IetfFramer(QuicFrame(..), stream_id, data_length, crypto_offset, crypto_length, mk_stream, mk_crypto).
Import Crypters(QuicEncrypter, QuicDecrypter).
Import QuicStream(StreamSendingState(..), QuicConsumedData, mk_consumed, bytes_consumed, fin_was_consumed).
Import PacketCreator(call(..), SerializedPacket, QuicPendingRetransmission).

Definition kMaxNumRandomPaddingBytes : Z := 256.

Inductive HasRetransmittableData := NO_RETRANSMITTABLE_DATA | HAS_RETRANSMITTABLE_DATA.
Inductive IsHandshake := NOT_HANDSHAKE | IS_HANDSHAKE.
Inductive MessageStatus :=
  MESSAGE_STATUS_SUCCESS | MESSAGE_STATUS_ENCRYPTION_NOT_ESTABLISHED | MESSAGE_STATUS_UNSUPPORTED | MESSAGE_STATUS_BLOCKED
  | MESSAGE_STATUS_TOO_LARGE | MESSAGE_STATUS_INTERNAL_ERROR.

(** [DelegateInterface]; the calls are those of the creator so far. *)
Class Delegate (W : Type) := {
  ShouldGeneratePacket : W → list call → HasRetransmittableData → IsHandshake → bool * W;
  BundledAckFrames : W → list call → list QuicFrame * W;
}.

Section generator.
Context {Enc Dec W : Type} {QE : QuicEncrypter Enc} {QD : QuicDecrypter Dec} {EI : EndianImpl} {F : Flags} {DI : Delegate W}.
Context (quic_enforce_single_packet_chlo : bool) (RandUint64 : nat → Z).

Abbreviation QuicPacketCreator := (@PacketCreator.t Enc Dec).

Record t := mk {
  delegate_ : W;
  packet_creator_ : QuicPacketCreator;
  next_transmission_type_ : TransmissionType;
  flusher_attached_ : bool;
  random_numbers_drawn : nat;
  fully_pad_crypto_handshake_packets_ : bool;
  write_start_packet_number_ : Z;
}.
Definition set_delegate x (s : t) : t :=
  mk x (packet_creator_ s) (next_transmission_type_ s) (flusher_attached_ s) (random_numbers_drawn s) (fully_pad_crypto_handshake_packets_ s) (write_start_packet_number_ s).
Definition set_creator x (s : t) : t :=
  mk (delegate_ s) x (next_transmission_type_ s) (flusher_attached_ s) (random_numbers_drawn s) (fully_pad_crypto_handshake_packets_ s) (write_start_packet_number_ s).
Definition set_next_type x (s : t) : t :=
  mk (delegate_ s) (packet_creator_ s) x (flusher_attached_ s) (random_numbers_drawn s) (fully_pad_crypto_handshake_packets_ s) (write_start_packet_number_ s).
Definition set_attached x (s : t) : t :=
  mk (delegate_ s) (packet_creator_ s) (next_transmission_type_ s) x (random_numbers_drawn s) (fully_pad_crypto_handshake_packets_ s) (write_start_packet_number_ s).
Definition set_drawn x (s : t) : t :=
  mk (delegate_ s) (packet_creator_ s) (next_transmission_type_ s) (flusher_attached_ s) x (fully_pad_crypto_handshake_packets_ s) (write_start_packet_number_ s).
Definition set_fully_pad_crypto_hadshake_packets x (s : t) : t :=
  mk (delegate_ s) (packet_creator_ s) (next_transmission_type_ s) (flusher_attached_ s) (random_numbers_drawn s) x (write_start_packet_number_ s).
Definition set_write_start x (s : t) : t :=
  mk (delegate_ s) (packet_creator_ s) (next_transmission_type_ s) (flusher_attached_ s) (random_numbers_drawn s) (fully_pad_crypto_handshake_packets_ s) x.

Definition new (server_connection_id : list Z) (framer : @Packets.t Enc Dec) (delegate : W) : t :=
  mk delegate (PacketCreator.new server_connection_id framer) NOT_RETRANSMISSION false 0 true PacketNumber.UninitializedPacketNumber.

(** ** The creator and the delegate *)

Definition on_creator (f : QuicPacketCreator → QuicPacketCreator) (s : t) : t := set_creator (f (packet_creator_ s)) s.
Definition flush_creator : t → t := on_creator PacketCreator.Flush.
Definition AddSavedFrame (f : QuicFrame) (s : t) : bool * t :=
  let '(ok, c) := PacketCreator.AddSavedFrame f (next_transmission_type_ s) (packet_creator_ s) in (ok, set_creator c s).
Definition may_generate (retransmittable : HasRetransmittableData) (handshake : IsHandshake) (s : t) : bool * t :=
  let '(yes, d) := ShouldGeneratePacket (delegate_ s) (PacketCreator.calls (packet_creator_ s)) retransmittable handshake in (yes, set_delegate d s).

Definition HasPendingFrames (s : t) : bool := PacketCreator.HasPendingFrames (packet_creator_ s).
Definition HasRetransmittableFrames (s : t) : bool := PacketCreator.HasPendingRetransmittableFrames (packet_creator_ s).
Definition HasPendingStreamFramesOfStream (id : Z) (s : t) : bool := PacketCreator.HasPendingStreamFramesOfStream id (packet_creator_ s).
Definition packet_number (s : t) : Z := PacketCreator.packet_number (PacketCreator.packet_ (packet_creator_ s)).
Definition GetCurrentMaxPacketLength (s : t) : Z := PacketCreator.max_packet_length_ (packet_creator_ s).
Definition GetCurrentLargestMessagePayload (s : t) : Z := PacketCreator.GetCurrentLargestMessagePayload (packet_creator_ s).
Definition GetGuaranteedLargestMessagePayload (s : t) : Z := PacketCreator.GetGuaranteedLargestMessagePayload (packet_creator_ s).

(** ** ACKs *)

Fixpoint FlushAckFrame (frames : list QuicFrame) (s : t) : bool * t :=
  match frames with
  | [] => (true, s)
  | f :: frames =>
      let '(bundled, s) := if HasPendingFrames s then AddSavedFrame f s else (false, s) in
      if bundled then FlushAckFrame frames s else
      let '(yes, s) := may_generate NO_RETRANSMITTABLE_DATA NOT_HANDSHAKE s in
      if negb yes then (false, s) else FlushAckFrame frames (AddSavedFrame f s).2
  end.
Definition MaybeBundleAckOpportunistically (s : t) : t :=
  if PacketCreator.has_ack (PacketCreator.packet_ (packet_creator_ s)) then s else
  let '(yes, s) := may_generate NO_RETRANSMITTABLE_DATA NOT_HANDSHAKE s in
  if negb yes then s else
  let '(frames, d) := BundledAckFrames (delegate_ s) (PacketCreator.calls (packet_creator_ s)) in
  (FlushAckFrame frames (set_delegate d s)).2.

(** ** Control frames *)

Definition ConsumeRetransmittableControlFrame (f : QuicFrame) (s : t) : bool * t :=
  let s := MaybeBundleAckOpportunistically s in
  let '(bundled, s) := if HasPendingFrames s then AddSavedFrame f s else (false, s) in
  if bundled then (true, s) else
  let asks := match f with PingFrame | ConnectionCloseFrame _ _ _ _ => false | _ => true end in
  let '(yes, s) := if asks then may_generate HAS_RETRANSMITTABLE_DATA NOT_HANDSHAKE s else (true, s) in
  if negb yes then (false, s) else AddSavedFrame f s.

(** ** Crypto data *)

(** Every frame takes a byte or more, so the loop ends with as many rounds as there are bytes; [None]: no frame could be added. *)
Fixpoint crypto_loop (fuel : nat) (level : EncryptionLevel) (write_length offset total : Z) (s : t) : option Z * t :=
  if total <? write_length then
    match fuel with
    | O => (None, s)
    | S fuel =>
        match PacketCreator.ConsumeCryptoData level (write_length - total) (wrap64 (offset + total)) (fully_pad_crypto_handshake_packets_ s)
                (next_transmission_type_ s) (packet_creator_ s) with
        | (None, c) => (None, set_creator c s)
        | (Some f, c) => crypto_loop fuel level write_length offset (total + crypto_length f) (flush_creator (set_creator c s))
        end
    end
  else (Some total, s).
Definition ConsumeCryptoData (level : EncryptionLevel) (write_length offset : Z) (s : t) : Z * t :=
  let s := MaybeBundleAckOpportunistically s in
  let s := if HasRetransmittableFrames s then flush_creator s else s in
  match crypto_loop (Z.to_nat write_length) level write_length offset 0 s with
  | (None, s) => (0, s)
  | (Some total, s) => (total, flush_creator s)
  end.

(** ** Stream data *)

Definition AddRandomPadding (s : t) : t :=
  on_creator (PacketCreator.AddPendingPadding (RandUint64 (random_numbers_drawn s) mod kMaxNumRandomPaddingBytes + 1)) (set_drawn (S (random_numbers_drawn s)) s).

(** [None]: the loop is still running when the rounds are used up, as when packets cannot be encrypted. *)
Fixpoint ConsumeDataFastPath (fuel : nat) (id write_length offset : Z) (fin : bool) (total : Z) (s : t) : option (QuicConsumedData * t) :=
  let done s := Some (mk_consumed total (fin && (total =? write_length)), s) in
  if total <? write_length then
    let '(yes, s) := may_generate HAS_RETRANSMITTABLE_DATA NOT_HANDSHAKE s in
    if negb yes then done s else
    match fuel with
    | O => None
    | S fuel =>
        let '(consumed, c) := PacketCreator.CreateAndSerializeStreamFrame id write_length total (wrap64 (offset + total)) fin
          (next_transmission_type_ s) (packet_creator_ s) in
        ConsumeDataFastPath fuel id write_length offset fin (total + consumed) (set_creator c s)
    end
  else done s.

Definition is_fast (has_handshake : bool) (state : StreamSendingState) (remaining : Z) (s : t) : bool :=
  negb has_handshake && negb (match state with FIN_AND_PADDING => true | _ => false end) && negb (HasPendingFrames s)
  && (PacketCreator.kMaxOutgoingPacketSize <? remaining).

(** How the loop over packets ends. *)
Inductive slow :=
  | Failed (s : t)
  | Stopped (total : Z) (fin_consumed fast : bool) (s : t)
  | Running.
Fixpoint slow_loop (fuel : nat) (id write_length offset : Z) (state : StreamSendingState) (has_handshake : bool)
    (total : Z) (fin_consumed run_fast_path : bool) (s : t) : slow :=
  let fin := match state with NO_FIN => false | _ => true end in
  if run_fast_path then Stopped total fin_consumed true s else
  let '(yes, s) := may_generate HAS_RETRANSMITTABLE_DATA (if has_handshake then IS_HANDSHAKE else NOT_HANDSHAKE) s in
  if negb yes then Stopped total fin_consumed false s else
  match fuel with
  | O => Running
  | S fuel =>
      match PacketCreator.ConsumeData quic_enforce_single_packet_chlo id (write_length - total) (wrap64 (offset + total)) fin
              (has_handshake && fully_pad_crypto_handshake_packets_ s) (next_transmission_type_ s) (packet_creator_ s) with
      | (None, c) => Failed (set_creator c s)
      | (Some f, c) =>
          let s := set_creator c s in
          let total := total + data_length f in
          let fin_consumed := fin && (total =? write_length) in
          let s := if fin_consumed && (match state with FIN_AND_PADDING => true | _ => false end) then AddRandomPadding s else s in
          if total =? write_length then Stopped total fin_consumed false s else
          let s := flush_creator s in
          slow_loop fuel id write_length offset state has_handshake total fin_consumed (is_fast has_handshake state (write_length - total) s) s
      end
  end.

Definition ConsumeData (id write_length offset : Z) (state : StreamSendingState) (s : t) : option (QuicConsumedData * t) :=
  let has_handshake := PacketCreator.IsCryptoStreamId (PacketCreator.transport_version (packet_creator_ s)) id in
  let s := MaybeBundleAckOpportunistically s in
  let fin := match state with NO_FIN => false | _ => true end in
  let s := if has_handshake && HasRetransmittableFrames s then flush_creator s else s in
  let '(room, c) := PacketCreator.HasRoomForStreamFrame id offset write_length (packet_creator_ s) in
  let s := set_creator c s in
  let s := if negb room then flush_creator s else s in
  if negb fin && (write_length =? 0) then Some (mk_consumed 0 false, s) else
  let rounds := S (Z.to_nat write_length) in
  match slow_loop rounds id write_length offset state has_handshake 0 false (is_fast has_handshake state write_length s) s with
  | Running => None
  | Failed s => Some (mk_consumed 0 false, s)
  | Stopped total fin_consumed true s => ConsumeDataFastPath rounds id write_length offset fin total s
  | Stopped total fin_consumed false s => Some (mk_consumed total fin_consumed, if has_handshake then flush_creator s else s)
  end.

(** ** Messages, MTU discovery *)

Definition AddMessageFrame (data : list (list Z)) (s : t) : MessageStatus * t :=
  let s := MaybeBundleAckOpportunistically s in
  let message_length := zlen (concat data) in
  if GetCurrentLargestMessagePayload s <? message_length then (MESSAGE_STATUS_TOO_LARGE, s) else
  let '(room, c) := PacketCreator.HasRoomForMessageFrame message_length (packet_creator_ s) in
  let s := set_creator c s in
  let s := if negb room then flush_creator s else s in
  let '(ok, s) := AddSavedFrame (MessageFrame data message_length) s in
  (if ok then MESSAGE_STATUS_SUCCESS else MESSAGE_STATUS_INTERNAL_ERROR, s).

Definition SetMaxPacketLength (length : Z) : t → t := on_creator (PacketCreator.SetMaxPacketLength length).
Definition GenerateMtuDiscoveryPacket (target_mtu : Z) (s : t) : t :=
  if negb (PacketCreator.CanSetMaxPacketLength (packet_creator_ s)) then s else
  let current_mtu := GetCurrentMaxPacketLength s in
  let s := SetMaxPacketLength target_mtu s in
  let s := on_creator (λ c, (PacketCreator.AddPaddedSavedFrame MtuDiscoveryFrame (next_transmission_type_ s) c).2) s in
  SetMaxPacketLength current_mtu (flush_creator s).

(** ** Flushing *)

Definition AttachPacketFlusher (s : t) : t :=
  let s := set_attached true s in
  if PacketNumber.IsInitialized (write_start_packet_number_ s) then s
  else set_write_start (PacketCreator.NextSendingPacketNumber (packet_creator_ s)) s.
(** Padding that is due goes into packets of its own as long as the delegate lets it. *)
Fixpoint SendRemainingPendingPadding (fuel : nat) (s : t) : t :=
  if (0 <? PacketCreator.pending_padding_bytes_ (packet_creator_ s)) && negb (HasPendingFrames s) then
    let '(yes, s) := may_generate NO_RETRANSMITTABLE_DATA NOT_HANDSHAKE s in
    if negb yes then s else
    match fuel with O => s | S fuel => SendRemainingPendingPadding fuel (flush_creator s) end
  else s.
Definition FlushAllQueuedFrames : t → t := flush_creator.
Definition Flush (s : t) : t :=
  let s := flush_creator s in
  let s := SendRemainingPendingPadding (Z.to_nat (PacketCreator.pending_padding_bytes_ (packet_creator_ s))) s in
  set_write_start PacketNumber.UninitializedPacketNumber (set_attached false s).

(** ** What is passed on *)

Definition StopSendingVersion : t → t := on_creator PacketCreator.StopSendingVersion.
Definition SetDiversificationNonce (nonce : list Z) : t → t := on_creator (PacketCreator.SetDiversificationNonce nonce).
Definition ReserializeAllFrames (r : QuicPendingRetransmission) (buffer_len : Z) : t → t := on_creator (PacketCreator.ReserializeAllFrames r buffer_len).
Definition UpdatePacketNumberLength (least_packet_awaited_by_peer max_packets_in_flight : Z) : t → t :=
  on_creator (PacketCreator.UpdatePacketNumberLength least_packet_awaited_by_peer max_packets_in_flight).
Definition SetServerConnectionIdLength (length : Z) : t → t := on_creator (PacketCreator.SetServerConnectionIdIncluded (negb (length =? 0))).
Definition set_encryption_level (level : EncryptionLevel) : t → t := on_creator (PacketCreator.set_level level).
Definition SetEncrypter (level : EncryptionLevel) (e : option Enc) : t → t := on_creator (PacketCreator.SetEncrypter level e).
Definition SetTransmissionType (type : TransmissionType) (s : t) : t :=
  let s := on_creator (PacketCreator.SetTransmissionType type) s in
  if PacketCreator.can_set_transmission_type_ (packet_creator_ s) then set_next_type type s else s.
Definition SetRetryToken (token : list Z) : t → t := on_creator (PacketCreator.SetRetryToken token).
Definition SetCanSetTransmissionType (can : bool) : t → t := on_creator (PacketCreator.set_can_set_transmission_type can).
Definition SetServerConnectionId (id : list Z) : t → t := on_creator (PacketCreator.SetServerConnectionId id).
Definition SetClientConnectionId (id : list Z) : t → t := on_creator (PacketCreator.SetClientConnectionId id).
Definition SerializeVersionNegotiationPacket (random : Z) (randoms : nat → Z) (ietf_quic : bool) (versions : list ParsedQuicVersion) (s : t) :=
  PacketCreator.SerializeVersionNegotiationPacket random randoms ietf_quic versions (packet_creator_ s).
Definition with_probe (f : QuicPacketCreator → option SerializedPacket * QuicPacketCreator) (s : t) : option SerializedPacket * t :=
  let '(p, c) := f (packet_creator_ s) in (p, set_creator c s).
Definition SerializeConnectivityProbingPacket : t → option SerializedPacket * t := with_probe PacketCreator.SerializeConnectivityProbingPacket.
Definition SerializePathChallengeConnectivityProbingPacket (payload : list Z) : t → option SerializedPacket * t :=
  with_probe (PacketCreator.SerializePathChallengeConnectivityProbingPacket payload).
Definition SerializePathResponseConnectivityProbingPacket (payloads : list (list Z)) (is_padded : bool) : t → option SerializedPacket * t :=
  with_probe (PacketCreator.SerializePathResponseConnectivityProbingPacket payloads is_padded).

(** ** Data in pieces *)

Section version_99.
Context {EL : EndianLaws} (stream_data : Z → Z → Z) (crypto_data : EncryptionLevel → Z → Z).

Abbreviation ready := (PacketCreator.ready (Dec := Dec)).
Abbreviation opened := (PacketCreator.opened stream_data crypto_data).
Abbreviation progress := (PacketCreator.progress stream_data crypto_data).
Abbreviation may_add := (PacketCreator.may_add stream_data crypto_data).
Abbreviation frame_ok := (PacketCreator.frame_ok stream_data crypto_data).
Abbreviation room := (PacketCreator.room stream_data crypto_data).
Abbreviation next := PacketCreator.NextSendingPacketNumber.

(** Frames with the bytes of a stream from an offset on, of these lengths; the last one may end the stream. *)
Fixpoint pieces (id off : Z) (fin : bool) (lengths : list Z) : list IetfFramer.QuicStreamFrame :=
  match lengths with
  | [] => []
  | [n] => [mk_stream id fin off n None]
  | n :: lengths => mk_stream id false off n None :: pieces id (off + n) fin lengths
  end.
Definition total (lengths : list Z) : Z := foldr Z.add 0 lengths.

Lemma pieces_app id off l1 l2 fin : l2 ≠ [] → pieces id off fin (l1 ++ l2) = pieces id off false l1 ++ pieces id (off + total l1) fin l2.
Proof.
  intros H. revert off. induction l1 as [|n l1 IH]; intros off; [cbn; by rewrite Z.add_0_r|]. cbn [app]. specialize (IH (off + n)).
  destruct l1 as [|m l1]; [destruct l2; [done|]; cbn; by rewrite Z.add_0_r|].
  cbn [app total foldr] in *. cbn [pieces]. rewrite <-app_comm_cons. f_equal. rewrite Z.add_assoc. exact IH.
Qed.

Lemma total_of_app l1 l2 : total (l1 ++ l2) = total l1 + total l2.
Proof. unfold total. induction l1 as [|n l1 IH]; [done|]. cbn [app foldr]. lia. Qed.

(** From one state to another, the frames of [n] bytes of the stream are accepted, the last one with [fin]. *)
Definition took (id off n : Z) (fin : bool) (c c' : QuicPacketCreator) : Prop :=
  ∃ lengths packets, progress c c' (map StreamFrame (pieces id off fin lengths)) packets ∧ total lengths = n ∧ Forall (λ n, 0 <= n) lengths
    ∧ (fin = true → lengths ≠ []) ∧ zlen packets <= n.

Lemma took_then id off n m fin c1 c2 c3 : took id off n false c1 c2 → took id (off + n) m fin c2 c3 → took id off (n + m) fin c1 c3.
Proof.
  intros (l1&p1&P1&H1&F1&_&Hp1) (l2&p2&P2&H2&F2&N2&Hp2). exists (l1 ++ l2), (p1 ++ p2). split_and!.
  - assert (E : map StreamFrame (pieces id off fin (l1 ++ l2)) = map StreamFrame (pieces id off false l1) ++ map StreamFrame (pieces id (off + n) fin l2)).
    { rewrite <-map_app. f_equal. destruct l2; [|rewrite <-H1; by apply pieces_app]. destruct fin; [by specialize (N2 eq_refl)|]. cbn. by rewrite !app_nil_r. }
    rewrite E. by apply (PacketCreator.progress_trans _ _ c1 c2).
  - rewrite total_of_app. lia.
  - by apply Forall_app.
  - intros Hf E. apply app_eq_nil in E as [_ E]. by apply N2.
  - rewrite zlen_app. lia.
Qed.

Lemma took_quiet id off n fin c1 c2 c3 : took id off n fin c1 c2 → progress c2 c3 [] [] → took id off n fin c1 c3.
Proof.
  intros (l&p&P&H) Q. exists l, p. split; [|exact H]. rewrite <-(app_nil_r (map _ _)), <-(app_nil_r p). by apply (PacketCreator.progress_trans _ _ c1 c2).
Qed.

Lemma took_none id off c c' : progress c c' [] [] → took id off 0 false c c'.
Proof. intros P. exists [], []. by split_and!. Qed.

(** Nothing changes but what the delegate knows. *)
Lemma may_generate_creator r h s : packet_creator_ (may_generate r h s).2 = packet_creator_ s.
Proof. unfold may_generate. by destruct (ShouldGeneratePacket _ _ _ _). Qed.
Lemma progress_refl c : ready c → opened c → progress c c [] [].
Proof. intros R O. by apply PacketCreator.progress_kept; [split| | |rewrite app_nil_r]. Qed.

(** Data of a stream that can be sent at the level of the creator. *)
Record sendable (c : QuicPacketCreator) (id offset write_length : Z) : Prop := {
  sendable_id : is_u32 id;
  sendable_offset : 0 <= offset;
  sendable_length : 0 <= write_length;
  sendable_end : offset + write_length < 2 ^ 62;
  sendable_level : PacketCreator.encryption_level (PacketCreator.packet_ c) ≠ ENCRYPTION_INITIAL ∧ PacketCreator.encryption_level (PacketCreator.packet_ c) ≠ ENCRYPTION_HANDSHAKE;
  sendable_data : ∀ off n fin, offset <= off → 0 <= n → off + n <= offset + write_length → is_u16 n →
    frame_ok (PacketCreator.frames c) (StreamFrame (mk_stream id fin off n None));
}.

Lemma sendable_same c c' id offset write_length : PacketCreator.same_setup c c' → sendable c id offset write_length → sendable c' id offset write_length.
Proof. intros H []. destruct H. split; try done; by rewrite ?same_level, ?same_frames. Qed.

Lemma sendable_rest c id offset write_length total : sendable c id offset write_length → 0 <= total <= write_length →
  is_u32 id ∧ IetfFramer.is_varint (offset + total) ∧ wrap64 (offset + total) = offset + total
  ∧ PacketCreator.stream_data_ok stream_data crypto_data c id (write_length - total) (offset + total) ∧ wrap64 (write_length - total) = write_length - total
  ∧ write_length < two63.
Proof.
  intros [] H. split; [done|]. split; [unfold IetfFramer.is_varint; lia|]. split; [apply PacketCreator.wrap64_small; unfold two63; lia|].
  split; [|split; [apply PacketCreator.wrap64_small; unfold two63; lia|unfold two63; lia]].
  split; [unfold two63; lia|]. intros n fin Hn Hu. apply sendable_data0; [lia|lia|lia|done].
Qed.

(** ** The fast path *)

Lemma fast_done fuel id wl offset fin s :
  ConsumeDataFastPath fuel id wl offset fin wl s = Some (mk_consumed wl fin, s).
Proof. destruct fuel; cbn; rewrite Z.ltb_irrefl, Z.eqb_refl, andb_true_r; done. Qed.

(** The fast path ends, and reports the data it has sent: all of it, if the delegate lets it. *)
Lemma fast_path_sends fuel id wl offset fin sofar s :
  ready (packet_creator_ s) → opened (packet_creator_ s) → PacketCreator.queued_frames_ (packet_creator_ s) = [] →
  sendable (packet_creator_ s) id offset wl → 0 <= sofar < wl → wl - sofar <= Z.of_nat fuel → next (packet_creator_ s) + (wl - sofar) < 2 ^ 62 →
  ∃ n s', ConsumeDataFastPath fuel id wl offset fin sofar s = Some (mk_consumed (sofar + n) (fin && (sofar + n =? wl)), s')
    ∧ 0 <= n <= wl - sofar ∧ took id (offset + sofar) n (fin && (sofar + n =? wl)) (packet_creator_ s) (packet_creator_ s')
    ∧ ((∀ w calls r h, (ShouldGeneratePacket w calls r h).1 = true) → n = wl - sofar).
Proof.
  revert sofar s. induction fuel as [|fuel IH]; intros sofar s R O Hq Hs Hsofar Hfuel Hnext; [lia|].
  cbn [ConsumeDataFastPath]. destruct (Z.ltb_spec sofar wl); [|lia]. pose proof (may_generate_creator HAS_RETRANSMITTABLE_DATA NOT_HANDSHAKE s) as Hc.
  assert (Hyes : (∀ w calls r h, (ShouldGeneratePacket w calls r h).1 = true) → (may_generate HAS_RETRANSMITTABLE_DATA NOT_HANDSHAKE s).1 = true).
  { intros Hall. unfold may_generate. specialize (Hall (delegate_ s) (PacketCreator.calls (packet_creator_ s)) HAS_RETRANSMITTABLE_DATA NOT_HANDSHAKE).
    by destruct (ShouldGeneratePacket _ _ _ _). }
  destruct (may_generate HAS_RETRANSMITTABLE_DATA NOT_HANDSHAKE s) as [yes s1]. cbn [fst snd] in *. destruct yes; cbn [negb].
  2:{ exists 0, s1. rewrite !Z.add_0_r, Hc. assert (E : sofar =? wl = false) by lia. rewrite E, andb_false_r. split; [done|]. split; [lia|].
      split; [|by intros H'; specialize (Hyes H')]. apply took_none. by apply progress_refl. }
  destruct (sendable_rest _ id offset wl sofar Hs ltac:(lia)) as (Hid&Ho&Hw&Hd&_&Hwl). rewrite Hw, Hc.
  pose proof (PacketCreator.fast_spec stream_data crypto_data (packet_creator_ s) id wl sofar (offset + sofar) fin (next_transmission_type_ s1) R O Hq ltac:(lia) Hid Ho
    ltac:(lia) Hwl Hd) as H'. cbv zeta in H'. destruct (PacketCreator.CreateAndSerializeStreamFrame _ _ _ _ _ _ _) as [consumed c2]. destruct H' as [Hcons (p&P)].
  destruct (PacketCreator.fast_bounds (packet_creator_ s) id (offset + sofar) (wl - sofar) R Hid Ho ltac:(lia)) as (Hn&_&Hpos&_).
  set (n := PacketCreator.fast_size (packet_creator_ s) id (offset + sofar) (wl - sofar)) in *.
  change (consumed = n) in Hcons. subst consumed.
  change (PacketCreator.fast_frame (packet_creator_ s) id (offset + sofar) (wl - sofar) fin) with (mk_stream id (fin && (n =? wl - sofar)) (offset + sofar) n None) in P.
  assert (T : took id (offset + sofar) n (fin && (n =? wl - sofar)) (packet_creator_ s) c2).
  { exists [n], [([StreamFrame (mk_stream id (fin && (n =? wl - sofar)) (offset + sofar) n None)], p)]. split; [exact P|].
    split; [cbn; lia|]. split; [constructor; [lia|constructor]|]. split; [done|]. unfold zlen. cbn. lia. }
  destruct (Z.eqb_spec n (wl - sofar)) as [En|En].
  - replace (sofar + n) with wl by lia. rewrite fast_done. exists n, (set_creator c2 s1). replace (sofar + n) with wl by lia. rewrite Z.eqb_refl.
    rewrite andb_true_r in *. split; [done|]. split; [lia|]. split; [exact T|by intros].
  - rewrite andb_false_r in T. destruct (IH (sofar + n) (set_creator c2 s1)) as (m&s'&E&Hm&T2&Hall).
    + apply P.
    + apply P.
    + pose proof (PacketCreator.progress_frames _ _ _ _ _ _ P) as Hf. rewrite Hq in Hf. cbn in Hf. by injection Hf.
    + by apply (sendable_same (packet_creator_ s)), Hs; apply P.
    + lia.
    + lia.
    + change (packet_creator_ (set_creator c2 s1)) with c2. rewrite (PacketCreator.progress_next _ _ _ _ _ _ P). unfold zlen. cbn. lia.
    + exists (n + m), s'. rewrite Z.add_assoc. split; [exact E|]. split; [lia|]. split; [|intros H'; specialize (Hall H'); lia].
      rewrite Z.add_assoc in T2. exact (took_then _ _ _ _ _ _ _ _ T T2).
Qed.

(** ** The loop over packets *)

Lemma willing_yes r h s : (∀ w calls r h, (ShouldGeneratePacket w calls r h).1 = true) → (may_generate r h s).1 = true.
Proof.
  intros H. unfold may_generate. specialize (H (delegate_ s) (PacketCreator.calls (packet_creator_ s)) r h). by destruct (ShouldGeneratePacket _ _ _ _).
Qed.

Definition sends_fin (state : StreamSendingState) : bool := match state with NO_FIN => false | _ => true end.

(** An empty packet has room for a stream frame. *)
Lemma empty_has_room c id offset : ready c → PacketCreator.queued_frames_ c = [] → is_u32 id → IetfFramer.is_varint offset →
  PacketCreator.stream_overhead id offset < room c.
Proof.
  intros R Hq Hid Ho. rewrite (PacketCreator.empty_room _ _ c R Hq). pose proof (PacketCreator.stream_overhead_range id offset Hid Ho). pose proof (PacketCreator.ready_room c R). lia.
Qed.

(** The end of the stream may come with random padding. *)
Lemma random_padding_progress s : ready (packet_creator_ s) → opened (packet_creator_ s) → next (packet_creator_ s) < 2 ^ 62 →
  PacketCreator.pending_padding_bytes_ (packet_creator_ s) + 256 < 32768 →
  progress (packet_creator_ s) (packet_creator_ (AddRandomPadding s)) [] [].
Proof.
  intros R O Hn Hp. set (n := RandUint64 (random_numbers_drawn s) mod kMaxNumRandomPaddingBytes + 1).
  assert (Hrange : 1 <= n <= 256). { unfold n, kMaxNumRandomPaddingBytes. pose proof (Z.mod_pos_bound (RandUint64 (random_numbers_drawn s)) 256 eq_refl). lia. }
  exact (proj1 (PacketCreator.Pad_progress stream_data crypto_data n (packet_creator_ s) R O ltac:(lia) ltac:(lia))).
Qed.

Lemma one_piece id off n fin c c' packets : progress c c' [StreamFrame (mk_stream id fin off n None)] packets → 0 <= n → zlen packets <= n → took id off n fin c c'.
Proof. intros P Hn Hp. exists [n], packets. split; [exact P|]. split; [cbn; lia|]. split; [constructor; [lia|constructor]|]. done. Qed.

Lemma slow_path_sends fuel id wl offset state sofar fast s :
  let fin := sends_fin state in
  ready (packet_creator_ s) → opened (packet_creator_ s) → sendable (packet_creator_ s) id offset wl →
  0 <= sofar <= wl → (sofar = wl → wl = 0 ∧ fin = true) → wl - sofar < Z.of_nat fuel → next (packet_creator_ s) + (wl - sofar) + 1 < 2 ^ 62 →
  PacketCreator.pending_padding_bytes_ (packet_creator_ s) + 256 < 32768 →
  fast = is_fast false state (wl - sofar) s → (fast = false → PacketCreator.stream_overhead id (offset + sofar) < room (packet_creator_ s)) →
  ∃ n b stop s', slow_loop fuel id wl offset state false sofar false fast s = Stopped (sofar + n) b stop s'
    ∧ 0 <= n <= wl - sofar ∧ took id (offset + sofar) n b (packet_creator_ s) (packet_creator_ s')
    ∧ (0 < wl ∨ b = true → b = fin && (sofar + n =? wl))
    ∧ (if stop then b = false ∧ sofar + n < wl ∧ PacketCreator.queued_frames_ (packet_creator_ s') = []
       else (∀ w calls r h, (ShouldGeneratePacket w calls r h).1 = true) → n = wl - sofar ∧ b = fin).
Proof.
  intros fin. revert sofar fast s. induction fuel as [|fuel IH]; intros sofar fast s R O Hs Hsofar Hz Hfuel Hnext Hpend Hfast Hroom; [lia|].
  cbn [slow_loop]. fold (sends_fin state). fold fin. destruct fast.
  { exists 0, false, true, s. rewrite Z.add_0_r. split; [done|]. split; [lia|]. split; [by apply took_none, progress_refl|].
    unfold is_fast in Hfast. symmetry in Hfast. rewrite !andb_true_iff in Hfast. destruct Hfast as [[_ Hp] Hbig]. apply Z.ltb_lt in Hbig. unfold PacketCreator.kMaxOutgoingPacketSize in Hbig.
    assert (E : sofar =? wl = false) by lia. rewrite E, andb_false_r. split; [done|]. split; [done|].
    split; [lia|]. unfold HasPendingFrames, PacketCreator.HasPendingFrames in Hp. rewrite negb_involutive in Hp. apply bool_decide_eq_true in Hp. by apply length_zero_iff_nil. }
  specialize (Hroom eq_refl). pose proof (may_generate_creator HAS_RETRANSMITTABLE_DATA NOT_HANDSHAKE s) as Hc. pose proof (willing_yes HAS_RETRANSMITTABLE_DATA NOT_HANDSHAKE s) as Hyes.
  destruct (may_generate HAS_RETRANSMITTABLE_DATA NOT_HANDSHAKE s) as [yes s1]. cbn [fst snd] in Hc, Hyes. destruct yes; cbn [negb].
  2:{ exists 0, false, false, s1. rewrite Z.add_0_r, Hc. split; [done|]. split; [lia|]. split; [by apply took_none, progress_refl|].
    split; [|intros H'; by specialize (Hyes H')]. intros [H'|H']; [|done]. assert (E : sofar =? wl = false) by lia. by rewrite E, andb_false_r. }
  clear Hyes. rewrite <-Hc in *. clear s Hc Hfast. rename s1 into s.
  destruct (sendable_rest _ id offset wl sofar Hs Hsofar) as (Hid&Ho&Hw&Hd&_&_). rewrite Hw. cbn [andb]. destruct (sendable_level _ _ _ _ Hs) as [Hl1 Hl2].
  pose proof (PacketCreator.ConsumeData_spec quic_enforce_single_packet_chlo stream_data crypto_data (packet_creator_ s) id (wl - sofar) (offset + sofar) fin false (next_transmission_type_ s)
    R O ltac:(lia) Hd Hl1 Hl2) as H'. cbv zeta in H'. destruct (PacketCreator.ConsumeData _ _ _ _ _ _ _ _) as [r c2].
  destruct (Z.ltb_spec (PacketCreator.stream_overhead id (offset + sofar)) (room (packet_creator_ s))); [|lia]. destruct H' as [[-> P] Hpend2].
  set (n := (room (packet_creator_ s) - PacketCreator.stream_overhead id (offset + sofar)) `min` (wl - sofar)) in *.
  assert (Hn : 0 <= n <= wl - sofar ∧ (sofar = wl ∨ 1 <= n)) by (unfold n; lia). cbn [data_length].
  assert (Ttook : took id (offset + sofar) n (fin && (n =? wl - sofar)) (packet_creator_ s) c2) by (eapply one_piece; [exact P|lia|unfold zlen; cbn; lia]).
  pose proof (PacketCreator.progress_ready _ _ _ _ _ _ P) as R2. pose proof (PacketCreator.progress_opened _ _ _ _ _ _ P) as O2.
  pose proof (PacketCreator.progress_next _ _ _ _ _ _ P) as Hn2. rewrite (@zlen_nil (list QuicFrame * SerializedPacket)), Z.add_0_r in Hn2.
  replace (sofar + n =? wl) with (n =? wl - sofar) by lia. destruct (Z.eqb_spec n (wl - sofar)) as [En|En].
  - rewrite andb_true_r in *. eexists n, fin, false, _. split; [reflexivity|]. split; [lia|]. split; [|split; [intros _; replace (sofar + n) with wl by lia; by rewrite Z.eqb_refl, andb_true_r|intros _; split; [lia|done]]].
    destruct (fin && _) eqn:Efp; [|exact Ttook]. apply (took_quiet _ _ _ _ _ c2); [exact Ttook|].
    apply (random_padding_progress (set_creator c2 s)); [done|done|cbn; lia|cbn; lia].
  - rewrite andb_false_r in *. cbn [andb].
    destruct (PacketCreator.Flush_spec stream_data crypto_data c2 R2 ltac:(lia) O2) as (packets&P2&Hlen&Hq&Hpend3).
    pose proof (PacketCreator.progress_ready _ _ _ _ _ _ P2) as R3. pose proof (PacketCreator.progress_opened _ _ _ _ _ _ P2) as O3.
    assert (T3 : took id (offset + sofar) n false (packet_creator_ s) (PacketCreator.Flush c2)).
    { eapply one_piece; [|lia|instantiate (1 := packets); lia]. rewrite <-(app_nil_r [StreamFrame _]). change packets with ([] ++ packets).
      by apply (PacketCreator.progress_trans _ _ _ c2). }
    set (s3 := flush_creator (set_creator c2 s)). change (PacketCreator.Flush c2) with (packet_creator_ s3) in *.
    assert (Hs3 : sendable (packet_creator_ s3) id offset wl).
    { apply (sendable_same (packet_creator_ s)); [|done]. destruct T3 as (?&?&P3&_). apply P3. }
    destruct (IH (sofar + n) (is_fast false state (wl - (sofar + n)) s3) s3 R3 O3 Hs3 ltac:(lia) ltac:(lia) ltac:(lia)) as (m&b&stop&s'&E&Hm&T4&Hb&Hstop).
    + rewrite (PacketCreator.progress_next _ _ _ _ _ _ P2), Hn2. lia.
    + lia.
    + done.
    + intros _. apply empty_has_room; [done|done|done|]. unfold IetfFramer.is_varint. destruct Hs. lia.
    + exists (n + m), b, stop, s'. rewrite Z.add_assoc in T4 |- *. split; [exact E|]. split; [lia|].
      split; [exact (took_then _ _ _ _ _ _ _ _ T3 T4)|]. split; [exact Hb|]. destruct stop; [exact Hstop|]. intros H'. destruct (Hstop H'). split; [lia|done].
Qed.

(** ** ACKs that go along *)

(** The frames that the delegate bundles are ACK frames that a packet has room for. *)
Definition polite (c : QuicPacketCreator) : Prop :=
  ∀ w told, zlen (BundledAckFrames w told).1 <= 2 ∧ Forall (λ f, PacketCreator.is_ack f = true ∧ may_add c f) (BundledAckFrames w told).1.

(** Frames of a list are accepted, in order; the rest is as it was. *)
Definition accepts (fs : list QuicFrame) (k : Z) (c c' : QuicPacketCreator) : Prop :=
  ∃ accepted packets, progress c c' accepted packets ∧ sublist accepted fs ∧ zlen packets <= k
    ∧ PacketCreator.pending_padding_bytes_ c' <= PacketCreator.pending_padding_bytes_ c.

Lemma accepts_none fs k c : ready c → opened c → 0 <= k → accepts fs k c c.
Proof. intros R O Hk. exists [], []. split; [by apply progress_refl|]. split; [apply sublist_nil_l|]. split; [done|lia]. Qed.

Lemma accepts_then f fs k1 k2 c1 c2 c3 : accepts [f] k1 c1 c2 → accepts fs k2 c2 c3 → accepts (f :: fs) (k1 + k2) c1 c3.
Proof.
  intros (a1&p1&P1&S1&L1&Q1) (a2&p2&P2&S2&L2&Q2). exists (a1 ++ a2), (p1 ++ p2). split; [by apply (PacketCreator.progress_trans _ _ c1 c2)|].
  split; [by apply (sublist_app a1 [f] a2 fs)|]. rewrite zlen_app. lia.
Qed.

Lemma AddSavedFrame_accepts f s : let c := packet_creator_ s in ready c → opened c → next c < 2 ^ 62 → may_add c f →
  accepts (if (AddSavedFrame f s).1 then [f] else []) 1 c (packet_creator_ (AddSavedFrame f s).2).
Proof.
  intros c R O Hn Hm. unfold AddSavedFrame, PacketCreator.AddSavedFrame. fold c.
  pose proof (PacketCreator.AddFrame_spec stream_data crypto_data f (next_transmission_type_ s) c R Hn O Hm) as H.
  destruct (PacketCreator.AddFrame f true _ c) as [ok c']. destruct H as (packets&P&Hl&Hp&_). cbn [fst snd]. exists (if ok then [f] else []), packets.
  split; [done|]. split; [done|]. split; [done|]. exact Hp.
Qed.

Lemma accepts_next fs k c c' : accepts fs k c c' → ready c' ∧ opened c' ∧ next c' <= next c + k ∧ PacketCreator.same_setup c c'
  ∧ PacketCreator.pending_padding_bytes_ c' <= PacketCreator.pending_padding_bytes_ c.
Proof. intros (a&p&P&S&L&Q). split_and!; [apply P|apply P| |apply P|done]. rewrite (PacketCreator.progress_next _ _ _ _ _ _ P). lia. Qed.

Lemma accepts_less k f (b : bool) c c' : accepts (if b then [f] else []) k c c' → accepts [f] k c c'.
Proof. intros (a&p&P&S&H). exists a, p. split; [done|]. split; [|done]. destruct b; [done|]. apply sublist_nil_r in S as ->. apply sublist_nil_l. Qed.

Lemma FlushAckFrame_spec fs s : let c := packet_creator_ s in ready c → opened c → next c + 2 * zlen fs < 2 ^ 62 → Forall (may_add c) fs →
  accepts fs (2 * zlen fs) c (packet_creator_ (FlushAckFrame fs s).2).
Proof.
  cbv zeta. revert s. induction fs as [|f fs IH]; intros s R O Hn Hm; [by apply accepts_none|]. apply Forall_cons in Hm as [Hf Hfs].
  rewrite zlen_cons in *. pose proof (zlen_nonneg fs). cbn [FlushAckFrame].
  assert (Hrest : ∀ s', accepts [f] 2 (packet_creator_ s) (packet_creator_ s') → accepts (f :: fs) (2 * (1 + zlen fs)) (packet_creator_ s) (packet_creator_ (FlushAckFrame fs s').2)).
  { intros s' A. destruct (accepts_next _ _ _ _ A) as (R'&O'&Hn'&E&_). replace (2 * (1 + zlen fs)) with (2 + 2 * zlen fs) by lia. apply (accepts_then _ _ _ _ _ (packet_creator_ s')); [done|].
    apply IH; [done|done|lia|]. eapply Forall_impl; [exact Hfs|]. intros g. exact (PacketCreator.may_add_same _ _ _ _ g E). }
  set (x := if HasPendingFrames s then _ else _). assert (Hx : accepts (if x.1 then [f] else []) 1 (packet_creator_ s) (packet_creator_ x.2)).
  { unfold x. destruct (HasPendingFrames s); [by apply AddSavedFrame_accepts; [..|lia|]|by apply accepts_none]. }
  destruct x as [bundled s1]. cbn [fst snd] in Hx. destruct bundled.
  { apply Hrest. destruct Hx as (a&p&P&S&L&Q). exists a, p. split_and!; [done|done|lia|done]. }
  pose proof (may_generate_creator NO_RETRANSMITTABLE_DATA NOT_HANDSHAKE s1) as Hc. destruct (may_generate NO_RETRANSMITTABLE_DATA NOT_HANDSHAKE s1) as [yes s2]. cbn [snd] in Hc.
  destruct (accepts_next _ _ _ _ Hx) as (R1&O1&Hn1&E1&_). destruct yes; cbn [negb].
  - apply Hrest. rewrite <-Hc in *. assert (A : accepts [f] 1 (packet_creator_ s2) (packet_creator_ (AddSavedFrame f s2).2)).
    { apply (accepts_less _ _ (AddSavedFrame f s2).1). apply AddSavedFrame_accepts; [done|done|lia|]. exact (PacketCreator.may_add_same _ _ _ _ f E1 Hf). }
    destruct Hx as (a&p&P&S&L&Q). apply sublist_nil_r in S as ->. destruct A as (a2&p2&P2&S2&L2&Q2). exists a2, (p ++ p2).
    split; [exact (PacketCreator.progress_trans _ _ _ _ _ [] a2 p p2 P P2)|]. split; [done|]. rewrite zlen_app. lia.
  - cbn [snd]. rewrite Hc. destruct Hx as (a&p&P&S&L&Q). exists a, p. split; [done|]. split; [apply sublist_nil_r in S as ->; apply sublist_nil_l|]. split; [lia|done].
Qed.

Lemma MaybeBundleAck_spec s : let c := packet_creator_ s in ready c → opened c → next c + 4 < 2 ^ 62 → polite c →
  ∃ acks, accepts acks 4 c (packet_creator_ (MaybeBundleAckOpportunistically s)) ∧ Forall (λ f, PacketCreator.is_ack f = true) acks.
Proof.
  intros c R O Hn Hpol. unfold MaybeBundleAckOpportunistically. destruct (PacketCreator.has_ack _); [exists []; by split; [apply accepts_none|]|].
  pose proof (may_generate_creator NO_RETRANSMITTABLE_DATA NOT_HANDSHAKE s) as Hc. destruct (may_generate NO_RETRANSMITTABLE_DATA NOT_HANDSHAKE s) as [yes s1]. cbn [snd] in Hc.
  destruct yes; cbn [negb]; [|exists []; rewrite Hc; by split; [apply accepts_none|]].
  destruct (Hpol (delegate_ s1) (PacketCreator.calls (packet_creator_ s1))) as [Hlen Hfs]. destruct (BundledAckFrames (delegate_ s1) (PacketCreator.calls (packet_creator_ s1))) as [fs d].
  cbn [fst] in Hlen, Hfs. exists fs. split; [|eapply Forall_impl; [exact Hfs|by intros f []]].
  pose proof (FlushAckFrame_spec fs (set_delegate d s1)) as A. cbv zeta in A. change (packet_creator_ (set_delegate d s1)) with (packet_creator_ s1) in A. rewrite Hc in A. fold c in A.
  specialize (A R O ltac:(lia)). destruct A as (a&p&P&S&L&Q); [eapply Forall_impl; [exact Hfs|by intros f []]|]. exists a, p. split; [done|]. split; [done|]. split; [lia|done].
Qed.

(** ** All data is reported and sent *)

Lemma stream_room s id offset wl : let c := packet_creator_ s in ready c → opened c → is_u32 id → IetfFramer.is_varint offset → next c < 2 ^ 62 →
  let '(has_room, c1) := PacketCreator.HasRoomForStreamFrame id offset wl c in
  let c2 := if has_room then c1 else PacketCreator.Flush c1 in
  accepts [] 1 c c2 ∧ PacketCreator.stream_overhead id offset < room c2.
Proof.
  intros c R O Hid Ho Hn. unfold PacketCreator.HasRoomForStreamFrame. rewrite (PacketCreator.BytesFree_spec _ _ c R O).
  destruct (PacketCreator.ask_room _ _ c R O) as (R1&O1&Hr1&_&_&Hn1&_). rewrite (PacketCreator.stream_overhead_spec _ id offset _ R1).
  assert (P1 : progress c (PacketCreator.sized c) [] []).
  { apply PacketCreator.alike_kept; [done|apply PacketCreator.sized_kept|apply PacketCreator.sized_queue|done]. }
  assert (Hp1 : PacketCreator.pending_padding_bytes_ (PacketCreator.sized c) = PacketCreator.pending_padding_bytes_ c).
  { exact (PacketCreator.kept_pending _ _ (PacketCreator.sized_kept c)). }
  destruct (Z.ltb_spec (PacketCreator.stream_overhead id offset) (room c)) as [Hlt|_].
  - split; [|by rewrite Hr1]. exists [], []. split; [exact P1|]. split; [done|]. split; [done|lia].
  - destruct (PacketCreator.Flush_spec stream_data crypto_data (PacketCreator.sized c) R1 ltac:(lia) O1) as (packets&P2&Hl&Hq&Hp2). split.
    + exists [], packets. split; [exact (PacketCreator.progress_trans _ _ _ _ _ [] [] [] packets P1 P2)|]. split; [done|]. lia.
    + apply empty_has_room; [apply P2|done|done|done].
Qed.

Lemma accepts_acks acks k1 k2 c1 c2 c3 : accepts acks k1 c1 c2 → accepts [] k2 c2 c3 → Forall (λ f, PacketCreator.is_ack f = true) acks →
  ∃ a packets, progress c1 c3 a packets ∧ Forall (λ f, PacketCreator.is_ack f = true) a.
Proof.
  intros (a&p&P&S&_) (a2&p2&P2&S2&_) H. apply sublist_nil_r in S2 as ->. exists a, (p ++ p2).
  split; [rewrite <-(app_nil_r a); by apply (PacketCreator.progress_trans _ _ c1 c2)|].
  apply Forall_forall. intros f Hf. apply (proj1 (Forall_forall _ _) H). by eapply sublist_subseteq.
Qed.

(** C4. Stream data is reported exactly as it was sent. Take a generator of version 99 whose creator is set up, at a level that is
    neither the initial one nor that of the handshake, where the creator raises an error for stream data ([sendable]); data within
    the limits of the protocol; less than 32512 bytes of padding due; and a delegate that bundles at most two frames, legal ACKs
    that fit an empty packet ([polite]): one that does not fit jams the creator. Whatever legal frames are open and whatever the
    delegate answers when it is asked whether a packet may be generated, the call ends; the number of bytes it reports was
    accepted by the creator as stream frames without a gap, from the offset on and in order, behind at most the ACK frames of the
    delegate, and nothing else was; the end of the stream is reported if and only if all data was and the last frame has the end;
    no error is raised, and the packets that had to be sent on the way hold the frames accepted before, once and in order
    ([progress]). If the delegate always lets packets be generated, all data and the end are consumed. *)
Theorem consumed_data_is_sent id write_length offset state s :
  let c := packet_creator_ s in let fin := sends_fin state in
  ready c → opened c → polite c → sendable c id offset write_length → (fin = false → 0 < write_length) →
  next c + write_length + 6 < 2 ^ 62 → PacketCreator.pending_padding_bytes_ c + 256 < 32768 →
  ∃ n b s' acks lengths packets,
    ConsumeData id write_length offset state s = Some (mk_consumed n b, s')
    ∧ 0 <= n <= write_length ∧ (0 < write_length ∨ b = true → b = fin && (n =? write_length))
    ∧ progress c (packet_creator_ s') (acks ++ map StreamFrame (pieces id offset b lengths)) packets
    ∧ Forall (λ f, PacketCreator.is_ack f = true) acks ∧ total lengths = n ∧ Forall (λ n, 0 <= n) lengths ∧ (b = true → lengths ≠ [])
    ∧ ((∀ w calls r h, (ShouldGeneratePacket w calls r h).1 = true) → n = write_length ∧ b = fin).
Proof.
  intros c fin R O Hpol Hs Hempty Hnext Hpend. destruct (MaybeBundleAck_spec s R O ltac:(fold c; destruct Hs; lia) Hpol) as (acks&A&Hacks).
  fold c in A. destruct (accepts_next _ _ _ _ A) as (R1&O1&Hn1&E1&Hp1). set (s1 := MaybeBundleAckOpportunistically s) in *.
  destruct (sendable_rest c id offset write_length 0 Hs ltac:(destruct Hs; lia)) as (Hid&Ho&_). rewrite Z.add_0_r in Ho.
  pose proof (stream_room s1 id offset write_length R1 O1 Hid Ho ltac:(destruct Hs; lia)) as H.
  unfold ConsumeData. fold s1 c. rewrite (PacketCreator.no_crypto_stream c id R). cbn [andb].
  destruct (PacketCreator.HasRoomForStreamFrame id offset write_length (packet_creator_ s1)) as [has_room c1]. destruct H as [A2 Hroom].
  set (s2 := if negb has_room then _ else _).
  assert (E2 : packet_creator_ s2 = if has_room then c1 else PacketCreator.Flush c1) by (unfold s2; by destruct has_room).
  rewrite <-E2 in A2, Hroom. clearbody s2. clear E2 c1 has_room. destruct (accepts_next _ _ _ _ A2) as (R2&O2&Hn2&E2&Hp2).
  assert (Hs2 : sendable (packet_creator_ s2) id offset write_length) by (apply (sendable_same c); [exact (PacketCreator.same_setup_trans _ _ _ E1 E2)|done]).
  destruct (accepts_acks _ _ _ _ _ _ A A2 Hacks) as (a&p'&P12&Ha).
  fold (sends_fin state). fold fin. assert (Ez : negb fin && (write_length =? 0) = false).
  { destruct fin eqn:Ef; [done|]. specialize (Hempty eq_refl). cbn. lia. }
  rewrite Ez. pose proof (sendable_length _ _ _ _ Hs) as Hlen.
  destruct (slow_path_sends (S (Z.to_nat write_length)) id write_length offset state 0 (is_fast false state write_length s2) s2 R2 O2 Hs2 ltac:(lia))
    as (n&b&stop&s'&E&Hn&T&Hb&Hstop).
  - intros <-. split; [done|]. fold fin. destruct fin; [done|]. specialize (Hempty eq_refl). lia.
  - lia.
  - lia.
  - lia.
  - by rewrite Z.sub_0_r.
  - intros _. by rewrite Z.add_0_r.
  - rewrite Z.sub_0_r, ?Z.add_0_r, Z.add_0_l in *. rewrite E. destruct stop.
    + destruct Hstop as (->&Hlt&Hq). pose proof T as (lengths&packets&P&_). pose proof (PacketCreator.progress_next _ _ _ _ _ _ P) as Hn3.
      destruct T as (l0&p0&P0&Ht0&Hf0&_&Hl0). pose proof (PacketCreator.progress_next _ _ _ _ _ _ P0) as Hn4.
      assert (T : took id offset n false (packet_creator_ s2) (packet_creator_ s')) by (exists l0, p0; by split_and!).
      destruct (fast_path_sends (S (Z.to_nat write_length)) id write_length offset fin n s') as (m&s''&E'&Hm&T'&Hall); try (by apply P0); try done; try lia.
      { apply (sendable_same (packet_creator_ s2)); [apply P0|done]. }
      rewrite E'. destruct (took_then _ _ _ _ _ _ _ _ T T') as (ls&ps&P3&Ht&Hf&Hne&Hl).
      exists (n + m), (fin && (n + m =? write_length)), s'', a, ls, (p' ++ ps). split; [done|]. split; [lia|]. split; [done|].
      split; [by apply (PacketCreator.progress_trans _ _ c (packet_creator_ s2))|]. split_and!; try done.
      intros H. specialize (Hall H). assert (Ew : n + m = write_length) by lia. rewrite Ew, Z.eqb_refl, andb_true_r. done.
    + destruct T as (ls&ps&P3&Ht&Hf&Hne&Hl). exists n, b, s', a, ls, (p' ++ ps). split; [done|]. split; [lia|]. split; [exact Hb|].
      split; [by apply (PacketCreator.progress_trans _ _ c (packet_creator_ s2))|]. by split_and!.
Qed.

(** ** Crypto data *)

(** Frames with crypto data of a level, from an offset on, of these lengths. *)
Fixpoint crypto_pieces (level : EncryptionLevel) (off : Z) (lengths : list Z) : list QuicFrame :=
  match lengths with
  | [] => []
  | n :: lengths => CryptoFrame (mk_crypto level off n None) :: crypto_pieces level (off + n) lengths
  end.

(** Crypto data that can be sent: the overhead of its frames is known as long as it ends by the 65536th byte. *)
Record crypto_sendable (c : QuicPacketCreator) (level : EncryptionLevel) (offset write_length : Z) : Prop := {
  crypto_sendable_offset : 0 <= offset;
  crypto_sendable_length : 0 <= write_length;
  crypto_sendable_end : offset + write_length <= 65536;
  crypto_sendable_data : ∀ off n, offset <= off → 0 <= n → off + n <= offset + write_length → frame_ok (PacketCreator.frames c) (CryptoFrame (mk_crypto level off n None));
}.
Lemma crypto_sendable_same c c' level offset write_length : PacketCreator.same_setup c c' → crypto_sendable c level offset write_length → crypto_sendable c' level offset write_length.
Proof. intros H []. destruct H. split; try done; by rewrite ?same_frames. Qed.

Lemma crypto_overhead_range size offset : 0 <= size < 2 ^ 62 → PacketCreator.crypto_overhead size offset <= 17.
Proof.
  intros Hs. unfold PacketCreator.crypto_overhead. pose proof (PacketCreator.len62_range size Hs). pose proof (Z.mod_pos_bound offset two16 eq_refl) as Hm.
  fold (wrap16 offset) in Hm. pose proof (PacketCreator.len62_range (wrap16 offset) ltac:(unfold two16 in Hm; lia)). lia.
Qed.

Lemma crypto_has_room c size offset : ready c → PacketCreator.queued_frames_ c = [] → 0 <= size < 2 ^ 62 → PacketCreator.crypto_overhead size offset < room c.
Proof.
  intros R Hq Hs. rewrite (PacketCreator.empty_room _ _ c R Hq). pose proof (crypto_overhead_range size offset Hs). pose proof (PacketCreator.ready_room c R). lia.
Qed.

(** The retransmittable frames of a packet, and of one that was made by a single flush. *)
Definition retransmittables (fs : list QuicFrame) : Z := zlen (List.filter PacketCreator.IsRetransmittableFrame fs).

Lemma retransmittables_app a b : retransmittables (a ++ b) = retransmittables a + retransmittables b.
Proof. unfold retransmittables. by rewrite List.filter_app, zlen_app. Qed.

Lemma single_packet (c c' : QuicPacketCreator) a packets k : progress c c' a packets → zlen packets <= 1 → retransmittables (PacketCreator.queued_frames_ c ++ a) <= k →
  Forall (λ x, retransmittables x.1 <= k) packets.
Proof.
  intros P Hl Hk. pose proof (PacketCreator.progress_frames _ _ _ _ _ _ P) as Hf. destruct packets as [|x [|y packets]].
  - constructor.
  - constructor; [|constructor]. rewrite <-Hf, retransmittables_app in Hk. cbn [map concat] in Hk. rewrite app_nil_r in Hk.
    unfold retransmittables at 2 in Hk. pose proof (zlen_nonneg (List.filter PacketCreator.IsRetransmittableFrame (PacketCreator.queued_frames_ c'))). lia.
  - rewrite !zlen_cons in Hl. pose proof (zlen_nonneg packets). lia.
Qed.

(** Nothing that is to be retransmitted is open when the creator says so. *)
Lemma nothing_retransmittable (c : QuicPacketCreator) : opened c → PacketCreator.HasPendingRetransmittableFrames c = false → retransmittables (PacketCreator.queued_frames_ c) = 0.
Proof.
  intros O H. unfold PacketCreator.HasPendingRetransmittableFrames in H. apply negb_false_iff, bool_decide_eq_true in H. unfold retransmittables.
  rewrite <-(PacketCreator.describes_retransmittable _ _ _ (PacketCreator.opened_described _ _ _ O)). unfold zlen. by rewrite H.
Qed.

Lemma crypto_path fuel level wl offset sofar s :
  retransmittables (PacketCreator.queued_frames_ (packet_creator_ s)) = 0 →
  ready (packet_creator_ s) → opened (packet_creator_ s) → crypto_sendable (packet_creator_ s) level offset wl → 0 <= sofar <= wl →
  wl - sofar <= Z.of_nat fuel → next (packet_creator_ s) + (wl - sofar) < 2 ^ 62 →
  PacketCreator.crypto_overhead (wl - sofar) (offset + sofar) < room (packet_creator_ s) →
  ∃ s' lengths packets, crypto_loop fuel level wl offset sofar s = (Some wl, s')
    ∧ progress (packet_creator_ s) (packet_creator_ s') (crypto_pieces level (offset + sofar) lengths) packets
    ∧ total lengths = wl - sofar ∧ Forall (λ n, 0 < n) lengths ∧ zlen packets <= wl - sofar ∧ Forall (λ x, retransmittables x.1 <= 1) packets
    ∧ retransmittables (PacketCreator.queued_frames_ (packet_creator_ s')) = 0.
Proof.
  revert sofar s. induction fuel as [|fuel IH]; intros sofar s Hre R O Hs Hsofar Hfuel Hnext Hroom.
  { assert (sofar = wl) by lia. subst sofar. exists s, [], []. cbn [crypto_loop]. rewrite Z.ltb_irrefl. split; [done|]. split; [by apply progress_refl|]. rewrite (@zlen_nil (list QuicFrame * SerializedPacket)). split_and!; [cbn; lia|done|lia|constructor|done]. }
  cbn [crypto_loop]. destruct (Z.ltb_spec sofar wl) as [Hlt|Hge].
  2:{ assert (sofar = wl) by lia. subst sofar. exists s, [], []. split; [done|]. split; [by apply progress_refl|]. rewrite (@zlen_nil (list QuicFrame * SerializedPacket)). split_and!; [cbn; lia|done|lia|constructor|done]. }
  pose proof Hs as [Ho Hw He Hd]. rewrite (PacketCreator.wrap64_small (offset + sofar)) by (unfold two63; lia).
  pose proof (PacketCreator.ConsumeCryptoData_spec stream_data crypto_data (packet_creator_ s) level (wl - sofar) (offset + sofar) (fully_pad_crypto_handshake_packets_ s)
    (next_transmission_type_ s) R O ltac:(lia) ltac:(split; [lia|intros; apply Hd; lia]) ltac:(lia)) as H'. cbv zeta in H'.
  destruct (PacketCreator.ConsumeCryptoData _ _ _ _ _ _) as [r c2].
  destruct (Z.ltb_spec (PacketCreator.crypto_overhead (wl - sofar) (offset + sofar)) (room (packet_creator_ s))); [|lia]. destruct H' as [-> P].
  set (n := (room (packet_creator_ s) - PacketCreator.crypto_overhead (wl - sofar) (offset + sofar)) `min` (wl - sofar)) in *. cbn [crypto_length].
  assert (Hn : 0 < n <= wl - sofar) by (unfold n; lia). clearbody n.
  pose proof (PacketCreator.progress_next _ _ _ _ _ _ P) as Hn2. rewrite (@zlen_nil (list QuicFrame * SerializedPacket)), Z.add_0_r in Hn2.
  destruct (PacketCreator.Flush_spec stream_data crypto_data c2 ltac:(apply P) ltac:(lia) ltac:(apply P)) as (packets&P2&Hlen&Hq&_).
  set (s3 := flush_creator (set_creator c2 s)). change (PacketCreator.Flush c2) with (packet_creator_ s3) in *.
  pose proof (PacketCreator.progress_trans _ _ _ _ _ _ _ _ _ P P2) as P3. rewrite app_nil_r in P3. cbn [app] in P3.
  pose proof (PacketCreator.progress_ready _ _ _ _ _ _ P3) as R3.
  assert (Hone : Forall (λ x, retransmittables x.1 <= 1) packets).
  { apply (single_packet _ _ _ _ _ P3 Hlen). rewrite retransmittables_app, Hre. done. }
  destruct (IH (sofar + n) s3 ltac:(by rewrite Hq) R3) as (s'&lengths&more&E&P4&Ht&Hf&Hl&Hmore&Hre'); [apply P3|by apply (crypto_sendable_same (packet_creator_ s)), Hs; apply P3|lia|lia| | |].
  - rewrite (PacketCreator.progress_next _ _ _ _ _ _ P3). lia.
  - apply crypto_has_room; [done|done|lia].
  - exists s', (n :: lengths), (packets ++ more). split; [exact E|]. split; [|rewrite zlen_app; split_and!; [change (n + total lengths = wl - sofar); lia|constructor; [lia|done]|lia|by apply Forall_app|done]].
    cbn [crypto_pieces]. rewrite <-Z.add_assoc. exact (PacketCreator.progress_trans _ _ _ _ _ _ _ _ _ P3 P4).
Qed.

(** No room for crypto data: nothing is accepted. *)
Lemma crypto_refused fuel level wl offset s :
  ready (packet_creator_ s) → opened (packet_creator_ s) → crypto_sendable (packet_creator_ s) level offset wl → next (packet_creator_ s) < 2 ^ 62 →
  0 < wl <= Z.of_nat fuel → room (packet_creator_ s) <= PacketCreator.crypto_overhead wl offset →
  ∃ s', crypto_loop fuel level wl offset 0 s = (None, s') ∧ progress (packet_creator_ s) (packet_creator_ s') [] [].
Proof.
  intros R O [Ho Hw He Hd] Hnext Hfuel Hroom. destruct fuel as [|fuel]; [lia|]. cbn [crypto_loop]. destruct (Z.ltb_spec 0 wl); [|lia].
  rewrite Z.sub_0_r, Z.add_0_r, (PacketCreator.wrap64_small offset) by (unfold two63; lia).
  pose proof (PacketCreator.ConsumeCryptoData_spec stream_data crypto_data (packet_creator_ s) level wl offset (fully_pad_crypto_handshake_packets_ s)
    (next_transmission_type_ s) R O ltac:(lia) ltac:(split; [lia|intros; apply Hd; lia]) ltac:(lia)) as H'. cbv zeta in H'.
  destruct (PacketCreator.ConsumeCryptoData _ _ _ _ _ _) as [r c2]. destruct (Z.ltb_spec (PacketCreator.crypto_overhead wl offset) (room (packet_creator_ s))); [lia|].
  destruct H' as [-> P]. by exists (set_creator c2 s).
Qed.

Lemma no_bundle s : (∀ w told, (BundledAckFrames w told).1 = []) → packet_creator_ (MaybeBundleAckOpportunistically s) = packet_creator_ s.
Proof.
  intros H. unfold MaybeBundleAckOpportunistically. destruct (PacketCreator.has_ack _); [done|].
  pose proof (may_generate_creator NO_RETRANSMITTABLE_DATA NOT_HANDSHAKE s) as Hc. destruct (may_generate _ _ s) as [yes s1]. cbn [snd] in Hc.
  destruct yes; cbn [negb]; [|done]. specialize (H (delegate_ s1) (PacketCreator.calls (packet_creator_ s1))).
  destruct (BundledAckFrames _ _) as [fs d]. cbn [fst] in H. by rewrite H.
Qed.

Lemma maybe_flush (b : bool) s : let c := packet_creator_ s in let c' := packet_creator_ (if b then flush_creator s else s) in
  ready c → opened c → next c < 2 ^ 62 → accepts [] 1 c c' ∧ (PacketCreator.queued_frames_ c = [] → PacketCreator.queued_frames_ c' = []).
Proof.
  intros c c' R O Hn. destruct b; [|by split; [apply accepts_none|]].
  destruct (PacketCreator.Flush_spec stream_data crypto_data c R Hn O) as (packets&P&Hl&Hq&Hp). split; [|done]. by exists [], packets.
Qed.

(** What is to be retransmitted is flushed. *)
Lemma flush_retransmittable s : let c := packet_creator_ s in let c' := packet_creator_ (if HasRetransmittableFrames s then flush_creator s else s) in
  ready c → opened c → next c < 2 ^ 62 →
  accepts [] 1 c c' ∧ (PacketCreator.queued_frames_ c = [] → PacketCreator.queued_frames_ c' = []) ∧ retransmittables (PacketCreator.queued_frames_ c') = 0.
Proof.
  intros c c' R O Hn. destruct (maybe_flush (HasRetransmittableFrames s) s R O Hn) as [A Hq]. split; [done|]. split; [done|]. unfold c'.
  destruct (HasRetransmittableFrames s) eqn:E; [|by apply nothing_retransmittable].
  destruct (PacketCreator.Flush_spec stream_data crypto_data c R Hn O) as (packets&_&_&H&_).
  change (packet_creator_ (flush_creator s)) with (PacketCreator.Flush c). by rewrite H.
Qed.

(** C9. Crypto data is sent whole or not at all, and apart from everything else that may have to be retransmitted. Take a generator
    of version 99 whose creator is set up, crypto data that ends by the 65536th byte, and a delegate that bundles at most two
    frames, legal ACKs that fit an empty packet. First the ACKs are added and what is to be retransmitted is flushed: what is open
    then, in [mid], is not to be retransmitted. From there on the creator accepts crypto frames alone, without a gap and in order,
    and no packet it sends has two frames that are to be retransmitted. Either all the data is reported and is in packets given
    to the delegate, with nothing left open; or none of it is reported and accepted, and then the frames open in [mid], some frames
    that are not to be retransmitted, leave no room for a crypto frame. The packets on the way hold the frames accepted before
    and no error is raised ([progress]). With nothing open and nothing to bundle all the data is sent. *)
Theorem crypto_data_is_sent_whole level write_length offset s :
  let c := packet_creator_ s in
  ready c → opened c → polite c → crypto_sendable c level offset write_length → next c + write_length + 7 < 2 ^ 62 →
  ∃ n s' mid acks lengths before after,
    ConsumeCryptoData level write_length offset s = (n, s')
    ∧ progress c mid acks before ∧ Forall (λ f, PacketCreator.is_ack f = true) acks
    ∧ retransmittables (PacketCreator.queued_frames_ mid) = 0
    ∧ progress mid (packet_creator_ s') (crypto_pieces level offset lengths) after
    ∧ Forall (λ x, retransmittables x.1 <= 1) after
    ∧ total lengths = n ∧ Forall (λ n, 0 < n) lengths
    ∧ (n = write_length ∧ PacketCreator.queued_frames_ (packet_creator_ s') = []
      ∨ n = 0 ∧ 0 < write_length ∧ after = []
          ∧ PacketCreator.queued_frames_ mid ≠ [] ∧ room mid <= PacketCreator.crypto_overhead write_length offset)
    ∧ (PacketCreator.queued_frames_ c = [] → (∀ w told, (BundledAckFrames w told).1 = []) → n = write_length).
Proof.
  intros c R O Hpol Hs Hnext. pose proof Hs as [Ho Hw He _].
  destruct (MaybeBundleAck_spec s R O ltac:(fold c; lia) Hpol) as (acks&A&Hacks). fold c in A. pose proof (no_bundle s) as Hnone. fold c in Hnone.
  set (s1 := MaybeBundleAckOpportunistically s) in *. destruct (accepts_next _ _ _ _ A) as (R1&O1&Hn1&E1&_).
  unfold ConsumeCryptoData. fold s1. set (s2 := if HasRetransmittableFrames s1 then flush_creator s1 else s1).
  destruct (flush_retransmittable s1 R1 O1 ltac:(lia)) as (A2&Hq2&Hre). fold s2 in A2, Hq2, Hre. clearbody s2.
  destruct (accepts_next _ _ _ _ A2) as (R2&O2&Hn2&E2&_).
  assert (Hs2 : crypto_sendable (packet_creator_ s2) level offset write_length).
  { apply (crypto_sendable_same c); [exact (PacketCreator.same_setup_trans _ _ _ E1 E2)|done]. }
  destruct (accepts_acks _ _ _ _ _ _ A A2 Hacks) as (a&p&P12&Ha).
  assert (Hfree : PacketCreator.queued_frames_ (packet_creator_ s2) = [] → PacketCreator.crypto_overhead write_length offset < room (packet_creator_ s2)).
  { intros Hq. apply crypto_has_room; [done|done|lia]. }
  destruct (Z.ltb_spec (PacketCreator.crypto_overhead write_length offset) (room (packet_creator_ s2))) as [Hroom|Hfull].
  - destruct (crypto_path (Z.to_nat write_length) level write_length offset 0 s2 Hre R2 O2 Hs2) as (s3&lengths&packets&E&P3&Ht&Hf&Hl&Hone&Hre3); [lia..|by rewrite Z.sub_0_r, Z.add_0_r|].
    rewrite E. rewrite Z.add_0_r, Z.sub_0_r in *. pose proof (PacketCreator.progress_next _ _ _ _ _ _ P3) as Hn3.
    destruct (PacketCreator.Flush_spec stream_data crypto_data (packet_creator_ s3) ltac:(apply P3) ltac:(lia) ltac:(apply P3)) as (last&P4&Hl4&Hq&_).
    exists write_length, (flush_creator s3), (packet_creator_ s2), a, lengths, p, (packets ++ last). split; [done|]. split; [done|]. split; [done|]. split; [done|]. split.
    { rewrite <-(app_nil_r (crypto_pieces _ _ _)). exact (PacketCreator.progress_trans _ _ _ _ _ _ _ _ _ P3 P4). }
    split; [|split_and!; try done; by left]. apply Forall_app. split; [done|]. apply (single_packet _ _ _ _ _ P4 Hl4). rewrite app_nil_r, Hre3. done.
  - destruct (Z.ltb_spec 0 write_length) as [Hpos|Hz].
    + destruct (crypto_refused (Z.to_nat write_length) level write_length offset s2 R2 O2 Hs2) as (s3&E&P3); [lia..|]. rewrite E.
      exists 0, s3, (packet_creator_ s2), a, [], p, []. do 5 (split; [done|]). split; [constructor|]. split_and!; try done.
      * right. split_and!; try done. intros Hq. specialize (Hfree Hq). lia.
      * intros Hq Hb. specialize (Hfree (Hq2 ltac:(by rewrite (Hnone Hb)))). lia.
    + assert (write_length = 0) by lia. subst write_length. change (crypto_loop (Z.to_nat 0) level 0 offset 0 s2) with (Some 0, s2).
      destruct (PacketCreator.Flush_spec stream_data crypto_data (packet_creator_ s2) R2 ltac:(lia) O2) as (last&P4&Hl4&Hq&_).
      exists 0, (flush_creator s2), (packet_creator_ s2), a, [], p, last. do 5 (split; [done|]). split; [|split_and!; try done; by left].
      apply (single_packet _ _ _ _ _ P4 Hl4). rewrite app_nil_r, Hre. done.
Qed.

(** ** Padding that is due *)

Definition due (c : QuicPacketCreator) : Z := PacketCreator.pending_padding_bytes_ c.
Lemma try_keeps_padding f save type (c : QuicPacketCreator) : due (PacketCreator.TryAddFrame f save type c).2 = due c.
Proof.
  unfold due, PacketCreator.TryAddFrame. pose proof (PacketCreator.sized_kept c) as K.
  assert (E : PacketCreator.pending_padding_bytes_ (PacketCreator.BytesFree c).2 = PacketCreator.pending_padding_bytes_ c).
  { unfold PacketCreator.BytesFree, PacketCreator.PacketSize. by destruct (PacketCreator.queued_frames_ c). }
  destruct (PacketCreator.BytesFree c) as [free c1]. cbn [snd] in E. destruct (_ =? 0); cbn [snd]; [done|]. rewrite <-E.
  match goal with |- context [PacketCreator.PlaceFrame ?f ?b ?t ?n ?c] => destruct (PacketCreator.PlaceFrame_spec f b t n c) as [K' _] end.
  exact (PacketCreator.kept_pending _ _ K').
Qed.

(** Nothing but padding is due. *)
Record only_padding (c : QuicPacketCreator) : Prop := {
  padding_empty : PacketCreator.queued_frames_ c = [];
  padding_not_full : PacketCreator.needs_full_padding_ c = false;
  padding_type : PacketCreator.transmission_type (PacketCreator.packet_ c) ≠ PROBING_RETRANSMISSION;
}.

Lemma padding_is_cut (c : QuicPacketCreator) : ready c → opened c → only_padding c → 0 < due c → due (PacketCreator.MaybeAddPadding c) < due c.
Proof.
  intros R O [Hq Hf Ht] Hd. pose proof (PacketCreator.opened_pending _ _ _ O) as Hp. fold (due c) in Hp. unfold PacketCreator.MaybeAddPadding.
  rewrite (PacketCreator.BytesFree_spec stream_data crypto_data c R O). pose proof (PacketCreator.empty_room stream_data crypto_data c R Hq) as Hr. pose proof (PacketCreator.ready_room c R) as Hr'.
  destruct (PacketCreator.plaintext_below c R) as [Hh Hm]. destruct (Z.eqb_spec (room c) 0); [lia|]. set (c1 := PacketCreator.sized c).
  assert (E1 : due c1 = due c ∧ PacketCreator.needs_full_padding_ c1 = false ∧ PacketCreator.packet_ c1 = PacketCreator.packet_ c).
  { unfold c1, due, PacketCreator.sized. rewrite Hq. done. }
  clearbody c1. destruct E1 as (E1&F1&P1). rewrite P1, bool_decide_false by done.
  assert (E2 : due (PacketCreator.PacketSize c1).2 = due c ∧ PacketCreator.needs_full_padding_ (PacketCreator.PacketSize c1).2 = false).
  { unfold PacketCreator.PacketSize. by destruct (PacketCreator.queued_frames_ c1). }
  destruct (PacketCreator.PacketSize c1) as [size c2]. cbn [snd] in E2. destruct E2 as [E2 F2]. rewrite F2. cbn [negb andb].
  change (PacketCreator.pending_padding_bytes_ c2) with (due c2). rewrite E2. destruct (Z.eqb_spec (due c) 0); [lia|]. cbn [andb]. rewrite try_keeps_padding.
  assert (Hsmall : ∀ z, 0 < z < 32768 → PacketCreator.to_int16 z = z).
  { intros z Hz. unfold PacketCreator.to_int16, wrap16, two16. rewrite Z.mod_small by lia. by destruct (Z.ltb_spec z 32768); [|lia]. }
  rewrite !Hsmall by lia. unfold due at 1. cbn [PacketCreator.pending_padding_bytes_ PacketCreator.set_pending_padding_bytes].
  rewrite PacketCreator.wrap64_small by (unfold two63; lia). lia.
Qed.

Lemma serializing_keeps_padding n (c : QuicPacketCreator) : due (PacketCreator.SerializePacket n c) = due (PacketCreator.MaybeAddPadding (PacketCreator.numbered c)).
Proof.
  unfold PacketCreator.SerializePacket. change (PacketCreator.FillPacketHeader c) with (PacketCreator.header c, PacketCreator.numbered c). cbv iota beta.
  destruct (Packets.encrypter_ _ _); [|done]. destruct (Packets.BuildDataPacket _ _ _ _ _) as [[built|] framer]; [|done].
  by destruct (Packets.EncryptInPlace _ _ _ _ _ _) as [[buffer|] framer'].
Qed.

(** A flush sends padding that is due, and full packets only once. *)
Lemma flush_sends_padding (c : QuicPacketCreator) : ready c → opened c → next c < 2 ^ 62 → 0 < due c ∨ PacketCreator.queued_frames_ c ≠ [] →
  only_padding (PacketCreator.Flush c) ∧ (only_padding c → due (PacketCreator.Flush c) < due c).
Proof.
  intros R O Hn Hd. assert (E : PacketCreator.Flush c = PacketCreator.OnSerializedPacket (PacketCreator.SerializePacket PacketCreator.kMaxOutgoingPacketSize c)).
  { unfold PacketCreator.Flush, PacketCreator.HasPendingFrames. destruct (bool_decide_reflect (length (PacketCreator.queued_frames_ c) = 0%nat)) as [Hl|]; [|done].
    fold (due c). destruct (Z.eqb_spec (due c) 0); [|done]. apply length_zero_iff_nil in Hl. destruct Hd; [lia|done]. }
  pose proof (PacketCreator.SerializePacket_spec stream_data crypto_data c R Hn O) as S. rewrite E. unfold PacketCreator.OnSerializedPacket.
  destruct (PacketCreator.serialized_buffer _ _ _ _ _ S) as (buffer&->&_). split.
  - split; [|done|done]. cbn. apply S.
  - intros Hpad. change (due (PacketCreator.SerializePacket PacketCreator.kMaxOutgoingPacketSize c) < due c). rewrite serializing_keeps_padding.
    destruct (PacketCreator.numbered_facts stream_data crypto_data c R Hn O) as (R1&O1&_&_&_&_&_&Hq1&Hp1). pose proof Hpad as [Hq Hf Ht]. fold (due c) (due (PacketCreator.numbered c)) in Hp1.
    destruct Hd as [Hd|]; [|done]. rewrite <-Hp1. apply padding_is_cut; [done|done|split; [by rewrite Hq1|done|done]|lia].
Qed.

Lemma padding_path fuel more s :
  ready (packet_creator_ s) → opened (packet_creator_ s) → PacketCreator.queued_frames_ (packet_creator_ s) = [] → (0 < due (packet_creator_ s) → only_padding (packet_creator_ s)) →
  due (packet_creator_ s) <= Z.of_nat fuel → next (packet_creator_ s) + due (packet_creator_ s) < 2 ^ 62 →
  ∃ packets, progress (packet_creator_ s) (packet_creator_ (SendRemainingPendingPadding fuel s)) [] packets
    ∧ PacketCreator.queued_frames_ (packet_creator_ (SendRemainingPendingPadding fuel s)) = []
    ∧ SendRemainingPendingPadding (fuel + more) s = SendRemainingPendingPadding fuel s
    ∧ ((∀ w calls r h, (ShouldGeneratePacket w calls r h).1 = true) → due (packet_creator_ (SendRemainingPendingPadding fuel s)) = 0).
Proof.
  revert s. induction fuel as [|fuel IH]; intros s R O Hq Hpad Hfuel Hn; pose proof (PacketCreator.opened_pending _ _ _ O) as Hp; fold (due (packet_creator_ s)) in Hp.
  { assert (due (packet_creator_ s) = 0) by lia. exists []. assert (E : ∀ k, SendRemainingPendingPadding k s = s).
    { intros k. destruct k; cbn [SendRemainingPendingPadding]; fold (due (packet_creator_ s)); by rewrite H. }
    rewrite !E. split; [by apply progress_refl|]. split_and!; done. }
  cbn [Nat.add SendRemainingPendingPadding]. fold (due (packet_creator_ s)). unfold HasPendingFrames, PacketCreator.HasPendingFrames. rewrite Hq. cbn [length]. rewrite bool_decide_true by done. cbn [negb].
  rewrite andb_true_r. destruct (Z.ltb_spec 0 (due (packet_creator_ s))) as [Hpos|Hz].
  2:{ exists []. split; [by apply progress_refl|]. split_and!; [done|done|intros; lia]. }
  pose proof (may_generate_creator NO_RETRANSMITTABLE_DATA NOT_HANDSHAKE s) as Hc. pose proof (willing_yes NO_RETRANSMITTABLE_DATA NOT_HANDSHAKE s) as Hyes.
  destruct (may_generate NO_RETRANSMITTABLE_DATA NOT_HANDSHAKE s) as [yes s1]. cbn [fst snd] in Hc, Hyes. destruct yes; cbn [negb].
  2:{ rewrite Hc. exists []. split; [by apply progress_refl|]. split_and!; [done|done|]. intros H. by specialize (Hyes H). }
  destruct (flush_sends_padding (packet_creator_ s) R O ltac:(lia) (or_introl Hpos)) as [Hpad2 Hless]. specialize (Hless (Hpad Hpos)).
  destruct (PacketCreator.Flush_spec stream_data crypto_data (packet_creator_ s) R ltac:(lia) O) as (packets&P&Hl&Hq2&_).
  rewrite <-Hc in *. set (s2 := flush_creator s1). change (PacketCreator.Flush (packet_creator_ s1)) with (packet_creator_ s2) in *.
  pose proof (PacketCreator.progress_next _ _ _ _ _ _ P) as Hn2.
  destruct (IH s2) as (last&P2&Hq3&Hmore&Hall); [apply P|apply P|done|done|lia|lia|].
  exists (packets ++ last). split; [exact (PacketCreator.progress_trans _ _ _ _ _ _ _ _ _ P P2)|]. by split_and!.
Qed.

(** When the flusher is detached nothing stays behind: all frames that were accepted are in packets given to the delegate, and so
    is all padding that is due, if the delegate lets padding be sent. The loop over the padding ends by itself: more rounds
    than bytes of padding change nothing. *)
Theorem flushing_leaves_nothing s more :
  let c := packet_creator_ s in
  let rounds := Z.to_nat (due (PacketCreator.Flush c)) in
  ready c → opened c → next c + due c + 1 < 2 ^ 62 →
  (∃ packets, progress c (packet_creator_ (Flush s)) [] packets) ∧ PacketCreator.queued_frames_ (packet_creator_ (Flush s)) = []
  ∧ SendRemainingPendingPadding (rounds + more) (flush_creator s) = SendRemainingPendingPadding rounds (flush_creator s)
  ∧ ((∀ w calls r h, (ShouldGeneratePacket w calls r h).1 = true) → due (packet_creator_ (Flush s)) = 0).
Proof.
  intros c rounds R O Hn. pose proof (PacketCreator.opened_pending _ _ _ O) as Hp. fold (due c) in Hp.
  destruct (PacketCreator.Flush_spec stream_data crypto_data c R ltac:(lia) O) as (packets&P&Hl&Hq&Hless). fold (due c) (due (PacketCreator.Flush c)) in Hless.
  assert (Hpad : 0 < due (PacketCreator.Flush c) → only_padding (PacketCreator.Flush c)).
  { intros Hpos. apply flush_sends_padding; [done|done|lia|left; lia]. }
  pose proof (PacketCreator.progress_next _ _ _ _ _ _ P) as Hn2.
  destruct (padding_path rounds more (flush_creator s)) as (last&P2&Hq2&Hmore&Hall); [apply P|apply P|done|done| | |].
  - change (packet_creator_ (flush_creator s)) with (PacketCreator.Flush c). unfold rounds.
    pose proof (PacketCreator.opened_pending _ _ _ (PacketCreator.progress_opened _ _ _ _ _ _ P)) as Hp2. fold (due (PacketCreator.Flush c)) in Hp2. lia.
  - change (packet_creator_ (flush_creator s)) with (PacketCreator.Flush c). lia.
  - split; [|split; [exact Hq2|split; [exact Hmore|exact Hall]]]. exists (packets ++ last). exact (PacketCreator.progress_trans _ _ _ _ _ _ _ _ _ P P2).
Qed.

(** ** Control frames and messages *)

Lemma AddSavedFrame_progress f s : let c := packet_creator_ s in ready c → opened c → next c < 2 ^ 62 → may_add c f →
  ∃ packets, progress c (packet_creator_ (AddSavedFrame f s).2) (if (AddSavedFrame f s).1 then [f] else []) packets ∧ zlen packets <= 1.
Proof.
  intros c R O Hn Hm. unfold AddSavedFrame, PacketCreator.AddSavedFrame. fold c.
  pose proof (PacketCreator.AddFrame_spec stream_data crypto_data f (next_transmission_type_ s) c R Hn O Hm) as H.
  destruct (PacketCreator.AddFrame f true _ c) as [ok c']. destruct H as (packets&P&Hl&_). cbn [fst snd]. by exists packets.
Qed.

(** From one state to another, ACK frames are accepted and then these frames. *)
Definition reported (fs : list QuicFrame) (c c' : QuicPacketCreator) : Prop :=
  ∃ acks packets, progress c c' (acks ++ fs) packets ∧ Forall (λ f, PacketCreator.is_ack f = true) acks.

Lemma reported_then acks k f ok packets c1 c2 c3 : accepts acks k c1 c2 → Forall (λ f, PacketCreator.is_ack f = true) acks →
  progress c2 c3 (if ok : bool then [f] else []) packets → reported (if ok then [f] else []) c1 c3.
Proof.
  intros A Hacks P. destruct (accepts_acks acks k 0 c1 c2 c2 A) as (a&p&P1&Ha); [|done|].
  - apply accepts_none; [|by destruct (accepts_next _ _ _ _ A) as (_&O&_)|done]. by destruct (accepts_next _ _ _ _ A) as (R&_).
  - exists a, (p ++ packets). split; [|done]. exact (PacketCreator.progress_trans _ _ _ _ _ _ _ _ _ P1 P).
Qed.

(** A control frame is consumed if and only if the creator has accepted it. *)
Lemma control_frame_is_reported f s : let c := packet_creator_ s in
  ready c → opened c → polite c → may_add c f → next c + 6 < 2 ^ 62 →
  let '(ok, s') := ConsumeRetransmittableControlFrame f s in reported (if ok then [f] else []) c (packet_creator_ s').
Proof.
  intros c R O Hpol Hm Hnext. destruct (MaybeBundleAck_spec s R O ltac:(fold c; lia) Hpol) as (acks&A&Hacks). fold c in A.
  unfold ConsumeRetransmittableControlFrame. set (s1 := MaybeBundleAckOpportunistically s) in *. destruct (accepts_next _ _ _ _ A) as (R1&O1&Hn1&E1&_).
  assert (Hm1 : may_add (packet_creator_ s1) f) by exact (PacketCreator.may_add_same _ _ _ _ f E1 Hm).
  set (x := if HasPendingFrames s1 then _ else _).
  assert (Hx : ∃ packets, progress (packet_creator_ s1) (packet_creator_ x.2) (if x.1 then [f] else []) packets ∧ zlen packets <= 1).
  { unfold x. destruct (HasPendingFrames s1); [by apply AddSavedFrame_progress; [..|lia|]|]. exists []. split; [by apply progress_refl|done]. }
  destruct x as [ok s2]. destruct Hx as (packets&P&Hl). cbn [fst snd] in P. pose proof (PacketCreator.progress_next _ _ _ _ _ _ P) as Hn2.
  destruct ok; [exact (reported_then acks 4 f true packets _ _ _ A Hacks P)|].
  set (asks := match f with PingFrame | ConnectionCloseFrame _ _ _ _ => false | _ => true end). clearbody asks.
  set (y := if asks then may_generate HAS_RETRANSMITTABLE_DATA NOT_HANDSHAKE s2 else (true, s2)).
  assert (Hy : packet_creator_ y.2 = packet_creator_ s2) by (unfold y; destruct asks; [apply may_generate_creator|done]).
  destruct y as [yes s3]. cbn [snd] in Hy. destruct yes; cbn [negb].
  2:{ rewrite Hy. exact (reported_then acks 4 f false packets _ _ _ A Hacks P). }
  rewrite <-Hy in *. pose proof (PacketCreator.may_add_same _ _ _ _ f (PacketCreator.progress_setup _ _ _ _ _ _ P) Hm1) as Hm3.
  destruct (AddSavedFrame_progress f s3) as (more&P3&_); [apply P|apply P|lia|exact Hm3|]. destruct (AddSavedFrame f s3) as [ok s4]. cbn [fst snd] in P3.
  exact (reported_then acks 4 f ok (packets ++ more) _ _ _ A Hacks (PacketCreator.progress_trans _ _ _ _ _ _ _ _ _ P P3)).
Qed.

(** A message is reported as sent if and only if the creator has accepted it, and one that is too large is refused. *)
Lemma message_is_reported data s : let c := packet_creator_ s in let f := MessageFrame data (zlen (concat data)) in
  ready c → opened c → polite c → may_add c f → next c + 8 < 2 ^ 62 →
  let '(status, s') := AddMessageFrame data s in
  reported (if (match status with MESSAGE_STATUS_SUCCESS => true | _ => false end) then [f] else []) c (packet_creator_ s')
  ∧ (status = MESSAGE_STATUS_TOO_LARGE ↔ GetCurrentLargestMessagePayload (MaybeBundleAckOpportunistically s) < zlen (concat data)).
Proof.
  intros c f R O Hpol Hm Hnext. destruct (MaybeBundleAck_spec s R O ltac:(fold c; lia) Hpol) as (acks&A&Hacks). fold c in A.
  unfold AddMessageFrame. set (s1 := MaybeBundleAckOpportunistically s) in *. destruct (accepts_next _ _ _ _ A) as (R1&O1&Hn1&E1&_).
  destruct (Z.ltb_spec (GetCurrentLargestMessagePayload s1) (zlen (concat data))) as [Hlarge|Hsmall].
  { split; [|done]. exact (reported_then acks 4 f false [] _ _ _ A Hacks (progress_refl _ R1 O1)). }
  unfold PacketCreator.HasRoomForMessageFrame. rewrite (PacketCreator.BytesFree_spec stream_data crypto_data _ R1 O1).
  destruct (PacketCreator.ask_room stream_data crypto_data _ R1 O1) as (R2&O2&_&_&_&Hn2&_).
  assert (P2 : progress (packet_creator_ s1) (PacketCreator.sized (packet_creator_ s1)) [] []).
  { apply PacketCreator.alike_kept; [done|apply PacketCreator.sized_kept|apply PacketCreator.sized_queue|done]. }
  match goal with |- context [?x <=? room (packet_creator_ s1)] => set (has_room := x <=? room (packet_creator_ s1)) end. clearbody has_room.
  set (s2 := set_creator _ s1). assert (Ec : packet_creator_ s2 = PacketCreator.sized (packet_creator_ s1)) by done. rewrite <-Ec in R2, O2, Hn2, P2. clear Ec.
  destruct (maybe_flush (negb has_room) s2 R2 O2 ltac:(lia)) as [A3 _]. set (s3 := if negb has_room then _ else _) in *. clearbody s3.
  destruct (accepts_next _ _ _ _ A3) as (R3&O3&Hn3&E3&_). destruct A3 as (a&packets&P3&Sa&_). apply sublist_nil_r in Sa as ->.
  pose proof (PacketCreator.progress_trans _ _ _ _ _ _ _ _ _ P2 P3) as P23. cbn [app] in P23.
  assert (Hm3 : may_add (packet_creator_ s3) f).
  { exact (PacketCreator.may_add_same _ _ _ _ f (PacketCreator.same_setup_trans _ _ _ E1 (PacketCreator.progress_setup _ _ _ _ _ _ P23)) Hm). }
  destruct (AddSavedFrame_progress f s3 R3 O3 ltac:(lia) Hm3) as (more&P4&_). fold f. destruct (AddSavedFrame f s3) as [ok s4]. cbn [fst snd] in P4. split; [|destruct ok; (split; [discriminate|lia])].
  replace (match (if ok then _ else _) with MESSAGE_STATUS_SUCCESS => true | _ => false end) with ok by (by destruct ok).
  exact (reported_then acks 4 f ok (packets ++ more) _ _ _ A Hacks (PacketCreator.progress_trans _ _ _ _ _ _ _ _ _ P23 P4)).
Qed.
End version_99.
End generator.

(** ** Witnesses *)

Section examples.
#[local] Existing Instance swap_endian.
#[local] Existing Instance swap_endian_laws.
#[local] Existing Instance demo_flags.
Import IetfFramer(example_stream_data, example_crypto_data, example_framer).
Import Crypters(NullEncrypter, NullDecrypter).

(** A delegate that lets every packet go and bundles an ACK of packet 1, and one that lets one packet with data go. *)
Definition demo_ack : QuicFrame := AckFrame (ReceivedPacketManager.mk_frame 1 0 [] [Interval.mk 1 2] false 0 0 0).
Definition willing : Delegate unit := {|
  ShouldGeneratePacket w _ _ _ := (true, w);
  BundledAckFrames w _ := ([demo_ack], w);
|}.
Definition one_packet : Delegate bool := {|
  ShouldGeneratePacket w _ r _ := match r with HAS_RETRANSMITTABLE_DATA => (w, false) | NO_RETRANSMITTABLE_DATA => (true, w) end;
  BundledAckFrames w _ := ([], w);
|}.
Definition demo_randoms (n : nat) : Z := 7.

Definition demo_generator {W} (w : W) (level : EncryptionLevel) : @t NullEncrypter NullDecrypter W :=
  AttachPacketFlusher (mk w (PacketCreator.demo_creator level) NOT_RETRANSMISSION false 0 true PacketNumber.UninitializedPacketNumber).

Lemma demo_polite level : polite (DI := willing) example_stream_data example_crypto_data (PacketCreator.demo_creator level).
Proof.
  intros w told. split; [discriminate|]. apply Forall_cons_2; [|constructor]. split; [done|]. split; [|split; [destruct level; discriminate|done]].
  split; [|done|intros last; vm_compute; repeat constructor; discriminate].
  split; try discriminate; try done. cbn. repeat split; try discriminate; try done.
  - repeat constructor.
  - repeat constructor.
  - intros i Hi. apply list_elem_of_singleton in Hi as ->. discriminate.
  - intros i Hi. apply list_elem_of_singleton in Hi as ->. by left.
Qed.

Lemma demo_stream_sendable : sendable example_stream_data example_crypto_data (PacketCreator.demo_creator ENCRYPTION_FORWARD_SECURE) 4 0 200.
Proof.
  split; try discriminate; try done. intros off n fin H1 H2 H3 Hn. apply PacketCreator.example_stream_ok; [done| |done]. unfold IetfFramer.is_varint. lia.
Qed.

(** Two hundred bytes and the end take three packets of a hundred, behind an ACK. *)
Lemma consumed_data_is_sent_witness :
  ∃ s' acks lengths packets,
    ConsumeData (DI := willing) true demo_randoms 4 200 0 FIN (demo_generator () ENCRYPTION_FORWARD_SECURE) = Some (mk_consumed 200 true, s')
    ∧ PacketCreator.progress example_stream_data example_crypto_data (PacketCreator.demo_creator ENCRYPTION_FORWARD_SECURE) (packet_creator_ s')
        (acks ++ map StreamFrame (pieces 4 0 true lengths)) packets
    ∧ total lengths = 200.
Proof.
  destruct (consumed_data_is_sent (DI := willing) true demo_randoms example_stream_data example_crypto_data 4 200 0 FIN (demo_generator () ENCRYPTION_FORWARD_SECURE)
    (PacketCreator.demo_ready _) (PacketCreator.demo_opened _) (demo_polite _) demo_stream_sendable (λ H, ltac:(discriminate H)) eq_refl eq_refl)
    as (n&b&s'&acks&lengths&packets&E&_&_&P&_&Ht&_&_&Hall).
  destruct (Hall (λ _ _ _ _, eq_refl)) as [-> ->]. exists s', acks, lengths, packets. split; [exact E|]. split; [exact P|exact Ht].
Defined.

Lemma demo_crypto_sendable : crypto_sendable example_stream_data example_crypto_data (PacketCreator.demo_creator ENCRYPTION_HANDSHAKE) ENCRYPTION_HANDSHAKE 1000 150.
Proof.
  split; try discriminate; try done. intros off n H1 H2 H3. apply PacketCreator.example_crypto_ok; [unfold IetfFramer.is_varint; lia|unfold two16; lia].
Qed.

(** A ping is open: it is flushed, and is in no packet with crypto data. *)
Definition demo_pinging : @t NullEncrypter NullDecrypter bool :=
  set_creator (PacketCreator.AddSavedFrame PingFrame NOT_RETRANSMISSION (PacketCreator.demo_creator ENCRYPTION_HANDSHAKE)).2 (demo_generator true ENCRYPTION_HANDSHAKE).

Lemma crypto_data_is_sent_whole_witness :
  ∃ s' (mid : @PacketCreator.t NullEncrypter NullDecrypter) acks lengths (before after : list (list QuicFrame * PacketCreator.SerializedPacket)),
    ConsumeCryptoData (DI := one_packet) ENCRYPTION_HANDSHAKE 150 1000 demo_pinging = (150, s')
    ∧ concat (map fst before) ++ PacketCreator.queued_frames_ mid = PingFrame :: acks
    ∧ retransmittables (PacketCreator.queued_frames_ mid) = 0
    ∧ concat (map fst after) ++ PacketCreator.queued_frames_ (packet_creator_ s')
      = PacketCreator.queued_frames_ mid ++ crypto_pieces ENCRYPTION_HANDSHAKE 1000 lengths
    ∧ Forall (λ x, retransmittables x.1 <= 1) after ∧ total lengths = 150.
Proof.
  assert (Hping : PacketCreator.may_add example_stream_data example_crypto_data (PacketCreator.demo_creator ENCRYPTION_HANDSHAKE) PingFrame).
  { split; [exact PacketCreator.example_ping_ok|split; exact I]. }
  pose proof (PacketCreator.AddFrame_spec (EL := swap_endian_laws) example_stream_data example_crypto_data PingFrame NOT_RETRANSMISSION _
    (PacketCreator.demo_ready ENCRYPTION_HANDSHAKE) eq_refl (PacketCreator.demo_opened _) Hping) as H.
  assert (Es : packet_creator_ demo_pinging = (PacketCreator.AddFrame PingFrame true NOT_RETRANSMISSION (PacketCreator.demo_creator ENCRYPTION_HANDSHAKE)).2) by reflexivity.
  destruct (PacketCreator.AddFrame PingFrame true NOT_RETRANSMISSION (PacketCreator.demo_creator ENCRYPTION_HANDSHAKE)) as [ok c]. cbn [snd] in Es. subst c.
  destruct H as (packets&P0&_).
  destruct (crypto_data_is_sent_whole (DI := one_packet) (EL := swap_endian_laws) example_stream_data example_crypto_data ENCRYPTION_HANDSHAKE 150 1000 demo_pinging
    (PacketCreator.progress_ready _ _ _ _ _ _ P0) (PacketCreator.progress_opened _ _ _ _ _ _ P0)) as (n&s'&mid&acks&lengths&before&after&E&P&_&Hre&P2&Hone&Ht&_).
  { intros w told. split; [discriminate|constructor]. }
  { apply (crypto_sendable_same _ _ (PacketCreator.demo_creator ENCRYPTION_HANDSHAKE)); [apply P0|exact demo_crypto_sendable]. }
  { vm_compute. reflexivity. }
  assert (En : (ConsumeCryptoData (DI := one_packet) ENCRYPTION_HANDSHAKE 150 1000 demo_pinging).1 = 150) by (vm_compute; reflexivity).
  rewrite E in En. cbn [fst] in En. rewrite En in E, Ht. exists s', mid, acks, lengths, before, after. split; [exact E|].
  split; [exact (PacketCreator.progress_frames _ _ _ _ _ _ P)|]. split; [exact Hre|]. split; [exact (PacketCreator.progress_frames _ _ _ _ _ _ P2)|]. split; [exact Hone|exact Ht].
Defined.

Lemma flushing_leaves_nothing_witness :
  let s := AddRandomPadding demo_randoms (demo_generator () ENCRYPTION_FORWARD_SECURE) in
  due (packet_creator_ s) = 8 ∧ due (packet_creator_ (Flush (DI := willing) s)) = 0.
Proof.
  intros s. split; [reflexivity|].
  assert (O : PacketCreator.opened example_stream_data example_crypto_data (packet_creator_ s)).
  { destruct (PacketCreator.demo_opened ENCRYPTION_FORWARD_SECURE). split; try done. }
  assert (R : PacketCreator.ready (packet_creator_ s)).
  { apply (PacketCreator.ready_same (PacketCreator.demo_creator ENCRYPTION_FORWARD_SECURE)); [by split|discriminate|apply PacketCreator.demo_ready]. }
  destruct (flushing_leaves_nothing (DI := willing) example_stream_data example_crypto_data s 0 R O eq_refl) as (_&_&_&H).
  exact (H (λ _ _ _ _, eq_refl)).
Defined.

(** Crypto data that goes over the 65536th byte is sent up to there, and then none of it is reported. *)
Lemma sent_crypto_data_is_not_reported :
  let '(n, s) := ConsumeCryptoData (DI := one_packet) ENCRYPTION_HANDSHAKE 200 65472 (demo_generator true ENCRYPTION_HANDSHAKE) in
  n = 0 ∧ length (PacketCreator.calls (packet_creator_ s)) = 1%nat.
Proof. vm_compute. by split. Qed.

(** Stream data leaves a client that has only the keys of the handshake if it is long, and raises an error if it is not. *)
Lemma fast_path_has_no_check_of_keys :
  let consume n := ConsumeData (DI := one_packet) true demo_randoms 4 n 0 NO_FIN (demo_generator true ENCRYPTION_HANDSHAKE) in
  match consume 1453, consume 50 with
  | Some (sent, s), Some (refused, s') =>
      0 < bytes_consumed sent ∧ length (PacketCreator.calls (packet_creator_ s)) = 1%nat
      ∧ bytes_consumed refused = 0
      ∧ PacketCreator.calls (packet_creator_ s') = [OnUnrecoverableError PacketCreator.QUIC_ATTEMPT_TO_SEND_UNENCRYPTED_STREAM_DATA]
  | _, _ => False
  end.
Proof. vm_compute. split_and!; reflexivity. Qed.
End examples.
End PacketGenerator.
